(* ===== verification/_CoqProject ===== *)
-Q . S2P
Prelude.v
ChunkedRangeVector.v
ChunkedFacts.v
ChunkedOps.v
IndexSet.v
LoopFacts.v
IndexSetFacts.v
IndexSetEdits.v
IndexSetWalk.v
IndexSetMerge.v
CorrFacts.v
AddShiftedFacts.v
ChangeBuilder.v
ChangeFacts.v
ChangeMove.v
ChangeMerge.v
ChangeMergeMoves.v
ChangeCompose.v
ChangeTable.v
ChangeComplete.v
ChangeCalculation.v
TransactInfo.v
TransactLog.v
KVO.v
ListRefinement.v
TransactFacts.v
Property.v
Core.v
ReferenceCore.v
ObjectSchema.v
SchemaChanges.v
SchemaFacts.v
CompareFacts.v
ObjectStore.v
SchemaUpdate.v
StoreFacts.v
SchemaCreation.v
SharedRealm.v
RealmFacts.v
RealmCache.v
StoreEdits.v
DeepChecker.v
DeepCheckerFacts.v
MatchedRows.v
SortedCalculation.v
UnsortedCalculation.v
CalculateFacts.v
CollectionNotifier.v
DeliverySpec.v
Notifiers.v
ResultsFacts.v
Coordinator.v
AsyncNotifiers.v
CoordinatorFacts.v
CoordinatorInvariant.v
DeliveryFacts.v
CoordinatorRun.v
Samples.v
NotifierSamples.v
SyncConfig.v
SyncNotifiers.v
SyncSession.v
SyncSpec.v
SyncRefinement.v
SyncReach.v
SyncRuns.v
SyncUsers.v
SyncUserFacts.v
SyncPersistence.v
SyncFile.v
IndexSetTheorems.v
ChangeTheorems.v
ObserverTheorems.v
SchemaTheorems.v
StoreTheorems.v
RealmTheorems.v
SyncTheorems.v
NotifierTheorems.v
CoordinatorTheorems.v
SyncUserTheorems.v
