(* ===== verification/Prelude.v ===== *)
(** * The object store of Realm, verified

    The repository is an iOS application; its C++ is the Realm object store that
    the application vendors under src/App/Pods/Realm (sources in
    Realm/ObjectStore/src, public headers in include). This library models the
    parts of the object store that compute something of their own, and proves
    them correct. Paths below are relative to those two directories.

    ** The program and its parts

    - An [IndexSet] (index_set.cpp) is a set of row indices, kept as sorted
      ranges in a vector of chunks.
    - A [CollectionChangeBuilder] (impl/collection_change_builder.cpp) records
      what happens to a collection during a transaction as index sets of
      insertions, deletions and modifications and a list of moves, and composes
      such change sets; [calculate] computes one from two versions of a query.
    - The transaction log observers (impl/transact_log_handler.cpp) are called
      with the instructions of a transaction log; they feed the builders of the
      observed tables and lists, follow key-value observed rows, and refuse logs
      that change the schema. [advance_with_notifications] orders the advance
      and the notifications.
    - Notifiers run on a background thread: a [ResultsNotifier], [ListNotifier],
      [PrimitiveListNotifier] or [ObjectNotifier] (impl/*_notifier.cpp) computes
      what changed in a collection, with a [DeepChangeChecker] that follows links.
      A [CollectionNotifier] (impl/collection_notifier.cpp) accumulates the
      changes for each of its callbacks, packages them and calls user code before
      and after the Realm advances; user code may add and remove callbacks.
    - The background worker of the [RealmCoordinator] (impl/realm_coordinator.cpp)
      runs the notifiers: those that have run share a group at one version; new
      ones are brought forward on a second group from the versions they were
      created at, with one [TransactionChangeInfo] per version.
    - [Property], [ObjectSchema] and [Schema] (property.hpp, object_schema.cpp,
      schema.cpp) describe the types of a Realm; they are validated and
      compared, which yields a list of schema changes.
    - The object store proper (object_store.cpp) checks such lists against the
      mode of the Realm and applies them to the tables of a group, keeps the
      schema version and the primary keys, and renames properties.
    - A [Realm] (shared_realm.cpp) reads the versions of a file and writes new ones; it
      compares the schema the application asks for with that of the file and, depending
      on its mode, writes it or refuses it. The Realms of a process share the schema of
      a range of versions in a cache of the coordinator.
    - A [SyncSession] (sync/sync_session.cpp) connects a Realm file with a
      server: it owns a session of the library realm-sync, moves between four
      states, queues the completion handlers of the application, and notifies of
      progress and of changes of the connection.
    - A [SyncUser] (sync/sync_user.cpp) has such sessions, closes them when it is
      logged out and revives them at the next login. The [SyncManager]
      (sync/sync_manager.cpp) keeps the users and the sessions, makes the users again
      from their metadata (sync/impl/sync_metadata.cpp) when the application starts,
      and knows where files are (sync/impl/sync_file.cpp).
    They call each other downwards: the coordinator calls notifiers, notifiers call [calculate] and [merge],
    observers call builders, builders call index sets; a Realm calls the object store, which calls the comparison and, below it, realm-core. The
    sync parts stand apart: what they share with the rest is realm-core. A user calls its
    sessions and the manager, the manager calls users, and sessions unregister themselves.

    ** Files

    Definitions, in the order of their dependencies:
    - Prelude.v: [size_t] with its wrap-around ([u64], [+!], [-!]), builds with
      and without assertions ([Build], [REALM_ASSERT]), vectors, loops
      ([while], [foldM]), [lower_bound], and the lemmas on them.
    - ChunkedRangeVector.v and IndexSet.v: index_set.hpp and index_set.cpp.
    - ChangeBuilder.v and ChangeCalculation.v: the change sets and [calculate].
    - TransactInfo.v, TransactLog.v, KVO.v: impl/transact_log_handler.cpp, the
      state of impl/collection_notifier.hpp and binding_context.hpp.
    - Property.v, ObjectSchema.v, SchemaChanges.v: properties, schemas, their
      validation and comparison, and the checks of object_store.cpp.
    - DeepChecker.v: the checker of impl/collection_notifier.cpp, over the links
      of a group ([LinkTables], with laws); CollectionNotifier.v: the rest of that
      file and collection_notifications.cpp; Notifiers.v: the four notifiers.
    - Coordinator.v: the worker, over any shared group ([SharedGroups], with laws)
      and any notifier ([AsyncNotifier], with laws); AsyncNotifiers.v: the
      notifiers of lists and objects are such; CoordinatorInvariant.v: the steps of
      the worker and of other threads ([co_step]) and what holds between them.
    - Core.v: the interface of realm-core, as a class of operations ([Core]) and
      a class of laws ([CoreLaws]) taken from the comments of its headers;
      ReferenceCore.v: an implementation of both.
    - ObjectStore.v and SchemaUpdate.v: the rest of object_store.cpp.
    - SharedRealm.v: shared_realm.cpp and the cache of schemas, over the snapshots of
      a file ([Files]).
    - SyncConfig.v, SyncNotifiers.v and SyncSession.v: sync/sync_config.hpp, the
      notifiers and the rest of sync/sync_session.hpp and sync_session.cpp.
    - SyncSpec.v: what a session promises, as moves of an abstract state.
    - SyncUsers.v: users, the registries of the manager, rows of users and what
      [configure] does with them; SyncFile.v: percent-encoding, paths, the file manager
      over any file system ([FileSystem]), file actions, with the lemmas on them.
    A definition has the name of the function it translates; the handlers and
    operations are translated whole, with their assertions and early returns.
    Proofs are in the files named after a part and ending in Facts, Ops, Edits,
    Merge and the like; for [calculate] in MatchedRows, SortedCalculation,
    UnsortedCalculation and CalculateFacts; for the callbacks in DeliverySpec (the
    delivery without indices) and DeliveryFacts; for the coordinator in
    CoordinatorFacts, CoordinatorInvariant and CoordinatorRun; for Realms in RealmFacts
    (rules for their computations, updates of the schema) and RealmCache (the cache,
    several Realms); for the sessions in SyncRefinement, SyncReach and SyncRuns, for
    the users in SyncUserFacts (histories, logout and login) and SyncPersistence
    (metadata and restarts). The properties are in the ten files IndexSetTheorems.v, ChangeTheorems.v, ObserverTheorems.v,
    NotifierTheorems.v, CoordinatorTheorems.v, SchemaTheorems.v, StoreTheorems.v, RealmTheorems.v,
    SyncTheorems.v and SyncUserTheorems.v, with the concrete values of Samples.v and NotifierSamples.v.

    ** State and its correspondence

    - A computation that can fail an assertion, or reach an access that the
      language leaves undefined, is an [option]; [None] is such an end. A
      function of the object store yields an [outcome]: it ends, throws, or is
      stuck. Theorems that say [ends] or give [Some] include termination.
    - An iterator into a chunked vector is a pair of positions, and the caches of
      a chunk ([begin], [end], [count]) are fields that the code has to keep
      right; the invariant [wf] says that they are.
    - The pointer an observer holds into a vector of builders is a position
      together with the generation of the vector: pushing to the vector starts
      a new generation, and a call through an old pointer is undefined.
    - The builders of lists live in a store of their own, since two entries of
      the observer may share one.
    - A callback function is a number, and user code a function from the calls
      so far to the operations it performs on the notifier: the lock is released
      while it runs. Packages hold the addresses of notifiers in a store.
    - Of a query, a table view or a list a notifier reads the rows; rows of
      tables are read through [LinkTables].
    - The coordinator, the notifiers by address and the version of the latest
      snapshot are a [world]. A run of the worker is cut where it gives up the
      lock, what it keeps in variables then are its [locals]. The notifiers' pointers
      to infos are positions in the vector of infos, which has a capacity.
    - An exception of the object store leaves no state: the callers roll the
      transaction back. One of a Realm leaves the state it was thrown in ([realmM]).
    - A file is the list of its snapshots, whose positions are the versions. What a
      Realm has open is its [stage]. Methods run one after the other; [update_schema]
      is given what other threads and processes commit before it obtains the lock.
    - A method of a session is a list of tasks: what it does under a lock is one
      task, and so is each call that it makes without one. [run] yields the new
      state and the tasks that follow; [step] interleaves the tasks of any number
      of threads with calls of the application, reports of the library, the end
      of waits the library owes, and dropped references; [reachable] is its
      closure. The methods of the four states have the names of the classes of
      the source as prefixes ([Active_close]), and the [State_] functions are the
      virtual calls. What others see of a session is its [trace].
    - Users and sessions of the manager are found by address in its state; of a session
      it sees the path and whether it is inactive, and it is alive as long as it is
      registered. What the application and the sessions do is an [op], a [history] is a
      sequence of them, and [runs] adds restarts, in which only the metadata is left.
      Files are operated on in a monad of their own ([fileM]): a computation ends the
      process, throws or returns, and the state of the file system stays.
    - What the C++ library leaves open is a parameter: the order of equal
      elements after [std::sort] and of the elements of an unordered map
      ([StdOrders], [HashOrders]), the order within [std::partition] ([StdPartition]), whether
      [char] is signed ([Platform]). The theorems hold for every choice.

    ** Fuel

    [while] takes a bound on the tests of its condition and yields [None] when
    it runs out, so a theorem that gives [Some] says that the bound was enough.
    The loops of index sets use the number of ranges plus one ([ranges_fuel]):
    every iteration consumes a range. Walking the members of a set uses the
    number of members plus one. [find_longest_matches] and [lower_bound] are
    given the length of the sequence they divide. [find_related_tables] has one
    level for each table of the group and two more, [check_row] one for each
    element of the path and one more ([check_fuel]); the loop over callbacks has
    their number plus one; [swap_remove] has the length of the vector. [run_all] takes a bound on the
    tasks of a thread that runs alone; the theorems about it say that some bound
    is enough. [invoke_removing] calls at most every registered callback and is
    given their number plus one. [make_raw_loop] has the length of the string.

    ** What is proved

    - Index sets: each operation acts on the set of members as its name says and
      keeps [wf]; iteration visits the members in order. Two theorems exhibit
      ranges on which [count] and the builder of [add_shifted_by] are wrong.
    - Change sets: a builder tracks the rows of a collection ([tracks]): a
      correspondence between old and new indices. Every operation changes it as
      the edit of the collection does; [merge] is composition; [parse_complete]
      turns the mapping of a table into moves; [finalize] reports both sides.
    - Observers: the change set of a watched list explains its new contents
      (a refinement over arbitrary sequences of instructions); observed rows
      and columns are found again; the observer refuses the logs the validator
      refuses; notifications come in order and stop when the Realm is closed.
    - Notifiers: [calculate] returns a diff in every build, with and without
      candidates for moves; the checker finds exactly the rows that lead to a
      modified row in three links; a results notifier explains how the objects of
      its collection changed, across what happened to the table; a list notifier
      adds the deep changes. The callbacks keep their invariant in every history,
      the delivery loops refine a loop without indices, each callback is told
      everything since it was told last, once, and errors likewise. Five theorems
      show where swaps of rows, links of a table to itself, deleted lists and
      callbacks that come and go between packaging and delivery go wrong.
    - Coordinator: in every interleaving of registrations, writes, what happens to
      notifiers and the parts of runs, the advancer reads at or before the version
      of every new notifier and the other group at the version of those that have
      run; both are at rest without notifiers; the clean-up finds what it asserts;
      a run serves every live notifier; infos of several steps are combined into the
      changes from each step to the last version. One theorem shows that after an
      error the second notifier that comes and goes breaks the assertion of the
      clean-up.
    - Schemas: a schema that validates is well formed; [compare] reports the
      differences, all of them, in an order in which the column of each change
      is still right; lookup finds types unless [char] is signed and a name has
      a byte above 127.
    - The object store, over any library that satisfies [CoreLaws]: the table of
      primary keys refines a finite map; versions and columns round-trip; a new
      file gets the schema it is asked for; making a property optional keeps
      every cell. Two theorems show where [rename_property] is wrong and that
      lists of values cannot be made optional.
    - Realms: an update of the schema is atomic; Realms that cannot write do not; a new
      file is opened again without a write; while other processes change the schema, in
      every run of several Realms the versions the cached schema is kept for have its
      tables and columns ([layout]), and no assertion fails. What the library notifies of
      are tables and columns ([FilesLaws]): primary keys and search indexes may change
      without it. Two theorems show, for any Realm that writes, how the cache comes to
      hold the schema of an older version, and exactly when an update leaves its write
      transaction open.
    - Sync sessions: every task refines the moves of the specification, so that
      in every interleaving the state changes as documented, handlers are called
      at most once and none is lost, and the library owes an end to every queue;
      the tasks that fail are listed, and nothing else fails. Updates of the
      configuration and client resyncs run to their end. Five theorems exhibit
      interleavings on which a session goes wrong.
    - Users: in every run with restarts users, sessions, registries and metadata agree;
      a restart yields the users that were logged in, with what they had, and of those
      that were logged out the ones whose administrator's flag has been written since
      ([runs] says which); a login revives exactly the sessions that a logout closed and that are still
      registered; the current user does not depend on the order of the map. One
      theorem shows what writing the flag of any user that is logged out does. Realms
      and users have paths of their own that stay where they should; names are encoded
      and decoded, except those with characters below 16; file actions are a map, and
      those that were not completed stay.

    ** Not modelled

    Builds of the object store with sync create tables through functions that
    the repository has no source for: the appliers are modelled for both
    builds, the theorem on new files is for builds without sync. The accessors
    (results.cpp, list.cpp, object.cpp), the rest of the coordinator, permissions and
    partial sync read and write Realms through realm-core, of which there is no source.
    Of a Realm the opening of the file, compaction, copies, privileges, references
    for other threads and all notifications are left out; what a migration did before
    it threw is not seen by the rollback.
    Operations of users and of the manager are atomic in the model, so that it does not
    show the order in which they lock their mutexes; the sync client, the loggers, the
    binding contexts and the opening and migration of the metadata Realm are left out, and
    while a theorem speaks of metadata no other process writes it. Of the notifiers the mutexes are left out,
    which the coordinator holds, and the transfer of queries and rows between
    shared groups. That the builders of tables keep moved rows in front
    ([moves_stay_in_front]) is a hypothesis of the theorem on results in table
    order; swaps of rows violate it. Of the constructor of a
    session, the validation of the history is left out, which opens a Realm. The
    session is never destroyed in the model: a function passed to the library
    holds a weak pointer and does nothing after that. Files, sockets and the key
    chain are the operating system's. The Objective-C and Swift bindings, the
    application and realm-core itself are not part of the development. *)

From stdpp Require Export base tactics numbers option list list_numbers sets sorting gmap.

(** ** Build configuration

    The source is compiled either with or without [REALM_DEBUG] and
    [REALM_ENABLE_ASSERTIONS]; both are kept as parameters of the model. *)
Class Build := {
  realm_debug : bool;
  realm_enable_assertions : bool;
}.

Definition REALM_ASSERTIONS_ENABLED `{Build} : bool :=
  realm_enable_assertions || realm_debug.

(** A failing assertion terminates the process. A computation of the model
    is an [option]: [None] stands for a terminated process or for an access
    that is undefined behaviour in C++. *)
Definition REALM_ASSERT_RELEASE (condition : bool) : option unit :=
  if condition then Some tt else None.

Definition REALM_ASSERT `{Build} (condition : bool) : option unit :=
  if REALM_ASSERTIONS_ENABLED then REALM_ASSERT_RELEASE condition else Some tt.

Definition REALM_ASSERT_DEBUG `{Build} (condition : bool) : option unit :=
  if realm_debug then REALM_ASSERT_RELEASE condition else Some tt.

Definition debug_build : Build :=
  {| realm_debug := true; realm_enable_assertions := true |}.
Definition release_build : Build :=
  {| realm_debug := false; realm_enable_assertions := false |}.

(** ** [size_t]

    A [size_t] is a [Z] in [0 .. 2^64 - 1]; every addition and subtraction
    of the source is written with its wrap-around. *)
Definition u64 (z : Z) : Z := z mod 2 ^ 64.

Declare Scope size_t_scope.
Delimit Scope size_t_scope with sz.
Notation "a +! b" := (u64 (a + b)) (at level 50, left associativity) : size_t_scope.
Notation "a -! b" := (u64 (a - b)) (at level 50, left associativity) : size_t_scope.
#[global] Open Scope size_t_scope.

(** [static_cast<size_t>(-1)], the "not found" value. *)
Definition npos : Z := 2 ^ 64 - 1.

Definition is_u64 (z : Z) : Prop := (0 <= z < 2 ^ 64)%Z.

(** [std::min] and [std::max]. *)
Abbreviation std_min := Z.min.
Abbreviation std_max := Z.max.

(** [std::vector] edits at a position: the positions are indices into the
    vector, hence [nat]. *)
Definition vec_insert {A} (i : nat) (x : A) (l : list A) : list A :=
  take i l ++ x :: drop i l.

Definition vec_erase {A} (i : nat) (l : list A) : list A :=
  take i l ++ drop (S i) l.

Definition vec_resize {A} (n : nat) (d : A) (l : list A) : list A :=
  resize n d l.

(** [std::find_if], [std::lower_bound]: the first position at which a
    predicate holds ([std::lower_bound] for ranges partitioned by it). *)
Fixpoint find_index {A} (p : A -> bool) (l : list A) : option nat :=
  match l with
  | [] => None
  | x :: l => if p x then Some 0 else S <$> find_index p l
  end.

(** [std::lower_bound] with the predicate [lt x = comp(x, value)], as the C++
    libraries implement it: [first] and [len] delimit what is left to search. On
    a range that is not partitioned by [lt] the result is still the one of the
    halving. [fuel] bounds the number of halvings, the length is enough. *)
Fixpoint lower_bound_from {A} (lt : A -> bool) (l : list A) (fuel first len : nat) : nat :=
  match fuel with
  | O => first
  | S fuel =>
      match len with
      | O => first
      | _ =>
          let half := len / 2 in
          match l !! (first + half) with
          | Some x => if lt x then lower_bound_from lt l fuel (first + half + 1) (len - half - 1)
                      else lower_bound_from lt l fuel first half
          | None => first
          end
      end
  end.

Definition lower_bound {A} (lt : A -> bool) (l : list A) : nat :=
  lower_bound_from lt l (length l) 0 (length l).

(** A [for]/[while] loop. [fuel] bounds the number of tests of the condition;
    a loop that runs out of fuel yields [None], so that a result [Some _]
    includes termination. *)
Fixpoint while {St} (fuel : nat) (cond : St -> option bool)
    (body : St -> option St) (s : St) : option St :=
  match fuel with
  | O => None
  | S fuel =>
      b ← cond s;
      if b : bool then s ← body s; while fuel cond body s else Some s
  end.

(** A range-based [for] over a sequence the body does not change. *)
Fixpoint foldM {A St} (body : A -> St -> option St) (l : list A) (s : St) : option St :=
  match l with
  | [] => Some s
  | x :: l => s ← body x s; foldM body l s
  end.

(** ** Lemmas on [size_t] *)

Lemma u64_small (z : Z) : (0 <= z < 2 ^ 64)%Z -> u64 z = z.
Proof. apply Z.mod_small. Qed.

Lemma u64_range (z : Z) : (0 <= u64 z < 2 ^ 64)%Z.
Proof. apply Z.mod_pos_bound. lia. Qed.

Lemma u64_add_l (a b : Z) : u64 (u64 a + b) = u64 (a + b).
Proof. apply Zplus_mod_idemp_l. Qed.

Lemma u64_add_r (a b : Z) : u64 (a + u64 b) = u64 (a + b).
Proof. apply Zplus_mod_idemp_r. Qed.

Lemma u64_sub_l (a b : Z) : u64 (u64 a - b) = u64 (a - b).
Proof. apply Zminus_mod_idemp_l. Qed.

Lemma u64_sub_r (a b : Z) : u64 (a - u64 b) = u64 (a - b).
Proof. apply Zminus_mod_idemp_r. Qed.

Lemma u64_u64 (a : Z) : u64 (u64 a) = u64 a.
Proof. apply Zmod_mod. Qed.

Create Rewrite HintDb u64.
#[export] Hint Rewrite u64_add_l u64_add_r u64_sub_l u64_sub_r u64_u64 : u64.

(** Two wrapped expressions are equal when the unwrapped ones are. *)
Ltac u64_ring := autorewrite with u64; try (f_equal; lia).

(** Drops the wrap-around of every expression [lia] proves in range. *)
Ltac u64_drop :=
  repeat match goal with
  | |- context [u64 ?z] => rewrite (u64_small z) by lia
  | H : context [u64 ?z] |- _ => rewrite (u64_small z) in H by lia
  end.

(** ** Lemmas on [lower_bound] *)

(** [k] is where the range stops satisfying [lt]. *)
Definition boundary {A} (lt : A -> bool) (l : list A) (k : nat) : Prop :=
  k <= length l /\ forall i x, l !! i = Some x -> lt x = bool_decide (i < k).

Lemma lower_bound_from_spec {A} (lt : A -> bool) (l : list A) k : boundary lt l k ->
  forall fuel first len, len <= fuel -> first <= k <= first + len -> first + len <= length l ->
  lower_bound_from lt l fuel first len = k.
Proof.
  intros [Hk Hlt]. induction fuel as [|fuel IH]; intros first len Hf Hr Hl; cbn [lower_bound_from]; [lia|].
  destruct len as [|len]; [lia|]. set (half := S len / 2). assert (half < S len) by (apply Nat.div_lt; lia).
  destruct (l !! (first + half)) as [x|] eqn:Hx; [|apply lookup_ge_None in Hx; lia].
  rewrite (Hlt _ _ Hx). case_bool_decide; apply IH; lia.
Qed.

Lemma lower_bound_spec {A} (lt : A -> bool) (l : list A) k : boundary lt l k -> lower_bound lt l = k.
Proof. intros Hb. pose proof Hb as [? _]. apply lower_bound_from_spec; (done || lia). Qed.

(** A range that [lt] partitions has a boundary. *)
Lemma boundary_exists {A} (lt : A -> bool) (l : list A) :
  (forall i j x y, i < j -> l !! i = Some x -> l !! j = Some y -> lt y = true -> lt x = true) ->
  exists k, boundary lt l k.
Proof.
  induction l as [|x l IH]; intros Hp; [exists 0; by split|].
  destruct (lt x) eqn:Hx.
  - destruct IH as [k [Hk Hlt]]; [intros i j y z ? ? ?; apply (Hp (S i) (S j)); (done || lia)|].
    exists (S k). split; [simpl; lia|]. intros [|i] y Hy; [by injection Hy as <-|].
    rewrite (Hlt i y Hy). apply bool_decide_ext. lia.
  - exists 0. split; [simpl; lia|]. intros i y Hy. rewrite bool_decide_false by lia.
    destruct i; [by injection Hy as <-|]. apply not_true_is_false. intros Hty.
    by rewrite (Hp 0 (S i) x y) in Hx; [|lia|..].
Qed.

(** ** Lemmas on assertions and loops *)

Section asserts.
Context `{Build}.

Lemma REALM_ASSERT_true (b : bool) : b = true -> REALM_ASSERT b = Some tt.
Proof. intros ->. unfold REALM_ASSERT. by destruct REALM_ASSERTIONS_ENABLED. Qed.

Lemma REALM_ASSERT_decide (P : Prop) `{Decision P} : P -> REALM_ASSERT (bool_decide P) = Some tt.
Proof. intros HP. by apply REALM_ASSERT_true, bool_decide_eq_true. Qed.

Lemma REALM_ASSERT_DEBUG_true (b : bool) : b = true -> REALM_ASSERT_DEBUG b = Some tt.
Proof. intros ->. unfold REALM_ASSERT_DEBUG. by destruct realm_debug. Qed.
End asserts.

Lemma while_S {St} fuel (cond : St -> option bool) body (s : St) :
  while (S fuel) cond body s =
  (b ← cond s; if b : bool then s ← body s; while fuel cond body s else Some s).
Proof. reflexivity. Qed.

(** The loop rule: an invariant, a measure that [body] decreases, and the
    fuel covering the measure give a terminating run. *)
Lemma while_rule {St} (Inv : St -> Prop) (measure : St -> nat)
    (cond : St -> option bool) (body : St -> option St) (fuel : nat) (s : St) :
  Inv s -> measure s < fuel ->
  (forall s, Inv s ->
     (exists s', cond s = Some true /\ body s = Some s' /\ Inv s' /\ measure s' < measure s)
     \/ cond s = Some false) ->
  exists s', while fuel cond body s = Some s' /\ Inv s' /\ cond s' = Some false.
Proof.
  intros Hinv Hfuel Hstep. revert s Hinv Hfuel.
  induction fuel as [|fuel IH]; intros s Hinv Hfuel; [lia|].
  rewrite while_S. destruct (Hstep s Hinv) as [(s' & Hc & Hb & Hinv' & Hm)|Hc].
  - rewrite Hc; simpl. rewrite Hb; simpl. apply IH; [done|lia].
  - rewrite Hc; simpl. eauto.
Qed.

Lemma foldM_app {A St} (body : A -> St -> option St) (l1 l2 : list A) (s : St) :
  foldM body (l1 ++ l2) s = (s ← foldM body l1 s; foldM body l2 s).
Proof.
  revert s. induction l1 as [|x l1 IH]; intros s; simpl; [done|].
  destruct (body x s); simpl; auto.
Qed.

(** ** Lemmas on vectors *)

Lemma vec_insert_app {A} (l1 l2 : list A) (x : A) :
  vec_insert (length l1) x (l1 ++ l2) = l1 ++ x :: l2.
Proof. unfold vec_insert. by rewrite take_app_length, drop_app_length. Qed.

Lemma vec_erase_app {A} (l1 l2 : list A) (x : A) :
  vec_erase (length l1) (l1 ++ x :: l2) = l1 ++ l2.
Proof.
  unfold vec_erase. rewrite take_app_length.
  by rewrite (drop_app_ge l1) by lia; replace (S (length l1) - length l1) with 1 by lia.
Qed.

Lemma vec_insert_length {A} (i : nat) (x : A) l : i <= length l ->
  length (vec_insert i x l) = S (length l).
Proof. intros. unfold vec_insert. rewrite length_app, length_take; simpl. rewrite length_drop. lia. Qed.

Lemma vec_erase_length {A} (i : nat) (l : list A) : i < length l ->
  length (vec_erase i l) = pred (length l).
Proof. intros. unfold vec_erase. rewrite length_app, length_take, length_drop. lia. Qed.

(** [find_index] on a list split at the first element that satisfies [p]. *)
Lemma find_index_app {A} (p : A -> bool) (l1 l2 : list A) (x : A) :
  Forall (λ y, p y = false) l1 -> p x = true ->
  find_index p (l1 ++ x :: l2) = Some (length l1).
Proof.
  induction 1 as [|y l1 Hy _ IH]; intros Hx; simpl; [by rewrite Hx|].
  rewrite Hy, IH; done.
Qed.

Lemma find_index_None {A} (p : A -> bool) (l : list A) :
  Forall (λ y, p y = false) l -> find_index p l = None.
Proof. induction 1 as [|y l Hy _ IH]; simpl; [done|]. by rewrite Hy, IH. Qed.

Lemma find_index_cases {A} (p : A -> bool) (l : list A) :
  (Forall (λ y, p y = false) l /\ find_index p l = None) \/
  (exists l1 x l2, l = l1 ++ x :: l2 /\ Forall (λ y, p y = false) l1 /\ p x = true
     /\ find_index p l = Some (length l1)).
Proof.
  induction l as [|y l IH]; [by left|].
  destruct (p y) eqn:Hy.
  - right. exists [], y, l. simpl. by rewrite Hy.
  - destruct IH as [[Hall HN]|(l1 & x & l2 & -> & Hall & Hx & HS)].
    + left. simpl. rewrite Hy, HN. auto.
    + right. exists (y :: l1), x, l2. simpl. rewrite Hy, HS. auto.
Qed.

(** Equations between wrapped expressions, by the Euclidean division. *)
Ltac u64_lia := unfold u64 in *; Z.div_mod_to_equations; lia.

Lemma insert_middle {A} (l1 l2 : list A) (x y : A) :
  <[length l1:=y]> (l1 ++ x :: l2) = l1 ++ y :: l2.
Proof. by rewrite insert_app_r_alt, Nat.sub_diag by lia. Qed.

(** Reduces the binds of a computation whose head is known. *)
Ltac mrun := cbn [mbind option_bind]; cbv beta iota zeta.
