(* ===== verification/ChunkedRangeVector.v ===== *)
(** * The chunked range vector

    [ChunkedRangeVector], its iterators and its builder
    (include/index_set.hpp and the first half of index_set.cpp). *)

From S2P Require Import Prelude.

(** ** Data *)

Abbreviation range := (Z * Z)%type.

Record Chunk := mkChunk {
  chunk_data : list range;
  chunk_begin : Z;
  chunk_end : Z;
  chunk_count : Z;
}.

Abbreviation ChunkedRangeVector := (list Chunk).

Section chunked.
Context `{Build}.

Definition max_size : nat := if realm_debug then 4 else 256.

(** An iterator is the pair of the positions of [m_outer] in [m_data] and of
    [m_inner] in [m_outer->data]. The end iterator has [m_outer] one past the
    last chunk and a null [m_inner], written [0]. *)
Record iterator := mkIter { m_outer : nat; m_inner : nat }.

#[export] Instance iterator_eq_dec : EqDecision iterator.
Proof. solve_decision. Defined.

Definition it_end (d : ChunkedRangeVector) : iterator := mkIter (length d) 0.

Definition it_begin (d : ChunkedRangeVector) : iterator :=
  match d with [] => it_end d | _ => mkIter 0 0 end.

Definition deref (d : ChunkedRangeVector) (it : iterator) : option range :=
  c ← d !! m_outer it; chunk_data c !! m_inner it.

(** [it != end] *)
Definition not_end (d : ChunkedRangeVector) (it : iterator) : bool :=
  negb (bool_decide (it = it_end d)).

Definition next_chunk (it : iterator) : iterator := mkIter (S (m_outer it)) 0.

Definition it_next (d : ChunkedRangeVector) (it : iterator) : option iterator :=
  c ← d !! m_outer it;
  let inner := S (m_inner it) in
  if bool_decide (inner = length (chunk_data c)) then Some (next_chunk it)
  else Some (mkIter (m_outer it) inner).

Definition it_prev (d : ChunkedRangeVector) (it : iterator) : option iterator :=
  match m_inner it with
  | O =>
      match m_outer it with
      | O => None
      | S outer => c ← d !! outer; Some (mkIter outer (pred (length (chunk_data c))))
      end
  | S inner => Some (mkIter (m_outer it) inner)
  end.

(** *** Mutation through an iterator *)

Definition is_back (c : Chunk) (it : iterator) : bool :=
  bool_decide (m_inner it = pred (length (chunk_data c))).

Definition it_set (d : ChunkedRangeVector) (it : iterator) (front back : Z)
  : option ChunkedRangeVector :=
  c ← d !! m_outer it;
  r ← chunk_data c !! m_inner it;
  let cnt := chunk_count c -! (r.2 -! r.1) in
  let b := if bool_decide (m_inner it = 0) then front else chunk_begin c in
  let e := if is_back c it then back else chunk_end c in
  let cnt := cnt +! (back -! front) in
  Some (<[m_outer it := mkChunk (<[m_inner it := (front, back)]> (chunk_data c)) b e cnt]> d).

Definition it_adjust (d : ChunkedRangeVector) (it : iterator) (front back : Z)
  : option ChunkedRangeVector :=
  c ← d !! m_outer it;
  r ← chunk_data c !! m_inner it;
  let b := if bool_decide (m_inner it = 0) then chunk_begin c +! front else chunk_begin c in
  let e := if is_back c it then chunk_end c +! back else chunk_end c in
  let cnt := chunk_count c +! (- front + back) in
  Some (<[m_outer it :=
    mkChunk (<[m_inner it := (r.1 +! front, r.2 +! back)]> (chunk_data c)) b e cnt]> d).

Definition it_shift (d : ChunkedRangeVector) (it : iterator) (distance : Z)
  : option ChunkedRangeVector :=
  c ← d !! m_outer it;
  r ← chunk_data c !! m_inner it;
  let b := if bool_decide (m_inner it = 0) then chunk_begin c +! distance else chunk_begin c in
  let e := if is_back c it then chunk_end c +! distance else chunk_end c in
  Some (<[m_outer it :=
    mkChunk (<[m_inner it := (r.1 +! distance, r.2 +! distance)]> (chunk_data c)) b e (chunk_count c)]> d).

(** *** [verify] *)

Fixpoint verify_ranges (prev_end : Z) (l : list range) : option unit :=
  match l with
  | [] => Some tt
  | r :: l =>
      _ ← REALM_ASSERT (bool_decide (r.1 < r.2)%Z);
      _ ← REALM_ASSERT (bool_decide (prev_end = npos) || bool_decide (prev_end < r.1)%Z);
      verify_ranges r.2 l
  end.

Definition range_count (l : list range) : Z :=
  foldl (λ acc r, acc +! (r.2 -! r.1)) 0%Z l.

Fixpoint verify_chunks (l : list Chunk) : option unit :=
  match l with
  | [] => Some tt
  | chunk :: l =>
      _ ← REALM_ASSERT (bool_decide (chunk_data chunk ≠ []));
      front ← head (chunk_data chunk);
      back ← last (chunk_data chunk);
      _ ← REALM_ASSERT (bool_decide (front.1 = chunk_begin chunk));
      _ ← REALM_ASSERT (bool_decide (back.2 = chunk_end chunk));
      _ ← REALM_ASSERT (bool_decide (chunk_count chunk <= (chunk_end chunk -! chunk_begin chunk))%Z);
      _ ← REALM_ASSERT (bool_decide (range_count (chunk_data chunk) = chunk_count chunk));
      verify_chunks l
  end.

Definition verify (d : ChunkedRangeVector) : option unit :=
  if realm_debug then
    _ ← verify_ranges npos (d ≫= chunk_data);
    verify_chunks d
  else Some tt.

(** *** Operations *)

Definition push_back (d : ChunkedRangeVector) (value : range)
  : option ChunkedRangeVector :=
  let fresh := d ++ [mkChunk [value] value.1 value.2 (value.2 -! value.1)] in
  d' ←
    match last d with
    | Some c =>
        if bool_decide (length (chunk_data c) < max_size) then
          _ ← REALM_ASSERT (bool_decide (chunk_end c <= value.1)%Z);
          Some (<[pred (length d) :=
            mkChunk (chunk_data c ++ [value]) (chunk_begin c) value.2
                    (chunk_count c +! (value.2 -! value.1))]> d)
        else Some fresh
    | None => Some fresh
    end;
  _ ← verify d';
  Some d'.

Definition ensure_space (d : ChunkedRangeVector) (pos : iterator)
  : option (ChunkedRangeVector * iterator) :=
  c ← d !! m_outer pos;
  if bool_decide (length (chunk_data c) + 1 <= max_size) then Some (d, pos)
  else
    let offset := m_inner pos in
    let to_move := max_size / 2 in
    let kept := length (chunk_data c) - to_move in
    let new_data := drop kept (chunk_data c) in
    let prev_data := take kept (chunk_data c) in
    let moved_count := range_count new_data in
    prev_back ← last prev_data;
    new_front ← head new_data;
    new_back ← last new_data;
    let prev := mkChunk prev_data (chunk_begin c) prev_back.2 (chunk_count c -! moved_count) in
    let new := mkChunk new_data new_front.1 new_back.2 moved_count in
    let d' := vec_insert (S (m_outer pos)) new (<[m_outer pos := prev]> d) in
    let pos' :=
      if bool_decide (to_move <= offset)
      then mkIter (S (m_outer pos)) (offset - to_move)
      else mkIter (m_outer pos) offset in
    _ ← verify d';
    Some (d', pos').

Definition insert (d : ChunkedRangeVector) (pos : iterator) (value : range)
  : option (ChunkedRangeVector * iterator) :=
  if bool_decide (m_outer pos = length d) then
    d' ← push_back d value;
    it ← it_prev d' (it_end d');
    Some (d', it)
  else
    '(d, pos) ← ensure_space d pos;
    chunk ← d !! m_outer pos;
    let chunk' :=
      mkChunk (vec_insert (m_inner pos) value (chunk_data chunk))
              (std_min (chunk_begin chunk) value.1)
              (std_max (chunk_end chunk) value.2)
              (chunk_count chunk +! (value.2 -! value.1)) in
    let d' := <[m_outer pos := chunk']> d in
    _ ← verify d';
    Some (d', pos).

Definition erase (d : ChunkedRangeVector) (pos : iterator)
  : option (ChunkedRangeVector * iterator) :=
  let offset := m_inner pos in
  chunk ← d !! m_outer pos;
  r ← chunk_data chunk !! offset;
  let cnt := chunk_count chunk -! (r.2 -! r.1) in
  let data' := vec_erase offset (chunk_data chunk) in
  match head data', last data' with
  | Some front, Some back =>
      let d' := <[m_outer pos := mkChunk data' front.1 back.2 cnt]> d in
      let pos' :=
        if bool_decide (offset < length data') then pos
        else mkIter (S (m_outer pos)) 0 in
      _ ← verify d';
      Some (d', pos')
  | _, _ =>
      let d' := vec_erase (m_outer pos) d in
      _ ← verify d';
      Some (d', mkIter (m_outer pos) 0)
  end.

(** ** [ChunkedRangeVectorBuilder] *)

Record ChunkedRangeVectorBuilder := mkBuilder {
  m_data : ChunkedRangeVector;
  m_outer_pos : nat;
}.

Definition default_chunk : Chunk := mkChunk [] 0 0 0.

(** The [reserve] calls of the constructor change capacities only. *)
Definition builder_new (expected : ChunkedRangeVector) : ChunkedRangeVectorBuilder :=
  let size := sum_list_with (λ chunk, length (chunk_data chunk)) expected in
  mkBuilder (replicate (size / max_size + 1) default_chunk) 0.

Definition builder_push_range (b : ChunkedRangeVectorBuilder) (r : range)
  : option ChunkedRangeVectorBuilder :=
  let d := m_data b in
  chunk ← d !! m_outer_pos b;
  match last (chunk_data chunk) with
  | None =>
      Some (mkBuilder (<[m_outer_pos b :=
        mkChunk [r] r.1 (chunk_end chunk) (r.2 -! r.1)]> d) (m_outer_pos b))
  | Some back =>
      if bool_decide (r.1 = back.2) then
        Some (mkBuilder (<[m_outer_pos b :=
          mkChunk (<[pred (length (chunk_data chunk)) := (back.1, r.2)]> (chunk_data chunk))
                  (chunk_begin chunk) (chunk_end chunk) (chunk_count chunk +! (r.2 -! r.1))]> d)
          (m_outer_pos b))
      else if bool_decide (length (chunk_data chunk) < max_size) then
        Some (mkBuilder (<[m_outer_pos b :=
          mkChunk (chunk_data chunk ++ [r]) (chunk_begin chunk) (chunk_end chunk)
                  (chunk_count chunk +! (r.2 -! r.1))]> d) (m_outer_pos b))
      else
        let d := <[m_outer_pos b :=
          mkChunk (chunk_data chunk) (chunk_begin chunk) back.2 (chunk_count chunk)]> d in
        let outer := S (m_outer_pos b) in
        if bool_decide (length d <= outer) then
          Some (mkBuilder (d ++ [mkChunk [r] r.1 0 1]) outer)
        else
          chunk ← d !! outer;
          Some (mkBuilder (<[outer :=
            mkChunk (chunk_data chunk ++ [r]) r.1 (chunk_end chunk) (r.2 -! r.1)]> d) outer)
  end.

Definition builder_push (b : ChunkedRangeVectorBuilder) (index : Z)
  : option ChunkedRangeVectorBuilder :=
  builder_push_range b (index, index +! 1).

Definition builder_finalize (b : ChunkedRangeVectorBuilder) : option ChunkedRangeVector :=
  match m_data b with
  | [] => Some []
  | _ =>
      let d := vec_resize (m_outer_pos b + 1) default_chunk (m_data b) in
      c ← last d;
      match last (chunk_data c) with
      | None => Some (removelast d)
      | Some back =>
          Some (<[pred (length d) := mkChunk (chunk_data c) (chunk_begin c) back.2 (chunk_count c)]> d)
      end
  end.

End chunked.
