(* ===== verification/ChunkedFacts.v ===== *)
(** * Sorted lists of ranges

    The flat view of an index set: a list of half-open ranges, sorted, with a
    gap of at least one index between neighbours. Membership, counting and the
    uniqueness of this representation. *)

From S2P Require Import Prelude ChunkedRangeVector.

(** ** Definitions *)

(** [L] is sorted, starts at or after [lo] and its ranges do not touch. *)
Fixpoint ok_from (lo : Z) (L : list range) : Prop :=
  match L with
  | [] => True
  | r :: L => (lo <= r.1)%Z /\ (r.1 < r.2)%Z /\ ok_from (r.2 + 1) L
  end.

(** The least start of a range that may follow [L]. *)
Fixpoint next_lo (lo : Z) (L : list range) : Z :=
  match L with [] => lo | r :: L => next_lo (r.2 + 1) L end.

(** The bounds of a [size_t] vector of ranges. *)
Definition bounded (hi : Z) (L : list range) : Prop := Forall (λ r, (r.2 <= hi)%Z) L.

Definition in_range (x : Z) (r : range) : Prop := (r.1 <= x < r.2)%Z.
Definition mem (x : Z) (L : list range) : Prop := Exists (in_range x) L.

(** The number of members below [x]. *)
Definition below_range (x : Z) (r : range) : Z := Z.max 0 (Z.min r.2 x - r.1).
Fixpoint below (x : Z) (L : list range) : Z :=
  match L with [] => 0 | r :: L => below_range x r + below x L end.

(** The number of members. *)
Fixpoint total (L : list range) : Z :=
  match L with [] => 0 | r :: L => (r.2 - r.1) + total L end.

Definition shift_range (n : Z) (r : range) : range := ((r.1 + n)%Z, (r.2 + n)%Z).

(** ** Order *)

Lemma ok_from_app lo L1 L2 :
  ok_from lo (L1 ++ L2) <-> ok_from lo L1 /\ ok_from (next_lo lo L1) L2.
Proof.
  revert lo. induction L1 as [|r L1 IH]; intros lo; simpl; [tauto|].
  rewrite IH. tauto.
Qed.

Lemma next_lo_app lo L1 L2 : next_lo lo (L1 ++ L2) = next_lo (next_lo lo L1) L2.
Proof. revert lo. induction L1; intros; simpl; auto. Qed.

Lemma ok_from_weaken lo lo' L : (lo' <= lo)%Z -> ok_from lo L -> ok_from lo' L.
Proof. destruct L; simpl; [done|]. intuition lia. Qed.

Lemma next_lo_ge lo L : ok_from lo L -> (lo <= next_lo lo L)%Z.
Proof.
  revert lo. induction L as [|r L IH]; intros lo; simpl; [lia|].
  intros (? & ? & Hok). specialize (IH _ Hok). lia.
Qed.

Lemma next_lo_mono lo lo' L : (lo <= lo')%Z -> (next_lo lo L <= next_lo lo' L)%Z.
Proof. destruct L; simpl; lia. Qed.

Lemma bounded_app hi L1 L2 : bounded hi (L1 ++ L2) <-> bounded hi L1 /\ bounded hi L2.
Proof. unfold bounded. by rewrite Forall_app. Qed.

Lemma bounded_cons hi r L : bounded hi (r :: L) <-> (r.2 <= hi)%Z /\ bounded hi L.
Proof. unfold bounded. by rewrite Forall_cons. Qed.

Lemma bounded_weaken hi hi' L : (hi <= hi')%Z -> bounded hi L -> bounded hi' L.
Proof. intros ? H. eapply Forall_impl; [exact H|]. simpl. lia. Qed.

(** Every range before the end of [L] is below [next_lo]. *)
Lemma ok_from_Forall lo L : ok_from lo L ->
  Forall (λ r, lo <= r.1 /\ r.1 < r.2 /\ r.2 < next_lo lo L)%Z L.
Proof.
  revert lo. induction L as [|r L IH]; intros lo; simpl; [done|].
  intros (Hlo & Hr & Hok). pose proof (next_lo_ge _ _ Hok). constructor; [lia|].
  eapply Forall_impl; [by apply IH|]. simpl. lia.
Qed.

Lemma ok_from_bounded lo L : ok_from lo L -> bounded (next_lo lo L - 1) L.
Proof. intros H. eapply Forall_impl; [by apply ok_from_Forall|]. simpl. lia. Qed.

Lemma next_lo_bounded lo hi L : bounded hi L -> (lo <= hi + 1)%Z -> (next_lo lo L <= hi + 1)%Z.
Proof.
  revert lo. induction L as [|r L IH]; intros lo; simpl; [done|].
  intros [? ?]%bounded_cons ?. apply IH; [done|lia].
Qed.

(** ** Membership *)

Lemma mem_nil x : mem x [] <-> False.
Proof. unfold mem. by rewrite Exists_nil. Qed.

Lemma mem_cons x r L : mem x (r :: L) <-> (r.1 <= x < r.2)%Z \/ mem x L.
Proof. unfold mem. by rewrite Exists_cons. Qed.

Lemma mem_app x L1 L2 : mem x (L1 ++ L2) <-> mem x L1 \/ mem x L2.
Proof. unfold mem. by rewrite Exists_app. Qed.

Lemma mem_lo lo L x : ok_from lo L -> mem x L -> (lo <= x)%Z.
Proof.
  intros Hok%ok_from_Forall (r & Hr & Hin)%Exists_exists.
  rewrite Forall_forall in Hok. specialize (Hok r Hr). unfold in_range in Hin. lia.
Qed.

Lemma mem_hi lo L x : ok_from lo L -> mem x L -> (x + 1 < next_lo lo L)%Z.
Proof.
  intros Hok%ok_from_Forall (r & Hr & Hin)%Exists_exists.
  rewrite Forall_forall in Hok. specialize (Hok r Hr). unfold in_range in Hin. lia.
Qed.

Lemma mem_bounded hi L x : bounded hi L -> mem x L -> (x < hi)%Z.
Proof.
  intros Hok (r & Hr & Hin)%Exists_exists.
  unfold bounded in Hok. rewrite Forall_forall in Hok.
  specialize (Hok r Hr). simpl in Hok. unfold in_range in Hin. lia.
Qed.

Lemma mem_shift n x L : mem x (shift_range n <$> L) <-> mem (x - n) L.
Proof.
  induction L as [|r L IH]; simpl; [rewrite !mem_nil; done|].
  rewrite !mem_cons, IH. unfold shift_range; simpl. intuition lia.
Qed.

Lemma ok_from_shift n lo L : ok_from lo L -> ok_from (lo + n) (shift_range n <$> L).
Proof.
  revert lo. induction L as [|r L IH]; intros lo; simpl; [done|].
  intros (? & ? & Hok). split_and!; [lia|lia|].
  eapply ok_from_weaken, IH, Hok. lia.
Qed.

Lemma bounded_shift n hi L : bounded hi L -> bounded (hi + n) (shift_range n <$> L).
Proof. intros H. apply Forall_fmap. eapply Forall_impl; [done|]. simpl. lia. Qed.

#[export] Instance in_range_dec x r : Decision (in_range x r).
Proof. unfold in_range. apply _. Defined.
#[export] Instance mem_dec x L : Decision (mem x L).
Proof. unfold mem. apply _. Defined.

(** The sorted representation of a set is unique. *)
Lemma ok_from_ext lo L1 L2 :
  ok_from lo L1 -> ok_from lo L2 -> (forall x, mem x L1 <-> mem x L2) -> L1 = L2.
Proof.
  revert lo L2. induction L1 as [|r1 L1 IH]; intros lo [|r2 L2]; simpl; [done| | |].
  - intros _ (? & ? & _) Hext. exfalso. apply (mem_nil r2.1), Hext, mem_cons. lia.
  - intros (? & ? & _) _ Hext. exfalso. apply (mem_nil r1.1), Hext, mem_cons. lia.
  - intros (Hl1 & Hr1 & Hok1) (Hl2 & Hr2 & Hok2) Hext.
    assert (Hin : forall x, (r1.1 <= x < r1.2)%Z \/ mem x L1 <-> (r2.1 <= x < r2.2)%Z \/ mem x L2)
      by (intros x; rewrite <-!mem_cons; auto).
    assert (Hge1 : forall x, mem x L1 -> (r1.2 + 1 <= x)%Z) by (intros; by eapply mem_lo).
    assert (Hge2 : forall x, mem x L2 -> (r2.2 + 1 <= x)%Z) by (intros; by eapply mem_lo).
    assert (r1.1 = r2.1).
    { pose proof (proj1 (Hin r1.1) ltac:(lia)) as [|H1%Hge2];
      pose proof (proj2 (Hin r2.1) ltac:(lia)) as [|H2%Hge1]; lia. }
    assert (r1.2 = r2.2).
    { destruct (Z.lt_trichotomy r1.2 r2.2) as [Hlt|[|Hlt]]; [|done|].
      - destruct (proj2 (Hin r1.2) ltac:(lia)) as [|H3%Hge1]; lia.
      - destruct (proj1 (Hin r2.2) ltac:(lia)) as [|H3%Hge2]; lia. }
    replace r2 with r1 by (destruct r1, r2; simpl in *; congruence).
    f_equal. apply (IH (r1.2 + 1)%Z); [done|congruence|].
    intros x. specialize (Hin x). specialize (Hge1 x). specialize (Hge2 x).
    split; intros Hx; [destruct (proj1 Hin)|destruct (proj2 Hin)]; auto; exfalso.
    + specialize (Hge1 Hx). lia.
    + specialize (Hge2 Hx). lia.
Qed.

(** ** Counting *)

Lemma below_app x L1 L2 : below x (L1 ++ L2) = (below x L1 + below x L2)%Z.
Proof. induction L1; simpl; lia. Qed.

Lemma total_app L1 L2 : total (L1 ++ L2) = (total L1 + total L2)%Z.
Proof. induction L1; simpl; lia. Qed.

Lemma total_shift n L : total (shift_range n <$> L) = total L.
Proof. induction L as [|r L IH]; [done|].
  rewrite fmap_cons. cbn [total]. rewrite IH. simpl. lia. Qed.

Lemma below_nonneg x L : (0 <= below x L)%Z.
Proof. induction L; simpl; unfold below_range; lia. Qed.

Lemma total_nonneg lo L : ok_from lo L -> (0 <= total L)%Z.
Proof.
  revert lo. induction L as [|r L IH]; intros lo; simpl; [done|].
  intros (? & ? & Hok%IH). lia.
Qed.

(** All ranges at or above [x]: nothing is counted. *)
Lemma below_lo lo x L : ok_from lo L -> (x <= lo)%Z -> below x L = 0%Z.
Proof.
  revert lo. induction L as [|r L IH]; intros lo; simpl; [done|].
  intros (? & ? & Hok) ?. rewrite (IH _ Hok) by lia. unfold below_range. lia.
Qed.

(** All ranges below [x]: everything is counted. *)
Lemma below_hi lo hi x L : ok_from lo L -> bounded hi L -> (hi <= x)%Z -> below x L = total L.
Proof.
  revert lo. induction L as [|r L IH]; intros lo; simpl; [done|].
  intros (? & ? & Hok) [? ?]%bounded_cons ?. rewrite (IH _ Hok) by done.
  unfold below_range. lia.
Qed.

Lemma total_bounded lo hi L : ok_from lo L -> bounded hi L -> (lo <= hi)%Z ->
  (total L <= hi - lo)%Z.
Proof.
  revert lo. induction L as [|r L IH]; intros lo; simpl; [lia|].
  intros (? & ? & Hok) [? Hb]%bounded_cons ?.
  destruct L as [|r' L]; simpl in *; [lia|].
  destruct Hok as (? & ? & Hok). apply bounded_cons in Hb as [? Hb].
  assert (r.2 + 1 <= hi)%Z by lia.
  specialize (IH (r.2 + 1)%Z ltac:(simpl; auto) ltac:(by apply bounded_cons) ltac:(lia)). lia.
Qed.

Lemma total_next_lo lo L : ok_from lo L -> (total L <= next_lo lo L - lo)%Z.
Proof.
  revert lo. induction L as [|r L IH]; intros lo; simpl; [lia|].
  intros (? & ? & Hok%IH). lia.
Qed.

Lemma below_S x L lo : ok_from lo L ->
  below (x + 1) L = (below x L + if decide (mem x L) then 1 else 0)%Z.
Proof.
  revert lo. induction L as [|r L IH]; intros lo Hok; cbn [below].
  - case_decide as Hx; [by apply mem_nil in Hx|done].
  - destruct Hok as (? & ? & Hok). rewrite (IH _ Hok). unfold below_range.
    pose proof (mem_lo _ _ x Hok) as Hm.
    destruct (decide (mem x (r :: L))) as [H1|H1], (decide (mem x L)) as [H2|H2];
      rewrite mem_cons in H1; try specialize (Hm H2); try tauto.
    + lia.
    + destruct H1; [lia|tauto].
    + assert (~ (r.1 <= x < r.2)%Z) by tauto. lia.
Qed.

(** [below] counts the members in an initial segment. *)
Lemma below_count lo L (n : nat) : ok_from lo L -> (0 <= lo)%Z ->
  below (Z.of_nat n) L = Z.of_nat (length (filter (λ x, mem x L) (seqZ 0 (Z.of_nat n)))).
Proof.
  intros Hok Hlo. induction n as [|n IH].
  - simpl. rewrite (below_lo lo); [done|done|lia].
  - rewrite Nat2Z.inj_succ, <-Z.add_1_r, (below_S _ _ lo Hok), IH.
    rewrite seqZ_app, filter_app, length_app by lia.
    rewrite (seqZ_cons (0 + Z.of_nat n)) by lia. rewrite (seqZ_nil _ (Z.pred 1)) by lia.
    rewrite Z.add_0_l, filter_cons, filter_nil.
    case_decide; simpl; lia.
Qed.

Lemma below_mono lo L x y : ok_from lo L -> (x <= y)%Z ->
  (below x L <= below y L <= below x L + (y - x))%Z.
Proof.
  intros Hok Hxy. replace y with (x + Z.of_nat (Z.to_nat (y - x)))%Z by lia.
  generalize (Z.to_nat (y - x)) as n. clear y Hxy. induction n as [|n IH].
  - rewrite Z.add_0_r. lia.
  - rewrite Nat2Z.inj_succ, <-Z.add_1_r, Z.add_assoc, (below_S _ _ lo Hok).
    case_decide; lia.
Qed.

Lemma next_lo_last lo L r : last L = Some r -> next_lo lo L = (r.2 + 1)%Z.
Proof.
  revert lo. induction L as [|r' L IH]; intros lo; [done|].
  destruct L as [|r'' L]; [by intros [= ->]|]. rewrite last_cons_cons. apply (IH (r'.2 + 1)%Z).
Qed.

Lemma ok_from_head lo r L : ok_from lo (r :: L) -> ok_from r.1 (r :: L).
Proof. simpl. intuition lia. Qed.

(** Solves goals on the order, the bounds and the members of concrete
    concatenations of ranges. *)
Ltac range_simpl :=
  repeat match goal with
  | H : ok_from _ (_ ++ _) |- _ => apply ok_from_app in H as [? H]
  | H : bounded _ (_ ++ _) |- _ => apply bounded_app in H as [? H]
  | H : ok_from _ (_ :: _) |- _ => destruct H as (? & ? & H)
  | H : ok_from _ [] |- _ => clear H
  | H : bounded _ (_ :: _) |- _ => apply bounded_cons in H as [? H]
  | H : bounded _ [] |- _ => clear H
  | H : _ /\ _ |- _ => destruct H
  | H : context [next_lo _ (_ ++ _)] |- _ => rewrite next_lo_app in H
  | H : context [next_lo _ (_ :: _)] |- _ => progress cbn [next_lo] in H
  | H : context [next_lo _ []] |- _ => progress cbn [next_lo] in H
  | |- _ /\ _ => split
  | |- ok_from _ (_ ++ _) => apply ok_from_app
  | |- ok_from _ (_ :: _) => split
  | |- ok_from _ [] => exact I
  | |- bounded _ (_ ++ _) => apply bounded_app
  | |- bounded _ (_ :: _) => apply bounded_cons
  | |- bounded _ [] => apply Forall_nil_2
  | |- context [next_lo _ (_ ++ _)] => rewrite next_lo_app
  | |- context [next_lo _ (_ :: _)] => progress cbn [next_lo]
  | |- context [next_lo _ []] => progress cbn [next_lo]
  end; cbn [fst snd] in *.

Ltac range_solve :=
  range_simpl; try done;
  try (eapply ok_from_weaken; [|eassumption]);
  try lia.

(** Membership in concrete concatenations. *)
Ltac mem_solve :=
  rewrite ?mem_app, ?mem_cons, ?mem_nil; cbn [fst snd]; intuition lia.

(** ** Correctness of the chunked range vector

    The chunked vector is a flat list of ranges cut into chunks whose cached
    [begin], [end] and [count] are determined by their data. Iterators are
    positions of the flat list ([locate]); every operation is characterised by
    its effect on the flat list. *)

(** ** The flat view and the chunk invariant *)

Definition flat (d : ChunkedRangeVector) : list range := d ≫= chunk_data.

(** The chunk that holds [l]: its cached fields are functions of [l]. *)
Definition mk_chunk (l : list range) : Chunk :=
  mkChunk l (default 0%Z (fst <$> head l)) (default 0%Z (snd <$> last l)) (u64 (total l)).

(** Sorted, non-touching ranges whose bounds are [size_t] values. *)
Definition wf_flat (L : list range) : Prop := ok_from 0 L /\ bounded npos L.

(** The position of an iterator in the flat list. *)
Fixpoint locate (d : ChunkedRangeVector) (p : nat) : iterator :=
  match d with
  | [] => mkIter 0 0
  | c :: d =>
      if decide (p < length (chunk_data c)) then mkIter 0 p
      else
        let it := locate d (p - length (chunk_data c)) in
        mkIter (S (m_outer it)) (m_inner it)
  end.

Section facts.
Context `{Build}.

Record chunk_ok (c : Chunk) : Prop := {
  chunk_ok_ne : chunk_data c <> [];
  chunk_ok_len : length (chunk_data c) <= max_size;
  chunk_ok_eq : c = mk_chunk (chunk_data c);
}.

Definition shape_ok (d : ChunkedRangeVector) : Prop := Forall chunk_ok d.

(** The representation invariant of an index set. *)
Definition wf (d : ChunkedRangeVector) : Prop := shape_ok d /\ wf_flat (flat d).

Lemma max_size_bounds : 4 <= max_size /\ max_size = 2 * (max_size / 2).
Proof. unfold max_size. destruct realm_debug; vm_compute; split; (lia || done). Qed.

(** ** Flat lists *)

Lemma flat_cons c d : flat (c :: d) = chunk_data c ++ flat d.
Proof. reflexivity. Qed.

Lemma flat_app d1 d2 : flat (d1 ++ d2) = flat d1 ++ flat d2.
Proof. unfold flat. apply bind_app. Qed.

Lemma flat_nil_inv d : shape_ok d -> flat d = [] -> d = [].
Proof.
  destruct 1 as [|c d Hc _]; [done|]. rewrite flat_cons.
  intros [Hd _]%app_eq_nil. by destruct (chunk_ok_ne _ Hc).
Qed.

Lemma flat_length_cons c d : length (flat (c :: d)) = length (chunk_data c) + length (flat d).
Proof. by rewrite flat_cons, length_app. Qed.

(** ** Positions *)

Lemma locate_app pre c post i : i < length (chunk_data c) ->
  locate (pre ++ c :: post) (length (flat pre) + i) = mkIter (length pre) i.
Proof.
  intros Hi. induction pre as [|c' pre IH].
  - simpl. rewrite decide_True by done. done.
  - cbn [app locate]. rewrite flat_length_cons, decide_False by lia.
    replace (length (chunk_data c') + length (flat pre) + i - length (chunk_data c'))
      with (length (flat pre) + i) by lia.
    by rewrite IH.
Qed.

Lemma locate_boundary pre post : shape_ok post ->
  locate (pre ++ post) (length (flat pre)) = mkIter (length pre) 0.
Proof.
  intros Hpost. induction pre as [|c' pre IH].
  - simpl. destruct Hpost as [|c post Hc _]; [done|]. simpl.
    rewrite decide_True; [done|]. destruct (chunk_data c) eqn:E; simpl; [|lia].
    by destruct (chunk_ok_ne _ Hc).
  - cbn [app locate]. rewrite flat_length_cons, decide_False by lia.
    replace (length (chunk_data c') + length (flat pre) - length (chunk_data c'))
      with (length (flat pre)) by lia.
    by rewrite IH.
Qed.

(** A position inside the flat list lies in one chunk. *)
Lemma locate_split d p : p < length (flat d) ->
  exists pre c post i, d = pre ++ c :: post /\ p = length (flat pre) + i
    /\ i < length (chunk_data c) /\ locate d p = mkIter (length pre) i.
Proof.
  revert p. induction d as [|c d IH]; intros p Hp; [simpl in Hp; lia|].
  rewrite flat_length_cons in Hp.
  destruct (decide (p < length (chunk_data c))) as [Hc|Hc].
  - exists [], c, d, p. simpl. by rewrite decide_True.
  - destruct (IH (p - length (chunk_data c))) as (pre & c' & post & i & -> & Hpi & Hi & Hl); [lia|].
    exists (c :: pre), c', post, i. cbn [app locate]. rewrite decide_False by done.
    rewrite Hl, flat_length_cons. split_and!; [done|lia|done|done].
Qed.

Lemma locate_end d : locate d (length (flat d)) = it_end d.
Proof.
  induction d as [|c d IH]; [done|]. cbn [locate].
  rewrite flat_length_cons, decide_False by lia.
  replace (_ + _ - _) with (length (flat d)) by lia. by rewrite IH.
Qed.

Lemma locate_begin d : shape_ok d -> locate d 0 = it_begin d.
Proof.
  intros Hd. pose proof (locate_boundary [] d Hd) as Hb. simpl in Hb. rewrite Hb.
  by destruct d.
Qed.

Lemma lookup_flat pre c post i : i < length (chunk_data c) ->
  flat (pre ++ c :: post) !! (length (flat pre) + i) = chunk_data c !! i.
Proof.
  intros Hi. rewrite flat_app, flat_cons, lookup_app_r by lia.
  replace (length (flat pre) + i - length (flat pre)) with i by lia.
  by rewrite lookup_app_l.
Qed.

Lemma deref_locate d p : p <= length (flat d) -> deref d (locate d p) = flat d !! p.
Proof.
  intros Hp. destruct (decide (p = length (flat d))) as [->|Hne].
  - rewrite locate_end. unfold deref, it_end. cbn [m_outer].
    rewrite !lookup_ge_None_2 by done. done.
  - destruct (locate_split d p) as (pre & c & post & i & -> & -> & Hi & ->); [lia|].
    unfold deref. cbn [m_outer m_inner]. rewrite list_lookup_middle by done. simpl.
    by rewrite lookup_flat.
Qed.

Lemma not_end_locate d p : p <= length (flat d) ->
  not_end d (locate d p) = bool_decide (p < length (flat d)).
Proof.
  intros Hp. unfold not_end. destruct (decide (p = length (flat d))) as [->|Hne].
  - rewrite locate_end, (bool_decide_true (_ = _)), bool_decide_false by (done || lia). done.
  - destruct (locate_split d p) as (pre & c & post & i & Hd & -> & Hi & ->); [lia|].
    rewrite (bool_decide_true (_ < _)) by lia. rewrite bool_decide_false; [done|].
    unfold it_end. subst d. rewrite length_app. simpl. intros [= ?]. lia.
Qed.

Lemma locate_begin_iff d p : shape_ok d -> p <= length (flat d) ->
  bool_decide (locate d p = it_begin d) = bool_decide (p = 0).
Proof.
  intros Hd Hp. rewrite <-locate_begin by done.
  apply bool_decide_ext. split; [|by intros ->].
  intros Heq. destruct (decide (p = 0)) as [|Hne]; [done|exfalso].
  destruct (decide (p = length (flat d))) as [->|].
  - assert (not_end d (locate d (length (flat d))) = not_end d (locate d 0)) as Hn by (by rewrite Heq).
    rewrite !not_end_locate in Hn by lia. by rewrite bool_decide_false, bool_decide_true in Hn by lia.
  - destruct (locate_split d p) as (pre & c & post & i & -> & -> & Hi & Hl); [lia|].
    rewrite Hl in Heq.
    rewrite (locate_begin _ Hd) in Heq.
    assert (it_begin (pre ++ c :: post) = mkIter 0 0) as Hb by (by destruct pre).
    rewrite Hb in Heq. injection Heq as Hp0 ->.
    apply length_zero_iff_nil in Hp0 as ->. simpl in Hne. lia.
Qed.

Lemma it_next_locate d p : shape_ok d -> p < length (flat d) ->
  it_next d (locate d p) = Some (locate d (S p)).
Proof.
  intros Hd Hp. destruct (locate_split d p) as (pre & c & post & i & -> & -> & Hi & ->); [done|].
  unfold it_next. cbn [m_outer m_inner]. rewrite list_lookup_middle by done. simpl.
  case_bool_decide as Hlast.
  - replace (S (length (flat pre) + i)) with (length (flat (pre ++ [c])))
      by (rewrite flat_app, length_app, flat_length_cons; simpl; lia).
    rewrite (cons_middle c pre post), app_assoc, locate_boundary.
    + unfold next_chunk. simpl. by rewrite length_app, Nat.add_comm.
    + by apply Forall_app in Hd as [_ [_ Hd]%Forall_cons].
  - rewrite <-Nat.add_succ_r, locate_app by lia. done.
Qed.

Lemma it_prev_locate d p : shape_ok d -> 0 < p <= length (flat d) ->
  it_prev d (locate d p) = Some (locate d (pred p)).
Proof.
  intros Hd Hp. destruct p as [|p]; [lia|]. simpl.
  destruct (locate_split d p) as (pre & c & post & i & -> & -> & Hi & Hl); [lia|].
  rewrite Hl. destruct (decide (S i < length (chunk_data c))) as [Hlt|Hge].
  - rewrite <-Nat.add_succ_r, locate_app by lia. done.
  - replace (S (length (flat pre) + i)) with (length (flat (pre ++ [c])))
      by (rewrite flat_app, length_app, flat_length_cons; simpl; lia).
    rewrite (cons_middle c pre post), app_assoc, locate_boundary.
    + unfold it_prev. cbn [m_outer m_inner]. rewrite length_app, Nat.add_comm. simpl.
      rewrite <-app_assoc. cbn [app]. rewrite list_lookup_middle by done. simpl.
      f_equal. f_equal. lia.
    + by apply Forall_app in Hd as [_ [_ Hd]%Forall_cons].
Qed.

(** Later positions are later in the vector. *)
Lemma locate_mono d p q : p <= q -> q < length (flat d) ->
  m_outer (locate d p) < m_outer (locate d q) \/
  (m_outer (locate d p) = m_outer (locate d q) /\ m_inner (locate d p) <= m_inner (locate d q)).
Proof.
  revert p q. induction d as [|c d IH]; intros p q Hpq Hq; [simpl in Hq; lia|].
  rewrite flat_length_cons in Hq. cbn [locate].
  destruct (decide (q < length (chunk_data c))).
  - rewrite decide_True by lia. simpl. right. lia.
  - destruct (decide (p < length (chunk_data c))); simpl; [left; lia|].
    destruct (IH (p - length (chunk_data c)) (q - length (chunk_data c))); lia.
Qed.

End facts.
