(* ===== verification/ChunkedOps.v ===== *)
(** * Correctness of the mutating operations of the chunked range vector

    Each operation keeps the chunk invariant and acts on the flat list as the
    corresponding list operation; in debug builds [verify] succeeds whenever
    the flat list is sorted. *)

From S2P Require Import Prelude ChunkedRangeVector ChunkedFacts.

Section ops.
Context `{Build}.

(** ** Chunks *)

Lemma mk_chunk_ok l : l <> [] -> length l <= max_size -> chunk_ok (mk_chunk l).
Proof. intros. split; done. Qed.

Lemma head_insert {A} (l : list A) i v : head (<[i:=v]> l) =
  if bool_decide (i = 0) then (λ _, v) <$> head l else head l.
Proof. destruct l, i; done. Qed.

Lemma last_insert {A} (l : list A) i v : i < length l -> last (<[i:=v]> l) =
  if bool_decide (i = pred (length l)) then Some v else last l.
Proof.
  intros Hi. rewrite !last_lookup, length_insert. case_bool_decide as Hd.
  - subst i. apply list_lookup_insert_eq. lia.
  - apply list_lookup_insert_ne. lia.
Qed.

Lemma total_insert L i r v : L !! i = Some r ->
  total (<[i:=v]> L) = (total L - (r.2 - r.1) + (v.2 - v.1))%Z.
Proof.
  intros Hi. rewrite (insert_take_drop L i v) by (by eapply lookup_lt_Some).
  rewrite <-(take_drop_middle L i r Hi) at 3.
  rewrite !total_app. simpl. lia.
Qed.

(** Replacing one range of a chunk. *)
Lemma mk_chunk_insert l i r v : l !! i = Some r ->
  mk_chunk (<[i:=v]> l) =
  mkChunk (<[i:=v]> l)
    (if bool_decide (i = 0) then v.1 else chunk_begin (mk_chunk l))
    (if bool_decide (i = pred (length l)) then v.2 else chunk_end (mk_chunk l))
    (u64 (total l - (r.2 - r.1) + (v.2 - v.1))).
Proof.
  intros Hi. unfold mk_chunk. cbn [chunk_begin chunk_end]. f_equal.
  - rewrite head_insert. case_bool_decide; [|done]. by destruct l.
  - rewrite last_insert by (by eapply lookup_lt_Some). by case_bool_decide.
  - f_equal. by apply total_insert.
Qed.

Lemma flat_insert pre c post i v : i < length (chunk_data c) ->
  flat (pre ++ mk_chunk (<[i:=v]> (chunk_data c)) :: post) =
  <[length (flat pre) + i := v]> (flat (pre ++ c :: post)).
Proof.
  intros Hi. rewrite !flat_app, !flat_cons. simpl.
  rewrite insert_app_r, insert_app_l; done.
Qed.

(** Two vectors cut at the same places locate positions alike. *)
Lemma locate_same_shape d d' p :
  length ∘ chunk_data <$> d' = length ∘ chunk_data <$> d -> locate d' p = locate d p.
Proof.
  revert d' p. induction d as [|c d IH]; intros [|c' d'] p; try done.
  rewrite !fmap_cons. intros [= Hc Hd]. cbn [locate]. rewrite Hc.
  destruct (decide _); [done|]. by rewrite (IH d').
Qed.

(** What the three single-range mutations have in common. *)
Lemma update_chunk d p r v (F : Chunk -> range -> Chunk) :
  shape_ok d -> flat d !! p = Some r ->
  (forall c i, chunk_ok c -> chunk_data c !! i = Some r -> m_inner (locate d p) = i ->
     F c r = mk_chunk (<[i:=v]> (chunk_data c))) ->
  exists d', (c ← d !! m_outer (locate d p); r ← chunk_data c !! m_inner (locate d p);
              Some (<[m_outer (locate d p) := F c r]> d)) = Some d'
    /\ shape_ok d' /\ flat d' = <[p:=v]> (flat d) /\ (forall q, locate d' q = locate d q).
Proof.
  intros Hd Hp HF.
  destruct (locate_split d p) as (pre & c & post & i & -> & -> & Hi & Hl);
    [by eapply lookup_lt_Some|].
  rewrite Hl in HF |- *. cbn [m_outer m_inner] in *.
  rewrite lookup_flat in Hp by done.
  apply Forall_app in Hd as Hd'. destruct Hd' as [Hpre [Hc Hpost]%Forall_cons].
  rewrite list_lookup_middle by done. simpl. rewrite Hp. simpl.
  rewrite (HF c i) by done. eexists. split; [done|].
  rewrite insert_middle.
  split_and!.
  - apply Forall_app. split; [done|]. constructor; [|done].
    apply mk_chunk_ok; [|by rewrite length_insert; apply chunk_ok_len].
    intros Hnil%(f_equal length). rewrite length_insert in Hnil. simpl in Hnil. lia.
  - by apply flat_insert.
  - intros q. apply locate_same_shape. rewrite !fmap_app, !fmap_cons. simpl.
    by rewrite length_insert.
Qed.

Lemma chunk_fields c : chunk_ok c -> chunk_begin c = chunk_begin (mk_chunk (chunk_data c))
  /\ chunk_end c = chunk_end (mk_chunk (chunk_data c)) /\ chunk_count c = u64 (total (chunk_data c)).
Proof. intros [_ _ Heq]. split_and!; by rewrite Heq at 1. Qed.

(** The cached bounds at a range that is first, respectively last. *)
Lemma chunk_begin_first l r : l !! 0 = Some r -> chunk_begin (mk_chunk l) = r.1.
Proof. destruct l; by intros [= ->]. Qed.

Lemma chunk_end_last l r : l !! pred (length l) = Some r -> chunk_end (mk_chunk l) = r.2.
Proof. intros Hl. unfold mk_chunk. cbn [chunk_end]. by rewrite last_lookup, Hl. Qed.

Ltac solve_update :=
  let c := fresh "c" in let i := fresh "i" in
  let Hc := fresh "Hc" in let Hi := fresh "Hi" in let Heq := fresh "Heq" in
  intros c i Hc Hi Heq; cbn beta zeta; unfold is_back; rewrite Heq;
  destruct (chunk_fields c Hc) as (-> & -> & ->);
  rewrite (mk_chunk_insert _ _ _ _ Hi); cbn [fst snd];
  f_equal;
  try (let Hb := fresh "Hb" in case_bool_decide as Hb; try rewrite Hb in Hi);
  rewrite ?(chunk_begin_first _ _ Hi), ?(chunk_end_last _ _ Hi);
  first [reflexivity | u64_lia].

Definition updates (d d' : ChunkedRangeVector) (p : nat) (v : range) : Prop :=
  shape_ok d' /\ flat d' = <[p:=v]> (flat d) /\ (forall q, locate d' q = locate d q).

Lemma it_set_locate d p r front back : shape_ok d -> flat d !! p = Some r ->
  exists d', it_set d (locate d p) front back = Some d' /\ updates d d' p (front, back).
Proof.
  intros Hd Hp. unfold it_set, updates.
  apply (update_chunk d p r (front, back) (λ c r, mkChunk _ _ _ _)); try done.
  solve_update.
Qed.

Lemma it_adjust_locate d p r front back : shape_ok d -> flat d !! p = Some r ->
  exists d', it_adjust d (locate d p) front back = Some d'
    /\ updates d d' p (r.1 +! front, r.2 +! back).
Proof.
  intros Hd Hp. unfold it_adjust, updates.
  apply (update_chunk d p r (r.1 +! front, r.2 +! back) (λ c r, mkChunk _ _ _ _)); try done.
  solve_update.
Qed.

Lemma it_shift_locate d p r distance : shape_ok d -> flat d !! p = Some r ->
  exists d', it_shift d (locate d p) distance = Some d'
    /\ updates d d' p (r.1 +! distance, r.2 +! distance).
Proof.
  intros Hd Hp. unfold it_shift, updates.
  apply (update_chunk d p r (r.1 +! distance, r.2 +! distance) (λ c r, mkChunk _ _ _ _)); try done.
  solve_update.
Qed.
(** ** [verify] *)

Lemma wf_flat_app L1 L2 : wf_flat (L1 ++ L2) -> wf_flat L1 /\ wf_flat L2.
Proof.
  intros [[Hok1 Hok2]%ok_from_app [Hb1 Hb2]%bounded_app].
  split; split; try done. eapply ok_from_weaken, Hok2. by apply next_lo_ge.
Qed.

Lemma verify_ranges_ok prev L :
  ok_from (prev + 1) L \/ (prev = npos /\ ok_from 0 L) -> verify_ranges prev L = Some tt.
Proof.
  revert prev. induction L as [|r L IH]; intros prev Hok; [done|]. cbn [verify_ranges].
  simpl in Hok. rewrite REALM_ASSERT_decide, REALM_ASSERT_true; cbn [mbind option_bind].
  - apply IH. left. tauto.
  - rewrite orb_true_iff, !bool_decide_eq_true. destruct Hok; [right; lia|left; tauto].
  - lia.
Qed.

Lemma range_count_foldl a l :
  foldl (λ acc r, acc +! (r.2 -! r.1)) (u64 a) l = u64 (a + total l).
Proof.
  revert a. induction l as [|r l IH]; intros a; simpl; [by rewrite Z.add_0_r|].
  replace (u64 a +! (r.2 -! r.1)) with (u64 (a + (r.2 - r.1))) by u64_ring.
  rewrite IH. f_equal. lia.
Qed.

Lemma range_count_total l : range_count l = u64 (total l).
Proof. unfold range_count. by rewrite (range_count_foldl 0). Qed.

Lemma chunk_count_le l : l <> [] -> wf_flat l ->
  (u64 (total l) <= chunk_end (mk_chunk l) -! chunk_begin (mk_chunk l))%Z.
Proof.
  intros Hne [Hok Hb]. destruct l as [|r0 l0] eqn:El; [done|]. rewrite <-El in *.
  destruct (last l) as [r|] eqn:Hr; [|by apply last_None in Hr; subst].
  assert (Hlast := next_lo_last r0.1 l r Hr).
  assert (Hhead : ok_from r0.1 l) by (subst l; by eapply ok_from_head).
  pose proof (total_bounded r0.1 r.2 l Hhead) as Ht.
  assert (bounded r.2 l) as Hb'.
  { eapply bounded_weaken, ok_from_bounded, Hhead. lia. }
  assert (r.2 <= npos)%Z.
  { apply last_Some in Hr as [l' ->]. by apply bounded_app in Hb as [_ [? _]%bounded_cons]. }
  assert (0 <= r0.1 /\ r0.1 < r0.2 /\ r0.2 <= r.2)%Z.
  { subst l. simpl in Hok. apply bounded_cons in Hb' as [? _]. lia. }
  pose proof (total_nonneg _ _ Hok).
  unfold mk_chunk. cbn [chunk_begin chunk_end]. rewrite Hr, El. simpl.
  unfold npos in *. specialize (Ht Hb' ltac:(lia)). subst l. simpl in *. u64_drop. lia.
Qed.

Lemma verify_chunks_ok d : shape_ok d -> wf_flat (flat d) -> verify_chunks d = Some tt.
Proof.
  induction 1 as [|c d Hc Hd IH]; [done|]. rewrite flat_cons.
  intros [Hwc Hwd]%wf_flat_app. cbn [verify_chunks].
  pose proof (chunk_ok_ne c Hc) as Hne.
  destruct (chunk_fields c Hc) as (-> & -> & ->).
  pose proof (chunk_count_le (chunk_data c) Hne Hwc) as Hcnt.
  rewrite range_count_total, REALM_ASSERT_decide by done. simpl.
  destruct (head (chunk_data c)) as [front|] eqn:Hf; [|by destruct (chunk_data c)].
  destruct (last (chunk_data c)) as [back|] eqn:Hb; [|by apply last_None in Hb].
  unfold mk_chunk in Hcnt |- *. cbn [chunk_begin chunk_end] in Hcnt |- *.
  rewrite ?Hf, ?Hb in Hcnt. rewrite ?Hf, ?Hb. simpl in Hcnt |- *.
  rewrite !REALM_ASSERT_decide by done. by apply IH.
Qed.

Lemma verify_ok d : shape_ok d -> wf_flat (flat d) -> verify d = Some tt.
Proof.
  intros Hd Hwf. unfold verify. destruct realm_debug; [|done].
  rewrite verify_ranges_ok by (right; split; [done|]; apply Hwf). simpl.
  by apply verify_chunks_ok.
Qed.
(** ** [push_back] *)

Lemma mk_chunk_snoc l v : l <> [] ->
  mk_chunk (l ++ [v]) = mkChunk (l ++ [v]) (chunk_begin (mk_chunk l)) v.2
                          (u64 (total l) +! (v.2 -! v.1)).
Proof.
  intros Hne. unfold mk_chunk. cbn [chunk_begin]. f_equal.
  - by destruct l.
  - by rewrite last_snoc.
  - rewrite total_app. simpl. u64_ring.
Qed.

Lemma mk_chunk_single v : mk_chunk [v] = mkChunk [v] v.1 v.2 (v.2 -! v.1).
Proof. unfold mk_chunk. simpl. by rewrite Z.add_0_r. Qed.

(** The cached bounds of a sorted chunk enclose its ranges. *)
Lemma chunk_bounds lo l v : ok_from lo l -> v ∈ l ->
  (chunk_begin (mk_chunk l) <= v.1 /\ v.2 <= chunk_end (mk_chunk l))%Z.
Proof.
  intros Hok Hv. destruct l as [|r0 l0] eqn:El; [by apply elem_of_nil in Hv|].
  destruct (last l) as [r|] eqn:Hr; [|apply last_None in Hr; congruence].
  rewrite <-El in *. pose proof (next_lo_last r0.1 l r Hr) as Hlast.
  assert (Hhead : ok_from r0.1 l) by (subst l; by eapply ok_from_head).
  apply ok_from_Forall in Hhead. rewrite Forall_forall in Hhead.
  specialize (Hhead v Hv). unfold mk_chunk. cbn [chunk_begin chunk_end].
  rewrite Hr. subst l. simpl in *. lia.
Qed.

Lemma push_back_flat d v : shape_ok d -> wf_flat (flat d ++ [v]) ->
  exists d', push_back d v = Some d' /\ shape_ok d' /\ flat d' = flat d ++ [v].
Proof.
  intros Hd Hwf.
  assert (Hfresh : exists d', d' = d ++ [mkChunk [v] v.1 v.2 (v.2 -! v.1)]
      /\ shape_ok d' /\ flat d' = flat d ++ [v]).
  { eexists. split; [done|]. rewrite <-mk_chunk_single. split.
    - apply Forall_app. split; [done|]. constructor; [|done].
      apply mk_chunk_ok; [done|]. pose proof max_size_bounds. simpl. lia.
    - by rewrite flat_app. }
  destruct Hfresh as (df & Hdf & Hdf_ok & Hdf_flat).
  unfold push_back. cbn zeta. rewrite <-Hdf.
  destruct (last d) as [c|] eqn:Hlast.
  2:{ simpl. rewrite verify_ok by (done || congruence). simpl. eauto. }
  case_bool_decide as Hlen.
  2:{ simpl. rewrite verify_ok by (done || congruence). simpl. eauto. }
  apply last_Some in Hlast as [pre ->].
  apply Forall_app in Hd as [Hpre [Hc _]%Forall_cons].
  pose proof (chunk_ok_ne c Hc) as Hne.
  destruct (chunk_fields c Hc) as (-> & -> & ->).
  assert (chunk_end (mk_chunk (chunk_data c)) <= v.1)%Z as Hend.
  { rewrite flat_app, flat_cons in Hwf. unfold flat at 2 in Hwf. simpl in Hwf.
    rewrite app_nil_r, <-app_assoc in Hwf. apply wf_flat_app in Hwf as [_ [Hwf _]].
    apply ok_from_app in Hwf as [Hok [Hv _]].
    destruct (last (chunk_data c)) as [r|] eqn:Hr; [|by apply last_None in Hr].
    rewrite (next_lo_last _ _ _ Hr) in Hv. unfold mk_chunk. simpl. rewrite Hr. simpl. lia. }
  rewrite REALM_ASSERT_decide by done. cbn [mbind option_bind].
  rewrite <-mk_chunk_snoc by done.
  rewrite length_app, insert_app_r_alt by (simpl; lia).
  replace (pred _ - length pre) with 0 by (simpl; lia). simpl.
  assert (Hflat : flat (pre ++ [mk_chunk (chunk_data c ++ [v])]) = flat (pre ++ [c]) ++ [v]).
  { rewrite !flat_app, !flat_cons. simpl. by rewrite !app_nil_r, !app_assoc. }
  assert (Hok : shape_ok (pre ++ [mk_chunk (chunk_data c ++ [v])])).
  { apply Forall_app. split; [done|]. constructor; [|done].
    apply mk_chunk_ok; [by intros [_ ?]%app_eq_nil|]. rewrite length_app. simpl. lia. }
  rewrite verify_ok by (done || congruence). simpl. eauto.
Qed.

(** ** [ensure_space] *)

Lemma mk_chunk_split l n : 0 < n < length l ->
  exists b f e, last (take n l) = Some b /\ head (drop n l) = Some f /\ last (drop n l) = Some e
    /\ mk_chunk (take n l) = mkChunk (take n l) (chunk_begin (mk_chunk l)) b.2
         (u64 (total l) -! range_count (drop n l))
    /\ mk_chunk (drop n l) = mkChunk (drop n l) f.1 e.2 (range_count (drop n l)).
Proof.
  intros Hn.
  destruct (last (take n l)) as [b|] eqn:Hb.
  2:{ apply last_None, (f_equal length) in Hb. rewrite length_take in Hb. simpl in Hb. lia. }
  assert (drop n l <> []) as Hne.
  { intros Hd%(f_equal length). rewrite length_drop in Hd. simpl in Hd. lia. }
  destruct (head (drop n l)) as [f|] eqn:Hf; [|by destruct (drop n l)].
  destruct (last (drop n l)) as [e|] eqn:He; [|by apply last_None in He].
  exists b, f, e. split_and!; [done..| |].
  - unfold mk_chunk. rewrite Hb, range_count_total. cbn [chunk_begin]. f_equal.
    + by destruct l, n; simpl in *; try lia.
    + rewrite <-(take_drop n l) at 2. rewrite total_app. u64_ring.
  - unfold mk_chunk. by rewrite Hf, He, range_count_total.
Qed.

Lemma ensure_space_locate d p : shape_ok d -> wf_flat (flat d) -> p < length (flat d) ->
  exists d', ensure_space d (locate d p) = Some (d', locate d' p)
    /\ shape_ok d' /\ flat d' = flat d
    /\ exists pre c post i, d' = pre ++ c :: post /\ p = length (flat pre) + i
         /\ i < length (chunk_data c) < max_size /\ locate d' p = mkIter (length pre) i.
Proof.
  intros Hd Hwf Hp.
  destruct (locate_split d p) as (pre & c & post & i & -> & -> & Hi & Hl); [done|].
  unfold ensure_space. rewrite Hl. cbn [m_outer m_inner].
  rewrite list_lookup_middle by done. cbn [mbind option_bind].
  case_bool_decide as Hlen.
  { exists (pre ++ c :: post). rewrite Hl. split_and!; [done..|].
    exists pre, c, post, i. split_and!; (done || lia). }
  cbn zeta. apply Forall_app in Hd as [Hpre [Hc Hpost]%Forall_cons].
  pose proof max_size_bounds as [Hms Hhalf]. pose proof (chunk_ok_len c Hc).
  set (h := max_size / 2) in *. replace (length (chunk_data c) - h) with h by lia.
  destruct (mk_chunk_split (chunk_data c) h) as (b & f & e & Hb & Hf & He & Htk & Hdr); [lia|].
  rewrite Hb, Hf, He. cbn [mbind option_bind].
  destruct (chunk_fields c Hc) as (-> & _ & ->). rewrite <-Htk, <-Hdr.
  rewrite insert_middle.
  rewrite (cons_middle _ pre post), app_assoc.
  replace (S (length pre)) with (length (pre ++ [mk_chunk (take h (chunk_data c))]))
    by (rewrite length_app; simpl; lia).
  rewrite vec_insert_app, <-app_assoc. cbn [app].
  set (prev := mk_chunk (take h (chunk_data c))). set (new := mk_chunk (drop h (chunk_data c))).
  assert (length (take h (chunk_data c)) = h) as Hlt by (rewrite length_take; lia).
  assert (length (drop h (chunk_data c)) = h) as Hld by (rewrite length_drop; lia).
  assert (Hflat : flat (pre ++ prev :: new :: post) = flat (pre ++ c :: post)).
  { rewrite !flat_app, !flat_cons. simpl. rewrite (app_assoc (take _ _)). by rewrite take_drop. }
  assert (Hok : shape_ok (pre ++ prev :: new :: post)).
  { apply Forall_app. split; [done|]. constructor; [|constructor; [|done]];
      apply mk_chunk_ok; try lia; intros Hnil%(f_equal length);
      rewrite ?Hlt, ?Hld in Hnil; simpl in Hnil; lia. }
  rewrite verify_ok by (done || congruence). cbn [mbind option_bind].
  exists (pre ++ prev :: new :: post).
  case_bool_decide as Hoff.
  - assert (locate (pre ++ prev :: new :: post) (length (flat pre) + i)
      = mkIter (length (pre ++ [prev])) (i - h)) as Hl'.
    { rewrite (cons_middle prev pre), app_assoc.
      replace (length (flat pre) + i) with (length (flat (pre ++ [prev])) + (i - h))
        by (rewrite flat_app, length_app, flat_length_cons; simpl; lia).
      apply locate_app. simpl. lia. }
    rewrite Hl'. split_and!; [done..|].
    exists (pre ++ [prev]), new, post, (i - h). split_and!; try done.
    + by rewrite (cons_middle prev pre), app_assoc.
    + rewrite flat_app, length_app, flat_length_cons. simpl. lia.
    + simpl. lia.
    + simpl. lia.
  - assert (locate (pre ++ prev :: new :: post) (length (flat pre) + i)
      = mkIter (length pre) i) as Hl' by (apply locate_app; simpl; lia).
    rewrite Hl'. split_and!; [done..|].
    exists pre, prev, (new :: post), i. split_and!; try done; simpl; lia.
Qed.
(** ** [insert] *)

Lemma mk_chunk_vec_insert lo l i v : ok_from lo (vec_insert i v l) -> i < length l ->
  mk_chunk (vec_insert i v l) =
  mkChunk (vec_insert i v l) (std_min (chunk_begin (mk_chunk l)) v.1)
    (std_max (chunk_end (mk_chunk l)) v.2) (u64 (total l) +! (v.2 -! v.1)).
Proof.
  intros Hok Hi.
  assert (v ∈ vec_insert i v l) as Hv by (unfold vec_insert; set_solver).
  pose proof (chunk_bounds _ _ _ Hok Hv) as [Hb He].
  assert (Hend : chunk_end (mk_chunk (vec_insert i v l)) = chunk_end (mk_chunk l)).
  { unfold mk_chunk, vec_insert. cbn [chunk_end]. f_equal. f_equal.
    rewrite last_app_cons. destruct (drop i l) as [|r l2] eqn:Hd.
    - apply (f_equal length) in Hd. rewrite length_drop in Hd. simpl in Hd. lia.
    - rewrite last_cons_cons. rewrite <-(take_drop i l), Hd. by rewrite last_app_cons. }
  rewrite Hend in He.
  assert (total (vec_insert i v l) = total l + (v.2 - v.1))%Z as Ht.
  { unfold vec_insert. rewrite <-(take_drop i l) at 3. rewrite !total_app. simpl. lia. }
  replace (mk_chunk (vec_insert i v l)) with
    (mkChunk (vec_insert i v l) (chunk_begin (mk_chunk (vec_insert i v l)))
       (chunk_end (mk_chunk (vec_insert i v l))) (u64 (total (vec_insert i v l)))) by done.
  rewrite Hend, Ht. f_equal; [|lia|u64_ring].
  destruct l as [|r l]; [simpl in Hi; lia|]. destruct i as [|i].
  - unfold vec_insert in *. simpl in *. lia.
  - unfold vec_insert in *. simpl in *. lia.
Qed.

Lemma wf_flat_middle L1 L2 L3 : wf_flat (L1 ++ L2 ++ L3) -> wf_flat L2.
Proof. by intros [_ [? _]%wf_flat_app]%wf_flat_app. Qed.

Lemma vec_insert_in_chunk pre c post i v : i <= length (chunk_data c) ->
  vec_insert (length (flat pre) + i) v (flat (pre ++ c :: post)) =
  flat pre ++ vec_insert i v (chunk_data c) ++ flat post.
Proof.
  intros Hi. unfold vec_insert. rewrite flat_app, flat_cons.
  rewrite take_app_ge, drop_app_ge by lia.
  replace (length (flat pre) + i - length (flat pre)) with i by lia.
  rewrite take_app_le, drop_app_le by done. by rewrite <-!app_assoc.
Qed.

Lemma insert_locate d p v : shape_ok d -> wf_flat (flat d) -> p <= length (flat d) ->
  wf_flat (vec_insert p v (flat d)) ->
  exists d', insert d (locate d p) v = Some (d', locate d' p)
    /\ shape_ok d' /\ flat d' = vec_insert p v (flat d).
Proof.
  intros Hd Hwf Hp Hwf'. unfold insert.
  destruct (decide (p = length (flat d))) as [->|Hne].
  - rewrite locate_end, bool_decide_true by done.
    assert (vec_insert (length (flat d)) v (flat d) = flat d ++ [v]) as Hvi.
    { pose proof (vec_insert_app (flat d) [] v) as Hvi. by rewrite app_nil_r in Hvi. }
    rewrite Hvi in *.
    destruct (push_back_flat d v Hd Hwf') as (d' & -> & Hd' & Hflat). cbn [mbind option_bind].
    rewrite <-locate_end, it_prev_locate by (rewrite ?Hflat, ?length_app; simpl; (done || lia)).
    rewrite Hflat, length_app. simpl. exists d'. split_and!; [|done..].
    f_equal. f_equal. f_equal. lia.
  - assert (not_end d (locate d p) = true) as Hnend
      by (rewrite not_end_locate, bool_decide_true by lia; done).
    rewrite bool_decide_false.
    2:{ destruct (locate_split d p) as (pre & c & post & i & -> & _ & _ & ->); [lia|].
        simpl. rewrite length_app. simpl. lia. }
    destruct (ensure_space_locate d p Hd Hwf) as
      (d1 & -> & Hd1 & Hflat & pre & c & post & i & -> & -> & Hi & Hl); [lia|].
    cbn [mbind option_bind]. rewrite Hl. cbn [m_outer m_inner].
    rewrite list_lookup_middle by done. cbn [mbind option_bind].
    rewrite <-Hflat in Hwf' |- *. rewrite vec_insert_in_chunk in Hwf' |- * by lia.
    apply Forall_app in Hd1 as [Hpre [Hc Hpost]%Forall_cons].
    destruct (chunk_fields c Hc) as (-> & -> & ->).
    rewrite <-(mk_chunk_vec_insert 0) by (try lia; by apply wf_flat_middle in Hwf' as [? _]).
    rewrite insert_middle. set (c' := mk_chunk _).
    assert (Hlen : length (vec_insert i v (chunk_data c)) = S (length (chunk_data c)))
      by (apply vec_insert_length; lia).
    assert (Hok : shape_ok (pre ++ c' :: post)).
    { apply Forall_app. split; [done|]. constructor; [|done]. apply mk_chunk_ok; [|lia].
      intros Hnil%(f_equal length). rewrite Hlen in Hnil. done. }
    assert (Hflat' : flat (pre ++ c' :: post) =
      flat pre ++ vec_insert i v (chunk_data c) ++ flat post) by (by rewrite flat_app, flat_cons).
    rewrite verify_ok by (done || congruence). cbn [mbind option_bind].
    exists (pre ++ c' :: post). rewrite locate_app by (simpl; lia). done.
Qed.

(** ** [erase] *)

Lemma mk_chunk_vec_erase l i r f b : l !! i = Some r ->
  head (vec_erase i l) = Some f -> last (vec_erase i l) = Some b ->
  mk_chunk (vec_erase i l) = mkChunk (vec_erase i l) f.1 b.2 (u64 (total l) -! (r.2 -! r.1)).
Proof.
  intros Hi Hf Hb. unfold mk_chunk. rewrite Hf, Hb. simpl. f_equal.
  assert (total l = total (vec_erase i l) + (r.2 - r.1))%Z as ->; [|u64_ring].
  unfold vec_erase. rewrite <-(take_drop_middle l i r Hi) at 1. rewrite !total_app. simpl. lia.
Qed.

Lemma vec_erase_in_chunk pre c post i : i < length (chunk_data c) ->
  vec_erase (length (flat pre) + i) (flat (pre ++ c :: post)) =
  flat pre ++ vec_erase i (chunk_data c) ++ flat post.
Proof.
  intros Hi. unfold vec_erase. rewrite flat_app, flat_cons.
  rewrite take_app_ge, drop_app_ge by lia.
  replace (length (flat pre) + i - length (flat pre)) with i by lia.
  replace (S (length (flat pre) + i) - length (flat pre)) with (S i) by lia.
  rewrite take_app_le, drop_app_le by lia. by rewrite <-!app_assoc.
Qed.

Lemma erase_locate d p : shape_ok d -> p < length (flat d) ->
  wf_flat (vec_erase p (flat d)) ->
  exists d', erase d (locate d p) = Some (d', locate d' p)
    /\ shape_ok d' /\ flat d' = vec_erase p (flat d).
Proof.
  intros Hd Hp Hwf. unfold erase.
  destruct (locate_split d p) as (pre & c & post & i & -> & -> & Hi & ->); [done|].
  cbn [m_outer m_inner]. rewrite list_lookup_middle by done. cbn [mbind option_bind].
  destruct (lookup_lt_is_Some_2 (chunk_data c) i Hi) as [r Hr]. rewrite Hr.
  cbn [mbind option_bind]. cbn zeta.
  rewrite vec_erase_in_chunk in Hwf |- * by done.
  apply Forall_app in Hd as [Hpre [Hc Hpost]%Forall_cons].
  destruct (chunk_fields c Hc) as (_ & _ & ->). pose proof (chunk_ok_len c Hc) as Hclen.
  pose proof (vec_erase_length i (chunk_data c) Hi) as Hlen.
  destruct (vec_erase i (chunk_data c)) as [|f l'] eqn:He.
  - simpl. rewrite vec_erase_app.
    assert (shape_ok (pre ++ post)) by (by apply Forall_app).
    assert (flat (pre ++ post) = flat pre ++ [] ++ flat post) as Hflat by (by rewrite flat_app).
    rewrite verify_ok by (done || congruence). cbn [mbind option_bind].
    exists (pre ++ post). split_and!; [|done..].
    simpl in Hlen. replace (length (flat pre) + i) with (length (flat pre)) by lia.
    by rewrite locate_boundary.
  - rewrite <-He in *.
    destruct (head (vec_erase i (chunk_data c))) as [f'|] eqn:Hf; [|by rewrite He in Hf].
    destruct (last (vec_erase i (chunk_data c))) as [b|] eqn:Hb;
      [|apply last_None in Hb; congruence].
    rewrite <-(mk_chunk_vec_erase _ _ r f' b) by done.
    rewrite insert_middle. set (c' := mk_chunk _).
    assert (Hok : shape_ok (pre ++ c' :: post)).
    { apply Forall_app. split; [done|]. constructor; [|done]. apply mk_chunk_ok; [|lia].
      by rewrite He. }
    assert (Hflat : flat (pre ++ c' :: post) =
      flat pre ++ vec_erase i (chunk_data c) ++ flat post) by (by rewrite flat_app, flat_cons).
    rewrite verify_ok by (done || congruence). cbn [mbind option_bind].
    exists (pre ++ c' :: post). split_and!; [|done..]. f_equal. f_equal.
    case_bool_decide as Hcase.
    + by rewrite locate_app.
    + replace (length (flat pre) + i) with (length (flat (pre ++ [c'])))
        by (rewrite flat_app, length_app, flat_length_cons; simpl; lia).
      rewrite (cons_middle c' pre post), app_assoc, locate_boundary by done.
      rewrite length_app. simpl. by rewrite Nat.add_comm.
Qed.
(** ** Zipper forms

    The same facts for a flat list split at the iterator. *)

Lemma wf_flat_mid L1 r L2 : wf_flat (L1 ++ r :: L2) ->
  (0 <= next_lo 0 L1 /\ next_lo 0 L1 <= r.1 /\ r.1 < r.2 /\ r.2 <= npos)%Z.
Proof.
  intros [[Hok1 Hok2]%ok_from_app Hb]. apply next_lo_ge in Hok1.
  apply bounded_app in Hb as [_ [? _]%bounded_cons]. simpl in Hok2. lia.
Qed.

Lemma locate_mid_length d L1 L2 : flat d = L1 ++ L2 -> length L1 <= length (flat d).
Proof. intros ->. rewrite length_app. lia. Qed.

Lemma deref_mid d L1 r L2 : flat d = L1 ++ r :: L2 -> deref d (locate d (length L1)) = Some r.
Proof.
  intros Hf. rewrite deref_locate by (by eapply locate_mid_length).
  by rewrite Hf, list_lookup_middle.
Qed.

Lemma not_end_mid d L1 L2 : flat d = L1 ++ L2 ->
  not_end d (locate d (length L1)) = bool_decide (L2 <> []).
Proof.
  intros Hf. rewrite not_end_locate by (by eapply locate_mid_length).
  apply bool_decide_ext. rewrite Hf, length_app. destruct L2; simpl; split; (done || lia).
Qed.

Lemma it_next_mid d L1 r L2 : shape_ok d -> flat d = L1 ++ r :: L2 ->
  it_next d (locate d (length L1)) = Some (locate d (length (L1 ++ [r]))).
Proof.
  intros Hd Hf. rewrite it_next_locate by (rewrite ?Hf, ?length_app; simpl; (done || lia)).
  by rewrite length_app, Nat.add_comm.
Qed.

Lemma it_prev_mid d L1 r L2 : shape_ok d -> flat d = (L1 ++ [r]) ++ L2 ->
  it_prev d (locate d (length (L1 ++ [r]))) = Some (locate d (length L1)).
Proof.
  intros Hd Hf. rewrite it_prev_locate; [|done|].
  - rewrite length_app. simpl. do 2 f_equal. lia.
  - rewrite Hf, !length_app. simpl. lia.
Qed.

Lemma locate_begin_mid d L1 L2 : shape_ok d -> flat d = L1 ++ L2 ->
  bool_decide (locate d (length L1) = it_begin d) = bool_decide (L1 = []).
Proof.
  intros Hd Hf. rewrite locate_begin_iff by (done || by eapply locate_mid_length).
  apply bool_decide_ext. destruct L1; simpl; split; done.
Qed.

Definition replaces (d d' : ChunkedRangeVector) (L : list range) : Prop :=
  shape_ok d' /\ flat d' = L /\ forall q, locate d' q = locate d q.

Lemma it_set_mid d L1 r L2 a b : shape_ok d -> flat d = L1 ++ r :: L2 ->
  exists d', it_set d (locate d (length L1)) a b = Some d' /\ replaces d d' (L1 ++ (a, b) :: L2).
Proof.
  intros Hd Hf. destruct (it_set_locate d (length L1) r a b Hd) as (d' & -> & ? & Hf' & ?).
  { by rewrite Hf, list_lookup_middle. }
  rewrite Hf, insert_middle in Hf'. by exists d'.
Qed.

Lemma it_adjust_mid d L1 r L2 a b : shape_ok d -> flat d = L1 ++ r :: L2 ->
  exists d', it_adjust d (locate d (length L1)) a b = Some d'
    /\ replaces d d' (L1 ++ (r.1 +! a, r.2 +! b) :: L2).
Proof.
  intros Hd Hf. destruct (it_adjust_locate d (length L1) r a b Hd) as (d' & -> & ? & Hf' & ?).
  { by rewrite Hf, list_lookup_middle. }
  rewrite Hf, insert_middle in Hf'. by exists d'.
Qed.

Lemma it_shift_mid d L1 r L2 n : shape_ok d -> flat d = L1 ++ r :: L2 ->
  exists d', it_shift d (locate d (length L1)) n = Some d'
    /\ replaces d d' (L1 ++ (r.1 +! n, r.2 +! n) :: L2).
Proof.
  intros Hd Hf. destruct (it_shift_locate d (length L1) r n Hd) as (d' & -> & ? & Hf' & ?).
  { by rewrite Hf, list_lookup_middle. }
  rewrite Hf, insert_middle in Hf'. by exists d'.
Qed.

Lemma insert_mid d L1 L2 v : shape_ok d -> flat d = L1 ++ L2 ->
  wf_flat (L1 ++ L2) -> wf_flat (L1 ++ v :: L2) ->
  exists d', insert d (locate d (length L1)) v = Some (d', locate d' (length L1))
    /\ shape_ok d' /\ flat d' = L1 ++ v :: L2.
Proof.
  intros Hd Hf Hwf Hwf'.
  destruct (insert_locate d (length L1) v Hd) as (d' & -> & ? & Hf').
  - by rewrite Hf.
  - by eapply locate_mid_length.
  - by rewrite Hf, vec_insert_app.
  - rewrite Hf, vec_insert_app in Hf'. by exists d'.
Qed.

Lemma erase_mid d L1 r L2 : shape_ok d -> flat d = L1 ++ r :: L2 -> wf_flat (L1 ++ L2) ->
  exists d', erase d (locate d (length L1)) = Some (d', locate d' (length L1))
    /\ shape_ok d' /\ flat d' = L1 ++ L2.
Proof.
  intros Hd Hf Hwf. destruct (erase_locate d (length L1) Hd) as (d' & -> & ? & Hf').
  - rewrite Hf, length_app. simpl. lia.
  - by rewrite Hf, vec_erase_app.
  - rewrite Hf, vec_erase_app in Hf'. by exists d'.
Qed.
End ops.
