(* ===== verification/IndexSet.v ===== *)
(** * Index sets

    [IndexSet] (include/index_set.hpp and the second half of index_set.cpp):
    a set of row indices kept as sorted disjoint ranges in a
    [ChunkedRangeVector]. *)

From S2P Require Import Prelude ChunkedRangeVector.

Abbreviation IndexSet := ChunkedRangeVector.

Section index_set.
Context `{Build}.

(** ** Iterating over the indices *)

Record IndexIterator := mkIndexIterator { m_iterator : iterator; m_offset : Z }.

Definition index_deref (d : IndexSet) (it : IndexIterator) : option Z :=
  r ← deref d (m_iterator it); Some (r.1 +! m_offset it).

Definition index_next (d : IndexSet) (it : IndexIterator) : option IndexIterator :=
  let offset := m_offset it +! 1 in
  r ← deref d (m_iterator it);
  if bool_decide (r.1 +! offset = r.2) then
    next ← it_next d (m_iterator it); Some (mkIndexIterator next 0)
  else Some (mkIndexIterator (m_iterator it) offset).

(** Fuel for loops over the ranges and over the indices of a set. *)
Definition ranges_fuel (d : IndexSet) : nat := S (length (d ≫= chunk_data)).

Definition indexes_fuel (d : IndexSet) : nat :=
  S (sum_list_with (λ r, Z.to_nat (r.2 - r.1)) (d ≫= chunk_data)).

(** The indices an iterator visits up to the end, in order: what a range-based
    [for] over [as_indexes()] sees. *)
Fixpoint walk_indexes (fuel : nat) (d : IndexSet) (it : IndexIterator) : option (list Z) :=
  match fuel with
  | O => None
  | S fuel =>
      if bool_decide (m_iterator it = it_end d) then Some []
      else
        i ← index_deref d it;
        next ← index_next d it;
        rest ← walk_indexes fuel d next;
        Some (i :: rest)
  end.

Definition as_indexes (d : IndexSet) : option (list Z) :=
  walk_indexes (indexes_fuel d) d (mkIndexIterator (it_begin d) 0).

(** ** Lookup *)

Definition find_from (d : IndexSet) (index : Z) (from : iterator) : option iterator :=
  match find_index (λ lft, bool_decide (index < chunk_end lft)%Z) (drop (m_outer from) d) with
  | None => Some (it_end d)
  | Some k =>
      let outer := m_outer from + k in
      c ← d !! outer;
      if bool_decide (index < chunk_begin c)%Z then Some (mkIter outer 0)
      else
        let inner_begin := if bool_decide (outer = m_outer from) then m_inner from else 0 in
        inner ← find_index (λ lft, bool_decide (index < lft.2)%Z) (drop inner_begin (chunk_data c));
        Some (mkIter outer (inner_begin + inner))
  end.

Definition find (d : IndexSet) (index : Z) : option iterator :=
  find_from d index (it_begin d).

Definition contains (d : IndexSet) (index : Z) : option bool :=
  it ← find d index;
  if not_end d it then r ← deref d it; Some (bool_decide (r.1 <= index)%Z)
  else Some false.

(** The part of [count] that starts in the middle of a chunk; [inl] is an
    early [return]. *)
Definition count_partial_chunk (d : IndexSet) (start_index end_index : Z) (it : iterator)
  : option (Z + iterator * Z) :=
  r ← deref d it;
  if bool_decide (r.1 < start_index)%Z || negb (bool_decide (m_inner it = 0)) then
    let ret := r.2 -! std_max r.1 start_index in
    it ← it_next d it;
    '(it, ret) ← while (ranges_fuel d)
      (λ '(it, _),
        if not_end d it then
          r ← deref d it;
          Some (bool_decide (r.2 < end_index)%Z && negb (bool_decide (m_inner it = 0)))
        else Some false)
      (λ '(it, ret),
        r ← deref d it; it ← it_next d it; Some (it, ret +! (r.2 -! r.1)))
      (it, ret);
    if not_end d it then
      r ← deref d it;
      let ret :=
        if bool_decide (r.1 < end_index)%Z && negb (bool_decide (m_inner it = 0))
        then ret +! (end_index -! r.1) else ret in
      if bool_decide (end_index <= r.2)%Z then Some (inl ret) else Some (inr (it, ret))
    else Some (inl ret)
  else Some (inr (it, 0%Z)).

Definition count (d : IndexSet) (start_index end_index : Z) : option Z :=
  it ← find d start_index;
  if negb (not_end d it) then Some 0%Z else
  r ← deref d it;
  if bool_decide (end_index <= r.1)%Z then Some 0%Z else
  if bool_decide (end_index <= r.2)%Z then
    Some (std_min r.2 end_index -! std_max r.1 start_index)
  else
    partial ← count_partial_chunk d start_index end_index it;
    match partial with
    | inl ret => Some ret
    | inr st =>
        (* all complete chunks that fall within the range *)
        st ← while (S (length d))
          (λ '(it, _),
            if not_end d it then
              c ← d !! m_outer it; Some (bool_decide (chunk_end c <= end_index)%Z)
            else Some false)
          (λ '(it, ret),
            _ ← REALM_ASSERT_DEBUG (bool_decide (m_inner it = 0));
            c ← d !! m_outer it; Some (next_chunk it, ret +! chunk_count c))
          st;
        (* all complete ranges within the last chunk *)
        '(it, ret) ← while (ranges_fuel d)
          (λ '(it, _),
            if not_end d it then
              r ← deref d it; Some (bool_decide (r.2 <= end_index)%Z)
            else Some false)
          (λ '(it, ret),
            r ← deref d it; it ← it_next d it; Some (it, ret +! (r.2 -! r.1)))
          st;
        (* the partial last range *)
        if not_end d it then
          r ← deref d it;
          if bool_decide (r.1 < end_index)%Z then Some (ret +! (end_index -! r.1)) else Some ret
        else Some ret
    end.

(** ** Adding *)

(** The last two cases of [do_add]: the index does not touch the range before
    [it]; [cur] is the range at [it], if any. *)
Definition do_add_before (d : IndexSet) (it : iterator) (cur : option range) (index : Z)
  : option (IndexSet * iterator) :=
  if match cur with Some r => bool_decide (r.1 = index +! 1) | None => false end then
    (* index is immediately before an existing range *)
    d ← it_adjust d it (-1) 0; Some (d, it)
  else
    (* index is not next to an existing range *)
    insert d it (index, index +! 1).

(** The case of [do_add] where the index is immediately after the range at
    [prev], the one before [it]. *)
Definition do_add_after (d : IndexSet) (prev it : iterator) (cur : option range)
  : option (IndexSet * iterator) :=
  d ← it_adjust d prev 0 1;
  pr ← deref d prev;
  match cur with
  | Some r =>
      if bool_decide (pr.2 = r.1) then
        (* index joins two existing ranges *)
        d ← it_adjust d prev 0 (r.2 -! r.1);
        '(d, it) ← erase d it;
        it ← it_prev d it;
        Some (d, it)
      else Some (d, prev)
  | None => Some (d, prev)
  end.

Definition do_add (d : IndexSet) (it : iterator) (index : Z)
  : option (IndexSet * iterator) :=
  _ ← verify d;
  let more_before := negb (bool_decide (it = it_begin d)) in
  let valid := not_end d it in
  prev ← (if more_before then
            p ← it_prev d it; r ← deref d p; Some (Some (p, r))
          else Some None);
  cur ← (if valid then r ← deref d it; Some (Some r) else Some None);
  _ ← REALM_ASSERT
        match prev with Some (_, r) => bool_decide (r.2 <= index)%Z | None => true end;
  if match cur with
     | Some r => bool_decide (r.1 <= index)%Z && bool_decide (index < r.2)%Z
     | None => false end
  then (* index is already in set *) Some (d, it)
  else
    match prev with
    | Some (p, pr) =>
        if bool_decide (pr.2 = index) then do_add_after d p it cur
        else do_add_before d it cur index
    | None => do_add_before d it cur index
    end.

Definition add (d : IndexSet) (index : Z) : option IndexSet :=
  it ← find d index; '(d, _) ← do_add d it index; Some d.

Definition add_all (d other : IndexSet) : option IndexSet :=
  indexes ← as_indexes other;
  '(d, _) ← foldM (λ index '(d, it), it ← find_from d index it; do_add d it index)
      indexes (d, it_begin d);
  Some d.

(** [IndexSet(std::initializer_list<size_t>)] *)
Definition of_list (values : list Z) : option IndexSet :=
  foldM (λ v d, add d v) values [].

(** The loops of [add_shifted]: the target position and the shifted index. *)
Definition add_shifted_find (d : IndexSet) (index : Z) : option (iterator * Z) :=
  st ← while (S (length d))
    (λ '(it, index),
      if not_end d it then
        c ← d !! m_outer it; Some (bool_decide (chunk_end c <= index)%Z)
      else Some false)
    (λ '(it, index), c ← d !! m_outer it; Some (next_chunk it, index +! chunk_count c))
    (it_begin d, index);
  while (ranges_fuel d)
    (λ '(it, index),
      if not_end d it then r ← deref d it; Some (bool_decide (r.1 <= index)%Z)
      else Some false)
    (λ '(it, index), r ← deref d it; it ← it_next d it; Some (it, index +! (r.2 -! r.1)))
    st.

Definition add_shifted (d : IndexSet) (index : Z) : option (IndexSet * Z) :=
  '(it, index) ← add_shifted_find d index;
  '(d, _) ← do_add d it index;
  Some (d, index).

(** *** [add_shifted_by] *)

Record shift_state := mkShiftState {
  builder : ChunkedRangeVectorBuilder;
  old_it : iterator;
  shift_it : iterator;
  skip_until : Z;
  old_shift : Z;
  new_shift : Z;
}.

Definition skip_shifted (shifted_by : IndexSet) (index : Z) (st : shift_state)
  : option shift_state :=
  while (ranges_fuel shifted_by)
    (λ st,
      if not_end shifted_by (shift_it st) then
        r ← deref shifted_by (shift_it st); Some (bool_decide (r.1 <= index)%Z)
      else Some false)
    (λ st,
      r ← deref shifted_by (shift_it st);
      next ← it_next shifted_by (shift_it st);
      Some (mkShiftState (builder st) (old_it st) next r.2 (old_shift st)
             (new_shift st +! (r.2 -! r.1))))
    st.

Definition copy_old (d : IndexSet) (index : Z) (st : shift_state) : option shift_state :=
  while (ranges_fuel d)
    (λ st,
      if not_end d (old_it st) then
        r ← deref d (old_it st);
        Some (bool_decide (r.1 <= (index -! new_shift st) +! old_shift st)%Z)
      else Some false)
    (λ st,
      r ← deref d (old_it st);
      b ← foldM (λ i b, builder_push b i) (seqZ r.1 (r.2 - r.1)) (builder st);
      next ← it_next d (old_it st);
      Some (mkShiftState b next (shift_it st) (skip_until st)
             (old_shift st +! (r.2 -! r.1)) (new_shift st)))
    st.

Definition add_shifted_by_step (d shifted_by : IndexSet) (index : Z) (st : shift_state)
  : option shift_state :=
  st ← skip_shifted shifted_by index st;
  if bool_decide (index < skip_until st)%Z then Some st
  else
    st ← copy_old d index st;
    _ ← REALM_ASSERT (bool_decide (new_shift st <= index)%Z);
    b ← builder_push (builder st) ((index -! new_shift st) +! old_shift st);
    Some (mkShiftState b (old_it st) (shift_it st) (skip_until st) (old_shift st) (new_shift st)).

(** The ranges from an iterator to the end. *)
Definition copy_ranges (d : IndexSet) (it : iterator) (b : ChunkedRangeVectorBuilder)
  : option ChunkedRangeVectorBuilder :=
  '(b, _) ← while (ranges_fuel d)
    (λ '(_, it), Some (not_end d it))
    (λ '(b, it),
      r ← deref d it; b ← builder_push_range b r; it ← it_next d it; Some (b, it))
    (b, it);
  Some b.

(** The debug-only size bookkeeping of [add_shifted_by]. *)
Definition add_shifted_by_expected (d shifted_by values : IndexSet) : option Z :=
  old ← as_indexes d;
  new ← as_indexes values;
  foldM (λ index expected,
      c ← contains shifted_by index; Some (if c : bool then expected else expected +! 1))
    new (Z.of_nat (length old)).

Definition add_shifted_by (d shifted_by values : IndexSet) : option IndexSet :=
  if bool_decide (values = []) then Some d else
  expected ← (if realm_debug then add_shifted_by_expected d shifted_by values else Some 0%Z);
  indexes ← as_indexes values;
  st ← foldM (add_shifted_by_step d shifted_by) indexes
    (mkShiftState (builder_new d) (it_begin d) (it_begin shifted_by) 0 0 0);
  b ← copy_ranges d (old_it st) (builder st);
  d' ← builder_finalize b;
  _ ← (if realm_debug then
         produced ← as_indexes d';
         REALM_ASSERT (bool_decide (Z.of_nat (length produced) = expected))
       else Some tt);
  Some d'.

Definition set (len : Z) : option IndexSet :=
  if bool_decide (len = 0)%Z then Some [] else push_back [] (0%Z, len).

(** ** Inserting *)

(** [it.shift(distance)] for every range from [it] on. *)
Definition shift_until_end_by (d : IndexSet) (it : iterator) (distance : Z) : option IndexSet :=
  '(d, _) ← while (ranges_fuel d)
    (λ '(d, it), Some (not_end d it))
    (λ '(d, it), d ← it_shift d it distance; it ← it_next d it; Some (d, it))
    (d, it);
  Some d.

Definition insert_at (d : IndexSet) (index cnt : Z) : option IndexSet :=
  _ ← REALM_ASSERT (bool_decide (0 < cnt)%Z);
  pos ← find d index;
  '(d, in_existing) ← (
    if not_end d pos then
      r ← deref d pos;
      let in_existing := bool_decide (r.1 <= index)%Z in
      d ← (if in_existing then it_adjust d pos 0 cnt else it_shift d pos cnt);
      next ← it_next d pos;
      d ← shift_until_end_by d next cnt;
      Some (d, in_existing)
    else Some (d, false));
  d ← (if in_existing : bool then Some d
       else
         '(d, _) ← foldM (λ i '(d, pos),
             '(d, pos) ← do_add d pos (index +! i);
             pos ← it_next d pos;
             Some (d, pos)) (seqZ 0 cnt) (d, pos);
         Some d);
  _ ← verify d;
  Some d.

Fixpoint insert_merge (l1 : list Z) : list Z -> Z -> ChunkedRangeVectorBuilder ->
    option ChunkedRangeVectorBuilder :=
  fix inner (l2 : list Z) (shift : Z) (b : ChunkedRangeVectorBuilder) :=
    match l1, l2 with
    | x :: l1', y :: l2' =>
        if bool_decide (x +! shift < y)%Z then
          b ← builder_push b (x +! shift); insert_merge l1' l2 shift b
        else
          let shift := shift +! 1 in
          b ← builder_push b y; inner l2' shift b
    | _, _ =>
        b ← foldM (λ x b, builder_push b (x +! shift)) l1 b;
        foldM (λ y b, builder_push b y) l2 b
    end.

Definition insert_at_all (d positions : IndexSet) : option IndexSet :=
  if bool_decide (positions = []) then Some d
  else if bool_decide (d = []) then Some positions
  else
    l1 ← as_indexes d;
    l2 ← as_indexes positions;
    b ← insert_merge l1 l2 0 (builder_new d);
    builder_finalize b.

Definition shift_for_insert_at (d : IndexSet) (index cnt : Z) : option IndexSet :=
  _ ← REALM_ASSERT (bool_decide (0 < cnt)%Z);
  it ← find d index;
  if negb (not_end d it) then Some d
  else
    d ← shift_until_end_by d it cnt;
    (* If the range contained the insertion point, split the range and move
       the part of it before the insertion point back *)
    r ← deref d it;
    d ← (if bool_decide (r.1 < index +! cnt)%Z then
           let old_second := r.2 in
           d ← it_set d it (r.1 -! cnt) index;
           next ← it_next d it;
           '(d, _) ← insert d next (index +! cnt, old_second);
           Some d
         else Some d);
    _ ← verify d;
    Some d.

Fixpoint shift_merge (l1 : list Z) : list Z -> Z -> ChunkedRangeVectorBuilder ->
    option ChunkedRangeVectorBuilder :=
  fix inner (l2 : list Z) (shift : Z) (b : ChunkedRangeVectorBuilder) :=
    match l1, l2 with
    | x :: l1', y :: l2' =>
        if bool_decide (x +! shift < y)%Z then
          b ← builder_push b (x +! shift); shift_merge l1' l2 shift b
        else inner l2' (shift +! 1) b
    | _, _ => foldM (λ x b, builder_push b (x +! shift)) l1 b
    end.

Definition shift_for_insert_at_all (d values : IndexSet) : option IndexSet :=
  match values, last d with
  | v :: _, Some c =>
      if bool_decide (chunk_end c <= chunk_begin v)%Z then Some d
      else
        l1 ← as_indexes d;
        l2 ← as_indexes values;
        b ← shift_merge l1 l2 0 (builder_new d);
        builder_finalize b
  | _, _ => Some d
  end.

(** ** Erasing *)

Definition do_erase (d : IndexSet) (it : iterator) (index : Z) : option IndexSet :=
  r ← deref d it;
  '(d, it) ← (
    if bool_decide (r.1 <= index)%Z then
      if bool_decide (r.1 +! 1 = r.2) then erase d it
      else d ← it_adjust d it 0 (-1); it ← it_next d it; Some (d, it)
    else if bool_decide (it = it_begin d) then Some (d, it)
    else
      p ← it_prev d it;
      pr ← deref d p;
      if bool_decide (pr.2 +! 1 = r.1) then
        d ← it_adjust d p 0 (r.2 -! r.1); erase d it
      else Some (d, it));
  shift_until_end_by d it (-1).

Definition erase_at (d : IndexSet) (index : Z) : option IndexSet :=
  it ← find d index;
  if not_end d it then do_erase d it index else Some d.

Fixpoint erase_merge (l1 : list Z) : list Z -> Z -> ChunkedRangeVectorBuilder ->
    option ChunkedRangeVectorBuilder :=
  fix inner (l2 : list Z) (shift : Z) (b : ChunkedRangeVectorBuilder) :=
    match l1, l2 with
    | x :: l1', y :: l2' =>
        if bool_decide (x < y)%Z then
          b ← builder_push b (x -! shift); erase_merge l1' l2 shift b
        else if bool_decide (x = y) then erase_merge l1' l2' (shift +! 1) b
        else inner l2' (shift +! 1) b
    | _, _ => foldM (λ x b, builder_push b (x -! shift)) l1 b
    end.

Definition erase_at_all (d positions : IndexSet) : option IndexSet :=
  if bool_decide (d = []) || bool_decide (positions = []) then Some d
  else
    l1 ← as_indexes d;
    l2 ← as_indexes positions;
    b ← erase_merge l1 l2 0 (builder_new d);
    builder_finalize b.

(** The loops of [erase_or_unshift]: the target position and the unshifted
    index. *)
Definition unshift_find (d : IndexSet) (index : Z) : option (iterator * Z) :=
  st ← while (S (length d))
    (λ '(it, _),
      if not_end d it then
        c ← d !! m_outer it; Some (bool_decide (chunk_end c <= index)%Z)
      else Some false)
    (λ '(it, shifted), c ← d !! m_outer it; Some (next_chunk it, shifted -! chunk_count c))
    (it_begin d, index);
  while (ranges_fuel d)
    (λ '(it, _),
      if not_end d it then r ← deref d it; Some (bool_decide (r.2 <= index)%Z)
      else Some false)
    (λ '(it, shifted), r ← deref d it; it ← it_next d it; Some (it, shifted -! (r.2 -! r.1)))
    st.

Definition erase_or_unshift (d : IndexSet) (index : Z) : option (IndexSet * Z) :=
  '(it, shifted) ← unshift_find d index;
  if negb (not_end d it) then Some (d, shifted)
  else
    r ← deref d it;
    let shifted := if bool_decide (r.1 <= index)%Z then npos else shifted in
    d ← do_erase d it index;
    Some (d, shifted).

(** ** Removing *)

Definition do_remove_step (en : Z) (d : IndexSet) (it : iterator) (r : range) (bg : Z)
  : option (IndexSet * iterator) :=
  if bool_decide (r.1 < bg)%Z && bool_decide (en < r.2)%Z then
    (* the matching range extends to both sides: split it *)
    let old_second := r.2 in
    d ← it_set d it r.1 bg;
    next ← it_next d it;
    '(d, it) ← insert d next (en, old_second);
    it ← it_prev d it;
    Some (d, it)
  else if bool_decide (bg = r.1) && bool_decide (r.2 <= en)%Z then erase d it
  else if bool_decide (bg = r.1) then d ← it_set d it en r.2; Some (d, it)
  else d ← it_set d it r.1 bg; Some (d, it).

Definition do_remove (d : IndexSet) (it : iterator) (bg en : Z)
  : option (IndexSet * iterator) :=
  it ← find_from d bg it;
  '(d, it, _) ← while (S (ranges_fuel d))
    (λ '(d, it, _),
      if not_end d it then r ← deref d it; Some (bool_decide (r.1 < en)%Z)
      else Some false)
    (λ '(d, it, bg),
      r ← deref d it;
      let bg := std_max r.1 bg in
      '(d, it) ← do_remove_step en d it r bg;
      it ← find_from d bg it;
      Some (d, it, bg))
    (d, it, bg);
  Some (d, it).

Definition remove (d : IndexSet) (index cnt : Z) : option IndexSet :=
  it ← find d index;
  '(d, _) ← do_remove d it index (index +! cnt);
  Some d.

(** The ranges a range-based [for] over a set visits. *)
Fixpoint walk_ranges (fuel : nat) (d : IndexSet) (it : iterator) : option (list range) :=
  match fuel with
  | O => None
  | S fuel =>
      if not_end d it then
        r ← deref d it;
        next ← it_next d it;
        rest ← walk_ranges fuel d next;
        Some (r :: rest)
      else Some []
  end.

Definition ranges (d : IndexSet) : option (list range) :=
  walk_ranges (ranges_fuel d) d (it_begin d).

Fixpoint remove_ranges (values : list range) (d : IndexSet) (it : iterator) : option IndexSet :=
  match values with
  | [] => Some d
  | r :: values =>
      '(d, it) ← do_remove d it r.1 r.2;
      if not_end d it then remove_ranges values d it else Some d
  end.

Definition remove_all (d values : IndexSet) : option IndexSet :=
  rs ← ranges values; remove_ranges rs d (it_begin d).

(** ** Shifting an index *)

Fixpoint shift_ranges (rs : list range) (index : Z) : Z :=
  match rs with
  | [] => index
  | r :: rs =>
      if bool_decide (index < r.1)%Z then index
      else shift_ranges rs (index +! (r.2 -! r.1))
  end.

Definition shift (d : IndexSet) (index : Z) : option Z :=
  rs ← ranges d; Some (shift_ranges rs index).

Definition unshift (d : IndexSet) (index : Z) : option Z :=
  c ← contains d index;
  _ ← REALM_ASSERT_DEBUG (negb c);
  n ← count d 0 index;
  Some (index -! n).

Definition clear (_ : IndexSet) : IndexSet := [].

End index_set.
