(* ===== verification/LoopFacts.v ===== *)
(** * Correctness of [find]

    [find] returns the first range that ends after an index, starting from any
    iterator that is not past it. *)

From S2P Require Import Prelude ChunkedRangeVector ChunkedFacts ChunkedOps IndexSet.

Section find.
Context `{Build}.

(** [L] splits into the ranges that end at or before [index] and the rest. *)
Definition split_at (index : Z) (L L1 L2 : list range) : Prop :=
  L = L1 ++ L2 /\ Forall (λ r, r.2 <= index)%Z L1 /\
  (forall r, head L2 = Some r -> (index < r.2)%Z).

Lemma split_at_exists index L : exists L1 L2, split_at index L L1 L2.
Proof.
  unfold split_at.
  induction L as [|r L (L1 & L2 & -> & Hall & Hhd)]; [by exists [], []|].
  destruct (decide (r.2 <= index)%Z).
  - exists (r :: L1), L2. split_and!; [done|by constructor|done].
  - exists [], (r :: L1 ++ L2). split_and!; [done|done|]. intros ? [= <-]. lia.
Qed.

(** After the split every range ends after [index]. *)
Lemma split_at_rest lo index L L1 L2 : ok_from lo L -> split_at index L L1 L2 ->
  Forall (λ r, index < r.2)%Z L2.
Proof.
  intros Hok (-> & _ & Hhd). apply ok_from_app in Hok as [_ Hok].
  destruct L2 as [|r L2]; [done|]. pose proof (Hhd r eq_refl).
  destruct Hok as (_ & ? & Hok%ok_from_Forall).
  constructor; [done|]. eapply Forall_impl; [done|]. simpl. lia.
Qed.

Lemma split_at_prefix index La Lb L1 L2 : split_at index (La ++ Lb) L1 L2 ->
  Forall (λ r, r.2 <= index)%Z La -> length La <= length L1.
Proof.
  intros (Hf & _ & Hhd) Hall. destruct (decide (length La <= length L1)); [done|exfalso].
  destruct (lookup_lt_is_Some_2 La (length L1)) as [r Hr]; [lia|].
  rewrite Forall_lookup in Hall. specialize (Hall _ _ Hr). simpl in Hall.
  apply (lookup_app_l_Some La Lb) in Hr. rewrite Hf, lookup_app_r, Nat.sub_diag in Hr by lia.
  destruct L2 as [|r2 L2]; [done|]. injection Hr as ->. specialize (Hhd r eq_refl). lia.
Qed.

Lemma chunk_last_range c : chunk_ok c ->
  exists r, last (chunk_data c) = Some r /\ chunk_end c = r.2.
Proof.
  intros Hc. pose proof (chunk_ok_ne c Hc) as Hne.
  destruct (chunk_fields c Hc) as (_ & -> & _).
  destruct (last (chunk_data c)) as [r|] eqn:Hr; [|by apply last_None in Hr].
  exists r. unfold mk_chunk. simpl. by rewrite Hr.
Qed.

(** Chunks of ranges that all end at or before [index]. *)
Lemma chunk_end_le index d : shape_ok d -> Forall (λ r, r.2 <= index)%Z (flat d) ->
  Forall (λ c, bool_decide (index < chunk_end c)%Z = false) d.
Proof.
  induction 1 as [|c d Hc _ IH]; [done|]. rewrite flat_cons, Forall_app.
  intros [Hall Hd]. constructor; [|by apply IH].
  destruct (chunk_last_range c Hc) as (r & Hr & ->).
  rewrite Forall_forall in Hall. apply bool_decide_eq_false.
  pose proof (Hall r (last_Some_elem_of _ _ Hr)). simpl in *. lia.
Qed.

Lemma flat_prefix d pre c post l1 l2 L1 L2 :
  d = pre ++ c :: post -> chunk_data c = l1 ++ l2 -> flat d = L1 ++ L2 ->
  length L1 = length (flat pre) + length l1 -> L1 = flat pre ++ l1 /\ L2 = l2 ++ flat post.
Proof.
  intros -> Hc Hflat Hlen. rewrite flat_app, flat_cons, Hc, <-app_assoc, app_assoc in Hflat.
  apply app_inj_1 in Hflat; [|by rewrite length_app]. by destruct Hflat as [<- <-].
Qed.

Lemma find_from_locate d index p0 L1 L2 :
  wf d -> split_at index (flat d) L1 L2 -> p0 <= length L1 ->
  find_from d index (locate d p0) = Some (locate d (length L1)).
Proof.
  intros [Hd [Hok _]] Hsplit Hp0. pose proof (split_at_rest _ _ _ _ _ Hok Hsplit) as Hrest.
  destruct Hsplit as (Hflat & Hall & _). unfold find_from.
  destruct L2 as [|r L2].
  { rewrite app_nil_r in Hflat. rewrite find_index_None; [by rewrite <-Hflat, locate_end|].
    apply Forall_drop, chunk_end_le; [done|]. by rewrite Hflat. }
  assert (length L1 < length (flat d)) as Hlt
    by (rewrite Hflat, length_app; simpl; lia).
  destruct (locate_split d (length L1)) as (pre & c & post & i & Hsd & Hlen & Hi & Hl); [done|].
  assert (length (take i (chunk_data c)) = i) as Hti by (rewrite length_take; lia).
  destruct (flat_prefix d pre c post (take i (chunk_data c)) (drop i (chunk_data c)) L1 (r :: L2))
    as [HL1 HL2]; [done|by rewrite take_drop|done|by rewrite Hti|].
  pose proof (locate_mono d p0 (length L1) Hp0 Hlt) as Hmono.
  rewrite Hl in Hmono |- *. cbn [m_outer m_inner] in Hmono.
  set (o0 := m_outer (locate d p0)) in *. set (i0 := m_inner (locate d p0)) in *.
  assert (o0 <= length pre) as Ho0 by lia.
  subst d. apply Forall_app in Hd as [Hpre [Hc Hpost]%Forall_cons].
  destruct (chunk_last_range c Hc) as (rl & Hrl & Hce).
  assert (rl ∈ drop i (chunk_data c)) as Hrl_in.
  { rewrite <-(take_drop i (chunk_data c)), last_app in Hrl.
    destruct (last (drop i (chunk_data c))) as [rd|] eqn:Hrd.
    - injection Hrl as ->. by apply last_Some_elem_of.
    - apply last_None, (f_equal length) in Hrd. rewrite length_drop in Hrd. simpl in Hrd. lia. }
  rewrite HL1, Forall_app in Hall. destruct Hall as [Hall_pre Hall_c].
  rewrite drop_app_le, (find_index_app _ (drop o0 pre) post c).
  2:{ by apply Forall_drop, chunk_end_le. }
  2:{ rewrite Hce. apply bool_decide_eq_true. rewrite Forall_forall in Hrest.
      apply Hrest. rewrite HL2. set_solver. }
  2:{ lia. }
  cbn zeta. rewrite length_drop. replace (o0 + (length pre - o0)) with (length pre) by lia.
  rewrite list_lookup_middle by done. cbn [mbind option_bind].
  case_bool_decide as Hbegin.
  - (* no range of this chunk can precede the position *)
    destruct i as [|i]; [done|exfalso]. destruct (chunk_fields c Hc) as (Hcb & _ & _).
    destruct (chunk_data c) as [|r0 l0] eqn:Hcd; [simpl in Hi; lia|].
    rewrite Hcb in Hbegin. simpl in Hbegin. simpl in Hall_c.
    apply Forall_cons in Hall_c as [Hr0 _].
    rewrite flat_app, flat_cons, Hcd in Hok. apply ok_from_app in Hok as [_ Hok].
    simpl in Hok. lia.
  - assert (exists k, (if bool_decide (length pre = o0) then i0 else 0) = k /\ k <= i) as (k & -> & Hk).
    { eexists. split; [done|]. case_bool_decide; lia. }
    rewrite <-(take_drop i (chunk_data c)), drop_app_le by lia.
    destruct (drop i (chunk_data c)) as [|r' l'] eqn:Hdr.
    { apply (f_equal length) in Hdr. rewrite length_drop in Hdr. simpl in Hdr. lia. }
    injection HL2 as <- HL2. rewrite find_index_app.
    + cbn [mbind option_bind]. rewrite length_drop, Hti. f_equal. f_equal. lia.
    + apply Forall_drop. eapply Forall_impl; [done|]. intros r1 ?.
      apply bool_decide_eq_false. simpl in *. lia.
    + apply bool_decide_eq_true. by apply Forall_cons in Hrest as [? _].
Qed.

Lemma find_locate d index L1 L2 : wf d -> split_at index (flat d) L1 L2 ->
  find d index = Some (locate d (length L1)).
Proof.
  intros Hwf Hsplit. unfold find. 
  rewrite <-locate_begin by apply Hwf. apply (find_from_locate d index 0 L1 L2); [done|done|lia].
Qed.

End find.

(** ** Loop rules for index sets

    The loops of [IndexSet] walk whole chunks, then single ranges. Two rules
    turn such a loop into an invariant over the ranges already visited. *)

Section loops.
Context `{Build}.

(** ** Walking ranges *)

Section range_loop.
Context {St : Type} (d : IndexSet) (P : range -> St -> bool) (F : range -> St -> St).
Context (cond : iterator * St -> option bool) (body : iterator * St -> option (iterator * St)).
Context (cond_eq : forall it s, cond (it, s) =
  if not_end d it then r ← deref d it; Some (P r s) else Some false).
Context (body_eq : forall it s r, deref d it = Some r -> P r s = true ->
  body (it, s) = (it ← it_next d it; Some (it, F r s))).
Context (Inv : list range -> St -> Prop).
Context (Inv_step : forall L1 r L2 s, flat d = L1 ++ r :: L2 -> Inv L1 s -> P r s = true ->
  Inv (L1 ++ [r]) (F r s)).

Lemma range_loop fuel L1 L2 s : shape_ok d -> flat d = L1 ++ L2 -> Inv L1 s -> length L2 < fuel ->
  exists L1' L2' s', while fuel cond body (locate d (length L1), s)
      = Some (locate d (length L1'), s')
    /\ flat d = L1' ++ L2' /\ Inv L1' s' /\ (forall r, head L2' = Some r -> P r s' = false).
Proof.
  intros Hd. revert L1 s fuel. induction L2 as [|r L2 IH]; intros L1 s fuel Hf Hinv Hfuel;
    (destruct fuel as [|fuel]; [simpl in Hfuel; lia|]); rewrite while_S, cond_eq.
  - rewrite (not_end_mid d L1 []) by done. simpl. by exists L1, [], s.
  - rewrite (not_end_mid d L1 (r :: L2)), (deref_mid d L1 r L2) by done.
    rewrite bool_decide_true by done. mrun. destruct (P r s) eqn:HP.
    + rewrite (body_eq _ _ r) by (done || by apply (deref_mid d L1 r L2)).
      rewrite (it_next_mid d L1 r L2) by done. mrun. apply IH.
      * by rewrite <-app_assoc.
      * by apply Inv_step with L2.
      * simpl in Hfuel. lia.
    + exists L1, (r :: L2), s. split_and!; [done..|]. by intros ? [= <-].
Qed.
End range_loop.

Lemma ranges_fuel_app (d : IndexSet) L1 L2 : flat d = L1 ++ L2 -> length L2 < ranges_fuel d.
Proof. unfold ranges_fuel. fold (flat d). intros ->. rewrite length_app. lia. Qed.

(** ** Walking chunks *)

Section chunk_loop.
Context {St : Type} (d : IndexSet) (P : Chunk -> St -> bool) (F : Chunk -> St -> St).
Context (cond : iterator * St -> option bool) (body : iterator * St -> option (iterator * St)).
Context (cond_eq : forall it s, cond (it, s) =
  if not_end d it then c ← d !! m_outer it; Some (P c s) else Some false).
Context (body_eq : forall it s c, d !! m_outer it = Some c -> m_inner it = 0 ->
  body (it, s) = Some (next_chunk it, F c s)).
Context (Inv : list range -> St -> Prop).
Context (Inv_step : forall L1 c L2 s, flat d = L1 ++ chunk_data c ++ L2 -> chunk_ok c -> Inv L1 s ->
  P c s = true -> Inv (L1 ++ chunk_data c) (F c s)).

Lemma not_end_boundary pre post : shape_ok post ->
  not_end (pre ++ post) (mkIter (length pre) 0) = bool_decide (post <> []).
Proof.
  intros Hpost. unfold not_end, it_end. rewrite length_app.
  destruct post as [|c post]; simpl.
  - rewrite bool_decide_true; [done|]. f_equal. lia.
  - rewrite bool_decide_false; [done|]. intros [= ?]. lia.
Qed.

Lemma chunk_loop_from fuel pre post s : d = pre ++ post -> shape_ok d -> Inv (flat pre) s ->
  length post < fuel ->
  exists pre' post' s', while fuel cond body (mkIter (length pre) 0, s)
      = Some (mkIter (length pre') 0, s')
    /\ d = pre' ++ post' /\ Inv (flat pre') s' /\ (forall c, head post' = Some c -> P c s' = false).
Proof.
  revert pre s fuel. induction post as [|c post IH]; intros pre s fuel Hsd Hd Hinv Hfuel;
    (destruct fuel as [|fuel]; [simpl in Hfuel; lia|]); rewrite while_S, cond_eq;
    pose proof Hd as Hd'; rewrite Hsd in Hd'; apply Forall_app in Hd' as [_ Hpost];
    pose proof (not_end_boundary pre _ Hpost) as Hne; rewrite <-Hsd in Hne; rewrite Hne.
  - simpl. by exists pre, [], s.
  - assert (d !! length pre = Some c) as Hc' by (rewrite Hsd; by rewrite list_lookup_middle).
    rewrite bool_decide_true by done. cbn [m_outer]. rewrite Hc'. mrun.
    apply Forall_cons in Hpost as [Hc _]. destruct (P c s) eqn:HP.
    + rewrite (body_eq _ _ c) by done.
      mrun. unfold next_chunk. cbn [m_outer].
      replace (S (length pre)) with (length (pre ++ [c])) by (rewrite length_app; simpl; lia).
      apply IH; [by rewrite <-app_assoc|done| |simpl in Hfuel; lia].
      assert (flat (pre ++ [c]) = flat pre ++ chunk_data c) as ->
        by (rewrite flat_app, flat_cons; by rewrite app_nil_r).
      apply Inv_step with (flat post); [|done..]. by rewrite Hsd, flat_app, flat_cons.
    + exists pre, (c :: post), s. split_and!; [done..|]. by intros ? [= <-].
Qed.

(** From the beginning, a chunk loop stops at the position of a range. *)
Lemma chunk_loop s : shape_ok d -> Inv [] s ->
  exists L1 L2 s', while (S (length d)) cond body (it_begin d, s) = Some (locate d (length L1), s')
    /\ flat d = L1 ++ L2 /\ Inv L1 s'.
Proof.
  intros Hd Hinv.
  assert (it_begin d = mkIter (length ([] : list Chunk)) 0) as -> by (by destruct d).
  destruct (chunk_loop_from (S (length d)) [] d s) as (pre & post & s' & -> & Hsd & Hinv' & _);
    [done..|lia|].
  exists (flat pre), (flat post), s'. split_and!; [|by rewrite Hsd, flat_app|done].
  rewrite Hsd at 1. rewrite locate_boundary; [done|]. rewrite Hsd in Hd.
  by apply Forall_app in Hd as [_ ?].
Qed.
End chunk_loop.

(** ** The ranges of a set, in order *)

Lemma walk_ranges_spec d L1 L2 fuel : shape_ok d -> flat d = L1 ++ L2 -> length L2 < fuel ->
  walk_ranges fuel d (locate d (length L1)) = Some L2.
Proof.
  intros Hd. revert L1 fuel. induction L2 as [|r L2 IH]; intros L1 fuel Hf Hfuel;
    (destruct fuel as [|fuel]; [simpl in Hfuel; lia|]); cbn [walk_ranges].
  - rewrite (not_end_mid d L1 []) by done. done.
  - rewrite (not_end_mid d L1 (r :: L2)), (deref_mid d L1 r L2), (it_next_mid d L1 r L2) by done.
    rewrite bool_decide_true by done. mrun.
    rewrite IH; [done|by rewrite <-app_assoc|simpl in Hfuel; lia].
Qed.

Lemma ranges_spec d : shape_ok d -> ranges d = Some (flat d).
Proof.
  intros Hd. unfold ranges. rewrite <-locate_begin by done.
  apply (walk_ranges_spec d [] (flat d)); [done..|]. by apply (ranges_fuel_app d []).
Qed.

(** ** Shifting every range from an iterator on *)

Definition wrap_range (n : Z) (r : range) : range := (r.1 +! n, r.2 +! n).

Lemma wrap_range_small n lo hi L : ok_from lo L -> bounded hi L ->
  (0 <= lo + n)%Z -> (hi + n < 2 ^ 64)%Z -> wrap_range n <$> L = shift_range n <$> L.
Proof.
  intros Hok Hb Hlo Hhi. apply list_fmap_ext. intros i r Hr. unfold wrap_range, shift_range.
  apply list_elem_of_lookup_2 in Hr. apply ok_from_Forall in Hok.
  unfold bounded in Hb. rewrite Forall_forall in Hok, Hb.
  pose proof (Hok r Hr). pose proof (Hb r Hr). simpl in *. by u64_drop.
Qed.

Lemma shift_until_end_loop n L2 : forall fuel d L1, shape_ok d -> flat d = L1 ++ L2 ->
  length L2 < fuel ->
  exists d' it', while fuel (λ '(d, it), Some (not_end d it))
      (λ '(d, it), d ← it_shift d it n; it ← it_next d it; Some (d, it))
      (d, locate d (length L1)) = Some (d', it')
    /\ replaces d d' (L1 ++ (wrap_range n <$> L2)).
Proof.
  induction L2 as [|r L2 IH]; intros fuel d L1 Hd Hf Hfuel;
    (destruct fuel as [|fuel]; [simpl in Hfuel; lia|]); rewrite while_S; mrun.
  - rewrite (not_end_mid d L1 []) by done. simpl. eexists d, _. split; [done|].
    by split_and!.
  - rewrite (not_end_mid d L1 (r :: L2)), bool_decide_true by done.
    destruct (it_shift_mid d L1 r L2 n Hd Hf) as (d1 & -> & Hd1 & Hf1 & Hloc1). mrun.
    rewrite <-Hloc1, (it_next_mid d1 _ _ _ Hd1 Hf1). mrun.
    rewrite cons_middle, app_assoc in Hf1.
    destruct (IH fuel d1 _ Hd1 Hf1) as (d' & it' & -> & Hd' & Hf' & Hloc'); [simpl in Hfuel; lia|].
    exists d', it'. split; [done|]. split_and!; [done| |].
    + by rewrite Hf', <-app_assoc.
    + intros q. by rewrite Hloc', Hloc1.
Qed.

Lemma shift_until_end_spec d L1 L2 n : shape_ok d -> flat d = L1 ++ L2 ->
  exists d', shift_until_end_by d (locate d (length L1)) n = Some d'
    /\ replaces d d' (L1 ++ (wrap_range n <$> L2)).
Proof.
  intros Hd Hf. unfold shift_until_end_by.
  destruct (shift_until_end_loop n L2 (ranges_fuel d) d L1) as (d' & it' & -> & Hrep);
    [done..|by eapply ranges_fuel_app|].
  mrun. by exists d'.
Qed.

End loops.
