(* ===== verification/IndexSetFacts.v ===== *)
(** * Correctness of single-index operations of index sets *)

From S2P Require Import Prelude ChunkedRangeVector ChunkedFacts ChunkedOps IndexSet LoopFacts.

(** Membership of an index in an index set. *)
#[export] Instance index_set_elem_of : ElemOf Z ChunkedRangeVector := λ x d, mem x (flat d).

Section facts.
Context `{Build}.

Lemma elem_of_flat x (d : IndexSet) : x ∈ d <-> mem x (flat d).
Proof. done. Qed.

Lemma elem_of_bounds x (d : IndexSet) : wf d -> x ∈ d -> (0 <= x < npos)%Z.
Proof.
  intros [_ [Hok Hb]] Hx. pose proof (mem_lo _ _ _ Hok Hx).
  pose proof (mem_bounded _ _ _ Hb Hx). lia.
Qed.

(** Well-formed sets with the same members have the same ranges. *)
Lemma flat_ext (d1 d2 : IndexSet) : wf d1 -> wf d2 ->
  (forall x, x ∈ d1 <-> x ∈ d2) -> flat d1 = flat d2.
Proof. intros [_ [Hok1 _]] [_ [Hok2 _]]. by apply ok_from_ext with 0%Z. Qed.

(** The split of the flat list at an index decides membership. *)
Lemma split_mem lo index L L1 L2 : ok_from lo L -> split_at index L L1 L2 ->
  (mem index L <-> exists r, head L2 = Some r /\ (r.1 <= index)%Z).
Proof.
  intros Hok Hsplit. pose proof (split_at_rest _ _ _ _ _ Hok Hsplit) as Hrest.
  destruct Hsplit as (-> & Hall & Hhd). rewrite mem_app. split.
  - intros [(r & Hr & Hin)%Exists_exists|Hin].
    + rewrite Forall_forall in Hall. specialize (Hall r Hr). unfold in_range in Hin.
      simpl in Hall. lia.
    + destruct L2 as [|r L2]; [by apply mem_nil in Hin|]. exists r. split; [done|].
      apply ok_from_app in Hok as [_ (_ & ? & Hok)].
      apply mem_cons in Hin as [?|Hin%(mem_lo _ _ _ Hok)]; [lia|].
      pose proof (Hhd r eq_refl). lia.
  - intros (r & Hr & ?). right. destruct L2 as [|r' L2]; [done|]. injection Hr as ->.
    apply mem_cons. left. pose proof (Hhd r eq_refl). lia.
Qed.

Lemma contains_spec (d : IndexSet) (index : Z) : wf d ->
  contains d index = Some (bool_decide (mem index (flat d))).
Proof.
  intros Hwf. destruct (split_at_exists index (flat d)) as (L1 & L2 & Hsplit).
  unfold contains. rewrite (find_locate d index L1 L2) by done. mrun.
  destruct Hwf as [Hd [Hok _]]. pose proof (split_mem _ _ _ _ _ Hok Hsplit) as Hmem.
  destruct Hsplit as (Hf & Hall & Hhd).
  rewrite (not_end_mid d L1 L2) by done. destruct L2 as [|r L2].
  - rewrite bool_decide_false by (intros ?; done). rewrite bool_decide_false; [done|].
    rewrite Hmem. intros (? & ? & ?). done.
  - rewrite bool_decide_true by done. rewrite (deref_mid d L1 r L2) by done. mrun.
    f_equal. apply bool_decide_ext. rewrite Hmem. split; [by exists r|].
    by intros (? & [= <-] & ?).
Qed.

(** ** [do_add] *)

(** The result of adding [index]: the iterator is at the range that holds it. *)
Definition added (d d' : IndexSet) (index : Z) (L1 : list range) (r : range) (L2 : list range) : Prop :=
  shape_ok d' /\ flat d' = L1 ++ r :: L2 /\ wf_flat (flat d') /\ (r.1 <= index < r.2)%Z
  /\ forall x, mem x (flat d') <-> mem x (flat d) \/ x = index.

Lemma do_add_before_spec d L1 L2 index : shape_ok d -> flat d = L1 ++ L2 -> wf_flat (flat d) ->
  (forall r, head L2 = Some r -> (index < r.1)%Z) -> (next_lo 0 L1 <= index)%Z -> (0 <= index < npos)%Z ->
  exists d' r L2', do_add_before d (locate d (length L1)) (head L2) index
      = Some (d', locate d' (length L1)) /\ added d d' index L1 r L2'.
Proof.
  intros Hd Hf Hwf Hhd Hlo Hidx. unfold do_add_before, npos in *.
  rewrite (u64_small (index + 1)) by lia.
  assert (Hins : forall L2', L2' = L2 -> wf_flat (L1 ++ (index, (index + 1)%Z) :: L2) ->
    exists d' r L2'', insert d (locate d (length L1)) (index, (index + 1)%Z)
      = Some (d', locate d' (length L1)) /\ added d d' index L1 r L2'').
  { intros L2' -> Hwf'. rewrite Hf in Hwf.
    destruct (insert_mid d L1 L2 (index, (index + 1)%Z)) as (d' & -> & Hd' & Hf'); [done..|].
    exists d', (index, (index + 1)%Z), L2. split; [done|]. unfold added. rewrite Hf', Hf.
    split_and!; simpl; [done..|lia|lia|]. intros x. mem_solve. }
  destruct L2 as [|r L2]; cbn [head].
  - apply (Hins []); [done|]. rewrite Hf in Hwf. destruct Hwf as [Hok Hb].
    unfold wf_flat, npos. range_solve.
  - specialize (Hhd r eq_refl). case_bool_decide as Heq.
    + destruct (it_adjust_mid d L1 r L2 (-1) 0 Hd Hf) as (d' & -> & Hd' & Hf' & Hloc). mrun.
      rewrite Hf in Hwf. pose proof (wf_flat_mid _ _ _ Hwf) as Hr. unfold npos in *.
      rewrite Z.add_0_r in Hf'. rewrite (u64_small (r.1 + -1)), (u64_small r.2) in Hf' by lia.
      exists d', ((r.1 + -1)%Z, r.2), L2. rewrite Hloc. split; [done|].
      unfold added. rewrite Hf', Hf. simpl. split_and!; try lia; try done.
      * destruct Hwf. unfold wf_flat, npos in *. range_solve.
      * intros x. mem_solve.
    + apply (Hins (r :: L2)); [done|]. rewrite Hf in Hwf. destruct Hwf as [Hok Hb].
      unfold wf_flat, npos in *. range_solve.
Qed.

Lemma do_add_after_spec d Lp pr L2 index : shape_ok d -> flat d = (Lp ++ [pr]) ++ L2 ->
  wf_flat (flat d) -> (forall r, head L2 = Some r -> (index < r.1)%Z) -> pr.2 = index ->
  (index < npos)%Z ->
  exists d' L1' r L2', do_add_after d (locate d (length Lp)) (locate d (length (Lp ++ [pr]))) (head L2)
      = Some (d', locate d' (length L1')) /\ added d d' index L1' r L2'.
Proof.
  intros Hd Hf Hwf Hhd Hpr Hidx. unfold do_add_after.
  assert (Hf' := Hf). rewrite <-app_assoc in Hf'. cbn [app] in Hf'.
  rewrite Hf' in Hwf. pose proof (wf_flat_mid _ _ _ Hwf) as Hb. unfold npos in *.
  destruct (it_adjust_mid d Lp pr L2 0 1 Hd Hf') as (d1 & -> & Hd1 & Hf1 & Hloc1). mrun.
  rewrite Z.add_0_r, (u64_small pr.1), (u64_small (pr.2 + 1)) in Hf1 by lia.
  rewrite <-(Hloc1 (length Lp)), (deref_mid d1 _ _ _ Hf1). mrun. cbn [snd].
  (* [index] becomes the last member of the range *)
  assert (Hext : (forall r, head L2 = Some r -> index + 1 <> r.1)%Z ->
    added d d1 index Lp (pr.1, (pr.2 + 1)%Z) L2).
  { intros Hne. unfold added. rewrite Hf1, Hf'. simpl. split_and!; try lia; try done.
    - destruct Hwf. unfold wf_flat, npos in *. destruct L2 as [|r L2]; range_solve.
      specialize (Hhd r eq_refl). specialize (Hne r eq_refl). simpl in *. lia.
    - intros x. mem_solve. }
  destruct L2 as [|r L2]; cbn [head].
  { exists d1, Lp. do 2 eexists. split; [done|]. by apply Hext. }
  specialize (Hhd r eq_refl). case_bool_decide as Hjoin.
  2:{ exists d1, Lp. do 2 eexists. split; [done|].
      apply Hext. intros ? [= <-]. lia. }
  destruct (it_adjust_mid d1 Lp _ (r :: L2) 0 (r.2 -! r.1) Hd1 Hf1) as (d2 & -> & Hd2 & Hf2 & Hloc2).
  mrun. cbn [fst snd] in Hf2.
  assert (0 <= r.1 /\ r.1 < r.2 /\ r.2 <= 2 ^ 64 - 1)%Z as Hr.
  { destruct Hwf. unfold npos in *. range_simpl; lia. }
  rewrite Z.add_0_r, (u64_small pr.1), (u64_small (r.2 - r.1)),
    (u64_small (pr.2 + 1 + (r.2 - r.1))) in Hf2 by lia.
  replace (pr.2 + 1 + (r.2 - r.1))%Z with r.2 in Hf2 by lia.
  assert (Hlen : length (Lp ++ [pr]) = length (Lp ++ [(pr.1, r.2)])) by (by rewrite !length_app).
  rewrite <-(Hloc1 (length (Lp ++ [pr]))), <-Hloc2, Hlen.
  rewrite cons_middle, app_assoc in Hf2.
  destruct (erase_mid d2 _ r L2 Hd2 Hf2) as (d3 & -> & Hd3 & Hf3).
  { destruct Hwf. rewrite <-app_assoc. unfold wf_flat, npos in *. range_solve. }
  mrun. rewrite (it_prev_mid d3 _ _ L2 Hd3 Hf3). mrun.
  exists d3, Lp, (pr.1, r.2), L2. split; [done|].
  rewrite <-app_assoc in Hf3. cbn [app] in Hf3.
  unfold added. rewrite Hf3, Hf'. simpl. split_and!; try lia; try done.
  - destruct Hwf. unfold wf_flat, npos in *. range_solve.
  - intros x. mem_solve.
Qed.

Lemma do_add_spec d L1 L2 index : wf d -> split_at index (flat d) L1 L2 -> (0 <= index < npos)%Z ->
  exists d' L1' r L2', do_add d (locate d (length L1)) index
      = Some (d', locate d' (length L1')) /\ added d d' index L1' r L2'.
Proof.
  intros [Hd Hwf] (Hf & Hall & Hhd) Hidx. unfold do_add.
  rewrite verify_ok by done. mrun.
  rewrite (not_end_mid d L1 L2), (locate_begin_mid d L1 L2) by done.
  assert (Hcur : (if bool_decide (L2 <> []) then r ← deref d (locate d (length L1)); Some (Some r)
    else Some None) = Some (head L2)).
  { destruct L2 as [|r L2]; [done|]. rewrite bool_decide_true by done.
    by rewrite (deref_mid d L1 r L2). }
  rewrite Hcur. clear Hcur.
  assert ((exists r, head L2 = Some r /\ (r.1 <= index)%Z) \/
    (forall r, head L2 = Some r -> (index < r.1)%Z)) as [Hin|Hlt].
  { destruct L2 as [|r L2]; [by right|]. destruct (decide (r.1 <= index)%Z); [left; eauto|].
    right. intros ? [= <-]. lia. }
  - (* index is already in set *)
    destruct Hin as (r & Hr & Hle). destruct L2 as [|r' L2]; [done|]. injection Hr as ->.
    specialize (Hhd r eq_refl). cbn [head].
    assert (bool_decide (r.1 <= index)%Z && bool_decide (index < r.2)%Z = true) as Hyes
      by (by rewrite !bool_decide_true by done).
    destruct L1 as [|pr Lp _] using rev_ind.
    + rewrite bool_decide_true by done. cbn [negb]. mrun.
      rewrite REALM_ASSERT_true by done. mrun. rewrite Hyes. exists d, [], r, L2. split; [done|].
      unfold added. rewrite Hf. split_and!; try done. { by rewrite <-Hf. }
      intros x. split; [by left|]. intros [? | ->]; [done|]. apply mem_cons. lia.
    + rewrite bool_decide_false by (intros [_ ?]%app_eq_nil; done). cbn [negb].
      rewrite (it_prev_mid d Lp pr (r :: L2)) by done. mrun.
      rewrite (deref_mid d Lp pr ([] ++ r :: L2)) by (by rewrite Hf, <-app_assoc). mrun.
      apply Forall_app in Hall as [_ [? _]%Forall_cons].
      rewrite REALM_ASSERT_decide by done. mrun. rewrite Hyes. exists d, (Lp ++ [pr]), r, L2. split; [done|].
      unfold added. rewrite Hf. split_and!; try done. { by rewrite <-Hf. }
      intros x. split; [by left|]. intros [? | ->]; [done|]. apply mem_app. right. apply mem_cons. lia.
  - assert ((match head L2 with
      | Some r => bool_decide (r.1 <= index)%Z && bool_decide (index < r.2)%Z
      | None => false end) = false) as Hnot.
    { destruct (head L2) as [r|]; [|done]. specialize (Hlt r eq_refl).
      rewrite bool_decide_false by lia. done. }
    destruct L1 as [|pr Lp _] using rev_ind.
    + rewrite bool_decide_true by done. cbn [negb]. mrun. rewrite REALM_ASSERT_true by done. mrun.
      rewrite Hnot.
      destruct (do_add_before_spec d [] L2 index) as (d' & r & L2' & -> & Hadded);
        [done|done|done|done|simpl; lia|done|].
      exists d', [], r, L2'. done.
    + rewrite bool_decide_false by (intros [_ ?]%app_eq_nil; done). cbn [negb].
      rewrite (it_prev_mid d Lp pr L2) by done. mrun.
      rewrite (deref_mid d Lp pr ([] ++ L2)) by (by rewrite Hf, <-app_assoc). mrun.
      apply Forall_app in Hall as [_ [? _]%Forall_cons].
      rewrite REALM_ASSERT_decide by done. mrun. rewrite Hnot. cbn [snd].
      case_bool_decide as Hpr.
      * apply do_add_after_spec; try done. lia.
      * destruct (do_add_before_spec d (Lp ++ [pr]) L2 index) as (d' & r & L2' & -> & Hadded);
          [done..| |done|].
        { rewrite next_lo_app. simpl. simpl in *. lia. }
        exists d', (Lp ++ [pr]), r, L2'. done.
Qed.

Lemma added_wf d d' index L1 r L2 : added d d' index L1 r L2 -> wf d'.
Proof. intros (? & ? & ? & ?). done. Qed.

Lemma add_spec (d : IndexSet) (index : Z) : wf d -> (0 <= index < npos)%Z ->
  exists d', add d index = Some d' /\ wf d' /\ forall x, x ∈ d' <-> x ∈ d \/ x = index.
Proof.
  intros Hwf Hidx. destruct (split_at_exists index (flat d)) as (L1 & L2 & Hsplit).
  unfold add. rewrite (find_locate d index L1 L2) by done. mrun.
  destruct (do_add_spec d L1 L2 index Hwf Hsplit Hidx) as (d' & L1' & r & L2' & -> & Hadded).
  mrun. exists d'. split; [done|]. split; [by eapply added_wf|]. apply Hadded.
Qed.

(** ** Counting and shifting *)

Lemma wf_total (d : IndexSet) : wf d -> (0 <= total (flat d) <= npos)%Z.
Proof.
  intros [_ [Hok Hb]]. pose proof (total_nonneg _ _ Hok).
  pose proof (total_bounded _ _ _ Hok Hb). unfold npos in *. lia.
Qed.

Lemma total_prefix lo L1 L2 : ok_from lo (L1 ++ L2) -> (0 <= total L1 <= total (L1 ++ L2))%Z.
Proof.
  intros [Hok1 Hok2]%ok_from_app. rewrite total_app.
  pose proof (total_nonneg _ _ Hok1). pose proof (total_nonneg _ _ Hok2). lia.
Qed.

Lemma chunk_ranges_le c x lo : chunk_ok c -> ok_from lo (chunk_data c) -> (chunk_end c <= x)%Z ->
  Forall (λ r, r.2 <= x)%Z (chunk_data c).
Proof.
  intros Hc Hok Hend. apply Forall_forall. intros r Hr.
  destruct (chunk_fields c Hc) as (_ & Heq & _).
  pose proof (chunk_bounds _ _ _ Hok Hr). simpl. lia.
Qed.

(** The chunk at the middle of a sorted flat list is sorted. *)
Lemma ok_from_chunk L1 (l L2 : list range) : ok_from 0 (L1 ++ l ++ L2) -> ok_from (next_lo 0 L1) l.
Proof. by intros [_ [? _]%ok_from_app]%ok_from_app. Qed.

Definition counted (x : Z) (L1 : list range) (s : Z) : Prop :=
  s = u64 (total L1) /\ Forall (λ r, r.2 <= x)%Z L1.

Lemma below_split lo x L1 L2 : ok_from lo (L1 ++ L2) -> split_at x (L1 ++ L2) L1 L2 ->
  below x (L1 ++ L2) = (total L1 + match L2 with r :: _ => Z.max 0 (x - r.1) | [] => 0 end)%Z.
Proof.
  intros [Hok1 Hok2]%ok_from_app (_ & Hall & Hhd). rewrite below_app.
  rewrite (below_hi lo x x L1) by (done || lia). f_equal.
  destruct L2 as [|r L2]; [done|]. specialize (Hhd r eq_refl).
  destruct Hok2 as (_ & ? & Hok). simpl. rewrite (below_lo _ x L2 Hok) by lia.
  unfold below_range. lia.
Qed.

(** [count] from the first index on counts the members below a bound. *)
Lemma count_zero (d : IndexSet) (x : Z) : wf d -> (0 <= x <= npos)%Z ->
  count d 0 x = Some (below x (flat d)).
Proof.
  intros Hwf Hx. pose proof (wf_total d Hwf) as Ht. pose proof Hwf as [Hd [Hok Hb]].
  assert (split_at 0 (flat d) [] (flat d)) as Hsplit.
  { split_and!; [done..|]. intros r Hr. destruct (flat d); [done|]. injection Hr as ->.
    destruct Hok as (? & ? & _). lia. }
  unfold count. rewrite (find_locate d 0 [] (flat d)) by done. mrun.
  rewrite (not_end_mid d [] (flat d)) by done. destruct (flat d) as [|r0 L0] eqn:Hflat.
  { done. }
  rewrite bool_decide_true by done. cbn [negb]. rewrite (deref_mid d [] r0 L0) by done. mrun.
  pose proof Hok as (Hr0 & Hr0' & Hok0). unfold npos in *.
  assert (r0.2 <= 2 ^ 64 - 1)%Z as Hr0'' by (by apply bounded_cons in Hb as [? _]).
  case_bool_decide as Hc1.
  { rewrite (below_lo r0.1); [done|by eapply ok_from_head|done]. }
  case_bool_decide as Hc2.
  { simpl. rewrite (below_lo _ x L0 Hok0) by lia. unfold below_range. f_equal. u64_drop. lia. }
  unfold count_partial_chunk. rewrite (deref_mid d [] r0 L0) by done. mrun.
  rewrite bool_decide_false by lia. cbn [orb length]. rewrite locate_begin by done.
  replace (m_inner (it_begin d)) with 0 by (by destruct d). rewrite bool_decide_true by done.
  cbn [negb]. mrun.
  edestruct (chunk_loop d (λ c (_ : Z), bool_decide (chunk_end c <= x)%Z)
    (λ c s, s +! chunk_count c)) with (Inv := counted x) as (L1 & L2 & s1 & -> & Hf1 & Hinv1).
  { done. }
  { intros it s c Hc Hin. simpl. rewrite REALM_ASSERT_DEBUG_true by (by apply bool_decide_eq_true).
    mrun. by rewrite Hc. }
  { intros L1 c L2 s Hf Hc [-> Hall] Hend%bool_decide_eq_true. rewrite Hflat in Hf.
    destruct (chunk_fields c Hc) as (_ & _ & ->). split.
    - rewrite total_app. u64_ring.
    - apply Forall_app. split; [done|]. eapply chunk_ranges_le; [done| |done].
      rewrite Hf in Hok. by eapply ok_from_chunk. }
  { done. }
  { by split. }
  mrun.
  edestruct (range_loop d (λ r (_ : Z), bool_decide (r.2 <= x)%Z) (λ r s, s +! (r.2 -! r.1)))
    with (Inv := counted x) (L1 := L1) (L2 := L2) as (L1' & L2' & s2 & -> & Hf2 & [-> Hall] & Hhd).
  { done. }
  { intros it s r Hr _. simpl. by rewrite Hr. }
  { intros L r L' s _ [-> Hall] Hr%bool_decide_eq_true. split.
    - rewrite total_app. simpl. u64_ring.
    - apply Forall_app. split; [done|]. by constructor. }
  { done. }
  { done. }
  { done. }
  { by eapply ranges_fuel_app. }
  mrun. rewrite (not_end_mid d L1' L2') by done.
  rewrite Hflat in Hf2. rewrite Hf2 in *.
  rewrite (below_split 0 x L1' L2') by (try done; split_and!; try done;
    intros r Hr; specialize (Hhd r Hr); apply bool_decide_eq_false in Hhd; lia).
  destruct (total_prefix _ _ _ Hok).
  destruct L2' as [|r L2']; [simpl; rewrite u64_small by lia; f_equal; lia|].
  rewrite bool_decide_true by done. rewrite (deref_mid d L1' r L2') by congruence. mrun.
  specialize (Hhd r eq_refl). apply bool_decide_eq_false in Hhd.
  pose proof (wf_flat_mid L1' r L2' (conj Hok Hb)) as Hr. unfold npos in *.
  assert (total L1' <= r.1)%Z.
  { apply ok_from_app in Hok as [Hok1 _]. apply total_next_lo in Hok1. lia. }
  case_bool_decide; f_equal; u64_drop; lia.
Qed.

Lemma unshift_spec (d : IndexSet) (x : Z) : wf d -> (0 <= x <= npos)%Z -> x ∉ d ->
  unshift d x = Some (x - below x (flat d))%Z.
Proof.
  intros Hwf Hx Hnot. unfold unshift. rewrite contains_spec by done. mrun.
  rewrite bool_decide_false by done. rewrite REALM_ASSERT_DEBUG_true by done. mrun.
  rewrite count_zero by done. mrun. f_equal. pose proof (below_nonneg x (flat d)).
  assert (below x (flat d) <= x)%Z; [|unfold npos in *; by u64_drop].
  destruct Hwf as [_ [Hok _]]. pose proof (below_mono 0 (flat d) 0 x Hok ltac:(lia)).
  rewrite (below_lo 0 0) in *; (done || lia).
Qed.

Lemma shift_ranges_spec lo L index : ok_from lo L -> (0 <= lo)%Z -> (0 <= index)%Z ->
  (index + total L < 2 ^ 64)%Z ->
  exists y, shift_ranges L index = y /\ (index <= y <= index + total L)%Z /\ ~ mem y L
    /\ y = (index + below y L)%Z.
Proof.
  revert lo index. induction L as [|r L IH]; intros lo index; cbn [shift_ranges total below].
  - intros _ _ ? ?. exists index. rewrite mem_nil. split_and!; (done || lia).
  - intros (? & ? & Hok) ? ? Hsum. pose proof (total_nonneg _ _ Hok).
    case_bool_decide as Hlt.
    + exists index. split; [done|]. rewrite mem_cons. split_and!; [lia|lia| |].
      * intros [?|Hm%(mem_lo _ _ _ Hok)]; lia.
      * rewrite (below_lo _ index L Hok) by lia. unfold below_range. lia.
    + rewrite (u64_small (r.2 - r.1)), u64_small by lia.
      destruct (IH (r.2 + 1)%Z (index + (r.2 - r.1))%Z) as (y & -> & Hy & Hnot & Heq);
        [done|lia|lia|lia|].
      exists y. rewrite mem_cons. split_and!; [done|lia|lia| |].
      * intros [?|?]; [lia|done].
      * unfold below_range. lia.
Qed.

Lemma shift_spec (d : IndexSet) (index : Z) : wf d -> (0 <= index)%Z ->
  (index + total (flat d) < 2 ^ 64)%Z ->
  exists y, shift d index = Some y /\ (y ∉ d) /\ y = (index + below y (flat d))%Z.
Proof.
  intros [Hd [Hok Hb]] Hidx Hsum. unfold shift. rewrite ranges_spec by done. mrun.
  destruct (shift_ranges_spec 0 (flat d) index) as (y & -> & ? & ? & ?); [done..|].
  by exists y.
Qed.

(** Two non-members with the same rank are equal. *)
Lemma rank_inj lo L x y : ok_from lo L -> ~ mem x L -> ~ mem y L ->
  (x - below x L = y - below y L)%Z -> x = y.
Proof.
  intros Hok. revert x y. assert (forall x y, (x < y)%Z -> ~ mem x L ->
    (x - below x L < y - below y L)%Z) as Hlt.
  { intros x y Hxy Hx. pose proof (below_S x L lo Hok) as HS. rewrite decide_False in HS by done.
    pose proof (below_mono lo L (x + 1) y Hok ltac:(lia)). lia. }
  intros x y Hx Hy Heq. destruct (Z.lt_trichotomy x y) as [Hxy|[|Hxy]]; [|done|].
  - pose proof (Hlt _ _ Hxy Hx). lia.
  - pose proof (Hlt _ _ Hxy Hy). lia.
Qed.

(** ** [add_shifted] *)

Definition shifted_past (index : Z) (L1 : list range) (s : Z) : Prop :=
  s = (index + total L1)%Z /\ Forall (λ r, r.2 <= s)%Z L1.

Lemma Forall_le_weaken (L : list range) (x y : Z) : (x <= y)%Z ->
  Forall (λ r, r.2 <= x)%Z L -> Forall (λ r, r.2 <= y)%Z L.
Proof. intros ? Hall. eapply Forall_impl; [exact Hall|]. simpl. lia. Qed.

Lemma add_shifted_find_spec (d : IndexSet) (index : Z) : wf d -> (0 <= index)%Z ->
  (index + total (flat d) < npos)%Z ->
  exists L1 L2 y, add_shifted_find d index = Some (locate d (length L1), y)
    /\ split_at y (flat d) L1 L2 /\ y = (index + total L1)%Z
    /\ (forall r, head L2 = Some r -> (y < r.1)%Z) /\ (y < npos)%Z.
Proof.
  intros Hwf Hidx Hsum. pose proof Hwf as [Hd [Hok Hb]]. unfold npos in *. unfold add_shifted_find.
  edestruct (chunk_loop d (λ c (s : Z), bool_decide (chunk_end c <= s)%Z)
    (λ c s, s +! chunk_count c)) with (Inv := shifted_past index) as (L1 & L2 & s1 & -> & Hf1 & Hinv1).
  { done. }
  { intros it s c Hc _. simpl. by rewrite Hc. }
  { intros L1 c L2 s Hf Hc [-> Hall] Hend%bool_decide_eq_true.
    rewrite Hf in Hok, Hsum. rewrite !total_app in Hsum. destruct (total_prefix _ _ _ Hok).
    pose proof (ok_from_chunk _ _ _ Hok) as Hokc. pose proof (total_nonneg _ _ Hokc).
    assert (0 <= total L2)%Z.
    { apply ok_from_app in Hok as [_ [_ Hok]%ok_from_app]. by eapply total_nonneg. }
    destruct (chunk_fields c Hc) as (_ & _ & ->). rewrite (u64_small (total (chunk_data c))) by lia.
    rewrite u64_small by lia. split; [rewrite total_app; lia|]. apply Forall_app. split.
    - eapply Forall_le_weaken, Hall. lia.
    - eapply chunk_ranges_le; [done..|lia]. }
  { done. }
  { split; [simpl; lia|done]. }
  mrun.
  edestruct (range_loop d (λ r (s : Z), bool_decide (r.1 <= s)%Z) (λ r s, s +! (r.2 -! r.1)))
    with (Inv := shifted_past index) (L1 := L1) (L2 := L2)
    as (L1' & L2' & s2 & -> & Hf2 & [-> Hall] & Hhd).
  { done. }
  { intros it s r Hr _. simpl. by rewrite Hr. }
  { intros L r L' s Hf [-> Hall] Hr%bool_decide_eq_true.
    assert (wf_flat (L ++ r :: L')) as Hwf' by (rewrite <-Hf; apply Hwf).
    pose proof (wf_flat_mid _ _ _ Hwf') as Hr'. unfold npos in *.
    rewrite Hf in Hok, Hsum. rewrite total_app in Hsum. cbn [total] in Hsum.
    apply ok_from_app in Hok as [Hok1 (_ & _ & Hok2)].
    pose proof (total_nonneg _ _ Hok1). pose proof (total_nonneg _ _ Hok2).
    rewrite (u64_small (r.2 - r.1)), u64_small by lia.
    split; [rewrite total_app; simpl; lia|]. apply Forall_app. split.
    - eapply Forall_le_weaken, Hall. lia.
    - constructor; [simpl in *; lia|done]. }
  { done. }
  { done. }
  { done. }
  { by eapply ranges_fuel_app. }
  exists L1', L2', (index + total L1')%Z. rewrite Hf2 in Hsum, Hok.
  pose proof (total_prefix _ _ _ Hok).
  assert (forall r, head L2' = Some r -> (index + total L1' < r.1)%Z) as Hhd'.
  { intros r Hr. specialize (Hhd r Hr). apply bool_decide_eq_false in Hhd. lia. }
  split_and!; [done| |done|done|lia]. split_and!; [done..|].
  intros r Hr. specialize (Hhd' r Hr). destruct L2' as [|r' L2']; [done|]. injection Hr as ->.
  apply ok_from_app in Hok as [_ (_ & ? & _)]. lia.
Qed.

(** [add_shifted] adds the index whose rank among the non-members is [index],
    and returns it. *)
Lemma add_shifted_spec (d : IndexSet) (index : Z) : wf d -> (0 <= index)%Z ->
  (index + total (flat d) < npos)%Z ->
  exists d' y, add_shifted d index = Some (d', y) /\ wf d'
    /\ (y ∉ d) /\ y = (index + below y (flat d))%Z
    /\ forall x, x ∈ d' <-> x ∈ d \/ x = y.
Proof.
  intros Hwf Hidx Hsum. unfold add_shifted.
  destruct (add_shifted_find_spec d index Hwf Hidx Hsum)
    as (L1 & L2 & y & -> & Hsplit & Hy & Hhd & Hylt). mrun.
  pose proof Hwf as [_ [Hok _]]. pose proof Hsplit as (Hf & _ & _).
  assert (0 <= total L1)%Z by (rewrite Hf in Hok; by destruct (total_prefix _ _ _ Hok)).
  destruct (do_add_spec d L1 L2 y Hwf Hsplit) as (d' & L1' & r & L2' & -> & Hadded); [lia|]. mrun.
  exists d', y. split_and!; [done|by eapply added_wf| | |apply Hadded].
  - intros Hin. apply (split_mem _ _ _ _ _ Hok Hsplit) in Hin as (r' & Hr' & ?).
    specialize (Hhd r' Hr'). lia.
  - rewrite Hf in Hok, Hsplit |- *. rewrite (below_split _ _ _ _ Hok Hsplit).
    destruct L2 as [|r' L2]; [lia|]. specialize (Hhd r' eq_refl). lia.
Qed.
End facts.
