(* ===== verification/IndexSetEdits.v ===== *)
(** * Correctness of the shifting operations of index sets

    Erasing, inserting and removing indices: the members after each operation,
    in terms of the members before. *)

From S2P Require Import Prelude ChunkedRangeVector ChunkedFacts ChunkedOps IndexSet LoopFacts IndexSetFacts.

Section edits.
Context `{Build}.

(** ** Arithmetic of shifted tails *)

(** Bounds on the members around an index. *)
Lemma mem_before x index L1 : Forall (λ r, r.2 <= index)%Z L1 -> mem x L1 -> (x < index)%Z.
Proof.
  intros Hall (r & Hr & Hin)%Exists_exists. rewrite Forall_forall in Hall.
  specialize (Hall r Hr). unfold in_range in Hin. simpl in Hall. lia.
Qed.

Lemma mem_wrap n lo L x : ok_from lo L -> bounded npos L -> (0 <= lo + n)%Z ->
  (forall r, last L = Some r -> r.2 + n <= npos)%Z ->
  mem x (wrap_range n <$> L) <-> mem (x - n) L.
Proof.
  intros Hok Hb Hlo Hhi. destruct (last L) as [r|] eqn:Hr.
  2:{ apply last_None in Hr. subst L. simpl. by rewrite !mem_nil. }
  assert (bounded r.2 L) as Hb'.
  { pose proof (next_lo_last lo L r Hr). eapply bounded_weaken, ok_from_bounded, Hok. lia. }
  specialize (Hhi r eq_refl). unfold npos in *.
  rewrite (wrap_range_small n lo r.2) by (done || lia). apply mem_shift.
Qed.

(** The tail of a well-formed list, moved down by one. *)
Lemma tail_down lo L : ok_from lo L -> bounded npos L -> (1 <= lo)%Z ->
  wrap_range (-1) <$> L = shift_range (-1) <$> L /\ ok_from (lo - 1) (shift_range (-1) <$> L)
  /\ bounded npos (shift_range (-1) <$> L).
Proof.
  intros Hok Hb Hlo. split_and!.
  - apply (wrap_range_small (-1) lo npos); unfold npos; (done || lia).
  - by apply (ok_from_shift (-1)).
  - eapply bounded_weaken; [|by apply (bounded_shift (-1))]. lia.
Qed.

(** The tail of a well-formed list, moved up by [n]. *)
Lemma tail_up n lo L : ok_from lo L -> bounded (npos - n) L -> (0 <= lo)%Z -> (0 <= n)%Z ->
  wrap_range n <$> L = shift_range n <$> L /\ ok_from (lo + n) (shift_range n <$> L)
  /\ bounded npos (shift_range n <$> L).
Proof.
  intros Hok Hb Hlo Hn. split_and!.
  - apply (wrap_range_small n lo (npos - n)); unfold npos; (done || lia).
  - by apply ok_from_shift.
  - eapply bounded_weaken; [|by apply (bounded_shift n)]. lia.
Qed.

(** ** Erasing *)

Definition erased (index : Z) (L L' : list range) : Prop :=
  forall x, mem x L' <-> ((x < index)%Z /\ mem x L) \/ ((index <= x)%Z /\ mem (x + 1) L).

Ltac mem_facts x Hall Hok2 :=
  pose proof (mem_before x _ _ Hall); pose proof (mem_before (x + 1) _ _ Hall);
  pose proof (mem_lo _ _ x Hok2); pose proof (mem_lo _ _ (x + 1) Hok2);
  rewrite ?mem_app, ?mem_cons, ?mem_shift, ?mem_nil; cbn [fst snd];
  replace (x - -1)%Z with (x + 1)%Z in * by lia; intuition lia.

Lemma do_erase_spec (d : IndexSet) L1 r L2 index : wf d -> (0 <= index)%Z ->
  split_at index (flat d) L1 (r :: L2) ->
  exists d', do_erase d (locate d (length L1)) index = Some d' /\ wf d'
    /\ erased index (flat d) (flat d').
Proof.
  intros [Hd Hwf] Hidx (Hf & Hall & Hhd). specialize (Hhd r eq_refl).
  rewrite Hf in Hwf |- *. pose proof (wf_flat_mid _ _ _ Hwf) as Hr.
  unfold do_erase. rewrite (deref_mid d L1 r L2) by done. mrun.
  assert (ok_from (r.2 + 1) L2 /\ bounded npos L2) as [Hok2 Hb2].
  { destruct Hwf as [Hok Hb]. range_simpl; done. }
  destruct (tail_down _ _ Hok2 Hb2) as (Hw2 & Hs2 & Hsb2); [lia|].
  replace (r.2 + 1 - 1)%Z with r.2 in Hs2 by lia.
  (* the tail from [L1] on, moved down after the edit *)
  assert (Hfin : forall d1 L2', shape_ok d1 -> flat d1 = L1 ++ L2' ->
    wf_flat (L1 ++ (wrap_range (-1) <$> L2')) ->
    erased index (L1 ++ r :: L2) (L1 ++ (wrap_range (-1) <$> L2')) ->
    exists d', shift_until_end_by d1 (locate d1 (length L1)) (-1) = Some d' /\ wf d'
      /\ erased index (L1 ++ r :: L2) (flat d')).
  { intros d1 L2' Hd1 Hf1 Hwf1 Her.
    destruct (shift_until_end_spec d1 L1 L2' (-1) Hd1 Hf1) as (d' & -> & Hd' & Hf' & _).
    exists d'. rewrite Hf'. split_and!; [done|by split; rewrite ?Hf'|done]. }
  unfold npos in *. case_bool_decide as Hin.
  - rewrite (u64_small (r.1 + 1)) by lia. case_bool_decide as Hsingle.
    + destruct (erase_mid d L1 r L2 Hd Hf) as (d1 & -> & Hd1 & Hf1).
      { destruct Hwf. unfold wf_flat, npos in *. range_solve. }
      mrun. apply (Hfin d1 L2 Hd1 Hf1); rewrite Hw2.
      * destruct Hwf. unfold wf_flat, npos in *. range_solve.
      * intros x. mem_facts x Hall Hok2.
    + destruct (it_adjust_mid d L1 r L2 0 (-1) Hd Hf) as (d1 & -> & Hd1 & Hf1 & Hloc1). mrun.
      rewrite Z.add_0_r, (u64_small r.1), (u64_small (r.2 + -1)) in Hf1 by lia.
      rewrite <-Hloc1, (it_next_mid d1 _ _ _ Hd1 Hf1). mrun.
      rewrite cons_middle, app_assoc in Hf1.
      assert (length (L1 ++ [r]) = length (L1 ++ [(r.1, (r.2 + -1)%Z)])) as Hlen
        by (by rewrite !length_app).
      destruct (shift_until_end_spec d1 _ L2 (-1) Hd1 Hf1) as (d' & -> & Hd' & Hf' & _).
      exists d'. rewrite Hw2, <-app_assoc in Hf'. cbn [app] in Hf'. split; [done|].
      split; [split; [done|]|]; rewrite Hf'.
      * destruct Hwf. unfold wf_flat, npos in *. range_solve.
      * intros x. mem_facts x Hall Hok2.
  - assert (Hplain : wf_flat (L1 ++ (wrap_range (-1) <$> r :: L2)) <->
      (forall pr, last L1 = Some pr -> pr.2 + 1 < r.1)%Z).
    { rewrite fmap_cons, Hw2. unfold wrap_range. rewrite (u64_small (r.1 + -1)), (u64_small (r.2 + -1)) by lia.
      destruct L1 as [|pr Lp _] using rev_ind.
      - split; [done|]. intros _. destruct Hwf. unfold wf_flat, npos in *. range_solve.
      - rewrite last_snoc. split.
        + intros [Hok' _] ? [= <-]. apply ok_from_app in Hok' as [_ Hok'].
          rewrite next_lo_app in Hok'. simpl in Hok'. lia.
        + intros Hp. specialize (Hp pr eq_refl). destruct Hwf. unfold wf_flat, npos in *. range_solve. }
    assert (Her : erased index (L1 ++ r :: L2) (L1 ++ (wrap_range (-1) <$> r :: L2))).
    { intros x. rewrite fmap_cons, Hw2. unfold wrap_range.
      rewrite (u64_small (r.1 + -1)), (u64_small (r.2 + -1)) by lia. mem_facts x Hall Hok2. }
    rewrite (locate_begin_mid d L1 (r :: L2)) by done. case_bool_decide as Hbegin.
    { mrun. apply (Hfin d (r :: L2)); [done..| |done]. apply Hplain. by subst L1. }
    destruct L1 as [|pr Lp _] using rev_ind; [done|]. clear Hbegin.
    rewrite (it_prev_mid d Lp pr (r :: L2)) by done. mrun.
    assert (Hf0 := Hf). rewrite <-app_assoc in Hf0. cbn [app] in Hf0.
    rewrite (deref_mid d Lp pr (r :: L2)) by done. mrun.
    apply Forall_app in Hall as Hall'. destruct Hall' as [Hallp [Hpr _]%Forall_cons]. simpl in Hpr.
    assert (0 <= pr.1 /\ pr.1 < pr.2 /\ 0 <= next_lo 0 Lp)%Z as Hpr1.
    { rewrite <-app_assoc in Hwf. apply wf_flat_mid in Hwf. lia. }
    rewrite (u64_small (pr.2 + 1)) by lia. case_bool_decide as Hmerge.
    2:{ mrun. apply (Hfin d (r :: L2)); [done..| |done]. apply Hplain.
        intros ?. rewrite last_snoc. intros [= <-]. destruct Hwf as [Hok _].
        apply ok_from_app in Hok as [_ (Hlo & _)]. rewrite next_lo_app in Hlo. simpl in Hlo. lia. }
    destruct (it_adjust_mid d Lp pr (r :: L2) 0 (r.2 -! r.1) Hd Hf0) as (d1 & -> & Hd1 & Hf1 & Hloc1).
    mrun. rewrite Z.add_0_r, (u64_small pr.1), (u64_small (r.2 - r.1)), u64_small in Hf1 by lia.
    rewrite cons_middle, app_assoc in Hf1. rewrite <-Hloc1.
    assert (length (Lp ++ [pr]) = length (Lp ++ [(pr.1, (pr.2 + (r.2 - r.1))%Z)])) as Hlen
      by (by rewrite !length_app).
    rewrite Hlen. destruct (erase_mid d1 _ r L2 Hd1 Hf1) as (d2 & -> & Hd2 & Hf2).
    { destruct Hwf. rewrite <-app_assoc. unfold wf_flat, npos in *. range_solve. }
    mrun. destruct (shift_until_end_spec d2 _ L2 (-1) Hd2 Hf2) as (d' & -> & Hd' & Hf' & _).
    exists d'. rewrite Hw2 in Hf'. split; [done|].
    split; [split; [done|]|]; rewrite Hf'.
    + destruct Hwf. rewrite <-app_assoc. unfold wf_flat, npos in *. range_solve.
    + intros x. mem_facts x Hallp Hok2.
Qed.

Lemma erased_past index L : Forall (λ r, r.2 <= index)%Z L -> erased index L L.
Proof.
  intros Hall x. pose proof (mem_before x index L Hall).
  pose proof (mem_before (x + 1) index L Hall). intuition lia.
Qed.

Lemma erase_at_spec (d : IndexSet) (index : Z) : wf d -> (0 <= index)%Z ->
  exists d', erase_at d index = Some d' /\ wf d' /\ erased index (flat d) (flat d').
Proof.
  intros Hwf Hidx. destruct (split_at_exists index (flat d)) as (L1 & L2 & Hsplit).
  unfold erase_at. rewrite (find_locate d index L1 L2) by done. mrun.
  pose proof Hsplit as (Hf & Hall & _). rewrite (not_end_mid d L1 L2) by done.
  destruct L2 as [|r L2].
  - rewrite bool_decide_false by (by intros []). exists d. split_and!; [done..|].
    rewrite app_nil_r in Hf. rewrite Hf. by apply erased_past.
  - rewrite bool_decide_true by done. by apply do_erase_spec with r L2.
Qed.

(** *** [erase_or_unshift] *)

Definition unshifted_past (index : Z) (L1 : list range) (s : Z) : Prop :=
  s = u64 (index - total L1) /\ Forall (λ r, r.2 <= index)%Z L1.

Lemma unshift_find_spec (d : IndexSet) (index : Z) : wf d -> is_u64 index ->
  exists L1 L2, unshift_find d index = Some (locate d (length L1), u64 (index - total L1))
    /\ split_at index (flat d) L1 L2.
Proof.
  intros [Hd [Hok Hb]] Hidx. unfold unshift_find.
  edestruct (chunk_loop d (λ c (_ : Z), bool_decide (chunk_end c <= index)%Z)
    (λ c s, s -! chunk_count c)) with (Inv := unshifted_past index)
    as (L1 & L2 & s1 & -> & Hf1 & Hinv1).
  { done. }
  { intros it s c Hc _. simpl. by rewrite Hc. }
  { intros L1 c L2 s Hf Hc [-> Hall] Hend%bool_decide_eq_true. rewrite Hf in Hok.
    destruct (chunk_fields c Hc) as (_ & _ & ->). split.
    - rewrite total_app. u64_ring.
    - apply Forall_app. split; [done|]. eapply chunk_ranges_le; [done| |done].
      by eapply ok_from_chunk. }
  { done. }
  { split; [simpl; by rewrite Z.sub_0_r, u64_small|done]. }
  mrun.
  edestruct (range_loop d (λ r (_ : Z), bool_decide (r.2 <= index)%Z) (λ r s, s -! (r.2 -! r.1)))
    with (Inv := unshifted_past index) (L1 := L1) (L2 := L2)
    as (L1' & L2' & s2 & -> & Hf2 & [-> Hall] & Hhd).
  { done. }
  { intros it s r Hr _. simpl. by rewrite Hr. }
  { intros L r L' s _ [-> Hall] Hr%bool_decide_eq_true. split.
    - rewrite total_app. simpl. u64_ring.
    - apply Forall_app. split; [done|]. by constructor. }
  { done. }
  { done. }
  { done. }
  { by eapply ranges_fuel_app. }
  exists L1', L2'. split; [done|]. split_and!; [done..|].
  intros r Hr. specialize (Hhd r Hr). apply bool_decide_eq_false in Hhd. lia.
Qed.

(** [erase_or_unshift] erases the index and tells whether it was a member: it
    returns [npos] for a member and the rank among the non-members otherwise. *)
Lemma erase_or_unshift_spec (d : IndexSet) (index : Z) : wf d -> (0 <= index < npos)%Z ->
  exists d', erase_or_unshift d index
      = Some (d', if decide (index ∈ d) then npos else (index - below index (flat d))%Z)
    /\ wf d' /\ erased index (flat d) (flat d').
Proof.
  intros Hwf Hidx. unfold erase_or_unshift. unfold npos in *.
  destruct (unshift_find_spec d index Hwf) as (L1 & L2 & -> & Hsplit); [unfold is_u64; lia|]. mrun.
  pose proof Hsplit as (Hf & Hall & _). rewrite (not_end_mid d L1 L2) by done.
  pose proof Hwf as [_ [Hok _]]. pose proof (split_mem _ _ _ _ _ Hok Hsplit) as Hmem.
  pose proof (below_mono 0 (flat d) 0 index Hok ltac:(lia)) as Hmono.
  rewrite (below_lo 0 0) in Hmono by (done || lia).
  assert (index ∉ d -> u64 (index - total L1) = index - below index (flat d))%Z as Hrank.
  { intros Hnot. pose proof Hok as Hok'. pose proof Hsplit as Hsplit'.
    rewrite Hf in Hok', Hsplit', Hmono |- *.
    rewrite (below_split _ _ _ _ Hok' Hsplit') in Hmono |- *.
    destruct L2 as [|r L2]; [rewrite u64_small; lia|].
    assert (index < r.1)%Z; [|rewrite u64_small; lia].
    destruct (decide (index < r.1)%Z); [done|]. destruct Hnot. apply Hmem. exists r. split; [done|lia]. }
  destruct L2 as [|r L2].
  - rewrite bool_decide_false by (by intros []). cbn [negb]. exists d.
    rewrite decide_False by (intros Hin; apply Hmem in Hin as (? & ? & _); done).
    rewrite Hrank by (intros Hin; apply Hmem in Hin as (? & ? & _); done).
    split_and!; [done..|]. rewrite app_nil_r in Hf. rewrite Hf. by apply erased_past.
  - rewrite bool_decide_true by done. cbn [negb]. rewrite (deref_mid d L1 r L2) by done. mrun.
    destruct (do_erase_spec d L1 r L2 index Hwf) as (d' & -> & Hwf' & Her); [lia|done|]. mrun.
    exists d'. split_and!; [|done..]. do 2 f_equal. case_bool_decide as Hin.
    + rewrite decide_True; [done|]. apply Hmem. by exists r.
    + rewrite decide_False; [apply Hrank|]; intros Hin'; apply Hmem in Hin' as (? & [= <-] & ?); lia.
Qed.

(** ** Inserting *)

Definition inserted (index cnt : Z) (L L' : list range) : Prop :=
  forall x, mem x L' <-> ((x < index)%Z /\ mem x L) \/ (index <= x < index + cnt)%Z
    \/ ((index + cnt <= x)%Z /\ mem (x - cnt) L).

(** Adding [n] consecutive indices, the iterator following each. *)
Lemma add_run_spec n : forall (d : IndexSet) L1 L2 index k, wf d ->
  split_at (index + k) (flat d) L1 L2 -> (0 <= index)%Z -> (0 <= k)%Z ->
  (index + k + Z.of_nat n <= npos)%Z ->
  (forall r, head L2 = Some r -> (index + k + Z.of_nat n < r.1)%Z) ->
  exists d' it, foldM (λ i '(d, pos),
      '(d, pos) ← do_add d pos (index +! i);
      pos ← it_next d pos;
      Some (d, pos)) (seqZ k (Z.of_nat n)) (d, locate d (length L1)) = Some (d', it)
    /\ wf d' /\ forall x, mem x (flat d') <->
         mem x (flat d) \/ (index + k <= x < index + k + Z.of_nat n)%Z.
Proof.
  induction n as [|n IH]; intros d L1 L2 index k Hwf Hsplit Hidx Hk Hhi Hhd.
  { simpl. eexists d, _. split_and!; [done..|]. intros x. intuition lia. }
  rewrite seqZ_cons by lia. replace (Z.pred (Z.of_nat (S n))) with (Z.of_nat n) by lia.
  cbn [foldM]. unfold npos in *. rewrite (u64_small (index + k)) by lia.
  destruct (do_add_spec d L1 L2 (index + k) Hwf Hsplit) as (d1 & L1' & r & L2' & -> & Hadded);
    [unfold npos; lia|].
  mrun. pose proof Hadded as (Hd1 & Hf1 & Hwf1 & Hr & Hmem1).
  rewrite (it_next_mid d1 L1' r L2') by done. mrun.
  assert (forall x, (index + k <= x <= index + k + Z.of_nat (S n))%Z -> ~ mem x (flat d)) as Hfree.
  { intros x Hx Hin. pose proof Hsplit as (Hf & Hall & _). rewrite Hf, mem_app in Hin.
    destruct Hin as [Hin%(mem_before _ _ _ Hall)|Hin]; [lia|].
    destruct L2 as [|r2 L2]; [by apply mem_nil in Hin|]. specialize (Hhd r2 eq_refl).
    destruct Hwf as [_ [Hok _]]. rewrite Hf in Hok. apply ok_from_app in Hok as [_ Hok].
    apply ok_from_head, (mem_lo _ _ x) in Hok; [lia|done]. }
  assert (r.2 = index + k + 1)%Z as Hr2.
  { destruct (decide (r.2 <= index + k + 1)%Z); [lia|]. exfalso.
    destruct (proj1 (Hmem1 (index + k + 1)%Z)) as [Hin|]; [| |lia].
    - rewrite Hf1. apply mem_app. right. apply mem_cons. lia.
    - apply (Hfree (index + k + 1)%Z); [lia|done]. }
  pose proof Hwf1 as [Hok1 _]. rewrite Hf1 in Hok1.
  destruct (IH d1 (L1' ++ [r]) L2' index (k + 1)%Z) as (d' & it & Hrun & Hwf' & Hmem').
  - done.
  - split_and!.
    + by rewrite Hf1, <-app_assoc.
    + apply ok_from_app in Hok1 as [Hok1 (Hlo & _ & _)]. apply Forall_app. split.
      * apply ok_from_Forall in Hok1. eapply Forall_impl; [exact Hok1|]. simpl. lia.
      * constructor; [simpl; lia|done].
    + intros r' Hr'. destruct L2' as [|r2 L2']; [done|]. injection Hr' as ->.
      apply ok_from_app in Hok1 as [_ (_ & _ & ? & ? & _)]. lia.
  - lia.
  - lia.
  - lia.
  - intros r' Hr'. destruct L2' as [|r2 L2']; [done|]. injection Hr' as ->.
    apply ok_from_app in Hok1 as [_ (_ & _ & ? & ? & _)].
    destruct (decide (index + (k + 1) + Z.of_nat n < r'.1)%Z); [done|exfalso].
    destruct (proj1 (Hmem1 r'.1)) as [Hin|]; [| |lia].
    + rewrite Hf1. apply mem_app. right. apply mem_cons. right. apply mem_cons. lia.
    + apply (Hfree r'.1); [lia|done].
  - rewrite Z.add_1_r in Hrun. exists d', it. rewrite Hrun. split_and!; [done..|].
    intros x. rewrite Hmem', Hmem1. intuition lia.
Qed.

(** The run of [insert_at]: [cnt] indices from [index] on. *)
Lemma add_run_at (d : IndexSet) L1 L2 index cnt : wf d -> split_at index (flat d) L1 L2 ->
  (0 <= index)%Z -> (0 < cnt)%Z -> (index + cnt <= npos)%Z ->
  (forall r, head L2 = Some r -> (index + cnt < r.1)%Z) ->
  exists d' it, foldM (λ i '(d, pos),
      '(d, pos) ← do_add d pos (index +! i);
      pos ← it_next d pos;
      Some (d, pos)) (seqZ 0 cnt) (d, locate d (length L1)) = Some (d', it)
    /\ wf d' /\ forall x, mem x (flat d') <-> mem x (flat d) \/ (index <= x < index + cnt)%Z.
Proof.
  intros Hwf Hsplit Hidx Hcnt Hhi Hhd.
  destruct (add_run_spec (Z.to_nat cnt) d L1 L2 index 0) as (d' & it & Hrun & Hwf' & Hmem);
    rewrite ?Z.add_0_r, ?Z2Nat.id by lia; try (done || lia).
  rewrite Z2Nat.id in Hrun, Hmem by lia. exists d', it. split_and!; [done..|].
  intros x. rewrite Hmem. by rewrite Z.add_0_r.
Qed.

Ltac insert_facts x index cnt Hall Hok2 :=
  rewrite ?mem_app, ?mem_cons, ?mem_shift, ?mem_nil; cbn [fst snd];
  pose proof (mem_before x index _ Hall); pose proof (mem_before (x - cnt) index _ Hall);
  pose proof (mem_lo _ _ x Hok2); pose proof (mem_lo _ _ (x - cnt)%Z Hok2); intuition lia.

(** The insertion into an existing range: the range grows and the ones behind it
    move up. *)
Lemma insert_at_within (d : IndexSet) L1 r L2 index cnt : wf d -> (0 <= index)%Z -> (0 < cnt)%Z ->
  bounded (npos - cnt) (flat d) -> split_at index (flat d) L1 (r :: L2) -> (r.1 <= index)%Z ->
  exists d1 d', it_adjust d (locate d (length L1)) 0 cnt = Some d1
    /\ (next ← it_next d1 (locate d (length L1)); shift_until_end_by d1 next cnt) = Some d'
    /\ wf d' /\ inserted index cnt (flat d) (flat d').
Proof.
  intros [Hd Hwf] Hidx Hcnt Hbnd (Hf & Hall & Hhd) Hin. specialize (Hhd r eq_refl).
  rewrite Hf in Hwf, Hbnd |- *. pose proof (wf_flat_mid _ _ _ Hwf) as Hr.
  assert (ok_from (r.2 + 1) L2 /\ bounded (npos - cnt) L2 /\ r.2 <= npos - cnt)%Z as (Hok2 & Hb2 & Hr2).
  { destruct Hwf as [Hok _]. range_simpl; done. }
  destruct (tail_up cnt _ _ Hok2 Hb2) as (Hw2 & Hs2 & Hsb2); [lia..|]. unfold npos in *.
  destruct (it_adjust_mid d L1 r L2 0 cnt Hd Hf) as (d1 & Hrun1 & Hd1 & Hf1 & Hloc1).
  rewrite Z.add_0_r, (u64_small r.1), (u64_small (r.2 + cnt)) in Hf1 by lia.
  pose proof (it_next_mid d1 _ _ _ Hd1 Hf1) as Hnext. rewrite Hloc1 in Hnext.
  rewrite cons_middle, app_assoc in Hf1.
  destruct (shift_until_end_spec d1 _ L2 cnt Hd1 Hf1) as (d' & Hrun2 & Hd' & Hf' & _).
  rewrite Hw2, <-app_assoc in Hf'. cbn [app] in Hf'.
  exists d1, d'. rewrite Hnext. mrun. rewrite length_app in Hrun2 |- *.
  split_and!; [done|done|split; [done|]|]; rewrite Hf'.
  - destruct Hwf. unfold wf_flat, npos in *. range_solve.
  - intros x. insert_facts x index cnt Hall Hok2.
Qed.

(** Moving up every range from an index on that lies before the first of them. *)
Lemma shift_tail_up (d : IndexSet) L1 r L2 cnt : wf d -> (0 < cnt)%Z ->
  bounded (npos - cnt) (flat d) -> flat d = L1 ++ r :: L2 ->
  exists d1 d', it_shift d (locate d (length L1)) cnt = Some d1
    /\ (next ← it_next d1 (locate d (length L1)); shift_until_end_by d1 next cnt) = Some d'
    /\ wf d' /\ flat d' = L1 ++ (shift_range cnt <$> r :: L2)
    /\ locate d' (length L1) = locate d (length L1).
Proof.
  intros [Hd Hwf] Hcnt Hbnd Hf. rewrite Hf in Hwf, Hbnd. pose proof (wf_flat_mid _ _ _ Hwf) as Hr.
  assert (ok_from (r.2 + 1) L2 /\ bounded (npos - cnt) L2 /\ r.2 <= npos - cnt)%Z as (Hok2 & Hb2 & Hr2).
  { destruct Hwf as [Hok _]. range_simpl; done. }
  destruct (tail_up cnt _ _ Hok2 Hb2) as (Hw2 & Hs2 & Hsb2); [lia..|]. unfold npos in *.
  destruct (it_shift_mid d L1 r L2 cnt Hd Hf) as (d1 & Hrun1 & Hd1 & Hf1 & Hloc1).
  rewrite (u64_small (r.1 + cnt)), (u64_small (r.2 + cnt)) in Hf1 by lia.
  pose proof (it_next_mid d1 _ _ _ Hd1 Hf1) as Hnext. rewrite Hloc1 in Hnext.
  rewrite cons_middle, app_assoc in Hf1.
  destruct (shift_until_end_spec d1 _ L2 cnt Hd1 Hf1) as (d2 & Hrun2 & Hd2 & Hf2 & Hloc2).
  rewrite Hw2, <-app_assoc in Hf2. cbn [app] in Hf2.
  exists d1, d2. rewrite Hnext. mrun. rewrite length_app in Hrun2 |- *.
  split_and!; [done|done|split; [done|]|done|by rewrite Hloc2, Hloc1].
  rewrite Hf2. destruct Hwf. unfold wf_flat, npos in *. range_solve.
Qed.

Lemma insert_at_spec (d : IndexSet) (index cnt : Z) : wf d -> (0 <= index)%Z -> (0 < cnt)%Z ->
  (index + cnt <= npos)%Z -> bounded (npos - cnt) (flat d) ->
  exists d', insert_at d index cnt = Some d' /\ wf d' /\ inserted index cnt (flat d) (flat d').
Proof.
  intros Hwf Hidx Hcnt Hhi Hbnd. destruct (split_at_exists index (flat d)) as (L1 & L2 & Hsplit).
  unfold insert_at. rewrite REALM_ASSERT_decide by done. mrun.
  rewrite (find_locate d index L1 L2) by done. mrun.
  pose proof Hsplit as (Hf & Hall & Hhd). rewrite (not_end_mid d L1 L2) by done.
  destruct L2 as [|r L2].
  - (* past the last range *)
    rewrite bool_decide_false by (by intros []). mrun.
    destruct (add_run_at d L1 [] index cnt) as (d' & it & -> & Hwf' & Hmem'); [done..|].
    mrun. rewrite verify_ok by (apply Hwf'). mrun. exists d'. split_and!; [done..|].
    intros x. rewrite Hmem', Hf, app_nil_r. pose proof (mem_before x _ _ Hall).
    pose proof (mem_before (x - cnt)%Z _ _ Hall). intuition lia.
  - rewrite bool_decide_true by done. rewrite (deref_mid d L1 r L2) by done. mrun.
    pose proof Hwf as [_ [Hok _]]. specialize (Hhd r eq_refl). case_bool_decide as Hin.
    + destruct (insert_at_within d L1 r L2 index cnt) as (d1 & d' & -> & Hrun & Hwf' & Hins); [done..|].
      mrun. destruct (it_next d1 _) as [next|]; [|done]. cbn [mbind option_bind] in Hrun |- *. rewrite Hrun. mrun.
      rewrite verify_ok by (apply Hwf'). mrun. by exists d'.
    + destruct (shift_tail_up d L1 r L2 cnt) as (d1 & d2 & -> & Hrun & Hwf2 & Hf2 & Hloc); [done..|].
      mrun. destruct (it_next d1 _) as [next|]; [|done]. cbn [mbind option_bind] in Hrun |- *. rewrite Hrun. mrun. rewrite <-Hloc.
      rewrite fmap_cons in Hf2.
      destruct (add_run_at d2 L1 (shift_range cnt r :: (shift_range cnt <$> L2)) index cnt)
        as (d' & it & -> & Hwf' & Hmem'); [done| |done|done|done| |].
      { split_and!; [done..|]. intros ? [= <-]. unfold shift_range. simpl. lia. }
      { intros ? [= <-]. unfold shift_range. simpl. lia. }
      mrun. rewrite verify_ok by (apply Hwf'). mrun. exists d'. split_and!; [done..|].
      rewrite Hf in Hok. assert (ok_from r.1 (r :: L2)) as Hok2.
      { apply ok_from_app in Hok as [_ Hok]. by apply ok_from_head in Hok. }
      intros x. rewrite Hmem', Hf2, Hf, <-fmap_cons, !mem_app, mem_shift.
      pose proof (mem_before x index _ Hall). pose proof (mem_before (x - cnt) index _ Hall).
      pose proof (mem_lo _ _ x Hok2). pose proof (mem_lo _ _ (x - cnt)%Z Hok2). intuition lia.
Qed.
End edits.

(** ** Correctness of removing and of opening gaps

    [shift_for_insert_at] opens a gap of unset indices, [do_remove] clears an
    interval of indices without moving the others. *)

Section removes.
Context `{Build}.

(** ** [shift_for_insert_at] *)

Definition gap_opened (index cnt : Z) (L L' : list range) : Prop :=
  forall x, mem x L' <-> ((x < index)%Z /\ mem x L)
    \/ ((index + cnt <= x)%Z /\ mem (x - cnt) L).

(** Replaces the range behind [L1] by two ranges. *)
Lemma split_range (d : IndexSet) L1 r L2 lo a b : wf d -> flat d = L1 ++ r :: L2 ->
  (next_lo 0 L1 <= lo)%Z -> (lo < a)%Z -> (a < b)%Z -> (b < r.2)%Z ->
  exists d1 next d', it_set d (locate d (length L1)) lo a = Some d1
    /\ it_next d1 (locate d (length L1)) = Some next
    /\ insert d1 next (b, r.2) = Some (d', locate d' (length (L1 ++ [(lo, a)])))
    /\ wf d' /\ flat d' = (L1 ++ [(lo, a)]) ++ (b, r.2) :: L2.
Proof.
  intros [Hd Hwf] Hf Hlo Ha Hab Hb. rewrite Hf in Hwf. pose proof (wf_flat_mid _ _ _ Hwf) as Hr.
  destruct (it_set_mid d L1 r L2 lo a Hd Hf) as (d1 & Hset & Hd1 & Hf1 & Hloc1).
  pose proof (it_next_mid d1 _ _ _ Hd1 Hf1) as Hnext. rewrite Hloc1 in Hnext.
  rewrite cons_middle, app_assoc in Hf1.
  destruct (insert_mid d1 _ L2 (b, r.2) Hd1 Hf1) as (d2 & Hins & Hd2 & Hf2).
  - destruct Hwf. rewrite <-app_assoc. unfold wf_flat in *. range_solve.
  - destruct Hwf. rewrite <-app_assoc. unfold wf_flat in *. range_solve.
  - exists d1, (locate d1 (length (L1 ++ [(lo, a)]))), d2.
    rewrite length_app in Hnext, Hins |- *. split_and!; [done..|split; [done|]|done].
    rewrite Hf2. destruct Hwf. unfold wf_flat in *. rewrite <-app_assoc. cbn [app]. range_solve.
Qed.

Lemma shift_all_up (d : IndexSet) L1 L2 cnt : wf d -> (0 < cnt)%Z ->
  bounded (npos - cnt) (flat d) -> flat d = L1 ++ L2 ->
  exists d', shift_until_end_by d (locate d (length L1)) cnt = Some d' /\ wf d'
    /\ flat d' = L1 ++ (shift_range cnt <$> L2)
    /\ locate d' (length L1) = locate d (length L1).
Proof.
  intros [Hd [Hok Hb]] Hcnt Hbnd Hf. rewrite Hf in Hok, Hb, Hbnd.
  apply ok_from_app in Hok as [Hok1 Hok2]. pose proof (next_lo_ge _ _ Hok1) as Hlo.
  apply bounded_app in Hbnd as [_ Hb2]. apply bounded_app in Hb as [Hb1 _].
  destruct (tail_up cnt _ _ Hok2 Hb2) as (Hw2 & Hs2 & Hsb2); [lia..|].
  destruct (shift_until_end_spec d L1 L2 cnt Hd Hf) as (d' & Hrun & Hd' & Hf' & Hloc).
  rewrite Hw2 in Hf'. exists d'. split_and!; [done|split; [done|]|done|by rewrite Hloc].
  rewrite Hf'. unfold wf_flat. range_solve.
Qed.

Lemma shift_for_insert_at_spec (d : IndexSet) (index cnt : Z) : wf d -> (0 <= index)%Z ->
  (0 < cnt)%Z -> (index + cnt <= npos)%Z -> bounded (npos - cnt) (flat d) ->
  exists d', shift_for_insert_at d index cnt = Some d' /\ wf d'
    /\ gap_opened index cnt (flat d) (flat d').
Proof.
  intros Hwf Hidx Hcnt Hhi Hbnd. destruct (split_at_exists index (flat d)) as (L1 & L2 & Hsplit).
  unfold shift_for_insert_at. rewrite REALM_ASSERT_decide by done. mrun.
  rewrite (find_locate d index L1 L2) by done. mrun.
  pose proof Hsplit as (Hf & Hall & Hhd). rewrite (not_end_mid d L1 L2) by done.
  destruct L2 as [|r L2].
  { rewrite bool_decide_false by (by intros []). cbn [negb]. exists d. split_and!; [done..|].
    intros x. rewrite Hf, app_nil_r. pose proof (mem_before x _ _ Hall).
    pose proof (mem_before (x - cnt)%Z _ _ Hall). intuition lia. }
  rewrite bool_decide_true by done. cbn [negb]. specialize (Hhd r eq_refl).
  destruct (shift_all_up d L1 (r :: L2) cnt) as (d1 & Hrun & Hwf1 & Hf1 & Hloc1); [done..|].
  rewrite Hrun. mrun. rewrite <-Hloc1. rewrite fmap_cons in Hf1.
  rewrite (deref_mid d1 L1 (shift_range cnt r) (shift_range cnt <$> L2)) by done. mrun.
  unfold shift_range at 1 2 3 4. cbn [fst snd].
  pose proof Hwf as [_ [Hok Hbnd0]]. rewrite Hf in Hok, Hbnd, Hbnd0.
  pose proof (wf_flat_mid _ _ _ (conj Hok Hbnd0)) as Hr.
  apply bounded_app in Hbnd as [_ [Hrb Hb2]%bounded_cons].
  apply ok_from_app in Hok as [_ Hok]. apply ok_from_head in Hok.
  pose proof Hok as (_ & _ & Hok2). unfold npos in *. u64_drop.
  case_bool_decide as Hin.
  - replace (r.1 + cnt - cnt)%Z with r.1 by lia.
    destruct (split_range d1 L1 (shift_range cnt r) (shift_range cnt <$> L2) r.1 index (index + cnt))
      as (d2 & next & d3 & -> & Hnext & Hins & Hwf3 & Hf3); [done|done|simpl; lia..|].
    mrun. rewrite Hnext. mrun. unfold shift_range in Hins at 1. cbn [fst snd] in Hins. rewrite Hins.
    mrun. rewrite verify_ok by (apply Hwf3). mrun. exists d3. split_and!; [done..|].
    intros x. rewrite Hf3, Hf, !mem_app, !mem_cons, mem_nil, mem_shift. cbn [fst snd shift_range].
    pose proof (mem_before x index _ Hall). pose proof (mem_before (x - cnt) index _ Hall).
    pose proof (mem_lo _ _ x Hok2). pose proof (mem_lo _ _ (x - cnt)%Z Hok2). intuition lia.
  - mrun. rewrite verify_ok by (apply Hwf1). mrun. exists d1. split_and!; [done..|].
    intros x. rewrite Hf1, Hf, <-fmap_cons, !mem_app, mem_shift.
      pose proof (mem_before x index _ Hall). pose proof (mem_before (x - cnt) index _ Hall).
      pose proof (mem_lo _ _ x Hok). pose proof (mem_lo _ _ (x - cnt)%Z Hok). intuition lia.
Qed.

(** ** [do_remove] *)

(** What one iteration of [do_remove] leaves of a range. *)
Definition kept_before (bg : Z) (r : range) : list range :=
  if decide (r.1 < bg)%Z then [(r.1, bg)] else [].
Definition kept_after (en : Z) (r : range) : list range :=
  if decide (en < r.2)%Z then [(en, r.2)] else [].

Lemma do_remove_step_spec (d : IndexSet) L1 r L2 bg en : wf d -> flat d = L1 ++ r :: L2 ->
  (r.1 <= bg)%Z -> (bg < r.2)%Z -> (bg < en)%Z ->
  exists d' p, do_remove_step en d (locate d (length L1)) r bg = Some (d', locate d' p)
    /\ wf d' /\ flat d' = (L1 ++ kept_before bg r) ++ kept_after en r ++ L2
    /\ p <= length (L1 ++ kept_before bg r).
Proof.
  intros Hwf Hf Hlo Hhi Hen. unfold do_remove_step, kept_before, kept_after.
  pose proof Hwf as [Hd Hwf0]. rewrite Hf in Hwf0. pose proof (wf_flat_mid _ _ _ Hwf0) as Hr.
  assert (forall a b, (next_lo 0 L1 <= a)%Z -> (a < b)%Z -> (b <= r.2)%Z -> exists d',
    it_set d (locate d (length L1)) a b = Some d' /\ wf d' /\ flat d' = L1 ++ (a, b) :: L2
    /\ locate d' (length L1) = locate d (length L1)) as Hset.
  { intros a b ???. destruct (it_set_mid d L1 r L2 a b Hd Hf) as (d' & ? & ? & Hf' & ?).
    exists d'. split_and!; [done|split; [done|]|done..]. rewrite Hf'.
    destruct Hwf0. unfold wf_flat in *. range_solve. }
  destruct (decide (r.1 < bg)%Z), (decide (en < r.2)%Z);
    rewrite ?(bool_decide_true (r.1 < bg)%Z), ?(bool_decide_false (r.1 < bg)%Z),
      ?(bool_decide_true (en < r.2)%Z), ?(bool_decide_false (en < r.2)%Z) by lia; cbn [andb].
  - destruct (split_range d L1 r L2 r.1 bg en) as (d1 & next & d2 & -> & Hnext & Hins & Hwf2 & Hf2);
      [done|done|lia..|].
    mrun. rewrite Hnext. mrun. rewrite Hins. mrun. pose proof Hwf2 as [Hd2 _].
    rewrite (it_prev_mid d2 L1 (r.1, bg) ((en, r.2) :: L2)) by done. mrun.
    exists d2, (length L1). split_and!; [done..|]. rewrite length_app. lia.
  - rewrite bool_decide_false by lia. cbn [andb].
    destruct (Hset r.1 bg) as (d1 & -> & Hwf1 & Hf1 & <-); [lia..|]. mrun.
    exists d1, (length L1). split_and!; [done|done|by rewrite <-app_assoc|]. rewrite length_app. lia.
  - rewrite bool_decide_true, bool_decide_false by lia. cbn [andb].
    destruct (Hset en r.2) as (d1 & -> & Hwf1 & Hf1 & <-); [lia..|]. mrun.
    exists d1, (length L1). rewrite app_nil_r. by split_and!.
  - rewrite bool_decide_true, bool_decide_true by lia. cbn [andb].
    assert (wf_flat (L1 ++ L2)) as Hwf1 by (destruct Hwf0; unfold wf_flat in *; range_solve).
    destruct (erase_mid d L1 r L2 Hd Hf Hwf1) as (d1 & -> & Hd1 & Hf1).
    exists d1, (length L1). rewrite app_nil_r. split_and!; [done|by split; rewrite ?Hf1|done..].
Qed.

Definition cleared (bg en : Z) (L L' : list range) : Prop :=
  forall x, mem x L' <-> mem x L /\ ~ (bg <= x < en)%Z.

(** The loop of [do_remove] of the source. *)
Abbreviation do_remove_loop fuel en := (while fuel
  (λ '(d, it, _),
    if not_end d it then r ← deref d it; Some (bool_decide (r.1 < en)%Z)
    else Some false)
  (λ '(d, it, bg),
    r ← deref d it;
    let bg := std_max r.1 bg in
    '(d, it) ← do_remove_step en d it r bg;
    it ← find_from d bg it;
    Some (d, it, bg))).

Lemma do_remove_stop fuel en (d : IndexSet) L1 L2 bg : flat d = L1 ++ L2 ->
  (forall r, head L2 = Some r -> (en <= r.1)%Z) ->
  do_remove_loop (S fuel) en (d, locate d (length L1), bg) = Some (d, locate d (length L1), bg).
Proof.
  intros Hf Hhd. rewrite while_S. rewrite (not_end_mid d L1 L2) by done.
  destruct L2 as [|r L2]; [done|]. specialize (Hhd r eq_refl).
  rewrite bool_decide_true, (deref_mid d L1 r L2) by done. mrun.
  by rewrite bool_decide_false by lia.
Qed.

(** Members of the pieces one iteration keeps. *)
Lemma kept_mem bg en x r L1 L2 : (r.1 <= bg)%Z -> (bg < r.2)%Z -> (bg < en)%Z ->
  mem x ((L1 ++ kept_before bg r) ++ kept_after en r ++ L2) <->
  mem x L1 \/ (in_range x r /\ ~ (bg <= x < en)%Z) \/ mem x L2.
Proof.
  intros. unfold kept_before, kept_after, in_range. rewrite !mem_app.
  destruct (decide (r.1 < bg)%Z), (decide (en < r.2)%Z);
    rewrite ?mem_cons, ?mem_nil; cbn [fst snd]; intuition lia.
Qed.

(** One iteration: [bg] moves up to the range found, whose remains are split
    around it. *)
Lemma do_remove_iter en fuel (d : IndexSet) L1 r L2 bg : wf d ->
  split_at bg (flat d) L1 (r :: L2) -> (0 <= bg)%Z -> (bg < en)%Z -> (r.1 < en)%Z ->
  exists d1 L1' bg', do_remove_loop (S fuel) en (d, locate d (length L1), bg)
      = do_remove_loop fuel en (d1, locate d1 (length L1'), bg')
    /\ wf d1 /\ split_at bg' (flat d1) L1' (kept_after en r ++ L2) /\ (bg <= bg' < en)%Z
    /\ (forall L', cleared bg' en (flat d1) L' -> cleared bg en (flat d) L').
Proof.
  intros Hwf (Hf & Hall & Hhd) Hbg Hen Hgo. specialize (Hhd r eq_refl).
  pose proof Hwf as [_ [Hok _]]. rewrite Hf in Hok.
  apply ok_from_app in Hok as [_ (_ & Hr12 & Hok2)].
  rewrite while_S, (not_end_mid d L1 (r :: L2)), bool_decide_true, (deref_mid d L1 r L2) by done.
  mrun. rewrite bool_decide_true by lia.
  destruct (do_remove_step_spec d L1 r L2 (r.1 `max` bg) en) as (d1 & p & -> & Hwf1 & Hf1 & Hp);
    [done|done|lia..|]. mrun.
  assert (split_at (r.1 `max` bg) (flat d1) (L1 ++ kept_before (r.1 `max` bg) r)
    (kept_after en r ++ L2)) as Hsplit1.
  { split_and!; [done| |].
    - apply Forall_app. split; [eapply Forall_impl; [exact Hall|]; simpl; lia|].
      unfold kept_before. case_decide; [|done]. constructor; [simpl; lia|done].
    - unfold kept_after. intros r'. case_decide; [intros [= <-]; simpl; lia|].
      destruct L2 as [|r2 L2]; [done|]. intros [= <-]. simpl in Hok2. lia. }
  rewrite (find_from_locate d1 (r.1 `max` bg) p _ _ Hwf1 Hsplit1 Hp). mrun.
  eexists d1, _, _. split_and!; [done|done|exact Hsplit1|lia|lia|].
  intros L' HL' x. rewrite (HL' x), Hf1, kept_mem, Hf, mem_app by lia.
  change (mem x (r :: L2)) with (mem x ([r] ++ L2)). rewrite mem_app, mem_cons, mem_nil.
  pose proof (mem_before x _ _ Hall). pose proof (mem_lo _ _ x Hok2).
  unfold in_range. intuition lia.
Qed.

(** The loop stops at once when no range starts before [en]. *)
Lemma do_remove_done en fuel (d : IndexSet) L1 L2 bg : wf d ->
  split_at bg (flat d) L1 L2 -> (bg < en)%Z -> (forall r, head L2 = Some r -> (en <= r.1)%Z) ->
  do_remove_loop (S fuel) en (d, locate d (length L1), bg) = Some (d, locate d (length L1), bg)
  /\ Forall (λ r, r.2 <= en)%Z L1 /\ cleared bg en (flat d) (flat d).
Proof.
  intros Hwf (Hf & Hall & _) Hen Hhd. split_and!; [by apply do_remove_stop with L2| |].
  - eapply Forall_impl; [exact Hall|]. simpl. lia.
  - intros x. rewrite Hf, mem_app. pose proof (mem_before x _ _ Hall).
    destruct L2 as [|r L2]; [rewrite mem_nil; intuition lia|]. specialize (Hhd r eq_refl).
    destruct Hwf as [_ [Hok _]]. rewrite Hf in Hok. apply ok_from_app in Hok as [_ Hok%ok_from_head].
    pose proof (mem_lo _ _ x Hok). intuition lia.
Qed.

Lemma do_remove_loop_spec en L2 : forall fuel (d : IndexSet) L1 bg, wf d ->
  split_at bg (flat d) L1 L2 -> (0 <= bg)%Z -> (bg < en)%Z -> length L2 < fuel ->
  exists d' L1' L2' bg', do_remove_loop fuel en (d, locate d (length L1), bg)
      = Some (d', locate d' (length L1'), bg')
    /\ wf d' /\ flat d' = L1' ++ L2' /\ Forall (λ r, r.2 <= en)%Z L1'
    /\ cleared bg en (flat d) (flat d').
Proof.
  induction L2 as [|r L2 IH]; intros fuel d L1 bg Hwf Hsplit Hbg Hen Hfuel;
    (destruct fuel as [|fuel]; [simpl in Hfuel; lia|]).
  { destruct (do_remove_done en fuel d L1 [] bg) as (-> & ? & ?); [done..|].
    exists d, L1, [], bg. split_and!; [done|done|apply Hsplit|done|done]. }
  destruct (decide (en <= r.1)%Z) as [Hstop|Hgo].
  { destruct (do_remove_done en fuel d L1 (r :: L2) bg) as (-> & ? & ?); [done..|by intros ? [= <-]|].
    exists d, L1, (r :: L2), bg. split_and!; [done|done|apply Hsplit|done|done]. }
  destruct (do_remove_iter en fuel d L1 r L2 bg) as (d1 & L1' & bg' & -> & Hwf1 & Hs1 & Hbg' & Hcl);
    [done|done|lia..|].
  unfold kept_after in Hs1. case_decide as Hlast.
  - destruct fuel as [|fuel]; [simpl in Hfuel; lia|].
    destruct (do_remove_done en fuel d1 L1' ([(en, r.2)] ++ L2) bg') as (-> & ? & ?);
      [done|done|lia|by intros ? [= <-]|].
    exists d1, L1', ([(en, r.2)] ++ L2), bg'. split_and!; [done|done|apply Hs1|done|auto].
  - destruct (IH fuel d1 L1' bg') as (d' & L1'' & L2' & bg'' & -> & ? & ? & ? & ?);
      [done|done|lia|lia|simpl in Hfuel; lia|].
    exists d', L1'', L2', bg''. split_and!; [done..|auto].
Qed.

Lemma do_remove_spec (d : IndexSet) p0 L1 L2 bg en : wf d -> split_at bg (flat d) L1 L2 ->
  p0 <= length L1 -> (0 <= bg)%Z -> (bg < en)%Z ->
  exists d' L1' L2', do_remove d (locate d p0) bg en = Some (d', locate d' (length L1'))
    /\ wf d' /\ flat d' = L1' ++ L2' /\ Forall (λ r, r.2 <= en)%Z L1'
    /\ cleared bg en (flat d) (flat d').
Proof.
  intros Hwf Hsplit Hp Hbg Hen. unfold do_remove.
  rewrite (find_from_locate d bg p0 L1 L2) by done. mrun.
  destruct (do_remove_loop_spec en L2 (S (ranges_fuel d)) d L1 bg) as (d' & L1' & L2' & bg' & Hrun & Hrest);
    [done..| |].
  { pose proof (ranges_fuel_app d L1 L2 (proj1 Hsplit)). lia. }
  cbn [mbind option_bind] in Hrun. cbv beta iota zeta in Hrun. rewrite Hrun. mrun. by exists d', L1', L2'.
Qed.

Lemma remove_spec (d : IndexSet) (index cnt : Z) : wf d -> (0 <= index)%Z -> (0 < cnt)%Z ->
  (index + cnt <= npos)%Z ->
  exists d', remove d index cnt = Some d' /\ wf d'
    /\ cleared index (index + cnt) (flat d) (flat d').
Proof.
  intros Hwf Hidx Hcnt Hhi. destruct (split_at_exists index (flat d)) as (L1 & L2 & Hsplit).
  unfold remove. rewrite (find_locate d index L1 L2) by done. mrun. unfold npos in *. u64_drop.
  destruct (do_remove_spec d (length L1) L1 L2 index (index + cnt))
    as (d' & L1' & L2' & -> & ? & ? & ? & ?); [done|done|lia..|].
  mrun. by exists d'.
Qed.

Lemma remove_ranges_spec rs : forall lo (d : IndexSet) La Lb, wf d -> ok_from lo rs -> (0 <= lo)%Z ->
  flat d = La ++ Lb -> Forall (λ r, r.2 <= lo)%Z La ->
  exists d', remove_ranges rs d (locate d (length La)) = Some d' /\ wf d'
    /\ forall x, mem x (flat d') <-> mem x (flat d) /\ ~ mem x rs.
Proof.
  induction rs as [|r rs IH]; intros lo d La Lb Hwf Hok Hlo HLa Hall; cbn [remove_ranges].
  { exists d. split_and!; [done..|]. intros x. rewrite mem_nil. intuition. }
  destruct Hok as (Hr1 & Hr2 & Hok).
  destruct (split_at_exists r.1 (flat d)) as (L1 & L2 & Hsplit).
  destruct (do_remove_spec d (length La) L1 L2 r.1 r.2)
    as (d1 & L1' & L2' & -> & Hwf1 & Hf1 & Hall1 & Hcl); [done|done| |lia|lia|].
  { rewrite HLa in Hsplit. apply (split_at_prefix _ _ _ _ _ Hsplit).
    eapply Forall_impl; [exact Hall|]. simpl. lia. }
  mrun. rewrite (not_end_mid d1 L1' L2') by done.
  assert (forall x, mem x (flat d1) <-> mem x (flat d) /\ ~ in_range x r) as Hcl' by exact Hcl.
  case_bool_decide as Hne.
  - destruct (IH (r.2 + 1)%Z d1 L1' L2') as (d' & -> & ? & Hmem); [done|done|lia|done| |].
    { eapply Forall_impl; [exact Hall1|]. simpl. lia. }
    exists d'. split_and!; [done..|]. intros x. rewrite Hmem, Hcl', mem_cons. unfold in_range. tauto.
  - exists d1. split_and!; [done..|]. intros x. rewrite Hcl', mem_cons. unfold in_range.
    assert (L2' = []) as -> by (destruct L2'; [done|by destruct Hne]).
    rewrite app_nil_r in Hf1.
    split; [|tauto]. intros [Hx ?]. split; [done|]. intros [?|Hin%(mem_lo _ _ x Hok)]; [tauto|].
    assert (mem x (flat d1)) as Hx1 by (apply Hcl'; done).
    rewrite Hf1 in Hx1. apply (mem_before x r.2) in Hx1; [lia|done].
Qed.

(** [remove(IndexSet const&)] is set difference. *)
Lemma remove_all_spec (d values : IndexSet) : wf d -> wf values ->
  exists d', remove_all d values = Some d' /\ wf d'
    /\ forall x, x ∈ d' <-> x ∈ d /\ x ∉ values.
Proof.
  intros Hwf [Hv [Hok Hb]]. unfold remove_all. rewrite ranges_spec by done. mrun.
  rewrite <-locate_begin by apply Hwf.
  destruct (remove_ranges_spec (flat values) 0 d [] (flat d)) as (d' & Hrun & ? & Hmem); [done..|].
  by exists d'.
Qed.

End removes.
