(* ===== verification/IndexSetWalk.v ===== *)
(** * Iterating over the indices of a set

    [as_indexes] visits exactly the members, in increasing order; [add_all],
    [of_list] and [set] build the sets they name. *)

From S2P Require Import Prelude ChunkedRangeVector ChunkedFacts ChunkedOps IndexSet LoopFacts IndexSetFacts.

Section walk.
Context `{Build}.

(** The members of a list of ranges, in order. *)
Definition elems (L : list range) : list Z := L ≫= (λ r, seqZ r.1 (r.2 - r.1)).

Lemma elems_cons r L : elems (r :: L) = seqZ r.1 (r.2 - r.1) ++ elems L.
Proof. reflexivity. Qed.

Lemma elem_of_elems x L : x ∈ elems L <-> mem x L.
Proof.
  unfold elems, mem. rewrite list_elem_of_bind, Exists_exists.
  split; intros (r & H1 & H2); exists r; (split; [|]);
    rewrite ?elem_of_seqZ in *; unfold in_range in *; (done || lia).
Qed.

Lemma seqZ_sorted m n : StronglySorted Z.lt (seqZ m n).
Proof.
  destruct (decide (0 <= n)%Z) as [Hn|]; [|rewrite seqZ_nil by lia; constructor].
  revert m. pattern n. apply natlike_ind; [intros m; constructor|..|done].
  clear n Hn. intros n Hn IH m. rewrite seqZ_cons, Z.pred_succ by lia.
  constructor; [apply IH|]. apply Forall_forall. intros x Hx%elem_of_seqZ. lia.
Qed.

Lemma elems_sorted lo L : ok_from lo L -> StronglySorted Z.lt (elems L).
Proof.
  revert lo. induction L as [|r L IH]; intros lo; [constructor|]. intros (Hlo & Hr & Hok).
  rewrite elems_cons, StronglySorted_app. split_and!; [|apply seqZ_sorted|by apply (IH _ Hok)].
  intros x1 x2 Hx1%elem_of_seqZ Hx2%elem_of_elems. pose proof (mem_lo _ _ _ Hok Hx2). lia.
Qed.

Lemma length_elems lo L : ok_from lo L -> Z.of_nat (length (elems L)) = total L.
Proof.
  revert lo. induction L as [|r L IH]; intros lo; [done|]. intros (Hlo & Hr & Hok).
  rewrite elems_cons, length_app, length_seqZ. simpl. rewrite <-(IH _ Hok). lia.
Qed.

Lemma wf_nil : wf [].
Proof. split; [constructor|]. split; [done|constructor]. Qed.

(** ** [as_indexes] *)

Lemma index_next_mid (d : IndexSet) L1 r L2 k : wf d -> flat d = L1 ++ r :: L2 ->
  (0 <= k)%Z -> (r.1 + k < r.2)%Z ->
  index_deref d (mkIndexIterator (locate d (length L1)) k) = Some (r.1 + k)%Z /\
  index_next d (mkIndexIterator (locate d (length L1)) k)
    = Some (if decide (r.1 + k + 1 = r.2)%Z
            then mkIndexIterator (locate d (length (L1 ++ [r]))) 0
            else mkIndexIterator (locate d (length L1)) (k + 1)).
Proof.
  intros [Hd Hwf] Hf Hk Hr. rewrite Hf in Hwf. pose proof (wf_flat_mid _ _ _ Hwf) as Hb.
  unfold npos in *. unfold index_deref, index_next. cbn [m_iterator m_offset].
  rewrite (deref_mid d L1 r L2), (it_next_mid d L1 r L2) by done. mrun. u64_drop.
  split; [done|]. rewrite Z.add_assoc. destruct (decide _); [by rewrite bool_decide_true|].
  by rewrite bool_decide_false.
Qed.

Lemma walk_indexes_range (d : IndexSet) L1 r L2 n : forall fuel k, wf d -> flat d = L1 ++ r :: L2 ->
  (0 <= k)%Z -> (r.1 + k + Z.of_nat n = r.2)%Z -> 0 < n ->
  walk_indexes (n + fuel) d (mkIndexIterator (locate d (length L1)) k)
  = (rest ← walk_indexes fuel d (mkIndexIterator (locate d (length (L1 ++ [r]))) 0);
     Some (seqZ (r.1 + k) (Z.of_nat n) ++ rest)).
Proof.
  induction n as [|n IH]; intros fuel k Hwf Hf Hk Hr Hn; [lia|].
  destruct (index_next_mid d L1 r L2 k Hwf Hf) as [Hderef Hnext]; [lia..|].
  cbn [Nat.add walk_indexes]. cbn [m_iterator].
  pose proof (not_end_mid d L1 (r :: L2) Hf) as Hne. rewrite bool_decide_true in Hne by done.
  unfold not_end in Hne. apply negb_true_iff in Hne. rewrite Hne, Hderef, Hnext. mrun.
  rewrite seqZ_cons by lia. replace (Z.pred (Z.of_nat (S n))) with (Z.of_nat n) by lia.
  destruct (decide _) as [Hlast|Hmore].
  - assert (n = 0) as -> by lia. cbn [Nat.add]. by destruct (walk_indexes fuel d _).
  - rewrite IH by (done || lia). destruct (walk_indexes fuel d _); [|done]. mrun.
    cbn [app]. do 3 f_equal. by rewrite <-Z.add_succ_r, Z.add_1_r.
Qed.

Lemma walk_indexes_spec L2 : forall (d : IndexSet) L1, wf d -> flat d = L1 ++ L2 ->
  walk_indexes (S (sum_list_with (λ r, Z.to_nat (r.2 - r.1)) L2)) d
    (mkIndexIterator (locate d (length L1)) 0) = Some (elems L2).
Proof.
  induction L2 as [|r L2 IH]; intros d L1 Hwf Hf.
  - cbn [walk_indexes m_iterator]. pose proof (not_end_mid d L1 [] Hf) as Hne.
    rewrite bool_decide_false in Hne by (by intros []). unfold not_end in Hne.
    apply negb_false_iff in Hne. by rewrite Hne.
  - pose proof Hwf as [_ Hwf0]. rewrite Hf in Hwf0. pose proof (wf_flat_mid _ _ _ Hwf0) as Hb.
    cbn [sum_list_with]. rewrite <-Nat.add_succ_r, (walk_indexes_range d L1 r L2) by (done || lia).
    rewrite IH; [|done|by rewrite <-app_assoc]. mrun. rewrite elems_cons.
    by rewrite Z.add_0_r, Z2Nat.id by lia.
Qed.

Lemma as_indexes_spec (d : IndexSet) : wf d -> as_indexes d = Some (elems (flat d)).
Proof.
  intros Hwf. unfold as_indexes, indexes_fuel. fold (flat d).
  rewrite <-locate_begin by apply Hwf. by apply (walk_indexes_spec (flat d) d []).
Qed.

(** *** Enumeration does not read the caches *)

(** [d] with the caches its ranges determine. *)
Definition recount (d : IndexSet) : IndexSet := (λ c, mk_chunk (chunk_data c)) <$> d.

(** The chunks are neither empty nor too long; their caches are arbitrary. *)
Definition cut_ok (d : IndexSet) : Prop :=
  Forall (λ c, chunk_data c <> [] /\ length (chunk_data c) <= max_size) d.

Lemma flat_recount d : flat (recount d) = flat d.
Proof. induction d as [|c d IH]; [done|]. change (recount (c :: d)) with (mk_chunk (chunk_data c) :: recount d).
  by rewrite !flat_cons, IH. Qed.

Lemma recount_wf d : cut_ok d -> wf_flat (flat d) -> wf (recount d).
Proof.
  intros Hcut Hwf. split; [|by rewrite flat_recount]. apply Forall_fmap. eapply Forall_impl; [exact Hcut|].
  intros c [? ?]. by split.
Qed.

Lemma deref_recount d it : deref (recount d) it = deref d it.
Proof. unfold deref, recount. rewrite list_lookup_fmap. by destruct (d !! m_outer it). Qed.

Lemma it_next_recount d it : it_next (recount d) it = it_next d it.
Proof. unfold it_next, recount. rewrite list_lookup_fmap. by destruct (d !! m_outer it). Qed.

Lemma walk_indexes_recount d fuel : forall it, walk_indexes fuel (recount d) it = walk_indexes fuel d it.
Proof.
  assert (it_end (recount d) = it_end d) as Hend by (unfold it_end, recount; by rewrite length_fmap).
  induction fuel as [|fuel IH]; intros it; [done|]. cbn [walk_indexes]. rewrite Hend.
  unfold index_deref, index_next. rewrite deref_recount, it_next_recount.
  case_bool_decide; [done|]. destruct (deref d (m_iterator it)); [|done]. mrun.
  destruct (if bool_decide _ then _ else _) as [next|]; [|done]. mrun. by rewrite IH.
Qed.

Lemma as_indexes_cut d : cut_ok d -> wf_flat (flat d) -> as_indexes d = Some (elems (flat d)).
Proof.
  intros Hcut Hwf. rewrite <-(flat_recount d), <-as_indexes_spec by by apply recount_wf.
  unfold as_indexes, indexes_fuel. rewrite walk_indexes_recount. fold (flat d) (flat (recount d)).
  rewrite flat_recount. by destruct d.
Qed.

(** ** Adding many indices *)

Lemma add_all_fold xs : forall (d : IndexSet) La Lb lo, wf d -> StronglySorted Z.lt xs ->
  Forall (λ x, lo <= x < npos)%Z xs -> (0 <= lo)%Z ->
  flat d = La ++ Lb -> Forall (λ r, r.2 <= lo)%Z La ->
  exists d' it, foldM (λ index '(d, it), it ← find_from d index it; do_add d it index)
      xs (d, locate d (length La)) = Some (d', it)
    /\ wf d' /\ forall y, y ∈ d' <-> y ∈ d \/ y ∈ xs.
Proof.
  induction xs as [|x xs IH]; intros d La Lb lo Hwf Hs Hx Hlo Hf HLa.
  { exists d, (locate d (length La)). split_and!; [done..|]. set_solver. }
  apply StronglySorted_cons in Hs as [Hxs Hs]. apply Forall_cons in Hx as [[Hx1 Hx2] Hx].
  cbn [foldM]. destruct (split_at_exists x (flat d)) as (L1 & L2 & Hsplit).
  assert (length La <= length L1) as Hle.
  { rewrite Hf in Hsplit. apply (split_at_prefix _ _ _ _ _ Hsplit).
    eapply Forall_impl; [exact HLa|]. simpl. lia. }
  rewrite (find_from_locate d x (length La) L1 L2) by done. mrun.
  destruct (do_add_spec d L1 L2 x Hwf Hsplit) as (d1 & L1' & r & L2' & -> & Hadded); [lia|]. mrun.
  pose proof Hadded as (_ & Hf1 & [Hok1 _] & Hr & Hmem1).
  destruct (IH d1 L1' (r :: L2') (x + 1)%Z) as (d' & it & Hrun & Hwf' & Hmem).
  - by eapply added_wf.
  - done.
  - rewrite Forall_forall in Hxs, Hx |- *. intros y Hy. specialize (Hxs y Hy). specialize (Hx y Hy). lia.
  - lia.
  - done.
  - rewrite Hf1 in Hok1. apply ok_from_app in Hok1 as [Hok1 (Hlo1 & _)].
    apply ok_from_Forall in Hok1. eapply Forall_impl; [exact Hok1|]. simpl. lia.
  - cbn [mbind option_bind] in Hrun. cbv beta iota zeta in Hrun. rewrite Hrun. exists d', it.
    split_and!; [done..|]. intros y. rewrite Hmem, elem_of_cons, !elem_of_flat, Hmem1. tauto.
Qed.

(** [add(IndexSet const&)] is union. *)
Lemma add_all_spec (d other : IndexSet) : wf d -> wf other ->
  exists d', add_all d other = Some d' /\ wf d' /\ forall x, x ∈ d' <-> x ∈ d \/ x ∈ other.
Proof.
  intros Hwf Ho. unfold add_all. rewrite as_indexes_spec by done. mrun.
  rewrite <-locate_begin by apply Hwf. pose proof Ho as [_ [Hok Hb]].
  destruct (add_all_fold (elems (flat other)) d [] (flat d) 0) as (d' & it & Hrun & Hwf' & Hmem).
  - done.
  - by eapply elems_sorted.
  - apply Forall_forall. intros x Hx%elem_of_elems. by apply (elem_of_bounds x other).
  - done.
  - done.
  - done.
  - cbn [mbind option_bind length] in Hrun. cbv beta iota zeta in Hrun. rewrite Hrun. exists d'.
    split_and!; [done..|]. intros x. rewrite Hmem. by rewrite elem_of_elems.
Qed.

Lemma of_list_spec (values : list Z) : Forall (λ v, 0 <= v < npos)%Z values ->
  exists d, of_list values = Some d /\ wf d /\ forall x, x ∈ d <-> x ∈ values.
Proof.
  intros Hall. unfold of_list.
  assert (forall d : IndexSet, wf d -> exists d', foldM (λ v d, add d v) values d = Some d' /\ wf d'
    /\ forall x, x ∈ d' <-> x ∈ d \/ x ∈ values) as Hfold.
  { induction Hall as [|v values Hv _ IH]; intros d Hwf; cbn [foldM].
    - exists d. set_solver.
    - destruct (add_spec d v Hwf Hv) as (d1 & -> & Hwf1 & Hmem1). mrun.
      destruct (IH d1 Hwf1) as (d' & -> & Hwf' & Hmem'). exists d'. split_and!; [done..|].
      intros x. rewrite Hmem', Hmem1, elem_of_cons. tauto. }
  destruct (Hfold []) as (d & -> & Hwf & Hmem); [by apply wf_nil|].
  exists d. split_and!; [done..|]. intros x. rewrite Hmem. 
  split; [intros [Hx|]; [by apply mem_nil in Hx|done]|by right].
Qed.

(** [set(len)] is the interval below [len]. *)
Lemma set_spec (len : Z) : (0 <= len <= npos)%Z ->
  exists d, set len = Some d /\ wf d /\ forall x, x ∈ d <-> (0 <= x < len)%Z.
Proof.
  intros Hlen. unfold set. case_bool_decide as Hz.
  { exists []. split_and!; [done|by apply wf_nil|]. intros x. rewrite elem_of_flat, mem_nil. lia. }
  destruct (push_back_flat [] (0%Z, len)) as (d' & -> & Hd' & Hf').
  - constructor.
  - unfold wf_flat. simpl. repeat constructor; simpl; lia.
  - exists d'. assert (flat d' = [(0%Z, len)]) as Hf by exact Hf'. split_and!; [done|split; [done|]|].
    + rewrite Hf. unfold wf_flat. simpl. repeat constructor; simpl; lia.
    + intros x. rewrite elem_of_flat, Hf, mem_cons, mem_nil. simpl. lia.
Qed.

End walk.

(** ** Correctness of [ChunkedRangeVectorBuilder]

    A builder that is fed increasing indices produces the well-formed set of
    those indices, adjacent ones coalesced into ranges. *)

(** The cached counts of the source are exact as long as no range of several
    indices starts a chunk that was not allocated in advance; [exact] is the
    assumption that this has not happened. *)
Section builder.
Context `{Build} (exact : Prop).

(** ** The builder invariant *)

(** A chunk under construction: everything but its [end] is up to date. *)
Definition open_ok (c : Chunk) : Prop :=
  chunk_data c <> [] -> length (chunk_data c) <= max_size
    /\ chunk_begin c = chunk_begin (mk_chunk (chunk_data c))
    /\ (exact -> chunk_count c = u64 (total (chunk_data c))).

Definition closed_ok (c : Chunk) : Prop :=
  chunk_data c <> [] /\ length (chunk_data c) = max_size /\ (exact -> chunk_ok c).

(** [L] has been pushed; [K + 1] chunks were allocated in advance. *)
Definition building (b : ChunkedRangeVectorBuilder) (L : list range) (K : nat) : Prop :=
  exists closed cur k, m_data b = closed ++ cur :: replicate k default_chunk
    /\ m_outer_pos b = length closed /\ Forall closed_ok closed /\ open_ok cur
    /\ L = flat closed ++ chunk_data cur /\ (chunk_data cur = [] -> closed = [])
    /\ K <= length closed + k.

(** A range after the others, coalesced with the last one when they touch. *)
Definition snoc_range (L : list range) (r : range) : list range :=
  match last L with
  | Some back => if decide (r.1 = back.2) then removelast L ++ [(back.1, r.2)] else L ++ [r]
  | None => [r]
  end.

Lemma snoc_range_app L1 L2 r : L2 <> [] -> snoc_range (L1 ++ L2) r = L1 ++ snoc_range L2 r.
Proof.
  intros Hne. unfold snoc_range. rewrite last_app.
  destruct (last L2) as [back|] eqn:Hl; [|by apply last_None in Hl].
  destruct (decide _); [|by rewrite app_assoc]. by rewrite removelast_app, app_assoc.
Qed.

Lemma building_new (expected : ChunkedRangeVector) :
  building (builder_new expected) [] (length (flat expected) / max_size).
Proof.
  assert (sum_list_with (λ chunk, length (chunk_data chunk)) expected = length (flat expected)) as Hsum.
  { induction expected as [|c d IH]; [done|]. rewrite flat_cons, length_app. simpl. by rewrite IH. }
  exists [], default_chunk, (length (flat expected) / max_size). unfold builder_new.
  rewrite Hsum. cbn [m_data m_outer_pos]. rewrite Nat.add_1_r. by split_and!.
Qed.

Lemma snoc_range_last l back r : last l = Some back -> r.1 = back.2 ->
  snoc_range l r = <[pred (length l) := (back.1, r.2)]> l.
Proof.
  intros Hl Hr. unfold snoc_range. rewrite Hl, decide_True by done.
  apply last_Some in Hl as [l' ->]. rewrite removelast_last, length_app. simpl.
  replace (pred (length l' + 1)) with (length l') by lia. by rewrite insert_middle.
Qed.

(** The current chunk keeps its place. *)
Lemma building_update closed cur cur' k K r : K <= length closed + k ->
  Forall closed_ok closed -> open_ok cur' -> chunk_data cur' <> [] -> 
  (chunk_data cur = [] -> closed = []) -> chunk_data cur' = snoc_range (chunk_data cur) r ->
  building (mkBuilder (<[length closed := cur']> (closed ++ cur :: replicate k default_chunk))
    (length closed)) (snoc_range (flat closed ++ chunk_data cur) r) K.
Proof.
  intros HK Hcl Hcur Hne Hnil Heq. exists closed, cur', k. cbn [m_data m_outer_pos].
  rewrite insert_middle. split_and!; [done..| |done|done].
  rewrite Heq. destruct (decide (chunk_data cur = [])) as [Hd|Hd].
  - by rewrite Hd, (Hnil Hd).
  - by rewrite snoc_range_app.
Qed.

Lemma total_insert_last l back v : last l = Some back ->
  total (<[pred (length l) := v]> l) = (total l - (back.2 - back.1) + (v.2 - v.1))%Z.
Proof.
  intros [l' ->]%last_Some. rewrite length_app. simpl.
  replace (pred (length l' + 1)) with (length l') by lia.
  rewrite insert_middle, !total_app. simpl. lia.
Qed.

(** A full current chunk is closed, and the range starts the next one, allocated
    in advance or not. The source counts [1] for a range in a chunk it had to
    allocate. *)
Lemma builder_push_range_spill closed cur back k K r : K <= length closed + k ->
  Forall closed_ok closed -> last (chunk_data cur) = Some back -> r.1 <> back.2 ->
  length (chunk_data cur) = max_size -> open_ok cur ->
  (exact -> (r.2 - r.1 = 1)%Z \/ 0 < k) ->
  exists b', builder_push_range
      (mkBuilder (closed ++ cur :: replicate k default_chunk) (length closed)) r = Some b'
    /\ building b' (snoc_range (flat closed ++ chunk_data cur) r) K.
Proof.
  intros HK Hcl Hback Htouch Hlen Hcur Hk. pose proof max_size_bounds as [Hmax _].
  assert (chunk_data cur <> []) as Hne by (intros Hn; by rewrite Hn in Hback).
  destruct (Hcur Hne) as (_ & Hbeg & Hcnt). unfold builder_push_range. cbn [m_data m_outer_pos].
  rewrite list_lookup_middle by done. mrun. rewrite Hback, !bool_decide_false by (done || lia).
  rewrite length_insert, insert_middle, length_app. cbn [length].
  rewrite (snoc_range_app _ _ _ Hne). unfold snoc_range. rewrite Hback, decide_False, app_assoc by done.
  set (cur' := mkChunk _ _ _ _).
  assert (closed_ok cur') as Hcur'.
  { split_and!; unfold cur'; cbn [chunk_data]; [done|done|]. intros Hex.
    split; cbn [chunk_data]; [done|lia|]. unfold mk_chunk.
    f_equal; [|by rewrite Hback|by apply Hcnt]. by rewrite Hbeg. }
  assert (forall c k', chunk_data c = [r] -> open_ok c -> K <= S (length closed) + k' ->
    building (mkBuilder ((closed ++ [cur']) ++ c :: replicate k' default_chunk)
      (S (length closed))) ((flat closed ++ chunk_data cur) ++ [r]) K) as Hbuild.
  { intros c k' Hc Hopen HK'. exists (closed ++ [cur']), c, k'. cbn [m_data m_outer_pos].
    rewrite length_app, flat_app, Hc. split_and!; [done|simpl; lia| |done| |done|simpl; lia].
    - apply Forall_app. split; [done|by constructor].
    - do 2 f_equal. unfold flat. simpl. by rewrite app_nil_r. }
  destruct k as [|k]; cbn [replicate length] in *.
  - rewrite bool_decide_true by lia. eexists. split; [done|]. apply (Hbuild _ 0); [done| |lia].
    intros _. simpl. split_and!; [lia|done|]. intros Hex. destruct (Hk Hex) as [Hk1|]; [by rewrite Hk1|lia].
  - rewrite length_replicate, bool_decide_false by lia.
    rewrite cons_middle, app_assoc, lookup_app_r by (rewrite length_app; simpl; lia).
    replace (S (length closed) - length (closed ++ [cur'])) with 0 by (rewrite length_app; simpl; lia).
    cbn [replicate lookup list_lookup]. mrun. eexists. split; [done|].
    replace (S (length closed)) with (length (closed ++ [cur'])) at 1 by (rewrite length_app; simpl; lia).
    rewrite insert_middle. apply Hbuild; [done| |lia].
    intros _. simpl. split_and!; [lia|done|]. intros _. by rewrite Z.add_0_r.
Qed.

(** Closed chunks are full. *)
Lemma closed_length closed : Forall closed_ok closed -> length (flat closed) = length closed * max_size.
Proof.
  induction 1 as [|c closed (_ & Hlen & _) _ IH]; [done|]. rewrite flat_cons, length_app. simpl. lia.
Qed.

(** The last range of the current chunk grows. *)
Lemma open_ok_extend cur back r : open_ok cur -> last (chunk_data cur) = Some back ->
  r.1 = back.2 ->
  open_ok (mkChunk (<[pred (length (chunk_data cur)) := (back.1, r.2)]> (chunk_data cur))
    (chunk_begin cur) (chunk_end cur) (chunk_count cur +! (r.2 -! r.1))).
Proof.
  intros Hcur Hback Htouch _. cbn [chunk_data chunk_begin chunk_count].
  assert (chunk_data cur <> []) as Hne by (intros Hn; by rewrite Hn in Hback).
  destruct (Hcur Hne) as (Hlen & Hbeg & Hcnt). rewrite length_insert. split_and!; [done| |].
  - rewrite Hbeg. unfold mk_chunk. simpl. apply last_Some in Hback as [l' ->].
    rewrite length_app. simpl. replace (pred (length l' + 1)) with (length l') by lia.
    rewrite insert_middle. by destruct l'.
  - intros Hex. rewrite Hcnt, (total_insert_last _ back) by done. cbn [fst snd]. u64_ring.
Qed.

(** The current chunk gets one more range. *)
Lemma open_ok_snoc cur r : open_ok cur -> chunk_data cur <> [] -> length (chunk_data cur) < max_size ->
  open_ok (mkChunk (chunk_data cur ++ [r]) (chunk_begin cur) (chunk_end cur)
    (chunk_count cur +! (r.2 -! r.1))).
Proof.
  intros Hcur Hne Hroom _. destruct (Hcur Hne) as (Hlen & Hbeg & Hcnt).
  cbn [chunk_data chunk_begin chunk_count]. rewrite length_app. simpl. split_and!; [lia| |].
  - rewrite Hbeg. unfold mk_chunk. simpl. by destruct (chunk_data cur).
  - intros Hex. rewrite Hcnt, total_app by done. simpl. u64_ring.
Qed.

Lemma builder_push_range_spec b L K r : building b L K ->
  (exact -> (r.2 - r.1 = 1)%Z \/ length L < (K + 1) * max_size) ->
  exists b', builder_push_range b r = Some b' /\ building b' (snoc_range L r) K.
Proof.
  intros (closed & cur & k & Hdata & Hpos & Hcl & Hcur & -> & Hnil & HK) Hk.
  destruct b as [bd bo]. cbn [m_data m_outer_pos] in Hdata, Hpos. subst bd bo.
  pose proof max_size_bounds as [Hmax _].
  destruct (last (chunk_data cur)) as [back|] eqn:Hback.
  2:{ unfold builder_push_range. cbn [m_data m_outer_pos]. rewrite list_lookup_middle by done. mrun.
      rewrite Hback. apply last_None in Hback. eexists. split; [done|].
      apply (building_update closed cur _ k); [done|done| |done..|]; cbn [chunk_data chunk_begin chunk_count].
      - intros _. simpl. split_and!; [lia|done|]. intros _. by rewrite Z.add_0_r.
      - by rewrite Hback. }
  assert (chunk_data cur <> []) as Hne by (intros Hn; by rewrite Hn in Hback).
  destruct (decide (r.1 = back.2)) as [Htouch|Htouch];
    [|destruct (decide (length (chunk_data cur) < max_size)) as [Hroom|Hfull]].
  - unfold builder_push_range. cbn [m_data m_outer_pos]. rewrite list_lookup_middle by done. mrun.
    rewrite Hback, bool_decide_true by done. eexists. split; [done|].
    apply (building_update closed cur _ k); [done|done|by apply open_ok_extend| |done|].
    + cbn [chunk_data]. intros Hn%(f_equal length). rewrite length_insert in Hn.
      by destruct (chunk_data cur).
    + by rewrite (snoc_range_last _ back).
  - unfold builder_push_range. cbn [m_data m_outer_pos]. rewrite list_lookup_middle by done. mrun.
    rewrite Hback, bool_decide_false, bool_decide_true by done. eexists. split; [done|].
    apply (building_update closed cur _ k); [done|done|by apply open_ok_snoc| |done|].
    + by destruct (chunk_data cur).
    + unfold snoc_range. by rewrite Hback, decide_False.
  - destruct (Hcur Hne) as (Hlen & _ & _).
    apply (builder_push_range_spill closed cur back k K r); [done..|lia|done|].
    intros Hex. destruct (Hk Hex) as [?|Hcap]; [by left|right].
    rewrite length_app, (closed_length _ Hcl) in Hcap. nia.
Qed.

(** ** Coalescing *)

Lemma snoc_range_ok lo L r : ok_from lo L -> (lo <= r.1)%Z -> (r.1 < r.2)%Z ->
  (forall back, last L = Some back -> (back.2 <= r.1)%Z) ->
  ok_from lo (snoc_range L r) /\ (forall x, mem x (snoc_range L r) <-> mem x L \/ in_range x r)
  /\ exists back, last (snoc_range L r) = Some back /\ back.2 = r.2.
Proof.
  intros Hok Hlo Hr Hlast. destruct L as [|back L _] using rev_ind.
  { split_and!; [done| |by exists r]. intros x. unfold snoc_range. simpl.
    rewrite mem_cons, mem_nil. unfold in_range. tauto. }
  unfold snoc_range. rewrite last_snoc in *. specialize (Hlast back eq_refl).
  apply ok_from_app in Hok as [Hok (Hb1 & Hb2 & _)].
  destruct (decide _).
  - rewrite removelast_last. split_and!.
    + apply ok_from_app. split; [done|]. simpl. lia.
    + intros x. rewrite !mem_app, !mem_cons, mem_nil. unfold in_range. simpl. intuition lia.
    + exists (back.1, r.2). by rewrite last_snoc.
  - split_and!.
    + rewrite <-app_assoc. apply ok_from_app. split; [done|]. simpl. lia.
    + intros x. rewrite !mem_app, !mem_cons, mem_nil. unfold in_range. tauto.
    + exists r. by rewrite last_snoc.
Qed.

(** ** Pushing and finishing *)

(** What has been pushed so far: a sorted list of ranges that ends at [hi]. *)
Definition pushed (b : ChunkedRangeVectorBuilder) (L : list range) (K : nat) (hi : Z) : Prop :=
  building b L K /\ ok_from 0 L /\ bounded hi L.

Lemma pushed_new (expected : ChunkedRangeVector) :
  pushed (builder_new expected) [] (length (flat expected) / max_size) 0.
Proof. split_and!; [apply building_new|done|constructor]. Qed.

Lemma builder_push_range_pushed b L K hi r : pushed b L K hi -> (0 <= hi <= r.1)%Z ->
  (r.1 < r.2)%Z -> (exact -> (r.2 - r.1 = 1)%Z \/ length L < (K + 1) * max_size) ->
  exists b', builder_push_range b r = Some b' /\ pushed b' (snoc_range L r) K r.2
    /\ forall y, mem y (snoc_range L r) <-> mem y L \/ in_range y r.
Proof.
  intros (Hb & Hok & Hbnd) Hhi Hr Hex.
  destruct (builder_push_range_spec b L K r Hb Hex) as (b' & -> & Hb').
  destruct (snoc_range_ok 0 L r Hok) as (Hok' & Hmem & back & Hlast & Hback); [lia|done| |].
  { intros back Hback. apply last_Some_elem_of in Hback. unfold bounded in Hbnd.
    rewrite Forall_forall in Hbnd. specialize (Hbnd _ Hback). simpl in *. lia. }
  exists b'. split_and!; [done|split_and!; [done..|]|done].
  pose proof (next_lo_last 0 _ _ Hlast) as Hn.
  eapply bounded_weaken; [|by eapply ok_from_bounded, Hok']. lia.
Qed.

Lemma snoc_range_length L r : length (snoc_range L r) <= S (length L).
Proof.
  unfold snoc_range. destruct (last L) as [back|] eqn:Hl; [|simpl; lia].
  apply last_Some in Hl as [l' ->]. destruct (decide _); rewrite ?removelast_last, !length_app; simpl; lia.
Qed.

Lemma builder_push_spec b L K hi x : pushed b L K hi -> (0 <= hi <= x)%Z -> (x < npos)%Z ->
  exists b' L', builder_push b x = Some b' /\ pushed b' L' K (x + 1)
    /\ length L' <= S (length L) /\ forall y, mem y L' <-> mem y L \/ y = x.
Proof.
  intros Hb Hhi Hx. unfold builder_push, npos in *. rewrite (u64_small (x + 1)) by lia.
  destruct (builder_push_range_pushed b L K hi (x, x + 1)%Z Hb) as (b' & -> & Hb' & Hmem);
    [simpl; lia..|intros _; left; simpl; lia|].
  exists b', (snoc_range L (x, x + 1)%Z). split_and!; [done|done|apply snoc_range_length|].
  intros y. rewrite Hmem. unfold in_range. simpl. intuition lia.
Qed.

Lemma builder_push_list xs : forall b L K hi, pushed b L K hi -> (0 <= hi)%Z ->
  StronglySorted Z.lt xs -> Forall (λ x, hi <= x < npos)%Z xs ->
  exists b' L' hi', foldM (λ x b, builder_push b x) xs b = Some b' /\ pushed b' L' K hi'
    /\ (hi <= hi' <= Z.max hi npos)%Z /\ (forall e, hi <= e -> Forall (λ x, x < e)%Z xs -> hi' <= e)%Z
    /\ length L' <= length L + length xs /\ forall y, mem y L' <-> mem y L \/ y ∈ xs.
Proof.
  induction xs as [|x xs IH]; intros b L K hi Hb Hhi Hs Hx; cbn [foldM].
  { exists b, L, hi. split_and!; [done|done|lia|lia|done|simpl; lia|set_solver]. }
  apply StronglySorted_cons in Hs as [Hxs Hs]. apply Forall_cons in Hx as [Hx1 Hx].
  destruct (builder_push_spec b L K hi x) as (b1 & L1 & -> & Hb1 & Hl1 & Hmem1); [done|lia|lia|]. mrun.
  destruct (IH b1 L1 K (x + 1)%Z) as (b' & L' & hi' & -> & Hb' & ? & He & Hl' & Hmem'); [done|lia|done| |].
  { rewrite Forall_forall in Hxs, Hx |- *. intros y Hy. specialize (Hxs y Hy). specialize (Hx y Hy). lia. }
  exists b', L', hi'. split_and!; [done|done|lia|lia| |simpl; lia|].
  - intros e ? [? Hall]%Forall_cons. apply He; [lia|done].
  - intros y. rewrite Hmem', Hmem1, elem_of_cons. tauto.
Qed.

(** The finished set has the ranges pushed; it is well-formed when the counts
    are exact. *)
Lemma builder_finalize_spec b L K : building b L K -> wf_flat L ->
  exists d, builder_finalize b = Some d /\ flat d = L /\ cut_ok d /\ (exact -> wf d).
Proof.
  intros (closed & cur & k & Hdata & Hpos & Hcl & Hcur & HL & Hnil & _) Hwf.
  assert (vec_resize (m_outer_pos b + 1) default_chunk (m_data b) = closed ++ [cur]) as Hres.
  { rewrite Hdata, Hpos. unfold vec_resize. rewrite cons_middle, app_assoc, resize_app_le.
    - rewrite resize_all_alt; [done|]. rewrite length_app. simpl. lia.
    - rewrite length_app. simpl. lia. }
  unfold builder_finalize. destruct (m_data b) as [|c0 d0] eqn:Hd; [by destruct closed|].
  rewrite Hres, last_snoc. mrun. clear Hres Hdata Hd.
  destruct (last (chunk_data cur)) as [back|] eqn:Hback.
  - assert (chunk_data cur <> []) as Hne by (intros Hn; by rewrite Hn in Hback).
    destruct (Hcur Hne) as (Hlen & Hbeg & Hcnt). rewrite length_app. cbn [length].
    replace (pred (length closed + 1)) with (length closed) by lia. rewrite insert_middle.
    eexists. split; [done|]. set (c' := mkChunk _ _ _ _).
    assert (flat (closed ++ [c']) = L) as Hflat.
    { rewrite flat_app, HL. f_equal. unfold flat. simpl. by rewrite app_nil_r. }
    split; [done|]. split.
    { apply Forall_app. split; [|by constructor]. eapply Forall_impl; [exact Hcl|].
      intros c (Hc & Hmax & _). split; [done|lia]. }
    intros Hex. split; [|by rewrite Hflat]. apply Forall_app. split.
    { eapply Forall_impl; [exact Hcl|]. intros c (_ & _ & Hc). by apply Hc. }
    constructor; [|done]. split; [done..|]. unfold c', mk_chunk. cbn [chunk_data].
    by rewrite Hbeg, Hcnt, Hback.
  - apply last_None in Hback. rewrite (Hnil Hback). exists []. cbn [app removelast].
    rewrite HL, Hback, (Hnil Hback). split_and!; [done..|by constructor|by intros _; apply wf_nil].
Qed.

End builder.

(** ** Sets built from increasing indices *)

Section build.
Context `{Build}.

Lemma build_spec (expected : ChunkedRangeVector) xs : StronglySorted Z.lt xs ->
  Forall (λ x, 0 <= x < npos)%Z xs ->
  exists d, (b ← foldM (λ x b, builder_push b x) xs (builder_new expected); builder_finalize b)
      = Some d /\ wf d /\ forall x, x ∈ d <-> x ∈ xs.
Proof.
  intros Hs Hx. destruct (builder_push_list True xs (builder_new expected) []
    (length (flat expected) / max_size) 0) as
    (b & L & hi & -> & (Hb & Hok & Hbnd) & Hhi & _ & _ & Hmem); [apply pushed_new|done..|]. mrun.
  destruct (builder_finalize_spec True b L _ Hb) as (d & -> & Hf & _ & Hwf).
  { split; [done|]. eapply bounded_weaken; [|exact Hbnd]. unfold npos in *. lia. }
  exists d. split_and!; [done|by apply Hwf|]. intros x. rewrite elem_of_flat, Hf, Hmem, mem_nil. tauto.
Qed.

End build.
