(* ===== verification/IndexSetMerge.v ===== *)
(** * Correctness of the merging operations of index sets

    [erase_at_all], [insert_at_all] and [shift_for_insert_at_all] walk two sets
    in step and rebuild the result with a builder. Each merge is first related
    to a pure function on sorted lists, then to the members of the sets. *)

From S2P Require Import Prelude ChunkedRangeVector ChunkedFacts ChunkedOps IndexSet LoopFacts IndexSetFacts.
From S2P Require Import IndexSetWalk.

(** ** Ranks in sorted lists *)

(** The number of elements below [x]. *)
Fixpoint cnt (l : list Z) (x : Z) : Z :=
  match l with
  | [] => 0
  | y :: l => (if decide (y < x)%Z then 1 else 0) + cnt l x
  end.

Lemma cnt_bounds l x : (0 <= cnt l x <= Z.of_nat (length l))%Z.
Proof. induction l as [|y l IH]; simpl; [lia|]. destruct (decide _); lia. Qed.

Lemma cnt_filter l x : cnt l x = Z.of_nat (length (filter (λ y, y < x)%Z l)).
Proof. induction l as [|y l IH]; [done|]. rewrite filter_cons. simpl. repeat case_decide; simpl; lia. Qed.

Lemma cnt_zero l x : Forall (λ y, x <= y)%Z l -> cnt l x = 0%Z.
Proof. induction 1; simpl; [done|]. rewrite decide_False by lia. lia. Qed.

Lemma cnt_app l1 l2 x : cnt (l1 ++ l2) x = (cnt l1 x + cnt l2 x)%Z.
Proof. induction l1; simpl; lia. Qed.

Lemma cnt_seqZ a n x : cnt (seqZ a n) x = Z.max 0 (Z.min (a + n) x - a).
Proof.
  destruct (decide (0 <= n)%Z) as [Hn|]; [|rewrite seqZ_nil by lia; simpl; lia].
  revert a. pattern n. apply natlike_ind; [intros a; simpl; lia| |done].
  clear n Hn. intros n Hn IH a. rewrite seqZ_cons, Z.pred_succ by lia.
  cbn [cnt]. rewrite IH. destruct (decide _); lia.
Qed.

Lemma cnt_elems L x : ok_from 0 L -> cnt (elems L) x = below x L.
Proof.
  generalize 0%Z. induction L as [|r L IH]; intros lo; [done|]. intros (_ & Hr & Hok).
  rewrite elems_cons, cnt_app, cnt_seqZ, (IH _ Hok). cbn [below]. unfold below_range. lia.
Qed.

Lemma cnt_lt l x y : StronglySorted Z.lt l -> (x < y)%Z -> x ∉ l ->
  (x - cnt l x < y - cnt l y)%Z.
Proof.
  intros Hs Hxy. induction l as [|z l IH]; intros Hnot; simpl; [lia|].
  apply StronglySorted_cons in Hs as [Hz Hs]. apply not_elem_of_cons in Hnot as [? Hnot].
  specialize (IH Hs Hnot). destruct (decide (z < x)%Z); [rewrite decide_True by lia; lia|].
  destruct (decide (z < y)%Z); [|lia].
  (* between [x] and [y]: count against the distance *)
  rewrite (cnt_zero l x) by (eapply Forall_impl; [exact Hz|]; simpl; lia).
  assert (forall l z, StronglySorted Z.lt l -> Forall (Z.lt z) l -> (z < y)%Z ->
    (cnt l y <= y - z - 1)%Z) as Hgap.
  { clear. intros l. induction l as [|a l IH]; intros z Hs Hz Hlt; simpl; [lia|].
    apply StronglySorted_cons in Hs as [Ha Hs]. apply Forall_cons in Hz as [? Hz].
    destruct (decide (a < y)%Z); [specialize (IH a Hs Ha ltac:(lia)); lia|].
    rewrite cnt_zero; [lia|]. eapply Forall_impl; [exact Ha|]. simpl. lia. }
  specialize (Hgap l z Hs Hz ltac:(lia)). lia.
Qed.

Lemma cnt_inj l x y : StronglySorted Z.lt l -> x ∉ l -> y ∉ l ->
  (x - cnt l x = y - cnt l y)%Z -> x = y.
Proof.
  intros Hs Hx Hy Heq. destruct (Z.lt_trichotomy x y) as [?|[?|?]]; [|done|].
  - pose proof (cnt_lt l x y Hs ltac:(lia) Hx). lia.
  - pose proof (cnt_lt l y x Hs ltac:(lia) Hy). lia.
Qed.

(** ** The merges on lists *)

Fixpoint erase_list (l1 : list Z) : list Z -> Z -> list Z :=
  fix inner (l2 : list Z) (s : Z) :=
    match l1, l2 with
    | x :: l1', y :: l2' =>
        if decide (x < y)%Z then (x - s)%Z :: erase_list l1' l2 s
        else if decide (x = y) then erase_list l1' l2' (s + 1)
        else inner l2' (s + 1)%Z
    | _, _ => (λ x, x - s)%Z <$> l1
    end.

Fixpoint shift_list (l1 : list Z) : list Z -> Z -> list Z :=
  fix inner (l2 : list Z) (s : Z) :=
    match l1, l2 with
    | x :: l1', y :: l2' =>
        if decide (x + s < y)%Z then (x + s)%Z :: shift_list l1' l2 s
        else inner l2' (s + 1)%Z
    | _, _ => (λ x, x + s)%Z <$> l1
    end.

Fixpoint insert_list (l1 : list Z) : list Z -> Z -> list Z :=
  fix inner (l2 : list Z) (s : Z) :=
    match l1, l2 with
    | x :: l1', y :: l2' =>
        if decide (x + s < y)%Z then (x + s)%Z :: insert_list l1' l2 s
        else y :: inner l2' (s + 1)%Z
    | _, _ => ((λ x, x + s)%Z <$> l1) ++ l2
    end.

Ltac merge_ind l1 l2 x y IH1 IH2 :=
  intros l1; induction l1 as [|x l1 IH1]; intros l2; induction l2 as [|y l2 IH2].

Section merge_push.
Context `{Build}.

Abbreviation push_all := (foldM (λ x b, builder_push b x)).

Lemma foldM_fmap_push (f : Z -> Z) (g : Z -> Z) l : forall b, Forall (λ x, f x = g x) l ->
  foldM (λ x b, builder_push b (f x)) l b = push_all (g <$> l) b.
Proof.
  induction l as [|x l IH]; intros b Hl; [done|]. apply Forall_cons in Hl as [Hx Hl].
  cbn [foldM fmap list_fmap]. rewrite Hx. destruct (builder_push b _); [|done]. by apply IH.
Qed.

(** The lists a merge has still to visit start at or after [s]. *)
Definition from (s : Z) (l : list Z) : Prop := StronglySorted Z.lt l /\ Forall (Z.le s) l.

Lemma from_cons s x l : from s (x :: l) <-> (s <= x)%Z /\ from (x + 1) l.
Proof.
  unfold from. rewrite StronglySorted_cons, Forall_cons. split.
  - intros [[Hx Hs] [Hle _]]. split_and!; [done..|]. eapply Forall_impl; [exact Hx|]. simpl. lia.
  - intros (? & Hs & Hle). split_and!; [|done|done|]; eapply Forall_impl; try exact Hle; simpl; lia.
Qed.

Lemma from_weaken s s' l : (s' <= s)%Z -> from s l -> from s' l.
Proof. intros ? [? Hle]. split; [done|]. eapply Forall_impl; [exact Hle|]. simpl. lia. Qed.

Lemma from_bounds s l x : from s l -> x ∈ l -> (s <= x)%Z.
Proof. intros [_ Hle]. rewrite Forall_forall in Hle. apply Hle. Qed.

Lemma from_cnt s l x : from s l -> (x <= s)%Z -> cnt l x = 0%Z.
Proof. intros [_ Hle] ?. apply cnt_zero. eapply Forall_impl; [exact Hle|]. simpl. lia. Qed.

Lemma erase_merge_list : forall l1 l2 s b, from s l1 -> from s l2 -> (0 <= s)%Z ->
  Forall (λ x, x < 2 ^ 64)%Z l1 -> (s + Z.of_nat (length l2) < 2 ^ 64)%Z ->
  erase_merge l1 l2 s b = push_all (erase_list l1 l2 s) b.
Proof.
  assert (forall l1 s b, from s l1 -> (0 <= s)%Z -> Forall (λ x, x < 2 ^ 64)%Z l1 ->
    foldM (λ x b, builder_push b (x -! s)) l1 b = push_all ((λ x, x - s)%Z <$> l1) b) as Hrest.
  { intros l1 s b [_ Hle] Hs Hhi. apply foldM_fmap_push, Forall_forall. intros x Hx.
    rewrite Forall_forall in Hle, Hhi. specialize (Hle x Hx). specialize (Hhi x Hx).
    simpl in *. by u64_drop. }
  merge_ind l1 l2 x y IH1 IH2; intros s b H1 H2 Hs Hhi Hlen;
    [by apply (Hrest [])..|by apply Hrest|].
  pose proof H1 as H1'. pose proof H2 as H2'.
  apply from_cons in H1 as [Hx H1], H2 as [Hy H2].
  pose proof Hhi as Hhi'. apply Forall_cons in Hhi as [Hx2 Hhi]. cbn [length] in Hlen.
  cbn [erase_merge erase_list]. destruct (decide (x < y)%Z).
  - rewrite bool_decide_true by done. rewrite u64_small by lia. cbn [foldM].
    destruct (builder_push b _); [|done]. mrun. apply IH1; [|done..|simpl; lia].
    eapply from_weaken, H1. lia.
  - rewrite bool_decide_false by done. rewrite (u64_small (s + 1)) by lia.
    destruct (decide (x = y)) as [->|].
    + rewrite bool_decide_true by done. apply IH1; [..|lia|done|lia]; eapply from_weaken; eauto; lia.
    + rewrite bool_decide_false by done. apply IH2; [|..|lia|done|lia].
      * apply from_cons. split; [lia|]. done.
      * eapply from_weaken; [|exact H2]. lia.
Qed.

Lemma shift_merge_list : forall l1 l2 s b, (0 <= s)%Z -> 
  Forall (λ x, 0 <= x /\ x + s + Z.of_nat (length l2) < 2 ^ 64)%Z l1 -> 
  shift_merge l1 l2 s b = push_all (shift_list l1 l2 s) b.
Proof.
  assert (forall l1 s n b, (0 <= s)%Z -> (0 <= n)%Z -> Forall (λ x, 0 <= x /\ x + s + n < 2 ^ 64)%Z l1 ->
    foldM (λ x b, builder_push b (x +! s)) l1 b = push_all ((λ x, x + s)%Z <$> l1) b) as Hrest.
  { intros l1 s n b Hs Hn Hhi. apply foldM_fmap_push. eapply Forall_impl; [exact Hhi|].
    simpl. intros x Hx. by u64_drop. }
  merge_ind l1 l2 x y IH1 IH2; intros s b Hs Hhi;
    [by apply (Hrest [] _ 0%Z)..|by apply (Hrest _ _ 0%Z)|].
  pose proof Hhi as Hhi'. apply Forall_cons in Hhi as [Hx Hhi]. cbn [length] in Hx, Hhi.
  cbn [shift_merge shift_list]. rewrite (u64_small (x + s)), (u64_small (s + 1)) by lia.
  destruct (decide (x + s < y)%Z).
  - rewrite bool_decide_true by done. cbn [foldM].
    destruct (builder_push b _); [|done]. mrun. by apply IH1.
  - rewrite bool_decide_false by done. apply IH2; [lia|].
    eapply Forall_impl; [exact Hhi'|]. cbn [length]. lia.
Qed.

Lemma insert_merge_list : forall l1 l2 s b, (0 <= s)%Z -> 
  Forall (λ x, 0 <= x /\ x + s + Z.of_nat (length l2) < 2 ^ 64)%Z l1 -> 
  insert_merge l1 l2 s b = push_all (insert_list l1 l2 s) b.
Proof.
  assert (forall l1 l2 s n b, (0 <= s)%Z -> (0 <= n)%Z -> Forall (λ x, 0 <= x /\ x + s + n < 2 ^ 64)%Z l1 ->
    (b ← foldM (λ x b, builder_push b (x +! s)) l1 b; push_all l2 b)
    = push_all (((λ x, x + s)%Z <$> l1) ++ l2) b) as Hrest.
  { intros l1 l2 s n b Hs Hn Hhi. rewrite foldM_app. f_equal. apply foldM_fmap_push.
    eapply Forall_impl; [exact Hhi|]. simpl. intros x Hx. by u64_drop. }
  merge_ind l1 l2 x y IH1 IH2; intros s b Hs Hhi;
    [by apply (Hrest [] _ _ 0%Z)..|by apply (Hrest _ _ _ 0%Z)|].
  pose proof Hhi as Hhi'. apply Forall_cons in Hhi as [Hx Hhi]. cbn [length] in Hx, Hhi.
  cbn [insert_merge insert_list]. rewrite (u64_small (x + s)), (u64_small (s + 1)) by lia.
  destruct (decide (x + s < y)%Z).
  - rewrite bool_decide_true by done. cbn [foldM].
    destruct (builder_push b _); [|done]. mrun. by apply IH1.
  - rewrite bool_decide_false by done. cbn [foldM].
    destruct (builder_push b _); [|done]. mrun. apply IH2; [lia|].
    eapply Forall_impl; [exact Hhi'|]. cbn [length]. lia.
Qed.
End merge_push.

(** ** The lists, element by element *)

Lemma erase_list_elem : forall l1 l2 s z, from s l1 -> from s l2 ->
  z ∈ erase_list l1 l2 s <-> exists x, x ∈ l1 /\ (x ∉ l2) /\ z = (x - s - cnt l2 x)%Z.
Proof.
  assert (forall (l1 : list Z) s z, z ∈ ((λ x, x - s)%Z <$> l1) <->
    exists x, x ∈ l1 /\ (x ∉ @nil Z) /\ z = (x - s - cnt [] x)%Z) as Hrest.
  { intros l1 s z. rewrite list_elem_of_fmap. simpl. split.
    - intros (x & -> & Hx). exists x. split_and!; [done|apply not_elem_of_nil|lia].
    - intros (x & Hx & _ & ->). exists x. split; [lia|done]. }
  merge_ind l1 l2 x y IH1 IH2; intros s z H1 H2; [by apply (Hrest [])| |by apply Hrest|].
  { cbn [erase_list]. split; [by intros Hz%elem_of_nil|]. intros (x & Hx%elem_of_nil & _). done. }
  pose proof H1 as H1'. pose proof H2 as H2'. apply from_cons in H1 as [Hx H1], H2 as [Hy H2].
  cbn [erase_list]. destruct (decide (x < y)%Z); [|destruct (decide (x = y)) as [->|]].
  - rewrite elem_of_cons, IH1; [|by eapply from_weaken, H1; lia|done].
    setoid_rewrite elem_of_cons at 2. split.
    + intros [->|(x' & ? & ? & ->)]; [|exists x'; by auto]. exists x. split_and!; [by left| |].
      * intros Hin%(from_bounds y); [lia|]. apply from_cons. done.
      * rewrite (from_cnt y); [lia| |lia]. by apply from_cons.
    + intros (x' & [->|?] & Hnot & ->); [left|right; by exists x'].
      rewrite (from_cnt y); [lia| |lia]. by apply from_cons.
  - rewrite IH1; [|by eapply from_weaken, H1; lia|by eapply from_weaken, H2; lia]. split.
    + intros (x' & Hx' & Hnot & ->). pose proof (from_bounds _ _ _ H1 Hx'). exists x'.
      rewrite elem_of_cons, not_elem_of_cons. split_and!; [by right|lia|done|].
      cbn [cnt]. rewrite decide_True by lia. lia.
    + intros (x' & Hx' & Hnot & ->). apply not_elem_of_cons in Hnot as [? Hnot].
      apply elem_of_cons in Hx' as [|Hx']; [done|]. pose proof (from_bounds _ _ _ H1 Hx').
      exists x'. split_and!; [done..|]. cbn [cnt]. rewrite decide_True by lia. lia.
  - assert (from (y + 1) (x :: l1)) as H1y by (apply from_cons; split; [lia|done]).
    assert (forall x', x' ∈ x :: l1 -> (y < x')%Z) as Hlt.
    { intros x' Hx'. pose proof (from_bounds _ _ _ H1y Hx'). lia. }
    rewrite IH2; [|by eapply from_weaken, H1y; lia|by eapply from_weaken, H2; lia].
    setoid_rewrite not_elem_of_cons. cbn [cnt].
    split; intros (x' & Hx' & Hnot & ->); specialize (Hlt x' Hx'); exists x'.
    + rewrite decide_True by lia. split_and!; [done|lia|done|lia].
    + rewrite decide_True by lia. split_and!; [done|tauto|lia].
Qed.

Lemma shift_list_elem : forall l1 l2 s z, StronglySorted Z.lt l1 -> StronglySorted Z.lt l2 ->
  z ∈ shift_list l1 l2 s <-> (z ∉ l2) /\ (z - s - cnt l2 z)%Z ∈ l1.
Proof.
  assert (forall (l1 : list Z) s z, z ∈ ((λ x, x + s)%Z <$> l1) <-> (z - s)%Z ∈ l1) as Hrest.
  { intros l1 s z. rewrite list_elem_of_fmap. split.
    - intros (x & -> & Hx). by replace (x + s - s)%Z with x by lia.
    - intros Hx. exists (z - s)%Z. split; [lia|done]. }
  merge_ind l1 l2 x y IH1 IH2; intros s z H1 H2.
  1, 3: cbn [cnt]; rewrite Z.sub_0_r; cbn [shift_list]; rewrite Hrest; split; [|by intros [_ ?]];
    intros; split; [apply not_elem_of_nil|done].
  { cbn [shift_list]. split; [by intros Hz%elem_of_nil|]. by intros [_ Hz%elem_of_nil]. }
  pose proof H1 as H1'. pose proof H2 as H2'.
  apply StronglySorted_cons in H1 as [Hx H1], H2 as [Hy H2].
  assert (forall z, (z <= y)%Z -> cnt l2 z = 0%Z) as Hc0.
  { intros z' Hz'. apply cnt_zero. eapply Forall_impl; [exact Hy|]. simpl. lia. }
  rewrite Forall_forall in Hx, Hy.
  cbn [shift_list]. destruct (decide (x + s < y)%Z).
  - assert (x + s ∉ y :: l2)%Z as Hnot.
    { intros [?|Hin]%elem_of_cons; [lia|]. specialize (Hy _ Hin). lia. }
    assert (cnt (y :: l2) (x + s) = 0)%Z as Hc.
    { cbn [cnt]. rewrite decide_False, Hc0 by lia. lia. }
    rewrite !elem_of_cons, IH1, elem_of_cons by done. split.
    + intros [->|[Hn ?]]; [|by auto]. rewrite Hc. split; [by rewrite <-elem_of_cons|left; lia].
    + intros [Hn [Heq|?]]; [left|by right].
      apply (cnt_inj (y :: l2)); [done|by rewrite elem_of_cons|done|]. lia.
  - rewrite IH2 by done. rewrite not_elem_of_cons. cbn [cnt].
    assert (forall w, w ∈ x :: l1 -> (y <= w + s)%Z) as Hlow.
    { intros w [->|Hw]%elem_of_cons; [lia|]. specialize (Hx _ Hw). lia. }
    destruct (decide (y < z)%Z).
    + replace (z - s - (1 + cnt l2 z))%Z with (z - (s + 1) - cnt l2 z)%Z by lia.
      split; [intros [? ?]; split_and!; [lia|done..]|tauto].
    + rewrite Hc0 by lia. split; intros [Hz Hin]; specialize (Hlow _ Hin); [lia|].
      destruct Hz as [? Hz]. lia.
Qed.

Lemma insert_list_elem : forall l1 l2 s z, StronglySorted Z.lt l1 -> StronglySorted Z.lt l2 ->
  z ∈ insert_list l1 l2 s <-> z ∈ l2 \/ z ∈ shift_list l1 l2 s.
Proof.
  merge_ind l1 l2 x y IH1 IH2; intros s z H1 H2; cbn [insert_list shift_list].
  - rewrite elem_of_app, !elem_of_nil. tauto.
  - rewrite elem_of_app. tauto.
  - rewrite elem_of_app. tauto.
  - pose proof H1 as H1'. pose proof H2 as H2'.
    apply StronglySorted_cons in H1 as [Hx H1], H2 as [Hy H2].
    destruct (decide (x + s < y)%Z).
    + rewrite !elem_of_cons, IH1 by done. rewrite elem_of_cons. tauto.
    + rewrite !elem_of_cons, IH2 by done. tauto.
Qed.

(** ** Order of the results *)

(** An element below every element of a sorted list. *)
Lemma sorted_cons_below z (l : list Z) : StronglySorted Z.lt l ->
  (forall w, w ∈ l -> (z < w)%Z) -> StronglySorted Z.lt (z :: l).
Proof. intros Hs Hw. apply StronglySorted_cons. split; [|done]. by apply Forall_forall. Qed.

Lemma fmap_sorted (f : Z -> Z) l : (forall x y, (x < y)%Z -> (f x < f y)%Z) ->
  StronglySorted Z.lt l -> StronglySorted Z.lt (f <$> l).
Proof. intros Hf. by apply StronglySorted_fmap. Qed.

Lemma erase_list_sorted : forall l1 l2 s, from s l1 -> from s l2 ->
  StronglySorted Z.lt (erase_list l1 l2 s).
Proof.
  merge_ind l1 l2 x y IH1 IH2; intros s H1 H2;
    [constructor|constructor|by apply fmap_sorted; [lia|apply H1]|].
  pose proof H1 as H1'. pose proof H2 as H2'. apply from_cons in H1 as [Hx H1], H2 as [Hy H2].
  cbn [erase_list]. destruct (decide (x < y)%Z); [|destruct (decide (x = y)) as [->|]].
  - apply (sorted_cons_below (x - s)); [by apply IH1; [eapply from_weaken, H1; lia|]|].
    intros w (x' & Hx' & Hnot & ->)%erase_list_elem; [|by eapply from_weaken, H1; lia|done].
    pose proof (from_bounds _ _ _ H1 Hx').
    pose proof (cnt_lt (y :: l2) x x' (proj1 H2') ltac:(lia)) as Hlt.
    rewrite (from_cnt y (y :: l2) x) in Hlt; [|by apply from_cons|lia].
    assert (x ∉ y :: l2) as Hx0; [|specialize (Hlt Hx0); lia].
    intros Hin%(from_bounds y); [lia|]. by apply from_cons.
  - apply IH1; [eapply from_weaken, H1|eapply from_weaken, H2]; lia.
  - apply IH2; [apply from_cons; split; [lia|done]|eapply from_weaken, H2; lia].
Qed.

Lemma shift_list_low l1 l2 s x w : StronglySorted Z.lt l1 -> StronglySorted Z.lt l2 ->
  Forall (Z.lt x) l1 -> Forall (Z.lt (x + s)) l2 -> w ∈ shift_list l1 l2 s -> (x + s < w)%Z.
Proof.
  intros H1 H2 Hx Hy Hw. apply shift_list_elem in Hw as [_ Hin]; [|done..].
  rewrite Forall_forall in Hx. specialize (Hx _ Hin). pose proof (cnt_bounds l2 w). lia.
Qed.

Lemma shift_list_sorted : forall l1 l2 s, StronglySorted Z.lt l1 -> StronglySorted Z.lt l2 ->
  StronglySorted Z.lt (shift_list l1 l2 s).
Proof.
  merge_ind l1 l2 x y IH1 IH2; intros s H1 H2; [constructor|constructor|by apply fmap_sorted; [lia|]|].
  pose proof H1 as H1'. pose proof H2 as H2'.
  apply StronglySorted_cons in H1 as [Hx H1], H2 as [Hy H2].
  cbn [shift_list]. destruct (decide (x + s < y)%Z); [|by apply IH2].
  apply (sorted_cons_below (x + s)); [by apply IH1|].
  intros w. apply shift_list_low; [done..|]. constructor; [lia|].
  eapply Forall_impl; [exact Hy|]. simpl. lia.
Qed.

Lemma insert_list_sorted : forall l1 l2 s, StronglySorted Z.lt l1 -> StronglySorted Z.lt l2 ->
  StronglySorted Z.lt (insert_list l1 l2 s).
Proof.
  merge_ind l1 l2 x y IH1 IH2; intros s H1 H2; cbn [insert_list]; [constructor|done|..].
  { rewrite app_nil_r. by apply fmap_sorted; [lia|]. }
  pose proof H1 as H1'. pose proof H2 as H2'.
  apply StronglySorted_cons in H1 as [Hx H1], H2 as [Hy H2].
  destruct (decide (x + s < y)%Z).
  - apply (sorted_cons_below (x + s)); [by apply IH1|].
    assert (Forall (Z.lt (x + s)) (y :: l2)) as Hlow.
    { constructor; [lia|]. eapply Forall_impl; [exact Hy|]. simpl. lia. }
    intros w [Hw|Hw]%insert_list_elem; [..|done|done]; [by rewrite Forall_forall in Hlow; apply Hlow|].
    by eapply shift_list_low, Hw.
  - apply (sorted_cons_below y); [by apply IH2|].
    intros w Hw. change (w ∈ insert_list (x :: l1) l2 (s + 1)%Z) in Hw.
    apply insert_list_elem in Hw as [Hw|Hw]; [..|done|done]; [by rewrite Forall_forall in Hy; apply Hy|].
    apply shift_list_elem in Hw as [_ Hin]; [|done..]. pose proof (cnt_bounds l2 w).
    apply elem_of_cons in Hin as [|Hin]; [lia|]. rewrite Forall_forall in Hx.
    specialize (Hx _ Hin). lia.
Qed.

(** ** The merging operations *)

Section merge_ops.
Context `{Build}.

Lemma from_elems (d : IndexSet) : wf d -> from 0 (elems (flat d)).
Proof.
  intros Hwf. pose proof Hwf as [_ [Hok _]]. split; [by eapply elems_sorted|].
  apply Forall_forall. intros x Hx%elem_of_elems. apply (elem_of_bounds x d) in Hx; [lia|done].
Qed.

Lemma elems_bounds (d : IndexSet) : wf d -> Forall (λ x, 0 <= x < npos)%Z (elems (flat d)).
Proof. intros Hwf. apply Forall_forall. intros x Hx%elem_of_elems. by apply (elem_of_bounds x d). Qed.

Lemma length_elems_flat (d : IndexSet) : wf d -> Z.of_nat (length (elems (flat d))) = total (flat d).
Proof. intros [_ [Hok _]]. by eapply length_elems. Qed.

(** [erase_at(IndexSet const&)]: the members not erased, each moved down by the
    number of erased positions before it. *)
Lemma erase_at_all_spec (d positions : IndexSet) : wf d -> wf positions ->
  exists d', erase_at_all d positions = Some d' /\ wf d'
    /\ forall y, y ∈ d' <-> exists x, x ∈ d /\ (x ∉ positions) /\ y = (x - below x (flat positions))%Z.
Proof.
  intros Hd Hp. unfold erase_at_all.
  assert (forall y, y ∈ erase_list (elems (flat d)) (elems (flat positions)) 0 <->
    exists x, x ∈ d /\ (x ∉ positions) /\ y = (x - below x (flat positions))%Z) as Helem.
  { intros y. rewrite erase_list_elem by by apply from_elems.
    setoid_rewrite elem_of_elems. setoid_rewrite cnt_elems; [|apply Hp].
    split; intros (x & Hx & Hn & ->); exists x; (split_and!; [done|done|lia]). }
  case_bool_decide as Hd0; [|case_bool_decide as Hp0]; cbn [orb].
  - subst d. exists []. split_and!; [done..|]. intros y. rewrite elem_of_flat, mem_nil.
    split; [done|]. intros (x & Hx & _). by apply mem_nil in Hx.
  - subst positions. exists d. split_and!; [done..|]. intros y. split.
    + intros Hy. exists y. split_and!; [done|by intros Hy0%mem_nil|simpl; lia].
    + intros (x & Hx & _ & ->). simpl. by rewrite Z.sub_0_r.
  - rewrite !as_indexes_spec by done. mrun. pose proof (elems_bounds d Hd) as Hb.
    pose proof (wf_total positions Hp). pose proof (length_elems_flat positions Hp). unfold npos in *.
    rewrite erase_merge_list; [|by apply from_elems|by apply from_elems|lia| |lia].
    2:{ eapply Forall_impl; [exact Hb|]. simpl. lia. }
    destruct (build_spec d (erase_list (elems (flat d)) (elems (flat positions)) 0))
      as (d' & -> & Hwf' & Hmem).
    + by apply erase_list_sorted; apply from_elems.
    + apply Forall_forall. intros y (x & Hx & Hn & ->)%Helem.
      apply (elem_of_bounds x d Hd) in Hx. pose proof (below_nonneg x (flat positions)).
      pose proof Hp as [_ [Hok _]]. pose proof (below_mono 0 (flat positions) 0 x Hok ltac:(lia)) as Hm.
      rewrite (below_lo 0 0) in Hm by (done || lia). lia.
    + exists d'. split_and!; [done..|]. intros y. by rewrite Hmem.
Qed.

(** The members of the result of a shift past [values]. *)
Definition shifted_elem (d values : IndexSet) (y : Z) : Prop :=
  (y ∉ values) /\ mem (y - below y (flat values)) (flat d).

Lemma shift_list_elems (d values : IndexSet) y : wf d -> wf values ->
  y ∈ shift_list (elems (flat d)) (elems (flat values)) 0 <-> shifted_elem d values y.
Proof.
  intros Hd Hv. rewrite shift_list_elem by (by apply from_elems).
  unfold shifted_elem. rewrite !elem_of_elems, cnt_elems by apply Hv. by rewrite Z.sub_0_r.
Qed.

Lemma shifted_elem_bounds (d values : IndexSet) y : wf d -> wf values ->
  bounded (npos - total (flat values)) (flat d) -> shifted_elem d values y -> (0 <= y < npos)%Z.
Proof.
  intros Hd Hv Hb [_ Hin]. pose proof Hd as [_ [Hok _]]. pose proof (mem_lo _ _ _ Hok Hin).
  pose proof (mem_bounded _ _ _ Hb Hin). pose proof (length_elems_flat values Hv).
  pose proof (cnt_bounds (elems (flat values)) y) as Hc. rewrite cnt_elems in Hc by apply Hv. lia.
Qed.

Lemma shift_bounds (d values : IndexSet) : wf d -> wf values ->
  bounded (npos - total (flat values)) (flat d) ->
  Forall (λ x, 0 <= x /\ x + 0 + Z.of_nat (length (elems (flat values))) < 2 ^ 64)%Z (elems (flat d)).
Proof.
  intros Hd Hv Hb. apply Forall_forall. intros x Hx%elem_of_elems.
  pose proof (elem_of_bounds x d Hd Hx). pose proof (mem_bounded _ _ _ Hb Hx).
  rewrite length_elems_flat by done. unfold npos in *. lia.
Qed.

(** [insert_at(IndexSet const&)]: the positions, and the members moved past
    them. *)
Lemma insert_at_all_spec (d positions : IndexSet) : wf d -> wf positions ->
  bounded (npos - total (flat positions)) (flat d) ->
  exists d', insert_at_all d positions = Some d' /\ wf d'
    /\ forall y, y ∈ d' <-> y ∈ positions \/ shifted_elem d positions y.
Proof.
  intros Hd Hp Hb. unfold insert_at_all. case_bool_decide as Hp0; [|case_bool_decide as Hd0].
  - subst positions. exists d. split_and!; [done..|]. intros y. unfold shifted_elem. simpl.
    rewrite Z.sub_0_r, !elem_of_flat, mem_nil. tauto.
  - subst d. exists positions. split_and!; [done..|]. intros y. unfold shifted_elem.
    rewrite mem_nil. tauto.
  - rewrite !as_indexes_spec by done. mrun.
    rewrite insert_merge_list by (done || by apply shift_bounds).
    destruct (build_spec d (insert_list (elems (flat d)) (elems (flat positions)) 0))
      as (d' & -> & Hwf' & Hmem).
    + by apply insert_list_sorted; apply from_elems.
    + apply Forall_forall. intros y [Hy|Hy]%insert_list_elem; try by apply from_elems.
      * apply elem_of_elems in Hy. by apply (elem_of_bounds y positions).
      * apply shift_list_elems in Hy; [|done..]. by eapply shifted_elem_bounds, Hy.
    + exists d'. split_and!; [done..|]. intros y. rewrite Hmem, insert_list_elem by (by apply from_elems).
      by rewrite shift_list_elems, elem_of_elems by done.
Qed.

(** When every member lies before the values nothing moves. *)
Lemma shifted_elem_before (d values : IndexSet) lo hi y : wf values ->
  ok_from lo (flat values) -> bounded hi (flat d) -> (hi <= lo)%Z ->
  y ∈ d <-> shifted_elem d values y.
Proof.
  intros [_ [Hokv _]] Hok Hb Hle. unfold shifted_elem.
  destruct (decide (y <= lo)%Z).
  - rewrite (below_lo lo) by done. rewrite Z.sub_0_r, elem_of_flat. split; [|tauto].
    intros Hy. split; [|done]. intros Hv. pose proof (mem_lo _ _ _ Hok Hv).
    pose proof (mem_bounded _ _ _ Hb Hy). lia.
  - pose proof (below_mono lo _ lo y Hok ltac:(lia)) as Hm. rewrite (below_lo lo _ _ Hok) in Hm by lia.
    split; [intros Hy; pose proof (mem_bounded _ _ _ Hb Hy); lia|].
    intros [_ Hy]. pose proof (mem_bounded _ _ _ Hb Hy). lia.
Qed.

(** [shift_for_insert_at(IndexSet const&)]: the members, moved past the values. *)
Lemma shift_for_insert_at_all_spec (d values : IndexSet) : wf d -> wf values ->
  bounded (npos - total (flat values)) (flat d) ->
  exists d', shift_for_insert_at_all d values = Some d' /\ wf d'
    /\ forall y, y ∈ d' <-> shifted_elem d values y.
Proof.
  intros Hd Hv Hb. unfold shift_for_insert_at_all.
  destruct values as [|v vs] eqn:Ev.
  { exists d. split_and!; [done..|]. intros y. unfold shifted_elem. simpl.
    rewrite Z.sub_0_r, !elem_of_flat, mem_nil. tauto. }
  rewrite <-Ev in *. destruct (last d) as [c|] eqn:Hc.
  2:{ apply last_None in Hc. subst d. exists []. split_and!; [done..|]. intros y.
      unfold shifted_elem. rewrite mem_nil. rewrite elem_of_flat, mem_nil. tauto. }
  case_bool_decide as Hend.
  - exists d. split_and!; [done..|]. intros y.
    apply last_Some in Hc as [dp ->]. pose proof Hd as [[_ [Hcok _]%Forall_cons]%Forall_app [Hok _]].
    pose proof Hv as [Hvs [Hvok _]]. rewrite Ev in Hvs, Hvok.
    apply Forall_cons in Hvs as [Hvc _].
    destruct (chunk_last_range c Hcok) as (r & Hr & Hce).
    destruct (chunk_fields v Hvc) as (Hvb & _ & _).
    pose proof (chunk_ok_ne v Hvc) as Hvne.
    destruct (chunk_data v) as [|r0 l0] eqn:Hvd; [done|]. simpl in Hvb.
    apply (shifted_elem_before _ _ r0.1 r.2); [done| | |lia].
    + rewrite Ev, flat_cons, Hvd in *. simpl in Hvok |- *. intuition lia.
    + assert (last (flat (dp ++ [c])) = Some r) as Hlast.
      { rewrite flat_app. unfold flat at 2. simpl. by rewrite app_nil_r, last_app, Hr. }
      pose proof (next_lo_last 0 _ _ Hlast) as Hn. eapply bounded_weaken, ok_from_bounded, Hok. lia.
  - rewrite !as_indexes_spec by done. mrun.
    rewrite shift_merge_list by (done || by apply shift_bounds).
    destruct (build_spec d (shift_list (elems (flat d)) (elems (flat values)) 0))
      as (d' & -> & Hwf' & Hmem).
    + by apply shift_list_sorted; apply from_elems.
    + apply Forall_forall. intros y Hy. apply shift_list_elems in Hy; [|done..].
      by eapply shifted_elem_bounds, Hy.
    + exists d'. split_and!; [done..|]. intros y. by rewrite Hmem, shift_list_elems.
Qed.

End merge_ops.
