(* ===== verification/CorrFacts.v ===== *)
(** * The correspondence described by deletions and insertions

    A pair of index sets, the deletions from an old collection and the
    insertions into a new one, determines which old index is which new index:
    the only order-preserving bijection between what was not deleted and what
    was not inserted. *)

From S2P Require Import Prelude ChunkedRangeVector ChunkedFacts IndexSetEdits.

(** The number of indices below [x] outside [L]. *)
Definition rank (L : list range) (x : Z) : Z := (x - below x L)%Z.

(** Old index [x] and new index [y] are the same element. *)
Definition corr (D I : list range) (x y : Z) : Prop :=
  (0 <= x)%Z /\ (0 <= y)%Z /\ ~ mem x D /\ ~ mem y I /\ rank D x = rank I y.

Section rank.
Context (L : list range) (Hok : ok_from 0 L).

#[local] Set Default Proof Using "Hok".

Lemma rank_0 : rank L 0 = 0%Z.
Proof. unfold rank. rewrite (below_lo 0); done. Qed.

Lemma rank_S x : rank L (x + 1) = (rank L x + if decide (mem x L) then 0 else 1)%Z.
Proof. unfold rank. rewrite (below_S x L 0) by done. destruct (decide _); lia. Qed.

Lemma rank_mono x y : (x <= y)%Z -> (rank L x <= rank L y)%Z.
Proof. intros Hle. unfold rank. pose proof (below_mono 0 L x y Hok Hle). lia. Qed.

Lemma rank_lt x y : (x < y)%Z -> ~ mem x L -> (rank L x < rank L y)%Z.
Proof.
  intros Hlt Hx. pose proof (rank_S x) as HS. rewrite decide_False in HS by done.
  pose proof (rank_mono (x + 1) y ltac:(lia)). lia.
Qed.

Lemma rank_eq x y : ~ mem x L -> ~ mem y L -> rank L x = rank L y -> x = y.
Proof.
  intros Hx Hy Heq. destruct (Z.lt_trichotomy x y) as [?|[?|?]]; [|done|].
  - pose proof (rank_lt x y ltac:(lia) Hx). lia.
  - pose proof (rank_lt y x ltac:(lia) Hy). lia.
Qed.

Lemma rank_lt_iff x y : ~ mem x L -> ~ mem y L -> (rank L x < rank L y)%Z <-> (x < y)%Z.
Proof.
  intros Hx Hy. split; [|intros; by apply rank_lt].
  intros Hlt. destruct (decide (x < y)%Z); [done|]. pose proof (rank_mono y x ltac:(lia)). lia.
Qed.

Lemma rank_nonneg x : (0 <= x)%Z -> (0 <= rank L x)%Z.
Proof. intros Hx. pose proof (rank_mono 0 x Hx) as Hm. by rewrite rank_0 in Hm. Qed.

Lemma rank_le x : (rank L x <= x)%Z.
Proof. unfold rank. pose proof (below_nonneg x L). lia. Qed.
End rank.

(** Every rank is taken. *)
Lemma rank_surj L lo n : ok_from lo L -> (0 <= n)%Z ->
  exists x, (n <= x)%Z /\ ~ mem x L /\ rank L x = n.
Proof.
  revert n lo. induction L as [|r L IH]; intros n lo; cbn [ok_from].
  { intros _ Hn. exists n. split_and!; [lia|by intros Hm%mem_nil|]. unfold rank. simpl. lia. }
  intros (Hlo & Hr & Hok) Hn. destruct (decide (n < r.1)%Z).
  - exists n. split_and!; [lia| |].
    + rewrite mem_cons. intros [?|Hm]; [lia|]. pose proof (mem_lo _ _ _ Hok Hm). lia.
    + unfold rank. cbn [below]. rewrite (below_lo (r.2 + 1)) by (done || lia). unfold below_range. lia.
  - destruct (IH (n + (r.2 - r.1))%Z _ Hok ltac:(lia)) as (x & Hx & Hnot & Hrank).
    exists x. split_and!; [lia| |].
    + rewrite mem_cons. intros [?|?]; [lia|done].
    + unfold rank in *. cbn [below]. unfold below_range. lia.
Qed.

(** ** The correspondence is an order isomorphism *)

Section corr.
Context (D I : list range) (HD : ok_from 0 D) (HI : ok_from 0 I).

#[local] Set Default Proof Using "HD HI".

Lemma corr_fun x y y' : corr D I x y -> corr D I x y' -> y = y'.
Proof. intros (_ & _ & _ & Hy & E) (_ & _ & _ & Hy' & E'). apply (rank_eq I); [done..|congruence]. Qed.

Lemma corr_inj x x' y : corr D I x y -> corr D I x' y -> x = x'.
Proof. intros (_ & _ & Hx & _ & E) (_ & _ & Hx' & _ & E'). apply (rank_eq D); [done..|congruence]. Qed.

Lemma corr_mono x x' y y' : corr D I x y -> corr D I x' y' -> (x < x')%Z <-> (y < y')%Z.
Proof.
  intros (_ & _ & Hx & Hy & E) (_ & _ & Hx' & Hy' & E').
  rewrite <-(rank_lt_iff D HD x x'), <-(rank_lt_iff I HI y y') by done. by rewrite E, E'.
Qed.

Lemma corr_total x : (0 <= x)%Z -> ~ mem x D -> exists y, corr D I x y.
Proof.
  intros Hx Hnot. destruct (rank_surj I 0 (rank D x) HI) as (y & Hy & Hynot & Heq).
  { by apply rank_nonneg. }
  exists y. pose proof (rank_nonneg D HD x Hx). split_and!; (done || lia).
Qed.

Lemma corr_surj y : (0 <= y)%Z -> ~ mem y I -> exists x, corr D I x y.
Proof.
  intros Hy Hnot. destruct (rank_surj D 0 (rank I y) HD) as (x & Hx & Hxnot & Heq).
  { by apply rank_nonneg. }
  exists x. pose proof (rank_nonneg I HI y Hy). split_and!; (done || lia).
Qed.

(** It is the only one: a relation that is an order isomorphism between the two
    complements is the correspondence. *)
Lemma corr_unique (R : Z -> Z -> Prop) :
  (forall x z, R x z -> (0 <= x)%Z /\ (0 <= z)%Z /\ ~ mem x D /\ ~ mem z I) ->
  (forall x, (0 <= x)%Z -> ~ mem x D -> exists z, R x z) ->
  (forall z, (0 <= z)%Z -> ~ mem z I -> exists x, R x z) ->
  (forall x x' z z', R x z -> R x' z' -> (x < x')%Z <-> (z < z')%Z) ->
  forall x z, R x z <-> corr D I x z.
Proof.
  intros Hdom Htot Hsurj Hmono.
  assert (forall x, (0 <= x)%Z -> forall z, R x z -> rank D x = rank I z) as Hrank.
  { intros x Hx. refine (Zlt_0_ind (λ x, forall z, R x z -> rank D x = rank I z) _ x Hx).
    clear x Hx. intros x IH Hx z HR. pose proof (Hdom _ _ HR) as (_ & Hz & Hxn & Hzn).
    destruct (Z.lt_trichotomy (rank D x) (rank I z)) as [Hlt|[?|Hlt]]; [exfalso|done|exfalso].
    - destruct (rank_surj I 0 (rank D x) HI) as (z' & Hz' & Hzn' & E); [by apply rank_nonneg|].
      pose proof (rank_nonneg D HD x Hx).
      destruct (Hsurj z') as [x' HR']; [lia|done|]. pose proof (Hdom _ _ HR') as (Hx' & _ & Hxn' & _).
      assert (z' < z)%Z as Hzz by (apply (rank_lt_iff I); [done..|lia]).
      apply (Hmono x' x z' z HR' HR) in Hzz. specialize (IH x' ltac:(lia) z' HR').
      assert (x' = x) by (apply (rank_eq D); [done..|lia]). lia.
    - destruct (rank_surj D 0 (rank I z) HD) as (x' & Hx' & Hxn' & E); [by apply rank_nonneg|].
      pose proof (rank_nonneg I HI z Hz).
      destruct (Htot x') as [z' HR']; [lia|done|]. pose proof (Hdom _ _ HR') as (_ & Hz' & _ & Hzn').
      assert (x' < x)%Z as Hxx by (apply (rank_lt_iff D); [done..|lia]).
      pose proof (proj1 (Hmono x' x z' z HR' HR) Hxx). specialize (IH x' ltac:(lia) z' HR').
      assert (z' = z) by (apply (rank_eq I); [done..|lia]). lia. }
  intros x z. split.
  - intros HR. pose proof (Hdom _ _ HR) as (? & ? & ? & ?). split_and!; [done..|by apply Hrank].
  - intros (Hx & Hz & Hxn & Hzn & Heq). destruct (Htot x Hx Hxn) as [z' HR].
    pose proof (Hdom _ _ HR) as (_ & _ & _ & Hzn').
    assert (z' = z) as <-; [|done]. apply (rank_eq I); [done..|]. rewrite <-Heq.
    symmetry. by apply Hrank.
Qed.
End corr.

(** With nothing deleted or inserted every index corresponds to itself. *)
Lemma corr_nil x y : corr [] [] x y <-> (0 <= x)%Z /\ x = y.
Proof.
  unfold corr, rank. simpl. rewrite !mem_nil. split; [intros (? & ? & _ & _ & ?); lia|].
  intros [? ->]. split_and!; (done || tauto || lia).
Qed.

(** ** How editing a collection changes its correspondence

    Erasing, inserting and composing change sets, as statements on the
    deletions, the insertions and the correspondence they describe. *)

(** Where an index goes when the element at [index] is erased, and when [cnt]
    elements are inserted at [index]. *)
Definition down (index y : Z) : Z := if decide (y < index)%Z then y else (y - 1)%Z.
Definition up (index cnt y : Z) : Z := if decide (y < index)%Z then y else (y + cnt)%Z.

Ltac split_up_down := unfold up, down in *; repeat case_decide.

(** [D'] is [D] with the element at the new index [index] deleted as well, if it
    is not an insertion. *)
Definition deletion_added (D I D' : list range) (index : Z) : Prop :=
  forall x, mem x D' <-> mem x D \/ corr D I x index.

Section ops.
Context (D I D' I' : list range).
Context (HD : ok_from 0 D) (HI : ok_from 0 I) (HD' : ok_from 0 D') (HI' : ok_from 0 I').

#[local] Set Default Proof Using "Type".

Lemma corr_erase index : erased index I I' -> deletion_added D I D' index -> (0 <= index)%Z ->
  forall x z, corr D' I' x z <-> exists y, corr D I x y /\ y <> index /\ z = down index y.
Proof using HD HI HD' HI'.
  intros HIe HDe Hidx x z. symmetry.
  apply (corr_unique D' I' HD' HI' (λ x z, exists y, corr D I x y /\ y <> index /\ z = down index y));
    clear x z.
  - intros x z (y & Hc & Hne & ->). pose proof Hc as (Hx & Hy & Hxn & Hyn & _). split_and!.
    + done.
    + split_up_down; lia.
    + rewrite (HDe x). intros [?|Hc']; [done|]. by pose proof (corr_fun D I HD HI _ _ _ Hc Hc').
    + rewrite (HIe _). split_up_down; replace (y - 1 + 1)%Z with y by lia; intuition lia.
  - intros x Hx Hxn. rewrite (HDe x) in Hxn.
    destruct (corr_total D I HD HI x) as [y Hc]; [done|tauto|].
    exists (down index y), y. split_and!; [done| |done]. intros ->. tauto.
  - intros z Hz Hzn. rewrite (HIe z) in Hzn.
    destruct (corr_surj D I HD HI (if decide (z < index)%Z then z else z + 1)%Z) as [x Hc].
    { case_decide; lia. }
    { case_decide; [tauto|]. intros Hm. apply Hzn. right. split; [lia|done]. }
    exists x. eexists. split_and!; [exact Hc|case_decide; lia|split_up_down; lia].
  - intros x x' z z' (y & Hc & Hne & ->) (y' & Hc' & Hne' & ->).
    rewrite (corr_mono D I HD HI _ _ _ _ Hc Hc'). split_up_down; lia.
Qed.

Lemma corr_insert index cnt : inserted index cnt I I' -> (forall x, mem x D' <-> mem x D) ->
  (0 <= index)%Z -> (0 < cnt)%Z ->
  forall x z, corr D' I' x z <-> exists y, corr D I x y /\ z = up index cnt y.
Proof using HD HI HD' HI'.
  intros HIi HDe Hidx Hcnt x z. symmetry.
  apply (corr_unique D' I' HD' HI' (λ x z, exists y, corr D I x y /\ z = up index cnt y)); clear x z.
  - intros x z (y & Hc & ->). pose proof Hc as (Hx & Hy & Hxn & Hyn & _). split_and!.
    + done.
    + split_up_down; lia.
    + by rewrite HDe.
    + rewrite (HIi _). split_up_down; replace (y + cnt - cnt)%Z with y by lia; intuition lia.
  - intros x Hx Hxn. rewrite HDe in Hxn. destruct (corr_total D I HD HI x) as [y Hc]; [done..|].
    by exists (up index cnt y), y.
  - intros z Hz Hzn. rewrite (HIi z) in Hzn.
    destruct (corr_surj D I HD HI (if decide (z < index)%Z then z else z - cnt)%Z) as [x Hc].
    { case_decide; [lia|]. destruct (decide (z < index + cnt)%Z); [|lia]. exfalso. apply Hzn. lia. }
    { case_decide; [tauto|]. intros Hm. apply Hzn. destruct (decide (z < index + cnt)%Z); [lia|].
      right. right. split; [lia|done]. }
    exists x. eexists. split; [exact Hc|]. split_up_down; try lia.
  - intros x x' z z' (y & Hc & ->) (y' & Hc' & ->).
    rewrite (corr_mono D I HD HI _ _ _ _ Hc Hc'). split_up_down; lia.
Qed.
End ops.

(** ** Composition *)

Section compose.
Context (D1 I1 D2 I2 D I : list range).
Context (HD1 : ok_from 0 D1) (HI1 : ok_from 0 I1) (HD2 : ok_from 0 D2) (HI2 : ok_from 0 I2)
  (HD : ok_from 0 D) (HI : ok_from 0 I).

(** The deletions of a composition: what the first change set deletes and the
    sources of what the second one deletes. *)
Definition composed_deletions : Prop :=
  forall x, mem x D <-> mem x D1 \/ exists y, mem y D2 /\ corr D1 I1 x y.

(** Its insertions: what the second change set inserts and the targets of what
    the first one inserts. *)
Definition composed_insertions : Prop :=
  forall z, mem z I <-> mem z I2 \/ exists y, mem y I1 /\ corr D2 I2 y z.

Lemma corr_compose : composed_deletions -> composed_insertions ->
  forall x z, corr D I x z <-> exists y, corr D1 I1 x y /\ corr D2 I2 y z.
Proof using HD1 HI1 HD2 HI2 HD HI.
  intros HDc HIc x z. symmetry.
  apply (corr_unique D I HD HI (λ x z, exists y, corr D1 I1 x y /\ corr D2 I2 y z)); clear x z.
  - intros x z (y & Hc1 & Hc2). pose proof Hc1 as (Hx & Hy & Hxn & Hyn & _).
    pose proof Hc2 as (_ & Hz & Hyn2 & Hzn & _). split_and!; [done|done| |].
    + rewrite (HDc x). intros [?|(y' & Hy' & Hc')]; [done|].
      by rewrite (corr_fun D1 I1 HD1 HI1 _ _ _ Hc1 Hc') in Hyn2.
    + rewrite (HIc z). intros [?|(y' & Hy' & Hc')]; [done|].
      by rewrite (corr_inj D2 I2 HD2 HI2 _ _ _ Hc2 Hc') in Hyn.
  - intros x Hx Hxn. rewrite (HDc x) in Hxn. destruct (corr_total D1 I1 HD1 HI1 x) as [y Hc1]; [done|tauto|].
    pose proof Hc1 as (_ & Hy & _). destruct (corr_total D2 I2 HD2 HI2 y) as [z Hc2]; [done| |by exists z, y].
    intros Hm. apply Hxn. right. by exists y.
  - intros z Hz Hzn. rewrite (HIc z) in Hzn. destruct (corr_surj D2 I2 HD2 HI2 z) as [y Hc2]; [done|tauto|].
    pose proof Hc2 as (Hy & _). destruct (corr_surj D1 I1 HD1 HI1 y) as [x Hc1]; [done| |by exists x, y].
    intros Hm. apply Hzn. right. by exists y.
  - intros x x' z z' (y & Hc1 & Hc2) (y' & Hc1' & Hc2').
    by rewrite (corr_mono D1 I1 HD1 HI1 _ _ _ _ Hc1 Hc1'), (corr_mono D2 I2 HD2 HI2 _ _ _ _ Hc2 Hc2').
Qed.
End compose.
