(* ===== verification/AddShiftedFacts.v ===== *)
(** * Correctness of [add_shifted_by]

    [add_shifted_by d shifted_by values] adds to [d] the positions that the
    values outside [shifted_by] have among the indices outside [d]. *)

From S2P Require Import Prelude ChunkedRangeVector ChunkedFacts ChunkedOps IndexSet LoopFacts IndexSetFacts.
From S2P Require Import IndexSetWalk IndexSetMerge CorrFacts.

(** ** Pushing a run of indices *)

Lemma snoc_range_snoc L a m n : (a < m)%Z ->
  snoc_range (snoc_range L (a, m)) (m, n) = snoc_range L (a, n).
Proof.
  intros Ham. unfold snoc_range at 2. unfold snoc_range at 2.
  destruct (last L) as [back|] eqn:Hl; cbn [fst snd].
  - destruct (decide (a = back.2)); unfold snoc_range; rewrite last_snoc; cbn [fst snd];
      rewrite decide_True, removelast_last by done; done.
  - unfold snoc_range. cbn [last fst snd]. by rewrite decide_True.
Qed.

Section add_shifted_by.
Context `{Build} (exact : Prop).

Lemma builder_push_run n : forall b L K hi a, pushed exact b L K hi -> (0 <= hi <= a)%Z ->
  (a + Z.of_nat (S n) <= npos)%Z ->
  exists b', foldM (λ x b, builder_push b x) (seqZ a (Z.of_nat (S n))) b = Some b'
    /\ pushed exact b' (snoc_range L (a, a + Z.of_nat (S n))%Z) K (a + Z.of_nat (S n)).
Proof.
  induction n as [|n IH]; intros b L K hi a Hb Hhi Ha; unfold npos in Ha;
    rewrite seqZ_cons by lia; cbn [foldM];
    (assert (builder_push b a = builder_push_range b (a, a + 1)%Z) as ->
      by (unfold builder_push; by rewrite (u64_small (a + 1)) by lia));
    (destruct (builder_push_range_pushed exact b L K hi (a, a + 1)%Z Hb) as (b1 & -> & Hb1 & _);
      [simpl; lia..|intros _; left; simpl; lia|]); cbn [mbind option_bind snd] in Hb1 |- *.
  - by exists b1.
  - replace (Z.pred (Z.of_nat (S (S n)))) with (Z.of_nat (S n)) by lia.
    destruct (IH b1 _ K (a + 1)%Z (a + 1)%Z Hb1) as (b' & Hrun & Hb'); [lia|unfold npos; lia|].
    unfold Z.succ. exists b'. split; [done|]. rewrite snoc_range_snoc in Hb' by lia.
    by replace (a + Z.of_nat (S (S n)))%Z with (a + 1 + Z.of_nat (S n))%Z by lia.
Qed.

Lemma builder_push_all_of_range b L K hi r : pushed exact b L K hi -> (0 <= hi <= r.1)%Z ->
  (r.1 < r.2 <= npos)%Z ->
  exists b', foldM (λ x b, builder_push b x) (seqZ r.1 (r.2 - r.1)) b = Some b'
    /\ pushed exact b' (snoc_range L r) K r.2.
Proof.
  intros Hb Hhi Hr. replace (r.2 - r.1)%Z with (Z.of_nat (S (Z.to_nat (r.2 - r.1 - 1)))) by lia.
  destruct (builder_push_run (Z.to_nat (r.2 - r.1 - 1)) b L K hi r.1 Hb Hhi) as (b' & -> & Hb'); [lia|].
  exists b'. split; [done|]. replace (r.1 + _)%Z with r.2 in Hb' by lia. by rewrite <-surjective_pairing in Hb'.
Qed.

(** ** The loops *)

Context (d shifted_by : IndexSet) (Hd : wf d) (Hs : wf shifted_by).

(** The ranges of [shifted_by] that start at or before an index. *)
Definition skipped (S1 : list range) (st : shift_state) : Prop :=
  shift_it st = locate shifted_by (length S1) /\ new_shift st = total S1
  /\ skip_until st = default 0%Z (snd <$> last S1).

Lemma skip_loop index S2 : forall fuel S1 st, flat shifted_by = S1 ++ S2 -> length S2 < fuel ->
  skipped S1 st -> Forall (λ r, r.1 <= index)%Z S1 ->
  exists S1' S2' st', while fuel
      (λ st, if not_end shifted_by (shift_it st) then
          r ← deref shifted_by (shift_it st); Some (bool_decide (r.1 <= index)%Z)
        else Some false)
      (λ st, r ← deref shifted_by (shift_it st);
        next ← it_next shifted_by (shift_it st);
        Some (mkShiftState (builder st) (old_it st) next r.2 (old_shift st)
               (new_shift st +! (r.2 -! r.1)))) st = Some st'
    /\ flat shifted_by = S1' ++ S2' /\ skipped S1' st' /\ Forall (λ r, r.1 <= index)%Z S1'
    /\ (forall r, head S2' = Some r -> (index < r.1)%Z)
    /\ builder st' = builder st /\ old_it st' = old_it st /\ old_shift st' = old_shift st.
Proof using Hs.
  induction S2 as [|r S2 IH]; intros fuel S1 st Hf Hfuel (Hit & Hnew & Hskip) Hall;
    (destruct fuel as [|fuel]; [simpl in Hfuel; lia|]); rewrite while_S, Hit.
  - rewrite (not_end_mid shifted_by S1 []) by done. simpl. exists S1, [], st. by split_and!.
  - rewrite (not_end_mid shifted_by S1 (r :: S2)), (deref_mid shifted_by S1 r S2),
      (it_next_mid shifted_by S1 r S2) by (done || apply Hs).
    rewrite bool_decide_true by done. mrun. case_bool_decide as Hr.
    + pose proof (wf_total shifted_by Hs) as Htot. destruct Hs as [_ [Hok Hb]]. unfold npos in *.
      assert (0 <= total S1 /\ 0 < r.2 - r.1 /\ total S1 + (r.2 - r.1) < 2 ^ 64)%Z as Hb1.
      { rewrite Hf in Hok, Htot. rewrite total_app in Htot. cbn [total] in Htot.
        apply ok_from_app in Hok as [Hok1 (? & ? & Hok2)].
        pose proof (total_nonneg _ _ Hok1). pose proof (total_nonneg _ _ Hok2). lia. }
      apply (IH fuel (S1 ++ [r]) (mkShiftState (builder st) (old_it st)
        (locate shifted_by (length (S1 ++ [r]))) r.2 (old_shift st) (new_shift st +! (r.2 -! r.1)))).
      * by rewrite <-app_assoc.
      * simpl in Hfuel. lia.
      * split_and!; cbn [shift_it new_shift skip_until]; [done| |by rewrite last_snoc].
        rewrite Hnew, total_app. cbn [total]. rewrite u64_add_r, u64_small; lia.
      * apply Forall_app. split; [done|by constructor].
    + exists S1, (r :: S2), st. split_and!; [done..| |done|done|done]. intros ? [= <-]. lia.
Qed.

(** The ranges of [d] copied so far. *)
Definition copied (O1 : list range) (st : shift_state) : Prop :=
  old_it st = locate d (length O1) /\ old_shift st = total O1.

(** What the builder holds, for the next rank [rho]: the copied ranges and the
    indices in [ys]. *)
Definition holds (K n : nat) (rho : Z) (O1 O2 : list range) (ys : Z -> Prop) (st : shift_state) : Prop :=
  exists L hi, pushed exact (builder st) L K hi /\ (0 <= hi <= rho + total O1)%Z
    /\ Forall (λ r, r.2 <= rho + total O1)%Z O1 /\ (forall r, head O2 = Some r -> (hi <= r.1)%Z)
    /\ (forall y, mem y L <-> mem y O1 \/ ys y) /\ length L <= length O1 + n.

Lemma holds_copy K n rho O1 r O2 ys st : flat d = O1 ++ r :: O2 -> (0 <= rho)%Z ->
  holds K n rho O1 (r :: O2) ys st -> (r.1 <= rho + total O1)%Z ->
  exists b', foldM (λ i b, builder_push b i) (seqZ r.1 (r.2 - r.1)) (builder st) = Some b'
    /\ forall it sit sk os ns, holds K n rho (O1 ++ [r]) O2 ys (mkShiftState b' it sit sk os ns).
Proof using Hd.
  intros Hf Hrho (L & hi & Hb & Hhi & Hall & Hhd & Hmem & Hlen) Hr.
  destruct Hd as [_ Hwf]. rewrite Hf in Hwf. pose proof (wf_flat_mid _ _ _ Hwf) as Hr1.
  specialize (Hhd r eq_refl).
  destruct (builder_push_all_of_range (builder st) L K hi r Hb) as (b' & Hrun & Hb'); [lia|lia|].
  exists b'. split; [done|]. intros it sit sk os ns.
  destruct (snoc_range_ok 0 L r) as (_ & Hmem' & _); [by apply Hb|lia|lia| |].
  { intros back Hback%last_Some_elem_of. destruct Hb as (_ & _ & Hbnd).
    unfold bounded in Hbnd. rewrite Forall_forall in Hbnd. specialize (Hbnd _ Hback). simpl in Hbnd. lia. }
  exists (snoc_range L r), r.2. rewrite total_app. cbn [total builder].
  split_and!; [done|lia|lia| | | |].
  - apply Forall_app. split; [eapply Forall_impl; [exact Hall|]; simpl; lia|].
    constructor; [lia|done].
  - intros r' Hr'. destruct O2 as [|r2 O2]; [done|]. injection Hr' as ->.
    destruct Hwf as [Hok _]. apply ok_from_app in Hok as [_ (_ & _ & ? & _)]. lia.
  - intros y. rewrite Hmem', Hmem, mem_app, mem_cons, mem_nil. unfold in_range. tauto.
  - pose proof (snoc_range_length L r). rewrite length_app. simpl. lia.
Qed.

Lemma copy_loop index rho K n ys O2 : forall fuel O1 st, flat d = O1 ++ O2 -> length O2 < fuel ->
  copied O1 st -> (index -! new_shift st = rho) -> (0 <= rho)%Z ->
  (rho + total (flat d) < npos)%Z -> holds K n rho O1 O2 ys st ->
  exists O1' O2' st', while fuel
      (λ st, if not_end d (old_it st) then
          r ← deref d (old_it st);
          Some (bool_decide (r.1 <= (index -! new_shift st) +! old_shift st)%Z)
        else Some false)
      (λ st, r ← deref d (old_it st);
        b ← foldM (λ i b, builder_push b i) (seqZ r.1 (r.2 - r.1)) (builder st);
        next ← it_next d (old_it st);
        Some (mkShiftState b next (shift_it st) (skip_until st)
               (old_shift st +! (r.2 -! r.1)) (new_shift st))) st = Some st'
    /\ flat d = O1' ++ O2' /\ copied O1' st' /\ holds K n rho O1' O2' ys st'
    /\ (forall r, head O2' = Some r -> (rho + total O1' < r.1)%Z)
    /\ shift_it st' = shift_it st /\ skip_until st' = skip_until st /\ new_shift st' = new_shift st.
Proof using Hd.
  induction O2 as [|r O2 IH]; intros fuel O1 st Hf Hfuel (Hit & Hold) Hrho Hrho0 Htot Hh;
    (destruct fuel as [|fuel]; [simpl in Hfuel; lia|]); rewrite while_S, Hit.
  - rewrite (not_end_mid d O1 []) by done. simpl. exists O1, [], st. by split_and!.
  - rewrite (not_end_mid d O1 (r :: O2)), (deref_mid d O1 r O2), (it_next_mid d O1 r O2)
      by (done || apply Hd).
    rewrite bool_decide_true by done. mrun. rewrite Hrho, Hold. unfold npos in Htot.
    assert (0 <= total O1 /\ 0 < r.2 - r.1 /\ total O1 + (r.2 - r.1) <= total (flat d))%Z as Hb1.
    { destruct Hd as [_ [Hok _]]. rewrite Hf in Hok |- *. rewrite total_app. cbn [total].
      apply ok_from_app in Hok as [Hok1 (? & ? & Hok2)].
      pose proof (total_nonneg _ _ Hok1). pose proof (total_nonneg _ _ Hok2). lia. }
    rewrite (u64_small (rho + total O1)) by lia. case_bool_decide as Hr.
    + destruct (holds_copy K n rho O1 r O2 ys st) as (b' & -> & Hh'); [done..|]. mrun.
      apply (IH fuel (O1 ++ [r]) (mkShiftState b' (locate d (length (O1 ++ [r]))) (shift_it st)
        (skip_until st) (total O1 +! (r.2 -! r.1)) (new_shift st))); cbn [new_shift]; [by rewrite <-app_assoc|simpl in Hfuel; lia| |done..|].
      * split; [done|]. cbn [old_shift]. rewrite total_app. cbn [total].
        rewrite u64_add_r, u64_small; lia.
      * apply Hh'.
    + exists O1, (r :: O2), st. split_and!; [done..| |done|done|done]. intros ? [= <-]. lia.
Qed.

(** ** One value *)

(** [y] is the position outside [d] of the value [v] outside [shifted_by]. *)
Definition placed (v y : Z) : Prop :=
  ~ mem v (flat shifted_by) /\ (0 <= y)%Z /\ ~ mem y (flat d)
  /\ rank (flat d) y = rank (flat shifted_by) v.

(** The state once every value before [next] has been added, as [ys]. *)
Definition added_before (K n : nat) (next : Z) (ys : Z -> Prop) (st : shift_state) : Prop :=
  exists S1 S2 O1 O2 rho, flat shifted_by = S1 ++ S2 /\ skipped S1 st
    /\ Forall (λ r, r.1 <= next)%Z S1
    /\ flat d = O1 ++ O2 /\ copied O1 st /\ holds K n rho O1 O2 ys st
    /\ (0 <= rho <= rank (flat shifted_by) next)%Z.

(** After the skip, [skip_until] tells whether the index is a member. *)
Lemma skipped_member index S1 S2 st : flat shifted_by = S1 ++ S2 -> skipped S1 st ->
  Forall (λ r, r.1 <= index)%Z S1 -> (forall r, head S2 = Some r -> (index < r.1)%Z) -> (0 <= index)%Z ->
  if decide (index < skip_until st)%Z then mem index (flat shifted_by)
  else ~ mem index (flat shifted_by) /\ rank (flat shifted_by) index = (index - total S1)%Z.
Proof using Hs.
  intros Hf (_ & _ & Hskip) Hall Hhd Hidx. rewrite Hskip. destruct Hs as [_ [Hok _]].
  assert (forall r, last S1 = Some r -> (r.2 <= index)%Z -> Forall (λ r, r.2 <= index)%Z S1) as Hle.
  { intros r Hr Hle. rewrite Hf in Hok. apply ok_from_app in Hok as [Hok _].
    pose proof (next_lo_last 0 _ _ Hr) as Hn. apply ok_from_bounded in Hok.
    eapply Forall_impl; [exact Hok|]. simpl. lia. }
  assert (Forall (λ r, r.2 <= index)%Z S1 -> ~ mem index (flat shifted_by)
    /\ rank (flat shifted_by) index = (index - total S1)%Z) as Hout.
  { intros Hall2. rewrite Hf in Hok |- *. apply ok_from_app in Hok as [Hok1 Hok2].
    assert (below index S2 = 0%Z /\ ~ mem index S2) as [Hb2 Hm2].
    { destruct S2 as [|r S2]; [split; [done|by intros Hm%mem_nil]|].
      apply ok_from_head in Hok2. specialize (Hhd r eq_refl).
      split; [by apply (below_lo r.1); [|lia]|]. intros Hm%(mem_lo _ _ _ Hok2). lia. }
    split.
    - rewrite mem_app. intros [Hm|Hm]; [|done]. apply Exists_exists in Hm as (r & Hr & Hin).
      rewrite Forall_forall in Hall2. specialize (Hall2 r Hr). unfold in_range in Hin. simpl in Hall2. lia.
    - unfold rank. rewrite below_app, Hb2, (below_hi 0 index) by (done || lia). lia. }
  destruct (last S1) as [r|] eqn:Hr.
  - change (default 0%Z (snd <$> Some r)) with r.2.
    destruct (decide (index < r.2)%Z); [|apply Hout, (Hle r); [done|lia]].
    apply last_Some in Hr as [S1' ->]. rewrite Hf, !mem_app, mem_cons.
    apply Forall_app in Hall as [_ [? _]%Forall_cons]. lia.
  - simpl. rewrite decide_False by lia. apply Hout. apply last_None in Hr. by subst S1.
Qed.

(** A position between the copied ranges and the rest of [d]. *)
Lemma place_here O1 O2 y : flat d = O1 ++ O2 -> Forall (λ r, r.2 <= y)%Z O1 ->
  (forall r, head O2 = Some r -> (y < r.1)%Z) ->
  ~ mem y (flat d) /\ rank (flat d) y = (y - total O1)%Z.
Proof using Hd.
  intros Hf Hall Hhd. destruct Hd as [_ [Hok _]]. rewrite Hf in Hok |- *.
  apply ok_from_app in Hok as [Hok1 Hok2].
  assert (below y O2 = 0%Z /\ ~ mem y O2) as [Hb2 Hm2].
  { destruct O2 as [|r O2]; [split; [done|by intros Hm%mem_nil]|].
    apply ok_from_head in Hok2. specialize (Hhd r eq_refl).
    split; [by apply (below_lo r.1); [|lia]|]. intros Hm%(mem_lo _ _ _ Hok2). lia. }
  split.
  - rewrite mem_app. intros [Hm|Hm]; [|done]. apply Exists_exists in Hm as (r & Hr & Hin).
    rewrite Forall_forall in Hall. specialize (Hall r Hr). unfold in_range in Hin. simpl in Hall. lia.
  - unfold rank. rewrite below_app, Hb2, (below_hi 0 y) by (done || lia). lia.
Qed.

Lemma added_before_step K n index next ys st : added_before K n next ys st -> (0 <= next <= index)%Z ->
  (index < npos)%Z -> (index + total (flat d) < npos)%Z ->
  exists st', add_shifted_by_step d shifted_by index st = Some st'
    /\ added_before K (S n) (index + 1) (λ y, ys y \/ placed index y) st'.
Proof using Hd Hs.
  intros (S1 & S2 & O1 & O2 & rho & HfS & Hskip & HallS & HfD & Hcop & Hh & Hrho) Hnext Hidx Hsum.
  pose proof Hs as [_ [HokS _]]. pose proof Hd as [_ [HokD _]].
  unfold add_shifted_by_step, skip_shifted.
  destruct (skip_loop index S2 (ranges_fuel shifted_by) S1 st) as
    (S1' & S2' & st1 & -> & HfS' & Hskip' & HallS' & HhdS' & Hb1 & Ho1 & Hos1);
    [done|by eapply ranges_fuel_app|done| |].
  { eapply Forall_impl; [exact HallS|]. simpl. lia. }
  mrun. pose proof (skipped_member index S1' S2' st1 HfS' Hskip' HallS' HhdS' ltac:(lia)) as Hmem.
  pose proof (rank_mono _ HokS next index ltac:(lia)) as Hrm.
  assert (holds K n rho O1 O2 ys st1 /\ copied O1 st1) as [Hh1 Hcop1].
  { unfold holds, copied in *. rewrite Hb1, Ho1, Hos1. by split. }
  destruct (decide (index < skip_until st1)%Z) as [Hin|Hout].
  { rewrite bool_decide_true by done. exists st1. split; [done|].
    exists S1', S2', O1, O2, rho. split_and!; [done|done| |done|done| |lia|].
    - eapply Forall_impl; [exact HallS'|]. simpl. lia.
    - destruct Hh1 as (L & hi & ? & ? & ? & ? & HmemL & ?). exists L, hi.
      split_and!; [done|lia|lia|done|done| |lia]. intros y. rewrite HmemL. unfold placed. tauto.
    - rewrite rank_S, decide_True by done. lia. }
  rewrite bool_decide_false by done. destruct Hmem as [Hnot Hrank].
  pose proof (rank_nonneg _ HokS index ltac:(lia)) as Hr0. destruct Hskip' as (HitS & HnewS & HskS).
  pose proof (total_nonneg _ _ HokD) as HtD. pose proof (rank_le _ HokS index) as Hrle.
  unfold npos in *.
  assert (index -! new_shift st1 = rank (flat shifted_by) index) as Hrho'
    by (rewrite HnewS, u64_small; lia).
  assert (holds K n (rank (flat shifted_by) index) O1 O2 ys st1) as Hh1'.
  { destruct Hh1 as (L & hi & ? & ? & Hall & ? & ? & ?). exists L, hi. split_and!; [done|lia|lia| |done..].
    eapply Forall_impl; [exact Hall|]. simpl. lia. }
  unfold copy_old.
  destruct (copy_loop index (rank (flat shifted_by) index) K n ys O2 (ranges_fuel d) O1 st1)
    as (O1' & O2' & st2 & -> & HfD' & [Hit2 Hold2] & Hh2 & Hhd2 & Hs2 & Hk2 & Hn2);
    [done|by eapply ranges_fuel_app|done|done|done|unfold npos; lia|done|].
  mrun. rewrite Hn2, HnewS, REALM_ASSERT_decide by lia. mrun.
  rewrite <-HnewS, Hrho', Hold2.
  pose proof HokD as HokD'. rewrite HfD' in HokD'. apply ok_from_app in HokD' as [HokO1 HokO2].
  pose proof (total_nonneg _ _ HokO1) as HtO1. pose proof (total_nonneg _ _ HokO2) as HtO2.
  pose proof Hsum as Hsum'. rewrite HfD', total_app in Hsum'.
  set (y := (rank (flat shifted_by) index + total O1')%Z) in *.
  rewrite (u64_small y) by lia.
  destruct Hh2 as (L & hi & Hb & Hhi & Hall & Hhd & HmemL & Hlen).
  destruct (builder_push_spec exact (builder st2) L K hi y) as (b' & L' & -> & Hb' & Hlen' & HmemL');
    [done|lia|unfold npos; lia|]. mrun. eexists. split; [done|].
  assert (placed index y) as Hplaced.
  { destruct (place_here O1' O2' y HfD') as [Hyn Hyr]; [done|done|]. split_and!; [done|lia|done|]. 
    rewrite Hyr. unfold y. lia. }
  exists S1', S2', O1', O2', (rank (flat shifted_by) index + 1)%Z.
  split_and!; [done|by rewrite <-Hs2, <-Hk2, <-Hn2 in *| |done|done| |lia|].
  - eapply Forall_impl; [exact HallS'|]. simpl. lia.
  - exists L', (y + 1)%Z. split_and!; [done|lia|lia| | | |lia].
    + eapply Forall_impl; [exact Hall|]. simpl. lia.
    + intros r Hr. specialize (Hhd2 r Hr). lia.
    + intros z. rewrite HmemL', HmemL. split; [intuition congruence|].
      intros [?|[?|Hz]]; [tauto|tauto|right]. destruct Hz as (_ & Hz0 & Hzn & Hzr).
      destruct Hplaced as (_ & _ & Hyn & Hyr). apply (rank_eq (flat d)); [done..|congruence].
  - rewrite rank_S, decide_False by done. lia.
Qed.

Lemma added_before_fold xs : forall K n next ys st, added_before K n next ys st -> (0 <= next)%Z ->
  StronglySorted Z.lt xs -> Forall (λ x, next <= x < npos /\ x + total (flat d) < npos)%Z xs ->
  exists st' next', foldM (add_shifted_by_step d shifted_by) xs st = Some st'
    /\ added_before K (n + length xs) next' (λ y, ys y \/ exists v, v ∈ xs /\ placed v y) st'.
Proof using Hd Hs.
  induction xs as [|x xs IH]; intros K n next ys st Hst Hnext Hsort Hx; cbn [foldM].
  - exists st, next. split; [done|]. rewrite Nat.add_0_r.
    destruct Hst as (S1 & S2 & O1 & O2 & rho & ? & ? & ? & ? & ? & Hh & ?).
    exists S1, S2, O1, O2, rho. split_and!; [done..| |lia|lia].
    destruct Hh as (L & hi & ? & ? & ? & ? & HmemL & ?). exists L, hi. split_and!; [done|lia|lia|done|done| |lia].
    intros y. rewrite HmemL. split; [tauto|]. intros [?|[?|(v & Hv%elem_of_nil & _)]]; tauto.
  - apply StronglySorted_cons in Hsort as [Hlt Hsort]. apply Forall_cons in Hx as [[Hx Hxt] Hxs].
    destruct (added_before_step K n x next ys st) as (st1 & -> & Hst1); [done|lia|lia|done|]. mrun.
    destruct (IH K (S n) (x + 1)%Z _ st1 Hst1) as (st' & next' & -> & Hst'); [lia|done| |].
    { rewrite Forall_forall in Hlt, Hxs |- *. intros y Hy. specialize (Hlt y Hy). specialize (Hxs y Hy). lia. }
    exists st', next'. split; [done|].
    destruct Hst' as (S1 & S2 & O1 & O2 & rho & ? & ? & ? & ? & ? & Hh & ?).
    exists S1, S2, O1, O2, rho. split_and!; [done..| |lia|lia].
    destruct Hh as (L & hi & ? & ? & ? & ? & HmemL & ?). exists L, hi.
    split_and!; [done|lia|lia|done|done| |simpl; lia].
    intros y. rewrite HmemL. setoid_rewrite elem_of_cons. split.
    + intros [?|[[?|?]|(v & ? & ?)]]; [tauto|tauto|right; right|right; right].
      * exists x. tauto.
      * exists v. tauto.
    + intros [?|[?|(v & [->|?] & ?)]]; [tauto..|]. right. right. by exists v.
Qed.

(** ** The rest of [d] *)

Lemma copy_tail K O2 : forall fuel O1 b L hi, flat d = O1 ++ O2 -> length O2 < fuel ->
  pushed exact b L K hi -> (0 <= hi)%Z -> (forall r, head O2 = Some r -> (hi <= r.1)%Z) ->
  (exact -> length L + length O2 <= (K + 1) * max_size) ->
  exists b' it' L' hi', while fuel (λ '(_, it), Some (not_end d it))
      (λ '(b, it), r ← deref d it; b ← builder_push_range b r; it ← it_next d it; Some (b, it))
      (b, locate d (length O1)) = Some (b', it')
    /\ pushed exact b' L' K hi' /\ forall y, mem y L' <-> mem y L \/ mem y O2.
Proof using Hd.
  induction O2 as [|r O2 IH]; intros fuel O1 b L hi Hf Hfuel Hb Hhi Hhd Hcap;
    (destruct fuel as [|fuel]; [simpl in Hfuel; lia|]); rewrite while_S; mrun.
  - rewrite (not_end_mid d O1 []) by done. simpl. eexists b, _, L, hi. split_and!; [done|done|]. intros y. rewrite mem_nil. tauto.
  - rewrite (not_end_mid d O1 (r :: O2)), (deref_mid d O1 r O2), (it_next_mid d O1 r O2)
      by (done || apply Hd).
    rewrite bool_decide_true by done. mrun. specialize (Hhd r eq_refl).
    destruct Hd as [_ Hwf]. rewrite Hf in Hwf. pose proof (wf_flat_mid _ _ _ Hwf) as Hr1.
    destruct (builder_push_range_pushed exact b L K hi r Hb) as (b1 & -> & Hb1 & Hmem1); [lia|lia| |].
    { intros Hex. right. specialize (Hcap Hex). simpl in Hcap. lia. }
    mrun. pose proof (snoc_range_length L r).
    destruct (IH fuel (O1 ++ [r]) b1 (snoc_range L r) r.2) as (b' & it' & L' & hi' & Hrun & Hb' & Hmem').
    + by rewrite <-app_assoc.
    + simpl in Hfuel. lia.
    + done.
    + lia.
    + intros r' Hr'. destruct O2 as [|r2 O2]; [done|]. injection Hr' as ->.
      destruct Hwf as [Hok _]. apply ok_from_app in Hok as [_ (_ & _ & ? & _)]. lia.
    + intros Hex. specialize (Hcap Hex). simpl in Hcap. lia.
    + exists b', it', L', hi'. cbn [mbind option_bind] in Hrun. split_and!; [exact Hrun|done|].
      intros y. rewrite Hmem', Hmem1, mem_cons. unfold in_range. tauto.
Qed.

End add_shifted_by.

(** ** [add_shifted_by] *)

Section add_shifted_by_spec.
Context `{Build}.

(** No chunk has to be allocated while the result is built: the condition under
    which the cached counts of the result are exact. *)
Definition fits (d values : IndexSet) : Prop :=
  length (flat d) + length (elems (flat values)) <= (length (flat d) / max_size + 1) * max_size.

Lemma bounded_of_mem lo hi L : ok_from lo L -> (forall y, mem y L -> (y < hi)%Z) -> bounded hi L.
Proof.
  intros Hok Hm. apply Forall_forall. intros r Hr. pose proof (proj1 (Forall_forall _ _) (ok_from_Forall _ _ Hok) r Hr).
  assert (mem (r.2 - 1) L) as Hin; [|specialize (Hm _ Hin); simpl; lia].
  apply Exists_exists. exists r. split; [done|]. unfold in_range. simpl in *. lia.
Qed.

Lemma placed_bound (d shifted_by : IndexSet) v y hi : wf d -> wf shifted_by -> placed d shifted_by v y ->
  (v + total (flat d) < hi)%Z -> (y < hi)%Z.
Proof.
  intros Hd [_ [HokS _]] (_ & _ & _ & Hr) Hv. pose proof (rank_le _ HokS v).
  pose proof (cnt_bounds (elems (flat d)) y) as Hc. rewrite cnt_elems in Hc by apply Hd.
  rewrite length_elems_flat in Hc by done. unfold rank in *. lia.
Qed.

Lemma sorted_NoDup (l : list Z) : StronglySorted Z.lt l -> NoDup l.
Proof.
  induction 1 as [|x l Hs IH Hx]; constructor; [|done]. intros Hin. rewrite Forall_forall in Hx.
  specialize (Hx x Hin). lia.
Qed.

(** The positions of a list of values, as a list. *)
Lemma placed_list (d shifted_by : IndexSet) xs : wf d -> wf shifted_by -> NoDup xs ->
  Forall (λ x, 0 <= x)%Z xs ->
  exists Y : list Z, length Y = length (filter (λ v, ~ mem v (flat shifted_by)) xs) /\ NoDup Y
    /\ forall y, y ∈ Y <-> exists v, v ∈ xs /\ placed d shifted_by v y.
Proof.
  intros [_ [HokD _]] [_ [HokS _]] Hnd Hx. induction Hnd as [|x xs Hnot Hnd IH].
  { exists []. split_and!; [done|constructor|]. intros y. split; [by intros ?%elem_of_nil|].
    intros (v & ?%elem_of_nil & _). done. }
  apply Forall_cons in Hx as [Hx0 Hx]. destruct (IH Hx) as (Y & Hlen & HndY & HY).
  rewrite filter_cons. destruct (decide _) as [Hout|Hin].
  - destruct (rank_surj (flat d) 0 (rank (flat shifted_by) x) HokD) as (y0 & Hy0 & Hyn & Hyr).
    { by apply rank_nonneg. }
    pose proof (rank_nonneg _ HokS x Hx0) as Hr0.
    assert (placed d shifted_by x y0) as Hpl by (split_and!; [done|lia|done|done]).
    exists (y0 :: Y). simpl. rewrite Hlen. split_and!; [done| |].
    + constructor; [|done]. intros (v & Hv & (Hvn & _ & _ & Hvr))%HY.
      assert (v = x) as ->; [|done]. apply (rank_eq (flat shifted_by)); [done..|congruence].
    + intros y. setoid_rewrite elem_of_cons. rewrite HY. split.
      * intros [->|(v & ? & ?)]; [exists x; tauto|exists v; tauto].
      * intros (v & [->|?] & Hp); [left|right; by exists v]. destruct Hp as (_ & _ & Hn & Hr).
        apply (rank_eq (flat d)); [done..|congruence].
  - exists Y. split_and!; [done..|]. intros y. setoid_rewrite elem_of_cons. rewrite HY. split.
    + intros (v & ? & ?). exists v. tauto.
    + intros (v & [->|?] & Hp); [by destruct Hp|by exists v].
Qed.

(** The size of the result. *)
Lemma length_added (d shifted_by values d' : IndexSet) : wf d -> wf shifted_by -> wf values -> wf d' ->
  (forall y, mem y (flat d') <-> mem y (flat d) \/ exists v, v ∈ values /\ placed d shifted_by v y) ->
  length (elems (flat d'))
  = length (elems (flat d)) + length (filter (λ v, ~ mem v (flat shifted_by)) (elems (flat values))).
Proof.
  intros Hd Hs Hv Hd' Hmem.
  destruct (placed_list d shifted_by (elems (flat values))) as (Y & <- & HndY & HY); [done|done| | |].
  { apply sorted_NoDup. by apply from_elems. }
  { pose proof (elems_bounds values Hv) as Hx. eapply Forall_impl; [exact Hx|]. simpl. lia. }
  rewrite <-length_app. apply Permutation_length, NoDup_Permutation.
  - apply sorted_NoDup. by apply from_elems.
  - apply NoDup_app. split_and!; [apply sorted_NoDup; by apply from_elems| |done].
    intros x Hx%elem_of_elems (v & _ & (_ & _ & Hn & _))%HY. done.
  - intros y. rewrite elem_of_app, !elem_of_elems, Hmem, HY. by setoid_rewrite elem_of_elems.
Qed.

Lemma expected_count (d shifted_by values : IndexSet) : wf d -> wf shifted_by -> wf values ->
  (total (flat d) + total (flat values) < 2 ^ 64)%Z ->
  add_shifted_by_expected d shifted_by values
  = Some (Z.of_nat (length (elems (flat d))
      + length (filter (λ v, ~ mem v (flat shifted_by)) (elems (flat values))))).
Proof.
  intros Hd Hs Hv Hsum. unfold add_shifted_by_expected. rewrite !as_indexes_spec by done. mrun.
  rewrite <-(length_elems_flat d), <-(length_elems_flat values) in Hsum by done.
  generalize dependent (elems (flat values)). generalize (length (elems (flat d))) as n. clear -H Hs.
  intros n xs. revert n. induction xs as [|x xs IH]; intros n Hsum; cbn [foldM].
  { simpl. by rewrite Nat.add_0_r. }
  cbn [length] in Hsum. rewrite contains_spec by done. mrun. rewrite filter_cons.
  case_bool_decide as Hin.
  - rewrite decide_False by tauto. apply IH. lia.
  - rewrite decide_True, u64_small by (done || lia). simpl.
    replace (Z.of_nat n + 1)%Z with (Z.of_nat (S n)) by lia. rewrite IH by lia. do 2 f_equal. lia.
Qed.

Lemma add_shifted_by_spec (d shifted_by values : IndexSet) : wf d -> wf shifted_by -> wf values ->
  bounded (npos - total (flat d)) (flat values) -> (total (flat d) + total (flat values) < 2 ^ 64)%Z ->
  exists d', add_shifted_by d shifted_by values = Some d' /\ wf_flat (flat d')
    /\ (fits d values -> wf d')
    /\ forall y, mem y (flat d') <-> mem y (flat d) \/ exists v, v ∈ values /\ placed d shifted_by v y.
Proof.
  intros Hd Hs Hv Hbnd Hsum. unfold add_shifted_by. case_bool_decide as Hv0.
  { subst values. exists d. split_and!; [done|apply Hd|done|]. intros y. split; [tauto|].
    intros [?|(v & Hm%mem_nil & _)]; done. }
  set (exact := fits d values). set (K := length (flat d) / max_size).
  pose proof (elems_bounds values Hv) as Hx. pose proof (from_elems values Hv) as [Hsort _].
  destruct (added_before_fold exact d shifted_by Hd Hs (elems (flat values)) K 0 0 (λ _, False)
    (mkShiftState (builder_new d) (it_begin d) (it_begin shifted_by) 0 0 0)) as (st & next & Hrun & Hst).
  { exists [], (flat shifted_by), [], (flat d), 0%Z. destruct Hs as [Hs' [HokS HbS]], Hd as [Hd' [HokD HbD]].
    split_and!; [done| |done|done| | |done|].
    - split_and!; cbn [shift_it length]; [by rewrite locate_begin|done|done].
    - split; cbn [old_it length]; [by rewrite locate_begin|done].
    - exists [], 0%Z. split_and!; [apply pushed_new|done|done|done| | |simpl; lia].
      + intros r Hr. destruct (flat d); [done|]. injection Hr as ->. apply HokD.
      + intros y. rewrite !mem_nil. tauto.
    - by rewrite rank_0. }
  { done. }
  { done. }
  { apply Forall_forall. intros x Hin. rewrite Forall_forall in Hx. specialize (Hx x Hin).
    apply elem_of_elems in Hin. pose proof (mem_bounded _ _ _ Hbnd Hin). lia. }
  destruct Hst as (S1 & S2 & O1 & O2 & rho & _ & _ & _ & HfD & [HitD _] & Hh & _).
  destruct Hh as (L & hi & Hb & Hhi & HallO & HhdO & HmemL & HlenL). rewrite Nat.add_0_l in HlenL.
  destruct (copy_tail exact d Hd K O2 (ranges_fuel d) O1 (builder st) L hi)
    as (b' & it' & L' & hi' & Htail & Hb' & HmemL'); [done|by eapply ranges_fuel_app|done|lia|done| |].
  { unfold exact, fits, K. intros Hfits. rewrite HfD, length_app in Hfits at 1. lia. }
  assert (forall y, mem y L' <-> mem y (flat d) \/ exists v, v ∈ values /\ placed d shifted_by v y) as Hmem.
  { intros y. rewrite HmemL', HmemL, HfD, mem_app. setoid_rewrite elem_of_elems. tauto. }
  assert (wf_flat L') as HwfL.
  { split; [apply Hb'|]. apply (bounded_of_mem 0); [apply Hb'|]. intros y [Hy|(v & Hy & Hpl)]%Hmem.
    - pose proof (elem_of_bounds y d Hd Hy). lia.
    - apply (placed_bound d shifted_by v y); [done..|]. pose proof (mem_bounded _ _ _ Hbnd Hy). lia. }
  destruct (builder_finalize_spec exact b' L' K) as (d' & Hfin & Hf' & Hcut & Hwf'); [apply Hb'|done|].
  rewrite <-Hf' in Hmem, HwfL. exists d'. split_and!; [|done..].
  assert (copy_ranges d (old_it st) (builder st) = Some b') as Hcopy.
  { unfold copy_ranges. rewrite HitD, Htail. done. }
  destruct realm_debug eqn:Hdbg.
  - rewrite expected_count, as_indexes_spec by done. mrun.
    rewrite Hrun. mrun. rewrite Hcopy. mrun. rewrite Hfin. mrun. rewrite as_indexes_cut by done. mrun.
    rewrite REALM_ASSERT_decide; [done|]. f_equal. rewrite <-flat_recount.
    apply (length_added d shifted_by values (recount d')); [done..|by apply recount_wf|by rewrite flat_recount].
  - mrun. rewrite as_indexes_spec by done. mrun. rewrite Hrun. mrun. rewrite Hcopy. mrun.
    rewrite Hfin. done.
Qed.

End add_shifted_by_spec.
