(* ===== verification/ChangeBuilder.v ===== *)
(** * Collection changes

    [CollectionChangeSet] (include/collection_notifications.hpp) and
    [CollectionChangeBuilder] (include/impl/collection_change_builder.hpp,
    impl/collection_change_builder.cpp): the changes made to a collection while
    a transaction log is parsed, and their composition. *)

From S2P Require Import Prelude ChunkedRangeVector IndexSet.

(** ** Unspecified orders of the C++ library

    The order in which an [unordered_map] is visited, and the order of
    equivalent elements after [std::sort], are not determined by the language:
    the model is parametrised by them. *)
Class StdOrders := {
  map_order : gmap Z Z -> list (Z * Z);
  map_order_perm : forall m, map_order m ≡ₚ map_to_list m;
  std_sort : forall {A : Type}, (A -> A -> bool) -> list A -> list A;
  std_sort_perm : forall {A : Type} (lt : A -> A -> bool) l, std_sort lt l ≡ₚ l;
  std_sort_sorted : forall {A : Type} (lt : A -> A -> bool) l,
    (forall x y, lt x y = true -> lt y x = false) ->
    (forall x y z, lt y x = false -> lt z y = false -> lt z x = false) ->
    StronglySorted (λ x y, lt y x = false) (std_sort lt l);
}.

(** One implementation: a stable sort, maps visited in the order of their keys'
    encoding. *)
Definition not_after {A} (lt : A -> A -> bool) (x y : A) : Prop := lt y x = false.

#[export] Instance not_after_dec {A} (lt : A -> A -> bool) x y : Decision (not_after lt x y).
Proof. unfold not_after. apply _. Defined.

Definition stable_sort {A} (lt : A -> A -> bool) (l : list A) : list A :=
  merge_sort (not_after lt) l.

Lemma stable_sort_sorted {A} (lt : A -> A -> bool) l :
  (forall x y, lt x y = true -> lt y x = false) ->
  (forall x y z, lt y x = false -> lt z y = false -> lt z x = false) ->
  StronglySorted (λ x y, lt y x = false) (stable_sort lt l).
Proof.
  intros Hasym Htrans.
  assert (Total (not_after lt)) as Htot.
  { intros x y. destruct (lt y x) eqn:E; [right; by apply Hasym|by left]. }
  assert (Transitive (not_after lt)) as Htr.
  { intros x y z Hxy Hyz. by apply (Htrans x y z). }
  by apply StronglySorted_merge_sort.
Qed.

#[export] Instance stable_orders : StdOrders | 100 := {
  map_order := map_to_list;
  map_order_perm := λ m, Permutation_refl _;
  std_sort := @stable_sort;
  std_sort_perm := λ A lt l, merge_sort_Permutation _ l;
  std_sort_sorted := @stable_sort_sorted;
}.

(** ** Data *)

Record Move := mkMove { move_from : Z; move_to : Z }.

#[export] Instance Move_eq_dec : EqDecision Move.
Proof. solve_decision. Defined.

(** What observers receive. *)
Record CollectionChangeSet := mkChangeSet {
  cs_deletions : IndexSet;
  cs_insertions : IndexSet;
  cs_modifications : IndexSet;
  cs_modifications_new : IndexSet;
  cs_moves : list Move;
  cs_columns : list IndexSet;
}.

(** The builder: the fields of its base class [CollectionChangeSet], then its
    own. *)
Record CollectionChangeBuilder := mkChangeBuilder {
  deletions : IndexSet;
  insertions : IndexSet;
  modifications : IndexSet;
  modifications_new : IndexSet;
  moves : list Move;
  columns : list IndexSet;
  m_move_mapping : gmap Z Z;
  m_track_columns : bool;
}.

Definition set_deletions (x : IndexSet) (b : CollectionChangeBuilder) : CollectionChangeBuilder :=
  mkChangeBuilder x (insertions b) (modifications b) (modifications_new b) (moves b)
    (columns b) (m_move_mapping b) (m_track_columns b).
Definition set_insertions (x : IndexSet) (b : CollectionChangeBuilder) : CollectionChangeBuilder :=
  mkChangeBuilder (deletions b) x (modifications b) (modifications_new b) (moves b)
    (columns b) (m_move_mapping b) (m_track_columns b).
Definition set_modifications (x : IndexSet) (b : CollectionChangeBuilder) : CollectionChangeBuilder :=
  mkChangeBuilder (deletions b) (insertions b) x (modifications_new b) (moves b)
    (columns b) (m_move_mapping b) (m_track_columns b).
Definition set_moves (x : list Move) (b : CollectionChangeBuilder) : CollectionChangeBuilder :=
  mkChangeBuilder (deletions b) (insertions b) (modifications b) (modifications_new b) x
    (columns b) (m_move_mapping b) (m_track_columns b).
Definition set_columns (x : list IndexSet) (b : CollectionChangeBuilder) : CollectionChangeBuilder :=
  mkChangeBuilder (deletions b) (insertions b) (modifications b) (modifications_new b)
    (moves b) x (m_move_mapping b) (m_track_columns b).
Definition set_mapping (x : gmap Z Z) (b : CollectionChangeBuilder) : CollectionChangeBuilder :=
  mkChangeBuilder (deletions b) (insertions b) (modifications b) (modifications_new b)
    (moves b) (columns b) x (m_track_columns b).

Definition empty_builder : CollectionChangeBuilder := mkChangeBuilder [] [] [] [] [] [] ∅ true.

(** [CollectionChangeSet::empty] *)
Definition is_empty (c : CollectionChangeBuilder) : bool :=
  bool_decide (deletions c = []) && bool_decide (insertions c = [])
  && bool_decide (modifications c = []) && bool_decide (modifications_new c = [])
  && bool_decide (moves c = []).

Section change_builder.
Context `{Build}.

(** [CollectionChangeBuilder(deletions, insertions, modifications, moves)] *)
Definition make_builder (dels ins mods : IndexSet) (mvs : list Move)
  : option CollectionChangeBuilder :=
  foldM (λ move b,
      d ← add (deletions b) (move_from move);
      i ← add (insertions b) (move_to move);
      Some (set_insertions i (set_deletions d b)))
    mvs (mkChangeBuilder dels ins mods [] mvs [] ∅ true).

(** [verify] *)
Definition verify_moves (b : CollectionChangeBuilder) : option unit :=
  if realm_debug then
    foldM (λ move _,
        d ← contains (deletions b) (move_from move); _ ← REALM_ASSERT d;
        i ← contains (insertions b) (move_to move); REALM_ASSERT i)
      (moves b) tt
  else Some tt.

(** A vector loop that updates every element in order. *)
Fixpoint mapM_vec {A B} (f : A -> option B) (l : list A) : option (list B) :=
  match l with
  | [] => Some []
  | x :: l => y ← f x; l ← mapM_vec f l; Some (y :: l)
  end.

Definition for_each_col (f : IndexSet -> option IndexSet) (b : CollectionChangeBuilder)
  : option CollectionChangeBuilder :=
  m ← f (modifications b);
  cols ← (if m_track_columns b then mapM_vec f (columns b) else Some (columns b));
  Some (set_columns cols (set_modifications m b)).

(** ** Recording the changes of a transaction *)

Definition modify (ndx col : Z) (b : CollectionChangeBuilder) : option CollectionChangeBuilder :=
  m ← add (modifications b) ndx;
  let b := set_modifications m b in
  if negb (m_track_columns b) || bool_decide (col = npos) then Some b
  else
    let cols := if bool_decide (Z.of_nat (length (columns b)) <= col)%Z
                then vec_resize (Z.to_nat (col + 1)) ([] : IndexSet) (columns b) else columns b in
    c ← cols !! Z.to_nat col;
    c ← add c ndx;
    Some (set_columns (<[Z.to_nat col := c]> cols) b).

(** The keys of the move mapping at or after [index] move up. *)
Definition shift_mapping (index cnt : Z) (m : gmap Z Z) `{StdOrders} : gmap Z Z :=
  let shifted := filter (λ p, index <= p.1)%Z (map_order m) in
  let m := filter (λ p, ~ index <= p.1)%Z m in
  foldl (λ m p, match m !! (p.1 +! cnt) with
                | Some _ => m
                | None => <[p.1 +! cnt := p.2]> m end) m shifted.

Definition insert `{StdOrders} (index cnt : Z) (track_moves : bool) (b : CollectionChangeBuilder)
  : option CollectionChangeBuilder :=
  _ ← REALM_ASSERT (bool_decide (cnt ≠ 0)%Z);
  b ← for_each_col (λ col, shift_for_insert_at col index cnt) b;
  if negb track_moves then Some b
  else
    i ← insert_at (insertions b) index cnt;
    let b := set_insertions i b in
    let b := set_moves ((λ m, if bool_decide (index <= move_to m)%Z
                              then mkMove (move_from m) (move_to m +! cnt) else m) <$> moves b) b in
    Some (set_mapping (shift_mapping index cnt (m_move_mapping b)) b).

Definition erase (index : Z) (b : CollectionChangeBuilder) : option CollectionChangeBuilder :=
  b ← for_each_col (λ col, erase_at col index) b;
  '(i, unshifted) ← erase_or_unshift (insertions b) index;
  let b := set_insertions i b in
  b ← (if bool_decide (unshifted ≠ npos) then
         '(d, _) ← add_shifted (deletions b) unshifted; Some (set_deletions d b)
       else Some b);
  Some (set_moves (omap (λ m,
    if bool_decide (move_to m = index) then None
    else if bool_decide (index < move_to m)%Z then Some (mkMove (move_from m) (move_to m -! 1))
    else Some m) (moves b)) b).

Definition clear (old_size : Z) (b : CollectionChangeBuilder) : option CollectionChangeBuilder :=
  old_size ← (
    if bool_decide (old_size ≠ npos) then
      dels ← ranges (deletions b);
      ins ← ranges (insertions b);
      let old_size := foldl (λ s r, s +! (r.2 -! r.1)) old_size dels in
      Some (foldl (λ s r, s -! (r.2 -! r.1)) old_size ins)
    else Some old_size);
  d ← set old_size;
  Some (mkChangeBuilder d [] [] (modifications_new b) [] [] ∅ (m_track_columns b)).

(** One existing move while a row goes from [from] to [to]. *)
Definition move_existing (from to : Z) (m : Move) (st : list Move * IndexSet * bool)
  : option (list Move * IndexSet * bool) :=
  let '(done, ins, updated) := st in
  if bool_decide (move_to m ≠ from) then
    let to' :=
      if bool_decide (to <= move_to m)%Z && bool_decide (move_to m < from)%Z then move_to m +! 1
      else if bool_decide (move_to m <= to)%Z && bool_decide (from < move_to m)%Z then move_to m -! 1
      else move_to m in
    Some (done ++ [mkMove (move_from m) to'], ins, updated)
  else
    _ ← REALM_ASSERT (negb updated);
    ins ← erase_at ins from;
    ins ← insert_at ins to 1;
    Some (done ++ [mkMove (move_from m) to], ins, true).

Definition move (from to : Z) (b : CollectionChangeBuilder) : option CollectionChangeBuilder :=
  _ ← REALM_ASSERT (bool_decide (from ≠ to));
  '(mvs, ins, updated) ← foldM (move_existing from to) (moves b) ([], insertions b, false);
  let b := set_moves mvs (set_insertions ins b) in
  b ← (if updated : bool then Some b
       else
         '(ins, shifted_from) ← erase_or_unshift (insertions b) from;
         ins ← insert_at ins to 1;
         let b := set_insertions ins b in
         if bool_decide (shifted_from ≠ npos) then
           '(d, shifted_from) ← add_shifted (deletions b) shifted_from;
           Some (set_moves (moves b ++ [mkMove shifted_from to]) (set_deletions d b))
         else Some b);
  for_each_col (λ col,
    modified ← contains col from;
    col ← erase_at col from;
    if modified : bool then insert_at col to 1 else shift_for_insert_at col to 1) b.

(** [prev(d.end())->second] *)
Definition last_end (d : IndexSet) : option Z :=
  p ← it_prev d (it_end d); r ← deref d p; Some r.2.

Definition end_at_most (d : IndexSet) (last_row : Z) : option bool :=
  if bool_decide (d = []) then Some true
  else e ← last_end d; Some (bool_decide (e -! 1 <= last_row)%Z).

Definition move_over (row_ndx last_row : Z) (track_moves : bool) (b : CollectionChangeBuilder)
  : option CollectionChangeBuilder :=
  _ ← REALM_ASSERT (bool_decide (row_ndx <= last_row)%Z);
  ok ← end_at_most (insertions b) last_row; _ ← REALM_ASSERT ok;
  ok ← end_at_most (modifications b) last_row; _ ← REALM_ASSERT ok;
  if bool_decide (row_ndx = last_row) then
    b ← (if track_moves then
           '(ins, shifted_from) ← erase_or_unshift (insertions b) row_ndx;
           let b := set_insertions ins b in
           b ← (if bool_decide (shifted_from ≠ npos) then
                  '(d, _) ← add_shifted (deletions b) shifted_from; Some (set_deletions d b)
                else Some b);
           Some (set_mapping (delete row_ndx (m_move_mapping b)) b)
         else Some b);
    for_each_col (λ col, remove col row_ndx 1) b
  else
    b ← for_each_col (λ col,
      modified ← contains col last_row;
      if modified : bool then col ← remove col last_row 1; add col row_ndx
      else remove col row_ndx 1) b;
    if negb track_moves then Some b
    else
      row_is_insertion ← contains (insertions b) row_ndx;
      last_is_insertion ← (if bool_decide (insertions b = []) then Some false
                           else e ← last_end (insertions b); Some (bool_decide (e = last_row +! 1)));
      _ ← (if bool_decide (insertions b = []) then Some tt
           else e ← last_end (insertions b); REALM_ASSERT_DEBUG (bool_decide (e <= last_row +! 1)%Z));
      (* collapse A -> B, B -> C into a single A -> C move *)
      let '(b, last_was_already_moved) :=
        match (if last_is_insertion : bool then m_move_mapping b !! last_row else None) with
        | Some source =>
            (set_mapping (delete last_row (<[row_ndx := source]> (m_move_mapping b))) b, true)
        | None => (b, false)
        end in
      (* remove moves to the row being deleted *)
      let b := if (row_is_insertion : bool) && negb last_was_already_moved
               then set_mapping (delete row_ndx (m_move_mapping b)) b else b in
      b ← (if last_is_insertion : bool then
             ins ← remove (insertions b) last_row 1; Some (set_insertions ins b)
           else if negb last_was_already_moved then
             shifted_last_row ← unshift (insertions b) last_row;
             '(d, shifted_last_row) ← add_shifted (deletions b) shifted_last_row;
             Some (set_mapping (<[row_ndx := shifted_last_row]> (m_move_mapping b)) (set_deletions d b))
           else Some b);
      b ← (if negb row_is_insertion then
             u ← unshift (insertions b) row_ndx;
             '(d, _) ← add_shifted (deletions b) u;
             ins ← add (insertions b) row_ndx;
             Some (set_insertions ins (set_deletions d b))
           else Some b);
      _ ← verify_moves b;
      Some b.

(** Exchange of the modification marks of two rows. *)
Definition swap_modified (ndx_1 ndx_2 : Z) (col : IndexSet) : option IndexSet :=
  row_1_modified ← contains col ndx_1;
  row_2_modified ← contains col ndx_2;
  if bool_decide (row_1_modified ≠ row_2_modified) then
    if row_1_modified : bool then col ← remove col ndx_1 1; add col ndx_2
    else col ← remove col ndx_2 1; add col ndx_1
  else Some col.

(** Marks [row] as moved to [target], unless it is a new insertion. *)
Definition add_move (row target : Z) (b : CollectionChangeBuilder) : option CollectionChangeBuilder :=
  inserted ← contains (insertions b) row;
  if inserted : bool then Some b
  else
    u ← unshift (insertions b) row;
    '(d, source) ← add_shifted (deletions b) u;
    let b := set_mapping (<[target := source]> (m_move_mapping b)) (set_deletions d b) in
    ins ← add (insertions b) row;
    Some (set_insertions ins b).

(** [update_move(existing_it, ndx_1, ndx_2)]: [existing] is the key of the
    iterator and [original] its value. *)
Definition update_move (existing original ndx_1 ndx_2 : Z) (b : CollectionChangeBuilder)
  : option CollectionChangeBuilder :=
  let m := <[ndx_1 := original]> (delete existing (m_move_mapping b)) in
  b ← add_move ndx_1 ndx_2 (set_mapping m b);
  inserted ← contains (insertions b) ndx_2;
  _ ← REALM_ASSERT_DEBUG inserted;
  Some b.

Definition swap (ndx_1 ndx_2 : Z) (track_moves : bool) (b : CollectionChangeBuilder)
  : option CollectionChangeBuilder :=
  _ ← REALM_ASSERT (bool_decide (ndx_1 ≠ ndx_2));
  let '(ndx_1, ndx_2) := if bool_decide (ndx_2 < ndx_1)%Z then (ndx_2, ndx_1) else (ndx_1, ndx_2) in
  b ← for_each_col (swap_modified ndx_1 ndx_2) b;
  if negb track_moves then Some b
  else
    match m_move_mapping b !! ndx_1, m_move_mapping b !! ndx_2 with
    | Some source_1, Some source_2 =>
        Some (set_mapping (<[ndx_1 := source_2]> (<[ndx_2 := source_1]> (m_move_mapping b))) b)
    | Some source_1, None => update_move ndx_1 source_1 ndx_2 ndx_1 b
    | None, Some source_2 => update_move ndx_2 source_2 ndx_1 ndx_2 b
    | None, None => b ← add_move ndx_2 ndx_1 b; add_move ndx_1 ndx_2 b
    end.

Definition subsume (old_ndx new_ndx : Z) (track_moves : bool) (b : CollectionChangeBuilder)
  : option CollectionChangeBuilder :=
  _ ← REALM_ASSERT (bool_decide (old_ndx ≠ new_ndx));
  b ← for_each_col (λ col,
    modified ← contains col old_ndx;
    if modified : bool then add col new_ndx else Some col) b;
  if negb track_moves then Some b
  else
    inserted ← contains (insertions b) new_ndx;
    _ ← REALM_ASSERT_DEBUG inserted;
    _ ← REALM_ASSERT_DEBUG (bool_decide (m_move_mapping b !! new_ndx = None));
    b ← (match m_move_mapping b !! old_ndx with
         | Some source =>
             Some (set_mapping (delete old_ndx (<[new_ndx := source]> (m_move_mapping b))) b)
         | None =>
             old_inserted ← contains (insertions b) old_ndx;
             if old_inserted : bool then Some b
             else
               u ← unshift (insertions b) old_ndx;
               s ← shift (deletions b) u;
               Some (set_mapping (<[new_ndx := s]> (m_move_mapping b)) b)
         end);
    _ ← verify_moves b;
    Some b.

Definition insert_column (ndx : Z) (b : CollectionChangeBuilder) : CollectionChangeBuilder :=
  if bool_decide (ndx < Z.of_nat (length (columns b)))%Z
  then set_columns (vec_insert (Z.to_nat ndx) ([] : IndexSet) (columns b)) b else b.

(** [std::rotate(begin + first, begin + middle, begin + last)] *)
Definition rotate_vec {A} (first middle last : nat) (l : list A) : list A :=
  take first l ++ drop middle (take last l) ++ drop first (take middle l) ++ drop last l.

Definition move_column (from to : Z) (b : CollectionChangeBuilder) : CollectionChangeBuilder :=
  let size := Z.of_nat (length (columns b)) in
  if bool_decide (size <= from)%Z && bool_decide (size <= to)%Z then b
  else
    let cols := if bool_decide (size <= from)%Z || bool_decide (size <= to)%Z
                then vec_resize (Z.to_nat (Z.max from to + 1)) ([] : IndexSet) (columns b)
                else columns b in
    let f := Z.to_nat from in
    let t := Z.to_nat to in
    set_columns (if bool_decide (from < to)%Z then rotate_vec f (S f) (S t) cols
                 else rotate_vec t f (S f) cols) b.

(** ** Finishing a transaction *)

Definition parse_complete `{StdOrders} (b : CollectionChangeBuilder) : option CollectionChangeBuilder :=
  b ← foldM (λ move b,
      d ← contains (deletions b) move.2; _ ← REALM_ASSERT_DEBUG d;
      i ← contains (insertions b) move.1; _ ← REALM_ASSERT_DEBUG i;
      if bool_decide (move.1 = move.2) then
        d ← remove (deletions b) move.2 1;
        i ← remove (insertions b) move.1 1;
        Some (set_insertions i (set_deletions d b))
      else Some (set_moves (moves b ++ [mkMove move.2 move.1]) b))
    (map_order (m_move_mapping b)) b;
  let b := set_mapping ∅ b in
  Some (set_moves (std_sort (λ a b, bool_decide (move_from a < move_from b)%Z) (moves b)) b).

(** One element of the [remove_if] of [clean_up_stale_moves]. *)
Definition clean_up_move (m : Move) (st : list Move * CollectionChangeBuilder)
  : option (list Move * CollectionChangeBuilder) :=
  let '(kept, b) := st in
  n ← count (deletions b) 0 (move_from m);
  k ← count (insertions b) 0 (move_to m);
  if bool_decide (move_from m -! n ≠ move_to m -! k) then Some (kept ++ [m], b)
  else
    d ← remove (deletions b) (move_from m) 1;
    i ← remove (insertions b) (move_to m) 1;
    Some (kept, set_insertions i (set_deletions d b)).

Definition clean_up_stale_moves (b : CollectionChangeBuilder) : option CollectionChangeBuilder :=
  '(kept, b) ← foldM clean_up_move (moves b) ([], b);
  Some (set_moves kept b).

Definition finalize (b : CollectionChangeBuilder) : option CollectionChangeSet :=
  modifications_in_old ← erase_at_all (modifications b) (insertions b);
  modifications_in_old ← shift_for_insert_at_all modifications_in_old (deletions b);
  mods ← remove_all (modifications b) (insertions b);
  Some (mkChangeSet (deletions b) (insertions b) modifications_in_old mods (moves b) (columns b)).

(** ** Composition *)

(** The [for_each_col] of [merge]: [f] may change the set of the later
    changeset, whose columns and those of [this] first get the same length. *)
Fixpoint zip_cols (f : IndexSet -> IndexSet -> option (IndexSet * IndexSet))
    (cols others : list IndexSet) : option (list IndexSet * list IndexSet) :=
  match cols, others with
  | col :: cols, other :: others =>
      '(col, other) ← f col other;
      '(cols, others) ← zip_cols f cols others;
      Some (col :: cols, other :: others)
  | _, _ => Some (cols, others)
  end.

Definition merge_each_col (f : IndexSet -> IndexSet -> option (IndexSet * IndexSet))
    (b c : CollectionChangeBuilder) : option (CollectionChangeBuilder * CollectionChangeBuilder) :=
  '(m, cm) ← f (modifications b) (modifications c);
  let b := set_modifications m b in
  let c := set_modifications cm c in
  if m_track_columns b then
    let cols := if bool_decide (length (columns b) < length (columns c))
                then vec_resize (length (columns c)) ([] : IndexSet) (columns b) else columns b in
    let others := if bool_decide (length (columns c) < length (columns b))
                  then vec_resize (length (columns b)) ([] : IndexSet) (columns c) else columns c in
    '(cols, others) ← zip_cols f cols others;
    Some (set_columns cols b, set_columns others c)
  else Some (b, c).

(** [if (col.contains(from)) other.add(to)] *)
Definition carry_modification (from to : Z) (col other : IndexSet) : option (IndexSet * IndexSet) :=
  modified ← contains col from;
  if modified : bool then other ← add other to; Some (col, other) else Some (col, other).

(** The first [remove_if] of [merge] on one old move; [c.moves] loses the move
    that continues it. *)
Definition merge_old_move (old : Move) (st : list Move * CollectionChangeBuilder * CollectionChangeBuilder)
  : option (list Move * CollectionChangeBuilder * CollectionChangeBuilder) :=
  let '(kept, b, c) := st in
  match find_index (λ m, bool_decide (move_to old = move_from m)) (moves c) with
  | Some k =>
      m ← moves c !! k;
      '(b, c) ← merge_each_col (carry_modification (move_from m) (move_to m)) b c;
      back ← last (moves c);
      Some (kept ++ [mkMove (move_from old) (move_to m)], b,
            set_moves (removelast (<[k := back]> (moves c))) c)
  | None =>
      deleted ← contains (deletions c) (move_to old);
      if deleted : bool then Some (kept, b, c)
      else
        u ← unshift (deletions c) (move_to old);
        s ← shift (insertions c) u;
        Some (kept ++ [mkMove (move_from old) s], b, c)
  end.

(** [remove_if] with a predicate that may fail. *)
Fixpoint remove_ifM {A} (p : A -> option bool) (l : list A) : option (list A) :=
  match l with
  | [] => Some []
  | x :: l => drop ← p x; l ← remove_ifM p l; Some (if drop : bool then l else x :: l)
  end.

Definition merge (b c : CollectionChangeBuilder) : option CollectionChangeBuilder :=
  if is_empty c then Some b
  else if is_empty b then Some c
  else
    _ ← verify_moves b;
    _ ← verify_moves c;
    (* update any old moves *)
    '(b, c) ← (
      if negb (bool_decide (moves c = [])) || negb (bool_decide (deletions c = []))
         || negb (bool_decide (insertions c = [])) then
        '(kept, b, c) ← foldM merge_old_move (moves b) ([], b, c);
        Some (set_moves kept b, c)
      else Some (b, c));
    (* ignore new moves of rows which were previously inserted *)
    c ← (if negb (bool_decide (insertions b = [])) && negb (bool_decide (moves c = [])) then
           mvs ← remove_ifM (λ m, contains (insertions b) (move_from m)) (moves c);
           Some (set_moves mvs c)
         else Some c);
    (* previously modified rows which were moved are still modified *)
    '(b, c) ← (
      if negb (bool_decide (modifications b = [])) && negb (bool_decide (moves c = [])) then
        foldM (λ m '(b, c), merge_each_col (carry_modification (move_from m) (move_to m)) b c)
          (moves c) (b, c)
      else Some (b, c));
    (* the source position of new moves *)
    c ← (if negb (bool_decide (deletions b = [])) || negb (bool_decide (insertions b = [])) then
           mvs ← mapM_vec (λ m,
             u ← unshift (insertions b) (move_from m);
             s ← shift (deletions b) u;
             Some (mkMove s (move_to m))) (moves c);
           Some (set_moves mvs c)
         else Some c);
    let b := set_moves (moves b ++ moves c) b in
    dels ← add_shifted_by (deletions b) (insertions b) (deletions c);
    let b := set_deletions dels b in
    ins ← erase_at_all (insertions b) (deletions c);
    ins ← insert_at_all ins (insertions c);
    let b := set_insertions ins b in
    b ← clean_up_stale_moves b;
    '(b, _) ← merge_each_col (λ col other,
      col ← erase_at_all col (deletions c);
      col ← shift_for_insert_at_all col (insertions c);
      col ← add_all col other;
      Some (col, other)) b c;
    _ ← verify_moves b;
    Some b.

End change_builder.
