(* ===== verification/ChangeFacts.v ===== *)
(** * Correctness of recording changes

    What each operation of [CollectionChangeBuilder] does to the
    correspondence between the old and the new collection, and to the
    modification marks. *)

From S2P Require Import Prelude ChunkedRangeVector ChunkedFacts IndexSet LoopFacts IndexSetFacts.
From S2P Require Import IndexSetEdits IndexSetWalk IndexSetMerge CorrFacts AddShiftedFacts ChangeBuilder.

(** The correspondence a builder describes. *)
Definition same_element (b : CollectionChangeBuilder) (x y : Z) : Prop :=
  corr (flat (deletions b)) (flat (insertions b)) x y.

(** A set is the image of another one under a partial map of indices. *)
Definition image (f : Z -> Z -> Prop) (s s' : IndexSet) : Prop :=
  forall z, z ∈ s' <-> exists y, y ∈ s /\ f y z.

Definition erase_map (index y z : Z) : Prop := y <> index /\ z = down index y.
Definition insert_map (index cnt y z : Z) : Prop := z = up index cnt y.

Section facts.
Context `{Build}.

Record wf_builder (b : CollectionChangeBuilder) : Prop := {
  wf_deletions : wf (deletions b);
  wf_insertions : wf (insertions b);
  wf_modifications : wf (modifications b);
  wf_columns : Forall wf (columns b);
}.

(** ** Edits of sets as images *)

Lemma erased_image index (s s' : IndexSet) : erased index (flat s) (flat s') -> (0 <= index)%Z ->
  image (erase_map index) s s'.
Proof.
  intros He Hidx z. rewrite elem_of_flat, (He z). unfold erase_map, down. split.
  - intros [[? ?]|[? ?]]; [exists z|exists (z + 1)%Z]; (split; [done|]); case_decide; lia.
  - intros (y & Hy & Hne & ->). case_decide; [left; done|right].
    split; [lia|]. by replace (y - 1 + 1)%Z with y by lia.
Qed.

Lemma gap_image index cnt (s s' : IndexSet) : gap_opened index cnt (flat s) (flat s') ->
  (0 < cnt)%Z -> image (insert_map index cnt) s s'.
Proof.
  intros Hg Hcnt z. rewrite elem_of_flat, (Hg z). unfold insert_map, up. split.
  - intros [[? ?]|[? ?]]; [exists z|exists (z - cnt)%Z]; (split; [done|]); case_decide; lia.
  - intros (y & Hy & ->). case_decide; [left; done|right].
    split; [lia|]. by replace (y + cnt - cnt)%Z with y by lia.
Qed.

(** ** [for_each_col] *)

Lemma mapM_vec_spec (P : IndexSet -> Prop) (R : IndexSet -> IndexSet -> Prop) f l :
  (forall c, P c -> exists c', f c = Some c' /\ R c c') -> Forall P l ->
  exists l', mapM_vec f l = Some l' /\ Forall2 R l l'.
Proof.
  intros Hf. induction 1 as [|c l Hc _ IH]; cbn [mapM_vec].
  - exists []. split; [done|constructor].
  - destruct (Hf c Hc) as (c' & -> & HR). destruct IH as (l' & -> & HR'). mrun.
    exists (c' :: l'). split; [done|by constructor].
Qed.

(** The columns after a change that applies to tracked columns only. *)
Definition columns_related (R : IndexSet -> IndexSet -> Prop) (b : CollectionChangeBuilder)
    (cols : list IndexSet) : Prop :=
  if m_track_columns b then Forall2 (λ c c', wf c' /\ R c c') (columns b) cols
  else cols = columns b.

Lemma for_each_col_spec (P : IndexSet -> Prop) R f b :
  (forall c, P c -> exists c', f c = Some c' /\ wf c' /\ R c c') -> wf_builder b ->
  P (modifications b) -> Forall P (columns b) ->
  exists m cols, for_each_col f b = Some (set_columns cols (set_modifications m b))
    /\ wf_builder (set_columns cols (set_modifications m b))
    /\ R (modifications b) m /\ columns_related R b cols.
Proof.
  intros Hf Hwf Hm Hcols. unfold for_each_col, columns_related.
  destruct (Hf _ Hm) as (m & -> & Hwfm & HR). mrun.
  destruct (m_track_columns b).
  - destruct (mapM_vec_spec P (λ c c', wf c' /\ R c c') f (columns b)) as (cols & -> & HR'); [done..|].
    mrun. exists m, cols. split_and!; [done| |done..].
    destruct Hwf. split; [done..|]. simpl. eapply Forall2_Forall_r; [exact HR'|].
    apply Forall_forall. by intros ? ? ? [].
  - mrun. exists m, (columns b). split_and!; [done| |done..]. destruct Hwf. by split.
Qed.

(** ** Moves *)

(** The sources of moves are deletions, their targets insertions, and no row
    moves twice or is the target of two moves. *)
Record wf_moves (b : CollectionChangeBuilder) : Prop := {
  moves_ok : Forall (λ m, move_from m ∈ deletions b /\ move_to m ∈ insertions b) (moves b);
  moves_from_nodup : NoDup (move_from <$> moves b);
  moves_to_nodup : NoDup (move_to <$> moves b);
}.

(** The moves when the target [y] becomes [g y], or disappears. *)
Definition retarget (g : Z -> option Z) (l : list Move) : list Move :=
  omap (λ m, mkMove (move_from m) <$> g (move_to m)) l.

Lemma elem_of_retarget g l m : m ∈ retarget g l <->
  exists y, mkMove (move_from m) y ∈ l /\ g y = Some (move_to m).
Proof.
  unfold retarget. rewrite list_elem_of_omap. split.
  - intros (m0 & Hm0 & Heq). destruct (g (move_to m0)) as [z|] eqn:E; [|done]. injection Heq as <-.
    exists (move_to m0). by destruct m0.
  - intros (y & Hy & E). eexists. split; [exact Hy|]. cbn [move_from move_to]. rewrite E. by destruct m.
Qed.

Lemma retarget_cons g m l : retarget g (m :: l) =
  match g (move_to m) with Some z => mkMove (move_from m) z :: retarget g l | None => retarget g l end.
Proof. unfold retarget. cbn [omap list_omap]. by destruct (g (move_to m)). Qed.

Lemma retarget_from_nodup g l : NoDup (move_from <$> l) -> NoDup (move_from <$> retarget g l).
Proof.
  induction l as [|m l IH]; [done|]. rewrite retarget_cons. cbn [fmap list_fmap].
  intros [Hm Hl]%NoDup_cons. destruct (g (move_to m)) as [z|]; [|by apply IH].
  cbn [fmap list_fmap move_from]. apply NoDup_cons. split; [|by apply IH].
  intros (m' & Hf & Hm')%list_elem_of_fmap. apply elem_of_retarget in Hm' as (y & Hy & _).
  apply Hm, list_elem_of_fmap. rewrite <-Hf in Hy. eexists; by split; [|exact Hy].
Qed.

Lemma retarget_to_nodup g l : (forall y y' z, g y = Some z -> g y' = Some z -> y = y') ->
  NoDup (move_to <$> l) -> NoDup (move_to <$> retarget g l).
Proof.
  intros Hinj. induction l as [|m l IH]; [done|]. rewrite retarget_cons. cbn [fmap list_fmap].
  intros [Hm Hl]%NoDup_cons. destruct (g (move_to m)) as [z|] eqn:E; [|by apply IH].
  cbn [fmap list_fmap move_to]. apply NoDup_cons. split; [|by apply IH].
  intros (m' & Hf & Hm')%list_elem_of_fmap. apply elem_of_retarget in Hm' as (y & Hy & Hg).
  apply Hm, list_elem_of_fmap. eexists. split; [|exact Hy]. cbn [move_to]. subst z. eauto.
Qed.

Lemma retarget_wf g (b b' : CollectionChangeBuilder) :
  (forall y y' z, g y = Some z -> g y' = Some z -> y = y') ->
  (forall x, x ∈ deletions b -> x ∈ deletions b') ->
  (forall y z, y ∈ insertions b -> g y = Some z -> z ∈ insertions b') ->
  moves b' = retarget g (moves b) -> wf_moves b -> wf_moves b'.
Proof.
  intros Hinj HD HI Hm [Hok Hf Ht]. split; rewrite Hm.
  - apply Forall_forall. intros m (y & Hy & Hg)%elem_of_retarget.
    rewrite Forall_forall in Hok. destruct (Hok _ Hy) as [? ?]. split; [by apply HD|by apply (HI y)].
  - by apply retarget_from_nodup.
  - by apply retarget_to_nodup.
Qed.

(** Two ways of computing the new targets agree on the moves there are. *)
Lemma omap_ext_in {A B} (f g : A -> option B) (l : list A) : (forall x, x ∈ l -> f x = g x) -> omap f l = omap g l.
Proof.
  induction l as [|x l IH]; intros Hfg; [done|]. cbn [omap list_omap].
  rewrite (Hfg x (list_elem_of_here x l)), IH; [done|]. intros y Hy. apply Hfg. by right.
Qed.

Definition erase_target (index y : Z) : option Z :=
  if decide (y = index) then None else Some (down index y).
Definition insert_target (index cnt y : Z) : option Z := Some (up index cnt y).

Lemma erase_target_inj index y y' z :
  erase_target index y = Some z -> erase_target index y' = Some z -> y = y'.
Proof. unfold erase_target, down. repeat case_decide; intros [=] [=]; lia. Qed.

Lemma insert_target_inj index cnt y y' z : (0 < cnt)%Z ->
  insert_target index cnt y = Some z -> insert_target index cnt y' = Some z -> y = y'.
Proof. unfold insert_target, up. repeat case_decide; intros ? [=] [=]; lia. Qed.

(** ** Reporting a deletion *)

(** [erase_or_unshift] followed by [add_shifted] for a row that was not an
    insertion. *)
Definition report_deletion (index : Z) (b : CollectionChangeBuilder) : option CollectionChangeBuilder :=
  '(i, unshifted) ← erase_or_unshift (insertions b) index;
  let b := set_insertions i b in
  if bool_decide (unshifted ≠ npos) then
    '(d, _) ← add_shifted (deletions b) unshifted; Some (set_deletions d b)
  else Some b.

(** A position outside the deletions with the rank of [index]. *)
Lemma add_shifted_corr (D I : IndexSet) (index : Z) : wf D -> wf I -> (0 <= index)%Z ->
  (index + total (flat D) < npos)%Z -> index ∉ I ->
  exists D' y, add_shifted D (index - below index (flat I)) = Some (D', y) /\ wf D'
    /\ corr (flat D) (flat I) y index /\ deletion_added (flat D) (flat I) (flat D') index
    /\ forall x, x ∈ D' <-> x ∈ D \/ x = y.
Proof.
  intros HD HI Hidx Hsum Hnot. pose proof HD as [_ [HokD _]]. pose proof HI as [_ [HokI _]].
  pose proof (rank_nonneg _ HokI index Hidx) as Hr0. pose proof (rank_le _ HokI index) as Hr1.
  unfold rank in Hr0, Hr1.
  destruct (add_shifted_spec D (index - below index (flat I))) as (D' & y & -> & HD' & Hy & Hyr & Hmem);
    [done|done|lia|].
  pose proof (below_nonneg y (flat D)) as Hb. exists D', y.
  assert (corr (flat D) (flat I) y index) as Hc.
  { split_and!; [lia|lia|exact Hy|exact Hnot|unfold rank; lia]. }
  split_and!; [done|done|done| |done].
  intros x. pose proof (Hmem x) as Hx. rewrite !elem_of_flat in Hx. rewrite Hx.
  split; [intros [? | ->]; [by left|by right]|].
  intros [?|Hc']; [by left|right]. by apply (corr_inj _ _ HokD HokI x y index).
Qed.

Lemma report_deletion_spec (b : CollectionChangeBuilder) (index : Z) : wf_builder b -> (0 <= index)%Z ->
  (index + total (flat (deletions b)) < npos)%Z ->
  exists D' I', report_deletion index b = Some (set_deletions D' (set_insertions I' b))
    /\ wf D' /\ wf I' /\ deletion_added (flat (deletions b)) (flat (insertions b)) (flat D') index
    /\ erased index (flat (insertions b)) (flat I').
Proof.
  intros [HD HI _ _] Hidx Hsum. unfold report_deletion. pose proof (wf_total _ HD) as HtD.
  destruct (erase_or_unshift_spec (insertions b) index HI) as (I' & -> & HI' & He); [lia|]. mrun.
  pose proof HI as [_ [HokI _]]. pose proof (rank_le _ HokI index) as Hr. unfold rank in Hr.
  destruct (decide (index ∈ insertions b)) as [Hin|Hnot].
  - rewrite bool_decide_false by tauto. exists (deletions b), I'. split_and!; [by destruct b|done|done| |done].
    intros x. split; [tauto|]. intros [?|(_ & _ & _ & Hn & _)]; [done|by destruct Hn].
  - rewrite bool_decide_true by lia.
    destruct (add_shifted_corr (deletions b) (insertions b) index) as (D' & y & Hrun & HD' & _ & Hadd & _);
      [done..|].
    change (deletions (set_insertions I' b)) with (deletions b). rewrite Hrun. mrun.
    exists D', I'. by split_and!.
Qed.

(** ** [erase] *)

Lemma erase_report index b : erase index b =
  (b ← for_each_col (λ col, erase_at col index) b;
   b ← report_deletion index b;
   Some (set_moves (omap (λ m,
    if bool_decide (move_to m = index) then None
    else if bool_decide (index < move_to m)%Z then Some (mkMove (move_from m) (move_to m -! 1))
    else Some m) (moves b)) b)).
Proof.
  unfold erase, report_deletion. destruct (for_each_col _ b) as [b1|]; [|done]. mrun.
  by destruct (erase_or_unshift (insertions b1) index) as [[i u]|].
Qed.

Lemma erase_moves (b : CollectionChangeBuilder) (index : Z) : wf_builder b -> (0 <= index)%Z ->
  wf_moves b ->
  omap (λ m,
    if bool_decide (move_to m = index) then None
    else if bool_decide (index < move_to m)%Z then Some (mkMove (move_from m) (move_to m -! 1))
    else Some m) (moves b) = retarget (erase_target index) (moves b).
Proof.
  intros [_ HI _ _] Hidx [Hok _ _]. apply omap_ext_in. intros m Hm.
  rewrite Forall_forall in Hok. destruct (Hok m Hm) as [_ Ht].
  pose proof (elem_of_bounds _ _ HI Ht) as Hb. unfold npos, erase_target, down in *.
  repeat case_bool_decide; repeat case_decide; try lia; try done; cbn [fmap option_fmap option_map].
  - by rewrite u64_small by lia.
  - by destruct m.
Qed.

(** The deletions and insertions after the row at [index] is erased. *)
Definition rows_erased (index : Z) (b b' : CollectionChangeBuilder) : Prop :=
  deletion_added (flat (deletions b)) (flat (insertions b)) (flat (deletions b')) index
  /\ erased index (flat (insertions b)) (flat (insertions b')).

Lemma erase_spec (b : CollectionChangeBuilder) (index : Z) : wf_builder b -> (0 <= index)%Z ->
  (index + total (flat (deletions b)) < npos)%Z ->
  exists b', erase index b = Some b' /\ wf_builder b'
    /\ (forall x z, same_element b' x z <-> exists y, same_element b x y /\ erase_map index y z)
    /\ image (erase_map index) (modifications b) (modifications b')
    /\ columns_related (image (erase_map index)) b (columns b')
    /\ (wf_moves b -> wf_moves b' /\ moves b' = retarget (erase_target index) (moves b))
    /\ rows_erased index b b'.
Proof.
  intros Hwf Hidx Hsum. rewrite erase_report.
  destruct (for_each_col_spec wf (image (erase_map index)) (λ col, erase_at col index) b)
    as (m & cols & -> & Hwf1 & HRm & HRc); [|done|by destruct Hwf|by destruct Hwf|].
  { intros c Hc. destruct (erase_at_spec c index Hc Hidx) as (c' & ? & ? & ?).
    exists c'. split_and!; [done..|by apply erased_image]. }
  mrun. destruct (report_deletion_spec (set_columns cols (set_modifications m b)) index Hwf1 Hidx Hsum)
    as (D' & I' & -> & HD' & HI' & Hadd & He). mrun.
  eexists. split; [done|]. split_and!.
  - destruct Hwf1. by split.
  - intros x z. destruct Hwf as [[_ [HokD _]] [_ [HokI _]] _ _]. destruct HD' as [_ [HokD' _]].
    destruct HI' as [_ [HokI' _]].
    apply (corr_erase _ _ _ _ HokD HokI HokD' HokI' index He Hadd Hidx).
  - done.
  - done.
  - intros Hok. match goal with |- wf_moves ?b' /\ _ => enough (moves b' = retarget (erase_target index) (moves b)) as Heq end.
    { split; [|done]. apply (retarget_wf (erase_target index) b); [apply erase_target_inj| | |exact Heq|done].
      - intros x Hx. apply Hadd. by left.
      - intros y z Hy Hg. apply (erased_image index (insertions b) I' He Hidx). exists y. split; [done|].
        unfold erase_target, erase_map in *. case_decide; [done|]. by injection Hg as <-. }
    exact (erase_moves b index Hwf Hidx Hok).
  - done.
Qed.

(** ** [insert] *)

(** Opening a gap of [cnt] in the columns is possible when no index of theirs
    would pass the largest one. *)
Definition room (cnt : Z) (d : IndexSet) : Prop := wf d /\ bounded (npos - cnt) (flat d).

Lemma insert_columns index cnt b : wf_builder b -> (0 <= index)%Z -> (0 < cnt)%Z ->
  (index + cnt <= npos)%Z -> bounded (npos - cnt) (flat (modifications b)) ->
  Forall (λ c, bounded (npos - cnt) (flat c)) (columns b) ->
  exists m cols, for_each_col (λ col, shift_for_insert_at col index cnt) b
      = Some (set_columns cols (set_modifications m b))
    /\ wf_builder (set_columns cols (set_modifications m b))
    /\ image (insert_map index cnt) (modifications b) m
    /\ columns_related (image (insert_map index cnt)) b cols.
Proof.
  intros Hwf Hidx Hcnt Hle Hm Hcols.
  apply (for_each_col_spec (room cnt)); [|done|by destruct Hwf|].
  - intros c [Hc Hb]. destruct (shift_for_insert_at_spec c index cnt) as (c' & ? & ? & ?); [done..|].
    exists c'. split_and!; [done..|by apply gap_image].
  - destruct Hwf as [_ _ _ Hw]. rewrite Forall_forall in Hw, Hcols. apply Forall_forall.
    intros c Hc. split; [by apply Hw|by apply Hcols].
Qed.

Lemma inserted_up index cnt L L' y : inserted index cnt L L' -> (0 < cnt)%Z -> mem y L ->
  mem (up index cnt y) L'.
Proof.
  intros Hins Hcnt Hy. apply Hins. unfold up. case_decide; [by left|right; right].
  split; [lia|]. by replace (y + cnt - cnt)%Z with y by lia.
Qed.

Lemma insert_moves (b : CollectionChangeBuilder) (index cnt : Z) : wf_builder b -> (0 < cnt)%Z ->
  bounded (npos - cnt) (flat (insertions b)) -> wf_moves b ->
  ((λ m, if bool_decide (index <= move_to m)%Z
         then mkMove (move_from m) (move_to m +! cnt) else m) <$> moves b)
  = retarget (insert_target index cnt) (moves b).
Proof.
  intros [_ HI _ _] Hcnt HbI [Hok _ _]. unfold retarget, insert_target.
  cbn [fmap option_fmap option_map]. induction Hok as [|m l [_ Ht] _ IH]; [done|].
  cbn [fmap list_fmap omap list_omap]. rewrite IH. f_equal.
  pose proof (mem_bounded _ _ _ HbI Ht) as Hb. pose proof (elem_of_bounds _ _ HI Ht).
  unfold npos, up in *. case_bool_decide; case_decide; try lia.
  - by rewrite u64_small by lia.
  - by destruct m.
Qed.

Lemma insert_spec `{StdOrders} (b : CollectionChangeBuilder) (index cnt : Z) (track : bool) :
  wf_builder b -> (0 <= index)%Z -> (0 < cnt)%Z -> (index + cnt <= npos)%Z ->
  bounded (npos - cnt) (flat (insertions b)) -> bounded (npos - cnt) (flat (modifications b)) ->
  Forall (λ c, bounded (npos - cnt) (flat c)) (columns b) ->
  exists b', insert index cnt track b = Some b' /\ wf_builder b'
    /\ deletions b' = deletions b
    /\ (if track then inserted index cnt (flat (insertions b)) (flat (insertions b'))
          /\ forall x z, same_element b' x z <-> exists y, same_element b x y /\ z = up index cnt y
        else insertions b' = insertions b)
    /\ image (insert_map index cnt) (modifications b) (modifications b')
    /\ columns_related (image (insert_map index cnt)) b (columns b')
    /\ (wf_moves b -> wf_moves b'
         /\ moves b' = if track then retarget (insert_target index cnt) (moves b) else moves b).
Proof.
  intros Hwf Hidx Hcnt Hle HbI HbM HbC. unfold insert. rewrite REALM_ASSERT_decide by lia. mrun.
  destruct (insert_columns index cnt b) as (m & cols & -> & Hwf1 & HRm & HRc); [done..|]. mrun.
  destruct track; mrun; cycle 1.
  { eexists. split_and!; try done. intros [? ? ?]. by split. }
  change (insertions (set_columns cols (set_modifications m b))) with (insertions b).
  pose proof Hwf as [HD HI HM HC].
  destruct (insert_at_spec (insertions b) index cnt) as (I' & -> & HI' & Hins); [done..|]. mrun.
  eexists. split; [done|]. split_and!; [|done|done|intros x z| done| done|].
  - destruct Hwf1. by split.
  - destruct HD as [_ [HokD _]], HI as [_ [HokI _]], HI' as [_ [HokI' _]].
    by apply (corr_insert _ _ _ _ HokD HokI HokD HokI' index cnt Hins).
  - intros Hok.
    match goal with |- wf_moves ?b' /\ _ =>
      enough (moves b' = retarget (insert_target index cnt) (moves b)) as Heq end.
    { split; [|done]. apply (retarget_wf (insert_target index cnt) b); [|done| |exact Heq|done].
      - intros y y' z. by apply insert_target_inj.
      - intros y z Hy Hg. injection Hg as <-. exact (inserted_up index cnt (flat (insertions b)) (flat I') y Hins Hcnt Hy). }
    exact (insert_moves b index cnt Hwf Hcnt HbI Hok).
Qed.

(** *** The move mapping *)

Lemma emplace_fold (g : Z * Z -> Z) l : forall m : gmap Z Z,
  NoDup (g <$> l) -> Forall (λ p, m !! g p = None) l ->
  forall k v, foldl (λ m p, match m !! g p with Some _ => m | None => <[g p := p.2]> m end) m l !! k
      = Some v <-> m !! k = Some v \/ exists p, p ∈ l /\ k = g p /\ v = p.2.
Proof.
  induction l as [|p l IH]; intros m Hnd Hnone k v; cbn [foldl].
  { split; [by left|]. intros [?|(? & Hin & _)]; [done|]. by apply elem_of_nil in Hin. }
  cbn [fmap list_fmap] in Hnd. apply NoDup_cons in Hnd as [Hp Hnd].
  apply Forall_cons in Hnone as [Hn Hnone]. rewrite Hn, IH; [|done|].
  - rewrite lookup_insert_Some. setoid_rewrite elem_of_cons. split.
    + intros [[[<- <-]|[? ?]]|(q & ? & ? & ?)]; [right; by exists p; auto|by left|right; exists q; auto].
    + intros [Hm|(q & [->|?] & -> & ->)]; [|by left; left|by right; exists q].
      left. right. split; [|done]. intros Heq. rewrite Heq in Hn. congruence.
  - apply Forall_forall. intros q Hq. rewrite lookup_insert_None. split.
    + rewrite Forall_forall in Hnone. by apply Hnone.
    + intros Heq. apply Hp. rewrite Heq. by apply list_elem_of_fmap_2.
Qed.

Lemma shift_mapping_lookup `{StdOrders} (index cnt : Z) (m : gmap Z Z) : (0 <= index)%Z -> (0 < cnt)%Z ->
  (forall k v, m !! k = Some v -> 0 <= k /\ k + cnt < 2 ^ 64)%Z ->
  forall k v, shift_mapping index cnt m !! k = Some v <->
    ((k < index)%Z /\ m !! k = Some v) \/ ((index + cnt <= k)%Z /\ m !! (k - cnt)%Z = Some v).
Proof.
  intros Hidx Hcnt Hkeys k v. unfold shift_mapping.
  assert (forall p : Z * Z, p ∈ filter (λ p, (index <= p.1)%Z) (map_order m) <->
    (index <= p.1)%Z /\ m !! p.1 = Some p.2) as Hin.
  { intros [x y]. rewrite list_elem_of_filter, map_order_perm, elem_of_map_to_list. done. }
  assert (forall p : Z * Z, p ∈ filter (λ p, (index <= p.1)%Z) (map_order m) -> (p.1 +! cnt) = (p.1 + cnt)%Z)
    as Hsmall.
  { intros p [_ Hp]%Hin. specialize (Hkeys _ _ Hp). by rewrite u64_small by lia. }
  rewrite (emplace_fold (λ p, p.1 +! cnt)).
  - rewrite map_lookup_filter_Some. cbn [fst]. split.
    + intros [[? ?]|(p & Hp & -> & ->)]; [left; split; [lia|done]|right].
      rewrite Hsmall by done. apply Hin in Hp as [? Hp]. split; [lia|].
      by replace (p.1 + cnt - cnt)%Z with p.1 by lia.
    + intros [[? ?]|[? Hm]]; [left; split; [done|lia]|right].
      assert ((k - cnt, v)%Z ∈ filter (λ p : Z * Z, (index <= p.1)%Z) (map_order m)) as Hp.
      { apply Hin. split; [simpl; lia|done]. }
      eexists. split_and!; [exact Hp| |done]. rewrite Hsmall by done. simpl. lia.
  - apply NoDup_fmap_2_strong.
    + intros p q Hp Hq Heq. rewrite !Hsmall in Heq by done. apply Hin in Hp as [_ Hp], Hq as [_ Hq].
      destruct p as [x y], q as [x' y']. simpl in *. assert (x' = x) as -> by lia. congruence.
    + apply NoDup_filter. rewrite map_order_perm. apply NoDup_map_to_list.
  - apply Forall_forall. intros p Hp. rewrite Hsmall by done. apply map_lookup_filter_None. right.
    intros w Hw. cbn [fst]. apply Hin in Hp as [? _]. lia.
Qed.

End facts.

(** ** Correctness of recording changes: modifications and clearing

    [modify] and [clear] of [CollectionChangeBuilder]. *)

Section record.
Context `{Build}.

(** ** [modify] *)

(** Row [x] is marked in the set of column [c]. *)
Definition column_marks (cols : list IndexSet) (c : nat) (x : Z) : Prop :=
  exists s, cols !! c = Some s /\ x ∈ s.

Lemma column_marks_resize n cols c x : length cols <= n ->
  column_marks (vec_resize n ([] : IndexSet) cols) c x <-> column_marks cols c x.
Proof.
  intros Hle. unfold column_marks, vec_resize. split; intros (s & Hs & Hx); exists s; (split; [|done]).
  - destruct (decide (c < length cols)) as [Hc|Hc]; [by rewrite lookup_resize in Hs by lia|].
    destruct (decide (c < n)); [|by rewrite lookup_resize_old in Hs by lia].
    rewrite lookup_resize_new in Hs by lia. injection Hs as <-. by apply elem_of_flat, mem_nil in Hx.
  - assert (c < length cols) by (eapply lookup_lt_Some; eauto). by rewrite lookup_resize by lia.
Qed.

Lemma resize_wf n cols : Forall wf cols -> Forall wf (vec_resize n ([] : IndexSet) cols).
Proof. intros Hw. apply Forall_resize; [apply wf_nil|done]. Qed.

Lemma column_marks_insert cols c s s' ndx : cols !! c = Some s ->
  (forall x, x ∈ s' <-> x ∈ s \/ x = ndx) ->
  forall c' x, column_marks (<[c := s']> cols) c' x <-> column_marks cols c' x \/ (c' = c /\ x = ndx).
Proof.
  intros Hs Hs' c' x. unfold column_marks. destruct (decide (c' = c)) as [->|Hne].
  - rewrite list_lookup_insert_eq by (eapply lookup_lt_Some; eauto). split.
    + intros (? & [= <-] & [?| ->]%Hs'); [left; eauto|by right].
    + intros [(? & ? & ?)|[_ ->]]; exists s'; (split; [done|]); apply Hs'; [left|by right].
      by simplify_eq.
  - rewrite list_lookup_insert_ne by done. naive_solver.
Qed.

Lemma modify_spec (b : CollectionChangeBuilder) (ndx col : Z) : wf_builder b ->
  (0 <= ndx < npos)%Z -> (0 <= col <= npos)%Z ->
  exists b', modify ndx col b = Some b' /\ wf_builder b'
    /\ deletions b' = deletions b /\ insertions b' = insertions b /\ moves b' = moves b
    /\ (forall x, x ∈ modifications b' <-> x ∈ modifications b \/ x = ndx)
    /\ forall c x, column_marks (columns b') c x <-> column_marks (columns b) c x
         \/ (m_track_columns b = true /\ col <> npos /\ c = Z.to_nat col /\ x = ndx).
Proof.
  intros [HD HI HM HC] Hndx Hcol. unfold modify.
  destruct (add_spec (modifications b) ndx HM Hndx) as (m & -> & Hm & Hmem). mrun.
  cbn [m_track_columns set_modifications columns].
  destruct (negb (m_track_columns b) || bool_decide (col = npos)) eqn:E.
  { eexists. split_and!; [done|by split|done..|]. intros c x. split; [by left|].
    intros [?|(Ht & Hc & _)]; [done|]. rewrite Ht, bool_decide_false in E by done. done. }
  apply orb_false_iff in E as [Ht%negb_false_iff Hc%bool_decide_eq_false].
  set (cols := if bool_decide _ then _ else _).
  assert (Forall wf cols /\ Z.to_nat col < length cols
    /\ forall c x, column_marks cols c x <-> column_marks (columns b) c x) as (Hw & Hlt & Hmarks).
  { unfold cols. case_bool_decide; [|split_and!; [done|lia|done]]. unfold vec_resize.
    split_and!; [by apply resize_wf|rewrite length_resize; lia|].
    intros. apply column_marks_resize. lia. }
  destruct (lookup_lt_is_Some_2 _ _ Hlt) as [s Hs]. rewrite Hs. mrun.
  destruct (add_spec s ndx) as (s' & -> & Hws & Hmem'); [by eapply Forall_lookup_1|done|]. mrun.
  eexists. split_and!; [done| |done..|].
  - split; [done..|]. simpl. by apply Forall_insert.
  - intros c x. cbn [columns set_columns]. rewrite (column_marks_insert _ _ _ _ _ Hs Hmem'), Hmarks. tauto.
Qed.

(** ** [clear] *)

Lemma sum_ranges L : forall s, foldl (λ s r, s +! (r.2 -! r.1)) (u64 s) L = u64 (s + total L).
Proof.
  induction L as [|r L IH]; intros s; cbn [foldl total]; [by rewrite Z.add_0_r|].
  replace (u64 s +! (r.2 -! r.1)) with (u64 (s + (r.2 - r.1))) by u64_ring.
  rewrite IH. f_equal. lia.
Qed.

Lemma sub_ranges L : forall s, foldl (λ s r, s -! (r.2 -! r.1)) (u64 s) L = u64 (s - total L).
Proof.
  induction L as [|r L IH]; intros s; cbn [foldl total]; [by rewrite Z.sub_0_r|].
  replace (u64 s -! (r.2 -! r.1)) with (u64 (s - (r.2 - r.1))) by u64_ring.
  rewrite IH. f_equal. lia.
Qed.

(** The size of the collection before the changes, given its size now. *)
Definition size_before (b : CollectionChangeBuilder) (size : Z) : Z :=
  (size + total (flat (deletions b)) - total (flat (insertions b)))%Z.

Lemma clear_spec (b : CollectionChangeBuilder) (size n : Z) : wf_builder b -> (0 <= size <= npos)%Z ->
  n = (if decide (size = npos) then npos else size_before b size) -> (0 <= n <= npos)%Z ->
  exists b', clear size b = Some b' /\ wf_builder b' /\ wf_moves b'
    /\ (forall x, x ∈ deletions b' <-> 0 <= x < n)%Z
    /\ insertions b' = [] /\ modifications b' = [] /\ moves b' = [] /\ columns b' = []
    /\ m_move_mapping b' = ∅ /\ m_track_columns b' = m_track_columns b.
Proof.
  intros [[HsD _] [HsI _] _ _] Hsize Hn Hn0. unfold clear.
  set (old_size := if bool_decide (size <> npos) then _ else _). assert (old_size = Some n) as ->.
  { unfold old_size. case_decide; case_bool_decide; try done; [by subst|].
    rewrite !ranges_spec by done. mrun. f_equal. unfold npos in *.
    rewrite <-(u64_small size) by lia. rewrite sum_ranges, sub_ranges.
    unfold size_before in Hn. rewrite u64_small; lia. }
  mrun. destruct (set_spec n Hn0) as (d & -> & Hd & Hmem). mrun.
  eexists. split_and!; [done| | |done..].
  - split; [done|by apply wf_nil..|constructor].
  - split; constructor.
Qed.

End record.
