(* ===== verification/ChangeMove.v ===== *)
(** * Correctness of recording changes: moves, and [finalize]

    [move] of [CollectionChangeBuilder], how a builder tracks the rows of a
    collection through its correspondence and its moves, and the modifications an
    observer receives: in the indices of the old collection, and in those of the
    new one without the insertions. *)

From S2P Require Import Prelude ChunkedRangeVector ChunkedFacts IndexSet LoopFacts IndexSetFacts.
From S2P Require Import IndexSetEdits IndexSetWalk IndexSetMerge CorrFacts AddShiftedFacts ChangeBuilder ChangeFacts.

(** Old row [x] is row [y] of the new collection: it stayed in order, or it was
    moved. *)
Definition tracks (b : CollectionChangeBuilder) (x y : Z) : Prop :=
  same_element b x y \/ mkMove x y ∈ moves b.

(** The position of row [y] when row [from] goes to [to]. *)
Definition moved (from to y : Z) : Z :=
  if decide (y = from) then to else up to 1 (down from y).

Definition moved_map (from to y z : Z) : Prop := z = moved from to y.

Definition move_target (from to y : Z) : option Z := Some (moved from to y).

Ltac split_moved := unfold moved, up, down in *; repeat case_decide.

Lemma moved_inj from to y y' : moved from to y = moved from to y' -> y = y'.
Proof. split_moved; lia. Qed.

(** [I'] is [I] after the row at [from] goes to [to]. *)
Definition reinserted (from to : Z) (I I' : list range) : Prop :=
  exists I1, ok_from 0 I1 /\ erased from I I1 /\ inserted to 1 I1 I'.

Lemma corr_move (D I D' I' : list range) from to : ok_from 0 D -> ok_from 0 I -> ok_from 0 D' ->
  ok_from 0 I' -> reinserted from to I I' -> deletion_added D I D' from -> (0 <= from)%Z -> (0 <= to)%Z ->
  forall x z, corr D' I' x z <-> exists y, corr D I x y /\ y <> from /\ z = moved from to y.
Proof.
  intros HD HI HD' HI' (I1 & HI1 & He & Hi) Hadd Hf Ht x z.
  rewrite (corr_insert D' I1 D' I' HD' HI1 HD' HI' to 1 Hi) by (done || lia).
  setoid_rewrite (corr_erase D I D' I1 HD HI HD' HI1 from He Hadd Hf). split.
  - intros (y & (y0 & Hc & Hne & ->) & ->). exists y0. split_and!; [done..|].
    unfold moved. by rewrite decide_False.
  - intros (y & Hc & Hne & ->). exists (down from y). split; [by exists y|].
    unfold moved. by rewrite decide_False.
Qed.

(** The target itself is in the new set, and other members follow the row. *)
Lemma reinserted_mem from to I I' : reinserted from to I I' -> (0 <= from)%Z ->
  mem to I' /\ forall y, mem y I -> mem (moved from to y) I'.
Proof.
  intros (I1 & _ & He & Hi) Hf. split; [apply Hi; right; left; lia|]. intros y Hy.
  unfold moved. case_decide as E; [apply Hi; right; left; lia|].
  apply (inserted_up to 1 I1); [done|lia|]. apply He. unfold down. case_decide; [by left|right].
  split; [lia|]. by replace (y - 1 + 1)%Z with y by lia.
Qed.

Section move.
Context `{Build}.

Lemma erased_bounded (d d' : IndexSet) index hi : wf d' -> erased index (flat d) (flat d') ->
  bounded hi (flat d) -> bounded hi (flat d').
Proof.
  intros [_ [Hok _]] He Hb. apply (bounded_of_mem 0); [done|]. intros y [[? Hy]|[? Hy]]%He;
    pose proof (mem_bounded _ _ _ Hb Hy); lia.
Qed.

(** [erase_at(from)] followed by [insert_at(to)]. *)
Lemma reinsert_spec (d : IndexSet) from to : room 1 d -> (0 <= from)%Z -> (0 <= to < npos)%Z ->
  exists d1 d', erase_at d from = Some d1 /\ insert_at d1 to 1 = Some d' /\ wf d1 /\ wf d'
    /\ erased from (flat d) (flat d1) /\ reinserted from to (flat d) (flat d').
Proof.
  intros [Hwf Hb] Hf Ht. destruct (erase_at_spec d from Hwf Hf) as (d1 & Hrun & Hwf1 & He).
  destruct (insert_at_spec d1 to 1 Hwf1) as (d' & Hrun' & Hwf' & Hi); [lia..| |].
  { by apply (erased_bounded d _ from). }
  exists d1, d'. split_and!; [done..|]. exists (flat d1). split_and!; [apply Hwf1|done..].
Qed.

(** ** Columns *)

Lemma inserted_image index (s s' : IndexSet) : inserted index 1 (flat s) (flat s') ->
  forall z, z ∈ s' <-> z = index \/ exists y, y ∈ s /\ insert_map index 1 y z.
Proof.
  intros Hi z. rewrite elem_of_flat, (Hi z). unfold insert_map. split.
  - intros [[? ?]|[?|[? ?]]]; [right; exists z|left; lia|right; exists (z - 1)%Z];
      (split; [done|]); split_up_down; lia.
  - intros [->|(y & Hy & ->)]; [right; left; lia|]. apply Hi. apply (inserted_up index 1 (flat s)); [done|lia|done].
Qed.

(** Removing [from], opening a gap at [to] and marking it when [from] was
    marked. *)
Lemma moved_image from to (d d1 d' : IndexSet) : image (erase_map from) d d1 ->
  (forall z, z ∈ d' <-> (z = to /\ from ∈ d) \/ exists y, y ∈ d1 /\ insert_map to 1 y z) ->
  image (moved_map from to) d d'.
Proof.
  unfold image. intros H1 H2 z. rewrite H2. setoid_rewrite H1. unfold erase_map, insert_map, moved_map, moved. split.
  - intros [[-> Hf]|(y1 & (y & Hy & Hne & ->) & ->)]; [exists from|exists y];
      (split; [done|]); case_decide; done.
  - intros (y & Hy & ->). case_decide as E; [left; by subst|right]. exists (down from y).
    split; [|done]. by exists y.
Qed.

Lemma move_column_spec (d : IndexSet) from to : room 1 d -> (0 <= from)%Z -> (0 <= to < npos)%Z ->
  exists d', (modified ← contains d from;
      d ← erase_at d from;
      if modified : bool then insert_at d to 1 else shift_for_insert_at d to 1) = Some d'
    /\ wf d' /\ image (moved_map from to) d d'.
Proof.
  intros [Hwf Hb] Hf Ht. rewrite contains_spec by done. mrun.
  destruct (erase_at_spec d from Hwf Hf) as (d1 & -> & Hwf1 & He). mrun.
  pose proof (erased_bounded d d1 from _ Hwf1 He Hb) as Hb1.
  pose proof (erased_image from d d1 He Hf) as H1. case_bool_decide as Hm; rewrite <-elem_of_flat in Hm.
  - destruct (insert_at_spec d1 to 1 Hwf1) as (d' & -> & Hwf' & Hi); [lia..|done|].
    exists d'. split_and!; [done..|]. apply (moved_image from to d d1); [done|]. intros z.
    rewrite (inserted_image to d1 d' Hi z). tauto.
  - destruct (shift_for_insert_at_spec d1 to 1 Hwf1) as (d' & -> & Hwf' & Hg); [lia..|done|].
    exists d'. split_and!; [done..|]. apply (moved_image from to d d1); [done|]. intros z.
    rewrite (gap_image to 1 d1 d' Hg ltac:(lia) z). tauto.
Qed.

(** ** Existing moves *)

Lemma move_existing_other from to m l I u : (0 <= move_to m < npos)%Z -> (0 <= from)%Z ->
  move_to m <> from ->
  move_existing from to m (l, I, u) = Some (l ++ [mkMove (move_from m) (moved from to (move_to m))], I, u).
Proof.
  intros Hm Hf Hne. unfold move_existing, npos in *. rewrite bool_decide_true by done.
  set (to' := if bool_decide _ && _ then _ else _). assert (to' = moved from to (move_to m)) as ->; [|done].
  unfold to'. split_moved; repeat case_bool_decide; cbn [andb]; try lia; u64_drop; lia.
Qed.

Lemma move_others from to ms : forall l I u, Forall (λ m, 0 <= move_to m < npos)%Z ms -> (0 <= from)%Z ->
  from ∉ (move_to <$> ms) ->
  foldM (move_existing from to) ms (l, I, u)
  = Some (l ++ retarget (move_target from to) ms, I, u).
Proof.
  induction ms as [|m ms IH]; intros l I u Hall Hf Hnot; cbn [foldM].
  { by rewrite app_nil_r. }
  apply Forall_cons in Hall as [Hm Hall]. cbn [fmap list_fmap] in Hnot.
  apply not_elem_of_cons in Hnot as [Hne Hnot].
  rewrite move_existing_other by (done || congruence). mrun.
  rewrite IH by done. by rewrite retarget_cons, <-app_assoc.
Qed.

Lemma move_existing_same to m l I : move_existing (move_to m) to m (l, I, false) =
  (ins ← erase_at I (move_to m); ins ← insert_at ins to 1;
   Some (l ++ [mkMove (move_from m) to], ins, true)).
Proof.
  unfold move_existing. rewrite bool_decide_false by (intros Hne; by apply Hne).
  by rewrite REALM_ASSERT_true.
Qed.

(** The loop over the existing moves: the insertions follow the row if it is
    the target of one of them. *)
Lemma move_existing_spec (I : IndexSet) from to ms : room 1 I ->
  Forall (λ m, move_to m ∈ I) ms -> NoDup (move_to <$> ms) -> (0 <= from)%Z -> (0 <= to < npos)%Z ->
  exists I', foldM (move_existing from to) ms ([], I, false)
      = Some (retarget (move_target from to) ms, I', bool_decide (from ∈ (move_to <$> ms)))
    /\ if decide (from ∈ (move_to <$> ms)) then wf I' /\ reinserted from to (flat I) (flat I') else I' = I.
Proof.
  intros HI Hms Hnd Hf Ht.
  assert (Forall (λ m, 0 <= move_to m < npos)%Z ms) as Hall.
  { eapply Forall_impl; [exact Hms|]. intros m Hm. apply (elem_of_bounds _ I); [apply HI|done]. }
  case_decide as Hin; [|exists I; rewrite bool_decide_false by done; by rewrite move_others].
  rewrite bool_decide_true by done. apply list_elem_of_fmap in Hin as (m & -> & Hm).
  apply list_elem_of_split in Hm as (l1 & l2 & ->).
  rewrite fmap_app in Hnd. apply NoDup_app in Hnd as (_ & Hd & Hnd).
  cbn [fmap list_fmap] in Hnd. apply NoDup_cons in Hnd as [Hn2 _].
  rewrite foldM_app. apply Forall_app in Hall as [Hall1 Hall2]. apply Forall_cons in Hall2 as [Hm Hall2].
  rewrite move_others; [|done..|]; cycle 1.
  { intros Hm1. apply (Hd _ Hm1). cbn. left. }
  cbn [mbind option_bind foldM]. rewrite move_existing_same.
  destruct (reinsert_spec I (move_to m) to HI Hf Ht) as (I1 & I' & -> & HI' & _ & Hwf' & _ & Hr). mrun.
  rewrite HI'. mrun. rewrite move_others by done. exists I'. split; [|done].
  unfold retarget, move_target. rewrite omap_app. cbn [omap list_omap fmap option_fmap option_map app].
  rewrite <-app_assoc. do 6 f_equal. split_moved; done.
Qed.

(** ** Recording the move *)

(** [move] without the columns: the moves, the insertions and the deletions. *)
Definition record_move (from to : Z) (b : CollectionChangeBuilder) : option CollectionChangeBuilder :=
  '(mvs, ins, updated) ← foldM (move_existing from to) (moves b) ([], insertions b, false);
  let b := set_moves mvs (set_insertions ins b) in
  if updated : bool then Some b
  else
    '(ins, shifted_from) ← erase_or_unshift (insertions b) from;
    ins ← insert_at ins to 1;
    let b := set_insertions ins b in
    if bool_decide (shifted_from ≠ npos) then
      '(d, shifted_from) ← add_shifted (deletions b) shifted_from;
      Some (set_moves (moves b ++ [mkMove shifted_from to]) (set_deletions d b))
    else Some b.

(** The moves [M] after row [from] goes to [to]. *)
Definition move_recorded (from to : Z) (b : CollectionChangeBuilder) (M : list Move) : Prop :=
  forall m, m ∈ M <-> m ∈ retarget (move_target from to) (moves b)
    \/ (same_element b (move_from m) from /\ move_to m = to).

(** A row that is the target of a move, or new, is not the image of an old row
    that kept its order: the move replaces no other. *)
Lemma move_recorded_inserted from to b : from ∈ insertions b ->
  move_recorded from to b (retarget (move_target from to) (moves b)).
Proof.
  intros Hin m. split; [by left|]. intros [?|[(_ & _ & _ & Hn & _) _]]; [done|by destruct Hn].
Qed.

Lemma deletion_added_inserted D I index : mem index I -> deletion_added D I D index.
Proof. intros Hin x. split; [by left|]. intros [?|(_ & _ & _ & Hn & _)]; [done|by destruct Hn]. Qed.

Lemma record_move_wf from to (b : CollectionChangeBuilder) (D' I' : IndexSet) :
  reinserted from to (flat (insertions b)) (flat I') -> (0 <= from)%Z ->
  (forall x, x ∈ deletions b -> x ∈ D') -> wf_moves b ->
  wf_moves (set_moves (retarget (move_target from to) (moves b)) (set_deletions D' (set_insertions I' b))).
Proof.
  intros Hr Hf HD Hwf. apply (retarget_wf (move_target from to) b); [|done| |done|done].
  - intros y y' z [= <-] [= Heq]. by apply moved_inj in Heq.
  - intros y z Hy Hg. injection Hg as <-. by apply (reinserted_mem from to _ _ Hr Hf).
Qed.

(** A new move of a row that was not an insertion. *)
Lemma record_move_snoc from to (b : CollectionChangeBuilder) (D' I' : IndexSet) x :
  wf_moves b -> wf_moves (set_moves (retarget (move_target from to) (moves b))
    (set_deletions D' (set_insertions I' b))) ->
  x ∉ deletions b -> x ∈ D' -> from ∉ insertions b -> to ∈ I' ->
  wf_moves (set_moves (retarget (move_target from to) (moves b) ++ [mkMove x to])
    (set_deletions D' (set_insertions I' b))).
Proof.
  intros [Hok0 _ _] [Hok Hf Ht] Hx Hx' Hfrom Hto. rewrite Forall_forall in Hok0.
  split; cbn [moves set_moves]; rewrite ?fmap_app.
  - apply Forall_app. split; [done|]. by constructor.
  - apply NoDup_app. split_and!; [done| |apply NoDup_singleton].
    intros y (m & -> & Hm)%list_elem_of_fmap Hy%list_elem_of_singleton.
    apply elem_of_retarget in Hm as (y' & Hm & _). apply Hx. cbn in Hy. rewrite <-Hy. by apply (Hok0 _ Hm).
  - apply NoDup_app. split_and!; [done| |apply NoDup_singleton].
    intros y (m & -> & Hm)%list_elem_of_fmap Hy%list_elem_of_singleton.
    apply elem_of_retarget in Hm as (y' & Hm & Hg). cbn in Hy. rewrite Hy in Hg. injection Hg as Hg.
    assert (y' = from) as -> by (apply (moved_inj from to); rewrite Hg; unfold moved; by rewrite decide_True).
    apply Hfrom. by apply (Hok0 _ Hm).
Qed.

Lemma record_move_spec (b : CollectionChangeBuilder) from to : wf_builder b -> wf_moves b ->
  room 1 (insertions b) -> (0 <= from < npos)%Z -> (0 <= to < npos)%Z ->
  (from + total (flat (deletions b)) < npos)%Z ->
  exists M D' I', record_move from to b = Some (set_moves M (set_deletions D' (set_insertions I' b)))
    /\ wf D' /\ wf I' /\ reinserted from to (flat (insertions b)) (flat I')
    /\ deletion_added (flat (deletions b)) (flat (insertions b)) (flat D') from
    /\ move_recorded from to b M
    /\ wf_moves (set_moves M (set_deletions D' (set_insertions I' b))).
Proof.
  intros Hwf Hmv HI Hf Ht Hsum. pose proof Hwf as [HD HwI _ _]. pose proof Hmv as [Hok _ Hto].
  unfold record_move.
  destruct (move_existing_spec (insertions b) from to (moves b)) as (I' & -> & HI'); [done| |done|lia|lia|].
  { eapply Forall_impl; [exact Hok|]. by intros m [_ ?]. }
  mrun. case_decide as Hin.
  - destruct HI' as [HwI' Hr]. rewrite bool_decide_true by done.
    assert (from ∈ insertions b) as Hfrom.
    { apply list_elem_of_fmap in Hin as (m & -> & Hm). rewrite Forall_forall in Hok. by apply Hok. }
    exists (retarget (move_target from to) (moves b)), (deletions b), I'. split_and!; [done..| | |].
    + by apply deletion_added_inserted.
    + by apply move_recorded_inserted.
    + apply record_move_wf; [done|lia|done|done].
  - subst I'. rewrite bool_decide_false by done. cbn [insertions set_moves set_insertions].
    destruct (erase_or_unshift_spec (insertions b) from HwI Hf) as (I1 & -> & HwI1 & He). mrun.
    destruct (insert_at_spec I1 to 1 HwI1) as (I' & -> & HwI' & Hi); [lia..| |].
    { apply (erased_bounded (insertions b) _ from); [done..|apply HI]. }
    mrun. assert (reinserted from to (flat (insertions b)) (flat I')) as Hr.
    { exists (flat I1). split_and!; [apply HwI1|done..]. }
    case_decide as Hfrom.
    + rewrite bool_decide_false by tauto. exists (retarget (move_target from to) (moves b)), (deletions b), I'.
      split_and!; [by destruct b|done..| | |].
      * by apply deletion_added_inserted.
      * by apply move_recorded_inserted.
      * apply record_move_wf; [done|lia|done|done].
    + assert (from - below from (flat (insertions b)) <> npos)%Z as Hne.
      { pose proof (below_nonneg from (flat (insertions b))). unfold npos in *. lia. }
      rewrite bool_decide_true by done.
      destruct (add_shifted_corr (deletions b) (insertions b) from)
        as (D' & y & Hrun & HwD' & Hc & Hadd & HD'); [done|done|lia|lia|done|].
      cbn [deletions set_moves set_insertions moves]. rewrite Hrun. mrun.
      exists (retarget (move_target from to) (moves b) ++ [mkMove y to]), D', I'.
      split_and!; [done..| |].
      * intros m. rewrite elem_of_app, list_elem_of_singleton. unfold same_element.
        destruct HD as [_ [HokD _]], HwI as [_ [HokI _]].
        split; (intros [?|Hm]; [by left|right]); [subst m; done|].
        destruct m as [x z], Hm as [Hc' Hz]. cbn in Hc', Hz. subst z. f_equal.
        by apply (corr_inj _ _ HokD HokI x y from).
      * apply record_move_snoc; [done|apply record_move_wf; [done|lia| |done]|..].
        -- intros x Hx. apply HD'. by left.
        -- by destruct Hc as (_ & _ & Hn & _).
        -- apply HD'. by right.
        -- done.
        -- by apply (reinserted_mem from to _ _ Hr); lia.
Qed.

(** ** [move] *)

Lemma move_split from to b : move from to b =
  (_ ← REALM_ASSERT (bool_decide (from ≠ to)); b ← record_move from to b;
   for_each_col (λ col,
    modified ← contains col from;
    col ← erase_at col from;
    if modified : bool then insert_at col to 1 else shift_for_insert_at col to 1) b).
Proof.
  unfold move, record_move. destruct (REALM_ASSERT _); [|done]. mrun.
  by destruct (foldM _ _ _) as [[[mvs ins] []]|].
Qed.

(** The deletions and insertions after the row at [from] goes to [to]. *)
Definition rows_moved (from to : Z) (b b' : CollectionChangeBuilder) : Prop :=
  deletion_added (flat (deletions b)) (flat (insertions b)) (flat (deletions b')) from
  /\ reinserted from to (flat (insertions b)) (flat (insertions b')).

Lemma move_spec (b : CollectionChangeBuilder) from to : wf_builder b -> wf_moves b ->
  room 1 (insertions b) -> room 1 (modifications b) -> Forall (room 1) (columns b) -> from <> to ->
  (0 <= from < npos)%Z -> (0 <= to < npos)%Z -> (from + total (flat (deletions b)) < npos)%Z ->
  exists b', move from to b = Some b' /\ wf_builder b' /\ wf_moves b'
    /\ (forall x z, tracks b' x z <-> exists y, tracks b x y /\ z = moved from to y)
    /\ image (moved_map from to) (modifications b) (modifications b')
    /\ columns_related (image (moved_map from to)) b (columns b')
    /\ rows_moved from to b b'.
Proof.
  intros Hwf Hmv HI HM HC Hne Hf Ht Hsum. rewrite move_split, REALM_ASSERT_decide by done. mrun.
  destruct (record_move_spec b from to) as (M & D' & I' & -> & HD' & HI' & Hr & Hadd & Hrec & Hmv'); [done..|].
  mrun. destruct (for_each_col_spec (room 1) (image (moved_map from to)) (λ col,
    modified ← contains col from;
    col ← erase_at col from;
    if modified : bool then insert_at col to 1 else shift_for_insert_at col to 1)
    (set_moves M (set_deletions D' (set_insertions I' b)))) as (m & cols & -> & Hwf' & HRm & HRc).
  - intros c Hc. apply move_column_spec; (done || lia).
  - destruct Hwf. by split.
  - done.
  - done.
  - eexists. split_and!; [done|done| |intros x z|done|done|done].
    + destruct Hmv'. by split.
    + destruct Hwf as [[_ [HokD _]] [_ [HokI _]] _ _]. destruct HD' as [_ [HokD' _]], HI' as [_ [HokI' _]].
      pose proof (corr_move _ _ _ _ from to HokD HokI HokD' HokI' Hr Hadd ltac:(lia) ltac:(lia)) as Hcm.
      pose proof (Hrec (mkMove x z)) as Hrecx. unfold tracks, same_element in *.
      cbn [deletions insertions moves set_columns set_modifications set_moves set_deletions set_insertions
        move_from move_to] in *. rewrite Hcm, Hrecx, elem_of_retarget. cbn [move_from move_to].
      unfold move_target. split.
      * intros [(y & ? & ? & ?)|[(y & ? & [= Hg])|[? ->]]]; [exists y|exists y|exists from]; eauto.
        split; [by left|]. unfold moved. by rewrite decide_True.
      * intros (y & [Hc|Hm] & ->); [destruct (decide (y = from)) as [->|]|].
        -- right. right. split; [done|]. unfold moved. by rewrite decide_True.
        -- left. by exists y.
        -- right. left. by exists y.
Qed.

End move.

(** ** [finalize] *)
Section finalize.
Context `{Build}.

(** [erase_at_all(I)] then [shift_for_insert_at_all(D)] maps the rows of the new
    collection back to the old one; with [I] and [D] exchanged, forward. *)
Lemma transport_spec (d I D : IndexSet) : wf d -> wf I -> wf D ->
  bounded (npos - total (flat D)) (flat d) ->
  exists d1 d2, erase_at_all d I = Some d1 /\ wf d1 /\ shift_for_insert_at_all d1 D = Some d2 /\ wf d2
    /\ forall z, z ∈ d2 <-> exists y, y ∈ d /\ corr (flat D) (flat I) z y.
Proof.
  intros Hd HI HD Hb. destruct (erase_at_all_spec d I Hd HI) as (d1 & -> & Hd1 & Hmem1).
  destruct (shift_for_insert_at_all_spec d1 D Hd1 HD) as (d2 & Hrun & Hd2 & Hmem2).
  { apply (bounded_of_mem 0); [apply Hd1|]. intros y. rewrite <-elem_of_flat, Hmem1.
    intros (x & Hx & _ & ->). pose proof (mem_bounded _ _ _ Hb Hx).
    pose proof (below_nonneg x (flat I)). lia. }
  exists d1, d2. split_and!; [done..|]. intros z. rewrite Hmem2. unfold shifted_elem.
  rewrite <-elem_of_flat, Hmem1. unfold corr, rank. split.
  - intros (Hz & x & Hx & Hxn & Heq). exists x. pose proof (elem_of_bounds _ _ Hd Hx).
    pose proof HI as [_ [HokI _]]. pose proof (rank_nonneg _ HokI x ltac:(lia)) as Hr. unfold rank in Hr.
    pose proof (below_nonneg z (flat D)). split_and!; (done || lia).
  - intros (x & Hx & _ & _ & Hz & Hxn & Heq). split; [done|]. by exists x.
Qed.

Lemma finalize_spec (b : CollectionChangeBuilder) : wf_builder b ->
  bounded (npos - total (flat (deletions b))) (flat (modifications b)) ->
  exists c, finalize b = Some c
    /\ cs_deletions c = deletions b /\ cs_insertions c = insertions b /\ cs_moves c = moves b
    /\ cs_columns c = columns b /\ wf (cs_modifications c) /\ wf (cs_modifications_new c)
    /\ (forall x, x ∈ cs_modifications c <-> exists y, y ∈ modifications b /\ same_element b x y)
    /\ (forall y, y ∈ cs_modifications_new c <-> y ∈ modifications b /\ y ∉ insertions b).
Proof.
  intros [HD HI HM _] Hb. unfold finalize.
  destruct (transport_spec (modifications b) (insertions b) (deletions b)) as
    (d1 & d2 & -> & _ & Hrun & Hwf2 & Hmem2); [done..|]. mrun. rewrite Hrun. mrun.
  destruct (remove_all_spec (modifications b) (insertions b) HM HI) as (m & -> & Hm & Hmem). mrun.
  eexists. by split_and!.
Qed.

End finalize.

(** ** Walking the columns of two change sets together

    [merge] applies its updates to the modifications and, when columns are
    tracked, to every pair of columns: a view is one of these sets. *)

(** Column [i]; a column past the end of the vector is empty. *)
Definition col_at (i : nat) (b : CollectionChangeBuilder) : IndexSet := default [] (columns b !! i).

(** The sets a builder that tracks columns, or not, keeps up to date. *)
Definition view (track : bool) (v : CollectionChangeBuilder -> IndexSet) : Prop :=
  v = modifications \/ (track = true /\ exists i, v = col_at i).

(** [b'] differs from [b] in its modifications and columns only. *)
Definition same_rows (b b' : CollectionChangeBuilder) : Prop :=
  b' = set_columns (columns b') (set_modifications (modifications b') b).

Lemma same_rows_refl b : same_rows b b.
Proof. by destruct b. Qed.

Lemma same_rows_trans b1 b2 b3 : same_rows b1 b2 -> same_rows b2 b3 -> same_rows b1 b3.
Proof. unfold same_rows. intros H1 ->. rewrite H1. reflexivity. Qed.

Lemma same_rows_eqs b b' : same_rows b b' ->
  deletions b' = deletions b /\ insertions b' = insertions b /\ moves b' = moves b
  /\ m_track_columns b' = m_track_columns b /\ modifications_new b' = modifications_new b
  /\ m_move_mapping b' = m_move_mapping b.
Proof. intros ->. by split_and!. Qed.

Lemma view_wf `{Build} track v b : view track v -> wf_builder b -> wf (v b).
Proof.
  intros [->|(_ & i & ->)] [_ _ HM HC]; [done|]. unfold col_at.
  destruct (columns b !! i) eqn:E; [|by apply wf_nil]. by eapply (Forall_lookup_1 wf).
Qed.

Lemma view_rows track v : view track v -> forall b x, v (set_moves x b) = v b
  /\ v (set_deletions (deletions b) b) = v b.
Proof. intros [->|(_ & i & ->)] b x; done. Qed.

Section each_col.
Context (f : IndexSet -> IndexSet -> option (IndexSet * IndexSet)).
Context (P : IndexSet -> IndexSet -> Prop) (R : IndexSet -> IndexSet -> IndexSet -> IndexSet -> Prop).
Context (Hf : forall col other, P col other ->
  exists col' other', f col other = Some (col', other') /\ R col other col' other').

#[local] Set Default Proof Using "Hf".

Lemma zip_cols_spec cols others : length cols = length others ->
  (forall i, i < length cols -> P (default [] (cols !! i)) (default [] (others !! i))) ->
  exists cols' others', zip_cols f cols others = Some (cols', others')
    /\ length cols' = length cols /\ length others' = length cols
    /\ forall i, i < length cols -> R (default [] (cols !! i)) (default [] (others !! i))
         (default [] (cols' !! i)) (default [] (others' !! i)).
Proof.
  revert others. induction cols as [|col cols IH]; intros [|other others] Hlen HP; try done.
  { exists [], []. split_and!; [done..|]. intros i Hi. simpl in Hi. lia. }
  cbn [zip_cols]. destruct (Hf col other) as (col' & other' & -> & HR); [apply (HP 0); simpl; lia|].
  mrun. destruct (IH others) as (cols' & others' & -> & Hl & Hl' & HRs); [by injection Hlen| |].
  { intros i Hi. apply (HP (S i)). simpl. lia. }
  mrun. exists (col' :: cols'), (other' :: others'). simpl. split_and!; [done|by f_equal..|].
  intros [|i] Hi; [done|]. apply HRs. lia.
Qed.

(** Padding a vector of columns does not change any of them. *)
Lemma pad_at n (cols : list IndexSet) i : length cols <= n ->
  default ([] : IndexSet) (vec_resize n [] cols !! i) = default [] (cols !! i).
Proof using.
  intros Hle. unfold vec_resize. destruct (decide (i < length cols)).
  { by rewrite lookup_resize by lia. }
  rewrite (lookup_ge_None_2 cols) by lia. destruct (decide (i < n)).
  - by rewrite lookup_resize_new by lia.
  - by rewrite lookup_resize_old by lia.
Qed.

Lemma merge_each_col_spec b c : R [] [] [] [] ->
  (forall v, view (m_track_columns b) v -> P (v b) (v c)) ->
  exists b' c', merge_each_col f b c = Some (b', c') /\ same_rows b b' /\ same_rows c c'
    /\ (m_track_columns b = false -> columns b' = columns b)
    /\ forall v, view (m_track_columns b) v -> R (v b) (v c) (v b') (v c').
Proof.
  intros HR0 HP. unfold merge_each_col.
  destruct (Hf (modifications b) (modifications c)) as (m & cm & -> & HRm); [apply HP; by left|]. mrun.
  cbn [m_track_columns set_modifications columns].
  destruct (m_track_columns b) eqn:Et; cycle 1.
  { do 2 eexists. split_and!; [done..|]. intros v [->|[? _]]; done. }
  set (cols := if bool_decide (length (columns b) < length (columns c)) then _ else _).
  set (others := if bool_decide _ then _ else _).
  assert (length cols = length others) as Hlen.
  { unfold cols, others. repeat case_bool_decide; unfold vec_resize; rewrite ?length_resize; lia. }
  assert (forall i, default [] (cols !! i) = col_at i b) as Hc.
  { intros i. unfold cols, col_at. case_bool_decide; [|done]. apply pad_at. lia. }
  assert (forall i, default [] (others !! i) = col_at i c) as Ho.
  { intros i. unfold others, col_at. case_bool_decide; [|done]. apply pad_at. lia. }
  destruct (zip_cols_spec cols others Hlen) as (cols' & others' & -> & Hl & Hl' & HRs).
  { intros i _. rewrite Hc, Ho. apply HP. right. by eauto. }
  mrun. do 2 eexists. split_and!; [done..|]. intros v [->|(_ & i & ->)]; [done|].
  unfold col_at at 3 4. cbn [columns set_columns]. rewrite <-Hc, <-Ho.
  destruct (decide (i < length cols)); [by apply HRs|].
  by rewrite !(lookup_ge_None_2 _ i) by lia.
Qed.
End each_col.
