(* ===== verification/ChangeMerge.v ===== *)
(** * Correctness of [merge]

    [merge] composes two change sets: a row of the old collection is tracked
    through both, and the marks of the rows that survive are carried over. *)

From S2P Require Import Prelude ChunkedRangeVector ChunkedFacts IndexSet LoopFacts IndexSetFacts.
From S2P Require Import IndexSetEdits IndexSetWalk IndexSetMerge CorrFacts AddShiftedFacts ChangeBuilder.
From S2P Require Import ChangeFacts ChangeMove.

Section tracks.
Context `{Build}.

(** ** [tracks] is an injective partial function *)

Lemma same_element_fun b x y y' : wf_builder b -> same_element b x y -> same_element b x y' -> y = y'.
Proof. intros [[_ [HD _]] [_ [HI _]] _ _]. by apply corr_fun. Qed.

Lemma same_element_inj b x x' y : wf_builder b -> same_element b x y -> same_element b x' y -> x = x'.
Proof. intros [[_ [HD _]] [_ [HI _]] _ _]. by apply corr_inj. Qed.

Lemma moves_member b x y : wf_moves b -> mkMove x y ∈ moves b -> x ∈ deletions b /\ y ∈ insertions b.
Proof. intros [Hok _ _] Hm. rewrite Forall_forall in Hok. by apply (Hok _ Hm). Qed.

Lemma NoDup_fmap_eq {A B} (f : A -> B) (l : list A) x y : NoDup (f <$> l) -> x ∈ l -> y ∈ l ->
  f x = f y -> x = y.
Proof.
  intros Hnd Hx Hy Hf. apply list_elem_of_lookup in Hx as [i Hi], Hy as [j Hj].
  assert (i = j) as ->; [|congruence]. apply (NoDup_lookup _ i j (f x) Hnd); rewrite list_lookup_fmap.
  - by rewrite Hi.
  - by rewrite Hj, Hf.
Qed.

Lemma tracks_inj b x x' y : wf_builder b -> wf_moves b -> tracks b x y -> tracks b x' y -> x = x'.
Proof.
  intros Hwf Hmv [Hc|Hm] [Hc'|Hm'].
  - by apply (same_element_inj b x x' y).
  - apply moves_member in Hm' as [_ ?]; [|done]. by destruct Hc as (_ & _ & _ & [] & _).
  - apply moves_member in Hm as [_ ?]; [|done]. by destruct Hc' as (_ & _ & _ & [] & _).
  - destruct Hmv as [_ _ Ht]. by injection (NoDup_fmap_eq move_to _ _ _ Ht Hm Hm' eq_refl).
Qed.

Lemma tracks_fun b x y y' : wf_builder b -> wf_moves b -> tracks b x y -> tracks b x y' -> y = y'.
Proof.
  intros Hwf Hmv [Hc|Hm] [Hc'|Hm'].
  - by apply (same_element_fun b x y y').
  - apply moves_member in Hm' as [? _]; [|done]. by destruct Hc as (_ & _ & [] & _).
  - apply moves_member in Hm as [? _]; [|done]. by destruct Hc' as (_ & _ & [] & _).
  - destruct Hmv as [_ Hf _]. by injection (NoDup_fmap_eq move_from _ _ _ Hf Hm Hm' eq_refl).
Qed.

(** ** Carrying modifications *)

Definition carried (from to : Z) (col other col' other' : IndexSet) : Prop :=
  col' = col /\ wf other' /\ forall z, z ∈ other' <-> z ∈ other \/ (from ∈ col /\ z = to).

Lemma carry_modification_spec from to (col other : IndexSet) : wf col -> wf other -> (0 <= to < npos)%Z ->
  exists col' other', carry_modification from to col other = Some (col', other')
    /\ carried from to col other col' other'.
Proof.
  intros Hc Ho Ht. unfold carry_modification, carried. rewrite contains_spec by done. mrun.
  case_bool_decide as Hm; rewrite <-elem_of_flat in Hm.
  - destruct (add_spec other to Ho Ht) as (other' & -> & Hwf & Hmem). mrun.
    exists col, other'. split_and!; [done..|]. intros z. rewrite Hmem. tauto.
  - exists col, other. split_and!; [done..|]. intros z. tauto.
Qed.

(** Views of both builders that are well formed. *)
Definition wf_views (track : bool) (b : CollectionChangeBuilder) : Prop :=
  forall v, view track v -> wf (v b).

Lemma carry_views from to b c : wf_views (m_track_columns b) b -> wf_views (m_track_columns b) c ->
  (0 <= to < npos)%Z ->
  exists b' c', merge_each_col (carry_modification from to) b c = Some (b', c')
    /\ same_rows b b' /\ same_rows c c' /\ (m_track_columns b = false -> columns b' = columns b)
    /\ forall v, view (m_track_columns b) v -> carried from to (v b) (v c) (v b') (v c').
Proof.
  intros Hb Hc Ht.
  apply (merge_each_col_spec (carry_modification from to) (λ col other, wf col /\ wf other) (carried from to)).
  - intros col other [? ?]. by apply carry_modification_spec.
  - unfold carried. split_and!; [done|by apply wf_nil|]. intros z. rewrite !elem_of_flat, !mem_nil. tauto.
  - intros v Hv. by split; [apply Hb|apply Hc].
Qed.

End tracks.

(** ** Old moves *)

(** [moves[k] = moves.back(); moves.pop_back()] removes the element. *)
Lemma swap_pop {A} (l : list A) k x back : l !! k = Some x -> last l = Some back ->
  x :: removelast (<[k := back]> l) ≡ₚ l.
Proof.
  intros Hk [l' ->]%last_Some. destruct (decide (k < length l')) as [Hlt|Hge].
  - rewrite insert_app_l by done. rewrite removelast_last.
    rewrite lookup_app_l in Hk by done. apply list_elem_of_split_length in Hk as (l1 & l2 & -> & ->).
    rewrite insert_middle. solve_Permutation.
  - assert (k = length l') as ->.
    { apply lookup_lt_Some in Hk. rewrite length_app in Hk. simpl in Hk. lia. }
    rewrite list_lookup_middle in Hk by done. injection Hk as <-.
    rewrite insert_middle, removelast_last. solve_Permutation.
Qed.

Lemma same_rows_set_moves C c c' ms : same_rows C (set_moves (moves C) c) -> same_rows c c' ->
  same_rows C (set_moves (moves C) (set_moves ms c')).
Proof.
  destruct C, c, c'. unfold same_rows, set_moves, set_columns, set_modifications. cbn.
  by intros [=] [=]; subst.
Qed.

Section old_moves.
Context `{Build} (B C : CollectionChangeBuilder).
Context (HwfB : wf_builder B) (HwfC : wf_builder C) (HmvB : wf_moves B) (HmvC : wf_moves C).
Context (Hroom : bounded (npos - total (flat (insertions C))) (flat (insertions B))).

#[local] Set Default Proof Using "Type*".

(** The state of the loop once the old moves [P] are done. *)
Record old_merged (P kept : list Move) (b c : CollectionChangeBuilder) : Prop := {
  om_rows_b : same_rows B b;
  om_columns : m_track_columns B = false -> columns b = columns B;
  om_views_b : forall v, view (m_track_columns B) v -> v b = v B;
  om_rows_c : same_rows C (set_moves (moves C) c);
  om_moves : forall m, m ∈ moves c <-> m ∈ moves C /\ move_from m ∉ (move_to <$> P);
  om_nodup : NoDup (move_from <$> moves c);
  om_wf_c : wf_views (m_track_columns B) c;
  om_views_c : forall v, view (m_track_columns B) v -> forall z, z ∈ v c <-> z ∈ v C
    \/ exists y, y ∈ v B /\ y ∈ (move_to <$> P) /\ mkMove y z ∈ moves C;
  om_kept : forall x z, mkMove x z ∈ kept <-> exists y, mkMove x y ∈ P /\ tracks C y z;
  om_from : move_from <$> kept `sublist_of` move_from <$> P;
  om_to : NoDup (move_to <$> kept);
}.

Lemma old_merged_nil : old_merged [] [] B C.
Proof.
  split; try done.
  - apply same_rows_refl.
  - intros m. split; [intros ?; split; [done|by intros ?%elem_of_nil]|by intros [? _]].
  - apply HmvC.
  - intros v Hv. by eapply view_wf.
  - intros v Hv z. split; [by left|]. intros [?|(? & _ & Hin & _)]; [done|]. by apply elem_of_nil in Hin.
  - intros x z. split; [by intros ?%elem_of_nil|]. intros (? & ?%elem_of_nil & _). done.
  - constructor.
Qed.

Context (P kept : list Move) (old : Move) (b c : CollectionChangeBuilder).
Context (Hst : old_merged P kept b c) (Hold : old ∈ moves B) (Hfresh : move_to old ∉ (move_to <$> P)).

(** [kept] with the move that [old] becomes. *)
Lemma kept_snoc z : tracks C (move_to old) z ->
  (forall x z', mkMove x z' ∈ kept ++ [mkMove (move_from old) z] <->
     exists y, mkMove x y ∈ P ++ [old] /\ tracks C y z')
  /\ move_from <$> kept ++ [mkMove (move_from old) z] `sublist_of` move_from <$> P ++ [old]
  /\ NoDup (move_to <$> kept ++ [mkMove (move_from old) z]).
Proof.
  intros Hz. split_and!.
  - intros x z'. rewrite elem_of_app, (om_kept _ _ _ _ Hst), list_elem_of_singleton.
    setoid_rewrite elem_of_app. setoid_rewrite list_elem_of_singleton. split.
    + intros [(y & ? & ?)|[= -> ->]]; [exists y; by eauto|]. exists (move_to old).
      split; [right; by destruct old|done].
    + intros (y & [?|Heq] & Ht); [left; by eauto|right]. subst old. cbn [move_from move_to] in *.
      f_equal. by apply (tracks_fun C y).
  - rewrite !fmap_app. apply sublist_app; [apply Hst|done].
  - rewrite fmap_app. apply NoDup_app. split_and!; [apply Hst| |apply NoDup_singleton].
    intros y (m & -> & Hm)%list_elem_of_fmap Hy%list_elem_of_singleton. cbn in Hy.
    destruct m as [x z']. cbn in Hy. subst z'.
    apply (om_kept _ _ _ _ Hst) in Hm as (y & Hm & Ht). assert (y = move_to old) as ->.
    { by apply (tracks_inj C y (move_to old) z). }
    apply Hfresh, list_elem_of_fmap. by exists (mkMove x (move_to old)).
Qed.

(** [kept] when the row [old] moved is deleted. *)
Lemma kept_dropped : (forall z, ~ tracks C (move_to old) z) ->
  (forall x z, mkMove x z ∈ kept <-> exists y, mkMove x y ∈ P ++ [old] /\ tracks C y z)
  /\ move_from <$> kept `sublist_of` move_from <$> P ++ [old].
Proof.
  intros Hz. split.
  - intros x z. rewrite (om_kept _ _ _ _ Hst). setoid_rewrite elem_of_app.
    setoid_rewrite list_elem_of_singleton. split; [intros (y & ? & ?); by eauto|].
    intros (y & [?|Heq] & Ht); [by eauto|]. subst old. by destruct (Hz z).
  - rewrite fmap_app. apply sublist_inserts_r, Hst.
Qed.

Lemma fmap_snoc_to y : y ∈ (move_to <$> P ++ [old]) <-> y ∈ (move_to <$> P) \/ y = move_to old.
Proof. rewrite fmap_app, elem_of_app. cbn [fmap list_fmap]. by rewrite list_elem_of_singleton. Qed.

(** The later set does not move the row. *)
Lemma old_merged_kept kept' : (forall m, m ∈ moves c -> move_from m <> move_to old) ->
  (forall x z, mkMove x z ∈ kept' <-> exists y, mkMove x y ∈ P ++ [old] /\ tracks C y z) ->
  move_from <$> kept' `sublist_of` move_from <$> P ++ [old] -> NoDup (move_to <$> kept') ->
  old_merged (P ++ [old]) kept' b c.
Proof.
  intros Hnone Hk Hf Ht. destruct Hst as [Hrb Hcols Hvb Hrc Hmoves Hnd Hwfc Hvc _ _ _]. split; try done.
  - intros m. rewrite Hmoves, fmap_snoc_to. split; [|tauto]. intros [Hm Hn]. split; [done|].
    intros [?|Heq]; [done|]. by apply (Hnone m); [apply Hmoves|].
  - intros v Hv z. rewrite (Hvc v Hv). setoid_rewrite fmap_snoc_to. split; [naive_solver|].
    intros [?|(y & Hy & [?| ->] & Hm)]; [by left|right; by eauto|]. exfalso.
    by apply (Hnone (mkMove (move_to old) z)); [apply Hmoves|].
Qed.

(** The later set moves the row on. *)
Lemma old_merged_moved m k back b' c' : moves c !! k = Some m -> move_to old = move_from m ->
  last (moves c) = Some back -> same_rows b b' -> same_rows c c' ->
  (m_track_columns B = false -> columns b' = columns b) ->
  (forall v, view (m_track_columns B) v -> carried (move_from m) (move_to m) (v b) (v c) (v b') (v c')) ->
  old_merged (P ++ [old]) (kept ++ [mkMove (move_from old) (move_to m)]) b'
    (set_moves (removelast (<[k := back]> (moves c'))) c').
Proof.
  intros Hk Heq Hback Hrb' Hrc' Hcols' Hcar. pose proof (swap_pop _ _ _ _ Hk Hback) as Hperm.
  pose proof (same_rows_eqs _ _ Hrc') as (_ & _ & -> & _). set (ms := removelast _) in *.
  destruct Hst as [Hrb Hcols Hvb Hrc Hmoves Hnd Hwfc Hvc _ _ _].
  assert (m ∈ moves C) as HmC by (apply Hmoves; by eapply list_elem_of_lookup_2).
  assert (NoDup (move_from <$> m :: ms)) as Hnd' by (by rewrite Hperm).
  cbn [fmap list_fmap] in Hnd'. apply NoDup_cons in Hnd' as [Hm Hnd'].
  destruct (kept_snoc (move_to m)) as (? & ? & ?). { right. rewrite Heq. by destruct m. }
  split; try done.
  - by eapply same_rows_trans.
  - intros Ht. by rewrite Hcols', Hcols.
  - intros v Hv. destruct (Hcar v Hv) as [-> _]. by apply Hvb.
  - by eapply same_rows_set_moves.
  - intros m'. assert (m' ∈ moves c <-> m' ∈ m :: ms) as Hin by (by rewrite Hperm).
    cbn [moves set_moves]. rewrite fmap_snoc_to, Heq. rewrite Hmoves, elem_of_cons in Hin. split.
    + intros Hms. assert (m' ∈ moves C /\ move_from m' ∉ (move_to <$> P)) as [? ?] by (apply Hin; by right).
      split; [done|]. intros [?|Hf]; [done|]. apply Hm. rewrite <-Hf. by apply list_elem_of_fmap_2.
    + intros [? Hn]. destruct Hin as [[-> |?] _]; [|by destruct Hn; right|done]. split; [done|tauto].
  - intros v Hv. destruct (view_rows _ _ Hv c' ms) as [-> _]. by destruct (Hcar v Hv) as (_ & ? & _).
  - intros v Hv z. destruct (view_rows _ _ Hv c' ms) as [-> _].
    destruct (Hcar v Hv) as (_ & _ & Hz). rewrite Hz, (Hvc v Hv), (Hvb v Hv).
    setoid_rewrite fmap_snoc_to. rewrite Heq. split.
    + intros [[?|(y & ? & ? & ?)]|[? ->]]; [by left|right; by eauto|right]. exists (move_from m).
      split_and!; [done|by right|by destruct m].
    + intros [?|(y & ? & [?| ->] & Hm')]; [by left; left|left; right; by eauto|right]. split; [done|].
      by rewrite <-(NoDup_fmap_eq move_from _ _ _ (moves_from_nodup _ HmvC) Hm' HmC eq_refl).
Qed.

Lemma not_moved_tracks y z : (forall m, m ∈ moves C -> move_from m <> y) -> tracks C y z -> same_element C y z.
Proof. intros Hn [?|Hm]; [done|]. by destruct (Hn _ Hm). Qed.

Lemma merge_old_step : exists kept' b' c', merge_old_move old (kept, b, c) = Some (kept', b', c')
  /\ old_merged (P ++ [old]) kept' b' c'.
Proof.
  unfold merge_old_move. destruct (moves_member B (move_from old) (move_to old) HmvB) as [_ Hto].
  { by destruct old. }
  destruct (find_index_cases (λ m, bool_decide (move_to old = move_from m)) (moves c))
    as [[Hall ->]|(l1 & m & l2 & Hms & _ & Heq%bool_decide_eq_true & ->)].
  - assert (forall m, m ∈ moves c -> move_from m <> move_to old) as Hnone.
    { intros m Hm Hf. rewrite Forall_forall in Hall. specialize (Hall m Hm).
      by apply bool_decide_eq_false in Hall. }
    assert (forall m, m ∈ moves C -> move_from m <> move_to old) as HnoneC.
    { intros m Hm Hf. apply (Hnone m); [|done]. apply (om_moves _ _ _ _ Hst). split; [done|]. by rewrite Hf. }
    pose proof (same_rows_eqs _ _ (om_rows_c _ _ _ _ Hst)) as (HD & HI & _).
    cbn [deletions insertions set_moves] in HD, HI. rewrite HD, HI.
    pose proof HwfC as [HDC HIC _ _]. rewrite contains_spec by done. mrun.
    case_bool_decide as Hdel; rewrite <-elem_of_flat in Hdel.
    + destruct kept_dropped as [Hk Hf].
      { intros z Hz%not_moved_tracks; [|done]. by destruct Hz as (_ & _ & [] & _). }
      exists kept, b, c. split; [done|]. apply old_merged_kept; try done. apply Hst.
    + pose proof HwfB as [_ HIB _ _]. pose proof (elem_of_bounds _ _ HIB Hto) as Hb.
      pose proof (mem_bounded _ _ _ Hroom Hto) as Hb'. pose proof HDC as [_ [HokD _]].
      pose proof (rank_nonneg _ HokD (move_to old) ltac:(lia)) as Hr. pose proof (below_nonneg (move_to old) (flat (deletions C))).
      unfold rank in Hr. rewrite unshift_spec; [|done|lia|done]. mrun.
      destruct (shift_spec (insertions C) (move_to old - below (move_to old) (flat (deletions C))))
        as (s & -> & Hs & Hsr); [done|lia|unfold npos in *; lia|]. mrun.
      pose proof (below_nonneg s (flat (insertions C))).
      destruct (kept_snoc s) as (? & ? & ?).
      { left. split_and!; [lia|lia|done|done|]. unfold rank. lia. }
      do 3 eexists. split; [done|]. by apply old_merged_kept.
  - assert (moves c !! length l1 = Some m) as Hk by (rewrite Hms; by apply list_lookup_middle).
    rewrite Hk. cbn [mbind option_bind].
    assert (m ∈ moves C) as HmC by (apply (om_moves _ _ _ _ Hst); by eapply list_elem_of_lookup_2).
    destruct m as [y z]. cbn [move_from move_to] in *.
    destruct (moves_member C y z HmvC HmC) as [_ Hz]. pose proof HwfC as [_ HIC _ _].
    pose proof (same_rows_eqs _ _ (om_rows_b _ _ _ _ Hst)) as (_ & _ & _ & Ht & _).
    destruct (carry_views y z b c) as (b' & c' & -> & Hrb & Hrc & Hcols & Hcar).
    + intros v Hv. rewrite Ht in Hv. rewrite (om_views_b _ _ _ _ Hst v Hv). by eapply view_wf.
    + rewrite Ht. apply Hst.
    + by apply (elem_of_bounds _ (insertions C)).
    + rewrite Ht in Hcols, Hcar. mrun. pose proof (same_rows_eqs _ _ Hrc) as (_ & _ & Hmc & _). rewrite Hmc.
      destruct (last (moves c)) as [back|] eqn:Hback; cycle 1.
      { apply last_None in Hback. by rewrite Hback in Hms; destruct l1. }
      mrun. do 3 eexists. split; [done|]. rewrite <-Hmc. by apply (old_merged_moved (mkMove y z) _ back).
Qed.
End old_moves.
