(* ===== verification/ChangeMergeMoves.v ===== *)
(** * The moves of a composition

    The part of [merge] that comes before the deletions and insertions: the old
    moves are continued, the new ones get their source in the old collection
    and the marks of the rows they move are carried over. *)

From S2P Require Import Prelude ChunkedRangeVector ChunkedFacts IndexSet LoopFacts IndexSetFacts.
From S2P Require Import IndexSetEdits IndexSetWalk IndexSetMerge CorrFacts AddShiftedFacts ChangeBuilder.
From S2P Require Import ChangeFacts ChangeMove ChangeMerge.

(** ** Steps of [merge] *)

Section steps.
Context `{Build}.

Definition merge_old_moves (b c : CollectionChangeBuilder)
  : option (CollectionChangeBuilder * CollectionChangeBuilder) :=
  if negb (bool_decide (moves c = [])) || negb (bool_decide (deletions c = []))
     || negb (bool_decide (insertions c = [])) then
    '(kept, b, c) ← foldM merge_old_move (moves b) ([], b, c);
    Some (set_moves kept b, c)
  else Some (b, c).

Definition drop_inserted_moves (b c : CollectionChangeBuilder) : option CollectionChangeBuilder :=
  if negb (bool_decide (insertions b = [])) && negb (bool_decide (moves c = [])) then
    mvs ← remove_ifM (λ m, contains (insertions b) (move_from m)) (moves c);
    Some (set_moves mvs c)
  else Some c.

Definition carry_moved_rows (b c : CollectionChangeBuilder)
  : option (CollectionChangeBuilder * CollectionChangeBuilder) :=
  if negb (bool_decide (modifications b = [])) && negb (bool_decide (moves c = [])) then
    foldM (λ m '(b, c), merge_each_col (carry_modification (move_from m) (move_to m)) b c)
      (moves c) (b, c)
  else Some (b, c).

Definition source_positions (b c : CollectionChangeBuilder) : option CollectionChangeBuilder :=
  if negb (bool_decide (deletions b = [])) || negb (bool_decide (insertions b = [])) then
    mvs ← mapM_vec (λ m,
      u ← unshift (insertions b) (move_from m);
      s ← shift (deletions b) u;
      Some (mkMove s (move_to m))) (moves c);
    Some (set_moves mvs c)
  else Some c.

Definition merge_rows (b c : CollectionChangeBuilder) : option CollectionChangeBuilder :=
  dels ← add_shifted_by (deletions b) (insertions b) (deletions c);
  ins ← erase_at_all (insertions b) (deletions c);
  ins ← insert_at_all ins (insertions c);
  Some (set_insertions ins (set_deletions dels b)).

Definition merge_marks (b c : CollectionChangeBuilder) : option CollectionChangeBuilder :=
  '(b, _) ← merge_each_col (λ col other,
    col ← erase_at_all col (deletions c);
    col ← shift_for_insert_at_all col (insertions c);
    col ← add_all col other;
    Some (col, other)) b c;
  Some b.

Lemma merge_split b c : is_empty b = false -> is_empty c = false -> merge b c =
  (_ ← verify_moves b; _ ← verify_moves c;
   '(b, c) ← merge_old_moves b c;
   c ← drop_inserted_moves b c;
   '(b, c) ← carry_moved_rows b c;
   c ← source_positions b c;
   b ← merge_rows (set_moves (moves b ++ moves c) b) c;
   b ← clean_up_stale_moves b;
   b ← merge_marks b c;
   _ ← verify_moves b;
   Some b).
Proof.
  intros Hb Hc. unfold merge. rewrite Hb, Hc. unfold merge_old_moves, drop_inserted_moves, carry_moved_rows,
    source_positions, merge_rows, merge_marks.
  repeat match goal with
  | |- ?l = ?l => reflexivity
  | |- context [insertions (set_deletions ?d ?b)] =>
      change (insertions (set_deletions d b)) with (insertions b)
  | |- context [mbind _ (Some _)] => progress mrun
  | |- mbind _ ?e = _ => let p := fresh in destruct e as [p|]; [|done]; mrun;
      lazymatch type of p with prod _ _ => destruct p | _ => idtac end
  end.
Qed.
End steps.

(** ** Generic facts *)

Lemma remove_ifM_spec {A} (p : A -> option bool) (Q : A -> Prop) (l : list A) :
  (forall x, x ∈ l -> exists d, p x = Some d /\ (d = true <-> Q x)) ->
  exists l', remove_ifM p l = Some l' /\ l' `sublist_of` l /\ forall x, x ∈ l' <-> x ∈ l /\ ~ Q x.
Proof.
  induction l as [|x l IH]; intros Hp; cbn [remove_ifM].
  { exists []. split_and!; [done..|]. intros x. split; [by intros ?%elem_of_nil|by intros [? _]]. }
  destruct (Hp x) as (d & -> & Hd); [left|]. mrun.
  destruct IH as (l' & -> & Hsub & Hin); [intros y Hy; apply Hp; by right|]. mrun. destruct d.
  - exists l'. split_and!; [done|by constructor|]. intros y. rewrite Hin, elem_of_cons. split; [tauto|].
    intros [[->|?] Hn]; [tauto|done].
  - exists (x :: l'). split_and!; [done|by constructor|]. intros y. rewrite !elem_of_cons, Hin. split.
    + intros [->|[? ?]]; [|tauto]. split; [by left|]. intros HQ. by apply Hd in HQ.
    + tauto.
Qed.

Lemma sublist_fmap {A C} (f : A -> C) (l k : list A) : l `sublist_of` k -> f <$> l `sublist_of` f <$> k.
Proof. induction 1; cbn [fmap list_fmap]; by constructor. Qed.

Lemma NoDup_fmap_in {A C} (f : A -> C) (l k : list A) : NoDup l -> NoDup (f <$> k) ->
  (forall x, x ∈ l -> x ∈ k) -> NoDup (f <$> l).
Proof.
  intros Hl Hk Hin. apply NoDup_fmap_2_strong; [|done]. intros x y Hx Hy Hf.
  apply (NoDup_fmap_eq f k); auto.
Qed.

Lemma Forall2_fmap_to (R : Move -> Move -> Prop) (l l' : list Move) :
  Forall2 (λ m m', R m m' /\ move_to m' = move_to m) l l' -> move_to <$> l' = move_to <$> l.
Proof.
  induction 1 as [|m m' l l' [_ Ht] _ IH]; [done|]. cbn [fmap list_fmap]. rewrite Ht. by f_equal.
Qed.

Lemma same_rows_set_kept b b0 b' kept : same_rows b b0 -> same_rows (set_moves kept b0) b' ->
  same_rows (set_moves kept b) b'.
Proof.
  destruct b, b0, b'. unfold same_rows, set_moves, set_columns, set_modifications. cbn.
  by intros [=] [=]; subst.
Qed.

Lemma same_rows_set_sources c c0 c' mvs mvs' : same_rows c (set_moves (moves c) c0) ->
  same_rows (set_moves mvs c0) c' -> same_rows (set_moves mvs' c) (set_moves mvs' c').
Proof.
  destruct c, c0, c'. unfold same_rows, set_moves, set_columns, set_modifications. cbn.
  by intros [=] [=]; subst.
Qed.

Section carry.
Context `{Build} (track : bool).

(** Carrying the marks of a list of moves. *)
Lemma carry_fold (ms : list Move) : forall b c, m_track_columns b = track ->
  wf_views track b -> wf_views track c -> Forall (λ m, 0 <= move_to m < npos)%Z ms ->
  exists b' c', foldM (λ m '(b, c), merge_each_col (carry_modification (move_from m) (move_to m)) b c)
      ms (b, c) = Some (b', c')
    /\ same_rows b b' /\ same_rows c c' /\ (track = false -> columns b' = columns b)
    /\ wf_views track c' /\ (forall v, view track v -> v b' = v b)
    /\ forall v, view track v -> forall z, z ∈ v c' <-> z ∈ v c \/ exists y, y ∈ v b /\ mkMove y z ∈ ms.
Proof.
  induction ms as [|m ms IH]; intros b c Ht Hb Hc Hms; cbn [foldM].
  { exists b, c. split_and!; [done|by apply same_rows_refl..|done|done|done|].
    intros v _ z. split; [by left|]. intros [?|(? & _ & Hin)]; [done|]. by apply elem_of_nil in Hin. }
  apply Forall_cons in Hms as [Hm Hms].
  destruct (carry_views (move_from m) (move_to m) b c) as (b1 & c1 & -> & Hrb & Hrc & Hcols & Hcar);
    [by rewrite Ht|by rewrite Ht|done|]. mrun. rewrite Ht in Hcols, Hcar.
  assert (wf_views track b1) as Hb1.
  { intros v Hv. destruct (Hcar v Hv) as [-> _]. by apply Hb. }
  destruct (IH b1 c1) as (b' & c' & -> & Hrb' & Hrc' & Hcols' & Hwf' & Hvb & Hvc); [|done| |done|].
  { by destruct (same_rows_eqs _ _ Hrb) as (_ & _ & _ & -> & _). }
  { intros v Hv. by destruct (Hcar v Hv) as (_ & ? & _). }
  exists b', c'. split_and!; [done|by eapply same_rows_trans|by eapply same_rows_trans| |done| |].
  - intros Hf. by rewrite Hcols', Hcols.
  - intros v Hv. rewrite (Hvb v Hv). by destruct (Hcar v Hv) as [-> _].
  - intros v Hv z. destruct (Hcar v Hv) as (Heq & _ & Hz). rewrite (Hvc v Hv), Hz, Heq.
    setoid_rewrite elem_of_cons. split.
    + intros [[?|[? ->]]|(y & ? & ?)]; [by left|right|right; by eauto].
      exists (move_from m). split; [done|left]. by destruct m.
    + intros [?|(y & ? & [<-|?])]; [by left; left|left; by right|right; by eauto].
Qed.
End carry.

(** The marks of the columns are marks of the rows. *)
Definition marks_ok (b : CollectionChangeBuilder) : Prop :=
  forall i z, z ∈ col_at i b -> z ∈ modifications b.

Lemma view_marks track v b z : marks_ok b -> view track v -> z ∈ v b -> z ∈ modifications b.
Proof. intros Hok [->|(_ & i & ->)]; [done|]. by apply Hok. Qed.

Section prepare.
Context `{Build} (B C : CollectionChangeBuilder).
Context (HwfB : wf_builder B) (HwfC : wf_builder C) (HmvB : wf_moves B) (HmvC : wf_moves C).
Context (HmkB : marks_ok B).
Context (HroomI : bounded (npos - total (flat (insertions C))) (flat (insertions B))).
Context (HroomD : bounded (npos - total (flat (deletions B))) (flat (deletions C))).

#[local] Set Default Proof Using "Type*".

Let track := m_track_columns B.

Lemma merge_old_fold olds : forall P kept b c, P ++ olds = moves B -> old_merged B C P kept b c ->
  exists kept' b' c', foldM merge_old_move olds (kept, b, c) = Some (kept', b', c')
    /\ old_merged B C (moves B) kept' b' c'.
Proof.
  induction olds as [|old olds IH]; intros P kept b c HP Hst; cbn [foldM].
  { rewrite app_nil_r in HP. subst P. by exists kept, b, c. }
  destruct (merge_old_step B C HwfB HwfC HmvB HmvC HroomI P kept old b c Hst) as (k1 & b1 & c1 & -> & Hst').
  - rewrite <-HP. apply elem_of_app. right. left.
  - pose proof (moves_to_nodup _ HmvB) as Hnd. rewrite <-HP, fmap_app in Hnd.
    apply NoDup_app in Hnd as (_ & Hd & _). intros Hin. apply (Hd _ Hin). cbn. left.
  - mrun. apply (IH (P ++ [old])); [by rewrite <-app_assoc|done].
Qed.

Lemma old_merged_skip : moves C = [] -> deletions C = [] -> insertions C = [] ->
  old_merged B C (moves B) (moves B) B C.
Proof.
  intros Hm HD HI. assert (forall y z, tracks C y z <-> (0 <= y)%Z /\ y = z) as Ht.
  { intros y z. unfold tracks, same_element. rewrite Hm, HD, HI, corr_nil, elem_of_nil. tauto. }
  split; try done.
  - apply same_rows_refl.
  - intros m. rewrite Hm. split; [by intros ?%elem_of_nil|by intros [?%elem_of_nil _]].
  - by rewrite Hm; constructor.
  - intros v Hv. by eapply view_wf.
  - intros v Hv z. rewrite Hm. split; [by left|]. intros [?|(? & _ & _ & Hin)]; [done|]. by apply elem_of_nil in Hin.
  - intros x z. setoid_rewrite Ht. split; [|by intros (y & ? & _ & <-)]. intros Hin. exists z.
    destruct (moves_member B x z HmvB Hin) as [_ Hz]. destruct HwfB as [_ HI' _ _].
    pose proof (elem_of_bounds _ _ HI' Hz). split_and!; (done || lia).
  - apply HmvB.
Qed.

Lemma merge_old_moves_spec : exists kept b c, merge_old_moves B C = Some (set_moves kept b, c)
  /\ old_merged B C (moves B) kept b c.
Proof.
  unfold merge_old_moves. destruct (_ || _) eqn:E.
  - destruct (merge_old_fold (moves B) [] [] B C) as (kept & b & c & -> & Hst); [done|by apply old_merged_nil|].
    mrun. by exists kept, b, c.
  - apply orb_false_iff in E as [[Em%negb_false_iff%bool_decide_eq_true
      Ed%negb_false_iff%bool_decide_eq_true]%orb_false_iff Ei%negb_false_iff%bool_decide_eq_true].
    exists (moves B), B, C. split; [by destruct B|by apply old_merged_skip].
Qed.

Lemma drop_inserted_moves_spec (b c : CollectionChangeBuilder) : wf (insertions b) ->
  exists mvs, drop_inserted_moves b c = Some (set_moves mvs c) /\ mvs `sublist_of` moves c
    /\ forall m, m ∈ mvs <-> m ∈ moves c /\ move_from m ∉ insertions b.
Proof using.
  intros Hwf. unfold drop_inserted_moves. destruct (_ && _) eqn:E.
  - destruct (remove_ifM_spec (λ m, contains (insertions b) (move_from m))
      (λ m, move_from m ∈ insertions b) (moves c)) as (mvs & -> & Hsub & Hin).
    { intros m _. eexists. split; [by apply contains_spec|]. rewrite elem_of_flat. apply bool_decide_eq_true. }
    mrun. by exists mvs.
  - exists (moves c). split_and!; [by destruct c|done|]. intros m. split; [|tauto]. intros Hm. split; [done|].
    apply andb_false_iff in E as [E%negb_false_iff%bool_decide_eq_true|E%negb_false_iff%bool_decide_eq_true];
      rewrite E in *; [by intros ?%elem_of_flat%mem_nil|by apply elem_of_nil in Hm].
Qed.

(** The sources of the new moves, in the old collection. *)
Lemma source_positions_list ms : Forall (λ m, move_from m ∈ deletions C /\ move_from m ∉ insertions B) ms ->
  exists mvs, mapM_vec (λ m,
      u ← unshift (insertions B) (move_from m);
      s ← shift (deletions B) u;
      Some (mkMove s (move_to m))) ms = Some mvs
    /\ Forall2 (λ m m', same_element B (move_from m') (move_from m) /\ move_to m' = move_to m) ms mvs.
Proof.
  induction 1 as [|m ms [Hd Hn] _ IH]; cbn [mapM_vec]; [by exists []; split; [|constructor]|].
  pose proof HwfB as [HDB HIB _ _]. pose proof HwfC as [HDC _ _ _].
  pose proof (elem_of_bounds _ _ HDC Hd) as Hb. pose proof (mem_bounded _ _ _ HroomD Hd) as Hb'.
  pose proof HIB as [_ [HokI _]]. pose proof (rank_nonneg _ HokI (move_from m) ltac:(lia)) as Hr.
  pose proof (below_nonneg (move_from m) (flat (insertions B))). unfold rank in Hr.
  rewrite unshift_spec; [|done|lia|done]. mrun.
  destruct (shift_spec (deletions B) (move_from m - below (move_from m) (flat (insertions B))))
    as (s & -> & Hs & Hsr); [done|lia|unfold npos in *; lia|]. mrun.
  destruct IH as (mvs & -> & HF). mrun. eexists. split; [done|]. constructor; [|done].
  pose proof (below_nonneg s (flat (deletions B))).
  split; [|done]. unfold same_element, corr, rank. cbn [move_from]. split_and!; (done || lia).
Qed.

Lemma source_positions_spec b c : deletions b = deletions B -> insertions b = insertions B ->
  Forall (λ m, move_from m ∈ deletions C /\ move_from m ∉ insertions B) (moves c) ->
  exists mvs, source_positions b c = Some (set_moves mvs c)
    /\ Forall2 (λ m m', same_element B (move_from m') (move_from m) /\ move_to m' = move_to m) (moves c) mvs.
Proof.
  intros HD HI Hall. unfold source_positions. rewrite HD, HI. destruct (_ || _) eqn:E.
  - destruct (source_positions_list (moves c) Hall) as (mvs & -> & HF). mrun. by exists mvs.
  - apply orb_false_iff in E as [ED%negb_false_iff%bool_decide_eq_true EI%negb_false_iff%bool_decide_eq_true].
    exists (moves c). split; [by destruct c|]. apply Forall_Forall2_diag. eapply Forall_impl; [exact Hall|].
    intros m [Hd _]. split; [|done]. unfold same_element. rewrite ED, EI. apply corr_nil. split; [|done].
    destruct HwfC as [HDC _ _ _]. by apply (elem_of_bounds _ _ HDC Hd).
Qed.

Lemma carry_moved_rows_spec b c : m_track_columns b = track -> wf_views track b -> wf_views track c ->
  (forall v, view track v -> v b = v B) -> Forall (λ m, move_to m ∈ insertions C) (moves c) ->
  exists b' c', carry_moved_rows b c = Some (b', c')
    /\ same_rows b b' /\ same_rows c c' /\ (track = false -> columns b' = columns b)
    /\ wf_views track c' /\ (forall v, view track v -> v b' = v b)
    /\ forall v, view track v -> forall z, z ∈ v c' <-> z ∈ v c \/ exists y, y ∈ v B /\ mkMove y z ∈ moves c.
Proof.
  intros Ht Hb Hc Hvb Hms. unfold carry_moved_rows. destruct (_ && _) eqn:E.
  - destruct (carry_fold track (moves c) b c Ht Hb Hc) as (b' & c' & -> & ? & ? & ? & ? & ? & Hvc).
    { eapply Forall_impl; [exact Hms|]. intros m Hm. apply (elem_of_bounds _ (insertions C)); [apply HwfC|done]. }
    exists b', c'. split_and!; [done..|]. intros v Hv z. by rewrite (Hvc v Hv), (Hvb v Hv).
  - exists b, c. split_and!; [done|apply same_rows_refl..|done|done|done|].
    intros v Hv z. split; [by left|]. intros [?|(y & Hy & Hm)]; [done|].
    apply andb_false_iff in E as [E%negb_false_iff%bool_decide_eq_true|E%negb_false_iff%bool_decide_eq_true].
    + apply (view_marks track v) in Hy; [|done|done]. rewrite <-(Hvb modifications) in Hy by (by left).
      rewrite E in Hy. by apply elem_of_flat, mem_nil in Hy.
    + rewrite E in Hm. by apply elem_of_nil in Hm.
Qed.

(** Everything before the deletions and the insertions. *)
Record prepared (b c : CollectionChangeBuilder) : Prop := {
  pr_rows_b : same_rows (set_moves (moves b) B) b;
  pr_columns : track = false -> columns b = columns B;
  pr_views_b : forall v, view track v -> v b = v B;
  pr_rows_c : same_rows (set_moves (moves c) C) c;
  pr_wf_c : wf_views track c;
  pr_views_c : forall v, view track v -> forall z, z ∈ v c <-> z ∈ v C \/ exists y, y ∈ v B
    /\ mkMove y z ∈ moves C /\ (y ∈ (move_to <$> moves B) \/ y ∉ insertions B);
  pr_moves : forall x z, mkMove x z ∈ moves b ++ moves c <-> exists y,
    (mkMove x y ∈ moves B /\ tracks C y z) \/ (same_element B x y /\ mkMove y z ∈ moves C);
  pr_from : NoDup (move_from <$> moves b ++ moves c);
  pr_to : NoDup (move_to <$> moves b ++ moves c);
}.

Definition prepare (b c : CollectionChangeBuilder)
  : option (CollectionChangeBuilder * CollectionChangeBuilder) :=
  '(b, c) ← merge_old_moves b c;
  c ← drop_inserted_moves b c;
  '(b, c) ← carry_moved_rows b c;
  c ← source_positions b c;
  Some (b, c).

Lemma Forall2_NoDup {A} (R : A -> A -> Prop) (l l' : list A) :
  (forall y y' x, R y x -> R y' x -> y = y') -> Forall2 R l l' -> NoDup l -> NoDup l'.
Proof using.
  intros Hfun HF. induction HF as [|y x l l' HR HF IH]; intros Hnd; [constructor|].
  apply NoDup_cons in Hnd as [Hy Hnd]. apply NoDup_cons. split; [|by apply IH].
  intros Hx. apply Hy. apply list_elem_of_lookup in Hx as [i Hi].
  destruct (Forall2_lookup_r _ _ _ _ _ HF Hi) as (y' & Hy' & HR').
  rewrite (Hfun y y' x) by done. by eapply list_elem_of_lookup_2.
Qed.

(** The moves of the composition, from the old moves [kept] and the new moves
    [mvs] whose sources become those of [mvs']. *)
Section composed.
Context (kept mvs mvs' : list Move).
Context (Hkept : forall x z, mkMove x z ∈ kept <-> exists y, mkMove x y ∈ moves B /\ tracks C y z).
Context (Hkf : move_from <$> kept `sublist_of` move_from <$> moves B) (Hkt : NoDup (move_to <$> kept)).
Context (Hmvs : forall m, m ∈ mvs <-> m ∈ moves C /\ move_from m ∉ insertions B).
Context (Hmf : NoDup (move_from <$> mvs)) (Hmt : NoDup (move_to <$> mvs)).
Context (HF : Forall2 (λ m m', same_element B (move_from m') (move_from m) /\ move_to m' = move_to m) mvs mvs').

Lemma composed_new x z : mkMove x z ∈ mvs' <-> exists y, same_element B x y /\ mkMove y z ∈ moves C.
Proof.
  split.
  - intros [i Hi]%list_elem_of_lookup. destruct (Forall2_lookup_r _ _ _ _ _ HF Hi) as ([y z'] & Hy & Hs & Ht).
    cbn [move_from move_to] in *. subst z'. exists y. split; [done|]. apply Hmvs. by eapply list_elem_of_lookup_2.
  - intros (y & Hs & Hm). assert (mkMove y z ∈ mvs) as Hin.
    { apply Hmvs. split; [done|]. by destruct Hs as (_ & _ & _ & ? & _). }
    apply list_elem_of_lookup in Hin as [i Hi]. destruct (Forall2_lookup_l _ _ _ _ _ HF Hi) as ([x' z'] & Hx & Hs' & Ht).
    cbn [move_from move_to] in *. subst z'. rewrite (same_element_inj B x x' y) by done.
    by eapply list_elem_of_lookup_2.
Qed.

Lemma composed_moves x z : mkMove x z ∈ kept ++ mvs' <-> exists y,
  (mkMove x y ∈ moves B /\ tracks C y z) \/ (same_element B x y /\ mkMove y z ∈ moves C).
Proof. rewrite elem_of_app, Hkept, composed_new. naive_solver. Qed.

Lemma composed_from : NoDup (move_from <$> kept ++ mvs').
Proof.
  rewrite fmap_app. apply NoDup_app. split_and!.
  - eapply sublist_NoDup; [apply HmvB|exact Hkf].
  - intros x (m & -> & Hm)%list_elem_of_fmap (m' & Heq & Hm')%list_elem_of_fmap.
    destruct m as [x z], m' as [x' z']. cbn [move_from] in *. subst x'.
    apply composed_new in Hm' as (y & Hs & _). apply Hkept in Hm as (y' & Hm & _).
    apply moves_member in Hm as [? _]; [|done]. by destruct Hs as (_ & _ & [] & _).
  - apply (Forall2_NoDup (λ y x, same_element B x y) (move_from <$> mvs)); [|apply Forall2_fmap|done].
    + intros y y' x. by apply same_element_fun.
    + eapply Forall2_impl; [exact HF|]. by intros ? ? [? _].
Qed.

Lemma composed_to : NoDup (move_to <$> kept ++ mvs').
Proof.
  assert (move_to <$> mvs' = move_to <$> mvs) as Heq.
  { exact (Forall2_fmap_to (λ m m', same_element B (move_from m') (move_from m)) _ _ HF). }
  rewrite fmap_app, Heq. apply NoDup_app. split_and!; [done| |done].
  intros z (m & -> & Hm)%list_elem_of_fmap (m' & Hz & Hm')%list_elem_of_fmap.
  destruct m as [x z], m' as [y z']. cbn [move_to] in *. subst z'.
  apply Hkept in Hm as (y' & Hm & Ht). apply Hmvs in Hm' as [Hm' Hn]. cbn [move_from] in Hn.
  apply Hn. rewrite (tracks_inj C y y' z) by (done || by right). by destruct (moves_member B x y' HmvB Hm).
Qed.
End composed.

Lemma prepare_spec : exists b c, prepare B C = Some (b, c) /\ prepared b c.
Proof.
  unfold prepare. destruct merge_old_moves_spec as (kept & b0 & c0 & -> & Hst). mrun.
  destruct Hst as [Hrb Hcols Hvb Hrc Hmoves Hnd Hwfc Hvc Hkept Hkf Hkt].
  pose proof (same_rows_eqs _ _ Hrb) as (HD & HI & _ & Ht & _).
  pose proof HwfB as [_ HIB _ _].
  destruct (drop_inserted_moves_spec (set_moves kept b0) c0) as (mvs & -> & Hsub & Hin).
  { cbn [insertions set_moves]. by rewrite HI. }
  mrun. cbn [insertions set_moves] in Hin. rewrite HI in Hin.
  assert (forall m, m ∈ mvs <-> m ∈ moves C /\ move_from m ∉ insertions B) as Hmvs.
  { intros m. rewrite Hin, Hmoves. split; [tauto|]. intros [? Hn]. split_and!; [done| |done].
    intros (m' & Heq & Hm')%list_elem_of_fmap. apply Hn. rewrite Heq. destruct m' as [x y].
    by destruct (moves_member B x y HmvB Hm'). }
  assert (Forall (λ m, move_to m ∈ insertions C) mvs) as Hto.
  { apply Forall_forall. intros [y z] [Hm _]%Hmvs. by destruct (moves_member C y z HmvC Hm). }
  destruct (carry_moved_rows_spec (set_moves kept b0) (set_moves mvs c0))
    as (b' & c' & -> & Hrb' & Hrc' & Hcols' & Hwf' & Hvb' & Hvc'); [done| | | |done|].
  { intros v Hv. destruct (view_rows _ _ Hv b0 kept) as [-> _]. rewrite (Hvb v Hv). by eapply view_wf. }
  { intros v Hv. destruct (view_rows _ _ Hv c0 mvs) as [-> _]. by apply Hwfc. }
  { intros v Hv. destruct (view_rows _ _ Hv b0 kept) as [-> _]. by apply Hvb. }
  mrun. pose proof (same_rows_eqs _ _ Hrb') as (HD' & HI' & Hmb & _).
  pose proof (same_rows_eqs _ _ Hrc') as (HDc & HIc & Hmc & _). cbn [deletions insertions moves set_moves] in *.
  destruct (source_positions_spec b' c') as (mvs' & -> & HF); [by rewrite HD', HD|by rewrite HI', HI| |].
  { rewrite Hmc. apply Forall_forall. intros [y z] [Hm Hn]%Hmvs. split; [|done].
    by destruct (moves_member C y z HmvC Hm). }
  mrun. rewrite Hmc in HF. do 2 eexists. split; [done|].
  assert (NoDup (move_from <$> mvs)) as Hmf.
  { eapply sublist_NoDup; [exact Hnd|by apply sublist_fmap]. }
  assert (NoDup (move_to <$> mvs)) as Hmt.
  { apply (NoDup_fmap_in _ _ (moves C)); [by eapply NoDup_fmap_1|apply HmvC|]. by intros m [? _]%Hmvs. }
  split; cbn [moves set_moves]; rewrite ?Hmb.
  - by eapply same_rows_set_kept.
  - intros Htr. by rewrite Hcols', <-Hcols.
  - intros v Hv. rewrite (Hvb' v Hv). destruct (view_rows _ _ Hv b0 kept) as [-> _]. by apply Hvb.
  - by eapply same_rows_set_sources.
  - intros v Hv. destruct (view_rows _ _ Hv c' mvs') as [-> _]. by apply Hwf'.
  - intros v Hv z. destruct (view_rows _ _ Hv c' mvs') as [-> _].
    rewrite (Hvc' v Hv). destruct (view_rows _ _ Hv c0 mvs) as [-> _]. rewrite (Hvc v Hv).
    setoid_rewrite Hmvs. cbn [move_from]. naive_solver.
  - by eapply composed_moves.
  - by eapply composed_from.
  - by eapply composed_to.
Qed.
End prepare.
