(* ===== verification/ChangeCompose.v ===== *)
(** * The deletions, insertions and marks of a composition

    The rest of [merge]: composing the deletions and insertions, dropping the
    moves that no longer move anything, and mapping the marks forward. *)

From S2P Require Import Prelude ChunkedRangeVector ChunkedFacts IndexSet LoopFacts IndexSetFacts.
From S2P Require Import IndexSetEdits IndexSetWalk IndexSetMerge CorrFacts AddShiftedFacts ChangeBuilder.
From S2P Require Import ChangeFacts ChangeMove ChangeMerge ChangeMergeMoves.

(** ** Stale moves *)

(** A row whose source and target have the same rank keeps its order: it need
    not be a deletion and an insertion. *)
Section unmove.
Context (D I D' I' : list range) (x z : Z).
Context (HD : ok_from 0 D) (HI : ok_from 0 I) (HD' : ok_from 0 D') (HI' : ok_from 0 I').
Context (Hx : mem x D) (Hz : mem z I) (Hrank : rank D x = rank I z).
Context (Hx0 : (0 <= x)%Z) (Hz0 : (0 <= z)%Z).
Context (HDr : forall y, mem y D' <-> mem y D /\ y <> x) (HIr : forall y, mem y I' <-> mem y I /\ y <> z).

#[local] Set Default Proof Using "Type*".

Lemma corr_order x' z' : corr D I x' z' -> ((x' < x)%Z <-> (z' < z)%Z) /\ ((x < x')%Z <-> (z < z')%Z).
Proof.
  intros (_ & _ & Hxn & Hzn & Heq).
  assert ((x' < x)%Z <-> (rank D x' < rank D x)%Z) as Hdx.
  { split; [intros; by apply (rank_lt D HD)|]. intros Hlt. destruct (decide (x' < x)%Z); [done|].
    pose proof (rank_mono D HD x x' ltac:(lia)). lia. }
  assert ((z' < z)%Z <-> (rank I z' < rank I z)%Z) as Hiz.
  { split; [intros; by apply (rank_lt I HI)|]. intros Hlt. destruct (decide (z' < z)%Z); [done|].
    pose proof (rank_mono I HI z z' ltac:(lia)). lia. }
  assert (x' <> x) by (intros ->; done). assert (z' <> z) by (intros ->; done). lia.
Qed.

Lemma corr_unmove x' z' : corr D' I' x' z' <-> corr D I x' z' \/ (x' = x /\ z' = z).
Proof.
  symmetry. apply (corr_unique D' I' HD' HI' (λ x' z', corr D I x' z' \/ (x' = x /\ z' = z))); clear x' z'.
  - intros x' z' [(? & ? & Hxn & Hzn & _)|[-> ->]]; rewrite HDr, HIr; split_and!; (done || tauto).
  - intros x' Hx' Hn. rewrite HDr in Hn. destruct (decide (x' = x)) as [->|Hne]; [exists z; by right|].
    destruct (corr_total D I HD HI x') as [z' Hc]; [done|tauto|]. exists z'. by left.
  - intros z' Hz' Hn. rewrite HIr in Hn. destruct (decide (z' = z)) as [->|Hne]; [exists x; by right|].
    destruct (corr_surj D I HD HI z') as [x' Hc]; [done|tauto|]. exists x'. by left.
  - intros x1 x2 z1 z2 [H1|[-> ->]] [H2|[-> ->]].
    + by apply (corr_mono D I HD HI).
    + by apply corr_order.
    + by apply corr_order.
    + lia.
Qed.
End unmove.

Section clean_up.
Context `{Build} (T : Z -> Z -> Prop).

(** A builder that tracks [T] with the moves [ms]. *)
Definition tracking (ms : list Move) (b : CollectionChangeBuilder) : Prop :=
  wf_builder b /\ wf_moves (set_moves ms b) /\ forall x z, tracks (set_moves ms b) x z <-> T x z.

Lemma unmoved_wf (kept todo : list Move) m b D' I' :
  wf_moves (set_moves (kept ++ m :: todo) b) ->
  (forall y, y ∈ D' <-> y ∈ deletions b /\ y <> move_from m) ->
  (forall y, y ∈ I' <-> y ∈ insertions b /\ y <> move_to m) ->
  wf_moves (set_moves (kept ++ todo) (set_insertions I' (set_deletions D' b))).
Proof using.
  intros [Hok Hf Ht] HD HI. cbn [moves set_moves deletions insertions] in *.
  assert (m :: kept ++ todo ≡ₚ kept ++ m :: todo) as Hp by solve_Permutation.
  rewrite <-Hp in Hok, Hf, Ht. cbn [fmap list_fmap] in Hf, Ht.
  apply Forall_cons in Hok as [_ Hok]. apply NoDup_cons in Hf as [Hnf Hf], Ht as [Hnt Ht].
  split; [|done|done]. cbn [moves set_moves deletions insertions set_deletions set_insertions].
  apply Forall_forall. intros m' Hm'. rewrite Forall_forall in Hok. destruct (Hok m' Hm') as [? ?].
  rewrite HD, HI. split; (split; [done|]); intros Heq; [apply Hnf|apply Hnt]; rewrite <-Heq;
    by apply list_elem_of_fmap_2.
Qed.

(** Dropping a move between equal ranks. *)
Lemma unmove_step kept x z todo b : tracking (kept ++ mkMove x z :: todo) b ->
  rank (flat (deletions b)) x = rank (flat (insertions b)) z ->
  exists D' I', remove (deletions b) x 1 = Some D' /\ remove (insertions b) z 1 = Some I'
    /\ (forall y, y ∈ D' <-> y ∈ deletions b /\ y <> x) /\ (forall y, y ∈ I' <-> y ∈ insertions b /\ y <> z)
    /\ tracking (kept ++ todo) (set_insertions I' (set_deletions D' b)).
Proof using.
  intros (Hwf & Hmv & HT) Hrank. pose proof Hwf as [HD HI HM HC].
  destruct (moves_member (set_moves (kept ++ mkMove x z :: todo) b) x z Hmv) as [Hx Hz].
  { cbn [moves set_moves]. apply elem_of_app. right. left. }
  cbn [deletions insertions set_moves] in Hx, Hz.
  pose proof (elem_of_bounds _ _ HD Hx) as Hbx. pose proof (elem_of_bounds _ _ HI Hz) as Hbz.
  destruct (remove_spec (deletions b) x 1) as (D' & -> & HD' & HDr); [done|lia..|].
  destruct (remove_spec (insertions b) z 1) as (I' & -> & HI' & HIr); [done|lia..|].
  exists D', I'. assert (forall y, y ∈ D' <-> y ∈ deletions b /\ y <> x) as HDr'.
  { intros y. rewrite !elem_of_flat, (HDr y). split; intros [? ?]; (split; [done|lia]). }
  assert (forall y, y ∈ I' <-> y ∈ insertions b /\ y <> z) as HIr'.
  { intros y. rewrite !elem_of_flat, (HIr y). split; intros [? ?]; (split; [done|lia]). }
  split_and!; [done..|]. split_and!; [by split|by eapply unmoved_wf|]. intros x' z'. rewrite <-HT.
  unfold tracks, same_element. cbn [deletions insertions moves set_moves set_insertions set_deletions].
  pose proof HD as [_ [HokD _]]. pose proof HI as [_ [HokI _]].
  rewrite (corr_unmove (flat (deletions b)) (flat (insertions b)) _ _ x z); try done; try lia.
  - rewrite !elem_of_app, elem_of_cons. naive_solver.
  - apply HD'.
  - apply HI'.
Qed.

Lemma clean_up_move_spec kept m todo b : tracking (kept ++ m :: todo) b ->
  exists kept' b', clean_up_move m (kept, b) = Some (kept', b') /\ tracking (kept' ++ todo) b'
    /\ modifications b' = modifications b /\ columns b' = columns b
    /\ m_track_columns b' = m_track_columns b.
Proof using.
  intros Hb. pose proof Hb as (Hwf & Hmv & HT). pose proof Hwf as [HD HI HM HC]. destruct m as [x z].
  destruct (moves_member (set_moves (kept ++ mkMove x z :: todo) b) x z Hmv) as [Hx Hz].
  { cbn [moves set_moves]. apply elem_of_app. right. left. }
  cbn [deletions insertions set_moves] in Hx, Hz.
  pose proof (elem_of_bounds _ _ HD Hx) as Hbx. pose proof (elem_of_bounds _ _ HI Hz) as Hbz.
  pose proof HD as [_ [HokD _]]. pose proof HI as [_ [HokI _]].
  pose proof (rank_nonneg _ HokD x ltac:(lia)) as Hrx. pose proof (rank_nonneg _ HokI z ltac:(lia)) as Hrz.
  pose proof (rank_le _ HokD x) as Hlx. pose proof (rank_le _ HokI z) as Hlz. unfold rank, npos in *.
  unfold clean_up_move. cbn [move_from move_to].
  rewrite !count_zero by (done || unfold npos; lia). mrun. u64_drop. case_bool_decide as Heq.
  { exists (kept ++ [mkMove x z]), b. split; [done|]. split; [|done]. by rewrite <-app_assoc. }
  destruct (unmove_step kept x z todo b Hb) as (D' & I' & -> & Hrun & _ & _ & Hb').
  { exact Heq. }
  mrun. rewrite Hrun. mrun. by exists kept, (set_insertions I' (set_deletions D' b)).
Qed.

Lemma clean_up_fold todo : forall kept b, tracking (kept ++ todo) b ->
  exists kept' b', foldM clean_up_move todo (kept, b) = Some (kept', b') /\ tracking kept' b'
    /\ modifications b' = modifications b /\ columns b' = columns b
    /\ m_track_columns b' = m_track_columns b.
Proof using.
  induction todo as [|m todo IH]; intros kept b Hb; cbn [foldM].
  { rewrite app_nil_r in Hb. by exists kept, b. }
  destruct (clean_up_move_spec kept m todo b Hb) as (k1 & b1 & -> & Hb1 & Hm & Hc & Ht). mrun.
  destruct (IH k1 b1 Hb1) as (kept' & b' & -> & ? & ? & ? & ?). exists kept', b'. split_and!; (done || congruence).
Qed.

Lemma clean_up_stale_moves_spec b : tracking (moves b) b ->
  exists b', clean_up_stale_moves b = Some b' /\ tracking (moves b') b'
    /\ modifications b' = modifications b /\ columns b' = columns b
    /\ m_track_columns b' = m_track_columns b.
Proof using.
  intros Hb. unfold clean_up_stale_moves.
  destruct (clean_up_fold (moves b) [] b Hb) as (kept & b' & -> & (Hwf & Hmv & HT) & ? & ? & ?). mrun.
  eexists. split; [done|]. split; [|done]. split_and!; [|done|done]. destruct Hwf. by split.
Qed.

End clean_up.

(** ** Deletions and insertions *)

Section rows.
Context `{Build}.

Lemma merge_rows_spec (b c : CollectionChangeBuilder) :
  wf (deletions b) -> wf (insertions b) -> wf (deletions c) -> wf (insertions c) ->
  bounded (npos - total (flat (insertions c))) (flat (insertions b)) ->
  bounded (npos - total (flat (deletions b))) (flat (deletions c)) ->
  fits (deletions b) (deletions c) ->
  exists D' I', merge_rows b c = Some (set_insertions I' (set_deletions D' b)) /\ wf D' /\ wf I'
    /\ composed_deletions (flat (deletions b)) (flat (insertions b)) (flat (deletions c)) (flat D')
    /\ composed_insertions (flat (insertions b)) (flat (deletions c)) (flat (insertions c)) (flat I').
Proof.
  intros HDb HIb HDc HIc HrI HrD Hfits. unfold merge_rows.
  pose proof HDc as [_ [HokDc _]]. pose proof HIb as [_ [HokIb _]].
  pose proof (wf_total _ HDb) as Htb. pose proof (wf_total _ HDc) as Htc.
  destruct (add_shifted_by_spec (deletions b) (insertions b) (deletions c)) as (D' & -> & _ & HD' & HmD);
    [done..| |].
  { pose proof (total_bounded 0 _ _ HokDc HrD ltac:(lia)). unfold npos in *. lia. }
  mrun. destruct (erase_at_all_spec (insertions b) (deletions c) HIb HDc) as (I1 & -> & HI1 & Hm1). mrun.
  destruct (insert_at_all_spec I1 (insertions c) HI1 HIc) as (I' & -> & HI' & HmI).
  { apply (bounded_of_mem 0); [apply HI1|]. intros y. rewrite <-elem_of_flat, Hm1. intros (x & Hx & _ & ->).
    pose proof (mem_bounded _ _ _ HrI Hx). pose proof (below_nonneg x (flat (deletions c))). lia. }
  mrun. exists D', I'. split_and!; [done|by apply HD'|done| |].
  - intros x. rewrite (HmD x). unfold placed, corr. setoid_rewrite elem_of_flat. split.
    + intros [?|(v & Hv & ? & ? & ? & ?)]; [by left|right]. exists v.
      pose proof (elem_of_bounds _ _ HDc Hv). split_and!; (done || lia).
    + intros [?|(v & Hv & ? & ? & ? & ? & ?)]; [by left|right]. by exists v.
  - intros z. rewrite <-!elem_of_flat, HmI. unfold shifted_elem. rewrite <-elem_of_flat, Hm1.
    unfold corr, rank. split.
    + intros [?|(Hz & y & Hy & Hyn & Heq)]; [by left|right]. exists y.
      pose proof (elem_of_bounds _ _ HIb Hy). pose proof HDc as [_ [Hok _]].
      pose proof (rank_nonneg _ Hok y ltac:(lia)) as Hr. unfold rank in Hr.
      pose proof (below_nonneg z (flat (insertions c))). split_and!; (done || lia).
    + intros [?|(y & Hy & _ & _ & ? & ? & Heq)]; [by left|right]. split; [done|]. by exists y.
Qed.

(** ** Marks *)

Lemma corr_sym D I x y : corr D I x y <-> corr I D y x.
Proof using. unfold corr. intuition. Qed.

Definition marks_composed (c : CollectionChangeBuilder) (col other col' : IndexSet) : Prop :=
  wf col' /\ forall z, z ∈ col' <-> z ∈ other \/ exists y, y ∈ col /\ same_element c y z.

Lemma merge_marks_spec (track : bool) b c : m_track_columns b = track ->
  wf (deletions c) -> wf (insertions c) -> wf_views track b -> wf_views track c ->
  (forall v, view track v -> bounded (npos - total (flat (insertions c))) (flat (v b))) ->
  exists b', merge_marks b c = Some b' /\ same_rows b b' /\ (track = false -> columns b' = columns b)
    /\ forall v, view track v -> marks_composed c (v b) (v c) (v b').
Proof.
  intros Ht HD HI Hb Hc Hroom. unfold merge_marks.
  destruct (merge_each_col_spec (λ col other,
      col ← erase_at_all col (deletions c);
      col ← shift_for_insert_at_all col (insertions c);
      col ← add_all col other;
      Some (col, other))
    (λ col other, wf col /\ wf other /\ bounded (npos - total (flat (insertions c))) (flat col))
    (λ col other col' other', marks_composed c col other col')) with (b := b) (c := c)
    as (b' & c' & -> & Hrb & _ & Hcols & Hv).
  - intros col other (Hcol & Ho & Hr).
    destruct (transport_spec col (deletions c) (insertions c)) as (d1 & d2 & -> & _ & Hrun & Hd2 & Hm); [done..|].
    mrun. rewrite Hrun. mrun. destruct (add_all_spec d2 other Hd2 Ho) as (d3 & -> & Hd3 & Hm3). mrun.
    exists d3, other. split; [done|]. split; [done|]. intros z. rewrite Hm3, Hm. unfold same_element.
    setoid_rewrite (corr_sym (flat (insertions c))). tauto.
  - split; [by apply wf_nil|]. intros z. rewrite elem_of_flat, mem_nil. setoid_rewrite elem_of_flat.
    setoid_rewrite mem_nil. naive_solver.
  - rewrite Ht. intros v Hv. split_and!; [by apply Hb|by apply Hc|by apply Hroom].
  - rewrite Ht in *. mrun. by exists b'.
Qed.

Lemma verify_moves_spec b : wf_builder b -> wf_moves b -> verify_moves b = Some tt.
Proof.
  intros [HD HI _ _] [Hok _ _]. unfold verify_moves. destruct realm_debug; [|done].
  induction Hok as [|m ms [Hd Hi] _ IH]; cbn [foldM]; [done|].
  rewrite !contains_spec by done. mrun. rewrite elem_of_flat in Hd, Hi.
  rewrite !REALM_ASSERT_true by (by apply bool_decide_eq_true). mrun. exact IH.
Qed.

End rows.

(** ** [merge] composes change sets

    The theorem on [merge]: what the result tracks is the composition of what
    its arguments track, and the marks are carried through. *)

Section compose.
Context `{Build}.

Lemma merge_prepare b c : is_empty b = false -> is_empty c = false -> merge b c =
  (_ ← verify_moves b; _ ← verify_moves c;
   '(b, c) ← prepare b c;
   b ← merge_rows (set_moves (moves b ++ moves c) b) c;
   b ← clean_up_stale_moves b;
   b ← merge_marks b c;
   _ ← verify_moves b;
   Some b).
Proof.
  intros Hb Hc. rewrite merge_split by done. unfold prepare.
  destruct (verify_moves b); [mrun|done]. destruct (verify_moves c); [mrun|done].
  destruct (merge_old_moves b c) as [[b1 c1]|]; [mrun|done].
  destruct (drop_inserted_moves b1 c1) as [c2|]; [mrun|done].
  destruct (carry_moved_rows b1 c2) as [[b3 c3]|]; [mrun|done].
  by destruct (source_positions b3 c3).
Qed.

Lemma wf_columns track b : m_track_columns b = track -> wf_views track b ->
  (track = false -> Forall wf (columns b)) -> wf (modifications b) /\ Forall wf (columns b).
Proof.
  intros Ht Hv Hc. split; [apply Hv; by left|]. destruct track; [|by apply Hc].
  apply Forall_lookup. intros i d Hd. assert (d = col_at i b) as -> by (unfold col_at; by rewrite Hd).
  apply Hv. right. by eauto.
Qed.

(** What [merge] needs of its arguments. *)
Record mergeable (b c : CollectionChangeBuilder) : Prop := {
  mg_wf_b : wf_builder b;
  mg_wf_c : wf_builder c;
  mg_moves_b : wf_moves b;
  mg_moves_c : wf_moves c;
  mg_marks_b : marks_ok b;
  mg_marks_c : marks_ok c;
  mg_room_I : bounded (npos - total (flat (insertions c))) (flat (insertions b));
  mg_room_D : bounded (npos - total (flat (deletions b))) (flat (deletions c));
  mg_room_M : bounded (npos - total (flat (insertions c))) (flat (modifications b));
  mg_fits : fits (deletions b) (deletions c);
}.

(** The marks of a composition. *)
Definition marks_merged (b c : CollectionChangeBuilder) (v : CollectionChangeBuilder -> IndexSet)
    (d : IndexSet) : Prop :=
  forall z, z ∈ d <-> z ∈ v c \/ exists y, y ∈ v b /\ (same_element c y z
    \/ (mkMove y z ∈ moves c /\ (y ∈ (move_to <$> moves b) \/ y ∉ insertions b))).

Definition merged (b c b' : CollectionChangeBuilder) : Prop :=
  wf_builder b' /\ wf_moves b'
  /\ (forall x z, tracks b' x z <-> exists y, tracks b x y /\ tracks c y z)
  /\ forall v, view (m_track_columns b) v -> marks_merged b c v (v b').

Section nonempty.
Context (B C : CollectionChangeBuilder) (Hm : mergeable B C).

#[local] Set Default Proof Using "Type*".

Let track := m_track_columns B.

Lemma room_views v : view track v -> bounded (npos - total (flat (insertions C))) (flat (v B)).
Proof.
  intros Hv. destruct (view_wf _ _ _ Hv (mg_wf_b _ _ Hm)) as [_ [Hok _]]. apply (bounded_of_mem 0); [done|].
  intros y Hy. rewrite <-elem_of_flat in Hy. apply (view_marks _ _ _ _ (mg_marks_b _ _ Hm) Hv) in Hy.
  by apply (mem_bounded _ _ _ (mg_room_M _ _ Hm)).
Qed.

(** The builder after the deletions and the insertions. *)
Lemma rows_tracking b c D' I' : prepared B C b c -> wf D' -> wf I' ->
  composed_deletions (flat (deletions B)) (flat (insertions B)) (flat (deletions C)) (flat D') ->
  composed_insertions (flat (insertions B)) (flat (deletions C)) (flat (insertions C)) (flat I') ->
  tracking (λ x z, exists y, tracks B x y /\ tracks C y z) (moves b ++ moves c)
    (set_insertions I' (set_deletions D' (set_moves (moves b ++ moves c) b))).
Proof.
  intros Hp HD' HI' HcD HcI. destruct Hm as [HwfB HwfC HmvB HmvC HmkB HmkC _ _ _ _].
  pose proof HwfB as [HDB HIB HMB HCB]. pose proof HwfC as [HDC HIC _ _].
  pose proof (pr_moves _ _ _ _ Hp) as HM. split_and!.
  - destruct (wf_columns track b) as [? ?].
    + by destruct (same_rows_eqs _ _ (pr_rows_b _ _ _ _ Hp)) as (_ & _ & _ & ? & _).
    + intros v Hv. rewrite (pr_views_b _ _ _ _ Hp v Hv). by eapply view_wf.
    + intros Hf. by rewrite (pr_columns _ _ _ _ Hp Hf).
    + by split.
  - split; [|apply Hp|apply Hp]. apply Forall_forall. intros [x z] Hxz.
    cbn [moves set_moves deletions insertions set_insertions set_deletions move_from move_to] in *.
    apply HM in Hxz as (y & [[Hb Ht]|[Hs Hc]]).
    + destruct (moves_member B x y HmvB Hb) as [Hx Hy]. split; [apply HcD; by left|apply HcI].
      destruct Ht as [Hs|Hc]; [right; by exists y|left]. by destruct (moves_member C y z HmvC Hc).
    + destruct (moves_member C y z HmvC Hc) as [Hy Hz]. split; [apply HcD; right; by exists y|apply HcI; by left].
  - intros x z. unfold tracks at 1, same_element.
    cbn [moves set_moves deletions insertions set_insertions set_deletions].
    rewrite HM, (corr_compose (flat (deletions B)) (flat (insertions B)) (flat (deletions C)) (flat (insertions C)));
      [|by apply HDB|by apply HIB|by apply HDC|by apply HIC|by apply HD'|by apply HI'|done|done].
    unfold tracks, same_element. naive_solver.
Qed.

Lemma merge_nonempty : is_empty B = false -> is_empty C = false ->
  exists b', merge B C = Some b' /\ merged B C b' /\ m_track_columns b' = track.
Proof.
  intros HeB HeC. rewrite merge_prepare by done.
  pose proof Hm as [HwfB HwfC HmvB HmvC HmkB HmkC HrI HrD HrM Hfits].
  rewrite !verify_moves_spec by done. mrun.
  destruct (prepare_spec B C HwfB HwfC HmvB HmvC HmkB HrI HrD) as (b & c & -> & Hp). mrun.
  destruct (same_rows_eqs _ _ (pr_rows_b _ _ _ _ Hp)) as (HDb & HIb & _ & Htb & _).
  destruct (same_rows_eqs _ _ (pr_rows_c _ _ _ _ Hp)) as (HDc & HIc & _ & _).
  cbn [deletions insertions m_track_columns set_moves] in HDb, HIb, Htb, HDc, HIc.
  pose proof HwfB as [HDB HIB _ _]. pose proof HwfC as [HDC HIC _ _].
  destruct (merge_rows_spec (set_moves (moves b ++ moves c) b) c) as (D' & I' & -> & HD' & HI' & HcD & HcI);
    cbn [deletions insertions set_moves] in *; rewrite ?HDb, ?HIb, ?HDc, ?HIc in *; try done.
  mrun. pose proof (rows_tracking b c D' I' Hp HD' HI' HcD HcI) as Htr.
  destruct (clean_up_stale_moves_spec _ _ Htr) as (b4 & -> & Htr4 & HM4 & HC4 & Ht4). mrun.
  destruct Htr4 as (Hwf4 & Hmv4 & HT4).
  assert (forall v, view track v -> v b4 = v B) as Hv4.
  { intros v Hv. rewrite <-(pr_views_b _ _ _ _ Hp v Hv). destruct Hv as [->|(_ & i & ->)]; [exact HM4|].
    unfold col_at. by rewrite HC4. }
  destruct (merge_marks_spec track b4 c) as (b5 & -> & Hr5 & Hc5 & Hv5);
    [by rewrite Ht4|by rewrite HDc|by rewrite HIc| |by apply Hp| |].
  { intros v Hv. rewrite (Hv4 v Hv). by eapply view_wf. }
  { intros v Hv. rewrite (Hv4 v Hv), HIc. by apply room_views. }
  mrun. destruct (same_rows_eqs _ _ Hr5) as (HD5 & HI5 & HM5 & Ht5 & _).
  assert (wf_moves b5) as Hmv5.
  { destruct Hmv4 as [Hok Hf Ht]. cbn [moves set_moves deletions insertions] in *.
    split; rewrite ?HM5, ?HD5, ?HI5; done. }
  assert (wf_builder b5) as Hwf5.
  { destruct Hwf4 as [HD4 HI4 _ HC4']. destruct (wf_columns track b5) as [? ?].
    - by rewrite Ht5, Ht4.
    - intros v Hv. by destruct (Hv5 v Hv).
    - intros Hf. by rewrite Hc5.
    - split; rewrite ?HD5, ?HI5; done. }
  rewrite verify_moves_spec by done. mrun. exists b5. split; [done|]. split; [|by rewrite Ht5, Ht4].
  split_and!; [done|done| |].
  - intros x z. rewrite <-HT4. unfold tracks, same_element. rewrite HD5, HI5, HM5. done.
  - intros v Hv z. destruct (Hv5 v Hv) as [_ Hz]. rewrite Hz, (pr_views_c _ _ _ _ Hp v Hv), (Hv4 v Hv).
    unfold same_element. rewrite HDc, HIc. naive_solver.
Qed.
End nonempty.

(** ** Empty change sets *)

Lemma is_empty_eqs b : is_empty b = true ->
  deletions b = [] /\ insertions b = [] /\ modifications b = [] /\ moves b = [].
Proof.
  unfold is_empty. rewrite !andb_true_iff, !bool_decide_eq_true. tauto.
Qed.

Lemma empty_tracks b x y : is_empty b = true -> tracks b x y <-> (0 <= x)%Z /\ x = y.
Proof.
  intros (HD & HI & _ & HM)%is_empty_eqs. unfold tracks, same_element.
  rewrite HD, HI, HM, corr_nil, elem_of_nil. tauto.
Qed.

Lemma empty_marks track v b z : is_empty b = true -> marks_ok b -> view track v -> z ∉ v b.
Proof.
  intros (_ & _ & HM & _)%is_empty_eqs Hok Hv Hz. apply (view_marks track v) in Hz; [|done..].
  rewrite HM in Hz. by apply elem_of_flat, mem_nil in Hz.
Qed.

Lemma tracks_nonneg b x y : wf_builder b -> wf_moves b -> tracks b x y -> (0 <= x)%Z /\ (0 <= y)%Z.
Proof.
  intros [HD HI _ _] Hmv [(? & ? & _)|Hm]; [done|]. destruct (moves_member b x y Hmv Hm) as [Hx Hy].
  pose proof (elem_of_bounds _ _ HD Hx). pose proof (elem_of_bounds _ _ HI Hy). lia.
Qed.

Lemma merged_empty_r b c : mergeable b c -> is_empty c = true -> merged b c b.
Proof.
  intros [Hb _ Hmb _ _ HkC _ _ _ _] He. split_and!; [done|done| |].
  - intros x z. split; [|intros (y & ? & Ht); by apply (empty_tracks c) in Ht as [_ <-]].
    intros Ht. setoid_rewrite (λ y, empty_tracks c y z He). exists z. by destruct (tracks_nonneg b x z).
  - intros v Hv z. pose proof (empty_marks _ _ _ z He HkC Hv) as Hz.
    assert (forall y, same_element c y z \/ (mkMove y z ∈ moves c /\ (y ∈ (move_to <$> moves b) \/ y ∉ insertions b))
      <-> (0 <= y)%Z /\ y = z) as Hs.
    { intros y. rewrite <-(empty_tracks c) by done. unfold tracks.
      destruct (is_empty_eqs c He) as (_ & _ & _ & ->). rewrite !elem_of_nil. tauto. }
    setoid_rewrite Hs. split; [|by intros [?|(y & ? & _ & ->)]]. intros Hzb. right. exists z.
    split_and!; [done| |done]. apply (elem_of_bounds _ (v b)); [by eapply view_wf|done].
Qed.

Lemma merged_empty_l b c : mergeable b c -> is_empty b = true -> merged b c c.
Proof.
  intros [_ Hc _ Hmc HkB _ _ _ _ _] He. split_and!; [done|done| |].
  - intros x z. split; [|intros (y & Ht & ?); by apply (empty_tracks b) in Ht as [_ <-]].
    intros Ht. setoid_rewrite (λ y, empty_tracks b x y He). exists x. by destruct (tracks_nonneg c x z).
  - intros v Hv z. split; [by left|]. intros [?|(y & Hy & _)]; [done|].
    by destruct (empty_marks _ _ _ y He HkB Hv).
Qed.

Lemma merge_spec b c : mergeable b c -> exists b', merge b c = Some b' /\ merged b c b'.
Proof.
  intros Hm. destruct (is_empty c) eqn:Ec.
  { exists b. unfold merge. rewrite Ec. split; [done|by apply merged_empty_r]. }
  destruct (is_empty b) eqn:Eb.
  { exists c. unfold merge. rewrite Ec, Eb. split; [done|by apply merged_empty_l]. }
  destruct (merge_nonempty b c Hm Eb Ec) as (b' & -> & ? & _). by exists b'.
Qed.

(** The marks of a row that survives both change sets. *)
Lemma merged_survivor b c b' v x y z : mergeable b c -> merged b c b' ->
  view (m_track_columns b) v -> tracks b x y -> tracks c y z ->
  z ∈ v b' <-> z ∈ v c \/ y ∈ v b.
Proof.
  intros [Hb Hc Hmb Hmc _ _ _ _ _ _] (_ & _ & _ & Hmarks) Hv Hb' Hc'. rewrite (Hmarks v Hv z). split.
  - intros [?|(y' & Hy' & Ht)]; [by left|right]. rewrite (tracks_inj c y y' z); try done.
    destruct Ht as [?|[? _]]; [by left|by right].
  - intros [?|Hy]; [by left|right]. exists y. split; [done|]. destruct Hc' as [?|Hm]; [by left|right].
    split; [done|]. destruct Hb' as [Hs|Hm']; [right|left].
    + by destruct Hs as (_ & _ & _ & ? & _).
    + by apply (list_elem_of_fmap_2 move_to) in Hm'.
Qed.
End compose.
