(* ===== verification/ChangeTable.v ===== *)
(** * Correctness of recording changes: tables

    Rows of a table change position by being moved over or swapped; the builder
    records such moves in [m_move_mapping] until [parse_complete]. *)

From S2P Require Import Prelude ChunkedRangeVector ChunkedFacts ChunkedOps IndexSet LoopFacts IndexSetFacts.
From S2P Require Import IndexSetEdits IndexSetWalk IndexSetMerge CorrFacts AddShiftedFacts ChangeBuilder.
From S2P Require Import ChangeFacts ChangeMove ChangeMerge ChangeCompose.

(** Old row [x] is now row [y]. *)
Definition mapped (b : CollectionChangeBuilder) (x y : Z) : Prop :=
  same_element b x y \/ m_move_mapping b !! y = Some x.

Record wf_mapping (b : CollectionChangeBuilder) : Prop := {
  mapping_ok : forall y x, m_move_mapping b !! y = Some x -> x ∈ deletions b /\ y ∈ insertions b;
  mapping_inj : forall y y' x, m_move_mapping b !! y = Some x -> m_move_mapping b !! y' = Some x -> y = y';
}.

(** ** Sets that agree below an index *)

Definition agree (n : Z) (L L' : list range) : Prop := forall w, (w < n)%Z -> mem w L <-> mem w L'.

Lemma below_agree L L' n : ok_from 0 L -> ok_from 0 L' -> (0 <= n)%Z -> agree n L L' -> below n L = below n L'.
Proof.
  intros HL HL' Hn Hag. cut (forall k, 0 <= k -> k <= n -> below k L = below k L')%Z; [intros Hk; apply Hk; lia|].
  apply (natlike_ind (λ k, k <= n -> below k L = below k L')%Z).
  - intros _. by rewrite !(below_lo 0).
  - intros k Hk IH Hkn. rewrite <-Z.add_1_r, !(below_S _ _ 0), IH by (done || lia).
    f_equal. apply decide_ext, Hag. lia.
Qed.

Lemma corr_agree D I I' n x z : ok_from 0 I -> ok_from 0 I' -> agree n I I' -> (z < n)%Z ->
  corr D I x z <-> corr D I' x z.
Proof.
  intros HI HI' Hag Hz. unfold corr, rank. rewrite (Hag z Hz). split; intros (Hx & Hz0 & ? & ? & E);
    (split_and!; [done..|]); rewrite E; f_equal; [|symmetry]; apply below_agree; try done;
    intros w Hw; apply Hag; lia.
Qed.

(** Reporting row [y] as deleted and inserted leaves the other rows in place. *)
Lemma corr_mark D I D' I' x y : ok_from 0 D -> ok_from 0 I -> ok_from 0 D' -> ok_from 0 I' ->
  corr D I x y -> (forall w, mem w D' <-> mem w D \/ w = x) -> (forall w, mem w I' <-> mem w I \/ w = y) ->
  forall x' z', corr D' I' x' z' <-> corr D I x' z' /\ z' <> y.
Proof.
  intros HD HI HD' HI' Hc HDm HIm x' z'. pose proof Hc as (Hx & Hy & Hxn & Hyn & Hr).
  assert (corr D I x' z' <-> corr D' I' x' z' \/ (x' = x /\ z' = y)) as ->.
  { apply corr_unmove; try done.
    - apply HDm. by right.
    - apply HIm. by right.
    - unfold rank in *. rewrite <-(below_agree D D' x), <-(below_agree I I' y); try done.
      + intros w Hw. rewrite HIm. intuition lia.
      + intros w Hw. rewrite HDm. intuition lia.
    - intros w. rewrite HDm. split; [|tauto]. intros Hw. split; [tauto|by intros ->].
    - intros w. rewrite HIm. split; [|tauto]. intros Hw. split; [tauto|by intros ->]. }
  split; [|tauto]. intros Hc'. split; [by left|]. intros ->. destruct Hc' as (_ & _ & _ & Hn & _).
  apply Hn, HIm. by right.
Qed.

Section table.
Context `{Build}.

(** [unshift] then [add_shifted]: the old index of a row that is not new joins
    the deletions. *)
Lemma delete_source (D I : IndexSet) y : wf D -> wf I -> (0 <= y < npos)%Z ->
  (y + total (flat D) < npos)%Z -> y ∉ I ->
  exists u D' x, unshift I y = Some u /\ add_shifted D u = Some (D', x) /\ wf D'
    /\ corr (flat D) (flat I) x y /\ forall w, w ∈ D' <-> w ∈ D \/ w = x.
Proof.
  intros HD HI Hy Hsum Hn. rewrite unshift_spec by (done || lia).
  destruct (add_shifted_corr D I y) as (D' & x & Hrun & HD' & Hc & _ & Hm); [done|done|lia|done|done|].
  eexists _, D', x. split_and!; done.
Qed.

(** ** The end of a set *)

Lemma last_end_spec (d : IndexSet) : wf d -> d <> [] ->
  exists r, last (flat d) = Some r /\ last_end d = Some r.2.
Proof.
  intros [Hs _] Hne. destruct (last (flat d)) as [r|] eqn:Hlast; cycle 1.
  { apply last_None in Hlast. by apply (flat_nil_inv d Hs) in Hlast. }
  exists r. split; [done|]. apply last_Some in Hlast as [L Hf]. unfold last_end.
  assert (flat d = (L ++ [r]) ++ []) as Hf' by by rewrite app_nil_r.
  rewrite <-locate_end, Hf, (it_prev_mid d L r []) by done. cbn [mbind option_bind].
  by rewrite (deref_mid d L r []).
Qed.
Lemma last_end_max (d : IndexSet) n : wf d -> d <> [] -> bounded (n + 1) (flat d) ->
  exists e, last_end d = Some e /\ (0 < e <= n + 1)%Z /\ (e = n + 1 <-> n ∈ d)%Z.
Proof.
  intros Hwf Hne Hb. pose proof Hwf as [_ [Hok _]].
  destruct (last_end_spec d Hwf Hne) as (r & Hlast & Hrun). exists r.2. split; [done|].
  apply last_Some in Hlast as [L Hf]. rewrite elem_of_flat. rewrite Hf in *.
  pose proof Hb as Hb'. apply bounded_app in Hb' as [_ [Hr _]%bounded_cons].
  pose proof (ok_from_bounded _ _ Hok) as Hend. rewrite next_lo_app in Hend. cbn [next_lo] in Hend.
  apply ok_from_app in Hok as [Hok1 (Hr1 & Hr2 & _)].
  pose proof (next_lo_ge 0 L Hok1). split; [lia|]. split.
  - intros He. apply mem_app. right. apply mem_cons. left. unfold in_range. lia.
  - intros Hm. pose proof (mem_bounded _ _ _ Hend Hm). lia.
Qed.

Lemma end_at_most_spec (d : IndexSet) n : wf d -> bounded (n + 1) (flat d) -> (0 <= n < npos)%Z ->
  end_at_most d n = Some true.
Proof.
  intros Hwf Hb Hn. unfold end_at_most, npos in *. case_bool_decide as Hd; [done|].
  destruct (last_end_max d n Hwf Hd Hb) as (e & -> & He & _). mrun. u64_drop. by rewrite bool_decide_true by lia.
Qed.

Lemma contains_member (d : IndexSet) x : wf d -> contains d x = Some (bool_decide (x ∈ d)).
Proof. intros Hd. by rewrite contains_spec. Qed.

(** Whether the last row is an insertion, as [move_over] computes it. *)
Lemma last_is_member (d : IndexSet) n : wf d -> bounded (n + 1) (flat d) -> (0 <= n < npos)%Z ->
  (if bool_decide (d = []) then Some false else e ← last_end d; Some (bool_decide (e = n +! 1)))
  = Some (bool_decide (n ∈ d)).
Proof.
  intros Hwf Hb Hn. unfold npos in *. case_bool_decide as Hd.
  { rewrite bool_decide_false; [done|]. subst d. by intros ?%elem_of_flat%mem_nil. }
  destruct (last_end_max d n Hwf Hd Hb) as (e & -> & He & Hiff). mrun. u64_drop. f_equal.
  by apply bool_decide_ext.
Qed.

Lemma end_within (d : IndexSet) n : wf d -> bounded (n + 1) (flat d) -> (0 <= n < npos)%Z ->
  (if bool_decide (d = []) then Some tt
   else e ← last_end d; REALM_ASSERT_DEBUG (bool_decide (e <= n +! 1)%Z)) = Some tt.
Proof.
  intros Hwf Hb Hn. unfold npos in *. case_bool_decide as Hd; [done|].
  destruct (last_end_max d n Hwf Hd Hb) as (e & -> & He & _). mrun. u64_drop.
  apply REALM_ASSERT_DEBUG_true, bool_decide_eq_true. lia.
Qed.

(** ** Columns of [move_over] *)

(** Row [last] takes the place of [row]. *)
Definition over (row last y : Z) : Z := if decide (y = last) then row else y.
Definition over_map (row last y z : Z) : Prop := y <> row /\ z = over row last y.

Lemma remove_one (d : IndexSet) n : wf d -> (0 <= n < npos)%Z ->
  exists d', remove d n 1 = Some d' /\ wf d' /\ forall z, z ∈ d' <-> z ∈ d /\ z <> n.
Proof.
  intros Hd Hn. destruct (remove_spec d n 1 Hd) as (d' & Hrun & Hwf & Hc); [lia..|].
  exists d'. split_and!; [done..|]. intros z. rewrite !elem_of_flat, (Hc z).
  split; intros [? ?]; (split; [done|lia]).
Qed.

Lemma over_column_last (d : IndexSet) n : wf d -> (0 <= n < npos)%Z ->
  exists d', remove d n 1 = Some d' /\ wf d' /\ image (over_map n n) d d'.
Proof.
  intros Hd Hn. destruct (remove_one d n Hd Hn) as (d' & -> & Hwf & Hm).
  exists d'. split_and!; [done..|]. intros z. rewrite Hm. unfold over_map, over. split.
  - intros [? ?]. exists z. split; [done|]. by rewrite decide_False.
  - intros (y & Hy & Hne & ->). by rewrite decide_False.
Qed.

Lemma over_column (d : IndexSet) row last : wf d -> (0 <= row < last)%Z -> (last < npos)%Z ->
  exists d', (modified ← contains d last;
      if modified : bool then d ← remove d last 1; add d row else remove d row 1) = Some d'
    /\ wf d' /\ image (over_map row last) d d'.
Proof.
  intros Hd Hr Hl. rewrite contains_spec by done. mrun. case_bool_decide as Hm; rewrite <-elem_of_flat in Hm.
  - destruct (remove_one d last Hd) as (d1 & -> & Hwf1 & Hm1); [lia|]. mrun.
    destruct (add_spec d1 row Hwf1) as (d' & -> & Hwf & Hm'); [lia|]. exists d'. split_and!; [done..|].
    intros z. rewrite Hm', Hm1. unfold over_map, over. split.
    + intros [[? ?]| ->].
      * destruct (decide (z = row)) as [->|]; [exists last|exists z];
          (split; [done|]); case_decide; (split; [lia|done]).
      * exists last. split; [done|]. case_decide; [split; [lia|done]|done].
    + intros (y & Hy & Hne & ->). case_decide; [by right|by left].
  - destruct (remove_one d row Hd) as (d' & -> & Hwf & Hm'); [lia|]. exists d'. split_and!; [done..|].
    intros z. rewrite Hm'. unfold over_map, over. split.
    + intros [? ?]. exists z. split; [done|]. rewrite decide_False by (by intros ->). done.
    + intros (y & Hy & Hne & ->). rewrite decide_False by (by intros ->). done.
Qed.

(** ** Rows of [move_over] *)

(** The part of [move_over] that lets the last row take the place of [row]. *)
Definition take_over (row last : Z) (row_is_insertion last_is_insertion : bool)
    (b : CollectionChangeBuilder) : option CollectionChangeBuilder :=
  let '(b, moved) :=
    match (if last_is_insertion then m_move_mapping b !! last else None) with
    | Some source => (set_mapping (delete last (<[row := source]> (m_move_mapping b))) b, true)
    | None => (b, false)
    end in
  let b := if row_is_insertion && negb moved then set_mapping (delete row (m_move_mapping b)) b else b in
  if last_is_insertion then ins ← remove (insertions b) last 1; Some (set_insertions ins b)
  else if negb moved then
    u ← unshift (insertions b) last;
    '(d, source) ← add_shifted (deletions b) u;
    Some (set_mapping (<[row := source]> (m_move_mapping b)) (set_deletions d b))
  else Some b.

(** The part that reports the old [row] as deleted. *)
Definition report_row (row : Z) (row_is_insertion : bool) (b : CollectionChangeBuilder)
  : option CollectionChangeBuilder :=
  if negb row_is_insertion then
    u ← unshift (insertions b) row;
    '(d, _) ← add_shifted (deletions b) u;
    ins ← add (insertions b) row;
    Some (set_insertions ins (set_deletions d b))
  else Some b.

Definition with_rows (D I : IndexSet) (m : gmap Z Z) (b : CollectionChangeBuilder) : CollectionChangeBuilder :=
  set_mapping m (set_insertions I (set_deletions D b)).

(** What [take_over] does. *)
Record taken_over (row last : Z) (b b' : CollectionChangeBuilder) : Prop := {
  to_rows : b' = with_rows (deletions b') (insertions b') (m_move_mapping b') b;
  to_wf_d : wf (deletions b');
  to_wf_i : wf (insertions b');
  to_last : last ∉ insertions b';
  to_agree : forall z, z <> last -> z ∈ insertions b' <-> z ∈ insertions b;
  to_deletions : forall x, x ∈ deletions b' <-> x ∈ deletions b \/ same_element b x last;
  to_corr : forall x z, (z < last)%Z -> same_element b' x z <-> same_element b x z;
  to_mapping : forall z x, m_move_mapping b' !! z = Some x <->
    (z = row /\ mapped b x last) \/ (z <> row /\ z <> last /\ m_move_mapping b !! z = Some x);
}.

Lemma take_over_inserted (b : CollectionChangeBuilder) row last : wf_builder b -> wf_mapping b ->
  (0 <= row < last)%Z -> (last < npos)%Z -> last ∈ insertions b ->
  exists b', take_over row last (bool_decide (row ∈ insertions b)) true b = Some b'
    /\ taken_over row last b b'.
Proof.
  intros [HD HI _ _] [Hok Hinj] Hr Hl Hin. unfold take_over.
  destruct (remove_one (insertions b) last HI) as (I1 & Hrun & HI1 & HIm); [lia|].
  assert (forall x, ~ same_element b x last) as Hns by (intros x (_ & _ & _ & Hn & _); done).
  pose proof HI as [_ [HokI _]]. pose proof HI1 as [_ [HokI1 _]].
  assert (agree last (flat I1) (flat (insertions b))) as Hag.
  { intros w Hw. rewrite <-!elem_of_flat, HIm. split; [tauto|]. intros ?. split; [done|lia]. }
  set (m1 := match m_move_mapping b !! last with
    | Some source => delete last (<[row := source]> (m_move_mapping b))
    | None => if bool_decide (row ∈ insertions b) then delete row (m_move_mapping b) else m_move_mapping b
    end).
  assert (forall z x, m1 !! z = Some x <-> (z = row /\ mapped b x last)
    \/ (z <> row /\ z <> last /\ m_move_mapping b !! z = Some x)) as Hm1.
  { intros z x. unfold m1, mapped. destruct (m_move_mapping b !! last) as [s|] eqn:E.
    - rewrite lookup_delete_Some, lookup_insert_Some. specialize (Hns x).
      split; [intuition congruence|]. intros [[-> [?|[= ->]]]|?]; [done|split; [lia|by left]|intuition congruence].
    - specialize (Hns x). assert (m_move_mapping b !! row = None \/ row ∈ insertions b) as Hrow.
      { destruct (m_move_mapping b !! row) eqn:E'; [right; by eapply Hok|by left]. }
      case_bool_decide; rewrite ?lookup_delete_Some; split; intros; destruct (decide (z = row)), (decide (z = last)); subst; intuition (congruence || lia). }
  exists (with_rows (deletions b) I1 m1 b). split.
  - unfold m1. destruct (m_move_mapping b !! last) as [s|]; cbn [negb]; rewrite ?andb_false_r, ?andb_true_r.
    + cbn [insertions set_mapping]. rewrite Hrun. mrun. by destruct b.
    + case_bool_decide; cbn [insertions set_mapping]; rewrite Hrun; mrun; by destruct b.
  - split; cbn [with_rows deletions insertions m_move_mapping set_mapping set_insertions set_deletions]; try done.
    + rewrite HIm. tauto.
    + intros z Hz. rewrite HIm. tauto.
    + intros x. split; [by left|]. intros [?|?%Hns]; done.
    + intros x z Hz. unfold same_element.
      cbn [with_rows deletions insertions set_mapping set_insertions set_deletions].
      by apply (corr_agree _ _ _ last).
Qed.

Lemma take_over_kept (b : CollectionChangeBuilder) row last : wf_builder b -> wf_mapping b ->
  (0 <= row < last)%Z -> (last + total (flat (deletions b)) < npos)%Z -> last ∉ insertions b ->
  exists b', take_over row last (bool_decide (row ∈ insertions b)) false b = Some b'
    /\ taken_over row last b b'.
Proof.
  intros [HD HI _ _] [Hok Hinj] Hr Hsum Hin. unfold take_over. cbn [negb]. rewrite andb_true_r.
  pose proof (wf_total _ HD) as HtD.
  destruct (delete_source (deletions b) (insertions b) last) as (u & D1 & s & Hu & Hs & HD1 & Hc & HDm);
    [done|done|lia|done|done|].
  set (m0 := if bool_decide (row ∈ insertions b) then delete row (m_move_mapping b) else m_move_mapping b).
  destruct (add_spec (insertions b) last HI) as (I1 & _ & HI1 & HIm); [lia|].
  pose proof HI as [_ [HokI _]]. pose proof HI1 as [_ [HokI1 _]].
  pose proof HD as [_ [HokD _]]. pose proof HD1 as [_ [HokD1 _]].
  assert (forall x, same_element b x last <-> x = s) as Hsame.
  { intros x. split; [|by intros ->]. intros Hc'. by apply (corr_inj _ _ HokD HokI x s last). }
  exists (with_rows D1 (insertions b) (<[row := s]> m0) b). split.
  - unfold m0. case_bool_decide; cbn [insertions set_mapping]; rewrite Hu; cbn [mbind option_bind];
      cbn [deletions set_mapping]; rewrite Hs; mrun; by destruct b.
  - split; cbn [with_rows deletions insertions m_move_mapping set_mapping set_insertions set_deletions]; try done.
    + intros x. by rewrite HDm, Hsame.
    + intros x z Hz. unfold same_element.
      cbn [with_rows deletions insertions set_mapping set_insertions set_deletions].
      rewrite (corr_agree (flat D1) (flat (insertions b)) (flat I1) last) by
        (done || intros w Hw; rewrite <-!elem_of_flat, HIm; intuition lia).
      rewrite (corr_mark (flat (deletions b)) (flat (insertions b)) (flat D1) (flat I1) s last); try done.
      intuition lia.
    + intros z x. rewrite lookup_insert_Some. unfold mapped. rewrite Hsame.
      assert (m_move_mapping b !! last = None) as Hnone.
      { destruct (m_move_mapping b !! last) eqn:E; [|done]. by destruct (Hok _ _ E). }
      rewrite Hnone. unfold m0. case_bool_decide; rewrite ?lookup_delete_Some;
        destruct (decide (z = row)), (decide (z = last)); subst; intuition (congruence || lia).
Qed.

Lemma total_added (D D' : IndexSet) x : wf D -> wf D' -> (forall w, w ∈ D' -> w ∈ D \/ w = x) ->
  (total (flat D') <= total (flat D) + 1)%Z.
Proof.
  intros HD HD' Hm. rewrite <-!length_elems_flat by done.
  assert (elems (flat D') ⊆+ x :: elems (flat D)) as Hs%submseteq_length; [|simpl in Hs; lia].
  apply NoDup_submseteq.
  - apply sorted_NoDup. destruct HD' as [_ [Hok _]]. by eapply elems_sorted.
  - intros w. rewrite elem_of_cons, !elem_of_elems, <-!elem_of_flat. intros [?| ->]%Hm; [by right|by left].
Qed.

(** What [take_over] and [report_row] do together. *)
Record moved_over (row last : Z) (b b' : CollectionChangeBuilder) : Prop := {
  mo_rows : b' = with_rows (deletions b') (insertions b') (m_move_mapping b') b;
  mo_wf_d : wf (deletions b');
  mo_wf_i : wf (insertions b');
  mo_insertions : forall z, z ∈ insertions b' <-> z <> last /\ (z ∈ insertions b \/ z = row);
  mo_deletions : forall x, x ∈ deletions b' <-> x ∈ deletions b \/ same_element b x last \/ same_element b x row;
  mo_corr : forall x z, (z < last)%Z -> same_element b' x z <-> same_element b x z /\ z <> row;
  mo_mapping : forall z x, m_move_mapping b' !! z = Some x <->
    (z = row /\ mapped b x last) \/ (z <> row /\ z <> last /\ m_move_mapping b !! z = Some x);
}.

Lemma total_taken_over row last b b1 : wf_builder b -> taken_over row last b b1 -> (0 <= last)%Z ->
  (total (flat (deletions b1)) <= total (flat (deletions b)) + 1)%Z.
Proof.
  intros Hwf [_ HD1 _ _ _ HDm _ _] Hl. pose proof Hwf as [HD HI _ _].
  destruct (decide (mem last (flat (insertions b)))) as [Hin|Hn].
  - apply (total_added _ _ 0%Z); [done..|]. intros w [?|Hw]%HDm; [by left|].
    by destruct Hw as (_ & _ & _ & [] & _).
  - destruct HD as [? [HokD ?]] eqn:E, HI as [? [HokI ?]] eqn:E'.
    destruct (corr_surj _ _ HokD HokI last Hl Hn) as [x Hx].
    apply (total_added _ _ x); [done..|]. intros w [?|Hw]%HDm; [by left|right].
    by apply (same_element_inj b w x last).
Qed.

Lemma report_row_spec b b1 row last : wf_builder b -> taken_over row last b b1 -> (0 <= row < last)%Z ->
  (last + total (flat (deletions b)) < npos)%Z ->
  exists b', report_row row (bool_decide (row ∈ insertions b)) b1 = Some b' /\ moved_over row last b b'.
Proof.
  intros Hwf Hto Hr Hsum. pose proof (total_taken_over row last b b1 Hwf Hto ltac:(lia)) as Ht1.
  destruct Hwf as [HD HI _ _], Hto as [Hrows HD1 HI1 Hlast Hag HDm Hcorr Hmap]. unfold report_row.
  pose proof (wf_total _ HD) as HtD. case_bool_decide as Hin; cbn [negb].
  - exists b1. split; [done|]. split; try done.
    + intros z. destruct (decide (z = last)) as [->|]; [tauto|]. rewrite Hag by done.
      split; [tauto|]. by intros [_ [?| ->]].
    + intros x. rewrite HDm. split; [tauto|]. intros [?|[?|(_ & _ & _ & [] & _)]]; tauto.
    + intros x z Hz. rewrite Hcorr by done. split; [|tauto]. intros Hc. split; [done|].
      intros ->. by destruct Hc as (_ & _ & _ & [] & _).
  - assert (row ∉ insertions b1) as Hin1 by (rewrite Hag by lia; done).
    destruct (delete_source (deletions b1) (insertions b1) row) as (u & D' & s & -> & Hs & HD' & Hc & HDm');
      [done|done|lia|lia|done|].
    mrun. rewrite Hs. mrun. destruct (add_spec (insertions b1) row HI1) as (I' & -> & HI' & HIm'); [lia|]. mrun.
    eexists. split; [done|].
    pose proof HD1 as [_ [HokD1 _]]. pose proof HI1 as [_ [HokI1 _]].
    pose proof HD' as [_ [HokD' _]]. pose proof HI' as [_ [HokI' _]].
    assert (forall x, same_element b x row <-> x = s) as Hsame.
    { intros x. rewrite <-Hcorr by lia. split; [|by intros ->]. intros Hc'.
      by apply (corr_inj _ _ HokD1 HokI1 x s row). }
    split; cbn [deletions insertions m_move_mapping set_insertions set_deletions]; try done.
    + rewrite Hrows at 1. by destruct b.
    + intros z. rewrite HIm'. destruct (decide (z = last)) as [->|].
      { split; [intros [?|?]; [done|lia]|by intros [? _]]. }
      rewrite Hag by done. tauto.
    + intros x. rewrite HDm', HDm, Hsame. tauto.
    + intros x z Hz. rewrite <-(Hcorr x z) by done. unfold same_element.
      cbn [deletions insertions set_insertions set_deletions].
      by apply (corr_mark _ _ _ _ s row).
Qed.

Lemma moved_over_mapped row last b b' x z : wf_mapping b -> moved_over row last b b' ->
  (0 <= row < last)%Z -> (z < last)%Z ->
  mapped b' x z <-> exists y, (y <= last)%Z /\ mapped b x y /\ over_map row last y z.
Proof.
  intros [Hok _] Hmo Hr Hz. unfold mapped at 1.
  rewrite (mo_corr _ _ _ _ Hmo) by done. rewrite (mo_mapping _ _ _ _ Hmo). unfold over_map, over. split.
  - intros [[Hs Hne]|[[-> Hm]|(Hne & Hne' & Hm)]].
    + exists z. split_and!; [lia|by left|done|]. rewrite decide_False by lia. done.
    + exists last. split_and!; [lia|done|lia|]. by rewrite decide_True.
    + exists z. split_and!; [lia|by right|done|]. by rewrite decide_False.
  - intros (y & Hy & Hm & Hne & ->). case_decide as E; [subst y; right; by left|].
    destruct Hm as [Hs|Hm]; [by left|right; right; done].
Qed.

Lemma moved_over_wf row last b b' : wf_builder b -> wf_mapping b -> moved_over row last b b' ->
  (0 <= row < last)%Z -> wf_mapping b'.
Proof.
  intros Hwf [Hok Hinj] Hmo Hr. assert (forall x z, mapped b x last -> m_move_mapping b !! z = Some x -> z = last) as Hl.
  { intros x z [Hs|Hm] Hm'; [|by apply (Hinj z last x)]. destruct (Hok _ _ Hm') as [? _].
    by destruct Hs as (_ & _ & [] & _). }
  split.
  - intros y x Hm%(mo_mapping _ _ _ _ Hmo). rewrite (mo_deletions _ _ _ _ Hmo), (mo_insertions _ _ _ _ Hmo).
    destruct Hm as [[-> Hm]|(? & ? & Hm)].
    + split; [|split; [lia|by right]]. destruct Hm as [?|Hm]; [tauto|left; by eapply Hok].
    + destruct (Hok _ _ Hm). tauto.
  - intros y y' x Hm%(mo_mapping _ _ _ _ Hmo) Hm'%(mo_mapping _ _ _ _ Hmo).
    destruct Hm as [[-> Hm]|(? & ? & Hm)], Hm' as [[-> Hm']|(? & ? & Hm')]; try done.
    + by pose proof (Hl x y' Hm Hm').
    + by pose proof (Hl x y Hm' Hm).
    + by eapply Hinj.
Qed.

(** ** [move_over] *)

Lemma move_over_split row last b : row <> last -> move_over row last true b =
  (_ ← REALM_ASSERT (bool_decide (row <= last)%Z);
   ok ← end_at_most (insertions b) last; _ ← REALM_ASSERT ok;
   ok ← end_at_most (modifications b) last; _ ← REALM_ASSERT ok;
   b ← for_each_col (λ col,
      modified ← contains col last;
      if modified : bool then col ← remove col last 1; add col row
      else remove col row 1) b;
   row_is_insertion ← contains (insertions b) row;
   last_is_insertion ← (if bool_decide (insertions b = []) then Some false
                        else e ← last_end (insertions b); Some (bool_decide (e = last +! 1)));
   _ ← (if bool_decide (insertions b = []) then Some tt
        else e ← last_end (insertions b); REALM_ASSERT_DEBUG (bool_decide (e <= last +! 1)%Z));
   b ← take_over row last row_is_insertion last_is_insertion b;
   b ← report_row row row_is_insertion b;
   _ ← verify_moves b;
   Some b).
Proof.
  intros Hne. unfold move_over. rewrite (bool_decide_false (row = last)) by done. cbn [negb].
  repeat match goal with
  | |- ?l = ?l => reflexivity
  | |- mbind _ ?e = _ => let p := fresh in destruct e as [p|]; [|done]; mrun
  end.
  unfold take_over, report_row. repeat case_match; try done; simplify_eq; mrun; try done.
Qed.

(** The erasure of the last row. *)
Lemma erase_last_rows (b : CollectionChangeBuilder) row : wf_builder b -> wf_mapping b -> (0 <= row)%Z ->
  bounded (row + 1) (flat (insertions b)) -> (row + total (flat (deletions b)) < npos)%Z ->
  exists b', (b ← report_deletion row b; Some (set_mapping (delete row (m_move_mapping b)) b)) = Some b'
    /\ b' = with_rows (deletions b') (insertions b') (m_move_mapping b') b
    /\ wf (deletions b') /\ wf (insertions b') /\ wf_mapping b' /\ bounded row (flat (insertions b'))
    /\ forall x z, (z < row)%Z -> mapped b' x z <-> exists y, (y <= row)%Z /\ mapped b x y /\ over_map row row y z.
Proof.
  intros Hwf [Hok Hinj] Hr Hb Hsum.
  destruct (report_deletion_spec b row Hwf Hr Hsum) as (D' & I' & -> & HD' & HI' & Hadd & He). mrun.
  eexists. split; [done|]. pose proof Hwf as [[_ [HokD _]] [_ [HokI _]] _ _].
  pose proof HD' as [_ [HokD' _]]. pose proof HI' as [_ [HokI' _]].
  cbn [deletions insertions m_move_mapping set_mapping set_deletions set_insertions].
  split_and!; [by destruct b|done|done| | |].
  - split; cbn [deletions insertions m_move_mapping set_mapping set_deletions set_insertions].
    + intros y x [Hne Hm]%lookup_delete_Some. destruct (Hok _ _ Hm) as [Hx Hy]. split; [apply Hadd; by left|].
      pose proof (mem_bounded _ _ _ Hb Hy). apply He. left. split; [lia|done].
    + intros y y' x [_ Hm]%lookup_delete_Some [_ Hm']%lookup_delete_Some. by eapply Hinj.
  - apply (bounded_of_mem 0); [done|]. intros y [[? _]|[? Hy]]%He; [lia|].
    pose proof (mem_bounded _ _ _ Hb Hy). lia.
  - intros x z Hz. unfold mapped, same_element, over_map, over.
    cbn [deletions insertions m_move_mapping set_mapping set_deletions set_insertions].
    rewrite (corr_erase _ _ _ _ HokD HokI HokD' HokI' row He Hadd Hr), lookup_delete_Some. split.
    + intros [(y & Hc & Hne & ->)|[Hne Hm]].
      * exists y. rewrite (decide_False (P := y = row)) by done.
        split_and!; [|by left|done|]; split_up_down; lia.
      * exists z. rewrite decide_False by done. split_and!; [lia|by right|done|done].
    + intros (y & Hy & Hm & Hne & ->). rewrite decide_False by done.
      destruct Hm as [Hc|Hm]; [left|by right]. exists y. split_and!; [done|done|].
      split_up_down; lia.
Qed.

(** The conclusion of the theorem on [move_over]. *)
Definition row_moved_over (row last : Z) (b b' : CollectionChangeBuilder) : Prop :=
  wf_builder b' /\ wf_mapping b' /\ moves b' = moves b /\ bounded last (flat (insertions b'))
  /\ (forall x z, (z < last)%Z ->
       mapped b' x z <-> exists y, (y <= last)%Z /\ mapped b x y /\ over_map row last y z)
  /\ image (over_map row last) (modifications b) (modifications b')
  /\ columns_related (image (over_map row last)) b (columns b').

Lemma move_over_last (b : CollectionChangeBuilder) row : wf_builder b -> wf_mapping b -> (0 <= row)%Z ->
  bounded (row + 1) (flat (insertions b)) -> bounded (row + 1) (flat (modifications b)) ->
  (row + total (flat (deletions b)) < npos)%Z ->
  exists b', move_over row row true b = Some b' /\ row_moved_over row row b b'.
Proof.
  intros Hwf Hmp Hr HbI HbM Hsum. pose proof Hwf as [HD HI HM HC]. pose proof (wf_total _ HD) as Ht.
  unfold move_over. rewrite REALM_ASSERT_decide by lia. mrun.
  rewrite !end_at_most_spec by (done || lia). mrun. rewrite !REALM_ASSERT_true by done. mrun.
  rewrite bool_decide_true by done.
  destruct (erase_last_rows b row Hwf Hmp Hr HbI Hsum) as (b1 & Hrun & Hrows & HD1 & HI1 & Hmp1 & Hb1 & Hmap).
  assert (forall (k : CollectionChangeBuilder -> option CollectionChangeBuilder),
    (b ← ('(ins, shifted_from) ← erase_or_unshift (insertions b) row;
           let b := set_insertions ins b in
           b ← (if bool_decide (shifted_from ≠ npos) then
                  '(d, _) ← add_shifted (deletions b) shifted_from; Some (set_deletions d b)
                else Some b);
           Some (set_mapping (delete row (m_move_mapping b)) b)); k b) = k b1) as Hk.
  { intros k. revert Hrun. unfold report_deletion. destruct (erase_or_unshift (insertions b) row) as [[ins u]|]; [|done].
    mrun. destruct (if bool_decide _ then _ else _); [|done]. mrun. by intros [= ->]. }
  rewrite Hk.
  destruct (for_each_col_spec wf (image (over_map row row)) (λ col, remove col row 1) b1)
    as (m & cols & -> & Hwf' & HRm & HRc).
  - intros c Hc. apply over_column_last; [done|lia].
  - rewrite Hrows. by split.
  - by rewrite Hrows.
  - by rewrite Hrows.
  - rewrite Hrows in HRm, HRc. eexists. split; [done|]. split_and!; [done| | |done| |done|done].
    + destruct Hmp1. by split.
    + by rewrite Hrows.
    + exact Hmap.
Qed.

Lemma move_over_below (b : CollectionChangeBuilder) row last : wf_builder b -> wf_mapping b -> moves b = [] ->
  (0 <= row < last)%Z -> bounded (last + 1) (flat (insertions b)) ->
  bounded (last + 1) (flat (modifications b)) -> (last + total (flat (deletions b)) < npos)%Z ->
  exists b', move_over row last true b = Some b' /\ row_moved_over row last b b'.
Proof.
  intros Hwf Hmp Hmv Hr HbI HbM Hsum. pose proof Hwf as [HD HI HM HC]. pose proof (wf_total _ HD) as Ht.
  rewrite move_over_split by lia. rewrite REALM_ASSERT_decide by lia. mrun.
  rewrite !end_at_most_spec by (done || lia). mrun. rewrite !REALM_ASSERT_true by done. mrun.
  destruct (for_each_col_spec wf (image (over_map row last)) (λ col,
      modified ← contains col last;
      if modified : bool then col ← remove col last 1; add col row
      else remove col row 1) b) as (m & cols & -> & Hwf1 & HRm & HRc); [|done..|].
  { intros c Hc. apply over_column; [done|lia|lia]. }
  mrun. set (b1 := set_columns cols (set_modifications m b)) in *.
  assert (wf_mapping b1) as Hmp1 by (destruct Hmp; by split).
  change (insertions b1) with (insertions b). rewrite contains_member by done. mrun.
  rewrite last_is_member, end_within by (done || lia). mrun.
  assert (exists b2, take_over row last (bool_decide (row ∈ insertions b)) (bool_decide (last ∈ insertions b)) b1
    = Some b2 /\ taken_over row last b1 b2) as (b2 & -> & Hto).
  { destruct (decide (last ∈ insertions b)) as [Hin|Hin].
    - rewrite (bool_decide_true (last ∈ insertions b)) by done. by apply (take_over_inserted b1); [..|lia|].
    - rewrite (bool_decide_false (last ∈ insertions b)) by done. by apply (take_over_kept b1). }
  mrun. change (bool_decide (row ∈ insertions b)) with (bool_decide (row ∈ insertions b1)).
  destruct (report_row_spec b1 b2 row last Hwf1 Hto Hr Hsum) as (b' & -> & Hmo). mrun.
  pose proof (mo_rows _ _ _ _ Hmo) as Hrows.
  assert (verify_moves b' = Some tt) as ->.
  { unfold verify_moves. rewrite Hrows. cbn. rewrite Hmv. cbn. by destruct realm_debug. }
  mrun. exists b'. split; [done|]. split_and!.
  - destruct Hwf1 as [_ _ ? ?]. split; [apply Hmo|apply Hmo|by rewrite Hrows..].
  - by apply (moved_over_wf row last b1).
  - by rewrite Hrows.
  - apply (bounded_of_mem 0); [apply Hmo|]. intros y Hy. rewrite <-elem_of_flat in Hy.
    apply (mo_insertions _ _ _ _ Hmo) in Hy as [? [Hy| ->]]; [|lia].
    pose proof (mem_bounded _ _ _ HbI Hy). lia.
  - intros x z Hz. rewrite (moved_over_mapped row last b1 b') by done. done.
  - by rewrite Hrows.
  - by rewrite Hrows.
Qed.
End table.
