(* ===== verification/ChangeComplete.v ===== *)
(** * Correctness of recording changes: swaps and the end of a transaction

    [swap] of two rows of a table, and [parse_complete], which turns the move
    mapping into moves. *)

From S2P Require Import Prelude ChunkedRangeVector ChunkedFacts ChunkedOps IndexSet LoopFacts IndexSetFacts.
From S2P Require Import IndexSetEdits IndexSetWalk IndexSetMerge CorrFacts AddShiftedFacts ChangeBuilder.
From S2P Require Import ChangeFacts ChangeMove ChangeMerge ChangeCompose ChangeTable.

(** Row [y] after rows [n1] and [n2] change places. *)
Definition swapped (n1 n2 y : Z) : Z :=
  if decide (y = n1) then n2 else if decide (y = n2) then n1 else y.
Definition swap_map (n1 n2 y z : Z) : Prop := z = swapped n1 n2 y.

Lemma swapped_comm n1 n2 y : swapped n1 n2 y = swapped n2 n1 y.
Proof. unfold swapped. repeat case_decide; congruence. Qed.

Lemma swapped_twice n1 n2 y : swapped n1 n2 (swapped n1 n2 y) = y.
Proof. unfold swapped. repeat case_decide; congruence. Qed.

Lemma mapped_fun `{Build} b x y y' : wf_builder b -> wf_mapping b -> mapped b x y -> mapped b x y' -> y = y'.
Proof.
  intros Hwf [Hok Hinj] [Hs|Hm] [Hs'|Hm'].
  - by apply (same_element_fun b x).
  - destruct (Hok _ _ Hm') as [? _]. by destruct Hs as (_ & _ & [] & _).
  - destruct (Hok _ _ Hm) as [? _]. by destruct Hs' as (_ & _ & [] & _).
  - by eapply Hinj.
Qed.

Section swap.
Context `{Build}.

(** ** Columns *)

Lemma swap_column_one (d : IndexSet) a c : wf d -> (0 <= a < npos)%Z -> (0 <= c < npos)%Z ->
  a ∈ d -> c ∉ d -> exists d', (d ← remove d a 1; add d c) = Some d' /\ wf d' /\ image (swap_map a c) d d'.
Proof.
  intros Hd Ha Hc Hin Hn. destruct (remove_one d a Hd Ha) as (d1 & -> & Hd1 & Hm1). mrun.
  destruct (add_spec d1 c Hd1 Hc) as (d' & -> & Hd' & Hm). exists d'. split_and!; [done..|].
  intros z. rewrite Hm, Hm1. unfold swap_map. split.
  - intros [[Hz Hne]| ->].
    + exists z. split; [done|]. unfold swapped. rewrite !decide_False; [done|by intros ->|done].
    + exists a. split; [done|]. unfold swapped. by rewrite decide_True.
  - intros (y & Hy & ->). unfold swapped. repeat case_decide; [by right|by subst|by left].
Qed.

Lemma swap_column (d : IndexSet) n1 n2 : wf d -> (0 <= n1 < npos)%Z -> (0 <= n2 < npos)%Z ->
  exists d', swap_modified n1 n2 d = Some d' /\ wf d' /\ image (swap_map n1 n2) d d'.
Proof.
  intros Hd H1 H2. unfold swap_modified. rewrite !contains_member by done. mrun.
  destruct (decide (n1 ∈ d)) as [Hin1|Hin1], (decide (n2 ∈ d)) as [Hin2|Hin2];
    rewrite ?(bool_decide_true (n1 ∈ d)), ?(bool_decide_true (n2 ∈ d)),
      ?(bool_decide_false (n1 ∈ d)), ?(bool_decide_false (n2 ∈ d)) by done; cbn;
    [|by apply swap_column_one| |].
  - exists d. split_and!; [done..|]. intros z. unfold swap_map. split.
    + intros Hz. exists (swapped n1 n2 z). rewrite swapped_twice. split; [|done].
      unfold swapped. by repeat case_decide.
    + intros (y & Hy & ->). unfold swapped. by repeat case_decide.
  - destruct (swap_column_one d n2 n1) as (d' & -> & Hd' & Him); [done..|]. exists d'. split_and!; [done..|].
    intros z. rewrite (Him z). unfold swap_map. by setoid_rewrite (swapped_comm n2 n1).
  - exists d. split_and!; [done..|]. intros z. unfold swap_map, swapped. split.
    + intros Hz. exists z. split; [done|]. by rewrite !decide_False by (by intros ->).
    + intros (y & Hy & ->). by rewrite !decide_False by (by intros ->).
Qed.

(** ** [add_move] *)

Record move_added (row target : Z) (b b' : CollectionChangeBuilder) : Prop := {
  ma_rows : b' = with_rows (deletions b') (insertions b') (m_move_mapping b') b;
  ma_wf_d : wf (deletions b');
  ma_wf_i : wf (insertions b');
  ma_deletions : forall x, x ∈ deletions b' <-> x ∈ deletions b \/ same_element b x row;
  ma_insertions : forall z, z ∈ insertions b' <-> z ∈ insertions b \/ z = row;
  ma_total : (total (flat (deletions b')) <= total (flat (deletions b)) + 1)%Z;
  ma_corr : forall x z, same_element b' x z <-> same_element b x z /\ z <> row;
  ma_mapping : forall z x, m_move_mapping b' !! z = Some x <->
    (z = target /\ same_element b x row) \/ m_move_mapping b !! z = Some x;
}.

Lemma add_move_spec (b : CollectionChangeBuilder) row target : wf (deletions b) -> wf (insertions b) ->
  (0 <= row < npos)%Z -> (row + total (flat (deletions b)) < npos)%Z -> m_move_mapping b !! target = None ->
  exists b', add_move row target b = Some b' /\ move_added row target b b'.
Proof.
  intros HD HI Hr Hsum Hnone. unfold add_move. rewrite contains_member by done. mrun.
  pose proof HD as [_ [HokD _]]. pose proof HI as [_ [HokI _]]. case_bool_decide as Hin.
  - assert (forall x, ~ same_element b x row) as Hn by (intros x (_ & _ & _ & Hn & _); done).
    exists b. split; [done|]. split; try done.
    + by destruct b.
    + intros x. specialize (Hn x). tauto.
    + intros z. split; [tauto|]. by intros [?| ->].
    + lia.
    + intros x z. split; [|tauto]. intros Hc. split; [done|]. intros ->. by apply (Hn x).
    + intros z x. specialize (Hn x). tauto.
  - destruct (delete_source (deletions b) (insertions b) row) as (u & D' & s & -> & Hs & HD' & Hc & HDm);
      [done..|]. mrun. rewrite Hs. mrun.
    destruct (add_spec (insertions b) row HI) as (I' & Hrun & HI' & HIm); [lia|].
    cbn [insertions set_mapping set_deletions]. rewrite Hrun. mrun.
    pose proof HD' as [_ [HokD' _]]. pose proof HI' as [_ [HokI' _]].
    assert (forall x, same_element b x row <-> x = s) as Hsame.
    { intros x. split; [|by intros ->]. intros Hc'. by apply (corr_inj _ _ HokD HokI x s row). }
    eexists. split; [done|]. split; cbn [deletions insertions m_move_mapping set_mapping set_deletions set_insertions];
      try done.
    + intros x. by rewrite HDm, Hsame.
    + apply (total_added _ _ s); [done..|]. intros w. by rewrite HDm.
    + intros x z. unfold same_element. cbn [deletions insertions set_mapping set_deletions set_insertions].
      by apply (corr_mark _ _ _ _ s row).
    + intros z x. rewrite Hsame, lookup_insert_Some. destruct (decide (z = target)); intuition congruence.
Qed.

(** ** [swap] *)

Record rows_swapped (n1 n2 : Z) (b b' : CollectionChangeBuilder) : Prop := {
  rs_rows : b' = with_rows (deletions b') (insertions b') (m_move_mapping b') b;
  rs_wf_d : wf (deletions b');
  rs_wf_i : wf (insertions b');
  rs_deletions : forall x, x ∈ deletions b' <-> x ∈ deletions b \/ same_element b x n1 \/ same_element b x n2;
  rs_insertions : forall z, z ∈ insertions b' <-> z ∈ insertions b \/ z = n1 \/ z = n2;
  rs_corr : forall x z, same_element b' x z <-> same_element b x z /\ z <> n1 /\ z <> n2;
  rs_mapping : forall z x, m_move_mapping b' !! z = Some x <->
    (z = n1 /\ mapped b x n2) \/ (z = n2 /\ mapped b x n1)
    \/ (z <> n1 /\ z <> n2 /\ m_move_mapping b !! z = Some x);
}.

Lemma rows_swapped_comm n1 n2 b b' : rows_swapped n1 n2 b b' -> rows_swapped n2 n1 b b'.
Proof.
  intros [? ? ? HD HI Hc Hm]. split; try done.
  - intros x. rewrite HD. tauto.
  - intros z. rewrite HI. tauto.
  - intros x z. rewrite Hc. tauto.
  - intros z x. rewrite Hm. tauto.
Qed.

(** Neither row is the target of a move. *)
Lemma swap_unmapped b n1 n2 : wf_builder b -> (0 <= n1 < n2)%Z ->
  (n2 + total (flat (deletions b)) < npos)%Z ->
  m_move_mapping b !! n1 = None -> m_move_mapping b !! n2 = None ->
  exists b', (b ← add_move n2 n1 b; add_move n1 n2 b) = Some b' /\ rows_swapped n1 n2 b b'.
Proof.
  intros [HD HI _ _] Hn Hsum H1 H2. pose proof (wf_total _ HD) as Ht.
  destruct (add_move_spec b n2 n1 HD HI) as (b1 & -> & [Hr1 HD1 HI1 HDm1 HIm1 Ht1 Hc1 Hm1]); [lia|done|done|].
  mrun. destruct (add_move_spec b1 n1 n2 HD1 HI1) as (b' & -> & [Hr' HD' HI' HDm' HIm' _ Hc' Hm']); [lia|lia| |].
  { destruct (m_move_mapping b1 !! n2) as [x|] eqn:E; [|done]. apply Hm1 in E as [[? _]|?]; [lia|congruence]. }
  exists b'. split; [done|]. split; try done.
  - rewrite Hr', Hr1. by destruct b.
  - intros x. rewrite HDm', HDm1, Hc1. intuition lia.
  - intros z. rewrite HIm', HIm1. tauto.
  - intros x z. rewrite Hc', Hc1. tauto.
  - intros z x. rewrite Hm', Hm1, Hc1. unfold mapped. rewrite H1, H2.
    destruct (decide (z = n1)), (decide (z = n2)); subst; intuition (congruence || lia).
Qed.

(** Only [n1] is. *)
Lemma swap_one b n1 n2 source : wf_builder b -> wf_mapping b -> n1 <> n2 -> (0 <= n2 < npos)%Z ->
  (n2 + total (flat (deletions b)) < npos)%Z ->
  m_move_mapping b !! n1 = Some source -> m_move_mapping b !! n2 = None ->
  exists b', update_move n1 source n2 n1 b = Some b' /\ rows_swapped n1 n2 b b'.
Proof.
  intros [HD HI _ _] [Hok Hinj] Hne Hn Hsum H1 H2. unfold update_move.
  destruct (Hok _ _ H1) as [_ Hin1].
  assert (forall x, ~ same_element b x n1) as Hno by (intros x (_ & _ & _ & Hx & _); done).
  set (b0 := set_mapping _ b).
  destruct (add_move_spec b0 n2 n1 HD HI) as (b' & -> & [Hr' HD' HI' HDm' HIm' _ Hc' Hm']); [done|done| |].
  { unfold b0. cbn [m_move_mapping set_mapping]. rewrite lookup_insert_ne by done. apply lookup_delete_eq. }
  mrun. rewrite contains_member by done. mrun. rewrite REALM_ASSERT_DEBUG_true; cycle 1.
  { apply bool_decide_eq_true, HIm'. by left. }
  mrun. exists b'. split; [done|].
  change (same_element b0) with (same_element b) in *. change (deletions b0) with (deletions b) in *.
  change (insertions b0) with (insertions b) in *. split; try done.
  - intros x. rewrite HDm'. specialize (Hno x). tauto.
  - intros z. rewrite HIm'. split; [tauto|]. intros [?|[-> |?]]; tauto.
  - intros x z. rewrite Hc'. split; [|tauto]. intros [Hc ?]. split; [done|]. split; [|done].
    intros ->. by apply (Hno x).
  - intros z x. rewrite Hm'. unfold b0, mapped. cbn [m_move_mapping set_mapping].
    rewrite lookup_insert_Some, lookup_delete_Some, H1, H2. specialize (Hno x).
    destruct (decide (z = n1)), (decide (z = n2)); subst; intuition congruence.
Qed.

Lemma swap_both b n1 n2 s1 s2 : wf_builder b -> wf_mapping b -> n1 <> n2 ->
  m_move_mapping b !! n1 = Some s1 -> m_move_mapping b !! n2 = Some s2 ->
  rows_swapped n1 n2 b (set_mapping (<[n1 := s2]> (<[n2 := s1]> (m_move_mapping b))) b).
Proof.
  intros [HD HI _ _] [Hok Hinj] Hne H1 H2.
  destruct (Hok _ _ H1) as [_ Hin1], (Hok _ _ H2) as [_ Hin2].
  assert (forall x, ~ same_element b x n1) as Hno1 by (intros x (_ & _ & _ & Hx & _); done).
  assert (forall x, ~ same_element b x n2) as Hno2 by (intros x (_ & _ & _ & Hx & _); done).
  split; try done; cbn [deletions insertions m_move_mapping set_mapping].
  - intros x. specialize (Hno1 x). specialize (Hno2 x). tauto.
  - intros z. split; [tauto|]. intros [?|[-> | ->]]; done.
  - intros x z. change (same_element (set_mapping _ b)) with (same_element b). split; [|tauto].
    intros Hc. split_and!; [done|intros ->; by apply (Hno1 x)|intros ->; by apply (Hno2 x)].
  - intros z x. unfold mapped. rewrite !lookup_insert_Some, H1, H2. specialize (Hno1 x). specialize (Hno2 x).
    destruct (decide (z = n1)), (decide (z = n2)); subst; intuition congruence.
Qed.

Lemma swap_rows b n1 n2 : wf_builder b -> wf_mapping b -> (0 <= n1 < n2)%Z ->
  (n2 + total (flat (deletions b)) < npos)%Z ->
  exists b', match m_move_mapping b !! n1, m_move_mapping b !! n2 with
    | Some s1, Some s2 => Some (set_mapping (<[n1 := s2]> (<[n2 := s1]> (m_move_mapping b))) b)
    | Some s1, None => update_move n1 s1 n2 n1 b
    | None, Some s2 => update_move n2 s2 n1 n2 b
    | None, None => b ← add_move n2 n1 b; add_move n1 n2 b
    end = Some b' /\ rows_swapped n1 n2 b b'.
Proof.
  intros Hwf Hmp Hn Hsum. pose proof Hwf as [HD _ _ _]. pose proof (wf_total _ HD) as Ht.
  destruct (m_move_mapping b !! n1) as [s1|] eqn:H1, (m_move_mapping b !! n2) as [s2|] eqn:H2.
  - eexists. split; [done|]. apply swap_both; (done || lia).
  - apply swap_one; (done || lia).
  - destruct (swap_one b n2 n1 s2) as (b' & ? & ?); try (done || lia).
    exists b'. split; [done|]. by apply rows_swapped_comm.
  - by apply swap_unmapped.
Qed.

Lemma rows_swapped_mapped n1 n2 b b' x z : wf_mapping b -> n1 <> n2 -> rows_swapped n1 n2 b b' ->
  mapped b' x z <-> exists y, mapped b x y /\ swap_map n1 n2 y z.
Proof.
  intros _ Hne [_ _ _ _ _ Hc Hm]. unfold mapped at 1. rewrite Hc, Hm. unfold swap_map. split.
  - intros [(Hs & ? & ?)|[[-> ?]|[[-> ?]|(? & ? & ?)]]]; [exists z|exists n2|exists n1|exists z];
      (split; [first [done | by left | by right]|]); unfold swapped; repeat case_decide; congruence.
  - intros (y & Hy & ->). unfold swapped. repeat case_decide; subst.
    + right. right. by left.
    + right. by left.
    + destruct Hy as [?|?]; [by left|right; right; by right].
Qed.

Lemma rows_swapped_wf n1 n2 b b' : wf_builder b -> wf_mapping b -> n1 <> n2 -> rows_swapped n1 n2 b b' ->
  wf_mapping b'.
Proof.
  intros Hwf Hmp Hne Hrs. pose proof Hrs as [_ _ _ HD HI Hc Hm]. pose proof Hmp as [Hok Hinj]. split.
  - intros z x Hz%Hm. rewrite HD, HI. unfold mapped in Hz.
    destruct Hz as [[-> [?|Hz]]|[[-> [?|Hz]]|(? & ? & Hz)]]; try destruct (Hok _ _ Hz); tauto.
  - assert (forall z x, m_move_mapping b' !! z = Some x -> mapped b x (swapped n1 n2 z)) as Hback.
    { intros z x Hz. assert (mapped b' x z) as Hz' by by right.
      apply (rows_swapped_mapped n1 n2 b b' x z Hmp Hne Hrs) in Hz' as (y & Hy & ->). by rewrite swapped_twice. }
    intros z z' x Hz%Hback Hz'%Hback.
    rewrite <-(swapped_twice n1 n2 z), <-(swapped_twice n1 n2 z'). f_equal. by apply (mapped_fun b x).
Qed.

Lemma swap_spec (b : CollectionChangeBuilder) ndx_1 ndx_2 : wf_builder b -> wf_mapping b -> ndx_1 <> ndx_2 ->
  (0 <= ndx_1)%Z -> (0 <= ndx_2)%Z -> (Z.max ndx_1 ndx_2 + total (flat (deletions b)) < npos)%Z ->
  exists b', swap ndx_1 ndx_2 true b = Some b' /\ wf_builder b' /\ wf_mapping b' /\ moves b' = moves b
    /\ (forall x z, mapped b' x z <-> exists y, mapped b x y /\ swap_map ndx_1 ndx_2 y z)
    /\ image (swap_map ndx_1 ndx_2) (modifications b) (modifications b')
    /\ columns_related (image (swap_map ndx_1 ndx_2)) b (columns b').
Proof.
  intros Hwf Hmp Hne H1 H2 Hsum. pose proof Hwf as [HD _ HM HC]. pose proof (wf_total _ HD) as Ht.
  unfold swap. rewrite REALM_ASSERT_decide by done. mrun.
  assert (exists n1 n2, (if bool_decide (ndx_2 < ndx_1)%Z then (ndx_2, ndx_1) else (ndx_1, ndx_2)) = (n1, n2)
    /\ (0 <= n1 < n2)%Z /\ (n2 + total (flat (deletions b)) < npos)%Z
    /\ forall y, swapped n1 n2 y = swapped ndx_1 ndx_2 y) as (n1 & n2 & -> & Hn & Hs & Heq).
  { case_bool_decide; do 2 eexists; (split_and!; [done|lia|lia|lia|]); [|done]. intros. apply swapped_comm. }
  destruct (for_each_col_spec wf (image (swap_map ndx_1 ndx_2)) (swap_modified n1 n2) b)
    as (m & cols & -> & Hwf1 & HRm & HRc); [|done..|].
  { intros c Hc. destruct (swap_column c n1 n2) as (c' & ? & ? & Him); [done|lia|lia|].
    exists c'. split_and!; [done..|]. intros z. rewrite (Him z). unfold swap_map. by setoid_rewrite Heq. }
  mrun. set (b1 := set_columns cols (set_modifications m b)) in *.
  assert (wf_mapping b1) as Hmp1 by (destruct Hmp; by split).
  destruct (swap_rows b1 n1 n2 Hwf1 Hmp1 Hn Hs) as (b' & -> & Hrs). exists b'.
  pose proof (rs_rows _ _ _ _ Hrs) as Hrows. split_and!; [done| | | | | |].
  - destruct Hwf1 as [_ _ ? ?]. split; [apply Hrs|apply Hrs|by rewrite Hrows..].
  - apply (rows_swapped_wf n1 n2 b1); (done || lia).
  - by rewrite Hrows.
  - intros x z. rewrite (rows_swapped_mapped n1 n2 b1 b' x z) by (done || lia). unfold swap_map.
    setoid_rewrite Heq. done.
  - by rewrite Hrows.
  - by rewrite Hrows.
Qed.
End swap.

(** ** Correctness of [parse_complete]

    At the end of a transaction the move mapping becomes the list of moves. *)

(** The rank of an index after a member is removed. *)
Lemma below_removed L L' x n : ok_from 0 L -> ok_from 0 L' -> mem x L ->
  (forall y, mem y L' <-> mem y L /\ y <> x) -> (0 <= n)%Z -> (0 <= x)%Z ->
  below n L = (below n L' + if decide (x < n) then 1 else 0)%Z.
Proof.
  intros HL HL' Hx Hm Hn Hx0.
  revert n Hn. apply (natlike_ind (λ n, below n L = below n L' + if decide (x < n) then 1 else 0)%Z).
  - rewrite !(below_lo 0) by done. rewrite decide_False by lia. done.
  - intros n Hn IH. rewrite <-Z.add_1_r, !(below_S _ _ 0), IH by done.
    destruct (decide (n = x)) as [->|Hne].
    + rewrite (decide_True (P := mem x L)), (decide_False (P := mem x L')) by (done || rewrite Hm; tauto).
      rewrite !decide_False, decide_True by lia. lia.
    + assert (mem n L' <-> mem n L) as Hiff by (rewrite Hm; tauto).
      rewrite (decide_ext _ _ 1%Z 0%Z Hiff). repeat case_decide; lia.
Qed.

Section complete.
Context `{Build}.

Definition mapping_moves (l : list (Z * Z)) : list Move := (λ p, mkMove p.2 p.1) <$> l.

(** A row that is back at its old index has the same rank in both collections. *)
Definition stationary (l : list (Z * Z)) (b : CollectionChangeBuilder) : Prop :=
  forall y, (y, y) ∈ l -> rank (flat (deletions b)) y = rank (flat (insertions b)) y.

Definition complete_step (m : Z * Z) (b : CollectionChangeBuilder) : option CollectionChangeBuilder :=
  d ← contains (deletions b) m.2; _ ← REALM_ASSERT_DEBUG d;
  i ← contains (insertions b) m.1; _ ← REALM_ASSERT_DEBUG i;
  if bool_decide (m.1 = m.2) then
    d ← remove (deletions b) m.2 1;
    i ← remove (insertions b) m.1 1;
    Some (set_insertions i (set_deletions d b))
  else Some (set_moves (moves b ++ [mkMove m.2 m.1]) b).

(** The state of the loop of [parse_complete] with the entries [l] to do. *)
Record completing (T : Z -> Z -> Prop) (l : list (Z * Z)) (b0 b : CollectionChangeBuilder) : Prop := {
  cp_tracking : tracking T (moves b ++ mapping_moves l) b;
  cp_stationary : stationary l b;
  cp_moved : Forall (λ m, move_from m <> move_to m) (moves b);
  cp_rest : modifications b = modifications b0 /\ columns b = columns b0
    /\ m_track_columns b = m_track_columns b0;
}.

Lemma complete_step_spec T y x l b0 b : completing T ((y, x) :: l) b0 b ->
  exists b', complete_step (y, x) b = Some b' /\ completing T l b0 b'.
Proof.
  intros [Htr Hst Hmv Hrest]. unfold complete_step. cbn [fst snd].
  pose proof Htr as ([HD HI _ _] & Hwm & _).
  destruct (moves_member _ x y Hwm) as [Hx Hy].
  { cbn [moves set_moves mapping_moves]. apply elem_of_app. right. left. }
  cbn [deletions insertions set_moves] in Hx, Hy.
  rewrite !contains_member by done. mrun. rewrite !REALM_ASSERT_DEBUG_true by by apply bool_decide_eq_true. mrun.
  case_bool_decide as Heq.
  - subst x. assert (rank (flat (deletions b)) y = rank (flat (insertions b)) y) as Hrank by (apply Hst; left).
    destruct (unmove_step T (moves b) y y (mapping_moves l) b Htr Hrank)
      as (D' & I' & -> & Hrun & HDm & HIm & Htr'). mrun. rewrite Hrun. mrun.
    eexists. split; [done|]. split; try done.
    intros z Hz. cbn [deletions insertions set_insertions set_deletions].
    pose proof (Hst z ltac:(by right)) as Hz'. pose proof Htr' as ([HD' HI' _ _] & Hwm' & _).
    destruct (moves_member _ z z Hwm') as [_ Hzi].
    { cbn [moves set_moves]. apply elem_of_app. right. exact (list_elem_of_fmap_2 (λ p, mkMove p.2 p.1) l (z, z) Hz). }
    pose proof (elem_of_bounds _ _ HI' Hzi). pose proof (elem_of_bounds _ _ HI Hy).
    destruct HD as [_ [HokD _]], HI as [_ [HokI _]], HD' as [_ [HokD' _]], HI' as [_ [HokI' _]].
    unfold rank in *. rewrite (below_removed _ (flat D') y) in Hz' by (done || lia).
    rewrite (below_removed (flat (insertions b)) (flat I') y) in Hz' by (done || lia).
    case_decide; lia.
  - eexists. split; [done|]. split; try done.
    + cbn [moves set_moves]. rewrite <-app_assoc. destruct Htr as ([? ? ? ?] & ? & ?). by split_and!; [split|..].
    + intros z Hz. apply Hst. by right.
    + cbn [moves set_moves]. apply Forall_app. split; [done|]. constructor; [|done]. simpl. congruence.
Qed.

Lemma complete_fold T l b0 : forall b, completing T l b0 b ->
  exists b', foldM complete_step l b = Some b' /\ completing T [] b0 b'.
Proof.
  induction l as [|[y x] l IH]; intros b Hb; cbn [foldM]; [by exists b|].
  destruct (complete_step_spec T y x l b0 b Hb) as (b1 & -> & Hb1). mrun. by apply IH.
Qed.

Context `{!StdOrders}.

Lemma mapping_tracking b : wf_builder b -> wf_mapping b -> moves b = [] ->
  tracking (mapped b) (moves b ++ mapping_moves (map_order (m_move_mapping b))) b.
Proof.
  intros Hwf [Hok Hinj] Hnil. rewrite Hnil. cbn [app].
  assert (forall y x, (y, x) ∈ map_order (m_move_mapping b) <-> m_move_mapping b !! y = Some x) as Hin.
  { intros y x. by rewrite map_order_perm, elem_of_map_to_list. }
  assert (NoDup (map_order (m_move_mapping b))) as Hnd.
  { rewrite map_order_perm. apply NoDup_map_to_list. }
  split_and!; [done| |].
  - split; cbn [moves set_moves deletions insertions].
    + apply Forall_fmap, Forall_forall. intros [y x] Hyx%Hin. destruct (Hok _ _ Hyx). by split.
    + unfold mapping_moves. rewrite <-list_fmap_compose. apply NoDup_fmap_2_strong; [|done].
      intros [y x] [y' x'] H1%Hin H2%Hin Heq. cbn in Heq. subst x'. f_equal. by eapply Hinj.
    + unfold mapping_moves. rewrite <-list_fmap_compose. apply NoDup_fmap_2_strong; [|done].
      intros [y x] [y' x'] H1%Hin H2%Hin Heq. cbn in Heq. subst y'. f_equal. congruence.
  - intros x z. unfold tracks, mapped. cbn [moves set_moves].
    assert (mkMove x z ∈ mapping_moves (map_order (m_move_mapping b)) <-> m_move_mapping b !! z = Some x) as ->.
    { rewrite <-Hin. unfold mapping_moves. rewrite list_elem_of_fmap. split.
      - intros ([y' x'] & [= -> ->] & ?). done.
      - intros ?. by exists (z, x). }
    done.
Qed.

(** Moves in the order of their sources. *)
Definition by_source (l : list Move) : Prop :=
  StronglySorted (λ m m', (move_from m <= move_from m')%Z) l.

Lemma StronglySorted_weaken {A} (R R' : A -> A -> Prop) (l : list A) :
  (forall x y, R x y -> R' x y) -> StronglySorted R l -> StronglySorted R' l.
Proof.
  intros HR. induction 1 as [|x l _ IH Hall]; constructor; [done|].
  eapply Forall_impl; [exact Hall|]. intros y. apply HR.
Qed.

Lemma sort_by_source (l : list Move) :
  by_source (std_sort (λ a b, bool_decide (move_from a < move_from b)%Z) l).
Proof.
  unfold by_source. apply (StronglySorted_weaken
    (λ x y : Move, bool_decide (move_from y < move_from x)%Z = false)).
  - intros x y Hxy%bool_decide_eq_false. lia.
  - apply (std_sort_sorted (λ a b, bool_decide (move_from a < move_from b)%Z)).
    + intros x y Hlt%bool_decide_eq_true. apply bool_decide_eq_false. lia.
    + intros x y z H1%bool_decide_eq_false H2%bool_decide_eq_false. apply bool_decide_eq_false. lia.
Qed.

Lemma parse_complete_spec (b : CollectionChangeBuilder) : wf_builder b -> wf_mapping b -> moves b = [] ->
  (forall y, m_move_mapping b !! y = Some y -> rank (flat (deletions b)) y = rank (flat (insertions b)) y) ->
  exists b', parse_complete b = Some b' /\ wf_builder b' /\ wf_moves b' /\ m_move_mapping b' = ∅
    /\ (forall x z, tracks b' x z <-> mapped b x z)
    /\ by_source (moves b') /\ Forall (λ m, move_from m <> move_to m) (moves b')
    /\ modifications b' = modifications b /\ columns b' = columns b.
Proof.
  intros Hwf Hmp Hnil Hst. unfold parse_complete. fold complete_step.
  destruct (complete_fold (mapped b) (map_order (m_move_mapping b)) b b) as (b1 & Hrun & Hb1).
  { split; [by apply mapping_tracking| | |done].
    - intros y Hy. apply Hst. by rewrite map_order_perm, elem_of_map_to_list in Hy.
    - by rewrite Hnil. }
  change (λ (move : Z * Z) (b : CollectionChangeBuilder), _) with complete_step. rewrite Hrun. mrun.
  eexists. split; [done|]. destruct Hb1 as [(Hwf1 & Hwm1 & HT) _ Hmoved (Hm & Hc & _)].
  cbn [mapping_moves fmap list_fmap] in *. rewrite app_nil_r in *.
  set (sorted := std_sort _ _). assert (sorted ≡ₚ moves b1) as Hperm by apply std_sort_perm.
  split_and!; cbn [moves set_moves set_mapping]; [..|by apply sort_by_source| |done|done].
  - destruct Hwf1. by split.
  - destruct Hwm1 as [Hok Hf Ht]. cbn [moves set_moves deletions insertions] in *. by split; cbn; rewrite Hperm.
  - done.
  - intros x z. rewrite <-HT. unfold tracks, same_element. cbn [moves deletions insertions set_moves set_mapping]. by rewrite Hperm.
  - by rewrite Hperm.
Qed.
End complete.
