(* ===== verification/ChangeCalculation.v ===== *)
(** * Diffing two versions of a collection

    [CollectionChangeBuilder::calculate] with its two move detectors
    (impl/collection_change_builder.cpp): the insertions, deletions and moves
    that turn one list of row indices into another. *)

From S2P Require Import Prelude ChunkedRangeVector IndexSet ChangeBuilder.

Record RowInfo := mkRowInfo {
  row_index : Z;
  prev_tv_index : Z;
  tv_index : Z;
  shifted_tv_index : Z;
}.

Section calculation.
Context `{Build}.

(** ** Unsorted collections *)

(** One row of [calculate_moves_unsorted]; the state is [expected], [removed]
    and the changeset. *)
Definition unsorted_step (move_candidates : IndexSet) (row : RowInfo)
    (st : Z * IndexSet * CollectionChangeBuilder) : option (Z * IndexSet * CollectionChangeBuilder) :=
  let '(expected, removed, changeset) := st in
  if bool_decide (shifted_tv_index row = expected) then Some (expected +! 1, removed, changeset)
  else
    candidate ← contains move_candidates (row_index row);
    if negb candidate then Some (shifted_tv_index row +! 1, removed, changeset)
    else
      n ← count (insertions changeset) 0 (tv_index row);
      k ← count removed 0 (prev_tv_index row);
      let calc_expected := (tv_index row -! n) +! k in
      if bool_decide (shifted_tv_index row = calc_expected) then
        Some (calc_expected +! 1, removed, changeset)
      else
        let changeset := set_moves (moves changeset ++ [mkMove (prev_tv_index row) (tv_index row)])
                                   changeset in
        ins ← add (insertions changeset) (tv_index row);
        removed ← add removed (prev_tv_index row);
        Some (expected, removed, set_insertions ins changeset).

Definition calculate_moves_unsorted (new_rows : list RowInfo) (removed move_candidates : IndexSet)
    (changeset : CollectionChangeBuilder) : option (IndexSet * CollectionChangeBuilder) :=
  '(_, removed, changeset) ← foldM (unsorted_step move_candidates) new_rows (0%Z, removed, changeset);
  Some (removed, changeset).

(** ** Longest common subsequence *)

(** A pair of an index in the table and an index in the table view. *)
Record Row := mkRow { r_row_index : Z; r_tv_index : Z }.

Record Match := mkMatch { m_i : Z; m_j : Z; m_size : Z; m_modified : Z }.

(** The length of the matching block ending at [b[j]]; [prev] holds the pairs
    of the previous row. *)
Definition match_length (prev : list (Z * Z)) (j : Z) : Z :=
  match find_index (λ p, bool_decide (p.1 +! 1 = j)) prev with
  | Some k => match prev !! k with Some p => p.2 +! 1 | None => 1 end
  | None => 1
  end.

(** [f] on each [j] with the row index [ai] and [begin2 <= j < end2]. *)
Fixpoint for_each_b_match {St} (ai begin2 end2 : Z) (f : Z -> St -> option St) (b : list Row) (st : St)
  : option St :=
  match b with
  | [] => Some st
  | r :: b =>
      if bool_decide (r_row_index r = ai) then
        let j := r_tv_index r in
        if bool_decide (j < begin2)%Z then for_each_b_match ai begin2 end2 f b st
        else if bool_decide (end2 <= j)%Z then Some st
        else st ← f j st; for_each_b_match ai begin2 end2 f b st
      else Some st
  end.

(** The candidate block of [size] rows ending at [a[i]] and [b[j]] against the
    best one so far. *)
Definition better_match (modified : IndexSet) (i j size : Z) (best : Match) : option Match :=
  if bool_decide (m_size best < size)%Z then
    Some (mkMatch (i -! size +! 1) (j -! size +! 1) size npos)
  else if bool_decide (size = m_size best) then
    best_modified ← (if bool_decide (m_modified best = npos)
                     then count modified (m_j best -! size +! 1) (m_j best +! 1)
                     else Some (m_modified best));
    n ← count modified (j -! size +! 1) (j +! 1);
    if bool_decide (n < best_modified)%Z
    then Some (mkMatch (i -! size +! 1) (j -! size +! 1) size n)
    else Some (mkMatch (m_i best) (m_j best) (m_size best) best_modified)
  else Some best.

(** The body of the loop over [i]: the state is [prev], [cur] and [best]. *)
Definition match_row (modified : IndexSet) (a b : list Row) (begin1 end1 begin2 end2 : Z) (i : Z)
    (st : list (Z * Z) * list (Z * Z) * Match) : option (list (Z * Z) * list (Z * Z) * Match) :=
  let '(_, prev, best) := st in
  ai ← r_row_index <$> a !! Z.to_nat i;
  let it := find_index (λ lft, negb (bool_decide (r_row_index lft < ai)%Z)) b in
  let rest := match it with Some k => drop k b | None => [] end in
  _ ← REALM_ASSERT match head rest with Some r => bool_decide (r_row_index r = ai) | None => false end;
  '(cur, best) ← for_each_b_match ai begin2 end2 (λ j '(cur, best),
      let size := match_length prev j in
      let cur := cur ++ [(j, size)] in
      best ← better_match modified i j size best;
      _ ← REALM_ASSERT (bool_decide (begin1 <= m_i best)%Z
                        && bool_decide (m_i best +! m_size best <= end1)%Z);
      _ ← REALM_ASSERT (bool_decide (begin2 <= m_j best)%Z
                        && bool_decide (m_j best +! m_size best <= end2)%Z);
      Some (cur, best)) rest ([], best);
  Some (prev, cur, best).

Definition find_longest_match (modified : IndexSet) (a b : list Row) (begin1 end1 begin2 end2 : Z)
  : option Match :=
  '(_, _, best) ← foldM (match_row modified a b begin1 end1 begin2 end2)
    (seqZ begin1 (end1 - begin1)) ([], [], mkMatch begin1 begin2 0 0);
  Some best.

(** The recursion; [fuel] bounds its depth, the length of [a] is enough. *)
Fixpoint find_longest_matches (fuel : nat) (modified : IndexSet) (a b : list Row)
    (begin1 end1 begin2 end2 : Z) : option (list Match) :=
  match fuel with
  | O => None
  | S fuel =>
      m ← find_longest_match modified a b begin1 end1 begin2 end2;
      if bool_decide (m_size m = 0)%Z then Some []
      else
        before ← (if bool_decide (begin1 < m_i m)%Z && bool_decide (begin2 < m_j m)%Z
                  then find_longest_matches fuel modified a b begin1 (m_i m) begin2 (m_j m)
                  else Some []);
        after ← (if bool_decide (m_i m +! m_size m < end2)%Z && bool_decide (m_j m +! m_size m < end2)%Z
                 then find_longest_matches fuel modified a b (m_i m +! m_size m) end1
                        (m_j m +! m_size m) end2
                 else Some []);
        Some (before ++ m :: after)
  end.

(** [LongestCommonSubsequenceCalculator(a, b, start_index, modifications)] *)
Definition longest_matches (modified : IndexSet) (a b : list Row) (start_index : Z)
  : option (list Match) :=
  let la := Z.of_nat (length a) in
  let lb := Z.of_nat (length b) in
  ms ← find_longest_matches (S (length a)) modified a b start_index la start_index lb;
  Some (ms ++ [mkMatch la lb 0 0]).

(** ** Sorted collections *)

(** The deletions and insertions in front of one match. *)
Definition align_match (a : list Row) (rows : list RowInfo) (m : Match)
    (st : Z * Z * CollectionChangeBuilder) : option (Z * Z * CollectionChangeBuilder) :=
  let '(i, j, changeset) := st in
  dels ← foldM (λ i d, r ← a !! Z.to_nat i; add d (r_tv_index r))
    (seqZ i (m_i m - i)) (deletions changeset);
  ins ← foldM (λ j d, r ← rows !! Z.to_nat j; add d (tv_index r))
    (seqZ j (m_j m - j)) (insertions changeset);
  Some (std_max i (m_i m) +! m_size m, std_max j (m_j m) +! m_size m,
        set_insertions ins (set_deletions dels changeset)).

Definition row_lt_tv (lft rgt : Row) : bool :=
  bool_decide (r_tv_index lft < r_tv_index rgt)%Z
  || (bool_decide (r_tv_index lft = r_tv_index rgt) && bool_decide (r_row_index lft < r_row_index rgt)%Z).
Definition row_lt_row (lft rgt : Row) : bool :=
  bool_decide (r_row_index lft < r_row_index rgt)%Z
  || (bool_decide (r_row_index lft = r_row_index rgt) && bool_decide (r_tv_index lft < r_tv_index rgt)%Z).

Context `{StdOrders}.

Definition calculate_moves_sorted (rows : list RowInfo) (changeset : CollectionChangeBuilder)
  : option CollectionChangeBuilder :=
  let a := std_sort row_lt_tv ((λ row, mkRow (row_index row) (prev_tv_index row)) <$> rows) in
  match find_index (λ p, bool_decide (r_row_index p.1 ≠ row_index p.2)) (zip a rows) with
  | None => Some changeset
  | Some first_difference =>
      let b := std_sort row_lt_row (imap (λ i row, mkRow (row_index row) (Z.of_nat i)) rows) in
      let start := Z.of_nat first_difference in
      matches ← longest_matches (modifications changeset) a b start;
      '(_, _, changeset) ← foldM (align_match a rows) matches (start, start, changeset);
      Some changeset
  end.

(** ** [calculate] *)

(** The first loop of [calculate]: rows that were not deleted, with the number
    of deletions before them. *)
Fixpoint collect_old_rows (prev_rows : list Z) (i deleted : Z) (dels : IndexSet)
  : option (list RowInfo * IndexSet) :=
  match prev_rows with
  | [] => Some ([], dels)
  | r :: prev_rows =>
      if bool_decide (r = npos) then
        dels ← add dels i; collect_old_rows prev_rows (i +! 1) (deleted +! 1) dels
      else
        '(rows, dels) ← collect_old_rows prev_rows (i +! 1) deleted dels;
        Some (mkRowInfo r npos i (i -! deleted) :: rows, dels)
  end.

(** The merge of the old and the new rows, both sorted by row index: the new
    rows with the old positions of the rows present in both, the removed old
    positions and the inserted new ones. *)
Fixpoint match_rows (old_rows : list RowInfo)
  : list RowInfo -> IndexSet -> IndexSet -> option (list RowInfo * IndexSet * IndexSet) :=
  fix inner (new_rows : list RowInfo) (removed ins : IndexSet) :=
    match old_rows, new_rows with
    | o :: old_rows', n :: new_rows' =>
        if bool_decide (row_index o = row_index n) then
          '(rows, removed, ins) ← match_rows old_rows' new_rows' removed ins;
          Some (mkRowInfo (row_index n) (tv_index o) (tv_index n) (shifted_tv_index o) :: rows,
                removed, ins)
        else if bool_decide (row_index o < row_index n)%Z then
          removed ← add removed (tv_index o);
          match_rows old_rows' new_rows removed ins
        else
          ins ← add ins (tv_index n);
          '(rows, removed, ins) ← inner new_rows' removed ins;
          Some (n :: rows, removed, ins)
    | _, _ =>
        removed ← foldM (λ o d, add d (tv_index o)) old_rows removed;
        ins ← foldM (λ n d, add d (tv_index n)) new_rows ins;
        Some (new_rows, removed, ins)
    end.

(** [rows.erase(begin + first, begin + second)] and [rows.insert(begin + i, x)]. *)
Definition vec_erase_range (r : range) (rows : list Z) : option (list Z) :=
  if bool_decide (r.2 <= Z.of_nat (length rows))%Z
  then Some (take (Z.to_nat r.1) rows ++ drop (Z.to_nat r.2) rows) else None.
Definition vec_insert_at (i : Z) (x : Z) (rows : list Z) : option (list Z) :=
  if bool_decide (i <= Z.of_nat (length rows))%Z then Some (vec_insert (Z.to_nat i) x rows) else None.

(** The check of the debug build: the deletions and insertions turn
    [prev_rows] into [next_rows]. *)
Definition apply_changes (prev_rows next_rows : list Z) (dels ins : IndexSet) : option (list Z) :=
  rs ← ranges dels;
  rows ← foldM vec_erase_range (reverse rs) prev_rows;
  indexes ← as_indexes ins;
  foldM (λ i rows, x ← next_rows !! Z.to_nat i; vec_insert_at i x rows) indexes rows.

Definition is_sorted (l : list Z) : bool := bool_decide (Sorted Z.le l).

(** The loop that marks the modified rows. [row_did_change] may keep a state of
    its own from one call to the next. *)
Definition mark_changed {St} (row_did_change : Z -> St -> option (St * bool)) (new_rows : list RowInfo) (st : St)
  : option (IndexSet * St) :=
  foldM (λ row '(d, st),
      '(st, changed) ← row_did_change (row_index row) st;
      if changed : bool then d ← add d (tv_index row); Some (d, st) else Some (d, st))
    new_rows ([], st).

Definition calculate {St} (prev_rows next_rows : list Z) (row_did_change : Z -> St -> option (St * bool)) (st : St)
    (move_candidates : option IndexSet) : option CollectionChangeBuilder :=
  _ ← REALM_ASSERT_DEBUG (bool_decide (move_candidates = None) || is_sorted next_rows);
  '(old_rows, dels) ← collect_old_rows prev_rows 0 0 [];
  let by_row_index lft rgt := bool_decide (row_index lft < row_index rgt)%Z in
  let old_rows := std_sort by_row_index old_rows in
  let new_rows := std_sort by_row_index (imap (λ i r, mkRowInfo r npos (Z.of_nat i) 0) next_rows) in
  '(new_rows, removed, ins) ← match_rows old_rows new_rows [] [];
  let new_rows := filter (λ row, prev_tv_index row ≠ npos) new_rows in
  let new_rows := std_sort (λ lft rgt, bool_decide (tv_index lft < tv_index rgt)%Z) new_rows in
  '(mods, _) ← mark_changed row_did_change new_rows st;
  let ret := set_modifications mods (set_insertions ins (set_deletions dels empty_builder)) in
  '(removed, ret) ← (match move_candidates with
    | Some candidates => calculate_moves_unsorted new_rows removed candidates ret
    | None => ret ← calculate_moves_sorted new_rows ret; Some (removed, ret)
    end);
  dels ← add_all (deletions ret) removed;
  let ret := set_deletions dels ret in
  _ ← verify_moves ret;
  _ ← (if realm_debug then
         rows ← apply_changes prev_rows next_rows (deletions ret) (insertions ret);
         REALM_ASSERT (bool_decide (rows = next_rows))
       else Some tt);
  Some ret.

End calculation.
