(* ===== verification/TransactInfo.v ===== *)
(** * What a transaction log observer maintains

    [TransactionChangeInfo] and [ListChangeInfo]
    (include/impl/collection_notifier.hpp) and the index helpers of
    impl/transact_log_handler.cpp. *)

From S2P Require Import Prelude ChunkedRangeVector IndexSet ChangeBuilder.

(** ** Data *)

(** The builder of a list is reached through a pointer: an address in
    [list_builders]. *)
Record ListChangeInfo := mkListChangeInfo {
  table_ndx : Z;
  row_ndx : Z;
  col_ndx : Z;
  changes : nat;
}.

(** [tables_generation] counts the operations after which the addresses of the
    elements of [tables] are no longer valid. *)
Record TransactionChangeInfo := mkInfo {
  table_modifications_needed : list bool;
  table_moves_needed : list bool;
  lists : list ListChangeInfo;
  tables : list CollectionChangeBuilder;
  column_indices : list (list Z);
  table_indices : list Z;
  track_all : bool;
  schema_changed : bool;
  list_builders : gmap nat CollectionChangeBuilder;
  tables_generation : nat;
}.

Definition set_lists (x : list ListChangeInfo) (i : TransactionChangeInfo) : TransactionChangeInfo :=
  mkInfo (table_modifications_needed i) (table_moves_needed i) x (tables i) (column_indices i)
    (table_indices i) (track_all i) (schema_changed i) (list_builders i) (tables_generation i).
Definition set_tables (x : list CollectionChangeBuilder) (i : TransactionChangeInfo)
  : TransactionChangeInfo :=
  mkInfo (table_modifications_needed i) (table_moves_needed i) (lists i) x (column_indices i)
    (table_indices i) (track_all i) (schema_changed i) (list_builders i) (tables_generation i).
Definition move_tables (x : list CollectionChangeBuilder) (i : TransactionChangeInfo)
  : TransactionChangeInfo :=
  mkInfo (table_modifications_needed i) (table_moves_needed i) (lists i) x (column_indices i)
    (table_indices i) (track_all i) (schema_changed i) (list_builders i) (S (tables_generation i)).
Definition set_column_indices (x : list (list Z)) (i : TransactionChangeInfo) : TransactionChangeInfo :=
  mkInfo (table_modifications_needed i) (table_moves_needed i) (lists i) (tables i) x
    (table_indices i) (track_all i) (schema_changed i) (list_builders i) (tables_generation i).
Definition set_table_indices (x : list Z) (i : TransactionChangeInfo) : TransactionChangeInfo :=
  mkInfo (table_modifications_needed i) (table_moves_needed i) (lists i) (tables i) (column_indices i)
    x (track_all i) (schema_changed i) (list_builders i) (tables_generation i).
Definition set_needed (mods mvs : list bool) (i : TransactionChangeInfo) : TransactionChangeInfo :=
  mkInfo mods mvs (lists i) (tables i) (column_indices i)
    (table_indices i) (track_all i) (schema_changed i) (list_builders i) (tables_generation i).
Definition set_schema_changed (i : TransactionChangeInfo) : TransactionChangeInfo :=
  mkInfo (table_modifications_needed i) (table_moves_needed i) (lists i) (tables i) (column_indices i)
    (table_indices i) (track_all i) true (list_builders i) (tables_generation i).
Definition set_list_builders (x : gmap nat CollectionChangeBuilder) (i : TransactionChangeInfo)
  : TransactionChangeInfo :=
  mkInfo (table_modifications_needed i) (table_moves_needed i) (lists i) (tables i) (column_indices i)
    (table_indices i) (track_all i) (schema_changed i) x (tables_generation i).

(** ** Helpers on vectors *)

Section helpers.
Context `{Build}.

(** [rotate(container, from, to)]; [d] is the default-initialised element. *)
Definition rotate {A} (d : A) (container : list A) (from to : Z) : option (list A) :=
  _ ← REALM_ASSERT (bool_decide (from ≠ to));
  let size := Z.of_nat (length container) in
  if bool_decide (size <= from)%Z && bool_decide (size <= to)%Z then Some container
  else
    let container :=
      if bool_decide (size <= from)%Z || bool_decide (size <= to)%Z
      then vec_resize (Z.to_nat (std_max from to + 1)) d container else container in
    let f := Z.to_nat from in
    let t := Z.to_nat to in
    Some (if bool_decide (from < to)%Z then rotate_vec f (S f) (S t) container
          else rotate_vec t f (S f) container).

End helpers.

Definition insert_empty_at {A} (d : A) (container : list A) (pos : Z) : list A :=
  if bool_decide (pos < Z.of_nat (length container))%Z
  then vec_insert (Z.to_nat pos) d container else container.

(** [adjust_for_move] on one index. *)
Definition adjust_for_move (value from to : Z) : Z :=
  if bool_decide (value = from) then to
  else if bool_decide (from < value)%Z && bool_decide (value <= to)%Z then value -! 1
  else if bool_decide (value < from)%Z && bool_decide (to <= value)%Z then value +! 1
  else value.

(** [adjust_for_move] on a vector. *)
Definition adjust_all_for_move (values : list Z) (from to : Z) : list Z :=
  (λ value, adjust_for_move value from to) <$> values.

(** [std::iota] on [n] elements. *)
Fixpoint iota (n : nat) (value : Z) : list Z :=
  match n with O => [] | S n => value :: iota n (value +! 1) end.

Definition expand_to (cols : list Z) (i : Z) : list Z :=
  let old_size := Z.of_nat (length cols) in
  if bool_decide (i < old_size)%Z then cols
  else
    let new_size := std_max (old_size * 2) (i + 1) in
    cols ++ iota (Z.to_nat new_size - length cols)
              (match last cols with None => 0 | Some l => l +! 1 end).

Definition adjust_ge (values : list Z) (i : Z) : list Z :=
  (λ value, if bool_decide (i <= value)%Z then value +! 1 else value) <$> values.
