(* ===== verification/TransactLog.v ===== *)
(** * The transaction log observers

    [MarkDirtyMixin], [TransactLogValidationMixin], [TransactLogValidator] and
    [TransactLogObserver] (impl/transact_log_handler.cpp): the handlers of the
    instructions of a transaction log, as steps on the observer's state. *)

From S2P Require Import Prelude ChunkedRangeVector IndexSet ChangeBuilder TransactInfo.

(** ** Instructions *)

Inductive Instruction := instr_Set | instr_SetDefault | instr_SetUnique.

(** The [set_*] instructions that carry an [Instruction]. *)
Inductive SetKind :=
  | set_int | set_bool | set_float | set_double | set_string | set_binary | set_olddatetime
  | set_timestamp | set_table | set_mixed | set_link | set_null.

(** The calls a transaction log parser makes, with the arguments the handlers
    read; [path] is the column and row of a selected subtable. *)
Inductive log_call :=
  | select_table (group_level_ndx len : Z) (path : Z * Z)
  | select_descriptor (levels : Z)
  | select_link_list (col row : Z)
  | set_value (kind : SetKind) (c r : Z) (i : Instruction)
  | add_int (col row : Z)
  | nullify_link (col row : Z)
  | insert_substring (col row : Z)
  | erase_substring (col row : Z)
  | set_int_unique (col row : Z)
  | set_string_unique (col row : Z)
  | insert_empty_rows (row_ndx num_rows_to_insert : Z)
  | add_row_with_key (row_ndx : Z)
  | erase_rows (row_ndx prior_num_rows : Z) (unordered : bool)
  | swap_rows (row_ndx_1 row_ndx_2 : Z)
  | move_row (from_ndx to_ndx : Z)
  | merge_rows (from to : Z)
  | clear_table
  | link_list_set (index : Z)
  | link_list_insert (index : Z)
  | link_list_erase (index : Z)
  | link_list_nullify (index : Z)
  | link_list_clear (old_size : Z)
  | link_list_move (from to : Z)
  | link_list_swap (index1 index2 : Z)
  | insert_column (ndx : Z)
  | insert_link_column (ndx : Z)
  | move_column (from to : Z)
  | insert_group_level_table (ndx : Z)
  | move_group_level_table (from to : Z)
  | erase_group_level_table
  | rename_group_level_table
  | erase_column
  | erase_link_column
  | rename_column
  | add_search_index
  | remove_search_index
  | set_link_type
  | optimize_table
  | parse_complete.

(** A call ends normally or throws [UnsupportedSchemaChange]. *)
Inductive result (A : Type) :=
  | Done (a : A)
  | UnsupportedSchemaChange.
Arguments Done {A} a.
Arguments UnsupportedSchemaChange {A}.

(** ** [TransactLogValidator] *)

(** The calls whose handler in [TransactLogValidationMixin] throws. *)
Definition schema_error (call : log_call) : bool :=
  match call with
  | erase_group_level_table | rename_group_level_table
  | erase_column | erase_link_column | rename_column => true
  | _ => false
  end.

(** The validator keeps the index of the current table. *)
Definition validator_step (call : log_call) (m_current_table : Z) : result Z :=
  if schema_error call then UnsupportedSchemaChange
  else match call with
       | select_table ndx _ _ => Done ndx
       | _ => Done m_current_table
       end.

Fixpoint validate_log (calls : list log_call) (m_current_table : Z) : result Z :=
  match calls with
  | [] => Done m_current_table
  | call :: calls =>
      match validator_step call m_current_table with
      | Done t => validate_log calls t
      | UnsupportedSchemaChange => UnsupportedSchemaChange
      end
  end.

(** ** [TransactLogObserver] *)

(** A pointer to a [CollectionChangeBuilder]: null, an element of [tables], or
    the builder of a list. *)
Inductive builder_ptr :=
  | null
  | table_ptr (generation ndx : nat)
  | list_ptr (address : nat).

#[export] Instance builder_ptr_eq_dec : EqDecision builder_ptr.
Proof. solve_decision. Defined.

Record observer := mkObserver {
  m_info : TransactionChangeInfo;
  m_current_table : Z;
  m_active_list : builder_ptr;
  m_active_table : builder_ptr;
  m_active_descriptor : builder_ptr;
  m_need_move_info : bool;
  m_is_top_level_table : bool;
}.

Definition make_observer (info : TransactionChangeInfo) : observer :=
  mkObserver info 0 null null null false true.

Definition with_info (info : TransactionChangeInfo) (o : observer) : observer :=
  mkObserver info (m_current_table o) (m_active_list o) (m_active_table o) (m_active_descriptor o)
    (m_need_move_info o) (m_is_top_level_table o).
Definition with_active_list (p : builder_ptr) (o : observer) : observer :=
  mkObserver (m_info o) (m_current_table o) p (m_active_table o) (m_active_descriptor o)
    (m_need_move_info o) (m_is_top_level_table o).
Definition with_active_table (p : builder_ptr) (top : bool) (o : observer) : observer :=
  mkObserver (m_info o) (m_current_table o) (m_active_list o) p (m_active_descriptor o)
    (m_need_move_info o) top.
Definition with_active_descriptor (p : builder_ptr) (o : observer) : observer :=
  mkObserver (m_info o) (m_current_table o) (m_active_list o) (m_active_table o) p
    (m_need_move_info o) (m_is_top_level_table o).
Definition with_current_table (ndx : Z) (o : observer) : observer :=
  mkObserver (m_info o) ndx (m_active_list o) (m_active_table o) (m_active_descriptor o)
    (m_need_move_info o) (m_is_top_level_table o).
Definition with_move_info (b : bool) (o : observer) : observer :=
  mkObserver (m_info o) (m_current_table o) (m_active_list o) (m_active_table o)
    (m_active_descriptor o) b (m_is_top_level_table o).

Section observer_steps.
Context `{Build, StdOrders}.

(** A member function call through a pointer; a pointer into a vector that has
    been reallocated since is not dereferenced by a defined program. *)
Definition call_builder (p : builder_ptr) (f : CollectionChangeBuilder -> option CollectionChangeBuilder)
    (info : TransactionChangeInfo) : option TransactionChangeInfo :=
  match p with
  | null => Some info
  | table_ptr generation ndx =>
      if bool_decide (generation = tables_generation info) then
        b ← tables info !! ndx;
        b ← f b;
        Some (set_tables (<[ndx := b]> (tables info)) info)
      else None
  | list_ptr a =>
      b ← list_builders info !! a;
      b ← f b;
      Some (set_list_builders (<[a := b]> (list_builders info)) info)
  end.

(** [if (p) p->f()] *)
Definition if_builder (p : builder_ptr) (f : CollectionChangeBuilder -> option CollectionChangeBuilder)
    (o : observer) : option observer :=
  info ← call_builder p f (m_info o); Some (with_info info o).

(** [find_list]: the last matching entry. *)
Definition find_list (lists : list ListChangeInfo) (tbl col row : Z) : option nat :=
  changes <$> last (filter (λ l, table_ndx l = tbl /\ row_ndx l = row /\ col_ndx l = col) lists).

Definition list_pointer (l : option nat) : builder_ptr :=
  match l with Some a => list_ptr a | None => null end.

Definition mark_dirty (row col : Z) (o : observer) : option observer :=
  if_builder (m_active_table o) (modify row col) o.

Definition complete_lists (info : TransactionChangeInfo) : option TransactionChangeInfo :=
  foldM (λ l info, call_builder (list_ptr (changes l)) clean_up_stale_moves info) (lists info) info.

Definition do_parse_complete (o : observer) : option observer :=
  ts ← mapM_vec ChangeBuilder.parse_complete (tables (m_info o));
  info ← complete_lists (set_tables ts (m_info o));
  Some (with_info info o).

Definition do_select_descriptor (levels : Z) (o : observer) : observer :=
  with_active_descriptor (if bool_decide (levels = 0)%Z then m_active_table o else null) o.

(** [vec[ndx]] of a [vector<bool>], [false] outside. *)
Definition needed (v : list bool) (ndx : Z) : bool :=
  bool_decide (ndx < Z.of_nat (length v))%Z && default false (v !! Z.to_nat ndx).

Definition resize_tables (tbl_ndx : Z) (info : TransactionChangeInfo) : TransactionChangeInfo :=
  let size := Z.of_nat (length (tables info)) in
  if bool_decide (size <= tbl_ndx)%Z then
    move_tables (vec_resize (Z.to_nat (std_max (size * 2) (tbl_ndx + 1))) empty_builder (tables info)) info
  else info.

Definition do_select_table (group_level_ndx len : Z) (path : Z * Z) (o : observer) : option observer :=
  let o := with_active_table null true (with_current_table group_level_ndx o) in
  if bool_decide (1 < len)%Z then Some (with_active_table null false o)
  else
    let tbl_ndx := m_current_table o in
    let info := m_info o in
    if negb (track_all info) && negb (needed (table_modifications_needed info) tbl_ndx) then Some o
    else
      let o := with_move_info (track_all info || needed (table_moves_needed info) tbl_ndx) o in
      let o := with_info (resize_tables tbl_ndx info) o in
      let o := with_active_table (table_ptr (tables_generation (m_info o)) (Z.to_nat tbl_ndx)) true o in
      if bool_decide (len = 1)%Z then
        let '(col, row) := path in
        o ← mark_dirty row col o;
        let o := with_active_table null false o in
        match find_list (lists (m_info o)) (m_current_table o) col row with
        | Some a => Some (with_move_info true (with_active_table (list_ptr a) false o))
        | None => Some o
        end
      else Some o.

Definition do_select_link_list (col row : Z) (o : observer) : option observer :=
  o ← mark_dirty row col o;
  Some (with_active_list (list_pointer (find_list (lists (m_info o)) (m_current_table o) col row)) o).

(** [MarkDirtyMixin::mark_dirty(row, col, instr)]: [SetDefault] and [SetUnique]
    cannot be changes to existing rows. *)
Definition mark_dirty_instr (row col : Z) (i : Instruction) (o : observer) : option observer :=
  match i with instr_Set => mark_dirty row col o | _ => Some o end.

Definition do_link_list_set (index : Z) (o : observer) : option observer :=
  if_builder (m_active_list o) (modify index npos) o.

Definition update_lists (f : ListChangeInfo -> ListChangeInfo) (o : observer) : observer :=
  with_info (set_lists (f <$> lists (m_info o)) (m_info o)) o.

Definition with_row (row : Z) (l : ListChangeInfo) : ListChangeInfo :=
  mkListChangeInfo (table_ndx l) row (col_ndx l) (changes l).
Definition with_col (col : Z) (l : ListChangeInfo) : ListChangeInfo :=
  mkListChangeInfo (table_ndx l) (row_ndx l) col (changes l).
Definition with_table (table : Z) (l : ListChangeInfo) : ListChangeInfo :=
  mkListChangeInfo table (row_ndx l) (col_ndx l) (changes l).

Definition do_insert_empty_rows (row num_rows : Z) (o : observer) : option observer :=
  o ← if_builder (m_active_table o) (ChangeBuilder.insert row num_rows (m_need_move_info o)) o;
  if negb (m_is_top_level_table o) then Some o
  else Some (update_lists (λ l,
    if bool_decide (table_ndx l = m_current_table o) && bool_decide (row <= row_ndx l)%Z
    then with_row (row_ndx l +! num_rows) l else l) o).

(** The loop over [lists] of [erase_rows]: the last entry takes the place of an
    entry for the erased row. *)
Definition erase_row_lists (table row last_row : Z) (ls : list ListChangeInfo)
  : option (list ListChangeInfo) :=
  '(_, ls) ← while (S (length ls))
    (λ '(i, ls), Some (bool_decide (i < length ls)))
    (λ '(i, ls),
      l ← ls !! i;
      back ← last ls;
      if bool_decide (table_ndx l ≠ table) then Some (S i, ls)
      else if bool_decide (row_ndx l = row) then
        let ls := if bool_decide (i + 1 < length ls) then <[i := back]> ls else ls in
        Some (S i, removelast ls)
      else if bool_decide (row_ndx l = last_row) then Some (S i, <[i := with_row row l]> ls)
      else Some (S i, ls))
    (0, ls);
  Some ls.

Definition do_erase_rows (row prior_num_rows : Z) (unordered : bool) (o : observer) : option observer :=
  if negb unordered then if_builder (m_active_table o) (ChangeBuilder.erase row) o
  else
    let last_row := prior_num_rows -! 1 in
    o ← if_builder (m_active_table o) (move_over row last_row (m_need_move_info o)) o;
    if negb (m_is_top_level_table o) then Some o
    else
      ls ← erase_row_lists (m_current_table o) row last_row (lists (m_info o));
      Some (with_info (set_lists ls (m_info o)) o).

Definition do_swap_rows (row_1 row_2 : Z) (o : observer) : option observer :=
  _ ← REALM_ASSERT (bool_decide (row_1 < row_2)%Z);
  if negb (m_is_top_level_table o) then
    if_builder (m_active_table o) (λ b,
      b ← ChangeBuilder.move row_1 row_2 b;
      if bool_decide (row_1 +! 1 ≠ row_2) then ChangeBuilder.move (row_2 -! 1) row_1 b else Some b) o
  else
    o ← if_builder (m_active_table o) (ChangeBuilder.swap row_1 row_2 (m_need_move_info o)) o;
    Some (update_lists (λ l,
      if bool_decide (table_ndx l = m_current_table o) then
        if bool_decide (row_ndx l = row_1) then with_row row_2 l
        else if bool_decide (row_ndx l = row_2) then with_row row_1 l else l
      else l) o).

Definition do_move_row (from to : Z) (o : observer) : option observer :=
  _ ← REALM_ASSERT (bool_decide (m_active_table o = null) || negb (m_is_top_level_table o));
  if_builder (m_active_table o) (ChangeBuilder.move from to) o.

Definition do_merge_rows (from to : Z) (o : observer) : option observer :=
  o ← if_builder (m_active_table o) (subsume from to (m_need_move_info o)) o;
  if negb (m_is_top_level_table o) then Some o
  else Some (update_lists (λ l,
    if bool_decide (table_ndx l = m_current_table o) && bool_decide (row_ndx l = from)
    then with_row to l else l) o).

Definition do_clear_table (o : observer) : option observer :=
  o ← if_builder (m_active_table o) (ChangeBuilder.clear npos) o;
  if negb (m_is_top_level_table o) then Some o
  else Some (with_info (set_lists
    (filter (λ l, table_ndx l ≠ m_current_table o) (lists (m_info o))) (m_info o)) o).

(** [f] on the column indices of the current table, which are created first. *)
Definition update_column_indices (f : list Z -> option (list Z)) (o : observer) : option observer :=
  let info := m_info o in
  let cur := m_current_table o in
  let all := if bool_decide (Z.of_nat (length (column_indices info)) <= cur)%Z
             then vec_resize (Z.to_nat (cur + 1)) ([] : list Z) (column_indices info)
             else column_indices info in
  indices ← all !! Z.to_nat cur;
  indices ← f indices;
  Some (with_info (set_column_indices (<[Z.to_nat cur := indices]> all) info) o).

(** The column indices after the insertion of a column. *)
Definition insert_column_index (ndx : Z) (indices : list Z) : list Z :=
  <[Z.to_nat ndx := npos]> (insert_empty_at 0%Z (expand_to indices ndx) ndx).

Definition do_insert_column (ndx : Z) (o : observer) : option observer :=
  let o := with_info (set_schema_changed (m_info o)) o in
  o ← if_builder (m_active_descriptor o) (λ b, Some (ChangeBuilder.insert_column ndx b)) o;
  if negb (bool_decide (m_active_descriptor o = m_active_table o)) || negb (m_is_top_level_table o)
  then Some o
  else
    let o := update_lists (λ l,
      if bool_decide (table_ndx l = m_current_table o) && bool_decide (ndx <= col_ndx l)%Z
      then with_col (col_ndx l +! 1) l else l) o in
    update_column_indices (λ indices, Some (insert_column_index ndx indices)) o.

Definition prepare_table_indices (info : TransactionChangeInfo) : TransactionChangeInfo :=
  if bool_decide (table_indices info = []) && negb (bool_decide (table_modifications_needed info = []))
  then set_table_indices (iota (length (table_modifications_needed info)) 0) info
  else info.

Definition do_insert_group_level_table (ndx : Z) (o : observer) : observer :=
  let o := with_info (set_schema_changed (m_info o)) o in
  let o := update_lists (λ l,
    if bool_decide (ndx <= table_ndx l)%Z then with_table (table_ndx l +! 1) l else l) o in
  let info := prepare_table_indices (m_info o) in
  let info := set_table_indices (adjust_ge (table_indices info) ndx) info in
  let info := if bool_decide (ndx < Z.of_nat (length (tables info)))%Z
              then move_tables (insert_empty_at empty_builder (tables info) ndx) info else info in
  let info := set_needed (insert_empty_at false (table_modifications_needed info) ndx)
                         (insert_empty_at false (table_moves_needed info) ndx) info in
  with_info info o.

(** The column indices after a column has moved. *)
Definition move_column_index (from to : Z) (indices : list Z) : option (list Z) :=
  rotate 0%Z (expand_to indices (std_max from to + 1)) from to.

Definition do_move_column (from to : Z) (o : observer) : option observer :=
  let o := with_info (set_schema_changed (m_info o)) o in
  o ← if_builder (m_active_descriptor o) (λ b, Some (ChangeBuilder.move_column from to b)) o;
  if negb (bool_decide (m_active_descriptor o = m_active_table o)) || negb (m_is_top_level_table o)
  then Some o
  else
    let o := update_lists (λ l,
      if bool_decide (table_ndx l = m_current_table o)
      then with_col (adjust_for_move (col_ndx l) from to) l else l) o in
    update_column_indices (move_column_index from to) o.

Definition do_move_group_level_table (from to : Z) (o : observer) : option observer :=
  let o := with_info (set_schema_changed (m_info o)) o in
  let o := update_lists (λ l, with_table (adjust_for_move (table_ndx l) from to) l) o in
  let info := prepare_table_indices (m_info o) in
  let info := set_table_indices (adjust_all_for_move (table_indices info) from to) info in
  ts ← rotate empty_builder (tables info) from to;
  let info := if bool_decide (length ts = length (tables info)) then set_tables ts info
              else move_tables ts info in
  mods ← rotate false (table_modifications_needed info) from to;
  mvs ← rotate false (table_moves_needed info) from to;
  Some (with_info (set_needed mods mvs info) o).

(** One call of the parser. *)
Definition observer_step (call : log_call) (o : observer) : option (result observer) :=
  if schema_error call then Some UnsupportedSchemaChange
  else
    Done <$> match call with
    | select_table ndx len path => do_select_table ndx len path o
    | select_descriptor levels => Some (do_select_descriptor levels o)
    | select_link_list col row => do_select_link_list col row o
    | set_value _ c r i => mark_dirty_instr r c i o
    | add_int col row | nullify_link col row
    | insert_substring col row | erase_substring col row => mark_dirty_instr row col instr_Set o
    | set_int_unique _ _ | set_string_unique _ _ => Some o
    | insert_empty_rows row n => do_insert_empty_rows row n o
    | add_row_with_key row => do_insert_empty_rows row 1 o
    | erase_rows row prior unordered => do_erase_rows row prior unordered o
    | swap_rows r1 r2 => do_swap_rows r1 r2 o
    | move_row from to => do_move_row from to o
    | merge_rows from to => do_merge_rows from to o
    | clear_table => do_clear_table o
    | link_list_set index => do_link_list_set index o
    | link_list_insert index => if_builder (m_active_list o) (ChangeBuilder.insert index 1 true) o
    | link_list_erase index | link_list_nullify index =>
        if_builder (m_active_list o) (ChangeBuilder.erase index) o
    | link_list_clear old_size => if_builder (m_active_list o) (ChangeBuilder.clear old_size) o
    | link_list_move from to => if_builder (m_active_list o) (ChangeBuilder.move from to) o
    | link_list_swap index1 index2 => o ← do_link_list_set index1 o; do_link_list_set index2 o
    | insert_column ndx | insert_link_column ndx => do_insert_column ndx o
    | move_column from to => do_move_column from to o
    | insert_group_level_table ndx => Some (do_insert_group_level_table ndx o)
    | move_group_level_table from to => do_move_group_level_table from to o
    | parse_complete => do_parse_complete o
    | add_search_index | remove_search_index | set_link_type | optimize_table => Some o
    | erase_group_level_table | rename_group_level_table
    | erase_column | erase_link_column | rename_column => None
    end.

(** A whole transaction log. *)
Fixpoint observe_log (calls : list log_call) (o : observer) : option (result observer) :=
  match calls with
  | [] => Some (Done o)
  | call :: calls =>
      r ← observer_step call o;
      match r with
      | Done o => observe_log calls o
      | UnsupportedSchemaChange => Some UnsupportedSchemaChange
      end
  end.

End observer_steps.
