(* ===== verification/KVO.v ===== *)
(** * Key-value observation and the advance of a Realm

    [KVOAdapter] and [advance_with_notifications]
    (impl/transact_log_handler.cpp), [BindingContext::ObserverState] and
    [ColumnInfo] (include/binding_context.hpp). *)

From S2P Require Import Prelude ChunkedRangeVector IndexSet ChangeBuilder TransactInfo TransactLog.

(** ** Data *)

Inductive DataType :=
  | type_Int | type_Bool | type_Float | type_Double | type_String | type_Binary
  | type_OldDateTime | type_Timestamp | type_Table | type_Mixed | type_Link | type_LinkList.

#[export] Instance DataType_eq_dec : EqDecision DataType.
Proof. solve_decision. Defined.

Inductive Kind := None_ | Set_ | Insert | Remove | SetAll.

#[export] Instance Kind_eq_dec : EqDecision Kind.
Proof. solve_decision. Defined.

Record ColumnInfo := mkColumnInfo {
  initial_column_index : Z;
  kind : Kind;
  indices : IndexSet;
}.

Definition default_column_info : ColumnInfo := mkColumnInfo npos None_ [].

(** [info] is the opaque pointer of the observer. *)
Record ObserverState := mkObserverState {
  o_table_ndx : Z;
  o_row_ndx : Z;
  o_info : Z;
  o_changes : list ColumnInfo;
}.

(** [li_observer] is the position of the observer, [li_builder] the address of
    the builder. *)
Record ListInfo := mkListInfo {
  li_observer : nat;
  li_builder : nat;
  li_col : Z;
  initial_size : Z;
}.

Definition with_changes (c : list ColumnInfo) (o : ObserverState) : ObserverState :=
  mkObserverState (o_table_ndx o) (o_row_ndx o) (o_info o) c.

Definition with_kind (k : Kind) (c : ColumnInfo) : ColumnInfo :=
  mkColumnInfo (initial_column_index c) k (indices c).
Definition with_indices (k : Kind) (i : IndexSet) (c : ColumnInfo) : ColumnInfo :=
  mkColumnInfo (initial_column_index c) k i.

Definition new_table_ndx (info : TransactionChangeInfo) (ndx : Z) : Z :=
  if bool_decide (ndx < Z.of_nat (length (table_indices info)))%Z
  then default ndx (table_indices info !! Z.to_nat ndx) else ndx.

(** The initial index of the column now at [i]. *)
Definition initial_column (column_indices : list (list Z)) (table_ndx i : Z) : Z :=
  match column_indices !! Z.to_nat table_ndx with
  | None | Some [] => i
  | Some cols =>
      if bool_decide (Z.of_nat (length cols) <= i)%Z then
        (i -! Z.of_nat (length cols)) +! default 0%Z (last cols) +! 1
      else default 0%Z (cols !! Z.to_nat i)
  end.

Section kvo.
Context `{Build}.

(** ** Construction *)

Section construction.
(** The schema and the subtables of the group the observers look at. *)
Context (get_column_types : Z -> list DataType) (get_subtable_size : Z -> Z -> Z -> Z).

(** The list columns of one observer, with the addresses from [next] on. *)
Fixpoint observer_lists (types : list DataType) (i : Z) (k : nat) (o : ObserverState) (next : nat)
  : list ListInfo :=
  match types with
  | [] => []
  | type_LinkList :: types =>
      mkListInfo k next i npos :: observer_lists types (i +! 1) k o (S next)
  | type_Table :: types =>
      mkListInfo k next i (get_subtable_size (o_table_ndx o) i (o_row_ndx o))
        :: observer_lists types (i +! 1) k o (S next)
  | _ :: types => observer_lists types (i +! 1) k o next
  end.

Fixpoint all_lists (observers : list ObserverState) (k next : nat) : list ListInfo :=
  match observers with
  | [] => []
  | o :: observers =>
      let ls := observer_lists (get_column_types (o_table_ndx o)) 0 k o next in
      ls ++ all_lists observers (S k) (next + length ls)
  end.

Definition needs (observers : list ObserverState) : list bool :=
  let max := foldr Z.max 0%Z (o_table_ndx <$> observers) in
  foldr (λ t v, <[Z.to_nat t := true]> v) (replicate (Z.to_nat (max + 1)) false)
    (o_table_ndx <$> observers).

(** [KVOAdapter(observers, context)]: [m_lists] and the change info. *)
Definition make_adapter (observers : list ObserverState) : list ListInfo * TransactionChangeInfo :=
  match observers with
  | [] => ([], mkInfo [] [] [] [] [] [] false false ∅ 0)
  | _ =>
      let m_lists := all_lists observers 0 0 in
      let ls := omap (λ l, o ← observers !! li_observer l;
                  Some (mkListChangeInfo (o_table_ndx o) (o_row_ndx o) (li_col l) (li_builder l))) m_lists in
      (m_lists, mkInfo (needs observers) (needs observers) ls [] [] [] false false
         (list_to_map ((λ l, (li_builder l, empty_builder)) <$> m_lists)) 0)
  end.
End construction.

(** ** [before] *)

(** The new index of an observed row; [inr] when it was deleted. *)
Definition new_row_ndx (table : CollectionChangeBuilder) (idx : Z) : option (Z + unit) :=
  let mvs := moves table in
  match (k ← find_index (λ a, negb (bool_decide (move_from a < idx)%Z)) mvs; mvs !! k) with
  | Some m =>
      if bool_decide (move_from m = idx) then Some (inl (move_to m))
      else
        deleted ← contains (deletions table) idx;
        if deleted : bool then Some (inr tt)
        else u ← unshift (deletions table) idx; s ← shift (insertions table) u; Some (inl s)
  | None =>
      deleted ← contains (deletions table) idx;
      if deleted : bool then Some (inr tt)
      else u ← unshift (deletions table) idx; s ← shift (insertions table) u; Some (inl s)
  end.

(** The changes of a modified row, column by column. *)
Fixpoint column_changes (info : TransactionChangeInfo) (table_ndx idx i : Z) (cols : list IndexSet)
    (old : list ColumnInfo) : option (list ColumnInfo) :=
  match cols with
  | [] => Some []
  | c :: cols =>
      let change := default default_column_info (head old) in
      let init := initial_column (column_indices info) table_ndx i in
      modified ← (if bool_decide (init ≠ npos) then contains c idx else Some false);
      rest ← column_changes info table_ndx idx (i +! 1) cols (tail old);
      Some (mkColumnInfo init (if modified : bool then Set_ else kind change) (indices change) :: rest)
  end.

(** The first loop of [before] on one observer: the observer, and whether it is
    invalidated. *)
Definition before_observer (info : TransactionChangeInfo) (o : ObserverState)
  : option (ObserverState * bool) :=
  let table_ndx := new_table_ndx info (o_table_ndx o) in
  match tables info !! Z.to_nat table_ndx with
  | None => Some (o, false)
  | Some table =>
      idx ← new_row_ndx table (o_row_ndx o);
      match idx with
      | inr _ => Some (o, true)
      | inl idx =>
          modified ← contains (modifications table) idx;
          if modified : bool then
            cs ← column_changes info table_ndx idx 0 (columns table) (o_changes o);
            Some (with_changes cs o, false)
          else Some (o, false)
      end
  end.

(** [in_range(it, end, i)]: the iterator moves when its range has been passed. *)
Definition in_range_at (d : IndexSet) (it : iterator) (i : Z) : option (iterator * bool) :=
  it ← (if not_end d it then
          r ← deref d it; if bool_decide (r.2 <= i)%Z then it_next d it else Some it
        else Some it);
  if not_end d it then
    r ← deref d it; Some (it, bool_decide (r.1 <= i)%Z && bool_decide (i < r.2)%Z)
  else Some (it, false).

(** One index of the loop that turns moves into sets. *)
Definition moved_index_step (dels ins : IndexSet) (i : Z) (st : iterator * iterator * Z * IndexSet)
  : option (iterator * iterator * Z * IndexSet) :=
  let '(del_it, ins_it, shift, result) := st in
  '(del_it, deleted) ← in_range_at dels del_it i;
  '(ins_it, shift) ← (
    if deleted : bool then Some (ins_it, shift - 1)%Z
    else
      '(ins_it, inserted) ← in_range_at ins ins_it (i +! shift);
      Some (ins_it, if inserted : bool then shift + 1 else shift)%Z);
  result ← (if bool_decide (shift ≠ 0)%Z then add result i else Some result);
  Some (del_it, ins_it, shift, result).

Definition moved_indices (b : CollectionChangeBuilder) (result : IndexSet) : option IndexSet :=
  d0 ← deref (deletions b) (it_begin (deletions b));
  i0 ← deref (insertions b) (it_begin (insertions b));
  d1 ← last_end (deletions b);
  i1 ← last_end (insertions b);
  let start := std_min i0.1 d0.1 in
  let en := std_max i1 d1 in
  '(_, _, _, result) ← foldM (moved_index_step (deletions b) (insertions b)) (seqZ start (en - start))
    (it_begin (deletions b), it_begin (insertions b), 0%Z, result);
  Some result.

(** The changes of a list column; the modifications of the builder lose the
    insertions first. *)
Definition list_changes (b : CollectionChangeBuilder) (initial_size : Z) (change : ColumnInfo)
  : option ColumnInfo :=
  n_ins ← count (insertions b) 0 npos;
  n_del ← count (deletions b) 0 npos;
  let n_moves := Z.of_nat (length (moves b)) in
  let no_ins := bool_decide (insertions b = []) in
  let no_mod := bool_decide (modifications b = []) in
  let no_del := bool_decide (deletions b = []) in
  if negb (bool_decide (moves b = [])) && bool_decide (n_ins = n_moves) && bool_decide (n_del = n_moves)
  then
    ix ← add_all (modifications b) (deletions b);
    ix ← moved_indices b ix;
    Some (with_indices Set_ ix change)
  else if bool_decide (Z.b2z no_ins + Z.b2z no_mod + Z.b2z no_del < 2)%Z then
    Some (with_kind SetAll change)
  else if negb no_ins then Some (with_indices Insert (insertions b) change)
  else if negb no_mod then Some (with_indices Set_ (modifications b) change)
  else
    _ ← REALM_ASSERT (negb no_del);
    e ← last_end (deletions b);
    ix ← (if bool_decide (initial_size < e)%Z then set initial_size else Some (deletions b));
    Some (with_indices Remove ix change).

(** The second loop of [before] on one list. *)
Definition before_list (info : TransactionChangeInfo) (l : ListInfo)
    (st : list ObserverState * gmap nat CollectionChangeBuilder)
  : option (list ObserverState * gmap nat CollectionChangeBuilder) :=
  let '(observers, builders) := st in
  o ← observers !! li_observer l;
  b ← builders !! li_builder l;
  let col := Z.to_nat (li_col l) in
  if is_empty b then
    Some (<[li_observer l := with_changes (alter (with_kind None_) col (o_changes o)) o]> observers, builders)
  else if bool_decide (length (o_changes o) = 0) then
    _ ← (if realm_debug then
           t ← tables info !! Z.to_nat (new_table_ndx info (o_table_ndx o));
           deleted ← contains (deletions t) (o_row_ndx o);
           REALM_ASSERT deleted
         else Some tt);
    Some (observers, builders)
  else
    _ ← REALM_ASSERT (bool_decide (li_col l < Z.of_nat (length (o_changes o)))%Z);
    m ← remove_all (modifications b) (insertions b);
    let b := set_modifications m b in
    change ← o_changes o !! col;
    change ← list_changes b (initial_size l) change;
    Some (<[li_observer l := with_changes (<[col := change]> (o_changes o)) o]> observers,
          <[li_builder l := b]> builders).

(** [before]: the observers and the invalidated ones [will_change] is told. *)
Definition before (info : TransactionChangeInfo) (m_lists : list ListInfo)
    (observers : list ObserverState) : option (list ObserverState * list Z) :=
  if bool_decide (length (tables info) = 0) then Some (observers, [])
  else
    rs ← mapM_vec (before_observer info) observers;
    let invalidated := o_info <$> (fst <$> filter (λ p, p.2 = true) rs) in
    '(observers, _) ← foldM (before_list info) m_lists (fst <$> rs, list_builders info);
    Some (observers, invalidated).

End kvo.

(** ** [advance_with_notifications] *)

(** What the function calls, in order. *)
Inductive event :=
  | ev_before_advance
  | ev_advance_validated
  | ev_advance_observed
  | ev_did_change
  | ev_will_send_notifications
  | ev_package_and_wait
  | ev_deliver
  | ev_after_advance
  | ev_did_send_notifications.

#[export] Instance event_eq_dec : EqDecision event.
Proof. solve_decision. Defined.

(** What the surroundings decide: whether there is a context, the observed
    rows, the state of the notifier package, the versions of the transaction
    before and after the advance and after the first two callbacks, and which
    callbacks close the Realm. *)
Record surroundings := mkSurroundings {
  context : bool;
  observed : list ObserverState;
  notifiers : bool;
  notifiers_version : bool;
  old_version : Z;
  new_version : Z;
  version_after_callbacks : Z;
  did_change_closes : bool;
  will_send_closes : bool;
  deliver_closes : bool;
}.

Definition advance_with_notifications (s : surroundings) : list event :=
  let observers := if context s then observed s else [] in
  if bool_decide (length observers = 0) && (negb (notifiers s) || notifiers_version s) then
    let did := context s && bool_decide (old_version s ≠ new_version s) in
    [ev_before_advance; ev_advance_validated] ++
    (if did then [ev_did_change] else []) ++
    (if did && did_change_closes s then []
     else
       (if context s then [ev_will_send_notifications] else []) ++
       (if context s && will_send_closes s then []
        else
          let delivered := bool_decide (new_version s = version_after_callbacks s) in
          (if delivered then [ev_deliver] else []) ++
          [ev_after_advance] ++
          (if context s && negb (delivered && deliver_closes s)
           then [ev_did_send_notifications] else [])))
  else
    (if context s then [ev_will_send_notifications] else []) ++
    [ev_advance_observed; ev_package_and_wait; ev_deliver; ev_after_advance] ++
    (if context s then [ev_did_send_notifications] else []).
