(* ===== verification/ListRefinement.v ===== *)
(** * The change set of an observed list explains its contents

    A list is edited while a transaction log is parsed; the builder of the list
    records the edits. The relation [explains] between the builder, the
    contents before and the contents now is kept by every instruction on the
    list. *)

From S2P Require Import Prelude ChunkedRangeVector ChunkedFacts ChunkedOps IndexSet LoopFacts IndexSetFacts.
From S2P Require Import IndexSetEdits IndexSetWalk IndexSetMerge CorrFacts AddShiftedFacts ChangeBuilder.
From S2P Require Import ChangeFacts ChangeMove ChangeMerge ChangeCompose TransactInfo.
From S2P Require Import TransactLog.

(** ** The abstract list *)

Section edits.
Context {A : Type}.

(** What an instruction does to the contents of the list. *)
Inductive list_edit : log_call -> list A -> list A -> Prop :=
  | edit_set i v ys : i < length ys ->
      list_edit (link_list_set (Z.of_nat i)) ys (<[i := v]> ys)
  | edit_insert i v ys : i <= length ys ->
      list_edit (link_list_insert (Z.of_nat i)) ys (take i ys ++ v :: drop i ys)
  | edit_erase i ys : i < length ys -> list_edit (link_list_erase (Z.of_nat i)) ys (delete i ys)
  | edit_nullify i ys : i < length ys -> list_edit (link_list_nullify (Z.of_nat i)) ys (delete i ys)
  | edit_clear ys : list_edit (link_list_clear (Z.of_nat (length ys))) ys []
  | edit_move i j v ys : i <> j -> j < length ys -> ys !! i = Some v ->
      list_edit (link_list_move (Z.of_nat i) (Z.of_nat j)) ys
        (take j (delete i ys) ++ v :: drop j (delete i ys))
  | edit_swap i j v w ys : ys !! i = Some v -> ys !! j = Some w ->
      list_edit (link_list_swap (Z.of_nat i) (Z.of_nat j)) ys (<[i := w]> (<[j := v]> ys)).

(** A sequence of edits through lists of fewer than 2^31 elements. *)
Inductive list_edits : list log_call -> list A -> list A -> Prop :=
  | edits_nil ys : list_edits [] ys ys
  | edits_cons call calls ys ys' ys'' : list_edit call ys ys' -> (Z.of_nat (length ys') < 2 ^ 31)%Z ->
      list_edits calls ys' ys'' -> list_edits (call :: calls) ys ys''.

Lemma lookup_vec_insert (l : list A) i v k : i <= length l ->
  (take i l ++ v :: drop i l) !! k =
  if decide (k < i) then l !! k else if decide (k = i) then Some v else l !! (k - 1).
Proof.
  intros Hi. assert (length (take i l) = i) as Hlen by (rewrite length_take; lia).
  case_decide; [|case_decide].
  - rewrite lookup_app_l by lia. by rewrite lookup_take_lt.
  - subst k. rewrite lookup_app_r by lia. rewrite Hlen, Nat.sub_diag. done.
  - rewrite lookup_app_r by lia. rewrite Hlen. replace (k - i) with (S (k - 1 - i)) by lia.
    change ((v :: drop i l) !! S (k - 1 - i)) with (drop i l !! (k - 1 - i)). rewrite lookup_drop. f_equal. lia.
Qed.

Lemma length_vec_insert (l : list A) i v : i <= length l -> length (take i l ++ v :: drop i l) = S (length l).
Proof. intros. rewrite length_app, length_take. simpl. rewrite length_drop. lia. Qed.
End edits.

(** ** [explains] *)

Section refinement.
Context `{Build} {A : Type}.

(** A builder whose marks lie within a collection of [m] elements that had [n]
    elements before. *)
Record within (b : CollectionChangeBuilder) (n m : Z) : Prop := {
  in_wf : wf_builder b;
  in_moves : wf_moves b;
  in_columns : columns b = [];
  in_old : forall x, x ∈ deletions b -> (x < n)%Z;
  in_new : forall y, y ∈ insertions b -> (y < m)%Z;
  in_marks : forall y, y ∈ modifications b -> (y < m)%Z;
  in_tracks : forall x y, tracks b x y -> (x < n <-> y < m)%Z;
}.

(** The elements that are tracked and not marked are those of the old list. *)
Record explains (b : CollectionChangeBuilder) (xs ys : list A) : Prop := {
  ex_within : within b (Z.of_nat (length xs)) (Z.of_nat (length ys));
  ex_values : forall x y, tracks b x y -> (y < Z.of_nat (length ys))%Z ->
    y ∈ modifications b \/ ys !! Z.to_nat y = xs !! Z.to_nat x;
}.

Lemma within_bounded b n m : within b n m ->
  bounded n (flat (deletions b)) /\ bounded m (flat (insertions b)) /\ bounded m (flat (modifications b)).
Proof.
  intros [[[_ [HD _]] [_ [HI _]] [_ [HM _]] _] _ _ Ho Hn Hm _].
  split_and!; eapply bounded_of_mem; try done; intros y Hy; rewrite <-elem_of_flat in Hy; auto.
Qed.

Lemma within_total b n m : within b n m -> (0 <= n)%Z -> (total (flat (deletions b)) <= n)%Z.
Proof.
  intros Hw Hn. destruct (within_bounded b n m Hw) as [Hb _]. destruct Hw as [[[_ [HD _]] _ _ _] _ _ _ _ _ _].
  pose proof (total_bounded 0 n _ HD Hb Hn). lia.
Qed.

Lemma within_room b n m : within b n m -> (m < 2 ^ 32)%Z -> room 1 (insertions b) /\ room 1 (modifications b).
Proof.
  intros Hw Hm. destruct (within_bounded b n m Hw) as (_ & HI & HM). destruct Hw as [[_ ? ? _] _ _ _ _ _ _].
  unfold room, npos. split; (split; [done|]); apply (bounded_weaken m); (done || lia).
Qed.

(** The number of elements that are neither deleted nor inserted is the same in
    the old list and in the new one. *)
Lemma within_sizes b n m : within b n m -> (0 <= n)%Z -> (0 <= m)%Z ->
  (n - total (flat (deletions b)) = m - total (flat (insertions b)))%Z.
Proof.
  intros Hw Hn Hm. destruct (within_bounded b n m Hw) as (HbD & HbI & _).
  pose proof Hw as [[[_ [HD _]] [_ [HI _]] _ _] _ _ Ho Hnw _ Ht].
  assert (~ mem n (flat (deletions b))) as Hnd.
  { intros Hx. rewrite <-elem_of_flat in Hx. apply Ho in Hx. lia. }
  assert (~ mem m (flat (insertions b))) as Hni.
  { intros Hy. rewrite <-elem_of_flat in Hy. apply Hnw in Hy. lia. }
  destruct (corr_total _ _ HD HI n Hn Hnd) as [y Hy], (corr_surj _ _ HD HI m Hm Hni) as [x Hx].
  pose proof (Ht n y (or_introl Hy)) as Hny. pose proof (Ht x m (or_introl Hx)) as Hxm.
  pose proof (corr_mono _ _ HD HI _ _ _ _ Hx Hy) as Hmono.
  assert (y = m) as -> by (destruct (Z.lt_trichotomy y m) as [?|[?|?]]; lia).
  destruct Hy as (_ & _ & _ & _ & Hrank). unfold rank in Hrank.
  rewrite (below_hi 0 n n), (below_hi 0 m m) in Hrank by (done || lia). lia.
Qed.

(** An edit that moves the element at [y] to [f y]. *)
Lemma explains_edit (f : Z -> option Z) b b' (xs ys ys' : list A) : explains b xs ys ->
  wf_builder b' -> wf_moves b' -> columns b' = [] ->
  (forall x z, tracks b' x z <-> exists y, tracks b x y /\ f y = Some z) ->
  (forall z, z ∈ modifications b' <-> exists y, y ∈ modifications b /\ f y = Some z) ->
  (forall x, x ∈ deletions b' -> x ∈ deletions b \/ exists y, same_element b x y /\ (y < Z.of_nat (length ys))%Z) ->
  (forall z, z ∈ insertions b' -> (z < Z.of_nat (length ys'))%Z) ->
  (forall y z, (0 <= y)%Z -> f y = Some z -> (y < Z.of_nat (length ys) <-> z < Z.of_nat (length ys'))%Z
     /\ ((y < Z.of_nat (length ys))%Z -> ys' !! Z.to_nat z = ys !! Z.to_nat y)) ->
  explains b' xs ys'.
Proof.
  intros [Hw Hv] Hwf' Hmv' Hc' Ht Hm HD HI Hf. pose proof Hw as [Hwf Hmv Hc Ho Hn Hmk Htr].
  split; [split; try done|].
  - intros x [?|(y & Hs & Hy)]%HD; [by apply Ho|]. apply (Htr x y); [by left|done].
  - intros z (y & Hy & Hz)%Hm. pose proof (elem_of_bounds y (modifications b) ltac:(apply Hwf) Hy).
    apply (Hf y z); [lia|done|by apply Hmk].
  - intros x z (y & Hy & Hz)%Ht. destruct (tracks_nonneg b x y Hwf Hmv Hy) as [_ Hy0].
    rewrite (Htr x y Hy). by apply (Hf y z).
  - intros x z (y & Hy & Hz)%Ht Hlt. destruct (tracks_nonneg b x y Hwf Hmv Hy) as [_ Hy0].
    destruct (Hf y z Hy0 Hz) as [Hiff Heq]. apply Hiff in Hlt.
    destruct (Hv x y Hy Hlt) as [?|Hvy]; [left; apply Hm; by exists y|right]. by rewrite Heq.
Qed.

(** ** The operations *)

Context `{!StdOrders}.

Lemma columns_nil R b cols : columns b = [] -> columns_related R b cols -> cols = [].
Proof.
  unfold columns_related. intros Hc. rewrite Hc. destruct (m_track_columns b); [by intros ?%Forall2_nil_inv_l|done].
Qed.

Lemma retarget_tracks f b b' : moves b' = retarget f (moves b) ->
  (forall x z, same_element b' x z <-> exists y, same_element b x y /\ f y = Some z) ->
  forall x z, tracks b' x z <-> exists y, tracks b x y /\ f y = Some z.
Proof.
  intros Hm Hs x z. unfold tracks. rewrite Hs, Hm, elem_of_retarget. cbn [move_from move_to]. naive_solver.
Qed.

Lemma set_explains b (xs ys : list A) i v : explains b xs ys -> i < length ys ->
  (Z.of_nat (length ys) < 2 ^ 31)%Z ->
  exists b', modify (Z.of_nat i) npos b = Some b' /\ explains b' xs (<[i := v]> ys).
Proof.
  intros [Hw Hv] Hi Hlen. pose proof Hw as [Hwf [Hok Hf Ht] Hc Ho Hn Hmk Htr].
  destruct (modify_spec b (Z.of_nat i) npos Hwf) as (b' & Hrun & Hwf' & HD & HI & Hm & HM & HC);
    [unfold npos; lia|unfold npos; lia|].
  exists b'. split; [done|]. unfold modify in Hrun.
  destruct (add (modifications b) (Z.of_nat i)) as [m|]; [|done]. revert Hrun. mrun.
  rewrite (bool_decide_true (npos = npos)), orb_true_r by done. intros [= <-].
  assert (forall x y, tracks (set_modifications m b) x y <-> tracks b x y) as Htr' by done.
  split; [split; rewrite ?length_insert|]; try done.
  - intros y [?| ->]%HM; [by apply Hmk|lia].
  - intros x y Hxy Hlt. rewrite length_insert in Hlt. apply Htr' in Hxy. rewrite HM.
    destruct (decide (y = Z.of_nat i)) as [->|Hne]; [by left; right|].
    destruct (Hv x y Hxy Hlt) as [?|Heq]; [by left; left|right].
    destruct (tracks_nonneg b x y Hwf ltac:(by split) Hxy). rewrite list_lookup_insert_ne by lia. done.
Qed.

Lemma insert_explains b (xs ys : list A) i v : explains b xs ys -> i <= length ys ->
  (Z.of_nat (length ys) < 2 ^ 31)%Z ->
  exists b', insert (Z.of_nat i) 1 true b = Some b' /\ explains b' xs (take i ys ++ v :: drop i ys).
Proof.
  intros Hex Hi Hlen. pose proof Hex as [Hw _]. pose proof Hw as [Hwf Hmv Hc Ho Hn Hmk Htr].
  destruct (within_room _ _ _ Hw) as [[_ HrI] [_ HrM]]; [lia|].
  destruct (insert_spec b (Z.of_nat i) 1 true Hwf) as
    (b' & -> & Hwf' & HD & [Hins Hs] & HM & HC & Hmoves); [lia|lia|unfold npos; lia|done|done|by rewrite Hc|].
  destruct (Hmoves Hmv) as [Hmv' Hm']. exists b'. split; [done|].
  apply (explains_edit (insert_target (Z.of_nat i) 1) b b' xs ys); try done.
  - by eapply columns_nil.
  - apply retarget_tracks; [done|]. intros x z. rewrite Hs. unfold insert_target. naive_solver.
  - intros z. rewrite (HM z). unfold insert_map, insert_target. naive_solver.
  - intros x. rewrite HD. by left.
  - intros z Hz. rewrite length_vec_insert by done. apply Hins in Hz.
    destruct Hz as [[_ Hz]|[?|[_ Hz]]]; [apply Hn in Hz; lia|lia|apply Hn in Hz; lia].
  - intros y z Hy [= <-]. rewrite length_vec_insert by done. unfold up. split; [case_decide; lia|].
    intros Hlt. rewrite lookup_vec_insert by done. repeat case_decide; try lia; f_equal; lia.
Qed.

Lemma erase_explains b (xs ys : list A) i : explains b xs ys -> i < length ys ->
  (Z.of_nat (length xs) < 2 ^ 31)%Z -> (Z.of_nat (length ys) < 2 ^ 31)%Z ->
  exists b', erase (Z.of_nat i) b = Some b' /\ explains b' xs (delete i ys).
Proof.
  intros Hex Hi Hlx Hlen. pose proof Hex as [Hw _]. pose proof Hw as [Hwf Hmv Hc Ho Hn Hmk Htr].
  pose proof (within_total _ _ _ Hw ltac:(lia)) as Ht.
  destruct (erase_spec b (Z.of_nat i) Hwf) as (b' & -> & Hwf' & Hs & HM & HC & Hmoves & [HD HI]);
    [lia|unfold npos; lia|].
  assert (length (delete i ys) = length ys - 1) as Hld by (apply length_delete, lookup_lt_is_Some_2, Hi).
  destruct (Hmoves Hmv) as [Hmv' Hm']. exists b'. split; [done|].
  apply (explains_edit (erase_target (Z.of_nat i)) b b' xs ys); try done.
  - by eapply columns_nil.
  - apply retarget_tracks; [done|]. intros x z. rewrite Hs. unfold erase_map, erase_target.
    split; intros (y & ? & Hy); exists y; (split; [done|]); case_decide; naive_solver.
  - intros z. rewrite (HM z). unfold erase_map, erase_target.
    split; intros (y & ? & Hy); exists y; (split; [done|]); case_decide; naive_solver.
  - intros x [?|Hx]%HD; [by left|right]. eexists. split; [exact Hx|lia].
  - intros z [[? Hz]|[? Hz]]%HI; apply Hn in Hz; rewrite Hld; lia.
  - intros y z Hy Hz. rewrite Hld.
    unfold erase_target, down in Hz. case_decide; [done|]. injection Hz as <-.
    split; [case_decide; lia|]. intros Hlt. rewrite list_lookup_delete.
    repeat case_decide; try lia; f_equal; lia.
Qed.

Lemma move_explains b (xs ys : list A) i j v : explains b xs ys -> i <> j -> j < length ys -> ys !! i = Some v ->
  (Z.of_nat (length xs) < 2 ^ 31)%Z -> (Z.of_nat (length ys) < 2 ^ 31)%Z ->
  exists b', move (Z.of_nat i) (Z.of_nat j) b = Some b'
    /\ explains b' xs (take j (delete i ys) ++ v :: drop j (delete i ys)).
Proof.
  intros Hex Hne Hj Hv Hlx Hlen. pose proof (lookup_lt_Some _ _ _ Hv) as Hi.
  pose proof Hex as [Hw _]. pose proof Hw as [Hwf Hmv Hc Ho Hn Hmk Htr].
  pose proof (within_total _ _ _ Hw ltac:(lia)) as Ht.
  destruct (within_room _ _ _ Hw) as [HrI HrM]; [lia|].
  destruct (move_spec b (Z.of_nat i) (Z.of_nat j) Hwf Hmv HrI HrM) as
    (b' & -> & Hwf' & Hmv' & Hs & HM & HC & [HD (I1 & _ & HE & HI)]);
    [by rewrite Hc|lia|unfold npos; lia|unfold npos; lia|unfold npos; lia|].
  assert (length (delete i ys) = length ys - 1) as Hld by (apply length_delete; by eexists).
  exists b'. split; [done|].
  apply (explains_edit (move_target (Z.of_nat i) (Z.of_nat j)) b b' xs ys); try done.
  - by eapply columns_nil.
  - intros x z. rewrite Hs. unfold move_target. naive_solver.
  - intros z. rewrite (HM z). unfold moved_map, move_target. naive_solver.
  - intros x [?|Hx]%HD; [by left|right]. eexists. split; [exact Hx|lia].
  - intros z Hz. rewrite length_vec_insert by lia.
    apply HI in Hz as [[? Hz]|[?|[? Hz]]]; [|lia|]; apply HE in Hz as [[? Hz]|[? Hz]];
      rewrite <-elem_of_flat in Hz; apply Hn in Hz; lia.
  - intros y z Hy [= <-]. rewrite length_vec_insert by lia. split; [unfold moved, up, down; repeat case_decide; lia|].
    intros Hlt. rewrite lookup_vec_insert by lia. rewrite !list_lookup_delete. unfold moved, up, down.
    repeat case_decide; try lia; subst; try (f_equal; lia). by rewrite Nat2Z.id.
Qed.

Lemma clear_explains b (xs ys : list A) : explains b xs ys ->
  (Z.of_nat (length xs) < 2 ^ 31)%Z -> (Z.of_nat (length ys) < 2 ^ 31)%Z ->
  exists b', clear (Z.of_nat (length ys)) b = Some b' /\ explains b' xs [].
Proof.
  intros [Hw _] Hlx Hlen. pose proof Hw as [Hwf _ _ _ _ _ _].
  pose proof (within_sizes _ _ _ Hw ltac:(lia) ltac:(lia)) as Hsz.
  destruct (clear_spec b (Z.of_nat (length ys)) (Z.of_nat (length xs)) Hwf) as
    (b' & -> & Hwf' & Hmv' & HD & HI & HM & Hm & HC & _); [unfold npos; lia| |unfold npos; lia|].
  { rewrite decide_False by (unfold npos; lia). unfold size_before. lia. }
  exists b'. split; [done|]. split; [split; try done|].
  - intros x Hx%HD. lia.
  - rewrite HI. by intros y ?%elem_of_flat%mem_nil.
  - rewrite HM. by intros y ?%elem_of_flat%mem_nil.
  - intros x y Hxy. destruct (tracks_nonneg b' x y Hwf' Hmv' Hxy) as [Hx Hy]. simpl.
    destruct Hxy as [(_ & _ & Hxn & _)|Hin]; [|rewrite Hm in Hin; by apply elem_of_nil in Hin].
    rewrite <-elem_of_flat, HD in Hxn. lia.
  - intros x y Hxy. destruct (tracks_nonneg b' x y Hwf' Hmv' Hxy) as [Hx Hy]. simpl. lia.
Qed.

(** ** The handlers *)

(** What the observer does to the builder of the selected list. *)
Definition list_action (call : log_call) (b : CollectionChangeBuilder) : option CollectionChangeBuilder :=
  match call with
  | link_list_set index => modify index npos b
  | link_list_insert index => insert index 1 true b
  | link_list_erase index | link_list_nullify index => erase index b
  | link_list_clear old_size => clear old_size b
  | link_list_move from to => move from to b
  | link_list_swap index1 index2 => b ← modify index1 npos b; modify index2 npos b
  | _ => None
  end.

Lemma edit_explains call b (xs ys ys' : list A) : list_edit call ys ys' -> explains b xs ys ->
  (Z.of_nat (length xs) < 2 ^ 31)%Z -> (Z.of_nat (length ys) < 2 ^ 31)%Z ->
  exists b', list_action call b = Some b' /\ explains b' xs ys'.
Proof.
  intros He Hex Hlx Hly. destruct He; cbn [list_action].
  - by apply set_explains.
  - by apply insert_explains.
  - by apply erase_explains.
  - by apply erase_explains.
  - by apply clear_explains.
  - by apply move_explains.
  - destruct (set_explains b xs ys i w) as (b1 & -> & Hex1); [done|by eapply lookup_lt_Some|done|]. mrun.
    destruct (set_explains b1 xs (<[i := w]> ys) j v) as (b' & -> & Hex'); [done| |by rewrite length_insert|].
    { rewrite length_insert. by eapply lookup_lt_Some. }
    exists b'. split; [done|]. destruct (decide (i = j)) as [->|Hne]; [|by rewrite list_insert_insert_ne].
    assert (v = w) as -> by congruence. done.
Qed.

(** The observer whose list builder at address [a] is [b]. *)
Definition with_builder (a : nat) (b : CollectionChangeBuilder) (o : observer) : observer :=
  with_info (set_list_builders (<[a := b]> (list_builders (m_info o))) (m_info o)) o.

Lemma if_builder_list f a b b' o : m_active_list o = list_ptr a -> list_builders (m_info o) !! a = Some b ->
  f b = Some b' -> if_builder (m_active_list o) f o = Some (with_builder a b' o).
Proof. intros Ha Hb Hf. unfold if_builder, call_builder. rewrite Ha, Hb. mrun. by rewrite Hf. Qed.

Lemma observer_list_step call a b b' (ys ys' : list A) o : list_edit call ys ys' ->
  m_active_list o = list_ptr a -> list_builders (m_info o) !! a = Some b ->
  list_action call b = Some b' -> observer_step call o = Some (Done (with_builder a b' o)).
Proof.
  intros He Ha Hb Hrun. unfold observer_step.
  destruct He; cbn [schema_error list_action] in *; unfold do_link_list_set;
    try by rewrite (if_builder_list _ a b b').
  destruct (modify (Z.of_nat i) npos b) as [b1|] eqn:Hb1; [|done]. revert Hrun. mrun. intros Hrun.
  rewrite (if_builder_list _ a b b1) by done. mrun.
  rewrite (if_builder_list _ a b1 b'); [|done|apply lookup_insert_eq|done].
  unfold with_builder, with_info, set_list_builders. cbn. by rewrite insert_insert_eq.
Qed.

Lemma observe_list calls : forall a b (xs ys zs : list A) o, list_edits calls ys zs ->
  m_active_list o = list_ptr a -> list_builders (m_info o) !! a = Some b -> explains b xs ys ->
  (Z.of_nat (length xs) < 2 ^ 31)%Z -> (Z.of_nat (length ys) < 2 ^ 31)%Z ->
  exists o' b', observe_log calls o = Some (Done o') /\ list_builders (m_info o') !! a = Some b'
    /\ explains b' xs zs.
Proof.
  induction calls as [|call calls IH]; intros a b xs ys zs o He Ha Hb Hex Hlx Hly; inversion He; subst.
  { by exists o, b. }
  destruct (edit_explains call b xs ys ys') as (b1 & Hrun & Hex1); [done..|]. cbn [observe_log].
  rewrite (observer_list_step call a b b1 ys ys') by done. mrun.
  apply (IH a b1 xs ys'); try done. apply lookup_insert_eq.
Qed.

(** Before the transaction nothing is recorded. *)
Lemma explains_empty (xs : list A) : explains empty_builder xs xs.
Proof.
  assert (forall x y, tracks empty_builder x y <-> (0 <= x)%Z /\ x = y) as Ht by (intros; by apply empty_tracks).
  split; [split|]; try done.
  - split; [by apply wf_nil..|constructor].
  - split; constructor.
  - by intros x ?%elem_of_flat%mem_nil.
  - by intros x ?%elem_of_flat%mem_nil.
  - by intros x ?%elem_of_flat%mem_nil.
  - by intros x y [_ ->]%Ht.
  - intros x y [_ ->]%Ht _. by right.
Qed.

(** What [explains] says about each element. *)
Lemma explains_new b (xs ys : list A) y : explains b xs ys -> (0 <= y < Z.of_nat (length ys))%Z ->
  y ∈ insertions b \/ exists x, (0 <= x < Z.of_nat (length xs))%Z /\ tracks b x y
    /\ (y ∈ modifications b \/ ys !! Z.to_nat y = xs !! Z.to_nat x).
Proof.
  intros [Hw Hv] Hy. pose proof Hw as [Hwf Hmv _ _ _ _ Htr]. pose proof Hwf as [[_ [HD _]] [_ [HI _]] _ _].
  destruct (decide (mem y (flat (insertions b)))) as [Hin|Hn]; [by left|right].
  destruct (corr_surj _ _ HD HI y) as [x Hx]; [lia|done|]. assert (tracks b x y) as Ht by by left.
  exists x. destruct (tracks_nonneg b x y Hwf Hmv Ht). pose proof (Htr x y Ht). split_and!; [lia..|done|].
  apply Hv; [done|lia].
Qed.

Lemma explains_old b (xs ys : list A) x : explains b xs ys -> (0 <= x < Z.of_nat (length xs))%Z ->
  x ∈ deletions b \/ exists y, (0 <= y < Z.of_nat (length ys))%Z /\ same_element b x y
    /\ (y ∈ modifications b \/ ys !! Z.to_nat y = xs !! Z.to_nat x).
Proof.
  intros [Hw Hv] Hx. pose proof Hw as [Hwf Hmv _ _ _ _ Htr]. pose proof Hwf as [[_ [HD _]] [_ [HI _]] _ _].
  destruct (decide (mem x (flat (deletions b)))) as [Hin|Hn]; [by left|right].
  destruct (corr_total _ _ HD HI x) as [y Hy]; [lia|done|]. assert (tracks b x y) as Ht by by left.
  exists y. destruct (tracks_nonneg b x y Hwf Hmv Ht). pose proof (Htr x y Ht). split_and!; [lia..|done|].
  apply Hv; [done|lia].
Qed.
End refinement.
