(* ===== verification/TransactFacts.v ===== *)
(** * Correctness of the helpers of the transaction log observer

    Column indices, moves of indices and of vectors, and which logs are
    accepted. *)

From S2P Require Import Prelude ChunkedRangeVector IndexSet CorrFacts ChangeBuilder ChangeMove TransactInfo.
From S2P Require Import TransactLog KVO ChunkedFacts LoopFacts IndexSetFacts IndexSetEdits IndexSetWalk.
From S2P Require Import IndexSetMerge AddShiftedFacts ChangeFacts ChangeMerge ChangeTable ChangeComplete.

(** ** [adjust_for_move] *)

Lemma adjust_for_move_moved value from to : (0 <= value < npos)%Z -> (0 <= from)%Z -> (0 <= to)%Z ->
  adjust_for_move value from to = moved from to value.
Proof.
  intros Hv Hf Ht. unfold adjust_for_move, moved, up, down, npos in *.
  repeat case_bool_decide; repeat case_decide; simpl; try lia; u64_drop; lia.
Qed.

(** ** [rotate] *)

Lemma rotate_vec_length {A} f m t (l : list A) : f <= m -> m <= t -> t <= length l ->
  length (rotate_vec f m t l) = length l.
Proof. intros. unfold rotate_vec. rewrite !length_app, !length_drop, !length_take. lia. Qed.

(** The element at [f] goes to [t], those between move down. *)
Lemma rotate_forward {A} f t (l : list A) i : f < t -> t < length l -> i < length l ->
  rotate_vec f (S f) (S t) l !! (if decide (i = f) then t else if decide (f < i <= t) then i - 1 else i)
  = l !! i.
Proof.
  intros Hft Ht Hi. unfold rotate_vec.
  assert (length (take f l) = f) as H1 by (rewrite length_take; lia).
  assert (length (drop (S f) (take (S t) l)) = t - f) as H2 by (rewrite length_drop, length_take; lia).
  assert (length (drop f (take (S f) l)) = 1) as H3 by (rewrite length_drop, length_take; lia).
  case_decide; [|case_decide].
  - subst i. rewrite !lookup_app_r by lia. rewrite H1, H2. replace (t - f - (t - f)) with 0 by lia.
    rewrite lookup_app_l by lia. rewrite lookup_drop, lookup_take_lt by lia. f_equal. lia.
  - rewrite lookup_app_r by lia. rewrite lookup_app_l by lia. rewrite lookup_drop, lookup_take_lt by lia.
    f_equal. lia.
  - destruct (decide (i < f)).
    + rewrite lookup_app_l by lia. by rewrite lookup_take_lt by lia.
    + rewrite !lookup_app_r by lia. rewrite H1, H2, H3, lookup_drop. f_equal. lia.
Qed.

Lemma rotate_backward {A} f t (l : list A) i : t < f -> f < length l -> i < length l ->
  rotate_vec t f (S f) l !! (if decide (i = f) then t else if decide (t <= i < f) then i + 1 else i)
  = l !! i.
Proof.
  intros Hft Ht Hi. unfold rotate_vec.
  assert (length (take t l) = t) as H1 by (rewrite length_take; lia).
  assert (length (drop f (take (S f) l)) = 1) as H2 by (rewrite length_drop, length_take; lia).
  assert (length (drop t (take f l)) = f - t) as H3 by (rewrite length_drop, length_take; lia).
  case_decide; [|case_decide].
  - subst i. rewrite lookup_app_r by lia. rewrite lookup_app_l by lia. rewrite lookup_drop, lookup_take_lt by lia.
    f_equal. lia.
  - rewrite !lookup_app_r by lia. rewrite H1, H2. rewrite lookup_app_l by lia.
    rewrite lookup_drop, lookup_take_lt by lia. f_equal. lia.
  - destruct (decide (i < t)).
    + rewrite lookup_app_l by lia. by rewrite lookup_take_lt by lia.
    + rewrite !lookup_app_r by lia. rewrite H1, H2, H3, lookup_drop. f_equal. lia.
Qed.

(** The last step of [rotate]. *)
Definition rotate_within {A} (from to : Z) (l : list A) : list A :=
  let f := Z.to_nat from in
  let t := Z.to_nat to in
  if bool_decide (from < to)%Z then rotate_vec f (S f) (S t) l else rotate_vec t f (S f) l.

Lemma rotate_within_spec {A} from to (l : list A) : from <> to ->
  (0 <= from < Z.of_nat (length l))%Z -> (0 <= to < Z.of_nat (length l))%Z ->
  length (rotate_within from to l) = length l /\
  forall i, (0 <= i < Z.of_nat (length l))%Z ->
    rotate_within from to l !! Z.to_nat (moved from to i) = l !! Z.to_nat i.
Proof.
  intros Hne Hf Ht. unfold rotate_within. case_bool_decide as Hlt.
  - split; [apply rotate_vec_length; lia|]. intros i Hi.
    rewrite <-(rotate_forward (Z.to_nat from) (Z.to_nat to) l (Z.to_nat i)) by lia. f_equal.
    unfold moved, up, down. repeat case_decide; lia.
  - split; [apply rotate_vec_length; lia|]. intros i Hi.
    rewrite <-(rotate_backward (Z.to_nat from) (Z.to_nat to) l (Z.to_nat i)) by lia. f_equal.
    unfold moved, up, down. repeat case_decide; lia.
Qed.

Section rotate.
Context `{Build}.

Lemma rotate_in_range {A} (d : A) l from to : from <> to ->
  (0 <= from < Z.of_nat (length l))%Z -> (0 <= to < Z.of_nat (length l))%Z ->
  rotate d l from to = Some (rotate_within from to l).
Proof.
  intros Hne Hf Ht. unfold rotate. rewrite REALM_ASSERT_decide by done. mrun.
  rewrite (bool_decide_false (Z.of_nat (length l) <= from)%Z),
    (bool_decide_false (Z.of_nat (length l) <= to)%Z) by lia. done.
Qed.
End rotate.

(** ** Column indices *)

(** The initial index of column [i], as [KVOAdapter] reads it. *)
Definition column_at (cols : list Z) (i : Z) : Z := initial_column [cols] 0 i.

(** Sizes of tables: no index is near the largest [size_t]. *)
Definition cols_ok (cols : list Z) : Prop :=
  (Z.of_nat (length cols) < 2 ^ 33)%Z /\ forall l, last cols = Some l -> (0 <= l < 2 ^ 40)%Z.

Lemma column_at_spec cols i : cols_ok cols -> (0 <= i < 2 ^ 40)%Z ->
  column_at cols i = match last cols with
    | None => i
    | Some l => if decide (i < Z.of_nat (length cols))%Z then default 0%Z (cols !! Z.to_nat i)
                else (i - Z.of_nat (length cols) + l + 1)%Z
    end.
Proof.
  intros [Hlen Hlast] Hi. unfold column_at, initial_column.
  change ([cols] !! Z.to_nat 0) with (Some cols). cbv beta iota.
  destruct cols as [|c cols]; [done|]. destruct (last (c :: cols)) as [l|] eqn:E; [|by apply last_None in E].
  specialize (Hlast l eq_refl). cbn [default]. case_decide.
  - by rewrite bool_decide_false by lia.
  - rewrite bool_decide_true by lia. unfold id. u64_drop. lia.
Qed.

Lemma iota_lookup n v i : (0 <= v)%Z -> (v + Z.of_nat n < 2 ^ 64)%Z -> i < n -> iota n v !! i = Some (v + Z.of_nat i)%Z.
Proof.
  revert v i. induction n as [|n IH]; intros v i Hv Hn Hi; [lia|]. cbn [iota].
  destruct i as [|i]; [by rewrite Z.add_0_r|]. cbn [lookup list_lookup]. rewrite u64_small by lia.
  rewrite IH by lia. f_equal. lia.
Qed.

Lemma iota_length n v : length (iota n v) = n.
Proof. revert v. induction n; intros v; simpl; [done|]. by f_equal. Qed.

(** [expand_to] writes out indices that were implicit. *)
Definition cols_small (cols : list Z) : Prop :=
  (Z.of_nat (length cols) < 2 ^ 31)%Z /\ forall l, last cols = Some l -> (0 <= l < 2 ^ 32)%Z.

Lemma small_ok cols : cols_small cols -> cols_ok cols.
Proof. intros [? Hl]. split; [lia|]. intros l E. specialize (Hl l E). lia. Qed.

Lemma expand_to_spec cols n : cols_small cols -> (0 <= n < 2 ^ 31)%Z ->
  cols_ok (expand_to cols n) /\ (n < Z.of_nat (length (expand_to cols n)) < 2 ^ 32)%Z
  /\ forall i, (0 <= i < 2 ^ 40)%Z -> column_at (expand_to cols n) i = column_at cols i.
Proof.
  intros Hsm Hn. pose proof (small_ok _ Hsm) as Hok. destruct Hsm as [Hlen Hlast]. unfold expand_to.
  case_bool_decide as Hlt; [split_and!; (done || lia)|].
  set (size := Z.of_nat (length cols)) in *. set (new_size := Z.max (size * 2) (n + 1)).
  set (v := match last cols with None => 0%Z | Some l => l +! 1 end).
  set (k := Z.to_nat new_size - length cols).
  assert (v = match last cols with None => 0 | Some l => l + 1 end /\ 0 <= v <= 2 ^ 32)%Z as [Hv Hvb].
  { unfold v. destruct (last cols) as [l|]; [|lia]. specialize (Hlast l eq_refl). rewrite u64_small by lia. lia. }
  assert (Z.of_nat k = new_size - size /\ 0 < Z.of_nat k < 2 ^ 33)%Z as [Hk Hkb].
  { unfold k, new_size, size in *. lia. }
  assert (exists l, last (cols ++ iota k v) = Some l /\ l = v + Z.of_nat k - 1)%Z as (l & Hl & Heq).
  { rewrite last_app, last_lookup, iota_length, iota_lookup by lia. eexists. split; [done|]. lia. }
  assert (Z.of_nat (length (cols ++ iota k v)) = new_size) as Hnew.
  { rewrite length_app, iota_length. unfold size in *. lia. }
  assert (cols_ok (cols ++ iota k v)) as Hok'.
  { split; [unfold new_size, size in *; lia|]. intros l' Hl'. rewrite Hl in Hl'. injection Hl' as <-. lia. }
  split_and!; [done|lia|unfold new_size; lia|]. intros i Hi. rewrite !column_at_spec by done. rewrite Hl, Hnew.
  destruct (decide (i < size)%Z) as [His|His].
  - rewrite decide_True by lia. rewrite lookup_app_l by (unfold size in *; lia).
    destruct (last cols) as [l0|] eqn:E; [by rewrite decide_True|].
    apply last_None in E. subst cols. simpl in *. lia.
  - match goal with |- _ = ?rhs => assert (rhs = v + (i - size))%Z as -> end.
    { destruct (last cols) as [l0|] eqn:E; [rewrite decide_False by done; unfold size; lia|].
      apply last_None in E. unfold size. rewrite E. simpl. lia. }
    case_decide; [|lia]. rewrite lookup_app_r by (unfold size in *; lia).
    rewrite iota_lookup by (unfold size in *; lia). simpl. unfold size in *. lia.
Qed.

(** A column that appears at [ndx]. *)
Lemma insert_column_index_spec cols ndx : cols_small cols -> (0 <= ndx < 2 ^ 31)%Z ->
  forall i, (0 <= i < 2 ^ 39)%Z -> column_at (insert_column_index ndx cols) i =
    if decide (i < ndx)%Z then column_at cols i else if decide (i = ndx) then npos else column_at cols (i - 1).
Proof.
  intros Hsm Hn i Hi. destruct (expand_to_spec cols ndx Hsm Hn) as (Hok & Hlen & Hat).
  unfold insert_column_index, insert_empty_at. rewrite bool_decide_true by lia.
  rewrite <-(Hat i) by lia. set (e := expand_to cols ndx) in *. set (k := Z.to_nat ndx).
  assert (<[k := npos]> (vec_insert k 0%Z e) = take k e ++ npos :: drop k e) as ->.
  { unfold vec_insert. assert (k = length (take k e)) as Hk by (rewrite length_take; lia).
    rewrite Hk at 1. apply insert_middle. }
  assert (last (take k e ++ npos :: drop k e) = last e) as Hlast.
  { rewrite last_app_cons, last_cons. rewrite <-(take_drop k e) at 2. rewrite last_app.
    destruct (last (drop k e)) eqn:E; [done|]. apply last_None in E.
    apply (f_equal length) in E. rewrite length_drop in E. simpl in E. lia. }
  assert (length (take k e ++ npos :: drop k e) = S (length e)) as Hlen'.
  { rewrite length_app, length_take. simpl. rewrite length_drop. lia. }
  assert (exists l, last e = Some l) as [l Hl].
  { destruct (last e) eqn:E; [by eexists|]. apply last_None in E. rewrite E in Hlen. simpl in Hlen. lia. }
  assert (cols_ok (take k e ++ npos :: drop k e)) as Hok'.
  { split; [lia|]. rewrite Hlast. apply Hok. }
  rewrite !column_at_spec by (done || lia). rewrite Hlast, Hl, Hlen'. unfold k. repeat case_decide; try lia.
  - rewrite lookup_app_l by (rewrite length_take; lia). by rewrite lookup_take_lt by lia.
  - subst i. rewrite lookup_app_r by (rewrite length_take; lia). rewrite length_take.
    replace (_ - _) with 0 by lia. done.
  - rewrite <-(Hat (i - 1)%Z), column_at_spec by (done || lia). fold e. rewrite Hl, decide_True by lia.
    rewrite lookup_app_r by (rewrite length_take; lia). rewrite length_take.
    replace (Z.to_nat i - Z.to_nat ndx `min` length e) with (S (Z.to_nat (i - 1) - Z.to_nat ndx)) by lia.
    match goal with |- context [(?x :: ?l) !! S ?m] => change ((x :: l) !! S m) with (l !! m) end.
    rewrite lookup_drop. do 2 f_equal. lia.
  - rewrite <-(Hat (i - 1)%Z), column_at_spec by (done || lia). fold e. rewrite Hl, decide_False by lia. lia.
Qed.

(** A column that moves. *)
Lemma move_column_index_spec `{Build} cols from to : cols_small cols -> from <> to ->
  (0 <= from < 2 ^ 30)%Z -> (0 <= to < 2 ^ 30)%Z ->
  exists cols', move_column_index from to cols = Some cols' /\
    forall i, (0 <= i < 2 ^ 39)%Z -> column_at cols' (moved from to i) = column_at cols i.
Proof.
  intros Hsm Hne Hf Ht. unfold move_column_index.
  destruct (expand_to_spec cols (Z.max from to + 1) Hsm) as (Hok & Hlen & Hat); [lia|].
  set (e := expand_to cols _) in *. rewrite rotate_in_range by lia. eexists. split; [done|].
  intros i Hi. rewrite <-Hat by lia.
  destruct (rotate_within_spec from to e Hne) as [Hl Hlook]; [lia|lia|].
  assert (last (rotate_within from to e) = last e) as Hlast.
  { rewrite !last_lookup, Hl. rewrite <-(Nat2Z.id (pred (length e))), <-Hlook by lia.
    f_equal. unfold moved, up, down. repeat case_decide; lia. }
  assert (cols_ok (rotate_within from to e)) as Hok'.
  { split; [rewrite Hl; lia|]. rewrite Hlast. apply Hok. }
  assert (0 <= moved from to i < 2 ^ 40)%Z by (unfold moved, up, down; repeat case_decide; lia).
  rewrite !column_at_spec by (done || lia). rewrite Hlast, Hl.
  destruct (last e) eqn:E; [|apply last_None in E; rewrite E in Hlen; simpl in Hlen; lia].
  destruct (decide (i < Z.of_nat (length e))%Z).
  - rewrite decide_True by (unfold moved, up, down; repeat case_decide; lia). by rewrite Hlook by lia.
  - assert (moved from to i = i) as -> by (unfold moved, up, down; repeat case_decide; lia).
    by rewrite decide_False by done.
Qed.

(** ** Correctness of the transaction log observers

    Which logs are accepted, and how the observed lists follow their rows. *)

(** ** Accepted logs *)

Definition accepted (calls : list log_call) : Prop := Forall (λ c, schema_error c = false) calls.

Lemma validate_log_spec calls t :
  (accepted calls /\ exists t', validate_log calls t = Done t')
  \/ (~ accepted calls /\ validate_log calls t = UnsupportedSchemaChange).
Proof.
  revert t. induction calls as [|c calls IH]; intros t; cbn [validate_log]; [left; split; [constructor|by eexists]|].
  unfold validator_step. destruct (schema_error c) eqn:E.
  - right. split; [|done]. intros [Hc _]%Forall_cons. congruence.
  - assert (exists t1, (match c with select_table ndx _ _ => Done ndx | _ => Done t end) = Done t1) as [t1 ->].
    { destruct c; by eexists. }
    destruct (IH t1) as [[Ha Hv]|[Ha Hv]]; [left|right]; (split; [|done]).
    + by constructor.
    + by intros [_ ?]%Forall_cons.
Qed.

Section observer.
Context `{Build, StdOrders}.

Lemma observe_log_spec calls : forall o r, observe_log calls o = Some r ->
  (accepted calls /\ exists o', r = Done o') \/ (~ accepted calls /\ r = UnsupportedSchemaChange).
Proof.
  induction calls as [|c calls IH]; intros o r Hr; cbn [observe_log] in Hr.
  { injection Hr as <-. left. split; [constructor|by eexists]. }
  unfold observer_step in Hr. destruct (schema_error c) eqn:E.
  - injection Hr as <-. right. split; [|done]. intros [Hc _]%Forall_cons. congruence.
  - match type of Hr with mbind _ (_ <$> ?e) = _ => destruct e as [o1|]; [|done] end.
    cbn in Hr. destruct (IH _ _ Hr) as [[Ha Ho]|[Ha Ho]]; [left|right]; (split; [|done]).
    + by constructor.
    + by intros [_ ?]%Forall_cons.
Qed.

(** ** Lists of an erased row *)

(** The row of a list once row [last_row] has taken the place of [row]. *)
Definition follow_row (table row last_row : Z) (l : ListChangeInfo) : ListChangeInfo :=
  if decide (table_ndx l = table /\ row_ndx l = last_row) then with_row row l else l.

Lemma erase_row_loop table row last_row : forall fuel todo (ls : list ListChangeInfo),
  Forall (λ l, ~ (table_ndx l = table /\ row_ndx l = row)) todo -> length todo < fuel ->
  exists i, while fuel (λ '(i, ls), Some (bool_decide (i < length ls)))
    (λ '(i, ls),
      l ← ls !! i;
      back ← last ls;
      if bool_decide (table_ndx l ≠ table) then Some (S i, ls)
      else if bool_decide (row_ndx l = row) then
        let ls := if bool_decide (i + 1 < length ls) then <[i := back]> ls else ls in
        Some (S i, removelast ls)
      else if bool_decide (row_ndx l = last_row) then Some (S i, <[i := with_row row l]> ls)
      else Some (S i, ls))
    (length ls, ls ++ todo) = Some (i, ls ++ (follow_row table row last_row <$> todo)).
Proof.
  induction fuel as [|fuel IH]; intros todo ls Hall Hf; [lia|]. rewrite while_S. cbn [mbind option_bind].
  destruct todo as [|l todo].
  { rewrite bool_decide_false by (rewrite app_nil_r; lia). by eexists. }
  rewrite bool_decide_true by (rewrite length_app; simpl; lia).
  apply Forall_cons in Hall as [Hl Hall]. cbn [length] in Hf.
  rewrite list_lookup_middle by done. cbn [mbind option_bind].
  destruct (last (ls ++ l :: todo)) as [back|] eqn:E; [|apply last_None in E; by destruct ls].
  set (l' := follow_row table row last_row l).
  destruct (IH todo (ls ++ [l']) Hall ltac:(lia)) as [i Hi]. exists i.
  match goal with |- mbind _ ?e = _ =>
    assert (e = Some (S (length ls), ls ++ l' :: todo)) as -> end.
  { unfold l', follow_row.
    case_bool_decide as Ht; [by rewrite decide_False by tauto|].
    rewrite (bool_decide_false (row_ndx l = row)) by (intros ?; apply Hl; by split).
    case_bool_decide as Hr; [|by rewrite decide_False by tauto].
    rewrite decide_True by (by split). by rewrite insert_middle. }
  cbn [mbind option_bind]. rewrite length_app, <-!app_assoc, Nat.add_1_r in Hi. exact Hi.
Qed.

Lemma erase_row_lists_other table row last_row ls :
  Forall (λ l, ~ (table_ndx l = table /\ row_ndx l = row)) ls ->
  erase_row_lists table row last_row ls = Some (follow_row table row last_row <$> ls).
Proof.
  intros Hall. unfold erase_row_lists.
  destruct (erase_row_loop table row last_row (S (length ls)) ls [] Hall ltac:(lia)) as [i Hi].
  cbn [length app] in Hi. rewrite Hi. done.
Qed.
End observer.

(** ** Correctness of key-value observation

    Where an observed row goes, and the order of the notifications. *)

Section rows.
Context `{Build}.

(** The search for a move of row [idx] in the sorted moves. *)
Lemma find_move_spec (l : list Move) idx : by_source l ->
  match (k ← find_index (λ a, negb (bool_decide (move_from a < idx)%Z)) l; l !! k) with
  | Some m => if decide (move_from m = idx) then m ∈ l else forall m', m' ∈ l -> move_from m' <> idx
  | None => forall m', m' ∈ l -> move_from m' <> idx
  end.
Proof.
  intros Hs. destruct (find_index_cases (λ a, negb (bool_decide (move_from a < idx)%Z)) l)
    as [[Hall ->]|(l1 & m & l2 & -> & Hall & Hm & ->)]; cbn [mbind option_bind].
  - intros m' Hm'. rewrite Forall_forall in Hall. specialize (Hall m' Hm').
    apply negb_false_iff, bool_decide_eq_true in Hall. lia.
  - rewrite list_lookup_middle by done. apply negb_true_iff, bool_decide_eq_false in Hm.
    case_decide as Hd; [apply elem_of_app; right; left|].
    intros m' [Hm'|[->|Hm']%elem_of_cons]%elem_of_app; [|done|].
    + rewrite Forall_forall in Hall. specialize (Hall m' Hm').
      apply negb_false_iff, bool_decide_eq_true in Hall. lia.
    + unfold by_source in Hs. apply StronglySorted_app in Hs as (_ & _ & Hs).
      apply StronglySorted_inv in Hs as [_ Hs]. rewrite Forall_forall in Hs. specialize (Hs m' Hm'). lia.
Qed.

(** A row that did not move. *)
Lemma unmoved_row_spec (b : CollectionChangeBuilder) idx : wf_builder b -> wf_moves b ->
  (0 <= idx)%Z -> (idx + total (flat (insertions b)) < npos)%Z ->
  (forall m, m ∈ moves b -> move_from m <> idx) ->
  exists r, (deleted ← contains (deletions b) idx;
      if deleted : bool then Some (inr tt)
      else u ← unshift (deletions b) idx; s ← shift (insertions b) u; Some (inl s)) = Some r
    /\ match r with inl z => tracks b idx z | inr _ => forall z, ~ tracks b idx z end.
Proof.
  intros [HD HI _ _] Hmv Hidx Hsum Hno. rewrite contains_member by done. mrun.
  pose proof (wf_total _ HI) as Ht. case_bool_decide as Hin.
  - eexists. split; [done|]. intros z [(_ & _ & Hn & _)|Hm]; [done|]. by apply (Hno _ Hm).
  - pose proof HD as [_ [HokD _]]. pose proof (rank_nonneg _ HokD idx Hidx) as Hr.
    pose proof (rank_le _ HokD idx) as Hle. unfold rank, npos in *.
    rewrite unshift_spec by (done || unfold npos; lia). mrun.
    destruct (shift_spec (insertions b) (idx - below idx (flat (deletions b)))) as (s & -> & Hs & Hsr);
      [done|lia|lia|]. mrun.
    pose proof (below_nonneg s (flat (insertions b))). eexists. split; [done|]. left. unfold same_element, corr, rank.
    split_and!; (done || lia).
Qed.

Lemma new_row_ndx_spec (b : CollectionChangeBuilder) idx : wf_builder b -> wf_moves b -> by_source (moves b) ->
  (0 <= idx)%Z -> (idx + total (flat (insertions b)) < npos)%Z ->
  exists r, new_row_ndx b idx = Some r
    /\ match r with inl z => tracks b idx z | inr _ => forall z, ~ tracks b idx z end.
Proof.
  intros Hwf Hmv Hs Hidx Hsum. unfold new_row_ndx. pose proof (find_move_spec (moves b) idx Hs) as Hfind.
  destruct (_ ← find_index _ _; _) as [m|]; [|by apply unmoved_row_spec].
  case_decide as Hd.
  - rewrite bool_decide_true by done. eexists. split; [done|]. right. rewrite <-Hd. by destruct m.
  - rewrite bool_decide_false by done. by apply unmoved_row_spec.
Qed.
End rows.

(** ** The order of notifications *)

(** [e1] happens before [e2] whenever [e2] happens. *)
Definition precedes (e1 e2 : event) (l : list event) : Prop :=
  forall l1 l2, l = l1 ++ e2 :: l2 -> e1 ∈ l1.

(** A decidable form. *)
Fixpoint precedes_from (seen : bool) (e1 e2 : event) (l : list event) : bool :=
  match l with
  | [] => true
  | e :: l => (if decide (e = e2) then seen else true)
              && precedes_from (seen || bool_decide (e = e1)) e1 e2 l
  end.

Lemma precedes_from_spec e1 e2 l : forall pre, precedes_from (bool_decide (e1 ∈ pre)) e1 e2 l = true ->
  forall l1 l2, l = l1 ++ e2 :: l2 -> e1 ∈ pre ++ l1.
Proof.
  induction l as [|e l IH]; intros pre Hp l1 l2 Hl; [by destruct l1|].
  cbn [precedes_from] in Hp. apply andb_true_iff in Hp as [Hc Hp].
  destruct l1 as [|e' l1]; cbn [app] in Hl; injection Hl as -> Hl.
  - rewrite decide_True in Hc by done. apply bool_decide_eq_true in Hc. apply elem_of_app. by left.
  - replace (pre ++ e' :: l1) with ((pre ++ [e']) ++ l1) by by rewrite <-app_assoc.
    apply (IH (pre ++ [e']) ) with l2; [|done].
    assert (bool_decide (e1 ∈ pre ++ [e']) = bool_decide (e1 ∈ pre) || bool_decide (e' = e1)) as ->; [|done].
    apply eq_true_iff_eq. rewrite orb_true_iff, !bool_decide_eq_true, elem_of_app, list_elem_of_singleton.
    intuition congruence.
Qed.

Lemma precedes_dec e1 e2 l : precedes_from false e1 e2 l = true -> precedes e1 e2 l.
Proof. intros Hp l1 l2 Hl. by apply (precedes_from_spec e1 e2 l [] Hp l1 l2). Qed.
