(* ===== verification/Property.v ===== *)
(** * Properties of objects

    [PropertyType] and [Property] (include/property.hpp). *)

From stdpp Require Export strings.
From S2P Require Import Prelude.

(** ** [PropertyType]

    An [unsigned char]: a base type and the flags [Nullable] and [Array]. *)
Abbreviation PropertyType := Z.

Definition Int : PropertyType := 0.
Definition Bool : PropertyType := 1.
Definition String_ : PropertyType := 2.
Definition Data : PropertyType := 3.
Definition Date : PropertyType := 4.
Definition Float : PropertyType := 5.
Definition Double : PropertyType := 6.
Definition Object : PropertyType := 7.
Definition LinkingObjects : PropertyType := 8.
Definition Any : PropertyType := 9.
Definition Required : PropertyType := 0.
Definition Nullable : PropertyType := 64.
Definition Array : PropertyType := 128.
Definition Flags : PropertyType := Z.lor Nullable Array.

(** The operators on [unsigned char]. *)
Definition type_and (a b : PropertyType) : PropertyType := Z.land a b.
Definition type_or (a b : PropertyType) : PropertyType := Z.lor a b.
Definition type_xor (a b : PropertyType) : PropertyType := Z.lxor a b.
Definition type_not (a : PropertyType) : PropertyType := Z.lxor a 255.

Definition base_type (a : PropertyType) : PropertyType := type_and a (type_not Flags).

(** [operator==]: the flags are ignored. *)
Definition type_eq (a b : PropertyType) : bool := bool_decide (base_type a = base_type b).

Definition is_array (a : PropertyType) : bool := bool_decide (type_and a Array = type_and Array Array).
Definition is_nullable (a : PropertyType) : bool :=
  bool_decide (type_and a Nullable = type_and Nullable Nullable).

#[local] Open Scope string_scope.

Definition string_for_property_type (type : PropertyType) : option string :=
  if is_array type then
    if type_eq type LinkingObjects then Some "linking objects" else Some "array"
  else
    let b := base_type type in
    if bool_decide (b = String_) then Some "string"
    else if bool_decide (b = Int) then Some "int"
    else if bool_decide (b = Bool) then Some "bool"
    else if bool_decide (b = Date) then Some "date"
    else if bool_decide (b = Data) then Some "data"
    else if bool_decide (b = Double) then Some "double"
    else if bool_decide (b = Float) then Some "float"
    else if bool_decide (b = Object) then Some "object"
    else if bool_decide (b = Any) then Some "any"
    else if bool_decide (b = LinkingObjects) then Some "linking objects"
    else None.

(** ** [Property] *)

Record Property := mkProperty {
  name : string;
  public_name : string;
  type : PropertyType;
  object_type : string;
  link_origin_property_name : string;
  is_primary : bool;
  is_indexed : bool;
  table_column : Z;
}.

#[export] Instance Property_eq_dec : EqDecision Property.
Proof. solve_decision. Defined.

Definition default_property : Property := mkProperty "" "" Int "" "" false false npos.

(** The two constructors. *)
Definition make_property (n : string) (t : PropertyType) (primary indexed : bool) (public : string)
  : Property := mkProperty n public t "" "" primary indexed npos.
Definition make_link_property (n : string) (t : PropertyType) (object origin public : string)
  : Property := mkProperty n public t object origin false false npos.

Definition requires_index (p : Property) : bool := is_primary p || is_indexed p.

Definition type_is_indexable (p : Property) : bool :=
  type_eq (type p) Int || type_eq (type p) Bool || type_eq (type p) Date || type_eq (type p) String_.

Definition type_is_nullable (p : Property) : bool :=
  negb (is_array (type p) && type_eq (type p) Object) && negb (type_eq (type p) LinkingObjects).

Definition type_string (p : Property) : option string :=
  if is_array (type p) then
    if type_eq (type p) Object then Some ("array<" +:+ object_type p +:+ ">")
    else if type_eq (type p) LinkingObjects then Some ("linking objects<" +:+ object_type p +:+ ">")
    else s ← string_for_property_type (base_type (type p)); Some ("array<" +:+ s +:+ ">")
  else
    let b := base_type (type p) in
    if bool_decide (b = Object) then Some ("<" +:+ object_type p +:+ ">")
    else if bool_decide (b = LinkingObjects) then Some ("linking objects<" +:+ object_type p +:+ ">")
    else string_for_property_type b.

(** [operator==]: [table_column] and [public_name] are not compared. *)
Definition property_eq (l r : Property) : bool :=
  bool_decide (type l = type r) && bool_decide (is_primary l = is_primary r)
  && bool_decide (requires_index l = requires_index r) && bool_decide (name l = name r)
  && bool_decide (object_type l = object_type r)
  && bool_decide (link_origin_property_name l = link_origin_property_name r).
