(* ===== verification/Core.v ===== *)
(** * The interface of the database library

    The object store calls a library of which the repository has the headers
    only (include/core/realm). Its group is abstract here: [Core] has what the
    object store reads of a group and the operations it calls, [CoreLaws] what
    the comments of the headers say of them (group.hpp, table.hpp,
    descriptor.hpp, sync/object.hpp). An operation yields [None] where it
    asserts or throws; outside the conditions of its law nothing is said of
    it. *)

From S2P Require Import Prelude Property.

(** ** Data *)

Inductive DataType :=
  | type_Int | type_Bool | type_Float | type_Double | type_String | type_Binary | type_OldDateTime
  | type_Timestamp | type_Table | type_Mixed | type_Link | type_LinkList.

#[export] Instance DataType_eq_dec : EqDecision DataType.
Proof. solve_decision. Defined.

(** A column of a table; [link_target] is the name of the table links point
    to, [subcolumns] the columns of a subtable. *)
Record Column := mkColumn {
  column_name : string;
  column_type : DataType;
  column_nullable : bool;
  search_index : bool;
  link_target : string;
  subcolumns : list (string * DataType * bool);
}.

(** The contents of a cell. Floating-point numbers are their bits; [VRef] is
    the contents of a link, list or subtable cell, which the object store does
    not look at. *)
Inductive Value :=
  | VNull | VInt (n : Z) | VBool (b : bool) | VFloat (bits : Z) | VDouble (bits : Z)
  | VString (s : string) | VBinary (s : string) | VTimestamp (seconds nanoseconds : Z) | VRef (n : nat).

#[export] Instance Value_eq_dec : EqDecision Value.
Proof. solve_decision. Defined.

Definition value_has_type (ty : DataType) (v : Value) : bool :=
  match ty, v with
  | type_Int, VInt _ | type_Bool, VBool _ | type_Float, VFloat _ | type_Double, VDouble _
  | type_String, VString _ | type_Binary, VBinary _ | type_Timestamp, VTimestamp _ _ => true
  | _, _ => false
  end.

(** A table: its columns, and its rows with a cell per column. *)
Record Table := mkTable {
  columns : list Column;
  rows : list (list Value);
}.

Definition object_id_column_name : string := "!OID".
Definition max_name_length : nat := 63.

(** ** What the operations do, by their documentation *)

Definition default_value (ty : DataType) (nullable : bool) : Value :=
  if nullable then VNull else
  match ty with
  | type_Int => VInt 0 | type_Bool => VBool false | type_Float => VFloat 0 | type_Double => VDouble 0
  | type_String => VString "" | type_Binary => VBinary "" | type_Timestamp => VTimestamp 0 0
  | type_Link => VNull | _ => VRef 0
  end.

(** A new column is filled with the default value of its type. *)
Definition add_column_at (i : nat) (c : Column) (t : Table) : Table :=
  mkTable (vec_insert i c (columns t))
    (vec_insert i (default_value (column_type c) (column_nullable c)) <$> rows t).

(** With its last column a table loses its rows. *)
Definition drop_column_at (i : nat) (t : Table) : Table :=
  mkTable (vec_erase i (columns t)) (if bool_decide (length (columns t) = 1) then [] else vec_erase i <$> rows t).

Definition with_column (i : nat) (f : Column -> Column) (t : Table) : Table :=
  mkTable (alter f i (columns t)) (rows t).
Definition with_name (n : string) (c : Column) : Column :=
  mkColumn n (column_type c) (column_nullable c) (search_index c) (link_target c) (subcolumns c).
Definition with_search_index (b : bool) (c : Column) : Column :=
  mkColumn (column_name c) (column_type c) (column_nullable c) b (link_target c) (subcolumns c).
Definition with_subcolumn (s : string * DataType * bool) (c : Column) : Column :=
  mkColumn (column_name c) (column_type c) (column_nullable c) (search_index c) (link_target c) (subcolumns c ++ [s]).

Definition add_default_row (t : Table) : Table :=
  mkTable (columns t) (rows t ++ [(λ c, default_value (column_type c) (column_nullable c)) <$> columns t]).
Definition with_cell (col row : nat) (v : Value) (t : Table) : Table :=
  mkTable (columns t) (alter (<[col := v]>) row (rows t)).
(** The last row takes the place of the removed one. *)
Definition without_row (row : nat) (t : Table) : Table :=
  mkTable (columns t)
    (match last (rows t) with Some l => take (length (rows t) - 1) (<[row := l]> (rows t)) | None => [] end).

Definition cell (t : Table) (col row : nat) : option Value := r ← rows t !! row; r !! col.

(** A null is read as a default value, except by the types that have nulls of
    their own. *)
Definition read_value (ty : DataType) (v : Value) : Value :=
  match v, ty with
  | VNull, (type_Int | type_Bool | type_Float | type_Double) => default_value ty false
  | _, _ => v
  end.

Definition column_cells (t : Table) (col : nat) : list Value := omap (λ r, r !! col) (rows t).

(** ** The interface *)

Class Core := {
  group : Type;
  (** [Group::get_table_name]: in no order the object store relies on *)
  table_names : group -> list string;
  (** [Group::get_table]: what the accessor reads *)
  table : group -> string -> option Table;
  has_object_ids : group -> bool;
  get_or_add_table : string -> group -> option group;
  remove_table : string -> group -> option group;
  (** the operations of a table, which is given by its name *)
  insert_plain_column : string -> nat -> DataType -> string -> bool -> group -> option group;
  insert_column_link : string -> nat -> DataType -> string -> string -> group -> option group;
  add_subcolumn : string -> nat -> DataType -> string -> bool -> group -> option group;
  remove_column : string -> nat -> group -> option group;
  rename_column : string -> nat -> string -> group -> option group;
  add_search_index : string -> nat -> group -> option group;
  remove_search_index : string -> nat -> group -> option group;
  add_empty_row : string -> group -> option (nat * group);
  get_value : DataType -> string -> nat -> nat -> group -> option Value;
  set_value : DataType -> string -> nat -> nat -> Value -> group -> option group;
  set_string_unique : string -> nat -> nat -> string -> group -> option group;
  move_last_over : string -> nat -> group -> option group;
  find_first_string : string -> nat -> string -> group -> option (option nat);
  distinct_size : string -> nat -> group -> option nat;
  (** [sync::create_table] and [sync::create_table_with_primary_key] *)
  sync_create_table : string -> group -> option group;
  sync_create_table_with_primary_key : string -> DataType -> string -> bool -> group -> option group;
  (** the permissions of a synchronized group *)
  initialize_schema : group -> option group;
  set_up_basic_permissions : group -> option group;
  add_user_to_role : string -> string -> group -> option group;
  set_class_permissions_for_role : string -> string -> group -> option group;
  set_link : string -> nat -> nat -> nat -> group -> option group;
}.

Section laws.
Context `{Core}.

(** Nothing changes but the contents of one table. *)
Definition updated (g : group) (t : string) (tbl : Table) (g' : group) : Prop :=
  is_Some (table g t) /\ has_object_ids g' = has_object_ids g
  /\ forall t', table g' t' = if decide (t' = t) then Some tbl else table g t'.

(** The operation succeeds and does [f] to the table. *)
Definition does (op : group -> option group) (g : group) (t : string) (tbl : Table) : Prop :=
  exists g', op g = Some g' /\ updated g t tbl g'.
End laws.

Definition indexable (ty : DataType) : bool :=
  match ty with type_Int | type_Bool | type_String | type_Timestamp => true | _ => false end.
Definition is_link_type (ty : DataType) : bool :=
  match ty with type_Link | type_LinkList => true | _ => false end.

Class CoreLaws `{Core} : Prop := {
  table_named g t : is_Some (table g t) <-> t ∈ table_names g;
  table_names_unique g : NoDup (table_names g);
  (** every row has a cell per column *)
  table_rows g t tbl : table g t = Some tbl -> Forall (λ r, length r = length (columns tbl)) (rows tbl);
  get_or_add_table_present g t : t ∈ table_names g -> get_or_add_table t g = Some g;
  get_or_add_table_absent g t : t ∉ table_names g -> String.length t <= max_name_length ->
    exists g', get_or_add_table t g = Some g'
      /\ has_object_ids g' = has_object_ids g
      /\ forall t', table g' t' = if decide (t' = t) then Some (mkTable [] []) else table g t';
  (** the target of a link of another table cannot be removed *)
  remove_table_law g t : t ∈ table_names g ->
    (forall t' tbl, t' <> t -> table g t' = Some tbl -> Forall (λ c, link_target c <> t) (columns tbl)) ->
    exists g', remove_table t g = Some g'
      /\ has_object_ids g' = has_object_ids g
      /\ forall t', table g' t' = if decide (t' = t) then None else table g t';
  insert_plain_column_law g t tbl i ty n nullable : table g t = Some tbl -> i <= length (columns tbl) ->
    String.length n <= max_name_length -> is_link_type ty = false ->
    does (insert_plain_column t i ty n nullable) g t (add_column_at i (mkColumn n ty nullable false "" []) tbl);
  insert_column_link_law g t tbl i ty n target : table g t = Some tbl -> i <= length (columns tbl) ->
    String.length n <= max_name_length -> is_link_type ty = true -> target ∈ table_names g ->
    does (insert_column_link t i ty n target) g t (add_column_at i (mkColumn n ty false false target []) tbl);
  add_subcolumn_law g t tbl i c ty n nullable : table g t = Some tbl -> columns tbl !! i = Some c ->
    column_type c = type_Table -> String.length n <= max_name_length ->
    does (add_subcolumn t i ty n nullable) g t (with_column i (with_subcolumn (n, ty, nullable)) tbl);
  remove_column_law g t tbl i : table g t = Some tbl -> i < length (columns tbl) ->
    does (remove_column t i) g t (drop_column_at i tbl);
  rename_column_law g t tbl i n : table g t = Some tbl -> i < length (columns tbl) ->
    String.length n <= max_name_length ->
    does (rename_column t i n) g t (with_column i (with_name n) tbl);
  add_search_index_law g t tbl i c : table g t = Some tbl -> columns tbl !! i = Some c ->
    indexable (column_type c) = true ->
    does (add_search_index t i) g t (with_column i (with_search_index true) tbl);
  remove_search_index_law g t tbl i : table g t = Some tbl -> i < length (columns tbl) ->
    does (remove_search_index t i) g t (with_column i (with_search_index false) tbl);
  add_empty_row_law g t tbl : table g t = Some tbl -> columns tbl <> [] ->
    exists g', add_empty_row t g = Some (length (rows tbl), g') /\ updated g t (add_default_row tbl) g';
  (** the getters assert when the type is not that of the column *)
  get_value_law g t tbl ty i row c v : table g t = Some tbl -> columns tbl !! i = Some c ->
    cell tbl i row = Some v -> column_type c = ty -> get_value ty t i row g = Some (read_value ty v);
  get_value_mismatch g t tbl ty i row c : table g t = Some tbl -> columns tbl !! i = Some c ->
    column_type c <> ty -> get_value ty t i row g = None;
  set_value_law g t tbl ty i row c v : table g t = Some tbl -> columns tbl !! i = Some c ->
    row < length (rows tbl) -> column_type c = ty ->
    value_has_type ty v = true \/ v = VNull /\ column_nullable c = true ->
    does (set_value ty t i row v) g t (with_cell i row v tbl);
  (** without a conflict it only sets the value *)
  set_string_unique_law g t tbl i row c s : table g t = Some tbl -> columns tbl !! i = Some c ->
    column_type c = type_String -> row < length (rows tbl) ->
    (forall row', row' <> row -> cell tbl i row' <> Some (VString s)) ->
    does (set_string_unique t i row s) g t (with_cell i row (VString s) tbl);
  move_last_over_law g t tbl row : table g t = Some tbl -> row < length (rows tbl) ->
    does (move_last_over t row) g t (without_row row tbl);
  find_first_string_law g t tbl i c s : table g t = Some tbl -> columns tbl !! i = Some c ->
    column_type c = type_String ->
    find_first_string t i s g = Some (find_index (λ v, bool_decide (v = VString s)) (column_cells tbl i));
  distinct_size_law g t tbl i c : table g t = Some tbl -> columns tbl !! i = Some c ->
    column_type c = type_Int \/ column_type c = type_String ->
    distinct_size t i g = Some (length (remove_dups (column_cells tbl i)));
}.
