(* ===== verification/ReferenceCore.v ===== *)
(** * A library that satisfies the interface

    [reference_core] keeps the tables of a group in a finite map. It shows that
    the laws of Core.v can hold together, and evaluates the theorems of the
    object store on concrete groups. *)

From S2P Require Import Prelude Property Core.

#[local] Open Scope string_scope.
#[local] Open Scope list_scope.

(** ** Tables with a cell per column *)

Definition rectangular (t : Table) : Prop := Forall (λ r, length r = length (columns t)) (rows t).

(** Cells beyond the columns are dropped, missing ones are null. *)
Definition rectangle (t : Table) : Table :=
  mkTable (columns t) (resize (length (columns t)) VNull <$> rows t).

Lemma rectangle_rectangular t : rectangular (rectangle t).
Proof. apply Forall_fmap, Forall_forall. intros r _. apply length_resize. Qed.

Lemma rectangle_id t : rectangular t -> rectangle t = t.
Proof.
  destruct t as [cs rs]. unfold rectangular, rectangle. cbn [columns rows]. intros Hr. f_equal.
  rewrite <-(list_fmap_id rs) at 2. apply list_fmap_ext. intros i r Hi%list_elem_of_lookup_2.
  rewrite Forall_forall in Hr. by rewrite <-(Hr r Hi), resize_all.
Qed.

Lemma rectangular_add i c t : i <= length (columns t) -> rectangular t -> rectangular (add_column_at i c t).
Proof.
  unfold rectangular. cbn. rewrite Forall_fmap. intros Hi Hr. eapply Forall_impl; [exact Hr|].
  intros r Hl. cbn. by rewrite !vec_insert_length, Hl by (rewrite ?Hl; done).
Qed.
Lemma rectangular_drop i t : i < length (columns t) -> rectangular t -> rectangular (drop_column_at i t).
Proof.
  unfold rectangular. intros Hi Hr. cbn. case_bool_decide; [constructor|]. rewrite Forall_fmap.
  eapply Forall_impl; [exact Hr|]. intros r Hl. cbn. by rewrite !vec_erase_length, Hl by (rewrite ?Hl; lia).
Qed.
Lemma rectangular_with_column i f t : rectangular t -> rectangular (with_column i f t).
Proof.
  unfold rectangular. cbn. intros Hr. eapply Forall_impl; [exact Hr|]. intros r Hl. cbn. by rewrite length_alter.
Qed.
Lemma rectangular_default_row t : rectangular t -> rectangular (add_default_row t).
Proof. unfold rectangular. cbn. intros Hr. apply Forall_app. split; [done|]. constructor; [|done]. by rewrite length_fmap. Qed.
Lemma rectangular_with_cell i row v t : rectangular t -> rectangular (with_cell i row v t).
Proof.
  unfold rectangular. cbn. intros Hr. apply Forall_alter; [done|]. intros r _ Hl. by rewrite length_insert.
Qed.
Lemma rectangular_without_row row t : rectangular t -> rectangular (without_row row t).
Proof.
  unfold rectangular. cbn. intros Hr. destruct (last (rows t)) as [l|] eqn:E; [|done].
  apply Forall_take, Forall_insert; [done|]. rewrite Forall_forall in Hr. apply Hr.
  by apply last_Some_elem_of.
Qed.

Create HintDb rectangular.
#[local] Hint Resolve rectangle_rectangular rectangular_add rectangular_drop rectangular_with_column
  rectangular_default_row rectangular_with_cell rectangular_without_row : rectangular.

(** ** The library *)

Abbreviation tables := (gmap string Table).

Definition table_at (g : tables) (t : string) : option Table := rectangle <$> g !! t.

(** Changes a table when the condition of the documentation holds. *)
Definition change (t : string) (ok : Table -> bool) (f : Table -> Table) (g : tables) : option tables :=
  tbl ← table_at g t; if ok tbl then Some (<[t := f tbl]> g) else None.

Definition column_is (ty : DataType) (i : nat) (tbl : Table) : bool :=
  match columns tbl !! i with Some c => bool_decide (column_type c = ty) | None => false end.
Definition accepts (ty : DataType) (i : nat) (v : Value) (tbl : Table) : bool :=
  match columns tbl !! i with
  | Some c => bool_decide (column_type c = ty) && (value_has_type ty v || bool_decide (v = VNull) && column_nullable c)
  | None => false
  end.
Definition fits (n : string) : bool := bool_decide (String.length n <= max_name_length).
Definition no_link_to (t : string) (g : tables) : bool :=
  bool_decide (map_Forall (λ t' tbl, t' = t \/ Forall (λ c, link_target c <> t) (columns tbl)) g).

#[export] Instance reference_core : Core | 100 := {
  group := tables;
  table_names g := (map_to_list g).*1;
  table := table_at;
  has_object_ids _ := false;
  get_or_add_table t g :=
    if decide (is_Some (g !! t)) then Some g
    else if fits t then Some (<[t := mkTable [] []]> g) else None;
  remove_table t g := if decide (is_Some (g !! t)) then if no_link_to t g then Some (delete t g) else None else None;
  insert_plain_column t i ty n nullable :=
    change t (λ tbl, bool_decide (i <= length (columns tbl)) && fits n && negb (is_link_type ty))
      (add_column_at i (mkColumn n ty nullable false "" []));
  insert_column_link t i ty n target g :=
    if decide (is_Some (g !! target)) then
      change t (λ tbl, bool_decide (i <= length (columns tbl)) && fits n && is_link_type ty)
        (add_column_at i (mkColumn n ty false false target [])) g
    else None;
  add_subcolumn t i ty n nullable :=
    change t (λ tbl, column_is type_Table i tbl && fits n) (with_column i (with_subcolumn (n, ty, nullable)));
  remove_column t i := change t (λ tbl, bool_decide (i < length (columns tbl))) (drop_column_at i);
  rename_column t i n := change t (λ tbl, bool_decide (i < length (columns tbl)) && fits n) (with_column i (with_name n));
  add_search_index t i :=
    change t (λ tbl, match columns tbl !! i with Some c => indexable (column_type c) | None => false end)
      (with_column i (with_search_index true));
  remove_search_index t i :=
    change t (λ tbl, bool_decide (i < length (columns tbl))) (with_column i (with_search_index false));
  add_empty_row t g :=
    tbl ← table_at g t; g' ← change t (λ tbl, bool_decide (columns tbl ≠ [])) add_default_row g;
    Some (length (rows tbl), g');
  get_value ty t i row g :=
    tbl ← table_at g t; if column_is ty i tbl then v ← cell tbl i row; Some (read_value ty v) else None;
  set_value ty t i row v :=
    change t (λ tbl, accepts ty i v tbl && bool_decide (row < length (rows tbl))) (with_cell i row v);
  set_string_unique t i row s :=
    change t (λ tbl, column_is type_String i tbl && bool_decide (row < length (rows tbl))
                     && forallb (λ row', bool_decide (row' = row) || bool_decide (cell tbl i row' ≠ Some (VString s)))
                          (seq 0 (length (rows tbl))))
      (with_cell i row (VString s));
  move_last_over t row := change t (λ tbl, bool_decide (row < length (rows tbl))) (without_row row);
  find_first_string t i s g :=
    tbl ← table_at g t;
    if column_is type_String i tbl
    then Some (find_index (λ v, bool_decide (v = VString s)) (column_cells tbl i)) else None;
  distinct_size t i g :=
    tbl ← table_at g t;
    if column_is type_Int i tbl || column_is type_String i tbl
    then Some (length (remove_dups (column_cells tbl i))) else None;
  sync_create_table _ _ := None;
  sync_create_table_with_primary_key _ _ _ _ _ := None;
  initialize_schema _ := None;
  set_up_basic_permissions _ := None;
  add_user_to_role _ _ _ := None;
  set_class_permissions_for_role _ _ _ := None;
  set_link _ _ _ _ _ := None;
}.

(** ** The laws *)

Lemma change_does t ok f (g : tables) tbl : table_at g t = Some tbl -> ok tbl = true -> rectangular (f tbl) ->
  does (change t ok f) g t (f tbl).
Proof.
  intros Ht Hok Hf. exists (<[t := f tbl]> g). unfold change. rewrite Ht. cbn. rewrite Hok. split; [done|].
  split_and!; [by exists tbl|done|]. intros t'. cbn. unfold table_at. case_decide as Hd.
  - subst t'. rewrite lookup_insert_eq. cbn. by rewrite rectangle_id.
  - by rewrite lookup_insert_ne.
Qed.

Lemma table_at_rectangular (g : tables) t tbl : table_at g t = Some tbl -> rectangular tbl.
Proof. unfold table_at. intros (tbl' & _ & ->)%fmap_Some. apply rectangle_rectangular. Qed.
#[local] Hint Resolve table_at_rectangular : rectangular.

Lemma column_is_true ty i tbl c : columns tbl !! i = Some c -> column_type c = ty -> column_is ty i tbl = true.
Proof. intros Hc Hty. unfold column_is. by rewrite Hc, bool_decide_true. Qed.

Ltac change_law := apply change_does; [assumption|
  rewrite ?andb_true_iff, ?bool_decide_eq_true, ?negb_true_iff; unfold fits; rewrite ?bool_decide_eq_true; auto
  |eauto with rectangular].

#[export] Instance reference_core_laws : CoreLaws.
Proof.
  split; cbn [group table_names table has_object_ids get_or_add_table remove_table insert_plain_column
    insert_column_link add_subcolumn remove_column rename_column add_search_index remove_search_index add_empty_row
    get_value set_value set_string_unique move_last_over find_first_string distinct_size reference_core].
  - intros g t. unfold table_at. rewrite fmap_is_Some, list_elem_of_fmap. split.
    + intros [tbl Ht]. exists (t, tbl). split; [done|]. by apply elem_of_map_to_list.
    + intros ([t' tbl] & -> & Ht%elem_of_map_to_list). by exists tbl.
  - intros g. apply NoDup_fst_map_to_list.
  - apply table_at_rectangular.
  - intros g t ([t' tbl] & -> & Ht%elem_of_map_to_list)%list_elem_of_fmap. cbn [fst]. by rewrite decide_True by by exists tbl.
  - intros g t Hn Hlen. rewrite decide_False.
    + unfold fits. rewrite bool_decide_true by done. eexists. split_and!; [done|done|]. intros t'. unfold table_at.
      case_decide as Hd; [subst; by rewrite lookup_insert_eq|by rewrite lookup_insert_ne].
    + intros [tbl Ht]. apply Hn, list_elem_of_fmap. exists (t, tbl). split; [done|]. by apply elem_of_map_to_list.
  - intros g t ([t' tbl] & -> & Ht%elem_of_map_to_list)%list_elem_of_fmap Hlinks. cbn [fst] in *. rewrite decide_True by by exists tbl.
    unfold no_link_to. rewrite bool_decide_true.
    + eexists. split_and!; [done|done|]. intros t. unfold table_at.
      case_decide as Hd; [subst; by rewrite lookup_delete_eq|by rewrite lookup_delete_ne].
    + intros t'' tbl'' Ht''. destruct (decide (t'' = t')) as [|Hne]; [by left|]. right.
      apply (Hlinks t'' (rectangle tbl'') Hne). unfold table_at. by rewrite Ht''.
  - intros. change_law.
  - intros g t tbl i ty n target Ht Hi Hn Hl ([t' tbl'] & -> & Ht'%elem_of_map_to_list)%list_elem_of_fmap.
    unfold does. cbn [fst]. setoid_rewrite decide_True; [|by exists tbl']. change_law.
  - intros. change_law. split; [by eapply column_is_true|done].
  - intros. change_law.
  - intros. change_law.
  - intros g t tbl i c Ht Hc Hi. apply change_does; [done|by rewrite Hc|eauto with rectangular].
  - intros. change_law.
  - intros g t tbl Ht Hc.
    destruct (change_does t (λ tbl, bool_decide (columns tbl ≠ [])) add_default_row g tbl Ht) as (g' & Hg' & Hu);
      [by apply bool_decide_eq_true|eauto with rectangular|].
    exists g'. rewrite Ht, Hg'. done.
  - intros g t tbl ty i row c v Ht Hc Hv Hty. rewrite Ht. cbn. by rewrite (column_is_true ty i tbl c), Hv.
  - intros g t tbl ty i row c Ht Hc Hty. rewrite Ht. cbn. unfold column_is. by rewrite Hc, bool_decide_false.
  - intros g t tbl ty i row c v Ht Hc Hrow Hty Hv. apply change_does; [done| |eauto with rectangular].
    unfold accepts. rewrite Hc, !andb_true_iff, !bool_decide_eq_true, orb_true_iff. split_and!; [done| |done].
    destruct Hv as [->|[-> ->]]; [by left|right]. by rewrite bool_decide_true.
  - intros g t tbl i row c s Ht Hc Hty Hrow Huniq. apply change_does; [done| |eauto with rectangular].
    rewrite (column_is_true _ i tbl c), bool_decide_true by done. cbn [andb]. apply forallb_forall. intros row' _.
    destruct (decide (row' = row)); [by rewrite bool_decide_true|].
    rewrite (bool_decide_true (cell tbl i row' ≠ _)) by auto. apply orb_true_r.
  - intros. change_law.
  - intros g t tbl i c s Ht Hc Hty. rewrite Ht. cbn. by rewrite (column_is_true _ i tbl c).
  - intros g t tbl i c Ht Hc Hty. rewrite Ht. cbn. destruct Hty as [Hty|Hty];
      rewrite (column_is_true _ i tbl c Hc Hty), ?orb_true_r; done.
Qed.
