(* ===== verification/ObjectSchema.v ===== *)
(** * Object schemas and schemas

    [ObjectSchema] (include/object_schema.hpp, object_schema.cpp) and [Schema]
    (include/schema.hpp, schema.cpp): lookup, validation and comparison. *)

From Stdlib Require Import Ascii.
From S2P Require Import Prelude Property ChangeBuilder.

#[local] Open Scope string_scope.
#[local] Open Scope list_scope.

(** ** Data *)

Record ObjectSchema := mkObjectSchema {
  os_name : string;
  persisted_properties : list Property;
  computed_properties : list Property;
  primary_key : string;
}.

#[export] Instance ObjectSchema_eq_dec : EqDecision ObjectSchema.
Proof. solve_decision. Defined.

Abbreviation Schema := (list ObjectSchema).

(** A message format and its arguments; the text itself is made by
    [util::format]. *)
Record ObjectSchemaValidationException := mkException {
  format : string;
  arguments : list string;
}.

(** The order of [std::string]: bytes compare as [unsigned char]. *)
Definition string_lt (a b : string) : bool := String.ltb a b.

(** Whether [char] is a signed type, which the language leaves to the
    implementation. *)
Class Platform := { char_is_signed : bool }.

Definition char_value `{Platform} (c : ascii) : Z :=
  let n := Z.of_nat (nat_of_ascii c) in
  if char_is_signed && bool_decide (128 <= n)%Z then (n - 256)%Z else n.

(** [operator<] of [StringData] on strings that are not null:
    [std::lexicographical_compare] on [char]. *)
Fixpoint string_data_lt `{Platform} (a b : string) : bool :=
  match a, b with
  | _, EmptyString => false
  | EmptyString, String _ _ => true
  | String c a, String d b =>
      if bool_decide (char_value c < char_value d)%Z then true
      else if bool_decide (char_value d < char_value c)%Z then false
      else string_data_lt a b
  end.

(** ** Lookup *)

(** [ObjectSchema(name, persisted_properties, computed_properties)]: the first
    primary property names the primary key. *)
Definition make_object_schema (n : string) (persisted computed : list Property) : ObjectSchema :=
  mkObjectSchema n persisted computed
    (match list_find (λ p, is_primary p = true) persisted with
     | Some (_, p) => name p | None => "" end).

(** The property found by a predicate, persisted ones first. *)
Definition find_property (p q : Property -> bool) (o : ObjectSchema) : option Property :=
  match list_find (λ x, p x = true) (persisted_properties o) with
  | Some (_, x) => Some x
  | None => snd <$> list_find (λ x, q x = true) (computed_properties o)
  end.

Definition property_for_name (n : string) (o : ObjectSchema) : option Property :=
  find_property (λ p, bool_decide (name p = n)) (λ p, bool_decide (name p = n)) o.

Definition property_for_public_name (n : string) (o : ObjectSchema) : option Property :=
  find_property
    (λ p, bool_decide (public_name p = n) || (bool_decide (public_name p = "") && bool_decide (name p = n)))
    (λ p, bool_decide ((if bool_decide (public_name p = "") then name p else public_name p) = n)) o.

Definition primary_key_property (o : ObjectSchema) : option Property :=
  property_for_name (primary_key o) o.

Definition property_is_computed (p : Property) (o : ObjectSchema) : bool :=
  existsb (λ q, property_eq q p) (computed_properties o).

(** The first property with a name, changed. *)
Fixpoint update_property (n : string) (f : Property -> Property) (ps : list Property)
  : option (list Property) :=
  match ps with
  | [] => None
  | p :: ps => if bool_decide (name p = n) then Some (f p :: ps)
               else ps ← update_property n f ps; Some (p :: ps)
  end.

(** A write through the pointer [property_for_name] returns. *)
Definition set_property (n : string) (f : Property -> Property) (o : ObjectSchema) : ObjectSchema :=
  match update_property n f (persisted_properties o) with
  | Some ps => mkObjectSchema (os_name o) ps (computed_properties o) (primary_key o)
  | None =>
      match update_property n f (computed_properties o) with
      | Some ps => mkObjectSchema (os_name o) (persisted_properties o) ps (primary_key o)
      | None => o
      end
  end.

Definition make_primary (p : Property) : Property :=
  mkProperty (name p) (public_name p) (type p) (object_type p) (link_origin_property_name p)
    true (is_indexed p) (table_column p).

Definition set_primary_key_property (o : ObjectSchema) : ObjectSchema :=
  if bool_decide (primary_key o = "") then o else set_property (primary_key o) make_primary o.

(** [operator==] on object schemas and schemas. *)
Definition properties_eq (l r : list Property) : bool :=
  bool_decide (length l = length r) && forallb (λ p, property_eq p.1 p.2) (zip l r).
Definition object_schema_eq (l r : ObjectSchema) : bool :=
  bool_decide (os_name l = os_name r) && bool_decide (primary_key l = primary_key r)
  && properties_eq (persisted_properties l) (persisted_properties r)
  && properties_eq (computed_properties l) (computed_properties r).
Definition schema_eq (l r : Schema) : bool :=
  bool_decide (length l = length r) && forallb (λ p, object_schema_eq p.1 p.2) (zip l r).

(** [Schema(base types)] *)
Definition make_schema `{StdOrders} (types : list ObjectSchema) : Schema :=
  std_sort (λ lft rgt, string_lt (os_name lft) (os_name rgt)) types.

(** [Schema::find]: [std::lower_bound] in the order of [StringData], then a check
    of the name. *)
Definition find_type `{Platform} (n : string) (s : Schema) : option ObjectSchema :=
  match s !! lower_bound (λ lft, string_data_lt (os_name lft) n) s with
  | Some o => if bool_decide (os_name o ≠ n) then None else Some o
  | None => None
  end.

Section validation.
Context `{Platform}.

(** ** Validation of one property *)

Definition type_name (t : PropertyType) : string := default "" (string_for_property_type t).

(** The checks before the object type, with the primary property seen so far. *)
Definition validate_flags (object_name : string) (prop : Property) (primary : option Property)
  : list ObjectSchemaValidationException :=
  (if type_eq (type prop) LinkingObjects && negb (is_array (type prop)) then
     [mkException "Linking Objects property '%1.%2' must be an array." [object_name; name prop]] else []) ++
  (if is_nullable (type prop) && negb (type_is_nullable prop) then
     [mkException "Property '%1.%2' of type '%3' cannot be nullable."
        [object_name; name prop; type_name (type prop)]]
   else if type_eq (type prop) Object && negb (is_nullable (type prop)) && negb (is_array (type prop)) then
     [mkException "Property '%1.%2' of type 'object' must be nullable." [object_name; name prop]]
   else []) ++
  (if is_primary prop then
     (if negb (type_eq (type prop) Int) && negb (type_eq (type prop) String_) then
        [mkException "Property '%1.%2' of type '%3' cannot be made the primary key."
           [object_name; name prop; type_name (type prop)]] else []) ++
     match primary with
     | Some other =>
         [mkException "Properties '%1' and '%2' are both marked as the primary key of '%3'."
            [name prop; name other; object_name]]
     | None => []
     end
   else []) ++
  (if is_indexed prop && negb (type_is_indexable prop) then
     [mkException "Property '%1.%2' of type '%3' cannot be indexed."
        [object_name; name prop; type_name (type prop)]] else []) ++
  (if negb (type_eq (type prop) LinkingObjects) && negb (bool_decide (link_origin_property_name prop = "")) then
     [mkException "Property '%1.%2' of type '%3' cannot have an origin property name."
        [object_name; name prop; type_name (type prop)]]
   else if type_eq (type prop) LinkingObjects && bool_decide (link_origin_property_name prop = "") then
     [mkException "Property '%1.%2' of type '%3' must have an origin property name."
        [object_name; name prop; type_name (type prop)]]
   else []).

(** The checks of the object type and of the origin of a linking objects
    property. *)
Definition validate_links (schema : Schema) (object_name : string) (prop : Property)
  : list ObjectSchemaValidationException :=
  if negb (type_eq (type prop) Object) && negb (type_eq (type prop) LinkingObjects) then
    if bool_decide (object_type prop = "") then []
    else [mkException "Property '%1.%2' of type '%3' cannot have an object type."
            [object_name; name prop; default "" (type_string prop)]]
  else
    match find_type (object_type prop) schema with
    | None =>
        [mkException "Property '%1.%2' of type '%3' has unknown object type '%4'"
           [object_name; name prop; type_name (type prop); object_type prop]]
    | Some target =>
        if negb (type_eq (type prop) LinkingObjects) then []
        else
          let arguments := [object_type prop; link_origin_property_name prop; object_name; name prop] in
          match property_for_name (link_origin_property_name prop) target with
          | None =>
              [mkException "Property '%1.%2' declared as origin of linking objects property '%3.%4' does not exist"
                 arguments]
          | Some origin =>
              if negb (type_eq (type origin) Object) then
                [mkException "Property '%1.%2' declared as origin of linking objects property '%3.%4' is not a link"
                   arguments]
              else if bool_decide (object_type origin ≠ object_name) then
                [mkException "Property '%1.%2' declared as origin of linking objects property '%3.%4' links to type '%5'"
                   (arguments ++ [object_type origin])]
              else []
          end
    end.

Definition validate_property (schema : Schema) (object_name : string) (prop : Property)
    (primary : option Property) : list ObjectSchemaValidationException * option Property :=
  (validate_flags object_name prop primary ++ validate_links schema object_name prop,
   if is_primary prop then Some prop else primary).

(** ** Validation of object schemas *)

(** [for_each_duplicate] on a sorted list: the search resumes two elements
    further. *)
Fixpoint duplicates (l : list string) : list string :=
  match l with
  | x :: (y :: l') as t => if bool_decide (x = y) then x :: duplicates l' else duplicates t
  | _ => []
  end.

(** [std::set_intersection] *)
Fixpoint set_intersection (l1 : list string) : list string -> list string :=
  fix inner (l2 : list string) :=
    match l1, l2 with
    | x :: l1', y :: l2' =>
        if string_data_lt x y then set_intersection l1' l2
        else if string_data_lt y x then inner l2'
        else x :: set_intersection l1' l2'
    | _, _ => []
    end.

Fixpoint validate_properties (schema : Schema) (object_name : string) (props : list Property)
    (primary : option Property) : list ObjectSchemaValidationException * option Property :=
  match props with
  | [] => ([], primary)
  | prop :: props =>
      let '(es, primary) := validate_property schema object_name prop primary in
      let '(es', primary) := validate_properties schema object_name props primary in
      (es ++ es', primary)
  end.

Context `{StdOrders}.

(** [ObjectSchema::validate]: the exceptions it adds. [None] is the use of the
    null pointer when an alias in conflict is not the public name of a
    property. *)
Definition validate_object (schema : Schema) (o : ObjectSchema)
  : option (list ObjectSchemaValidationException) :=
  let props := persisted_properties o ++ computed_properties o in
  let internal := std_sort string_data_lt (name <$> props) in
  let public := std_sort string_data_lt (filter (λ n, n ≠ "") (public_name <$> props)) in
  let alias_duplicates :=
    (λ n, mkException "Alias '%1' appears more than once in the schema for type '%2'." [n; os_name o])
    <$> duplicates public in
  let name_duplicates :=
    (λ n, mkException "Property '%1' appears more than once in the schema for type '%2'." [n; os_name o])
    <$> duplicates internal in
  conflicts ← mapM_vec (λ n,
      p ← property_for_public_name n o;
      Some (mkException "Property '%1.%2' has an alias '%3' that conflicts with a property of the same name."
              [os_name o; name p; n]))
    (set_intersection public internal);
  let '(errors, primary) := validate_properties schema (os_name o) props None in
  let missing_key :=
    if negb (bool_decide (primary_key o = "")) && bool_decide (primary = None)
       && bool_decide (primary_key_property o = None)
    then [mkException "Specified primary key '%1.%2' does not exist." [os_name o; primary_key o]] else [] in
  Some (alias_duplicates ++ name_duplicates ++ conflicts ++ errors ++ missing_key).

(** The duplicate types of a sorted schema: the search resumes at the next
    element. *)
Fixpoint duplicate_types (s : Schema) : list ObjectSchemaValidationException :=
  match s with
  | x :: (y :: _) as t =>
      (if bool_decide (os_name x = os_name y)
       then [mkException "Type '%1' appears more than once in the schema." [os_name x]] else [])
      ++ duplicate_types t
  | _ => []
  end.

(** [Schema::validate]: the exceptions of the [SchemaValidationException] it
    throws, none when it returns. *)
Definition validate (s : Schema) : option (list ObjectSchemaValidationException) :=
  es ← mapM_vec (validate_object s) s;
  Some (duplicate_types s ++ concat es).

End validation.
