(* ===== verification/SchemaChanges.v ===== *)
(** * Differences between schemas

    [SchemaChange] (include/schema.hpp), [Schema::compare] and
    [Schema::copy_table_columns_from] (schema.cpp), and the checks of
    object_store.cpp on a list of changes. *)

From S2P Require Import Prelude Property ChangeBuilder ObjectSchema.

#[local] Open Scope string_scope.
#[local] Open Scope list_scope.

(** ** Data *)

Inductive SchemaChange :=
  | AddTable (object : ObjectSchema)
  | RemoveTable (object : ObjectSchema)
  | AddInitialProperties (object : ObjectSchema)
  | AddProperty (object : ObjectSchema) (property : Property)
  | RemoveProperty (object : ObjectSchema) (property : Property)
  | ChangePropertyType (object : ObjectSchema) (old_property new_property : Property)
  | MakePropertyNullable (object : ObjectSchema) (property : Property)
  | MakePropertyRequired (object : ObjectSchema) (property : Property)
  | AddIndex (object : ObjectSchema) (property : Property)
  | RemoveIndex (object : ObjectSchema) (property : Property)
  | ChangePrimaryKey (object : ObjectSchema) (property : option Property).

(** [std::partition]: which order the two parts have is not specified. *)
Class StdPartition := {
  std_partition : forall {A : Type}, (A -> bool) -> list A -> list A * list A;
  std_partition_left : forall {A : Type} (p : A -> bool) l,
    (std_partition p l).1 ≡ₚ filter (λ x, p x = true) l;
  std_partition_right : forall {A : Type} (p : A -> bool) l,
    (std_partition p l).2 ≡ₚ filter (λ x, p x = false) l;
}.

#[export] Instance stable_partition : StdPartition | 100 := {
  std_partition := λ A p l, (filter (λ x, p x = true) l, filter (λ x, p x = false) l);
  std_partition_left := λ A p l, Permutation_refl _;
  std_partition_right := λ A p l, Permutation_refl _;
}.

(** ** Comparison *)

(** What one persisted property of the existing schema needs. *)
Definition compare_property (existing_schema target_schema : ObjectSchema) (current_prop : Property)
  : list SchemaChange :=
  match property_for_name (name current_prop) target_schema with
  | None => [RemoveProperty existing_schema current_prop]
  | Some target_prop =>
      if property_is_computed target_prop target_schema then
        [RemoveProperty existing_schema current_prop]
      else if negb (type_eq (type current_prop) (type target_prop))
              || bool_decide (object_type current_prop ≠ object_type target_prop)
              || bool_decide (is_array (type current_prop) ≠ is_array (type target_prop)) then
        [ChangePropertyType existing_schema current_prop target_prop]
      else
        (if bool_decide (is_nullable (type current_prop) ≠ is_nullable (type target_prop)) then
           if is_nullable (type current_prop) then [MakePropertyRequired existing_schema current_prop]
           else [MakePropertyNullable existing_schema current_prop]
         else []) ++
        (if requires_index target_prop then
           if negb (is_indexed current_prop) then [AddIndex existing_schema current_prop] else []
         else if requires_index current_prop then [RemoveIndex existing_schema current_prop]
         else [])
  end.

Definition is_not_remove_property (c : SchemaChange) : bool :=
  match c with RemoveProperty _ _ => false | _ => true end.

(** Only applied to removed properties. *)
Definition get_removed_column (c : SchemaChange) : Z :=
  match c with RemoveProperty _ p => table_column p | _ => 0 end.

(** The changes of one object before they are ordered. *)
Definition compare_object (existing_schema target_schema : ObjectSchema) : list SchemaChange :=
  (persisted_properties existing_schema ≫= compare_property existing_schema target_schema) ++
  (if bool_decide (primary_key existing_schema ≠ primary_key target_schema)
   then [ChangePrimaryKey existing_schema (primary_key_property target_schema)] else []) ++
  (AddProperty existing_schema <$>
     filter (λ target_prop, property_for_name (name target_prop) existing_schema = None)
       (persisted_properties target_schema)).

Section compare.
Context `{StdOrders, StdPartition}.

(** The removals go to the end, in descending order of column index. *)
Definition order_changes (changes : list SchemaChange) : list SchemaChange :=
  let '(others, removals) := std_partition is_not_remove_property changes in
  others ++ std_sort (λ a b, bool_decide (get_removed_column b < get_removed_column a)%Z) removals.

(** The static [compare] of schema.cpp, which adds to [changes]. *)
Definition compare_into (existing_schema target_schema : ObjectSchema) (changes : list SchemaChange)
  : list SchemaChange :=
  order_changes (changes ++ compare_object existing_schema target_schema).

(** [zip_matching]: the callback on every object of either schema. *)
Fixpoint zip_matching {St} (func : option ObjectSchema -> option ObjectSchema -> St -> St)
    (a : Schema) : Schema -> St -> St :=
  fix inner (b : Schema) (st : St) :=
    match a, b with
    | x :: a', y :: b' =>
        match String.compare (os_name x) (os_name y) with
        | Eq => zip_matching func a' b' (func (Some x) (Some y) st)
        | Lt => zip_matching func a' b (func (Some x) None st)
        | Gt => inner b' (func None (Some y) st)
        end
    | _, _ =>
        foldl (λ st y, func None (Some y) st) (foldl (λ st x, func (Some x) None st) st a) b
    end.

Definition compare_tables (include_table_removals : bool) (target existing : option ObjectSchema)
    (changes : list SchemaChange) : list SchemaChange :=
  match target, existing with
  | Some target, None => changes ++ [AddTable target]
  | None, Some existing =>
      if include_table_removals then changes ++ [RemoveTable existing] else changes
  | _, _ => changes
  end.

Definition compare_columns (target existing : option ObjectSchema) (changes : list SchemaChange)
  : list SchemaChange :=
  match target, existing with
  | Some target, Some existing => compare_into existing target changes
  | Some target, None => changes ++ [AddInitialProperties target]
  | None, _ => changes
  end.

(** [existing.compare(target, include_table_removals)] *)
Definition compare (existing target_schema : Schema) (include_table_removals : bool)
  : list SchemaChange :=
  let changes := zip_matching (compare_tables include_table_removals) target_schema existing [] in
  zip_matching compare_columns target_schema existing changes.

End compare.

(** ** [copy_table_columns_from] *)

Definition with_table_column (c : Z) (p : Property) : Property :=
  mkProperty (name p) (public_name p) (type p) (object_type p) (link_origin_property_name p)
    (is_primary p) (is_indexed p) c.

Definition copy_columns (other existing : ObjectSchema) : ObjectSchema :=
  foldl (λ o p, set_property (name p) (with_table_column (table_column p)) o) existing
    (persisted_properties other).

(** The objects of [this] in order, each updated from the matching one. *)
Fixpoint copy_table_columns_from (a : Schema) : Schema -> Schema :=
  fix inner (b : Schema) :=
    match a, b with
    | x :: a', y :: b' =>
        match String.compare (os_name x) (os_name y) with
        | Eq => copy_columns y x :: copy_table_columns_from a' b'
        | Lt => x :: copy_table_columns_from a' b
        | Gt => inner b'
        end
    | _, _ => a
    end.

(** ** The checks of the object store *)

(** [SchemaDifferenceExplainer]: the errors of one change. *)
Definition explain (c : SchemaChange) : list ObjectSchemaValidationException :=
  match c with
  | AddTable o => [mkException "Class '%1' has been added." [os_name o]]
  | RemoveTable _ | AddInitialProperties _ => []
  | AddProperty o p => [mkException "Property '%1.%2' has been added." [os_name o; name p]]
  | RemoveProperty o p => [mkException "Property '%1.%2' has been removed." [os_name o; name p]]
  | ChangePropertyType o p q =>
      [mkException "Property '%1.%2' has been changed from '%3' to '%4'."
         [os_name o; name q; default "" (type_string p); default "" (type_string q)]]
  | MakePropertyNullable o p => [mkException "Property '%1.%2' has been made optional." [os_name o; name p]]
  | MakePropertyRequired o p => [mkException "Property '%1.%2' has been made required." [os_name o; name p]]
  | ChangePrimaryKey o (Some p) =>
      if bool_decide (primary_key o = "")
      then [mkException "Primary Key for class '%1' has been added." [os_name o]]
      else [mkException "Primary Key for class '%1' has changed from '%2' to '%3'."
              [os_name o; primary_key o; name p]]
  | ChangePrimaryKey o None => [mkException "Primary Key for class '%1' has been removed." [os_name o]]
  | AddIndex o p => [mkException "Property '%1.%2' has been made indexed." [os_name o; name p]]
  | RemoveIndex o p => [mkException "Property '%1.%2' has been made unindexed." [os_name o; name p]]
  end.

Inductive schema_error_type :=
  | SchemaMismatchException | InvalidSchemaChangeException | InvalidExternalSchemaChangeException.

(** A check returns a value or throws the errors it has collected. *)
Inductive checked (A : Type) :=
  | Returns (a : A)
  | Throws (t : schema_error_type) (errors : list ObjectSchemaValidationException).
Arguments Returns {A} a.
Arguments Throws {A} t errors.

Definition verify_no_errors (t : schema_error_type) (errors : SchemaChange -> list ObjectSchemaValidationException)
    (changes : list SchemaChange) : checked unit :=
  match changes ≫= errors with [] => Returns tt | es => Throws t es end.

Definition change_needs_migration (c : SchemaChange) : bool :=
  match c with
  | AddIndex _ _ | AddInitialProperties _ | AddTable _ | RemoveTable _ | RemoveIndex _ _ => false
  | AddProperty _ _ | ChangePrimaryKey _ _ | ChangePropertyType _ _ _ | MakePropertyNullable _ _
  | MakePropertyRequired _ _ | RemoveProperty _ _ => true
  end.

Definition needs_migration (changes : list SchemaChange) : bool := existsb change_needs_migration changes.

Definition verify_no_changes_required (changes : list SchemaChange) : checked unit :=
  verify_no_errors SchemaMismatchException explain changes.

Definition verify_no_migration_required (changes : list SchemaChange) : checked unit :=
  verify_no_errors SchemaMismatchException (λ c,
    match c with
    | AddTable _ | AddInitialProperties _ | AddIndex _ _ | RemoveIndex _ _ => []
    | _ => explain c
    end) changes.

Definition is_index_change (c : SchemaChange) : bool :=
  match c with AddIndex _ _ | RemoveIndex _ _ => true | _ => false end.
Definition is_other_addition (c : SchemaChange) : bool :=
  match c with AddTable _ | AddInitialProperties _ | AddProperty _ _ => true | _ => false end.

Definition verify_valid_additive_changes (changes : list SchemaChange) (update_indexes : bool)
  : checked bool :=
  match verify_no_errors InvalidSchemaChangeException (λ c,
    match c with
    | AddTable _ | AddInitialProperties _ | AddProperty _ _ | RemoveProperty _ _
    | AddIndex _ _ | RemoveIndex _ _ => []
    | _ => explain c
    end) changes with
  | Returns _ =>
      Returns (existsb is_other_addition changes || (existsb is_index_change changes && update_indexes))
  | Throws t es => Throws t es
  end.

Definition verify_valid_external_changes (changes : list SchemaChange) : checked unit :=
  verify_no_errors InvalidExternalSchemaChangeException (λ c,
    match c with
    | AddTable _ | AddInitialProperties _ | AddProperty _ _ | AddIndex _ _ | RemoveIndex _ _ => []
    | RemoveTable o => [mkException "Class '%1' has been removed." [os_name o]]
    | _ => explain c
    end) changes.

Definition verify_compatible_for_immutable_and_readonly (changes : list SchemaChange) : checked unit :=
  verify_no_errors InvalidSchemaChangeException (λ c,
    match c with
    | AddTable _ | AddInitialProperties _ | RemoveProperty _ _ | AddIndex _ _ | RemoveIndex _ _ => []
    | _ => explain c
    end) changes.

(** ** Names of tables *)

Definition c_object_table_prefix : string := "class_".

Definition table_name_for_object_type (object_type : string) : string :=
  String.append c_object_table_prefix object_type.

(** [StringData::begins_with] and [substr]. *)
Definition object_type_for_table_name (table_name : string) : string :=
  if String.prefix c_object_table_prefix table_name
  then String.substring 6 (String.length table_name - 6) table_name else "".
