(* ===== verification/SchemaFacts.v ===== *)
(** * Correctness of schemas: lookup and duplicates

    The order of names, [Schema::find] on a sorted schema, the duplicates found
    by validation. *)

From Stdlib Require Import Ascii.
From S2P Require Import Prelude Property ChangeBuilder ObjectSchema.

(** ** The order of names *)

Lemma compare_refl s : String.compare s s = Eq.
Proof.
  induction s as [|c s IH]; [done|]. cbn [String.compare].
  unfold Ascii.compare. by rewrite N.compare_refl.
Qed.

Lemma compare_lt_trans a b c : String.compare a b = Lt -> String.compare b c = Lt -> String.compare a c = Lt.
Proof.
  revert b c. induction a as [|x a IH]; intros [|y b] [|z c]; cbn [String.compare]; try done.
  unfold Ascii.compare.
  destruct (N.compare_spec (N_of_ascii x) (N_of_ascii y)) as [E1|E1|E1],
    (N.compare_spec (N_of_ascii y) (N_of_ascii z)) as [E2|E2|E2]; try done; intros H1 H2;
    destruct (N.compare_spec (N_of_ascii x) (N_of_ascii z)) as [E3|E3|E3]; try done; try lia.
  by apply (IH b c).
Qed.

Lemma string_lt_iff a b : string_lt a b = true <-> String.compare a b = Lt.
Proof. unfold string_lt, String.ltb. by destruct (String.compare a b). Qed.

(** A strict total order on names. *)
Class NameOrder (lt : string -> string -> bool) : Prop := {
  lt_irrefl a : lt a a = false;
  lt_trans a b c : lt a b = true -> lt b c = true -> lt a c = true;
  lt_total a b : lt a b = false -> lt b a = false -> a = b;
}.
Arguments lt_irrefl lt {_} a.
Arguments lt_trans lt {_} a b c.
Arguments lt_total lt {_} a b.

#[export] Instance string_lt_order : NameOrder string_lt.
Proof.
  split.
  - intros a. unfold string_lt, String.ltb. by rewrite compare_refl.
  - intros a b c. rewrite !string_lt_iff. apply compare_lt_trans.
  - intros a b. unfold string_lt, String.ltb. rewrite (String.compare_antisym b a).
    destruct (String.compare a b) eqn:E; [|done|done]. intros _ _. by apply String.compare_eq_iff.
Qed.

(** *** [StringData] *)

Section string_data.
Context `{Platform}.

Lemma char_value_inj c d : char_value c = char_value d -> c = d.
Proof.
  unfold char_value. pose proof (nat_ascii_bounded c). pose proof (nat_ascii_bounded d).
  intros Heq. rewrite <-(ascii_nat_embedding c), <-(ascii_nat_embedding d). f_equal.
  destruct char_is_signed; cbn [andb] in Heq; repeat case_bool_decide; lia.
Qed.

#[export] Instance string_data_lt_order : NameOrder string_data_lt.
Proof.
  split.
  - induction a as [|c a IH]; [done|]. cbn [string_data_lt]. by rewrite bool_decide_false by lia.
  - induction a as [|x a IH]; intros [|y b] [|z c]; cbn [string_data_lt]; try done.
    repeat case_bool_decide; try done; try lia. apply IH.
  - induction a as [|x a IH]; intros [|y b]; cbn [string_data_lt]; try done.
    repeat case_bool_decide; try done; try lia. intros Hab Hba.
    by rewrite (IH b Hab Hba), (char_value_inj x y) by lia.
Qed.

(** The two orders agree on bytes below 128, and on all of them where [char] is
    unsigned. *)
Fixpoint plain_name (a : string) : Prop :=
  match a with
  | EmptyString => True
  | String c a => (char_is_signed = true -> nat_of_ascii c < 128) /\ plain_name a
  end.

Lemma plain_char_value c : (char_is_signed = true -> nat_of_ascii c < 128) ->
  char_value c = Z.of_nat (nat_of_ascii c).
Proof.
  unfold char_value. destruct char_is_signed; [|done]. intros Hc. specialize (Hc eq_refl).
  by rewrite bool_decide_false by lia.
Qed.

Lemma plain_orders_agree a : forall b, plain_name a -> plain_name b -> string_data_lt a b = string_lt a b.
Proof.
  unfold string_lt, String.ltb. induction a as [|c a IH]; intros [|d b]; cbn [plain_name]; try done.
  intros [Hc Ha] [Hd Hb]. cbn [string_data_lt String.compare]. rewrite !plain_char_value by done.
  unfold Ascii.compare, nat_of_ascii.
  destruct (N.compare_spec (N_of_ascii c) (N_of_ascii d)) as [E|E|E]; repeat case_bool_decide; try done; try lia.
  by apply IH.
Qed.
End string_data.

(** ** Sorted names *)

Section names.
Context (lt : string -> string -> bool) {Hlt : NameOrder lt}.

Definition sorted_names (l : list string) : Prop := StronglySorted (λ a b, lt b a = false) l.

Lemma lt_asym a b : lt a b = true -> lt b a = false.
Proof using Hlt.
  intros Hab. destruct (lt b a) eqn:Hba; [|done]. by rewrite <-(lt_irrefl lt a), (lt_trans lt a b a).
Qed.

(** Not after is transitive. *)
Lemma le_trans a b c : lt b a = false -> lt c b = false -> lt c a = false.
Proof using Hlt.
  intros Hba Hcb. destruct (lt c a) eqn:Hca; [|done].
  destruct (lt a b) eqn:Hab.
  - by rewrite (lt_trans lt c a b) in Hcb.
  - rewrite (lt_total lt a b Hab Hba) in Hca. congruence.
Qed.

Lemma sort_names_sorted `{StdOrders} l : sorted_names (std_sort lt l).
Proof using Hlt. apply std_sort_sorted; [exact lt_asym|]. intros x y z. apply le_trans. Qed.

Lemma sorted_not_in x y l : sorted_names (x :: y :: l) -> x <> y -> x ∉ y :: l.
Proof using Hlt.
  intros Hs Hne Hin. apply StronglySorted_inv in Hs as [Hs Hx].
  apply elem_of_cons in Hin as [?|Hin]; [done|].
  apply StronglySorted_inv in Hs as [_ Hy]. rewrite Forall_forall in Hx, Hy.
  apply Hne, (lt_total lt); [by apply Hy|]. apply Hx. left.
Qed.

Lemma duplicates_spec l : sorted_names l -> duplicates l = [] <-> NoDup l.
Proof using Hlt.
  revert l. enough (forall n l, length l < n -> sorted_names l -> duplicates l = [] <-> NoDup l) as Hn.
  { intros l. apply (Hn (S (length l))). lia. }
  induction n as [|n IH]; intros l Hlen Hs; [lia|].
  destruct l as [|x [|y l]]; cbn [duplicates].
  - split; [constructor|]. intros _. reflexivity.
  - split; [intros _; apply NoDup_singleton|]. intros _. reflexivity.
  - case_bool_decide as Heq.
    + split; [done|]. subst y. rewrite NoDup_cons. intros [Hx _]. destruct Hx. left.
    + rewrite (IH (y :: l)); [|simpl in *; lia|by apply StronglySorted_inv in Hs as [? _]].
      rewrite (NoDup_cons x). pose proof (sorted_not_in x y l Hs Heq). tauto.
Qed.
End names.

Definition sorted_schema (s : Schema) : Prop := sorted_names string_lt (os_name <$> s).

Lemma StronglySorted_fmap {A B} (f : A -> B) (R : B -> B -> Prop) (l : list A) :
  StronglySorted (λ x y, R (f x) (f y)) l -> StronglySorted R (f <$> l).
Proof. induction 1 as [|x l _ IH Hall]; cbn [fmap list_fmap]; constructor; [done|by apply Forall_fmap]. Qed.

Lemma make_schema_sorted `{StdOrders} types : sorted_schema (make_schema types).
Proof.
  unfold sorted_schema, sorted_names, make_schema. apply StronglySorted_fmap.
  apply (std_sort_sorted (λ lft rgt, string_lt (os_name lft) (os_name rgt))).
  - intros x y. apply (lt_asym string_lt).
  - intros x y z. apply (le_trans string_lt).
Qed.

(** *** [Schema::find] *)

Section find.
Context `{Platform}.

(** What is found has the name, whatever the order of the schema. *)
Lemma find_type_sound (s : Schema) n o : find_type n s = Some o -> o ∈ s /\ os_name o = n.
Proof.
  unfold find_type. destruct (s !! _) as [o'|] eqn:Hk; [|done].
  case_bool_decide as Hn; [done|]. intros [= <-]. split; [by eapply list_elem_of_lookup_2|done].
Qed.

(** The search misses no type when the order of [StringData] is that of the
    schema. *)
Lemma find_type_complete (s : Schema) n : sorted_schema s -> plain_name n ->
  Forall (λ o, plain_name (os_name o)) s -> find_type n s = None -> forall o, o ∈ s -> os_name o <> n.
Proof.
  intros Hs Hn Hall. set (f := λ lft : ObjectSchema, string_data_lt (os_name lft) n).
  assert (forall i x, s !! i = Some x -> f x = string_lt (os_name x) n) as Hf.
  { intros i x Hx. apply plain_orders_agree; [|done]. rewrite Forall_forall in Hall.
    apply Hall. by eapply list_elem_of_lookup_2. }
  assert (forall i j x y, i < j -> s !! i = Some x -> s !! j = Some y ->
    string_lt (os_name y) (os_name x) = false) as Hsort.
  { intros i j x y Hij Hx Hy. unfold sorted_schema, sorted_names in Hs.
    apply (StronglySorted_app_1_elem_of (λ a b, string_lt b a = false) (take j (os_name <$> s)) (drop j (os_name <$> s))).
    - by rewrite take_drop.
    - apply list_elem_of_lookup_2 with i. rewrite lookup_take_lt, list_lookup_fmap, Hx by done. done.
    - apply list_elem_of_lookup_2 with 0. rewrite lookup_drop, Nat.add_0_r, list_lookup_fmap, Hy. done. }
  destruct (boundary_exists f s) as [k Hk].
  { intros i j x y Hij Hx Hy. rewrite (Hf _ _ Hx), (Hf _ _ Hy). intros Hy'.
    destruct (string_lt (os_name x) n) eqn:Hx'; [done|].
    by rewrite (le_trans string_lt n (os_name x) (os_name y) Hx' (Hsort i j x y Hij Hx Hy)) in Hy'. }
  unfold find_type. fold f. rewrite (lower_bound_spec f s k Hk). destruct Hk as [Hle Hk].
  intros Hnone o Ho Heq. apply list_elem_of_lookup in Ho as [i Hi].
  assert (~ i < k) as Hik.
  { intros Hik. pose proof (Hk i o Hi) as Hfo. rewrite (Hf _ _ Hi), Heq, (lt_irrefl string_lt n) in Hfo.
    by rewrite bool_decide_true in Hfo. }
  destruct (s !! k) as [x|] eqn:Hx; [|apply lookup_ge_None in Hx; apply lookup_lt_Some in Hi; lia].
  case_bool_decide as Hne; [|done]. apply Hne. pose proof (Hk k x Hx) as Hfx.
  rewrite (Hf _ _ Hx), bool_decide_false in Hfx by lia.
  destruct (decide (i = k)) as [->|]; [congruence|]. apply (lt_total string_lt); [done|].
  rewrite <-Heq. apply (Hsort k i x o); (done || lia).
Qed.
End find.

(** ** Duplicates *)

Lemma duplicate_types_spec (s : Schema) : sorted_schema s -> duplicate_types s = [] <-> NoDup (os_name <$> s).
Proof.
  induction s as [|x s IH]; intros Hs; cbn [duplicate_types]; [split; [constructor|done]|].
  destruct s as [|y s]; [split; [intros _; apply NoDup_singleton|done]|].
  cbn [fmap list_fmap] in *. pose proof Hs as [Hs' _]%StronglySorted_inv. case_bool_decide as Heq.
  - split; [done|]. rewrite Heq, NoDup_cons. intros [Hx _]. destruct Hx. left.
  - cbn [app]. rewrite (IH Hs'). rewrite (NoDup_cons (os_name x)).
    pose proof (sorted_not_in string_lt _ _ _ Hs Heq). tauto.
Qed.

Lemma set_intersection_spec `{Platform} l1 : forall l2 x,
  sorted_names string_data_lt l1 -> sorted_names string_data_lt l2 ->
  x ∈ set_intersection l1 l2 <-> x ∈ l1 /\ x ∈ l2.
Proof.
  induction l1 as [|a l1 IH1]; intros l2 x H1 H2.
  { destruct l2; cbn; split; [by intros ?%elem_of_nil|by intros [?%elem_of_nil _]| |];
      [by intros ?%elem_of_nil|by intros [?%elem_of_nil _]]. }
  induction l2 as [|b l2 IH2]; [cbn; split; [by intros ?%elem_of_nil|by intros [_ ?%elem_of_nil]]|].
  pose proof (StronglySorted_inv H1) as [H1' Ha]. pose proof (StronglySorted_inv H2) as [H2' Hb].
  rewrite Forall_forall in Ha, Hb. cbn [set_intersection].
  destruct (string_data_lt a b) eqn:Hab; [|destruct (string_data_lt b a) eqn:Hba].
  - rewrite (IH1 (b :: l2)) by done. rewrite (elem_of_cons l1). split; [tauto|]. intros [[->|?] Hin]; [|done].
    exfalso. apply elem_of_cons in Hin as [->|Hin]; [by rewrite (lt_irrefl string_data_lt) in Hab|].
    specialize (Hb _ Hin). congruence.
  - change (x ∈ set_intersection (a :: l1) l2 <-> x ∈ a :: l1 /\ x ∈ b :: l2). rewrite IH2 by done.
    rewrite (elem_of_cons l2). split; [tauto|]. intros [Hin [->|?]]; [|done].
    exfalso. apply elem_of_cons in Hin as [->|Hin]; [by rewrite (lt_irrefl string_data_lt) in Hba|].
    specialize (Ha _ Hin). congruence.
  - pose proof (lt_total string_data_lt a b Hab Hba) as <-. rewrite !elem_of_cons, (IH1 l2) by done.
    split; [tauto|]. intros [[->|?] [?|?]]; tauto.
Qed.
