(* ===== verification/CompareFacts.v ===== *)
(** * Correctness of the comparison and the checks of schemas

    Which changes [Schema::compare] reports, in which order removals come, which
    lists of changes each check of the object store accepts, and the names of
    tables. *)

From Stdlib Require Import Ascii.
From S2P Require Import Prelude Property ChangeBuilder ObjectSchema SchemaFacts SchemaChanges.

(** ** [zip_matching] *)

Abbreviation object_pair := (option ObjectSchema * option ObjectSchema)%type.

(** The calls [zip_matching] makes. *)
Fixpoint zip_pairs (a : Schema) : Schema -> list object_pair :=
  fix inner (b : Schema) :=
    match a, b with
    | x :: a', y :: b' =>
        match String.compare (os_name x) (os_name y) with
        | Eq => (Some x, Some y) :: zip_pairs a' b'
        | Lt => (Some x, None) :: zip_pairs a' b
        | Gt => (None, Some y) :: inner b'
        end
    | _, _ => ((λ x, (Some x, None)) <$> a) ++ ((λ y, (None, Some y)) <$> b)
    end.

Lemma zip_matching_pairs {St} (f : option ObjectSchema -> option ObjectSchema -> St -> St) a :
  forall b st, zip_matching f a b st = foldl (λ st p, f p.1 p.2 st) st (zip_pairs a b).
Proof.
  assert (forall l st, foldl (λ st x, f (Some x) None st) st l
    = foldl (λ st p, f p.1 p.2 st) st ((λ x, (Some x, None)) <$> l)) as Hl.
  { induction l as [|x l IH]; intros st; [done|]. cbn [foldl fmap list_fmap]. by rewrite IH. }
  assert (forall l st, foldl (λ st y, f None (Some y) st) st l
    = foldl (λ st p, f p.1 p.2 st) st ((λ y, (None, Some y)) <$> l)) as Hr.
  { induction l as [|x l IH]; intros st; [done|]. cbn [foldl fmap list_fmap]. by rewrite IH. }
  induction a as [|x a IHa].
  - intros [|y b] st; cbn [zip_matching zip_pairs]; by rewrite foldl_app, Hr.
  - induction b as [|y b IHb]; intros st; [cbn [zip_matching zip_pairs]; by rewrite foldl_app, Hl, Hr|].
    cbn [zip_matching zip_pairs]. destruct (String.compare (os_name x) (os_name y)); cbn [foldl fst snd].
    + by rewrite IHa.
    + by rewrite IHa.
    + by rewrite <-IHb.
Qed.

(** What the calls are on two sorted schemas without duplicates. *)
Definition matching (a b : Schema) (p : object_pair) : Prop :=
  match p with
  | (Some x, Some y) => x ∈ a /\ y ∈ b /\ os_name x = os_name y
  | (Some x, None) => x ∈ a /\ forall y, y ∈ b -> os_name x <> os_name y
  | (None, Some y) => y ∈ b /\ forall x, x ∈ a -> os_name x <> os_name y
  | (None, None) => False
  end.

(** Strictly sorted by name. *)
Definition strict_schema (s : Schema) : Prop :=
  StronglySorted (λ a b, String.compare (os_name a) (os_name b) = Lt) s.

Lemma strict_sorted s : strict_schema s <-> sorted_schema s /\ NoDup (os_name <$> s).
Proof.
  unfold strict_schema, sorted_schema, sorted_names. induction s as [|x s IH]; cbn [fmap list_fmap].
  { split; [split; constructor|constructor]. }
  rewrite NoDup_cons. split.
  - intros [Hs Hx]%StronglySorted_inv. apply IH in Hs as [Hs Hn]. split_and!; [constructor| |done]; try done.
    + apply Forall_fmap. eapply Forall_impl; [exact Hx|]. intros y Hy. cbn.
      apply (lt_asym string_lt). by apply string_lt_iff.
    + intros (y & Heq & Hy)%list_elem_of_fmap. rewrite Forall_forall in Hx. specialize (Hx y Hy).
      by rewrite Heq, compare_refl in Hx.
  - intros [[Hs Hx]%StronglySorted_inv [Hnx Hn]]. constructor; [by apply IH|].
    apply Forall_fmap in Hx. rewrite Forall_forall in *. intros y Hy. specialize (Hx y Hy). cbn in Hx.
    apply string_lt_iff. destruct (string_lt (os_name x) (os_name y)) eqn:E; [done|].
    destruct Hnx. rewrite (lt_total string_lt _ _ E Hx). by apply list_elem_of_fmap_2.
Qed.

Lemma compare_gt_lt a b : String.compare a b = Gt <-> String.compare b a = Lt.
Proof. rewrite (String.compare_antisym a b). by destruct (String.compare b a). Qed.

Lemma compare_lt_ne a b : String.compare a b = Lt -> a <> b.
Proof. intros Hc ->. by rewrite compare_refl in Hc. Qed.

Lemma zip_pairs_nil_r a p : p ∈ zip_pairs a [] <-> matching a [] p.
Proof.
  assert (zip_pairs a [] = ((λ x, (Some x, None)) <$> a) ++ []) as -> by by destruct a.
  rewrite app_nil_r, list_elem_of_fmap. destruct p as [[x|] [y|]]; cbn [matching].
  - split; [by intros (? & ? & _)|]. intros (_ & Hy & _). by apply elem_of_nil in Hy.
  - split; [|intros [? _]; by exists x]. intros (? & [= ->] & ?). split; [done|]. by intros ? ?%elem_of_nil.
  - split; [by intros (? & ? & _)|]. intros (Hy & _). by apply elem_of_nil in Hy.
  - split; [by intros (? & ? & _)|done].
Qed.

Lemma zip_pairs_nil_l b p : p ∈ zip_pairs [] b <-> matching [] b p.
Proof.
  assert (zip_pairs [] b = (λ y, (None, Some y)) <$> b) as -> by by destruct b.
  rewrite list_elem_of_fmap. destruct p as [[x|] [y|]]; cbn [matching].
  - split; [by intros (? & ? & _)|]. intros (Hx & _). by apply elem_of_nil in Hx.
  - split; [by intros (? & ? & _)|]. intros (Hx & _). by apply elem_of_nil in Hx.
  - split; [|intros [? _]; by exists y]. intros (? & [= ->] & ?). split; [done|]. by intros ? ?%elem_of_nil.
  - split; [by intros (? & ? & _)|done].
Qed.

(** Names that come before all those of a schema are not in it. *)
Lemma strict_before x y (s : Schema) : strict_schema (y :: s) ->
  String.compare (os_name x) (os_name y) = Lt -> forall z, z ∈ y :: s -> os_name x <> os_name z.
Proof.
  intros [_ Hs]%StronglySorted_inv Hlt z [->|Hz]%elem_of_cons; [by apply compare_lt_ne|].
  apply compare_lt_ne. rewrite Forall_forall in Hs. eapply compare_lt_trans; [exact Hlt|by apply Hs].
Qed.

Lemma strict_rest x (s : Schema) z : strict_schema (x :: s) -> z ∈ s -> os_name x <> os_name z.
Proof. intros [_ Hs]%StronglySorted_inv Hz. rewrite Forall_forall in Hs. by apply compare_lt_ne, Hs. Qed.

Lemma zip_pairs_spec a : forall b, strict_schema a -> strict_schema b ->
  forall p, p ∈ zip_pairs a b <-> matching a b p.
Proof.
  induction a as [|x a IHa]; [intros; apply zip_pairs_nil_l|].
  induction b as [|y b IHb]; [intros; apply zip_pairs_nil_r|]. intros Ha Hb p.
  pose proof (StronglySorted_inv Ha) as [Ha' _]. pose proof (StronglySorted_inv Hb) as [Hb' _].
  pose proof (λ z, strict_rest x a z Ha) as Hxa. pose proof (λ z, strict_rest y b z Hb) as Hyb.
  cbn [zip_pairs]. destruct (String.compare (os_name x) (os_name y)) eqn:E; rewrite elem_of_cons.
  - apply String.compare_eq_iff in E. rewrite (IHa b) by done. destruct p as [[x'|] [y'|]]; cbn [matching];
      rewrite ?elem_of_cons; try setoid_rewrite elem_of_cons.
    + split; [intros [[= -> ->]|(? & ? & ?)]; tauto|]. intros ([->|?] & [->|?] & Hn); [by left| | |by right].
      * destruct (Hyb y'); [done|congruence].
      * destruct (Hxa x'); [done|congruence].
    + split.
      * intros [|[? Hn]]; [done|]. split; [by right|]. intros y' [->|?]; [|by apply Hn].
        rewrite <-E. intros Heq. by apply (Hxa x').
      * intros [[->|?] Hn]; [destruct (Hn y); [by left|done]|right]. split; [done|]. intros; apply Hn. by right.
    + split.
      * intros [|[? Hn]]; [done|]. split; [by right|]. intros x' [->|?]; [|by apply Hn].
        rewrite E. by apply Hyb.
      * intros [[->|?] Hn]; [destruct (Hn x); [by left|done]|right]. split; [done|]. intros; apply Hn. by right.
    + split; [by intros [|]|done].
  - pose proof (strict_before x y b Hb E) as Hnx. rewrite (IHa (y :: b)) by done.
    destruct p as [[x'|] [y'|]]; cbn [matching]; rewrite ?(elem_of_cons a).
    + split; [intros [|(? & ? & ?)]; [done|tauto]|]. intros ([->|?] & Hy & Hn); [by destruct (Hnx y')|by right].
    + split.
      * intros [[= ->]|[? ?]]; [split; [by left|done]|split; [by right|done]].
      * intros [[->|?] ?]; [by left|by right].
    + split.
      * intros [|[? Hn]]; [done|]. split; [done|]. intros x' [->|?]%elem_of_cons; [by apply Hnx|by apply Hn].
      * intros [? Hn]. right. split; [done|]. intros; apply Hn. by right.
    + split; [by intros [|]|done].
  - apply compare_gt_lt in E. pose proof (strict_before y x a Ha E) as Hny.
    change (p = (None, Some y) \/ p ∈ zip_pairs (x :: a) b <-> matching (x :: a) (y :: b) p). rewrite IHb by done.
    destruct p as [[x'|] [y'|]]; cbn [matching]; rewrite ?(elem_of_cons b).
    + split; [intros [|(? & ? & ?)]; [done|tauto]|].
      intros (Hx & [->|?] & Hn); [by destruct (Hny x' Hx)|by right].
    + split.
      * intros [|[? Hn]]; [done|]. split; [done|]. intros y' [->|?]%elem_of_cons; [|by apply Hn].
        intros Heq. by apply (Hny x').
      * intros [? Hn]. right. split; [done|]. intros; apply Hn. by right.
    + split.
      * intros [[= ->]|[? ?]]; [split; [by left|]|split; [by right|done]].
        intros x' Hx' Heq. by apply (Hny x').
      * intros [[->|?] ?]; [by left|by right].
    + split; [by intros [|]|done].
Qed.

(** ** The order of changes *)

(** Removals last, the columns with the highest index first. *)
Definition removals_last (cs : list SchemaChange) : Prop :=
  exists others removals, cs = others ++ removals
    /\ Forall (λ c, is_not_remove_property c = true) others
    /\ Forall (λ c, is_not_remove_property c = false) removals
    /\ StronglySorted (λ c d, (get_removed_column d <= get_removed_column c)%Z) removals.

Section compare.
Context `{StdOrders, StdPartition}.

Lemma sorted_weaken {A} (R R' : A -> A -> Prop) (l : list A) :
  (forall x y, R x y -> R' x y) -> StronglySorted R l -> StronglySorted R' l.
Proof.
  intros HR. induction 1 as [|x l _ IH Hall]; constructor; [done|].
  eapply Forall_impl; [exact Hall|]. intros y. apply HR.
Qed.

Lemma order_changes_perm cs : order_changes cs ≡ₚ cs.
Proof.
  unfold order_changes. pose proof (std_partition_left is_not_remove_property cs) as Hl.
  pose proof (std_partition_right is_not_remove_property cs) as Hr.
  destruct (std_partition is_not_remove_property cs) as [others removals]. cbn [fst snd] in *.
  rewrite std_sort_perm, Hl, Hr. clear. induction cs as [|c cs IH]; [done|].
  destruct (is_not_remove_property c) eqn:E.
  - rewrite filter_cons_True, filter_cons_False by congruence. cbn [app]. by rewrite IH.
  - rewrite filter_cons_False, filter_cons_True by congruence. rewrite <-Permutation_middle. by rewrite IH.
Qed.

Lemma order_changes_removals cs : removals_last (order_changes cs).
Proof.
  unfold order_changes, removals_last. pose proof (std_partition_left is_not_remove_property cs) as Hl.
  pose proof (std_partition_right is_not_remove_property cs) as Hr.
  destruct (std_partition is_not_remove_property cs) as [others removals]. cbn [fst snd] in *.
  eexists others, _. split_and!; [done| | |].
  - rewrite Hl. apply Forall_forall. by intros c [? _]%list_elem_of_filter.
  - rewrite std_sort_perm, Hr. apply Forall_forall. by intros c [? _]%list_elem_of_filter.
  - apply (sorted_weaken
      (λ c d, bool_decide (get_removed_column c < get_removed_column d)%Z = false)); [|apply
      (std_sort_sorted (λ a b, bool_decide (get_removed_column b < get_removed_column a)%Z))].
    + intros c d Hcd%bool_decide_eq_false. lia.
    + intros c d Hc%bool_decide_eq_true. apply bool_decide_eq_false. lia.
    + intros c d e Hc%bool_decide_eq_false Hd%bool_decide_eq_false. apply bool_decide_eq_false. lia.
Qed.

(** What may follow the removal [c] of a property: the initial properties of a
    new table, and removals of lower columns. *)
Definition after_removal (c d : SchemaChange) : Prop :=
  match d with
  | AddInitialProperties _ => True
  | _ => is_not_remove_property d = false /\ (get_removed_column d <= get_removed_column c)%Z
  end.

Definition columns_stay_valid (cs : list SchemaChange) : Prop :=
  forall l1 c l2, cs = l1 ++ c :: l2 -> is_not_remove_property c = false -> Forall (after_removal c) l2.

Lemma columns_stay_valid_cons c cs : columns_stay_valid cs ->
  (is_not_remove_property c = false -> Forall (after_removal c) cs) -> columns_stay_valid (c :: cs).
Proof.
  intros Hcs Hc [|d l1] e l2 Heq He; injection Heq as -> ->; [by apply Hc|by apply (Hcs l1 e l2)].
Qed.

Lemma removals_last_valid cs : removals_last cs -> columns_stay_valid cs.
Proof.
  intros (others & removals & -> & Ho & Hr & Hs). induction Ho as [|c others Hc _ IH].
  - induction Hs as [|c removals _ IH Hall]; [by intros [|] ? ? ?|].
    apply Forall_cons in Hr as [Hc Hr]. apply columns_stay_valid_cons; [by apply IH|]. intros _.
    apply Forall_forall. intros d Hd. rewrite Forall_forall in Hr, Hall.
    specialize (Hr d Hd). specialize (Hall d Hd). unfold after_removal. by destruct d.
  - apply columns_stay_valid_cons; [done|]. rewrite Hc. done.
Qed.

Lemma columns_stay_valid_initial cs o : columns_stay_valid cs ->
  columns_stay_valid (cs ++ [AddInitialProperties o]).
Proof.
  intros Hcs l1 c l2 Heq Hc. destruct l2 as [|x l2 _] using rev_ind; [constructor|].
  rewrite app_comm_cons, app_assoc in Heq. apply app_inj_tail in Heq as [Heq <-].
  apply Forall_app. split; [by apply (Hcs l1 c l2)|]. by constructor.
Qed.

Lemma compare_columns_valid l : forall acc, columns_stay_valid acc ->
  columns_stay_valid (foldl (λ st p, compare_columns p.1 p.2 st) acc l).
Proof.
  induction l as [|[[x|] [y|]] l IH]; intros acc Hacc; cbn [foldl]; [done|apply IH..]; cbn [compare_columns fst snd].
  - apply removals_last_valid, order_changes_removals.
  - by apply columns_stay_valid_initial.
  - done.
  - done.
Qed.

Lemma compare_tables_not_removal incl a b : Forall (λ c, is_not_remove_property c = true) (compare_tables incl a b []).
Proof. destruct a, b; cbn; [constructor|by constructor|destruct incl; by constructor|constructor]. Qed.

(** ** What is reported *)

Lemma compare_tables_fold incl l : forall acc, foldl (λ st p, compare_tables incl p.1 p.2 st) acc l
  = acc ++ (l ≫= λ p, compare_tables incl p.1 p.2 []).
Proof.
  induction l as [|[[x|] [y|]] l IH]; intros acc; cbn [foldl mbind list_bind fst snd compare_tables app];
    rewrite ?app_nil_r, ?IH; try done; [by rewrite <-app_assoc|].
  destruct incl; [by rewrite <-app_assoc|done].
Qed.

(** The changes of a pair of objects. *)
Definition column_changes_of (p : object_pair) : list SchemaChange :=
  match p with
  | (Some target, Some existing) => compare_object existing target
  | (Some target, None) => [AddInitialProperties target]
  | (None, _) => []
  end.

Lemma compare_columns_fold c l : forall acc, c ∈ foldl (λ st p, compare_columns p.1 p.2 st) acc l
  <-> c ∈ acc \/ exists p, p ∈ l /\ c ∈ column_changes_of p.
Proof.
  induction l as [|p l IH]; intros acc; cbn [foldl].
  { split; [by left|]. intros [?|(? & Hp & _)]; [done|]. by apply elem_of_nil in Hp. }
  rewrite IH. setoid_rewrite elem_of_cons.
  assert (c ∈ compare_columns p.1 p.2 acc <-> c ∈ acc \/ c ∈ column_changes_of p) as ->.
  { destruct p as [[x|] [y|]]; cbn [compare_columns column_changes_of fst snd].
    - unfold compare_into. by rewrite order_changes_perm, elem_of_app.
    - by rewrite elem_of_app.
    - by rewrite elem_of_nil; tauto.
    - by rewrite elem_of_nil; tauto. }
  naive_solver.
Qed.

(** The changes between two schemas. *)
Inductive reported (existing target : Schema) (include_table_removals : bool) : SchemaChange -> Prop :=
  | reported_add o : o ∈ target -> (forall e, e ∈ existing -> os_name o <> os_name e) ->
      reported existing target include_table_removals (AddTable o)
  | reported_initial o : o ∈ target -> (forall e, e ∈ existing -> os_name o <> os_name e) ->
      reported existing target include_table_removals (AddInitialProperties o)
  | reported_remove e : include_table_removals = true -> e ∈ existing ->
      (forall o, o ∈ target -> os_name o <> os_name e) ->
      reported existing target include_table_removals (RemoveTable e)
  | reported_object o e c : o ∈ target -> e ∈ existing -> os_name o = os_name e -> c ∈ compare_object e o ->
      reported existing target include_table_removals c.

Lemma compare_spec existing target incl : strict_schema existing -> strict_schema target ->
  forall c, c ∈ compare existing target incl <-> reported existing target incl c.
Proof.
  intros He Ht c. unfold compare. rewrite !zip_matching_pairs, compare_tables_fold, compare_columns_fold.
  cbn [app]. rewrite list_elem_of_bind. setoid_rewrite (zip_pairs_spec target existing Ht He). split.
  - intros [([[o|] [e|]] & Hc & Hp)|([[o|] [e|]] & Hp & Hc)];
      cbn [compare_tables column_changes_of matching fst snd app] in *; try by apply elem_of_nil in Hc.
    + apply list_elem_of_singleton in Hc as ->. destruct Hp. by constructor.
    + destruct incl; [|by apply elem_of_nil in Hc]. apply list_elem_of_singleton in Hc as ->.
      destruct Hp. by constructor.
    + destruct Hp as (? & ? & ?). by eapply reported_object.
    + apply list_elem_of_singleton in Hc as ->. destruct Hp. by constructor.
  - intros Hr. destruct Hr as [o Ho Hn|o Ho Hn|e Hincl He' Hn|o e c Ho He' Hn Hc].
    + left. exists (Some o, None). cbn. split; [by left|done].
    + right. exists (Some o, None). cbn. split; [done|by left].
    + left. exists (None, Some e). cbn. rewrite Hincl. split; [by left|done].
    + right. by exists (Some o, Some e).
Qed.

Lemma compare_valid existing target incl : columns_stay_valid (compare existing target incl).
Proof.
  unfold compare. rewrite !zip_matching_pairs, compare_tables_fold. cbn [app]. apply compare_columns_valid.
  induction (zip_pairs target existing) as [|p l IH]; [by intros [|] ? ? ?|]. cbn [mbind list_bind].
  induction (compare_tables_not_removal incl p.1 p.2) as [|c cs Hc _ IHc]; [done|].
  cbn [app]. apply columns_stay_valid_cons; [done|]. rewrite Hc. done.
Qed.

(** ** A schema and itself *)

(** The properties of an object have distinct names and its primary key is
    indexed, as in an object schema read from a file. *)
Definition plain_object (o : ObjectSchema) : Prop :=
  NoDup (name <$> persisted_properties o ++ computed_properties o)
  /\ forall p, p ∈ persisted_properties o -> requires_index p = true -> is_indexed p = true.

Lemma bind_nil {A B} (f : A -> list B) (l : list A) : (forall x, x ∈ l -> f x = []) -> l ≫= f = [].
Proof.
  induction l as [|x l IH]; intros Hf; [done|]. cbn [mbind list_bind].
  rewrite (Hf x) by (apply list_elem_of_here). cbn [app]. apply IH. intros y Hy. apply Hf. by right.
Qed.

Lemma filter_none {A} (P : A -> Prop) `{!forall x, Decision (P x)} (l : list A) :
  (forall x, x ∈ l -> ~ P x) -> filter P l = [].
Proof.
  induction l as [|x l IH]; intros Hn; [done|]. rewrite filter_cons_False by (apply Hn, list_elem_of_here).
  apply IH. intros y Hy. apply Hn. by right.
Qed.

Lemma list_find_name (l1 l2 : list Property) p : NoDup (name <$> l1 ++ p :: l2) ->
  list_find (λ x, bool_decide (name x = name p) = true) (l1 ++ p :: l2) = Some (length l1, p).
Proof.
  intros Hnd. apply list_find_app_Some. right. split_and!; [lia| |].
  - apply list_find_None. apply Forall_forall. intros x Hx Heq%bool_decide_eq_true.
    rewrite fmap_app in Hnd. apply NoDup_app in Hnd as (_ & Hd & _).
    apply (Hd (name x)); [by apply list_elem_of_fmap_2|]. rewrite Heq. left.
  - rewrite Nat.sub_diag. cbn [list_find]. rewrite decide_True by by apply bool_decide_eq_true. done.
Qed.

Lemma property_for_name_self o p : NoDup (name <$> persisted_properties o ++ computed_properties o) ->
  p ∈ persisted_properties o -> property_for_name (name p) o = Some p.
Proof.
  intros Hnd Hp. unfold property_for_name, find_property.
  apply list_elem_of_split in Hp as (l1 & l2 & Heq). rewrite Heq in *.
  rewrite <-app_assoc in Hnd. cbn [app] in Hnd. rewrite fmap_app in Hnd.
  rewrite list_find_name; [done|]. rewrite fmap_app. cbn [fmap list_fmap] in *. rewrite fmap_app in Hnd.
  rewrite app_comm_cons, app_assoc in Hnd. by apply NoDup_app in Hnd as [? _].
Qed.

Lemma persisted_not_computed o p : NoDup (name <$> persisted_properties o ++ computed_properties o) ->
  p ∈ persisted_properties o -> property_is_computed p o = false.
Proof.
  intros Hnd Hp. unfold property_is_computed. apply not_true_is_false. intros (q & Hq & Heq)%existsb_exists.
  unfold property_eq in Heq. rewrite !andb_true_iff, !bool_decide_eq_true in Heq.
  destruct Heq as (((_ & Hname) & _) & _). rewrite fmap_app in Hnd. apply NoDup_app in Hnd as (_ & Hd & _).
  apply (Hd (name p)); [by apply list_elem_of_fmap_2|]. rewrite <-Hname.
  apply list_elem_of_fmap_2. by apply list_elem_of_In.
Qed.

Lemma compare_object_self o : plain_object o -> compare_object o o = [].
Proof.
  intros Ho. pose proof Ho as [Hnd _]. unfold compare_object. rewrite bool_decide_false by (intros Hn; by apply Hn).
  assert (persisted_properties o ≫= compare_property o o = []) as ->.
  { apply bind_nil. intros p Hp. unfold compare_property.
    rewrite property_for_name_self, persisted_not_computed by done.
    unfold type_eq. rewrite (bool_decide_true (base_type (type p) = base_type (type p))) by done.
    rewrite !bool_decide_false by (intros Hn; by apply Hn).
    cbn [negb orb app]. destruct (requires_index p) eqn:E; [|done].
    destruct Ho as [_ Hi]. by rewrite (Hi p Hp E). }
  cbn [app]. assert (filter (λ q, property_for_name (name q) o = None) (persisted_properties o) = []) as ->; [|done].
  apply filter_none. intros q Hq. by rewrite property_for_name_self.
Qed.

Lemma compare_self s incl : strict_schema s -> Forall plain_object s -> compare s s incl = [].
Proof.
  intros Hs Hp. destruct (compare s s incl) as [|c cs] eqn:E; [done|exfalso].
  assert (c ∈ compare s s incl) as Hc by (rewrite E; left). apply compare_spec in Hc; [|done..].
  destruct Hc as [o Ho Hn|o Ho Hn|e _ He Hn|o e c Ho He Hn Hc]; [by apply (Hn o)|by apply (Hn o)|by apply (Hn e)|].
  apply strict_sorted in Hs as [_ Hnd].
  assert (o = e) as ->.
  { apply list_elem_of_lookup in Ho as [i Hi], He as [j Hj].
    assert (i = j) as ->; [|congruence]. apply (NoDup_lookup _ i j (os_name o) Hnd); rewrite list_lookup_fmap.
    - by rewrite Hi.
    - by rewrite Hj, Hn. }
  rewrite Forall_forall in Hp. rewrite compare_object_self in Hc by by apply Hp. by apply elem_of_nil in Hc.
Qed.
End compare.

(** ** The checks *)

(** A check accepts exactly the changes that give no error. *)
Lemma verify_no_errors_spec t (errors : SchemaChange -> list ObjectSchemaValidationException) changes :
  verify_no_errors t errors changes = Returns tt <-> Forall (λ c, errors c = []) changes.
Proof.
  unfold verify_no_errors. induction changes as [|c cs IH]; [by split|]. cbn [mbind list_bind].
  rewrite Forall_cons. destruct (errors c) as [|e es]; cbn [app]; [by rewrite IH; tauto|].
  split; [done|]. by intros [].
Qed.

(** What is thrown is never empty. *)
Lemma verify_no_errors_throws t (errors : SchemaChange -> list ObjectSchemaValidationException) changes t' es :
  verify_no_errors t errors changes = Throws t' es -> t' = t /\ es <> [] /\ es = changes ≫= errors.
Proof.
  unfold verify_no_errors. destruct (changes ≫= errors); [done|]. intros [= <- <-]. done.
Qed.

(** Changes that only describe new tables, and index changes. *)
Definition is_new_table (c : SchemaChange) : bool :=
  match c with AddTable _ | AddInitialProperties _ => true | _ => false end.
Definition is_table_removal (c : SchemaChange) : bool := match c with RemoveTable _ => true | _ => false end.
Definition is_property_removal (c : SchemaChange) : bool :=
  match c with RemoveProperty _ _ => true | _ => false end.
Definition is_property_addition (c : SchemaChange) : bool :=
  match c with AddProperty _ _ => true | _ => false end.

Lemma explain_primary_key o p : explain (ChangePrimaryKey o p) <> [].
Proof. destruct p as [p|]; cbn; [by case_bool_decide|done]. Qed.

Ltac accept_each := intros Hall; eapply Forall_impl; [exact Hall|]; intros c Hc;
  destruct c; try reflexivity; try discriminate Hc; exfalso; exact (explain_primary_key _ _ Hc).
Ltac accepts := split; accept_each.

Lemma no_changes_accepts changes : verify_no_changes_required changes = Returns tt <->
  Forall (λ c, is_table_removal c || match c with AddInitialProperties _ => true | _ => false end = true) changes.
Proof. unfold verify_no_changes_required. rewrite verify_no_errors_spec. accepts. Qed.

Lemma no_migration_accepts changes : verify_no_migration_required changes = Returns tt <->
  Forall (λ c, change_needs_migration c = false) changes.
Proof. unfold verify_no_migration_required. rewrite verify_no_errors_spec. accepts. Qed.

Lemma external_accepts changes : verify_valid_external_changes changes = Returns tt <->
  Forall (λ c, is_new_table c || is_property_addition c || is_index_change c = true) changes.
Proof. unfold verify_valid_external_changes. rewrite verify_no_errors_spec. accepts. Qed.

Lemma readonly_accepts changes : verify_compatible_for_immutable_and_readonly changes = Returns tt <->
  Forall (λ c, is_new_table c || is_table_removal c || is_property_removal c || is_index_change c = true) changes.
Proof. unfold verify_compatible_for_immutable_and_readonly. rewrite verify_no_errors_spec. accepts. Qed.

Lemma additive_accepts changes update_indexes :
  (exists r, verify_valid_additive_changes changes update_indexes = Returns r) <->
  Forall (λ c, is_new_table c || is_table_removal c || is_property_addition c || is_property_removal c
               || is_index_change c = true) changes.
Proof.
  unfold verify_valid_additive_changes.
  match goal with |- context [verify_no_errors ?t ?e ?cs] =>
    pose proof (verify_no_errors_spec t e cs) as Hs; destruct (verify_no_errors t e cs) as [[]|t' es] end.
  - split; [intros _|by eexists]. destruct Hs as [Hs _]. specialize (Hs eq_refl). revert Hs. accept_each.
  - split; [by intros [? ?]|]. intros Hall. destruct Hs as [_ Hs].
    enough (Throws t' es = Returns tt) by done. apply Hs. revert Hall. accept_each.
Qed.

Lemma needs_migration_spec changes :
  needs_migration changes = false <-> Forall (λ c, change_needs_migration c = false) changes.
Proof.
  unfold needs_migration. induction changes as [|c cs IH]; [split; [constructor|reflexivity]|]. cbn [existsb].
  rewrite Forall_cons, orb_false_iff. tauto.
Qed.

(** ** Names of tables *)

Lemma prefix_append a b : String.prefix a (String.append a b) = true.
Proof.
  induction a as [|c a IH]; [by destruct b|].
  change (String.append (String c a) b) with (String c (String.append a b)). cbn [String.prefix].
  by destruct (ascii_dec c c).
Qed.

Lemma substring_all s : String.substring 0 (String.length s) s = s.
Proof. induction s as [|c s IH]; [done|]. cbn [String.length String.substring]. by rewrite IH. Qed.

Lemma table_name_roundtrip s : object_type_for_table_name (table_name_for_object_type s) = s.
Proof.
  unfold object_type_for_table_name. unfold table_name_for_object_type at 1. rewrite prefix_append.
  transitivity (String.substring 0 (String.length s - 0) s); [reflexivity|].
  rewrite Nat.sub_0_r. apply substring_all.
Qed.

(** ** What validation guarantees

    The facts that hold of a schema for which [Schema::validate] finds no
    error. *)

Definition object_properties (o : ObjectSchema) : list Property :=
  persisted_properties o ++ computed_properties o.

(** The guarantees for one property of the object [o]. *)
Record valid_property (s : Schema) (o : ObjectSchema) (p : Property) : Prop := {
  (** links and linking objects name a type of the schema *)
  vp_target : type_eq (type p) Object || type_eq (type p) LinkingObjects = true ->
    exists target, target ∈ s /\ os_name target = object_type p;
  (** the origin of linking objects is a link back to the object *)
  vp_origin : type_eq (type p) LinkingObjects = true ->
    exists target origin, target ∈ s /\ os_name target = object_type p
      /\ property_for_name (link_origin_property_name p) target = Some origin
      /\ type_eq (type origin) Object = true /\ object_type origin = os_name o;
  (** other properties name no type *)
  vp_plain : type_eq (type p) Object || type_eq (type p) LinkingObjects = false ->
    object_type p = "" /\ link_origin_property_name p = "";
  (** primary keys are integers or strings *)
  vp_primary : is_primary p = true -> type_eq (type p) Int || type_eq (type p) String_ = true;
  vp_indexed : is_indexed p = true -> type_is_indexable p = true;
  vp_nullable : is_nullable (type p) = true -> type_is_nullable p = true;
  (** a link can be null *)
  vp_link : type_eq (type p) Object = true -> is_array (type p) = false -> is_nullable (type p) = true;
}.

(** At most one property satisfies [q]. *)
Definition at_most_one {A} (q : A -> bool) (l : list A) : Prop :=
  forall l1 x l2, l = l1 ++ x :: l2 -> q x = true -> Forall (λ y, q y = false) l2.

Lemma at_most_one_cons {A} (q : A -> bool) x l : at_most_one q l ->
  (q x = true -> Forall (λ y, q y = false) l) -> at_most_one q (x :: l).
Proof.
  intros Hl Hx [|y l1] z l2 Heq Hz; injection Heq as -> ->; [by apply Hx|]. by apply (Hl l1 z l2).
Qed.

Lemma if_nil {A} (c : bool) (x : A) : (if c then [x] else []) = [] -> c = false.
Proof. by destruct c. Qed.

Lemma mapM_vec_Forall2 {A B} (f : A -> option B) l l' : mapM_vec f l = Some l' ->
  Forall2 (λ x y, f x = Some y) l l'.
Proof.
  revert l'. induction l as [|x l IH]; intros l' Hl; cbn [mapM_vec] in Hl; [injection Hl as <-; constructor|].
  destruct (f x) as [y|] eqn:E; [|done]. revert Hl. mrun.
  destruct (mapM_vec f l) as [ys|]; [|done]. mrun. intros [= <-]. constructor; [done|by apply IH].
Qed.

Section validate.
Context `{Platform}.

Lemma link_valid (s : Schema) o p : sorted_schema s -> validate_links s (os_name o) p = [] ->
  type_eq (type p) Object || type_eq (type p) LinkingObjects = true ->
  exists target, target ∈ s /\ os_name target = object_type p
    /\ (type_eq (type p) LinkingObjects = true -> exists origin,
         property_for_name (link_origin_property_name p) target = Some origin
         /\ type_eq (type origin) Object = true /\ object_type origin = os_name o).
Proof.
  intros Hs Hl Ht. unfold validate_links in Hl. pose proof (find_type_sound s (object_type p)) as Hfind.
  rewrite <-negb_orb, Ht in Hl. cbn [negb] in Hl.
  destruct (find_type (object_type p) s) as [target|]; [|done]. destruct (Hfind target eq_refl) as [Hin Hname].
  exists target. split_and!; [done..|]. intros Hlo. rewrite Hlo in Hl. cbn [negb] in Hl.
  destruct (property_for_name _ target) as [origin|]; [|done]. exists origin. split; [done|].
  destruct (type_eq (type origin) Object); [|done]. cbn [negb] in Hl. split; [done|].
  case_bool_decide as Hd; [done|]. done.
Qed.

Lemma property_valid (s : Schema) o p primary : sorted_schema s ->
  validate_flags (os_name o) p primary = [] -> validate_links s (os_name o) p = [] -> valid_property s o p.
Proof.
  intros Hs Hf Hl. unfold validate_flags in Hf.
  apply app_eq_nil in Hf as [_ Hf]. apply app_eq_nil in Hf as [Hnull Hf].
  apply app_eq_nil in Hf as [Hprim Hf]. apply app_eq_nil in Hf as [Hidx Horg]. apply if_nil in Hidx.
  split.
  - intros Ht. destruct (link_valid s o p Hs Hl Ht) as (t & ? & ? & _). by exists t.
  - intros Ht. destruct (link_valid s o p Hs Hl) as (t & ? & ? & Ho); [by rewrite Ht, orb_true_r|].
    destruct (Ho Ht) as (origin & ? & ? & ?). by exists t, origin.
  - intros Ht. split.
    + unfold validate_links in Hl. rewrite <-negb_orb, Ht in Hl. cbn [negb] in Hl. by case_bool_decide.
    + apply orb_false_iff in Ht as [_ Ht]. rewrite Ht in Horg. cbn [negb andb] in Horg.
      case_bool_decide as Hd; [done|]. done.
  - intros Hp. rewrite Hp in Hprim. apply app_eq_nil in Hprim as [Hprim%if_nil _].
    by apply negb_false_iff; rewrite negb_orb.
  - intros Hi. rewrite Hi in Hidx. by apply negb_false_iff.
  - intros Hn. rewrite Hn in Hnull. by destruct (type_is_nullable p).
  - intros Ho Ha. rewrite Ho, Ha in Hnull. by destruct (is_nullable (type p)).
Qed.

Lemma validate_properties_spec (s : Schema) o props : forall primary, sorted_schema s ->
  (validate_properties s (os_name o) props primary).1 = [] ->
  Forall (valid_property s o) props /\ at_most_one is_primary props
  /\ (primary <> None -> Forall (λ p, is_primary p = false) props).
Proof.
  induction props as [|p props IH]; intros primary Hs Hv; cbn [validate_properties] in Hv.
  { split_and!; [constructor|by intros [] ?|constructor]. }
  unfold validate_property in Hv.
  destruct (validate_properties s (os_name o) props _) as [es pr] eqn:E. cbn [fst] in Hv.
  apply app_eq_nil in Hv as [Hp ->]. apply app_eq_nil in Hp as [Hf Hl].
  destruct (IH (if is_primary p then Some p else primary) Hs) as (Hall & Hone & Hnone); [by rewrite E|].
  split_and!.
  - constructor; [by eapply property_valid|done].
  - apply at_most_one_cons; [done|]. intros Hprim. apply Hnone. by rewrite Hprim.
  - intros Hne. assert (is_primary p = false) as Hprim.
    { destruct (is_primary p) eqn:Hprim; [|done]. unfold validate_flags in Hf. rewrite Hprim in Hf.
      apply app_eq_nil in Hf as [_ Hf]. apply app_eq_nil in Hf as [_ Hf]. apply app_eq_nil in Hf as [Hf _].
      apply app_eq_nil in Hf as [_ Hf]. by destruct primary. }
    constructor; [done|]. apply Hnone. by rewrite Hprim.
Qed.

Context `{StdOrders}.

Record valid_object (s : Schema) (o : ObjectSchema) : Prop := {
  vo_names : NoDup (name <$> object_properties o);
  vo_aliases : NoDup (filter (λ n, n ≠ "") (public_name <$> object_properties o));
  vo_conflicts : forall n, n <> "" -> n ∈ (public_name <$> object_properties o) ->
    n ∉ (name <$> object_properties o);
  vo_properties : Forall (valid_property s o) (object_properties o);
  vo_primary : at_most_one is_primary (object_properties o);
}.

Lemma validate_object_spec (s : Schema) o : sorted_schema s -> validate_object s o = Some [] -> valid_object s o.
Proof.
  intros Hs Hv. unfold validate_object in Hv.
  set (props := persisted_properties o ++ computed_properties o) in *.
  destruct (mapM_vec _ (set_intersection _ _)) as [conflicts|] eqn:Ec; [|done].
  cbn [mbind option_bind] in Hv. cbv beta iota zeta in Hv.
  destruct (validate_properties s (os_name o) props None) as [errors primary] eqn:Ep.
  injection Hv as Hv. apply app_eq_nil in Hv as [Ha Hv]. apply app_eq_nil in Hv as [Hn Hv].
  apply app_eq_nil in Hv as [Hc Hv]. apply app_eq_nil in Hv as [He _].
  apply fmap_nil_inv in Ha, Hn. rewrite (duplicates_spec string_data_lt) in Ha, Hn by apply (sort_names_sorted string_data_lt).
  rewrite std_sort_perm in Ha, Hn.
  destruct (validate_properties_spec s o props None Hs) as (Hall & Hone & _); [by rewrite Ep|].
  split; try done. intros n Hne Hp Hin. subst conflicts.
  apply mapM_vec_Forall2, Forall2_nil_inv_r in Ec.
  assert (n ∈ set_intersection (std_sort string_data_lt (filter (λ n, n ≠ "") (public_name <$> props)))
    (std_sort string_data_lt (name <$> props))) as Hi.
  { rewrite set_intersection_spec by apply (sort_names_sorted string_data_lt).
    rewrite !std_sort_perm, list_elem_of_filter. done. }
  rewrite Ec in Hi. by apply elem_of_nil in Hi.
Qed.

Lemma validate_spec (s : Schema) : sorted_schema s -> validate s = Some [] ->
  NoDup (os_name <$> s) /\ Forall (valid_object s) s.
Proof.
  intros Hs Hv. unfold validate in Hv. destruct (mapM_vec (validate_object s) s) as [es|] eqn:E; [|done].
  cbn [mbind option_bind] in Hv. injection Hv as Hv. apply app_eq_nil in Hv as [Hd Hc].
  split; [by apply duplicate_types_spec|]. apply mapM_vec_Forall2 in E. apply Forall_forall. intros o Ho.
  apply list_elem_of_lookup in Ho as [i Hi]. destruct (Forall2_lookup_l _ _ _ _ _ E Hi) as (e & He & Hve).
  assert (e = []) as ->; [|by apply validate_object_spec].
  apply list_elem_of_lookup_2 in He. apply list_elem_of_split in He as (l1 & l2 & ->).
  rewrite concat_app in Hc. apply app_eq_nil in Hc as [_ Hc]. cbn [concat] in Hc. by apply app_eq_nil in Hc as [? _].
Qed.
End validate.
