(* ===== verification/ObjectStore.v ===== *)
(** * The object store

    object_store.cpp: the tables of object types, schema versions, primary keys
    and the changes of a schema, over the library of Core.v. *)

From S2P Require Import Prelude Property ChangeBuilder ObjectSchema SchemaChanges Core.

#[local] Open Scope string_scope.
#[local] Open Scope list_scope.

(** ** Results

    A function of the object store ends, throws, or is stuck: a failed
    assertion, a null pointer, or a call of the library that does not succeed.
    A transaction that throws is rolled back by the caller: the group is part of
    the result of a function that ends. *)

Inductive store_exception :=
  | SchemaMismatch (errors : list ObjectSchemaValidationException)
  | DuplicatePrimaryKeyValue (object_type property : string)
  | logic_error (message : string) (arguments : list string).

Inductive outcome (A : Type) :=
  | Done (a : A)
  | Raised (e : store_exception)
  | Stuck.
Arguments Done {A} a.
Arguments Raised {A} e.
Arguments Stuck {A}.

#[export] Instance outcome_ret : MRet outcome := λ A a, Done a.
#[export] Instance outcome_bind : MBind outcome := λ A B f o,
  match o with Done a => f a | Raised e => Raised e | Stuck => Stuck end.

Definition run {A} (o : option A) : outcome A := match o with Some a => Done a | None => Stuck end.

(** [for] over a sequence with a state. *)
Fixpoint for_each {A St} (f : A -> St -> outcome St) (l : list A) (s : St) : outcome St :=
  match l with
  | [] => Done s
  | x :: l => s ← f x s; for_each f l s
  end.

(** [REALM_ENABLE_SYNC] *)
Class Features := { enable_sync : bool }.

(** ** Names *)

Definition c_metadataTableName : string := "metadata".
Definition c_versionColumnName : string := "version".
Definition c_versionColumnIndex : nat := 0.
Definition c_primaryKeyTableName : string := "pk".
Definition c_primaryKeyObjectClassColumnName : string := "pk_table".
Definition c_primaryKeyObjectClassColumnIndex : nat := 0.
Definition c_primaryKeyPropertyNameColumnName : string := "pk_property".
Definition c_primaryKeyPropertyNameColumnIndex : nat := 1.
Definition c_zeroRowIndex : nat := 0.
Definition ArrayColumnName : string := "!ARRAY_VALUE".

(** [std::numeric_limits<uint64_t>::max()] *)
Definition NotVersioned : Z := 2 ^ 64 - 1.

(** The conversions between [uint64_t] and [int64_t]. *)
Definition to_int64 (z : Z) : Z := if bool_decide (z < 2 ^ 63)%Z then z else (z - 2 ^ 64)%Z.
Definition of_int64 (z : Z) : Z := u64 z.

Definition string_of (v : Value) : string := match v with VString s => s | _ => "" end.
Definition int_of (v : Value) : Z := match v with VInt n => n | _ => 0%Z end.

Section store.
Context `{Build, Core, Features}.

(** What the accessors read. *)
Definition column_count (t : Table) : nat := length (columns t).
Definition row_count (t : Table) : nat := length (rows t).
Definition get_column_index (t : Table) (n : string) : Z :=
  match find_index (λ c, bool_decide (column_name c = n)) (columns t) with Some i => Z.of_nat i | None => npos end.

(** A column or row given as a [size_t]. *)
Definition index (z : Z) : nat := Z.to_nat z.

(** ** Metadata *)

(** The column and the row of a new table of metadata. *)
Definition create_version_column (g : group) : outcome group :=
  metadata_table ← run (table g c_metadataTableName);
  if bool_decide (column_count metadata_table = 0) then
    g ← run (insert_plain_column c_metadataTableName c_versionColumnIndex type_Int c_versionColumnName false g);
    '(_, g) ← run (add_empty_row c_metadataTableName g);
    run (set_value type_Int c_metadataTableName c_versionColumnIndex c_zeroRowIndex
           (VInt (to_int64 NotVersioned)) g)
  else Done g.

(** The columns of a new table of primary keys. *)
Definition create_primary_key_columns (g : group) : outcome group :=
  pk_table ← run (table g c_primaryKeyTableName);
  if bool_decide (column_count pk_table = 0) then
    g ← run (insert_plain_column c_primaryKeyTableName c_primaryKeyObjectClassColumnIndex type_String
               c_primaryKeyObjectClassColumnName false g);
    run (insert_plain_column c_primaryKeyTableName c_primaryKeyPropertyNameColumnIndex type_String
           c_primaryKeyPropertyNameColumnName false g)
  else Done g.

Definition create_metadata_tables (g : group) : outcome group :=
  g ← run (get_or_add_table c_primaryKeyTableName g);
  g ← run (get_or_add_table c_metadataTableName g);
  g ← create_version_column g;
  g ← create_primary_key_columns g;
  run (add_search_index c_primaryKeyTableName c_primaryKeyObjectClassColumnIndex g).

Definition set_version (g : group) (version : Z) : outcome group :=
  run (set_value type_Int c_metadataTableName c_versionColumnIndex c_zeroRowIndex (VInt (to_int64 version)) g).

Definition set_schema_version (g : group) (version : Z) : outcome group :=
  g ← create_metadata_tables g; set_version g version.

Definition get_schema_version (g : group) : outcome Z :=
  match table g c_metadataTableName with
  | None => Done NotVersioned
  | Some t =>
      if bool_decide (column_count t = 0) then Done NotVersioned
      else v ← run (get_value type_Int c_metadataTableName c_versionColumnIndex c_zeroRowIndex g);
           Done (of_int64 (int_of v))
  end.

(** ** Primary keys *)

Definition get_primary_key_for_object (g : group) (object_type : string) : outcome string :=
  match table g c_primaryKeyTableName with
  | None => Done ""
  | Some _ =>
      row ← run (find_first_string c_primaryKeyTableName c_primaryKeyObjectClassColumnIndex object_type g);
      match row with
      | None => Done ""
      | Some row =>
          v ← run (get_value type_String c_primaryKeyTableName c_primaryKeyPropertyNameColumnIndex row g);
          Done (string_of v)
      end
  end.

Definition set_primary_key_for_object (g : group) (object_type primary_key : string) : outcome group :=
  row ← run (find_first_string c_primaryKeyTableName c_primaryKeyObjectClassColumnIndex object_type g);
  if enable_sync && has_object_ids g then
    if bool_decide (primary_key = "") then _ ← run (REALM_ASSERT (bool_decide (row = None))); Done g
    else if negb REALM_ASSERTIONS_ENABLED then Done g
    else
      row ← run row;
      v ← run (get_value type_String c_primaryKeyTableName c_primaryKeyPropertyNameColumnIndex row g);
      _ ← run (REALM_ASSERT (bool_decide (string_of v = primary_key))); Done g
  else
    match row with
    | None =>
        if bool_decide (primary_key = "") then Done g
        else
          '(row, g) ← run (add_empty_row c_primaryKeyTableName g);
          g ← run (set_string_unique c_primaryKeyTableName c_primaryKeyObjectClassColumnIndex row object_type g);
          run (set_value type_String c_primaryKeyTableName c_primaryKeyPropertyNameColumnIndex row
                 (VString primary_key) g)
    | Some row =>
        if bool_decide (primary_key = "") then run (move_last_over c_primaryKeyTableName row g)
        else run (set_value type_String c_primaryKeyTableName c_primaryKeyPropertyNameColumnIndex row
                    (VString primary_key) g)
    end.

(** ** Columns *)

Definition to_core_type (ty : PropertyType) : option DataType :=
  let b := base_type ty in
  if bool_decide (b = Int) then Some type_Int
  else if bool_decide (b = Bool) then Some type_Bool
  else if bool_decide (b = Float) then Some type_Float
  else if bool_decide (b = Double) then Some type_Double
  else if bool_decide (b = String_) then Some type_String
  else if bool_decide (b = Date) then Some type_Timestamp
  else if bool_decide (b = Data) then Some type_Binary
  else None.

(** [insert_column] on the table [t]. *)
Definition insert_column (t : string) (property : Property) (col_ndx : nat) (g : group) : outcome group :=
  if type_eq (type property) LinkingObjects then Stuck
  else if type_eq (type property) Object then
    let target_name := table_name_for_object_type (object_type property) in
    _ ← run (table g target_name);
    run (insert_column_link t col_ndx (if is_array (type property) then type_LinkList else type_Link)
           (name property) target_name g)
  else if is_array (type property) then
    g ← run (insert_plain_column t col_ndx type_Table (name property) false g);
    ty ← run (to_core_type (base_type (type property)));
    run (add_subcolumn t col_ndx ty ArrayColumnName (is_nullable (type property)) g)
  else
    ty ← run (to_core_type (type property));
    g ← run (insert_plain_column t col_ndx ty (name property) (is_nullable (type property)) g);
    if requires_index property then run (add_search_index t col_ndx g) else Done g.

Definition add_column (t : string) (property : Property) (g : group) : outcome group :=
  tbl ← run (table g t); insert_column t property (column_count tbl) g.

Definition replace_column (t : string) (old_property new_property : Property) (g : group) : outcome group :=
  g ← insert_column t new_property (index (table_column old_property)) g;
  run (remove_column t (index (table_column old_property +! 1)) g).

Definition create_table (object_schema : ObjectSchema) (g : group) : outcome group :=
  let n := table_name_for_object_type (os_name object_schema) in
  if enable_sync then
    match primary_key_property object_schema with
    | Some pk_property =>
        ty ← run (to_core_type (type pk_property));
        run (sync_create_table_with_primary_key n ty (name pk_property) (is_nullable (type pk_property)) g)
    | None => run (sync_create_table n g)
    end
  else
    g ← run (get_or_add_table n g);
    set_primary_key_for_object g (os_name object_schema) (primary_key object_schema).

Definition add_initial_columns (object_schema : ObjectSchema) (g : group) : outcome group :=
  let n := table_name_for_object_type (os_name object_schema) in
  for_each (λ prop g, if enable_sync && is_primary prop then Done g else add_column n prop g)
    (persisted_properties object_schema) g.

(** The getter and the setter for the type of a property; links, lists of links
    and values of any type are not copied. *)
Definition copied_type (ty : PropertyType) : option DataType := to_core_type ty.

Definition copy_property_values (prop : Property) (t : string) (g : group) : outcome group :=
  match copied_type (type prop) with
  | None => Done g
  | Some ty =>
      tbl ← run (table g t);
      for_each (λ i g,
          v ← run (get_value ty t (index (table_column prop +! 1)) i g);
          run (set_value ty t (index (table_column prop)) i v g))
        (seq 0 (row_count tbl)) g
  end.

Definition with_type (ty : PropertyType) (p : Property) : Property :=
  mkProperty (name p) (public_name p) ty (object_type p) (link_origin_property_name p)
    (is_primary p) (is_indexed p) (table_column p).

Definition make_property_optional (t : string) (property : Property) (g : group) : outcome group :=
  let property := with_type (type_or (type property) Nullable) property in
  g ← insert_column t property (index (table_column property)) g;
  g ← copy_property_values property t g;
  run (remove_column t (index (table_column property +! 1)) g).

Definition make_property_required (t : string) (property : Property) (g : group) : outcome group :=
  let property := with_type (type_and (type property) (type_not Nullable)) property in
  g ← insert_column t property (index (table_column property)) g;
  run (remove_column t (index (table_column property +! 1)) g).

Definition validate_primary_column (object_type primary_property : string) (g : group) : outcome unit :=
  let t := table_name_for_object_type object_type in
  tbl ← run (table g t);
  n ← run (distinct_size t (index (get_column_index tbl primary_property)) g);
  if bool_decide (n ≠ row_count tbl) then Raised (DuplicatePrimaryKeyValue object_type primary_property)
  else Done tt.

(** Of all the primary keys of the group. *)
Definition validate_primary_column_uniqueness (g : group) : outcome unit :=
  pk_table ← run (table g c_primaryKeyTableName);
  for_each (λ i _,
      o ← run (get_value type_String c_primaryKeyTableName c_primaryKeyObjectClassColumnIndex i g);
      p ← run (get_value type_String c_primaryKeyTableName c_primaryKeyPropertyNameColumnIndex i g);
      validate_primary_column (string_of o) (string_of p) g)
    (seq 0 (row_count pk_table)) tt.

(** ** The schema of a group *)

(** [ObjectSchema::from_core_type] for the types without subtables. *)
Definition from_plain_type (ty : DataType) (nullable : bool) : option PropertyType :=
  let optional := if nullable then Nullable else Required in
  match ty with
  | type_Int => Some (type_or Int optional)
  | type_Float => Some (type_or Float optional)
  | type_Double => Some (type_or Double optional)
  | type_Bool => Some (type_or Bool optional)
  | type_String => Some (type_or String_ optional)
  | type_Binary => Some (type_or Data optional)
  | type_Timestamp => Some (type_or Date optional)
  | type_Mixed => Some (type_or Any optional)
  | type_Link => Some (type_or Object Nullable)
  | type_LinkList => Some (type_or Object Array)
  | type_Table | type_OldDateTime => None
  end.

(** [ObjectSchema::from_core_type] on a column of a table: a subtable has the
    type of its first column. *)
Definition from_core_type (c : Column) : option PropertyType :=
  match column_type c with
  | type_Table =>
      match subcolumns c with
      | (_, ty, nullable) :: _ => ty ← from_plain_type ty nullable; Some (type_or ty Array)
      | [] => None
      end
  | ty => from_plain_type ty (column_nullable c)
  end.

Definition is_array_column (c : Column) : bool :=
  match subcolumns c with [(n, _, _)] => bool_decide (n = ArrayColumnName) | _ => false end.

(** [property_for_column_index]: [Done None] for a column that is no
    property. *)
Definition property_for_column_index (c : Column) (column_index : nat) : outcome (option Property) :=
  if enable_sync && bool_decide (column_name c = object_id_column_name) then Done None
  else if bool_decide (column_type c = type_Table) && negb (is_array_column c) then Done None
  else
    ty ← run (from_core_type c);
    Done (Some (mkProperty (column_name c) "" ty
      (if type_eq ty Object then object_type_for_table_name (link_target c) else "")
      "" false (search_index c) (Z.of_nat column_index))).

(** The constructor [ObjectSchema(group, name, index)] *)
Definition object_schema_of_table (g : group) (n : string) (t : Table) : outcome ObjectSchema :=
  properties ← for_each (λ c ps,
      p ← property_for_column_index c.2 c.1;
      Done (match p with Some p => ps ++ [p] | None => ps end))
    (imap pair (columns t)) [];
  pk ← get_primary_key_for_object g n;
  Done (set_primary_key_property (mkObjectSchema n properties [] pk)).

Context `{StdOrders}.

Definition schema_from_group (g : group) : outcome Schema :=
  schema ← for_each (λ t schema,
      let object_type := object_type_for_table_name t in
      if bool_decide (object_type = "") then Done schema
      else
        tbl ← run (table g t);
        o ← object_schema_of_table g object_type tbl;
        Done (schema ++ [o]))
    (table_names g) [];
  Done (make_schema schema).

Definition set_object_columns (g : group) (o : ObjectSchema) : ObjectSchema :=
  match table g (table_name_for_object_type (os_name o)) with
  | None => o
  | Some t =>
      mkObjectSchema (os_name o)
        ((λ p, with_table_column (get_column_index t (name p)) p) <$> persisted_properties o)
        (computed_properties o) (primary_key o)
  end.

Definition set_schema_columns (g : group) (s : Schema) : Schema := set_object_columns g <$> s.

Definition delete_data_for_object (object_type : string) (g : group) : outcome group :=
  let t := table_name_for_object_type object_type in
  match table g t with
  | None => Done g
  | Some _ => g ← run (remove_table t g); set_primary_key_for_object g object_type ""
  end.

Definition is_empty (g : group) : bool :=
  forallb (λ t,
    let object_type := object_type_for_table_name t in
    bool_decide (object_type = "") || String.prefix "__" object_type
    || match table g t with Some tbl => bool_decide (row_count tbl = 0) | None => true end)
    (table_names g).

End store.
