(* ===== verification/SchemaUpdate.v ===== *)
(** * Applying a schema to a group

    The functions of object_store.cpp that apply a list of changes, with or
    without a migration, [apply_schema_changes] over them, and
    [rename_property]. *)

From S2P Require Import Prelude Property ChangeBuilder ObjectSchema SchemaChanges Core ObjectStore.

#[local] Open Scope string_scope.
#[local] Open Scope list_scope.

(** [SchemaMode] (include/shared_realm.hpp). *)
Inductive SchemaMode := Automatic | Immutable | ReadOnlyAlternative | ResetFile | Additive | Manual.

#[export] Instance SchemaMode_eq_dec : EqDecision SchemaMode.
Proof. solve_decision. Defined.

Section update.
Context `{Build, Core, Features, Platform, StdOrders, StdPartition}.

(** [TableHelper]: the table of an object type, which has to exist. *)
Definition table_of (o : ObjectSchema) (g : group) : outcome string :=
  let t := table_name_for_object_type (os_name o) in
  _ ← run (table g t); Done t.

Definition add_index (o : ObjectSchema) (p : Property) (g : group) : outcome group :=
  t ← table_of o g; run (add_search_index t (index (table_column p)) g).
Definition remove_index (o : ObjectSchema) (p : Property) (g : group) : outcome group :=
  t ← table_of o g; run (remove_search_index t (index (table_column p)) g).
Definition drop_property (o : ObjectSchema) (p : Property) (g : group) : outcome group :=
  t ← table_of o g; run (remove_column t (index (table_column p)) g).
Definition change_primary_key (o : ObjectSchema) (p : option Property) (g : group) : outcome group :=
  set_primary_key_for_object g (os_name o) (match p with Some p => name p | None => "" end).

(** ** Without a migration *)

(** The supported changes are applied, the errors of the other ones are
    collected. *)
Definition apply_non_migration_change (c : SchemaChange)
    (st : group * list ObjectSchemaValidationException) : outcome (group * list ObjectSchemaValidationException) :=
  let '(g, errors) := st in
  match c with
  | AddTable o => g ← create_table o g; Done (g, errors)
  | AddInitialProperties o => g ← add_initial_columns o g; Done (g, errors)
  | AddIndex o p => g ← add_index o p g; Done (g, errors)
  | RemoveIndex o p => g ← remove_index o p g; Done (g, errors)
  | _ => Done (g, errors ++ explain c)
  end.

Definition apply_non_migration_changes (changes : list SchemaChange) (g : group) : outcome group :=
  '(g, errors) ← for_each apply_non_migration_change changes (g, []);
  match errors with [] => Done g | _ => Raised (SchemaMismatch errors) end.

(** ** A new file *)

Definition create_initial_change (c : SchemaChange) (g : group) : outcome group :=
  match c with
  | AddTable o => create_table o g
  | RemoveTable _ => Done g
  | AddInitialProperties o => add_initial_columns o g
  | AddProperty o p => t ← table_of o g; add_column t p g
  | RemoveProperty o p => drop_property o p g
  | MakePropertyNullable o p => t ← table_of o g; make_property_optional t p g
  | MakePropertyRequired o p => t ← table_of o g; make_property_required t p g
  | ChangePrimaryKey o p => change_primary_key o p g
  | AddIndex o p => add_index o p g
  | RemoveIndex o p => remove_index o p g
  | ChangePropertyType o old_property new_property =>
      t ← table_of o g; replace_column t old_property new_property g
  end.

Definition create_initial_tables (changes : list SchemaChange) (g : group) : outcome group :=
  for_each create_initial_change changes g.

(** ** Additive changes *)

Definition apply_additive_change (update_indexes : bool) (c : SchemaChange) (g : group) : outcome group :=
  match c with
  | AddTable o => create_table o g
  | AddInitialProperties o => add_initial_columns o g
  | AddProperty o p => t ← table_of o g; add_column t p g
  | AddIndex o p => if update_indexes then add_index o p g else Done g
  | RemoveIndex o p => if update_indexes then remove_index o p g else Done g
  | RemoveTable _ | RemoveProperty _ _ | ChangePrimaryKey _ _ | ChangePropertyType _ _ _
  | MakePropertyNullable _ _ | MakePropertyRequired _ _ => Done g
  end.

Definition apply_additive_changes (changes : list SchemaChange) (update_indexes : bool) (g : group)
  : outcome group :=
  for_each (apply_additive_change update_indexes) changes g.

(** ** Migrations *)

Definition apply_pre_migration_change (c : SchemaChange) (g : group) : outcome group :=
  match c with
  | RemoveProperty _ _ => Done g
  | c => create_initial_change c g
  end.

Definition apply_pre_migration_changes (changes : list SchemaChange) (g : group) : outcome group :=
  for_each apply_pre_migration_change changes g.

Definition apply_post_migration_change (initial_schema : Schema) (did_reread_schema : bool)
    (c : SchemaChange) (g : group) : outcome group :=
  match c with
  | RemoveProperty o p =>
      _ ← (if bool_decide (initial_schema = []) then Done tt
           else
             initial ← run (find_type (os_name o) initial_schema);
             match property_for_name (name p) initial with
             | None => Raised (logic_error "Renamed property '%1.%2' does not exist." [os_name o; name p])
             | Some _ => Done tt
             end);
      drop_property o p g
  | ChangePrimaryKey o (Some p) => _ ← validate_primary_column (os_name o) (name p) g; Done g
  | AddTable o => create_table o g
  | AddInitialProperties o => if did_reread_schema then add_initial_columns o g else Done g
  | AddIndex o p => add_index o p g
  | RemoveIndex o p => remove_index o p g
  | ChangePrimaryKey _ None | RemoveTable _ | ChangePropertyType _ _ _ | MakePropertyNullable _ _
  | MakePropertyRequired _ _ | AddProperty _ _ => Done g
  end.

Definition apply_post_migration_changes (changes : list SchemaChange) (initial_schema : Schema)
    (did_reread_schema : bool) (g : group) : outcome group :=
  for_each (apply_post_migration_change initial_schema did_reread_schema) changes g.

(** ** Permissions *)

Definition ensure_private_role_exists_for_user (sync_user_id : string) (g : group) : outcome group :=
  let private_role_name := String.append "__User:" sync_user_id in
  let roles := table_name_for_object_type "__Role" in
  let users := table_name_for_object_type "__User" in
  tbl ← run (table g roles);
  private_role_ndx ← run (find_first_string roles (index (get_column_index tbl "name")) private_role_name g);
  match private_role_ndx with
  | Some _ => Done g
  | None =>
      g ← run (add_user_to_role sync_user_id private_role_name g);
      tbl ← run (table g roles);
      private_role_ndx ← run (find_first_string roles (index (get_column_index tbl "name")) private_role_name g);
      user_tbl ← run (table g users);
      user_ndx ← run (find_first_string users (index (get_column_index user_tbl "id")) sync_user_id g);
      let row o := default (Z.to_nat npos) o in
      run (set_link users (index (get_column_index user_tbl "role")) (row user_ndx) (row private_role_ndx) g)
  end.

Definition create_default_permissions (changes : list SchemaChange) (sync_user_id : string) (g : group)
  : outcome group :=
  if negb enable_sync then Done g
  else
    g ← run (initialize_schema g);
    g ← run (set_up_basic_permissions g);
    g ← run (add_user_to_role sync_user_id "everyone" g);
    g ← ensure_private_role_exists_for_user sync_user_id g;
    for_each (λ c g,
      match c with
      | AddTable o => run (set_class_permissions_for_role (os_name o) "everyone" g)
      | _ => Done g
      end) changes g.

(** ** [apply_schema_changes]

    The migration function reads and writes the group and, through the Realm,
    the target schema. *)

Definition migration := Schema * group -> outcome (Schema * group).

Definition apply_schema_changes (schema_version : Z) (target_schema : Schema) (target_schema_version : Z)
    (mode : SchemaMode) (changes : list SchemaChange) (sync_user_id : option string)
    (migration_function : option migration) (g : group) : outcome (Schema * group) :=
  g ← create_metadata_tables g;
  if bool_decide (mode = Additive) then
    let target_schema_is_newer :=
      bool_decide (schema_version < target_schema_version)%Z || bool_decide (schema_version = NotVersioned) in
    g ← apply_additive_changes changes true g;
    g ← (if target_schema_is_newer then set_version g target_schema_version else Done g);
    g ← match sync_user_id with
        | Some user => create_default_permissions changes user g
        | None => Done g
        end;
    Done (set_schema_columns g target_schema, g)
  else if bool_decide (schema_version = NotVersioned) then
    g ← create_initial_tables changes g;
    g ← set_version g target_schema_version;
    Done (set_schema_columns g target_schema, g)
  else if bool_decide (mode = Manual) then
    let target_schema := set_schema_columns g target_schema in
    '(target_schema, g) ← match migration_function with
      | Some f => f (target_schema, g)
      | None => Done (target_schema, g)
      end;
    existing ← schema_from_group g;
    _ ← match verify_no_changes_required (compare existing target_schema false) with
        | Returns _ => Done tt
        | Throws _ es => Raised (SchemaMismatch es)
        end;
    _ ← validate_primary_column_uniqueness g;
    let target_schema := set_schema_columns g target_schema in
    g ← set_version g target_schema_version;
    Done (target_schema, g)
  else if bool_decide (schema_version = target_schema_version) then
    g ← apply_non_migration_changes changes g;
    Done (set_schema_columns g target_schema, g)
  else
    old_schema ← schema_from_group g;
    g ← apply_pre_migration_changes changes g;
    '(target_schema, g) ← match migration_function with
      | Some f =>
          '(target_schema, g) ← f (set_schema_columns g target_schema, g);
          schema ← schema_from_group g;
          g ← apply_post_migration_changes (compare schema target_schema false) old_schema true g;
          _ ← validate_primary_column_uniqueness g;
          Done (target_schema, g)
      | None =>
          g ← apply_post_migration_changes changes [] false g;
          Done (target_schema, g)
      end;
    g ← set_version g target_schema_version;
    Done (set_schema_columns g target_schema, g).

(** ** [rename_property] *)

(** The type found by name, changed in place. *)
Definition update_type (n : string) (f : ObjectSchema -> ObjectSchema) (s : Schema) : Schema :=
  alter f (lower_bound (λ lft, string_data_lt (os_name lft) n) s) s.

(** The columns of the target object after [column_to_remove] is gone. *)
Definition shift_columns (column_to_remove old_column : Z) (o : ObjectSchema) : ObjectSchema :=
  mkObjectSchema (os_name o)
    ((λ p, if bool_decide (table_column p = column_to_remove) then with_table_column old_column p
           else if bool_decide (column_to_remove < table_column p)%Z then with_table_column (table_column p -! 1) p
           else p) <$> persisted_properties o)
    (computed_properties o) (primary_key o).

Definition rename_property (object_type old_name new_name : string) (st : Schema * group)
  : outcome (Schema * group) :=
  let '(target_schema, g) := st in
  let t := table_name_for_object_type object_type in
  match table g t with
  | None => Raised (logic_error "Cannot rename properties for type '%1' because it does not exist." [object_type])
  | Some tbl =>
      match find_type object_type target_schema with
      | None =>
          Raised (logic_error
            "Cannot rename properties for type '%1' because it has been removed from the Realm." [object_type])
      | Some target_object_schema =>
          if bool_decide (property_for_name old_name target_object_schema ≠ None) then
            Raised (logic_error "Cannot rename property '%1.%2' to '%3' because the source property still exists."
                      [object_type; old_name; new_name])
          else
            table_object_schema ← object_schema_of_table g object_type tbl;
            match property_for_name old_name table_object_schema with
            | None =>
                Raised (logic_error "Cannot rename property '%1.%2' because it does not exist."
                          [object_type; old_name])
            | Some old_property =>
                match property_for_name new_name table_object_schema with
                | None =>
                    g ← run (rename_column t (index (table_column old_property)) new_name g);
                    Done (target_schema, g)
                | Some new_property =>
                    if negb (type_eq (type old_property) (type new_property))
                       || bool_decide (Property.object_type old_property ≠ Property.object_type new_property) then
                      Raised (logic_error
                        "Cannot rename property '%1.%2' to '%3' because it would change from type '%4' to '%5'."
                        [object_type; old_name; new_name; default "" (type_string old_property);
                         default "" (type_string new_property)])
                    else if is_nullable (type old_property) && negb (is_nullable (type new_property)) then
                      Raised (logic_error
                        "Cannot rename property '%1.%2' to '%3' because it would change from optional to required."
                        [object_type; old_name; new_name])
                    else
                      let column_to_remove := table_column new_property in
                      g ← run (rename_column t (index (table_column old_property)) new_name g);
                      g ← run (remove_column t (index column_to_remove) g);
                      let target_schema := update_type object_type
                        (shift_columns column_to_remove (table_column old_property)) target_schema in
                      if is_nullable (type new_property) && negb (is_nullable (type old_property)) then
                        g ← make_property_optional t (with_table_column (table_column old_property) new_property) g;
                        Done (target_schema, g)
                      else Done (target_schema, g)
                end
            end
      end
  end.

End update.
