(* ===== verification/StoreFacts.v ===== *)
(** * Facts on the object store: results, groups, metadata

    The logic of [outcome], how the operations of a group frame each other, and
    the correctness of schema versions and primary keys. *)

From S2P Require Import Prelude Property ChangeBuilder ObjectSchema SchemaChanges Core ObjectStore.
From S2P Require Import CompareFacts.

#[local] Open Scope string_scope.
#[local] Open Scope list_scope.

(** ** Results *)

(** The computation ends and its result satisfies [Q]. *)
Definition ends {A} (o : outcome A) (Q : A -> Prop) : Prop := exists a, o = Done a /\ Q a.

Lemma ends_done {A} (a : A) (Q : A -> Prop) : Q a -> ends (Done a) Q.
Proof. by exists a. Qed.

Lemma ends_bind {A B} (o : outcome A) (f : A -> outcome B) (P : A -> Prop) (Q : B -> Prop) :
  ends o P -> (forall a, P a -> ends (f a) Q) -> ends (o ≫= f) Q.
Proof. intros (a & -> & Ha) Hf. by apply Hf. Qed.

Lemma ends_weaken {A} (o : outcome A) (P Q : A -> Prop) : ends o P -> (forall a, P a -> Q a) -> ends o Q.
Proof. intros (a & -> & Ha) HPQ. exists a. auto. Qed.

Lemma ends_run {A} (o : option A) a (Q : A -> Prop) : o = Some a -> Q a -> ends (run o) Q.
Proof. intros -> Ha. by exists a. Qed.

(** The invariant [I] is indexed by the elements already visited. *)
Lemma for_each_ends {A St} (f : A -> St -> outcome St) (I : list A -> St -> Prop) (l : list A) (s : St) :
  I [] s -> (forall before x after s, l = before ++ x :: after -> I before s -> ends (f x s) (I (before ++ [x]))) ->
  ends (for_each f l s) (I l).
Proof.
  intros Hs Hf. enough (forall after before s, l = before ++ after -> I before s -> ends (for_each f after s) (I l)) as Hgen.
  { by apply (Hgen l []). }
  induction after as [|x after IH]; intros before s' Hl Hb; cbn [for_each].
  - apply ends_done. rewrite app_nil_r in Hl. by subst.
  - eapply ends_bind; [by eapply Hf|]. intros s'' Hs''. apply (IH (before ++ [x])); [|done].
    by rewrite <-app_assoc.
Qed.

Lemma run_bind {A B} (o : option A) (f : A -> outcome B) a : o = Some a -> run o ≫= f = f a.
Proof. by intros ->. Qed.

(** Runs the next step of an [outcome] computation, known to be [run (Some _)]
    or [Done _]. *)
Ltac step H := rewrite (run_bind _ _ _ H).

Section store.
Context `{Build, Core, Features}.

Lemma updated_table g t tbl g' : updated g t tbl g' -> table g' t = Some tbl.
Proof. intros (_ & _ & Ht). by rewrite Ht, decide_True. Qed.
Lemma updated_other g t tbl g' t' : updated g t tbl g' -> t' <> t -> table g' t' = table g t'.
Proof. intros (_ & _ & Ht) ?. by rewrite Ht, decide_False. Qed.
Lemma updated_trans g t tbl g' tbl' g'' : updated g t tbl g' -> updated g' t tbl' g'' -> updated g t tbl' g''.
Proof.
  intros (Hn & Ho & Ht) (_ & Ho' & Ht'). split_and!; [done|congruence|]. intros t'.
  rewrite Ht', Ht. by case_decide.
Qed.
Lemma updated_named `{!CoreLaws} g t tbl g' t' : updated g t tbl g' -> t' ∈ table_names g' <-> t' ∈ table_names g.
Proof. intros (Hn & _ & Ht). rewrite <-!table_named, Ht. case_decide as Heq; [by subst|done]. Qed.

(** The rest of the group is as before. *)
Definition same_but (ts : list string) (g g' : group) : Prop :=
  has_object_ids g' = has_object_ids g /\ forall t, t ∉ ts -> table g' t = table g t.

Lemma updated_same_but g t tbl g' : updated g t tbl g' -> same_but [t] g g'.
Proof. intros (Hn & Ho & Ht). split; [done|]. intros t' Hne. rewrite Ht, decide_False; set_solver. Qed.

Lemma same_but_trans ts g g' g'' : same_but ts g g' -> same_but ts g' g'' -> same_but ts g g''.
Proof. intros [Ho Ht] [Ho' Ht']. split; [congruence|]. intros t Hn. rewrite Ht', Ht; done. Qed.

Lemma same_but_mono ts ts' g g' : same_but ts g g' -> ts ⊆ ts' -> same_but ts' g g'.
Proof. intros [? Ht] Hs. split; [done|]. intros t Hn. apply Ht. set_solver. Qed.

Context `{!CoreLaws}.

Lemma get_or_add_table_spec g t : String.length t <= max_name_length -> exists g',
  get_or_add_table t g = Some g' /\ same_but [t] g g' /\ (forall t', t' ∈ table_names g' <-> t' = t \/ t' ∈ table_names g)
  /\ table g' t = Some (default (mkTable [] []) (table g t)).
Proof.
  intros Hlen. destruct (decide (t ∈ table_names g)) as [Hin|Hin].
  - exists g. rewrite (get_or_add_table_present g t Hin). split_and!; [done|done| |].
    + intros t'. split; [auto|]. by intros [->|].
    + by apply table_named in Hin as [tbl ->].
  - destruct (get_or_add_table_absent g t Hin Hlen) as (g' & Hg & Ho & Ht). exists g'. split_and!; [done| | |].
    + split; [done|]. intros t' Hne. rewrite Ht, decide_False; set_solver.
    + intros t'. rewrite <-!table_named, Ht. case_decide; naive_solver.
    + rewrite Ht, decide_True by done. destruct (table g t) eqn:E; [|done].
      destruct Hin. apply table_named. by rewrite E.
Qed.

(** ** Metadata tables *)

(** The tables the store finds in a file are those it makes. *)
Definition metadata_made (tbl : Table) : Prop :=
  columns tbl <> [] /\ (forall c, columns tbl !! 0 = Some c -> column_type c = type_Int) /\ rows tbl <> [].

Definition pk_columns (tbl : Table) : Prop :=
  exists c0 c1, columns tbl = [c0; c1] /\ column_type c0 = type_String /\ column_type c1 = type_String.

(** The table of primary keys lists the entries, one per type. *)
Definition pk_entries (tbl : Table) (entries : list (string * string)) : Prop :=
  pk_columns tbl /\ rows tbl = (λ e, [VString e.1; VString e.2]) <$> entries /\ NoDup entries.*1.

(** The group holds the primary keys [m]. *)
Definition pk_represents (g : group) (m : gmap string string) : Prop :=
  exists tbl entries, table g c_primaryKeyTableName = Some tbl /\ pk_entries tbl entries
    /\ m = list_to_map entries.

Definition has_version (g : group) (version : Z) : Prop :=
  exists tbl n, table g c_metadataTableName = Some tbl /\ metadata_made tbl
    /\ cell tbl 0 0 = Some (VInt n) /\ of_int64 n = version.

Lemma int64_roundtrip v : is_u64 v -> of_int64 (to_int64 v) = v.
Proof.
  unfold is_u64, of_int64, to_int64. intros Hv. case_bool_decide; [by apply u64_small|].
  unfold u64. rewrite <-(Z.mod_add (v - 2 ^ 64) 1 (2 ^ 64)) by lia. rewrite Z.mod_small; lia.
Qed.

Lemma cell_with_cell tbl col row v c : columns tbl !! col = Some c -> row < length (rows tbl) ->
  Forall (λ r, length r = length (columns tbl)) (rows tbl) -> cell (with_cell col row v tbl) col row = Some v.
Proof.
  intros Hc Hrow Hall. unfold cell, with_cell. cbn [rows]. rewrite list_lookup_alter.
  rewrite decide_True by done.
  apply lookup_lt_is_Some in Hrow as [r Hr]. rewrite Hr. cbn.
  rewrite list_lookup_insert_eq; [done|]. rewrite Forall_forall in Hall.
  rewrite (Hall r) by by eapply list_elem_of_lookup_2. by eapply lookup_lt_Some.
Qed.

Lemma set_version_spec g tbl v : table g c_metadataTableName = Some tbl -> metadata_made tbl -> is_u64 v ->
  ends (set_version g v) (λ g', has_version g' v /\ exists tbl', updated g c_metadataTableName tbl' g').
Proof.
  intros Ht Hm Hv. pose proof Hm as (Hcols & Htype & Hrows). destruct (columns tbl) as [|c cs] eqn:Ec; [done|].
  assert (0 < length (rows tbl)) as Hlen by (destruct (rows tbl); [done|simpl; lia]).
  destruct (set_value_law g c_metadataTableName tbl type_Int 0 0 c (VInt (to_int64 v))) as (g' & Hg & Hu);
    [done|by rewrite Ec|done|by apply Htype|by left|].
  unfold set_version. eapply ends_run; [exact Hg|]. split; [|by eauto].
  exists (with_cell 0 0 (VInt (to_int64 v)) tbl), (to_int64 v). split_and!.
  - by eapply updated_table.
  - unfold metadata_made, with_cell. cbn [columns rows]. rewrite Ec. split_and!; [done|by apply Htype|].
    destruct (rows tbl); done.
  - eapply cell_with_cell; [by rewrite Ec|done|]. by eapply table_rows.
  - by apply int64_roundtrip.
Qed.

Lemma get_schema_version_spec g v : has_version g v -> get_schema_version g = Done v.
Proof.
  intros (tbl & n & Ht & (Hcols & Htype & _) & Hc & Hn). unfold get_schema_version. rewrite Ht. unfold column_count.
  destruct (columns tbl) as [|c cs] eqn:Ec; [done|]. cbn [length]. rewrite bool_decide_false by done.
  rewrite (run_bind _ _ (VInt n)); [by cbn; rewrite Hn|].
  rewrite (get_value_law g _ tbl type_Int 0 0 c (VInt n)); [done|done|by rewrite Ec|done|by apply Htype].
Qed.

Lemma updated_refl g t tbl : table g t = Some tbl -> updated g t tbl g.
Proof. intros Ht. split_and!; [by eauto|done|]. intros t'. by case_decide; subst. Qed.

Lemma get_schema_version_made g tbl : table g c_metadataTableName = Some tbl -> metadata_made tbl ->
  get_schema_version g = (v ← run (get_value type_Int c_metadataTableName 0 0 g); Done (of_int64 (int_of v))).
Proof.
  intros Ht (Hcols & _). unfold get_schema_version, column_count. rewrite Ht.
  by destruct (columns tbl).
Qed.

Lemma create_version_column_spec g tbl : table g c_metadataTableName = Some tbl ->
  columns tbl = [] /\ rows tbl = [] \/ metadata_made tbl ->
  ends (create_version_column g) (λ g', exists tbl', updated g c_metadataTableName tbl' g' /\ metadata_made tbl'
    /\ (columns tbl = [] -> has_version g' NotVersioned) /\ (columns tbl <> [] -> tbl' = tbl)).
Proof.
  intros Ht Hor. unfold create_version_column. step Ht. unfold column_count.
  destruct Hor as [[Hcols Hrows]|Hm].
  - rewrite Hcols. cbn [length]. rewrite bool_decide_true by done.
    destruct (insert_plain_column_law g _ tbl 0 type_Int c_versionColumnName false Ht) as (g1 & Hg1 & Hu1);
      [rewrite Hcols; done|vm_compute; lia|done|]. step Hg1.
    set (tbl1 := add_column_at 0 _ tbl) in Hu1.
    assert (columns tbl1 = [mkColumn c_versionColumnName type_Int false false "" []]) as Hc1
      by (unfold tbl1, add_column_at; rewrite Hcols; done).
    pose proof (updated_table _ _ _ _ Hu1) as Ht1.
    destruct (add_empty_row_law g1 c_metadataTableName tbl1 Ht1) as (g2 & Hg2 & Hu2); [by rewrite Hc1|].
    step Hg2. cbv beta iota.
    eapply ends_weaken; [apply (set_version_spec g2 (add_default_row tbl1) NotVersioned)|].
    + by eapply updated_table.
    + unfold metadata_made, add_default_row. cbn [columns rows]. rewrite Hc1.
      split_and!; [done|by intros c [= <-]|]. by destruct (rows tbl1).
    + done.
    + intros g' [Hv (tbl' & Hu')]. exists tbl'.
      assert (updated g c_metadataTableName tbl' g') as Hu by (do 2 (eapply updated_trans; [done|]); done).
      split_and!; [done| |done|done]. destruct Hv as (tbl'' & n & Ht' & Hm' & _).
      by rewrite (updated_table _ _ _ _ Hu) in Ht'; injection Ht' as ->.
  - rewrite bool_decide_false by (destruct Hm as [Hm _]; by destruct (columns tbl)).
    apply ends_done. exists tbl. split_and!; [by apply updated_refl|done|by destruct Hm|done].
Qed.

Lemma create_primary_key_columns_spec g tbl : table g c_primaryKeyTableName = Some tbl ->
  columns tbl = [] /\ rows tbl = [] \/ (exists entries, pk_entries tbl entries) ->
  ends (create_primary_key_columns g) (λ g', exists tbl', updated g c_primaryKeyTableName tbl' g'
    /\ (columns tbl = [] -> pk_entries tbl' []) /\ (columns tbl <> [] -> tbl' = tbl)).
Proof.
  intros Ht Hor. unfold create_primary_key_columns. step Ht. unfold column_count.
  destruct Hor as [[Hcols Hrows]|(es & Hes)].
  - rewrite Hcols. cbn [length]. rewrite bool_decide_true by done.
    destruct (insert_plain_column_law g _ tbl 0 type_String c_primaryKeyObjectClassColumnName false Ht)
      as (g1 & Hg1 & Hu1); [rewrite Hcols; done|vm_compute; lia|done|]. step Hg1.
    set (tbl1 := add_column_at 0 _ tbl) in Hu1.
    destruct (insert_plain_column_law g1 c_primaryKeyTableName tbl1 1 type_String
      c_primaryKeyPropertyNameColumnName false) as (g2 & Hg2 & Hu2);
      [by eapply updated_table|unfold tbl1, add_column_at; rewrite Hcols; done|vm_compute; lia|done|].
    eapply ends_run; [exact Hg2|]. eexists. split; [by eapply updated_trans|]. split; [intros _|done].
    split; [|split; [|constructor]].
    + unfold pk_columns, tbl1, add_column_at. cbn [columns]. rewrite Hcols. by do 2 eexists.
    + unfold tbl1, add_column_at. cbn [rows]. by rewrite Hrows.
  - rewrite bool_decide_false by (destruct Hes as [(? & ? & -> & _) _]; done).
    apply ends_done. exists tbl. split_and!; [by apply updated_refl| |done].
    by destruct Hes as [(? & ? & -> & _) _].
Qed.

(** ** Primary keys *)

Lemma pk_entries_index tbl es : pk_entries tbl es -> pk_entries (with_column 0 (with_search_index true) tbl) es.
Proof.
  intros ((c0 & c1 & Hc & Hs0 & Hs1) & Hr & Hnd). split_and!; [|done|done].
  exists (with_search_index true c0), c1. unfold with_column. cbn [columns]. by rewrite Hc.
Qed.

Lemma pk_entries_cell tbl es i n k : pk_entries tbl es -> es !! i = Some (n, k) ->
  cell tbl 0 i = Some (VString n) /\ cell tbl 1 i = Some (VString k).
Proof. intros (_ & Hr & _) Hi. unfold cell. by rewrite Hr, list_lookup_fmap, Hi. Qed.

Lemma pk_entries_find tbl es n : pk_entries tbl es ->
  find_index (λ v, bool_decide (v = VString n)) (column_cells tbl 0) = find_index (λ e, bool_decide (e.1 = n)) es.
Proof.
  intros (_ & Hr & _). unfold column_cells. rewrite Hr. clear. induction es as [|[m k] es IH]; [done|].
  cbn [fmap list_fmap omap list_omap lookup list_lookup find_index fst]. rewrite IH.
  by rewrite (bool_decide_ext (VString m = VString n) (m = n)) by (split; congruence).
Qed.

Lemma find_pk g tbl es n : table g c_primaryKeyTableName = Some tbl -> pk_entries tbl es ->
  find_first_string c_primaryKeyTableName 0 n g = Some (find_index (λ e, bool_decide (e.1 = n)) es).
Proof.
  intros Ht He. destruct He as (Hpk & He). pose proof Hpk as (c0 & c1 & Hc & Hs0 & Hs1).
  rewrite (find_first_string_law g _ tbl 0 c0 n); [|done|by rewrite Hc|done]. by rewrite (pk_entries_find tbl es).
Qed.

Lemma find_index_spec {A} (p : A -> bool) l i : find_index p l = Some i ->
  exists x, l !! i = Some x /\ p x = true /\ forall j y, j < i -> l !! j = Some y -> p y = false.
Proof.
  revert i. induction l as [|x l IH]; intros i; cbn [find_index]; [done|].
  destruct (p x) eqn:Hx; [intros [= <-]; exists x; split_and!; [done..|lia]|].
  destruct (find_index p l) as [k|]; [|done]. intros [= <-]. destruct (IH k eq_refl) as (y & ? & ? & Hbelow).
  exists y. split_and!; [done..|]. intros [|j] z Hj Hz; cbn in Hz; [congruence|]. by apply (Hbelow j z); [lia|].
Qed.

Lemma find_index_none {A} (p : A -> bool) l : find_index p l = None <-> Forall (λ x, p x = false) l.
Proof.
  induction l as [|x l IH]; cbn [find_index]; [split; [constructor|done]|]. rewrite Forall_cons, <-IH.
  destruct (p x); [split; [done|by intros [? _]]|]. destruct (find_index p l); naive_solver.
Qed.

(** The first entry with a name is the one of the map. *)
Lemma find_entry (es : list (string * string)) n : NoDup es.*1 ->
  match find_index (λ e, bool_decide (e.1 = n)) es with
  | Some i => exists k, es !! i = Some (n, k) /\ list_to_map (M := gmap string string) es !! n = Some k
  | None => n ∉ es.*1 /\ list_to_map (M := gmap string string) es !! n = None
  end.
Proof.
  intros Hnd. destruct (find_index _ es) as [i|] eqn:E.
  - apply find_index_spec in E as ([m k] & Hi & Hm%bool_decide_eq_true & _). cbn in Hm. subst m.
    exists k. split; [done|]. apply elem_of_list_to_map_1; [done|]. by eapply list_elem_of_lookup_2.
  - apply find_index_none in E. assert (n ∉ es.*1) as Hn.
    { rewrite list_elem_of_fmap. intros ([m k] & -> & Hin). rewrite Forall_forall in E.
      specialize (E _ Hin). by apply bool_decide_eq_false in E. }
    split; [done|]. by apply not_elem_of_list_to_map_1.
Qed.

Lemma get_primary_key_spec g m n : pk_represents g m ->
  get_primary_key_for_object g n = Done (default "" (m !! n)).
Proof.
  intros (tbl & es & Ht & He & ->). unfold get_primary_key_for_object. rewrite Ht.
  step (find_pk g tbl es n Ht He). pose proof He as ((c0 & c1 & Hc & Hs0 & Hs1) & Hr & Hnd).
  pose proof (find_entry es n Hnd) as Hf. destruct (find_index _ es) as [i|].
  - destruct Hf as (k & Hi & ->). destruct (pk_entries_cell tbl es i n k He Hi) as [_ Hcell].
    rewrite (run_bind _ _ (VString k)); [done|].
    rewrite (get_value_law g _ tbl type_String 1 i c1 (VString k)); [done|done|by rewrite Hc|done|done].
  - by destruct Hf as [_ ->].
Qed.

(** Changing a key, appending an entry and moving the last entry over another
    one. *)
Lemma pk_entries_change tbl es i n k k' : pk_entries tbl es -> es !! i = Some (n, k) ->
  pk_entries (with_cell 1 i (VString k') tbl) (<[i := (n, k')]> es)
  /\ list_to_map (M := gmap string string) (<[i := (n, k')]> es) = <[n := k']> (list_to_map es).
Proof.
  intros (Hpk & Hr & Hnd) Hi. assert ((<[i := (n, k')]> es).*1 = es.*1) as Hf.
  { rewrite list_fmap_insert. cbn [fst]. apply list_insert_id. by rewrite list_lookup_fmap, Hi. }
  split.
  - split_and!; [done| |by rewrite Hf]. unfold with_cell. cbn [rows]. rewrite Hr, list_fmap_insert.
    apply list_eq. intros j. destruct (decide (j = i)) as [->|Hne].
    + assert (i < length es) by (by eapply lookup_lt_Some).
      rewrite list_lookup_alter, decide_True, list_lookup_insert_eq by (done || by rewrite length_fmap).
      by rewrite list_lookup_fmap, Hi.
    + by rewrite list_lookup_alter, decide_False, list_lookup_insert_ne by done.
  - apply map_eq. intros m. destruct (decide (m = n)) as [->|Hne].
    + rewrite lookup_insert_eq. apply elem_of_list_to_map_1; [by rewrite Hf|].
      eapply list_elem_of_lookup_2, list_lookup_insert_eq. by eapply lookup_lt_Some.
    + rewrite lookup_insert_ne by done. apply option_eq. intros k''.
      rewrite <-!elem_of_list_to_map by (by rewrite ?Hf). rewrite !list_elem_of_lookup.
      split; intros [j Hj]; exists j; destruct (decide (i = j)) as [->|].
      * rewrite list_lookup_insert_eq in Hj by (by eapply lookup_lt_Some). congruence.
      * by rewrite list_lookup_insert_ne in Hj.
      * congruence.
      * by rewrite list_lookup_insert_ne.
Qed.

Definition swap_remove {A} (i : nat) (l : list A) : list A :=
  match last l with Some x => take (length l - 1) (<[i := x]> l) | None => [] end.

Lemma swap_remove_perm {A} (l : list A) i x : l !! i = Some x -> x :: swap_remove i l ≡ₚ l.
Proof.
  intros Hi. destruct l as [|y l _] using rev_ind; [done|]. unfold swap_remove.
  rewrite last_snoc, length_app. cbn [length]. replace (length l + 1 - 1) with (length l) by lia.
  destruct (decide (i < length l)) as [Hlt|Hge].
  - rewrite lookup_app_l in Hi by done. rewrite insert_app_l, take_app_length' by (done || by rewrite length_insert).
    rewrite <-(take_drop_middle l i x Hi) at 2. rewrite (insert_take_drop l i y Hlt).
    rewrite <-!app_assoc. cbn [app]. solve_Permutation.
  - assert (i = length l) as -> by (apply lookup_lt_Some in Hi; rewrite length_app in Hi; simpl in Hi; lia).
    rewrite lookup_app_r, Nat.sub_diag in Hi by done. injection Hi as ->.
    rewrite insert_app_r_alt, Nat.sub_diag, take_app_length by done. apply Permutation_cons_append.
Qed.

Lemma pk_entries_remove tbl es i n k : pk_entries tbl es -> es !! i = Some (n, k) ->
  pk_entries (without_row i tbl) (swap_remove i es)
  /\ list_to_map (M := gmap string string) (swap_remove i es) = delete n (list_to_map es).
Proof.
  intros (Hpk & Hr & Hnd) Hi. pose proof (swap_remove_perm es i (n, k) Hi) as Hp.
  assert (NoDup ((n, k) :: swap_remove i es).*1) as Hnd' by by rewrite Hp.
  cbn [fmap list_fmap fst] in Hnd'. pose proof Hnd' as [Hn Hnd'']%NoDup_cons. split.
  - split_and!; [done| |done]. unfold without_row, swap_remove. cbn [rows]. rewrite Hr, fmap_last, length_fmap.
    destruct (last es) as [e|]; [|done]. cbn [fmap option_fmap option_map]. by rewrite fmap_take, list_fmap_insert.
  - rewrite <-(list_to_map_proper ((n, k) :: swap_remove i es) es); [|done|done].
    rewrite list_to_map_cons, delete_insert_id; [done|]. by apply not_elem_of_list_to_map_1.
Qed.

Lemma pk_entries_append tbl es n k : pk_entries tbl es -> n ∉ es.*1 ->
  pk_entries (mkTable (columns tbl) (rows tbl ++ [[VString n; VString k]])) (es ++ [(n, k)])
  /\ list_to_map (M := gmap string string) (es ++ [(n, k)]) = <[n := k]> (list_to_map es).
Proof.
  intros (Hpk & Hr & Hnd) Hn. assert (NoDup (es ++ [(n, k)]).*1) as Hnd'.
  { rewrite fmap_app. apply NoDup_app. split_and!; [done| |apply NoDup_singleton].
    intros m Hm ->%list_elem_of_singleton. done. }
  split.
  - split_and!; [done| |done]. cbn [rows]. by rewrite Hr, fmap_app.
  - change (<[n := k]> (list_to_map es : gmap string string)) with (list_to_map (M := gmap string string) ((n, k) :: es)).
    apply list_to_map_proper; [done|]. symmetry. apply Permutation_cons_append.
Qed.

(** A new entry: an empty row, then its two cells. *)
Lemma append_primary_key g tbl es n k : table g c_primaryKeyTableName = Some tbl -> pk_entries tbl es ->
  n ∉ es.*1 -> exists g1 g2 g3,
    add_empty_row c_primaryKeyTableName g = Some (length (rows tbl), g1)
    /\ set_string_unique c_primaryKeyTableName 0 (length (rows tbl)) n g1 = Some g2
    /\ set_value type_String c_primaryKeyTableName 1 (length (rows tbl)) (VString k) g2 = Some g3
    /\ updated g c_primaryKeyTableName (mkTable (columns tbl) (rows tbl ++ [[VString n; VString k]])) g3.
Proof.
  intros Ht He Hn. pose proof He as ((c0 & c1 & Hc & Hs0 & Hs1) & Hr & _).
  destruct (add_empty_row_law g _ tbl Ht) as (g1 & Hg1 & Hu1); [by rewrite Hc|].
  set (row := length (rows tbl)) in *. pose proof (updated_table _ _ _ _ Hu1) as Ht1.
  assert (row < length (rows (add_default_row tbl))) as Hlt
    by (unfold add_default_row; cbn [rows]; rewrite length_app; simpl; lia).
  destruct (set_string_unique_law g1 _ _ 0 row c0 n Ht1) as (g2 & Hg2 & Hu2);
    [by cbn; rewrite Hc|done|done| |].
  { intros row' Hne. unfold cell, add_default_row. cbn [rows].
    intros Hcell. destruct (decide (row' < row)) as [Hl|Hl].
    - rewrite lookup_app_l in Hcell by done. rewrite Hr, list_lookup_fmap in Hcell.
      destruct (es !! row') as [[m k']|] eqn:E; [|done]. cbn in Hcell. injection Hcell as ->.
      apply Hn, list_elem_of_fmap. exists (n, k'). split; [done|]. by eapply list_elem_of_lookup_2.
    - rewrite lookup_ge_None_2 in Hcell; [done|]. rewrite length_app. simpl. unfold row in *. lia. }
  destruct (set_value_law g2 _ _ type_String 1 row c1 (VString k) (updated_table _ _ _ _ Hu2)) as (g3 & Hg3 & Hu3);
    [by cbn; rewrite Hc|cbn [rows with_cell]; by rewrite length_alter|done|by left|].
  exists g1, g2, g3. split_and!; [done..|]. eapply updated_trans; [done|]. eapply updated_trans; [done|].
  assert (mkTable (columns tbl) (rows tbl ++ [[VString n; VString k]])
    = with_cell 1 row (VString k) (with_cell 0 row (VString n) (add_default_row tbl))) as ->; [|done].
  unfold with_cell, add_default_row. cbn [columns rows]. f_equal. rewrite Hc.
  replace row with (length (rows tbl) + 0) by (unfold row; lia). by rewrite !alter_app_r.
Qed.

Lemma set_primary_key_spec g m n k : enable_sync && has_object_ids g = false -> pk_represents g m ->
  ends (set_primary_key_for_object g n k) (λ g',
    pk_represents g' (if bool_decide (k = "") then delete n m else <[n := k]> m)
    /\ exists tbl, updated g c_primaryKeyTableName tbl g').
Proof.
  intros Hsync (tbl & es & Ht & He & ->). unfold set_primary_key_for_object. rewrite Hsync.
  step (find_pk g tbl es n Ht He). pose proof He as ((c0 & c1 & Hc & Hs0 & Hs1) & Hr & Hnd).
  assert (length (rows tbl) = length es) as Hlen by by rewrite Hr, length_fmap.
  pose proof (find_entry es n Hnd) as Hf. destruct (find_index _ es) as [i|].
  - destruct Hf as (k0 & Hi & Hm). assert (i < length (rows tbl)) as Hlt by (rewrite Hlen; by eapply lookup_lt_Some).
    case_bool_decide as Hk.
    + destruct (move_last_over_law g _ tbl i Ht Hlt) as (g' & Hg' & Hu). eapply ends_run; [exact Hg'|].
      destruct (pk_entries_remove tbl es i n k0 He Hi) as [He' <-]. split; [|by eauto].
      do 2 eexists. split; [by eapply updated_table|]. by split.
    + destruct (set_value_law g _ tbl type_String 1 i c1 (VString k) Ht) as (g' & Hg' & Hu);
        [by rewrite Hc|done|done|by left|]. eapply ends_run; [exact Hg'|].
      destruct (pk_entries_change tbl es i n k0 k He Hi) as [He' <-]. split; [|by eauto].
      do 2 eexists. split; [by eapply updated_table|]. by split.
  - destruct Hf as [Hn Hm]. case_bool_decide as Hk.
    + apply ends_done. rewrite delete_id by done. split; [by exists tbl, es|]. exists tbl. by apply updated_refl.
    + destruct (append_primary_key g tbl es n k Ht He Hn) as (g1 & g2 & g3 & Hg1 & Hg2 & Hg3 & Hu).
      step Hg1. cbv beta iota. step Hg2. eapply ends_run; [exact Hg3|].
      destruct (pk_entries_append tbl es n k He Hn) as [He' <-]. split; [|by eauto].
      do 2 eexists. split; [by eapply updated_table|]. by split.
Qed.

(** ** Files *)

(** The tables of metadata are missing, new, or as the store leaves them, with
    the primary keys [m]. *)
Record store_file (g : group) (m : gmap string string) : Prop := {
  sf_metadata : forall tbl, table g c_metadataTableName = Some tbl ->
    columns tbl = [] /\ rows tbl = [] \/ metadata_made tbl;
  sf_primary_keys :
    match table g c_primaryKeyTableName with
    | None => m = ∅
    | Some tbl => columns tbl = [] /\ rows tbl = [] /\ m = ∅
        \/ exists es, pk_entries tbl es /\ m = list_to_map es
    end;
}.

(** What [create_metadata_tables] establishes. *)
Record store_ready (g : group) (m : gmap string string) : Prop := {
  sr_metadata : exists tbl, table g c_metadataTableName = Some tbl /\ metadata_made tbl;
  sr_primary_keys : pk_represents g m;
}.

Lemma create_metadata_tables_spec g m : store_file g m ->
  ends (create_metadata_tables g) (λ g', store_ready g' m
    /\ same_but [c_primaryKeyTableName; c_metadataTableName] g g'
    /\ forall t, t ∈ table_names g' <->
         t = c_primaryKeyTableName \/ t = c_metadataTableName \/ t ∈ table_names g).
Proof.
  intros [Hmeta Hpk]. unfold create_metadata_tables.
  destruct (get_or_add_table_spec g c_primaryKeyTableName) as (g1 & Hg1 & Hsame1 & Hn1 & Ht1); [vm_compute; lia|].
  step Hg1.
  destruct (get_or_add_table_spec g1 c_metadataTableName) as (g2 & Hg2 & Hsame2 & Hn2 & Ht2); [vm_compute; lia|].
  step Hg2. assert (table g1 c_metadataTableName = table g c_metadataTableName) as Hm1 by (apply Hsame1; set_solver).
  rewrite Hm1 in Ht2. assert (table g2 c_primaryKeyTableName = table g1 c_primaryKeyTableName) as Hp2
    by (apply Hsame2; set_solver). rewrite Ht1 in Hp2.
  eapply ends_bind; [apply (create_version_column_spec g2 _ Ht2)|].
  { destruct (table g c_metadataTableName) as [tbl|]; [by apply Hmeta|by left]. }
  intros g3 (tbl3 & Hu3 & Hm3 & _).
  assert (table g3 c_primaryKeyTableName = table g2 c_primaryKeyTableName) as Hp3
    by (by eapply updated_other). rewrite Hp2 in Hp3.
  eapply ends_bind; [apply (create_primary_key_columns_spec g3 _ Hp3)|].
  { destruct (table g c_primaryKeyTableName) as [tbl|]; [|by left].
    cbn [default from_option]. destruct Hpk as [(? & ? & _)|(es & ? & _)]; eauto. }
  intros g4 (tbl4 & Hu4 & Hnew & Hold).
  assert (exists es, pk_entries tbl4 es /\ m = list_to_map es) as (es & He & ->).
  { destruct (table g c_primaryKeyTableName) as [tbl|]; cbn [default from_option] in *.
    - destruct Hpk as [(Hc & _ & ->)|(es & He & ->)]; [exists []; auto|].
      exists es. rewrite Hold; [done|]. destruct He as [(? & ? & Hc & _) _]. unfold id. by rewrite Hc.
    - subst m. exists []. auto. }
  pose proof (updated_table _ _ _ _ Hu4) as Ht4. pose proof He as [(c0 & c1 & Hc & Hs0 & _) _].
  destruct (add_search_index_law g4 _ tbl4 0 c0 Ht4) as (g5 & Hg5 & Hu5); [by rewrite Hc|by rewrite Hs0|].
  eapply ends_run; [exact Hg5|]. split_and!.
  - split.
    + exists tbl3. split; [|done]. rewrite (updated_other _ _ _ _ _ Hu5) by done.
      rewrite (updated_other _ _ _ _ _ Hu4) by done. by eapply updated_table.
    + do 2 eexists. split; [by eapply updated_table|]. split; [by apply pk_entries_index|done].
  - pose proof (updated_same_but _ _ _ _ Hu3). pose proof (updated_same_but _ _ _ _ Hu4).
    pose proof (updated_same_but _ _ _ _ Hu5).
    repeat (eapply same_but_trans; [|by eapply same_but_mono; [done|set_solver]]).
    by eapply same_but_mono; [done|set_solver].
  - intros t. rewrite (updated_named _ _ _ _ t Hu5), (updated_named _ _ _ _ t Hu4), (updated_named _ _ _ _ t Hu3).
    rewrite Hn2, Hn1. tauto.
Qed.
End store.

(** ** Columns of properties

    [insert_column] makes the column [column_of] of a property, and
    [property_for_column_index] reads the property back from it. *)

#[local] Open Scope string_scope.
#[local] Open Scope list_scope.

(** The column that stores a property. *)
Definition column_of (p : Property) : Column :=
  if type_eq (type p) Object then
    mkColumn (name p) (if is_array (type p) then type_LinkList else type_Link) false false
      (table_name_for_object_type (object_type p)) []
  else
    let ty := default type_Mixed (to_core_type (type p)) in
    if is_array (type p) then mkColumn (name p) type_Table false false "" [(ArrayColumnName, ty, is_nullable (type p))]
    else mkColumn (name p) ty (is_nullable (type p)) (requires_index p) "" [].

(** The properties a column can be made for. *)
Record persistable (p : Property) : Prop := {
  pe_name : String.length (name p) <= max_name_length;
  pe_byte : (0 <= type p < 256)%Z;
  pe_kind : type_eq (type p) Object = true \/ is_Some (to_core_type (type p));
  pe_link : type_eq (type p) Object = true -> is_nullable (type p) = negb (is_array (type p));
  pe_plain : type_eq (type p) Object = false -> object_type p = "";
  pe_index : requires_index p = true -> is_array (type p) = false /\ type_is_indexable p = true;
}.

(** ** Types *)

(** A property type is a byte: facts on all of them are computed. *)
Lemma all_bytes (f : Z -> bool) : forallb f (seqZ 0 256) = true -> forall t, (0 <= t < 256)%Z -> f t = true.
Proof.
  intros Hf t Ht. rewrite forallb_forall in Hf. apply Hf. apply list_elem_of_In, elem_of_seqZ. lia.
Qed.

Lemma to_core_type_base ty : to_core_type (base_type ty) = to_core_type ty.
Proof.
  unfold to_core_type. assert (base_type (base_type ty) = base_type ty) as ->; [|done].
  unfold base_type, type_and. rewrite <-Z.land_assoc. by rewrite Z.land_diag.
Qed.

Lemma to_core_type_exclusive ty : is_Some (to_core_type ty) ->
  type_eq ty Object = false /\ type_eq ty LinkingObjects = false.
Proof.
  unfold to_core_type, type_eq. intros [c Hc].
  split; apply bool_decide_eq_false; intros Hb; rewrite Hb in Hc; discriminate Hc.
Qed.

Lemma object_not_linking ty : type_eq ty Object = true -> type_eq ty LinkingObjects = false.
Proof. unfold type_eq. intros ->%bool_decide_eq_true. by apply bool_decide_eq_false. Qed.

(** The type a plain column is read as is the one it was made with. *)
Lemma plain_type_roundtrip ty c : (0 <= ty < 256)%Z -> to_core_type ty = Some c -> is_array ty = false ->
  from_plain_type c (is_nullable ty) = Some ty.
Proof.
  intros Hty Hc Ha.
  pose proof (all_bytes (λ ty, match to_core_type ty with
    | Some c => is_array ty || bool_decide (from_plain_type c (is_nullable ty) = Some ty) | None => true end)) as Hb.
  specialize (Hb ltac:(vm_compute; reflexivity) ty Hty). cbv beta in Hb. rewrite Hc, Ha in Hb. cbn [orb negb] in Hb. by apply bool_decide_eq_true in Hb.
Qed.

Lemma array_type_roundtrip ty c : (0 <= ty < 256)%Z -> to_core_type ty = Some c -> is_array ty = true ->
  (t ← from_plain_type c (is_nullable ty); Some (type_or t Array)) = Some ty.
Proof.
  intros Hty Hc Ha.
  pose proof (all_bytes (λ ty, match to_core_type ty with
    | Some c => negb (is_array ty)
        || bool_decide ((t ← from_plain_type c (is_nullable ty); Some (type_or t Array)) = Some ty)
    | None => true end)) as Hb.
  specialize (Hb ltac:(vm_compute; reflexivity) ty Hty). cbv beta in Hb. rewrite Hc, Ha in Hb. cbn [orb negb] in Hb. by apply bool_decide_eq_true in Hb.
Qed.

Lemma link_type_roundtrip ty : (0 <= ty < 256)%Z -> type_eq ty Object = true ->
  is_nullable ty = negb (is_array ty) ->
  from_plain_type (if is_array ty then type_LinkList else type_Link) false = Some ty.
Proof.
  intros Hty Ho Hn.
  pose proof (all_bytes (λ ty, negb (type_eq ty Object) || negb (eqb (is_nullable ty) (negb (is_array ty)))
    || bool_decide (from_plain_type (if is_array ty then type_LinkList else type_Link) false = Some ty))) as Hb.
  specialize (Hb ltac:(vm_compute; reflexivity) ty Hty). cbv beta in Hb. rewrite Ho, Hn, eqb_reflx in Hb. cbn [orb negb] in Hb. by apply bool_decide_eq_true in Hb.
Qed.

Lemma indexable_core_type p ty : to_core_type (type p) = Some ty -> type_is_indexable p = true ->
  indexable ty = true.
Proof.
  unfold to_core_type, type_is_indexable, type_eq. intros Hty Hi.
  rewrite !orb_true_iff, !bool_decide_eq_true in Hi.
  destruct Hi as [[[Hi|Hi]|Hi]|Hi]; rewrite Hi in Hty; injection Hty as <-; reflexivity.
Qed.

Lemma core_type_not_link ty c : to_core_type ty = Some c -> is_link_type c = false.
Proof. unfold to_core_type. repeat case_bool_decide; intros [= <-]; done. Qed.
Lemma core_type_not_table ty c : to_core_type ty = Some c -> c <> type_Table.
Proof. unfold to_core_type. repeat case_bool_decide; intros [= <-]; done. Qed.

(** ** Columns in tables *)

Lemma alter_vec_insert {A} (f : A -> A) i x (l : list A) : i <= length l ->
  alter f i (vec_insert i x l) = vec_insert i (f x) l.
Proof.
  intros Hi. unfold vec_insert. replace i with (length (take i l) + 0) at 1 by (rewrite length_take; lia).
  by rewrite alter_app_r.
Qed.

Lemma with_column_added f i c tbl : i <= length (columns tbl) ->
  column_type (f c) = column_type c -> column_nullable (f c) = column_nullable c ->
  with_column i f (add_column_at i c tbl) = add_column_at i (f c) tbl.
Proof.
  intros Hi Ht Hn. unfold with_column, add_column_at. cbn [columns rows].
  by rewrite alter_vec_insert, Ht, Hn.
Qed.

Lemma lookup_added i c tbl : i <= length (columns tbl) -> columns (add_column_at i c tbl) !! i = Some c.
Proof.
  intros Hi. cbn [add_column_at columns]. unfold vec_insert.
  rewrite lookup_app_r; rewrite length_take; [|lia]. by replace (i - i `min` _) with 0 by lia.
Qed.

Section store.
Context `{Build, Core, Features, !CoreLaws}.

(** The target of a link has a table. *)
Definition link_exists (g : group) (p : Property) : Prop :=
  type_eq (type p) Object = true -> table_name_for_object_type (object_type p) ∈ table_names g.

Lemma insert_column_spec g t tbl p i : persistable p -> link_exists g p -> table g t = Some tbl ->
  i <= length (columns tbl) ->
  ends (insert_column t p i g) (updated g t (add_column_at i (column_of p) tbl)).
Proof.
  intros [Hname Hbyte Hkind Hlink Hplain Hindex] Hex Ht Hi. unfold insert_column, column_of.
  destruct (type_eq (type p) Object) eqn:Ho.
  - rewrite (object_not_linking _ Ho). specialize (Hex Ho). pose proof Hex as [tgt Htgt]%table_named.
    step Htgt. destruct (insert_column_link_law g t tbl i (if is_array (type p) then type_LinkList else type_Link)
      (name p) (table_name_for_object_type (object_type p))) as (g' & Hg' & Hu); [done|done|done|by destruct (is_array (type p))|done|].
    eapply ends_run; done.
  - destruct Hkind as [|[ty Hty]]; [done|]. destruct (to_core_type_exclusive (type p)) as [_ ->]; [by eauto|].
    rewrite Hty. cbn [default from_option]. unfold id. destruct (is_array (type p)) eqn:Ha.
    + destruct (insert_plain_column_law g t tbl i type_Table (name p) false) as (g1 & Hg1 & Hu1); [done..|].
      step Hg1. rewrite to_core_type_base. step Hty.
      destruct (add_subcolumn_law g1 t _ i (mkColumn (name p) type_Table false false "" []) ty ArrayColumnName
        (is_nullable (type p)) (updated_table _ _ _ _ Hu1)) as (g2 & Hg2 & Hu2);
        [by apply lookup_added|done|vm_compute; lia|].
      rewrite with_column_added in Hu2 by done. eapply ends_run; [done|]. by eapply updated_trans.
    + rewrite (run_bind (Some ty) _ ty eq_refl). destruct (insert_plain_column_law g t tbl i ty (name p) (is_nullable (type p))) as (g1 & Hg1 & Hu1);
        [done|done|done|by eapply core_type_not_link|]. step Hg1.
      destruct (requires_index p) eqn:Hr; [|by apply ends_done]. destruct (Hindex eq_refl) as [_ Hidx].
      destruct (add_search_index_law g1 t _ i (mkColumn (name p) ty (is_nullable (type p)) false "" [])
        (updated_table _ _ _ _ Hu1)) as (g2 & Hg2 & Hu2);
        [by apply lookup_added|by eapply indexable_core_type|].
      rewrite with_column_added in Hu2 by done. eapply ends_run; [done|]. by eapply updated_trans.
Qed.

(** What is read from the column of a property. *)
Definition read_property (p : Property) (i : nat) : Property :=
  mkProperty (name p) "" (type p) (object_type p) "" false
    (if type_eq (type p) Object || is_array (type p) then false else requires_index p) (Z.of_nat i).

Lemma read_column_of p i : persistable p -> enable_sync && bool_decide (name p = object_id_column_name) = false ->
  property_for_column_index (column_of p) i = Done (Some (read_property p i)).
Proof.
  intros [Hname Hbyte Hkind Hlink Hplain Hindex] Hoid. unfold property_for_column_index, column_of, read_property.
  destruct (type_eq (type p) Object) eqn:Ho.
  - cbn [column_name column_type search_index link_target orb]. rewrite Hoid.
    rewrite (bool_decide_false (_ = type_Table)) by (by case_match). cbn [andb].
    unfold from_core_type. cbn [column_type column_nullable].
    pose proof (link_type_roundtrip (type p) Hbyte Ho (Hlink eq_refl)) as Hty.
    rewrite (run_bind _ _ (type p)); [rewrite Ho|by destruct (is_array (type p))].
    by rewrite table_name_roundtrip.
  - destruct Hkind as [|[ty Hty]]; [done|]. rewrite Hty. cbn [default from_option orb]. unfold id.
    rewrite (Hplain eq_refl). destruct (is_array (type p)) eqn:Ha; cbn [column_name column_type search_index];
      rewrite Hoid.
    + rewrite bool_decide_true by done. cbn [is_array_column subcolumns]. rewrite bool_decide_true by done.
      cbn [negb andb]. unfold from_core_type. cbn [column_type subcolumns].
      rewrite (run_bind _ _ (type p)); [by rewrite Ho|]. by apply array_type_roundtrip.
    + rewrite bool_decide_false by (by eapply core_type_not_table). cbn [andb].
      rewrite (run_bind _ _ (type p)); [by rewrite Ho|].
      assert (from_core_type (mkColumn (name p) ty (is_nullable (type p)) (requires_index p) "" [])
        = from_plain_type ty (is_nullable (type p))) as ->
        by (pose proof (core_type_not_table _ _ Hty); unfold from_core_type; cbn [column_type column_nullable];
            by destruct ty).
      by apply plain_type_roundtrip.
Qed.
End store.
