(* ===== verification/SchemaCreation.v ===== *)
(** * Creating the tables of a schema

    The changes of a schema against an empty group, applied by
    [create_initial_tables], and the schema that is read from the result. For
    builds without sync, in which the store makes the tables itself. *)

From S2P Require Import Prelude Property ChangeBuilder ObjectSchema SchemaChanges SchemaFacts CompareFacts.
From S2P Require Import Core ObjectStore SchemaUpdate StoreFacts.

#[local] Open Scope string_scope.
#[local] Open Scope list_scope.

(** ** Names of tables *)

Lemma table_name_inj a b : table_name_for_object_type a = table_name_for_object_type b -> a = b.
Proof. intros Heq. rewrite <-(table_name_roundtrip a), <-(table_name_roundtrip b). by rewrite Heq. Qed.

Lemma table_name_not_pk a : table_name_for_object_type a <> c_primaryKeyTableName.
Proof. discriminate. Qed.
Lemma table_name_not_metadata a : table_name_for_object_type a <> c_metadataTableName.
Proof. discriminate. Qed.

(** The name of the table of an object type. *)
Definition table_name (o : ObjectSchema) : string := table_name_for_object_type (os_name o).

Lemma table_name_object o : object_type_for_table_name (table_name o) = os_name o.
Proof. apply table_name_roundtrip. Qed.

Lemma named_once (os : list ObjectSchema) x y : NoDup (os_name <$> os) -> x ∈ os -> y ∈ os ->
  os_name x = os_name y -> x = y.
Proof.
  intros Hnd [i Hi]%list_elem_of_lookup [j Hj]%list_elem_of_lookup Heq.
  assert (i = j) as <-; [|congruence].
  apply (NoDup_lookup (os_name <$> os) i j (os_name x)); [done|..]; rewrite list_lookup_fmap.
  - by rewrite Hi.
  - by rewrite Hj, Heq.
Qed.

(** ** The changes of a schema against none *)

Lemma foldl_snoc_map {A B} (mk : A -> B) (f : list B -> A -> list B) l :
  (forall acc x, f acc x = acc ++ [mk x]) -> forall acc, foldl f acc l = acc ++ (mk <$> l).
Proof.
  intros Hf. induction l as [|x l IH]; intros acc; cbn [foldl fmap list_fmap]; [by rewrite app_nil_r|].
  by rewrite IH, Hf, <-app_assoc.
Qed.

Lemma compare_empty `{StdOrders, StdPartition} (target : Schema) incl :
  compare [] target incl = (AddTable <$> target) ++ (AddInitialProperties <$> target).
Proof.
  assert (forall St (f : option ObjectSchema -> option ObjectSchema -> St -> St) st,
    zip_matching f target [] st = foldl (λ st x, f (Some x) None st) st target) as Hzip by by destruct target.
  unfold compare. rewrite !Hzip.
  rewrite (foldl_snoc_map AddTable (λ st x, compare_tables incl (Some x) None st)) by done.
  by rewrite (foldl_snoc_map AddInitialProperties (λ st x, compare_columns (Some x) None st)) by done.
Qed.

Lemma for_each_app {A St} (f : A -> St -> outcome St) l1 : forall l2 s,
  for_each f (l1 ++ l2) s = (s ← for_each f l1 s; for_each f l2 s).
Proof.
  induction l1 as [|x l1 IH]; intros l2 s; cbn [for_each app]; [done|].
  destruct (f x s) as [s'| |]; [|done..]. apply IH.
Qed.

Lemma for_each_ext {A St} (f f' : A -> St -> outcome St) l : (forall x s, f x s = f' x s) -> forall s,
  for_each f l s = for_each f' l s.
Proof.
  intros Hf. induction l as [|x l IH]; intros s; cbn [for_each]; [done|]. rewrite Hf.
  destruct (f' x s) as [s'| |]; [|done..]. apply IH.
Qed.

Lemma for_each_fmap {A B St} (f : A -> St -> outcome St) (h : B -> A) l : forall s,
  for_each f (h <$> l) s = for_each (λ x, f (h x)) l s.
Proof.
  induction l as [|x l IH]; intros s; cbn [for_each fmap list_fmap]; [done|].
  destruct (f (h x) s) as [s'| |]; [|done..]. apply IH.
Qed.

(** ** The objects tables can be made for *)

Record creatable (s : Schema) (o : ObjectSchema) : Prop := {
  cr_name : os_name o <> "";
  cr_fits : String.length (table_name o) <= max_name_length;
  cr_unique : NoDup (name <$> object_properties o);
  cr_persistable : Forall persistable (persisted_properties o);
  cr_links : Forall (λ p, type_eq (type p) Object = true -> exists target, target ∈ s /\ os_name target = object_type p)
    (persisted_properties o);
  (** the primary key is marked *)
  cr_key : forall p, p ∈ persisted_properties o -> name p = primary_key o -> is_primary p = true;
}.

(** The primary keys after those of [os] are set. *)
Definition keys_of (m : gmap string string) (os : list ObjectSchema) : gmap string string :=
  foldl (λ m o, if bool_decide (primary_key o = "") then delete (os_name o) m
                else <[os_name o := primary_key o]> m) m os.

Lemma keys_of_other os : forall m n, n ∉ os_name <$> os -> keys_of m os !! n = m !! n.
Proof.
  induction os as [|o os IH]; intros m n Hn; [done|]. cbn [keys_of foldl]. rewrite fmap_cons in Hn.
  fold (keys_of (if bool_decide (primary_key o = "") then delete (os_name o) m else <[os_name o:=primary_key o]> m) os).
  rewrite IH by set_solver. case_bool_decide; [apply lookup_delete_ne|apply lookup_insert_ne]; set_solver.
Qed.

Lemma keys_of_lookup os : forall m o, NoDup (os_name <$> os) -> o ∈ os ->
  default "" (keys_of m os !! os_name o) = primary_key o.
Proof.
  induction os as [|x os IH]; intros m o Hnd Ho; [by apply elem_of_nil in Ho|].
  rewrite fmap_cons in Hnd. apply NoDup_cons in Hnd as [Hx Hnd]. cbn [keys_of foldl].
  fold (keys_of (if bool_decide (primary_key x = "") then delete (os_name x) m else <[os_name x:=primary_key x]> m) os).
  apply elem_of_cons in Ho as [->|Ho]; [|by apply IH].
  rewrite keys_of_other by done. case_bool_decide as Hk; [by rewrite lookup_delete_eq, Hk|].
  by rewrite lookup_insert_eq.
Qed.

Section creation.
Context `{Build, Core, Features, !CoreLaws}.
Hypothesis without_sync : enable_sync = false.

(** *** The tables *)

(** The group after the tables of [os] are made in [g]. *)
Record tables_made (g : group) (m : gmap string string) (os : list ObjectSchema) (g' : group) : Prop := {
  tm_new o : o ∈ os -> table g' (table_name o) = Some (mkTable [] []);
  tm_old t : t ∉ table_name <$> os -> t <> c_primaryKeyTableName -> table g' t = table g t;
  tm_names t : t ∈ table_names g' <-> t ∈ table_name <$> os \/ t ∈ table_names g;
  tm_keys : pk_represents g' (keys_of m os);
}.

Lemma create_table_spec g m os o g' : tables_made g m os g' -> o ∉ os ->
  table_name o ∉ table_name <$> os -> table_name o ∉ table_names g -> String.length (table_name o) <= max_name_length ->
  ends (create_table o g') (tables_made g m (os ++ [o])).
Proof using All.
  intros [Hnew Hold Hnames Hkeys] Ho Hfresh Habs Hlen. unfold create_table. rewrite without_sync.
  fold (table_name o). destruct (get_or_add_table_spec g' (table_name o) Hlen) as (g1 & Hg1 & Hsame & Hn1 & Ht1).
  assert (table g' (table_name o) = None) as Hnone.
  { destruct (table g' (table_name o)) eqn:E; [|done]. exfalso.
    assert (table_name o ∈ table_names g') as Hin by (apply table_named; by rewrite E).
    apply Hnames in Hin as [?|?]; done. }
  rewrite Hnone in Ht1. cbn [default from_option] in Ht1. step Hg1.
  assert (pk_represents g1 (keys_of m os)) as Hk1.
  { destruct Hkeys as (tbl & es & Ht & He). exists tbl, es. split; [|done]. rewrite <-Ht. apply Hsame.
    rewrite list_elem_of_singleton. intros Heq. by apply (table_name_not_pk (os_name o)). }
  eapply ends_weaken; [apply (set_primary_key_spec g1 (keys_of m os) (os_name o) (primary_key o)); [by rewrite without_sync|done]|].
  intros g2 [Hk2 (tbl & Hu)].
  assert (forall t, t <> c_primaryKeyTableName -> t <> table_name o -> table g2 t = table g' t) as Hframe.
  { intros t Hp Hne. rewrite (updated_other _ _ _ _ _ Hu) by done. apply Hsame. set_solver. }
  split.
  - intros o'. rewrite elem_of_app, list_elem_of_singleton. intros [Ho'| ->].
    + rewrite Hframe; [by apply Hnew|apply table_name_not_pk|]. intros Heq. apply Hfresh. rewrite <-Heq.
      apply list_elem_of_fmap. by exists o'.
    + rewrite (updated_other _ _ _ _ _ Hu) by apply table_name_not_pk. done.
  - intros t. rewrite fmap_app, not_elem_of_app. intros [Ht Hne] Hp. rewrite Hframe; [by apply Hold|done|set_solver].
  - intros t. rewrite (updated_named _ _ _ _ t Hu), Hn1, Hnames, fmap_app, elem_of_app. set_solver.
  - unfold keys_of. by rewrite foldl_snoc.
Qed.

Lemma create_tables_spec g m os : pk_represents g m -> NoDup (os_name <$> os) ->
  (forall o, o ∈ os -> table_name o ∉ table_names g /\ String.length (table_name o) <= max_name_length) ->
  ends (for_each create_table os g) (tables_made g m os).
Proof using All.
  intros Hm Hnd Hos. apply (for_each_ends create_table (tables_made g m)).
  - split; [by intros o ?%elem_of_nil|done| |done]. intros t. rewrite elem_of_nil. tauto.
  - intros before o after g' -> Hbefore. rewrite fmap_app, fmap_cons in Hnd.
    apply NoDup_app in Hnd as (_ & Hdisj & _).
    assert (table_name o ∉ table_name <$> before) as Hfresh.
    { rewrite list_elem_of_fmap. intros (o' & Heq & Ho'). apply table_name_inj in Heq.
      apply (Hdisj (os_name o')); [by apply list_elem_of_fmap_2|]. rewrite Heq. left. }
    destruct (Hos o) as [? ?]; [set_solver|]. apply create_table_spec; [done| |done..].
    intros Ho. apply Hfresh. apply list_elem_of_fmap. by exists o.
Qed.

(** *** The columns *)

Definition table_of_object (o : ObjectSchema) : Table := mkTable (column_of <$> persisted_properties o) [].

Lemma add_initial_columns_spec g o : table g (table_name o) = Some (mkTable [] []) ->
  Forall persistable (persisted_properties o) -> Forall (link_exists g) (persisted_properties o) ->
  ends (add_initial_columns o g) (updated g (table_name o) (table_of_object o)).
Proof using All.
  intros Ht Hper Hlinks. unfold add_initial_columns. fold (table_name o).
  eapply ends_weaken; [apply (for_each_ends _
    (λ before g', updated g (table_name o) (mkTable (column_of <$> before) []) g'))|done].
  - by apply updated_refl.
  - intros before p after g' Hps Hu. rewrite without_sync. cbn [andb].
    rewrite Hps in Hper, Hlinks. apply Forall_app in Hper as [_ [Hp _]%Forall_cons].
    apply Forall_app in Hlinks as [_ [Hl _]%Forall_cons].
    pose proof (updated_table _ _ _ _ Hu) as Ht'. unfold add_column. step Ht'. unfold column_count. cbn [columns].
    eapply ends_weaken; [eapply (insert_column_spec g' _ _ p _ Hp)|].
    + intros Ho. rewrite (updated_named _ _ _ _ _ Hu). by apply Hl.
    + exact Ht'.
    + cbn [columns]. done.
    + intros g'' Hu''. eapply updated_trans; [exact Hu|].
      assert (mkTable (column_of <$> before ++ [p]) []
        = add_column_at (length (column_of <$> before)) (column_of p) (mkTable (column_of <$> before) [])) as ->; [|done].
      unfold add_column_at, vec_insert. cbn [columns rows fmap list_fmap].
      by rewrite fmap_app, firstn_all, drop_all.
Qed.

(** The group after the columns of [os] are made as well. *)
Record columns_made (g : group) (os : list ObjectSchema) (g' : group) : Prop := {
  cm_new o : o ∈ os -> table g' (table_name o) = Some (table_of_object o);
  cm_old t : t ∉ table_name <$> os -> table g' t = table g t;
  cm_names t : t ∈ table_names g' <-> t ∈ table_names g;
}.

Lemma add_columns_spec g os : NoDup (os_name <$> os) ->
  (forall o, o ∈ os -> table g (table_name o) = Some (mkTable [] [])) ->
  (forall o, o ∈ os -> Forall persistable (persisted_properties o)) ->
  (forall o, o ∈ os -> Forall (link_exists g) (persisted_properties o)) ->
  ends (for_each add_initial_columns os g) (columns_made g os).
Proof using All.
  intros Hnd Hos Hper Hlinks. apply (for_each_ends add_initial_columns (columns_made g)).
  - split; [by intros o ?%elem_of_nil|done..].
  - intros before o after g' Heq [Hnew Hold Hnames]. subst os. rewrite fmap_app, fmap_cons in Hnd.
    apply NoDup_app in Hnd as (_ & Hdisj & _).
    assert (table_name o ∉ table_name <$> before) as Hfresh.
    { rewrite list_elem_of_fmap. intros (o' & Heq & Ho'). apply table_name_inj in Heq.
      apply (Hdisj (os_name o')); [by apply list_elem_of_fmap_2|]. rewrite Heq. left. }
    assert (o ∈ before ++ o :: after) as Ho by set_solver.
    eapply ends_weaken; [apply (add_initial_columns_spec g' o)|].
    + rewrite Hold by done. by apply Hos.
    + by apply Hper.
    + eapply Forall_impl; [by apply Hlinks|]. intros p Hl Hp. apply Hnames. by apply Hl.
    + intros g'' Hu. split.
      * intros o'. rewrite elem_of_app, list_elem_of_singleton. intros [Ho'| ->].
        -- rewrite (updated_other _ _ _ _ _ Hu); [by apply Hnew|]. intros Heq. apply Hfresh. rewrite <-Heq.
           by apply list_elem_of_fmap_2.
        -- by eapply updated_table.
      * intros t. rewrite fmap_app, not_elem_of_app. intros [Ht Hne].
        rewrite (updated_other _ _ _ _ _ Hu); [by apply Hold|set_solver].
      * intros t. by rewrite (updated_named _ _ _ _ t Hu).
Qed.

(** *** Reading back *)

(** The object schema that is read from the table of an object. *)
Definition stored_object (o : ObjectSchema) : ObjectSchema :=
  set_primary_key_property
    (mkObjectSchema (os_name o) (imap (λ i p, read_property p i) (persisted_properties o)) [] (primary_key o)).

Lemma read_properties ps : Forall persistable ps -> forall (h : nat -> nat) acc,
  for_each (λ (c : nat * Column) qs, q ← property_for_column_index c.2 c.1;
      Done (match q with Some q => qs ++ [q] | None => qs end))
    (imap (λ i p, (h i, column_of p)) ps) acc
  = Done (acc ++ imap (λ i p, read_property p (h i)) ps).
Proof using All.
  induction 1 as [|p ps Hp _ IH]; intros h acc; cbn [imap for_each]; [by rewrite app_nil_r|].
  cbn [fst snd]. rewrite read_column_of by (done || by rewrite without_sync).
  cbn [mbind outcome_bind]. rewrite (IH (h ∘ S)). by rewrite <-app_assoc.
Qed.

Lemma object_schema_of_table_spec g m o : pk_represents g m -> default "" (m !! os_name o) = primary_key o ->
  Forall persistable (persisted_properties o) ->
  object_schema_of_table g (os_name o) (table_of_object o) = Done (stored_object o).
Proof using All.
  intros Hm Hk Hp. unfold object_schema_of_table, table_of_object. cbn [columns]. rewrite imap_fmap.
  pose proof (read_properties _ Hp id []) as Hr. cbn [id app] in Hr. unfold compose. rewrite Hr. cbn [app mbind outcome_bind].
  rewrite (get_primary_key_spec g m (os_name o) Hm), Hk. done.
Qed.

Lemma stored_object_name o : os_name (stored_object o) = os_name o.
Proof.
  unfold stored_object, set_primary_key_property, set_property. repeat case_match; done.
Qed.

Context `{StdOrders}.

(** The object of a table name, as it is read. *)
Definition stored_for (os : list ObjectSchema) (t : string) : option ObjectSchema :=
  o ← list_find (λ o, table_name o = t) os; Some (stored_object o.2).

Lemma stored_for_object os o : NoDup (os_name <$> os) -> o ∈ os -> stored_for os (table_name o) = Some (stored_object o).
Proof using All.
  intros Hnd Ho. unfold stored_for. apply list_elem_of_split in Ho as (l1 & l2 & ->).
  rewrite fmap_app in Hnd. apply NoDup_app in Hnd as (_ & Hdisj & _).
  rewrite list_find_app_r; [cbn [list_find]; by rewrite decide_True|].
  apply list_find_None. apply Forall_forall. intros x Hx Heq. apply (Hdisj (os_name x)); [by apply list_elem_of_fmap_2|].
  apply table_name_inj in Heq. rewrite Heq. left.
Qed.

Lemma stored_for_none os t : t ∉ table_name <$> os -> stored_for os t = None.
Proof using All.
  intros Ht. unfold stored_for. assert (list_find (λ o, table_name o = t) os = None) as ->; [|done].
  apply list_find_None. apply Forall_forall. intros x Hx <-. apply Ht. by apply list_elem_of_fmap_2.
Qed.

(** The objects that are read, in the order of the tables. *)
Lemma omap_stored os (names ts : list string) : NoDup (os_name <$> os) -> NoDup ts ->
  (forall t, t ∈ ts <-> t ∈ table_name <$> os \/ t ∈ names) ->
  omap (stored_for os) ts ≡ₚ stored_object <$> os.
Proof using All.
  intros Hnd Hts Hin.
  assert (NoDup (table_name <$> os)) as Htn.
  { apply (NoDup_fmap_2_strong table_name); [|by eapply NoDup_fmap_1]. intros x y Hx Hy Heq.
    by apply (named_once os x y), table_name_inj. }
  assert (ts ≡ₚ (table_name <$> os) ++ filter (λ t, t ∉ table_name <$> os) ts) as ->.
  { apply NoDup_Permutation; [done| |].
    - apply NoDup_app. split_and!; [done| |by apply NoDup_filter]. intros t Ht. rewrite list_elem_of_filter. tauto.
    - intros t. rewrite elem_of_app, list_elem_of_filter, Hin. destruct (decide (t ∈ table_name <$> os)); tauto. }
  rewrite omap_app.
  assert (omap (stored_for os) (filter (λ t, t ∉ table_name <$> os) ts) = []) as ->.
  { apply elem_of_nil_inv. intros o. rewrite list_elem_of_omap. intros (t & Ht & Hs).
    apply list_elem_of_filter in Ht as [Ht _]. by rewrite stored_for_none in Hs. }
  rewrite app_nil_r. clear ts Hts Hin Htn.
  enough (forall l, (forall o, o ∈ l -> o ∈ os) -> omap (stored_for os) (table_name <$> l) = stored_object <$> l) as ->
    by done.
  induction l as [|o l IH]; intros Hl; [done|]. cbn [fmap list_fmap omap list_omap].
  rewrite stored_for_object by (done || apply Hl; left). f_equal. apply IH. intros x Hx. apply Hl. by right.
Qed.

(** A schema is determined by its objects. *)
Lemma make_schema_unique l s : l ≡ₚ s -> sorted_schema s -> NoDup (os_name <$> s) -> make_schema l = s.
Proof using Type.
  intros Hp Hs Hnd. assert (make_schema l ≡ₚ s) as Hp' by (rewrite <-Hp; apply std_sort_perm).
  apply (StronglySorted_unique_strong (λ x y, string_lt (os_name y) (os_name x) = false)); [| | |done].
  - intros x y Hx Hy Hxy Hyx. rewrite Hp' in Hx.
    apply (named_once s x y Hnd Hx Hy). by apply (lt_total string_lt).
  - apply (std_sort_sorted (λ lft rgt, string_lt (os_name lft) (os_name rgt))).
    + intros x y. apply (lt_asym string_lt).
    + intros x y z. apply (le_trans string_lt).
  - clear -Hs. unfold sorted_schema, sorted_names in Hs. induction s as [|x s IH]; [constructor|].
    rewrite fmap_cons in Hs. apply StronglySorted_inv in Hs as [Hs Hx]. constructor; [by apply IH|].
    by apply Forall_fmap in Hx.
Qed.

Lemma schema_from_group_spec g m os (names : list string) :
  pk_represents g m -> (forall o, o ∈ os -> default "" (m !! os_name o) = primary_key o) ->
  sorted_schema os -> NoDup (os_name <$> os) ->
  (forall o, o ∈ os -> table g (table_name o) = Some (table_of_object o)) ->
  (forall t, t ∈ table_names g <-> t ∈ table_name <$> os \/ t ∈ names) ->
  (forall t, t ∈ names -> object_type_for_table_name t = "") ->
  (forall o, o ∈ os -> os_name o <> "" /\ Forall persistable (persisted_properties o)) ->
  schema_from_group g = Done (stored_object <$> os).
Proof using All.
  intros Hm Hk Hs Hnd Htab Hnames Hother Hos. unfold schema_from_group.
  assert (make_schema (omap (stored_for os) (table_names g)) = stored_object <$> os) as <-.
  { apply make_schema_unique.
    - eapply omap_stored; [done|apply table_names_unique|done].
    - unfold sorted_schema. rewrite <-list_fmap_compose. rewrite (list_fmap_ext _ os_name); [done|].
      intros i x _. apply stored_object_name.
    - rewrite <-list_fmap_compose. rewrite (list_fmap_ext _ os_name); [done|]. intros i x _. apply stored_object_name. }
  match goal with |- ?o ≫= _ = _ => enough (ends o (λ s, s = omap (stored_for os) (table_names g))) as (? & -> & ->) by done end.
  apply (for_each_ends _ (λ before s, s = omap (stored_for os) before)); [done|].
  intros before t after s Heq ->. rewrite omap_app. cbn [omap list_omap].
  destruct (decide (t ∈ table_name <$> os)) as [Ht|Ht].
  - apply list_elem_of_fmap in Ht as (o & -> & Ho). destruct (Hos o Ho) as [Hne Hp].
    rewrite stored_for_object, table_name_object, bool_decide_false by done. step (Htab o Ho).
    rewrite (object_schema_of_table_spec g m o) by auto. by apply ends_done.
  - rewrite stored_for_none, app_nil_r by done.
    assert (t ∈ table_names g) as Hin by (rewrite Heq; set_solver).
    apply Hnames in Hin as [?|Hin]; [done|]. rewrite (Hother t Hin), bool_decide_true by done. by apply ends_done.
Qed.

(** *** Comparing *)

Lemma update_property_elem n f ps : forall ps', update_property n f ps = Some ps' ->
  (forall p, name (f p) = name p) ->
  name <$> ps' = name <$> ps
  /\ forall x, x ∈ ps' -> x ∈ ps \/ exists y, y ∈ ps /\ name y = n /\ x = f y.
Proof using All.
  induction ps as [|p ps IH]; intros ps' Hu Hf; cbn [update_property] in Hu; [done|]. case_bool_decide as Hn.
  - injection Hu as <-. rewrite !fmap_cons, Hf. split; [done|]. intros x [->|Hx]%elem_of_cons; [|set_solver].
    right. exists p. set_solver.
  - destruct (update_property n f ps) as [ps''|]; [|done]. injection Hu as <-.
    destruct (IH ps'' eq_refl Hf) as [Hnames Hin]. rewrite !fmap_cons, Hnames. split; [done|].
    intros x [->|Hx]%elem_of_cons; [set_solver|]. destruct (Hin x Hx) as [?|(y & ? & ? & ?)]; [set_solver|].
    right. exists y. set_solver.
Qed.

Lemma stored_object_fields o :
  primary_key (stored_object o) = primary_key o
  /\ name <$> persisted_properties (stored_object o) = name <$> persisted_properties o
  /\ computed_properties (stored_object o) = []
  /\ forall x, x ∈ persisted_properties (stored_object o) -> exists p i, persisted_properties o !! i = Some p
       /\ (x = read_property p i \/ name p = primary_key o /\ x = make_primary (read_property p i)).
Proof using All.
  unfold stored_object, set_primary_key_property, set_property. cbn [primary_key persisted_properties computed_properties os_name].
  set (ps := imap (λ i p, read_property p i) (persisted_properties o)).
  assert (name <$> ps = name <$> persisted_properties o) as Hnames.
  { unfold ps. apply list_eq. intros i. rewrite !list_lookup_fmap, list_lookup_imap.
    by destruct (persisted_properties o !! i). }
  assert (forall x, x ∈ ps -> exists p i, persisted_properties o !! i = Some p /\ x = read_property p i) as Hin.
  { intros x (i & p & -> & Hp)%elem_of_lookup_imap_1. by exists p, i. }
  assert (forall x, x ∈ ps -> exists p i, persisted_properties o !! i = Some p
    /\ (x = read_property p i \/ name p = primary_key o /\ x = make_primary (read_property p i))) as Hin'
    by (intros x (p & i & ? & ->)%Hin; exists p, i; auto).
  case_bool_decide as Hk; [done|].
  destruct (update_property (primary_key o) make_primary ps) as [ps'|] eqn:E; cbn; [|done].
  destruct (update_property_elem _ _ _ _ E) as [Hn Hx]; [done|]. rewrite Hn. split_and!; [done..|].
  intros x [Hxp|(y & Hy & Hyn & ->)]%Hx; [by apply Hin'|]. destruct (Hin y Hy) as (p & i & Hp & ->).
  exists p, i. auto.
Qed.

Context `{StdPartition}.

Lemma compare_stored_object s o : creatable s o -> compare_object (stored_object o) o = [].
Proof using All.
  intros [_ _ Hnd Hper _ Hkey]. rewrite Forall_forall in Hper. destruct (stored_object_fields o) as (Hk & Hnames & Hc & Hin).
  unfold compare_object. rewrite Hk, (bool_decide_false (primary_key o ≠ primary_key o)) by (intros Hn; by apply Hn).
  assert (persisted_properties (stored_object o) ≫= compare_property (stored_object o) o = []) as ->.
  { apply bind_nil. intros x Hx. destruct (Hin x Hx) as (p & i & Hp%list_elem_of_lookup_2 & Hor).
    assert (name x = name p /\ type x = type p /\ object_type x = object_type p
      /\ is_indexed x = (if type_eq (type p) Object || is_array (type p) then false else requires_index p)
      /\ (is_primary x = true -> is_primary p = true)) as (Hxn & Hxt & Hxo & Hxi & Hxp)
      by (destruct Hor as [-> |[Hpk ->]]; split_and!; try done; intros _; by apply Hkey).
    assert (requires_index p = true -> type_eq (type p) Object = false /\ is_array (type p) = false) as Hplain.
    { intros Hr. destruct (Hper p Hp) as [_ _ _ _ _ Hindex]. destruct (Hindex Hr) as [Ha Hi]. split; [|done].
      unfold type_is_indexable in Hi. destruct (type_eq (type p) Object) eqn:E; [|done].
      revert E Hi. unfold type_eq. intros ->%bool_decide_eq_true. done. }
    unfold compare_property. rewrite Hxn, property_for_name_self, persisted_not_computed, Hxt, Hxo by done.
    unfold type_eq at 1. rewrite (bool_decide_true (base_type (type p) = base_type (type p))) by done.
    rewrite !bool_decide_false by (intros Hn; by apply Hn). cbn [negb orb app].
    destruct (requires_index p) eqn:E.
    - destruct (Hplain eq_refl) as [Ho Ha]. by rewrite Hxi, Ho, Ha.
    - unfold requires_index in E |- *. apply orb_false_iff in E as [Ep Ei].
      assert (is_primary x = false) as -> by (destruct (is_primary x); [by rewrite Hxp in Ep|done]).
      rewrite Hxi. by destruct (type_eq (type p) Object || is_array (type p)). }
  cbn [app]. assert (filter (λ q, property_for_name (name q) (stored_object o) = None) (persisted_properties o) = []) as ->; [|done].
  apply filter_none. intros q Hq. assert (name q ∈ name <$> persisted_properties (stored_object o)) as Hqn
    by (rewrite Hnames; by apply list_elem_of_fmap_2).
  apply list_elem_of_fmap in Hqn as (x & -> & Hx). rewrite property_for_name_self; [done| |done].
  rewrite Hc, app_nil_r, Hnames. unfold object_properties in Hnd. rewrite fmap_app in Hnd.
  by apply NoDup_app in Hnd as [? _].
Qed.

Lemma compare_stored s incl : strict_schema s -> Forall (creatable s) s -> compare (stored_object <$> s) s incl = [].
Proof using All.
  intros Hs Hall. rewrite Forall_forall in Hall. apply elem_of_nil_inv. intros c.
  assert (os_name <$> (stored_object <$> s) = os_name <$> s) as Hnames.
  { rewrite <-list_fmap_compose. apply list_fmap_ext. intros i x _. apply stored_object_name. }
  assert (strict_schema (stored_object <$> s)) as Hs'.
  { apply strict_sorted in Hs as [Hs Hnd]. apply strict_sorted. unfold sorted_schema. by rewrite Hnames. }
  rewrite compare_spec by done. assert (forall o, o ∈ s -> stored_object o ∈ stored_object <$> s) as Hin
    by (intros o Ho; by apply list_elem_of_fmap_2).
  destruct 1 as [o Ho Hne|o Ho Hne|e _ He Hne|o e c Ho He Hname Hc].
  - apply (Hne (stored_object o)); [by apply Hin|by rewrite stored_object_name].
  - apply (Hne (stored_object o)); [by apply Hin|by rewrite stored_object_name].
  - apply list_elem_of_fmap in He as (o & -> & Ho). apply (Hne o Ho). by rewrite stored_object_name.
  - apply list_elem_of_fmap in He as (o' & -> & Ho'). rewrite stored_object_name in Hname.
    apply strict_sorted in Hs as [_ Hnd]. pose proof (named_once s o o' Hnd Ho Ho' Hname) as ->.
    rewrite (compare_stored_object s) in Hc by auto. by apply elem_of_nil in Hc.
Qed.
End creation.

(** ** The first schema of a file

    [apply_schema_changes] on a file that has no version: the tables, columns,
    primary keys and version it leaves. *)

#[local] Open Scope string_scope.
#[local] Open Scope list_scope.

(** What a valid object schema needs besides for tables to be made for it:
    names that fit, types that columns have, no index on a list, a marked
    primary key. *)
Record storable (o : ObjectSchema) : Prop := {
  so_name : os_name o <> "";
  so_fits : String.length (table_name o) <= max_name_length;
  so_properties p : p ∈ persisted_properties o ->
    String.length (name p) <= max_name_length /\ (0 <= type p < 256)%Z
    /\ (type_eq (type p) Object = true \/ is_Some (to_core_type (type p)))
    /\ (requires_index p = true -> is_array (type p) = false);
  so_key p : p ∈ persisted_properties o -> name p = primary_key o -> is_primary p = true;
}.

Lemma storable_creatable `{Platform, StdOrders} (s : Schema) o : valid_object s o -> storable o -> creatable s o.
Proof.
  intros [Hnames _ _ Hprops _] [Hne Hfits Hp Hkey]. unfold object_properties in *.
  apply Forall_app in Hprops as [Hprops _]. rewrite Forall_forall in Hprops. split; try done.
  - apply Forall_forall. intros p Hin. destruct (Hp p Hin) as (Hlen & Hbyte & Hkind & Harr).
    destruct (Hprops p Hin) as [Htarget Horigin Hplain Hprim Hidx Hnull Hlink]. split; try done.
    + intros Ho. destruct (is_array (type p)) eqn:Ha; [|by apply Hlink].
      destruct (is_nullable (type p)); [|done]. specialize (Hnull eq_refl). unfold type_is_nullable in Hnull.
      by rewrite Ha, Ho in Hnull.
    + intros Ho. apply Hplain. rewrite Ho. cbn [orb].
      destruct Hkind as [|Hc]; [congruence|]. by apply to_core_type_exclusive in Hc as [_ ?].
    + intros Hr. split; [by apply Harr|]. unfold requires_index in Hr. apply orb_true_iff in Hr as [Hr|Hr]; [|by apply Hidx].
      specialize (Hprim Hr). unfold type_is_indexable. apply orb_true_iff in Hprim as [->| ->]; by rewrite ?orb_true_r.
  - apply Forall_forall. intros p Hin Ho. destruct (Hprops p Hin) as [Htarget _ _ _ _ _ _].
    apply Htarget. by rewrite Ho.
Qed.

(** The object schema with the columns of its properties. *)
Definition numbered_object (o : ObjectSchema) : ObjectSchema :=
  mkObjectSchema (os_name o) (imap (λ i p, with_table_column (Z.of_nat i) p) (persisted_properties o))
    (computed_properties o) (primary_key o).

Lemma find_index_first {A} (q : A -> bool) l i x : l !! i = Some x -> q x = true ->
  (forall j y, j < i -> l !! j = Some y -> q y = false) -> find_index q l = Some i.
Proof.
  revert i. induction l as [|y l IH]; intros i Hi Hx Hbelow; [done|]. cbn [find_index].
  destruct i as [|i]; [injection Hi as ->; by rewrite Hx|].
  rewrite (Hbelow 0 y) by (done || lia). rewrite (IH i); [done|done|done|].
  intros j z Hj Hz. apply (Hbelow (S j)); [lia|done].
Qed.

Lemma column_of_name p : column_name (column_of p) = name p.
Proof. unfold column_of. by repeat case_match. Qed.

Section initial.
Context `{Build, Core, Features, !CoreLaws}.
Hypothesis without_sync : enable_sync = false.

Lemma set_object_columns_spec g o : table g (table_name o) = Some (table_of_object o) ->
  NoDup (name <$> persisted_properties o) -> set_object_columns g o = numbered_object o.
Proof using All.
  intros Ht Hnd. unfold set_object_columns. fold (table_name o). rewrite Ht. unfold numbered_object. f_equal.
  apply list_eq. intros i. rewrite list_lookup_fmap, list_lookup_imap.
  destruct (persisted_properties o !! i) as [p|] eqn:Hp; [|done]. cbn. do 2 f_equal.
  unfold get_column_index, table_of_object. cbn [columns].
  rewrite (find_index_first _ _ i (column_of p)); [done| | |].
  - by rewrite list_lookup_fmap, Hp.
  - by rewrite column_of_name, bool_decide_true.
  - intros j c Hj Hc. rewrite list_lookup_fmap in Hc.
    destruct (persisted_properties o !! j) as [q|] eqn:Hq; [|done]. injection Hc as <-. rewrite column_of_name.
    apply bool_decide_eq_false. intros Hn. assert (j = i); [|lia].
    apply (NoDup_lookup (name <$> persisted_properties o) j i (name p)); [done|..]; rewrite list_lookup_fmap.
    + by rewrite Hq, <-Hn.
    + by rewrite Hp.
Qed.

Context `{Platform, StdOrders, StdPartition}.

(** The group holds the schema and no other object types. *)
Record holds_schema (g : group) (s : Schema) : Prop := {
  hs_keys : exists m, pk_represents g m /\ forall o, o ∈ s -> default "" (m !! os_name o) = primary_key o;
  hs_tables o : o ∈ s -> table g (table_name o) = Some (table_of_object o);
  hs_names t : t ∈ table_names g -> t ∈ table_name <$> s \/ object_type_for_table_name t = "";
}.

Lemma holds_schema_read g s : holds_schema g s -> strict_schema s -> Forall (creatable s) s ->
  schema_from_group g = Done (stored_object <$> s) /\ set_schema_columns g s = numbered_object <$> s.
Proof using All.
  intros [(m & Hm & Hkeys) Htables Hnames] Hs Hall. rewrite Forall_forall in Hall.
  pose proof Hs as [Hsorted Hnd]%strict_sorted. split.
  - apply (schema_from_group_spec without_sync g m s (filter (λ t, t ∉ table_name <$> s) (table_names g))); try done.
    + intros t. rewrite list_elem_of_filter. destruct (decide (t ∈ table_name <$> s)) as [Ht|Ht]; [|tauto].
      split; [by left|]. intros _. apply list_elem_of_fmap in Ht as (o & -> & Ho). apply table_named.
      by rewrite Htables.
    + intros t [Ht Hin]%list_elem_of_filter. by destruct (Hnames t Hin).
    + intros o Ho. split; [apply (cr_name _ _ (Hall o Ho))|apply (cr_persistable _ _ (Hall o Ho))].
  - unfold set_schema_columns. apply list_fmap_ext. intros i o Ho%list_elem_of_lookup_2.
    apply set_object_columns_spec; [by apply Htables|]. pose proof (cr_unique _ _ (Hall o Ho)) as Hu.
    unfold object_properties in Hu. rewrite fmap_app in Hu. by apply NoDup_app in Hu as [? _].
Qed.

Lemma holds_schema_metadata g s tbl g' : holds_schema g s -> updated g c_metadataTableName tbl g' -> holds_schema g' s.
Proof using All.
  intros [(m & (pk & es & Ht & He) & Hkeys) Htables Hnames] Hu. split.
  - exists m. split; [|done]. exists pk, es. by rewrite (updated_other _ _ _ _ _ Hu) by done.
  - intros o Ho. rewrite (updated_other _ _ _ _ _ Hu) by apply table_name_not_metadata. by apply Htables.
  - intros t. rewrite (updated_named _ _ _ _ t Hu). apply Hnames.
Qed.

(** The tables and columns of a schema, in a group with none of them. *)
Lemma create_schema_spec g m s : store_ready g m -> strict_schema s -> Forall (creatable s) s ->
  (forall t, t ∈ table_names g -> object_type_for_table_name t = "") ->
  ends (g1 ← for_each create_table s g; for_each add_initial_columns s g1) (λ g',
    holds_schema g' s /\ table g' c_metadataTableName = table g c_metadataTableName).
Proof using All.
  intros [Hmeta Hpk] Hs Hall Hold. rewrite Forall_forall in Hall. pose proof Hs as [Hsorted Hnd]%strict_sorted.
  assert (forall o, o ∈ s -> table_name o ∉ table_names g) as Habsent.
  { intros o Ho Hin. apply (cr_name _ _ (Hall o Ho)). by rewrite <-table_name_object, Hold. }
  eapply ends_bind; [apply (create_tables_spec without_sync g m s Hpk Hnd)|].
  { intros o Ho. split; [by apply Habsent|]. by apply (cr_fits _ _ (Hall o Ho)). }
  intros g1 [Hnew1 Hold1 Hnames1 Hkeys1].
  eapply ends_weaken; [apply (add_columns_spec without_sync g1 s Hnd Hnew1)|].
  - intros o Ho. apply (cr_persistable _ _ (Hall o Ho)).
  - intros o Ho. eapply Forall_impl; [apply (cr_links _ _ (Hall o Ho))|]. intros p Hp Hobj.
    destruct (Hp Hobj) as (target & Htarget & <-). apply Hnames1. left. by apply (list_elem_of_fmap_2 table_name).
  - intros g2 [Hnew2 Hold2 Hnames2].
    assert (forall t, (forall n, table_name_for_object_type n <> t) -> t ∉ table_name <$> s) as Hfar
      by (intros t Ht (o & -> & _)%list_elem_of_fmap; by apply (Ht (os_name o))).
    split; [split|].
    + exists (keys_of m s). split; [|by intros o; apply keys_of_lookup].
      destruct Hkeys1 as (tbl & es & Ht & He). exists tbl, es. split; [|done]. rewrite Hold2; [done|].
      apply Hfar, table_name_not_pk.
    + exact Hnew2.
    + intros t [Ht|Ht]%Hnames2%Hnames1; [by left|right; by apply Hold].
    + rewrite Hold2 by apply Hfar, table_name_not_metadata.
      apply Hold1; [apply Hfar, table_name_not_metadata|done].
Qed.

(** What any of the functions that apply changes do with those of a new
    schema. *)
Lemma for_each_new (f : SchemaChange -> group -> outcome group) (s : Schema) g :
  (forall o, f (AddTable o) = create_table o) -> (forall o, f (AddInitialProperties o) = add_initial_columns o) ->
  for_each f (compare [] s false) g = (g1 ← for_each create_table s g; for_each add_initial_columns s g1).
Proof using Type.
  intros Ht Hc. rewrite compare_empty, for_each_app, for_each_fmap.
  rewrite (for_each_ext (λ x, f (AddTable x)) create_table) by (intros; by rewrite Ht).
  destruct (for_each create_table s g) as [g1| |]; [|done..]. cbn [mbind outcome_bind]. rewrite for_each_fmap.
  apply for_each_ext. intros. by rewrite Hc.
Qed.

(** [apply_schema_changes] on a file without a version, in any mode. *)
Lemma apply_initial_schema g m s v mode : store_file g m -> strict_schema s -> Forall (creatable s) s ->
  (forall t, t ∈ table_names g -> object_type_for_table_name t = "") -> is_u64 v ->
  ends (apply_schema_changes NotVersioned s v mode (compare [] s false) None None g) (λ r,
    r.1 = numbered_object <$> s /\ schema_from_group r.2 = Done (stored_object <$> s)
    /\ get_schema_version r.2 = Done v).
Proof using All.
  intros Hfile Hs Hall Hold Hv. unfold apply_schema_changes.
  eapply ends_bind; [by apply create_metadata_tables_spec|]. intros g0 (Hready & _ & Hnames0).
  assert (forall t, t ∈ table_names g0 -> object_type_for_table_name t = "") as Hold0.
  { intros t [->|[->|Ht]]%Hnames0; [done..|by apply Hold]. }
  pose proof (create_schema_spec g0 m s Hready Hs Hall Hold0) as (g1 & Hg1 & Hholds & Hmeta).
  destruct Hready as [(tbl & Ht & Hmade) _]. rewrite <-Hmeta in Ht.
  destruct (set_version_spec g1 tbl v Ht Hmade Hv) as (g2 & Hg2 & Hver & (tbl' & Hu)).
  assert (ends (Done (set_schema_columns g2 s, g2)) (λ r : Schema * group,
    r.1 = numbered_object <$> s /\ schema_from_group r.2 = Done (stored_object <$> s)
    /\ get_schema_version r.2 = Done v)) as Hend.
  { apply ends_done. cbn [fst snd].
    destruct (holds_schema_read g2 s) as [-> ->]; [by eapply holds_schema_metadata|done..|].
    split_and!; [done..|]. by apply get_schema_version_spec. }
  case_bool_decide as Hmode; [|].
  - unfold apply_additive_changes. rewrite for_each_new, Hg1 by done. cbn [mbind outcome_bind].
    rewrite (bool_decide_true (NotVersioned = NotVersioned)), orb_true_r, Hg2 by done. exact Hend.
  - rewrite bool_decide_true by done. unfold create_initial_tables. rewrite for_each_new, Hg1 by done.
    cbn [mbind outcome_bind]. rewrite Hg2. exact Hend.
Qed.
End initial.
