(* ===== verification/SharedRealm.v ===== *)
(** * A Realm and its schema

    shared_realm.cpp: opening, read and write transactions, and the schema of a
    Realm, with the cache of schemas that the Realms of a file share
    (impl/realm_coordinator.cpp). Notifications, the binding context, compaction and
    the permissions are left out. *)

From S2P Require Import Prelude Property ChangeBuilder ObjectSchema SchemaChanges Core ObjectStore SchemaUpdate.

#[local] Open Scope string_scope.
#[local] Open Scope list_scope.

(** ** The cache of the coordinator *)
Record SchemaCache := mkCache {
  m_cached_schema : option Schema;
  c_schema_version : Z;
  m_schema_transaction_version_min : Z;
  m_schema_transaction_version_max : Z;
}.

Definition new_cache : SchemaCache := mkCache None NotVersioned 0 0.

(** The schema, its version, and a transaction whose schema it is. *)
Definition get_cached_schema (c : SchemaCache) : option (Schema * Z * Z) :=
  schema ← m_cached_schema c; Some (schema, c_schema_version c, m_schema_transaction_version_max c).

Definition cache_schema (new_schema : Schema) (new_schema_version transaction_version : Z) (c : SchemaCache) : SchemaCache :=
  if bool_decide (transaction_version < m_schema_transaction_version_max c)%Z then c
  else if bool_decide (new_schema = []) || bool_decide (new_schema_version = NotVersioned) then c
  else mkCache (Some new_schema) new_schema_version transaction_version transaction_version.

Definition clear_schema_cache_and_set_schema_version (new_schema_version : Z) (c : SchemaCache) : SchemaCache :=
  mkCache None new_schema_version (m_schema_transaction_version_min c) (m_schema_transaction_version_max c).

Definition advance_schema_cache `{Build} (previous next : Z) (c : SchemaCache) : option SchemaCache :=
  match m_cached_schema c with
  | None => Some c
  | Some _ =>
      _ ← REALM_ASSERT (bool_decide (previous <= m_schema_transaction_version_max c)%Z);
      if bool_decide (next < m_schema_transaction_version_min c)%Z then Some c
      else Some (mkCache (m_cached_schema c) (c_schema_version c) (Z.min previous (m_schema_transaction_version_min c))
                   (Z.max next (m_schema_transaction_version_max c)))
  end.

(** ** Files

    A file is the sequence of its snapshots, whose positions are their versions.
    The library tells a reader that advances over a change of the schema; an advance
    that is validated may be refused. *)
Class Files `{Core} := {
  empty_file : group;
  schema_changed : group -> group -> bool;
  supported : group -> group -> bool;
}.

Inductive realm_exception :=
  | InvalidSchemaVersion (old_version new_version : Z)
  | InvalidTransaction (message : string)
  | ClosedRealm
  | SchemaValidation (errors : list ObjectSchemaValidationException)
  | SchemaCheck (t : schema_error_type) (errors : list ObjectSchemaValidationException)
  | StoreException (e : store_exception)
  | UnsupportedSchemaChange.

Section realm.
Context `{Build, HC : Core, Features, Platform, StdOrders, StdPartition, HF : !Files}.

(** What a Realm has open: a group that is only read, a reader's or a writer's
    transaction from a version on, or nothing. *)
Inductive stage := ReadOnlyGroup (g : group) | Ready | Reading (version : nat) | Writing (version : nat) (g : group) | Closed.

Record Realm := mkRealm {
  schema_mode : SchemaMode;
  has_coordinator : bool;
  transaction : stage;
  m_schema : Schema;
  m_schema_version : Z;
  m_schema_transaction_version : Z;
  m_new_schema : option Schema;
  m_dynamic_schema : bool;
}.

Record World := mkWorld { snapshots : list group; schema_cache : SchemaCache }.

Definition set_transaction (x : stage) (r : Realm) : Realm :=
  mkRealm (schema_mode r) (has_coordinator r) x (m_schema r) (m_schema_version r) (m_schema_transaction_version r) (m_new_schema r) (m_dynamic_schema r).
Definition set_coordinator (x : bool) (r : Realm) : Realm :=
  mkRealm (schema_mode r) x (transaction r) (m_schema r) (m_schema_version r) (m_schema_transaction_version r) (m_new_schema r) (m_dynamic_schema r).
Definition set_m_schema (x : Schema) (r : Realm) : Realm :=
  mkRealm (schema_mode r) (has_coordinator r) (transaction r) x (m_schema_version r) (m_schema_transaction_version r) (m_new_schema r) (m_dynamic_schema r).
Definition set_m_schema_version (x : Z) (r : Realm) : Realm :=
  mkRealm (schema_mode r) (has_coordinator r) (transaction r) (m_schema r) x (m_schema_transaction_version r) (m_new_schema r) (m_dynamic_schema r).
Definition set_schema_transaction_version (x : Z) (r : Realm) : Realm :=
  mkRealm (schema_mode r) (has_coordinator r) (transaction r) (m_schema r) (m_schema_version r) x (m_new_schema r) (m_dynamic_schema r).
Definition set_new_schema (x : option Schema) (r : Realm) : Realm :=
  mkRealm (schema_mode r) (has_coordinator r) (transaction r) (m_schema r) (m_schema_version r) (m_schema_transaction_version r) x (m_dynamic_schema r).
Definition set_dynamic (x : bool) (r : Realm) : Realm :=
  mkRealm (schema_mode r) (has_coordinator r) (transaction r) (m_schema r) (m_schema_version r) (m_schema_transaction_version r) (m_new_schema r) x.

(** ** Computations

    They change a Realm and the world; an exception keeps the changes. *)
Definition realmM (A : Type) : Type := Realm * World -> option (Realm * World * (realm_exception + A)).

#[export] Instance realm_ret : MRet realmM := λ A x s, Some (s, inr x).
#[export] Instance realm_bind : MBind realmM := λ A B f m s,
  match m s with Some (s, inr x) => f x s | Some (s, inl e) => Some (s, inl e) | None => None end.

Definition raise {A} (e : realm_exception) : realmM A := λ s, Some (s, inl e).
Definition terminate {A} : realmM A := λ _, None.
Definition get_realm : realmM Realm := λ s, Some (s, inr s.1).
Definition get_world : realmM World := λ s, Some (s, inr s.2).
Definition on_realm (f : Realm -> Realm) : realmM unit := λ s, Some (f s.1, s.2, inr tt).
Definition on_world (f : World -> option World) : realmM unit := λ s, w ← f s.2; Some (s.1, w, inr tt).
Definition asserts (x : option unit) : realmM unit := λ s, _ ← x; Some (s, inr tt).

(** A function of the object store that throws leaves the group to the caller. *)
Definition store {A} (o : outcome A) : realmM A :=
  match o with Done x => mret x | Raised e => raise (StoreException e) | Stuck => terminate end.
Definition check {A} (c : checked A) : realmM A :=
  match c with Returns x => mret x | Throws t es => raise (SchemaCheck t es) end.

(** [cleanup] runs whether [m] returns or throws, and must not throw. *)
Definition finally {A} (m : realmM A) (cleanup : realmM unit) : realmM A := λ s,
  match m s with
  | Some (s, x) => match cleanup s with Some (s, inr _) => Some (s, x) | _ => None end
  | None => None
  end.

Definition on_cache (f : SchemaCache -> option SchemaCache) : realmM unit :=
  on_world (λ w, c ← f (schema_cache w); Some (mkWorld (snapshots w) c)).

Definition with_coordinator (m : realmM unit) : realmM unit := r ← get_realm; if has_coordinator r then m else mret tt.

(** ** Reading *)

Definition latest (w : World) : nat := length (snapshots w) - 1.

Definition read_only (mode : SchemaMode) : bool := bool_decide (mode = Immutable).
Definition read_only_alternative (mode : SchemaMode) : bool := bool_decide (mode = ReadOnlyAlternative).

Definition check_read_write : realmM unit :=
  r ← get_realm;
  if read_only (schema_mode r) then raise (InvalidTransaction "Can't perform transactions on read-only Realms.") else mret tt.

Definition check_write : realmM unit :=
  r ← get_realm;
  if read_only (schema_mode r) || read_only_alternative (schema_mode r) then
    raise (InvalidTransaction "Can't perform transactions on read-only Realms.") else mret tt.

Definition is_in_transaction (r : Realm) : bool := match transaction r with Writing _ _ => true | _ => false end.

(** [m_group], and the version of the current transaction. *)
Definition m_group (r : Realm) (w : World) : option group :=
  match transaction r with
  | ReadOnlyGroup g | Writing _ g => Some g
  | Reading v => snapshots w !! v
  | Ready | Closed => None
  end.

Definition version_of_transaction (r : Realm) : Z :=
  match transaction r with Reading v | Writing v _ => Z.of_nat v | _ => 0 end.

Definition current_group : realmM group := λ s, g ← m_group s.1 s.2; Some (s, inr g).

Definition verify_open : realmM unit := r ← get_realm; match transaction r with Closed => raise ClosedRealm | _ => mret tt end.

(** [m_new_schema] is moved into the cache. *)
Definition cache_new_schema : realmM unit :=
  r ← get_realm;
  match transaction r with
  | ReadOnlyGroup _ | Closed => mret tt
  | _ =>
      let new_version := version_of_transaction r in
      _ ← with_coordinator (on_cache (λ c,
            match m_new_schema r with
            | Some new_schema => Some (cache_schema new_schema (m_schema_version r) new_version c)
            | None => advance_schema_cache (m_schema_transaction_version r) new_version c
            end));
      on_realm (λ r, set_new_schema None (set_schema_transaction_version new_version r))
  end.

(** The handler that [add_schema_change_handler] sets. *)
Definition schema_change_handler : realmM unit :=
  g ← current_group;
  schema ← store (schema_from_group g);
  version ← store (get_schema_version g);
  on_realm (λ r,
    let r := set_m_schema_version version (set_new_schema (Some schema) r) in
    if m_dynamic_schema r then set_m_schema schema r else set_m_schema (copy_table_columns_from (m_schema r) schema) r).

Definition read_schema_from_group_if_needed : realmM unit :=
  g ← current_group;
  r ← get_realm;
  let current_version := version_of_transaction r in
  if bool_decide (m_schema_transaction_version r = current_version) then mret tt
  else
    _ ← on_realm (set_schema_transaction_version current_version);
    version ← store (get_schema_version g);
    _ ← on_realm (set_m_schema_version version);
    schema ← store (schema_from_group g);
    _ ← with_coordinator (on_cache (λ c, Some (cache_schema schema version current_version c)));
    if m_dynamic_schema r then
      on_realm (λ r, if schema_eq (m_schema r) schema then set_m_schema (copy_table_columns_from (m_schema r) schema) r
                     else set_m_schema schema r)
    else
      _ ← check (verify_valid_external_changes (compare (m_schema r) schema false));
      on_realm (λ r, set_m_schema (copy_table_columns_from (m_schema r) schema) r).

(** At the latest version. *)
Definition begin_read : realmM unit :=
  w ← get_world;
  _ ← on_realm (set_transaction (Reading (latest w)));
  read_schema_from_group_if_needed.

Definition read_group : realmM group :=
  _ ← verify_open;
  r ← get_realm;
  _ ← match transaction r with Ready => begin_read | _ => mret tt end;
  current_group.

(** ** Transactions *)

(** Whether the schema changes on the way from one version to another. *)
Definition over_versions (p : group -> group -> bool) (w : World) (from to : nat) : list bool :=
  (λ v, match snapshots w !! v, snapshots w !! S v with Some g, Some g' => p g g' | _, _ => false end) <$> seq from (to - from).

Definition schema_changed_between (w : World) (from to : nat) : bool := existsb id (over_versions schema_changed w from to).
Definition supported_between (w : World) (from to : nat) : bool := forallb id (over_versions supported w from to).

Definition handle_change (changed : bool) : realmM unit := if changed then schema_change_handler else mret tt.

(** [transaction::advance] *)
Definition advance_read : realmM bool :=
  r ← get_realm;
  w ← get_world;
  match transaction r with
  | Reading v =>
      if negb (supported_between w v (latest w)) then raise UnsupportedSchemaChange
      else
        _ ← on_realm (set_transaction (Reading (latest w)));
        _ ← handle_change (schema_changed_between w v (latest w));
        mret (negb (bool_decide (v = latest w)))
  | _ => terminate
  end.

(** [transaction::begin_without_validation] *)
Definition promote_to_write : realmM unit :=
  r ← get_realm;
  w ← get_world;
  match transaction r, snapshots w !! latest w with
  | Reading v, Some g =>
      _ ← on_realm (set_transaction (Writing (latest w) g));
      handle_change (schema_changed_between w v (latest w))
  | _, _ => terminate
  end.

(** [transaction::begin], of which [advance_read] is the part that validates. *)
Definition begin_validated : realmM unit := _ ← advance_read; promote_to_write.

Definition commit_and_continue_as_read : realmM unit :=
  r ← get_realm;
  match transaction r with
  | Writing _ g =>
      _ ← on_world (λ w, Some (mkWorld (snapshots w ++ [g]) (schema_cache w)));
      w ← get_world;
      on_realm (set_transaction (Reading (latest w)))
  | _ => terminate
  end.

Definition rollback_and_continue_as_read : realmM unit :=
  r ← get_realm;
  w ← get_world;
  match transaction r with
  | Writing v g =>
      _ ← on_realm (set_transaction (Reading v));
      handle_change (match snapshots w !! v with Some g' => schema_changed g g' | None => false end)
  | _ => terminate
  end.

(** The schema of the file at its latest version is read by another Realm; the
    check should throw. *)
Definition translate_schema_error {A} : realmM A :=
  r ← get_realm;
  w ← get_world;
  g ← (λ s, g ← snapshots w !! latest w; Some (s, inr g)) : realmM group;
  new_schema ← store (schema_from_group g);
  _ ← check (verify_valid_external_changes (compare (m_schema r) new_schema true));
  raise UnsupportedSchemaChange.

Definition translating {A} (m : realmM A) : realmM A := λ s,
  match m s with Some (s, inl UnsupportedSchemaChange) => translate_schema_error s | x => x end.

Definition begin_transaction : realmM unit :=
  _ ← check_write;
  r ← get_realm;
  if is_in_transaction r then raise (InvalidTransaction "The Realm is already in a write transaction")
  else
    _ ← read_group;
    _ ← translating begin_validated;
    cache_new_schema.

Definition commit_transaction : realmM unit :=
  _ ← check_write;
  r ← get_realm;
  if negb (is_in_transaction r) then raise (InvalidTransaction "Can't commit a non-existing write transaction")
  else _ ← commit_and_continue_as_read; cache_new_schema.

Definition cancel_transaction : realmM unit :=
  _ ← check_write;
  r ← get_realm;
  if negb (is_in_transaction r) then raise (InvalidTransaction "Can't cancel a non-existing write transaction")
  else rollback_and_continue_as_read.

Definition invalidate : realmM unit :=
  _ ← verify_open;
  _ ← check_read_write;
  r ← get_realm;
  _ ← (if is_in_transaction r then cancel_transaction else mret tt);
  on_realm (set_transaction Ready).

Definition close : realmM unit := on_realm (λ r, set_coordinator false (set_transaction Closed r)).

Definition refresh : realmM bool :=
  _ ← check_read_write;
  r ← get_realm;
  if is_in_transaction r then mret false
  else
    match transaction r with
    | Reading _ =>
        version_changed ← translating (x ← advance_read; _ ← cache_new_schema; mret x);
        mret version_changed
    | _ => _ ← read_group; mret true
    end.

(** The constructor, which sets [m_coordinator] last. *)
Definition new_Realm (mode : SchemaMode) (coordinator : bool) (w : World) : option (Realm * World * (realm_exception + unit)) :=
  let r := mkRealm mode false Ready [] 0 (u64 (-1)) None true in
  if read_only mode then
    g ← snapshots w !! latest w;
    (version ← store (get_schema_version g);
     schema ← store (schema_from_group g);
     on_realm (λ r, set_coordinator coordinator (set_m_schema schema (set_m_schema_version version (set_transaction (ReadOnlyGroup g) r))))) (r, w)
  else
    match (if coordinator then get_cached_schema (schema_cache w) else None) with
    | Some (schema, version, transaction) =>
        Some (set_coordinator coordinator (mkRealm mode false Ready schema version transaction None true), w, inr tt)
    | None =>
        (_ ← read_group;
         r ← get_realm;
         _ ← (if coordinator then on_cache (λ c, Some (cache_schema (m_schema r) (m_schema_version r) (m_schema_transaction_version r) c)) else mret tt);
         on_realm (λ r, set_coordinator coordinator (set_transaction Ready r))) (r, w)
    end.

(** ** The schema *)

Definition set_schema (reference schema : Schema) : realmM unit :=
  on_realm (λ r, set_m_schema (copy_table_columns_from schema reference) (set_dynamic false r)).

(** The file is removed and made again. *)
Definition reset_file (schema : Schema) : realmM (list SchemaChange) :=
  _ ← on_world (λ w, Some (mkWorld [empty_file] (schema_cache w)));
  _ ← on_realm (set_transaction Ready);
  g ← read_group;
  s ← store (schema_from_group g);
  version ← store (get_schema_version g);
  _ ← on_realm (λ r, set_m_schema_version version (set_m_schema s r));
  _ ← on_cache (λ c, Some (clear_schema_cache_and_set_schema_version version c));
  mret (compare s schema false).

(** Whether the schema is to be written, and the changes that are required then. *)
Definition schema_change_needs_write_transaction (schema : Schema) (changes : list SchemaChange) (version : Z)
  : realmM (bool * list SchemaChange) :=
  r ← get_realm;
  let file_version := m_schema_version r in
  if bool_decide (version = file_version) && bool_decide (changes = []) then mret (false, changes)
  else
    match schema_mode r with
    | Automatic =>
        if bool_decide (version < file_version)%Z && bool_decide (file_version <> NotVersioned) then
          raise (InvalidSchemaVersion file_version version) else mret (true, changes)
    | Immutable =>
        if bool_decide (version <> file_version) then raise (InvalidSchemaVersion file_version version)
        else _ ← check (verify_compatible_for_immutable_and_readonly changes); mret (false, changes)
    | ReadOnlyAlternative => _ ← check (verify_compatible_for_immutable_and_readonly changes); mret (false, changes)
    | ResetFile =>
        if bool_decide (file_version = NotVersioned) then mret (true, changes)
        else if bool_decide (file_version = version) && negb (needs_migration changes) then mret (true, changes)
        else changes ← reset_file schema; mret (true, changes)
    | Additive =>
        applies ← check (verify_valid_additive_changes changes (bool_decide (version > file_version)%Z));
        mret (if applies : bool then true else negb (bool_decide (version = file_version)), changes)
    | Manual =>
        if bool_decide (version < file_version)%Z && bool_decide (file_version <> NotVersioned) then
          raise (InvalidSchemaVersion file_version version)
        else if bool_decide (version = file_version) then _ ← check (verify_no_changes_required changes); terminate
        else mret (true, changes)
    end.

Definition get_full_schema : realmM Schema :=
  r ← get_realm;
  _ ← match transaction r with ReadOnlyGroup _ => mret false | _ => refresh end;
  r ← get_realm;
  if m_dynamic_schema r then mret (m_schema r)
  else
    match transaction r with
    | ReadOnlyGroup g => store (schema_from_group g)
    | _ =>
        w ← get_world;
        match get_cached_schema (schema_cache w) with
        | Some (actual_schema, _, version) =>
            if bool_decide (version = version_of_transaction r) then mret actual_schema
            else g ← read_group; store (schema_from_group g)
        | None => g ← read_group; store (schema_from_group g)
        end
    end.

Definition set_schema_subset (schema : Schema) : realmM unit :=
  r ← get_realm;
  _ ← asserts (REALM_ASSERT (m_dynamic_schema r));
  _ ← asserts (REALM_ASSERT (bool_decide (m_schema_version r <> NotVersioned)));
  let changes := compare (m_schema r) schema false in
  _ ← match schema_mode r with
      | Automatic | ResetFile => check (verify_no_migration_required changes)
      | Immutable | ReadOnlyAlternative => check (verify_compatible_for_immutable_and_readonly changes)
      | Additive => _ ← check (verify_valid_additive_changes changes false); mret tt
      | Manual => check (verify_no_changes_required changes)
      end;
  set_schema (m_schema r) schema.

(** ** [update_schema]

    The caller may hold the write transaction ([in_transaction]). Otherwise [between]
    are the snapshots that others commit before the lock is obtained. The functions
    of the application change the group. *)
Definition initialization := Schema -> group -> outcome group.

Definition set_group (g : group) : realmM unit :=
  on_realm (λ r, match transaction r with Writing v _ => set_transaction (Writing v g) r | _ => r end).

(** In the write transaction, up to its end; the result is the target schema. Outside
    of a transaction, where a Realm is that was reset after it began to write, the
    library must not be called. *)
Definition update_schema_write (schema : Schema) (version : Z) (required_changes : list SchemaChange) (migration_function : option migration)
    (initialization_function : option initialization) (in_transaction : bool) : realmM Schema :=
  finally (
    r ← get_realm;
    let old_schema_version := m_schema_version r in
    let additive := bool_decide (schema_mode r = Additive) in
    g ← read_group;
    _ ← (if is_in_transaction r then mret tt else terminate);
    '(schema, g) ← store (apply_schema_changes old_schema_version schema version (schema_mode r) required_changes None
                             (if additive then None else migration_function) g);
    _ ← set_group g;
    _ ← (if additive || bool_decide (is_Some migration_function) then mret tt
         else existing ← store (schema_from_group g); asserts (REALM_ASSERT_DEBUG (bool_decide (compare existing schema false = []))));
    _ ← match initialization_function with
        | Some f => if bool_decide (old_schema_version = NotVersioned) then g ← store (f schema g); set_group g else mret tt
        | None => mret tt
        end;
    _ ← (if in_transaction then mret tt else commit_transaction);
    mret schema)
  (r ← get_realm; if negb in_transaction && is_in_transaction r then cancel_transaction else mret tt).

(** After the commit. *)
Definition update_schema_finish (schema : Schema) (version : Z) : realmM unit :=
  g ← read_group;
  file_version ← store (get_schema_version g);
  _ ← on_realm (λ r, set_dynamic false (set_m_schema_version file_version (set_m_schema schema r)));
  on_cache (λ c, Some (clear_schema_cache_and_set_schema_version version c)).

(** The write transaction may have nothing to do. *)
Definition update_schema_begin (schema : Schema) (version : Z) (required_changes : list SchemaChange) (between : list group)
  : realmM (option (list SchemaChange)) :=
  _ ← on_world (λ w, Some (mkWorld (snapshots w ++ between) (schema_cache w)));
  _ ← promote_to_write;
  r ← get_realm;
  match m_new_schema r with
  | Some actual_schema =>
      '(needed, required_changes) ← schema_change_needs_write_transaction schema (compare actual_schema schema false) version;
      if needed : bool then _ ← cache_new_schema; mret (Some required_changes)
      else
        _ ← cancel_transaction;
        _ ← cache_new_schema;
        _ ← set_schema actual_schema schema;
        mret None
  | None => _ ← cache_new_schema; mret (Some required_changes)
  end.

Definition update_schema (schema : Schema) (version : Z) (migration_function : option migration)
    (initialization_function : option initialization) (in_transaction : bool) (between : list group) : realmM unit :=
  errors ← (λ s, e ← validate schema; Some (s, inr e)) : realmM (list ObjectSchemaValidationException);
  _ ← (if bool_decide (errors = []) then mret tt else raise (SchemaValidation errors));
  actual_schema ← get_full_schema;
  '(needed, required_changes) ← schema_change_needs_write_transaction schema (compare actual_schema schema false) version;
  if negb needed then set_schema actual_schema schema
  else
    begun ← (if in_transaction then mret (Some required_changes) else update_schema_begin schema version required_changes between);
    match begun with
    | None => mret tt
    | Some required_changes =>
        schema ← update_schema_write schema version required_changes migration_function initialization_function in_transaction;
        update_schema_finish schema version
    end.
End realm.
