(* ===== verification/RealmFacts.v ===== *)
(** * Facts about a Realm

    Rules for the computations of SharedRealm.v, what they keep, and the truth of
    the cached schema. *)

From S2P Require Import Prelude Property ChangeBuilder ObjectSchema SchemaChanges SchemaFacts CompareFacts.
From S2P Require Import Core ObjectStore SchemaUpdate SharedRealm.

#[local] Open Scope string_scope.
#[local] Open Scope list_scope.

Section realm.
Context `{Build, HC : Core, Features, Platform, StdOrders, StdPartition, HF : !Files}.

(** ** Rules *)

Abbreviation state := (Realm * World)%type.

(** Whatever the computation ends with, an exception included. *)
Definition post {A} (m : realmM A) (s : state) (Q : state -> realm_exception + A -> Prop) : Prop :=
  forall s' x, m s = Some (s', x) -> Q s' x.

(** It ends. *)
Definition yields {A} (m : realmM A) (s : state) (Q : state -> realm_exception + A -> Prop) : Prop :=
  exists s' x, m s = Some (s', x) /\ Q s' x.

Definition next {A B} (f : A -> realmM B) (R : realmM B -> state -> Prop) (Q : state -> realm_exception + B -> Prop)
    (s : state) (x : realm_exception + A) : Prop :=
  match x with inl e => Q s (inl e) | inr a => R (f a) s end.

Lemma post_bind {A B} (m : realmM A) (f : A -> realmM B) s Q :
  post m s (next f (λ m' s', post m' s' Q) Q) -> post (m ≫= f) s Q.
Proof.
  intros Hm s' x. unfold mbind, realm_bind. destruct (m s) as [[s1 [e|a]]|] eqn:E; [| |done].
  - intros [= <- <-]. by apply (Hm _ _ E).
  - apply (Hm _ _ E).
Qed.

Lemma yields_bind {A B} (m : realmM A) (f : A -> realmM B) s Q :
  yields m s (next f (λ m' s', yields m' s' Q) Q) -> yields (m ≫= f) s Q.
Proof. intros (s1 & x & E & Hx). unfold yields, mbind, realm_bind. rewrite E. destruct x as [e|a]; [|done]. by exists s1, (inl e). Qed.

Lemma post_weaken {A} (m : realmM A) s (P Q : state -> realm_exception + A -> Prop) :
  post m s P -> (forall s' x, P s' x -> Q s' x) -> post m s Q.
Proof. intros Hm HPQ s' x Hx. by apply HPQ, Hm. Qed.

Lemma yields_weaken {A} (m : realmM A) s (P Q : state -> realm_exception + A -> Prop) :
  yields m s P -> (forall s' x, P s' x -> Q s' x) -> yields m s Q.
Proof. intros (s' & x & E & Hx) HPQ. exists s', x. auto. Qed.

Lemma yields_post {A} (m : realmM A) s Q : yields m s Q -> post m s Q.
Proof. intros (s' & x & E & Hx) s2 y E2. rewrite E in E2. by injection E2 as <- <-. Qed.

(** ** What is kept

    [R] relates the states before and after, however the computation ends. *)
Definition keeps (R : state -> state -> Prop) {A} (m : realmM A) : Prop := forall s, post m s (λ s' _, R s s').

Section keeps.
Context (R : state -> state -> Prop) `{!PreOrder R}.

Lemma keeps_bind {A B} (m : realmM A) (f : A -> realmM B) : keeps R m -> (forall a, keeps R (f a)) -> keeps R (m ≫= f).
Proof.
  intros Hm Hf s. apply post_bind. intros s1 [e|a] E; cbn; [by apply (Hm _ _ _ E)|].
  intros s2 x E2. etrans; [by apply (Hm _ _ _ E)|by apply (Hf _ _ _ _ E2)].
Qed.

Lemma keeps_pure {A} (m : realmM A) : (forall s s' x, m s = Some (s', x) -> s' = s) -> keeps R m.
Proof. intros Hm s s' x E. by rewrite (Hm _ _ _ E). Qed.

Lemma keeps_ret {A} (a : A) : keeps R (mret a : realmM A).
Proof. apply keeps_pure. by intros s s' x [= <- _]. Qed.
Lemma keeps_raise {A} e : keeps R (raise e : realmM A).
Proof. apply keeps_pure. by intros s s' x [= <- _]. Qed.
Lemma keeps_terminate {A} : keeps R (terminate : realmM A).
Proof. by intros s s' x. Qed.
Lemma keeps_get_realm : keeps R get_realm.
Proof. apply keeps_pure. by intros s s' x [= <- _]. Qed.
Lemma keeps_get_world : keeps R get_world.
Proof. apply keeps_pure. by intros s s' x [= <- _]. Qed.
Lemma keeps_asserts x : keeps R (asserts x).
Proof. apply keeps_pure. intros s s' y. unfold asserts. by destruct x; [intros [= <- _]|]. Qed.
Lemma keeps_store {A} (o : outcome A) : keeps R (store o).
Proof. destruct o; [apply keeps_ret|apply keeps_raise|apply keeps_terminate]. Qed.
Lemma keeps_check {A} (c : checked A) : keeps R (check c).
Proof. destruct c; [apply keeps_ret|apply keeps_raise]. Qed.
Lemma keeps_current_group : keeps R current_group.
Proof. apply keeps_pure. intros s s' x. unfold current_group. by destruct (m_group s.1 s.2); [intros [= <- _]|]. Qed.

Lemma keeps_translate {A} : keeps R (translate_schema_error : realmM A).
Proof.
  unfold translate_schema_error. apply keeps_bind; [apply keeps_get_realm|]. intros r.
  apply keeps_bind; [apply keeps_get_world|]. intros w. apply keeps_bind.
  - apply keeps_pure. intros s s' x. cbn. by destruct (snapshots w !! latest w); [intros [= <- _]|].
  - intros g. apply keeps_bind; [apply keeps_store|]. intros new. apply keeps_bind; [apply keeps_check|]. intros _. apply keeps_raise.
Qed.
Lemma keeps_translating {A} (m : realmM A) : keeps R m -> keeps R (translating m).
Proof.
  intros Hm s s' x. unfold translating. destruct (m s) as [[s1 [e|a]]|] eqn:E; [| |done].
  - destruct e; try (intros [= <- <-]; by apply (Hm _ _ _ E)). intros E2. etrans; [by apply (Hm _ _ _ E)|].
    by apply (keeps_translate _ _ _ E2).
  - intros [= <- <-]. by apply (Hm _ _ _ E).
Qed.
End keeps.

(** The snapshots and the mode, and no write transaction begins. *)
Definition calm (s s' : state) : Prop :=
  snapshots s'.2 = snapshots s.2 /\ schema_mode s'.1 = schema_mode s.1
  /\ (is_in_transaction s.1 = false -> is_in_transaction s'.1 = false).

#[export] Instance calm_preorder : PreOrder calm.
Proof. split; [by intros s|]. intros a b c (Hs1 & Hm1 & Hab) (Hs2 & Hm2 & Hbc). unfold calm. rewrite Hs2, Hm2. auto. Qed.

Lemma calm_on_realm f : (forall r, schema_mode (f r) = schema_mode r) ->
  (forall r, is_in_transaction r = false -> is_in_transaction (f r) = false) -> keeps calm (on_realm f).
Proof. intros Hmode Hin s s' x [= <- _]. split_and!; [done|apply Hmode|apply Hin]. Qed.

Lemma calm_on_cache f : keeps calm (on_cache f).
Proof.
  intros s s' x. unfold on_cache, on_world. cbn. destruct (f (schema_cache s.2)); cbn; [intros [= <- _]|done].
  split_and!; done.
Qed.

Create HintDb keeps.
#[local] Hint Resolve keeps_ret keeps_raise keeps_terminate keeps_get_realm keeps_get_world keeps_asserts keeps_store
  keeps_check keeps_current_group calm_on_cache calm_on_realm calm_preorder : keeps.

(** Follows the structure of a computation. *)
Ltac keep := repeat first
  [ progress intros
  | match goal with |- keeps _ (?m ≫= _) => apply keeps_bind; [exact calm_preorder| |] end
  | match goal with |- keeps _ (translating _) => apply keeps_translating; [exact calm_preorder|] end
  | solve [eauto 2 with keeps]
  | case_match ].

Lemma calm_with_coordinator m : keeps calm m -> keeps calm (with_coordinator m).
Proof. unfold with_coordinator. keep. Qed.
#[local] Hint Resolve calm_with_coordinator : keeps.

Lemma calm_check_read_write : keeps calm check_read_write.
Proof. unfold check_read_write. keep. Qed.
Lemma calm_check_write : keeps calm check_write.
Proof. unfold check_write. keep. Qed.
Lemma calm_verify_open : keeps calm verify_open.
Proof. unfold verify_open. keep. Qed.
Lemma calm_schema_change_handler : keeps calm schema_change_handler.
Proof. unfold schema_change_handler. keep. apply calm_on_realm; intros r; cbn; by destruct (m_dynamic_schema r). Qed.
#[local] Hint Resolve calm_check_read_write calm_check_write calm_verify_open calm_schema_change_handler : keeps.

Lemma calm_handle_change b : keeps calm (handle_change b).
Proof. unfold handle_change. keep. Qed.
Lemma calm_cache_new_schema : keeps calm cache_new_schema.
Proof. unfold cache_new_schema. keep. Qed.
Lemma calm_read_schema : keeps calm read_schema_from_group_if_needed.
Proof. unfold read_schema_from_group_if_needed. keep. apply calm_on_realm; intros r; cbn; by destruct (schema_eq _ _). Qed.
#[local] Hint Resolve calm_handle_change calm_cache_new_schema calm_read_schema : keeps.

Lemma calm_begin_read : keeps calm begin_read.
Proof. unfold begin_read. keep. Qed.
#[local] Hint Resolve calm_begin_read : keeps.
Lemma calm_read_group : keeps calm read_group.
Proof. unfold read_group. keep. Qed.
Lemma calm_advance_read : keeps calm advance_read.
Proof. unfold advance_read. keep. Qed.
Lemma calm_rollback : keeps calm rollback_and_continue_as_read.
Proof. unfold rollback_and_continue_as_read. keep. Qed.
#[local] Hint Resolve calm_read_group calm_advance_read calm_rollback : keeps.

Lemma calm_refresh : keeps calm refresh.
Proof. unfold refresh. keep. Qed.
Lemma calm_cancel_transaction : keeps calm cancel_transaction.
Proof. unfold cancel_transaction. keep. Qed.
Lemma calm_close : keeps calm close.
Proof. unfold close. keep. Qed.
Lemma calm_set_schema reference s : keeps calm (set_schema reference s).
Proof. unfold set_schema. keep. Qed.
#[local] Hint Resolve calm_refresh calm_cancel_transaction calm_set_schema : keeps.

Lemma calm_invalidate : keeps calm invalidate.
Proof. unfold invalidate. keep. Qed.
Lemma calm_get_full_schema : keeps calm get_full_schema.
Proof. unfold get_full_schema. keep. Qed.
Lemma calm_set_schema_subset s : keeps calm (set_schema_subset s).
Proof. unfold set_schema_subset. keep. Qed.

(** ** Write transactions *)

Definition writable (r : Realm) : Prop := read_only (schema_mode r) || read_only_alternative (schema_mode r) = false.

Lemma writable_read_write r : writable r -> read_only (schema_mode r) = false.
Proof. by intros [Hr _]%orb_false_iff. Qed.

Lemma check_write_done r w : writable r -> check_write (r, w) = Some (r, w, inr tt).
Proof. intros Hw. unfold check_write, get_realm, mbind, realm_bind. cbn. by rewrite Hw. Qed.

Lemma read_group_open r w g : transaction r <> Ready -> transaction r <> Closed -> m_group r w = Some g ->
  read_group (r, w) = Some (r, w, inr g).
Proof.
  intros Hready Hopen Hg. assert (current_group (r, w) = Some (r, w, inr g)) as Hc
    by (unfold current_group; cbn [fst snd]; by rewrite Hg).
  unfold read_group, verify_open, get_realm, mbind, realm_bind. cbn [fst snd].
  destruct (transaction r) eqn:E; try done; unfold mret, realm_ret; cbn [fst]; rewrite E; exact Hc.
Qed.

Lemma post_ret {A} (a : A) s Q : Q s (inr a) -> post (mret a) s Q.
Proof. by intros Ha s' x [= <- <-]. Qed.
Lemma post_raise {A} e s Q : Q s (inl e) -> post (raise e : realmM A) s Q.
Proof. by intros He s' x [= <- <-]. Qed.
Lemma post_realm {A} (f : Realm -> realmM A) s Q : post (f s.1) s Q -> post (r ← get_realm; f r) s Q.
Proof. intros Hf. apply post_bind. by intros s' x [= <- <-]. Qed.
Lemma post_world {A} (f : World -> realmM A) s Q : post (f s.2) s Q -> post (w ← get_world; f w) s Q.
Proof. intros Hf. apply post_bind. by intros s' x [= <- <-]. Qed.
Lemma post_on_realm f s Q : Q (f s.1, s.2) (inr tt) -> post (on_realm f) s Q.
Proof. by intros Hq s' x [= <- <-]. Qed.
Lemma post_step {A B} (m : realmM A) (f : A -> realmM B) s s' a Q :
  m s = Some (s', inr a) -> post (f a) s' Q -> post (m ≫= f) s Q.
Proof. intros E Hf. apply post_bind. intros s1 x. rewrite E. by intros [= <- <-]. Qed.
Lemma post_on_cache f s Q : (forall c, Q (s.1, mkWorld (snapshots s.2) c) (inr tt)) -> post (on_cache f) s Q.
Proof.
  intros Hq s' x. unfold on_cache, on_world. cbn. destruct (f (schema_cache s.2)) as [c|]; cbn; [|done]. by intros [= <- <-].
Qed.
Lemma post_store {A} (o : outcome A) s Q : (forall a, o = Done a -> Q s (inr a)) ->
  (forall e, o = Raised e -> Q s (inl (StoreException e))) -> post (store o) s Q.
Proof. intros Hd Hr s' x. destruct o; cbn; try done; intros [= <- <-]; auto. Qed.
Lemma post_check {A} (c : checked A) s Q : (forall a, c = Returns a -> Q s (inr a)) ->
  (forall e, Q s (inl e)) -> post (check c) s Q.
Proof. intros Hd Hr s' x. destruct c; cbn; intros [= <- <-]; auto. Qed.
Lemma post_asserts x s Q : Q s (inr tt) -> post (asserts x) s Q.
Proof. intros Hq s' y. unfold asserts. destruct x; [|done]. by intros [= <- <-]. Qed.
Lemma post_finally {A} (m : realmM A) cleanup s Q :
  post m s (λ s' x, post cleanup s' (λ s2 _, Q s2 x)) -> post (finally m cleanup) s Q.
Proof.
  intros Hm s' x. unfold finally. destruct (m s) as [[s1 y]|] eqn:E; [|done].
  destruct (cleanup s1) as [[s2 [e|u]]|] eqn:E2; [done| |done]. intros [= <- <-]. by apply (Hm _ _ E _ _ E2).
Qed.
Lemma post_and {A} (m : realmM A) s P Q : post m s P -> post m s Q -> post m s (λ s' x, P s' x /\ Q s' x).
Proof. intros Hp Hq s' x E. auto. Qed.

Lemma run_step {A B} (m : realmM A) (f : A -> realmM B) s s' a : m s = Some (s', inr a) -> (m ≫= f) s = f a s'.
Proof. intros E. unfold mbind, realm_bind. by rewrite E. Qed.
Lemma yields_step {A B} (m : realmM A) (f : A -> realmM B) s s' a Q :
  m s = Some (s', inr a) -> yields (f a) s' Q -> yields (m ≫= f) s Q.
Proof. intros E Hf. apply yields_bind. by exists s', (inr a). Qed.
Lemma yields_is {A} (m : realmM A) s s' x Q : m s = Some (s', x) -> Q s' x -> yields m s Q.
Proof. intros E Hq. by exists s', x. Qed.
Lemma yields_ret {A} (a : A) s Q : Q s (inr a) -> yields (mret a) s Q.
Proof. by apply yields_is. Qed.
Lemma yields_raise {A} e s Q : Q s (inl e) -> yields (raise e : realmM A) s Q.
Proof. by apply yields_is. Qed.
Lemma yields_realm {A} (f : Realm -> realmM A) s Q : yields (f s.1) s Q -> yields (r ← get_realm; f r) s Q.
Proof. by apply yields_step. Qed.
Lemma yields_world {A} (f : World -> realmM A) s Q : yields (f s.2) s Q -> yields (w ← get_world; f w) s Q.
Proof. by apply yields_step. Qed.
Lemma yields_on_realm f s Q : Q (f s.1, s.2) (inr tt) -> yields (on_realm f) s Q.
Proof. by apply yields_is. Qed.
Lemma yields_on_cache f s c Q : f (schema_cache s.2) = Some c -> Q (s.1, mkWorld (snapshots s.2) c) (inr tt) -> yields (on_cache f) s Q.
Proof. intros E. apply yields_is. unfold on_cache, on_world. cbn [mbind option_bind]. by rewrite E. Qed.
Lemma yields_check {A} (c : checked A) s Q : (forall a, Q s (inr a)) -> (forall e, Q s (inl e)) -> yields (check c) s Q.
Proof. intros Hd Hr. destruct c; [by apply yields_ret|by apply yields_raise]. Qed.

Lemma yields_store {A} (o : outcome A) a s Q : o = Done a -> Q s (inr a) -> yields (store o) s Q.
Proof. intros ->. by apply yields_ret. Qed.
Lemma yields_asserts s Q : Q s (inr tt) -> yields (asserts (Some tt)) s Q.
Proof. by apply yields_is. Qed.
Lemma yields_finally {A} (m : realmM A) cleanup s Q :
  yields m s (λ s' x, yields cleanup s' (λ s2 y, y = inr tt /\ Q s2 x)) -> yields (finally m cleanup) s Q.
Proof.
  intros (s1 & x & E & s2 & y & E2 & -> & Hq). eapply yields_is; [|exact Hq]. unfold finally. by rewrite E, E2.
Qed.

(** It never throws; but for the cache it only notes the version. *)
Lemma cache_new_schema_post r w : (forall g, transaction r <> ReadOnlyGroup g) -> transaction r <> Closed ->
  post cache_new_schema (r, w) (λ s' x, x = inr tt /\ snapshots s'.2 = snapshots w
    /\ s'.1 = set_new_schema None (set_schema_transaction_version (version_of_transaction r) r)).
Proof.
  intros Hshared Hopen. unfold cache_new_schema. apply post_realm. cbn [fst].
  destruct (transaction r) as [g| | | |] eqn:E; try done; [by destruct (Hshared g)|..]; (apply post_bind; unfold with_coordinator; apply post_realm; cbn [fst];
    destruct (has_coordinator r); [apply post_on_cache; intros c|apply post_ret]; by apply post_on_realm).
Qed.

Lemma get_schema_version_not_raised g e : get_schema_version g <> Raised e.
Proof.
  unfold get_schema_version. destruct (table g c_metadataTableName); [|done]. case_bool_decide; [done|].
  by destruct (get_value _ _ _ _ g).
Qed.

(** The write transaction from the version [v] is open, and nothing is committed. *)
Definition writing (r0 : Realm) (w0 : World) (s : state) : Prop :=
  is_in_transaction s.1 = true /\ schema_mode s.1 = schema_mode r0 /\ snapshots s.2 = snapshots w0.

Lemma writing_group r w s : writing r w s -> exists v g, transaction s.1 = Writing v g /\ read_group s = Some (s, inr g).
Proof.
  intros [Hin _]. destruct s as [r' w']. unfold is_in_transaction in Hin. cbn [fst snd] in *.
  destruct (transaction r') as [| | |v g|] eqn:E; try done. exists v, g. split; [done|].
  apply read_group_open; [congruence..|]. unfold m_group. by rewrite E.
Qed.

Lemma writing_set_group r w s g : writing r w s -> post (set_group g) s (λ s' x, writing r w s' /\ x = inr tt).
Proof.
  intros (Hin & Hmode & Hs). apply post_on_realm. unfold writing, is_in_transaction in *. cbn [fst snd] in *.
  by destruct (transaction s.1).
Qed.

Lemma commit_post r w s : writing r w s -> writable r -> post commit_transaction s (λ s' x, x = inr tt
  /\ schema_mode s'.1 = schema_mode r /\ (exists g, snapshots s'.2 = snapshots w ++ [g])
  /\ transaction s'.1 = Reading (latest s'.2)).
Proof.
  intros (Hin & Hmode & Hs) Hw. destruct s as [r' w']. cbn [fst snd] in *. unfold commit_transaction.
  eapply post_step; [apply check_write_done; unfold writable; by rewrite Hmode|]. apply post_realm. cbn [fst]. rewrite Hin. cbn [negb].
  unfold is_in_transaction in Hin. destruct (transaction r') as [| | |v g|] eqn:E; try done.
  set (w1 := mkWorld (snapshots w' ++ [g]) (schema_cache w')). set (r1 := set_transaction (Reading (latest w1)) r').
  eapply post_step with (s' := (r1, w1)) (a := tt).
  { unfold commit_and_continue_as_read, get_realm, mbind, realm_bind. cbn [fst snd]. by rewrite E. }
  eapply post_weaken; [by apply cache_new_schema_post|]. intros [r2 w2] x (-> & Hw2 & Hr2). cbn [fst snd] in *.
  rewrite Hr2. split_and!; [done|exact Hmode|exists g; by rewrite Hw2, <-Hs|].
  cbn. unfold latest. by rewrite Hw2.
Qed.

Lemma cancel_post r w s : writing r w s -> writable r -> post cancel_transaction s (λ s' x,
  schema_mode s'.1 = schema_mode r /\ snapshots s'.2 = snapshots w /\ is_in_transaction s'.1 = false).
Proof.
  intros (Hin & Hmode & Hs) Hw. destruct s as [r' w']. cbn [fst snd] in *. unfold cancel_transaction.
  eapply post_step; [apply check_write_done; unfold writable; by rewrite Hmode|]. apply post_realm. cbn [fst]. rewrite Hin. cbn [negb].
  unfold rollback_and_continue_as_read. apply post_realm, post_world. cbn [fst snd]. unfold is_in_transaction in Hin.
  destruct (transaction r') as [| | |v g|] eqn:E; try done. apply post_bind, post_on_realm. cbn [fst snd next].
  intros s' x Hx. destruct (calm_handle_change _ _ _ _ Hx) as (-> & -> & Hout). split_and!; [exact Hmode|exact Hs|by apply Hout].
Qed.

Lemma update_schema_write_post schema version changes migration_function initialization_function r w s :
  writing r w s -> writable r ->
  post (update_schema_write schema version changes migration_function initialization_function false) s (λ s' x,
    schema_mode s'.1 = schema_mode r /\ is_in_transaction s'.1 = false
    /\ match x with
       | inl _ => snapshots s'.2 = snapshots w
       | inr _ => (exists g, snapshots s'.2 = snapshots w ++ [g]) /\ transaction s'.1 = Reading (latest s'.2)
       end).
Proof.
  intros Hwriting Hw. unfold update_schema_write. apply post_finally.
  apply post_weaken with (P := λ s' x, schema_mode s'.1 = schema_mode r /\ match x with
    | inl _ => writing r w s'
    | inr _ => (exists g, snapshots s'.2 = snapshots w ++ [g]) /\ transaction s'.1 = Reading (latest s'.2)
    end); cycle 1.
  - intros s1 x [Hmode Hx]. apply post_realm. cbn [negb andb]. destruct x as [e|a].
    + destruct (is_in_transaction s1.1) eqn:E; [|by destruct Hx as [? _]; congruence].
      eapply post_weaken; [by eapply cancel_post|]. cbn. tauto.
    + destruct Hx as [Hs Ht]. assert (is_in_transaction s1.1 = false) as Hin by (unfold is_in_transaction; by rewrite Ht).
      rewrite Hin. by apply post_ret.
  - assert (forall s1, writing r w s1 -> schema_mode s1.1 = schema_mode r /\ writing r w s1) as Hthrown
      by (intros s1 Hs; split; [apply Hs|exact Hs]).
    apply post_realm. destruct (writing_group _ _ _ Hwriting) as (v & g & Ht & Hg). eapply post_step; [exact Hg|].
    rewrite (proj1 Hwriting). eapply post_step; [done|]. apply post_bind, post_store; [|intros e _; by apply Hthrown].
    intros [schema' g'] _. cbn [next]. apply post_bind. eapply post_weaken; [by eapply writing_set_group|].
    intros s1 x [Hw1 ->]. cbn [next]. apply post_bind.
    apply post_weaken with (P := λ s2 x, writing r w s2).
    { case_match; [by apply post_ret|]. apply post_bind, post_store; [|done]. intros existing _. by apply post_asserts. }
    intros s2 [e|[]] Hw2; [by apply Hthrown|]. cbn [next]. apply post_bind.
    apply post_weaken with (P := λ s2 x, writing r w s2).
    { destruct initialization_function as [f|]; [|by apply post_ret]. case_bool_decide; [|by apply post_ret].
      apply post_bind, post_store; [|done]. intros g3 _. cbn [next]. eapply post_weaken; [by eapply writing_set_group|]. tauto. }
    intros s3 [e|[]] Hw3; [by apply Hthrown|]. cbn [next]. apply post_bind.
    eapply post_weaken; [by eapply commit_post|]. intros s4 x (-> & Hm & Hc). by apply post_ret.
Qed.

Lemma update_schema_finish_post schema version s : transaction s.1 = Reading (latest s.2) ->
  post (update_schema_finish schema version) s (λ s' x,
    x = inr tt /\ snapshots s'.2 = snapshots s.2 /\ transaction s'.1 = transaction s.1).
Proof.
  intros Ht s' x Hx. destruct s as [r w]. cbn [fst snd] in *. revert s' x Hx. unfold update_schema_finish.
  apply post_bind. intros s1 x Hx. revert Hx. unfold read_group, verify_open, current_group, get_realm, mbind, realm_bind.
  cbn [fst snd]. rewrite Ht. unfold mret, realm_ret. cbn [fst snd]. rewrite Ht.
  unfold m_group, option_bind. cbn [fst snd]. rewrite Ht. cbn [fst snd].
  destruct (snapshots w !! latest w) as [g|]; [|done]. intros [= <- <-]. cbn [next].
  apply post_bind, post_store; [|intros e He; by apply get_schema_version_not_raised in He]. intros v _. cbn [next].
  apply post_bind, post_on_realm. cbn [next]. by apply post_on_cache.
Qed.

(** Only the schema of the Realm and what it knows of versions. *)
Definition still (s s' : state) : Prop :=
  snapshots s'.2 = snapshots s.2 /\ schema_mode s'.1 = schema_mode s.1 /\ transaction s'.1 = transaction s.1.

#[export] Instance still_preorder : PreOrder still.
Proof. split; [by intros s|]. intros a b c (Ha & Hb & Hc) (Hd & He & Hf). unfold still. by rewrite Hd, He, Hf. Qed.

Lemma still_handle_change b : keeps still (handle_change b).
Proof.
  destruct b; [|by apply keeps_ret; apply _]. cbn [handle_change]. unfold schema_change_handler.
  apply keeps_bind; [apply _|apply keeps_current_group, _|]. intros g.
  do 2 (apply keeps_bind; [apply _|apply keeps_store, _|]; intros ?).
  intros s s' x [= <- _]. unfold still. cbn. by destruct (m_dynamic_schema s.1).
Qed.

Lemma promote_post s : post promote_to_write s (λ s' x,
  schema_mode s'.1 = schema_mode s.1 /\ snapshots s'.2 = snapshots s.2 /\ is_in_transaction s'.1 = true
  /\ (transaction s.1 = Reading (latest s.2) -> x = inr tt /\ m_new_schema s'.1 = m_new_schema s.1)).
Proof.
  destruct s as [r w]. unfold promote_to_write. apply post_realm, post_world. cbn [fst snd].
  destruct (transaction r) as [| |v| |] eqn:E; try done. destruct (snapshots w !! latest w) as [g|]; [|done].
  apply post_bind, post_on_realm. cbn [next]. intros s' x Hx.
  destruct (still_handle_change _ _ _ _ Hx) as (Hs & Hm & Ht). cbn [fst snd] in *.
  split_and!; [exact Hm|exact Hs|unfold is_in_transaction; by rewrite Ht|]. intros [= ->]. revert Hx.
  unfold schema_changed_between, over_versions. rewrite Nat.sub_diag. cbn. by intros [= <- <-].
Qed.

(** The decision changes nothing unless the file is to be reset. *)
Lemma needs_post schema changes version s : schema_mode s.1 <> ResetFile ->
  post (schema_change_needs_write_transaction schema changes version) s (λ s' x,
    s' = s /\ match x with inr (true, _) => writable s.1 | _ => True end).
Proof.
  intros Hreset. unfold schema_change_needs_write_transaction. apply post_realm.
  destruct (_ && _); [by apply post_ret|]. unfold writable. destruct (schema_mode s.1); [|..|done| |].
  - destruct (_ && _); [by apply post_raise|by apply post_ret].
  - case_bool_decide; [by apply post_raise|]. apply post_bind, post_check; [intros [] _; by apply post_ret|done].
  - apply post_bind, post_check; [intros [] _; by apply post_ret|done].
  - apply post_bind, post_check; [|done]. intros applies _. apply post_ret. split; [done|]. by case_match.
  - destruct (_ && _); [by apply post_raise|]. case_bool_decide; [|by apply post_ret]. by apply post_bind, post_check.
Qed.

Lemma update_schema_begin_post schema version changes between r w : writable r -> schema_mode r <> ResetFile ->
  post (update_schema_begin schema version changes between) (r, w) (λ s' x,
    schema_mode s'.1 = schema_mode r /\ snapshots s'.2 = snapshots w ++ between
    /\ match x with
       | inl _ => between = [] -> transaction r = Reading (latest w) -> m_new_schema r <> None
       | inr None => is_in_transaction s'.1 = false
       | inr (Some _) => is_in_transaction s'.1 = true
       end).
Proof.
  intros Hw Hreset. unfold update_schema_begin. set (w1 := mkWorld (snapshots w ++ between) (schema_cache w)).
  eapply post_step with (s' := (r, w1)) (a := tt); [done|]. apply post_bind.
  eapply post_weaken; [apply promote_post|]. intros s1 x (Hm & Hs & Hin & Hquiet). cbn [fst snd] in *.
  assert (writing r w1 s1) as Hwriting by done.
  assert (between = [] -> transaction r = Reading (latest w) -> x = inr tt /\ m_new_schema s1.1 = m_new_schema r) as Hnew.
  { intros -> Ht. apply Hquiet. rewrite Ht. unfold latest, w1. cbn. by rewrite app_nil_r. }
  clear Hquiet. destruct x as [e|[]]; cbn [next].
  { split_and!; [done..|]. intros Hb Ht. by destruct (Hnew Hb Ht). }
  destruct s1 as [r1 w2]. cbn [fst snd] in *. apply post_realm. cbn [fst].
  assert (forall Q : state -> realm_exception + option (list SchemaChange) -> Prop,
    (forall s' cs, schema_mode s'.1 = schema_mode r -> snapshots s'.2 = snapshots w ++ between ->
      is_in_transaction s'.1 = true -> Q s' (inr (Some cs))) ->
    forall cs, post (_ ← cache_new_schema; mret (Some cs)) (r1, w2) Q) as Hgo.
  { intros Q HQ cs. apply post_bind. unfold is_in_transaction in Hin.
    eapply post_weaken; [apply cache_new_schema_post; intros; by destruct (transaction r1)|].
    intros s2 x (-> & Hs2 & Hr2). cbn [next]. apply post_ret, HQ; rewrite ?Hr2; [done|by rewrite Hs2|done]. }
  destruct (m_new_schema r1) as [actual|] eqn:E; [|by apply Hgo].
  assert (between = [] -> transaction r = Reading (latest w) -> m_new_schema r <> None) as Hnever.
  { intros Hb Ht. destruct (Hnew Hb Ht) as [_ Hq]. congruence. }
  apply post_bind. eapply post_weaken; [apply needs_post; cbn [fst]; congruence|]. intros s2 x [-> Hx].
  destruct x as [e|[[] cs]]; cbn [next]; [done|by apply Hgo|].
  apply post_weaken with (P := λ s' x, schema_mode s'.1 = schema_mode r /\ snapshots s'.2 = snapshots w ++ between
    /\ is_in_transaction s'.1 = false /\ (forall o, x = inr o -> o = None)).
  2: { intros s2 y (? & ? & ? & Ho). split_and!; [done..|]. destruct y as [e|o]; [done|]. by rewrite (Ho o eq_refl). }
  apply post_bind. eapply post_weaken; [by eapply cancel_post|]. intros s2 y (Hm2 & Hs2 & Hin2).
  assert (post (_ ← cache_new_schema; _ ← set_schema actual schema; mret None) s2 (λ s' x, calm s2 s' /\ (forall o : option (list SchemaChange), x = inr o -> o = None))) as Hend.
  { apply post_and; [by apply keeps_bind; [apply _|apply calm_cache_new_schema|intros _]; apply keeps_bind; [apply _|apply calm_set_schema|intros _]; apply keeps_ret, _|].
    apply post_bind. intros s3 [e|[]] _; [done|]. apply post_bind. intros s4 [e|[]] _; [done|]. apply post_ret. by intros o [= <-]. }
  destruct y as [e|[]]; cbn [next]; [done|]. eapply post_weaken; [exact Hend|].
  intros s3 y ((Hs3 & Hm3 & Hin3) & Ho). rewrite Hs3, Hm3. split_and!; [done..|by apply Hin3|done].
Qed.

(** ** Reading *)

Definition idle (s s' : state) : Prop := still s s' /\ m_new_schema s'.1 = m_new_schema s.1.

#[export] Instance idle_preorder : PreOrder idle.
Proof.
  split; [by intros s|]. intros a b c [Hab Hn] [Hbc Hn']. split; [by etrans|congruence].
Qed.

Lemma idle_on_realm f : (forall r, schema_mode (f r) = schema_mode r /\ transaction (f r) = transaction r
  /\ m_new_schema (f r) = m_new_schema r) -> keeps idle (on_realm f).
Proof. intros Hf s s' x [= <- _]. by destruct (Hf s.1) as (? & ? & ?). Qed.
Lemma idle_with_coordinator f : keeps idle (with_coordinator (on_cache f)).
Proof.
  intros s. unfold with_coordinator. apply post_realm. destruct (has_coordinator _); [by apply post_on_cache|by apply post_ret].
Qed.
Lemma idle_read_schema : keeps idle read_schema_from_group_if_needed.
Proof.
  unfold read_schema_from_group_if_needed.
  apply keeps_bind; [apply _|apply keeps_current_group, _|]. intros g.
  apply keeps_bind; [apply _|apply keeps_get_realm, _|]. intros r. case_bool_decide; [apply keeps_ret, _|].
  apply keeps_bind; [apply _|by apply idle_on_realm|]. intros _.
  apply keeps_bind; [apply _|apply keeps_store, _|]. intros version.
  apply keeps_bind; [apply _|by apply idle_on_realm|]. intros _.
  apply keeps_bind; [apply _|apply keeps_store, _|]. intros schema.
  apply keeps_bind; [apply _|apply idle_with_coordinator|]. intros _.
  case_match; [apply idle_on_realm; intros r'; by case_match|].
  apply keeps_bind; [apply _|apply keeps_check, _|]. intros _. by apply idle_on_realm.
Qed.

Lemma begin_read_post s : post begin_read s (λ s' _,
  snapshots s'.2 = snapshots s.2 /\ schema_mode s'.1 = schema_mode s.1
  /\ transaction s'.1 = Reading (latest s'.2) /\ m_new_schema s'.1 = m_new_schema s.1).
Proof.
  destruct s as [r w]. unfold begin_read. apply post_world, post_bind, post_on_realm. cbn [next fst snd].
  intros s' x Hx. destruct (idle_read_schema _ _ _ Hx) as [(Hs & Hm & Ht) Hn]. cbn [fst snd] in *.
  split_and!; [done..| |done]. rewrite Ht. cbn. unfold latest. by rewrite Hs.
Qed.

Lemma read_group_reading_post v s : transaction s.1 = Reading v -> post read_group s (λ s' _, s' = s).
Proof.
  intros Ht. unfold read_group, verify_open. apply post_bind. intros s1 x Hx.
  assert (s1 = s) as -> by (revert Hx; unfold get_realm, mbind, realm_bind; rewrite Ht; by intros [= <- _]).
  destruct x as [e|[]]; [done|]. cbn [next]. apply post_realm. rewrite Ht. eapply post_step; [done|].
  intros s2 y. unfold current_group. destruct (m_group s.1 s.2); [|done]. by intros [= <- _].
Qed.

(** The Realm is at the latest version, and knows it. *)
Definition up_to_date (s : state) : Prop := transaction s.1 = Reading (latest s.2) /\ m_new_schema s.1 = None.

Definition well_staged (r : Realm) : Prop := forall g, transaction r = ReadOnlyGroup g -> schema_mode r = Immutable.

Lemma advance_read_post s : post advance_read s (λ s' x,
  snapshots s'.2 = snapshots s.2 /\ (forall b, x = inr b -> transaction s'.1 = Reading (latest s'.2))).
Proof.
  destruct s as [r w]. unfold advance_read. apply post_realm, post_world. cbn [fst snd].
  destruct (transaction r) as [| |v| |]; try done. destruct (negb _); [by apply post_raise|].
  apply post_bind, post_on_realm. cbn [next]. apply post_bind. intros s' x Hx.
  destruct (still_handle_change _ _ _ _ Hx) as (Hs & Hm & Ht). cbn [fst snd] in *.
  destruct x as [e|[]]; cbn [next]; [done|]. apply post_ret. split; [done|]. intros b _. rewrite Ht. cbn. unfold latest. by rewrite Hs.
Qed.

Lemma translate_raises {A} s : post (translate_schema_error : realmM A) s (λ _ x, exists e, x = inl e).
Proof.
  unfold translate_schema_error. apply post_realm, post_world. do 3 (apply post_bind; intros ? [?|?] _; cbn [next]; [by eexists|]).
  apply post_raise. by eexists.
Qed.

Lemma translating_post {A} (m : realmM A) s (Q : state -> A -> Prop) :
  post m s (λ s' x, forall a, x = inr a -> Q s' a) -> post (translating m) s (λ s' x, forall a, x = inr a -> Q s' a).
Proof.
  intros Hm s' x. unfold translating. destruct (m s) as [[s1 [e|a]]|] eqn:E; [|by intros [= <- <-]; apply (Hm _ _ E)|done].
  destruct e; try (by intros [= <- <-]). intros Ht a ->. by destruct (translate_raises _ _ _ Ht) as [e' ?].
Qed.

Lemma read_group_post s : (forall g, transaction s.1 <> ReadOnlyGroup g) -> is_in_transaction s.1 = false ->
  (forall v, transaction s.1 <> Reading v) -> m_new_schema s.1 = None ->
  post read_group s (λ s' x, forall g, x = inr g -> up_to_date s').
Proof.
  intros Hshared Hin Hread Hnew. unfold read_group, verify_open. apply post_bind, post_realm.
  unfold is_in_transaction in Hin. destruct (transaction s.1) as [g| |v|v g|] eqn:E; try done;
    [by destruct (Hshared g)| |by destruct (Hread v)|by apply post_raise].
  apply post_ret. cbn [next]. apply post_realm. rewrite E. apply post_bind.
  eapply post_weaken; [apply begin_read_post|]. intros s1 [e|[]] (Hs & Hm & Ht & Hn); cbn [next]; [done|].
  intros s2 x. unfold current_group. destruct (m_group s1.1 s1.2); [|done]. intros [= <- <-] g' _.
  split; [done|congruence].
Qed.

Lemma refresh_post s : is_in_transaction s.1 = false -> m_new_schema s.1 = None -> (forall g, transaction s.1 <> ReadOnlyGroup g) ->
  post refresh s (λ s' x, forall b, x = inr b -> up_to_date s').
Proof.
  intros Hin Hnew Hshared. unfold refresh. apply post_bind. unfold check_read_write. apply post_realm.
  destruct (read_only _); [by apply post_raise|]. apply post_ret. cbn [next]. apply post_realm. rewrite Hin.
  assert ((forall v, transaction s.1 <> Reading v) -> post (_ ← read_group; mret true) s (λ s' x, forall b, x = inr b -> up_to_date s')) as Hgroup.
  { intros Hr. apply post_bind. eapply post_weaken; [by apply read_group_post|]. intros s1 [e|g] Hg; cbn [next]; [done|].
    apply post_ret. intros b _. by eapply Hg. }
  destruct (transaction s.1) as [g| |v|v g|] eqn:E; try by apply Hgroup.
  apply post_bind. eapply post_weaken; [apply (translating_post _ _ (λ s' _, up_to_date s'))|].
  - apply post_bind. eapply post_weaken; [apply advance_read_post|]. intros s1 [e|b] [Hs Hb]; cbn [next]; [done|].
    specialize (Hb b eq_refl). destruct s1 as [r1 w1]. cbn [fst snd] in *. apply post_bind.
    eapply post_weaken; [apply cache_new_schema_post; by rewrite Hb|]. intros [r2 w2] x (-> & Hs2 & Hr2). cbn [next fst snd] in *.
    apply post_ret. intros b' _. rewrite Hr2. split; [|done]. cbn. rewrite Hb. unfold latest. by rewrite Hs2.
  - intros s1 [e|b] Hb; cbn [next]; [done|]. apply post_ret. intros b' _. by eapply Hb.
Qed.

Lemma get_full_schema_post s : is_in_transaction s.1 = false -> m_new_schema s.1 = None -> (forall g, transaction s.1 <> ReadOnlyGroup g) ->
  post get_full_schema s (λ s' x, forall schema, x = inr schema -> up_to_date s').
Proof.
  intros Hin Hnew Hshared. unfold get_full_schema. apply post_realm, post_bind.
  apply post_weaken with (P := λ s' x, forall b, x = inr b -> up_to_date s').
  { pose proof (refresh_post s Hin Hnew Hshared). destruct (transaction s.1) as [g| | | |] eqn:E; try done. by destruct (Hshared g). }
  intros s1 [e|b] Hb; cbn [next]; [done|]. destruct (Hb b eq_refl) as [Ht Hn].
  apply post_weaken with (P := λ s' _, s' = s1); [|by intros s' x -> ? _].
  apply post_realm. destruct (m_dynamic_schema _); [by apply post_ret|]. rewrite Ht. apply post_world.
  assert (post (g ← read_group; store (schema_from_group g)) s1 (λ s' _, s' = s1)) as Hread.
  { apply post_bind. eapply post_weaken; [by eapply read_group_reading_post|]. intros s2 [e|g] ->; cbn [next]; [done|]. by apply post_store. }
  destruct (get_cached_schema _) as [[[actual version] t]|]; [|done]. case_bool_decide; [by apply post_ret|done].
Qed.

(** ** The whole update *)

(** An exception leaves the file as the others wrote it; otherwise at most one
    snapshot is added to theirs, and no transaction is left. *)
Definition all_or_nothing (between : list group) (w : World) (s' : state) (x : realm_exception + unit) : Prop :=
  match x with
  | inl _ => snapshots s'.2 = snapshots w \/ snapshots s'.2 = snapshots w ++ between
  | inr _ => is_in_transaction s'.1 = false
      /\ (snapshots s'.2 = snapshots w \/ snapshots s'.2 = snapshots w ++ between
          \/ exists g, snapshots s'.2 = snapshots w ++ between ++ [g])
  end
  /\ (between = [] -> is_in_transaction s'.1 = false).

Lemma all_or_nothing_calm between w s s' x : snapshots s.2 = snapshots w -> is_in_transaction s.1 = false ->
  calm s s' -> all_or_nothing between w s' x.
Proof.
  intros Hs Hin (Hs' & _ & Hin'). specialize (Hin' Hin). rewrite Hs in Hs'. destruct x as [e|u]; split; auto.
Qed.

(** From the changes on. *)
Lemma update_schema_apply_post schema version changes migration_function initialization_function between r w :
  writable r -> schema_mode r <> ResetFile -> up_to_date (r, w) ->
  post (begun ← update_schema_begin schema version changes between;
        match begun with
        | None => mret tt
        | Some required_changes =>
            schema ← update_schema_write schema version required_changes migration_function initialization_function false;
            update_schema_finish schema version
        end) (r, w) (all_or_nothing between w).
Proof.
  intros Hw Hreset [Ht Hnew]. cbn [fst snd] in *. apply post_bind.
  eapply post_weaken; [by apply update_schema_begin_post|]. intros s1 [e|[changes'|]] (Hm & Hs & Hx); cbn [next].
  - split; [by right|]. intros Hb. by destruct (Hx Hb Ht).
  - apply post_bind. eapply post_weaken;
      [apply (update_schema_write_post _ _ _ _ _ s1.1 s1.2 s1); [by split_and!|unfold writable; by rewrite Hm]|].
    intros s2 [e|schema'] (Hm2 & Hin2 & Hs2); cbn [next].
    + split; [right; by rewrite Hs2|done].
    + destruct Hs2 as [[g Hg] Ht2]. eapply post_weaken; [by apply update_schema_finish_post|].
      intros s3 y (-> & Hs3 & Ht3). assert (is_in_transaction s3.1 = false) as Hin3 by (unfold is_in_transaction; by rewrite Ht3, Ht2).
      split; [|done]. split; [done|]. right; right. exists g. by rewrite Hs3, Hg, Hs, <-app_assoc.
  - apply post_ret. split; [|done]. split; [done|]. by right; left.
Qed.

Lemma update_schema_post schema version migration_function initialization_function between r w :
  is_in_transaction r = false -> m_new_schema r = None -> well_staged r -> schema_mode r <> ResetFile ->
  post (update_schema schema version migration_function initialization_function false between) (r, w) (all_or_nothing between w).
Proof.
  intros Hin Hnew Hstaged Hreset. assert (forall x, all_or_nothing between w (r, w) x) as Hsame
    by (intros x; by apply all_or_nothing_calm with (s := (r, w))).
  unfold update_schema. apply post_bind. intros s1 errors He.
  assert (s1 = (r, w)) as -> by (revert He; by destruct (validate schema); [intros [= <- _]|]).
  destruct errors as [e|errors]; [apply Hsame|]. cbn [next]. apply post_bind.
  destruct (bool_decide (errors = [])); [|apply post_raise, Hsame]. apply post_ret. cbn [next]. apply post_bind.
  eapply post_weaken; [apply post_and; [apply calm_get_full_schema|
    apply (post_weaken _ _ (λ s' x, (forall g, transaction r <> ReadOnlyGroup g) -> forall schema, x = inr schema -> up_to_date s'))]|].
  { intros s' x Hx Hshared. by apply (get_full_schema_post (r, w) Hin Hnew Hshared s' x). }
  { intros s' x Hx. exact Hx. }
  intros [r1 w1] x [Hcalm Hup]. pose proof Hcalm as (Hs1 & Hm1 & Hin1). cbn [fst snd] in *. specialize (Hin1 Hin).
  destruct x as [e|actual]; cbn [next]; [by apply all_or_nothing_calm with (s := (r, w))|].
  apply post_bind. eapply post_weaken; [apply needs_post; cbn [fst]; congruence|]. intros s2 x [-> Hx].
  destruct x as [e|[[] changes]]; cbn [next negb].
  - by apply all_or_nothing_calm with (s := (r, w)).
  - cbn [fst] in Hx. assert (forall g, transaction r <> ReadOnlyGroup g) as Hshared.
    { intros g Hg%Hstaged. unfold writable in Hx. by rewrite Hm1, Hg in Hx. }
    eapply post_weaken; [apply update_schema_apply_post; [done|congruence|by eapply Hup]|].
    intros s3 y. unfold all_or_nothing. by rewrite Hs1.
  - intros s3 y Hy. apply all_or_nothing_calm with (s := (r1, w1)); [done..|]. by eapply calm_set_schema.
Qed.

(** ** The second look at the schema *)

Definition readable (g : group) : Prop :=
  exists s v, schema_from_group g = Done s /\ get_schema_version g = Done v.

(** What the decision says of a file with the schema [actual] at [file_version]. *)
Definition look (schema : Schema) (version : Z) (actual : Schema) (file_version : Z) (s : Realm * World)
  : option (realm_exception + (bool * list SchemaChange)) :=
  snd <$> schema_change_needs_write_transaction schema (compare actual schema false) version (set_m_schema_version file_version s.1, s.2).

(** It depends on the mode and on the version only. *)
Lemma needs_depends schema changes version s s' : schema_mode s.1 <> ResetFile -> schema_mode s'.1 = schema_mode s.1 ->
  m_schema_version s'.1 = m_schema_version s.1 ->
  snd <$> schema_change_needs_write_transaction schema changes version s' = snd <$> schema_change_needs_write_transaction schema changes version s.
Proof using Type.
  intros Hreset Hm Hv. unfold schema_change_needs_write_transaction, get_realm, mbind, realm_bind. cbn [fst snd]. rewrite Hm, Hv.
  destruct (_ && _); [done|]. destruct (schema_mode s.1); try done.
  - by destruct (_ && _).
  - destruct (bool_decide _); [done|]. by destruct (verify_compatible_for_immutable_and_readonly changes).
  - by destruct (verify_compatible_for_immutable_and_readonly changes).
  - by destruct (verify_valid_additive_changes _ _).
  - destruct (_ && _); [done|]. destruct (bool_decide _); [|done]. by destruct (verify_no_changes_required changes).
Qed.

(** Others have brought the file from [w] to [w'] with another schema, of which the
    decision throws [e]. *)
Definition refused (schema : Schema) (version : Z) (s : Realm * World) (w' : World) (e : realm_exception) : Prop :=
  schema_changed_between w' (latest s.2) (latest w') = true
  /\ exists g new new_version, snapshots w' !! latest w' = Some g /\ schema_from_group g = Done new
       /\ get_schema_version g = Done new_version /\ look schema version new new_version s = Some (inl e).

(** The handler succeeds on a file that can be read. *)
Lemma handler_reads r w g s v : m_group r w = Some g -> schema_from_group g = Done s -> get_schema_version g = Done v ->
  exists r', schema_change_handler (r, w) = Some (r', w, inr tt) /\ schema_mode r' = schema_mode r /\ transaction r' = transaction r
    /\ m_schema_version r' = v /\ m_new_schema r' = Some s /\ has_coordinator r' = has_coordinator r
    /\ m_schema_transaction_version r' = m_schema_transaction_version r.
Proof using Type.
  intros Hg Hs Hv. unfold schema_change_handler. assert (current_group (r, w) = Some (r, w, inr g)) as Hcur by (unfold current_group; cbn [fst snd]; by rewrite Hg).
  rewrite (run_step _ _ _ _ _ Hcur), Hs, (run_step _ _ _ (r, w) s), Hv, (run_step _ _ _ (r, w) v) by done.
  eexists. split; [reflexivity|]. cbn. by destruct (m_dynamic_schema r).
Qed.

Lemma handle_change_reads b r w g : m_group r w = Some g -> readable g -> exists r', handle_change b (r, w) = Some (r', w, inr tt)
  /\ schema_mode r' = schema_mode r /\ transaction r' = transaction r.
Proof using Type.
  intros Hg (s & v & Hs & Hv). destruct b; [|by exists r]. destruct (handler_reads r w g s v) as (r' & ? & ? & ? & _); [done..|]. by exists r'.
Qed.

Lemma promote_reads r w v g : transaction r = Reading v -> snapshots w !! latest w = Some g -> readable g ->
  exists r', promote_to_write (r, w) = Some (r', w, inr tt) /\ schema_mode r' = schema_mode r /\ transaction r' = Writing (latest w) g
    /\ ((schema_changed_between w v (latest w) = false /\ m_new_schema r' = m_new_schema r)
        \/ (schema_changed_between w v (latest w) = true /\ exists new, schema_from_group g = Done new /\ m_new_schema r' = Some new
            /\ get_schema_version g = Done (m_schema_version r'))).
Proof using Type.
  intros Ht Hg (s & n & Hs & Hn). set (r1 := set_transaction (Writing (latest w) g) r).
  assert (promote_to_write (r, w) = handle_change (schema_changed_between w v (latest w)) (r1, w)) as ->.
  { unfold promote_to_write. rewrite (run_step _ _ _ (r, w) r), (run_step _ _ _ (r, w) w) by done. rewrite Ht, Hg. by rewrite (run_step _ _ _ (r1, w) tt). }
  destruct (schema_changed_between w v (latest w)).
  - destruct (handler_reads r1 w g s n) as (r' & Hr & Hm & Htr & Hv & Hnew & _); [done..|]. exists r'. split_and!; [done..|]. right. split; [done|].
    exists s. by rewrite Hv.
  - exists r1. split_and!; [done..|]. by left.
Qed.

Lemma cancel_reads r w v g g0 : writable r -> transaction r = Writing v g -> snapshots w !! v = Some g0 -> readable g0 ->
  exists r', cancel_transaction (r, w) = Some (r', w, inr tt) /\ transaction r' = Reading v.
Proof using Type.
  intros Hw Ht Hg0 Hread. unfold cancel_transaction. rewrite (run_step _ _ _ _ _ (check_write_done r w Hw)), (run_step _ _ _ (r, w) r) by done.
  unfold is_in_transaction. rewrite Ht. cbn [negb]. unfold rollback_and_continue_as_read.
  rewrite (run_step _ _ _ (r, w) r), (run_step _ _ _ (r, w) w) by done. rewrite Ht, Hg0.
  set (r1 := set_transaction (Reading v) r). rewrite (run_step _ _ _ (r1, w) tt) by done.
  destruct (handle_change_reads (schema_changed g g0) r1 w g0) as (r' & Hr & _ & Htr); [done..|]. by exists r'.
Qed.

(** The second look at the schema: it is the only part that throws. *)
Lemma begin_refuses schema version changes between r w : writable r -> schema_mode r <> ResetFile -> transaction r = Reading (latest w) ->
  m_new_schema r = None -> Forall readable (snapshots w ++ between) ->
  let w' := mkWorld (snapshots w ++ between) (schema_cache w) in
  post (update_schema_begin schema version changes between) (r, w) (λ s' x, match x with
    | inl e => is_in_transaction s'.1 = true /\ refused schema version (r, w) w' e
    | inr _ => forall e, ~ refused schema version (r, w) w' e
    end).
Proof using Type.
  intros Hw Hreset Ht Hnew Hall w'. unfold update_schema_begin. eapply post_step with (s' := (r, w')) (a := tt); [done|].
  destruct (snapshots w' !! latest w') as [g|] eqn:Hg.
  2: { apply post_bind. unfold promote_to_write. apply post_realm, post_world. cbn [fst snd]. by rewrite Ht, Hg. }
  rewrite Forall_forall in Hall. assert (readable g) as Hread by (eapply Hall, list_elem_of_lookup_2, Hg).
  destruct (promote_reads r w' (latest w) g) as (r1 & Hpro & Hm1 & Ht1 & Hcase); [done..|]. eapply post_step; [exact Hpro|].
  assert (forall (cs : list SchemaChange) (P : Prop), P -> post (_ ← cache_new_schema; mret (Some cs)) (r1, w') (λ s' x, match x with inl e => False | inr _ => P end)) as Hgo.
  { intros cs P HP. apply post_bind. eapply post_weaken; [apply cache_new_schema_post; by rewrite Ht1|]. intros s2 x (-> & _). cbn [next]. by apply post_ret. }
  apply post_realm. cbn [fst]. destruct Hcase as [[Hsame Hn1]|(Hchanged & new & Hs & Hn1 & Hver)]; rewrite Hn1.
  { rewrite Hnew. eapply post_weaken; [apply (Hgo _ (forall e, ~ refused schema version (r, w) w' e))|by intros s' [e|o]].
    intros e [Hc _]. cbn [snd] in Hc. congruence. }
  assert (forall e, refused schema version (r, w) w' e <-> look schema version new (m_schema_version r1) (r, w) = Some (inl e)) as Hlook.
  { intros e. split; [intros (_ & g' & a & n & Hg' & Ha & Hn' & Hl); congruence|]. intros Hl. split; [done|].
    by exists g, new, (m_schema_version r1). }
  assert (look schema version new (m_schema_version r1) (r, w) = snd <$> schema_change_needs_write_transaction schema (compare new schema false) version (r1, w')) as Hsame.
  { unfold look. by rewrite (needs_depends schema _ version (set_m_schema_version (m_schema_version r1) r, w) (r1, w')). }
  apply post_bind. intros s2 x Hx. rewrite Hx in Hsame. cbn [fmap option_fmap option_map snd] in Hsame.
  destruct (needs_post schema (compare new schema false) version (r1, w') ltac:(cbn [fst]; congruence) _ _ Hx) as [-> _].
  destruct x as [e|[b cs]]; cbn [next].
  { split; [cbn [fst]; unfold is_in_transaction; by rewrite Ht1|by apply Hlook]. }
  assert (forall e, ~ refused schema version (r, w) w' e) as Hno by (intros e; rewrite Hlook; congruence).
  destruct b; [eapply post_weaken; [by apply (Hgo cs _ Hno)|by intros s' [e|o]]|].
  destruct (cancel_reads r1 w' (latest w') g g) as (r2 & Hcancel & Ht2); [unfold writable; by rewrite Hm1|done..|].
  eapply post_step; [exact Hcancel|]. apply post_bind. eapply post_weaken; [apply cache_new_schema_post; by rewrite Ht2|].
  intros s3 x (-> & _). cbn [next]. eapply post_step; [done|]. by apply post_ret.
Qed.

(** ** Updates in a transaction of the application *)

(** What an update in such a transaction leaves alone. *)
Definition stays (s s' : state) : Prop := snapshots s'.2 = snapshots s.2
  /\ m_schema_transaction_version_max (schema_cache s'.2) = m_schema_transaction_version_max (schema_cache s.2)
  /\ schema_mode s'.1 = schema_mode s.1 /\ has_coordinator s'.1 = has_coordinator s.1 /\ m_new_schema s'.1 = m_new_schema s.1
  /\ m_schema_transaction_version s'.1 = m_schema_transaction_version s.1
  /\ forall v g, transaction s.1 = Writing v g -> exists g', transaction s'.1 = Writing v g'.

#[export] Instance stays_preorder : PreOrder stays.
Proof.
  split; [intros s; split_and!; eauto|]. intros a b c (A1 & A2 & A3 & A4 & A5 & A6 & A7) (B1 & B2 & B3 & B4 & B5 & B6 & B7).
  split_and!; try congruence. intros v g (g' & Hg')%A7. by eapply B7.
Qed.

Lemma stays_on_realm f : (forall r, schema_mode (f r) = schema_mode r /\ has_coordinator (f r) = has_coordinator r /\ m_new_schema (f r) = m_new_schema r
  /\ m_schema_transaction_version (f r) = m_schema_transaction_version r /\ forall v g, transaction r = Writing v g -> exists g', transaction (f r) = Writing v g') ->
  keeps stays (on_realm f).
Proof using Type. intros Hf s s' x [= <- _]. destruct (Hf s.1) as (? & ? & ? & ? & ?). by split_and!. Qed.

Lemma stays_set_group g : keeps stays (set_group g).
Proof using Type.
  apply stays_on_realm. intros r. destruct (transaction r) eqn:E; split_and!; try done; intros v' g' [= <- <-]. by eexists.
Qed.

Lemma stays_read_group s : is_in_transaction s.1 = true -> post read_group s (λ s' x, s' = s).
Proof using Type.
  unfold is_in_transaction. destruct s as [r w]. cbn [fst]. destruct (transaction r) as [| | |v g|] eqn:E; try done. intros _ s' x.
  rewrite (read_group_open r w g) by (try congruence; unfold m_group; by rewrite E). by intros [= <- _].
Qed.

Lemma stays_in s s' : stays s s' -> is_in_transaction s.1 = true -> is_in_transaction s'.1 = true.
Proof using Type.
  intros (_ & _ & _ & _ & _ & _ & Ht). unfold is_in_transaction. destruct (transaction s.1) as [| | |v g|] eqn:E; try done. intros _.
  by destruct (Ht v g eq_refl) as [g' ->].
Qed.

Lemma full_schema_writing s : is_in_transaction s.1 = true -> post get_full_schema s (λ s' x, s' = s).
Proof using Type.
  intros Hin. unfold get_full_schema. apply post_realm. apply post_bind.
  apply post_weaken with (P := λ s' x, s' = s).
  { destruct (transaction s.1) eqn:E; try (by apply post_ret); unfold is_in_transaction in Hin; rewrite E in Hin; try done.
    unfold refresh. apply post_bind. unfold check_read_write. apply post_realm. destruct (read_only _); [by apply post_raise|]. apply post_ret. cbn [next].
    apply post_realm. unfold is_in_transaction. rewrite E. by apply post_ret. }
  intros s1 [e|b] ->; cbn [next]; [done|]. apply post_realm. destruct (m_dynamic_schema s.1); [by apply post_ret|].
  assert (post (g ← read_group; store (schema_from_group g)) s (λ s' _, s' = s)) as Hread.
  { apply post_bind. eapply post_weaken; [by apply stays_read_group|]. intros s2 [e|g] ->; cbn [next]; [done|]. by apply post_store. }
  destruct (transaction s.1) eqn:E; try (unfold is_in_transaction in Hin; by rewrite E in Hin). apply post_world.
  destruct (get_cached_schema _) as [[[a n] t]|]; [|done]. case_bool_decide; [by apply post_ret|done].
Qed.

Lemma write_stays schema version changes migration_function initialization_function s : is_in_transaction s.1 = true ->
  post (update_schema_write schema version changes migration_function initialization_function true) s (λ s' x, stays s s').
Proof using Type.
  intros Hin. unfold update_schema_write. apply post_finally.
  eapply post_weaken with (P := λ s' x, stays s s'); [|intros s1 x Hs; apply post_realm; cbn [negb andb]; by apply post_ret].
  apply post_realm, post_bind. eapply post_weaken; [by apply stays_read_group|]. intros s1 [e|g] ->; cbn [next]; [done|].
  rewrite Hin. eapply post_step; [done|]. apply post_bind, post_store; [|by intros; cbn [next]]. intros [schema' g'] _. cbn [next]. apply post_bind.
  intros s2 x Hx%stays_set_group. destruct x as [e|[]]; cbn [next]; [done|]. apply post_bind.
  eapply post_weaken with (P := λ s' x, stays s s').
  { destruct (_ || _); [by apply post_ret|]. apply post_bind, post_store; [|by intros; cbn [next]]. intros existing _. by apply post_asserts. }
  intros s3 [e|[]] Hs3; cbn [next]; [done|]. apply post_bind. eapply post_weaken with (P := λ s' x, stays s s').
  { destruct initialization_function as [f|]; [|by apply post_ret]. case_bool_decide; [|by apply post_ret]. apply post_bind, post_store; [|by intros; cbn [next]]. intros g3 _. cbn [next].
    intros s4 y Hy%stays_set_group. by etrans. }
  intros s4 [e|[]] Hs4; cbn [next]; [done|]. eapply post_step; [done|]. by apply post_ret.
Qed.

Lemma update_stays schema version migration_function initialization_function s : is_in_transaction s.1 = true -> schema_mode s.1 <> ResetFile ->
  post (update_schema schema version migration_function initialization_function true []) s (λ s' x, stays s s').
Proof using Type.
  intros Hin Hreset. assert (forall ref sch s, post (set_schema ref sch) s (λ s' x, stays s s')) as Hset by (intros ref sch s0; apply stays_on_realm; intros r; split_and!; try done; intros v g Hg; by exists g).
  unfold update_schema. apply post_bind. intros s0 errors Hv. destruct (validate schema) as [es|]; cbn [mbind option_bind] in Hv; [|done].
  injection Hv as <- <-. cbn [next]. apply post_bind. case_bool_decide; [|apply post_raise; by cbn [next]]. apply post_ret. cbn [next]. apply post_bind.
  eapply post_weaken; [by apply full_schema_writing|]. intros s1 [e|actual] ->; cbn [next]; [done|]. apply post_bind.
  eapply post_weaken; [by apply needs_post|]. intros s1 [e|[b cs]] [-> _]; cbn [next]; [done|]. destruct b; cbn [negb]; [|apply Hset].
  eapply post_step; [done|]. apply post_bind. eapply post_weaken; [by apply write_stays|]. intros s1 [e|sch] Hs1; cbn [next]; [done|].
  unfold update_schema_finish. apply post_bind. eapply post_weaken; [apply stays_read_group; by eapply stays_in|].
  intros s2 [e|g] ->; cbn [next]; [done|]. apply post_bind, post_store; [|by intros; cbn [next]]. intros v _. cbn [next]. apply post_bind, post_on_realm. cbn [next].
  intros s3 x. unfold on_cache, on_world. cbn. intros [= <- _]. etrans; [exact Hs1|]. split_and!; try done. intros v' g' Hg. by exists g'.
Qed.

Lemma latest_snoc w g c : snapshots w <> [] -> latest (mkWorld (snapshots w ++ [g]) c) = S (latest w).
Proof using Type. intros Hne. unfold latest. cbn. rewrite length_app. cbn. destruct (snapshots w); [done|cbn; lia]. Qed.

(** Reading the schema of the latest version. *)
Lemma begin_read_reads r w g s n : snapshots w !! latest w = Some g -> schema_from_group g = Done s -> get_schema_version g = Done n ->
  m_schema_transaction_version r <> Z.of_nat (latest w) -> has_coordinator r = true ->
  post begin_read (r, w) (λ s' x, s'.2 = mkWorld (snapshots w) (cache_schema s n (Z.of_nat (latest w)) (schema_cache w))
    /\ transaction s'.1 = Reading (latest w) /\ m_schema_version s'.1 = n /\ m_new_schema s'.1 = m_new_schema r
    /\ has_coordinator s'.1 = true /\ schema_mode s'.1 = schema_mode r).
Proof using Type.
  intros Hg Hs Hn Hv Hc. unfold begin_read. apply post_world, post_bind, post_on_realm. cbn [next fst snd].
  set (r1 := set_transaction (Reading (latest w)) r). unfold read_schema_from_group_if_needed.
  eapply post_step with (s' := (r1, w)); [unfold current_group, m_group; cbn [fst snd transaction r1 set_transaction]; by rewrite Hg|].
  apply post_realm. cbn [fst]. rewrite bool_decide_false by done. eapply post_step; [done|]. rewrite Hn. eapply post_step; [done|].
  eapply post_step; [done|]. rewrite Hs. eapply post_step; [done|]. cbn [fst snd]. set (r2 := set_m_schema_version n _).
  set (w2 := mkWorld (snapshots w) (cache_schema s n (Z.of_nat (latest w)) (schema_cache w))).
  eapply post_step with (s' := (r2, w2)) (a := tt).
  { unfold with_coordinator. rewrite (run_step _ _ _ (r2, w) r2) by done. change (has_coordinator r2) with (has_coordinator r). by rewrite Hc. }
  destruct (m_dynamic_schema r1).
  - apply post_on_realm. cbn [fst snd]. destruct (schema_eq _ _); by split_and!.
  - apply post_bind, post_check; [intros [] _|intros e]; cbn [next]; [apply post_on_realm|]; by split_and!.
Qed.

End realm.
