(* ===== verification/RealmCache.v ===== *)
(** * The cached schema

    The Realms of a process share the schema of a range of versions. While only
    others change the schema of the file, the cache tells the truth about its tables
    and columns, and none of its assertions fails. *)

From S2P Require Import Prelude Property ChangeBuilder ObjectSchema SchemaChanges SchemaFacts CompareFacts.
From S2P Require Import Core ObjectStore SchemaUpdate SchemaCreation SharedRealm RealmFacts.

#[local] Open Scope string_scope.
#[local] Open Scope list_scope.

(** ** Tables and columns *)

(** A column but for its search index. *)
Definition same_column (c c' : Column) : Prop := with_search_index false c = with_search_index false c'.

(** The same tables with the same columns at the same places, whatever their rows
    and search indexes. *)
Definition same_tables `{Core} (g g' : group) : Prop := forall t,
  match table g t, table g' t with
  | Some tbl, Some tbl' => Forall2 same_column (columns tbl) (columns tbl')
  | None, None => True
  | _, _ => False
  end.

(** What a schema says of tables and columns; the rest, which properties are
    primary keys or have an index, is in rows and search indexes. *)
Definition layout_property (p : Property) : Property :=
  mkProperty (name p) (public_name p) (type p) (object_type p) (link_origin_property_name p) false false (table_column p).
Definition layout_object (o : ObjectSchema) : ObjectSchema :=
  mkObjectSchema (os_name o) (layout_property <$> persisted_properties o) (layout_property <$> computed_properties o) "".
Definition layout (s : Schema) : Schema := layout_object <$> s.

Section layout.
Context `{Build, HC : Core, HL : !CoreLaws, Features, StdOrders}.

Lemma layout_set_primary_key o : layout_object (set_primary_key_property o) = layout_object o.
Proof using Type.
  assert (forall n ps ps', update_property n make_primary ps = Some ps' -> layout_property <$> ps' = layout_property <$> ps) as Hup.
  { intros n. induction ps as [|p ps IH]; intros ps' Hu; cbn [update_property] in Hu; [done|].
    case_bool_decide; [by injection Hu as <-|]. destruct (update_property n make_primary ps) as [qs|]; cbn in Hu; [|done].
    injection Hu as <-. cbn. f_equal. by apply IH. }
  unfold set_primary_key_property, set_property. case_bool_decide; [done|].
  destruct (update_property _ _ (persisted_properties o)) eqn:E1; [unfold layout_object; cbn; by rewrite (Hup _ _ _ E1)|].
  destruct (update_property _ _ (computed_properties o)) eqn:E2; [unfold layout_object; cbn; by rewrite (Hup _ _ _ E2)|done].
Qed.

(** How two columns are read that differ by their index only. *)
Lemma property_of_same_column c c' i : same_column c c' ->
  match property_for_column_index c i, property_for_column_index c' i with
  | Done p, Done p' => layout_property <$> p = layout_property <$> p'
  | x, y => x = y
  end.
Proof using Type.
  destruct c as [n ty nullable idx target subs], c' as [n' ty' nullable' idx' target' subs']. unfold same_column, with_search_index. cbn.
  intros [= <- <- <- <- <-]. unfold property_for_column_index. cbn. destruct (_ && _); [done|]. destruct (_ && _); [done|].
  unfold from_core_type. cbn. by destruct (match ty with type_Table => _ | _ => _ end).
Qed.

Lemma properties_of_same_columns cs cs' : Forall2 same_column cs cs' -> forall (h : nat -> nat) acc acc' ps ps',
  layout_property <$> acc = layout_property <$> acc' ->
  for_each (λ c ps, p ← property_for_column_index c.2 c.1; Done (match p with Some p => ps ++ [p] | None => ps end)) (imap (λ i c, (h i, c)) cs) acc = Done ps ->
  for_each (λ c ps, p ← property_for_column_index c.2 c.1; Done (match p with Some p => ps ++ [p] | None => ps end)) (imap (λ i c, (h i, c)) cs') acc' = Done ps' ->
  layout_property <$> ps = layout_property <$> ps'.
Proof using Type.
  induction 1 as [|c c' cs cs' Hc _ IH]; intros h acc acc' ps ps' Hacc; cbn [imap for_each]; [by intros [= <-] [= <-]|].
  pose proof (property_of_same_column c c' (h 0) Hc) as Hp. cbn [fst snd].
  destruct (property_for_column_index c (h 0)) as [p| |], (property_for_column_index c' (h 0)) as [p'| |]; cbn [mbind outcome_bind]; try done.
  apply (IH (λ i, h (S i))). destruct p, p'; try done. injection Hp as Hp. rewrite !fmap_app, Hacc. cbn. unfold layout_property. congruence.
Qed.

Lemma object_of_same_columns g g' n t t' o o' : Forall2 same_column (columns t) (columns t') ->
  object_schema_of_table g n t = Done o -> object_schema_of_table g' n t' = Done o' -> layout_object o = layout_object o'.
Proof using Type.
  unfold object_schema_of_table. intros Hc.
  destruct (for_each _ (imap pair (columns t)) []) as [ps| |] eqn:E; cbn [mbind outcome_bind]; try done.
  destruct (for_each _ (imap pair (columns t')) []) as [ps'| |] eqn:E'; cbn [mbind outcome_bind]; try done.
  destruct (get_primary_key_for_object g n), (get_primary_key_for_object g' n); cbn [mbind outcome_bind]; try done.
  intros [= <-] [= <-]. rewrite !layout_set_primary_key. unfold layout_object. cbn. f_equal.
  by apply (properties_of_same_columns (columns t) (columns t') Hc id [] []).
Qed.

Lemma object_schema_name g n t o : object_schema_of_table g n t = Done o -> os_name o = n.
Proof using Type.
  unfold object_schema_of_table. destruct (for_each _ _ _); cbn [mbind outcome_bind]; try done.
  destruct (get_primary_key_for_object g n); cbn [mbind outcome_bind]; try done. intros [= <-].
  assert (forall o, os_name (set_primary_key_property o) = os_name o) as ->; [|done]. intros o'.
  unfold set_primary_key_property, set_property. by repeat case_match.
Qed.

(** The tables that have objects, and what is read of each. *)
Definition object_tables (g : group) : list string := filter (λ t, object_type_for_table_name t <> "") (table_names g).
Definition table_read (g : group) (t : string) (o : ObjectSchema) : Prop :=
  exists tbl, table g t = Some tbl /\ object_schema_of_table g (object_type_for_table_name t) tbl = Done o.

Lemma schema_read g s : schema_from_group g = Done s -> exists l, s = make_schema l /\ Forall2 (table_read g) (object_tables g) l.
Proof using Type.
  unfold schema_from_group, object_tables.
  assert (forall names acc r, for_each (λ t schema, let object_type := object_type_for_table_name t in
      if bool_decide (object_type = "") then Done schema
      else tbl ← run (table g t); o ← object_schema_of_table g object_type tbl; Done (schema ++ [o])) names acc = Done r ->
    exists l, r = acc ++ l /\ Forall2 (table_read g) (filter (λ t, object_type_for_table_name t <> "") names) l) as Hl.
  { induction names as [|t names IH]; intros acc r; cbn [for_each]; [intros [= <-]; exists []; by rewrite app_nil_r|].
    rewrite filter_cons. cbv zeta. case_bool_decide as Ht.
    - rewrite decide_False by (intros Hn; by apply Hn). cbn [mbind outcome_bind]. apply IH.
    - rewrite decide_True by done. destruct (table g t) as [tbl|] eqn:Htbl; cbn [run mbind outcome_bind]; [|done].
      destruct (object_schema_of_table _ _ _) as [o| |] eqn:Ho; cbn [mbind outcome_bind]; try done.
      intros (l & -> & Hl)%IH. exists (o :: l). rewrite <- app_assoc. split; [done|]. constructor; [|done]. by exists tbl. }
  destruct (for_each _ _ _) as [r| |] eqn:E; cbn [mbind outcome_bind]; try done. intros [= <-].
  destruct (Hl _ _ _ E) as (l & -> & Hf). by exists l.
Qed.

Lemma object_type_inj t t' : object_type_for_table_name t <> "" -> object_type_for_table_name t = object_type_for_table_name t' -> t = t'.
Proof using Type.
  assert (forall t, object_type_for_table_name t <> "" -> t = table_name_for_object_type (object_type_for_table_name t)) as Hback.
  { clear. intros t. unfold object_type_for_table_name, table_name_for_object_type, c_object_table_prefix.
    destruct (String.prefix _ t) eqn:Hp; [|done]. intros _. 
    do 6 (destruct t as [|? t]; cbn [String.prefix] in Hp; [done|]; destruct (Ascii.ascii_dec _ _) as [<-|]; [|done]).
    change (String.append "class_" t = String.append "class_" (String.substring 0 (String.length t - 0) t)).
    by rewrite Nat.sub_0_r, substring_all. }
  intros Ht He. rewrite (Hback t Ht), He. symmetry. apply Hback. by rewrite <- He.
Qed.

Lemma object_tables_same g g' : same_tables g g' -> object_tables g ≡ₚ object_tables g'.
Proof using HL.
  intros Hs. apply NoDup_Permutation; [apply NoDup_filter, table_names_unique..|]. intros t. unfold object_tables.
  rewrite !list_elem_of_filter, <- !table_named. specialize (Hs t). unfold is_Some.
  destruct (table g t), (table g' t); naive_solver.
Qed.

Lemma layout_names s : os_name <$> layout s = os_name <$> s.
Proof using Type. unfold layout. rewrite <- list_fmap_compose. by apply list_fmap_ext. Qed.

(** The schemas that are read of groups with the same tables have the same layout. *)
Lemma layout_of_same_tables g g' s s' : same_tables g g' -> schema_from_group g = Done s -> schema_from_group g' = Done s' ->
  layout s = layout s'.
Proof using HL.
  intros Hsame (l & -> & Hl)%schema_read (l' & -> & Hl')%schema_read.
  assert (layout (make_schema l) ≡ₚ layout (make_schema l')) as Hperm.
  { unfold layout, make_schema. rewrite !std_sort_perm.
    destruct (Permutation_Forall2 (object_tables_same g g' Hsame) Hl) as (l2 & -> & Hl2).
    assert (layout_object <$> l2 = layout_object <$> l') as ->; [|done]. revert Hl2 l' Hl'. generalize (object_tables g') as names. clear -Hsame.
    intros names Hl2. induction Hl2 as [|t o names l2 (tbl & Ht & Ho) _ IH]; intros l' Hl'; inversion Hl' as [|? o' ? l3 (tbl' & Ht' & Ho') Hl3]; subst; [done|].
    cbn. f_equal; [|by apply IH]. specialize (Hsame t). rewrite Ht, Ht' in Hsame. by eapply object_of_same_columns. }
  assert (forall g l, Forall2 (table_read g) (object_tables g) l -> NoDup (os_name <$> layout (make_schema l)) /\ sorted_schema (layout (make_schema l))) as Hs.
  { clear -HL. intros g l Hl. unfold sorted_schema. rewrite layout_names. split; [|apply make_schema_sorted].
    unfold make_schema. rewrite std_sort_perm. assert (os_name <$> l = object_type_for_table_name <$> object_tables g) as ->.
    { induction Hl as [|t o names l (tbl & _ & Ho) _ IH]; cbn; [done|]. by rewrite IH, (object_schema_name _ _ _ _ Ho). }
    apply NoDup_fmap_2_strong; [|apply NoDup_filter, table_names_unique].
    intros t t' [Ht _]%list_elem_of_filter _ He. by apply object_type_inj. }
  destruct (Hs g l Hl) as [Hn Hso], (Hs g' l' Hl') as [Hn' Hso'].
  rewrite <- (make_schema_unique _ _ Hperm Hso' Hn'). symmetry. by apply make_schema_unique.
Qed.
End layout.

(** The library tells of every change of tables and columns (group.hpp:476-492). Of
    search indexes, and of the rows that say which properties are primary keys,
    nothing is said: these may change without a notification. *)
Class FilesLaws `{HC : Core, HF : !Files} : Prop := {
  schema_unchanged_self g : schema_changed g g = false;
  schema_unchanged g g' : schema_changed g g' = false -> same_tables g g';
}.

Section cache.
Context `{Build, HC : Core, HCL : !CoreLaws, Features, Platform, StdOrders, StdPartition, HF : !Files, HL : !FilesLaws}.

Abbreviation state := (Realm * World)%type.

(** ** Truth *)

(** There is something to cache. *)
Definition versioned (g : group) : Prop :=
  exists s v, schema_from_group g = Done s /\ get_schema_version g = Done v /\ s <> [] /\ v <> NotVersioned.

(** The tables and columns of the file at a version are those of a schema. *)
Definition schema_at (w : World) (v : nat) (s : Schema) : Prop :=
  exists g actual, snapshots w !! v = Some g /\ schema_from_group g = Done actual /\ layout actual = layout s.

(** The snapshots of a file: once there is a schema with a version, there is one. *)
Record history (gs : list group) : Prop := {
  h_some : gs <> [];
  h_readable : Forall readable gs;
  h_versioned i j g g' : i <= j -> gs !! i = Some g -> gs !! j = Some g' -> versioned g -> versioned g';
}.

Definition cache_max (w : World) : Z := m_schema_transaction_version_max (schema_cache w).

Definition cache_true (w : World) : Prop := forall s, m_cached_schema (schema_cache w) = Some s ->
  exists top g, cache_max w = Z.of_nat top /\ top <= latest w
    /\ (m_schema_transaction_version_min (schema_cache w) <= Z.of_nat top)%Z
    /\ snapshots w !! top = Some g /\ versioned g
    /\ forall v, (m_schema_transaction_version_min (schema_cache w) <= Z.of_nat v)%Z -> v <= top -> schema_at w v s.

(** A version that the cache has heard of. *)
Definition heard (w : World) (t : Z) : Prop := is_Some (m_cached_schema (schema_cache w)) -> (t <= cache_max w)%Z.

Definition with_cache (w : World) (c : SchemaCache) : World := mkWorld (snapshots w) c.

Lemma latest_lookup w : history (snapshots w) -> is_Some (snapshots w !! latest w).
Proof. intros [Hne _ _]. apply lookup_lt_is_Some. unfold latest. destruct (snapshots w); [done|cbn; lia]. Qed.

Lemma latest_readable w g : history (snapshots w) -> snapshots w !! latest w = Some g -> readable g.
Proof. intros [_ Hr _] Hg. rewrite Forall_forall in Hr. by eapply Hr, list_elem_of_lookup_2. Qed.

Lemma cache_schema_true w g s version : history (snapshots w) -> cache_true w -> snapshots w !! latest w = Some g ->
  schema_from_group g = Done s -> get_schema_version g = Done version ->
  let w' := with_cache w (cache_schema s version (Z.of_nat (latest w)) (schema_cache w)) in
  cache_true w' /\ heard w' (Z.of_nat (latest w)).
Proof.
  intros Hh Ht Hg Hs Hv. unfold cache_schema.
  assert (m_cached_schema (schema_cache w) <> None -> (cache_max w <= Z.of_nat (latest w))%Z /\ s <> [] /\ version <> NotVersioned) as Hold.
  { destruct (m_cached_schema (schema_cache w)) as [s0|] eqn:E; [intros _|done].
    destruct (Ht s0 E) as (top & g0 & -> & Htop & _ & Hg0 & Hver & _). split; [lia|].
    destruct (h_versioned _ Hh _ _ _ _ Htop Hg0 Hg Hver) as (s' & v' & ? & ? & ? & ?).
    split; congruence. }
  assert (forall c, c = schema_cache w -> m_cached_schema c = None -> cache_true (with_cache w c) /\ heard (with_cache w c) (Z.of_nat (latest w))) as Hsame.
  { intros c -> E. split; [|intros [s0 Hs0]]; unfold cache_true, with_cache in *; cbn in *; congruence. }
  assert (s <> [] -> version <> NotVersioned ->
    let w' := with_cache w (mkCache (Some s) version (Z.of_nat (latest w)) (Z.of_nat (latest w))) in
    cache_true w' /\ heard w' (Z.of_nat (latest w))) as Hnew.
  { intros Hs0 Hv0. split; [|intros _; unfold cache_max; cbn; lia]. intros s0 [= <-]. exists (latest w), g. cbn. split_and!; try done.
    - by exists s, version.
    - intros v Hmin Hmax. assert (v = latest w) as -> by lia. by exists g, s. }
  destruct (decide (m_cached_schema (schema_cache w) = None)) as [E|E].
  - case_bool_decide; [by apply Hsame|]. destruct (_ || _) eqn:Hskip; [by apply Hsame|].
    apply orb_false_iff in Hskip as [Hs0%bool_decide_eq_false Hv0%bool_decide_eq_false]. by apply Hnew.
  - destruct (Hold E) as (Hmax & Hs0 & Hv0). unfold cache_max in Hmax. rewrite !bool_decide_false by (done || lia).
    by apply Hnew.
Qed.

Lemma advance_true w t : cache_true w -> history (snapshots w) -> heard w t ->
  (forall v, (t <= Z.of_nat v)%Z -> v <= latest w -> forall s, schema_at w v s <-> schema_at w (latest w) s) ->
  exists c, advance_schema_cache t (Z.of_nat (latest w)) (schema_cache w) = Some c
    /\ cache_true (with_cache w c) /\ heard (with_cache w c) (Z.of_nat (latest w)).
Proof.
  intros Ht Hh Hheard Hsame. unfold advance_schema_cache.
  destruct (m_cached_schema (schema_cache w)) as [s|] eqn:E.
  2: { eexists. split; [done|]. split; [intros s Hs|intros [s Hs]]; cbn in Hs; congruence. }
  destruct (Ht s E) as (top & g & Hmax & Htop & Hmin & Hg & Hver & Hall). unfold cache_max in *.
  specialize (Hheard (ltac:(by eexists))). unfold cache_max in Hheard. rewrite Hmax in *.
  rewrite REALM_ASSERT_decide by done. cbn [mbind option_bind]. rewrite bool_decide_false by lia.
  eexists. split; [done|]. split; [|intros _; unfold cache_max; cbn; lia].
  destruct (latest_lookup w Hh) as [g' Hg']. intros s' [= <-]. exists (latest w), g'. unfold cache_max. cbn.
  split_and!; [lia|done|lia|done|by eapply (h_versioned _ Hh top (latest w))|].
  assert (schema_at w top s) as Hat by (apply Hall; lia). intros v Hv Hvmax.
  destruct (decide (Z.of_nat v < t)%Z) as [Hlt|Hge].
  - apply Hall; lia.
  - destruct (decide (v <= top)); [destruct (decide (m_schema_transaction_version_min (schema_cache w) <= Z.of_nat v)%Z); [by apply Hall|]|];
      (apply Hsame; [lia..|]; apply (Hsame top); [lia..|done]).
Qed.

(** ** One Realm *)

Definition connected (r : Realm) : bool := match transaction r with ReadOnlyGroup _ | Closed => false | _ => true end.

(** What an application writes leaves the schema alone. *)
Definition edits (w : World) (v : nat) (g : group) : Prop := exists g0, snapshots w !! v = Some g0
  /\ schema_changed g0 g = false /\ schema_changed g g0 = false /\ readable g /\ (versioned g0 -> versioned g).

Record coherent (w : World) (r : Realm) : Prop := {
  co_coordinator : has_coordinator r = true;
  co_new : m_new_schema r = None;
  co_heard : heard w (m_schema_transaction_version r);
  co_old : (m_schema_transaction_version r <= Z.of_nat (latest w))%Z;
  co_stage : match transaction r with
    | Reading v => v <= latest w /\ m_schema_transaction_version r = Z.of_nat v
    | Writing v g => v = latest w /\ m_schema_transaction_version r = Z.of_nat v /\ edits w v g
    | _ => True
    end;
}.

Record good (s : state) : Prop := {
  g_history : history (snapshots s.2);
  g_cache : cache_true s.2;
  g_staged : well_staged s.1;
  g_realm : connected s.1 = true -> coherent s.2 s.1;
}.

(** What the other Realms may rely on. *)
Definition grown (w w' : World) : Prop :=
  snapshots w `prefix_of` snapshots w' /\ forall t, (t <= Z.of_nat (latest w))%Z -> heard w t -> heard w' t.

#[export] Instance grown_preorder : PreOrder grown.
Proof.
  split; [by intros w; split|]. intros a b c [Hp Hh] [Hp' Hh']. split; [by etrans|]. intros t Ht Hheard.
  apply Hh'; [|by apply Hh]. apply prefix_length in Hp. unfold latest in *. lia.
Qed.

Lemma grown_cache w c : heard (with_cache w c) (Z.of_nat (latest w)) -> grown w (with_cache w c).
Proof. intros Hh. split; [done|]. intros t Ht _ Hs. specialize (Hh Hs). lia. Qed.

(** The Realm at the latest version, of which it has told the cache. *)
Lemma good_reading r w : history (snapshots w) -> cache_true w -> heard w (Z.of_nat (latest w)) -> transaction r = Reading (latest w) ->
  m_schema_transaction_version r = Z.of_nat (latest w) -> m_new_schema r = None -> has_coordinator r = true -> good (r, w).
Proof. intros ? ? Hh Ht Hv Hn Hc. split; [done|done|intros g; cbn; by rewrite Ht|]. intros _. split; cbn; by rewrite ?Hv, ?Ht. Qed.

(** The schema that [cache_new_schema] tells the cache of. *)
Definition news (w : World) (r : Realm) : Prop :=
  match m_new_schema r with
  | Some s => exists g, snapshots w !! latest w = Some g /\ schema_from_group g = Done s /\ get_schema_version g = Done (m_schema_version r)
  | None => forall v, (m_schema_transaction_version r <= Z.of_nat v)%Z -> v <= latest w ->
      forall s, schema_at w v s <-> schema_at w (latest w) s
  end.

Definition told (r : Realm) (w : World) (s' : state) : Prop :=
  s'.1 = set_new_schema None (set_schema_transaction_version (Z.of_nat (latest w)) r)
  /\ exists c, s'.2 = with_cache w c /\ cache_true (with_cache w c) /\ heard (with_cache w c) (Z.of_nat (latest w)).

Lemma cache_new_schema_true r w : history (snapshots w) -> cache_true w -> has_coordinator r = true ->
  heard w (m_schema_transaction_version r) -> connected r = true -> version_of_transaction r = Z.of_nat (latest w) -> news w r ->
  yields cache_new_schema (r, w) (λ s' x, x = inr tt /\ told r w s').
Proof.
  intros Hh Ht Hc Hheard Hcon Hv Hnews.
  set (f := λ c, match m_new_schema r with
    | Some new_schema => Some (cache_schema new_schema (m_schema_version r) (version_of_transaction r) c)
    | None => advance_schema_cache (m_schema_transaction_version r) (version_of_transaction r) c end).
  assert (exists c, f (schema_cache w) = Some c /\ cache_true (with_cache w c) /\ heard (with_cache w c) (Z.of_nat (latest w))) as (c & Hf & Hct & Hch).
  { unfold f, news in *. rewrite Hv. destruct (m_new_schema r) as [s|]; [|by apply advance_true].
    destruct Hnews as (g & Hg & Hs & Hver). eexists. split; [done|]. by apply (cache_schema_true w g). }
  unfold cache_new_schema. apply yields_realm. cbn [fst].
  assert (yields (_ ← with_coordinator (on_cache f);
    on_realm (λ r', set_new_schema None (set_schema_transaction_version (version_of_transaction r) r'))) (r, w)
    (λ s' x, x = inr tt /\ told r w s')) as Hgoal.
  { apply yields_bind. unfold with_coordinator. apply yields_realm. cbn [fst]. rewrite Hc.
    eapply yields_on_cache; [exact Hf|]. apply yields_on_realm. split; [done|]. rewrite Hv. split; [done|by exists c]. }
  unfold connected in Hcon. by destruct (transaction r).
Qed.

(** A Realm that has told the cache is at the latest version. *)
Lemma told_good r w s' : history (snapshots w) -> transaction r = Reading (latest w) -> has_coordinator r = true ->
  told r w s' -> good s' /\ grown w s'.2.
Proof.
  intros Hh Ht Hc (Hr & c & Hw & Hct & Hch). destruct s' as [r' w']. cbn [fst snd] in *. subst. split; [|by apply grown_cache].
  by apply good_reading.
Qed.

Lemma schema_at_unchanged w v v' g g' : snapshots w !! v = Some g -> snapshots w !! v' = Some g' ->
  schema_changed g g' = false -> readable g -> readable g' -> forall s, schema_at w v s <-> schema_at w v' s.
Proof.
  intros Hg Hg' Hsame%schema_unchanged (a & ? & Ha & _) (a' & ? & Ha' & _) s. pose proof (layout_of_same_tables g g' a a' Hsame Ha Ha') as Hl.
  unfold schema_at. rewrite Hg, Hg'. split; intros (g1 & b & [= <-] & Hb & Hls); [exists g', a'|exists g, a]; (split_and!; [done..|]); congruence.
Qed.

Lemma quiet_range w v : schema_changed_between w v (latest w) = false -> forall u, v <= u -> u <= latest w ->
  history (snapshots w) -> forall s, schema_at w u s <-> schema_at w (latest w) s.
Proof.
  intros Hq u Hvu Hul Hh s.
  assert (forall k, v <= k -> k < latest w -> schema_at w k s <-> schema_at w (S k) s) as Hstep.
  { intros k Hk Hl.
    destruct (lookup_lt_is_Some_2 (snapshots w) k) as [g Hg]; [unfold latest in *; lia|].
    destruct (lookup_lt_is_Some_2 (snapshots w) (S k)) as [g' Hg']; [unfold latest in *; lia|].
    assert (schema_changed g g' = false) as Hgg.
    { apply not_true_is_false. intros Hc. enough (schema_changed_between w v (latest w) = true) by congruence.
      unfold schema_changed_between, over_versions. apply existsb_exists. exists true. split; [|done].
      apply list_elem_of_In, list_elem_of_fmap. exists k. rewrite Hg, Hg'. split; [done|]. apply elem_of_seq. lia. }
    destruct Hh as [_ Hr _]. rewrite Forall_forall in Hr. apply (schema_at_unchanged w k (S k) g g'); try done; by eapply Hr, list_elem_of_lookup_2. }
  remember (latest w - u) as n eqn:Hn. revert u Hvu Hul Hn. induction n as [|n IH]; intros u Hvu Hul Hn.
  - assert (u = latest w) as -> by lia. done.
  - rewrite Hstep by lia. apply IH; lia.
Qed.

Lemma begin_read_good r w : history (snapshots w) -> cache_true w -> has_coordinator r = true -> m_new_schema r = None ->
  heard w (m_schema_transaction_version r) ->
  yields begin_read (r, w) (λ s' x, good s' /\ grown w s'.2
    /\ forall a, x = inr a -> transaction s'.1 = Reading (latest s'.2)).
Proof.
  intros Hh Ht Hc Hn Hheard. unfold begin_read. apply yields_world. apply yields_bind, yields_on_realm. cbn [next fst snd].
  set (r1 := set_transaction (Reading (latest w)) r).
  destruct (latest_lookup w Hh) as [g Hg]. destruct (latest_readable w g Hh Hg) as (s & v & Hs & Hv).
  unfold read_schema_from_group_if_needed.
  eapply yields_step with (s' := (r1, w)); [unfold current_group; cbn [fst snd]; unfold m_group; cbn; by rewrite Hg|].
  apply yields_realm. cbn [fst]. case_bool_decide as Hsame.
  { apply yields_ret. cbn in Hsame. split_and!; [|done|done]. apply good_reading; try done. by rewrite <-Hsame. }
  eapply yields_step; [done|]. rewrite Hv. eapply yields_step; [done|]. eapply yields_step; [done|]. rewrite Hs. eapply yields_step; [done|].
  pose proof (cache_schema_true w g s v Hh Ht Hg Hs Hv) as [Hct Hch].
  set (w' := with_cache w _) in *. cbn [fst snd].
  assert (forall r', transaction r' = Reading (latest w) -> m_schema_transaction_version r' = Z.of_nat (latest w) ->
    m_new_schema r' = None -> has_coordinator r' = true -> forall (A : Type) (x : realm_exception + A), good (r', w') /\ grown w w'
      /\ forall a, x = inr a -> transaction r' = Reading (latest w')) as Hdone.
  { intros r' ? ? ? ? A x. split_and!; [by apply good_reading|by apply grown_cache|done]. }
  apply yields_bind. unfold with_coordinator. apply yields_realm. cbn [fst snd].
  match goal with |- context [has_coordinator ?x] => change (has_coordinator x) with (has_coordinator r) end. rewrite Hc.
  eapply yields_on_cache; [done|]. cbn [next fst snd]. destruct (m_dynamic_schema _).
  - apply yields_on_realm. cbn [fst snd]. destruct (schema_eq _ _); by apply Hdone.
  - apply yields_bind, yields_check; [|intros e; by apply Hdone]. intros []. cbn [next]. apply yields_on_realm. by apply Hdone.
Qed.

(** *** Advancing *)

Lemma advance_read_true r w v : history (snapshots w) -> transaction r = Reading v -> v <= latest w ->
  m_schema_transaction_version r = Z.of_nat v -> m_new_schema r = None ->
  yields advance_read (r, w) (λ s' x, s'.2 = w /\ match x with
    | inl _ => s'.1 = r
    | inr _ => transaction s'.1 = Reading (latest w) /\ has_coordinator s'.1 = has_coordinator r
        /\ m_schema_transaction_version s'.1 = m_schema_transaction_version r /\ schema_mode s'.1 = schema_mode r
        /\ news w s'.1
    end).
Proof.
  intros Hh Ht Hv Htv Hn. unfold advance_read. apply yields_realm, yields_world. cbn [fst snd]. rewrite Ht.
  destruct (negb _); [by apply yields_raise|]. apply yields_bind, yields_on_realm. cbn [next fst snd]. apply yields_bind.
  destruct (schema_changed_between w v (latest w)) eqn:Hchanged.
  - destruct (latest_lookup w Hh) as [g Hg]. destruct (latest_readable w g Hh Hg) as (s & version & Hs & Hver).
    cbn [handle_change]. unfold schema_change_handler.
    eapply yields_step; [unfold current_group, m_group; cbn; by rewrite Hg|]. rewrite Hs. eapply yields_step; [done|].
    rewrite Hver. eapply yields_step; [done|]. apply yields_on_realm. cbn [next]. apply yields_ret. cbn [fst snd].
    split; [done|]. unfold news. cbn. by destruct (m_dynamic_schema r); cbn; split_and!; try done; exists g.
  - apply yields_ret. cbn [next]. apply yields_ret. cbn [fst snd]. split_and!; try done. unfold news. cbn. rewrite Hn.
    intros u Hu Hul. apply (quiet_range w v); [done|lia|done..].
Qed.

Lemma translate_error_same {A} (m : realmM A) s (Q : state -> realm_exception + A -> Prop) : history (snapshots s.2) ->
  yields m s Q -> (forall s' e, Q s' (inl e) -> s'.2 = s.2 /\ forall e', Q s' (inl e')) -> yields (translating m) s Q.
Proof.
  intros Hh (s1 & x & E & Hx) Hall. unfold yields, translating. rewrite E. destruct x as [e|a]; [|by exists s1, (inr a)].
  destruct (Hall _ _ Hx) as [Hw Hq].
  assert (exists s2 x2, translate_schema_error s1 = Some (s2, x2) /\ Q s2 x2) as Htr.
  { destruct (latest_lookup s.2 Hh) as [g Hg]. destruct (latest_readable _ g Hh Hg) as (new & version & Hs & _).
    change (yields translate_schema_error s1 Q). unfold translate_schema_error. apply yields_realm, yields_world. rewrite Hw.
    eapply yields_step; [by rewrite Hg|]. rewrite Hs. eapply yields_step; [done|].
    apply yields_bind, yields_check; cbn [next]; [intros _; apply yields_raise, Hq|intros e'; apply Hq]. }
  destruct e; try exact Htr; by eexists _, (inl _).
Qed.

(** What an operation on a Realm does to the cache. *)
Definition safe {A} (m : realmM A) (s : state) : Prop := yields m s (λ s' _, good s' /\ grown s.2 s'.2).

Lemma safe_same {A} (m : realmM A) s x : good s -> m s = Some (s, x) -> safe m s.
Proof. intros Hg E. eapply yields_is; [exact E|done]. Qed.

Lemma read_group_same r w x : transaction r <> Ready -> transaction r <> Closed -> m_group r w = Some x ->
  forall Q : state -> realm_exception + group -> Prop, Q (r, w) (inr x) -> yields read_group (r, w) Q.
Proof. intros ? ? ? Q Hq. eapply yields_is; [by apply read_group_open|done]. Qed.

(** With a group, the Realm is where it was, or at the latest version. *)
Lemma read_group_safe s : good s -> yields read_group s (λ s' x, good s' /\ grown s.2 s'.2 /\ forall g, x = inr g ->
  (transaction s.1 = Ready -> transaction s'.1 = Reading (latest s'.2)) /\ (transaction s.1 <> Ready -> s' = s) /\ transaction s.1 <> Closed).
Proof.
  destruct s as [r w]. intros Hgood. pose proof Hgood as [Hh Ht Hst Hr]. unfold connected in Hr. cbn [fst snd] in *.
  destruct (transaction r) as [g| |v|v g|] eqn:E.
  - eapply read_group_same; [congruence|congruence|unfold m_group; by rewrite E|]. done.
  - destruct (Hr eq_refl) as [Hc Hn Hheard Hold _]. unfold read_group, verify_open.
    apply yields_bind, yields_realm. cbn [fst]. rewrite E. apply yields_ret. cbn [next]. apply yields_realm. cbn [fst].
    rewrite E. apply yields_bind. eapply yields_weaken; [by apply begin_read_good|].
    intros [r1 w1] [e|[]] (Hg1 & Hgrown & Htr); cbn [next]; [done|]. specialize (Htr tt eq_refl). cbn [fst snd] in *.
    destruct (latest_lookup w1 (g_history _ Hg1)) as [g1 Hl].
    eapply yields_is; [unfold current_group, m_group; cbn [fst snd]; rewrite Htr, Hl; done|].
    done.
  - destruct (Hr eq_refl) as [_ _ _ _ Hv]. rewrite E in Hv. destruct (lookup_lt_is_Some_2 (snapshots w) v) as [g Hg].
    { pose proof (latest_lookup w Hh) as Hl%lookup_lt_is_Some. lia. }
    eapply read_group_same; [congruence|congruence|unfold m_group; by rewrite E|]. done.
  - eapply read_group_same; [congruence|congruence|unfold m_group; by rewrite E|]. done.
  - unfold read_group, verify_open. apply yields_bind, yields_realm. cbn [fst]. rewrite E. by apply yields_raise.
Qed.

Lemma refresh_safe s : good s -> safe refresh s.
Proof.
  intros Hgood. unfold refresh, safe. apply yields_bind. unfold check_read_write. apply yields_realm.
  destruct (read_only _); [by apply yields_raise|]. apply yields_ret. cbn [next]. apply yields_realm.
  destruct (is_in_transaction s.1) eqn:Hin; [by apply yields_ret|].
  assert (safe (_ ← read_group; mret true) s) as Hgroup.
  { unfold safe. apply yields_bind. eapply yields_weaken; [by apply read_group_safe|].
    intros s1 [e|g] (Hg1 & Hgrown & _); cbn [next]; [done|by apply yields_ret]. }
  destruct (transaction s.1) as [g| |v|v g|] eqn:E; try exact Hgroup.
  destruct s as [r w]. pose proof Hgood as [Hh Ht Hst Hr]. unfold connected in Hr. cbn [fst snd] in *. rewrite E in Hr.
  destruct (Hr eq_refl) as [Hc Hn Hheard Hold Hv]. rewrite E in Hv. destruct Hv as [Hv Htv].
  apply yields_bind. eapply yields_weaken; [apply (translate_error_same _ _ (λ s' x,
    (good s' /\ grown w s'.2) /\ forall e : realm_exception, x = inl e -> s'.2 = w)); [done| |]|].
  - apply yields_bind. eapply yields_weaken; [by apply (advance_read_true r w v)|].
    intros [r1 w1] [e|b] [Hw Hx]; cbn [next fst snd] in *; subst; [done|]. destruct Hx as (Ht1 & Hc1 & Hv1 & _ & Hnews).
    apply yields_bind. eapply yields_weaken; [apply cache_new_schema_true;
      [done|done|by rewrite Hc1|by rewrite Hv1|unfold connected; by rewrite Ht1|unfold version_of_transaction; by rewrite Ht1|done]|].
    intros s2 x [-> Htold]. cbn [next]. apply yields_ret. split; [|done]. apply (told_good r1 w); try done. by rewrite Hc1.
  - intros s1 e [[Hg1 Hgr1] Hw1]. split; [by eapply Hw1|]. intros e'. split; [done|]. intros _ _. by eapply Hw1.
  - intros s1 [e|b] [Hg1 _]; cbn [next]; [done|by apply yields_ret].
Qed.

(** *** Writing *)

Lemma good_writing r w v g : good (r, w) -> transaction r = Writing v g ->
  v = latest w /\ has_coordinator r = true /\ m_new_schema r = None /\ heard w (m_schema_transaction_version r)
  /\ m_schema_transaction_version r = Z.of_nat v /\ edits w v g.
Proof.
  intros [Hh Ht _ Hr] E. unfold connected in Hr. cbn [fst snd] in Hr. rewrite E in Hr.
  destruct (Hr eq_refl) as [Hc Hn Hheard _ Hv]. rewrite E in Hv. tauto.
Qed.

Lemma begin_validated_good r w v : good (r, w) -> transaction r = Reading v -> yields (translating begin_validated) (r, w) (λ s' x,
  s'.2 = w /\ match x with
    | inl _ => s'.1 = r
    | inr _ => exists g, transaction s'.1 = Writing (latest w) g /\ edits w (latest w) g /\ has_coordinator s'.1 = true
        /\ heard w (m_schema_transaction_version s'.1) /\ news w s'.1
    end).
Proof.
  intros [Hh Ht Hst Hr] E. unfold connected in Hr. cbn [fst snd] in *. rewrite E in Hr.
  destruct (Hr eq_refl) as [Hc Hn Hheard Hold Hv]. rewrite E in Hv. destruct Hv as [Hv Htv].
  apply translate_error_same; [done| |by intros s' e [? ?]]. unfold begin_validated. apply yields_bind.
  eapply yields_weaken; [by apply (advance_read_true r w v)|].
  intros [r1 w1] [e|b] [Hw Hx]; cbn [next fst snd] in *; subst w1; [done|]. destruct Hx as (Ht1 & Hc1 & Hv1 & _ & Hnews).
  destruct (latest_lookup w Hh) as [g Hg]. unfold promote_to_write. apply yields_realm, yields_world. cbn [fst snd].
  rewrite Ht1, Hg. apply yields_bind, yields_on_realm. cbn [next fst snd].
  unfold schema_changed_between, over_versions. rewrite Nat.sub_diag. cbn. apply yields_ret. cbn [fst snd]. split; [done|].
  exists g. cbn. rewrite Hc1, Hv1. split_and!; try done. exists g. split_and!; try done; [apply schema_unchanged_self..|].
  by apply (latest_readable w).
Qed.

Lemma begin_transaction_safe s : good s -> safe begin_transaction s.
Proof.
  intros Hgood. unfold begin_transaction, safe. apply yields_bind. unfold check_write. apply yields_realm.
  destruct (_ || _) eqn:Hmode; [by apply yields_raise|]. apply yields_ret. cbn [next]. apply yields_realm.
  destruct (is_in_transaction s.1) eqn:Hin; [by apply yields_raise|]. apply yields_bind.
  eapply yields_weaken; [by apply read_group_safe|]. intros [r1 w1] [e|g] (Hg1 & Hgr1 & Hx); cbn [next]; [done|].
  assert (exists v, transaction r1 = Reading v) as [v Hv].
  { destruct (Hx g eq_refl) as (Hready & Hsame & Hopen). cbn [fst snd] in *. unfold is_in_transaction in Hin.
    destruct (transaction s.1) as [g0| |v|v g0|] eqn:E; try done.
    - apply (g_staged _ Hgood) in E. by rewrite E in Hmode.
    - by eexists (latest w1); apply Hready.
    - exists v. by rewrite <-E, <-(Hsame ltac:(done)). }
  apply yields_bind. eapply yields_weaken; [by apply (begin_validated_good r1 w1 v)|].
  intros [r2 w2] [e|[]] [Hw2 Hx2]; cbn [next fst snd] in *; subst; [done|].
  destruct Hx2 as (g2 & Ht2 & He2 & Hc2 & Hh2 & Hnews).
  eapply yields_weaken; [apply cache_new_schema_true;
      [apply Hg1|apply Hg1|done|done|unfold connected; by rewrite Ht2|unfold version_of_transaction; by rewrite Ht2|done]|].
  intros [r3 w3] x [-> (Hr3 & c & Hw3 & Hct & Hch)]. cbn [fst snd] in *. subst. split.
  - split; [apply Hg1|done|by intros ?; cbn; rewrite Ht2|]. intros _. split; cbn; try done. by rewrite Ht2.
  - etrans; [exact Hgr1|by apply grown_cache].
Qed.

Lemma edits_same w v g g0 : edits w v g -> snapshots w !! v = Some g0 -> schema_changed g0 g = false
  /\ readable g /\ (versioned g0 -> versioned g).
Proof. intros (g1 & Hg1 & Hu & _ & Hr & Hv) Hg0. by simplify_eq. Qed.

Lemma history_snoc gs g g0 : history gs -> gs !! (length gs - 1) = Some g0 -> readable g -> (versioned g0 -> versioned g) ->
  history (gs ++ [g]).
Proof.
  intros [Hne Hr Hv] Hg0 Hg Hvg. split; [by destruct gs|by apply Forall_app; split; [|constructor]|].
  intros i j gi gj Hij Hi Hj Hgi. apply lookup_app_Some in Hj as [Hj|[Hj Hj']].
  - apply lookup_lt_Some in Hj as Hlt. rewrite lookup_app_l in Hi by lia. by eapply (Hv i j).
  - apply list_lookup_singleton_Some in Hj' as [Hj0 <-]. apply lookup_app_Some in Hi as [Hi|[_ Hi]].
    + apply Hvg, (Hv i (length gs - 1) gi); [|done..]. apply lookup_lt_Some in Hi. lia.
    + apply list_lookup_singleton_Some in Hi as [_ <-]. done.
Qed.

Lemma cache_true_snoc w g : cache_true w -> cache_true (mkWorld (snapshots w ++ [g]) (schema_cache w)).
Proof.
  intros Ht s Hs. destruct (Ht s Hs) as (top & g1 & Hmax & Htop & Hmin & Hg1 & Hver & Hall). exists top, g1. cbn.
  split_and!; try done.
  - unfold latest in *. cbn. rewrite length_app. cbn. lia.
  - by apply lookup_app_l_Some.
  - intros v Hv Hvt. destruct (Hall v Hv Hvt) as (g2 & a & Hg2 & Hs2). exists g2, a. split; [by apply lookup_app_l_Some|done].
Qed.

Lemma commit_transaction_safe s : good s -> safe commit_transaction s.
Proof.
  intros Hgood. unfold commit_transaction, safe. apply yields_bind. unfold check_write. apply yields_realm.
  destruct (_ || _); [by apply yields_raise|]. apply yields_ret. cbn [next]. apply yields_realm.
  destruct (is_in_transaction s.1) eqn:Hin; cbn [negb]; [|by apply yields_raise]. destruct s as [r w]. unfold is_in_transaction in Hin.
  cbn [fst snd] in *. destruct (transaction r) as [| | |v g|] eqn:E; try done.
  destruct (good_writing r w v g Hgood E) as (-> & Hc & Hn & Hheard & Htv & Hedits). pose proof Hgood as [Hh Ht _ _].
  destruct (latest_lookup w Hh) as [g0 Hg0]. destruct (edits_same w _ g g0 Hedits Hg0) as (Hsame & Hread & Hver).
  set (w1 := mkWorld (snapshots w ++ [g]) (schema_cache w)).
  assert (latest w1 = S (latest w)) as Hl1.
  { unfold latest, w1. cbn. rewrite length_app. cbn. apply lookup_lt_Some in Hg0. unfold latest in Hg0. lia. }
  assert (history (snapshots w1)) as Hh1 by (by apply (history_snoc _ g g0)).
  assert (cache_true w1) as Ht1 by (by apply cache_true_snoc).
  assert (snapshots w1 !! latest w1 = Some g) as Hg1.
  { rewrite Hl1. unfold w1. cbn. apply lookup_lt_Some in Hg0. unfold latest in *. rewrite lookup_app_r; [|lia].
    by replace (S (length (snapshots w) - 1) - length (snapshots w)) with 0 by lia. }
  assert (snapshots w1 !! latest w = Some g0) as Hg01 by (by apply lookup_app_l_Some).
  eapply yields_step with (s' := (set_transaction (Reading (latest w1)) r, w1)) (a := tt).
  { unfold commit_and_continue_as_read, get_realm, mbind, realm_bind. cbn [fst snd]. by rewrite E. }
  eapply yields_weaken; [apply cache_new_schema_true; try done|].
  - unfold news. cbn [m_new_schema set_transaction m_schema_transaction_version]. rewrite Hn, Htv. intros v Hv Hvl s'.
    assert (v = latest w \/ v = latest w1) as [-> | ->] by lia; [|done]. apply (schema_at_unchanged w1 _ _ g0 g); [done..| |done]. by apply (latest_readable w).
  - intros s2 x [_ Htold]. apply told_good in Htold as [Hg2 Hgr2]; try done. split; [done|].
    etrans; [|exact Hgr2]. split; [by apply prefix_app_r|done].
Qed.

Lemma cancel_transaction_safe s : good s -> yields cancel_transaction s (λ s' x, good s' /\ s'.2 = s.2
  /\ (forall u, x = inr u -> connected s'.1 = true)).
Proof.
  intros Hgood. unfold cancel_transaction. apply yields_bind. unfold check_write. apply yields_realm.
  destruct (_ || _); [by apply yields_raise|]. apply yields_ret. cbn [next]. apply yields_realm.
  destruct (is_in_transaction s.1) eqn:Hin; cbn [negb]; [|by apply yields_raise]. destruct s as [r w]. unfold is_in_transaction in Hin.
  cbn [fst snd] in *. destruct (transaction r) as [| | |v g|] eqn:E; try done.
  destruct (good_writing r w v g Hgood E) as (-> & Hc & Hn & Hheard & Htv & g0 & Hg0 & Hu & Hu' & Hread & Hver).
  pose proof Hgood as [Hh Ht _ _]. unfold rollback_and_continue_as_read. apply yields_realm, yields_world. cbn [fst snd].
  rewrite E. apply yields_bind, yields_on_realm. cbn [next fst snd]. rewrite Hg0, Hu'. apply yields_ret. split; [|done].
  apply good_reading; try done. by rewrite <-Htv.
Qed.

Lemma good_ready r w : good (r, w) -> connected r = true -> good (set_transaction Ready r, w).
Proof.
  intros [Hh Ht Hst Hr] Hcon. destruct (Hr Hcon) as [Hc Hn Hheard Hold Hv]. by split.
Qed.

Lemma verify_open_yields s : yields verify_open s (λ s' x, s' = s /\ forall u, x = inr u -> transaction s.1 <> Closed).
Proof. unfold verify_open. apply yields_realm. destruct (transaction s.1); (by apply yields_ret) || by apply yields_raise. Qed.

Lemma invalidate_safe s : good s -> safe invalidate s.
Proof.
  intros Hgood. unfold invalidate, safe. apply yields_bind. eapply yields_weaken; [apply verify_open_yields|].
  intros s1 [e|[]] [-> Hopen]; cbn [next]; [done|]. specialize (Hopen tt eq_refl).
  unfold check_read_write. apply yields_bind, yields_realm. destruct (read_only _) eqn:Hmode; [by apply yields_raise|].
  apply yields_ret. cbn [next]. apply yields_realm.
  assert (connected s.1 = true) as Hcon.
  { unfold connected. destruct (transaction s.1) as [g| | | |] eqn:E; try done. apply (g_staged _ Hgood) in E. by rewrite E in Hmode. }
  apply yields_bind. apply yields_weaken with (P := λ s' x, good s' /\ s'.2 = s.2 /\ (forall u, x = inr u -> connected s'.1 = true)).
  { destruct (is_in_transaction _); [by apply cancel_transaction_safe|by apply yields_ret]. }
  intros [r1 w1] [e|[]] (Hg1 & Hw1 & Hc1); cbn [next fst snd] in *; subst; [done|].
  apply yields_on_realm. split; [|done]. by eapply good_ready, Hc1.
Qed.

Lemma close_safe s : good s -> safe close s.
Proof. intros [Hh Ht Hst Hr]. apply yields_on_realm. split; [by split|done]. Qed.

(** ** The Realms of a process *)

Inductive operation := op_read_group | op_refresh | op_begin_transaction | op_commit_transaction | op_cancel_transaction | op_invalidate | op_close.

#[export] Instance operation_eq_dec : EqDecision operation.
Proof using Type. solve_decision. Defined.

Definition discard {A} (m : realmM A) : realmM unit := _ ← m; mret tt.

Definition perform (o : operation) : realmM unit :=
  match o with
  | op_read_group => discard read_group
  | op_refresh => discard refresh
  | op_begin_transaction => begin_transaction
  | op_commit_transaction => commit_transaction
  | op_cancel_transaction => cancel_transaction
  | op_invalidate => invalidate
  | op_close => close
  end.

Lemma discard_safe {A} (m : realmM A) s : safe m s -> safe (discard m) s.
Proof. intros Hm. apply yields_bind. eapply yields_weaken; [exact Hm|]. intros s' [e|a] Hx; cbn [next]; [done|by apply yields_ret]. Qed.

Lemma perform_safe o s : good s -> safe (perform o) s.
Proof.
  intros Hgood. destruct o; cbn [perform].
  - apply discard_safe. eapply yields_weaken; [by apply read_group_safe|]. by intros s' x (? & ? & _).
  - by apply discard_safe, refresh_safe.
  - by apply begin_transaction_safe.
  - by apply commit_transaction_safe.
  - eapply yields_weaken; [by apply cancel_transaction_safe|]. by intros s' x (? & -> & _).
  - by apply invalidate_safe.
  - by apply close_safe.
Qed.

(** A Realm whose schema is set: the rest of it, and the world, are as before. *)
Definition schema_only (s s' : state) : Prop := s'.2 = s.2 /\ transaction s'.1 = transaction s.1
  /\ schema_mode s'.1 = schema_mode s.1 /\ has_coordinator s'.1 = has_coordinator s.1 /\ m_new_schema s'.1 = m_new_schema s.1
  /\ m_schema_transaction_version s'.1 = m_schema_transaction_version s.1.

#[export] Instance schema_only_preorder : PreOrder schema_only.
Proof.
  split; [by intros s|]. intros a b c (Ha & Hb & Hd & He & Hf & Hg) (Ha' & Hb' & Hd' & He' & Hf' & Hg'). unfold schema_only.
  by rewrite Ha', Hb', Hd', He', Hf', Hg'.
Qed.

Lemma set_schema_subset_only schema : keeps schema_only (set_schema_subset schema).
Proof.
  unfold set_schema_subset. apply keeps_bind; [apply _|apply keeps_get_realm, _|]. intros r.
  do 2 (apply keeps_bind; [apply _|apply keeps_asserts, _|]; intros _). apply keeps_bind; [apply _| |intros _].
  - case_match; try apply keeps_check, _. apply keeps_bind; [apply _|apply keeps_check, _|]. intros _. apply keeps_ret, _.
  - intros s s' x [= <- _]. by split_and!.
Qed.

Lemma schema_only_good s s' : good s -> schema_only s s' -> good s'.
Proof.
  intros [Hh Ht Hst Hr] (Hw & Htr & Hm & Hc & Hn & Hv). split; [by rewrite Hw|by rewrite Hw| |].
  - intros g. rewrite Htr, Hm. apply Hst.
  - unfold connected in *. rewrite Htr, Hw. intros Hcon. destruct (Hr Hcon) as [Hc0 Hn0 Hheard Hold Hstage].
    split; rewrite ?Hc, ?Hn, ?Hv, ?Htr; done.
Qed.

(** Opening. *)
Lemma constructor_reads r w g s v : snapshots w !! latest w = Some g -> schema_from_group g = Done s ->
  get_schema_version g = Done v -> transaction r = Ready -> has_coordinator r = false -> m_dynamic_schema r = true -> m_schema r = [] ->
  m_new_schema r = None ->
  exists r1, read_group (r, w) = Some (r1, w, inr g) /\ transaction r1 = Reading (latest w) /\ schema_mode r1 = schema_mode r
    /\ m_schema_transaction_version r1 = Z.of_nat (latest w) /\ m_new_schema r1 = None /\ m_dynamic_schema r1 = true
    /\ (m_schema_transaction_version r = Z.of_nat (latest w) /\ m_schema r1 = [] \/ m_schema r1 = s /\ m_schema_version r1 = v).
Proof.
  intros Hg Hs Hv Ht Hc Hd Hm Hn. unfold read_group, verify_open.
  enough (yields begin_read (r, w) (λ s' x, x = inr tt /\ s'.2 = w /\ transaction s'.1 = Reading (latest w)
    /\ schema_mode s'.1 = schema_mode r /\ m_schema_transaction_version s'.1 = Z.of_nat (latest w) /\ m_new_schema s'.1 = None
    /\ m_dynamic_schema s'.1 = true
    /\ (m_schema_transaction_version r = Z.of_nat (latest w) /\ m_schema s'.1 = [] \/ m_schema s'.1 = s /\ m_schema_version s'.1 = v))) as ([r1 w1] & x & E & -> & ? & Ht1 & Hrest).
  { cbn [fst snd] in *. subst w1. exists r1. split; [|done]. unfold get_realm, mbind, realm_bind. cbn [fst]. rewrite Ht.
    unfold mret, realm_ret. cbn [fst]. rewrite Ht, E. unfold current_group, m_group. cbn [fst snd]. by rewrite Ht1, Hg. }
  unfold begin_read. apply yields_world, yields_bind, yields_on_realm. cbn [next fst snd]. unfold read_schema_from_group_if_needed.
  eapply yields_step; [unfold current_group, m_group; cbn; by rewrite Hg|]. apply yields_realm. cbn [fst]. case_bool_decide as Hsame.
  { apply yields_ret. cbn in *. split_and!; try done. by left. }
  eapply yields_step; [done|]. rewrite Hv. eapply yields_step; [done|]. eapply yields_step; [done|]. rewrite Hs. eapply yields_step; [done|]. cbn [fst snd].
  unfold with_coordinator. apply yields_bind, yields_realm. cbn [fst snd].
  match goal with |- context [has_coordinator ?x] => change (has_coordinator x) with (has_coordinator r) end. rewrite Hc.
  apply yields_ret. cbn [next].
  match goal with |- context [m_dynamic_schema ?x] => change (m_dynamic_schema x) with (m_dynamic_schema r) end. rewrite Hd.
  apply yields_on_realm. cbn [fst snd].
  match goal with |- context [schema_eq (m_schema ?x)] => change (m_schema x) with (m_schema r) end. rewrite Hm.
  destruct (schema_eq [] s) eqn:Heq; split_and!; try done; right; [|done]. by destruct s.
Qed.

Lemma new_Realm_good mode w : history (snapshots w) -> cache_true w ->
  exists r w', new_Realm mode true w = Some (r, w', inr tt) /\ good (r, w') /\ grown w w' /\ snapshots w' = snapshots w
    /\ is_in_transaction r = false.
Proof.
  intros Hh Ht. destruct (latest_lookup w Hh) as [g Hg]. destruct (latest_readable w g Hh Hg) as (s & v & Hs & Hv).
  unfold new_Realm. destruct (read_only mode) eqn:Hmode.
  { rewrite Hg. cbn [mbind option_bind]. rewrite Hv, Hs. do 2 eexists. split; [done|]. split_and!; try done.
    split; try done. intros g' _. by apply bool_decide_eq_true in Hmode. }
  unfold get_cached_schema. destruct (m_cached_schema (schema_cache w)) as [s0|] eqn:E; cbn [mbind option_bind].
  { do 2 eexists. split; [done|]. split_and!; try done. split; try done. intros _.
    destruct (Ht s0 E) as (top & g0 & Hmax & Htop & _). split; try done; cbn -[latest]; unfold cache_max in Hmax; [|lia].
    by intros _. }
  set (r0 := mkRealm mode false Ready [] 0 (u64 (-1)) None true).
  destruct (constructor_reads r0 w g s v) as (r1 & Hread & Ht1 & Hm1 & Hv1 & Hn1 & _ & Hs1); [done..|].
  assert (exists c, cache_schema (m_schema r1) (m_schema_version r1) (m_schema_transaction_version r1) (schema_cache w) = c
    /\ cache_true (with_cache w c) /\ heard (with_cache w c) (Z.of_nat (latest w))) as (c & Hc & Hct & Hch).
  { rewrite Hv1. eexists. split; [done|]. destruct Hs1 as [[_ ->]|[-> ->]]; [|by apply (cache_schema_true w g)].
    unfold cache_schema. assert (cache_true (with_cache w (schema_cache w)) /\ heard (with_cache w (schema_cache w)) (Z.of_nat (latest w))).
    { split; [intros s' Hs'|intros [s' Hs']]; cbn in Hs'; congruence. }
    by case_bool_decide. }
  set (r2 := set_coordinator true (set_transaction Ready r1)). exists r2, (with_cache w c). split; [|split_and!; try done].
  - unfold mbind at 1, realm_bind. rewrite Hread. unfold get_realm, on_cache, on_world, on_realm, mbind, realm_bind, option_bind.
    cbn [fst snd]. unfold get_realm. cbn [fst snd]. by rewrite Hc.
  - split; [done|done|by intros g'|]. intros _. split; try done; unfold r2; cbn; rewrite Hv1; [done|unfold latest; cbn; lia].
  - by apply grown_cache.
Qed.

(** *** Several Realms *)

(** Other processes commit what they like; one writer at a time. *)
Inductive step : list Realm * World -> list Realm * World -> Prop :=
| step_others rs w g0 g : Forall (λ r, is_in_transaction r = false) rs -> snapshots w !! latest w = Some g0 -> readable g ->
    (versioned g0 -> versioned g) -> step (rs, w) (rs, mkWorld (snapshots w ++ [g]) (schema_cache w))
| step_open rs w mode r w' : new_Realm mode true w = Some (r, w', inr tt) -> step (rs, w) (rs ++ [r], w')
| step_perform rs w i r o r' w' x : rs !! i = Some r ->
    (o = op_begin_transaction -> forall j r2, j <> i -> rs !! j = Some r2 -> is_in_transaction r2 = false) ->
    perform o (r, w) = Some (r', w', x) -> step (rs, w) (<[i := r']> rs, w')
| step_set_schema rs w i r schema r' w' x : rs !! i = Some r ->
    set_schema_subset schema (r, w) = Some (r', w', x) -> step (rs, w) (<[i := r']> rs, w')
| step_edit rs w i r v g g' : rs !! i = Some r -> transaction r = Writing v g -> edits w v g' ->
    step (rs, w) (<[i := set_transaction (Writing v g') r]> rs, w).

Record sound (st : list Realm * World) : Prop := {
  so_history : history (snapshots st.2);
  so_cache : cache_true st.2;
  so_realms i r : st.1 !! i = Some r -> good (r, st.2);
  so_writer i j r r' : st.1 !! i = Some r -> st.1 !! j = Some r' ->
    is_in_transaction r = true -> is_in_transaction r' = true -> i = j;
}.

Lemma good_grown r w w' : good (r, w) -> grown w w' -> history (snapshots w') -> cache_true w' ->
  (is_in_transaction r = true -> snapshots w' = snapshots w) -> good (r, w').
Proof.
  intros [_ _ Hst Hr] [Hp Hheard] Hh' Ht' Hw. split; [done..|]. cbn [fst snd] in *. intros Hcon.
  destruct (Hr Hcon) as [Hc Hn Hhd Hold Hstage]. assert (latest w <= latest w') as Hl by (apply prefix_length in Hp; unfold latest; lia).
  split; [done|done|by apply Hheard|lia|]. unfold is_in_transaction in Hw. destruct (transaction r) as [| |v|v g|]; try done.
  - destruct Hstage. split; [lia|done].
  - specialize (Hw eq_refl). unfold latest, edits in *. by rewrite Hw.
Qed.

Definition frozen (s s' : state) : Prop := snapshots s'.2 = snapshots s.2.
#[export] Instance frozen_preorder : PreOrder frozen.
Proof. split; [by intros s|]. intros a b c Hab Hbc. unfold frozen in *. congruence. Qed.

Lemma calm_frozen {A} (m : realmM A) : keeps calm m -> keeps frozen m.
Proof. intros Hm s. eapply post_weaken; [apply Hm|]. by intros s' x (? & _). Qed.

Lemma begin_transaction_frozen : keeps frozen begin_transaction.
Proof.
  unfold begin_transaction. apply keeps_bind; [apply _|apply calm_frozen, calm_check_write|]. intros _.
  apply keeps_bind; [apply _|apply keeps_get_realm, _|]. intros r. destruct (is_in_transaction r); [apply keeps_raise, _|].
  apply keeps_bind; [apply _|apply calm_frozen, calm_read_group|]. intros _.
  apply keeps_bind; [apply _| |intros _; apply calm_frozen, calm_cache_new_schema]. apply keeps_translating; [apply _|].
  apply keeps_bind; [apply _|apply calm_frozen, calm_advance_read|]. intros _ s. eapply post_weaken; [apply promote_post|].
  by intros s' x (_ & ? & _).
Qed.

(** Only a writer adds a snapshot, and only [begin_transaction] makes one. *)
Lemma perform_frame o s : post (perform o) s (λ s' _,
  (is_in_transaction s.1 = false -> snapshots s'.2 = snapshots s.2)
  /\ (o <> op_begin_transaction -> is_in_transaction s.1 = false -> is_in_transaction s'.1 = false)
  /\ (o <> op_commit_transaction -> snapshots s'.2 = snapshots s.2)).
Proof.
  assert (forall A (m : realmM A), keeps calm m -> keeps calm (discard m)) as Hd.
  { intros A m Hm. apply keeps_bind; [apply _|done|]. intros a. apply keeps_ret, _. }
  assert (forall m : realmM unit, keeps calm m -> post m s (λ s' _,
    (is_in_transaction s.1 = false -> snapshots s'.2 = snapshots s.2)
    /\ (o <> op_begin_transaction -> is_in_transaction s.1 = false -> is_in_transaction s'.1 = false)
    /\ (o <> op_commit_transaction -> snapshots s'.2 = snapshots s.2))) as Hcalm.
  { intros m Hm. eapply post_weaken; [apply Hm|]. intros s' x (Hs & _ & Hin). by split_and!. }
  destruct o; cbn [perform].
  - apply Hcalm, Hd, calm_read_group.
  - apply Hcalm, Hd, calm_refresh.
  - eapply post_weaken; [apply begin_transaction_frozen|]. intros s' x Hs. by split_and!.
  - destruct (is_in_transaction s.1) eqn:Hin; [by intros s' x _|]. unfold commit_transaction, check_write. apply post_bind, post_realm.
    destruct (_ || _); [by apply post_raise|]. apply post_ret. cbn [next]. apply post_realm. rewrite Hin. by apply post_raise.
  - apply Hcalm, calm_cancel_transaction.
  - apply Hcalm, calm_invalidate.
  - apply Hcalm, calm_close.
Qed.

Lemma sound_replace rs w i r r' w' : sound (rs, w) -> rs !! i = Some r -> good (r', w') -> grown w w' ->
  (forall j r2, j <> i -> rs !! j = Some r2 -> is_in_transaction r2 = true -> snapshots w' = snapshots w) ->
  (is_in_transaction r' = true -> forall j r2, j <> i -> rs !! j = Some r2 -> is_in_transaction r2 = false) ->
  sound (<[i := r']> rs, w').
Proof.
  intros [Hh Ht Hr Hw] Hi Hg Hgr Hother Hbegun. pose proof Hg as [Hh' Ht' _ _]. cbn [fst snd] in *. split; cbn [fst snd]; [done..| |].
  - intros j r2 [(<- & <- & _)|[Hne Hj]]%list_lookup_insert_Some; [done|].
    eapply good_grown; [by eapply Hr|done..|]. by apply (Hother j).
  - intros j k r2 r3 [(<- & <- & _)|[Hne Hj]]%list_lookup_insert_Some [(<- & <- & _)|[Hne' Hk]]%list_lookup_insert_Some Hin Hin';
      [done| | |by eapply Hw].
    + specialize (Hbegun Hin k r3). rewrite Hbegun in Hin'; done.
    + specialize (Hbegun Hin' j r2). rewrite Hbegun in Hin; done.
Qed.

Lemma sound_step st st' : sound st -> step st st' -> sound st'.
Proof.
  intros Hs Hstep. pose proof Hs as [Hh Ht Hr Hw]. destruct Hstep as [rs w g0 g Hquiet Hg0 Hread Hver|rs w mode r w' Hopen
    |rs w i r o r' w' x Hi Hone E|rs w i r schema r' w' x Hi E|rs w i r v g g' Hi Htr Hedit]; cbn [fst snd] in *.
  - assert (history (snapshots w ++ [g])) as Hh' by (by apply (history_snoc _ g g0)). rewrite Forall_forall in Hquiet.
    split; cbn [fst snd]; [done|by apply cache_true_snoc| |done]. intros i r Hi. eapply good_grown; [by eapply Hr| |done|by apply cache_true_snoc|].
    + split; [by apply prefix_app_r|done].
    + intros Hin. rewrite Hquiet in Hin; [done|by eapply list_elem_of_lookup_2].
  - destruct (new_Realm_good mode w Hh Ht) as (r1 & w1 & E1 & Hg & Hgr & Hsnap & Hin). rewrite E1 in Hopen. injection Hopen as <- <-.
    pose proof Hg as [Hh' Ht' _ _]. cbn [fst snd] in *. split; cbn [fst snd]; [done..| |].
    + intros j r2 [Hj|[_ Hj]]%lookup_app_Some; [by eapply good_grown; [by eapply Hr|..]|].
      by apply list_lookup_singleton_Some in Hj as [_ <-].
    + intros j k r2 r3 [Hj|[_ Hj]]%lookup_app_Some [Hk|[_ Hk]]%lookup_app_Some; [by eapply Hw| | |];
        repeat match goal with Hx : [_] !! _ = Some _ |- _ => apply list_lookup_singleton_Some in Hx as [_ <-] end; congruence.
  - destruct (perform_safe o (r, w) (Hr i r Hi)) as (s2 & y & E2 & Hg & Hgr). rewrite E in E2. injection E2 as <- <-.
    destruct (perform_frame o _ _ _ E) as (Hsnap & Hbegin & Hcommit). cbn [fst snd] in *.
    apply (sound_replace rs w i r); try done.
    + intros j r2 Hne Hj Hin2. apply Hsnap. apply not_true_is_false. intros Hin. apply Hne. symmetry. by eapply Hw.
    + intros Hin' j r2 Hne Hj. destruct (decide (o = op_begin_transaction)) as [Ho|Ho]; [by eapply Hone|].
      apply not_true_is_false. intros Hin2. apply Hne. eapply (Hw j i); [done..|]. apply not_false_is_true.
      intros Hin. specialize (Hbegin Ho Hin). congruence.
  - pose proof (set_schema_subset_only schema _ _ _ E) as Hsame. pose proof Hsame as (Hw2 & Htr & _). cbn [fst snd] in *. subst.
    apply (sound_replace rs w i r); try done; [by eapply (schema_only_good (r, w)); [by eapply Hr|]|].
    unfold is_in_transaction at 1. rewrite Htr. intros Hin j r2 Hne Hj. apply not_true_is_false. intros Hin2. apply Hne. by eapply Hw.
  - pose proof (Hr i r Hi) as Hg. destruct (good_writing r w v g Hg Htr) as (-> & Hc & Hn & Hheard & Htv & _).
    apply (sound_replace rs w i r); try done.
    + destruct Hg as [_ _ Hst Hco]. split; try done. intros _. unfold connected in Hco. cbn [fst snd] in Hco. rewrite Htr in Hco.
      destruct (Hco eq_refl) as [_ _ _ Hold _]. by split.
    + intros _ j r2 Hne Hj. apply not_true_is_false. intros Hin2. apply Hne. eapply Hw; [done..|]. unfold is_in_transaction. by rewrite Htr.
Qed.

Lemma sound_initial gs : history gs -> sound ([], mkWorld gs new_cache).
Proof. intros Hh. by split. Qed.
End cache.
