(* ===== verification/StoreEdits.v ===== *)
(** * Facts on the edits of existing tables

    Making a property optional, the check of primary keys, deleting an object
    type. *)

From S2P Require Import Prelude Property ChangeBuilder ObjectSchema SchemaChanges Core ObjectStore StoreFacts.
From S2P Require Import SchemaCreation SchemaFacts CompareFacts SchemaUpdate.

#[local] Open Scope string_scope.
#[local] Open Scope list_scope.

(** ** Lists *)

Lemma vec_insert_lookup_next {A} (i : nat) (x : A) l : i <= length l -> vec_insert i x l !! S i = l !! i.
Proof.
  revert i. induction l as [|y l IH]; intros [|i] Hi; simpl in Hi; try lia; [done..|].
  change (vec_insert i x l !! S i = l !! i). apply IH. lia.
Qed.

Lemma vec_insert_update {A} (i : nat) (x y : A) l : i <= length l -> <[i := y]> (vec_insert i x l) = vec_insert i y l.
Proof. intros Hi. by rewrite list_insert_alter, alter_vec_insert. Qed.

(** Erasing what was moved up by an insertion replaces it. *)
Lemma vec_erase_insert {A} (i : nat) (x : A) l : i < length l -> vec_erase (S i) (vec_insert i x l) = <[i := x]> l.
Proof.
  revert i. induction l as [|a l IH]; intros [|i] Hi; simpl in Hi; try lia; [done|].
  change (a :: vec_erase (S i) (vec_insert i x l) = a :: <[i := x]> l). rewrite IH; [done|lia].
Qed.

Section edits.
Context `{Build, Core, Features, !CoreLaws}.

(** ** A property made optional *)

Lemma index_next i : (Z.of_nat i < 2 ^ 64 - 1)%Z -> index (Z.of_nat i +! 1) = S i.
Proof. intros Hi. unfold index. rewrite u64_small by lia. lia. Qed.

(** The cells of column [i] all hold values of the type. *)
Definition column_filled (ty : DataType) (i : nat) (tbl : Table) : Prop :=
  Forall (λ r, exists v, r !! i = Some v /\ value_has_type ty v = true) (rows tbl).

Lemma read_value_filled ty ty' v : value_has_type ty v = true -> read_value ty' v = v.
Proof. by destruct ty, v. Qed.

(** The rows while the values are copied: [n] of them are done. *)
Definition copied_rows (i n : nat) (rs : list (list Value)) : list (list Value) :=
  ((λ r, vec_insert i (default VNull (r !! i)) r) <$> take n rs) ++ (vec_insert i VNull <$> drop n rs).

Lemma copied_rows_step i n rs r v : rs !! n = Some r -> r !! i = Some v ->
  alter (<[i := v]>) n (copied_rows i n rs) = copied_rows i (S n) rs.
Proof.
  intros Hn Hv. assert (n < length rs) as Hlt by by eapply lookup_lt_Some.
  unfold copied_rows. rewrite (take_S_r _ _ r), (drop_S _ r n) by done.
  rewrite fmap_app, fmap_cons, <-app_assoc. cbn [fmap list_fmap app].
  replace n with (length ((λ r, vec_insert i (default VNull (r !! i)) r) <$> take n rs) + 0) at 1
    by (rewrite length_fmap, length_take; lia).
  rewrite alter_app_r. cbn [alter list_alter]. rewrite Hv. cbn [default from_option]. unfold id.
  rewrite vec_insert_update; [done|]. apply lookup_lt_Some in Hv. lia.
Qed.

Lemma copied_rows_cell i n rs r k : rs !! n = Some r -> i <= length r -> n <= k -> k = n ->
  copied_rows i n rs !! k = Some (vec_insert i VNull r).
Proof.
  intros Hn Hi _ ->. unfold copied_rows. assert (n < length rs) as Hlt by by eapply lookup_lt_Some.
  rewrite lookup_app_r; rewrite length_fmap, length_take; [|lia].
  replace (n - n `min` length rs) with 0 by lia. by rewrite list_lookup_fmap, lookup_drop, Nat.add_0_r, Hn.
Qed.

(** The columns around an inserted one. *)
Lemma copied_column g t cs i c c' ty rs n r v : table g t = Some (mkTable (vec_insert i c' cs) (copied_rows i n rs)) ->
  cs !! i = Some c -> column_type c = ty -> column_type c' = ty ->
  rs !! n = Some r -> length r = length cs -> r !! i = Some v -> value_has_type ty v = true ->
  get_value ty t (S i) n g = Some v
  /\ does (set_value ty t i n v) g t (mkTable (vec_insert i c' cs) (copied_rows i (S n) rs)).
Proof using All.
  intros Ht Hc Hty Hty' Hr Hlen Hv Hval. assert (i < length cs) as Hi by by eapply lookup_lt_Some.
  assert (copied_rows i n rs !! n = Some (vec_insert i VNull r)) as Hrow by (eapply copied_rows_cell; (done || lia)).
  split.
  - rewrite (get_value_law g t _ ty (S i) n c v Ht); [by rewrite (read_value_filled ty)| | |done].
    + cbn [columns]. by rewrite vec_insert_lookup_next by lia.
    + unfold cell. cbn [rows]. rewrite Hrow. cbn. by rewrite vec_insert_lookup_next by lia.
  - rewrite <-(copied_rows_step i n rs r v) by done.
    apply (set_value_law g t _ ty i n c' v Ht); [|by eapply lookup_lt_Some|done|by left].
    cbn [columns]. unfold vec_insert. rewrite lookup_app_r; rewrite length_take; [|lia].
    by replace (i - i `min` length cs) with 0 by lia.
Qed.

(** The copy of the values into the inserted column. *)
Lemma copy_property_values_spec g t cs rs i c c' p ty : column_type c = ty -> column_type c' = ty ->
  table g t = Some (mkTable (vec_insert i c' cs) (copied_rows i 0 rs)) -> cs !! i = Some c ->
  to_core_type (type p) = Some ty -> table_column p = Z.of_nat i -> (Z.of_nat i < 2 ^ 64 - 1)%Z ->
  Forall (λ r, length r = length cs) rs -> column_filled ty i (mkTable cs rs) ->
  ends (copy_property_values p t g) (updated g t (mkTable (vec_insert i c' cs) (copied_rows i (length rs) rs))).
Proof using All.
  intros Hct Hct' Ht Hc Hty Hcol Hsmall Hrect Hfilled. unfold column_filled in Hfilled. cbn [rows] in Hfilled.
  rewrite Forall_forall in Hrect, Hfilled. unfold copy_property_values, copied_type. rewrite Hty.
  step Ht. unfold row_count. cbn [rows].
  assert (length (copied_rows i 0 rs) = length rs) as -> by (unfold copied_rows; cbn; apply length_fmap).
  eapply ends_weaken; [apply (for_each_ends _ (λ before g2,
    updated g t (mkTable (vec_insert i c' cs) (copied_rows i (length before) rs)) g2))|].
  - by apply updated_refl.
  - intros before k after g2 Hseq Hu2.
    assert (k = length before /\ k < length rs) as [-> Hk].
    { pose proof (f_equal (λ l, l !! length before) Hseq) as Hl. cbn in Hl.
      rewrite list_lookup_middle in Hl by done. apply lookup_seq in Hl. lia. }
    apply lookup_lt_is_Some in Hk as [r Hr]. pose proof (list_elem_of_lookup_2 _ _ _ Hr) as Hin.
    destruct (Hfilled r Hin) as (v & Hv & Hval).
    destruct (copied_column g2 t cs i c c' ty rs (length before) r v) as (Hget & g3 & Hset & Hu3); try done;
      [by eapply updated_table|by apply Hrect|].
    rewrite Hcol, index_next by done. unfold index at 1. rewrite Nat2Z.id. step Hget.
    eapply ends_run; [exact Hset|]. rewrite length_app. cbn [length].
    replace (length before + 1) with (S (length before)) by lia. by eapply updated_trans.
  - cbn beta. by rewrite length_seq.
Qed.

(** Dropping the old column leaves every cell as it was. *)
Lemma drop_copied i c' cs rs ty : i < length cs -> column_filled ty i (mkTable cs rs) ->
  drop_column_at (S i) (mkTable (vec_insert i c' cs) (copied_rows i (length rs) rs)) = mkTable (<[i := c']> cs) rs.
Proof using Type.
  unfold column_filled. cbn [rows]. rewrite Forall_forall. intros Hi Hfilled.
  unfold drop_column_at. cbn [columns rows]. rewrite vec_erase_insert by done. f_equal.
  rewrite bool_decide_false.
  2:{ unfold vec_insert. rewrite length_app, length_take, length_cons, length_drop. lia. }
  unfold copied_rows. rewrite firstn_all, drop_all, app_nil_r, <-list_fmap_compose. rewrite <-(list_fmap_id rs) at 2.
  apply list_fmap_ext. intros j r Hr%list_elem_of_lookup_2. unfold compose.
  destruct (Hfilled r Hr) as (v & Hv & _). rewrite Hv. cbn [default from_option]. unfold id.
  rewrite vec_erase_insert by by eapply lookup_lt_Some. by apply list_insert_id.
Qed.

(** Making a plain property optional changes its column and no cell. *)
Lemma make_property_optional_spec g t tbl p i c ty : let p' := with_type (type_or (type p) Nullable) p in
  table g t = Some tbl -> table_column p = Z.of_nat i -> (Z.of_nat i < 2 ^ 64 - 1)%Z -> columns tbl !! i = Some c ->
  persistable p' -> to_core_type (type p') = Some ty -> is_array (type p') = false -> is_nullable (type p') = true ->
  column_type c = ty -> column_filled ty i tbl ->
  ends (make_property_optional t p g) (updated g t (mkTable (<[i := column_of p']> (columns tbl)) (rows tbl))).
Proof using All.
  intros p' Ht Hcol Hsmall Hc Hper Hty Harr Hnull Hct Hfilled. unfold make_property_optional.
  change (table_column (with_type _ p)) with (table_column p). fold p'.
  assert (i < length (columns tbl)) as Hi by by eapply lookup_lt_Some.
  assert (type_eq (type p') Object = false) as Hobj by (apply (to_core_type_exclusive (type p')); by eauto).
  assert (column_type (column_of p') = ty /\ column_nullable (column_of p') = true) as [Hct' Hnull']
    by (unfold column_of; rewrite Hobj, Harr, Hty; done).
  rewrite Hcol. unfold index at 1. rewrite Nat2Z.id.
  eapply ends_bind; [apply (insert_column_spec g t tbl p' i Hper); [by intros Ho; congruence|done|lia]|].
  intros g1 Hu1. pose proof (table_rows g t tbl Ht) as Hrect. destruct tbl as [cs rs]. cbn [columns rows] in *.
  assert (add_column_at i (column_of p') (mkTable cs rs) = mkTable (vec_insert i (column_of p') cs) (copied_rows i 0 rs)) as Hadd.
  { unfold add_column_at, copied_rows. rewrite Hnull'. cbn [default_value take drop fmap list_fmap app]. done. }
  rewrite Hadd in Hu1.
  eapply ends_bind; [eapply (copy_property_values_spec g1 t cs rs i c (column_of p') p' ty); try done; by eapply updated_table|].
  intros g2 Hu2. pose proof (updated_table _ _ _ _ Hu2) as Ht2. rewrite index_next by done.
  destruct (remove_column_law g2 t _ (S i) Ht2) as (g3 & Hg3 & Hu3).
  { cbn [columns]. unfold vec_insert. rewrite length_app, length_take, length_cons, length_drop. lia. }
  eapply ends_run; [exact Hg3|]. do 2 (eapply updated_trans; [done|]). by rewrite <-(drop_copied _ _ _ _ ty).
Qed.

(** On a list property the values are read from the list column with the getter
    of their type: a failed assertion. *)
Lemma make_list_optional_stuck g t tbl p i c ty : let p' := with_type (type_or (type p) Nullable) p in
  table g t = Some tbl -> table_column p = Z.of_nat i -> (Z.of_nat i < 2 ^ 64 - 1)%Z -> columns tbl !! i = Some c ->
  persistable p' -> to_core_type (type p') = Some ty -> is_array (type p') = true -> column_type c = type_Table ->
  rows tbl <> [] -> make_property_optional t p g = Stuck.
Proof using All.
  intros p' Ht Hcol Hsmall Hc Hper Hty Harr Hct Hrows. unfold make_property_optional.
  change (table_column (with_type _ p)) with (table_column p). fold p'.
  assert (i < length (columns tbl)) as Hi by by eapply lookup_lt_Some.
  assert (type_eq (type p') Object = false) as Hobj by (apply (to_core_type_exclusive (type p')); by eauto).
  rewrite Hcol. unfold index at 1. rewrite Nat2Z.id.
  destruct (insert_column_spec g t tbl p' i Hper) as (g1 & Hg1 & Hu1); [by intros Ho; congruence|done|lia|].
  rewrite Hg1. cbn [mbind outcome_bind]. unfold copy_property_values, copied_type. rewrite Hty.
  pose proof (updated_table _ _ _ _ Hu1) as Ht1. rewrite (run_bind _ _ _ Ht1).
  unfold row_count. cbn [add_column_at rows]. rewrite length_fmap.
  destruct (rows tbl) as [|r rs]; [done|]. cbn [length seq for_each].
  change (table_column p') with (table_column p). rewrite Hcol, index_next by done.
  rewrite index_next by done. rewrite (get_value_mismatch g1 t _ ty (S i) 0 c Ht1); [done| |].
  - cbn [add_column_at columns]. by rewrite vec_insert_lookup_next by lia.
  - rewrite Hct. apply not_eq_sym. by eapply core_type_not_table.
Qed.

(** ** Primary keys *)

Lemma column_cells_length tbl i : Forall (λ r, length r = length (columns tbl)) (rows tbl) ->
  i < length (columns tbl) -> length (column_cells tbl i) = row_count tbl.
Proof using Type.
  unfold column_cells, row_count. intros Hr Hi. induction Hr as [|r rs Hr _ IH]; [done|].
  cbn [omap list_omap]. destruct (r !! i) eqn:E; [cbn; by rewrite IH|]. apply lookup_ge_None in E. lia.
Qed.

Lemma remove_dups_length {A} `{EqDecision A} (l : list A) : length (remove_dups l) = length l <-> NoDup l.
Proof using Type.
  assert (forall l : list A, length (remove_dups l) <= length l) as Hle.
  { induction l0 as [|x l0 IH]; cbn [remove_dups]; [done|]. case_decide; cbn [length]; lia. }
  induction l as [|x l IH]; cbn [remove_dups]; [split; [constructor|done]|]. rewrite NoDup_cons. case_decide as Hx.
  - cbn [length]. specialize (Hle l). split; [lia|tauto].
  - cbn [length]. rewrite <-IH. split; [intros [=]; done|]. intros [_ ->]. done.
Qed.

(** The check throws exactly when two rows have the same key. *)
Lemma validate_primary_column_spec g o p tbl i c : table g (table_name_for_object_type o) = Some tbl ->
  find_index (λ c, bool_decide (column_name c = p)) (columns tbl) = Some i -> columns tbl !! i = Some c ->
  column_type c = type_Int \/ column_type c = type_String ->
  (NoDup (column_cells tbl i) -> validate_primary_column o p g = Done tt)
  /\ (~ NoDup (column_cells tbl i) -> validate_primary_column o p g = Raised (DuplicatePrimaryKeyValue o p)).
Proof using All.
  intros Ht Hi Hc Hty. unfold validate_primary_column. rewrite (run_bind _ _ _ Ht).
  unfold get_column_index. rewrite Hi. unfold index. rewrite Nat2Z.id.
  rewrite (run_bind _ _ _ (distinct_size_law g _ tbl i c Ht Hc Hty)).
  assert (length (column_cells tbl i) = row_count tbl) as <-.
  { apply column_cells_length; [by eapply table_rows|by eapply lookup_lt_Some]. }
  rewrite <-(remove_dups_length (column_cells tbl i)).
  split; intros Hd; [by rewrite bool_decide_false by auto|by rewrite bool_decide_true].
Qed.

(** ** Deleting an object type *)

Lemma delete_data_spec g m o : enable_sync && has_object_ids g = false -> pk_represents g m ->
  (forall t tbl, t <> table_name_for_object_type o -> table g t = Some tbl ->
     Forall (λ c, link_target c <> table_name_for_object_type o) (columns tbl)) ->
  is_Some (table g (table_name_for_object_type o)) ->
  ends (delete_data_for_object o g) (λ g', table g' (table_name_for_object_type o) = None
    /\ pk_represents g' (delete o m)
    /\ forall t, t <> table_name_for_object_type o -> t <> c_primaryKeyTableName -> table g' t = table g t).
Proof using All.
  intros Hsync Hm Hlinks [tbl Ht]. unfold delete_data_for_object. rewrite Ht.
  destruct (remove_table_law g (table_name_for_object_type o)) as (g1 & Hg1 & Hids & Ht1);
    [apply table_named; by rewrite Ht|done|]. rewrite (run_bind _ _ _ Hg1).
  assert (pk_represents g1 m) as Hm1.
  { destruct Hm as (pk & es & Hpk & He). exists pk, es. split; [|done]. by rewrite Ht1, decide_False. }
  eapply ends_weaken; [apply (set_primary_key_spec g1 m o ""); [by rewrite Hids|done]|].
  intros g2 [Hm2 (tbl2 & Hu)]. rewrite bool_decide_true in Hm2 by done. split_and!.
  - rewrite (updated_other _ _ _ _ _ Hu) by apply table_name_not_pk. by rewrite Ht1, decide_True.
  - done.
  - intros t Hne Hpk. by rewrite (updated_other _ _ _ _ _ Hu), Ht1, decide_False.
Qed.
End edits.

(** ** Facts on renamed properties

    [rename_property] onto a property that has a column of its own. *)

#[local] Open Scope string_scope.
#[local] Open Scope list_scope.

(** Where a type is found, it can be changed. *)
Lemma update_type_spec `{Platform} n f s o : find_type n s = Some o ->
  exists i, s !! i = Some o /\ update_type n f s = <[i := f o]> s.
Proof.
  unfold find_type, update_type. destruct (s !! _) as [o'|] eqn:E; [|done]. case_bool_decide; [done|].
  intros [= ->]. eexists. split; [exact E|]. rewrite list_insert_alter. apply list_eq. intros j.
  rewrite !list_lookup_alter. case_decide; [subst; by rewrite E|done].
Qed.

Section rename.
Context `{Build, Core, Features, !CoreLaws}.
Hypothesis without_sync : enable_sync = false.
Context `{Platform, StdOrders, StdPartition}.

(** What is read for a property of an object. *)
Lemma stored_property o i p : NoDup (name <$> persisted_properties o) -> persisted_properties o !! i = Some p ->
  exists x, property_for_name (name p) (stored_object o) = Some x /\ type x = type p
    /\ Property.object_type x = Property.object_type p /\ table_column x = Z.of_nat i.
Proof using All.
  intros Hnd Hp. destruct (stored_object_fields without_sync o) as (_ & Hnames & Hc & Hin).
  assert (name p ∈ name <$> persisted_properties (stored_object o)) as Hname
    by (rewrite Hnames; apply list_elem_of_fmap_2; by eapply list_elem_of_lookup_2).
  apply list_elem_of_fmap in Hname as (x & Hxn & Hx). exists x.
  destruct (Hin x Hx) as (p' & i' & Hp' & Hor).
  assert (name x = name p' /\ type x = type p' /\ Property.object_type x = Property.object_type p'
    /\ table_column x = Z.of_nat i') as (Hn & Ht & Ho & Hcol) by (destruct Hor as [-> |[_ ->]]; done).
  assert (i' = i) as ->.
  { apply (NoDup_lookup (name <$> persisted_properties o) i' i (name p)); [done|..]; rewrite list_lookup_fmap.
    - rewrite Hp'. cbn. congruence.
    - by rewrite Hp. }
  assert (p' = p) as -> by congruence. split_and!; try done. rewrite Hxn.
  apply property_for_name_self; [|done]. by rewrite Hc, app_nil_r, Hnames.
Qed.

(** The group, the old and the new property, and the target type before a
    rename that is allowed and needs no change of nullability. *)
Record rename_ready (g : group) (s : Schema) (o target : ObjectSchema) (j k : nat) (old new : Property)
    (rs : list (list Value)) : Prop := {
  rr_table : table g (table_name o) = Some (mkTable (column_of <$> persisted_properties o) rs);
  rr_key : exists m, pk_represents g m /\ default "" (m !! os_name o) = primary_key o;
  rr_names : NoDup (name <$> persisted_properties o);
  rr_persistable : Forall persistable (persisted_properties o);
  rr_old : persisted_properties o !! j = Some old;
  rr_new : persisted_properties o !! k = Some new;
  rr_type : type old = type new /\ Property.object_type old = Property.object_type new;
  rr_target : find_type (os_name o) s = Some target;
  rr_removed : property_for_name (name old) target = None;
  rr_small : (Z.of_nat (length (persisted_properties o)) < 2 ^ 64)%Z;
}.

(** The column is renamed, the one it replaces is removed, and the target type
    is renumbered. *)
Lemma rename_property_spec g s o target j k old new rs : rename_ready g s o target j k old new rs -> j <> k ->
  ends (rename_property (os_name o) (name old) (name new) (s, g)) (λ r,
    r.1 = update_type (os_name o) (shift_columns (Z.of_nat k) (Z.of_nat j)) s
    /\ updated g (table_name o)
         (drop_column_at k (with_column j (with_name (name new))
            (mkTable (column_of <$> persisted_properties o) rs))) r.2).
Proof using All.
  intros [Ht (m & Hm & Hkey) Hnd Hper Hold Hnew [Htype Hotype] Htarget Hremoved Hsmall] Hne.
  unfold rename_property. cbv beta iota zeta. fold (table_name o). rewrite Ht, Htarget, Hremoved.
  rewrite bool_decide_false by auto.
  change (object_schema_of_table g (os_name o) (mkTable (column_of <$> persisted_properties o) rs))
    with (object_schema_of_table g (os_name o) (table_of_object o)).
  rewrite (object_schema_of_table_spec without_sync g m o Hm Hkey Hper). cbn [mbind outcome_bind].
  destruct (stored_property o j old Hnd Hold) as (x & Hx & Hxt & Hxo & Hxc).
  destruct (stored_property o k new Hnd Hnew) as (y & Hy & Hyt & Hyo & Hyc).
  rewrite Hx, Hy, Hxt, Hyt, Hxo, Hyo, Hxc, Hyc, Htype, Hotype.
  unfold type_eq. rewrite (bool_decide_true (base_type (type new) = base_type (type new))) by done.
  rewrite (bool_decide_false (_ ≠ _)) by (intros Hn; by apply Hn). cbn [negb orb].
  rewrite andb_negb_r. unfold index. rewrite !Nat2Z.id.
  destruct (rename_column_law g (table_name o) _ j (name new) Ht) as (g1 & Hg1 & Hu1).
  { cbn [columns]. rewrite length_fmap. by eapply lookup_lt_Some. }
  { rewrite Forall_forall in Hper. apply Hper. by eapply list_elem_of_lookup_2. }
  rewrite (run_bind _ _ _ Hg1).
  destruct (remove_column_law g1 (table_name o) _ k (updated_table _ _ _ _ Hu1)) as (g2 & Hg2 & Hu2).
  { cbn [with_column columns]. rewrite length_alter, length_fmap. by eapply lookup_lt_Some. }
  rewrite (run_bind _ _ _ Hg2). apply ends_done. split; [done|]. by eapply updated_trans.
Qed.
End rename.
