(* ===== verification/DeepChecker.v ===== *)
(** * Which rows of a query have changed

    [DeepChangeChecker] and [CollectionNotifier::get_modification_checker]
    (impl/collection_notifier.cpp, impl/collection_notifier.hpp): a row counts as
    modified when it, or a row it leads to by a few links, was modified. *)

From S2P Require Import Prelude ChunkedRangeVector IndexSet ChangeBuilder TransactInfo Property Core.

(** What is read of the tables of a group. A table is its index in the group,
    [npos] for a subtable; [get_link] is [None] for a null link. *)
Class LinkTables := {
  group_size : nat;
  get_column_count : Z -> nat;
  get_column_type : Z -> nat -> DataType;
  get_link_target : Z -> nat -> Z;
  get_link : Z -> nat -> Z -> option Z;
  get_linklist : Z -> nat -> Z -> list Z;
}.

(** Tables and rows are where their indices say. *)
Class LinkTablesLaws `{LinkTables} : Prop := {
  link_target_in_group t c : is_link_type (get_column_type t c) = true ->
    (0 <= get_link_target t c < Z.of_nat group_size)%Z;
  group_size_small : (Z.of_nat group_size < npos)%Z;
  link_row t c r dst : get_link t c r = Some dst -> (0 <= dst < npos)%Z;
  linklist_row t c r dst : dst ∈ get_linklist t c r -> (0 <= dst < npos)%Z;
}.

(** ** Data *)

Record OutgoingLink := mkOutgoingLink { link_col_ndx : nat; is_list : bool }.

Record RelatedTable := mkRelatedTable {
  related_ndx : Z;
  links : list OutgoingLink;
}.

Record Path := mkPath {
  p_table : Z;
  p_row : Z;
  p_col : nat;
  depth_exceeded : bool;
}.

(** What a [DeepChangeChecker] changes as it runs. *)
Record checker := mkChecker {
  m_not_modified : list IndexSet;
  m_current_path : list Path;
}.

(** The elements of [m_current_path] are written before they are read. *)
Definition initial_checker : checker := mkChecker [] (replicate 4 (mkPath 0 0 0 false)).

Definition set_not_modified (x : list IndexSet) (st : checker) : checker := mkChecker x (m_current_path st).
Definition set_current_path (x : list Path) (st : checker) : checker := mkChecker (m_not_modified st) x.

Definition exceed (p : Path) : Path := mkPath (p_table p) (p_row p) (p_col p) true.

(** [std::any_of] with a predicate that has effects and may fail. *)
Fixpoint any_ofM {A St} (f : A -> St -> option (St * bool)) (l : list A) (st : St) : option (St * bool) :=
  match l with
  | [] => Some (st, false)
  | x :: l => '(st, b) ← f x st; if b : bool then Some (st, true) else any_ofM f l st
  end.

Section checker.
Context `{Build, LinkTables}.

(** ** The related tables *)

Definition push_link (l : OutgoingLink) (tbl : RelatedTable) : RelatedTable :=
  mkRelatedTable (related_ndx tbl) (links tbl ++ [l]).

(** [fuel] bounds the depth of the recursion: every level adds a table. *)
Fixpoint find_related_tables (fuel : nat) (out : list RelatedTable) (table_ndx : Z) : option (list RelatedTable) :=
  match fuel with
  | O => None
  | S fuel =>
      if bool_decide (table_ndx = npos) then Some out
      else if existsb (λ tbl, bool_decide (related_ndx tbl = table_ndx)) out then Some out
      else
        let out_index := length out in
        foldM (λ i out,
            let type := get_column_type table_ndx i in
            if is_link_type type then
              let out := alter (push_link (mkOutgoingLink i (bool_decide (type = type_LinkList)))) out_index out in
              find_related_tables fuel out (get_link_target table_ndx i)
            else Some out)
          (seq 0 (get_column_count table_ndx)) (out ++ [mkRelatedTable table_ndx []])
  end.

(** [CollectionNotifier::set_table] *)
Definition set_table (table_ndx : Z) : option (list RelatedTable) :=
  find_related_tables (S (S group_size)) [] table_ndx.

(** ** Checking rows *)

Section check.
Variable m_info : TransactionChangeInfo.
Variable m_related_tables : list RelatedTable.

(** [info.tables[table_ndx].modifications], if there is such a table. *)
Definition modifications_of (table_ndx : Z) : option IndexSet :=
  if bool_decide (table_ndx < Z.of_nat (length (tables m_info)))%Z
  then modifications <$> tables m_info !! Z.to_nat table_ndx else None.

Definition same_link (table_ndx row_ndx : Z) (col : nat) (p : Path) : bool :=
  bool_decide (p_table p = table_ndx) && bool_decide (p_row p = row_ndx) && bool_decide (p_col p = col).

(** Whether the link is being followed already; if not it is put on the path. *)
Definition already_checking (table_ndx row_ndx : Z) (col depth : nat) (st : checker) : checker * bool :=
  let path := m_current_path st in
  match find_index (same_link table_ndx row_ndx col) (take depth path) with
  | Some found =>
      (set_current_path (take found path ++ (exceed <$> drop found (take depth path)) ++ drop depth path) st, true)
  | None => (set_current_path (<[depth := mkPath table_ndx row_ndx col false]> path) st, false)
  end.

Definition linked_object_changed (check_row : Z -> Z -> nat -> checker -> option (checker * bool))
    (table_ndx row_ndx : Z) (depth : nat) (link : OutgoingLink) (st : checker) : option (checker * bool) :=
  let '(st, checking) := already_checking table_ndx row_ndx (link_col_ndx link) depth st in
  if checking : bool then Some (st, false)
  else
    let target := get_link_target table_ndx (link_col_ndx link) in
    if negb (is_list link) then
      match get_link table_ndx (link_col_ndx link) row_ndx with
      | None => Some (st, false)
      | Some dst => check_row target dst (S depth) st
      end
    else any_ofM (λ dst, check_row target dst (S depth)) (get_linklist table_ndx (link_col_ndx link) row_ndx) st.

Definition check_outgoing_links (check_row : Z -> Z -> nat -> checker -> option (checker * bool))
    (table_ndx row_ndx : Z) (depth : nat) (st : checker) : option (checker * bool) :=
  match find_index (λ tbl, bool_decide (related_ndx tbl = table_ndx)) m_related_tables with
  | None => Some (st, false)
  | Some k =>
      it ← m_related_tables !! k;
      any_ofM (linked_object_changed check_row table_ndx row_ndx depth) (links it) st
  end.

(** The row is known not to be modified. *)
Definition remember (table_ndx idx : Z) (st : checker) : option checker :=
  d ← m_not_modified st !! Z.to_nat table_ndx;
  d ← add d idx;
  Some (set_not_modified (<[Z.to_nat table_ndx := d]> (m_not_modified st)) st).

(** [fuel] bounds the depth of the recursion, which the length of the path
    bounds. *)
Fixpoint check_row (fuel : nat) (table_ndx idx : Z) (depth : nat) (st : checker) : option (checker * bool) :=
  match fuel with
  | O => None
  | S fuel =>
      if bool_decide (length (m_current_path st) <= depth)
      then Some (set_current_path (exceed <$> m_current_path st) st, false)
      else
        modified ← (match modifications_of table_ndx with
                    | Some d => if bool_decide (0 < depth) then contains d idx else Some false
                    | None => Some false
                    end);
        if modified : bool then Some (st, true)
        else
          let st := if bool_decide (Z.of_nat (length (m_not_modified st)) <= table_ndx)%Z
                    then set_not_modified (vec_resize (Z.to_nat (table_ndx + 1)) ([] : IndexSet) (m_not_modified st)) st
                    else st in
          d ← m_not_modified st !! Z.to_nat table_ndx;
          known ← contains d idx;
          if known : bool then Some (st, false)
          else
            '(st, ret) ← check_outgoing_links (check_row fuel) table_ndx idx depth st;
            complete ← (match depth with
                        | O => Some true
                        | S above => p ← m_current_path st !! above; Some (negb (depth_exceeded p))
                        end);
            if negb ret && complete then st ← remember table_ndx idx st; Some (st, ret)
            else Some (st, ret)
  end.

Definition check_fuel : nat := 5.

(** [operator()] *)
Definition deep_change_check (m_root_table_ndx ndx : Z) (st : checker) : option (checker * bool) :=
  modified ← (match modifications_of m_root_table_ndx with Some d => contains d ndx | None => Some false end);
  if modified : bool then Some (st, true) else check_row check_fuel m_root_table_ndx ndx 0 st.

(** ** The checker of a notifier *)

(** What [get_modification_checker] returns: a function that is never true, one
    that looks at the modifications of a table, or a [DeepChangeChecker]. *)
Inductive modification_checker :=
  | never_modified
  | in_modifications (d : IndexSet)
  | deep_checker (root_table_ndx : Z).

Definition table_modified (tbl : RelatedTable) : bool :=
  match modifications_of (related_ndx tbl) with Some d => negb (bool_decide (d = [])) | None => false end.

(** A row is checked. *)
Definition row_did_change (f : modification_checker) (row : Z) (st : checker) : option (checker * bool) :=
  match f with
  | never_modified => Some (st, false)
  | in_modifications d => b ← contains d row; Some (st, b)
  | deep_checker root => deep_change_check root row st
  end.
End check.

(** The related tables of the notifier, and the function. *)
Definition get_modification_checker (info : TransactionChangeInfo) (root_table_ndx : Z)
    (m_related_tables : list RelatedTable) : option (list RelatedTable * modification_checker) :=
  related ← (if schema_changed info then set_table root_table_ndx else Some m_related_tables);
  if negb (existsb (table_modified info) related) then Some (related, never_modified)
  else match related with
  | [tbl] => d ← modifications_of info (related_ndx tbl); Some (related, in_modifications d)
  | _ => Some (related, deep_checker root_table_ndx)
  end.

(** ** The information a notifier requires *)

Definition need_table (needed : list bool) (tbl : RelatedTable) : list bool :=
  <[Z.to_nat (related_ndx tbl) := true]> needed.

(** What [add_required_change_info] adds to [table_modifications_needed] when
    there are related tables and [do_add_required_change_info] asks for it. *)
Definition need_related_tables (m_related_tables : list RelatedTable) (needed : list bool) : list bool :=
  let max := foldr (λ tbl m, std_max (related_ndx tbl) m) 0%Z m_related_tables in
  let needed := if bool_decide (Z.of_nat (length needed) <= max)%Z
                then vec_resize (Z.to_nat (max + 1)) false needed else needed in
  foldl need_table needed m_related_tables.
End checker.
