(* ===== verification/DeepCheckerFacts.v ===== *)
(** * The deep change checker

    A row that is not found to have changed leads to no modified row in three
    links; and [find_related_tables] finds the tables that links lead to. *)

From S2P Require Import Prelude ChunkedRangeVector ChunkedFacts IndexSet IndexSetFacts IndexSetWalk.
From S2P Require Import ChangeBuilder TransactInfo Core DeepChecker.

(** ** The deep change checker finds what is close

    A row that is not found to have changed leads to no modified row in three
    links, although the checker does not follow a link that it is following
    already and remembers rows it has given up on. *)

(** ** Walks

    A graph whose edges are numbered at their source; a walk may have to avoid
    some edges. *)

Section walks.
Context {N : Type} (edge : N -> nat -> N -> Prop).

Inductive walk (avoid : N -> nat -> Prop) : nat -> N -> N -> Prop :=
  | walk_nil x : walk avoid 0 x x
  | walk_step n x c z y : edge x c z -> ~ avoid x c -> walk avoid n z y -> walk avoid (S n) x y.

Definition nowhere : N -> nat -> Prop := λ _ _, False.
Definition or_from (avoid : N -> nat -> Prop) (x : N) : N -> nat -> Prop := λ w c, avoid w c \/ w = x.

Lemma walk_weaken (a1 a2 : N -> nat -> Prop) n x y : (forall w c, a2 w c -> a1 w c) ->
  walk a1 n x y -> walk a2 n x y.
Proof. intros Ha. induction 1; econstructor; naive_solver. Qed.

Context `{EqDecision N}.

(** Of the times a walk leaves [x] there is a last one. *)
Lemma walk_last_departure avoid x n w y : walk avoid n w y ->
  walk (or_from avoid x) n w y
  \/ exists c z m, m < n /\ edge x c z /\ ~ avoid x c /\ walk (or_from avoid x) m z y.
Proof.
  induction 1 as [w|n w c z y He Ha Hw IH]; [left; constructor|].
  destruct IH as [IH|(c' & z' & m & ? & ? & ? & ?)]; [|right; exists c', z', m; split_and!; [lia|done..]].
  destruct (decide (w = x)) as [->|Hne].
  - right. exists c, z, n. split_and!; [lia|done..].
  - left. econstructor; [done| |done]. intros [?|?]; done.
Qed.

Lemma walk_departs avoid x n y : walk avoid n x y ->
  x = y \/ exists c z m, m < n /\ edge x c z /\ ~ avoid x c /\ walk (or_from avoid x) m z y.
Proof.
  intros [Hw|Hw]%(walk_last_departure _ x); [|by right]. left.
  inversion Hw as [|? ? ? ? ? ? Ha]; subst; [done|]. destruct Ha. by right.
Qed.
End walks.

(** ** Loops with an early exit *)

(** [f] keeps [ok] and moves along [R]; where it is true there is a reason, and
    where it is false it stays false along [R]. *)
Lemma any_ofM_spec {A St} (f : A -> St -> option (St * bool)) (ok : St -> Prop) (R : St -> St -> Prop)
    (T : A -> Prop) (F : A -> St -> Prop) l :
  (forall st, R st st) -> (forall s1 s2 s3, R s1 s2 -> R s2 s3 -> R s1 s3) ->
  (forall x s1 s2, R s1 s2 -> F x s1 -> F x s2) ->
  (forall x st, x ∈ l -> ok st -> exists st' b, f x st = Some (st', b) /\ ok st' /\ R st st'
     /\ if b : bool then T x else F x st') ->
  forall st, ok st -> exists st' b, any_ofM f l st = Some (st', b) /\ ok st' /\ R st st'
     /\ if b : bool then exists x, x ∈ l /\ T x else forall x, x ∈ l -> F x st'.
Proof.
  intros Hr Ht Hm. induction l as [|x l IH]; intros Hf st Hst; cbn [any_ofM].
  - exists st, false. split_and!; [done..|apply Hr|]. by intros x Hx%elem_of_nil.
  - destruct (Hf x st) as (st1 & b & -> & Hok & HR & Hb); [by left|done|]. mrun. destruct b.
    + exists st1, true. split_and!; [done..|]. exists x. split; [by left|done].
    + destruct (IH (λ y s Hy, Hf y s (list_elem_of_further _ _ _ Hy)) st1 Hok) as (st2 & b & -> & Hok2 & HR2 & Hb2).
      exists st2, b. split_and!; [done..|by eapply Ht|]. destruct b.
      * destruct Hb2 as (y & ? & ?). exists y. split; [by right|done].
      * intros y [->|Hy]%elem_of_cons; [by eapply Hm|by apply Hb2].
Qed.

(** ** The graph of rows *)

(** A row: a table and an index in it. *)
Abbreviation row := (Z * Z)%type.

Section facts.
Context `{HB : Build, HT : LinkTables, HL : !LinkTablesLaws}.
Variable m_info : TransactionChangeInfo.
Variable m_related_tables : list RelatedTable.

(** The row [z] is a target of the link of [x]. *)
Definition link_edge (l : OutgoingLink) (x z : row) : Prop :=
  z.1 = get_link_target x.1 (link_col_ndx l)
  /\ if is_list l then z.2 ∈ get_linklist x.1 (link_col_ndx l) x.2
     else get_link x.1 (link_col_ndx l) x.2 = Some z.2.

(** The links of the related tables. *)
Definition edge (x : row) (c : nat) (z : row) : Prop :=
  exists tbl l, tbl ∈ m_related_tables /\ related_ndx tbl = x.1 /\ l ∈ links tbl /\ link_col_ndx l = c
    /\ link_edge l x z.

Definition modified (x : row) : Prop := exists d, modifications_of m_info x.1 = Some d /\ x.2 ∈ d.

(** No row in reach of three links was modified, nor was the row. *)
Definition far (x : row) : Prop := forall n y, n <= 3 -> walk edge nowhere n x y -> ~ modified y.

Definition in_group (x : row) : Prop := (0 <= x.1 < Z.of_nat group_size)%Z /\ (0 <= x.2 < npos)%Z.

Record related_ok : Prop := {
  related_unique : NoDup (related_ndx <$> m_related_tables);
  related_types tbl l : tbl ∈ m_related_tables -> l ∈ links tbl ->
    is_link_type (get_column_type (related_ndx tbl) (link_col_ndx l)) = true;
}.

Record checker_ok (st : checker) : Prop := {
  path_length : length (m_current_path st) = 4;
  not_modified_wf : Forall wf (m_not_modified st);
  not_modified_far k d i : m_not_modified st !! k = Some d -> i ∈ d -> far (Z.of_nat k, i);
}.

(** ** The path *)

(** The path up to [d] is the same, except that more of it may be marked; what is
    remembered does not shrink. *)
Definition same_stack (d : nat) (s1 s2 : checker) : Prop :=
  (length (m_current_path s1) = length (m_current_path s2) /\ length (m_not_modified s1) <= length (m_not_modified s2))
  /\ forall k p, k < d -> m_current_path s1 !! k = Some p ->
    exists p', m_current_path s2 !! k = Some p' /\ p_table p' = p_table p /\ p_row p' = p_row p
      /\ p_col p' = p_col p /\ (depth_exceeded p = true -> depth_exceeded p' = true).

Definition unmarked (st : checker) (k : nat) : Prop :=
  exists p, m_current_path st !! k = Some p /\ depth_exceeded p = false.

(** The link is on the path between [j] and [d]. *)
Definition stack (j d : nat) (st : checker) (x : row) (c : nat) : Prop :=
  exists k p, j <= k < d /\ m_current_path st !! k = Some p /\ p_table p = x.1 /\ p_row p = x.2 /\ p_col p = c.

(** How far a search from depth [d] that failed has come: as far as the limit
    allows without the links on the path, and three links without those that
    come after an unmarked element. *)
Definition searched (j d : nat) (st : checker) (n : nat) : Prop :=
  match j with O => n + d <= 3 | S i => unmarked st i /\ n <= 3 end.

Lemma same_stack_refl d s : same_stack d s s.
Proof. split; [done|]. intros k p _ Hp. exists p. by split_and!. Qed.

Lemma same_stack_trans d s1 s2 s3 : same_stack d s1 s2 -> same_stack d s2 s3 -> same_stack d s1 s3.
Proof.
  intros [[L1 ?] Hs1] [[L2 ?] Hs2]. split; [split; [congruence|lia]|]. intros k p Hk Hp.
  destruct (Hs1 k p Hk Hp) as (p2 & Hp2 & ? & ? & ? & ?).
  destruct (Hs2 k p2 Hk Hp2) as (p3 & Hp3 & ? & ? & ? & ?). exists p3. split_and!; [done|congruence..|auto].
Qed.

Lemma same_stack_le d d' s1 s2 : d' <= d -> same_stack d s1 s2 -> same_stack d' s1 s2.
Proof. intros Hd [Hl Hs]. split; [done|]. intros k p Hk. apply Hs. lia. Qed.

Lemma same_stack_then d s1 s2 s3 : same_stack d s1 s2 -> same_stack (S d) s2 s3 -> same_stack d s1 s3.
Proof. intros Hs12 Hs23. apply (same_stack_trans d s1 s2); [done|]. apply (same_stack_le (S d)); [lia|done]. Qed.

Lemma same_stack_path d s1 s2 : m_current_path s1 = m_current_path s2 ->
  length (m_not_modified s1) <= length (m_not_modified s2) -> same_stack d s1 s2.
Proof. intros Hp Hn. split; [by rewrite Hp|]. intros k p _ Hk. exists p. rewrite <- Hp. by split_and!. Qed.

Lemma unmarked_before d s1 s2 k : k < d -> same_stack d s1 s2 -> unmarked s2 k -> unmarked s1 k.
Proof.
  intros Hk [[Hl _] Hs] (p & Hp & Hu). destruct (m_current_path s1 !! k) as [q|] eqn:Hq.
  - destruct (Hs k q Hk Hq) as (p' & Hp' & _ & _ & _ & Hm). rewrite Hp in Hp'. injection Hp' as <-.
    exists q. split; [done|]. destruct (depth_exceeded q); [|done]. by rewrite Hm in Hu.
  - apply lookup_ge_None in Hq. apply lookup_lt_Some in Hp. lia.
Qed.

Lemma stack_same j d s1 s2 x c : same_stack d s1 s2 -> stack j d s1 x c <-> stack j d s2 x c.
Proof.
  intros [[Hl _] Hs]. split; intros (k & p & Hk & Hp & ? & ? & ?).
  - destruct (Hs k p) as (p' & ? & ? & ? & ? & _); [lia|done|].
    exists k, p'. split_and!; [lia|lia|done|congruence..].
  - destruct (m_current_path s1 !! k) as [q|] eqn:Hq.
    + destruct (Hs k q) as (p' & Hp' & ? & ? & ? & _); [lia|done|]. rewrite Hp in Hp'. injection Hp' as <-.
      exists k, q. split_and!; [lia|lia|done|congruence..].
    + apply lookup_ge_None in Hq. apply lookup_lt_Some in Hp. lia.
Qed.

Lemma searched_before j d d' s1 s2 n : j <= d' -> same_stack d' s1 s2 -> searched j d s2 n -> searched j d s1 n.
Proof.
  intros Hj Hs. destruct j as [|i]; cbn; [done|]. intros [? ?]. split; [|done].
  by eapply (unmarked_before d'); [lia|..].
Qed.

(** The next link of a search that has come far enough is searched too. *)
Lemma searched_next j d st m n : j <= d -> m < n -> searched j d st n -> searched j (S d) st m.
Proof. intros Hj Hm. destruct j; cbn; [lia|]. intros [? ?]. split; [done|lia]. Qed.

Lemma far_weaken x : far x -> forall avoid n y, n <= 3 -> walk edge avoid n x y -> ~ modified y.
Proof. intros Hf avoid n y Hn Hw. apply (Hf n); [done|]. by eapply walk_weaken; [|exact Hw]. Qed.

Lemma searched_le j d st n : d <= 3 -> searched j d st n -> n <= 3.
Proof. intros Hd. destruct j; cbn; [lia|by intros [_ ?]]. Qed.

(** ** One link *)

Lemma already_checking_spec x c d st : d <= 3 -> checker_ok st ->
  let r := already_checking x.1 x.2 c d st in
  checker_ok r.1 /\ same_stack d st r.1
  /\ if r.2 then forall j n, j <= d -> searched j d r.1 n -> stack j d st x c
     else forall j w c', stack j (S d) r.1 w c' -> stack j d st w c' \/ w = x.
Proof.
  intros Hd [Hl Hw Hf]. unfold already_checking. set (path := m_current_path st).
  destruct (find_index_cases (same_link x.1 x.2 c) (take d path))
    as [[Hall ->]|(l1 & p & l2 & Hp & Hall & Hsame & ->)]; cbn [fst snd].
  - split_and!.
    + split; [by cbn; rewrite length_insert|done..].
    + split; [by cbn; rewrite length_insert|]. intros k q Hk Hq. exists q. cbn. by rewrite list_lookup_insert_ne by lia.
    + intros j w c' (k & q & Hk & Hq & ? & ? & ?). cbn in Hq. destruct (decide (k = d)) as [->|Hne].
      * rewrite list_lookup_insert_eq in Hq by (unfold path; lia). injection Hq as <-. right. by destruct w, x; cbn in *; subst.
      * rewrite list_lookup_insert_ne in Hq by lia. left. exists k, q. by split_and!; [lia|lia|..].
  - assert (Hlen : length (l1 ++ p :: l2) = d) by (rewrite <- Hp, length_take; unfold path; lia).
    assert (Hpath : path = l1 ++ p :: l2 ++ drop d path).
    { rewrite <- (take_drop d path) at 1. rewrite Hp. by rewrite <- app_assoc. }
    rewrite Hp, drop_app_length. rewrite length_app in Hlen. cbn in Hlen.
    assert (Ht : take (length l1) path = l1) by (rewrite Hpath; by rewrite take_app_length). rewrite Ht.
    set (path' := l1 ++ (exceed <$> p :: l2) ++ drop d path).
    assert (Hlp : length path' = length path).
    { unfold path'. rewrite Hpath at 2. rewrite !length_app, length_fmap. cbn. rewrite length_app. lia. }
    assert (Hlook : forall k q, path !! k = Some q -> k < d ->
              path' !! k = Some (if bool_decide (k < length l1) then q else exceed q)).
    { intros k q Hk Hkd. unfold path'. rewrite Hpath in Hk. case_bool_decide.
      - rewrite lookup_app_l in Hk |- * by lia. done.
      - rewrite lookup_app_r in Hk |- * by lia. rewrite app_comm_cons in Hk.
        rewrite lookup_app_l in Hk by (cbn; lia). rewrite lookup_app_l by (rewrite length_fmap; cbn; lia).
        by rewrite list_lookup_fmap, Hk. }
    split_and!.
    + split; [cbn; by rewrite Hlp|done..].
    + split; [by cbn|]. intros k q Hk Hq. eexists. split; [by apply Hlook|]. by case_bool_decide.
    + intros j n Hj Hs. assert (Hp1 : path !! length l1 = Some p).
      { rewrite Hpath. by apply list_lookup_middle. }
      unfold same_link in Hsame. rewrite !andb_true_iff, !bool_decide_eq_true in Hsame.
      destruct Hsame as [[? ?] ?]. exists (length l1), p. split_and!; [|lia|done..].
      destruct j as [|i]; [lia|]. destruct Hs as [(q & Hq & Hu) _]. cbn in Hq.
      destruct (path !! i) as [q'|] eqn:Hi; [|apply lookup_ge_None in Hi; unfold path in Hi; lia].
      rewrite (Hlook i q' Hi) in Hq by lia. injection Hq as <-. case_bool_decide; [lia|done].
Qed.

(** What a check of a row from depth [d] finds: a modified row within the limit,
    or that a search has not found one. *)
Definition found (x : row) (d : nat) : Prop := exists n y, n + d <= 3 /\ walk edge nowhere n x y /\ modified y.

Definition checked (x : row) (d : nat) (st st' : checker) (b : bool) : Prop :=
  checker_ok st' /\ same_stack d st st'
  /\ if b then found x d
     else forall j n y, j <= d -> searched j d st' n -> walk edge (stack j d st) n x y -> ~ modified y.

(** The same for a link of [x]: the rest of a walk does not come back to [x]. *)
Definition link_found (x : row) (l : OutgoingLink) (d : nat) : Prop := exists z, link_edge l x z /\ found z (S d).

Definition link_clear (x : row) (d : nat) (st0 : checker) (l : OutgoingLink) (st : checker) : Prop :=
  forall z j n m y, link_edge l x z -> j <= d -> searched j d st n -> m < n -> ~ stack j d st0 x (link_col_ndx l) ->
    walk edge (or_from (stack j d st0) x) m z y -> ~ modified y.

Definition row_check := Z -> Z -> nat -> checker -> option (checker * bool).

(** The recursive calls are right. *)
Definition checks_at (check : row_check) (d : nat) : Prop :=
  forall z st, in_group z -> checker_ok st ->
    exists st' b, check z.1 z.2 d st = Some (st', b) /\ checked z d st st' b.

Lemma link_clear_before x d st0 l s1 s2 : same_stack d s1 s2 -> link_clear x d st0 l s1 -> link_clear x d st0 l s2.
Proof.
  intros Hs Hc z j n m y He Hj Hn. apply (Hc z j n m y He Hj). by eapply searched_before.
Qed.

(** A target of the link that has been checked. *)
Lemma target_clear x d st0 st1 l z s s' : link_edge l x z ->
  (forall j w c, stack j (S d) st1 w c -> stack j d st0 w c \/ w = x) ->
  same_stack (S d) st1 s -> checked z (S d) s s' false ->
  forall j n m y, j <= d -> searched j d s' n -> m < n ->
    walk edge (or_from (stack j d st0) x) m z y -> ~ modified y.
Proof.
  intros He Hext Hs (_ & _ & Hc) j n m y Hj Hn Hm Hw. apply (Hc j m y); [lia|by eapply searched_next|].
  eapply walk_weaken; [|exact Hw]. intros w c Hwc. apply (Hext j). by eapply stack_same.
Qed.

Lemma linked_object_spec check x d l st : d <= 3 -> checks_at check (S d) -> checker_ok st ->
  is_link_type (get_column_type x.1 (link_col_ndx l)) = true ->
  exists st' b, linked_object_changed check x.1 x.2 d l st = Some (st', b)
    /\ checker_ok st' /\ same_stack d st st' /\ if b then link_found x l d else link_clear x d st l st'.
Proof.
  intros Hd Hcheck Hok Hty. pose proof (already_checking_spec x (link_col_ndx l) d st Hd Hok) as Ha.
  unfold linked_object_changed. destruct (already_checking _ _ _ _ _) as [st1 checking].
  cbn [fst snd] in Ha. destruct Ha as (Hok1 & Hs1 & Hb). destruct checking.
  { exists st1, false. split_and!; [done..|]. intros z j n m y _ Hj Hn _ Hns. by destruct (Hns (Hb j n Hj Hn)). }
  set (t := get_link_target x.1 (link_col_ndx l)). pose proof (link_target_in_group _ _ Hty) as Ht.
  assert (Htarget : forall z s, link_edge l x z -> (0 <= z.2 < npos)%Z -> checker_ok s ->
    exists s' b, check t z.2 (S d) s = Some (s', b) /\ checked z (S d) s s' b).
  { intros z s [Hz _] Hr Hs. unfold t. rewrite <- Hz. apply Hcheck; [|done]. split; [by rewrite Hz|done]. }
  destruct (is_list l) eqn:Hlist; cbn [negb].
  - pose proof (any_ofM_spec (λ dst, check t dst (S d))
      (λ s, checker_ok s /\ same_stack (S d) st1 s) (same_stack (S d)) (λ dst, found (t, dst) (S d))
      (λ dst s, forall j n m y, j <= d -> searched j d s n -> m < n ->
        walk edge (or_from (stack j d st) x) m (t, dst) y -> ~ modified y)
      (get_linklist x.1 (link_col_ndx l) x.2)) as Hany.
    edestruct Hany as (st' & b & -> & [Hok' _] & Hs' & Hb'); clear Hany.
    + apply same_stack_refl.
    + apply same_stack_trans.
    + intros dst s1 s2 Hs Hc j n m y Hj Hn. apply (Hc j n m y Hj).
      apply (searched_before j d (S d) s1 s2); [lia|done..].
    + intros dst s Hdst [Hsok Hss].
      assert (He : link_edge l x (t, dst)) by (split; [done|by rewrite Hlist]).
      destruct (Htarget (t, dst) s) as (s' & b & Hc & Hpost); [done|by eapply linklist_row|done|].
      exists s', b. split; [exact Hc|]. pose proof Hpost as (Hs'ok & Hs's & Hr).
      split_and!; [done|by eapply same_stack_trans|done|]. destruct b; [done|].
      by eapply target_clear.
    + split; [done|apply same_stack_refl].
    + exists st', b. split_and!; [done..|by eapply same_stack_then|].
      destruct b.
      * destruct Hb' as (dst & Hdst & Hf). exists (t, dst). split; [|done]. split; [done|by rewrite Hlist].
      * intros z j n m y [Hz He] Hj Hn Hm _. rewrite Hlist in He. pose proof (Hb' z.2 He j n m y Hj Hn Hm) as Hx.
        unfold t in Hx. rewrite <- Hz in Hx. by destruct z.
  - destruct (get_link x.1 (link_col_ndx l) x.2) as [dst|] eqn:Hl.
    + assert (He : link_edge l x (t, dst)) by (split; [done|by rewrite Hlist]).
      destruct (Htarget (t, dst) st1) as (s' & b & Hc & Hpost); [done|by eapply link_row|done|].
      exists s', b. split; [exact Hc|]. pose proof Hpost as (Hs'ok & Hs's & Hr).
      split_and!; [done|by eapply same_stack_then|].
      destruct b; [by exists (t, dst)|]. intros z j n m y [Hz Hez] Hj Hn Hm _.
      rewrite Hlist, Hl in Hez. injection Hez as Hez. assert (z = (t, dst)) as -> by (destruct z; cbn in *; by subst).
      exact (target_clear x d st st1 l (t, dst) st1 s' He Hb (same_stack_refl _ _) Hpost j n m y Hj Hn Hm).
    + exists st1, false. split_and!; [done..|]. intros z j n m y [_ He]. rewrite Hlist, Hl in He. done.
Qed.

(** ** One row *)

Hypothesis Hrelated : related_ok.
Hypothesis Hmods : Forall (λ b, wf (modifications b)) (tables m_info).

Lemma modifications_wf t d : modifications_of m_info t = Some d -> wf d.
Proof.
  unfold modifications_of. case_bool_decide; [|done]. destruct (tables m_info !! _) as [b|] eqn:Hb; [|done].
  cbn. intros [= <-]. by eapply Forall_lookup_1 in Hmods.
Qed.

Lemma modified_decide x : exists b, (match modifications_of m_info x.1 with
                                     | Some d => contains d x.2 | None => Some false end) = Some b
  /\ (b = true <-> modified x).
Proof.
  unfold modified. destruct (modifications_of m_info x.1) as [d|] eqn:Hd.
  - exists (bool_decide (mem x.2 (flat d))). split; [apply contains_spec; by eapply modifications_wf|].
    rewrite bool_decide_eq_true. split; [by exists d|]. by intros (d' & [= <-] & ?).
  - exists false. split; [done|]. split; [done|]. by intros (? & ? & _).
Qed.

(** A search that has cleared every link of [x] has cleared [x]. *)
Lemma links_clear x d st0 st : ~ modified x ->
  (forall tbl l, tbl ∈ m_related_tables -> related_ndx tbl = x.1 -> l ∈ links tbl -> link_clear x d st0 l st) ->
  forall j n y, j <= d -> searched j d st n -> walk edge (stack j d st0) n x y -> ~ modified y.
Proof.
  intros Hx Hc j n y Hj Hn Hw0.
  destruct (walk_departs edge _ _ _ _ Hw0) as [<-|(c & z & m & Hm & (tbl & l & Htbl & Ht & Hl & <- & He) & Hns & Hw)]; [done|].
  by eapply (Hc tbl l Htbl Ht Hl).
Qed.

Lemma related_find t : match find_index (λ tbl, bool_decide (related_ndx tbl = t)) m_related_tables with
  | Some k => exists tbl, m_related_tables !! k = Some tbl /\ related_ndx tbl = t
      /\ forall tbl', tbl' ∈ m_related_tables -> related_ndx tbl' = t -> tbl' = tbl
  | None => forall tbl, tbl ∈ m_related_tables -> related_ndx tbl <> t
  end.
Proof.
  destruct (find_index_cases (λ tbl, bool_decide (related_ndx tbl = t)) m_related_tables)
    as [[Hall ->]|(l1 & tbl & l2 & Hp & Hall & Ht & ->)].
  - intros tbl Htbl. rewrite Forall_forall in Hall. by apply Hall, bool_decide_eq_false in Htbl.
  - apply bool_decide_eq_true in Ht. exists tbl. split_and!; [rewrite Hp; by apply list_lookup_middle|done|].
    intros tbl' [i Hi]%list_elem_of_lookup_1 Ht'.
    assert (i = length l1) as ->.
    { apply (NoDup_lookup (related_ndx <$> m_related_tables) i (length l1) t); [apply Hrelated|..];
        rewrite list_lookup_fmap; [by rewrite Hi; cbn; rewrite Ht'|rewrite Hp, list_lookup_middle by done; cbn; by rewrite Ht]. }
    rewrite Hp, list_lookup_middle in Hi by done. by injection Hi.
Qed.

Lemma outgoing_spec check x d st : d <= 3 -> checks_at check (S d) -> checker_ok st -> ~ modified x ->
  exists st' b, check_outgoing_links m_related_tables check x.1 x.2 d st = Some (st', b) /\ checked x d st st' b.
Proof.
  intros Hd Hcheck Hok Hx. unfold check_outgoing_links. pose proof (related_find x.1) as Hfind.
  destruct (find_index _ _) as [k|].
  - destruct Hfind as (tbl & Hk & Ht & Hu). rewrite Hk. mrun.
    destruct (any_ofM_spec (linked_object_changed check x.1 x.2 d)
      (λ s, checker_ok s /\ same_stack d st s) (same_stack d) (λ l, link_found x l d) (link_clear x d st) (links tbl))
      with (st := st) as (st' & b & -> & [Hok' Hs'] & _ & Hb).
    + apply same_stack_refl.
    + apply same_stack_trans.
    + intros l s1 s2. apply link_clear_before.
    + intros l s Hl [Hsok Hss]. destruct (linked_object_spec check x d l s) as (s' & b & Hc & Hs'ok & Hs's & Hb);
        [done..| |].
      { rewrite <- Ht. apply (related_types Hrelated tbl l); [by eapply list_elem_of_lookup_2|done]. }
      exists s', b. split_and!; [done..|by eapply same_stack_trans|done|]. destruct b; [done|].
      intros z j n m y He Hj Hn Hm Hns Hw. apply (Hb z j n m y He Hj Hn Hm).
      * by rewrite <- (stack_same j d st s).
      * eapply walk_weaken; [|exact Hw]. intros w c [Hwc| ->]; [left|by right]. by rewrite (stack_same j d st s).
    + split; [done|apply same_stack_refl].
    + exists st', b. split; [done|]. split_and!; [done..|]. destruct b.
      * destruct Hb as (l & Hl & z & He & n & y & Hn & Hw & Hy). exists (S n), y. split_and!; [lia| |done].
        econstructor; [|by intros []|exact Hw]. exists tbl, l. split_and!; [by eapply list_elem_of_lookup_2|done..].
      * apply links_clear; [done|]. intros tbl' l Htbl' Ht' Hl. rewrite (Hu tbl' Htbl' Ht') in Hl. by apply Hb.
  - exists st, false. split; [done|]. split_and!; [done|apply same_stack_refl|]. apply links_clear; [done|].
    intros tbl l Htbl Ht. by destruct (Hfind tbl Htbl).
Qed.

Lemma checked_far x d st st' : checked x d st st' false ->
  match d with O => True | S above => unmarked st' above end -> far x.
Proof.
  intros (_ & _ & Hc) Hd n y Hn Hw. apply (Hc d n y); [lia| |].
  - destruct d; cbn; [lia|done].
  - eapply walk_weaken; [|exact Hw]. intros w c (k & p & Hk & _). lia.
Qed.

Lemma resize_ok t st : checker_ok st -> checker_ok (if bool_decide (Z.of_nat (length (m_not_modified st)) <= t)%Z
    then set_not_modified (vec_resize (Z.to_nat (t + 1)) ([] : IndexSet) (m_not_modified st)) st else st).
Proof.
  intros [Hl Hw Hf]. case_bool_decide as Ht; [|by split]. split; [done|..]; cbn; unfold vec_resize.
  - rewrite resize_ge by lia. apply Forall_app. split; [done|]. apply Forall_replicate, wf_nil.
  - intros k d i Hk Hi. rewrite resize_ge in Hk by lia. apply lookup_app_Some in Hk as [Hk|[_ Hk]].
    + by eapply Hf.
    + apply lookup_replicate in Hk as [-> _]. by apply mem_nil in Hi.
Qed.

Lemma remember_ok x st : in_group x -> checker_ok st -> far x -> Z.to_nat x.1 < length (m_not_modified st) ->
  exists st', remember x.1 x.2 st = Some st' /\ checker_ok st' /\ m_current_path st' = m_current_path st
    /\ length (m_not_modified st') = length (m_not_modified st).
Proof.
  intros [Ht Hr] [Hl Hw Hf] Hx Hlt. unfold remember.
  destruct (lookup_lt_is_Some_2 _ _ Hlt) as [d Hd]. rewrite Hd. mrun.
  assert (Hwd : wf d) by by eapply Forall_lookup_1 in Hw.
  destruct (add_spec d x.2 Hwd Hr) as (d' & -> & Hw' & Hm). mrun. eexists. split; [done|]. split; [|split; [done|cbn; by rewrite length_insert]].
  split; [done|..]; cbn.
  - by apply Forall_insert.
  - intros k e i Hk Hi. destruct (decide (k = Z.to_nat x.1)) as [->|Hne].
    + rewrite list_lookup_insert_eq in Hk by done. injection Hk as <-.
      apply Hm in Hi as [Hi| ->]; [by eapply Hf|]. rewrite Z2Nat.id by lia. by destruct x.
    + rewrite list_lookup_insert_ne in Hk by done. by eapply Hf.
Qed.

Lemma check_row_spec fuel : forall d x st, d <= 4 -> 5 <= fuel + d -> in_group x -> checker_ok st ->
  (d = 0 -> ~ modified x) ->
  exists st' b, check_row m_info m_related_tables fuel x.1 x.2 d st = Some (st', b) /\ checked x d st st' b.
Proof.
  induction fuel as [|fuel IH]; intros d x st Hd Hf Hx Hok H0; [lia|]. cbn [check_row].
  pose proof Hok as [Hl Hw Hfar]. rewrite Hl. case_bool_decide as H4.
  { assert (d = 4) as -> by lia. eexists _, false. split; [done|]. split_and!.
    - split; [by cbn; rewrite length_fmap|done..].
    - split; [cbn; by rewrite length_fmap|]. intros k p Hk Hp. cbn. exists (exceed p).
      rewrite list_lookup_fmap, Hp. by split_and!.
    - intros [|i] n y Hj Hs; cbn in Hs; [lia|]. destruct Hs as [(p & Hp & Hu) _]. cbn in Hp.
      rewrite list_lookup_fmap in Hp. destruct (m_current_path st !! i); [|done]. by injection Hp as <-. }
  destruct (modified_decide x) as (m & Hm & Hmod).
  replace (match modifications_of m_info x.1 with Some d0 => if bool_decide (0 < d) then contains d0 x.2 else Some false
           | None => Some false end) with (Some (if bool_decide (0 < d) then m else false)).
  2: { destruct (modifications_of m_info x.1); [|by injection Hm as <-; case_bool_decide]. by case_bool_decide. }
  mrun. destruct (if bool_decide (0 < d) then m else false) eqn:Hm'.
  { exists st, true. split; [done|]. split_and!; [done|apply same_stack_refl|].
    case_bool_decide; [|done]. exists 0, x. split_and!; [lia|constructor|by apply Hmod]. }
  assert (Hnm : ~ modified x) by (case_bool_decide; [by rewrite <- Hmod, Hm'|apply H0; lia]). clear m Hm Hmod Hm'.
  apply (resize_ok x.1) in Hok.
  set (st1 := if bool_decide (Z.of_nat (length (m_not_modified st)) <= x.1)%Z then _ else st) in *.
  assert (Hlen : Z.to_nat x.1 < length (m_not_modified st1) /\ length (m_not_modified st) <= length (m_not_modified st1)).
  { destruct Hx as [Ht _]. unfold st1. case_bool_decide; [|lia]. cbn. unfold vec_resize. rewrite length_resize. lia. }
  assert (Hs1 : same_stack d st st1) by (apply same_stack_path; [unfold st1; by case_bool_decide|lia]).
  destruct (lookup_lt_is_Some_2 _ _ (proj1 Hlen)) as [e He]. rewrite He. mrun.
  rewrite contains_spec by (by eapply Forall_lookup_1; [apply (not_modified_wf _ Hok)|]). mrun.
  destruct (bool_decide (mem x.2 (flat e))) eqn:Hknown.
  { apply bool_decide_eq_true in Hknown. exists st1, false. split; [done|]. split_and!; [done..|].
    intros j n y _ Hn. apply (far_weaken x); [|by eapply searched_le in Hn; [|lia]].
    pose proof (not_modified_far _ Hok _ _ _ He Hknown) as Hfx. rewrite Z2Nat.id in Hfx by apply Hx. by destruct x. }
  assert (Hcheck : checks_at (check_row m_info m_related_tables fuel) (S d)).
  { intros z s Hz Hs. by apply IH; [lia|lia|..]. }
  destruct (outgoing_spec (check_row m_info m_related_tables fuel) x d st1) as (st2 & b & -> & Hc); [lia|done..|]. mrun.
  pose proof Hc as (Hok2 & Hs2 & Hb). assert (Hs02 : same_stack d st st2) by by eapply same_stack_trans.
  assert (Hres : if b then found x d else
      forall j n y, j <= d -> searched j d st2 n -> walk edge (stack j d st) n x y -> ~ modified y).
  { destruct b; [done|]. intros j n y Hj Hn Hwk. apply (Hb j n y Hj Hn). eapply walk_weaken; [|exact Hwk].
    intros w c Hwc. by rewrite (stack_same j d st st1). }
  clear Hb. destruct b.
  { exists st2, true. cbn [negb andb]. destruct d as [|above]; mrun; [done|].
    destruct (m_current_path st2 !! above) as [p|] eqn:Hp; [done|].
    apply lookup_ge_None in Hp. destruct Hok2 as [Hl2 _ _]. lia. }
  cbn [negb andb].
  assert (Hend : forall complete : bool, (complete = true -> far x) ->
    exists st' b, (if complete then st ← remember x.1 x.2 st2; Some (st, false) else Some (st2, false)) = Some (st', b)
      /\ checked x d st st' b).
  { intros [] Hfx; [|by exists st2, false]. destruct (remember_ok x st2) as (st3 & -> & Hok3 & Hp3 & Hn3); [done..|by apply Hfx| |].
    - destruct Hs2 as [[_ ?] _]. lia.
    - mrun. exists st3, false. split; [done|]. assert (Hs23 : same_stack d st2 st3).
      { apply same_stack_path; [done|lia]. }
      split_and!; [done|by eapply same_stack_trans|]. intros j n y Hj Hn. apply (Hres j n y Hj).
      by eapply searched_before. }
  destruct d as [|above]; mrun.
  - apply (Hend true). intros _. by eapply checked_far.
  - destruct (m_current_path st2 !! above) as [p|] eqn:Hp; [|apply lookup_ge_None in Hp; destruct Hok2 as [Hl2 _ _]; lia].
    mrun. apply Hend. intros Hu%negb_true_iff. eapply checked_far; [exact Hc|]. by exists p.
Qed.
End facts.

(** ** The tables a table leads to

    [find_related_tables] ends, and finds the links of every table that can be
    reached; with them a [DeepChangeChecker] follows all links there are. *)

Section related.
Context `{HB : Build, HT : LinkTables, HL : !LinkTablesLaws}.

(** ** The links of a table *)

Definition link_at (t : Z) (i : nat) : option OutgoingLink :=
  if is_link_type (get_column_type t i)
  then Some (mkOutgoingLink i (bool_decide (get_column_type t i = type_LinkList))) else None.

Definition links_in (t : Z) (cols : list nat) : list OutgoingLink := omap (link_at t) cols.
Definition all_links (t : Z) : list OutgoingLink := links_in t (seq 0 (get_column_count t)).

Abbreviation indices := (fmap (M := list) related_ndx).

(** The table has all its links, and their targets are in the list. *)
Definition complete (all : list RelatedTable) (tbl : RelatedTable) : Prop :=
  links tbl = all_links (related_ndx tbl)
  /\ forall l, l ∈ links tbl -> get_link_target (related_ndx tbl) (link_col_ndx l) ∈ indices all.

Definition table_in_group (t : Z) : Prop := (0 <= t < Z.of_nat group_size)%Z.

Lemma complete_incl all all' tbl : indices all ⊆ indices all' -> complete all tbl -> complete all' tbl.
Proof. intros Hi [? Hc]. split; [done|]. intros l Hl. by apply Hi, Hc. Qed.

Lemma in_group_length (l : list Z) : NoDup l -> Forall table_in_group l -> length l <= group_size.
Proof.
  intros Hn Hl. rewrite <- (length_seqZ 0 (Z.of_nat group_size)) || rewrite <- (Nat2Z.id group_size), <- length_seqZ with (m := 0%Z).
  apply submseteq_length, NoDup_submseteq; [done|]. intros t Ht. apply elem_of_seqZ.
  rewrite Forall_forall in Hl. pose proof (Hl t Ht). unfold table_in_group in *. lia.
Qed.

Lemma existsb_indices t (out : list RelatedTable) :
  existsb (λ tbl, bool_decide (related_ndx tbl = t)) out = bool_decide (t ∈ indices out).
Proof.
  apply eq_bool_prop_intro. rewrite existb_True, bool_decide_spec, Exists_exists.
  setoid_rewrite bool_decide_spec. rewrite list_elem_of_fmap.
  split; intros (tbl & ? & ?); exists tbl; by split.
Qed.

Lemma alter_middle {A} (f : A -> A) l1 x l2 : alter f (length l1) (l1 ++ x :: l2) = l1 ++ f x :: l2.
Proof. rewrite <- (Nat.add_0_r (length l1)). by rewrite alter_app_r. Qed.

(** ** The search *)

Record grown (out new : list RelatedTable) : Prop := {
  grown_unique : NoDup (indices (out ++ new));
  grown_in_group : Forall table_in_group (indices (out ++ new));
}.

Lemma find_related_tables_spec fuel : forall out t, grown out [] -> t = npos \/ table_in_group t ->
  group_size < fuel + length out ->
  exists new, find_related_tables fuel out t = Some (out ++ new) /\ grown out new
    /\ (t <> npos -> t ∈ indices (out ++ new)) /\ Forall (complete (out ++ new)) new.
Proof.
  induction fuel as [|fuel IH]; intros out t [Hu Hg] Ht Hf.
  { rewrite app_nil_r in *. apply in_group_length in Hg; [|done]. rewrite length_fmap in Hg. lia. }
  cbn [find_related_tables]. case_bool_decide as Hnpos.
  { exists []. rewrite app_nil_r in *. split_and!; [done|split; by rewrite app_nil_r|done|constructor]. }
  rewrite existsb_indices. case_bool_decide as Hin.
  { exists []. rewrite app_nil_r in *. split_and!; [done|split; by rewrite app_nil_r|done|constructor]. }
  destruct Ht as [|Ht]; [done|]. rewrite app_nil_r in *.
  set (step := λ i out0, _).
  assert (Hloop : forall l done new,
    grown out (mkRelatedTable t (links_in t done) :: new) ->
    (forall x, x ∈ links_in t done -> get_link_target t (link_col_ndx x) ∈ indices (out ++ mkRelatedTable t (links_in t done) :: new)) ->
    Forall (complete (out ++ mkRelatedTable t (links_in t done) :: new)) new ->
    exists new', foldM step l (out ++ mkRelatedTable t (links_in t done) :: new)
        = Some (out ++ mkRelatedTable t (links_in t (done ++ l)) :: new')
      /\ grown out (mkRelatedTable t (links_in t (done ++ l)) :: new')
      /\ (forall x, x ∈ links_in t (done ++ l) ->
           get_link_target t (link_col_ndx x) ∈ indices (out ++ mkRelatedTable t (links_in t (done ++ l)) :: new'))
      /\ Forall (complete (out ++ mkRelatedTable t (links_in t (done ++ l)) :: new')) new').
  2: { destruct (Hloop (seq 0 (get_column_count t)) [] []) as (new & Hr & Hgr & Hc & Hall).
       - split; rewrite fmap_app; cbn.
         + apply NoDup_app. split_and!; [done| |apply NoDup_singleton].
           intros x Hx Hx'%list_elem_of_singleton. by subst.
         + apply Forall_app. split; [done|]. by constructor.
       - by intros x Hx%elem_of_nil.
       - constructor.
       - eexists. split; [exact Hr|]. split; [done|]. split.
         + intros _. rewrite fmap_app, elem_of_app. right. by left.
         + constructor; [|done]. by split. }
  induction l as [|i l IHl]; intros done new Hgr Hc Hall.
  { exists new. rewrite app_nil_r. by split_and!. }
  replace (done ++ i :: l) with ((done ++ [i]) ++ l) by by rewrite <- app_assoc.
  assert (Hsnoc : links_in t (done ++ [i]) = links_in t done ++ match link_at t i with Some x => [x] | None => [] end).
  { unfold links_in. rewrite omap_app. cbn. by destruct (link_at t i). }
  cbn [foldM]. unfold link_at in Hsnoc.
  destruct (is_link_type (get_column_type t i)) eqn:Hty.
  - replace (step i (out ++ mkRelatedTable t (links_in t done) :: new))
      with (find_related_tables fuel (alter (push_link (mkOutgoingLink i (bool_decide (get_column_type t i = type_LinkList))))
             (length out) (out ++ mkRelatedTable t (links_in t done) :: new)) (get_link_target t i))
      by (unfold step; by rewrite Hty).
    rewrite alter_middle. unfold push_link. cbn [related_ndx links]. rewrite <- Hsnoc.
    assert (Hsame : indices (out ++ mkRelatedTable t (links_in t (done ++ [i])) :: new)
                    = indices (out ++ mkRelatedTable t (links_in t done) :: new)) by by rewrite !fmap_app.
    destruct Hgr as [Hgu Hgg].
    destruct (IH (out ++ mkRelatedTable t (links_in t (done ++ [i])) :: new) (get_link_target t i)) as (more & -> & Hgr2 & Hin2 & Hall2).
    { split; rewrite app_nil_r, Hsame; done. }
    { right. by apply link_target_in_group. }
    { rewrite length_app. cbn. lia. }
    mrun. rewrite <- app_assoc in *. cbn [app] in *.
    assert (Hincl : indices (out ++ mkRelatedTable t (links_in t done) :: new)
                    ⊆ indices (out ++ mkRelatedTable t (links_in t (done ++ [i])) :: new ++ more)).
    { intros x. rewrite !fmap_app, !fmap_cons, !fmap_app, !elem_of_app, !elem_of_cons, elem_of_app. cbn. tauto. }
    apply IHl.
    + destruct Hgr2 as [Hu2 Hg2]. rewrite <- app_assoc in *. by split.
    + intros x Hx. rewrite Hsnoc, elem_of_app, list_elem_of_singleton in Hx. destruct Hx as [Hx| ->]; [by apply Hincl, Hc|].
      apply Hin2. pose proof (link_target_in_group _ _ Hty). pose proof group_size_small. lia.
    + apply Forall_app. split; [|done]. eapply Forall_impl; [exact Hall|]. intros x. by apply complete_incl.
  - replace (step i (out ++ mkRelatedTable t (links_in t done) :: new))
      with (Some (out ++ mkRelatedTable t (links_in t done) :: new)) by (unfold step; by rewrite Hty).
    mrun. rewrite app_nil_r in Hsnoc. rewrite <- Hsnoc in *. by apply IHl.
Qed.

(** A column of the table [t] links to the table [u]. *)
Definition table_link (t u : Z) : Prop := exists c, c < get_column_count t
  /\ is_link_type (get_column_type t c) = true /\ u = get_link_target t c.

Lemma alter_indices f k (l : list RelatedTable) : (forall tbl, related_ndx (f tbl) = related_ndx tbl) -> indices (alter f k l) = indices l.
Proof using Type.
  intros Hf. apply list_eq. intros i. rewrite !list_lookup_fmap. destruct (decide (i = k)) as [->|Hne].
  - rewrite list_lookup_alter_eq. destruct (l !! k); [cbn; by rewrite Hf|done].
  - by rewrite list_lookup_alter_ne.
Qed.

(** Only tables that links lead to are added. *)
Lemma find_related_tables_reach fuel : forall out t out', find_related_tables fuel out t = Some out' ->
  forall i, i ∈ indices out' -> i ∈ indices out \/ rtc table_link t i.
Proof using Type.
  induction fuel as [|fuel IH]; intros out t out'; [done|]. cbn [find_related_tables].
  case_bool_decide; [intros [= <-]; by left|]. destruct (existsb _ out); [intros [= <-]; by left|].
  set (step := λ i out0, _).
  assert (Hloop : forall l out1, Forall (λ c, c < get_column_count t) l -> foldM step l out1 = Some out' ->
    forall i, i ∈ indices out' -> i ∈ indices out1 \/ rtc table_link t i).
  { induction l as [|c l IHl]; intros out1 Hl; cbn [foldM]; [intros [= <-]; by left|].
    apply Forall_cons in Hl as [Hc Hl]. destruct (step c out1) as [out2|] eqn:Hs; mrun; [|done]. intros Hrun i Hi.
    destruct (IHl out2 Hl Hrun i Hi) as [Hi2|?]; [|by right]. unfold step in Hs.
    destruct (is_link_type (get_column_type t c)) eqn:Hty; [|injection Hs as <-; by left].
    destruct (IH _ _ _ Hs i Hi2) as [Hi1|Hr]; [left; by rewrite alter_indices in Hi1|right].
    eapply rtc_l; [|exact Hr]. by exists c. }
  assert (Hcols : Forall (λ c, c < get_column_count t) (seq 0 (get_column_count t)))
    by (apply Forall_forall; intros c Hc%elem_of_seq; lia).
  intros Hrun i Hi. destruct (Hloop _ _ Hcols Hrun i Hi) as [Ho|?]; [|by right].
  rewrite fmap_app, elem_of_app in Ho. destruct Ho as [?|Ho%list_elem_of_singleton]; [by left|right]. cbn in Ho. by subst.
Qed.

Record closed (related : list RelatedTable) (root : Z) : Prop := {
  closed_unique : NoDup (indices related);
  closed_in_group : Forall table_in_group (indices related);
  closed_root : root ∈ indices related;
  closed_complete : Forall (complete related) related;
}.

Lemma set_table_spec root : table_in_group root -> exists related, set_table root = Some related /\ closed related root.
Proof.
  intros Hr. destruct (find_related_tables_spec (S (S group_size)) [] root) as (related & Hs & [Hu Hg] & Hin & Hc).
  - split; constructor.
  - by right.
  - cbn. lia.
  - exists related. split; [exact Hs|]. split; [done..| |done].
    apply Hin. pose proof group_size_small. unfold table_in_group in Hr. lia.
Qed.

Lemma elem_of_all_links t l : l ∈ all_links t <->
  exists i, i < get_column_count t /\ is_link_type (get_column_type t i) = true
    /\ l = mkOutgoingLink i (bool_decide (get_column_type t i = type_LinkList)).
Proof.
  unfold all_links, links_in. rewrite list_elem_of_omap. unfold link_at. split.
  - intros (i & Hi%elem_of_seq & Hl). exists i. destruct (is_link_type _); [|done]. injection Hl as <-. split_and!; [lia|done..].
  - intros (i & Hi & Hty & ->). exists i. rewrite elem_of_seq, Hty. split; [lia|done].
Qed.

(** The related tables are those that links lead to. *)
Lemma closed_reachable related root i : closed related root -> rtc table_link root i -> i ∈ indices related.
Proof using Type.
  intros Hcl. pose proof (closed_root _ _ Hcl) as Hin. pose proof (closed_complete _ _ Hcl) as Hall. clear Hcl.
  rewrite Forall_forall in Hall. induction 1 as [t|t u i (c & Hc & Hty & ->) _ IH]; [done|]. apply IH.
  apply list_elem_of_fmap in Hin as (tbl & -> & Htbl). destruct (Hall tbl Htbl) as [Hls Ht].
  apply (Ht (mkOutgoingLink c (bool_decide (get_column_type (related_ndx tbl) c = type_LinkList)))). rewrite Hls.
  apply elem_of_all_links. by exists c.
Qed.

Lemma set_table_reach root related i : set_table root = Some related -> i ∈ indices related -> rtc table_link root i.
Proof using Type. intros Hs Hi. destruct (find_related_tables_reach _ _ _ _ Hs i Hi) as [Hn%elem_of_nil|?]; done. Qed.

Lemma closed_related_ok related root : closed related root -> related_ok related.
Proof.
  intros [Hu _ _ Hc]. split; [done|]. intros tbl l Htbl Hl. rewrite Forall_forall in Hc.
  destruct (Hc tbl Htbl) as [Hls _]. rewrite Hls in Hl. by apply elem_of_all_links in Hl as (i & _ & ? & ->).
Qed.

(** ** The reference *)

(** A link or a list of links of the row [x] leads to [z]. *)
Definition linked (x z : row) : Prop := exists c, c < get_column_count x.1
  /\ z.1 = get_link_target x.1 c
  /\ ((get_column_type x.1 c = type_LinkList /\ z.2 ∈ get_linklist x.1 c x.2)
      \/ (get_column_type x.1 c = type_Link /\ get_link x.1 c x.2 = Some z.2)).

(** The row was modified, or one that it leads to in at most three links. *)
Definition deep_changed (info : TransactionChangeInfo) (x : row) : Prop :=
  exists n y, n <= 3 /\ nsteps linked n x y /\ modified info y.

Lemma edge_linked related root x z : closed related root -> x.1 ∈ indices related ->
  (exists c, edge related x c z) <-> linked x z.
Proof.
  intros Hcl (tbl & Ht & Htbl)%list_elem_of_fmap. pose proof (closed_complete _ _ Hcl) as Hc.
  rewrite Forall_forall in Hc. unfold edge, linked, link_edge. split.
  - intros (c & tbl' & l & Htbl' & <- & Hl & <- & Hz & He). destruct (Hc tbl' Htbl') as [Hls _]. rewrite Hls in Hl.
    apply elem_of_all_links in Hl as (i & Hi & Hty & ->). cbn in *. exists i. split_and!; [done..|].
    case_bool_decide; [by left|]. right. split; [|done]. by destruct (get_column_type _ i).
  - intros (c & Hcol & Hz & Hty). destruct (Hc tbl Htbl) as [Hls _].
    exists c, tbl, (mkOutgoingLink c (bool_decide (get_column_type x.1 c = type_LinkList))). cbn. split_and!; [done..| |done|done|].
    + rewrite Hls, <- Ht. apply elem_of_all_links. exists c. split_and!; [done| |done]. by destruct Hty as [[-> _]|[-> _]].
    + by destruct Hty as [[-> ?]|[-> ?]].
Qed.

Lemma linked_closed related root x z : closed related root -> x.1 ∈ indices related -> linked x z -> z.1 ∈ indices related.
Proof.
  intros Hcl Hx Hl. pose proof (closed_complete _ _ Hcl) as Hc. rewrite Forall_forall in Hc.
  apply (edge_linked _ _ _ _ Hcl Hx) in Hl as (c & tbl & l & Htbl & Ht & Hl & <- & [-> _]).
  rewrite <- Ht. by apply (Hc tbl Htbl).
Qed.

Lemma walk_linked related root n : closed related root -> forall x y, x.1 ∈ indices related ->
  walk (edge related) nowhere n x y <-> nsteps linked n x y.
Proof.
  intros Hcl. induction n as [|n IH]; intros x y Hx.
  - split; inversion 1; constructor.
  - split.
    + inversion 1 as [|? ? c z ? He Ha Hw]; subst. assert (Hl : linked x z) by (eapply edge_linked; by eauto).
      econstructor; [exact Hl|]. apply IH; [by eapply linked_closed|done].
    + inversion 1 as [|? ? z ? Hl Hn]; subst. pose proof Hl as (c & He)%(edge_linked _ _ _ _ Hcl Hx).
      econstructor; [exact He|by intros []|]. apply IH; [by eapply linked_closed|done].
Qed.

(** ** The checker *)

Lemma initial_checker_ok info related : checker_ok info related initial_checker.
Proof. split; [done|constructor|]. by intros k d i Hk. Qed.

Lemma deep_change_check_spec info related root idx st :
  Forall (λ b, wf (modifications b)) (tables info) -> closed related root -> table_in_group root ->
  (0 <= idx < npos)%Z -> checker_ok info related st ->
  exists st' b, deep_change_check info related root idx st = Some (st', b) /\ checker_ok info related st'
    /\ (b = true <-> deep_changed info (root, idx)).
Proof.
  intros Hm Hcl Hr Hi Hok. unfold deep_change_check.
  destruct (modified_decide info Hm (root, idx)) as (b & Hb & Hmod). cbn [fst snd] in Hb. rewrite Hb. mrun.
  destruct b.
  { exists st, true. split_and!; [done..|]. split; [|done]. intros _. exists 0, (root, idx).
    split_and!; [lia|constructor|by apply Hmod]. }
  destruct (check_row_spec info related (closed_related_ok _ _ Hcl) Hm check_fuel 0 (root, idx) st)
    as (st' & b & Hc & Hok' & _ & Hres); [lia|unfold check_fuel; lia|done|done| |].
  { intros _. by rewrite <- Hmod. }
  exists st', b. split_and!; [exact Hc|done|]. unfold deep_changed. destruct b.
  - split; [|done]. intros _. destruct Hres as (n & y & Hn & Hw & Hy). exists n, y. split_and!; [lia| |done].
    apply (walk_linked related root n Hcl); [apply Hcl|done].
  - split; [done|]. intros (n & y & Hn & Hw & Hy). apply (walk_linked related root n Hcl) in Hw; [|apply Hcl].
    destruct (Hres 0 n y); [lia|cbn; lia| |done]. eapply walk_weaken; [|exact Hw].
    intros w c (k & p & Hk & _). lia.
Qed.

Lemma linked_steps_closed related root n x y : closed related root -> x.1 ∈ indices related ->
  nsteps linked n x y -> y.1 ∈ indices related.
Proof. intros Hcl Hx Hn. induction Hn as [|n x z y Hl _ IH]; [done|]. by eapply IH, linked_closed. Qed.

Lemma modified_table info related y : y.1 ∈ indices related -> modified info y ->
  existsb (table_modified info) related = true.
Proof.
  intros (tbl & Ht & Htbl)%list_elem_of_fmap (d & Hd & Hy). apply existsb_exists. exists tbl.
  split; [by apply list_elem_of_In|]. unfold table_modified. rewrite <- Ht, Hd. case_bool_decide; [|done].
  subst d. by apply mem_nil in Hy.
Qed.

(** No link of the table leads to the table. *)
Definition no_self_link (t : Z) : Prop := forall c, c < get_column_count t ->
  is_link_type (get_column_type t c) = true -> get_link_target t c <> t.

Lemma single_table_links tbl root : closed [tbl] root -> no_self_link root -> forall x z, x.1 = root -> ~ linked x z.
Proof.
  intros Hcl Hns x z Hx Hl. pose proof (closed_root _ _ Hcl) as Hroot. cbn in Hroot. apply list_elem_of_singleton in Hroot.
  pose proof (closed_complete _ _ Hcl) as [[_ Hc] _]%Forall_singleton%(λ h, conj h I).
  assert (Hx' : x.1 ∈ indices [tbl]) by (rewrite Hx, Hroot; cbn; by left).
  pose proof (linked_closed _ _ _ _ Hcl Hx' Hl) as Hz. cbn in Hz. apply list_elem_of_singleton in Hz.
  destruct Hl as (c & Hcol & Ht & Hty). apply (Hns c); rewrite <- Hx; [done| |congruence].
  by destruct Hty as [[-> _]|[-> _]].
Qed.

(** The function that a notifier gets answers [deep_changed], and keeps doing
    so. *)
Lemma get_modification_checker_spec info root related : Forall (λ b, wf (modifications b)) (tables info) ->
  table_in_group root -> schema_changed info = true \/ set_table root = Some related -> no_self_link root ->
  exists related' f, get_modification_checker info root related = Some (related', f) /\ set_table root = Some related'
    /\ forall idx st, (0 <= idx < npos)%Z -> checker_ok info related' st ->
      exists st' b, row_did_change info related' f idx st = Some (st', b) /\ checker_ok info related' st'
        /\ (b = true <-> deep_changed info (root, idx)).
Proof.
  intros Hm Hr Hrel Hns. destruct (set_table_spec root Hr) as (related' & Hset & Hcl).
  unfold get_modification_checker.
  replace (if schema_changed info then set_table root else Some related) with (Some related').
  2: { destruct (schema_changed info); [done|]. destruct Hrel; [done|congruence]. }
  mrun. destruct (existsb (table_modified info) related') eqn:Hex; cbn [negb].
  - assert (Hdeep : forall idx st, (0 <= idx < npos)%Z -> checker_ok info related' st ->
      exists st' b, row_did_change info related' (deep_checker root) idx st = Some (st', b) /\ checker_ok info related' st'
        /\ (b = true <-> deep_changed info (root, idx))).
    { intros idx st Hi Hok. by apply deep_change_check_spec. }
    destruct related' as [|tbl [|tbl2 rest]].
    + by exists [], (deep_checker root).
    + cbn in Hex. rewrite orb_false_r in Hex. unfold table_modified in Hex.
      assert (Ht : related_ndx tbl = root) by (pose proof (closed_root _ _ Hcl) as Hc; by apply list_elem_of_singleton in Hc).
      rewrite Ht in *. destruct (modifications_of info root) as [d|] eqn:Hd; [|done]. mrun.
      exists [tbl], (in_modifications d). split_and!; [done..|]. intros idx st Hi Hok. cbn [row_did_change].
      rewrite contains_spec by by eapply modifications_wf. mrun. eexists _, _. split_and!; [done..|].
      rewrite bool_decide_eq_true. split.
      * intros Hmem. exists 0, (root, idx). split_and!; [lia|constructor|]. by exists d.
      * intros (n & y & _ & Hn & Hy). inversion Hn as [|? ? z ? Hl]; subst.
        -- destruct Hy as (d' & Hd' & Hy). cbn in Hd'. rewrite Hd in Hd'. by injection Hd' as <-.
        -- by destruct (single_table_links tbl _ Hcl Hns (related_ndx tbl, idx) z eq_refl Hl).
    + by eexists _, (deep_checker root).
  - exists related', never_modified. split_and!; [done..|]. intros idx st Hi Hok. exists st, false.
    split_and!; [done..|]. split; [done|]. intros (n & y & _ & Hn & Hy). rewrite (modified_table info related' y) in Hex; [done| |done].
    apply (linked_steps_closed related' root n (root, idx)); [done|apply Hcl|done].
Qed.
End related.

(** Rows are asked one after the other: each answer is right when a question
    leaves the state in order. *)
Lemma answers_spec {A St} (f : A -> St -> option (St * bool)) (good P : A -> Prop) (ok : St -> Prop) :
  (forall x st, good x -> ok st -> exists st' b, f x st = Some (st', b) /\ ok st' /\ (b = true <-> P x)) ->
  forall l, Forall good l -> forall st, ok st -> exists st' answers,
    foldM (λ x '(st, r), '(st, b) ← f x st; Some (st, r ++ [b])) l (st, []) = Some (st', answers)
    /\ Forall2 (λ x b, b = true <-> P x) l answers.
Proof.
  intros Hf l Hl st Hst.
  assert (Hgen : forall r, exists st' answers,
    foldM (λ x '(st, r), '(st, b) ← f x st; Some (st, r ++ [b])) l (st, r) = Some (st', r ++ answers)
    /\ Forall2 (λ x b, b = true <-> P x) l answers).
  { revert st Hst. induction Hl as [|x l Hx _ IH]; intros st Hst r; cbn [foldM].
    - exists st, []. by rewrite app_nil_r.
    - destruct (Hf x st Hx Hst) as (st1 & b & -> & Hok & Hb). mrun.
      destruct (IH st1 Hok (r ++ [b])) as (st2 & answers & -> & Ha). exists st2, (b :: answers).
      split; [by rewrite <- app_assoc|by constructor]. }
  apply (Hgen []).
Qed.
