(* ===== verification/MatchedRows.v ===== *)
(** * Deletions and insertions that turn one list into another

    The elements of a list that a set of positions leaves, and the check of the
    debug build ([apply_changes]): it succeeds exactly when both lists have the
    same elements left. *)

From S2P Require Import Prelude ChunkedRangeVector ChunkedFacts IndexSet LoopFacts IndexSetFacts IndexSetWalk.
From S2P Require Import CorrFacts ChangeBuilder ChangeFacts ChangeCalculation AddShiftedFacts ChangeComplete.

(** The elements of [l], which starts at the position [i], outside of [L]. *)
Fixpoint kept (i : Z) (L : list range) (l : list Z) : list Z :=
  match l with
  | [] => []
  | x :: l => if decide (mem i L) then kept (i + 1) L l else x :: kept (i + 1) L l
  end.

Lemma kept_app L l1 : forall i l2, kept i L (l1 ++ l2) = kept i L l1 ++ kept (i + Z.of_nat (length l1)) L l2.
Proof.
  induction l1 as [|x l1 IH]; intros i l2; cbn [app kept length]; [by rewrite Z.add_0_r|].
  rewrite IH. replace (i + 1 + Z.of_nat (length l1))%Z with (i + Z.of_nat (S (length l1)))%Z by lia. by destruct decide.
Qed.

Lemma kept_ext L L' l : forall i, (forall x, (i <= x < i + Z.of_nat (length l))%Z -> mem x L <-> mem x L') ->
  kept i L l = kept i L' l.
Proof.
  induction l as [|y l IH]; intros i HL; cbn [kept length] in *; [done|].
  rewrite (IH (i + 1)%Z) by (intros; apply HL; lia). specialize (HL i).
  destruct (decide (mem i L)), (decide (mem i L')); naive_solver lia.
Qed.

Lemma kept_none L l : forall i, (forall x, (i <= x < i + Z.of_nat (length l))%Z -> ~ mem x L) -> kept i L l = l.
Proof.
  induction l as [|y l IH]; intros i HL; cbn [kept length] in *; [done|].
  rewrite decide_False by (apply HL; lia). f_equal. apply IH. intros x Hx. apply HL. lia.
Qed.

Lemma kept_all L l : forall i, (forall x, (i <= x < i + Z.of_nat (length l))%Z -> mem x L) -> kept i L l = [].
Proof.
  induction l as [|y l IH]; intros i HL; cbn [kept length] in *; [done|].
  rewrite decide_True by (apply HL; lia). apply IH. intros x Hx. apply HL. lia.
Qed.

(** The positions outside of [L], in order, read from the list. *)
Lemma kept_lookups L l : forall i K, StronglySorted Z.lt K -> Forall (λ k, i <= k < i + Z.of_nat (length l))%Z K ->
  (forall x, (i <= x < i + Z.of_nat (length l))%Z -> mem x L <-> x ∉ K) ->
  kept i L l = omap (λ k, l !! Z.to_nat (k - i)) K.
Proof.
  induction l as [|y l IH]; intros i K Hs Hin HL; cbn [kept length] in *.
  - destruct Hin; [done|lia].
  - assert (Hshift : forall K', StronglySorted Z.lt K' -> Forall (λ k, i + 1 <= k < i + Z.of_nat (S (length l)))%Z K' ->
      (forall x, (i + 1 <= x < i + Z.of_nat (S (length l)))%Z -> mem x L <-> x ∉ K') ->
      kept (i + 1) L l = omap (λ k, (y :: l) !! Z.to_nat (k - i)) K').
    { intros K' HsK HK' HL'. rewrite (IH (i + 1)%Z K'); [|done| |].
      - apply omap_ext_in. intros k Hk. rewrite Forall_forall in HK'. specialize (HK' k Hk). cbn in HK'.
        by replace (Z.to_nat (k - i)) with (S (Z.to_nat (k - (i + 1)))) by lia.
      - eapply Forall_impl; [exact HK'|]. cbn. intros. lia.
      - intros x Hx. apply HL'. lia. }
    destruct K as [|k K].
    + rewrite decide_True by (apply HL; [lia|apply not_elem_of_nil]).
      apply Hshift; [constructor|constructor|]. intros x Hx. apply HL. lia.
    + apply Forall_cons in Hin as [Hk Hin]. inversion Hs as [|? ? HsK Hlt]; subst.
      rewrite Forall_forall in Hin, Hlt. destruct (decide (mem i L)) as [Hm|Hm].
      * apply Hshift; [done| |intros x Hx; apply HL; lia]. apply HL in Hm; [|lia].
        rewrite not_elem_of_cons in Hm. apply Forall_cons. split; [lia|]. apply Forall_forall. intros x Hx.
        specialize (Hin x Hx). specialize (Hlt x Hx). cbn in *. lia.
      * assert (k = i) as ->.
        { destruct (decide (i ∈ k :: K)) as [[->|Hi]%elem_of_cons|Hi]; [done| |by apply HL in Hi; [|lia]].
          specialize (Hlt i Hi). cbn in Hlt. lia. }
        cbn [omap list_omap]. rewrite Z.sub_diag. cbn [Z.to_nat lookup list_lookup]. f_equal.
        apply Hshift; [done| |].
        -- apply Forall_forall. intros x Hx. specialize (Hin x Hx). specialize (Hlt x Hx). cbn in *. lia.
        -- intros x Hx. rewrite HL by lia. rewrite not_elem_of_cons. split; [naive_solver|]. split; [lia|done].
Qed.

(** The place of an element among those kept. *)
Lemma kept_length L l : ok_from 0 L -> Z.of_nat (length (kept 0 L l)) = rank L (Z.of_nat (length l)).
Proof.
  intros Hok. induction l as [|y l IH] using rev_ind; [by rewrite rank_0|].
  rewrite kept_app, !length_app, Nat2Z.inj_add, IH. cbn [kept length]. rewrite Nat2Z.inj_add, rank_S, Z.add_0_l by done.
  by case_decide.
Qed.

Lemma kept_rank L l x : ok_from 0 L -> (0 <= x < Z.of_nat (length l))%Z -> ~ mem x L ->
  kept 0 L l !! Z.to_nat (rank L x) = l !! Z.to_nat x.
Proof.
  intros Hok Hx Hm. destruct (lookup_lt_is_Some_2 l (Z.to_nat x)) as [y Hy]; [lia|]. rewrite Hy.
  assert (Hl : Z.of_nat (length (take (Z.to_nat x) l)) = x) by (rewrite length_take; lia).
  rewrite <- (take_drop_middle l (Z.to_nat x) y) by done. rewrite kept_app, Hl. cbn [kept]. rewrite Z.add_0_l, decide_False by done.
  pose proof (kept_length L (take (Z.to_nat x) l) Hok) as Hk. rewrite Hl in Hk. rewrite <- Hk, Nat2Z.id. by apply list_lookup_middle.
Qed.

(** ** Erasing the ranges, the last one first *)

Lemma erase_ranges L : forall l, ok_from 0 L -> bounded (Z.of_nat (length l)) L ->
  foldM vec_erase_range (reverse L) l = Some (kept 0 L l).
Proof.
  induction L as [|r L IH] using rev_ind; intros l Hok Hb.
  - cbn. rewrite kept_none; [done|]. intros x _ Hx. by apply mem_nil in Hx.
  - apply ok_from_app in Hok as [Hok Hr]. apply bounded_app in Hb as [HbL Hbr].
    apply bounded_cons in Hbr as [Hbr _]. destruct r as [s e]. cbn in Hr, Hbr.
    assert (HL : bounded s L). { eapply bounded_weaken; [|by eapply ok_from_bounded]. lia. }
    pose proof (next_lo_ge 0 L Hok). rewrite reverse_snoc. cbn [foldM]. unfold vec_erase_range. cbn [fst snd].
    rewrite bool_decide_true by done. mrun.
    assert (Hl : l = take (Z.to_nat s) l ++ take (Z.to_nat e - Z.to_nat s) (drop (Z.to_nat s) l) ++ drop (Z.to_nat e) l).
    { rewrite <- (take_drop (Z.to_nat s) l) at 1. f_equal.
      rewrite <- (take_drop (Z.to_nat e - Z.to_nat s) (drop (Z.to_nat s) l)) at 1. f_equal. rewrite drop_drop. f_equal. lia. }
    assert (Hl1 : length (take (Z.to_nat s) l) = Z.to_nat s) by (rewrite length_take; lia).
    assert (Hl2 : length (take (Z.to_nat e - Z.to_nat s) (drop (Z.to_nat s) l)) = Z.to_nat e - Z.to_nat s)
      by (rewrite length_take, length_drop; lia).
    set (l1 := take (Z.to_nat s) l) in *. set (l3 := drop (Z.to_nat e) l) in *.
    set (l2 := take _ (drop _ l)) in *. rewrite IH; [|done|].
    + rewrite Hl. f_equal. rewrite !kept_app.
      rewrite (kept_ext L (L ++ [(s, e)]) l1).
      2: { intros x Hx. rewrite mem_app, mem_cons, mem_nil. cbn. intuition lia. }
      f_equal. rewrite (kept_all (L ++ [(s, e)]) l2).
      2: { intros x Hx. rewrite mem_app, mem_cons. cbn. right. left. lia. }
      cbn [app]. rewrite (kept_none L l3).
      2: { intros x Hx Hm. pose proof (mem_bounded _ _ _ HL Hm). lia. }
      symmetry. apply kept_none. intros x Hx. rewrite mem_app, mem_cons, mem_nil. cbn.
      intros [Hm|[?|[]]]; [|lia]. pose proof (mem_bounded _ _ _ HL Hm). lia.
    + eapply bounded_weaken; [|exact HL]. rewrite length_app. lia.
Qed.

(** ** Inserting, in the order of the positions *)

Lemma insert_positions next L : forall rest before xs, next = before ++ rest -> StronglySorted Z.lt xs ->
  (forall x, x ∈ xs <-> mem x L /\ (Z.of_nat (length before) <= x < Z.of_nat (length next))%Z) ->
  foldM (λ i rows, x ← next !! Z.to_nat i; vec_insert_at i x rows) xs
    (before ++ kept (Z.of_nat (length before)) L rest) = Some next.
Proof.
  induction rest as [|y rest IH]; intros before xs Hn Hs Hxs.
  - rewrite app_nil_r in Hn. subst next. destruct xs as [|x xs]; [by rewrite app_nil_r|].
    destruct (Hxs x) as [Hx _]. destruct Hx as [_ Hx]; [by left|]. lia.
  - assert (Hlen : length next = length before + S (length rest)) by (rewrite Hn, length_app; done).
    assert (IHy : forall xs', StronglySorted Z.lt xs' ->
      (forall x, x ∈ xs' <-> mem x L /\ (Z.of_nat (S (length before)) <= x < Z.of_nat (length next))%Z) ->
      foldM (λ i rows, x ← next !! Z.to_nat i; vec_insert_at i x rows) xs'
        (before ++ y :: kept (Z.of_nat (length before) + 1) L rest) = Some next).
    { intros xs' Hs' Hxs'. replace (Z.of_nat (length before) + 1)%Z with (Z.of_nat (length (before ++ [y])))
        by (rewrite length_app; cbn; lia).
      replace (before ++ y :: kept (Z.of_nat (length (before ++ [y]))) L rest)
        with ((before ++ [y]) ++ kept (Z.of_nat (length (before ++ [y]))) L rest) by (by rewrite <- app_assoc).
      apply IH; [by rewrite <- app_assoc|done|]. intros x. rewrite Hxs', length_app. cbn. by rewrite Nat.add_1_r. }
    cbn [kept]. destruct decide as [Hm|Hm].
    + destruct xs as [|x xs]; [by destruct (not_elem_of_nil (Z.of_nat (length before))); apply Hxs; split; [done|lia]|].
      inversion Hs as [|? ? Hs' Hlt]; subst. rewrite Forall_forall in Hlt.
      assert (x = Z.of_nat (length before)) as ->.
      { assert (Hx : x ∈ x :: xs) by left. apply Hxs in Hx as [_ Hx].
        assert (Hh : Z.of_nat (length before) ∈ x :: xs) by (apply Hxs; split; [done|lia]).
        apply elem_of_cons in Hh as [Hh|Hh]; [done|]. specialize (Hlt _ Hh). cbn in Hlt. lia. }
      cbn [foldM]. rewrite Nat2Z.id, list_lookup_middle by done. mrun. unfold vec_insert_at.
      rewrite bool_decide_true by (rewrite length_app; lia). rewrite Nat2Z.id, vec_insert_app. mrun.
      apply IHy; [done|]. intros z. split.
      * intros Hz. specialize (Hlt z Hz). cbn in Hlt. assert (Hz' : z ∈ Z.of_nat (length before) :: xs) by (by right).
        apply Hxs in Hz' as [? ?]. split; [done|]. lia.
      * intros [Hz Hz']. assert (Hz2 : z ∈ Z.of_nat (length before) :: xs) by (apply Hxs; split; [done|lia]).
        apply elem_of_cons in Hz2 as [->|?]; [lia|done].
    + apply IHy; [done|]. intros x. rewrite Hxs. split; intros [Hx Hx']; (split; [done|]); [|lia].
      destruct (decide (x = Z.of_nat (length before))) as [->|]; [done|lia].
Qed.

Section align.
Context `{Build}.

(** The check of the debug build. *)
Lemma apply_changes_spec prev next (dels ins : IndexSet) : wf dels -> wf ins ->
  (forall x, x ∈ dels -> (x < Z.of_nat (length prev))%Z) -> (forall x, x ∈ ins -> (x < Z.of_nat (length next))%Z) ->
  kept 0 (flat dels) prev = kept 0 (flat ins) next -> apply_changes prev next dels ins = Some next.
Proof.
  intros Hd Hi Hdb Hib Hk. unfold apply_changes.
  pose proof Hd as [Hsd [Hokd _]]. pose proof Hi as [Hsi [Hoki _]]. rewrite ranges_spec by done. mrun.
  rewrite erase_ranges; [|done|].
  - mrun. rewrite as_indexes_spec by done. mrun. rewrite Hk.
    apply (insert_positions next (flat ins) next [] (elems (flat ins))); [done|by eapply elems_sorted|].
    intros x. rewrite elem_of_elems. split; [|by intros [? _]]. intros Hx. split; [done|].
    pose proof (mem_lo _ _ _ Hoki Hx). specialize (Hib x Hx). cbn. lia.
  - apply Forall_forall. intros r Hr.
    assert (Hlt : (r.1 < r.2)%Z). { pose proof (ok_from_Forall _ _ Hokd) as Hf. rewrite Forall_forall in Hf. by apply Hf. }
    assert (Hm : mem (r.2 - 1) (flat dels)).
    { apply Exists_exists. exists r. split; [done|]. red. lia. }
    specialize (Hdb _ Hm). lia.
Qed.
End align.

(** ** The rows two versions of a collection share

    The first half of [calculate]: the old rows that were not deleted are
    matched with the new ones, what is left of either side is removed or
    inserted. *)

Definition positions_ok {A} (f : A -> Z) (l : list A) : Prop := Forall (λ x, 0 <= f x < npos)%Z l.

Section matched.
Context `{HB : Build}.

(** ** Adding positions one by one *)

Lemma add_positions {A} (f : A -> Z) l : forall (d : IndexSet), wf d -> positions_ok f l ->
  exists d', foldM (λ x d, add d (f x)) l d = Some d' /\ wf d' /\ forall x, x ∈ d' <-> x ∈ d \/ x ∈ f <$> l.
Proof.
  induction l as [|y l IH]; intros d Hd Hl; cbn [foldM].
  - exists d. split_and!; [done..|]. intros x. cbn. rewrite elem_of_nil. naive_solver.
  - apply Forall_cons in Hl as [Hy Hl]. destruct (add_spec d (f y) Hd Hy) as (d1 & -> & Hd1 & Hin1). mrun.
    destruct (IH d1 Hd1 Hl) as (d' & -> & Hd' & Hin). exists d'. split_and!; [done..|].
    intros x. rewrite Hin, Hin1. cbn. rewrite elem_of_cons. tauto.
Qed.

(** ** The old rows *)

Fixpoint live_rows (prev_rows : list Z) (i deleted : Z) : list RowInfo :=
  match prev_rows with
  | [] => []
  | r :: prev_rows =>
      if bool_decide (r = npos) then live_rows prev_rows (i + 1) (deleted + 1)
      else mkRowInfo r npos i (i - deleted) :: live_rows prev_rows (i + 1) deleted
  end.

Lemma collect_old_rows_spec prev : forall i deleted (dels : IndexSet), wf dels ->
  (0 <= deleted <= i)%Z -> (i + Z.of_nat (length prev) < npos)%Z ->
  exists dels', collect_old_rows prev i deleted dels = Some (live_rows prev i deleted, dels') /\ wf dels'
    /\ forall x, x ∈ dels' <-> x ∈ dels \/ (i <= x)%Z /\ prev !! Z.to_nat (x - i) = Some npos.
Proof.
  induction prev as [|r prev IH]; intros i deleted dels Hd Hdel Hi; cbn [collect_old_rows live_rows length] in *.
  - exists dels. split_and!; [done..|]. intros x. rewrite lookup_nil. naive_solver.
  - unfold npos in Hi. rewrite !u64_small by lia.
    assert (Hshift : forall x, (i <= x)%Z /\ (r :: prev) !! Z.to_nat (x - i) = Some npos
      <-> (x = i /\ r = npos) \/ (i + 1 <= x)%Z /\ prev !! Z.to_nat (x - (i + 1)) = Some npos).
    { intros x. destruct (decide (i + 1 <= x)%Z) as [Hx|Hx].
      - replace (Z.to_nat (x - i)) with (S (Z.to_nat (x - (i + 1)))) by lia. cbn. naive_solver lia.
      - destruct (decide (x = i)) as [->|]; [rewrite Z.sub_diag; cbn; naive_solver lia|naive_solver lia]. }
    case_bool_decide as Hr.
    + destruct (add_spec dels i Hd) as (d1 & -> & Hd1 & Hin1); [unfold npos; lia|]. mrun.
      destruct (IH (i + 1) (deleted + 1) d1 Hd1)%Z as (d2 & -> & Hd2 & Hin2); [lia|unfold npos; lia|].
      exists d2. split_and!; [done..|]. intros x. rewrite Hin2, Hin1, Hshift. naive_solver.
    + destruct (IH (i + 1) deleted dels Hd)%Z as (d2 & -> & Hd2 & Hin2); [lia|unfold npos; lia|].
      mrun. exists d2. split_and!; [done..|]. intros x. rewrite Hin2, Hshift. naive_solver.
Qed.

(** A live row knows its position, and its position among the live rows. *)
Lemma live_rows_lookup prev : forall i deleted k o, live_rows prev i deleted !! k = Some o ->
  (i <= tv_index o)%Z /\ prev !! Z.to_nat (tv_index o - i) = Some (row_index o) /\ row_index o <> npos
  /\ prev_tv_index o = npos /\ shifted_tv_index o = (i - deleted + Z.of_nat k)%Z.
Proof.
  induction prev as [|r prev IH]; intros i deleted k o Ho; cbn [live_rows] in Ho; [done|].
  case_bool_decide as Hr.
  - apply IH in Ho as (Hi & Hp & ? & ? & Hs). split_and!; [lia| |done|done|lia].
    by replace (Z.to_nat (tv_index o - i)) with (S (Z.to_nat (tv_index o - (i + 1)))) by lia.
  - destruct k as [|k]; cbn in Ho.
    + injection Ho as <-. cbn. rewrite Z.sub_diag. split_and!; [lia|done|done|done|lia].
    + apply IH in Ho as (Hi & Hp & ? & ? & Hs). split_and!; [lia| |done|done|lia].
      by replace (Z.to_nat (tv_index o - i)) with (S (Z.to_nat (tv_index o - (i + 1)))) by lia.
Qed.

Lemma live_rows_positions prev : forall i deleted x, x ∈ tv_index <$> live_rows prev i deleted <->
  (i <= x)%Z /\ exists r, prev !! Z.to_nat (x - i) = Some r /\ r <> npos.
Proof.
  induction prev as [|r prev IH]; intros i deleted x; cbn [live_rows].
  - cbn. rewrite elem_of_nil. naive_solver.
  - assert (Hshift : (i <= x)%Z /\ (exists r0, (r :: prev) !! Z.to_nat (x - i) = Some r0 /\ r0 <> npos)
      <-> (x = i /\ r <> npos) \/ (i + 1 <= x)%Z /\ exists r0, prev !! Z.to_nat (x - (i + 1)) = Some r0 /\ r0 <> npos).
    { destruct (decide (i + 1 <= x)%Z) as [Hx|Hx].
      - replace (Z.to_nat (x - i)) with (S (Z.to_nat (x - (i + 1)))) by lia. cbn. naive_solver lia.
      - destruct (decide (x = i)) as [->|]; [rewrite Z.sub_diag; cbn; naive_solver lia|naive_solver lia]. }
    rewrite Hshift. case_bool_decide; [rewrite IH; naive_solver|]. cbn. rewrite elem_of_cons, IH. naive_solver.
Qed.

Lemma live_rows_sorted prev : forall i deleted, StronglySorted Z.lt (tv_index <$> live_rows prev i deleted).
Proof.
  induction prev as [|r prev IH]; intros i deleted; cbn [live_rows]; [constructor|].
  case_bool_decide; [done|]. cbn. constructor; [done|]. apply Forall_forall. intros x Hx.
  apply live_rows_positions in Hx as [? _]. lia.
Qed.
(** ** The merge *)

Definition row_le (x y : RowInfo) : Prop := (row_index x <= row_index y)%Z.

Definition pair_rows (p : RowInfo * RowInfo) : RowInfo :=
  mkRowInfo (row_index p.2) (tv_index p.1) (tv_index p.2) (shifted_tv_index p.1).

(** The pairs [M] of old and new rows; [R] is left of the old ones, [N] of the
    new ones, and they have no row in common. *)
Definition matching (old new : list RowInfo) (M : list (RowInfo * RowInfo)) (R N : list RowInfo) : Prop :=
  old ≡ₚ M.*1 ++ R /\ new ≡ₚ M.*2 ++ N /\ Forall (λ p, row_index p.1 = row_index p.2) M
  /\ forall o n, o ∈ R -> n ∈ N -> row_index o <> row_index n.

Abbreviation present := (λ row, prev_tv_index row ≠ npos).

Definition match_result (old new : list RowInfo) (removed ins : IndexSet)
    (res : option (list RowInfo * IndexSet * IndexSet)) : Prop :=
  exists rows removed' ins' M R N, res = Some (rows, removed', ins') /\ wf removed' /\ wf ins'
    /\ matching old new M R N /\ filter present rows = pair_rows <$> M
    /\ (forall x, x ∈ removed' <-> x ∈ removed \/ x ∈ tv_index <$> R)
    /\ (forall x, x ∈ ins' <-> x ∈ ins \/ x ∈ tv_index <$> N).

Lemma filter_absent rows : Forall (λ n, prev_tv_index n = npos) rows -> filter present rows = [].
Proof. induction 1 as [|n rows Hn _ IH]; [done|]. rewrite filter_cons_False; [done|]. intros Hp. by apply Hp. Qed.

Lemma match_rest old new removed ins : wf removed -> wf ins -> positions_ok tv_index old -> positions_ok tv_index new ->
  Forall (λ n, prev_tv_index n = npos) new -> old = [] \/ new = [] ->
  match_result old new removed ins (
    removed ← foldM (λ o d, add d (tv_index o)) old removed;
    ins ← foldM (λ n d, add d (tv_index n)) new ins;
    Some (new, removed, ins)).
Proof.
  intros Hr Hi Hold Hnew Hnp Hnil. destruct (add_positions tv_index old removed Hr Hold) as (r' & -> & ? & ?). mrun.
  destruct (add_positions tv_index new ins Hi Hnew) as (i' & -> & ? & ?). mrun.
  exists new, r', i', [], old, new. split_and!; [done..| | |done|done].
  - split_and!; [done|done|constructor|]. intros o n Ho Hn. destruct Hnil as [-> | ->]; by apply not_elem_of_nil in Ho || apply not_elem_of_nil in Hn.
  - by apply filter_absent.
Qed.

Lemma match_rows_spec old : forall new removed ins, wf removed -> wf ins ->
  positions_ok tv_index old -> positions_ok tv_index new -> Forall (λ n, prev_tv_index n = npos) new ->
  StronglySorted row_le old -> StronglySorted row_le new ->
  match_result old new removed ins (match_rows old new removed ins).
Proof.
  induction old as [|o old IHo]; intros new removed ins Hr Hi Hold Hnew Hnp Hso Hsn.
  { destruct new; (apply match_rest; [done..|by left]). }
  apply Forall_cons in Hold as Hold'. destruct Hold' as [Ho Hold']. inversion Hso as [|? ? Hso' Hleo]; subst.
  revert removed ins Hr Hi. induction new as [|n new IHn]; intros removed ins Hr Hi.
  { apply match_rest; [done..|by right]. }
  apply Forall_cons in Hnew as Hnew'. destruct Hnew' as [Hn Hnew'].
  apply Forall_cons in Hnp as Hnp'. destruct Hnp' as [Hnpn Hnp']. inversion Hsn as [|? ? Hsn' Hlen]; subst.
  rewrite Forall_forall in Hleo, Hlen. cbn [match_rows]. case_bool_decide as Heq; [|case_bool_decide as Hlt].
  - destruct (IHo new removed ins) as (rows & r' & i' & M & R & N & -> & Hr' & Hi' & (Hm1 & Hm2 & Hm3 & Hm4) & Hf & Hxr & Hxi);
      [done..|]. mrun. eexists _, r', i', ((o, n) :: M), R, N. split_and!; [done..| | |done|done].
    + split_and!; [by cbn; constructor|by cbn; constructor|by constructor|done].
    + cbn [fmap list_fmap]. rewrite filter_cons_True; [by rewrite Hf|]. cbn. lia.
  - destruct (add_spec removed (tv_index o) Hr Ho) as (r1 & Hadd & Hr1 & Hin1). rewrite Hadd. mrun.
    destruct (IHo (n :: new) r1 ins) as (rows & r' & i' & M & R & N & -> & Hr' & Hi' & (Hm1 & Hm2 & Hm3 & Hm4) & Hf & Hxr & Hxi);
      [done..|]. exists rows, r', i', M, (o :: R), N. split_and!; [done..| |done| |done].
    + split_and!; [by rewrite Hm1, <- Permutation_middle|done|done|].
      intros o' n' [->|Ho']%elem_of_cons Hn'; [|by apply Hm4].
      assert (Hn2 : n' ∈ n :: new) by (rewrite Hm2; apply elem_of_app; by right).
      apply elem_of_cons in Hn2 as [->|Hn2]; [lia|]. specialize (Hlen n' Hn2). red in Hlen. lia.
    + intros x. rewrite Hxr, Hin1. cbn. rewrite elem_of_cons. tauto.
  - destruct (add_spec ins (tv_index n) Hi Hn) as (i1 & Hadd & Hi1 & Hin1). rewrite Hadd. mrun.
    destruct (IHn Hnew' Hnp' Hsn' removed i1) as (rows & r' & i' & M & R & N & Hrun & Hr' & Hi' & (Hm1 & Hm2 & Hm3 & Hm4) & Hf & Hxr & Hxi);
      [done..|]. cbn [match_rows] in Hrun. rewrite Hrun. mrun.
    exists (n :: rows), r', i', M, R, (n :: N). split_and!; [done..| | |done|].
    + split_and!; [done|by rewrite Hm2, <- Permutation_middle|done|].
      intros o' n' Ho' [->|Hn']%elem_of_cons; [|by apply Hm4].
      assert (Ho2 : o' ∈ o :: old) by (rewrite Hm1; apply elem_of_app; by right).
      apply elem_of_cons in Ho2 as [->|Ho2]; [lia|]. specialize (Hleo o' Ho2). red in Hleo. lia.
    + rewrite filter_cons_False; [done|]. intros Hp. by apply Hp.
    + intros x. rewrite Hxi, Hin1. cbn. rewrite elem_of_cons. tauto.
Qed.

(** ** The marks of the modified rows *)

Lemma mark_changed_spec {St} (row_did_change : Z -> St -> option (St * bool)) (Inv : St -> Prop) (changed : Z -> bool) :
  forall rows d st, (forall row st, row ∈ rows -> Inv st ->
    exists st', row_did_change (row_index row) st = Some (st', changed (row_index row)) /\ Inv st') ->
  positions_ok tv_index rows -> Inv st -> wf d ->
  exists d' st', foldM (λ row '(d, st),
      '(st, changed) ← row_did_change (row_index row) st;
      if changed : bool then d ← add d (tv_index row); Some (d, st) else Some (d, st)) rows (d, st) = Some (d', st')
    /\ wf d' /\ forall x, x ∈ d' <-> x ∈ d \/ exists row, row ∈ rows /\ tv_index row = x /\ changed (row_index row) = true.
Proof.
  induction rows as [|row rows IH]; intros d st Hch Hpos Hst Hd; cbn [foldM].
  - exists d, st. split_and!; [done..|]. intros x. split; [by left|].
    intros [?|(row & Hrow & _)]; [done|]. by apply not_elem_of_nil in Hrow.
  - apply Forall_cons in Hpos as [Hp Hpos]. destruct (Hch row st) as (st1 & -> & Hst1); [by left|done|]. mrun.
    assert (Hch' : forall row st, row ∈ rows -> Inv st ->
      exists st', row_did_change (row_index row) st = Some (st', changed (row_index row)) /\ Inv st').
    { intros. apply Hch; [by right|done]. }
    destruct (changed (row_index row)) eqn:Hc.
    + destruct (add_spec d (tv_index row) Hd Hp) as (d1 & -> & Hd1 & Hin1). mrun.
      destruct (IH d1 st1 Hch' Hpos Hst1 Hd1) as (d' & st' & -> & Hd' & Hin). exists d', st'. split_and!; [done..|].
      intros x. rewrite Hin, Hin1. split.
      * intros [[?| ->]|(r & ? & ?)]; [by left| |]; right; [exists row; split; [left|done]|exists r; split; [by right|done]].
      * intros [?|(r & [->|Hr]%elem_of_cons & <- & ?)]; [by do 2 left|by left; right|]. right. by exists r.
    + mrun. destruct (IH d st1 Hch' Hpos Hst1 Hd) as (d' & st' & -> & Hd' & Hin). exists d', st'. split_and!; [done..|].
      intros x. rewrite Hin. split.
      * intros [?|(r & ? & ?)]; [by left|]. right. exists r. split; [by right|done].
      * intros [?|(r & [->|Hr]%elem_of_cons & <- & Hc')]; [by left|by rewrite Hc in Hc'|]. right. by exists r.
Qed.
End matched.

(** ** What [calculate] knows before it looks for moves

    The rows of both versions in their new order, with their old positions; the
    old positions that are gone and the new ones that are added. *)

Section shared.
Context `{HB : Build} `{HO : StdOrders}.

Record shared (prev next : list Z) (rows : list RowInfo) (dels removed ins : IndexSet) : Prop := {
  sh_sorted : StronglySorted Z.lt (tv_index <$> rows);
  sh_from : NoDup (prev_tv_index <$> rows);
  sh_prev : forall row, row ∈ rows ->
    (0 <= prev_tv_index row)%Z /\ prev !! Z.to_nat (prev_tv_index row) = Some (row_index row) /\ row_index row <> npos;
  sh_next : forall row, row ∈ rows -> (0 <= tv_index row)%Z /\ next !! Z.to_nat (tv_index row) = Some (row_index row);
  sh_live : forall row, row ∈ rows -> (0 <= shifted_tv_index row)%Z
    /\ exists o, live_rows prev 0 0 !! Z.to_nat (shifted_tv_index row) = Some o /\ tv_index o = prev_tv_index row;
  sh_wf : wf dels /\ wf removed /\ wf ins;
  sh_dels : forall x, x ∈ dels <-> (0 <= x)%Z /\ prev !! Z.to_nat x = Some npos;
  sh_removed : forall x, x ∈ removed <-> (0 <= x)%Z /\ (exists r, prev !! Z.to_nat x = Some r /\ r <> npos)
    /\ x ∉ prev_tv_index <$> rows;
  sh_ins : forall x, x ∈ ins <-> (0 <= x < Z.of_nat (length next))%Z /\ x ∉ tv_index <$> rows;
  sh_common : forall x y, x ∈ removed -> y ∈ ins -> prev !! Z.to_nat x <> next !! Z.to_nat y;
}.

Definition by_row (lft rgt : RowInfo) : bool := bool_decide (row_index lft < row_index rgt)%Z.
Definition by_tv (lft rgt : RowInfo) : bool := bool_decide (tv_index lft < tv_index rgt)%Z.
Definition new_rows_of (next : list Z) : list RowInfo := imap (λ i r, mkRowInfo r npos (Z.of_nat i) 0) next.

Lemma new_rows_lookup next k n : new_rows_of next !! k = Some n ->
  next !! k = Some (row_index n) /\ tv_index n = Z.of_nat k /\ prev_tv_index n = npos.
Proof. unfold new_rows_of. rewrite list_lookup_imap. destruct (next !! k); [|done]. by intros [= <-]. Qed.

Lemma new_rows_in next n : n ∈ new_rows_of next ->
  (0 <= tv_index n < Z.of_nat (length next))%Z /\ next !! Z.to_nat (tv_index n) = Some (row_index n)
  /\ prev_tv_index n = npos.
Proof.
  intros [k Hk]%list_elem_of_lookup_1. apply new_rows_lookup in Hk as (Hk & -> & ?).
  pose proof (lookup_lt_Some _ _ _ Hk). rewrite Nat2Z.id. split_and!; [lia|lia|done..].
Qed.

Lemma new_rows_positions next : tv_index <$> new_rows_of next = Z.of_nat <$> seq 0 (length next).
Proof.
  apply list_eq. intros k. rewrite !list_lookup_fmap. unfold new_rows_of. rewrite list_lookup_imap.
  destruct (next !! k) eqn:Hk; cbn.
  - apply lookup_lt_Some in Hk. by rewrite lookup_seq_lt.
  - apply lookup_ge_None in Hk. by rewrite lookup_seq_ge.
Qed.

Lemma new_rows_nodup next : NoDup (tv_index <$> new_rows_of next).
Proof. rewrite new_rows_positions. apply NoDup_fmap; [intros ???; lia|apply NoDup_seq]. Qed.

Lemma sort_rows_sorted l : StronglySorted row_le (std_sort by_row l).
Proof.
  eapply StronglySorted_weaken; [|apply std_sort_sorted].
  - intros x y Hxy. cbn in Hxy. apply bool_decide_eq_false in Hxy. red. lia.
  - unfold by_row. intros x y ?%bool_decide_eq_true. apply bool_decide_eq_false. lia.
  - unfold by_row. intros x y z ?%bool_decide_eq_false ?%bool_decide_eq_false. apply bool_decide_eq_false. lia.
Qed.

(** Sorted by distinct keys. *)
Lemma sort_keys_sorted {A} (key : A -> Z) (lt : A -> A -> bool) l :
  (forall x y, x ∈ l -> y ∈ l -> lt x y = true <-> key x < key y)%Z ->
  (forall x y, lt x y = true -> lt y x = false) -> (forall x y z, lt y x = false -> lt z y = false -> lt z x = false) ->
  NoDup (key <$> l) -> StronglySorted Z.lt (key <$> std_sort lt l).
Proof.
  intros Hlt Ha Ht Hnd. assert (Hp : std_sort lt l ≡ₚ l) by apply std_sort_perm.
  pose proof (std_sort_sorted lt l Ha Ht) as Hs. assert (Hnd' : NoDup (key <$> std_sort lt l)) by (by rewrite Hp).
  assert (Hin : forall x, x ∈ std_sort lt l -> x ∈ l) by (intros x; by rewrite Hp). clear Hp Hnd.
  revert Hs Hnd' Hin. generalize (std_sort lt l). intros s Hs. induction Hs as [|x s Hs IH Hall]; intros Hnd Hin; [constructor|].
  cbn in Hnd |- *. apply NoDup_cons in Hnd as [Hx Hnd]. constructor; [apply IH; [done|]; intros; apply Hin; by right|].
  rewrite Forall_fmap, Forall_forall in *. intros y Hy. specialize (Hall y Hy). cbn in *.
  assert (key x <> key y) by (intros He; apply Hx; rewrite He; by apply list_elem_of_fmap_2).
  destruct (decide (key y < key x)%Z) as [Hlt'|]; [|lia].
  apply Hlt in Hlt'; [by rewrite Hlt' in Hall|apply Hin; by right|apply Hin; by left].
Qed.

Lemma live_rows_ok prev : (Z.of_nat (length prev) < npos)%Z -> positions_ok tv_index (live_rows prev 0 0).
Proof.
  intros Hl. apply Forall_forall. intros o [k Ho]%list_elem_of_lookup_1. apply live_rows_lookup in Ho as (? & Hp & _).
  apply lookup_lt_Some in Hp. lia.
Qed.
(** The two sides of a matching, as positions. *)
Lemma matching_positions old new M R N : matching old new M R N ->
  NoDup (tv_index <$> old) -> NoDup (tv_index <$> new) ->
  NoDup (prev_tv_index <$> (pair_rows <$> M)) /\ NoDup (tv_index <$> (pair_rows <$> M))
  /\ (forall x, x ∈ tv_index <$> R <-> x ∈ tv_index <$> old /\ x ∉ prev_tv_index <$> (pair_rows <$> M))
  /\ (forall x, x ∈ tv_index <$> N <-> x ∈ tv_index <$> new /\ x ∉ tv_index <$> (pair_rows <$> M)).
Proof.
  intros (Ho & Hn & _). rewrite Ho, Hn, !fmap_app, !NoDup_app.
  rewrite <- !list_fmap_compose. unfold compose. cbn. intros (H1 & H2 & _) (H3 & H4 & _).
  split_and!; [done|done| |].
  - intros x. rewrite Ho, fmap_app, <- list_fmap_compose, elem_of_app. unfold compose. specialize (H2 x). tauto.
  - intros x. rewrite Hn, fmap_app, <- list_fmap_compose, elem_of_app. unfold compose. specialize (H4 x). tauto.
Qed.

Lemma matched_rows_spec prev next : (Z.of_nat (length prev) < npos)%Z -> (Z.of_nat (length next) < npos)%Z ->
  exists dels rows removed ins, collect_old_rows prev 0 0 [] = Some (live_rows prev 0 0, dels)
    /\ match_rows (std_sort by_row (live_rows prev 0 0)) (std_sort by_row (new_rows_of next)) [] [] = Some (rows, removed, ins)
    /\ shared prev next (std_sort by_tv (filter (λ row, prev_tv_index row ≠ npos) rows)) dels removed ins.
Proof.
  intros Hlp Hln. destruct (collect_old_rows_spec prev 0 0 []) as (dels & Hc & Hwd & Hind); [apply wf_nil|lia|lia|].
  assert (Hpo : std_sort by_row (live_rows prev 0 0) ≡ₚ live_rows prev 0 0) by apply std_sort_perm.
  assert (Hpn : std_sort by_row (new_rows_of next) ≡ₚ new_rows_of next) by apply std_sort_perm.
  destruct (match_rows_spec (std_sort by_row (live_rows prev 0 0)) (std_sort by_row (new_rows_of next)) [] [])
    as (rows & removed & ins & M & R & N & Hm & Hwr & Hwi & Hmt & Hf & Hr & Hi).
  { apply wf_nil. } { apply wf_nil. }
  { red. rewrite Hpo. by apply live_rows_ok. }
  { red. rewrite Hpn. apply Forall_forall. intros n Hn. apply new_rows_in in Hn as [? _]. lia. }
  { rewrite Hpn. apply Forall_forall. intros n Hn. by apply new_rows_in in Hn as (_ & _ & ?). }
  { apply sort_rows_sorted. } { apply sort_rows_sorted. }
  exists dels, rows, removed, ins. split_and!; [done|done|]. rewrite Hf.
  assert (Hmt' : matching (live_rows prev 0 0) (new_rows_of next) M R N).
  { destruct Hmt as (H1 & H2 & H3). split_and!; [by rewrite <- Hpo|by rewrite <- Hpn|apply H3|apply H3]. }
  destruct (matching_positions _ _ _ _ _ Hmt') as (Hnd1 & Hnd2 & HR & HN);
    [apply sorted_NoDup, live_rows_sorted|apply new_rows_nodup|].
  assert (HpT : std_sort by_tv (pair_rows <$> M) ≡ₚ pair_rows <$> M) by apply std_sort_perm.
  assert (HinM : forall row, row ∈ std_sort by_tv (pair_rows <$> M) -> exists p, row = pair_rows p
    /\ p.1 ∈ live_rows prev 0 0 /\ p.2 ∈ new_rows_of next /\ row_index p.1 = row_index p.2).
  { intros row. rewrite HpT. intros (p & -> & Hp)%list_elem_of_fmap. exists p. destruct Hmt' as (-> & -> & Hs & _).
    rewrite Forall_forall in Hs. split_and!; [done| | |by apply Hs]; apply elem_of_app; left; by apply list_elem_of_fmap_2. }
  split.
  - apply sort_keys_sorted; [|..|done]; unfold by_tv.
    + intros x y _ _. by rewrite bool_decide_eq_true.
    + intros x y ?%bool_decide_eq_true. apply bool_decide_eq_false. lia.
    + intros x y z ?%bool_decide_eq_false ?%bool_decide_eq_false. apply bool_decide_eq_false. lia.
  - by rewrite HpT.
  - intros row ([o n] & -> & [k Ho]%list_elem_of_lookup_1 & _ & Heq)%HinM. cbn in *.
    apply live_rows_lookup in Ho as (? & Hp & ? & _). rewrite Z.sub_0_r in Hp. rewrite <- Heq. by split_and!.
  - intros row ([o n] & -> & _ & Hn & _)%HinM. cbn in *. apply new_rows_in in Hn as (? & ? & _). split; [lia|done].
  - intros row ([o n] & -> & [k Ho]%list_elem_of_lookup_1 & _ & _)%HinM. cbn in *.
    pose proof (live_rows_lookup _ _ _ _ _ Ho) as (_ & _ & _ & _ & Hs). rewrite Hs. split; [lia|].
    exists o. split; [|done]. by replace (Z.to_nat (0 - 0 + Z.of_nat k)) with k by lia.
  - by split_and!.
  - intros x. rewrite Hind, Z.sub_0_r. rewrite elem_of_flat. cbn. rewrite mem_nil. tauto.
  - intros x. rewrite Hr, HR, HpT, live_rows_positions, Z.sub_0_r, elem_of_flat. cbn. rewrite mem_nil. tauto.
  - intros x. rewrite Hi, HN, HpT, elem_of_flat. cbn. rewrite mem_nil.
    assert (x ∈ tv_index <$> new_rows_of next <-> (0 <= x < Z.of_nat (length next))%Z) as ->; [|tauto].
    rewrite new_rows_positions. rewrite list_elem_of_fmap. setoid_rewrite elem_of_seq. split; [intros (k & -> & ?); lia|].
    intros ?. exists (Z.to_nat x). lia.
  - intros x y Hx Hy Heq. apply Hr in Hx as [Hx|Hx]; [by apply mem_nil in Hx|]. apply Hi in Hy as [Hy|Hy]; [by apply mem_nil in Hy|].
    apply list_elem_of_fmap in Hx as (o & -> & Ho). apply list_elem_of_fmap in Hy as (n & -> & Hn).
    destruct Hmt' as (HpR & HpN & _ & Hd). apply (Hd o n Ho Hn).
    assert (Ho' : o ∈ live_rows prev 0 0) by (rewrite HpR; apply elem_of_app; by right).
    assert (Hn' : n ∈ new_rows_of next) by (rewrite HpN; apply elem_of_app; by right).
    apply list_elem_of_lookup_1 in Ho' as [k Hk]. apply live_rows_lookup in Hk as (_ & Hp & _).
    apply new_rows_in in Hn' as (_ & Hq & _). rewrite Z.sub_0_r in Hp. congruence.
Qed.
End shared.
