(* ===== verification/SortedCalculation.v ===== *)
(** * Sorted collections

    Counting between two bounds, and [calculate_moves_sorted], which deletes and
    inserts what lies outside the common blocks. *)

From S2P Require Import Prelude ChunkedRangeVector ChunkedFacts ChunkedOps IndexSet LoopFacts IndexSetFacts.
From S2P Require Import IndexSetWalk AddShiftedFacts ChangeBuilder ChangeFacts ChangeComplete.
From S2P Require Import ChangeCalculation MatchedRows.

(** ** Counting ends

    [count] yields a number for any two bounds, also where they are not in order
    or the number is not that of the members between them. *)

Section count.
Context `{Build}.

(** The loop over the rest of a chunk stops at a range, and when that does not
    reach [e] it is the first of its chunk. *)
Lemma partial_loop d e L2 : forall fuel L1 ret, shape_ok d -> flat d = L1 ++ L2 -> length L2 < fuel ->
  exists L1' L2' ret', while fuel
      (λ '(it, _),
        if not_end d it then
          r ← deref d it;
          Some (bool_decide (r.2 < e)%Z && negb (bool_decide (m_inner it = 0)))
        else Some false)
      (λ '(it, ret),
        r ← deref d it; it ← it_next d it; Some (it, ret +! (r.2 -! r.1)))
      (locate d (length L1), ret) = Some (locate d (length L1'), ret')
    /\ flat d = L1' ++ L2'
    /\ forall r, head L2' = Some r -> (r.2 < e)%Z -> m_inner (locate d (length L1')) = 0.
Proof.
  induction L2 as [|r L2 IH]; intros [|fuel] L1 ret Hd Hf Hfuel; cbn [length] in Hfuel; try lia; rewrite while_S.
  - rewrite (not_end_mid d L1 []) by done. mrun. by exists L1, [], ret.
  - rewrite (not_end_mid d L1 (r :: L2)), (deref_mid d L1 r L2) by done. rewrite bool_decide_true by done. mrun.
    destruct (bool_decide (r.2 < e)%Z && _) eqn:Hb.
    + rewrite (it_next_mid d L1 r L2) by done. mrun. apply IH; [done|by rewrite <- app_assoc|lia].
    + exists L1, (r :: L2), ret. split_and!; [done..|]. intros r' [= <-] Hlt.
      rewrite bool_decide_true in Hb by done. cbn [andb] in Hb. by apply negb_false_iff, bool_decide_eq_true in Hb.
Qed.

(** A position at the start of a chunk. *)
Lemma inner_zero_boundary d L1 r L2 : flat d = L1 ++ r :: L2 -> m_inner (locate d (length L1)) = 0 ->
  exists pre post, d = pre ++ post /\ flat pre = L1 /\ locate d (length L1) = mkIter (length pre) 0.
Proof.
  intros Hf H0. destruct (locate_split d (length L1)) as (pre & c & post & i & -> & Hp & Hi & Hl).
  { rewrite Hf, length_app. cbn. lia. }
  rewrite Hl in H0. cbn in H0. subst i. exists pre, (c :: post). split_and!; [done| |done].
  rewrite flat_app in Hf. rewrite Nat.add_0_r in Hp.
  by apply (f_equal (take (length L1))) in Hf; rewrite Hp in Hf at 1; rewrite !take_app_length in Hf.
Qed.

Lemma partial_total d s e L1 r L2 : shape_ok d -> flat d = L1 ++ r :: L2 -> (r.2 < e)%Z ->
  exists st, count_partial_chunk d s e (locate d (length L1)) = Some st
    /\ match st with
       | inl _ => True
       | inr (it, _) => exists pre post, d = pre ++ post /\ it = mkIter (length pre) 0
       end.
Proof.
  intros Hd Hf He. unfold count_partial_chunk. rewrite (deref_mid d L1 r L2) by done. mrun.
  destruct (bool_decide (r.1 < s)%Z || _) eqn:Hb.
  - rewrite (it_next_mid d L1 r L2) by done. mrun.
    destruct (partial_loop d e L2 (ranges_fuel d) (L1 ++ [r]) (r.2 -! std_max r.1 s)) as (L1' & L2' & ret & -> & Hf' & Hhd).
    { done. }
    { by rewrite <- app_assoc. }
    { apply (ranges_fuel_app d (L1 ++ [r])). by rewrite <- app_assoc. }
    mrun. rewrite (not_end_mid d L1' L2') by done. destruct L2' as [|r' L2']; [eexists; by split|].
    rewrite bool_decide_true by done. rewrite (deref_mid d L1' r' L2') by done. mrun.
    destruct (decide (e <= r'.2)%Z) as [Hr'|Hr']; [rewrite (bool_decide_true (e <= r'.2)%Z) by done; eexists; by split|].
    rewrite (bool_decide_false (e <= r'.2)%Z) by done. eexists. split; [done|].
    destruct (inner_zero_boundary d L1' r' L2' Hf') as (pre & post & -> & _ & Hl); [apply (Hhd r'); [done|lia]|].
    exists pre, post. by rewrite Hl.
  - apply orb_false_iff in Hb as [_ Hb]. apply negb_false_iff, bool_decide_eq_true in Hb.
    eexists. split; [done|]. destruct (inner_zero_boundary d L1 r L2 Hf Hb) as (pre & post & -> & _ & Hl).
    exists pre, post. by rewrite Hl.
Qed.

Lemma count_total d s e : wf d -> exists n, count d s e = Some n.
Proof.
  intros Hwf. pose proof Hwf as [Hd _]. destruct (split_at_exists s (flat d)) as (L1 & L2 & Hs).
  pose proof Hs as (Hf & _). unfold count. rewrite (find_locate d s L1 L2) by done. mrun.
  rewrite (not_end_mid d L1 L2) by done. destruct L2 as [|r L2]; [by exists 0%Z|].
  rewrite bool_decide_true by done. cbn [negb]. rewrite (deref_mid d L1 r L2) by done. mrun.
  case_bool_decide; [by eexists|]. case_bool_decide; [by eexists|].
  destruct (partial_total d s e L1 r L2) as (st & -> & Hst); [done..|lia|]. mrun.
  destruct st as [n|[it ret]]; [by exists n|]. destruct Hst as (pre & post & Hdp & ->).
  edestruct (chunk_loop_from d (λ c (_ : Z), bool_decide (chunk_end c <= e)%Z) (λ c s, s +! chunk_count c))
    with (Inv := λ (_ : list range) (_ : Z), True) (pre := pre) (post := post) (s := ret) (fuel := S (length d))
    as (pre' & post' & ret1 & -> & Hd1 & _ & _).
  { done. }
  { intros it s' c Hc Hin. simpl. rewrite REALM_ASSERT_DEBUG_true by (by apply bool_decide_eq_true).
    mrun. by rewrite Hc. }
  { done. }
  { done. }
  { done. }
  { done. }
  { rewrite Hdp, length_app. lia. }
  mrun. assert (Hpost : shape_ok post') by (rewrite Hd1 in Hd; by apply Forall_app in Hd as [_ ?]).
  assert (Hloc : mkIter (length pre') 0 = locate d (length (flat pre'))) by (rewrite Hd1; by rewrite locate_boundary).
  rewrite Hloc.
  edestruct (range_loop d (λ r (_ : Z), bool_decide (r.2 <= e)%Z) (λ r s, s +! (r.2 -! r.1)))
    with (Inv := λ (_ : list range) (_ : Z), True) (L1 := flat pre') (L2 := flat post') (s := ret1)
    as (L1' & L2' & s2 & -> & Hf2 & _ & _).
  { done. }
  { intros it s' r' Hr _. simpl. by rewrite Hr. }
  { done. }
  { done. }
  { by rewrite Hd1, flat_app. }
  { done. }
  { eapply ranges_fuel_app. by rewrite Hd1, flat_app. }
  mrun. rewrite (not_end_mid d L1' L2') by done. destruct L2' as [|r' L2']; [by eexists|].
  rewrite bool_decide_true by done. rewrite (deref_mid d L1' r' L2') by done. mrun. case_bool_decide; by eexists.
Qed.
End count.

(** ** Common blocks of two sequences

    [find_longest_matches] ends without failing an assertion, and what it finds
    are blocks of equal rows, in the same order in both sequences. *)

Section matches.
Context `{Build}.

(** [a] is one sequence, the rows [rows] the other; [b] has them with their
    positions. *)
Variable modified : IndexSet.
Variables a b : list Row.
Variable rows : list Z.

Definition row_a (i : Z) : option Z := r_row_index <$> a !! Z.to_nat i.
Definition row_b (j : Z) : option Z := rows !! Z.to_nat j.

Hypothesis modified_wf : wf modified.
Hypothesis a_small : (Z.of_nat (length a) < npos)%Z.
Hypothesis rows_small : (Z.of_nat (length rows) < npos)%Z.
Hypothesis a_in_rows : forall r, r ∈ a -> r_row_index r ∈ rows.
Hypothesis b_rows : forall r, r ∈ b <-> (0 <= r_tv_index r < Z.of_nat (length rows))%Z
  /\ row_b (r_tv_index r) = Some (r_row_index r).
Hypothesis b_sorted : StronglySorted (λ x y, (r_row_index x <= r_row_index y)%Z) b.

(** ** Blocks *)

Definition block (m : Match) : Prop := (0 <= m_size m)%Z
  /\ forall k, (0 <= k < m_size m)%Z -> row_a (m_i m + k) = row_b (m_j m + k).

(** Blocks in order, between two pairs of positions. *)
Fixpoint chain (i j e1 e2 : Z) (ms : list Match) : Prop :=
  match ms with
  | [] => (i <= e1 /\ j <= e2)%Z
  | m :: ms => (i <= m_i m)%Z /\ (j <= m_j m)%Z /\ block m /\ chain (m_i m + m_size m) (m_j m + m_size m) e1 e2 ms
  end.

Lemma chain_app ms1 : forall i j e1 e2 e3 e4 ms2, chain i j e1 e2 ms1 -> chain e1 e2 e3 e4 ms2 ->
  chain i j e3 e4 (ms1 ++ ms2).
Proof.
  induction ms1 as [|m ms1 IH]; intros i j e1 e2 e3 e4 ms2 H1 H2; cbn [app chain] in *.
  - destruct ms2 as [|m ms2]; cbn in *; [lia|]. destruct H2 as (? & ? & ? & ?). split_and!; [lia|lia|done..].
  - destruct H1 as (? & ? & ? & ?). split_and!; [done..|]. by eapply IH.
Qed.

(** ** One search *)

Section search.
Variables begin1 end1 begin2 end2 : Z.
Hypothesis range1 : (0 <= begin1 <= end1 /\ end1 <= Z.of_nat (length a))%Z.
Hypothesis range2 : (0 <= begin2 <= end2 /\ end2 <= Z.of_nat (length rows))%Z.

Definition within (m : Match) : Prop := block m
  /\ (begin1 <= m_i m /\ m_i m + m_size m <= end1)%Z /\ (begin2 <= m_j m /\ m_j m + m_size m <= end2)%Z.

(** A block of [p.2] rows ends at the positions [i] and [p.1]. *)
Definition ends (i : Z) (p : Z * Z) : Prop :=
  (1 <= p.2)%Z /\ (begin1 <= i - p.2 + 1 /\ i < end1)%Z /\ (begin2 <= p.1 - p.2 + 1 /\ p.1 < end2)%Z
  /\ forall k, (0 <= k < p.2)%Z -> row_a (i - k) = row_b (p.1 - k).

Lemma within_small m : within m -> (0 <= m_size m <= npos)%Z /\ (0 <= m_i m <= npos)%Z /\ (0 <= m_j m <= npos)%Z.
Proof. intros [[? _] [? ?]]. lia. Qed.

Lemma ends_within i p n : ends i p -> within (mkMatch (i -! p.2 +! 1) (p.1 -! p.2 +! 1) p.2 n).
Proof.
  intros (Hl & Hi & Hj & Hrows). unfold npos in *. rewrite !u64_add_l. rewrite !u64_small by lia.
  split; [|cbn; lia]. split; [cbn; lia|]. cbn. intros k Hk. specialize (Hrows (p.2 - 1 - k)%Z).
  replace (i - p.2 + 1 + k)%Z with (i - (p.2 - 1 - k))%Z by lia. replace (p.1 - p.2 + 1 + k)%Z with (p.1 - (p.2 - 1 - k))%Z by lia.
  apply Hrows. lia.
Qed.

Lemma match_length_ends i j prev : Forall (ends (i - 1)) prev -> (begin1 <= i < end1)%Z -> (begin2 <= j < end2)%Z ->
  row_a i = row_b j -> ends i (j, match_length prev j).
Proof.
  intros Hprev Hi Hj Hrow. unfold match_length.
  assert (Hone : ends i (j, 1%Z)).
  { split_and!; cbn; [lia..|]. intros k Hk. assert (k = 0)%Z as -> by lia. by rewrite !Z.sub_0_r. }
  destruct (find_index_cases (λ p, bool_decide (p.1 +! 1 = j)) prev) as [[_ ->]|(l1 & p & l2 & -> & _ & Hp & ->)]; [done|].
  rewrite list_lookup_middle by done. apply bool_decide_eq_true in Hp.
  apply Forall_app in Hprev as [_ [(Hl & Hpi & Hpj & Hrows) _]%Forall_cons]. unfold npos in *.
  rewrite u64_small in Hp |- * by lia. split_and!; cbn; [lia..|]. intros k Hk.
  destruct (decide (k = 0)%Z) as [->|Hk0]; [by rewrite !Z.sub_0_r|].
  specialize (Hrows (k - 1)%Z). replace (i - k)%Z with (i - 1 - (k - 1))%Z by lia.
  replace (j - k)%Z with (p.1 - (k - 1))%Z by lia. apply Hrows. lia.
Qed.

Lemma better_match_within i j size best : within best -> ends i (j, size) ->
  exists best', better_match modified i j size best = Some best' /\ within best'.
Proof.
  intros Hb He. pose proof (λ n, ends_within i (j, size) n He) as Hw. cbn in Hw. unfold better_match.
  case_bool_decide; [by eexists|]. case_bool_decide; [|by eexists].
  destruct (count_total modified (m_j best -! size +! 1) (m_j best +! 1) modified_wf) as [n1 Hn1].
  destruct (count_total modified (j -! size +! 1) (j +! 1) modified_wf) as [n2 Hn2].
  assert (exists n, (if bool_decide (m_modified best = npos) then count modified (m_j best -! size +! 1) (m_j best +! 1)
            else Some (m_modified best)) = Some n) as [n Hn] by (rewrite Hn1; case_bool_decide; by eexists).
  rewrite Hn. clear Hn. mrun. rewrite Hn2. mrun. case_bool_decide; eexists; (split; [done|]); [apply Hw|exact Hb].
Qed.

Lemma for_each_b_match_rule {St} (Inv : St -> Prop) ai f : (forall j st, (begin2 <= j < end2)%Z ->
    row_b j = Some ai -> Inv st -> exists st', f j st = Some st' /\ Inv st') ->
  forall l st, l ⊆ b -> Inv st -> exists st', for_each_b_match ai begin2 end2 f l st = Some st' /\ Inv st'.
Proof.
  intros Hf. induction l as [|r l IH]; intros st Hl Hst; cbn [for_each_b_match]; [by exists st|].
  case_bool_decide as Hr; [|by exists st]. assert (Hlb : l ⊆ b) by (intros x Hx; apply Hl; by right).
  case_bool_decide; [by apply IH|]. case_bool_decide; [by exists st|].
  assert (Hrb : r ∈ b) by (apply Hl; by left). apply b_rows in Hrb as [_ Hrow]. rewrite Hr in Hrow.
  destruct (Hf (r_tv_index r) st) as (st' & -> & Hst'); [lia|done..|]. mrun. by apply IH.
Qed.

(** The lower bound is at a row with the index. *)
Lemma lower_bound_found ai : ai ∈ rows ->
  exists k r, find_index (λ lft, negb (bool_decide (r_row_index lft < ai)%Z)) b = Some k
    /\ head (drop k b) = Some r /\ r_row_index r = ai.
Proof.
  intros [j Hj]%list_elem_of_lookup_1. pose proof (lookup_lt_Some _ _ _ Hj) as Hlt.
  assert (Hb : mkRow ai (Z.of_nat j) ∈ b).
  { apply b_rows. cbn. split; [lia|]. unfold row_b. by rewrite Nat2Z.id. }
  destruct (find_index_cases (λ lft, negb (bool_decide (r_row_index lft < ai)%Z)) b)
    as [[Hall _]|(l1 & r & l2 & Hl & Hall & Hr & ->)].
  - rewrite Forall_forall in Hall. specialize (Hall _ Hb). cbn in Hall. rewrite bool_decide_false in Hall by lia. done.
  - exists (length l1), r. split_and!; [done|by rewrite Hl, drop_app_length|].
    apply negb_true_iff, bool_decide_eq_false in Hr. assert (r_row_index r <= ai)%Z; [|lia].
    rewrite Hl in Hb, b_sorted. apply elem_of_app in Hb as [Hb|Hb].
    + rewrite Forall_forall in Hall. specialize (Hall _ Hb). cbn in Hall. by rewrite bool_decide_false in Hall by lia.
    + apply elem_of_cons in Hb as [Hb|Hb]; [by rewrite <- Hb|].
      assert (StronglySorted (λ x y, (r_row_index x <= r_row_index y)%Z) (r :: l2)) as Hs.
      { clear -b_sorted. induction l1 as [|y l1 IH]; [done|]. apply IH. by inversion b_sorted. }
      inversion Hs as [|? ? _ Hle]; subst. rewrite Forall_forall in Hle. by apply (Hle _ Hb).
Qed.

Lemma match_row_step i prev0 prev best : (begin1 <= i < end1)%Z -> Forall (ends (i - 1)) prev -> within best ->
  exists cur best', match_row modified a b begin1 end1 begin2 end2 i (prev0, prev, best) = Some (prev, cur, best')
    /\ Forall (ends i) cur /\ within best'.
Proof.
  intros Hi Hprev Hbest. unfold match_row.
  destruct (lookup_lt_is_Some_2 a (Z.to_nat i)) as [r Hr]; [lia|]. rewrite Hr. mrun. cbn [option_fmap option_map fmap].
  mrun. destruct (lower_bound_found (r_row_index r)) as (k & r' & -> & Hhd & Hr').
  { by eapply a_in_rows, list_elem_of_lookup_2. }
  rewrite Hhd. rewrite REALM_ASSERT_decide by done. mrun.
  edestruct (for_each_b_match_rule (λ st, Forall (ends i) st.1 /\ within st.2) (r_row_index r))
    with (l := drop k b) (st := ([] : list (Z * Z), best)) as ([cur best'] & -> & Hcur & Hb'); [| |by split|].
  2: { intros x Hx. rewrite <- (take_drop k b). apply elem_of_app. by right. }
  2: { mrun. by exists cur, best'. }
  intros j [cur bst] Hj Hrow [Hcur Hbst]. cbn in Hcur, Hbst.
  assert (He : ends i (j, match_length prev j)).
  { apply match_length_ends; [done..|]. rewrite Hrow. unfold row_a. by rewrite Hr. }
  destruct (better_match_within i j (match_length prev j) bst) as (bst' & -> & Hw); [done..|]. mrun.
  pose proof (within_small _ Hw). pose proof Hw as [_ [? ?]]. unfold npos in *.
  rewrite !u64_small by lia. rewrite !REALM_ASSERT_true by (rewrite andb_true_iff, !bool_decide_eq_true; lia). mrun.
  eexists. split; [done|]. split; [|done]. apply Forall_app. split; [done|]. by constructor.
Qed.

Lemma find_longest_match_spec : exists m, find_longest_match modified a b begin1 end1 begin2 end2 = Some m /\ within m.
Proof.
  unfold find_longest_match.
  assert (Hloop : forall n i prev0 prev best, (begin1 <= i)%Z -> (i + Z.of_nat n = end1)%Z ->
    Forall (ends (i - 1)) prev -> within best ->
    exists p1 p2 best', foldM (match_row modified a b begin1 end1 begin2 end2) (seqZ i (Z.of_nat n)) (prev0, prev, best)
      = Some (p1, p2, best') /\ within best').
  { induction n as [|n IH]; intros i prev0 prev best Hi He Hp Hb.
    - by exists prev0, prev, best.
    - rewrite seqZ_cons by lia. cbn [foldM]. destruct (match_row_step i prev0 prev best) as (cur & best' & -> & Hc & Hb');
        [lia|done..|]. mrun. replace (Z.pred (Z.of_nat (S n))) with (Z.of_nat n) by lia. apply IH; [lia|lia| |done].
      by replace (Z.succ i - 1)%Z with i by lia. }
  destruct (Hloop (Z.to_nat (end1 - begin1)) begin1 [] [] (mkMatch begin1 begin2 0 0)) as (p1 & p2 & m & Hm & Hw).
  - lia.
  - lia.
  - constructor.
  - split; [|cbn; lia]. split; [cbn; lia|]. cbn. intros k Hk. lia.
  - rewrite Z2Nat.id in Hm by lia. rewrite Hm. mrun. by exists m.
Qed.
End search.

(** ** All of them *)

Lemma find_longest_matches_spec fuel : forall begin1 end1 begin2 end2,
  (0 <= begin1 <= end1 /\ end1 <= Z.of_nat (length a))%Z -> (0 <= begin2 <= end2 /\ end2 <= Z.of_nat (length rows))%Z ->
  (end1 - begin1 < Z.of_nat fuel)%Z ->
  exists ms, find_longest_matches fuel modified a b begin1 end1 begin2 end2 = Some ms
    /\ chain begin1 begin2 end1 end2 ms.
Proof.
  induction fuel as [|fuel IH]; intros begin1 end1 begin2 end2 H1 H2 Hf; [lia|]. cbn [find_longest_matches].
  destruct (find_longest_match_spec begin1 end1 begin2 end2 H1 H2) as (m & -> & Hm). mrun.
  pose proof (within_small _ _ _ _ H1 H2 m Hm) as Hsm. pose proof Hm as [Hblk [? ?]].
  case_bool_decide as Hz; [exists []; split; [done|cbn; lia]|].
  assert (Hbefore : exists before, (if bool_decide (begin1 < m_i m)%Z && bool_decide (begin2 < m_j m)%Z
      then find_longest_matches fuel modified a b begin1 (m_i m) begin2 (m_j m) else Some []) = Some before
    /\ chain begin1 begin2 (m_i m) (m_j m) before).
  { destruct (bool_decide _ && bool_decide _); [|exists []; split; [done|cbn; lia]]. apply IH; lia. }
  destruct Hbefore as (before & -> & Hcb). mrun. unfold npos in *. rewrite !u64_small by lia.
  assert (Hafter : exists after, (if bool_decide (m_i m + m_size m < end2)%Z && bool_decide (m_j m + m_size m < end2)%Z
      then find_longest_matches fuel modified a b (m_i m + m_size m) end1 (m_j m + m_size m) end2 else Some []) = Some after
    /\ chain (m_i m + m_size m) (m_j m + m_size m) end1 end2 after).
  { destruct (bool_decide _ && bool_decide _); [|exists []; split; [done|cbn; lia]]. apply IH; lia. }
  destruct Hafter as (after & -> & Hca). mrun. eexists. split; [done|]. eapply chain_app; [exact Hcb|].
  cbn [chain]. split_and!; [lia|lia|done|done].
Qed.

Lemma longest_matches_spec start : (0 <= start <= Z.of_nat (length a))%Z -> length b = length rows ->
  (start <= Z.of_nat (length rows))%Z ->
  exists ms, longest_matches modified a b start = Some ms
    /\ chain start start (Z.of_nat (length a)) (Z.of_nat (length rows)) ms
    /\ last ms = Some (mkMatch (Z.of_nat (length a)) (Z.of_nat (length rows)) 0 0).
Proof.
  intros Hs Hb Hs'. unfold longest_matches. rewrite Hb.
  destruct (find_longest_matches_spec (S (length a)) start (Z.of_nat (length a)) start (Z.of_nat (length rows)))
    as (ms & -> & Hc); [lia..|]. mrun. eexists. split; [done|]. split; [|by rewrite last_snoc].
  eapply chain_app; [exact Hc|]. cbn. split_and!; [lia|lia| |lia|lia]. split; [cbn; lia|]. cbn. intros k Hk. lia.
Qed.
End matches.

(** ** Sorted collections

    [calculate_moves_sorted] deletes and inserts what lies outside the common
    blocks: the rows that stay are the same on both sides, in the same order. *)

(** ** Blocks and gaps

    [pos] is the position of a match in one of the two sequences. *)
Section gaps.
Variable pos : Match -> Z.

Fixpoint ordered (i e : Z) (ms : list Match) : Prop :=
  match ms with
  | [] => (i <= e)%Z
  | m :: ms => (i <= pos m)%Z /\ (0 <= m_size m)%Z /\ ordered (pos m + m_size m) e ms
  end.

Fixpoint gaps (i : Z) (ms : list Match) : list Z :=
  match ms with
  | [] => []
  | m :: ms => seqZ i (pos m - i) ++ gaps (pos m + m_size m) ms
  end.

Definition blocks (ms : list Match) : list Z := ms ≫= λ m, seqZ (pos m) (m_size m).

Lemma blocks_cons m ms : blocks (m :: ms) = seqZ (pos m) (m_size m) ++ blocks ms.
Proof. done. Qed.

Lemma ordered_le ms : forall i e, ordered i e ms -> (i <= e)%Z.
Proof. induction ms as [|m ms IH]; cbn; [done|]. intros i e (? & ? & ?%IH). lia. Qed.

Lemma blocks_range ms : forall i e x, ordered i e ms -> x ∈ blocks ms -> (i <= x < e)%Z.
Proof.
  induction ms as [|m ms IH]; intros i e x; [intros _ H%elem_of_nil; done|]. rewrite blocks_cons, elem_of_app, elem_of_seqZ.
  cbn [ordered]. intros (? & ? & Ho) [Hx|Hx]; [apply ordered_le in Ho; lia|]. specialize (IH _ _ _ Ho Hx). lia.
Qed.

Lemma blocks_sorted ms : forall i e, ordered i e ms -> StronglySorted Z.lt (blocks ms).
Proof.
  induction ms as [|m ms IH]; intros i e; [constructor|]. rewrite blocks_cons. cbn [ordered]. intros (? & ? & Ho).
  apply StronglySorted_app_2; [|apply seqZ_sorted|by eapply IH].
  intros x y Hx Hy. apply elem_of_seqZ in Hx. apply (blocks_range _ _ _ _ Ho) in Hy. lia.
Qed.

Lemma gaps_spec ms : forall i e, ordered i e ms -> (exists m, last ms = Some m /\ pos m + m_size m = e)%Z ->
  forall x, x ∈ gaps i ms <-> (i <= x < e)%Z /\ x ∉ blocks ms.
Proof.
  induction ms as [|m ms IH]; intros i e Ho [ml [Hl He]] x; [done|].
  cbn [ordered] in Ho. destruct Ho as (? & ? & Ho). cbn [gaps]. rewrite blocks_cons, !elem_of_app, !elem_of_seqZ.
  pose proof (ordered_le _ _ _ Ho). pose proof (λ y, blocks_range _ _ _ y Ho) as Hb. destruct ms as [|m' ms].
  - cbn in Hl. injection Hl as ->. cbn [gaps]. cbn. rewrite elem_of_nil. intuition lia.
  - rewrite (IH _ _ Ho) by (by exists ml). specialize (Hb x). destruct (decide (x < pos m)%Z); intuition lia.
Qed.
End gaps.

Lemma chain_ordered a rows ms : forall i j e1 e2, chain a rows i j e1 e2 ms ->
  ordered m_i i e1 ms /\ ordered m_j j e2 ms
  /\ (λ k, row_a a k) <$> blocks m_i ms = (λ k, row_b rows k) <$> blocks m_j ms.
Proof.
  induction ms as [|m ms IH]; intros i j e1 e2; [cbn; intros [? ?]; by split_and!|].
  cbn [chain ordered]. intros (? & ? & [? Hb] & Hc). destruct (IH _ _ _ _ Hc) as (? & ? & Heq).
  split_and!; [done..|]. rewrite !blocks_cons, !fmap_app, Heq. f_equal.
  unfold seqZ. rewrite <- !list_fmap_compose. apply list_fmap_ext. intros k x Hx. apply lookup_seq in Hx as [? ?]. cbn.
  replace (Z.of_nat x + m_i m)%Z with (m_i m + Z.of_nat x)%Z by lia.
  replace (Z.of_nat x + m_j m)%Z with (m_j m + Z.of_nat x)%Z by lia. apply Hb. lia.
Qed.

(** ** What stays *)

Lemma sorted_lookup (ps : list Z) : StronglySorted Z.lt ps ->
  forall i j x y, i < j -> ps !! i = Some x -> ps !! j = Some y -> (x < y)%Z.
Proof.
  induction 1 as [|p ps Hs IH Hall]; intros i j x y Hij Hi Hj; [done|]. destruct j as [|j]; [lia|]. cbn in Hj.
  destruct i as [|i]; cbn in Hi.
  - injection Hi as ->. rewrite Forall_forall in Hall. by apply Hall, (list_elem_of_lookup_2 _ j).
  - apply (IH i j); [lia|done..].
Qed.

Definition at_pos (ps : list Z) (k : Z) : Z := ps !!! Z.to_nat k.

Lemma at_pos_lookup (ps : list Z) (k : Z) : (0 <= k < Z.of_nat (length ps))%Z -> ps !! Z.to_nat k = Some (at_pos ps k).
Proof. intros ?. apply list_lookup_lookup_total_lt. lia. Qed.

Lemma at_pos_inj (ps : list Z) (j k : Z) : StronglySorted Z.lt ps -> (0 <= j < Z.of_nat (length ps))%Z ->
  (0 <= k < Z.of_nat (length ps))%Z -> at_pos ps j = at_pos ps k -> j = k.
Proof.
  intros Hs Hj Hk He. pose proof (at_pos_lookup ps j Hj) as Hlj. pose proof (at_pos_lookup ps k Hk) as Hlk.
  destruct (Z.lt_trichotomy j k) as [?|[?|?]]; [|done|].
  - pose proof (sorted_lookup ps Hs (Z.to_nat j) (Z.to_nat k) _ _ ltac:(lia) Hlj Hlk). lia.
  - pose proof (sorted_lookup ps Hs (Z.to_nat k) (Z.to_nat j) _ _ ltac:(lia) Hlk Hlj). lia.
Qed.

Lemma at_pos_sorted (ps ks : list Z) : StronglySorted Z.lt ps -> StronglySorted Z.lt ks ->
  (forall k, k ∈ ks -> (0 <= k < Z.of_nat (length ps))%Z) -> StronglySorted Z.lt (at_pos ps <$> ks).
Proof.
  intros Hs. induction 1 as [|k ks Hks IH Hall]; intros Hb; [constructor|]. cbn.
  constructor; [apply IH; intros; apply Hb; by right|]. rewrite Forall_fmap. rewrite Forall_forall in Hall |- *.
  intros k' Hk'. cbn. pose proof (Hb k ltac:(by left)) as Hbk. pose proof (Hb k' ltac:(by right)) as Hbk'.
  specialize (Hall k' Hk'). apply (sorted_lookup ps Hs (Z.to_nat k) (Z.to_nat k')); [lia|by apply at_pos_lookup..].
Qed.

(** The positions [ps] of the matched rows, the gaps among them taken out. *)
Lemma kept_blocks pos (l ps : list Z) (L : list range) ms : StronglySorted Z.lt ps ->
  (forall p, p ∈ ps -> (0 <= p < Z.of_nat (length l))%Z) ->
  ordered pos 0 (Z.of_nat (length ps)) ms ->
  (exists m, last ms = Some m /\ pos m + m_size m = Z.of_nat (length ps))%Z ->
  (forall x, (0 <= x < Z.of_nat (length l))%Z -> mem x L <-> x ∉ ps \/ x ∈ at_pos ps <$> gaps pos 0 ms) ->
  kept 0 L l = omap (λ k, l !! Z.to_nat (at_pos ps k)) (blocks pos ms).
Proof.
  intros Hs Hps Ho Hlast HL. pose proof (gaps_spec pos ms _ _ Ho Hlast) as Hg.
  pose proof (λ x, blocks_range pos ms _ _ x Ho) as Hb.
  assert (Hin : forall k, (0 <= k < Z.of_nat (length ps))%Z -> at_pos ps k ∈ ps).
  { intros k Hk. eapply list_elem_of_lookup_2, at_pos_lookup, Hk. }
  rewrite (kept_lookups L l 0 (at_pos ps <$> blocks pos ms)).
  - generalize (blocks pos ms). induction l0 as [|k ks IH]; [done|]. cbn. rewrite Z.sub_0_r. destruct (l !! _); by rewrite IH.
  - apply at_pos_sorted; [done|by eapply blocks_sorted|done].
  - rewrite Forall_fmap. apply Forall_forall. intros k Hk. cbn. apply Hps, Hin, Hb, Hk.
  - intros x Hx. rewrite HL by lia. split.
    + intros [Hn|(k & -> & Hk)%list_elem_of_fmap] (k' & Heq & Hk')%list_elem_of_fmap.
      * apply Hn. rewrite Heq. apply Hin, Hb, Hk'.
      * apply Hg in Hk as [Hk Hnk]. apply Hnk. apply at_pos_inj in Heq; [by rewrite Heq|done|done|by apply Hb].
    + intros Hn. destruct (decide (x ∈ ps)) as [Hxp|]; [right|by left].
      apply list_elem_of_lookup_1 in Hxp as [k Hk]. pose proof (lookup_lt_Some _ _ _ Hk).
      assert (Heq : x = at_pos ps (Z.of_nat k)) by (unfold at_pos; rewrite Nat2Z.id; by rewrite (list_lookup_total_correct _ _ _ Hk)).
      rewrite Heq. apply list_elem_of_fmap_2, Hg. split; [lia|]. intros Hkb. apply Hn. rewrite Heq. by apply list_elem_of_fmap_2.
Qed.

Section sorted.
Context `{HB : Build} `{HO : StdOrders}.

(** ** [align_match] *)

Lemma add_lookups {A} (f : A -> Z) (l : list A) ks : forall (d : IndexSet), wf d -> positions_ok f l ->
  (forall k, k ∈ ks -> (0 <= k < Z.of_nat (length l))%Z) ->
  exists d', foldM (λ i d, r ← l !! Z.to_nat i; add d (f r)) ks d = Some d' /\ wf d'
    /\ forall x, x ∈ d' <-> x ∈ d \/ x ∈ at_pos (f <$> l) <$> ks.
Proof.
  induction ks as [|k ks IH]; intros d Hd Hl Hk; cbn [foldM].
  - exists d. split_and!; [done..|]. intros x. cbn. rewrite elem_of_nil. tauto.
  - destruct (lookup_lt_is_Some_2 l (Z.to_nat k)) as [r Hr]; [specialize (Hk k ltac:(by left)); lia|].
    rewrite Hr. mrun. assert (Hp : (0 <= f r < npos)%Z).
    { red in Hl. rewrite Forall_forall in Hl. by apply Hl, (list_elem_of_lookup_2 _ (Z.to_nat k)). }
    destruct (add_spec d (f r) Hd Hp) as (d1 & -> & Hd1 & Hin1). mrun.
    destruct (IH d1 Hd1 Hl) as (d' & -> & Hd' & Hin); [intros; apply Hk; by right|]. exists d'. split_and!; [done..|].
    assert (Hat : at_pos (f <$> l) k = f r).
    { unfold at_pos. apply list_lookup_total_correct. by rewrite list_lookup_fmap, Hr. }
    intros x. rewrite Hin, Hin1. cbn. rewrite elem_of_cons, Hat. tauto.
Qed.

Section align.
Variables (a : list Row) (rows : list RowInfo).
Hypothesis a_ok : positions_ok r_tv_index a.
Hypothesis rows_ok : positions_ok tv_index rows.
Hypothesis a_small : (Z.of_nat (length a) < npos)%Z.
Hypothesis rows_small : (Z.of_nat (length rows) < npos)%Z.

Lemma align_match_eq m i j cs : align_match a rows m (i, j, cs) = (
  dels ← foldM (λ i d, r ← a !! Z.to_nat i; add d (r_tv_index r)) (seqZ i (m_i m - i)) (deletions cs);
  ins ← foldM (λ j d, r ← rows !! Z.to_nat j; add d (tv_index r)) (seqZ j (m_j m - j)) (insertions cs);
  Some (std_max i (m_i m) +! m_size m, std_max j (m_j m) +! m_size m, set_insertions ins (set_deletions dels cs))).
Proof. done. Qed.

Lemma align_spec ms : forall i j cs, ordered m_i i (Z.of_nat (length a)) ms -> ordered m_j j (Z.of_nat (length rows)) ms ->
  (0 <= i)%Z -> (0 <= j)%Z -> wf (deletions cs) -> wf (insertions cs) ->
  exists i' j' d n, foldM (align_match a rows) ms (i, j, cs) = Some (i', j', set_insertions n (set_deletions d cs))
    /\ wf d /\ wf n /\ (forall x, x ∈ d <-> x ∈ deletions cs \/ x ∈ at_pos (r_tv_index <$> a) <$> gaps m_i i ms)
    /\ (forall x, x ∈ n <-> x ∈ insertions cs \/ x ∈ at_pos (tv_index <$> rows) <$> gaps m_j j ms).
Proof using a_ok rows_ok a_small rows_small.
  induction ms as [|m ms IH]; intros i j cs Hoi Hoj Hi Hj Hd Hn; cbn [foldM].
  - exists i, j, (deletions cs), (insertions cs). split_and!; [by destruct cs|done|done|..]; intros x; cbn; rewrite elem_of_nil; tauto.
  - cbn [ordered] in Hoi, Hoj. destruct Hoi as (? & ? & Hoi), Hoj as (? & ? & Hoj).
    pose proof (ordered_le _ _ _ _ Hoi). pose proof (ordered_le _ _ _ _ Hoj). rewrite align_match_eq.
    destruct (add_lookups r_tv_index a (seqZ i (m_i m - i)) (deletions cs)) as (d1 & -> & Hd1 & Hind1);
      [done|done|intros k Hk%elem_of_seqZ; lia|]. mrun.
    destruct (add_lookups tv_index rows (seqZ j (m_j m - j)) (insertions cs)) as (n1 & -> & Hn1 & Hinn1);
      [done|done|intros k Hk%elem_of_seqZ; lia|]. mrun. rewrite !Z.max_r by lia.
    unfold npos in *. rewrite !u64_small by lia.
    destruct (IH (m_i m + m_size m)%Z (m_j m + m_size m)%Z (set_insertions n1 (set_deletions d1 cs)))
      as (i' & j' & d & n & -> & Hwd & Hwn & Hind & Hinn); [done|done|lia|lia|done|done|].
    exists i', j', d, n. split_and!; [done|done|done|..]; intros x; cbn [gaps]; rewrite fmap_app, elem_of_app.
    + rewrite Hind. cbn. rewrite Hind1. tauto.
    + rewrite Hinn. cbn. rewrite Hinn1. tauto.
Qed.
End align.

(** ** [calculate_moves_sorted] *)

Lemma row_lt_tv_asym x y : row_lt_tv x y = true -> row_lt_tv y x = false.
Proof. unfold row_lt_tv. repeat case_bool_decide; cbn; (done || lia). Qed.

Lemma row_lt_tv_trans x y z : row_lt_tv y x = false -> row_lt_tv z y = false -> row_lt_tv z x = false.
Proof. unfold row_lt_tv. repeat case_bool_decide; cbn; (done || lia). Qed.

Lemma row_lt_row_asym x y : row_lt_row x y = true -> row_lt_row y x = false.
Proof. unfold row_lt_row. repeat case_bool_decide; cbn; (done || lia). Qed.

Lemma row_lt_row_trans x y z : row_lt_row y x = false -> row_lt_row z y = false -> row_lt_row z x = false.
Proof. unfold row_lt_row. repeat case_bool_decide; cbn; (done || lia). Qed.

Definition old_order (rows : list RowInfo) : list Row :=
  std_sort row_lt_tv ((λ row, mkRow (row_index row) (prev_tv_index row)) <$> rows).

Lemma old_order_perm rows : old_order rows ≡ₚ (λ row, mkRow (row_index row) (prev_tv_index row)) <$> rows.
Proof. apply std_sort_perm. Qed.

Lemma old_order_length rows : length (old_order rows) = length rows.
Proof. by rewrite old_order_perm, length_fmap. Qed.

Lemma old_order_in rows r : r ∈ old_order rows <-> exists row, row ∈ rows /\ r = mkRow (row_index row) (prev_tv_index row).
Proof. rewrite old_order_perm, list_elem_of_fmap. naive_solver. Qed.

Lemma old_order_positions rows x : x ∈ r_tv_index <$> old_order rows <-> x ∈ prev_tv_index <$> rows.
Proof. by rewrite old_order_perm, <- list_fmap_compose. Qed.

Lemma old_order_sorted rows : NoDup (prev_tv_index <$> rows) -> StronglySorted Z.lt (r_tv_index <$> old_order rows).
Proof.
  intros Hnd. apply sort_keys_sorted; [|apply row_lt_tv_asym|apply row_lt_tv_trans|by rewrite <- list_fmap_compose].
  assert (Hnd' : NoDup (prev_tv_index <$> rows)) by done.
  intros x y (rx & -> & Hx)%list_elem_of_fmap (ry & -> & Hy)%list_elem_of_fmap. unfold row_lt_tv. cbn.
  assert (prev_tv_index rx = prev_tv_index ry -> rx = ry).
  { intros He. apply list_elem_of_lookup_1 in Hx as [i Hi], Hy as [j Hj].
    assert (i = j) as ->; [|congruence]. eapply (NoDup_lookup _ i j (prev_tv_index rx) Hnd); rewrite list_lookup_fmap;
      [by rewrite Hi|by rewrite Hj, He]. }
  repeat case_bool_decide; cbn; intuition (subst; try done; try lia).
Qed.

(** The rows in the order [find_longest_match] looks them up in. *)
Definition by_row_order (rows : list RowInfo) : list Row :=
  std_sort row_lt_row (imap (λ i row, mkRow (row_index row) (Z.of_nat i)) rows).

Lemma by_row_order_in rows r : r ∈ by_row_order rows <-> (0 <= r_tv_index r < Z.of_nat (length (row_index <$> rows)))%Z
  /\ row_b (row_index <$> rows) (r_tv_index r) = Some (r_row_index r).
Proof.
  assert (by_row_order rows ≡ₚ imap (λ i row, mkRow (row_index row) (Z.of_nat i)) rows) as -> by apply std_sort_perm.
  unfold row_b. rewrite length_fmap, list_elem_of_lookup. setoid_rewrite list_lookup_imap. rewrite list_lookup_fmap. split.
  - intros [k Hk]. destruct (rows !! k) as [row|] eqn:Hrow; [|done]. cbn in Hk. injection Hk as <-. cbn.
    apply lookup_lt_Some in Hrow as ?. rewrite Nat2Z.id, Hrow. split; [lia|done].
  - intros [Hr Hk]. exists (Z.to_nat (r_tv_index r)). destruct (rows !! Z.to_nat (r_tv_index r)) as [row|]; [|done].
    cbn in Hk |- *. injection Hk as Hk. rewrite Z2Nat.id by lia. destruct r. cbn in *. by subst.
Qed.

Lemma by_row_order_sorted rows : StronglySorted (λ x y, (r_row_index x <= r_row_index y)%Z) (by_row_order rows).
Proof.
  eapply StronglySorted_weaken; [|apply std_sort_sorted; [apply row_lt_row_asym|apply row_lt_row_trans]].
  intros x y. unfold row_lt_row. cbn. repeat case_bool_decide; cbn; (done || lia).
Qed.

Lemma by_row_order_length rows : length (by_row_order rows) = length (row_index <$> rows).
Proof.
  assert (by_row_order rows ≡ₚ imap (λ i row, mkRow (row_index row) (Z.of_nat i)) rows) as -> by apply std_sort_perm.
  by rewrite length_imap, length_fmap.
Qed.

Section result.
Variables (prev next : list Z) (rows : list RowInfo) (dels removed ins : IndexSet).
Hypothesis Hsh : shared prev next rows dels removed ins.
Hypothesis prev_small : (Z.of_nat (length prev) < npos)%Z.
Hypothesis next_small : (Z.of_nat (length next) < npos)%Z.

Lemma shared_small : (Z.of_nat (length rows) < npos)%Z /\ positions_ok tv_index rows
  /\ positions_ok r_tv_index (old_order rows).
Proof using Hsh prev_small next_small.
  assert (Hpos : positions_ok tv_index rows).
  { apply Forall_forall. intros row Hrow. destruct (sh_next _ _ _ _ _ _ Hsh row Hrow) as [? ?%lookup_lt_Some]. lia. }
  split_and!; [|done|].
  - assert (Hs : tv_index <$> rows ⊆ Z.of_nat <$> seq 0 (length next)).
    { intros x (row & -> & Hrow)%list_elem_of_fmap. destruct (sh_next _ _ _ _ _ _ Hsh row Hrow) as [? ?%lookup_lt_Some].
      apply list_elem_of_fmap. exists (Z.to_nat (tv_index row)). rewrite elem_of_seq. lia. }
    apply NoDup_submseteq, submseteq_length in Hs; [rewrite !length_fmap, length_seq in Hs; lia|].
    apply sorted_NoDup, (sh_sorted _ _ _ _ _ _ Hsh).
  - apply Forall_forall. intros r (row & Hrow & ->)%old_order_in. cbn.
    destruct (sh_prev _ _ _ _ _ _ Hsh row Hrow) as (? & ?%lookup_lt_Some & _). lia.
Qed.

(** What the gaps of a chain of common blocks leave of both versions. *)
Lemma aligned ms (d n : IndexSet) : let la := Z.of_nat (length rows) in
  chain (old_order rows) (row_index <$> rows) 0 0 la la ms ->
  (exists m, last ms = Some m /\ m_i m + m_size m = la /\ m_j m + m_size m = la)%Z ->
  (forall x, x ∈ d <-> (x ∈ dels \/ x ∈ removed) \/ x ∈ at_pos (r_tv_index <$> old_order rows) <$> gaps m_i 0 ms) ->
  (forall x, x ∈ n <-> x ∈ ins \/ x ∈ at_pos (tv_index <$> rows) <$> gaps m_j 0 ms) ->
  kept 0 (flat d) prev = kept 0 (flat n) next.
Proof using Hsh.
  intros la Hc (ml & Hl & He1 & He2) Hd Hn. destruct (chain_ordered _ _ _ _ _ _ _ Hc) as (Ho1 & Ho2 & Heq).
  assert (Hla : Z.of_nat (length (r_tv_index <$> old_order rows)) = la) by (by rewrite length_fmap, old_order_length).
  assert (Hlb : Z.of_nat (length (tv_index <$> rows)) = la) by (by rewrite length_fmap).
  rewrite (kept_blocks m_i prev (r_tv_index <$> old_order rows) (flat d) ms).
  2: { apply old_order_sorted, (sh_from _ _ _ _ _ _ Hsh). }
  2: { intros p Hp. apply old_order_positions, list_elem_of_fmap in Hp as (row & -> & Hrow).
       destruct (sh_prev _ _ _ _ _ _ Hsh row Hrow) as (? & ?%lookup_lt_Some & _). lia. }
  2: { by rewrite Hla. } 2: { rewrite Hla. by exists ml. }
  2: { intros x Hx. rewrite <- elem_of_flat, Hd, (sh_dels _ _ _ _ _ _ Hsh), (sh_removed _ _ _ _ _ _ Hsh), old_order_positions.
       destruct (lookup_lt_is_Some_2 prev (Z.to_nat x)) as [r Hr]; [lia|]. rewrite Hr.
       assert (Hp : x ∈ prev_tv_index <$> rows -> r <> npos).
       { intros (row & -> & Hrow)%list_elem_of_fmap. destruct (sh_prev _ _ _ _ _ _ Hsh row Hrow) as (_ & Hp & ?). congruence. }
       destruct (decide (r = npos)) as [->|Hnp]; [naive_solver|]. split.
       - intros [[[_ [=]]|(_ & _ & ?)]|?]; [done|by left|by right].
       - intros [?|?]; [left; right|by right]. split_and!; [lia|by exists r|done]. }
  rewrite (kept_blocks m_j next (tv_index <$> rows) (flat n) ms).
  2: { apply (sh_sorted _ _ _ _ _ _ Hsh). }
  2: { intros p (row & -> & Hrow)%list_elem_of_fmap.
       destruct (sh_next _ _ _ _ _ _ Hsh row Hrow) as (? & ?%lookup_lt_Some). lia. }
  2: { by rewrite Hlb. } 2: { rewrite Hlb. by exists ml. }
  2: { intros x Hx. rewrite <- elem_of_flat, Hn, (sh_ins _ _ _ _ _ _ Hsh). intuition lia. }
  assert (Ha : forall k, (0 <= k < la)%Z -> prev !! Z.to_nat (at_pos (r_tv_index <$> old_order rows) k) = row_a (old_order rows) k).
  { intros k Hk. destruct (lookup_lt_is_Some_2 (old_order rows) (Z.to_nat k)) as [r Hr]; [rewrite old_order_length; lia|].
    unfold at_pos, row_a. rewrite (list_lookup_total_correct _ _ (r_tv_index r)) by (by rewrite list_lookup_fmap, Hr).
    rewrite Hr. assert (Hin : r ∈ old_order rows) by (by eapply list_elem_of_lookup_2).
    apply old_order_in in Hin as (row & Hrow & ->). cbn. apply (sh_prev _ _ _ _ _ _ Hsh row Hrow). }
  assert (Hb : forall k, (0 <= k < la)%Z -> next !! Z.to_nat (at_pos (tv_index <$> rows) k) = row_b (row_index <$> rows) k).
  { intros k Hk. destruct (lookup_lt_is_Some_2 rows (Z.to_nat k)) as [row Hr]; [lia|].
    unfold at_pos, row_b. rewrite (list_lookup_total_correct _ _ (tv_index row)) by (by rewrite list_lookup_fmap, Hr).
    rewrite list_lookup_fmap, Hr. apply (sh_next _ _ _ _ _ _ Hsh row). by eapply list_elem_of_lookup_2. }
  rewrite (omap_ext_in _ (λ k, row_a (old_order rows) k)) by (intros k Hk; by apply Ha, (blocks_range m_i ms)).
  rewrite (omap_ext_in _ (λ k, row_b (row_index <$> rows) k) (blocks m_j ms))
    by (intros k Hk; by apply Hb, (blocks_range m_j ms)).
  assert (Hom : forall (f : Z -> option Z) (l : list Z), omap f l = omap id (f <$> l)).
  { intros f l. induction l as [|y l IH]; [done|]. cbn. unfold id at 1. destruct (f y); by rewrite IH. }
  by rewrite (Hom _ (blocks m_i ms)), (Hom _ (blocks m_j ms)), Heq.
Qed.

Lemma chain_prefix k : k <= length rows ->
  (forall j p, j < k -> zip (old_order rows) rows !! j = Some p -> r_row_index p.1 = row_index p.2) ->
  block (old_order rows) (row_index <$> rows) (mkMatch 0 0 (Z.of_nat k) 0).
Proof.
  intros Hk Heq. split; [cbn; lia|]. cbn. intros j Hj. unfold row_a, row_b. rewrite Z.add_0_l, list_lookup_fmap.
  destruct (lookup_lt_is_Some_2 (old_order rows) (Z.to_nat j)) as [r Hr]; [rewrite old_order_length; lia|].
  destruct (lookup_lt_is_Some_2 rows (Z.to_nat j)) as [row Hrow]; [lia|].
  rewrite Hr, Hrow. cbn. f_equal. apply (Heq (Z.to_nat j) (r, row)); [lia|]. apply lookup_zip_with_Some. by exists r, row.
Qed.

Lemma calculate_moves_sorted_spec b : deletions b = dels -> insertions b = ins -> wf (modifications b) ->
  exists d n, calculate_moves_sorted rows b = Some (set_insertions n (set_deletions d b)) /\ wf d /\ wf n
    /\ (forall x, x ∈ dels -> x ∈ d) /\ (forall x, x ∈ d -> x ∈ dels \/ x ∈ prev_tv_index <$> rows)
    /\ (forall x, x ∈ ins -> x ∈ n) /\ (forall x, x ∈ n -> x ∈ ins \/ x ∈ tv_index <$> rows)
    /\ forall d', (forall x, x ∈ d' <-> x ∈ d \/ x ∈ removed) -> kept 0 (flat d') prev = kept 0 (flat n) next.
Proof using Hsh prev_small next_small.
  intros Hbd Hbi Hbm. destruct (sh_wf _ _ _ _ _ _ Hsh) as (Hwd & Hwr & Hwi). destruct shared_small as (Hsm & Hpos & Hposo).
  unfold calculate_moves_sorted. fold (old_order rows). fold (by_row_order rows).
  destruct (find_index_cases (λ p, bool_decide (r_row_index p.1 ≠ row_index p.2)) (zip (old_order rows) rows))
    as [[Hall ->]|(l1 & p & l2 & Hz & Hall & _ & ->)].
  - exists dels, ins. split_and!; [by destruct b; cbn in *; subst|done|done|done|by left|done|by left|].
    intros d' Hd'. eapply (aligned [mkMatch 0 0 (Z.of_nat (length rows)) 0]).
    + cbn [chain m_i m_j m_size]. split_and!; [lia|lia| |lia|lia]. apply chain_prefix; [done|]. intros j p _ Hp.
      rewrite Forall_forall in Hall. apply list_elem_of_lookup_2, Hall in Hp. by apply bool_decide_eq_false, dec_stable in Hp.
    + eexists. split; [done|]. cbn. lia.
    + intros x. rewrite Hd'. cbn. rewrite elem_of_nil. tauto.
    + intros x. cbn. rewrite elem_of_nil. tauto.
  - assert (Hl1 : length l1 < length rows).
    { apply (f_equal length) in Hz. rewrite length_zip_with, length_app, old_order_length in Hz. cbn in Hz. lia. }
    destruct (longest_matches_spec (modifications b) (old_order rows) (by_row_order rows) (row_index <$> rows) Hbm)
      with (start := Z.of_nat (length l1)) as (ms & -> & Hc & Hlast).
    { by rewrite old_order_length. } { by rewrite length_fmap. }
    { intros r (row & Hrow & ->)%old_order_in. cbn. by apply list_elem_of_fmap_2. }
    { apply by_row_order_in. } { apply by_row_order_sorted. }
    { rewrite old_order_length. lia. } { apply by_row_order_length. } { rewrite length_fmap. lia. }
    mrun. rewrite old_order_length, length_fmap in Hc, Hlast.
    destruct (chain_ordered _ _ _ _ _ _ _ Hc) as (Ho1 & Ho2 & _).
    destruct (align_spec (old_order rows) rows Hposo Hpos) with (ms := ms) (i := Z.of_nat (length l1)) (j := Z.of_nat (length l1)) (cs := b)
      as (i' & j' & d & n & -> & Hd & Hn & Hind & Hinn).
    { by rewrite old_order_length. } { done. } { by rewrite old_order_length. } { done. } { lia. } { lia. }
    { by rewrite Hbd. } { by rewrite Hbi. }
    mrun. rewrite Hbd in Hind. rewrite Hbi in Hinn. exists d, n.
    assert (Hends : exists m, last ms = Some m /\ (m_i m + m_size m)%Z = Z.of_nat (length rows)
      /\ (m_j m + m_size m)%Z = Z.of_nat (length rows)) by (eexists; split; [done|]; cbn; lia).
    assert (Hg : forall pos, ordered pos (Z.of_nat (length l1)) (Z.of_nat (length rows)) ms ->
      (exists m, last ms = Some m /\ pos m + m_size m = Z.of_nat (length rows))%Z ->
      forall ps, length ps = length rows -> forall x, x ∈ at_pos ps <$> gaps pos (Z.of_nat (length l1)) ms -> x ∈ ps).
    { intros pos Ho He ps Hlen x (k & -> & Hk)%list_elem_of_fmap. eapply gaps_spec in Hk as [Hk _]; [|done..].
      eapply list_elem_of_lookup_2, at_pos_lookup. lia. }
    split_and!; [done|done|done| | | | |].
    + intros x Hx. apply Hind. by left.
    + intros x [?|Hx]%Hind; [by left|]. right. apply old_order_positions. eapply (Hg m_i); [done| | |exact Hx].
      * destruct Hends as (m & ? & ? & ?). by exists m.
      * by rewrite length_fmap, old_order_length.
    + intros x Hx. apply Hinn. by left.
    + intros x [?|Hx]%Hinn; [by left|]. right. eapply (Hg m_j); [done| | |exact Hx].
      * destruct Hends as (m & ? & ? & ?). by exists m.
      * by rewrite length_fmap.
    + intros d' Hd'. eapply (aligned (mkMatch 0 0 (Z.of_nat (length l1)) 0 :: ms)).
      * cbn [chain m_i m_j m_size]. split_and!; [lia|lia| |by rewrite Z.add_0_l]. apply chain_prefix; [lia|].
        intros j q Hj Hq. rewrite Hz, lookup_app_l in Hq by done.
        rewrite Forall_forall in Hall. apply list_elem_of_lookup_2, Hall in Hq. by apply bool_decide_eq_false, dec_stable in Hq.
      * destruct Hends as (m & Hm & ?). exists m. split; [|done]. destruct ms; [done|by rewrite last_cons_cons].
      * intros x. rewrite Hd', Hind. cbn [gaps m_i m_size]. rewrite Z.add_0_l. cbn. tauto.
      * intros x. rewrite Hinn. cbn [gaps m_j m_size]. rewrite Z.add_0_l. cbn. tauto.
Qed.
End result.
End sorted.
