(* ===== verification/UnsortedCalculation.v ===== *)
(** * Collections in table order

    [calculate_moves_unsorted] reports as moved the candidates that rows of
    their own order are in front of; the rows it leaves are in the same order on
    both sides. *)

From S2P Require Import Prelude ChunkedRangeVector ChunkedFacts IndexSet LoopFacts IndexSetFacts IndexSetWalk.
From S2P Require Import AddShiftedFacts ChangeBuilder ChangeFacts ChangeComplete ChangeCalculation.
From S2P Require Import MatchedRows SortedCalculation.

(** The numbers outside of a set. *)
Lemma count_outside `{Build} (d : IndexSet) x (K : list Z) : wf d -> (0 <= x)%Z -> NoDup K ->
  (forall y, y ∈ K <-> (0 <= y < x)%Z /\ y ∉ d) -> (below x (flat d) + Z.of_nat (length K) = x)%Z.
Proof.
  intros [_ [Hok _]] Hx Hnd HK. pose proof (below_count 0 (flat d) (Z.to_nat x) Hok ltac:(lia)) as Hb.
  rewrite Z2Nat.id in Hb by done. rewrite Hb.
  assert (HP : K ≡ₚ filter (λ y, ~ mem y (flat d)) (seqZ 0 x)).
  { apply NoDup_Permutation; [done|apply NoDup_filter, NoDup_seqZ|]. intros y.
    rewrite list_elem_of_filter, elem_of_seqZ, HK, elem_of_flat. intuition lia. }
  rewrite HP. rewrite <- Nat2Z.inj_add, <- length_app, filter_app_complement, length_seqZ. lia.
Qed.

Section unsorted.
Context `{HB : Build} `{HO : StdOrders}.
Variables (prev next : list Z) (rows : list RowInfo) (dels removed ins : IndexSet) (candidates : IndexSet).
Hypothesis Hsh : shared prev next rows dels removed ins.
Hypothesis prev_small : (Z.of_nat (length prev) < npos)%Z.
Hypothesis next_small : (Z.of_nat (length next) < npos)%Z.
Hypothesis candidates_wf : wf candidates.

(** A row that is no candidate stays behind the rows it was behind of. *)
Hypothesis in_place : forall r m, r ∈ rows -> m ∈ rows -> row_index r ∉ candidates ->
  (prev_tv_index m < prev_tv_index r)%Z -> (tv_index m < tv_index r)%Z.

Definition move_of (row : RowInfo) : Move := mkMove (prev_tv_index row) (tv_index row).

(** After the rows [seen]: those of [U] are left, those of [V] moved. *)
Record progress (seen todo U V : list RowInfo) (b0 : CollectionChangeBuilder)
    (st : Z * IndexSet * CollectionChangeBuilder) : Prop := {
  pg_rows : rows = seen ++ todo;
  pg_perm : seen ≡ₚ U ++ V;
  pg_sub : sublist U seen;
  pg_sorted : StronglySorted Z.lt (prev_tv_index <$> U);
  pg_ahead : forall u m, u ∈ U -> m ∈ todo -> (prev_tv_index u < prev_tv_index m)%Z;
  pg_expected : st.1.1 = match last U with Some u => (shifted_tv_index u + 1)%Z | None => 0%Z end;
  pg_wf : wf st.1.2 /\ wf (insertions st.2);
  pg_removed : forall x, x ∈ st.1.2 <-> x ∈ removed \/ x ∈ prev_tv_index <$> V;
  pg_ins : forall x, x ∈ insertions st.2 <-> x ∈ ins \/ x ∈ tv_index <$> V;
  pg_rest : st.2 = set_insertions (insertions st.2) (set_moves (moves b0 ++ (move_of <$> V)) b0);
}.

(** ** Positions and their ranks *)

Lemma rank_live row : row ∈ rows -> exists P : list Z, NoDup P /\ Z.of_nat (length P) = shifted_tv_index row
  /\ forall x, x ∈ P <-> (0 <= x < prev_tv_index row)%Z /\ exists r, prev !! Z.to_nat x = Some r /\ r <> npos.
Proof using Hsh.
  intros Hrow. destruct (sh_live _ _ _ _ _ _ Hsh row Hrow) as (Hs & o & Ho & Htv).
  pose proof (live_rows_sorted prev 0 0) as Hsorted. set (l := tv_index <$> live_rows prev 0 0) in *.
  assert (Hl : l !! Z.to_nat (shifted_tv_index row) = Some (prev_tv_index row)) by (unfold l; by rewrite list_lookup_fmap, Ho, <- Htv).
  pose proof (lookup_lt_Some _ _ _ Hl) as Hlen. exists (take (Z.to_nat (shifted_tv_index row)) l).
  split_and!; [|rewrite length_take; lia|].
  - apply sorted_NoDup in Hsorted. rewrite <- (take_drop (Z.to_nat (shifted_tv_index row)) l) in Hsorted.
    by apply NoDup_app in Hsorted as [? _].
  - intros x. rewrite list_elem_of_lookup. setoid_rewrite lookup_take_Some. split.
    + intros (k & Hk & Hlt). assert (Hx : x ∈ l) by (by eapply list_elem_of_lookup_2).
      apply live_rows_positions in Hx as [Hx (r & Hr & ?)]. rewrite Z.sub_0_r in Hr.
      split; [|by exists r]. split; [done|]. by apply (sorted_lookup l Hsorted k (Z.to_nat (shifted_tv_index row))).
    + intros ([Hx Hlt] & r & Hr & Hnp). assert (Hxl : x ∈ l).
      { apply live_rows_positions. split; [done|]. exists r. by rewrite Z.sub_0_r. }
      apply list_elem_of_lookup_1 in Hxl as [k Hk]. exists k. split; [done|].
      destruct (decide (k < Z.to_nat (shifted_tv_index row))) as [|Hge]; [done|].
      destruct (decide (k = Z.to_nat (shifted_tv_index row))) as [->|]; [rewrite Hl in Hk; injection Hk; lia|].
      pose proof (sorted_lookup l Hsorted (Z.to_nat (shifted_tv_index row)) k _ _ ltac:(lia) Hl Hk). lia.
Qed.

(** The two positions of a row are in the same order as its rank. *)
Lemma shifted_lt x y : x ∈ rows -> y ∈ rows -> (prev_tv_index x < prev_tv_index y)%Z <-> (shifted_tv_index x < shifted_tv_index y)%Z.
Proof using Hsh.
  intros Hx Hy. destruct (sh_live _ _ _ _ _ _ Hsh x Hx) as (Hsx & ox & Hox & Htx).
  destruct (sh_live _ _ _ _ _ _ Hsh y Hy) as (Hsy & oy & Hoy & Hty).
  pose proof (live_rows_sorted prev 0 0) as Hs.
  assert (Hlx : (tv_index <$> live_rows prev 0 0) !! Z.to_nat (shifted_tv_index x) = Some (prev_tv_index x))
    by (by rewrite list_lookup_fmap, Hox, <- Htx).
  assert (Hly : (tv_index <$> live_rows prev 0 0) !! Z.to_nat (shifted_tv_index y) = Some (prev_tv_index y))
    by (by rewrite list_lookup_fmap, Hoy, <- Hty).
  destruct (Z.lt_trichotomy (shifted_tv_index x) (shifted_tv_index y)) as [Hlt|[He|Hlt]].
  - pose proof (sorted_lookup _ Hs (Z.to_nat (shifted_tv_index x)) (Z.to_nat (shifted_tv_index y)) _ _ ltac:(lia) Hlx Hly). lia.
  - rewrite He, Hly in Hlx. injection Hlx. lia.
  - pose proof (sorted_lookup _ Hs (Z.to_nat (shifted_tv_index y)) (Z.to_nat (shifted_tv_index x)) _ _ ltac:(lia) Hly Hlx). lia.
Qed.

(** ** One row *)

Section step.
Variables (seen todo U V : list RowInfo) (row : RowInfo) (b0 : CollectionChangeBuilder).
Variables (expected : Z) (gone : IndexSet) (cs : CollectionChangeBuilder).
Hypothesis Hpg : progress seen (row :: todo) U V b0 (expected, gone, cs).

Lemma row_in : row ∈ rows.
Proof using Hpg. rewrite (pg_rows _ _ _ _ _ _ Hpg). apply elem_of_app. right. by left. Qed.

Lemma seen_in u : u ∈ seen -> u ∈ rows.
Proof using Hpg. intros Hu. rewrite (pg_rows _ _ _ _ _ _ Hpg). apply elem_of_app. by left. Qed.

Lemma todo_in m : m ∈ todo -> m ∈ rows.
Proof using Hpg. intros Hm. rewrite (pg_rows _ _ _ _ _ _ Hpg). apply elem_of_app. right. by right. Qed.

Lemma left_in u : u ∈ U -> u ∈ seen.
Proof using Hpg. intros Hu. rewrite (pg_perm _ _ _ _ _ _ Hpg). apply elem_of_app. by left. Qed.

Lemma gone_in u : u ∈ V -> u ∈ seen.
Proof using Hpg. intros Hu. rewrite (pg_perm _ _ _ _ _ _ Hpg). apply elem_of_app. by right. Qed.

(** The new positions before the row's are those of the rows seen. *)
Lemma tv_split u : u ∈ rows -> (tv_index u < tv_index row)%Z <-> u ∈ seen.
Proof using Hpg Hsh.
  pose proof (sh_sorted _ _ _ _ _ _ Hsh) as Hs. rewrite (pg_rows _ _ _ _ _ _ Hpg) in Hs |- *.
  rewrite fmap_app in Hs. apply StronglySorted_app in Hs as (Hc & _ & Hs). intros Hu. split.
  - intros Hlt. apply elem_of_app in Hu as [?|[->|Hu]%elem_of_cons]; [done|lia|].
    inversion Hs as [|? ? _ Hall]; subst. rewrite Forall_fmap, Forall_forall in Hall.
    specialize (Hall u Hu). cbn in Hall. lia.
  - intros Hin. apply Hc; [by apply list_elem_of_fmap_2|by left].
Qed.

Lemma from_inj x y : x ∈ rows -> y ∈ rows -> prev_tv_index x = prev_tv_index y -> x = y.
Proof using Hsh.
  intros Hx Hy He. apply list_elem_of_lookup_1 in Hx as [i Hi], Hy as [j Hj].
  assert (i = j) as ->; [|congruence].
  eapply (NoDup_lookup _ i j (prev_tv_index x) (sh_from _ _ _ _ _ _ Hsh)); rewrite list_lookup_fmap; [by rewrite Hi|by rewrite Hj, He].
Qed.

Lemma todo_neq m : m ∈ todo -> prev_tv_index m <> prev_tv_index row.
Proof using Hpg Hsh.
  intros Hm He. pose proof (todo_in m Hm). apply from_inj in He; [|done|apply row_in]. subst m.
  pose proof (sh_from _ _ _ _ _ _ Hsh) as Hnd. rewrite (pg_rows _ _ _ _ _ _ Hpg), fmap_app in Hnd.
  apply NoDup_app in Hnd as (_ & _ & Hnd). cbn in Hnd. apply NoDup_cons in Hnd as [Hn _]. apply Hn. by apply list_elem_of_fmap_2.
Qed.

Lemma left_gone u : u ∈ U -> u ∈ V -> False.
Proof using Hpg Hsh.
  intros Hu Hv. pose proof (sh_from _ _ _ _ _ _ Hsh) as Hnd. rewrite (pg_rows _ _ _ _ _ _ Hpg), fmap_app in Hnd.
  apply NoDup_app in Hnd as (Hnd & _ & _). rewrite (pg_perm _ _ _ _ _ _ Hpg), fmap_app in Hnd.
  apply NoDup_app in Hnd as (_ & Hd & _). apply (Hd (prev_tv_index u)); by apply list_elem_of_fmap_2.
Qed.

(** The row is left where it is: nothing still to come is in front of it. *)
Lemma leave_row : (forall m, m ∈ todo -> (prev_tv_index row < prev_tv_index m)%Z) ->
  progress (seen ++ [row]) todo (U ++ [row]) V b0 (shifted_tv_index row + 1, gone, cs)%Z.
Proof using Hpg.
  intros Hahead. destruct Hpg as [Hr Hp Hsub Hs Ha He Hwf Hrm Hi Hrest]. split; cbn [fst snd] in *; try done.
  - by rewrite <- app_assoc.
  - rewrite Hp, <- !app_assoc. apply Permutation_app_head. apply Permutation_app_comm.
  - by apply sublist_app.
  - rewrite fmap_app. apply StronglySorted_app_2; [|done|repeat constructor].
    intros x y (u & -> & Hu)%list_elem_of_fmap Hy. cbn in Hy. apply list_elem_of_singleton in Hy as ->. apply Ha; [done|by left].
  - intros u m [Hu|Hu]%elem_of_app Hm; [apply Ha; [done|by right]|]. apply list_elem_of_singleton in Hu as ->. by apply Hahead.
  - by rewrite last_snoc.
Qed.

(** The row moves. *)
Lemma move_row gone' ins' : wf gone' -> wf ins' ->
  (forall x, x ∈ gone' <-> x ∈ gone \/ x = prev_tv_index row) -> (forall x, x ∈ ins' <-> x ∈ insertions cs \/ x = tv_index row) ->
  progress (seen ++ [row]) todo U (V ++ [row]) b0
    (expected, gone', set_insertions ins' (set_moves (moves cs ++ [move_of row]) cs)).
Proof using Hpg.
  intros Hwg Hwi Hing Hini. destruct Hpg as [Hr Hp Hsub Hs Ha He Hwf Hrm Hi Hrest]. split; cbn [fst snd] in *; try done.
  - by rewrite <- app_assoc.
  - by rewrite Hp, <- app_assoc.
  - rewrite <- (app_nil_r U). by apply sublist_app; [|apply sublist_nil_l].
  - intros u m Hu Hm. apply Ha; [done|by right].
  - intros x. rewrite Hing, Hrm, fmap_app, elem_of_app. cbn. rewrite elem_of_cons, elem_of_nil. tauto.
  - intros x. cbn [insertions set_insertions]. rewrite Hini, Hi, fmap_app, elem_of_app. cbn. rewrite elem_of_cons, elem_of_nil. tauto.
  - rewrite Hrest. cbn. rewrite fmap_app, app_assoc. cbn. by destruct b0.
Qed.

(** ** The counts *)

Lemma row_bounds : (0 <= tv_index row < npos)%Z /\ (0 <= prev_tv_index row < npos)%Z
  /\ (0 <= shifted_tv_index row <= prev_tv_index row)%Z.
Proof using Hpg Hsh prev_small next_small.
  pose proof row_in as Hrow. destruct (sh_prev _ _ _ _ _ _ Hsh row Hrow) as (? & ?%lookup_lt_Some & _).
  destruct (sh_next _ _ _ _ _ _ Hsh row Hrow) as (? & ?%lookup_lt_Some). split_and!; [lia..| |].
  - apply (sh_live _ _ _ _ _ _ Hsh row Hrow).
  - destruct (rank_live row Hrow) as (P & Hnd & <- & HP).
    assert (Hsub : P ⊆+ seqZ 0 (prev_tv_index row)).
    { apply NoDup_submseteq; [done|]. intros x Hx. apply elem_of_seqZ. apply HP in Hx as [? _]. lia. }
    apply submseteq_length in Hsub. rewrite length_seqZ in Hsub. lia.
Qed.

Lemma insertions_before : (below (tv_index row) (flat (insertions cs)) + Z.of_nat (length U) = tv_index row)%Z.
Proof using Hpg Hsh prev_small next_small.
  rewrite <- (length_fmap tv_index U). destruct row_bounds as (Htv & _). pose proof row_in as Hrow.
  apply count_outside; [apply (pg_wf _ _ _ _ _ _ Hpg)|lia| |].
  - pose proof (sorted_NoDup _ (sh_sorted _ _ _ _ _ _ Hsh)) as Hnd. rewrite (pg_rows _ _ _ _ _ _ Hpg), fmap_app in Hnd.
    apply NoDup_app in Hnd as (Hnd & _ & _). rewrite (pg_perm _ _ _ _ _ _ Hpg), fmap_app in Hnd. by apply NoDup_app in Hnd as [? _].
  - pose proof (sorted_NoDup _ (sh_sorted _ _ _ _ _ _ Hsh)) as Hnd.
    assert (Hinj : forall x y, x ∈ rows -> y ∈ rows -> tv_index x = tv_index y -> x = y).
    { intros x y Hx Hy He. apply list_elem_of_lookup_1 in Hx as [i Hi], Hy as [j Hj]. assert (i = j) as ->; [|congruence].
      eapply (NoDup_lookup _ i j (tv_index x) Hnd); rewrite list_lookup_fmap; [by rewrite Hi|by rewrite Hj, He]. }
    destruct (sh_next _ _ _ _ _ _ Hsh row Hrow) as [_ Hlt%lookup_lt_Some].
    intros y. rewrite (pg_ins _ _ _ _ _ _ Hpg), (sh_ins _ _ _ _ _ _ Hsh). split.
    + intros (u & -> & Hu)%list_elem_of_fmap. pose proof (seen_in u (left_in u Hu)) as Hur.
      pose proof (proj2 (tv_split u Hur) (left_in u Hu)). destruct (sh_next _ _ _ _ _ _ Hsh u Hur) as [? _].
      split; [lia|]. intros [[_ Hn]|(v & Hv & HvV)%list_elem_of_fmap].
      * apply Hn. by apply list_elem_of_fmap_2.
      * apply Hinj in Hv; [subst v; by eapply left_gone|done|by apply seen_in, gone_in].
    + intros [Hy Hn]. destruct (decide (y ∈ tv_index <$> rows)) as [(u & -> & Hu)%list_elem_of_fmap|Hyr].
      * assert (Hus : u ∈ seen) by (apply tv_split; [done|lia]). rewrite (pg_perm _ _ _ _ _ _ Hpg) in Hus.
        apply elem_of_app in Hus as [Hus|Hus]; [by apply list_elem_of_fmap_2|]. destruct Hn. right. by apply list_elem_of_fmap_2.
      * destruct Hn. left. split; [lia|done].
Qed.

(** The old positions before the row's: those gone, those left and those to come. *)
Lemma removed_before : exists Q : list Z, NoDup Q
  /\ (below (prev_tv_index row) (flat gone) + Z.of_nat (length Q) = shifted_tv_index row)%Z
  /\ forall x, x ∈ Q <-> x ∈ prev_tv_index <$> U \/ (x ∈ prev_tv_index <$> todo /\ (x < prev_tv_index row)%Z).
Proof using Hpg Hsh prev_small next_small.
  pose proof row_in as Hrow. destruct (rank_live row Hrow) as (P & Hnd & Hlen & HP). destruct row_bounds as (_ & Hpr & _).
  pose proof (pg_wf _ _ _ _ _ _ Hpg) as [[_ [Hok _]] _]. cbn in Hok.
  assert (Hlive : forall x, x ∈ gone -> (0 <= x)%Z /\ exists r, prev !! Z.to_nat x = Some r /\ r <> npos).
  { intros x [Hx|(v & -> & Hv)%list_elem_of_fmap]%(pg_removed _ _ _ _ _ _ Hpg).
    - by apply (sh_removed _ _ _ _ _ _ Hsh) in Hx as (? & ? & _).
    - destruct (sh_prev _ _ _ _ _ _ Hsh v (seen_in v (gone_in v Hv))) as (? & ? & ?). split; [done|]. by eexists. }
  exists (filter (λ x, ~ mem x (flat gone)) P). split_and!; [by apply NoDup_filter| |].
  - pose proof (below_count 0 (flat gone) (Z.to_nat (prev_tv_index row)) Hok ltac:(lia)) as Hb.
    rewrite Z2Nat.id in Hb by lia. rewrite Hb. rewrite <- Hlen.
    assert (filter (λ x, mem x (flat gone)) (seqZ 0 (prev_tv_index row)) ≡ₚ filter (λ x, mem x (flat gone)) P) as ->.
    { apply NoDup_Permutation; [apply NoDup_filter, NoDup_seqZ|by apply NoDup_filter|]. intros x.
      rewrite !list_elem_of_filter, elem_of_seqZ, HP. split; [|intuition lia]. intros [Hm Hx].
      split; [done|]. split; [lia|]. by apply Hlive. }
    rewrite <- Nat2Z.inj_add, <- length_app, filter_app_complement. done.
  - intros x. rewrite list_elem_of_filter, HP, <- elem_of_flat. rewrite (pg_removed _ _ _ _ _ _ Hpg), (sh_removed _ _ _ _ _ _ Hsh).
    split.
    + intros [Hn [Hx Hr]]. destruct (decide (x ∈ prev_tv_index <$> rows)) as [Hxr|Hxr]; [|destruct Hn; left; by split_and!; [lia|..]].
      rewrite (pg_rows _ _ _ _ _ _ Hpg), (pg_perm _ _ _ _ _ _ Hpg), !fmap_app, !elem_of_app in Hxr. cbn in Hxr.
      rewrite elem_of_cons in Hxr. destruct Hxr as [[?|?]|[?|?]]; [by left|destruct Hn; by right|lia|right; split; [done|lia]].
    + assert (Hrows : forall m, m ∈ rows -> (m ∈ V -> False) -> (prev_tv_index m < prev_tv_index row)%Z ->
        ¬ ((0 <= prev_tv_index m)%Z /\ (exists r, prev !! Z.to_nat (prev_tv_index m) = Some r /\ r <> npos) /\ prev_tv_index m ∉ prev_tv_index <$> rows
           \/ prev_tv_index m ∈ prev_tv_index <$> V) /\ (0 <= prev_tv_index m < prev_tv_index row)%Z
        /\ exists r, prev !! Z.to_nat (prev_tv_index m) = Some r /\ r <> npos).
      { intros m Hm HmV Hlt. destruct (sh_prev _ _ _ _ _ _ Hsh m Hm) as (? & ? & ?). split; [|split; [lia|by eexists]].
        intros [(_ & _ & Hn)|(v & Hv & HvV)%list_elem_of_fmap]; [by apply Hn, list_elem_of_fmap_2|].
        apply from_inj in Hv; [by subst v; apply HmV|done|by apply seen_in, gone_in]. }
      intros [(u & -> & Hu)%list_elem_of_fmap|[(m & -> & Hm)%list_elem_of_fmap Hlt]].
      * apply Hrows; [by apply seen_in, left_in|by eapply left_gone|]. apply (pg_ahead _ _ _ _ _ _ Hpg); [done|by left].
      * apply Hrows; [by apply todo_in| |done]. intros Hv. pose proof (gone_in m Hv) as Hs.
        pose proof (sh_from _ _ _ _ _ _ Hsh) as Hndr. rewrite (pg_rows _ _ _ _ _ _ Hpg), fmap_app in Hndr.
        apply NoDup_app in Hndr as (_ & Hd & _). apply (Hd (prev_tv_index m)); [by apply list_elem_of_fmap_2|].
        cbn. right. by apply list_elem_of_fmap_2.
Qed.

(** ** The step *)

Lemma ahead_of_todo m : m ∈ todo -> (prev_tv_index m <= prev_tv_index row)%Z -> (prev_tv_index m < prev_tv_index row)%Z.
Proof using Hpg Hsh. intros Hm Hle. pose proof (todo_neq m Hm). lia. Qed.

(** The row is the one after the last that was left. *)
Lemma expected_ahead : shifted_tv_index row = expected -> forall m, m ∈ todo -> (prev_tv_index row < prev_tv_index m)%Z.
Proof using Hpg Hsh.
  intros He m Hm. pose proof (pg_expected _ _ _ _ _ _ Hpg) as Hx. cbn in Hx. rewrite <- He in Hx.
  pose proof (todo_in m Hm) as Hmr. pose proof (todo_neq m Hm). pose proof (shifted_lt m row Hmr row_in) as Hlt.
  destruct (last U) as [u|] eqn:Hu.
  - apply last_Some_elem_of in Hu. pose proof (pg_ahead _ _ _ _ _ _ Hpg u m Hu ltac:(by right)) as Ha.
    apply shifted_lt in Ha; [lia|by apply seen_in, left_in|done].
  - destruct (sh_live _ _ _ _ _ _ Hsh m Hmr) as [? _]. lia.
Qed.

(** A candidate that no row to come is in front of. *)
Lemma calculated_ahead : shifted_tv_index row
    = (tv_index row - below (tv_index row) (flat (insertions cs)) + below (prev_tv_index row) (flat gone))%Z ->
  forall m, m ∈ todo -> (prev_tv_index row < prev_tv_index m)%Z.
Proof using Hpg Hsh prev_small next_small.
  intros He m Hm. pose proof insertions_before. destruct removed_before as (Q & Hnd & Hlen & HQ).
  destruct (decide (prev_tv_index row < prev_tv_index m)%Z) as [|Hge]; [done|].
  pose proof (ahead_of_todo m Hm ltac:(lia)) as Hlt.
  assert (HU : prev_tv_index m :: (prev_tv_index <$> U) ⊆+ Q).
  { apply NoDup_submseteq.
    - apply NoDup_cons. split; [|apply sorted_NoDup, (pg_sorted _ _ _ _ _ _ Hpg)].
      intros (u & Hu & HuU)%list_elem_of_fmap. pose proof (pg_ahead _ _ _ _ _ _ Hpg u m HuU ltac:(by right)). lia.
    - intros x [->|Hx]%elem_of_cons; apply HQ; [right; split; [by apply list_elem_of_fmap_2|done]|by left]. }
  apply submseteq_length in HU. cbn in HU. rewrite length_fmap in HU. lia.
Qed.

Lemma left_rank : (below (prev_tv_index row) (flat gone) + Z.of_nat (length U) <= shifted_tv_index row)%Z.
Proof using Hpg Hsh prev_small next_small.
  destruct removed_before as (Q & Hnd & Hlen & HQ). assert (HU : prev_tv_index <$> U ⊆+ Q).
  { apply NoDup_submseteq; [apply sorted_NoDup, (pg_sorted _ _ _ _ _ _ Hpg)|]. intros x Hx. apply HQ. by left. }
  apply submseteq_length in HU. rewrite length_fmap in HU. lia.
Qed.

Lemma unsorted_step_spec : exists st U' V', unsorted_step candidates row (expected, gone, cs) = Some st
  /\ progress (seen ++ [row]) todo U' V' b0 st.
Proof using Hpg Hsh prev_small next_small candidates_wf in_place.
  destruct row_bounds as (Htv & Hpr & Hshift). pose proof (pg_wf _ _ _ _ _ _ Hpg) as [Hwg Hwi]. cbn in Hwg, Hwi.
  pose proof insertions_before. pose proof left_rank.
  pose proof (below_nonneg (tv_index row) (flat (insertions cs))). pose proof (below_nonneg (prev_tv_index row) (flat gone)).
  unfold unsorted_step. case_bool_decide as He.
  - rewrite <- He. unfold npos in *. rewrite u64_small by lia. eexists _, _, _. split; [done|].
    apply leave_row. by apply expected_ahead.
  - rewrite (contains_spec candidates) by done. mrun. case_bool_decide as Hc; cbn [negb].
    + rewrite !count_zero by (done || lia). mrun. unfold npos in *. autorewrite with u64. rewrite !u64_small by lia.
      case_bool_decide as Hcalc.
      * rewrite <- Hcalc. eexists _, _, _. split; [done|]. apply leave_row. by apply calculated_ahead.
      * destruct (add_spec (insertions cs) (tv_index row) Hwi) as (ins' & Hins & Hwi' & Hini); [unfold npos; lia|].
        cbn [insertions set_moves]. rewrite Hins. mrun.
        destruct (add_spec gone (prev_tv_index row) Hwg) as (gone' & -> & Hwg' & Hing); [unfold npos; lia|]. mrun.
        eexists _, _, _. split; [done|]. by apply move_row.
    + unfold npos in *. rewrite u64_small by lia. eexists _, _, _. split; [done|]. apply leave_row. intros m Hm.
      destruct (decide (prev_tv_index row < prev_tv_index m)%Z) as [|Hge]; [done|].
      assert (Hlt : (tv_index m < tv_index row)%Z).
      { apply in_place; [apply row_in|by apply todo_in|by rewrite elem_of_flat|]. apply ahead_of_todo; [done|lia]. }
      apply tv_split in Hlt; [|by apply todo_in]. pose proof (sh_from _ _ _ _ _ _ Hsh) as Hndr.
      rewrite (pg_rows _ _ _ _ _ _ Hpg), fmap_app in Hndr. apply NoDup_app in Hndr as (_ & Hd & _).
      destruct (Hd (prev_tv_index m)); [by apply list_elem_of_fmap_2|]. cbn. right. by apply list_elem_of_fmap_2.
Qed.
End step.

(** ** The loop *)

Lemma unsorted_loop b0 todo : forall seen U V st, progress seen todo U V b0 st ->
  exists st' U' V', foldM (unsorted_step candidates) todo st = Some st' /\ progress rows [] U' V' b0 st'.
Proof using Hsh prev_small next_small candidates_wf in_place.
  induction todo as [|row todo IH]; intros seen U V st Hpg; cbn [foldM].
  - exists st, U, V. split; [done|]. pose proof (pg_rows _ _ _ _ _ _ Hpg) as Hr. rewrite app_nil_r in Hr. by rewrite <- Hr in Hpg.
  - destruct st as [[expected gone] cs]. destruct (unsorted_step_spec seen todo U V row b0 expected gone cs Hpg)
      as (st & U' & V' & -> & Hpg'). mrun. by eapply IH.
Qed.

Lemma calculate_moves_unsorted_spec b : insertions b = ins ->
  exists gone n V, calculate_moves_unsorted rows removed candidates b
      = Some (gone, set_insertions n (set_moves (moves b ++ (move_of <$> V)) b))
    /\ wf gone /\ wf n /\ V ⊆ rows /\ NoDup (prev_tv_index <$> V) /\ NoDup (tv_index <$> V)
    /\ (forall x, x ∈ gone <-> x ∈ removed \/ x ∈ prev_tv_index <$> V)
    /\ (forall x, x ∈ n <-> x ∈ ins \/ x ∈ tv_index <$> V)
    /\ forall d', (forall x, x ∈ d' <-> x ∈ dels \/ x ∈ gone) -> kept 0 (flat d') prev = kept 0 (flat n) next.
Proof using Hsh prev_small next_small candidates_wf in_place.
  intros Hbi. destruct (sh_wf _ _ _ _ _ _ Hsh) as (_ & Hwr & Hwi). unfold calculate_moves_unsorted.
  destruct (unsorted_loop b rows [] [] [] (0%Z, removed, b)) as ([[expected gone] cs] & U & V & -> & Hpg).
  { split; cbn [fst snd]; try done.
    - constructor.
    - intros u m Hu. by apply not_elem_of_nil in Hu.
    - by rewrite Hbi.
    - intros x. cbn. rewrite elem_of_nil. tauto.
    - intros x. rewrite Hbi. cbn. rewrite elem_of_nil. tauto.
    - cbn. rewrite app_nil_r. by destruct b. }
  mrun. exists gone, (insertions cs), V. pose proof (pg_perm _ _ _ _ _ _ Hpg) as Hp.
  pose proof (pg_removed _ _ _ _ _ _ Hpg) as Hrm. pose proof (pg_ins _ _ _ _ _ _ Hpg) as Hi. cbn [fst snd] in Hrm, Hi.
  assert (HV : V ⊆ rows) by (intros v Hv; rewrite Hp; apply elem_of_app; by right).
  assert (HU : U ⊆ rows) by (intros v Hv; rewrite Hp; apply elem_of_app; by left).
  assert (HndP : NoDup ((prev_tv_index <$> U) ++ (prev_tv_index <$> V))) by (rewrite <- fmap_app, <- Hp; apply (sh_from _ _ _ _ _ _ Hsh)).
  assert (HndT : NoDup ((tv_index <$> U) ++ (tv_index <$> V)))
    by (rewrite <- fmap_app, <- Hp; apply sorted_NoDup, (sh_sorted _ _ _ _ _ _ Hsh)).
  apply NoDup_app in HndP as (_ & HdP & HndV). apply NoDup_app in HndT as (_ & HdT & HndTV).
  split_and!; [f_equal; f_equal; apply (pg_rest _ _ _ _ _ _ Hpg)|apply (pg_wf _ _ _ _ _ _ Hpg)|apply (pg_wf _ _ _ _ _ _ Hpg)|done|done|done|done|done|].
  intros d' Hd'. rewrite (kept_lookups (flat d') prev 0 (prev_tv_index <$> U)), (kept_lookups (flat (insertions cs)) next 0 (tv_index <$> U)).
  - clear -HU Hsh. induction U as [|u U IH]; [done|]. cbn. rewrite !Z.sub_0_r.
    destruct (sh_prev _ _ _ _ _ _ Hsh u) as (_ & -> & _); [apply HU; by left|].
    destruct (sh_next _ _ _ _ _ _ Hsh u) as (_ & ->); [apply HU; by left|]. rewrite IH; [done|].
    intros v Hv. apply HU. by right.
  - pose proof (sh_sorted _ _ _ _ _ _ Hsh) as Hs. pose proof (pg_sub _ _ _ _ _ _ Hpg) as Hsub. clear -Hs Hsub.
    induction Hsub as [|x l1 l2 Hsub IH|x l1 l2 Hsub IH]; [constructor| |]; inversion Hs as [|? ? Hs' Hall]; subst.
    + cbn. constructor; [by apply IH|]. rewrite Forall_fmap, Forall_forall in Hall |- *.
      intros y Hy. apply Hall. eapply elem_of_submseteq; [exact Hy|by apply sublist_submseteq].
    + by apply IH.
  - rewrite Forall_fmap, Forall_forall. intros u Hu. cbn.
    destruct (sh_next _ _ _ _ _ _ Hsh u (HU u Hu)) as (? & ?%lookup_lt_Some). lia.
  - intros x Hx. rewrite <- elem_of_flat, Hi, (sh_ins _ _ _ _ _ _ Hsh). rewrite Hp at 1. rewrite fmap_app, elem_of_app. split.
    + intros [[_ Hn]|HxV] HxU; [apply Hn; by left|by apply (HdT x)].
    + intros HxU. destruct (decide (x ∈ tv_index <$> V)); [by right|left]. split; [lia|]. tauto.
  - apply (pg_sorted _ _ _ _ _ _ Hpg).
  - rewrite Forall_fmap, Forall_forall. intros u Hu. cbn.
    destruct (sh_prev _ _ _ _ _ _ Hsh u (HU u Hu)) as (? & ?%lookup_lt_Some & _). lia.
  - intros x Hx. rewrite <- elem_of_flat, Hd', Hrm, (sh_dels _ _ _ _ _ _ Hsh), (sh_removed _ _ _ _ _ _ Hsh).
    destruct (lookup_lt_is_Some_2 prev (Z.to_nat x)) as [r Hr]; [lia|]. rewrite Hr. rewrite Hp at 1. rewrite fmap_app, elem_of_app. split.
    + intros [[_ [= ->]]|[(_ & _ & Hn)|HxV]] HxU; [|apply Hn; by left|by apply (HdP x)].
      apply list_elem_of_fmap in HxU as (u & -> & Hu). destruct (sh_prev _ _ _ _ _ _ Hsh u (HU u Hu)) as (_ & Hq & Hne). congruence.
    + intros HxU. destruct (decide (r = npos)) as [->|Hne]; [by left; split; [lia|]|right].
      destruct (decide (x ∈ prev_tv_index <$> V)); [by right|left]. split_and!; [lia|by exists r|tauto].
Qed.
End unsorted.
