(* ===== verification/CalculateFacts.v ===== *)
(** * What [calculate] reports

    The deletions and insertions turn the old version of the collection into the
    new one; the modifications are the rows of both versions that changed. *)

From S2P Require Import Prelude ChunkedRangeVector ChunkedFacts IndexSet LoopFacts IndexSetFacts IndexSetWalk.
From S2P Require Import CorrFacts AddShiftedFacts ChangeBuilder ChangeFacts ChangeMove ChangeCompose.
From S2P Require Import ChangeComplete ChangeCalculation TransactInfo TransactLog ListRefinement MatchedRows.
From S2P Require Import SortedCalculation UnsortedCalculation.

Definition distinct_rows (prev : list Z) : Prop := forall i j r,
  prev !! i = Some r -> prev !! j = Some r -> r <> npos -> i = j.

(** The changes [b] are those from [prev] to [next]. *)
Record diff_of `{Build} (prev next : list Z) (changed : Z -> bool) (b : CollectionChangeBuilder) : Prop := {
  df_wf : wf_builder b /\ wf_moves b;
  df_columns : columns b = [];
  df_dels : forall x, x ∈ deletions b -> (0 <= x < Z.of_nat (length prev))%Z;
  df_ins : forall x, x ∈ insertions b -> (0 <= x < Z.of_nat (length next))%Z;
  df_kept : kept 0 (flat (deletions b)) prev = kept 0 (flat (insertions b)) next;
  df_gone : forall x : nat, prev !! x = Some npos -> Z.of_nat x ∈ deletions b;
  df_mods : forall x, x ∈ modifications b -> (0 <= x)%Z
    /\ exists r, next !! Z.to_nat x = Some r /\ r ∈ prev /\ r <> npos /\ changed r = true;
  df_all_mods : NoDup next -> distinct_rows prev -> forall (x : nat) r, next !! x = Some r -> r ∈ prev -> r <> npos ->
    changed r = true -> Z.of_nat x ∈ modifications b;
  df_moves : forall m, m ∈ moves b -> prev !! Z.to_nat (move_from m) = next !! Z.to_nat (move_to m);
}.

Section calculate.
Context `{HB : Build} `{HO : StdOrders}.

Section result.
Variables (prev next : list Z) (rows : list RowInfo) (dels removed ins : IndexSet).
Hypothesis Hsh : shared prev next rows dels removed ins.

Lemma position_lt {A} (l : list A) (x : Z) y : (0 <= x)%Z -> l !! Z.to_nat x = Some y -> (0 <= x < Z.of_nat (length l))%Z.
Proof. intros ? ?%lookup_lt_Some. lia. Qed.

Lemma from_bound x : x ∈ prev_tv_index <$> rows -> (0 <= x < Z.of_nat (length prev))%Z.
Proof using Hsh.
  intros (row & -> & Hrow)%list_elem_of_fmap. destruct (sh_prev _ _ _ _ _ _ Hsh row Hrow) as (? & ? & _). by eapply position_lt.
Qed.

Lemma to_bound x : x ∈ tv_index <$> rows -> (0 <= x < Z.of_nat (length next))%Z.
Proof using Hsh.
  intros (row & -> & Hrow)%list_elem_of_fmap. destruct (sh_next _ _ _ _ _ _ Hsh row Hrow) as (? & ?). by eapply position_lt.
Qed.

Lemma removed_bound x : x ∈ removed -> (0 <= x < Z.of_nat (length prev))%Z.
Proof using Hsh. intros (? & (r & ? & _) & _)%(sh_removed _ _ _ _ _ _ Hsh). by eapply position_lt. Qed.

Lemma dels_bound x : x ∈ dels -> (0 <= x < Z.of_nat (length prev))%Z.
Proof using Hsh. intros (? & ?)%(sh_dels _ _ _ _ _ _ Hsh). by eapply position_lt. Qed.

Lemma ins_bound x : x ∈ ins -> (0 <= x < Z.of_nat (length next))%Z.
Proof using Hsh. by intros [? _]%(sh_ins _ _ _ _ _ _ Hsh). Qed.

(** A row of both versions is a shared one when rows are not repeated. *)
Lemma shared_row (x : nat) r : NoDup next -> distinct_rows prev -> next !! x = Some r -> r ∈ prev -> r <> npos ->
  exists row, row ∈ rows /\ row_index row = r /\ tv_index row = Z.of_nat x.
Proof using Hsh.
  intros Hn Hd Hx [y Hy]%list_elem_of_lookup_1 Hr. pose proof (lookup_lt_Some _ _ _ Hx).
  destruct (decide (Z.of_nat x ∈ tv_index <$> rows)) as [(row & Htv & Hrow)%list_elem_of_fmap|Hxn].
  - exists row. destruct (sh_next _ _ _ _ _ _ Hsh row Hrow) as [_ He]. rewrite <- Htv, Nat2Z.id in He. by split_and!; [|congruence|].
  - assert (Hxi : Z.of_nat x ∈ ins) by (apply (sh_ins _ _ _ _ _ _ Hsh); split; [lia|done]).
    destruct (decide (Z.of_nat y ∈ prev_tv_index <$> rows)) as [(row & Hpv & Hrow)%list_elem_of_fmap|Hyn].
    + destruct (sh_prev _ _ _ _ _ _ Hsh row Hrow) as (_ & He & _). rewrite <- Hpv, Nat2Z.id in He.
      destruct (sh_next _ _ _ _ _ _ Hsh row Hrow) as [? Hen].
      assert (Hxe : Z.to_nat (tv_index row) = x) by (eapply NoDup_lookup; [exact Hn|exact Hen|congruence]).
      exists row. split_and!; [done|congruence|lia].
    + assert (Hyr : Z.of_nat y ∈ removed).
      { apply (sh_removed _ _ _ _ _ _ Hsh). rewrite Nat2Z.id. split_and!; [lia|by exists r|done]. }
      destruct (sh_common _ _ _ _ _ _ Hsh _ _ Hyr Hxi). rewrite !Nat2Z.id. congruence.
Qed.
End result.

(** The parts of the changeset. *)
Lemma diff_from_parts prev next rows dels removed ins changed (d n mods : IndexSet) V :
  shared prev next rows dels removed ins -> wf d -> wf n -> wf mods ->
  (forall x, x ∈ d -> x ∈ dels \/ x ∈ removed \/ x ∈ prev_tv_index <$> rows) -> (forall x, x ∈ dels -> x ∈ d) ->
  (forall x, x ∈ n -> x ∈ ins \/ x ∈ tv_index <$> rows) ->
  kept 0 (flat d) prev = kept 0 (flat n) next ->
  (forall x, x ∈ mods <-> exists row, row ∈ rows /\ tv_index row = x /\ changed (row_index row) = true) ->
  V ⊆ rows -> NoDup (prev_tv_index <$> V) -> NoDup (tv_index <$> V) ->
  (forall v, v ∈ V -> prev_tv_index v ∈ d /\ tv_index v ∈ n) ->
  diff_of prev next changed (set_deletions d (set_insertions n (set_moves (move_of <$> V) (set_modifications mods empty_builder)))).
Proof.
  intros Hsh Hwd Hwn Hwm Hd Hdd Hn Hk Hm HV Hnd1 Hnd2 Hmv. split; cbn.
  - split; [by split|]. split; cbn.
    + rewrite Forall_fmap. apply Forall_forall. exact Hmv.
    + by rewrite <- list_fmap_compose.
    + by rewrite <- list_fmap_compose.
  - done.
  - intros x [?|[?|?]]%Hd; [by eapply dels_bound|by eapply removed_bound|by eapply from_bound].
  - intros x [?|?]%Hn; [by eapply ins_bound|by eapply to_bound].
  - done.
  - intros x Hx. apply Hdd, (sh_dels _ _ _ _ _ _ Hsh). rewrite Nat2Z.id. split; [lia|done].
  - intros x (row & Hrow & <- & Hc)%Hm. destruct (sh_next _ _ _ _ _ _ Hsh row Hrow) as [? Hx].
    destruct (sh_prev _ _ _ _ _ _ Hsh row Hrow) as (_ & Hp & ?). split; [done|]. exists (row_index row).
    split_and!; [done|by eapply list_elem_of_lookup_2|done|done].
  - intros Hnn Hdp x r Hx Hr Hnp Hc. apply Hm. destruct (shared_row prev next rows dels removed ins Hsh x r) as (row & ? & ? & ?); [done..|].
    exists row. split_and!; [done..|congruence].
  - intros m (v & -> & Hv)%list_elem_of_fmap. cbn. destruct (sh_next _ _ _ _ _ _ Hsh v (HV v Hv)) as [_ ->].
    by destruct (sh_prev _ _ _ _ _ _ Hsh v (HV v Hv)) as (_ & -> & _).
Qed.

(** ** The checks of the debug build *)

Lemma diff_debug_check prev next changed b : diff_of prev next changed b ->
  (if realm_debug then
     rows ← apply_changes prev next (deletions b) (insertions b);
     REALM_ASSERT (bool_decide (rows = next))
   else Some tt) = Some tt.
Proof.
  intros Hb. destruct realm_debug; [|done]. destruct (df_wf _ _ _ _ Hb) as [[? ? _ _] _].
  rewrite (apply_changes_spec prev next (deletions b) (insertions b)); [|done..| | |].
  - mrun. by apply REALM_ASSERT_decide.
  - intros x Hx%(df_dels _ _ _ _ Hb). lia.
  - intros x Hx%(df_ins _ _ _ _ Hb). lia.
  - apply (df_kept _ _ _ _ Hb).
Qed.

(** The rows that are tracked are the same, also the moved ones. *)
Lemma diff_tracks prev next changed b x y : diff_of prev next changed b -> tracks b x y ->
  ((x < Z.of_nat (length prev))%Z <-> (y < Z.of_nat (length next))%Z)
  /\ ((y < Z.of_nat (length next))%Z -> next !! Z.to_nat y = prev !! Z.to_nat x).
Proof.
  intros Hb Ht. destruct (df_wf _ _ _ _ Hb) as [[[_ [HD _]] [_ [HI _]] _ _] [Hmv _ _]]. destruct Ht as [(Hx & Hy & HxD & HyI & Hr)|Hm].
  - pose proof (kept_length (flat (deletions b)) prev HD) as Hl1. pose proof (kept_length (flat (insertions b)) next HI) as Hl2.
    rewrite (df_kept _ _ _ _ Hb), Hl2 in Hl1.
    assert (Hlt : (x < Z.of_nat (length prev))%Z <-> (y < Z.of_nat (length next))%Z).
    { rewrite <- (rank_lt_iff _ HD x), <- (rank_lt_iff _ HI y), Hr, Hl1; [done|done| |done|].
      - intros He%elem_of_flat%(df_ins _ _ _ _ Hb). lia.
      - intros He%elem_of_flat%(df_dels _ _ _ _ Hb). lia. }
    split; [done|]. intros Hyl. rewrite <- (kept_rank _ _ _ HI), <- (kept_rank _ prev x HD) by (done || lia).
    by rewrite Hr, (df_kept _ _ _ _ Hb).
  - rewrite Forall_forall in Hmv. destruct (Hmv _ Hm) as [Hd Hi]. apply (df_dels _ _ _ _ Hb) in Hd. apply (df_ins _ _ _ _ Hb) in Hi.
    cbn in Hd, Hi. split; [lia|]. intros _. symmetry. apply (df_moves _ _ _ _ Hb _ Hm).
Qed.

Lemma diff_explains prev next changed b : diff_of prev next changed b -> explains b prev next.
Proof.
  intros Hb. destruct (df_wf _ _ _ _ Hb) as [Hwf Hmv]. split; [split|]; try done.
  - apply (df_columns _ _ _ _ Hb).
  - intros x Hx%(df_dels _ _ _ _ Hb). lia.
  - intros x Hx%(df_ins _ _ _ _ Hb). lia.
  - intros x (? & r & ?%lookup_lt_Some & _)%(df_mods _ _ _ _ Hb). lia.
  - intros x y Ht. by apply (diff_tracks prev next changed b).
  - intros x y Ht Hy. right. by apply (diff_tracks prev next changed b).
Qed.

(** ** Both kinds of collections *)

Section run.
Context {St : Type}.
Variables (prev next : list Z) (row_did_change : Z -> St -> option (St * bool)) (st : St).
Variables (Inv : St -> Prop) (changed : Z -> bool).
Hypothesis prev_small : (Z.of_nat (length prev) < npos)%Z.
Hypothesis next_small : (Z.of_nat (length next) < npos)%Z.
Hypothesis Hinv : Inv st.
Hypothesis Hchanged : forall r st, r ∈ next -> Inv st -> exists st', row_did_change r st = Some (st', changed r) /\ Inv st'.

(** The part of [calculate] before it looks for moves. *)
Lemma calculate_start : exists dels rows removed ins mods, shared prev next rows dels removed ins /\ wf mods
  /\ (forall x, x ∈ mods <-> exists row, row ∈ rows /\ tv_index row = x /\ changed (row_index row) = true)
  /\ forall candidates, calculate prev next row_did_change st candidates = (
      _ ← REALM_ASSERT_DEBUG (bool_decide (candidates = None) || is_sorted next);
      let b := set_modifications mods (set_insertions ins (set_deletions dels empty_builder)) in
      '(removed, ret) ← (match candidates with
        | Some candidates => calculate_moves_unsorted rows removed candidates b
        | None => ret ← calculate_moves_sorted rows b; Some (removed, ret)
        end);
      dels ← add_all (deletions ret) removed;
      let ret := set_deletions dels ret in
      _ ← verify_moves ret;
      _ ← (if realm_debug then
             rows ← apply_changes prev next (deletions ret) (insertions ret);
             REALM_ASSERT (bool_decide (rows = next))
           else Some tt);
      Some ret).
Proof using prev_small next_small Hinv Hchanged.
  destruct (matched_rows_spec prev next prev_small next_small) as (dels & rows & removed & ins & Hc & Hm & Hsh).
  destruct (mark_changed_spec row_did_change Inv changed (std_sort by_tv (filter (λ row, prev_tv_index row ≠ npos) rows)) [] st)
    as (mods & st' & Hmods & Hwm & Hin).
  { intros row st' Hrow. apply Hchanged. destruct (sh_next _ _ _ _ _ _ Hsh row Hrow) as [_ ?]. by eapply list_elem_of_lookup_2. }
  { apply Forall_forall. intros row Hrow. destruct (sh_next _ _ _ _ _ _ Hsh row Hrow) as [? ?%lookup_lt_Some]. lia. }
  { done. } { apply wf_nil. }
  eexists dels, _, removed, ins, mods. split_and!; [exact Hsh|done| |].
  { intros x. rewrite Hin, elem_of_flat. cbn. rewrite mem_nil. tauto. }
  intros candidates. unfold calculate. destruct (REALM_ASSERT_DEBUG _) as [[]|]; [|done]. mrun.
  rewrite Hc. mrun. unfold by_row, new_rows_of in Hm. rewrite Hm. mrun.
  unfold by_tv in Hmods. unfold mark_changed. rewrite Hmods. by mrun.
Qed.

Lemma calculate_sorted_spec : exists b, calculate prev next row_did_change st None = Some b
  /\ diff_of prev next changed b /\ moves b = [].
Proof using prev_small next_small Hinv Hchanged.
  destruct calculate_start as (dels & rows & removed & ins & mods & Hsh & Hwm & Hmods & ->).
  rewrite REALM_ASSERT_DEBUG_true by done. mrun. destruct (sh_wf _ _ _ _ _ _ Hsh) as (Hwd & Hwr & Hwi).
  destruct (calculate_moves_sorted_spec prev next rows dels removed ins Hsh prev_small next_small
    (set_modifications mods (set_insertions ins (set_deletions dels empty_builder))))
    as (d & n & -> & Hd & Hn & Hdd & Hdin & Hnn & Hnin & Hk); [done..|]. mrun.
  destruct (add_all_spec d removed Hd Hwr) as (d' & Hadd & Hd' & Hin). match goal with |- context [add_all ?x removed] => change x with d end. rewrite Hadd. mrun.
  assert (Hdf : diff_of prev next changed
    (set_deletions d' (set_insertions n (set_moves (move_of <$> []) (set_modifications mods empty_builder))))).
  { apply (diff_from_parts prev next rows dels removed ins); try done.
    - intros x [[?|?]%Hdin|?]%Hin; tauto.
    - intros x Hx. apply Hin. left. by apply Hdd.
    - by apply Hk.
    - intros v Hv. by apply not_elem_of_nil in Hv.
    - constructor. - constructor.
    - intros v Hv. by apply not_elem_of_nil in Hv. }
  change (set_deletions d' (set_insertions n (set_deletions d (set_modifications mods (set_insertions ins (set_deletions dels empty_builder))))))
    with (set_deletions d' (set_insertions n (set_moves (move_of <$> []) (set_modifications mods empty_builder)))).
  rewrite verify_moves_spec by apply (df_wf _ _ _ _ Hdf). mrun.
  rewrite (diff_debug_check prev next changed) by done. mrun. by eexists.
Qed.

(** What the changes of a collection in table order contain besides. *)
Lemma calculate_unsorted_spec candidates : wf candidates -> Sorted Z.le next ->
  (forall r r' (i i' j j' : nat), prev !! i = Some r -> prev !! i' = Some r' -> next !! j = Some r -> next !! j' = Some r' ->
    r ∉ candidates -> i' < i -> j' < j) ->
  exists b, calculate prev next row_did_change st (Some candidates) = Some b /\ diff_of prev next changed b
    /\ (NoDup next -> distinct_rows prev -> forall x, x ∈ insertions b ->
          (exists r, next !! Z.to_nat x = Some r /\ (r ∈ prev -> r = npos)) \/ x ∈ move_to <$> moves b)
    /\ (NoDup next -> distinct_rows prev -> forall x, x ∈ deletions b ->
          (exists r, prev !! Z.to_nat x = Some r /\ (r ∈ next -> r = npos)) \/ x ∈ move_from <$> moves b).
Proof using prev_small next_small Hinv Hchanged.
  intros Hwc Hsorted Hplace. destruct calculate_start as (dels & rows & removed & ins & mods & Hsh & Hwm & Hmods & ->).
  rewrite REALM_ASSERT_DEBUG_true by (unfold is_sorted; by rewrite (bool_decide_true (Sorted _ _)), orb_true_r).
  mrun. destruct (sh_wf _ _ _ _ _ _ Hsh) as (Hwd & Hwr & Hwi).
  destruct (calculate_moves_unsorted_spec prev next rows dels removed ins candidates Hsh prev_small next_small Hwc) with
    (b := set_modifications mods (set_insertions ins (set_deletions dels empty_builder)))
    as (gone & n & V & -> & Hg & Hn & HV & Hnd1 & Hnd2 & Hgin & Hnin & Hk); [|done|].
  { intros r m Hr Hm Hc Hlt. destruct (sh_prev _ _ _ _ _ _ Hsh r Hr) as (? & Hpr & _), (sh_prev _ _ _ _ _ _ Hsh m Hm) as (? & Hpm & _).
    destruct (sh_next _ _ _ _ _ _ Hsh r Hr) as (? & Hnr), (sh_next _ _ _ _ _ _ Hsh m Hm) as (? & Hnm).
    pose proof (Hplace _ _ _ _ _ _ Hpr Hpm Hnr Hnm Hc). lia. }
  mrun. cbn [moves set_modifications set_insertions set_deletions empty_builder app].
  destruct (add_all_spec dels gone Hwd Hg) as (d' & Hadd & Hd' & Hin). match goal with |- context [add_all ?x gone] => change x with dels end. rewrite Hadd. mrun.
  assert (Hdf : diff_of prev next changed
    (set_deletions d' (set_insertions n (set_moves (move_of <$> V) (set_modifications mods empty_builder))))).
  { apply (diff_from_parts prev next rows dels removed ins); try done.
    - intros x [?|[?|(v & -> & Hv)%list_elem_of_fmap]%Hgin]%Hin; [tauto|tauto|]. right. right. by apply list_elem_of_fmap_2, HV.
    - intros x Hx. apply Hin. by left.
    - intros x [?|(v & -> & Hv)%list_elem_of_fmap]%Hnin; [by left|right]. by apply list_elem_of_fmap_2, HV.
    - by apply Hk.
    - intros v Hv. split; [apply Hin; right; apply Hgin|apply Hnin]; right; by apply list_elem_of_fmap_2. }
  match goal with |- context [verify_moves ?b] =>
    change b with (set_deletions d' (set_insertions n (set_moves (move_of <$> V) (set_modifications mods empty_builder)))) end.
  rewrite verify_moves_spec by apply (df_wf _ _ _ _ Hdf). mrun.
  rewrite (diff_debug_check prev next changed) by done. mrun. eexists. split_and!; [done|done|..]; cbn.
  - intros Hnn Hdp x [Hx|Hx]%Hnin; [left|right; by rewrite <- list_fmap_compose].
    apply (sh_ins _ _ _ _ _ _ Hsh) in Hx as [Hx Hnx]. destruct (lookup_lt_is_Some_2 next (Z.to_nat x)) as [r Hr]; [lia|].
    exists r. split; [done|]. intros Hrp. destruct (decide (r = npos)) as [|Hne]; [done|]. destruct Hnx.
    destruct (shared_row prev next rows dels removed ins Hsh (Z.to_nat x) r) as (row & Hrow & _ & Htv); [done..|].
    rewrite Z2Nat.id in Htv by lia. rewrite <- Htv. by apply list_elem_of_fmap_2.
  - intros Hnn Hdp x [Hx|[Hx|Hx]%Hgin]%Hin; [left|left|right; by rewrite <- list_fmap_compose].
    + apply (sh_dels _ _ _ _ _ _ Hsh) in Hx as [_ Hx]. by exists npos.
    + apply (sh_removed _ _ _ _ _ _ Hsh) in Hx as (Hx & (r & Hr & Hne) & Hxn). exists r. split; [done|].
      intros [y Hy]%list_elem_of_lookup_1. destruct (shared_row prev next rows dels removed ins Hsh y r) as (row & Hrow & He & _);
        [done..|by eapply list_elem_of_lookup_2|done|].
      destruct Hxn. destruct (sh_prev _ _ _ _ _ _ Hsh row Hrow) as (? & Hp & _). rewrite He in Hp.
      assert (x = prev_tv_index row) as -> by (pose proof (Hdp _ _ _ Hr Hp Hne); lia). by apply list_elem_of_fmap_2.
Qed.
End run.
End calculate.
