(* ===== verification/CollectionNotifier.v ===== *)
(** * Collection notifiers and their callbacks

    [CollectionNotifier] and [NotifierPackage] (impl/collection_notifier.cpp,
    impl/collection_notifier.hpp) and [NotificationToken]
    (collection_notifications.cpp): callbacks are registered, removed and called,
    also from within a callback. *)

From S2P Require Import Prelude ChunkedRangeVector IndexSet ChangeBuilder.

(** ** Data *)

Definition empty_changeset : CollectionChangeSet := mkChangeSet [] [] [] [] [] [].

(** [CollectionChangeSet::empty] *)
Definition changeset_empty (c : CollectionChangeSet) : bool :=
  bool_decide (cs_deletions c = []) && bool_decide (cs_insertions c = [])
  && bool_decide (cs_modifications c = []) && bool_decide (cs_modifications_new c = [])
  && bool_decide (cs_moves c = []).

(** A callback function is a number; [None] is a null [CollectionChangeCallback],
    which cannot be called. *)
Record Callback := mkCallback {
  fn : option Z;
  accumulated_changes : CollectionChangeBuilder;
  changes_to_deliver : CollectionChangeSet;
  token : Z;
  initial_delivered : bool;
  skip_next : bool;
}.

Definition set_fn (x : option Z) (c : Callback) : Callback :=
  mkCallback x (accumulated_changes c) (changes_to_deliver c) (token c) (initial_delivered c) (skip_next c).
Definition set_accumulated (x : CollectionChangeBuilder) (c : Callback) : Callback :=
  mkCallback (fn c) x (changes_to_deliver c) (token c) (initial_delivered c) (skip_next c).
Definition set_to_deliver (x : CollectionChangeSet) (c : Callback) : Callback :=
  mkCallback (fn c) (accumulated_changes c) x (token c) (initial_delivered c) (skip_next c).
Definition set_initial_delivered (c : Callback) : Callback :=
  mkCallback (fn c) (accumulated_changes c) (changes_to_deliver c) (token c) true (skip_next c).
Definition set_skip_next (x : bool) (c : Callback) : Callback :=
  mkCallback (fn c) (accumulated_changes c) (changes_to_deliver c) (token c) (initial_delivered c) x.

(** The calls of user code. *)
Inductive call :=
  | call_before (f : Z) (changes : CollectionChangeSet)
  | call_after (f : Z) (changes : CollectionChangeSet)
  | call_error (f : Z) (error : Z).

(** The notifier. [m_realm] says whether there still is a Realm, [m_sg] whether
    a [SharedGroup] is attached; [wakeups] counts the calls of
    [wake_up_notifier_worker], [calls] are those of user code so far. *)
Record notifier := mkNotifier {
  m_realm : bool;
  m_sg_version : Z;
  m_sg : bool;
  m_has_run : bool;
  m_error : bool;
  m_callbacks : list Callback;
  m_have_callbacks : bool;
  m_callback_index : Z;
  m_callback_count : Z;
  m_next_token : Z;
  wakeups : nat;
  calls : list call;
}.

Definition new_notifier (version : Z) : notifier :=
  mkNotifier true version false false false [] false npos npos 0 0 [].

Definition set_realm (x : bool) (n : notifier) : notifier :=
  mkNotifier x (m_sg_version n) (m_sg n) (m_has_run n) (m_error n) (m_callbacks n) (m_have_callbacks n)
    (m_callback_index n) (m_callback_count n) (m_next_token n) (wakeups n) (calls n).
Definition set_version (x : Z) (n : notifier) : notifier :=
  mkNotifier (m_realm n) x (m_sg n) (m_has_run n) (m_error n) (m_callbacks n) (m_have_callbacks n)
    (m_callback_index n) (m_callback_count n) (m_next_token n) (wakeups n) (calls n).
Definition set_sg (x : bool) (n : notifier) : notifier :=
  mkNotifier (m_realm n) (m_sg_version n) x (m_has_run n) (m_error n) (m_callbacks n) (m_have_callbacks n)
    (m_callback_index n) (m_callback_count n) (m_next_token n) (wakeups n) (calls n).
Definition set_has_run (n : notifier) : notifier :=
  mkNotifier (m_realm n) (m_sg_version n) (m_sg n) true (m_error n) (m_callbacks n) (m_have_callbacks n)
    (m_callback_index n) (m_callback_count n) (m_next_token n) (wakeups n) (calls n).
Definition set_error (n : notifier) : notifier :=
  mkNotifier (m_realm n) (m_sg_version n) (m_sg n) (m_has_run n) true (m_callbacks n) (m_have_callbacks n)
    (m_callback_index n) (m_callback_count n) (m_next_token n) (wakeups n) (calls n).
Definition set_callbacks (x : list Callback) (n : notifier) : notifier :=
  mkNotifier (m_realm n) (m_sg_version n) (m_sg n) (m_has_run n) (m_error n) x (m_have_callbacks n)
    (m_callback_index n) (m_callback_count n) (m_next_token n) (wakeups n) (calls n).
Definition set_have_callbacks (x : bool) (n : notifier) : notifier :=
  mkNotifier (m_realm n) (m_sg_version n) (m_sg n) (m_has_run n) (m_error n) (m_callbacks n) x
    (m_callback_index n) (m_callback_count n) (m_next_token n) (wakeups n) (calls n).
Definition set_index (x : Z) (n : notifier) : notifier :=
  mkNotifier (m_realm n) (m_sg_version n) (m_sg n) (m_has_run n) (m_error n) (m_callbacks n) (m_have_callbacks n)
    x (m_callback_count n) (m_next_token n) (wakeups n) (calls n).
Definition set_count (x : Z) (n : notifier) : notifier :=
  mkNotifier (m_realm n) (m_sg_version n) (m_sg n) (m_has_run n) (m_error n) (m_callbacks n) (m_have_callbacks n)
    (m_callback_index n) x (m_next_token n) (wakeups n) (calls n).
Definition set_next_token (x : Z) (n : notifier) : notifier :=
  mkNotifier (m_realm n) (m_sg_version n) (m_sg n) (m_has_run n) (m_error n) (m_callbacks n) (m_have_callbacks n)
    (m_callback_index n) (m_callback_count n) x (wakeups n) (calls n).
Definition wake_up_notifier_worker (n : notifier) : notifier :=
  mkNotifier (m_realm n) (m_sg_version n) (m_sg n) (m_has_run n) (m_error n) (m_callbacks n) (m_have_callbacks n)
    (m_callback_index n) (m_callback_count n) (m_next_token n) (S (wakeups n)) (calls n).
Definition log_call (c : call) (n : notifier) : notifier :=
  mkNotifier (m_realm n) (m_sg_version n) (m_sg n) (m_has_run n) (m_error n) (m_callbacks n) (m_have_callbacks n)
    (m_callback_index n) (m_callback_count n) (m_next_token n) (wakeups n) (calls n ++ [c]).

Definition on_callback (f : Callback -> Callback) (idx : nat) (n : notifier) : notifier :=
  set_callbacks (alter f idx (m_callbacks n)) n.

(** What [Realm::verify_thread] and [Realm::verify_in_write] look at. *)
Record RealmState := mkRealmState { on_its_thread : bool; in_write : bool }.
Inductive realm_error := IncorrectThreadException | InvalidTransactionException.

Definition verify_thread (r : RealmState) : realm_error + unit :=
  if on_its_thread r then inr tt else inl IncorrectThreadException.
(** [verify_in_write] throws [InvalidTransactionException]. *)
Definition verify_in_write (r : RealmState) : realm_error + unit :=
  if in_write r then inr tt else inl InvalidTransactionException.

Section notifier.
Context `{Build}.

(** ** Registering callbacks *)

(** The token is returned unless the Realm throws. *)
Definition add_callback (r : RealmState) (f : Z) (n : notifier) : option (notifier * (realm_error + Z)) :=
  _ ← REALM_ASSERT_RELEASE (m_realm n);
  match verify_thread r with
  | inl e => Some (n, inl e)
  | inr _ =>
      let t := m_next_token n in
      let n := set_next_token (t +! 1) n in
      let n := set_callbacks (m_callbacks n ++ [mkCallback (Some f) empty_builder empty_changeset t false false]) n in
      let n := if bool_decide (m_callback_index n = npos)
               then set_have_callbacks true (wake_up_notifier_worker n) else n in
      Some (n, inr t)
  end.

(** The position of the callback, [None] for the end. *)
Definition find_callback (t : Z) (n : notifier) : option (option nat) :=
  _ ← REALM_ASSERT (m_error n || bool_decide (0 < length (m_callbacks n)));
  let it := find_index (λ c, bool_decide (token c = t)) (m_callbacks n) in
  _ ← REALM_ASSERT (m_error n || negb (bool_decide (it = None)));
  Some it.

Definition remove_callback (t : Z) (n : notifier) : option notifier :=
  it ← find_callback t n;
  match it with
  | None => Some n
  | Some idx =>
      let n := if bool_decide (m_callback_index n ≠ npos) && bool_decide (Z.of_nat idx <= m_callback_index n)%Z
               then set_index (m_callback_index n -! 1) n else n in
      let n := set_count (m_callback_count n -! 1) n in
      let n := set_callbacks (vec_erase idx (m_callbacks n)) n in
      Some (set_have_callbacks (negb (bool_decide (m_callbacks n = []))) n)
  end.

Definition suppress_next_notification (r : RealmState) (t : Z) (n : notifier)
  : option (notifier * (realm_error + unit)) :=
  _ ← REALM_ASSERT (m_realm n);
  _ ← REALM_ASSERT_RELEASE (m_realm n);
  match verify_thread r, verify_in_write r with
  | inl e, _ | inr _, inl e => Some (n, inl e)
  | inr _, inr _ =>
      it ← find_callback t n;
      match it with
      | Some idx => Some (on_callback (set_skip_next true) idx n, inr tt)
      | None => Some (n, inr tt)
      end
  end.

Definition unregister (n : notifier) : notifier := set_realm false n.
Definition is_alive (n : notifier) : bool := m_realm n.

(** ** Changes *)

Definition add_change (change : CollectionChangeBuilder) (c : Callback) : option Callback :=
  if skip_next c then
    _ ← REALM_ASSERT_DEBUG (is_empty (accumulated_changes c));
    Some (set_skip_next false c)
  else
    a ← merge (accumulated_changes c) change;
    Some (set_accumulated a c).

Definition add_changes `{StdOrders} (change : CollectionChangeBuilder) (n : notifier) : option notifier :=
  cs ← mapM_vec (add_change change) (m_callbacks n);
  Some (set_callbacks cs n).

(** The accumulated changes are moved from, which leaves them empty. *)
Definition package_callback (c : Callback) : option Callback :=
  d ← finalize (accumulated_changes c);
  Some (set_to_deliver d (set_accumulated empty_builder c)).

(** [prepare_to_deliver] is the virtual function of the derived notifier. *)
Definition package_for_delivery (prepare_to_deliver : bool) (n : notifier) : option (notifier * bool) :=
  if negb prepare_to_deliver then Some (n, false)
  else
    cs ← mapM_vec package_callback (m_callbacks n);
    Some (set_count (Z.of_nat (length cs)) (set_callbacks cs n), true).

(** [do_prepare_handover] is the virtual function of the derived notifier. *)
Definition prepare_handover (version : Z) (do_prepare_handover : notifier -> option notifier) (n : notifier)
  : option notifier :=
  _ ← REALM_ASSERT (m_sg n);
  n ← do_prepare_handover (set_version version n);
  let n := set_has_run n in
  _ ← (if realm_debug
       then foldM (λ callback _, REALM_ASSERT (negb (skip_next callback))) (m_callbacks n) tt else Some tt);
  Some n.

Definition attach_to (n : notifier) : option notifier :=
  _ ← REALM_ASSERT (negb (m_sg n)); Some (set_sg true n).
Definition detach (n : notifier) : option notifier :=
  _ ← REALM_ASSERT (m_sg n); Some (set_sg false n).

(** ** Delivery

    User code is called with the lock released: what it does to the notifier
    depends on the calls so far, [script] yields the operations. *)
Inductive op :=
  | op_add (f : Z)
  | op_remove (t : Z)
  | op_suppress (t : Z).

Section delivery.
Variable realm_state : RealmState.
Variable script : list call -> list op.

Definition run_op (o : op) (n : notifier) : option notifier :=
  match o with
  | op_add f => '(n, _) ← add_callback realm_state f n; Some n
  | op_remove t => remove_callback t n
  | op_suppress t => '(n, _) ← suppress_next_notification realm_state t n; Some n
  end.

Definition invoke (c : call) (n : notifier) : option notifier :=
  let n := log_call c n in
  foldM run_op (script (calls n)) n.

(** [body] gets the index of the callback. A loop that runs beyond the vector
    ends in [None]; [fuel] is one more than its length. *)
Definition for_each_callback (body : nat -> notifier -> option notifier) (n : notifier) : option notifier :=
  _ ← REALM_ASSERT_DEBUG (bool_decide (m_callback_count n <= Z.of_nat (length (m_callbacks n)))%Z);
  let n := set_index (m_callback_index n +! 1) n in
  n ← while (S (length (m_callbacks n)))
    (λ n, Some (bool_decide (m_callback_index n < m_callback_count n)%Z))
    (λ n, n ← body (Z.to_nat (m_callback_index n)) n; Some (set_index (m_callback_index n +! 1) n)) n;
  Some (set_index npos n).

Definition before_callback (idx : nat) (n : notifier) : option notifier :=
  callback ← m_callbacks n !! idx;
  if changeset_empty (changes_to_deliver callback) then Some n
  else f ← fn callback; invoke (call_before f (changes_to_deliver callback)) n.

Definition before_advance : notifier -> option notifier := for_each_callback before_callback.

Definition after_callback (idx : nat) (n : notifier) : option notifier :=
  callback ← m_callbacks n !! idx;
  if initial_delivered callback && changeset_empty (changes_to_deliver callback) then Some n
  else
    let n := on_callback (λ c, set_to_deliver empty_changeset (set_initial_delivered c)) idx n in
    f ← fn callback; invoke (call_after f (changes_to_deliver callback)) n.

Definition after_advance : notifier -> option notifier := for_each_callback after_callback.

Definition error_callback (error : Z) (idx : nat) (n : notifier) : option notifier :=
  callback ← m_callbacks n !! idx;
  let n := on_callback (set_fn None) idx n in
  f ← fn callback;
  n ← invoke (call_error f error) n;
  remove_callback (token callback) n.

Definition deliver_error (error : Z) (n : notifier) : option notifier :=
  let n := set_error n in
  let n := set_count (Z.of_nat (length (m_callbacks n))) n in
  for_each_callback (error_callback error) n.

(** ** Packages

    The notifiers are shared: a package has their addresses, the store says what
    is there. [None] for a version is [util::none]. *)
Definition store := gmap nat notifier.

Record NotifierPackage := mkPackage {
  m_version : option Z;
  m_notifiers : list nat;
  has_coordinator : bool;
  m_package_error : option Z;
}.

(** What the notifiers do on their own: [prepare_to_deliver] and [deliver], which
    only reach the members of the derived notifier; and what the background
    worker does until the predicate holds. *)
Variable prepare_to_deliver : nat -> store -> bool.
Variable wait_for_notifiers : (store -> bool) -> store -> store.

Definition on_notifier (f : notifier -> option notifier) (a : nat) (s : store) : option store :=
  n ← s !! a; n ← f n; Some (<[a := n]> s).

Definition ready (target_version : option Z) (ns : list nat) (s : store) : bool :=
  match target_version with
  | None => true
  | Some v => forallb (λ a, match s !! a with
      | Some n => negb (m_have_callbacks n) || (m_has_run n && bool_decide (v <= m_sg_version n)%Z)
      | None => false
      end) ns
  end.

(** One notifier of the [remove_if]: it stays when it has something to deliver. *)
Definition package_one (a : nat) (st : list nat * option Z * store) : option (list nat * option Z * store) :=
  let '(kept, version, s) := st in
  n ← s !! a;
  if m_has_run n then
    '(n, delivers) ← package_for_delivery (prepare_to_deliver a s) n;
    let s := <[a := n]> s in
    if delivers : bool then Some (kept ++ [a], Some (m_sg_version n), s) else Some (kept, version, s)
  else Some (kept, version, s).

Definition package_and_wait (target_version : option Z) (p : NotifierPackage) (s : store)
  : option (NotifierPackage * store) :=
  if negb (has_coordinator p) || bool_decide (m_package_error p ≠ None) || bool_decide (m_notifiers p = [])
  then Some (p, s)
  else
    let s := wait_for_notifiers (ready target_version (m_notifiers p)) s in
    '(kept, version, s) ← foldM package_one (m_notifiers p) ([], m_version p, s);
    let '(kept, version) := match version, target_version with
      | Some v, Some t => if bool_decide (v < t)%Z then ([], None) else (kept, version)
      | _, _ => (kept, version)
      end in
    _ ← REALM_ASSERT (negb (bool_decide (version = None)) || bool_decide (kept = []));
    Some (mkPackage version kept false (m_package_error p), s).

Definition package_before_advance (p : NotifierPackage) (s : store) : option store :=
  match m_package_error p with
  | Some _ => Some s
  | None => foldM (on_notifier before_advance) (m_notifiers p) s
  end.

(** The errors; [deliver] of the derived notifiers is not part of the state. *)
Definition package_deliver (p : NotifierPackage) (s : store) : option store :=
  match m_package_error p with
  | Some e => foldM (on_notifier (deliver_error e)) (m_notifiers p) s
  | None => Some s
  end.

Definition package_after_advance (p : NotifierPackage) (s : store) : option store :=
  match m_package_error p with
  | Some _ => Some s
  | None => foldM (on_notifier after_advance) (m_notifiers p) s
  end.

(** ** Tokens *)

(** [m_notifier] is [None] for a null pointer. *)
Record NotificationToken := mkToken { m_notifier : option nat; m_token : Z }.

Definition destroy_token (t : NotificationToken) (s : store) : option store :=
  match m_notifier t with
  | Some a => on_notifier (remove_callback (m_token t)) a s
  | None => Some s
  end.

(** [operator=(NotificationToken&&)] of two different tokens: the results are
    the token assigned to and the one moved from. *)
Definition assign_token (t rgt : NotificationToken) (s : store) : option (NotificationToken * NotificationToken * store) :=
  s ← destroy_token t s;
  Some (mkToken (m_notifier rgt) (m_token rgt), mkToken None (m_token rgt), s).

Definition suppress_next (t : NotificationToken) (s : store) : option store :=
  a ← m_notifier t;
  on_notifier (λ n, '(n, _) ← suppress_next_notification realm_state (m_token t) n; Some n) a s.
End delivery.
End notifier.
