(* ===== verification/DeliverySpec.v ===== *)
(** * The callbacks of a notifier

    What registering and removing callbacks keeps, and a specification of the
    delivery loops without indices: the callbacks a package was made for are
    visited in order, those removed meanwhile are not. *)

From S2P Require Import Prelude ChunkedRangeVector IndexSet ChangeBuilder CollectionNotifier.

(** ** The invariant *)

Record notifier_ok (n : notifier) : Prop := {
  no_tokens : NoDup (token <$> m_callbacks n);
  no_tokens_old : Forall (λ c, 0 <= token c < m_next_token n)%Z (m_callbacks n);
  no_have : m_have_callbacks n = negb (bool_decide (m_callbacks n = []));
  no_index : m_callback_index n = npos \/ (0 <= m_callback_index n < Z.of_nat (length (m_callbacks n)))%Z;
  no_sizes : (Z.of_nat (length (m_callbacks n)) <= m_next_token n < 2 ^ 64)%Z;
}.

Lemma nil_app_false {A} (l : list A) x : negb (bool_decide (l ++ [x] = [])) = true.
Proof. rewrite bool_decide_false; [done|]. by destruct l. Qed.

Lemma new_notifier_ok v : notifier_ok (new_notifier v).
Proof. split; cbn; [constructor|constructor|done|by left|lia]. Qed.

Lemma vec_erase_split {A} (l : list A) i x : l !! i = Some x -> exists l1 l2, l = l1 ++ x :: l2 /\ length l1 = i /\ vec_erase i l = l1 ++ l2.
Proof.
  intros Hi. exists (take i l), (drop (S i) l). split_and!; [by rewrite take_drop_middle| |done].
  apply lookup_lt_Some in Hi. rewrite length_take. lia.
Qed.

Section facts.
Context `{Build}.

Lemma find_callback_spec t n : m_error n = true \/ t ∈ (token <$> m_callbacks n) ->
  exists it, find_callback t n = Some it
    /\ match it with
       | Some idx => exists c, m_callbacks n !! idx = Some c /\ token c = t
           /\ forall i c', m_callbacks n !! i = Some c' -> token c' = t -> idx <= i
       | None => t ∉ (token <$> m_callbacks n)
       end.
Proof.
  intros Ht. unfold find_callback.
  assert (Hin : t ∈ (token <$> m_callbacks n) -> (0 < length (m_callbacks n)) /\ find_index (λ c, bool_decide (token c = t)) (m_callbacks n) <> None).
  { intros (c & -> & Hc)%list_elem_of_fmap. split; [destruct (m_callbacks n); [by apply not_elem_of_nil in Hc|cbn; lia]|].
    destruct (find_index_cases (λ c0, bool_decide (token c0 = token c)) (m_callbacks n)) as [[Hall _]|(? & ? & ? & _ & _ & _ & ->)]; [|done].
    rewrite Forall_forall in Hall. specialize (Hall c Hc). cbn in Hall. by rewrite bool_decide_true in Hall. }
  rewrite !REALM_ASSERT_true by (destruct Ht as [-> |Ht]; [done|]; apply orb_true_iff; right;
    first [by apply bool_decide_eq_true, Hin | by apply negb_true_iff, bool_decide_eq_false, Hin]).
  mrun. eexists. split; [done|].
  destruct (find_index_cases (λ c, bool_decide (token c = t)) (m_callbacks n)) as [[Hall ->]|(l1 & c & l2 & Hl & Hall & Hc & ->)].
  - intros (c & -> & Hc)%list_elem_of_fmap. rewrite Forall_forall in Hall. specialize (Hall c Hc). cbn in Hall.
    by rewrite bool_decide_true in Hall.
  - exists c. apply bool_decide_eq_true in Hc. split_and!; [by rewrite Hl, list_lookup_middle|done|].
    intros i c' Hi Ht'. destruct (decide (length l1 <= i)) as [|Hlt]; [done|]. rewrite Hl, lookup_app_l in Hi by lia.
    rewrite Forall_forall in Hall. apply list_elem_of_lookup_2, Hall in Hi. by rewrite bool_decide_true in Hi.
Qed.

Lemma add_callback_ok r f n : notifier_ok n -> m_realm n = true -> (m_next_token n + 1 < 2 ^ 64)%Z ->
  exists n' res, add_callback r f n = Some (n', res) /\ notifier_ok n'
    /\ (on_its_thread r = true -> res = inr (m_next_token n)
        /\ m_callbacks n' = m_callbacks n ++ [mkCallback (Some f) empty_builder empty_changeset (m_next_token n) false false]).
Proof.
  intros Hok Hr Hsm. unfold add_callback. rewrite Hr. cbn [REALM_ASSERT_RELEASE]. mrun. unfold verify_thread.
  destruct (on_its_thread r); [|by eexists _, _].
  destruct Hok as [Hnd Hold Hh Hi Hs]. cbn [m_callback_index set_callbacks set_next_token m_callbacks].
  rewrite u64_small by lia. eexists _, _. split; [done|]. split.
  - assert (Hndt : NoDup (token <$> m_callbacks n ++ [mkCallback (Some f) empty_builder empty_changeset (m_next_token n) false false])).
    { rewrite fmap_app. apply NoDup_app. split_and!; [done| |apply NoDup_singleton]. intros t (c & -> & Hc)%list_elem_of_fmap Ht.
      apply list_elem_of_singleton in Ht. rewrite Forall_forall in Hold. specialize (Hold c Hc). cbn in *. lia. }
    assert (Hold' : Forall (λ c, 0 <= token c < m_next_token n + 1)%Z
      (m_callbacks n ++ [mkCallback (Some f) empty_builder empty_changeset (m_next_token n) false false])).
    { apply Forall_app. split; [eapply Forall_impl; [exact Hold|]; cbn; intros; lia|]. repeat constructor; cbn; lia. }
    destruct (decide (m_callback_index n = npos)) as [Hx|Hx]; [rewrite bool_decide_true by done|rewrite bool_decide_false by done];
      (split; [exact Hndt|exact Hold'|cbn|cbn|cbn; rewrite length_app; cbn; lia]).
    + by rewrite nil_app_false.
    + by left.
    + destruct Hi as [|Hi]; [done|]. rewrite nil_app_false, Hh. by destruct (m_callbacks n); [cbn in Hi; lia|].
    + right. destruct Hi as [|Hi]; [done|]. rewrite length_app. cbn. lia.
  - intros _. split; [done|]. by destruct (bool_decide (m_callback_index n = npos)).
Qed.

Lemma erase_ok n idx c : notifier_ok n -> m_callbacks n !! idx = Some c ->
  let n1 := if bool_decide (m_callback_index n ≠ npos) && bool_decide (Z.of_nat idx <= m_callback_index n)%Z
            then set_index (m_callback_index n -! 1) n else n in
  let n2 := set_callbacks (vec_erase idx (m_callbacks n1)) (set_count (m_callback_count n1 -! 1) n1) in
  notifier_ok (set_have_callbacks (negb (bool_decide (m_callbacks n2 = []))) n2).
Proof.
  intros Hok Hc. destruct (vec_erase_split _ _ _ Hc) as (l1 & l2 & Hl & Hlen & He). destruct Hok as [Hnd Hold Hh Hi Hs].
  assert (Hsub : NoDup (token <$> vec_erase idx (m_callbacks n))).
  { rewrite He. rewrite Hl, fmap_app in Hnd. cbn in Hnd. rewrite <- Permutation_middle in Hnd. apply NoDup_cons in Hnd as [_ Hnd].
    by rewrite fmap_app. }
  assert (Hsubo : Forall (λ c, 0 <= token c < m_next_token n)%Z (vec_erase idx (m_callbacks n))).
  { rewrite He. rewrite Hl in Hold. apply Forall_app in Hold as [? [_ ?]%Forall_cons]. by apply Forall_app. }
  assert (Hlen' : length (vec_erase idx (m_callbacks n)) = pred (length (m_callbacks n)))
    by (apply vec_erase_length; by eapply lookup_lt_Some).
  assert (Hlt : idx < length (m_callbacks n)) by (by eapply lookup_lt_Some).
  destruct (bool_decide (m_callback_index n ≠ npos) && _) eqn:Hb; (split; [exact Hsub|exact Hsubo|done|cbn|cbn; lia]).
  - apply andb_true_iff in Hb as [Hb1%bool_decide_eq_true Hb2%bool_decide_eq_true]. destruct Hi as [|Hi]; [done|].
    unfold npos in *. destruct (decide (m_callback_index n = 0)%Z) as [->|Hne]; [by left|right]. rewrite u64_small by lia. lia.
  - apply andb_false_iff in Hb as [Hb%bool_decide_eq_false|Hb%bool_decide_eq_false]; [left; by apply dec_stable|].
    destruct Hi as [|Hi]; [by left|right; lia].
Qed.

Lemma remove_callback_ok t n : notifier_ok n -> m_error n = true \/ t ∈ (token <$> m_callbacks n) ->
  exists n', remove_callback t n = Some n' /\ notifier_ok n' /\ m_callbacks n' = filter (λ c, token c ≠ t) (m_callbacks n).
Proof.
  intros Hok Ht. unfold remove_callback. destruct (find_callback_spec t n Ht) as (it & -> & Hit). mrun.
  destruct it as [idx|].
  - destruct Hit as (c & Hc & Htc & Hfirst). eexists. split; [done|]. split; [by eapply erase_ok|]. cbn.
    assert (Hcb : m_callbacks (if bool_decide (m_callback_index n ≠ npos) && bool_decide (Z.of_nat idx <= m_callback_index n)%Z
            then set_index (m_callback_index n -! 1) n else n) = m_callbacks n) by (by destruct (_ && _)).
    rewrite Hcb. destruct (vec_erase_split _ _ _ Hc) as (l1 & l2 & Hl & Hlen & ->). rewrite Hl.
    pose proof (no_tokens _ Hok) as Hnd. rewrite Hl, fmap_app in Hnd. cbn in Hnd. rewrite filter_app, filter_cons_False by (by intros []).
    assert (Hkeep : forall l : list Callback, (token c ∉ (token <$> l)) -> filter (λ c, token c ≠ t) l = l).
    { induction l as [|c' l IH]; [done|]. rewrite fmap_cons, not_elem_of_cons. intros [Hne Hl']. rewrite filter_cons_True by congruence. f_equal. by apply IH. }
    apply NoDup_app in Hnd as (_ & Hd & [Hn2 _]%NoDup_cons). rewrite !Hkeep; [done|done|].
    intros Hin. apply (Hd _ Hin). by left.
  - exists n. split_and!; [done|done|]. clear -Hit. induction (m_callbacks n) as [|c l IH]; [done|].
    rewrite fmap_cons, not_elem_of_cons in Hit. destruct Hit as [Hne Hl]. rewrite filter_cons_True by congruence. f_equal. by apply IH.
Qed.
End facts.

(** ** A specification of the delivery loops

    Without indices and counters: the callbacks still to be visited are a list of
    their own. The loops of a notifier implement it. *)

(** The callbacks visited, those to come, and those added meanwhile. *)
Record turn := mkTurn {
  visited : list Callback;
  todo : list Callback;
  added : list Callback;
  next_token : Z;
  log : list call;
}.

Abbreviation tokens := (fmap (M := list) token).

Definition without (t : Z) : list Callback -> list Callback := filter (λ c, token c ≠ t).
Definition skip_in (t : Z) : list Callback -> list Callback :=
  fmap (λ c, if bool_decide (token c = t) then set_skip_next true c else c).

Section spec.
Variable realm_state : RealmState.
Variable script : list call -> list op.
(** Whether an error is being delivered. *)
Variable error : bool.

(** [None] when user code removes a callback that was added during the
    delivery, or one that is not there, or when the tokens run out. *)
Definition spec_op (o : op) (v : turn) : option turn :=
  match o with
  | op_add f =>
      if negb (on_its_thread realm_state) then Some v
      else if bool_decide (next_token v + 1 < 2 ^ 64)%Z then
        Some (mkTurn (visited v) (todo v)
          (added v ++ [mkCallback (Some f) empty_builder empty_changeset (next_token v) false false])
          (next_token v + 1) (log v))
      else None
  | op_remove t =>
      if bool_decide (t ∈ tokens (visited v ++ todo v)) || (error && negb (bool_decide (t ∈ tokens (added v))))
      then Some (mkTurn (without t (visited v)) (without t (todo v)) (added v) (next_token v) (log v))
      else None
  | op_suppress t =>
      if negb (on_its_thread realm_state) || negb (in_write realm_state) then Some v
      else if bool_decide (t ∈ tokens (visited v ++ todo v ++ added v)) || error then
        Some (mkTurn (skip_in t (visited v)) (skip_in t (todo v)) (skip_in t (added v)) (next_token v) (log v))
      else None
  end.

Definition spec_invoke (c : call) (v : turn) : option turn :=
  let v := mkTurn (visited v) (todo v) (added v) (next_token v) (log v ++ [c]) in
  foldM spec_op (script (log v)) v.

(** The next callback is visited: [update] is what the loop does to it before
    user code runs. *)
Fixpoint visit_all (update : Callback -> Callback) (visit : Callback -> turn -> option turn)
    (fuel : nat) (v : turn) : option turn :=
  match todo v with
  | [] => Some v
  | c :: rest =>
      match fuel with
      | O => None
      | S fuel =>
          v ← visit c (mkTurn (visited v ++ [update c]) rest (added v) (next_token v) (log v));
          visit_all update visit fuel v
      end
  end.

Definition visit_before (c : Callback) (v : turn) : option turn :=
  if changeset_empty (changes_to_deliver c) then Some v
  else f ← fn c; spec_invoke (call_before f (changes_to_deliver c)) v.

Definition has_delivered (c : Callback) : bool := initial_delivered c && changeset_empty (changes_to_deliver c).

Definition update_after (c : Callback) : Callback :=
  if has_delivered c then c else set_to_deliver empty_changeset (set_initial_delivered c).

Definition visit_after (c : Callback) (v : turn) : option turn :=
  if has_delivered c then Some v else f ← fn c; spec_invoke (call_after f (changes_to_deliver c)) v.

Definition visit_error (e : Z) (c : Callback) (v : turn) : option turn :=
  f ← fn c; v ← spec_invoke (call_error f e) v; spec_op (op_remove (token c)) v.
End spec.

(** The notifier is at the turn. *)
Record at_turn (error : bool) (v : turn) (n : notifier) : Prop := {
  at_ok : notifier_ok n;
  at_callbacks : m_callbacks n = visited v ++ todo v ++ added v;
  at_index : m_callback_index n = u64 (Z.of_nat (length (visited v)) - 1);
  at_count : m_callback_count n = Z.of_nat (length (visited v) + length (todo v));
  at_next : m_next_token n = next_token v;
  at_log : calls n = log v;
  at_realm : m_realm n = true;
  at_error : m_error n = error;
}.

(** ** Removal *)

Lemma without_absent t l : t ∉ tokens l -> without t l = l.
Proof.
  induction l as [|c l IH]; [done|]. rewrite fmap_cons, not_elem_of_cons. intros [Hne Hl].
  unfold without. rewrite filter_cons_True by congruence. f_equal. by apply IH.
Qed.

Lemma length_without t l : NoDup (tokens l) ->
  length (without t l) = length l - if decide (t ∈ tokens l) then 1 else 0.
Proof.
  induction l as [|c l IH]; [done|]. rewrite fmap_cons, NoDup_cons. intros [Hc Hl]. unfold without.
  destruct (decide (token c = t)) as [<-|Hne].
  - rewrite filter_cons_False by (by intros []). rewrite decide_True by left. fold (without (token c) l).
    rewrite without_absent by done. cbn. lia.
  - rewrite filter_cons_True by done. fold (without t l). cbn [length]. rewrite (IH Hl).
    destruct (decide (t ∈ tokens l)) as [Hin|Hin]; [rewrite decide_True by (by right)|rewrite decide_False].
    + destruct l; [by apply not_elem_of_nil in Hin|]. cbn. lia.
    + lia.
    + by rewrite not_elem_of_cons.
Qed.

Section refine.
Context `{Build}.
Variable realm_state : RealmState.
Variable script : list call -> list op.
Variable error : bool.

(** What [remove_callback] does to the counters. *)
Lemma remove_callback_counters t n n' : notifier_ok n -> remove_callback t n = Some n' ->
  (t ∉ tokens (m_callbacks n) /\ n' = n)
  \/ (exists idx c, m_callbacks n !! idx = Some c /\ token c = t
      /\ m_callback_index n' = (if bool_decide (m_callback_index n ≠ npos) && bool_decide (Z.of_nat idx <= m_callback_index n)%Z
            then m_callback_index n -! 1 else m_callback_index n)
      /\ m_callback_count n' = m_callback_count n -! 1
      /\ m_next_token n' = m_next_token n /\ calls n' = calls n /\ m_realm n' = m_realm n /\ m_error n' = m_error n).
Proof using Type.
  intros Hok. unfold remove_callback, find_callback. unfold REALM_ASSERT, REALM_ASSERT_RELEASE.
  destruct (find_index_cases (λ c, bool_decide (token c = t)) (m_callbacks n)) as [[Hall ->]|(l1 & c & l2 & Hl & _ & Hc & ->)].
  - intros Hrun. left. split.
    + intros (c & -> & Hc)%list_elem_of_fmap. rewrite Forall_forall in Hall. specialize (Hall c Hc). cbn in Hall.
      by rewrite bool_decide_true in Hall.
    + revert Hrun. repeat (case_match; cbn; try done). all: by intros [= ->].
  - intros Hrun. right. exists (length l1), c. apply bool_decide_eq_true in Hc. split_and!; [by rewrite Hl, list_lookup_middle|done|..];
      revert Hrun; (destruct REALM_ASSERTIONS_ENABLED; [destruct (m_error n || _)|]); mrun; try done;
      (destruct (m_error n || _) || idtac); mrun; try done; intros [= <-]; cbn; by destruct (_ && _).
Qed.

Lemma without_app t l1 l2 : without t (l1 ++ l2) = without t l1 ++ without t l2.
Proof using Type. apply filter_app. Qed.

(** An index into the callbacks is before or after the end of the visited ones. *)
Lemma index_visited (l1 l2 : list Callback) idx c : NoDup (tokens (l1 ++ l2)) -> (l1 ++ l2) !! idx = Some c ->
  idx < length l1 <-> token c ∈ tokens l1.
Proof using Type.
  intros Hnd Hc. split.
  - intros Hlt. rewrite lookup_app_l in Hc by done. apply list_elem_of_fmap_2. by eapply list_elem_of_lookup_2.
  - intros (c' & Ht & Hc')%list_elem_of_fmap. apply list_elem_of_lookup_1 in Hc' as [j Hj].
    pose proof (lookup_lt_Some _ _ _ Hj). assert (idx = j) as ->; [|done].
    eapply (NoDup_lookup _ idx j (token c) Hnd); rewrite list_lookup_fmap; [by rewrite Hc|].
    rewrite lookup_app_l by done. by rewrite Hj, Ht.
Qed.

Lemma spec_remove v n t v' : at_turn error v n -> spec_op realm_state error (op_remove t) v = Some v' ->
  exists n', remove_callback t n = Some n' /\ at_turn error v' n'.
Proof using Type.
  intros [Hok Hcb Hix Hct Hnx Hlg Hrm Her]. cbn [spec_op]. pose proof (no_tokens _ Hok) as Hnd. rewrite Hcb in Hnd.
  destruct (bool_decide (t ∈ _) || _) eqn:Hb; [|done]. intros [= <-].
  assert (Hta : t ∉ tokens (added v)).
  { apply orb_true_iff in Hb as [Hb%bool_decide_eq_true|Hb].
    - intros Ha. rewrite app_assoc, fmap_app in Hnd. apply NoDup_app in Hnd as (_ & Hd & _). by apply (Hd t).
    - apply andb_true_iff in Hb as [_ Hb]. by apply negb_true_iff, bool_decide_eq_false in Hb. }
  destruct (remove_callback_ok t n Hok) as (n' & Hrun & Hok' & Hcb').
  { apply orb_true_iff in Hb as [Hb%bool_decide_eq_true|Hb]; [right|left].
    - rewrite Hcb, app_assoc, fmap_app. apply elem_of_app. by left.
    - apply andb_true_iff in Hb as [Hb _]. congruence. }
  exists n'. split; [done|]. fold (without t (m_callbacks n)) in Hcb'. rewrite Hcb, !without_app in Hcb'.
  rewrite (without_absent t (added v)) in Hcb' by done.
  pose proof Hnd as Hnd'. rewrite !fmap_app, !NoDup_app in Hnd'. destruct Hnd' as (Hnd1 & Hd1 & Hnd2 & Hd2 & _).
  pose proof (no_sizes _ Hok) as Hsz. rewrite Hcb, !length_app in Hsz.
  destruct (remove_callback_counters t n n' Hok Hrun) as [[Hnt ->]|(idx & c & Hc & Htc & Hix' & Hct' & Hnx' & Hlg' & Hrm' & Her')].
  - rewrite Hcb, !fmap_app, !not_elem_of_app in Hnt. destruct Hnt as (Ht1 & Ht2 & _).
    rewrite !without_absent by done. by destruct v.
  - pose proof (lookup_lt_Some _ _ _ Hc) as Hlt. rewrite Hcb, !length_app in Hlt. rewrite Hcb in Hc.
    pose proof (index_visited _ _ _ _ Hnd Hc) as Hiv. rewrite Htc in Hiv.
    assert (Hin : t ∈ tokens (visited v) \/ (t ∉ tokens (visited v) /\ t ∈ tokens (todo v))).
    { apply list_elem_of_lookup_2 in Hc. assert (Ht : t ∈ tokens (visited v ++ todo v ++ added v)) by (rewrite <- Htc; by apply list_elem_of_fmap_2).
      rewrite !fmap_app, !elem_of_app in Ht. destruct (decide (t ∈ tokens (visited v))); [by left|right]. tauto. }
    split; cbn [visited todo added next_token log]; try done; try congruence.
    + rewrite Hix', Hix, length_without by done. destruct Hin as [Hin|[Hin _]].
      * rewrite decide_True by done. apply Hiv in Hin. unfold npos. rewrite (u64_small (Z.of_nat _ - 1)) by lia.
        rewrite (bool_decide_true (_ ≠ _)) by lia. rewrite bool_decide_true by lia. cbn [andb]. u64_ring.
      * rewrite decide_False by done. rewrite Nat.sub_0_r. rewrite <- Hiv in Hin. destruct (visited v) as [|c0 l0] eqn:Hv.
        -- by rewrite (bool_decide_false (_ ≠ _)) by (intros Hx; by apply Hx).
        -- cbn [length] in *. rewrite u64_small by lia. by rewrite (bool_decide_false (_ <= _)%Z), andb_false_r by lia.
    + rewrite Hct', Hct, !length_without by done. destruct Hin as [Hin|[Hin Hin2]].
      * rewrite decide_True by done. rewrite decide_False by (intros Ht; apply (Hd1 t Hin), elem_of_app; by left).
        apply Hiv in Hin. rewrite u64_small by lia. lia.
      * rewrite decide_False by done. rewrite decide_True by done.
        assert (0 < length (todo v)) by (destruct (todo v); [by apply not_elem_of_nil in Hin2|cbn; lia]). rewrite u64_small by lia. lia.
Qed.

Lemma skip_tokens t l : tokens (skip_in t l) = tokens l.
Proof using Type.
  unfold skip_in. rewrite <- list_fmap_compose. apply list_fmap_ext. intros _ c _. unfold compose. by case_bool_decide.
Qed.

(** Marking the first callback with the token is marking it by its token. *)
Lemma skip_alter t (l : list Callback) idx c : NoDup (tokens l) -> l !! idx = Some c -> token c = t ->
  alter (set_skip_next true) idx l = skip_in t l.
Proof using Type.
  intros Hnd Hc Ht. apply list_eq. intros j. unfold skip_in. rewrite list_lookup_fmap.
  destruct (decide (j = idx)) as [->|Hne].
  - rewrite list_lookup_alter_eq, Hc. cbn. by rewrite bool_decide_true by done.
  - rewrite list_lookup_alter_ne by done. destruct (l !! j) as [c'|] eqn:Hc'; [|done]. cbn. rewrite bool_decide_false; [done|].
    intros Ht'. apply Hne. eapply (NoDup_lookup _ j idx t Hnd); rewrite list_lookup_fmap; [by rewrite Hc', <- Ht'|by rewrite Hc, <- Ht].
Qed.

Lemma skip_absent t l : t ∉ tokens l -> skip_in t l = l.
Proof using Type.
  induction l as [|c l IH]; [done|]. rewrite fmap_cons, not_elem_of_cons. intros [Hne Hl]. unfold skip_in. cbn.
  rewrite bool_decide_false by congruence. f_equal. by apply IH.
Qed.

Lemma with_callbacks_ok n l : tokens l = tokens (m_callbacks n) -> notifier_ok n -> notifier_ok (set_callbacks l n).
Proof using Type.
  intros Ht [Hnd Hold Hh Hi Hs]. assert (Hlen : length l = length (m_callbacks n))
    by (rewrite <- (length_fmap token l), Ht; apply length_fmap).
  split; cbn [m_callbacks m_next_token m_have_callbacks m_callback_index set_callbacks].
  - by rewrite Ht.
  - rewrite <- (Forall_fmap token (λ t, 0 <= t < m_next_token n)%Z) in Hold |- *. by rewrite Ht.
  - rewrite Hh. f_equal. apply bool_decide_ext. by destruct l, (m_callbacks n).
  - by rewrite Hlen.
  - by rewrite Hlen.
Qed.

Lemma spec_op_refines o v n v' : at_turn error v n -> spec_op realm_state error o v = Some v' ->
  exists n', run_op realm_state o n = Some n' /\ at_turn error v' n'.
Proof using Type.
  intros Hat Ho. destruct o as [f|t|t]; cbn [run_op].
  - pose proof Hat as [Hok Hcb Hix Hct Hnx Hlg Hrm Her]. cbn [spec_op] in Ho.
    destruct (on_its_thread realm_state) eqn:Hth; cbn [negb] in Ho.
    + case_bool_decide as Hsm; [|done]. injection Ho as <-.
      destruct (add_callback_ok realm_state f n Hok Hrm) as (n' & res & Hrun & Hok' & Hres); [by rewrite Hnx|].
      rewrite Hrun. mrun. exists n'. split; [done|]. destruct (Hres Hth) as [-> Hcb']. clear Hres.
      unfold add_callback, REALM_ASSERT_RELEASE, verify_thread in Hrun. rewrite Hrm, Hth in Hrun. revert Hrun. mrun. intros [= <-].
      revert Hok' Hcb'. destruct (bool_decide (m_callback_index _ = npos)); intros Hok' Hcb';
        (split; cbn; [exact Hok'|by rewrite Hcb, Hnx, <- !app_assoc|done|done| |done|done|done]); rewrite Hnx, u64_small; try done;
        (split; [|done]); pose proof (no_sizes _ Hok); lia.
    + injection Ho as <-. exists n. split; [|done]. unfold add_callback, verify_thread. rewrite Hrm, Hth. done.
  - by apply (spec_remove v n t v').
  - pose proof Hat as [Hok Hcb Hix Hct Hnx Hlg Hrm Her]. cbn [spec_op] in Ho. unfold suppress_next_notification.
    rewrite Hrm. rewrite REALM_ASSERT_true by done. unfold REALM_ASSERT_RELEASE. mrun. unfold verify_thread, verify_in_write.
    destruct (on_its_thread realm_state); [|injection Ho as <-; by exists n].
    destruct (in_write realm_state); [|injection Ho as <-; by exists n]. cbn [negb orb] in Ho.
    destruct (bool_decide (t ∈ _) || error) eqn:Hb; [|done]. injection Ho as <-.
    destruct (find_callback_spec t n) as (it & -> & Hit).
    { apply orb_true_iff in Hb as [Hb%bool_decide_eq_true|Hb]; [right; by rewrite Hcb|left; congruence]. }
    mrun. pose proof (no_tokens _ Hok) as Hnd.
    assert (Hcb' : skip_in t (m_callbacks n) = skip_in t (visited v) ++ skip_in t (todo v) ++ skip_in t (added v))
      by (rewrite Hcb; unfold skip_in; by rewrite !fmap_app).
    assert (Hat' : at_turn error (mkTurn (skip_in t (visited v)) (skip_in t (todo v)) (skip_in t (added v)) (next_token v) (log v))
      (set_callbacks (skip_in t (m_callbacks n)) n)).
    { split; cbn [visited todo added next_token log]; try done.
      - apply with_callbacks_ok; [apply skip_tokens|done].
      - cbn. rewrite Hix. unfold skip_in. by rewrite length_fmap.
      - cbn. rewrite Hct. unfold skip_in. by rewrite !length_fmap. }
    destruct it as [idx|]; mrun; eexists; (split; [done|]).
    + destruct Hit as (c & Hc & Htc & _). unfold on_callback. by rewrite (skip_alter t _ idx c).
    + rewrite (skip_absent t (m_callbacks n)) in Hat' by done. by destruct n.
Qed.

Lemma spec_ops_refine os : forall v n v', at_turn error v n -> foldM (spec_op realm_state error) os v = Some v' ->
  exists n', foldM (run_op realm_state) os n = Some n' /\ at_turn error v' n'.
Proof using Type.
  induction os as [|o os IH]; intros v n v' Hat Hos; cbn [foldM] in *; [injection Hos as <-; by exists n|].
  destruct (spec_op realm_state error o v) as [v1|] eqn:Ho; [|done].
  destruct (spec_op_refines o v n v1 Hat Ho) as (n1 & -> & Hat1). mrun. by apply (IH v1).
Qed.

Lemma spec_invoke_refines c v n v' : at_turn error v n -> spec_invoke realm_state script error c v = Some v' ->
  exists n', invoke realm_state script c n = Some n' /\ at_turn error v' n'.
Proof using Type.
  intros Hat Hc. unfold spec_invoke, invoke in *. cbn [log] in Hc.
  assert (Hat1 : at_turn error (mkTurn (visited v) (todo v) (added v) (next_token v) (log v ++ [c])) (log_call c n)).
  { destruct Hat as [[] ? ? ? ? Hl ? ?]. split; cbn; try done. by rewrite Hl. }
  cbn [calls log_call]. rewrite (at_log _ _ _ Hat). by apply (spec_ops_refine _ _ _ _ Hat1).
Qed.

(** ** The loop *)

Lemma spec_op_todo o v v' : spec_op realm_state error o v = Some v' -> length (todo v') <= length (todo v).
Proof using Type.
  destruct o as [f|t|t]; cbn [spec_op]; intros Ho; repeat (case_match; [|done] || case_match); try done; injection Ho as <-; try done; cbn.
  - apply length_filter.
  - unfold skip_in. by rewrite length_fmap.
Qed.

Lemma spec_invoke_todo c v v' : spec_invoke realm_state script error c v = Some v' -> length (todo v') <= length (todo v).
Proof using Type.
  unfold spec_invoke. cbn [log]. generalize (script (log v ++ [c])). intros os.
  assert (Hos : forall os v v', foldM (spec_op realm_state error) os v = Some v' -> length (todo v') <= length (todo v)).
  { clear. induction os as [|o os IH]; intros v v' Hr; cbn [foldM] in Hr; [by injection Hr as <-|].
    destruct (spec_op realm_state error o v) as [v1|] eqn:Ho; [|done]. apply spec_op_todo in Ho. apply IH in Hr. lia. }
  intros Hr%Hos. exact Hr.
Qed.

Section loop.
Variables (body : nat -> notifier -> option notifier) (update : Callback -> Callback) (visit : Callback -> turn -> option turn).
Hypothesis visit_todo : forall c v v', visit c v = Some v' -> length (todo v') <= length (todo v).
Hypothesis body_refines : forall vis c rest add next lg n v', at_turn error (mkTurn (vis ++ [c]) rest add next lg) n ->
  visit c (mkTurn (vis ++ [update c]) rest add next lg) = Some v' ->
  exists n', body (length vis) n = Some n' /\ at_turn error v' n'.

Lemma index_of_next v n : at_turn error v n -> m_callback_index n +! 1 = Z.of_nat (length (visited v)).
Proof using Type.
  intros Hat. rewrite (at_index _ _ _ Hat). pose proof (no_sizes _ (at_ok _ _ _ Hat)) as Hs.
  rewrite (at_callbacks _ _ _ Hat), length_app in Hs. u64_ring. rewrite u64_small by lia. lia.
Qed.

Lemma set_index_idem x y n : set_index x (set_index y n) = set_index x n.
Proof using Type. by destruct n. Qed.

Lemma about_to_visit v n c rest : at_turn error v n -> todo v = c :: rest ->
  at_turn error (mkTurn (visited v ++ [c]) rest (added v) (next_token v) (log v)) (set_index (m_callback_index n +! 1) n).
Proof using Type.
  intros Hat Ht. pose proof (index_of_next v n Hat) as Hi. destruct Hat as [[Hnd Hold Hh Hix' Hs] Hcb Hix Hct Hnx Hlg Hrm Her].
  rewrite Hi. rewrite Hcb, Ht, !length_app in Hs. cbn in Hs. split; cbn [visited todo added next_token log]; try done.
  - split; [exact Hnd|exact Hold|exact Hh|right|]; cbn; rewrite Hcb, Ht, !length_app; cbn; lia.
  - cbn. by rewrite Hcb, Ht, <- app_assoc.
  - cbn. rewrite length_app. cbn. rewrite u64_small by lia. lia.
  - cbn. rewrite Hct, Ht, length_app. cbn. lia.
Qed.

Lemma loop_refines k : forall v n v' fuel, at_turn error v n -> visit_all update visit k v = Some v' ->
  length (todo v) < fuel ->
  exists n', while fuel (λ n, Some (bool_decide (m_callback_index n < m_callback_count n)%Z))
      (λ n, n ← body (Z.to_nat (m_callback_index n)) n; Some (set_index (m_callback_index n +! 1) n))
      (set_index (m_callback_index n +! 1) n) = Some (set_index (m_callback_index n' +! 1) n')
    /\ at_turn error v' n' /\ todo v' = [].
Proof using visit_todo body_refines.
  induction k as [|k IH]; intros v n v' [|fuel] Hat Hv Hf; try lia; cbn [visit_all] in Hv; rewrite while_S; cbn [m_callback_index m_callback_count set_index];
    rewrite (index_of_next v n Hat), (at_count _ _ _ Hat); destruct (todo v) as [|c rest] eqn:Ht; try done.
  - injection Hv as <-. rewrite bool_decide_false by (cbn; lia). mrun. exists n. by rewrite (index_of_next v n Hat).
  - injection Hv as <-. rewrite bool_decide_false by (cbn; lia). mrun. exists n. by rewrite (index_of_next v n Hat).
  - rewrite bool_decide_true by (cbn; lia). mrun. pose proof (about_to_visit v n c rest Hat Ht) as Hat1.
    rewrite (index_of_next v n Hat) in Hat1. cbn [m_callback_index set_index]. rewrite Nat2Z.id.
    destruct (visit c _) as [v1|] eqn:Hc; [|done]. mrun.
    destruct (body_refines _ _ _ _ _ _ _ _ Hat1 Hc) as (n1 & -> & Hat2). mrun.
    apply visit_todo in Hc. cbn [todo] in Hc. cbn [length] in Hf. apply (IH v1 n1 v' fuel Hat2 Hv). lia.
Qed.

Lemma for_each_refines v n v' k : at_turn error v n -> visited v = [] -> visit_all update visit k v = Some v' ->
  exists n', for_each_callback body n = Some n'
    /\ at_turn error (mkTurn [] (visited v') (added v') (next_token v') (log v')) n'.
Proof using visit_todo body_refines.
  intros Hat Hvis Hv. unfold for_each_callback. pose proof (at_callbacks _ _ _ Hat) as Hcb. rewrite Hvis in Hcb. cbn in Hcb.
  rewrite REALM_ASSERT_DEBUG_true.
  2: { apply bool_decide_eq_true. rewrite (at_count _ _ _ Hat), Hvis, Hcb, length_app. cbn. lia. }
  mrun. destruct (loop_refines k v n v' (S (length (m_callbacks (set_index (m_callback_index n +! 1) n)))) Hat Hv)
    as (n' & -> & Hat' & Htd).
  { cbn. rewrite Hcb, length_app. lia. }
  mrun. eexists. split; [done|]. rewrite set_index_idem.
  destruct Hat' as [[Hnd Hold Hh Hix' Hs] Hcb' Hix Hct Hnx Hlg Hrm Her]. rewrite Htd in Hcb', Hct. cbn in Hcb'.
  split; cbn [visited todo added next_token log]; try done.
  - split; cbn; try done. by left.
  - cbn. rewrite Hct. cbn. lia.
Qed.
End loop.

(** ** The three loops *)

Lemma on_visited f vis c rest add next lg n : (forall c, token (f c) = token c) ->
  at_turn error (mkTurn (vis ++ [c]) rest add next lg) n ->
  at_turn error (mkTurn (vis ++ [f c]) rest add next lg) (on_callback f (length vis) n).
Proof using Type.
  intros Hf [Hok Hcb Hix Hct Hnx Hlg Hrm Her]. cbn [visited todo added next_token log] in *.
  assert (Halt : alter f (length vis) (m_callbacks n) = (vis ++ [f c]) ++ rest ++ add).
  { rewrite Hcb, <- !app_assoc, <- (Nat.add_0_r (length vis)). by rewrite alter_app_r. }
  unfold on_callback. rewrite Halt. split; cbn [visited todo added next_token log]; try done.
  - apply with_callbacks_ok; [|done]. rewrite Hcb, !fmap_app. cbn. by rewrite Hf.
  - cbn. rewrite Hix, !length_app. done.
  - cbn. rewrite Hct, !length_app. done.
Qed.

Lemma visited_lookup vis c rest add next lg n : at_turn error (mkTurn (vis ++ [c]) rest add next lg) n ->
  m_callbacks n !! length vis = Some c.
Proof using Type. intros Hat. rewrite (at_callbacks _ _ _ Hat). cbn. rewrite <- app_assoc. by apply list_lookup_middle. Qed.

Lemma before_advance_refines v n v' k : at_turn error v n -> visited v = [] ->
  visit_all id (visit_before realm_state script error) k v = Some v' ->
  exists n', before_advance realm_state script n = Some n'
    /\ at_turn error (mkTurn [] (visited v') (added v') (next_token v') (log v')) n'.
Proof using Type.
  intros Hat Hvis Hv. eapply for_each_refines; [| |exact Hat|exact Hvis|exact Hv].
  - intros c w w'. unfold visit_before. destruct (changeset_empty _); [by intros [= <-]|].
    destruct (fn c); [|done]. mrun. apply spec_invoke_todo.
  - intros vis c rest add next lg m w Hm. unfold visit_before, before_callback. rewrite (visited_lookup _ _ _ _ _ _ _ Hm). mrun. unfold id.
    destruct (changeset_empty _); [intros [= <-]; by exists m|]. destruct (fn c); [|done]. mrun. by apply spec_invoke_refines.
Qed.

Lemma after_advance_refines v n v' k : at_turn error v n -> visited v = [] ->
  visit_all update_after (visit_after realm_state script error) k v = Some v' ->
  exists n', after_advance realm_state script n = Some n'
    /\ at_turn error (mkTurn [] (visited v') (added v') (next_token v') (log v')) n'.
Proof using Type.
  intros Hat Hvis Hv. eapply for_each_refines; [| |exact Hat|exact Hvis|exact Hv].
  - intros c w w'. unfold visit_after. destruct (has_delivered _); [by intros [= <-]|].
    destruct (fn c); [|done]. mrun. apply spec_invoke_todo.
  - intros vis c rest add next lg m w Hm. unfold visit_after, after_callback, update_after. rewrite (visited_lookup _ _ _ _ _ _ _ Hm). mrun.
    fold (has_delivered c). destruct (has_delivered c); [intros [= <-]; by exists m|]. destruct (fn c); [|done]. mrun.
    apply spec_invoke_refines. by apply (on_visited (λ c, set_to_deliver empty_changeset (set_initial_delivered c))).
Qed.

Lemma deliver_error_refines e v n v' k : at_turn error v n -> error = true -> visited v = [] -> added v = [] ->
  visit_all (set_fn None) (visit_error realm_state script error e) k v = Some v' ->
  exists n', deliver_error realm_state script e n = Some n'
    /\ at_turn error (mkTurn [] (visited v') (added v') (next_token v') (log v')) n'.
Proof using Type.
  intros Hat He Hvis Hadd Hv. unfold deliver_error.
  assert (Hat1 : at_turn error v (set_count (Z.of_nat (length (m_callbacks (set_error n)))) (set_error n))).
  { destruct Hat as [[] Hcb ? Hct ? ? ? ?]. split; try done. cbn. rewrite Hcb, Hvis, Hadd, app_nil_r. cbn. lia. }
  eapply for_each_refines; [| |exact Hat1|exact Hvis|exact Hv].
  - intros c w w'. unfold visit_error. destruct (fn c); [|done]. mrun.
    destruct (spec_invoke _ _ _ _ w) as [w1|] eqn:Hi; [|done]. mrun. intros Hr. apply spec_invoke_todo in Hi. apply spec_op_todo in Hr. lia.
  - intros vis c rest add next lg m w Hm. unfold visit_error, error_callback. rewrite (visited_lookup _ _ _ _ _ _ _ Hm). mrun.
    destruct (fn c) as [f|]; [|done]. mrun. destruct (spec_invoke _ _ _ _ _) as [w1|] eqn:Hi; [|done]. mrun.
    destruct (spec_invoke_refines (call_error f e) _ (on_callback (set_fn None) (length vis) m) w1
      (on_visited (set_fn None) _ _ _ _ _ _ _ (λ _, eq_refl) Hm) Hi) as (m1 & -> & Hm1).
    mrun. by apply spec_remove.
Qed.
End refine.
