(* ===== verification/Notifiers.v ===== *)
(** * The notifiers of results, lists and objects

    impl/results_notifier.cpp, impl/list_notifier.cpp,
    impl/primitive_list_notifier.cpp and impl/object_notifier.cpp: what each
    computes in [run] and hands to its callbacks. *)

From S2P Require Import Core Prelude ChunkedRangeVector IndexSet ChangeBuilder ChangeCalculation TransactInfo.
From S2P Require Import DeepChecker CollectionNotifier.

(** ** What is read of the containers

    The columns of the row a list or subtable belongs to, with the number of the
    container in each. *)
Record Container := mkContainer {
  c_attached : bool;
  c_id : nat;
  c_parent_table : Z;
  c_parent_row : Z;
  c_parent_columns : list (DataType * nat);
  c_rows : list Z;
  c_target_table : Z;
}.

Definition c_size (c : Container) : Z := Z.of_nat (length (c_rows c)).

(** [find_container_column]: [None] where the source is unreachable. *)
Definition find_container_column (columns : list (DataType * nat)) (expected : nat) (type : DataType) : option nat :=
  find_index (λ c, bool_decide (c.1 = type) && bool_decide (c.2 = expected)) columns.

(** The list is observed: its builder is at the address [a] of the notifier's. *)
Definition push_container (c : Container) (type : DataType) (a : nat) (change : CollectionChangeBuilder)
    (info : TransactionChangeInfo) : option TransactionChangeInfo :=
  col_ndx ← find_container_column (c_parent_columns c) (c_id c) type;
  let info := set_list_builders (<[a := change]> (list_builders info)) info in
  Some (set_lists (lists info ++ [mkListChangeInfo (c_parent_table c) (c_parent_row c) (Z.of_nat col_ndx) a]) info).

(** [v[i] = true], after making room. *)
Definition need_index (ndx : Z) (needed : list bool) : list bool :=
  let needed := if bool_decide (Z.of_nat (length needed) <= ndx)%Z
                then vec_resize (Z.to_nat (ndx + 1)) false needed else needed in
  <[Z.to_nat ndx := true]> needed.

Definition has {A} (x : option A) : bool := match x with Some _ => true | None => false end.

Section notifiers.
Context `{Build, StdOrders, LinkTables}.

(** ** Lists and lists of primitives

    Both keep the container, in handover form while no [SharedGroup] is attached,
    its size and the change. *)
Record list_notifier := mkListNotifier {
  l_base : notifier;
  l_related_tables : list RelatedTable;
  m_container : option Container;
  m_container_handover : option Container;
  m_prev_size : Z;
  m_change : CollectionChangeBuilder;
}.

Definition set_change (x : CollectionChangeBuilder) (l : list_notifier) : list_notifier :=
  mkListNotifier (l_base l) (l_related_tables l) (m_container l) (m_container_handover l) (m_prev_size l) x.
Definition set_prev_size (x : Z) (l : list_notifier) : list_notifier :=
  mkListNotifier (l_base l) (l_related_tables l) (m_container l) (m_container_handover l) x (m_change l).
Definition set_container (x y : option Container) (l : list_notifier) : list_notifier :=
  mkListNotifier (l_base l) (l_related_tables l) x y (m_prev_size l) (m_change l).
Definition set_related (x : list RelatedTable) (l : list_notifier) : list_notifier :=
  mkListNotifier (l_base l) x (m_container l) (m_container_handover l) (m_prev_size l) (m_change l).
Definition set_base (x : notifier) (l : list_notifier) : list_notifier :=
  mkListNotifier x (l_related_tables l) (m_container l) (m_container_handover l) (m_prev_size l) (m_change l).

(** The constructors; the related tables are those of [set_table]'s argument. *)
Definition new_list_notifier (table : Z) (version : Z) (c : Container) : option list_notifier :=
  related ← DeepChecker.set_table table;
  Some (mkListNotifier (new_notifier version) related None (Some c) (c_size c) empty_builder).

Definition ListNotifier (version : Z) (lv : Container) : option list_notifier :=
  new_list_notifier (c_target_table lv) version lv.
Definition PrimitiveListNotifier (version : Z) (table : Container) : option list_notifier :=
  new_list_notifier (c_parent_table table) version table.

Definition list_do_attach_to (l : list_notifier) : option list_notifier :=
  _ ← REALM_ASSERT (has (m_container_handover l));
  _ ← REALM_ASSERT (negb (has (m_container l)));
  Some (set_container (m_container_handover l) None l).

Definition list_do_detach_from (l : list_notifier) : option list_notifier :=
  _ ← REALM_ASSERT (negb (has (m_container_handover l)));
  match m_container l with
  | Some c => Some (set_container None (Some c) l)
  | None => Some l
  end.

Definition list_release_data (l : list_notifier) : list_notifier := set_container None (m_container_handover l) l.

Definition attached (l : list_notifier) : option Container :=
  match m_container l with Some c => if c_attached c then Some c else None | None => None end.

Definition list_do_add_required_change_info (type : DataType) (a : nat) (info : TransactionChangeInfo) (l : list_notifier)
  : option (TransactionChangeInfo * bool) :=
  _ ← REALM_ASSERT (negb (has (m_container_handover l)));
  match attached l with
  | None => Some (info, false)
  | Some c => info ← push_container c type a (m_change l) info; Some (info, true)
  end.

(** The container was deleted. *)
Definition run_detached (l : list_notifier) : option list_notifier :=
  if bool_decide (m_prev_size l ≠ 0)%Z then
    d ← IndexSet.set (m_prev_size l);
    Some (set_prev_size 0 (set_change (set_deletions d (m_change l)) l))
  else Some (set_change empty_builder l).

(** [if (!modifications.contains(i) && row_did_change(row)) modifications.add(i)] *)
Definition mark_index (info : TransactionChangeInfo) (related : list RelatedTable) (f : modification_checker)
    (c : Container) (i : Z) (st : IndexSet * checker) : option (IndexSet * checker) :=
  let '(d, ch) := st in
  marked ← contains d i;
  if marked : bool then Some st
  else
    row ← c_rows c !! Z.to_nat i;
    '(ch, changed) ← row_did_change info related f row ch;
    if changed : bool then d ← add d i; Some (d, ch) else Some (d, ch).

(** [ListNotifier::run] *)
Definition list_run (info : TransactionChangeInfo) (l : list_notifier) : option list_notifier :=
  match attached l with
  | None => run_detached l
  | Some c =>
      '(related, f) ← get_modification_checker info (c_target_table c) (l_related_tables l);
      let l := set_related related l in
      st ← foldM (mark_index info related f c) (seqZ 0 (c_size c)) (modifications (m_change l), initial_checker);
      '(d, _) ← foldM (λ move, mark_index info related f c (move_to move)) (moves (m_change l)) st;
      Some (set_prev_size (c_size c) (set_change (set_modifications d (m_change l)) l))
  end.

(** [PrimitiveListNotifier::run] *)
Definition primitive_list_run (l : list_notifier) : option list_notifier :=
  match attached l with
  | None => run_detached l
  | Some c =>
      cleared ← (if bool_decide (deletions (m_change l) = []) then Some false
                 else r ← deref (deletions (m_change l)) (it_begin (deletions (m_change l))); Some (bool_decide (r.2 = npos)));
      l ← (if cleared : bool then d ← IndexSet.set (m_prev_size l); Some (set_change (set_deletions d (m_change l)) l)
           else Some l);
      Some (set_prev_size (c_size c) l)
  end.

(** [add_changes(std::move(m_change))], which leaves the change empty. *)
Definition list_do_prepare_handover (l : list_notifier) : option list_notifier :=
  n ← add_changes (m_change l) (l_base l);
  Some (set_change empty_builder (set_base n l)).

(** ** Objects *)

Record Row := mkObjectRow { row_attached : bool; row_table : Z; row_ndx_in_table : Z }.

Record object_notifier := mkObjectNotifier {
  o_base : notifier;
  o_related_tables : list RelatedTable;
  m_row : option Row;
  m_handover : option Row;
  o_change : CollectionChangeBuilder;
}.

Definition set_row (x y : option Row) (o : object_notifier) : object_notifier :=
  mkObjectNotifier (o_base o) (o_related_tables o) x y (o_change o).
Definition set_object_change (x : CollectionChangeBuilder) (o : object_notifier) : object_notifier :=
  mkObjectNotifier (o_base o) (o_related_tables o) (m_row o) (m_handover o) x.

Definition ObjectNotifier (version : Z) (row : Row) : option object_notifier :=
  _ ← REALM_ASSERT (row_attached row);
  related ← DeepChecker.set_table (row_table row);
  Some (mkObjectNotifier (new_notifier version) related None (Some row) empty_builder).

Definition object_do_attach_to (o : object_notifier) : option object_notifier :=
  _ ← REALM_ASSERT (has (m_handover o));
  _ ← REALM_ASSERT (negb (has (m_row o)));
  Some (set_row (m_handover o) None o).

Definition object_do_detach_from (o : object_notifier) : option object_notifier :=
  _ ← REALM_ASSERT (negb (has (m_handover o)));
  match m_row o with
  | Some row => Some (set_row None (Some row) o)
  | None => Some o
  end.

Definition object_release_data (o : object_notifier) : object_notifier := set_row None (m_handover o) o.

Definition object_do_add_required_change_info (info : TransactionChangeInfo) (o : object_notifier)
  : option (TransactionChangeInfo * bool) :=
  _ ← REALM_ASSERT (negb (has (m_handover o)));
  match m_row o with
  | Some row =>
      if row_attached row then
        Some (set_needed (need_index (row_table row) (table_modifications_needed info)) (table_moves_needed info) info, false)
      else Some (info, false)
  | None => Some (info, false)
  end.

(** One column of the loop of [run]. *)
Definition object_column (ndx : Z) (col : IndexSet) (cols : list IndexSet) : option (list IndexSet) :=
  marked ← contains col ndx;
  if marked : bool then d ← add [] 0; Some (cols ++ [d]) else Some (cols ++ [[]]).

Definition object_run (info : TransactionChangeInfo) (o : object_notifier) : option object_notifier :=
  match m_row o with
  | None => Some o
  | Some row =>
      if negb (row_attached row) then
        d ← add (deletions (o_change o)) 0;
        Some (set_row None (m_handover o) (set_object_change (set_deletions d (o_change o)) o))
      else if bool_decide (Z.of_nat (length (tables info)) <= row_table row)%Z then Some o
      else
        change ← tables info !! Z.to_nat (row_table row);
        modified ← contains (modifications change) (row_ndx_in_table row);
        if negb modified then Some o
        else
          d ← add (modifications (o_change o)) 0;
          cols ← foldM (object_column (row_ndx_in_table row)) (ChangeBuilder.columns change) (ChangeBuilder.columns (o_change o));
          Some (set_object_change (set_columns cols (set_modifications d (o_change o))) o)
  end.

Definition object_do_prepare_handover (o : object_notifier) : option object_notifier :=
  n ← add_changes (o_change o) (o_base o);
  Some (mkObjectNotifier n (o_related_tables o) (m_row o) (m_handover o) empty_builder).

(** ** Results *)

(** What is read of a query when it runs: whether its table is attached and
    where, its version, the rows it finds in the order of the descriptors, and
    whether these sort. A subtable has its place in the parent. *)
Record QueryState := mkQueryState {
  q_attached : bool;
  q_table : Z;
  q_subtable : Container;
  q_version : Z;
  q_rows : list Z;
  q_sorts : bool;
}.

(** The target [Results] is its number; [delivered] is the table view it was
    given last. A table view is its rows, a handed-over one has a version. *)
Record results_notifier := mkResultsNotifier {
  r_base : notifier;
  r_related_tables : list RelatedTable;
  m_target_results : nat;
  m_target_is_in_table_order : bool;
  m_query_handover : bool;
  m_query : bool;
  m_tv : option (list Z);
  m_tv_handover : option (list Z * Z);
  m_tv_to_deliver : option (list Z * Z);
  m_last_seen_version : Z;
  m_previous_rows : list Z;
  m_changes : CollectionChangeBuilder;
  delivered : option (list Z);
}.

Definition ResultsNotifier (version : Z) (target : nat) (target_is_in_table_order : bool) (q : QueryState)
  : option results_notifier :=
  related ← DeepChecker.set_table (q_table q);
  Some (mkResultsNotifier (new_notifier version) related target target_is_in_table_order true false None None None
    npos [] empty_builder None).

Definition target_results_moved (old_target new_target : nat) (r : results_notifier) : option results_notifier :=
  _ ← REALM_ASSERT (bool_decide (m_target_results r = old_target));
  Some (mkResultsNotifier (r_base r) (r_related_tables r) new_target (m_target_is_in_table_order r) (m_query_handover r)
    (m_query r) (m_tv r) (m_tv_handover r) (m_tv_to_deliver r) (m_last_seen_version r) (m_previous_rows r) (m_changes r) (delivered r)).

Definition set_query (handover q : bool) (r : results_notifier) : results_notifier :=
  mkResultsNotifier (r_base r) (r_related_tables r) (m_target_results r) (m_target_is_in_table_order r) handover
    q (m_tv r) (m_tv_handover r) (m_tv_to_deliver r) (m_last_seen_version r) (m_previous_rows r) (m_changes r) (delivered r).
Definition set_tv (tv : option (list Z)) (handover to_deliver : option (list Z * Z)) (r : results_notifier) : results_notifier :=
  mkResultsNotifier (r_base r) (r_related_tables r) (m_target_results r) (m_target_is_in_table_order r) (m_query_handover r)
    (m_query r) tv handover to_deliver (m_last_seen_version r) (m_previous_rows r) (m_changes r) (delivered r).
Definition set_last_seen (v : Z) (r : results_notifier) : results_notifier :=
  mkResultsNotifier (r_base r) (r_related_tables r) (m_target_results r) (m_target_is_in_table_order r) (m_query_handover r)
    (m_query r) (m_tv r) (m_tv_handover r) (m_tv_to_deliver r) v (m_previous_rows r) (m_changes r) (delivered r).
Definition set_results (related : list RelatedTable) (rows : list Z) (b : CollectionChangeBuilder) (r : results_notifier) : results_notifier :=
  mkResultsNotifier (r_base r) related (m_target_results r) (m_target_is_in_table_order r) (m_query_handover r)
    (m_query r) (m_tv r) (m_tv_handover r) (m_tv_to_deliver r) (m_last_seen_version r) rows b (delivered r).
Definition set_results_base (n : notifier) (r : results_notifier) : results_notifier :=
  mkResultsNotifier n (r_related_tables r) (m_target_results r) (m_target_is_in_table_order r) (m_query_handover r)
    (m_query r) (m_tv r) (m_tv_handover r) (m_tv_to_deliver r) (m_last_seen_version r) (m_previous_rows r) (m_changes r) (delivered r).
Definition set_delivered (x : option (list Z)) (r : results_notifier) : results_notifier :=
  mkResultsNotifier (r_base r) (r_related_tables r) (m_target_results r) (m_target_is_in_table_order r) (m_query_handover r)
    (m_query r) (m_tv r) (m_tv_handover r) (m_tv_to_deliver r) (m_last_seen_version r) (m_previous_rows r) (m_changes r) x.

Definition results_do_attach_to (r : results_notifier) : option results_notifier :=
  _ ← REALM_ASSERT (m_query_handover r);
  _ ← REALM_ASSERT_RELEASE (m_query_handover r);
  Some (set_query false true r).

Definition results_do_detach_from (r : results_notifier) : option results_notifier :=
  _ ← REALM_ASSERT (m_query r);
  _ ← REALM_ASSERT (negb (has (m_tv r)));
  _ ← REALM_ASSERT_RELEASE (m_query r);
  Some (set_query true false r).

Definition results_release_data (r : results_notifier) : results_notifier := set_query (m_query_handover r) false r.

(** [a] is the address of [m_changes]. *)
Definition results_do_add_required_change_info (q : QueryState) (a : nat) (info : TransactionChangeInfo) (r : results_notifier)
  : option (TransactionChangeInfo * bool) :=
  _ ← REALM_ASSERT (m_query r);
  if negb (q_attached q) then Some (info, false)
  else
    info ← (if bool_decide (q_table q = npos) then push_container (q_subtable q) type_Table a (m_changes r) info
            else Some (set_needed (table_modifications_needed info) (need_index (q_table q) (table_moves_needed info)) info));
    Some (info, m_has_run (r_base r) && m_have_callbacks (r_base r)).

Definition need_to_run (q : QueryState) (wants_background_updates : bool) (r : results_notifier) : option bool :=
  _ ← REALM_ASSERT (negb (has (m_tv r)));
  if negb (m_realm (r_base r)) || (negb (m_have_callbacks (r_base r)) && negb wants_background_updates) then Some false
  else if m_has_run (r_base r) && bool_decide (q_version q = m_last_seen_version r) then Some false
  else Some true.

(** Where a row of the previous version is now. *)
Definition update_row (changes : CollectionChangeBuilder) (idx : Z) : option Z :=
  deleted ← contains (deletions changes) idx;
  if deleted : bool then
    match moves changes !! lower_bound (λ a, bool_decide (move_from a < idx)%Z) (moves changes) with
    | Some m => if bool_decide (move_from m = idx) then Some (move_to m) else Some npos
    | None => Some npos
    end
  else u ← unshift (deletions changes) idx; shift (insertions changes) u.

(** The builder of the table the query is on. *)
Definition changes_of_table (q : QueryState) (info : TransactionChangeInfo) (r : results_notifier) : option CollectionChangeBuilder :=
  if bool_decide (q_table q = npos) then Some (m_changes r)
  else if bool_decide (q_table q < Z.of_nat (length (tables info)))%Z then tables info !! Z.to_nat (q_table q) else None.

Definition calculate_changes (q : QueryState) (info : TransactionChangeInfo) (r : results_notifier) : option results_notifier :=
  let next_rows := q_rows q in
  if m_has_run (r_base r) && m_have_callbacks (r_base r) then
    '(previous, move_candidates) ← (match changes_of_table q info r with
      | Some changes =>
          previous ← mapM_vec (update_row changes) (m_previous_rows r);
          Some (previous, if m_target_is_in_table_order r && negb (q_sorts q) then Some (insertions changes) else None)
      | None => Some (m_previous_rows r, None)
      end);
    '(related, f) ← get_modification_checker info (q_table q) (r_related_tables r);
    b ← calculate previous next_rows (row_did_change info related f) initial_checker move_candidates;
    Some (set_results related next_rows b r)
  else Some (set_results (r_related_tables r) next_rows (m_changes r) r).

Definition results_run (q : QueryState) (wants_background_updates : bool) (info : TransactionChangeInfo) (r : results_notifier)
  : option results_notifier :=
  if negb (q_attached q) then
    d ← IndexSet.set (Z.of_nat (length (m_previous_rows r)));
    Some (set_results (r_related_tables r) [] (set_deletions d empty_builder) r)
  else
    needed ← need_to_run q wants_background_updates r;
    if needed : bool then
      let r := set_tv (Some (q_rows q)) (m_tv_handover r) (m_tv_to_deliver r) r in
      calculate_changes q info (set_last_seen (q_version q) r)
    else Some r.

Definition results_do_prepare_handover (version : Z) (r : results_notifier) : option results_notifier :=
  n ← add_changes (m_changes r) (r_base r);
  let r := set_results (r_related_tables r) (m_previous_rows r) empty_builder (set_results_base n r) in
  match m_tv r with
  | None => Some (set_tv None ((λ h, (h.1, version)) <$> m_tv_handover r) (m_tv_to_deliver r) r)
  | Some rows => Some (set_tv None (Some (rows, version)) (m_tv_to_deliver r) r)
  end.

Definition results_prepare_to_deliver (r : results_notifier) : results_notifier * bool :=
  if negb (m_realm (r_base r)) then (r, false)
  else (set_tv (m_tv r) None (m_tv_handover r) r, true).

Definition results_deliver (r : results_notifier) : option results_notifier :=
  if negb (m_realm (r_base r)) then Some r
  else
    _ ← REALM_ASSERT (negb (m_query_handover r));
    match m_tv_to_deliver r with
    | Some (rows, _) => Some (set_delivered (Some rows) (set_tv (m_tv r) (m_tv_handover r) None r))
    | None => Some r
    end.
End notifiers.
