(* ===== verification/ResultsFacts.v ===== *)
(** * What a results notifier computes

    The rows of the previous run are brought to their place in the new version of
    the table; the diff with the new rows then explains the change of the objects
    of the collection. *)

From S2P Require Import Core Prelude ChunkedRangeVector ChunkedFacts IndexSet IndexSetFacts IndexSetWalk.
From S2P Require Import CorrFacts ChangeBuilder ChangeFacts ChangeMove ChangeTable ChangeMerge ChangeCompose.
From S2P Require Import ChangeComplete ChangeCalculation TransactInfo TransactLog KVO TransactFacts.
From S2P Require Import ListRefinement MatchedRows SortedCalculation CalculateFacts DeepChecker.
From S2P Require Import DeepCheckerFacts CollectionNotifier Notifiers ChunkedOps LoopFacts.

Section rows.
Context `{HB : Build}.

(** ** Previous rows *)

(** The binary search agrees with the scan for the first move not before. *)
Lemma lower_bound_find (l : list Move) idx : by_source l ->
  l !! lower_bound (λ a, bool_decide (move_from a < idx)%Z) l
    = (k ← find_index (λ a, negb (bool_decide (move_from a < idx)%Z)) l; l !! k).
Proof.
  intros Hs. destruct (find_index_cases (λ a, negb (bool_decide (move_from a < idx)%Z)) l)
    as [[Hall ->]|(l1 & m & l2 & -> & Hall & Hm & ->)]; cbn [mbind option_bind].
  - rewrite (lower_bound_spec _ l (length l)); [by apply lookup_ge_None|]. split; [done|]. intros i x Hx.
    rewrite Forall_forall in Hall. pose proof (lookup_lt_Some _ _ _ Hx). apply list_elem_of_lookup_2, Hall in Hx. cbn in Hx.
    apply negb_false_iff in Hx. rewrite Hx. by rewrite bool_decide_true.
  - f_equal. apply lower_bound_spec. split; [rewrite length_app; lia|]. intros i x Hx.
    destruct (decide (i < length l1)) as [Hi|Hi].
    + rewrite lookup_app_l in Hx by done. rewrite Forall_forall in Hall. apply list_elem_of_lookup_2, Hall, negb_false_iff in Hx.
      by rewrite Hx, bool_decide_true.
    + rewrite (bool_decide_false (i < _)) by done. rewrite lookup_app_r in Hx by lia.
      apply negb_true_iff, bool_decide_eq_false in Hm. apply bool_decide_eq_false.
      apply StronglySorted_app in Hs as (_ & _ & Hs). inversion Hs as [|? ? _ Hle]; subst. rewrite Forall_forall in Hle.
      apply list_elem_of_lookup_2, elem_of_cons in Hx as [->|Hx]; [done|]. specialize (Hle x Hx). lia.
Qed.

(** The new place of a row: that of the same row, [npos] when there is none. *)
Definition row_now (b : CollectionChangeBuilder) (idx r : Z) : Prop :=
  tracks b idx r \/ (r = npos /\ forall z, ~ tracks b idx z).

Lemma update_row_spec b idx : wf_builder b -> wf_moves b -> by_source (moves b) ->
  (0 <= idx)%Z -> (idx + total (flat (insertions b)) < npos)%Z ->
  exists r, update_row b idx = Some r /\ row_now b idx r.
Proof.
  intros Hwf Hmv Hs Hidx Hsum. unfold update_row. rewrite lower_bound_find by done.
  pose proof (find_move_spec (moves b) idx Hs) as Hfind.
  assert (Hun : (forall m, m ∈ moves b -> move_from m <> idx) -> exists r,
    (deleted ← contains (deletions b) idx;
     if deleted : bool then Some npos else u ← unshift (deletions b) idx; shift (insertions b) u) = Some r /\ row_now b idx r).
  { intros Hno. destruct (unmoved_row_spec b idx Hwf Hmv Hidx Hsum Hno) as (r & Hr & Hrow). revert Hr.
    destruct (contains (deletions b) idx) as [[]|]; mrun; [| |done].
    - intros [= <-]. exists npos. split; [done|by right].
    - destruct (unshift (deletions b) idx) as [u|]; mrun; [|done]. destruct (shift (insertions b) u) as [z|]; mrun; [|done].
      intros [= <-]. exists z. split; [done|by left]. }
  pose proof Hwf as [HD _ _ _]. rewrite contains_member in * by done. mrun.
  destruct (_ ← find_index _ _; _) as [m|].
  - case_decide as Hd.
    + assert (Hdel : move_from m ∈ deletions b). { destruct Hmv as [Hok _ _]. rewrite Forall_forall in Hok. by apply Hok. }
      rewrite <- Hd, (bool_decide_true (_ ∈ _)) by done. rewrite (bool_decide_true (_ = _)) by done. eexists. split; [done|].
      left. right. by destruct m.
    + rewrite (bool_decide_false (move_from m = idx)) by done. by apply Hun.
  - by apply Hun.
Qed.

Lemma update_rows_spec b prev : wf_builder b -> wf_moves b -> by_source (moves b) ->
  Forall (λ idx, 0 <= idx /\ idx + total (flat (insertions b)) < npos)%Z prev ->
  exists prev', mapM_vec (update_row b) prev = Some prev' /\ Forall2 (row_now b) prev prev'.
Proof.
  intros Hwf Hmv Hs. induction 1 as [|idx prev [? ?] _ IH]; [by exists []|]. cbn [mapM_vec].
  destruct (update_row_spec b idx) as (r & -> & Hr); [done..|]. mrun. destruct IH as (prev' & -> & Hf). mrun.
  exists (r :: prev'). split; [done|]. by constructor.
Qed.

(** ** Objects *)

(** The rows of the diff stand for objects: [objs] are the old ones, [obj] is
    the object of a row of the new version. *)
Lemma diff_explains_objects {A} (objs : list A) (obj : Z -> A) prev next changed b : diff_of prev next changed b ->
  length objs = length prev -> npos ∉ next ->
  (forall i r, prev !! i = Some r -> r <> npos -> objs !! i = Some (obj r)) ->
  explains b objs (obj <$> next).
Proof.
  intros Hb Hlen Hnp Hobj. destruct (diff_explains prev next changed b Hb) as [Hw Hv]. rewrite <- Hlen in Hw.
  split; [by rewrite length_fmap|]. intros x y Ht Hy. rewrite length_fmap in Hy. right.
  destruct (diff_tracks prev next changed b x y Hb Ht) as [Hxy Heq]. specialize (Heq Hy). rewrite list_lookup_fmap, Heq.
  assert (Hx : (x < Z.of_nat (length prev))%Z) by (by apply Hxy).
  destruct (df_wf _ _ _ _ Hb) as [Hwf Hmv]. assert (Hnn : (0 <= x)%Z /\ (0 <= y)%Z).
  { destruct Ht as [(? & ? & _)|Hm]; [done|]. destruct Hmv as [Hok _ _]. rewrite Forall_forall in Hok. destruct (Hok _ Hm) as [Hd Hi].
    apply (df_dels _ _ _ _ Hb) in Hd. apply (df_ins _ _ _ _ Hb) in Hi. cbn in *. lia. }
  destruct (lookup_lt_is_Some_2 prev (Z.to_nat x)) as [r Hr]; [lia|]. rewrite Hr. cbn. symmetry. apply Hobj; [done|].
  intros ->. apply Hnp. rewrite Hr in Heq. by eapply list_elem_of_lookup_2.
Qed.

(** ** The order in a table *)

(** A moved row stays in front of the rows that it was in front of and that did
    not move: what removing rows by moving the last one over does. *)
Definition moves_stay_in_front (b : CollectionChangeBuilder) : Prop := forall m x z,
  m ∈ moves b -> same_element b x z -> (move_from m < x)%Z -> (move_to m < z)%Z.

Lemma sorted_positions (l : list Z) : StronglySorted Z.lt l ->
  forall i j x y, l !! i = Some x -> l !! j = Some y -> (x < y)%Z -> i < j.
Proof.
  intros Hs i j x y Hi Hj Hlt. destruct (lt_eq_lt_dec i j) as [[|<-]|Hji]; [done|rewrite Hi in Hj; injection Hj; lia|].
  pose proof (sorted_lookup l Hs j i y x Hji Hj Hi). lia.
Qed.

(** The rows that are no candidates are not overtaken. *)
Lemma candidates_in_place c prev prev' next : wf_builder c -> wf_moves c -> moves_stay_in_front c ->
  StronglySorted Z.lt prev -> StronglySorted Z.lt next -> npos ∉ next -> Forall2 (row_now c) prev prev' ->
  forall r r' (i i' j j' : nat), prev' !! i = Some r -> prev' !! i' = Some r' -> next !! j = Some r -> next !! j' = Some r' ->
    r ∉ insertions c -> i' < i -> j' < j.
Proof.
  intros Hwf Hmv Hfront Hp Hn Hnp Hf r r' i i' j j' Hi Hi' Hj Hj' Hr Hlt.
  destruct (Forall2_lookup_r _ _ _ _ _ Hf Hi) as (x & Hx & Hrow), (Forall2_lookup_r _ _ _ _ _ Hf Hi') as (x' & Hx' & Hrow').
  assert (Hxx : (x' < x)%Z) by (by apply (sorted_lookup prev Hp i' i)).
  assert (Hne : forall (k : nat) q, next !! k = Some q -> q <> npos) by (intros k q Hk ->; apply Hnp; by eapply list_elem_of_lookup_2).
  destruct Hrow as [Hrow|[-> _]]; [|by destruct (Hne j npos)]. destruct Hrow' as [Hrow'|[-> _]]; [|by destruct (Hne j' npos)].
  destruct Hrow as [Hsame|Hm].
  2: { destruct Hmv as [Hok _ _]. rewrite Forall_forall in Hok. by destruct Hr, (Hok _ Hm). }
  apply (sorted_positions next Hn j' j r' r); [done..|]. destruct Hrow' as [Hsame'|Hm'].
  - pose proof Hwf as [[_ [HD _]] [_ [HI _]] _ _]. by apply (corr_mono _ _ HD HI _ _ _ _ Hsame' Hsame).
  - by apply (Hfront _ _ _ Hm' Hsame).
Qed.
End rows.

Section run.
Context `{HB : Build, HO : StdOrders, HT : LinkTables, HL : !LinkTablesLaws}.

(** The changes of the table of the query. *)
Definition table_changes (q : QueryState) (info : TransactionChangeInfo) : CollectionChangeBuilder :=
  match tables info !! Z.to_nat (q_table q) with Some c => c | None => empty_builder end.

(** What [run] finds: a notifier with callbacks that ran before, a query on a
    table of the group, and a log whose changes are in [info]. *)
Record ready_to_run (q : QueryState) (wants : bool) (info : TransactionChangeInfo) (r : results_notifier) : Prop := {
  rr_attached : q_attached q = true;
  rr_table : table_in_group (q_table q);
  rr_links : no_self_link (q_table q);
  rr_related : schema_changed info = true \/ DeepChecker.set_table (q_table q) = Some (r_related_tables r);
  rr_tables : Forall (λ b, wf (modifications b)) (tables info);
  rr_alive : m_realm (r_base r) = true;
  rr_callbacks : m_have_callbacks (r_base r) = true;
  rr_has_run : m_has_run (r_base r) = true;
  rr_tv : m_tv r = None;
  rr_version : q_version q <> m_last_seen_version r;
  rr_wf : wf_builder (table_changes q info) /\ wf_moves (table_changes q info) /\ by_source (moves (table_changes q info));
  rr_prev : Forall (λ idx, 0 <= idx /\ idx + total (flat (insertions (table_changes q info))) < npos)%Z (m_previous_rows r);
  rr_prev_once : NoDup (m_previous_rows r);
  rr_prev_small : (Z.of_nat (length (m_previous_rows r)) < npos)%Z;
  rr_next : Forall (λ idx, 0 <= idx < npos)%Z (q_rows q);
  rr_next_once : NoDup (q_rows q);
  rr_next_small : (Z.of_nat (length (q_rows q)) < npos)%Z;
  rr_order : m_target_is_in_table_order r = true -> q_sorts q = false ->
    StronglySorted Z.lt (m_previous_rows r) /\ StronglySorted Z.lt (q_rows q) /\ moves_stay_in_front (table_changes q info);
}.

Lemma row_now_empty idx r : (0 <= idx < npos)%Z -> row_now empty_builder idx r <-> r = idx.
Proof.
  intros Hi. unfold row_now. assert (He : forall z, tracks empty_builder idx z <-> (0 <= idx)%Z /\ idx = z) by (intros; by apply empty_tracks).
  split.
  - intros [[_ ->]%He|[_ Hno]]; [done|]. destruct (Hno idx). apply He. lia.
  - intros ->. left. apply He. lia.
Qed.

(** The old rows in the new version, and the candidates for moves. *)
Lemma previous_now q wants info r : ready_to_run q wants info r -> exists prev' cands,
  (match changes_of_table q info r with
   | Some changes =>
       previous ← mapM_vec (update_row changes) (m_previous_rows r);
       Some (previous, if m_target_is_in_table_order r && negb (q_sorts q) then Some (insertions changes) else None)
   | None => Some (m_previous_rows r, None)
   end) = Some (prev', cands)
  /\ Forall2 (row_now (table_changes q info)) (m_previous_rows r) prev'
  /\ forall d, cands = Some d -> d = insertions (table_changes q info)
       /\ m_target_is_in_table_order r = true /\ q_sorts q = false.
Proof.
  intros Hr. destruct (rr_wf _ _ _ _ Hr) as (Hwf & Hmv & Hs). pose proof (rr_prev _ _ _ _ Hr) as Hp.
  unfold changes_of_table. destruct (rr_table _ _ _ _ Hr) as [H0 Hg]. pose proof group_size_small.
  rewrite (bool_decide_false (_ = npos)) by lia. unfold table_changes in *. case_bool_decide as Hlt.
  - destruct (lookup_lt_is_Some_2 (tables info) (Z.to_nat (q_table q))) as [c Hc]; [lia|]. rewrite Hc in *.
    destruct (update_rows_spec c (m_previous_rows r) Hwf Hmv Hs Hp) as (prev' & -> & Hf). mrun. eexists _, _. split_and!; [done|done|].
    intros d Hd. destruct (m_target_is_in_table_order r); [|done]. destruct (q_sorts q); [done|]. cbn in Hd. by injection Hd as <-.
  - rewrite (proj2 (lookup_ge_None _ _)) in * by lia. eexists _, _. split_and!; [done| |done].
    clear Hr Hlt. induction Hp as [|idx l [? Hi] _ IH]; constructor; [|done]. apply row_now_empty; [|done].
    cbn in Hi. lia.
Qed.

Lemma results_run_spec {A} (obj0 obj1 : Z -> A) q wants info r : ready_to_run q wants info r ->
  (forall x z, tracks (table_changes q info) x z -> obj1 z = obj0 x) ->
  exists r', results_run q wants info r = Some r'
    /\ m_tv r' = Some (q_rows q) /\ m_previous_rows r' = q_rows q /\ m_last_seen_version r' = q_version q /\ r_base r' = r_base r
    /\ explains (m_changes r') (obj0 <$> m_previous_rows r) (obj1 <$> q_rows q)
    /\ (forall y, y ∈ modifications (m_changes r') -> exists row,
          q_rows q !! Z.to_nat y = Some row /\ deep_changed info (q_table q, row))
    /\ (forall (y : nat) row x, q_rows q !! y = Some row -> x ∈ m_previous_rows r -> tracks (table_changes q info) x row ->
          deep_changed info (q_table q, row) -> Z.of_nat y ∈ modifications (m_changes r')).
Proof.
  intros Hr Hobj. destruct (previous_now q wants info r Hr) as (prev' & cands & Hprev & Hf & Hcands).
  destruct (get_modification_checker_spec info (q_table q) (r_related_tables r) (rr_tables _ _ _ _ Hr) (rr_table _ _ _ _ Hr)
    (rr_related _ _ _ _ Hr) (rr_links _ _ _ _ Hr)) as (related & f & Hget & _ & Hcheck).
  set (changed := λ row, match row_did_change info related f row initial_checker with Some (_, b) => b | None => false end).
  assert (Hchanged : forall row, (0 <= row < npos)%Z -> changed row = true <-> deep_changed info (q_table q, row)).
  { intros row Hrow. destruct (Hcheck row initial_checker Hrow (initial_checker_ok _ _)) as (st' & b & Hrun & _ & Hb).
    unfold changed. by rewrite Hrun. }
  pose proof (rr_next _ _ _ _ Hr) as Hnext. rewrite Forall_forall in Hnext.
  assert (Hstep : forall row st, row ∈ q_rows q -> checker_ok info related st ->
    exists st', row_did_change info related f row st = Some (st', changed row) /\ checker_ok info related st').
  { intros row st Hrow Hok. specialize (Hnext row Hrow). destruct (Hcheck row st Hnext Hok) as (st' & b & Hrun & Hok' & Hb).
    exists st'. split; [|done]. rewrite Hrun. f_equal. f_equal. pose proof (Hchanged row Hnext) as Hc.
    destruct b, (changed row); [done| | |done]; exfalso; naive_solver. }
  assert (Hlen : length prev' = length (m_previous_rows r)) by (by apply Forall2_length in Hf).
  assert (Hnp : npos ∉ q_rows q) by (intros Hin%Hnext; lia).
  assert (Hcalc : exists b, calculate prev' (q_rows q) (row_did_change info related f) initial_checker cands = Some b
    /\ diff_of prev' (q_rows q) changed b).
  { pose proof (rr_prev_small _ _ _ _ Hr) as Hps. rewrite <- Hlen in Hps. pose proof (rr_next_small _ _ _ _ Hr) as Hns.
    destruct cands as [d|].
    - destruct (Hcands d eq_refl) as (-> & Hto & Hso). destruct (rr_order _ _ _ _ Hr Hto Hso) as (Hp & Hn & Hfront).
      destruct (rr_wf _ _ _ _ Hr) as (Hwf & Hmv & _).
      destruct (calculate_unsorted_spec prev' (q_rows q) (row_did_change info related f) initial_checker (checker_ok info related) changed
        Hps Hns (initial_checker_ok _ _) Hstep (insertions (table_changes q info))) as (b & Hb & Hd & _); [apply Hwf| | |by exists b].
      + apply StronglySorted_Sorted. eapply StronglySorted_weaken; [|exact Hn]. intros. lia.
      + by apply (candidates_in_place _ (m_previous_rows r)).
    - destruct (calculate_sorted_spec prev' (q_rows q) (row_did_change info related f) initial_checker (checker_ok info related) changed
        Hps Hns (initial_checker_ok _ _) Hstep) as (b & Hb & Hd & _). by exists b. }
  destruct Hcalc as (b & Hb & Hd). unfold results_run. rewrite (rr_attached _ _ _ _ Hr). cbn [negb].
  unfold need_to_run. rewrite (rr_tv _ _ _ _ Hr), REALM_ASSERT_true by done. mrun.
  rewrite (rr_alive _ _ _ _ Hr), (rr_callbacks _ _ _ _ Hr), (rr_has_run _ _ _ _ Hr). cbn [negb orb andb].
  rewrite bool_decide_false by apply (rr_version _ _ _ _ Hr). mrun. unfold calculate_changes. cbn [r_base set_last_seen set_tv].
  rewrite (rr_callbacks _ _ _ _ Hr), (rr_has_run _ _ _ _ Hr). cbn [andb].
  change (changes_of_table q info (set_last_seen (q_version q) (set_tv (Some (q_rows q)) (m_tv_handover r) (m_tv_to_deliver r) r)))
    with (changes_of_table q info r).
  cbn [m_previous_rows m_target_is_in_table_order set_last_seen set_tv r_related_tables]. rewrite Hprev. mrun. rewrite Hget. mrun. rewrite Hb. mrun.
  eexists. split; [done|]. cbn [m_tv m_previous_rows m_last_seen_version r_base m_changes set_results]. split_and!; [done..| | |].
  - apply (diff_explains_objects (obj0 <$> m_previous_rows r) obj1 prev' (q_rows q) changed); [done|by rewrite length_fmap|done|].
    intros i row Hi Hne. destruct (Forall2_lookup_r _ _ _ _ _ Hf Hi) as (x & Hx & [Ht|[-> _]]); [|done].
    by rewrite list_lookup_fmap, Hx; cbn; rewrite (Hobj x row Ht).
  - intros y Hy. apply (df_mods _ _ _ _ Hd) in Hy as (_ & row & Hrow & _ & _ & Hc). exists row. split; [done|].
    apply Hchanged; [|done]. apply Hnext. by eapply list_elem_of_lookup_2.
  - intros y row x Hy Hx Ht Hc. assert (Hrow : (0 <= row < npos)%Z) by (apply Hnext; by eapply list_elem_of_lookup_2).
    apply (df_all_mods _ _ _ _ Hd (rr_next_once _ _ _ _ Hr)) with (r := row); [|done| |lia|by apply Hchanged].
    + intros i j w Hi Hj Hne. destruct (Forall2_lookup_r _ _ _ _ _ Hf Hi) as (xi & Hxi & [Hti|[-> _]]); [|done].
      destruct (Forall2_lookup_r _ _ _ _ _ Hf Hj) as (xj & Hxj & [Htj|[-> _]]); [|done].
      destruct (rr_wf _ _ _ _ Hr) as (Hwf & Hmv & _). rewrite (tracks_inj _ _ _ _ Hwf Hmv Hti Htj) in Hxi.
      by eapply NoDup_lookup; [apply (rr_prev_once _ _ _ _ Hr)|..].
    + apply list_elem_of_lookup_1 in Hx as [i Hi]. destruct (Forall2_lookup_l _ _ _ _ _ Hf Hi) as (w & Hw & Hnow).
      destruct (rr_wf _ _ _ _ Hr) as (Hwf & Hmv & _). destruct Hnow as [Ht'|[_ Hno]]; [|by destruct (Hno row)].
      rewrite (tracks_fun _ _ _ _ Hwf Hmv Ht Ht'). by eapply list_elem_of_lookup_2.
Qed.
End run.

(** ** What list and object notifiers report

    A list notifier adds to the changes of the log the rows whose linked objects
    changed; an object notifier reports the object and its columns. *)

Section lists.
Context `{HB : Build, HO : StdOrders, HT : LinkTables, HL : !LinkTablesLaws}.

(** The list is attached, and its notifier gets the changes of the tables its
    rows lead to. *)
Record list_ready (c : Container) (info : TransactionChangeInfo) (l : list_notifier) : Prop := {
  lr_container : m_container l = Some c;
  lr_attached : c_attached c = true;
  lr_table : table_in_group (c_target_table c);
  lr_links : no_self_link (c_target_table c);
  lr_related : schema_changed info = true \/ DeepChecker.set_table (c_target_table c) = Some (l_related_tables l);
  lr_tables : Forall (λ b, wf (modifications b)) (tables info);
  lr_rows : Forall (λ r, 0 <= r < npos)%Z (c_rows c);
  lr_small : (c_size c < npos)%Z;
}.

Lemma attached_ready c info l : list_ready c info l -> attached l = Some c.
Proof. intros Hr. unfold attached. by rewrite (lr_container _ _ _ Hr), (lr_attached _ _ _ Hr). Qed.

Definition row_changed (info : TransactionChangeInfo) (c : Container) (i : Z) : Prop :=
  exists row, c_rows c !! Z.to_nat i = Some row /\ deep_changed info (c_target_table c, row).

Lemma mark_index_eq info related f c i d ch : mark_index info related f c i (d, ch) = (
  marked ← contains d i;
  if marked : bool then Some (d, ch)
  else
    row ← c_rows c !! Z.to_nat i;
    '(ch, changed) ← row_did_change info related f row ch;
    if changed : bool then d ← add d i; Some (d, ch) else Some (d, ch)).
Proof. done. Qed.

Lemma mark_indices info c related f ixs :
  (forall idx st, (0 <= idx < npos)%Z -> checker_ok info related st ->
     exists st' b, row_did_change info related f idx st = Some (st', b) /\ checker_ok info related st'
       /\ (b = true <-> deep_changed info (c_target_table c, idx))) ->
  Forall (λ r, 0 <= r < npos)%Z (c_rows c) -> (c_size c < npos)%Z ->
  Forall (λ i, 0 <= i < c_size c)%Z ixs -> forall d st, wf d -> checker_ok info related st ->
  exists d' st', foldM (mark_index info related f c) ixs (d, st) = Some (d', st') /\ wf d' /\ checker_ok info related st'
    /\ forall x, x ∈ d' <-> x ∈ d \/ (x ∈ ixs /\ row_changed info c x).
Proof.
  intros Hf Hrows Hsm His. induction His as [|i ixs Hi His IH]; intros d st Hd Hst; cbn [foldM].
  - exists d, st. split_and!; [done..|]. intros x. split; [by left|]. intros [?|[Hx _]]; [done|]. by apply not_elem_of_nil in Hx.
  - rewrite mark_index_eq, contains_member by done. mrun. unfold c_size in *.
    destruct (lookup_lt_is_Some_2 (c_rows c) (Z.to_nat i)) as [row Hrow]; [lia|].
    assert (Hr : (0 <= row < npos)%Z) by (rewrite Forall_forall in Hrows; by eapply Hrows, list_elem_of_lookup_2).
    case_bool_decide as Hin.
    + mrun. destruct (IH d st Hd Hst) as (d' & st' & -> & Hd' & Hst' & Hx). exists d', st'. split_and!; [done..|].
      intros x. rewrite Hx, elem_of_cons. split; [tauto|]. intros [?|[[->|?] ?]]; tauto.
    + rewrite Hrow. mrun. destruct (Hf row st Hr Hst) as (st1 & b & -> & Hst1 & Hb). mrun. destruct b.
      * destruct (add_spec d i Hd) as (d1 & -> & Hd1 & Hin1); [lia|]. mrun.
        destruct (IH d1 st1 Hd1 Hst1) as (d' & st' & -> & Hd' & Hst' & Hx). exists d', st'. split_and!; [done..|].
        intros x. rewrite Hx, Hin1, elem_of_cons. split; [|tauto]. intros [[?| ->]|?]; [tauto| |tauto].
        right. split; [by left|]. exists row. split; [done|]. by apply Hb.
      * mrun. destruct (IH d st1 Hd Hst1) as (d' & st' & -> & Hd' & Hst' & Hx). exists d', st'. split_and!; [done..|].
        intros x. rewrite Hx, elem_of_cons. split; [tauto|]. intros [?|[[->|?] Hc]]; [tauto| |tauto].
        destruct Hc as (row' & Hrow' & Hc). rewrite Hrow in Hrow'. injection Hrow' as <-. by apply Hb in Hc.
Qed.

Lemma fold_fmap {A B St} (f : A -> B) (body : B -> St -> option St) l : forall st,
  foldM (λ x, body (f x)) l st = foldM body (f <$> l) st.
Proof. induction l as [|x l IH]; intros st; [done|]. cbn. destruct (body (f x) st); [|done]. apply IH. Qed.

(** The marks grow by the rows that lead to a change; what the log recorded of
    the list stays. *)
Lemma list_run_spec {A} c info l (xs ys : list A) : list_ready c info l ->
  explains (m_change l) xs ys -> length ys = length (c_rows c) ->
  exists l', list_run info l = Some l' /\ m_prev_size l' = c_size c /\ explains (m_change l') xs ys
    /\ l_base l' = l_base l
    /\ (forall x y, tracks (m_change l') x y <-> tracks (m_change l) x y)
    /\ forall x, x ∈ modifications (m_change l') <-> x ∈ modifications (m_change l)
         \/ ((0 <= x < c_size c)%Z /\ row_changed info c x).
Proof.
  intros Hr Hex Hlen. unfold list_run. rewrite (attached_ready c info l Hr).
  destruct (get_modification_checker_spec info (c_target_table c) (l_related_tables l) (lr_tables _ _ _ Hr) (lr_table _ _ _ Hr)
    (lr_related _ _ _ Hr) (lr_links _ _ _ Hr)) as (related & f & -> & _ & Hcheck). mrun.
  destruct Hex as [Hw Hv]. pose proof (in_wf _ _ _ Hw) as Hwf. pose proof (wf_modifications _ Hwf) as Hm.
  cbn [m_change set_related].
  destruct (mark_indices info c related f (seqZ 0 (c_size c)) Hcheck (lr_rows _ _ _ Hr) (lr_small _ _ _ Hr)) with (d := modifications (m_change l))
    (st := initial_checker) as (d1 & st1 & -> & Hd1 & Hst1 & Hin1); [|done|apply initial_checker_ok|].
  { apply Forall_forall. intros i Hi%elem_of_seqZ. lia. }
  mrun. rewrite fold_fmap.
  destruct (mark_indices info c related f (move_to <$> moves (m_change l)) Hcheck (lr_rows _ _ _ Hr) (lr_small _ _ _ Hr)) with (d := d1)
    (st := st1) as (d2 & st2 & -> & Hd2 & _ & Hin2); [|done|done|].
  { apply Forall_forall. intros i (m & -> & Hmv)%list_elem_of_fmap. destruct (in_moves _ _ _ Hw) as [Hok _ _].
    rewrite Forall_forall in Hok. destruct (Hok m Hmv) as [_ Hi]. pose proof (in_new _ _ _ Hw _ Hi).
    pose proof (elem_of_bounds _ _ (wf_insertions _ Hwf) Hi). unfold c_size. lia. }
  mrun. eexists. split; [done|]. cbn [m_prev_size m_change set_prev_size set_change l_base set_related].
  assert (Hmarks : forall x, x ∈ d2 <-> x ∈ modifications (m_change l) \/ ((0 <= x < c_size c)%Z /\ row_changed info c x)).
  { intros x. rewrite Hin2, Hin1, elem_of_seqZ, Z.add_0_l. split; [|tauto]. intros [?|[Hx Hc]]; [tauto|right]. split; [|done].
    apply list_elem_of_fmap in Hx as (m & -> & Hmv). destruct (in_moves _ _ _ Hw) as [Hok _ _].
    rewrite Forall_forall in Hok. destruct (Hok m Hmv) as [_ Hi]. pose proof (in_new _ _ _ Hw _ Hi).
    pose proof (elem_of_bounds _ _ (wf_insertions _ Hwf) Hi). unfold c_size. lia. }
  split_and!; [done| |done|done|exact Hmarks]. split.
  - destruct Hw as [[HD HI HM HC] [Hok Hfr Hto] Hcol Hold Hnew Hmk Htr]. split; [by split|by split|exact Hcol|exact Hold|exact Hnew| |exact Htr].
    intros y [?|[? _]]%Hmarks; [by apply Hmk|]. unfold c_size in *. lia.
  - intros x y Ht Hy. destruct (Hv x y Ht Hy) as [?|?]; [left|by right]. apply Hmarks. by left.
Qed.

(** ** Deleted lists *)

Lemma wf_has_element d : wf d -> d <> [] -> exists x, x ∈ d.
Proof using HB.
  intros [Hs [Ho _]] Hne. destruct (flat d) as [|r L] eqn:Hf; [by destruct Hne; apply flat_nil_inv|].
  exists r.1. rewrite elem_of_flat, Hf, mem_cons. left. destruct Ho as (? & ? & _). lia.
Qed.

(** All rows are reported as deleted once; what the log had recorded before
    stays in the change. *)
Lemma run_detached_spec l : (0 <= m_prev_size l <= npos)%Z ->
  exists l', run_detached l = Some l' /\ m_prev_size l' = 0%Z
    /\ (if decide (m_prev_size l = 0)%Z then m_change l' = empty_builder
        else wf (deletions (m_change l')) /\ (forall x, x ∈ deletions (m_change l') <-> (0 <= x < m_prev_size l)%Z)
          /\ insertions (m_change l') = insertions (m_change l) /\ moves (m_change l') = moves (m_change l)).
Proof using Type.
  intros Hp. unfold run_detached. case_decide as Hz.
  - rewrite bool_decide_false by (by intros []). by exists (set_change empty_builder l).
  - rewrite bool_decide_true by done. destruct (set_spec (m_prev_size l) Hp) as (d & -> & Hd & Hx). mrun.
    eexists. split; [done|]. by split_and!.
Qed.

(** ** Objects *)

Lemma object_columns_spec ndx cols : Forall wf cols -> forall acc, exists res,
  foldM (object_column ndx) cols acc = Some (acc ++ res) /\ Forall2 (λ col d, wf d /\ forall x, x ∈ d <-> x = 0%Z /\ ndx ∈ col) cols res.
Proof using Type.
  induction 1 as [|col cols Hcol Hcols IH]; intros acc; cbn [foldM].
  - exists []. split; [by rewrite app_nil_r|constructor].
  - change (object_column ndx col acc) with (marked ← contains col ndx;
      if marked : bool then d ← add [] 0; Some (acc ++ [d]) else Some (acc ++ [[]])).
    rewrite contains_member by done. mrun. case_bool_decide as Hin.
    + destruct (add_spec [] 0 wf_nil) as (d & -> & Hd & Hx); [unfold npos; lia|]. mrun.
      destruct (IH (acc ++ [d])) as (res & -> & Hres). exists (d :: res). split; [by rewrite <- app_assoc|]. constructor; [|done].
      split; [done|]. intros x. rewrite Hx. rewrite elem_of_flat. cbn. rewrite mem_nil. tauto.
    + mrun. destruct (IH (acc ++ [[]])) as (res & -> & Hres). exists ([] :: res). split; [by rewrite <- app_assoc|]. constructor; [|done].
      split; [apply wf_nil|]. intros x. rewrite elem_of_flat. cbn. rewrite mem_nil. tauto.
Qed.

(** An object that is still there: it is reported as modified when its row was,
    with the columns in which it was. *)
Lemma object_run_attached row change info o : m_row o = Some row -> row_attached row = true -> (0 <= row_table row)%Z ->
  tables info !! Z.to_nat (row_table row) = Some change -> wf_builder change -> o_change o = empty_builder ->
  exists o', object_run info o = Some o' /\ m_row o' = Some row
    /\ deletions (o_change o') = [] /\ insertions (o_change o') = [] /\ moves (o_change o') = []
    /\ (forall x, x ∈ modifications (o_change o') <-> x = 0%Z /\ row_ndx_in_table row ∈ modifications change)
    /\ (row_ndx_in_table row ∈ modifications change ->
        Forall2 (λ col d, wf d /\ forall x, x ∈ d <-> x = 0%Z /\ row_ndx_in_table row ∈ col)
          (ChangeBuilder.columns change) (ChangeBuilder.columns (o_change o'))).
Proof using Type.
  intros Hrow Hat H0 Ht [HD HI HM HC] Ho. unfold object_run. rewrite Hrow, Hat. cbn [negb].
  pose proof (lookup_lt_Some _ _ _ Ht). rewrite bool_decide_false by lia. rewrite Ht. mrun.
  rewrite contains_member by done. mrun. case_bool_decide as Hin; cbn [negb].
  - rewrite Ho. destruct (add_spec [] 0 wf_nil) as (d & Hadd & Hd & Hx); [unfold npos; lia|].
    change (modifications empty_builder) with ([] : IndexSet). rewrite Hadd. mrun.
    destruct (object_columns_spec (row_ndx_in_table row) (ChangeBuilder.columns change) HC []) as (res & Hcols & Hres).
    change (ChangeBuilder.columns empty_builder) with ([] : list IndexSet). rewrite Hcols. mrun. eexists. split; [done|]. cbn.
    split_and!; [done..| |done]. intros x. rewrite Hx, elem_of_flat. cbn. rewrite mem_nil. tauto.
  - exists o. rewrite Ho. split_and!; [done..| |done]. intros x. rewrite elem_of_flat. cbn. rewrite mem_nil. tauto.
Qed.

(** A deleted object is reported once. *)
Lemma object_run_deleted row info o : m_row o = Some row -> row_attached row = false -> o_change o = empty_builder ->
  exists o', object_run info o = Some o' /\ m_row o' = None
    /\ (forall x, x ∈ deletions (o_change o') <-> x = 0%Z) /\ modifications (o_change o') = []
    /\ forall info', object_run info' o' = Some o'.
Proof using Type.
  intros Hrow Hat Ho. unfold object_run at 1. rewrite Hrow, Hat, Ho. cbn [negb].
  destruct (add_spec [] 0 wf_nil) as (d & Hadd & Hd & Hx); [unfold npos; lia|].
  change (deletions empty_builder) with ([] : IndexSet). rewrite Hadd. mrun. eexists. split; [done|]. cbn. split_and!; [done| |done|done].
  intros x. rewrite Hx, elem_of_flat. cbn. rewrite mem_nil. tauto.
Qed.
End lists.
