(* ===== verification/Coordinator.v ===== *)
(** * The background worker of the coordinator

    [RealmCoordinator] (impl/realm_coordinator.cpp), as far as it runs notifiers:
    new ones are brought forward from the version they were created at, with the
    changes since then; the others run on a shared group of their own. *)

From S2P Require Import Prelude ChunkedRangeVector IndexSet ChangeBuilder TransactInfo TransactLog.
From S2P Require Import DeepChecker CollectionNotifier.

(** ** Shared groups

    What the coordinator uses of realm-core's [SharedGroup]. The first argument
    of [begin_read] and [advance_read] is the version of the latest snapshot, the
    second the version asked for, [None] for the default [VersionID]. A result
    [None] is an exception. *)
Inductive TransactStage := transact_Ready | transact_Reading | transact_Writing.

#[export] Instance TransactStage_eq_dec : EqDecision TransactStage.
Proof. solve_decision. Defined.

Class SharedGroups := {
  SharedGroup : Type;
  get_transact_stage : SharedGroup -> TransactStage;
  get_version_of_current_transaction : SharedGroup -> Z;
  begin_read : Z -> option Z -> SharedGroup -> option SharedGroup;
  end_read : SharedGroup -> SharedGroup;
  advance_read : Z -> option Z -> SharedGroup -> option SharedGroup;
}.

(** The documentation of group_shared.hpp and lang_bind_helper.hpp. *)
Class SharedGroupsLaws `{SharedGroups} : Prop := {
  begin_read_reading latest v sg sg' : begin_read latest v sg = Some sg' ->
    get_transact_stage sg' = transact_Reading /\ get_version_of_current_transaction sg' = default latest v;
  begin_read_latest latest sg : get_transact_stage sg = transact_Ready -> is_Some (begin_read latest None sg);
  end_read_ready sg : get_transact_stage sg <> transact_Writing -> get_transact_stage (end_read sg) = transact_Ready;
  advance_read_reading latest v sg sg' : advance_read latest v sg = Some sg' ->
    get_transact_stage sg' = transact_Reading /\ get_version_of_current_transaction sg' = default latest v;
  advance_read_forward latest v sg : get_transact_stage sg = transact_Reading ->
    (get_version_of_current_transaction sg <= default latest v <= latest)%Z -> is_Some (advance_read latest v sg);
}.

(** ** Notifiers

    What the coordinator calls of a [CollectionNotifier]. A notifier is at an
    address, where also the builder of its list is, if it has one. [follow]: the
    shared group the notifier is attached to is at another version, and the
    builder of its list may have been written to. *)
Class AsyncNotifier (N : Type) := {
  base : N -> notifier;
  with_base : notifier -> N -> N;
  n_attach_to : Z -> N -> option N;
  n_detach : Z -> N -> option N;
  n_add_required_change_info : nat -> TransactionChangeInfo -> N -> option (N * TransactionChangeInfo);
  n_follow : Z -> option CollectionChangeBuilder -> N -> N;
  n_run : TransactionChangeInfo -> N -> option N;
  n_prepare_handover : Z -> N -> option N;
  n_release_data : N -> N;
}.

(** What the calls keep of the part that all notifiers have: attaching and
    detaching set [m_sg], the handover sets the version and [m_has_run]. *)
Class AsyncNotifierLaws (N : Type) `{AsyncNotifier N} : Prop := {
  base_with_base b n : base (with_base b n) = b;
  base_attach_to v n n' : n_attach_to v n = Some n' -> base n' = set_sg true (base n);
  base_detach v n n' : n_detach v n = Some n' -> base n' = set_sg false (base n);
  base_add_info a info n n' info' : n_add_required_change_info a info n = Some (n', info') -> base n' = base n;
  base_follow v b n : base (n_follow v b n) = base n;
  base_run info n n' : n_run info n = Some n' -> base n' = base n;
  base_prepare_handover v n n' : n_prepare_handover v n = Some n' ->
    m_sg_version (base n') = v /\ m_has_run (base n') = true /\ m_sg (base n') = m_sg (base n)
    /\ m_realm (base n') = m_realm (base n) /\ m_have_callbacks (base n') = m_have_callbacks (base n);
  base_release_data n : base (n_release_data n) = base n;
}.

Definition new_info : TransactionChangeInfo := mkInfo [] [] [] [] [] [] false false ∅ 0.

Section coordinator.
Context `{Build, StdOrders, SharedGroups} {N : Type} `{AsyncNotifier N}.

(** The calls of the observer for the log between two versions. *)
Variable log_between : Z -> Z -> list TransactLog.log_call.

Abbreviation notifiers := (gmap nat N).

Definition version_of (a : nat) (s : notifiers) : option Z := n ← s !! a; Some (m_sg_version (base n)).

(** ** [transaction::advance] *)

Definition advance_validated (latest : Z) (v : option Z) (sg : SharedGroup) : option SharedGroup :=
  sg' ← advance_read latest v sg;
  match validate_log (log_between (get_version_of_current_transaction sg) (get_version_of_current_transaction sg')) 0 with
  | Done _ => Some sg'
  | UnsupportedSchemaChange => None
  end.

Definition advance_observed (latest : Z) (v : option Z) (sg : SharedGroup) (info : TransactionChangeInfo)
  : option (SharedGroup * TransactionChangeInfo) :=
  sg' ← advance_read latest v sg;
  if negb (track_all info) && bool_decide (table_modifications_needed info = []) && bool_decide (lists info = [])
  then Some (sg', info)
  else
    r ← observe_log (log_between (get_version_of_current_transaction sg) (get_version_of_current_transaction sg'))
          (make_observer info);
    match r with
    | Done o => Some (sg', TransactLog.m_info o)
    | UnsupportedSchemaChange => None
    end.

(** ** [IncrementalChangeInfo]

    [m_current] is a position in the vector; the notifiers have pointers to its
    elements, so growing it beyond [m_capacity] ends in [None]. *)
Record IncrementalChangeInfo := mkIncremental {
  m_infos : list TransactionChangeInfo;
  m_capacity : nat;
  m_current : option nat;
}.

Definition older (s : notifiers) (lft rgt : nat) : bool :=
  match version_of lft s, version_of rgt s with
  | Some v, Some w => bool_decide (v < w)%Z
  | _, _ => false
  end.

Fixpoint count_versions (s : notifiers) (l : list nat) : nat :=
  match l with
  | a :: (b :: _) as l => (if older s a b then 1 else 0) + count_versions s l
  | _ => 0
  end.

(** The notifiers, sorted by the constructor, and the object. *)
Definition new_incremental (s : notifiers) (l : list nat) : list nat * IncrementalChangeInfo :=
  match l with
  | [] => ([], mkIncremental [] 0 None)
  | _ =>
      let l := std_sort (older s) l in
      (l, mkIncremental [new_info] (S (count_versions s l)) (Some 0))
  end.

Definition current (c : IncrementalChangeInfo) : option TransactionChangeInfo := k ← m_current c; m_infos c !! k.

Definition set_current (info : TransactionChangeInfo) (c : IncrementalChangeInfo) : option IncrementalChangeInfo :=
  k ← m_current c; Some (mkIncremental (<[k := info]> (m_infos c)) (m_capacity c) (m_current c)).

(** The lists move on, with the builders they point to. *)
Definition next_info (info : TransactionChangeInfo) : TransactionChangeInfo :=
  mkInfo (table_modifications_needed info) (table_moves_needed info) (lists info) [] [] [] false false (list_builders info) 0.

Definition advance_incremental (latest version : Z) (sg : SharedGroup) (c : IncrementalChangeInfo)
  : option (SharedGroup * IncrementalChangeInfo) :=
  if bool_decide (version ≠ get_version_of_current_transaction sg) then
    info ← current c;
    '(sg, info) ← advance_observed latest (Some version) sg info;
    c ← set_current (set_lists [] info) c;
    if bool_decide (length (m_infos c) < m_capacity c) then
      Some (sg, mkIncremental (m_infos c ++ [next_info info]) (m_capacity c) (Some (length (m_infos c))))
    else None
  else Some (sg, c).

(** The tables of [cur] are merged into those of [prev]. *)
Fixpoint merge_tables (prev cur : list CollectionChangeBuilder) : option (list CollectionChangeBuilder) :=
  match prev, cur with
  | p :: prev, c :: cur => m ← merge p c; ms ← merge_tables prev cur; Some (m :: ms)
  | [], cur => Some cur
  | prev, [] => Some prev
  end.

Definition combine_infos (prev cur : TransactionChangeInfo) : option TransactionChangeInfo :=
  if bool_decide (tables cur = []) then Some prev
  else if bool_decide (tables prev = []) then Some (move_tables (tables cur) prev)
  else ts ← merge_tables (tables prev) (tables cur); Some (move_tables ts prev).

(** From the last info to the first. *)
Fixpoint combine_all (infos : list TransactionChangeInfo) : option (list TransactionChangeInfo) :=
  match infos with
  | [] => Some []
  | prev :: rest =>
      rest ← combine_all rest;
      match rest with
      | [] => Some [prev]
      | cur :: _ => prev ← combine_infos prev cur; Some (prev :: rest)
      end
  end.

Definition same_list (l r : ListChangeInfo) : bool :=
  bool_decide (table_ndx l = table_ndx r) && bool_decide (col_ndx l = col_ndx r) && bool_decide (row_ndx l = row_ndx r).

(** The changes of list [i] are merged into those of list [j] when both are the
    same list. *)
Definition copy_list_change (ls : list ListChangeInfo) (i j : nat) (builders : gmap nat CollectionChangeBuilder)
  : option (gmap nat CollectionChangeBuilder) :=
  li ← ls !! i;
  lj ← ls !! j;
  if same_list li lj then
    b ← builders !! changes lj;
    c ← builders !! changes li;
    m ← merge b c;
    Some (<[changes lj := m]> builders)
  else Some builders.

Definition copy_list_changes (info : TransactionChangeInfo) : option TransactionChangeInfo :=
  builders ← foldM (λ i, foldM (copy_list_change (lists info) i) (reverse (seq 0 i))) (seq 1 (length (lists info) - 1)) (list_builders info);
  Some (set_list_builders builders info).

Definition advance_to_final (latest : Z) (version : option Z) (sg : SharedGroup) (c : IncrementalChangeInfo)
  : option (SharedGroup * IncrementalChangeInfo) :=
  match m_current c with
  | None => sg ← advance_validated latest version sg; Some (sg, c)
  | Some k =>
      info ← current c;
      '(sg, info) ← advance_observed latest version sg info;
      c ← set_current info c;
      infos ← combine_all (m_infos c);
      let c := mkIncremental infos (m_capacity c) (m_current c) in
      info ← current c;
      info ← copy_list_changes info;
      c ← set_current info c;
      Some (sg, c)
  end.

(** ** The coordinator

    [m_old_notifiers] is [m_notifiers] of the source: those that have been brought
    to the version of the others. A skip version is 0 when there is none. *)
Inductive async_error := open_failed (e : Z) | read_failed.

Record coordinator := mkCoordinator {
  m_new_notifiers : list nat;
  m_old_notifiers : list nat;
  m_notifier_skip_version : Z;
  m_notifier_sg : option SharedGroup;
  m_advancer_sg : option SharedGroup;
  m_async_error : option async_error;
}.

(** The coordinator, the notifiers by address, and the latest snapshot of the
    file. *)
Record world := mkWorld {
  co : coordinator;
  store_of : notifiers;
  latest : Z;
}.

Definition set_new (x : list nat) (c : coordinator) : coordinator :=
  mkCoordinator x (m_old_notifiers c) (m_notifier_skip_version c) (m_notifier_sg c) (m_advancer_sg c) (m_async_error c).
Definition set_old (x : list nat) (c : coordinator) : coordinator :=
  mkCoordinator (m_new_notifiers c) x (m_notifier_skip_version c) (m_notifier_sg c) (m_advancer_sg c) (m_async_error c).
Definition set_skip_version (x : Z) (c : coordinator) : coordinator :=
  mkCoordinator (m_new_notifiers c) (m_old_notifiers c) x (m_notifier_sg c) (m_advancer_sg c) (m_async_error c).
Definition set_notifier_sg (x : option SharedGroup) (c : coordinator) : coordinator :=
  mkCoordinator (m_new_notifiers c) (m_old_notifiers c) (m_notifier_skip_version c) x (m_advancer_sg c) (m_async_error c).
Definition set_advancer_sg (x : option SharedGroup) (c : coordinator) : coordinator :=
  mkCoordinator (m_new_notifiers c) (m_old_notifiers c) (m_notifier_skip_version c) (m_notifier_sg c) x (m_async_error c).
Definition set_async_error (x : option async_error) (c : coordinator) : coordinator :=
  mkCoordinator (m_new_notifiers c) (m_old_notifiers c) (m_notifier_skip_version c) (m_notifier_sg c) (m_advancer_sg c) x.
Definition set_co (x : coordinator) (w : world) : world := mkWorld x (store_of w) (latest w).
Definition set_store (x : notifiers) (w : world) : world := mkWorld (co w) x (latest w).

Definition reading (sg : SharedGroup) : bool := bool_decide (get_transact_stage sg = transact_Reading).

(** ** Registration *)

(** [opened]: what opening the file yields, a shared group or an error. *)
Definition pin_version (opened : Z + SharedGroup) (latest versionid : Z) (c : coordinator) : option coordinator :=
  match m_async_error c, m_advancer_sg c with
  | Some _, _ => Some c
  | None, None =>
      match opened with
      | inl e => Some (set_advancer_sg None (set_async_error (Some (open_failed e)) c))
      | inr sg =>
          match begin_read latest (Some versionid) sg with
          | Some sg => Some (set_advancer_sg (Some sg) c)
          | None => Some (set_advancer_sg None (set_async_error (Some read_failed) c))
          end
      end
  | None, Some sg =>
      if bool_decide (m_new_notifiers c = []) then
        _ ← REALM_ASSERT (bool_decide (get_transact_stage sg = transact_Ready));
        sg ← begin_read latest (Some versionid) sg;
        Some (set_advancer_sg (Some sg) c)
      else
        _ ← REALM_ASSERT (reading sg);
        if bool_decide (versionid < get_version_of_current_transaction sg)%Z then
          sg ← begin_read latest (Some versionid) (end_read sg);
          Some (set_advancer_sg (Some sg) c)
        else Some c
  end.

(** The notifier [n] is put at the address [a]. *)
Definition register_notifier (opened : Z + SharedGroup) (a : nat) (n : N) (w : world) : option world :=
  c ← pin_version opened (latest w) (m_sg_version (base n)) (co w);
  Some (mkWorld (set_new (m_new_notifiers c ++ [a]) c) (<[a := n]> (store_of w)) (latest w)).

(** ** Dead notifiers *)

(** The loop of [swap_remove] from index [i]; [fuel] bounds its iterations by the
    length of the vector. *)
Fixpoint swap_remove (fuel i : nat) (container : list nat) (s : notifiers) (did_remove : bool)
  : option (list nat * notifiers * bool) :=
  match container !! i with
  | None => Some (container, s, did_remove)
  | Some a =>
      match fuel with
      | O => None
      | S fuel =>
          n ← s !! a;
          if is_alive (base n) then swap_remove fuel (S i) container s did_remove
          else
            let s := <[a := n_release_data n]> s in
            let container := if bool_decide (S i < length container)
                             then match last container with Some b => <[i := b]> container | None => container end
                             else container in
            swap_remove fuel i (removelast container) s true
      end
  end.

Definition clean_up_dead_notifiers (w : world) : option world :=
  '(old, s, removed) ← swap_remove (length (m_old_notifiers (co w))) 0 (m_old_notifiers (co w)) (store_of w) false;
  let c := set_old old (co w) in
  c ← (match m_notifier_sg c with
       | Some sg =>
           if removed && bool_decide (old = []) then
             _ ← REALM_ASSERT (reading sg);
             Some (set_skip_version 0 (set_notifier_sg (Some (end_read sg)) c))
           else Some c
       | None => Some c
       end);
  '(new, s, removed) ← swap_remove (length (m_new_notifiers c)) 0 (m_new_notifiers c) s false;
  let c := set_new new c in
  c ← (match m_advancer_sg c with
       | Some sg =>
           if removed : bool then
             _ ← REALM_ASSERT (reading sg);
             Some (if bool_decide (new = []) then set_advancer_sg (Some (end_read sg)) c else c)
           else Some c
       | None => Some c
       end);
  Some (mkWorld c s (latest w)).

(** ** Running the notifiers *)

Definition open_helper_shared_group (opened : Z + SharedGroup) (latest : Z) (c : coordinator) : option coordinator :=
  match m_notifier_sg c with
  | None =>
      match opened with
      | inl e => Some (set_notifier_sg None (set_async_error (Some (open_failed e)) c))
      | inr sg =>
          match begin_read latest None sg with
          | Some sg => Some (set_notifier_sg (Some sg) c)
          | None => Some (set_notifier_sg None (set_async_error (Some read_failed) c))
          end
      end
  | Some sg =>
      if bool_decide (m_old_notifiers c = []) then
        sg ← begin_read latest None sg; Some (set_notifier_sg (Some sg) c)
      else Some c
  end.

(** What [run_async_notifiers] keeps in local variables while the lock is
    released: the notifiers that had run, the new ones with the index of the info
    each has a pointer to, the version to go to and the version to skip to. *)
Record locals := mkLocals {
  l_notifiers : list nat;
  l_new_notifiers : list (nat * nat);
  l_version : Z;
  l_skip_version : Z;
  l_new_infos : IncrementalChangeInfo;
}.

Definition on_store (f : N -> option N) (a : nat) (s : notifiers) : option notifiers :=
  n ← s !! a; n ← f n; Some (<[a := n]> s).

(** [add_required_change_info] of one notifier, with the info [c] points to. *)
Definition add_info (a : nat) (s : notifiers) (c : IncrementalChangeInfo) : option (notifiers * IncrementalChangeInfo) :=
  n ← s !! a;
  info ← current c;
  '(n, info) ← n_add_required_change_info a info n;
  c ← set_current info c;
  Some (<[a := n]> s, c).

(** A new notifier is attached at its version. *)
Definition attach_new (latest : Z) (a : nat) (st : SharedGroup * IncrementalChangeInfo * notifiers * list (nat * nat))
  : option (SharedGroup * IncrementalChangeInfo * notifiers * list (nat * nat)) :=
  let '(sg, c, s, ps) := st in
  v ← version_of a s;
  '(sg, c) ← advance_incremental latest v sg c;
  s ← on_store (n_attach_to (get_version_of_current_transaction sg)) a s;
  k ← m_current c;
  '(s, c) ← add_info a s c;
  Some (sg, c, s, ps ++ [(a, k)]).

(** The builder of the notifier's list, in the store of the current info. *)
Definition builder_at (c : IncrementalChangeInfo) (a : nat) : option CollectionChangeBuilder :=
  info ← current c; list_builders info !! a.

(** The new notifiers are brought to the latest version. *)
Definition advance_new (latest : Z) (l : list nat) (s : notifiers) (sg : SharedGroup)
  : option (SharedGroup * IncrementalChangeInfo * notifiers * list (nat * nat)) :=
  let '(l, c) := new_incremental s l in
  first ← head l;
  v ← version_of first s;
  _ ← REALM_ASSERT (reading sg);
  _ ← REALM_ASSERT (bool_decide (get_version_of_current_transaction sg <= v)%Z);
  sg ← advance_validated latest (Some v) sg;
  '(sg, c, s, ps) ← foldM (attach_new latest) l (sg, c, s, []);
  '(sg, c) ← advance_to_final latest None sg c;
  let version := get_version_of_current_transaction sg in
  s ← foldM (λ a s, on_store (λ n, n_detach version (n_follow version (builder_at c a) n)) a s) l s;
  Some (sg, c, s, ps).

(** [run_async_notifiers] until the lock is released; [None] for the locals when
    it returns before. *)
Definition async_begin (opened : Z + SharedGroup) (w : world) : option (world * option locals) :=
  w ← clean_up_dead_notifiers w;
  let c := co w in
  if bool_decide (m_old_notifiers c = []) && bool_decide (m_new_notifiers c = []) then Some (w, None)
  else
    c ← (match m_async_error c with None => open_helper_shared_group opened (latest w) c | Some _ => Some c end);
    match m_async_error c with
    | Some _ => Some (set_co (set_new [] (set_old (m_old_notifiers c ++ m_new_notifiers c) c)) w, None)
    | None =>
        sg ← m_advancer_sg c;
        let new := m_new_notifiers c in
        '(sg, infos, s, ps) ← (if bool_decide (new = [])
          then sg ← begin_read (latest w) None sg; Some (sg, mkIncremental [] 0 None, store_of w, [])
          else advance_new (latest w) new (store_of w) sg);
        let version := get_version_of_current_transaction sg in
        let sg := end_read sg in
        _ ← REALM_ASSERT (bool_decide (get_transact_stage sg = transact_Ready));
        let l := mkLocals (m_old_notifiers c) ps version (m_notifier_skip_version c) infos in
        Some (mkWorld (set_new [] (set_old (m_old_notifiers c ++ (fst <$> ps)) (set_skip_version 0 (set_advancer_sg (Some sg) c)))) s (latest w),
              Some l)
    end.

(** The notifiers that had run before are brought to a version. *)
Definition advance_old (latest version : Z) (l : list nat) (s : notifiers) (sg : SharedGroup)
  : option (list nat * SharedGroup * IncrementalChangeInfo * notifiers) :=
  let '(l, c) := new_incremental s l in
  '(s, c) ← foldM (λ a '(s, c), add_info a s c) l (s, c);
  '(sg, c) ← advance_to_final latest (Some version) sg c;
  let s := foldr (λ a s, alter (n_follow version (builder_at c a)) a s) s l in
  Some (l, sg, c, s).

(** Each of the notifiers reads the only info. *)
Definition run_old (c : IncrementalChangeInfo) (l : list nat) (s : notifiers) : option notifiers :=
  foldM (λ a s, info ← current c; on_store (n_run info) a s) l s.

(** The transaction of this Realm is reported on its own: with the lock released,
    then under the lock. *)
Definition async_skip (l : locals) (w : world) : option (locals * world) :=
  if bool_decide (l_skip_version l = 0)%Z then Some (l, w)
  else
    _ ← REALM_ASSERT (negb (bool_decide (l_notifiers l = [])));
    _ ← REALM_ASSERT (bool_decide (l_skip_version l <= l_version l)%Z);
    sg ← m_notifier_sg (co w);
    '(ns, sg, c, s) ← advance_old (latest w) (l_skip_version l) (l_notifiers l) (store_of w) sg;
    s ← run_old c ns s;
    Some (mkLocals ns (l_new_notifiers l) (l_version l) (l_skip_version l) (l_new_infos l),
          mkWorld (set_notifier_sg (Some sg) (co w)) s (latest w)).

Definition async_skip_handover (l : locals) (w : world) : option world :=
  if bool_decide (l_skip_version l = 0)%Z then Some w
  else
    sg ← m_notifier_sg (co w);
    s ← foldM (on_store (n_prepare_handover (get_version_of_current_transaction sg))) (l_notifiers l) (store_of w);
    Some (set_store s w).

(** All notifiers run, the new ones first. *)
Definition async_run (l : locals) (w : world) : option (locals * world) :=
  sg ← m_notifier_sg (co w);
  '(ns, sg, c, s) ← advance_old (latest w) (l_version l) (l_notifiers l) (store_of w) sg;
  s ← foldM (λ '(a, k) s,
      s ← on_store (n_attach_to (get_version_of_current_transaction sg)) a s;
      info ← m_infos (l_new_infos l) !! k;
      on_store (n_run info) a s) (l_new_notifiers l) s;
  s ← run_old c ns s;
  Some (mkLocals ns (l_new_notifiers l) (l_version l) (l_skip_version l) (l_new_infos l),
        mkWorld (set_notifier_sg (Some sg) (co w)) s (latest w)).

Definition async_finish (l : locals) (w : world) : option world :=
  sg ← m_notifier_sg (co w);
  let handover := on_store (n_prepare_handover (get_version_of_current_transaction sg)) in
  s ← foldM handover (fst <$> l_new_notifiers l) (store_of w);
  s ← foldM handover (l_notifiers l) s;
  clean_up_dead_notifiers (set_store s w).

(** [run_async_notifiers] when no other thread gets the lock in between. *)
Definition run_async_notifiers (opened : Z + SharedGroup) (w : world) : option world :=
  '(w, l) ← async_begin opened w;
  match l with
  | None => Some w
  | Some l =>
      '(l, w) ← async_skip l w;
      w ← async_skip_handover l w;
      '(l, w) ← async_run l w;
      async_finish l w
  end.

(** ** Writes and deliveries *)

(** [for_realm] says which notifiers are for the Realm at hand, unless they were
    unregistered. [commit_write] is what happens under the lock. *)
Definition is_for_realm (for_realm : nat -> bool) (s : notifiers) (a : nat) : bool :=
  match s !! a with Some n => m_realm (base n) && for_realm a | None => false end.

Definition commit_write (for_realm : nat -> bool) (w : world) : world :=
  let v := (latest w + 1)%Z in
  mkWorld (if existsb (is_for_realm for_realm (store_of w)) (m_old_notifiers (co w)) then set_skip_version v (co w) else co w)
    (store_of w) v.

Definition notifiers_for_realm (for_realm : nat -> bool) (w : world) : list nat :=
  filter (λ a, is_for_realm for_realm (store_of w) a = true) (m_new_notifiers (co w) ++ m_old_notifiers (co w)).
End coordinator.
