(* ===== verification/AsyncNotifiers.v ===== *)
(** * What the coordinator calls of each notifier

    The public functions of [CollectionNotifier] around the virtual functions of
    the notifiers of lists and objects: these satisfy what the coordinator relies
    on. *)

From S2P Require Import Core Prelude ChunkedRangeVector IndexSet ChangeBuilder TransactInfo TransactLog.
From S2P Require Import DeepChecker CollectionNotifier Notifiers Coordinator.

(** ** The functions around the virtual ones *)

Section virtual.
Context `{HB : Build} {N : Type} (get : N -> notifier) (put : notifier -> N -> N).

Definition virtual_attach_to (do_attach_to : N -> option N) (n : N) : option N :=
  b ← attach_to (get n); do_attach_to (put b n).

Definition virtual_detach (do_detach_from : N -> option N) (n : N) : option N :=
  _ ← REALM_ASSERT (m_sg (get n));
  n ← do_detach_from n;
  Some (put (set_sg false (get n)) n).

Definition virtual_add_required_change_info (do_add : TransactionChangeInfo -> N -> option (TransactionChangeInfo * bool))
    (m_related_tables : N -> list RelatedTable) (info : TransactionChangeInfo) (n : N) : option (N * TransactionChangeInfo) :=
  '(info, related) ← do_add info n;
  if negb related || bool_decide (m_related_tables n = []) then Some (n, info)
  else Some (n, set_needed (need_related_tables (m_related_tables n) (table_modifications_needed info)) (table_moves_needed info) info).

Definition virtual_prepare_handover (version : Z) (do_prepare_handover : N -> option N) (n : N) : option N :=
  _ ← REALM_ASSERT (m_sg (get n));
  n ← do_prepare_handover (put (set_version version (get n)) n);
  let n := put (set_has_run (get n)) n in
  _ ← (if realm_debug
       then foldM (λ callback _, REALM_ASSERT (negb (skip_next callback))) (m_callbacks (get n)) tt else Some tt);
  Some n.

(** The virtual functions leave the part of the base alone, but for the changes
    that the handover adds. *)
Context (get_put : forall b n, get (put b n) = b).

Lemma virtual_attach_base f n n' : (forall m m', f m = Some m' -> get m' = get m) -> virtual_attach_to f n = Some n' ->
  get n' = set_sg true (get n).
Proof using get_put.
  intros Hf. unfold virtual_attach_to, attach_to. destruct (REALM_ASSERT _); mrun; [|done]. intros Hr%Hf. by rewrite Hr, get_put.
Qed.

Lemma virtual_detach_base f n n' : (forall m m', f m = Some m' -> get m' = get m) -> virtual_detach f n = Some n' ->
  get n' = set_sg false (get n).
Proof using get_put.
  intros Hf. unfold virtual_detach. destruct (REALM_ASSERT _); mrun; [|done]. destruct (f n) as [m|] eqn:Hm; mrun; [|done].
  intros [= <-]. by rewrite get_put, (Hf _ _ Hm).
Qed.

Lemma virtual_add_base f rel info n n' info' : virtual_add_required_change_info f rel info n = Some (n', info') -> get n' = get n.
Proof using Type.
  unfold virtual_add_required_change_info. destruct (f info n) as [[i r]|]; mrun; [|done]. by destruct (_ || _); intros [= <- _].
Qed.

Lemma virtual_handover_base v f n n' : (forall m m', f m = Some m' -> exists cs, get m' = set_callbacks cs (get m)) ->
  virtual_prepare_handover v f n = Some n' ->
  m_sg_version (get n') = v /\ m_has_run (get n') = true /\ m_sg (get n') = m_sg (get n)
  /\ m_realm (get n') = m_realm (get n) /\ m_have_callbacks (get n') = m_have_callbacks (get n).
Proof using get_put.
  intros Hf. unfold virtual_prepare_handover. destruct (REALM_ASSERT _); mrun; [|done].
  destruct (f _) as [m|] eqn:Hm; mrun; [|done]. destruct (Hf _ _ Hm) as [cs Hcs]. rewrite get_put in Hcs.
  destruct (if realm_debug then _ else _); mrun; [|done]. intros [= <-]. by rewrite get_put, Hcs.
Qed.
End virtual.

Lemma add_changes_callbacks `{Build, StdOrders} b n n' : add_changes b n = Some n' -> exists cs, n' = set_callbacks cs n.
Proof. unfold add_changes. destruct (mapM_vec _ _) as [cs|]; mrun; [|done]. intros [= <-]. by exists cs. Qed.

(** ** Lists

    [container_at] is the container after its group went to a version. *)
Section lists.
Context `{HB : Build, HO : StdOrders, HL : LinkTables}.
Variable container_at : Z -> Container -> Container.
Variable primitive : bool.

Definition list_follow (v : Z) (b : option CollectionChangeBuilder) (l : list_notifier) : list_notifier :=
  set_change (default (m_change l) b) (set_container (container_at v <$> m_container l) (m_container_handover l) l).

Definition list_async : AsyncNotifier list_notifier := {|
  base := l_base;
  with_base := set_base;
  n_attach_to v := virtual_attach_to l_base set_base list_do_attach_to;
  n_detach v := virtual_detach l_base set_base list_do_detach_from;
  n_add_required_change_info a :=
    virtual_add_required_change_info (list_do_add_required_change_info (if primitive then type_Table else type_LinkList) a) l_related_tables;
  n_follow := list_follow;
  n_run := if primitive then λ _, primitive_list_run else list_run;
  n_prepare_handover v := virtual_prepare_handover l_base set_base v list_do_prepare_handover;
  n_release_data := list_release_data;
|}.

Lemma run_detached_base l l' : run_detached l = Some l' -> l_base l' = l_base l.
Proof using Type. unfold run_detached. case_bool_decide; [destruct (IndexSet.set _); mrun; [|done]|]; by intros [= <-]. Qed.

Lemma list_run_base info l l' : list_run info l = Some l' -> l_base l' = l_base l.
Proof using Type.
  unfold list_run. destruct (Notifiers.attached l) as [c|]; [|apply run_detached_base].
  destruct (get_modification_checker _ _ _) as [[related f]|]; mrun; [|done]. destruct (foldM _ (seqZ _ _) _) as [st|]; mrun; [|done].
  destruct (foldM _ _ st) as [[d ch]|]; mrun; [|done]. by intros [= <-].
Qed.

Lemma primitive_list_run_base l l' : primitive_list_run l = Some l' -> l_base l' = l_base l.
Proof using Type.
  unfold primitive_list_run. destruct (Notifiers.attached l) as [c|]; [|apply run_detached_base].
  destruct (if bool_decide (deletions _ = []) then _ else _) as [[]|]; mrun; [| |done].
  - destruct (IndexSet.set _); mrun; [|done]. by intros [= <-].
  - by intros [= <-].
Qed.

Lemma list_async_laws : AsyncNotifierLaws list_notifier (H := list_async).
Proof using Type.
  split; cbn.
  - done.
  - intros v n n'. apply virtual_attach_base; [done|]. intros m m'. unfold list_do_attach_to.
    do 2 (destruct (REALM_ASSERT _)); mrun; try done. by intros [= <-].
  - intros v n n'. apply virtual_detach_base; [done|]. intros m m'. unfold list_do_detach_from.
    destruct (REALM_ASSERT _); mrun; [|done]. by destruct (m_container m); intros [= <-].
  - intros a info n n' info'. apply virtual_add_base.
  - done.
  - intros info n n'. destruct primitive; [apply primitive_list_run_base|apply list_run_base].
  - intros v n n'. apply virtual_handover_base; [done|]. intros m m'. unfold list_do_prepare_handover.
    destruct (add_changes _ _) as [b|] eqn:Hb; mrun; [|done]. intros [= <-]. by apply add_changes_callbacks in Hb.
  - done.
Qed.
End lists.

(** ** Objects *)
Section objects.
Context `{HB : Build, HO : StdOrders}.
Variable row_at : Z -> Row -> Row.

Definition set_object_base (x : notifier) (o : object_notifier) : object_notifier :=
  mkObjectNotifier x (o_related_tables o) (m_row o) (m_handover o) (o_change o).

Definition object_follow (v : Z) (o : object_notifier) : object_notifier := set_row (row_at v <$> m_row o) (m_handover o) o.

Definition object_async : AsyncNotifier object_notifier := {|
  base := o_base;
  with_base := set_object_base;
  n_attach_to v := virtual_attach_to o_base set_object_base object_do_attach_to;
  n_detach v := virtual_detach o_base set_object_base object_do_detach_from;
  n_add_required_change_info a := virtual_add_required_change_info object_do_add_required_change_info o_related_tables;
  n_follow v _ := object_follow v;
  n_run := object_run;
  n_prepare_handover v := virtual_prepare_handover o_base set_object_base v object_do_prepare_handover;
  n_release_data := object_release_data;
|}.

Lemma object_run_base info o o' : object_run info o = Some o' -> o_base o' = o_base o.
Proof using Type.
  unfold object_run. destruct (m_row o) as [row|]; [|by intros [= <-]]. destruct (negb (row_attached row)).
  { destruct (add _ _); mrun; [|done]. by intros [= <-]. }
  case_bool_decide; [by intros [= <-]|]. destruct (tables info !! _); mrun; [|done].
  destruct (contains _ _) as [[]|]; mrun; cbn [negb]; [|by intros [= <-]|done].
  destruct (add _ _); mrun; [|done]. destruct (foldM _ _ _); mrun; [|done]. by intros [= <-].
Qed.

Lemma object_async_laws : AsyncNotifierLaws object_notifier (H := object_async).
Proof using Type.
  split; cbn.
  - done.
  - intros v n n'. apply virtual_attach_base; [done|]. intros m m'. unfold object_do_attach_to.
    do 2 (destruct (REALM_ASSERT _)); mrun; try done. by intros [= <-].
  - intros v n n'. apply virtual_detach_base; [done|]. intros m m'. unfold object_do_detach_from.
    destruct (REALM_ASSERT _); mrun; [|done]. by destruct (m_row m); intros [= <-].
  - intros a info n n' info'. apply virtual_add_base.
  - done.
  - apply object_run_base.
  - intros v n n'. apply virtual_handover_base; [done|]. intros m m'. unfold object_do_prepare_handover.
    destruct (add_changes _ _) as [b|] eqn:Hb; mrun; [|done]. intros [= <-]. by apply add_changes_callbacks in Hb.
  - done.
Qed.
End objects.

(** ** Notifiers of several kinds *)
Section both.
Context {M N : Type} {HM : AsyncNotifier M} {HN : AsyncNotifier N}.

Definition both {A} (f : M -> A) (g : N -> A) (n : M + N) : A := match n with inl m => f m | inr n => g n end.

Definition sum_async : AsyncNotifier (M + N) := {|
  base := both base base;
  with_base b := both (inl ∘ with_base b) (inr ∘ with_base b);
  n_attach_to v := both (fmap inl ∘ n_attach_to v) (fmap inr ∘ n_attach_to v);
  n_detach v := both (fmap inl ∘ n_detach v) (fmap inr ∘ n_detach v);
  n_add_required_change_info a info :=
    both (fmap (prod_map inl id) ∘ n_add_required_change_info a info) (fmap (prod_map inr id) ∘ n_add_required_change_info a info);
  n_follow v b := both (inl ∘ n_follow v b) (inr ∘ n_follow v b);
  n_run info := both (fmap inl ∘ n_run info) (fmap inr ∘ n_run info);
  n_prepare_handover v := both (fmap inl ∘ n_prepare_handover v) (fmap inr ∘ n_prepare_handover v);
  n_release_data := both (inl ∘ n_release_data) (inr ∘ n_release_data);
|}.

Lemma sum_async_laws `{!AsyncNotifierLaws M, !AsyncNotifierLaws N} : AsyncNotifierLaws (M + N) (H := sum_async).
Proof.
  split; cbn.
  - intros b [n|n]; apply base_with_base.
  - intros v [n|n] n' (m & Hm & ->)%fmap_Some; by eapply base_attach_to.
  - intros v [n|n] n' (m & Hm & ->)%fmap_Some; by eapply base_detach.
  - intros a info [n|n] n' info' ([m i] & Hm & [= -> ->])%fmap_Some; by eapply base_add_info.
  - intros v b [n|n]; apply base_follow.
  - intros info [n|n] n' (m & Hm & ->)%fmap_Some; by eapply base_run.
  - intros v [n|n] n' (m & Hm & ->)%fmap_Some; by eapply base_prepare_handover.
  - intros [n|n]; apply base_release_data.
Qed.
End both.
