(* ===== verification/CoordinatorFacts.v ===== *)
(** * The helper groups of the coordinator

    What holds whenever no thread is inside a critical section: the advancer
    reads at or before the version of every new notifier, the other group reads at
    the version of the notifiers that have run. *)

From S2P Require Import Prelude ChunkedRangeVector IndexSet ChangeBuilder TransactInfo TransactLog.
From S2P Require Import DeepChecker CollectionNotifier Coordinator.

Section stores.
Context {N : Type}.

Abbreviation notifiers := (gmap nat N).

(** The notifiers at the addresses satisfy [P]. *)
Definition all_at (P : N -> Prop) (l : list nat) (s : notifiers) : Prop :=
  forall a, a ∈ l -> exists n, s !! a = Some n /\ P n.

Lemma all_at_app P l1 l2 s : all_at P (l1 ++ l2) s <-> all_at P l1 s /\ all_at P l2 s.
Proof. unfold all_at. setoid_rewrite elem_of_app. naive_solver. Qed.

Lemma all_at_incl P l l' s : (forall a, a ∈ l' -> a ∈ l) -> all_at P l s -> all_at P l' s.
Proof. unfold all_at. naive_solver. Qed.

Lemma all_at_impl (P Q : N -> Prop) l s : (forall n, P n -> Q n) -> all_at P l s -> all_at Q l s.
Proof. unfold all_at. naive_solver. Qed.

Lemma all_at_store P l (s s' : notifiers) : (forall a, a ∈ l -> s' !! a = s !! a) -> all_at P l s -> all_at P l s'.
Proof. intros Hs Hp a Ha. rewrite Hs by done. by apply Hp. Qed.

(** The notifiers of [l] took a step along [R], the others did not. *)
Definition stepped (R : N -> N -> Prop) (l : list nat) (s s' : notifiers) : Prop :=
  (forall a, a ∉ l -> s' !! a = s !! a)
  /\ (forall a, a ∈ l -> exists n n', s !! a = Some n /\ s' !! a = Some n' /\ R n n').

Lemma stepped_cons R a l (s s1 s' : notifiers) n n' : a ∉ l -> s !! a = Some n -> R n n' -> s1 = <[a := n']> s -> stepped R l s1 s' ->
  stepped R (a :: l) s s'.
Proof.
  intros Ha Hn HR -> [Ho Hi]. split.
  - intros b [Hb Hbl]%not_elem_of_cons. rewrite Ho by done. by apply lookup_insert_ne.
  - intros b [->|Hb]%elem_of_cons.
    + exists n, n'. split_and!; [done| |done]. rewrite Ho by done. apply lookup_insert_eq.
    + destruct (Hi b Hb) as (m & m' & Hm & Hm' & HRm). exists m, m'. split_and!; [|done|done].
      rewrite lookup_insert_ne in Hm by (intros ->; done). done.
Qed.

Lemma stepped_all R l s s' (P Q : N -> Prop) : stepped R l s s' -> (forall n n', R n n' -> P n -> Q n') -> all_at P l s -> all_at Q l s'.
Proof.
  intros [_ Hi] HR Hp a Ha. destruct (Hi a Ha) as (n & n' & Hn & Hn' & HRn). destruct (Hp a Ha) as (m & Hm & Hpm).
  rewrite Hn in Hm. injection Hm as <-. eauto.
Qed.

Lemma stepped_trans (R1 R2 R : N -> N -> Prop) l s s1 s' : (forall x y z, R1 x y -> R2 y z -> R x z) ->
  stepped R1 l s s1 -> stepped R2 l s1 s' -> stepped R l s s'.
Proof.
  intros HR [Ho1 Hi1] [Ho2 Hi2]. split; [intros a Ha; by rewrite Ho2, Ho1|].
  intros a Ha. destruct (Hi1 a Ha) as (n & n1 & ? & Hn1 & ?), (Hi2 a Ha) as (m & n' & Hm & ? & ?). rewrite Hn1 in Hm. injection Hm as <-.
  exists n, n'. eauto.
Qed.

Lemma stepped_incl R l l' s s' : stepped R l s s' -> l ≡ₚ l' -> stepped R l' s s'.
Proof. intros [Ho Hi] Hp. split; intros a Ha; [apply Ho|apply Hi]; by rewrite Hp. Qed.

(** A fold that updates the notifiers one after the other, with a state. *)
Lemma fold_stepped {St} (R : N -> N -> Prop) (f : nat -> notifiers * St -> option (notifiers * St)) l :
  (forall a s st s' st', a ∈ l -> f a (s, st) = Some (s', st') -> exists n n', s !! a = Some n /\ R n n' /\ s' = <[a := n']> s) ->
  NoDup l -> forall s st s' st', foldM f l (s, st) = Some (s', st') -> stepped R l s s'.
Proof.
  intros Hf Hnd. induction Hnd as [|a l Ha _ IH]; intros s st s' st'; cbn [foldM].
  - intros [= <- _]. split; [done|]. by intros a Ha%elem_of_nil.
  - destruct (f a (s, st)) as [[s1 st1]|] eqn:Hs; [|done]. mrun. intros Hr.
    destruct (Hf a s st s1 st1) as (n & n' & Hn & HR & ->); [by left|done|].
    eapply stepped_cons; [done|done|done|done|]. eapply IH; [|exact Hr]. intros b t u t' u' Hb. apply Hf. by right.
Qed.

Lemma fold_store_stepped (R : N -> N -> Prop) (f : nat -> notifiers -> option notifiers) l :
  (forall a s s', a ∈ l -> f a s = Some s' -> exists n n', s !! a = Some n /\ R n n' /\ s' = <[a := n']> s) ->
  NoDup l -> forall s s', foldM f l s = Some s' -> stepped R l s s'.
Proof.
  intros Hf Hnd. induction Hnd as [|a l Ha _ IH]; intros s s'; cbn [foldM].
  - intros [= <-]. split; [done|]. by intros a Ha%elem_of_nil.
  - destruct (f a s) as [s1|] eqn:Hs; [|done]. mrun. intros Hr.
    destruct (Hf a s s1) as (n & n' & Hn & HR & ->); [by left|done|].
    eapply stepped_cons; [done|done|done|done|]. eapply IH; [|exact Hr]. intros b t t' Hb. apply Hf. by right.
Qed.

Lemma on_store_spec (f : N -> option N) a s s' : on_store f a s = Some s' ->
  exists n n', s !! a = Some n /\ f n = Some n' /\ s' = <[a := n']> s.
Proof.
  unfold on_store. destruct (s !! a) as [n|]; [|done]. mrun. destruct (f n) as [n'|] eqn:Hf; [|done]. mrun. intros [= <-].
  by exists n, n'.
Qed.
End stores.

(** ** Removing the dead *)

Section removal.
Context `{HB : Build, HO : StdOrders, HG : SharedGroups} {N : Type} `{HA : AsyncNotifier N, HAL : !AsyncNotifierLaws N}.

Definition same_base (n n' : N) : Prop := base n' = base n.

Lemma removelast_last_perm (l : list nat) b : last l = Some b -> l ≡ₚ b :: removelast l.
Proof using Type. intros Hl. apply last_Some in Hl as [l' ->]. rewrite removelast_last. by rewrite Permutation_app_comm. Qed.

(** Removing index [i] by moving the last element over it. *)
Lemma swap_out (l : list nat) i a : l !! i = Some a ->
  l ≡ₚ a :: removelast (if bool_decide (S i < length l) then match last l with Some b => <[i := b]> l | None => l end else l).
Proof using Type.
  intros Hi. pose proof (lookup_lt_Some _ _ _ Hi) as Hlt. case_bool_decide as Hb.
  - destruct (last l) as [b|] eqn:Hl; [|apply last_None in Hl; by subst].
    apply last_Some in Hl as [l' ->]. rewrite length_app in *. cbn in *.
    rewrite insert_app_l by lia. rewrite removelast_last. rewrite lookup_app_l in Hi by lia.
    rewrite <- (take_drop_middle _ _ _ Hi) at 1. rewrite (insert_take_drop l' i b) by (by eapply lookup_lt_Some).
    rewrite <- !app_assoc. cbn. etrans; [symmetry; apply Permutation_middle|]. apply perm_skip, Permutation_app_head.
    by rewrite Permutation_app_comm.
  - assert (length l = S i) as Hlen by lia. apply removelast_last_perm. rewrite last_lookup, Hlen. done.
Qed.

Lemma swap_remove_spec fuel : forall i l s did l' s' did', NoDup l -> swap_remove fuel i l s did = Some (l', s', did') ->
  (forall a, a ∈ l' -> a ∈ l) /\ NoDup l'
  /\ (forall a n, s !! a = Some n -> exists n', s' !! a = Some n' /\ base n' = base n)
  /\ (did' = false -> did = false /\ l' = l) /\ (l <> [] -> l' = [] -> did' = true)
  /\ (forall a, s !! a = None -> s' !! a = None).
Proof using HAL.
  induction fuel as [|fuel IH]; intros i l s did l' s' did' Hnd; cbn [swap_remove].
  - destruct (l !! i); [done|]. intros [= <- <- <-]. split_and!; [done|done|by eauto|done|done|done].
  - destruct (l !! i) as [a|] eqn:Hi.
    2: { intros [= <- <- <-]. split_and!; [done|done|by eauto|done|done|done]. }
    destruct (s !! a) as [n|] eqn:Hn; [|done]. mrun. destruct (is_alive (base n)).
    + apply IH. done.
    + intros Hr. pose proof (swap_out l i a Hi) as Hp. set (l1 := removelast _) in *.
      assert (Hnd1 : NoDup l1) by (rewrite Hp in Hnd; by apply NoDup_cons in Hnd as [_ ?]).
      apply IH in Hr as (Hin & Hnd' & Hs & Hd & _ & Hno); [|done]. split_and!.
      * intros b Hb%Hin. rewrite Hp. by right.
      * done.
      * intros b m Hm. destruct (decide (b = a)) as [->|Hne].
        -- rewrite Hn in Hm. injection Hm as <-. destruct (Hs a (n_release_data n)) as (n' & Hn' & Hb); [apply lookup_insert_eq|].
           exists n'. split; [done|]. by rewrite Hb, base_release_data.
        -- apply Hs. by rewrite lookup_insert_ne.
      * intros [? _]%Hd. done.
      * intros _ _. destruct did'; [done|]. by destruct (Hd eq_refl).
      * intros b Hb. apply Hno. rewrite lookup_insert_ne; [done|]. intros ->. by rewrite Hn in Hb.
Qed.

(** ** Steps that keep what all notifiers have *)

Definition kept (s s' : gmap nat N) : Prop := forall a n, s !! a = Some n -> exists n', s' !! a = Some n' /\ base n' = base n.

Definition of_base (P : N -> Prop) : Prop := forall n n', base n' = base n -> P n -> P n'.

Lemma kept_refl s : kept s s.
Proof using Type. intros a n Hn. by exists n. Qed.

Lemma kept_trans s1 s2 s3 : kept s1 s2 -> kept s2 s3 -> kept s1 s3.
Proof using Type. intros H12 H23 a n Hn. destruct (H12 a n Hn) as (n2 & Hn2 & <-). by apply H23. Qed.

Lemma kept_insert s a n n' : s !! a = Some n -> base n' = base n -> kept s (<[a := n']> s).
Proof using Type.
  intros Hn Hb b m Hm. destruct (decide (b = a)) as [->|Hne].
  - rewrite Hn in Hm. injection Hm as <-. exists n'. by rewrite lookup_insert_eq.
  - exists m. by rewrite lookup_insert_ne.
Qed.

Lemma kept_all_at P l s s' : of_base P -> kept s s' -> all_at P l s -> all_at P l s'.
Proof using Type. intros HP Hk Hp a Ha. destruct (Hp a Ha) as (n & Hn & HPn), (Hk a n Hn) as (n' & Hn' & Hb). eauto. Qed.

Lemma stepped_kept (R : N -> N -> Prop) l s s' : (forall n n', R n n' -> base n' = base n) -> stepped R l s s' -> kept s s'.
Proof using Type.
  intros HR [Ho Hi] a n Hn. destruct (decide (a ∈ l)) as [Ha|Ha]; [|exists n; by rewrite Ho].
  destruct (Hi a Ha) as (m & n' & Hm & Hn' & HRm). rewrite Hn in Hm. injection Hm as <-. eauto.
Qed.

(** ** Advancing *)

Variable log_between : Z -> Z -> list TransactLog.log_call.
Context `{HGL : !SharedGroupsLaws}.

Definition reads_at (v : Z) (sg : SharedGroup) : Prop :=
  get_transact_stage sg = transact_Reading /\ get_version_of_current_transaction sg = v.

Lemma advance_observed_reads latest v sg info sg' info' :
  advance_observed log_between latest v sg info = Some (sg', info') -> reads_at (default latest v) sg'.
Proof using HGL.
  unfold advance_observed. destruct (advance_read latest v sg) as [sg1|] eqn:Ha; mrun; [|done]. apply advance_read_reading in Ha.
  destruct (_ && _); [by intros [= <- _]|]. destruct (observe_log _ _) as [[o|]|]; mrun; [|done|done]. by intros [= <- _].
Qed.

Lemma advance_validated_reads latest v sg sg' : advance_validated log_between latest v sg = Some sg' -> reads_at (default latest v) sg'.
Proof using HGL.
  unfold advance_validated. destruct (advance_read latest v sg) as [sg1|] eqn:Ha; mrun; [|done]. apply advance_read_reading in Ha.
  destruct (validate_log _ _); [by intros [= <-]|done].
Qed.

Lemma advance_to_final_reads latest v sg c sg' c' : advance_to_final log_between latest v sg c = Some (sg', c') ->
  reads_at (default latest v) sg'.
Proof using HGL.
  unfold advance_to_final. destruct (m_current c).
  - destruct (current c); mrun; [|done]. destruct (advance_observed _ _ _ _ _) as [[sg1 info1]|] eqn:Ha; mrun; [|done].
    apply advance_observed_reads in Ha. destruct (set_current info1 c) as [c1|]; mrun; [|done].
    destruct (combine_all _); mrun; [|done]. destruct (current _); mrun; [|done]. destruct (copy_list_changes _); mrun; [|done].
    destruct (set_current _ _); mrun; [|done]. by intros [= <- _].
  - destruct (advance_validated _ _ _ _) as [sg1|] eqn:Ha; mrun; [|done]. apply advance_validated_reads in Ha. by intros [= <- _].
Qed.

Lemma new_incremental_perm (s : gmap nat N) l l' c : new_incremental s l = (l', c) -> l' ≡ₚ l.
Proof using Type. unfold new_incremental. destruct l; intros [= <- _]; [done|]. apply std_sort_perm. Qed.

Lemma add_info_spec a (s : gmap nat N) c s' c' : add_info a s c = Some (s', c') ->
  exists n n', s !! a = Some n /\ base n' = base n /\ s' = <[a := n']> s.
Proof using HAL.
  unfold add_info. destruct (s !! a) as [n|]; mrun; [|done]. destruct (current c); mrun; [|done].
  destruct (n_add_required_change_info _ _ _) as [[n' info']|] eqn:Ha; mrun; [|done]. destruct (set_current _ _); mrun; [|done].
  intros [= <- _]. exists n, n'. split_and!; [done|by eapply base_add_info|done].
Qed.

Lemma follow_kept f l (s : gmap nat N) : (forall a n, base (f a n) = base n) -> kept s (foldr (λ a s, alter (f a) a s) s l).
Proof using Type.
  intros Hf. induction l as [|a l IH]; [apply kept_refl|]. cbn. eapply kept_trans; [exact IH|]. intros b n Hn.
  destruct (decide (b = a)) as [->|Hne].
  - exists (f a n). rewrite lookup_alter_eq, Hn. by rewrite Hf.
  - exists n. by rewrite lookup_alter_ne.
Qed.

Lemma advance_old_spec latest v l s sg l' sg' c s' : NoDup l -> advance_old log_between latest v l s sg = Some (l', sg', c, s') ->
  l' ≡ₚ l /\ reads_at v sg' /\ kept s s'.
Proof using HAL HGL.
  intros Hnd. unfold advance_old. destruct (new_incremental s l) as [l1 c1] eqn:Hn. pose proof (new_incremental_perm _ _ _ _ Hn) as Hp.
  destruct (foldM _ l1 (s, c1)) as [[s2 c2]|] eqn:Hf; mrun; [|done].
  destruct (advance_to_final _ _ _ _ _) as [[sg1 c3]|] eqn:Ha; mrun; [|done]. intros [= <- <- <- <-].
  apply advance_to_final_reads in Ha. split_and!; [done|done|]. eapply kept_trans; [|apply follow_kept; intros; apply base_follow].
  eapply (stepped_kept same_base); [done|]. eapply (fold_stepped same_base _ l1); [| |exact Hf].
  - intros a t st t' st' _ Hr. by apply add_info_spec in Hr.
  - by rewrite Hp.
Qed.

Lemma run_old_kept c l s s' : NoDup l -> run_old c l s = Some s' -> kept s s'.
Proof using HAL.
  intros Hnd Hr. eapply (stepped_kept same_base); [done|]. eapply (fold_store_stepped same_base); [|done|exact Hr].
  intros a t t' _. destruct (current c) as [info|]; mrun; [|done]. intros (n & n' & Hn & Hrun & ->)%on_store_spec.
  exists n, n'. split_and!; [done|by eapply base_run|done].
Qed.

(** A new notifier was attached to the advancer for a while. *)
Definition passed (n n' : N) : Prop := base n' = set_sg false (set_sg true (base n)).
Definition put_on (n n' : N) : Prop := base n' = set_sg true (base n).

Lemma attach_all latest l : NoDup l -> forall sg c s ps sg' c' s' ps',
  foldM (attach_new log_between latest) l (sg, c, s, ps) = Some (sg', c', s', ps') ->
  fst <$> ps' = (fst <$> ps) ++ l /\ stepped put_on l s s'.
Proof using HAL.
  induction 1 as [|a l Ha _ IH]; intros sg c s ps sg' c' s' ps'; cbn [foldM].
  - intros [= _ _ <- <-]. rewrite app_nil_r. split; [done|]. split; [done|]. by intros b Hb%elem_of_nil.
  - destruct (attach_new _ _ _ _) as [[[[sg1 c1] s1] ps1]|] eqn:Hat; [|done]. mrun. intros Hr.
    unfold attach_new in Hat. destruct (version_of a s) as [v|]; [|done]. revert Hat. mrun.
    destruct (advance_incremental _ _ _ _ _) as [[sg2 c2]|]; mrun; [|done].
    destruct (on_store _ _ _) as [s2|] eqn:Ho; mrun; [|done]. destruct (m_current c2) as [k|]; mrun; [|done].
    destruct (add_info _ _ _) as [[s3 c3]|] eqn:Hi; mrun; [|done]. intros [= <- <- <- <-].
    apply on_store_spec in Ho as (n & n2 & Hn & Hatt & ->). apply add_info_spec in Hi as (m & n3 & Hm & Hb & ->).
    rewrite lookup_insert_eq in Hm. injection Hm as <-. rewrite insert_insert_eq in Hr.
    apply IH in Hr as [Hps Hst]. split.
    + rewrite Hps, fmap_app. cbn. by rewrite <- app_assoc.
    + eapply stepped_cons; [done|exact Hn| |done|exact Hst]. unfold put_on. rewrite Hb. by eapply base_attach_to.
Qed.

Lemma advance_new_spec latest l s sg sg' c s' ps : NoDup l -> advance_new log_between latest l s sg = Some (sg', c, s', ps) ->
  reads_at latest sg' /\ fst <$> ps ≡ₚ l /\ stepped passed l s s'.
Proof using HAL HGL.
  intros Hnd. unfold advance_new. destruct (new_incremental s l) as [l1 c1] eqn:Hn. pose proof (new_incremental_perm _ _ _ _ Hn) as Hp.
  destruct (head l1) as [first|]; mrun; [|done]. destruct (version_of first s) as [v|]; mrun; [|done].
  do 2 (destruct (REALM_ASSERT _)); mrun; try done. destruct (advance_validated _ _ _ _) as [sg1|]; mrun; [|done].
  destruct (foldM _ l1 _) as [[[[sg2 c2] s2] ps2]|] eqn:Hf; mrun; [|done].
  destruct (advance_to_final _ _ _ _ _) as [[sg3 c3]|] eqn:Ha; mrun; [|done].
  destruct (foldM _ l1 s2) as [s3|] eqn:Hd; mrun; [|done]. intros [= <- <- <- <-]. apply advance_to_final_reads in Ha.
  assert (Hnd1 : NoDup l1) by (by rewrite Hp). apply attach_all in Hf as [Hps Hst]; [|done]. cbn in Hps. rewrite Hps.
  split_and!; [done|done|]. eapply stepped_incl; [|exact Hp]. eapply (stepped_trans put_on (λ n n', base n' = set_sg false (base n))); [|exact Hst|].
  - intros x y z Hxy Hyz. unfold passed. by rewrite Hyz, Hxy.
  - eapply fold_store_stepped; [|done|exact Hd]. intros a t t' _ (n & n' & Hn' & Hdet & ->)%on_store_spec. exists n, n'.
    split_and!; [done| |done]. apply base_detach in Hdet. by rewrite base_follow in Hdet.
Qed.
End removal.
