(* ===== verification/CoordinatorInvariant.v ===== *)
(** * The invariant of the coordinator

    The steps of the worker and of the other threads, at the granularity of the
    lock, and what holds between them: the advancer reads at or before the version
    of every new notifier, the other group reads at the version of the notifiers
    that have run. *)

From S2P Require Import Prelude ChunkedRangeVector IndexSet ChangeBuilder TransactInfo TransactLog.
From S2P Require Import DeepChecker CollectionNotifier Coordinator CoordinatorFacts.

#[local] Arguments reading : simpl never.

(** Where the worker is: between two runs, or in one of the four parts of a run
    after the first. *)
Inductive worker := idle | skipping (l : locals) | handing (l : locals) | running (l : locals) | finishing (l : locals).

Section invariant.
Context `{HB : Build, HO : StdOrders, HG : SharedGroups} {N : Type} `{HA : AsyncNotifier N}.
Variable log_between : Z -> Z -> list TransactLog.log_call.

Abbreviation world := (@world HG N).
Abbreviation notifiers := (gmap nat N).

(** ** Steps

    [co_change] is what a target thread does to a notifier: it never touches the
    version, the group or the flag of the first run. *)
Definition registered (w : world) : list nat := m_new_notifiers (co w) ++ m_old_notifiers (co w).

Definition same_place (b b' : notifier) : Prop :=
  m_sg b' = m_sg b /\ m_sg_version b' = m_sg_version b /\ m_has_run b' = m_has_run b.

Inductive co_step : world * worker -> world * worker -> Prop :=
| co_register opened a n w w' p : a ∉ registered w -> m_sg (base n) = false -> (m_sg_version (base n) <= latest w)%Z ->
    register_notifier opened a n w = Some w' -> co_step (w, p) (w', p)
| co_change a n b w p : store_of w !! a = Some n -> same_place (base n) b ->
    co_step (w, p) (set_store (<[a := with_base b n]> (store_of w)) w, p)
| co_write f w p : co_step (w, p) (commit_write f w, p)
| co_nothing opened w w' : async_begin log_between opened w = Some (w', None) -> co_step (w, idle) (w', idle)
| co_begin opened w w' l : async_begin log_between opened w = Some (w', Some l) -> co_step (w, idle) (w', skipping l)
| co_skip l w l' w' : async_skip log_between l w = Some (l', w') -> co_step (w, skipping l) (w', handing l')
| co_hand l w w' : async_skip_handover l w = Some w' -> co_step (w, handing l) (w', running l)
| co_run l w l' w' : async_run log_between l w = Some (l', w') -> co_step (w, running l) (w', finishing l')
| co_finish l w w' : async_finish l w = Some w' -> co_step (w, finishing l) (w', idle).

Definition co_reach : world * worker -> world * worker -> Prop := rtc co_step.

(** A coordinator nobody has registered with. *)
Definition new_world (v : Z) : world := mkWorld (mkCoordinator [] [] 0 None None None) ∅ v.

(** ** The invariant *)

(** A notifier that has run, at version [v]. *)
Definition settled (v : Z) (n : N) : Prop := m_sg (base n) = true /\ m_has_run (base n) = true /\ m_sg_version (base n) = v.
(** A new one, not before [v]. *)
Definition pending (v w : Z) (n : N) : Prop := m_sg (base n) = false /\ (v <= m_sg_version (base n) <= w)%Z.
Definition attached (n : N) : Prop := m_sg (base n) = true.
Definition detached (n : N) : Prop := m_sg (base n) = false.

Definition resting (sg : SharedGroup) : Prop := get_transact_stage sg = transact_Ready.

Definition advancer_ok (w : world) : Prop :=
  match m_advancer_sg (co w) with
  | None => m_new_notifiers (co w) = [] /\ m_old_notifiers (co w) = []
  | Some sg =>
      if bool_decide (m_new_notifiers (co w) = []) then resting sg
      else exists v, reads_at v sg /\ all_at (pending v (latest w)) (m_new_notifiers (co w)) (store_of w)
  end.

(** A version to skip to is one after the notifiers', and there are notifiers. *)
Definition skip_ok (lo : Z) (w : world) : Prop :=
  m_notifier_skip_version (co w) <> 0%Z ->
  m_old_notifiers (co w) <> [] /\ (lo <= m_notifier_skip_version (co w) <= latest w)%Z.

Definition idle_ok (w : world) : Prop :=
  match m_notifier_sg (co w) with
  | None => m_old_notifiers (co w) = [] /\ m_notifier_skip_version (co w) = 0%Z
  | Some sg =>
      if bool_decide (m_old_notifiers (co w) = []) then resting sg /\ m_notifier_skip_version (co w) = 0%Z
      else exists v, reads_at v sg /\ (v <= latest w)%Z /\ all_at (settled v) (m_old_notifiers (co w)) (store_of w) /\ skip_ok v w
  end.

(** What holds in all of a run: [l_notifiers] and the new ones are the notifiers
    that the coordinator has meanwhile. *)
Definition run_ok (v : Z) (l : locals) (w : world) : Prop :=
  (exists sg, m_notifier_sg (co w) = Some sg /\ reads_at v sg) /\ (v <= l_version l <= latest w)%Z
  /\ is_Some (m_advancer_sg (co w)) /\ m_old_notifiers (co w) ≡ₚ l_notifiers l ++ (fst <$> l_new_notifiers l)
  /\ m_old_notifiers (co w) <> [] /\ skip_ok (l_version l) w.

Definition worker_ok (w : world) (p : worker) : Prop :=
  match p with
  | idle => idle_ok w
  | skipping l => exists v, run_ok v l w /\ all_at (settled v) (l_notifiers l) (store_of w)
      /\ all_at detached (fst <$> l_new_notifiers l) (store_of w)
      /\ (l_skip_version l <> 0%Z -> l_notifiers l <> [] /\ (v <= l_skip_version l <= l_version l)%Z)
  | handing l => exists v, run_ok v l w /\ all_at attached (l_notifiers l) (store_of w)
      /\ (l_skip_version l = 0%Z -> all_at (settled v) (l_notifiers l) (store_of w))
      /\ all_at detached (fst <$> l_new_notifiers l) (store_of w)
  | running l => exists v, run_ok v l w /\ all_at (settled v) (l_notifiers l) (store_of w)
      /\ all_at detached (fst <$> l_new_notifiers l) (store_of w)
  | finishing l => run_ok (l_version l) l w /\ all_at attached (l_notifiers l ++ (fst <$> l_new_notifiers l)) (store_of w)
  end.

Definition co_inv (st : world * worker) : Prop :=
  let '(w, p) := st in
  NoDup (registered w)
  /\ match m_async_error (co w) with
     | Some _ => p = idle
     | None => advancer_ok w /\ worker_ok w p
     end.

Context `{HAL : !AsyncNotifierLaws N, HGL : !SharedGroupsLaws}.

(** The part of the invariant that concerns the store only depends on where the
    notifiers are. *)
Definition of_place (P : N -> Prop) : Prop := forall n n', same_place (base n) (base n') -> P n -> P n'.

Lemma settled_of_place v : of_place (settled v).
Proof using Type. unfold of_place, settled. by intros n n' (-> & -> & ->). Qed.
Lemma pending_of_place v w : of_place (pending v w).
Proof using Type. unfold of_place, pending. by intros n n' (-> & -> & _). Qed.
Lemma attached_of_place : of_place attached.
Proof using Type. unfold of_place, attached. by intros n n' (-> & _). Qed.
Lemma detached_of_place : of_place detached.
Proof using Type. unfold of_place, detached. by intros n n' (-> & _). Qed.

#[local] Hint Resolve settled_of_place pending_of_place attached_of_place detached_of_place : core.

(** ** The places of a world

    Both parts of the invariant are stated of stores that keep the notifiers where
    they are, so that every step which does so preserves them. *)
Definition same_places (s s' : notifiers) : Prop :=
  forall a n, s !! a = Some n -> exists n', s' !! a = Some n' /\ same_place (base n) (base n').

Lemma kept_places s s' : kept s s' -> same_places s s'.
Proof using Type. intros Hk a n Hn. destruct (Hk a n Hn) as (n' & ? & Hb). exists n'. split; [done|]. by rewrite Hb. Qed.

Lemma same_places_insert s a n n' : s !! a = Some n -> same_place (base n) (base n') -> same_places s (<[a := n']> s).
Proof using Type.
  intros Hn Hp b m Hm. destruct (decide (b = a)) as [->|Hne].
  - rewrite Hn in Hm. injection Hm as <-. exists n'. by rewrite lookup_insert_eq.
  - exists m. by rewrite lookup_insert_ne.
Qed.

Lemma same_places_fresh s a n : s !! a = None -> same_places s (<[a := n]> s).
Proof using Type. intros Ha b m Hm. exists m. rewrite lookup_insert_ne; [done|]. intros ->. by rewrite Ha in Hm. Qed.

Lemma same_places_all P l s s' : of_place P -> same_places s s' -> all_at P l s -> all_at P l s'.
Proof using Type. intros HP Hk Hp a Ha. destruct (Hp a Ha) as (n & Hn & HPn), (Hk a n Hn) as (n' & Hn' & Hb). eauto. Qed.
(** ** Removing the dead *)

(** A group with a list of notifiers: once the last is removed, the read ends. *)
Definition ended (sg sg' : option SharedGroup) (l l' : list nat) : Prop :=
  (sg' = sg /\ (is_Some sg -> l' = [] -> l = [])) \/ (exists g, sg = Some g /\ l' = [] /\ sg' = Some (end_read g)).

Lemma clean_up_spec (w w' : world) : NoDup (registered w) -> clean_up_dead_notifiers w = Some w' ->
  let c := co w in let c' := co w' in
  (latest w' = latest w /\ m_async_error c' = m_async_error c /\ same_places (store_of w) (store_of w'))
  /\ ((forall a, a ∈ m_new_notifiers c' -> a ∈ m_new_notifiers c) /\ NoDup (m_new_notifiers c')
       /\ ended (m_advancer_sg c) (m_advancer_sg c') (m_new_notifiers c) (m_new_notifiers c'))
  /\ ((forall a, a ∈ m_old_notifiers c' -> a ∈ m_old_notifiers c) /\ NoDup (m_old_notifiers c')
       /\ ended (m_notifier_sg c) (m_notifier_sg c') (m_old_notifiers c) (m_old_notifiers c')
       /\ (m_notifier_skip_version c' = m_notifier_skip_version c \/ m_notifier_skip_version c' = 0%Z)
       /\ (is_Some (m_notifier_sg c) -> m_old_notifiers c <> [] -> m_old_notifiers c' = [] -> m_notifier_skip_version c' = 0%Z)).
Proof using HAL.
  intros (Hnew & _ & Hold)%NoDup_app. unfold clean_up_dead_notifiers.
  destruct (swap_remove _ 0 (m_old_notifiers _) _ _) as [[[old s1] r1]|] eqn:H1; mrun; [|done].
  apply swap_remove_spec in H1 as (Hin1 & Hnd1 & Hk1 & Hr1 & He1 & _); [|done].
  set (c1 := match m_notifier_sg (set_old old (co w)) with Some _ => _ | None => _ end).
  destruct c1 as [c|] eqn:Hc1; mrun; [|done]. unfold c1 in Hc1. clear c1.
  assert (m_new_notifiers c = m_new_notifiers (co w) /\ m_old_notifiers c = old /\ m_async_error c = m_async_error (co w)
    /\ m_advancer_sg c = m_advancer_sg (co w) /\ ended (m_notifier_sg (co w)) (m_notifier_sg c) (m_old_notifiers (co w)) old
    /\ (m_notifier_skip_version c = m_notifier_skip_version (co w) \/ m_notifier_skip_version c = 0%Z)
    /\ (is_Some (m_notifier_sg (co w)) -> m_old_notifiers (co w) <> [] -> old = [] -> m_notifier_skip_version c = 0%Z))
    as (Hcn & Hco & Hce & Hca & Hcs & Hck & Hcz).
  { revert Hc1. cbn. unfold ended. destruct (m_notifier_sg (co w)) as [sg|] eqn:Hsg.
    - destruct (r1 && _) eqn:Hr.
      + apply andb_true_iff in Hr as [-> Hb%bool_decide_eq_true]. destruct (REALM_ASSERT _); mrun; [|done]. intros [= <-]. cbn.
        split_and!; try done; [|by right]. right. by exists sg.
      + intros [= <-]. cbn. rewrite Hsg. split_and!; try done; [left; split; [done|]| by left|].
        * intros _ ->. destruct (decide (m_old_notifiers (co w) = [])) as [|Hne]; [done|]. by rewrite (He1 Hne eq_refl) in Hr.
        * intros _ Hne ->. by rewrite (He1 Hne eq_refl) in Hr.
    - intros [= <-]. cbn. rewrite Hsg. split_and!; try done; try (by left); try (left; split; [done|]); by intros []. }
  clear Hc1. rewrite Hcn. destruct (swap_remove _ 0 (m_new_notifiers _) _ _) as [[[new s2] r2]|] eqn:H2; mrun; [|done].
  apply swap_remove_spec in H2 as (Hin2 & Hnd2 & Hk2 & Hr2 & He2 & _); [|done].
  set (c2 := match m_advancer_sg (set_new new c) with Some _ => _ | None => _ end).
  destruct c2 as [c'|] eqn:Hc2; mrun; [|done]. unfold c2 in Hc2. clear c2.
  intros [= <-]. cbn [co latest store_of].
  assert (m_new_notifiers c' = new /\ m_old_notifiers c' = old /\ m_async_error c' = m_async_error c
    /\ m_notifier_sg c' = m_notifier_sg c /\ ended (m_advancer_sg c) (m_advancer_sg c') (m_new_notifiers (co w)) new
    /\ m_notifier_skip_version c' = m_notifier_skip_version c) as (Hdn & Hdo & Hde & Hds & Hda & Hdk).
  { revert Hc2. cbn. unfold ended. destruct (m_advancer_sg c) as [sg|] eqn:Hsg.
    - destruct r2.
      + destruct (REALM_ASSERT _); mrun; [|done]. case_bool_decide as Hb; intros [= <-]; cbn; split_and!; try done.
        * right. by exists sg.
        * left. split; [done|]. intros _ ->. done.
      + intros [= <-]. cbn. split_and!; try done. left. split; [done|].
        intros _ ->. destruct (decide (m_new_notifiers (co w) = [])) as [|Hne]; [done|]. by specialize (He2 Hne eq_refl).
    - intros [= <-]. cbn. split_and!; try done. left. split; [done|]. by intros []. }
  rewrite Hdn, Hdo, Hde, Hds, Hdk, Hce. rewrite Hca in Hda.
  split_and!; try done. eapply kept_places, kept_trans; [exact Hk1|exact Hk2].
Qed.

(** ** What other threads do *)

Definition places_on (l : list nat) (s s' : notifiers) : Prop :=
  forall a n, a ∈ l -> s !! a = Some n -> exists n', s' !! a = Some n' /\ same_place (base n) (base n').

Lemma same_places_on l s s' : same_places s s' -> places_on l s s'.
Proof using Type. intros Hs a n _. apply Hs. Qed.

Lemma fresh_places_on l s a n : a ∉ l -> places_on l s (<[a := n]> s).
Proof using Type. intros Ha b m Hb Hm. exists m. rewrite lookup_insert_ne; [done|]. by intros ->. Qed.

Lemma places_on_all P l l' s s' : of_place P -> places_on l s s' -> (forall a, a ∈ l' -> a ∈ l) -> all_at P l' s -> all_at P l' s'.
Proof using Type. intros HP Hk Hl Hp a Ha. destruct (Hp a Ha) as (n & Hn & HPn), (Hk a n (Hl a Ha) Hn) as (n' & Hn' & Hb). eauto. Qed.

Lemma pending_mono v w w' n : (w <= w')%Z -> pending v w n -> pending v w' n.
Proof using Type. unfold pending. intros Hw [Hd Hv]. split; [done|lia]. Qed.

Lemma advancer_ok_mono (w w' : world) : m_advancer_sg (co w') = m_advancer_sg (co w) -> m_new_notifiers (co w') = m_new_notifiers (co w) ->
  m_old_notifiers (co w') = m_old_notifiers (co w) -> (latest w <= latest w')%Z ->
  places_on (m_new_notifiers (co w)) (store_of w) (store_of w') -> advancer_ok w -> advancer_ok w'.
Proof using Type.
  unfold advancer_ok. intros -> -> -> Hl Hp. destruct (m_advancer_sg (co w)) as [sg|]; [|done]. case_bool_decide; [done|].
  intros (v & Hr & Ha). exists v. split; [done|]. apply (all_at_impl (pending v (latest w))); [intros n; by apply pending_mono|].
  eapply places_on_all; eauto.
Qed.

Section mono.
Variable w w' : world.
Hypothesis Hold : m_old_notifiers (co w') = m_old_notifiers (co w).
Hypothesis Hsg : m_notifier_sg (co w') = m_notifier_sg (co w).
Hypothesis Hadv : is_Some (m_advancer_sg (co w)) -> is_Some (m_advancer_sg (co w')).
Hypothesis Hlatest : (latest w <= latest w')%Z.
Hypothesis Hplaces : places_on (m_old_notifiers (co w)) (store_of w) (store_of w').
Hypothesis Hskip : m_notifier_skip_version (co w') = m_notifier_skip_version (co w)
  \/ (m_old_notifiers (co w) <> [] /\ (latest w <= m_notifier_skip_version (co w') <= latest w')%Z).

Lemma skip_ok_mono lo : (lo <= latest w)%Z -> skip_ok lo w -> skip_ok lo w'.
Proof using Hold Hlatest Hskip.
  unfold skip_ok. rewrite Hold. intros Hlo Hs Hz. destruct Hskip as [Heq|[Hne Hv]].
  - rewrite Heq in *. destruct (Hs Hz). split; [done|lia].
  - split; [done|lia].
Qed.

Lemma run_ok_mono v l : run_ok v l w -> run_ok v l w'.
Proof using Hold Hsg Hadv Hlatest Hskip.
  unfold run_ok. rewrite Hold, Hsg. intros (? & ? & ? & ? & ? & ?). split_and!; [done|lia|lia|auto|done|done|]. apply skip_ok_mono; [lia|done].
Qed.

(** A part of a list of the coordinator. *)
Lemma run_all P v l ls : of_place P -> run_ok v l w -> (forall a, a ∈ ls -> a ∈ l_notifiers l ++ (fst <$> l_new_notifiers l)) ->
  all_at P ls (store_of w) -> all_at P ls (store_of w').
Proof using Hplaces.
  intros HP (_ & _ & _ & Hp & _) Hin. eapply places_on_all; [done|exact Hplaces|]. intros a Ha. rewrite Hp. by apply Hin.
Qed.

Lemma in_left (l1 l2 : list nat) a : a ∈ l1 -> a ∈ l1 ++ l2.
Proof using Type. rewrite elem_of_app. by left. Qed.
Lemma in_right (l1 l2 : list nat) a : a ∈ l2 -> a ∈ l1 ++ l2.
Proof using Type. rewrite elem_of_app. by right. Qed.

Lemma worker_ok_mono p : worker_ok w p -> worker_ok w' p.
Proof using Hold Hsg Hadv Hlatest Hplaces Hskip.
  destruct p as [|l|l|l|l]; cbn [worker_ok].
  - unfold idle_ok. rewrite Hsg, Hold. destruct (m_notifier_sg (co w)) as [sg|].
    + case_bool_decide as Hb.
      * destruct Hskip as [->|[Hne _]]; [done|]. by rewrite Hb in Hne.
      * intros (v & Hr & Hv & Ha & Hs). exists v. split_and!; [done|lia| |by apply skip_ok_mono].
        eapply places_on_all; eauto.
    + intros [Hb Hz]. destruct Hskip as [->|[Hne _]]; [done|]. by rewrite Hb in Hne.
  - intros (v & Hr & Ha & Hd & Hs). exists v. split_and!; [by apply run_ok_mono| | |done]; eapply run_all; eauto using in_left, in_right.
  - intros (v & Hr & Ha & Hs & Hd). exists v. split_and!; [by apply run_ok_mono| | |]; [|intros Hz|]; eapply run_all; eauto using in_left, in_right.
  - intros (v & Hr & Ha & Hd). exists v. split_and!; [by apply run_ok_mono| |]; eapply run_all; eauto using in_left, in_right.
  - intros (Hr & Ha). split; [by apply run_ok_mono|]. eapply run_all; eauto.
Qed.
End mono.

Lemma pin_version_spec opened latest v c c' :
  (m_async_error c = None -> forall sg, m_advancer_sg c = Some sg -> m_new_notifiers c <> [] -> exists u, reads_at u sg) ->
  pin_version opened latest v c = Some c' ->
  m_new_notifiers c' = m_new_notifiers c /\ m_old_notifiers c' = m_old_notifiers c /\ m_notifier_sg c' = m_notifier_sg c
  /\ m_notifier_skip_version c' = m_notifier_skip_version c
  /\ match m_async_error c, m_async_error c' with
     | Some _, _ => c' = c
     | None, Some _ => m_advancer_sg c = None
     | None, None => exists sg u, m_advancer_sg c' = Some sg /\ reads_at u sg /\ (u <= v)%Z
         /\ forall sg0 u0, m_advancer_sg c = Some sg0 -> m_new_notifiers c <> [] -> reads_at u0 sg0 -> (u <= u0)%Z
     end.
Proof using HGL.
  intros Hread. unfold pin_version. destruct (m_async_error c) as [e|] eqn:He; [by intros [= <-]|].
  destruct (m_advancer_sg c) as [sg|] eqn:Ha.
  - case_bool_decide as Hn.
    + destruct (REALM_ASSERT _); mrun; [|done]. destruct (begin_read _ _ _) as [sg'|] eqn:Hb; mrun; [|done]. apply begin_read_reading in Hb.
      intros [= <-]. cbn. rewrite He. split_and!; try done. exists sg', v. by split_and!.
    + destruct (REALM_ASSERT _); mrun; [|done]. destruct (Hread eq_refl sg eq_refl Hn) as [u0 [Hs Hu]]. case_bool_decide as Hlt.
      * destruct (begin_read _ _ _) as [sg'|] eqn:Hb; mrun; [|done]. apply begin_read_reading in Hb.
        intros [= <-]. cbn. rewrite He. split_and!; try done. exists sg', v. split_and!; try done.
        intros sg0 u1 [= <-] _ [_ Hu1]. lia.
      * intros [= <-]. rewrite He. split_and!; try done. exists sg, u0. split_and!; try done; [lia|].
        intros sg0 u1 Hsg0 _ [_ Hu1]. injection Hsg0 as <-. lia.
  - destruct opened as [e|sg].
    + intros [= <-]. by cbn.
    + destruct (begin_read _ _ _) as [sg'|] eqn:Hb; mrun.
      * apply begin_read_reading in Hb. intros [= <-]. cbn. rewrite He. split_and!; try done. exists sg', v. by split_and!.
      * intros [= <-]. by cbn.
Qed.

Lemma advancer_reads w sg : advancer_ok w -> m_advancer_sg (co w) = Some sg -> m_new_notifiers (co w) <> [] -> exists u, reads_at u sg.
Proof using Type. unfold advancer_ok. intros Ha Hs Hn. rewrite Hs, bool_decide_eq_false_2 in Ha by done. destruct Ha as (u & Hu & _). eauto. Qed.

Lemma worker_runs w p : worker_ok w p -> m_advancer_sg (co w) = None -> p = idle.
Proof using Type.
  intros Hw Hn. destruct p as [|l|l|l|l]; [done| | | |]; exfalso; cbn in Hw; unfold run_ok in Hw; rewrite Hn in Hw.
  - destruct Hw as (v & (_ & _ & [? [=]] & _) & _).
  - destruct Hw as (v & (_ & _ & [? [=]] & _) & _).
  - destruct Hw as (v & (_ & _ & [? [=]] & _) & _).
  - destruct Hw as ((_ & _ & [? [=]] & _) & _).
Qed.

(** A notifier joins the new ones, and the advancer reads before its version. *)
Lemma advancer_ok_join (w w' : world) a n sg u : m_new_notifiers (co w') = m_new_notifiers (co w) ++ [a] ->
  m_advancer_sg (co w') = Some sg -> reads_at u sg -> latest w' = latest w ->
  store_of w' = <[a := n]> (store_of w) -> a ∉ m_new_notifiers (co w) -> pending u (latest w) n ->
  (forall sg0 u0, m_advancer_sg (co w) = Some sg0 -> m_new_notifiers (co w) <> [] -> reads_at u0 sg0 -> (u <= u0)%Z) ->
  advancer_ok w -> advancer_ok w'.
Proof using Type.
  intros Hn Hs Hu Hl Hst Ha Hp Hle. unfold advancer_ok. rewrite Hn, Hs, Hl, Hst. rewrite (bool_decide_eq_false_2 (_ ++ _ = [])) by by intros []%app_nil.
  intros Hok. exists u. split; [done|]. apply all_at_app. split.
  - destruct (decide (m_new_notifiers (co w) = [])) as [->|Hne]; [by intros b Hb%elem_of_nil|].
    destruct (m_advancer_sg (co w)) as [sg0|]; [|by destruct Hok]. rewrite bool_decide_eq_false_2 in Hok by done.
    destruct Hok as (u0 & Hu0 & Hok). specialize (Hle sg0 u0 eq_refl Hne Hu0).
    apply (all_at_impl (pending u0 (latest w))); [unfold pending; intros m [? ?]; split; [done|lia]|].
    eapply places_on_all; [auto|by apply fresh_places_on| |exact Hok]. done.
  - intros b ->%list_elem_of_singleton. exists n. split; [apply lookup_insert_eq|done].
Qed.

Lemma registered_join w w' a : m_new_notifiers (co w') = m_new_notifiers (co w) ++ [a] -> m_old_notifiers (co w') = m_old_notifiers (co w) ->
  a ∉ registered w -> NoDup (registered w) -> NoDup (registered w').
Proof using Type.
  unfold registered. intros -> -> Ha Hnd. rewrite <- app_assoc. cbn. rewrite <- Permutation_middle. by apply NoDup_cons.
Qed.

Lemma register_inv opened a n w w' p : a ∉ registered w -> m_sg (base n) = false -> (m_sg_version (base n) <= latest w)%Z ->
  register_notifier opened a n w = Some w' -> co_inv (w, p) -> co_inv (w', p).
Proof using HGL.
  intros Ha Hsg Hv. unfold register_notifier. destruct (pin_version _ _ _ _) as [c|] eqn:Hp; mrun; [|done]. intros [= <-] [Hnd Hinv].
  pose proof Ha as Ha'. unfold registered in Ha'. apply not_elem_of_app in Ha' as [Han Hao].
  apply pin_version_spec in Hp.
  2: { intros He sg. rewrite He in Hinv. apply advancer_reads, Hinv. }
  destruct Hp as (Hn & Ho & Hns & Hk & He). split; [eapply registered_join; [| |done|done]; cbn; by rewrite ?Hn|].
  cbn [m_async_error set_new co] in *. destruct (m_async_error (co w)) as [e|] eqn:Herr.
  { subst c. by rewrite Herr. }
  destruct Hinv as [Hadv Hw]. destruct (m_async_error c) as [e|] eqn:Hce; [by eapply worker_runs|].
  destruct He as (sg & u & Hsgc & Hu & Hle & Hmin). split.
  - eapply (advancer_ok_join w); cbn; rewrite ?Hn; eauto. split; [done|lia].
  - assert (is_Some (m_advancer_sg c)) by by rewrite Hsgc. eapply (worker_ok_mono w); cbn; eauto using fresh_places_on. done.
Qed.

Lemma change_inv a n b w p : store_of w !! a = Some n -> same_place (base n) b ->
  co_inv (w, p) -> co_inv (set_store (<[a := with_base b n]> (store_of w)) w, p).
Proof using HAL.
  intros Hn Hp [Hnd Hinv]. split; [done|]. cbn. destruct (m_async_error (co w)); [done|]. destruct Hinv as [Hadv Hw].
  assert (Hs : forall l, places_on l (store_of w) (<[a := with_base b n]> (store_of w))).
  { intros l. apply same_places_on. eapply same_places_insert; [done|]. by rewrite base_with_base. }
  split.
  - eapply (advancer_ok_mono w); eauto. done.
  - eapply (worker_ok_mono w); eauto. done.
Qed.

Lemma places_refl l s : places_on l s s.
Proof using Type. intros b m _ Hm. by exists m. Qed.

Lemma write_inv f w p : co_inv (w, p) -> co_inv (commit_write f w, p).
Proof using Type.
  intros [Hnd Hinv]. unfold commit_write. destruct (existsb _ _) eqn:Hex; (split; [done|]); cbn.
  all: destruct (m_async_error (co w)); [done|]; destruct Hinv as [Hadv Hw].
  all: split; [eapply (advancer_ok_mono w)|eapply (worker_ok_mono w)]; cbn; eauto using places_refl; try lia.
  right. split; [|lia]. intros Hnil. by rewrite Hnil in Hex.
Qed.

(** ** The worker between two runs *)

Lemma end_resting sg v : resting sg \/ reads_at v sg -> resting (end_read sg).
Proof using HGL. unfold resting. intros Hsg. apply end_read_ready. by destruct Hsg as [->|[-> _]]. Qed.

Lemma incl_nil (l l' : list nat) : (forall a, a ∈ l' -> a ∈ l) -> l = [] -> l' = [].
Proof using Type. intros Hin ->. destruct l' as [|a l']; [done|]. by destruct (not_elem_of_nil a (Hin a (list_elem_of_here _ _))). Qed.

Lemma clean_advancer w w' : NoDup (registered w) -> clean_up_dead_notifiers w = Some w' -> advancer_ok w -> advancer_ok w'.
Proof using HAL HGL.
  intros Hnd Hc. apply clean_up_spec in Hc as ((Hl & He & Hp) & (Hin & _ & Hen) & (Hio & _)); [|done].
  unfold advancer_ok. rewrite Hl. intros Hok. destruct Hen as [[-> Hen]|(sg & Hsg & Hnil & ->)].
  - destruct (m_advancer_sg (co w)) as [sg|]; [|destruct Hok as [Hn Ho]; eauto using incl_nil].
    specialize (Hen ltac:(done)). destruct (decide (m_new_notifiers (co w') = [])) as [Hn'|Hn'].
    + by rewrite bool_decide_eq_true_2 in * by auto.
    + rewrite !bool_decide_eq_false_2 in * by eauto using incl_nil. destruct Hok as (v & Hv & Hok). exists v. split; [done|].
      apply (all_at_incl _ _ (m_new_notifiers (co w'))) in Hok; [|done]. eapply same_places_all; eauto.
  - rewrite Hnil, bool_decide_eq_true_2 by done. rewrite Hsg in Hok. case_bool_decide.
    + apply (end_resting _ 0). by left.
    + destruct Hok as (v & Hv & _). apply (end_resting _ v). by right.
Qed.

Lemma clean_idle w w' : NoDup (registered w) -> clean_up_dead_notifiers w = Some w' -> idle_ok w -> idle_ok w'.
Proof using HAL HGL.
  intros Hnd Hc. apply clean_up_spec in Hc as ((Hl & He & Hp) & _ & (Hin & _ & Hen & Hk & Hz)); [|done].
  unfold idle_ok, skip_ok. rewrite Hl. intros Hok. destruct Hen as [[Hs Hen]|(sg & Hsg & Hnil & ->)].
  - rewrite Hs. destruct (m_notifier_sg (co w)) as [sg|].
    + specialize (Hen ltac:(done)). destruct (decide (m_old_notifiers (co w') = [])) as [Hn'|Hn'].
      * rewrite bool_decide_eq_true_2 in * by auto. destruct Hok as [Hr Hsk]. split; [done|]. destruct Hk; congruence.
      * rewrite !bool_decide_eq_false_2 in * by eauto using incl_nil. destruct Hok as (v & Hv & Hle & Hok & Hsk). exists v.
        split_and!; [done|done| |].
        -- apply (all_at_incl _ _ (m_old_notifiers (co w'))) in Hok; [|done]. eapply same_places_all; eauto.
        -- intros Hne. destruct Hk as [Hk|]; [|done]. rewrite Hk in *. split; [done|]. by apply Hsk.
    + destruct Hok as [Ho Hsk]. split; [by eapply incl_nil|]. destruct Hk; congruence.
  - rewrite Hsg in *. rewrite (bool_decide_eq_true_2 (m_old_notifiers (co w') = [])) by done. case_bool_decide as Ho.
    + destruct Hok as [Hr Hsk]. split; [apply (end_resting _ 0); by left|]. destruct Hk; congruence.
    + destruct Hok as (v & Hv & _). split; [apply (end_resting _ v); by right|]. by apply Hz.
Qed.

Lemma clean_inv w w' : clean_up_dead_notifiers w = Some w' -> co_inv (w, idle) -> co_inv (w', idle).
Proof using HAL HGL.
  intros Hc [Hnd Hinv]. pose proof (clean_up_spec _ _ Hnd Hc) as ((Hl & He & Hp) & (Hin & Hndn & _) & (Hio & Hndo & _)). split.
  - unfold registered in *. apply NoDup_app in Hnd as (_ & Hdis & _). apply NoDup_app. split_and!; [done| |done].
    intros a Ha Hb. by apply (Hdis a); [apply Hin|apply Hio].
  - rewrite He. destruct (m_async_error (co w)); [done|]. destruct Hinv as [Hadv Hw]. split; [by eapply clean_advancer|by eapply clean_idle].
Qed.

(** ** Starting a run *)

Lemma open_helper_spec opened (w : world) c : m_async_error (co w) = None -> idle_ok w ->
  open_helper_shared_group opened (latest w) (co w) = Some c ->
  m_new_notifiers c = m_new_notifiers (co w) /\ m_old_notifiers c = m_old_notifiers (co w) /\ m_advancer_sg c = m_advancer_sg (co w)
  /\ m_notifier_skip_version c = m_notifier_skip_version (co w)
  /\ (m_async_error c = None -> exists sg v, m_notifier_sg c = Some sg /\ reads_at v sg /\ (v <= latest w)%Z
       /\ all_at (settled v) (m_old_notifiers (co w)) (store_of w) /\ skip_ok v w).
Proof using HGL.
  intros He. unfold idle_ok, open_helper_shared_group, skip_ok.
  assert (Hnil : m_old_notifiers (co w) = [] -> m_notifier_skip_version (co w) = 0%Z -> forall sg sg', begin_read (latest w) None sg = Some sg' ->
    exists v, reads_at v sg' /\ (v <= latest w)%Z /\ all_at (settled v) (m_old_notifiers (co w)) (store_of w) /\ skip_ok v w).
  { intros Ho Hz sg sg' Hb%begin_read_reading. exists (latest w). split_and!; [done|lia| |by intros ?].
    rewrite Ho. by intros a Ha%elem_of_nil. }
  destruct (m_notifier_sg (co w)) as [sg|] eqn:Hsg.
  - case_bool_decide as Ho.
    + intros [Hr Hz]. destruct (begin_read _ _ _) as [sg'|] eqn:Hb; mrun; [|done]. intros [= <-]. split_and!; try done.
      intros _. destruct (Hnil Ho Hz _ _ Hb) as (v & ?). exists sg', v. done.
    + intros Hok [= <-]. split_and!; try done. intros _. destruct Hok as (v & ?). exists sg, v. done.
  - intros [Ho Hz]. destruct opened as [e|sg]; [intros [= <-]; by split_and!|].
    destruct (begin_read _ _ _) as [sg'|] eqn:Hb; intros [= <-]; split_and!; try done.
    intros _. destruct (Hnil Ho Hz _ _ Hb) as (v & ?). exists sg', v. done.
Qed.

(** Bringing the new ones to the latest version leaves the others alone. *)
Lemma new_ones_spec (w : world) sg sg' c s ps : NoDup (m_new_notifiers (co w)) ->
  (if bool_decide (m_new_notifiers (co w) = [])
   then sg ← begin_read (latest w) None sg; Some (sg, mkIncremental [] 0 None, store_of w, [])
   else advance_new log_between (latest w) (m_new_notifiers (co w)) (store_of w) sg) = Some (sg', c, s, ps) ->
  reads_at (latest w) sg' /\ fst <$> ps ≡ₚ m_new_notifiers (co w) /\ stepped passed (m_new_notifiers (co w)) (store_of w) s.
Proof using HAL HGL.
  intros Hnd. case_bool_decide as Hn.
  - destruct (begin_read _ _ _) as [sg1|] eqn:Hb; mrun; [|done]. intros [= <- <- <- <-]. apply begin_read_reading in Hb. rewrite Hn.
    split_and!; [done|done|]. split; [done|]. by intros a Ha%elem_of_nil.
  - by apply advance_new_spec.
Qed.

Lemma passed_detached l s s' : stepped passed l s s' -> all_at detached l s'.
Proof using Type. intros [_ Hi] a Ha. destruct (Hi a Ha) as (n & n' & _ & Hn' & Hp). exists n'. split; [done|]. unfold detached. by rewrite Hp. Qed.

Lemma stepped_others (R : N -> N -> Prop) P l l' s s' : stepped R l s s' -> (forall a, a ∈ l' -> a ∉ l) -> all_at P l' s -> all_at P l' s'.
Proof using Type. intros [Ho _] Hd. apply all_at_store. intros a Ha. by apply Ho, Hd. Qed.

Lemma no_new_run (w : world) c c' : c' = set_new [] (set_old (m_old_notifiers c ++ m_new_notifiers c) c) ->
  m_new_notifiers c = m_new_notifiers (co w) -> m_old_notifiers c = m_old_notifiers (co w) ->
  NoDup (registered w) -> m_async_error c <> None -> co_inv (set_co c' w, idle).
Proof using Type.
  intros -> Hn Ho Hnd He. split; cbn.
  - unfold registered in *. cbn. by rewrite Hn, Ho, Permutation_app_comm.
  - by destruct (m_async_error c).
Qed.

(** The lock is released for the first time. *)
Lemma begun_ok (w : world) c sg infos s ps nsg v : NoDup (registered w) ->
  bool_decide (m_old_notifiers (co w) = []) && bool_decide (m_new_notifiers (co w) = []) = false ->
  m_old_notifiers c = m_old_notifiers (co w) -> m_notifier_skip_version c = m_notifier_skip_version (co w) ->
  m_async_error c = None -> m_notifier_sg c = Some nsg -> reads_at v nsg -> (v <= latest w)%Z ->
  all_at (settled v) (m_old_notifiers (co w)) (store_of w) -> skip_ok v w ->
  reads_at (latest w) sg -> fst <$> ps ≡ₚ m_new_notifiers (co w) -> stepped passed (m_new_notifiers (co w)) (store_of w) s ->
  co_inv (mkWorld (set_new [] (set_old (m_old_notifiers c ++ (fst <$> ps)) (set_skip_version 0 (set_advancer_sg (Some (end_read sg)) c)))) s (latest w),
    skipping (mkLocals (m_old_notifiers c) ps (get_version_of_current_transaction sg) (m_notifier_skip_version c) infos)).
Proof using HGL.
  intros Hnd Hne Hco Hck Hce Hns Hv Hle Hset Hskip Hrd Hps Hst. pose proof Hnd as (Hndn & Hdis & Hndo)%NoDup_app.
  split; cbn [m_async_error set_new set_old set_skip_version set_advancer_sg co].
  { unfold registered. cbn. rewrite Hco, Hps, Permutation_app_comm. done. }
  rewrite Hce. split; [unfold advancer_ok; cbn; apply (end_resting _ (latest w)); by right|].
  exists v. unfold run_ok, skip_ok. cbn. rewrite Hco. destruct Hrd as [Hr1 Hr2]. rewrite Hr2. split_and!; try done.
  - eauto.
  - intros [Ho Hp]%app_nil. rewrite Hp in Hps. apply Permutation_nil in Hps. by rewrite Ho, Hps in Hne.
  - eapply stepped_others; [exact Hst| |done]. intros a Ha Hb. by apply (Hdis a).
  - eapply all_at_incl; [|by eapply passed_detached]. intros a. by rewrite Hps.
  - rewrite Hck. apply Hskip.
Qed.

Lemma begin_inv opened w w' l : async_begin log_between opened w = Some (w', l) -> co_inv (w, idle) ->
  co_inv (w', match l with Some l => skipping l | None => idle end).
Proof using HAL HGL.
  unfold async_begin. destruct (clean_up_dead_notifiers w) as [w1|] eqn:Hc; mrun; [|done].
  intros Hr Hi. eapply clean_inv in Hi; [|exact Hc]. clear Hc w. rename w1 into w. revert Hr. cbv zeta.
  destruct (_ && _) eqn:Hb; [by intros [= <- <-]|].
  pose proof Hi as [Hnd Hok].
  destruct (m_async_error (co w)) as [e|] eqn:He; mrun.
  { rewrite He. intros [= <- <-]. eapply no_new_run; try done. by rewrite He. }
  destruct Hok as [Hadv Hidle]. destruct (open_helper_shared_group _ _ _) as [c|] eqn:Ho; mrun; [|done].
  eapply open_helper_spec in Ho as (Hcn & Hco & Hca & Hck & Hcv); [|done|done].
  destruct (m_async_error c) as [e|] eqn:Hce.
  { intros [= <- <-]. eapply no_new_run; try done. by rewrite Hce. }
  destruct (Hcv eq_refl) as (nsg & v & Hns & Hv & Hle & Hset & Hskip).
  destruct (m_advancer_sg c) as [sg|] eqn:Hsg; mrun; [|done]. rewrite Hcn.
  set (r := if bool_decide _ then _ else _). destruct r as [[[[sg' infos] s] ps]|] eqn:Hnew; unfold r in Hnew; clear r; mrun; [|done].
  pose proof Hnd as (Hndn & _)%NoDup_app. apply new_ones_spec in Hnew as (Hrd & Hps & Hst); [|done].
  destruct (REALM_ASSERT _); mrun; [|done]. intros [= <- <-]. by eapply begun_ok.
Qed.

(** ** The parts of a run *)

(** The worker has brought its group to version [u], and changed some of its own
    notifiers. *)
Definition moved (sg : SharedGroup) (s : notifiers) (w : world) : world := mkWorld (set_notifier_sg (Some sg) (co w)) s (latest w).
Definition relist (ns : list nat) (l : locals) : locals :=
  mkLocals ns (l_new_notifiers l) (l_version l) (l_skip_version l) (l_new_infos l).

Lemma run_ok_moved v u l w sg ns s : run_ok v l w -> reads_at u sg -> (u <= l_version l)%Z -> ns ≡ₚ l_notifiers l ->
  run_ok u (relist ns l) (moved sg s w).
Proof using Type.
  intros (_ & Hv & Ha & Hp & Hne & Hs) Hu Hle Hns. unfold run_ok. cbn. split_and!; [by exists sg|lia|lia|done| |done|done].
  by rewrite Hns.
Qed.

Lemma run_parts v l w : NoDup (registered w) -> run_ok v l w ->
  NoDup (l_notifiers l) /\ NoDup (fst <$> l_new_notifiers l)
  /\ (forall a, a ∈ l_notifiers l -> a ∉ (fst <$> l_new_notifiers l) /\ a ∉ m_new_notifiers (co w))
  /\ (forall a, a ∈ (fst <$> l_new_notifiers l) -> a ∉ l_notifiers l /\ a ∉ m_new_notifiers (co w)).
Proof using Type.
  intros (_ & Hdis & Hnd)%NoDup_app (_ & _ & _ & Hp & _). rewrite Hp in Hnd. apply NoDup_app in Hnd as (Hnd1 & Hdis1 & Hnd2).
  split_and!; [done|done| |]; intros a Ha; (split; [intros Hb; by eapply Hdis1|]); intros Hb; apply (Hdis a Hb); rewrite Hp, elem_of_app; eauto.
Qed.

Lemma advancer_ok_moved sg s w : places_on (m_new_notifiers (co w)) (store_of w) s -> advancer_ok w -> advancer_ok (moved sg s w).
Proof using Type. intros Hs. eapply advancer_ok_mono; done. Qed.

Lemma stepped_places (R : N -> N -> Prop) l l' s s' : stepped R l s s' -> (forall a, a ∈ l' -> a ∉ l) -> places_on l' s s'.
Proof using Type. intros [Ho _] Hd a n Ha Hn. exists n. by rewrite Ho by auto. Qed.

Lemma settled_attached v l s : all_at (settled v) l s -> all_at attached l s.
Proof using Type. apply all_at_impl. by intros n [? _]. Qed.

Lemma skip_inv l w l' w' : async_skip log_between l w = Some (l', w') -> co_inv (w, skipping l) -> co_inv (w', handing l').
Proof using HAL HGL.
  unfold async_skip. intros Hr [Hnd Hi]. revert Hr. cbn in Hi. destruct (m_async_error (co w)) eqn:He; [done|].
  destruct Hi as [Hadv (v & Hok & Hset & Hdet & Hskip)]. case_bool_decide as Hz.
  { intros [= <- <-]. split; [done|]. rewrite He. split; [done|]. exists v. split_and!; try done. by eapply settled_attached. }
  do 2 (destruct (REALM_ASSERT _)); mrun; try done. destruct (m_notifier_sg (co w)) as [sg|]; mrun; [|done].
  destruct (advance_old _ _ _ _ _ _) as [[[[ns sg'] c] s]|] eqn:Ha; mrun; [|done]. destruct (run_old _ _ _) as [s'|] eqn:Hrun; mrun; [|done].
  intros [= <- <-]. destruct (run_parts _ _ _ Hnd Hok) as (Hndl & _). apply advance_old_spec in Ha as (Hns & Hu & Hk); [|done..].
  apply run_old_kept in Hrun; [|by rewrite Hns]. assert (Hpl : same_places (store_of w) s') by by eapply kept_places, kept_trans.
  fold (moved sg' s' w). fold (relist ns l). split; [done|]. cbn [m_async_error co moved set_notifier_sg]. rewrite He.
  split; [apply advancer_ok_moved; [by apply same_places_on|done]|]. exists (l_skip_version l). destruct (Hskip Hz) as [Hne Hle]. split_and!.
  - eapply run_ok_moved; eauto. lia.
  - cbn. eapply all_at_incl; [|eapply same_places_all; [..|eapply settled_attached, Hset]]; eauto. intros a. by rewrite Hns.
  - done.
  - eapply same_places_all; eauto.
Qed.

(** The handover of some notifiers. *)
Definition handed (v : Z) (n n' : N) : Prop :=
  m_sg_version (base n') = v /\ m_has_run (base n') = true /\ m_sg (base n') = m_sg (base n).

Lemma handover_stepped v l s s' : NoDup l -> foldM (on_store (n_prepare_handover v)) l s = Some s' -> stepped (handed v) l s s'.
Proof using HAL.
  intros Hnd. eapply fold_store_stepped; [|done]. intros a t t' _ (n & n' & Hn & Hh & ->)%on_store_spec. exists n, n'.
  apply base_prepare_handover in Hh as (? & ? & ? & _). done.
Qed.

Lemma handed_settled v l s s' : stepped (handed v) l s s' -> all_at attached l s -> all_at (settled v) l s'.
Proof using Type. intros Hst. eapply stepped_all; [exact Hst|]. intros n n' (? & ? & Hs) Ha. unfold settled. by rewrite Hs. Qed.

Lemma hand_inv l w w' : async_skip_handover l w = Some w' -> co_inv (w, handing l) -> co_inv (w', running l).
Proof using HAL HGL.
  unfold async_skip_handover. intros Hr [Hnd Hi]. revert Hr. cbn in Hi. destruct (m_async_error (co w)) eqn:He; [done|].
  destruct Hi as [Hadv (v & Hok & Hatt & Hset & Hdet)]. case_bool_decide as Hz.
  { intros [= <-]. split; [done|]. rewrite He. split; [done|]. exists v. split_and!; try done. by apply Hset. }
  pose proof Hok as ((sg & Hsg & Hrd) & _). rewrite Hsg. mrun. destruct (foldM _ _ _) as [s|] eqn:Hf; mrun; [|done]. intros [= <-].
  destruct (run_parts _ _ _ Hnd Hok) as (Hndl & _ & Hd1 & Hd2). apply handover_stepped in Hf; [|done].
  destruct Hrd as [Hr1 Hr2]. rewrite Hr2 in Hf. split; [done|]. cbn [m_async_error co set_store]. rewrite He. split.
  - eapply (advancer_ok_mono w); try done. eapply stepped_places; [exact Hf|]. intros a Ha Hb. by apply (Hd1 a).
  - exists v. split_and!; [done| |].
    + by eapply handed_settled.
    + eapply stepped_others; [exact Hf| |done]. intros a Ha. by apply Hd2.
Qed.

Lemma attach_run_stepped v (c : IncrementalChangeInfo) (l : list (nat * nat)) : NoDup (fst <$> l) -> forall s s',
  foldM (λ '(a, k) s, s ← on_store (n_attach_to v) a s; info ← m_infos c !! k; on_store (n_run info) a s) l s = Some s' ->
  stepped put_on (fst <$> l) s s'.
Proof using HAL.
  induction l as [|[a k] l IH]; cbn [foldM fmap list_fmap fst]; intros Hnd s s'.
  - intros [= <-]. split; [done|]. by intros b Hb%elem_of_nil.
  - apply NoDup_cons in Hnd as [Ha Hnd]. destruct (on_store (n_attach_to v) a s) as [s1|] eqn:H1; mrun; [|done].
    destruct (m_infos c !! k) as [info|]; mrun; [|done]. destruct (on_store (n_run info) a s1) as [s2|] eqn:H2; [|done]. intros Hr.
    apply on_store_spec in H1 as (n & n1 & Hn & Hat & ->). apply on_store_spec in H2 as (m & n2 & Hm & Hrun & ->).
    rewrite lookup_insert_eq in Hm. injection Hm as <-. rewrite insert_insert_eq in Hr.
    eapply (stepped_cons put_on a _ s _ s' n n2); [done|done| |reflexivity|by apply IH]. unfold put_on.
    rewrite (base_run _ _ _ Hrun). by eapply base_attach_to.
Qed.

Lemma put_on_attached l s s' : stepped put_on l s s' -> all_at attached l s'.
Proof using Type. intros [_ Hi] a Ha. destruct (Hi a Ha) as (n & n' & _ & Hn' & Hp). exists n'. split; [done|]. unfold attached. by rewrite Hp. Qed.

Lemma run_inv l w l' w' : async_run log_between l w = Some (l', w') -> co_inv (w, running l) -> co_inv (w', finishing l').
Proof using HAL HGL.
  unfold async_run. intros Hr [Hnd Hi]. revert Hr. cbn in Hi. destruct (m_async_error (co w)) eqn:He; [done|].
  destruct Hi as [Hadv (v & Hok & Hset & Hdet)]. destruct (m_notifier_sg (co w)) as [sg|]; mrun; [|done].
  destruct (advance_old _ _ _ _ _ _) as [[[[ns sg'] c] s]|] eqn:Ha; mrun; [|done].
  destruct (foldM _ (l_new_notifiers l) s) as [s1|] eqn:Hf; mrun; [|done]. destruct (run_old _ _ _) as [s'|] eqn:Hrun; mrun; [|done].
  intros [= <- <-]. destruct (run_parts _ _ _ Hnd Hok) as (Hndl & Hndn & Hd1 & Hd2).
  apply advance_old_spec in Ha as (Hns & Hu & Hk); [|done..]. apply run_old_kept in Hrun; [|by rewrite Hns].
  apply attach_run_stepped in Hf; [|done]. fold (moved sg' s' w). fold (relist ns l). split; [done|].
  cbn [m_async_error co moved set_notifier_sg]. rewrite He. split; [|split].
  - apply advancer_ok_moved; [|done]. intros a n Hain Han. destruct (Hk a n Han) as (n1 & Hn1 & Hb1).
    destruct (stepped_places _ _ (m_new_notifiers (co w)) _ _ Hf) with (a := a) (n := n1) as (n2 & Hn2 & Hb2); [|done..|].
    { intros b Hb Hbl. by apply (Hd2 b). }
    destruct (Hrun a n2 Hn2) as (n3 & Hn3 & Hb3). exists n3. split; [done|]. by rewrite Hb3, <- Hb1.
  - eapply run_ok_moved; eauto. cbn. lia.
  - cbn. rewrite all_at_app. split.
    + eapply all_at_incl; [intros a; rewrite Hns; done|]. eapply kept_all_at; [|exact Hrun|]; [by intros ? ? Hb; unfold attached; rewrite Hb|].
      eapply stepped_others; [exact Hf|intros a Ha; by apply (Hd1 a)|]. eapply same_places_all; [auto|by eapply kept_places|].
      by eapply settled_attached.
    + eapply kept_all_at; [|exact Hrun|by eapply put_on_attached]. by intros ? ? Hb; unfold attached; rewrite Hb.
Qed.

Lemma finish_inv l w w' : async_finish l w = Some w' -> co_inv (w, finishing l) -> co_inv (w', idle).
Proof using HAL HGL.
  unfold async_finish. intros Hr [Hnd Hi]. cbn in Hi. destruct (m_async_error (co w)) eqn:He.
  { done. }
  destruct Hi as [Hadv (Hok & Hatt)]. pose proof Hok as ((sg & Hsg & Hrd) & Hle & _ & Hp & Hne & Hskip). rewrite Hsg in Hr. revert Hr. mrun.
  destruct (foldM _ (fst <$> _) _) as [s1|] eqn:H1; mrun; [|done]. destruct (foldM _ (l_notifiers l) _) as [s2|] eqn:H2; mrun; [|done].
  intros Hc. eapply clean_inv; [exact Hc|]. clear Hc. destruct (run_parts _ _ _ Hnd Hok) as (Hndl & Hndn & Hd1 & Hd2).
  apply handover_stepped in H1; [|done]. apply handover_stepped in H2; [|done]. destruct Hrd as [Hr1 Hr2]. rewrite Hr2 in *.
  apply all_at_app in Hatt as [Hal Han]. split; [done|]. cbn [m_async_error co set_store]. rewrite He. split.
  - eapply (advancer_ok_mono w); try done. intros a n Ha Hn.
    destruct (stepped_places _ _ (m_new_notifiers (co w)) _ _ H1) with (a := a) (n := n) as (n1 & Hn1 & Hb1); [|done..|].
    { intros b Hb Hbl. by apply (Hd2 b). }
    destruct (stepped_places _ _ (m_new_notifiers (co w)) _ _ H2) with (a := a) (n := n1) as (n2 & Hn2 & Hb2); [|done..|].
    { intros b Hb Hbl. by apply (Hd1 b). }
    exists n2. split; [done|]. unfold same_place in *. naive_solver congruence.
  - unfold worker_ok, idle_ok. cbn. rewrite Hsg, bool_decide_eq_false_2 by done. exists (l_version l). split_and!; [done|lia| |done].
    eapply all_at_incl; [intros a; rewrite Hp; done|]. rewrite all_at_app. split.
    + eapply handed_settled; [exact H2|]. eapply stepped_others; [exact H1| |done]. intros a Ha. by apply Hd1.
    + eapply stepped_others; [exact H2|intros a Ha; by apply Hd2|]. by eapply handed_settled.
Qed.

Lemma step_inv st st' : co_step st st' -> co_inv st -> co_inv st'.
Proof using HAL HGL.
  intros [opened a n w w2 p|a n b w p|f w p|opened w w2 Hr|opened w w2 l Hr|l w l' w2|l w w2|l w l' w2|l w w2].
  - by eapply register_inv.
  - by apply change_inv.
  - apply write_inv.
  - apply (begin_inv _ _ _ _ Hr).
  - apply (begin_inv _ _ _ _ Hr).
  - by apply skip_inv.
  - by apply hand_inv.
  - by apply run_inv.
  - by apply finish_inv.
Qed.

Lemma new_world_inv v : co_inv (new_world v, idle).
Proof using Type. split; [by apply NoDup_nil|]. done. Qed.

Lemma reach_inv st st' : co_reach st st' -> co_inv st -> co_inv st'.
Proof using HAL HGL. induction 1; eauto using step_inv. Qed.
End invariant.
