(* ===== verification/DeliveryFacts.v ===== *)
(** * Deliveries

    A callback gets one change set for all the runs of its notifier since the last
    delivery; and what every use of a notifier keeps, deliveries with user code
    included. *)

From S2P Require Import Prelude ChunkedRangeVector ChunkedFacts IndexSet IndexSetFacts CorrFacts.
From S2P Require Import ChangeBuilder ChangeFacts ChangeMove ChangeMerge ChangeMergeMoves ChangeCompose.
From S2P Require Import TransactInfo TransactLog ListRefinement CollectionNotifier DeliverySpec.

(** ** Changes that accumulate between two deliveries

    A callback gets one change set for all the runs of its notifier since the
    last delivery: the merge of what the runs reported. *)

Section tells.
Context `{HB : Build, HO : StdOrders} {A : Type}.

(** The elements that [b] tracks are those of both versions, and the same unless
    they are marked. *)
Record tells (b : CollectionChangeBuilder) (xs ys : list A) : Prop := {
  tl_wf : wf_builder b;
  tl_moves : wf_moves b;
  tl_sizes : forall x y, tracks b x y -> (x < Z.of_nat (length xs))%Z <-> (y < Z.of_nat (length ys))%Z;
  tl_values : forall x y, tracks b x y -> (y < Z.of_nat (length ys))%Z ->
    y ∈ modifications b \/ ys !! Z.to_nat y = xs !! Z.to_nat x;
}.

Lemma explains_tells b (xs ys : list A) : explains b xs ys -> tells b xs ys.
Proof. intros [[? ? ? ? ? ? ?] ?]. by split. Qed.

Lemma merge_tells b c (xs ys zs : list A) : mergeable b c -> tells b xs ys -> tells c ys zs ->
  exists b', merge b c = Some b' /\ tells b' xs zs.
Proof.
  intros Hm Hb Hc. destruct (merge_spec b c Hm) as (b' & Hrun & Hmg). exists b'. split; [done|].
  pose proof Hmg as (Hwf & Hmv & Htr & _). split; [done|done| |].
  - intros x z (y & Hxy & Hyz)%Htr. by rewrite (tl_sizes _ _ _ Hb x y Hxy), (tl_sizes _ _ _ Hc y z Hyz).
  - intros x z (y & Hxy & Hyz)%Htr Hz.
    pose proof (merged_survivor b c b' modifications x y z Hm Hmg (or_introl eq_refl) Hxy Hyz) as Hmarks.
    pose proof (proj2 (tl_sizes _ _ _ Hc y z Hyz) Hz) as Hy.
    destruct (tl_values _ _ _ Hc y z Hyz Hz) as [?|Hcv]; [left; apply Hmarks; by left|].
    destruct (tl_values _ _ _ Hb x y Hxy Hy) as [?|Hbv]; [left; apply Hmarks; by right|]. right. by rewrite Hcv, Hbv.
Qed.

(** ** What is delivered *)

(** A row that is neither deleted nor inserted is in both versions, and the same
    in both unless it is reported as modified. *)
Definition changes_tell (c : CollectionChangeSet) (xs ys : list A) : Prop := forall x y,
  corr (flat (cs_deletions c)) (flat (cs_insertions c)) x y ->
  ((x < Z.of_nat (length xs))%Z <-> (y < Z.of_nat (length ys))%Z)
  /\ ((y < Z.of_nat (length ys))%Z -> y ∈ cs_modifications_new c \/ ys !! Z.to_nat y = xs !! Z.to_nat x).

Definition finalizable (b : CollectionChangeBuilder) : Prop :=
  bounded (npos - total (flat (deletions b))) (flat (modifications b)).

Lemma finalize_tells b (xs ys : list A) : tells b xs ys -> finalizable b ->
  exists c, finalize b = Some c /\ changes_tell c xs ys
    /\ cs_deletions c = deletions b /\ cs_insertions c = insertions b /\ cs_moves c = moves b.
Proof.
  intros Hb Hf. destruct (finalize_spec b (tl_wf _ _ _ Hb) Hf) as (c & Hrun & HD & HI & HM & _ & _ & _ & _ & Hnew).
  exists c. split_and!; [done| |done..]. intros x y Hc. rewrite HD, HI in Hc.
  assert (Ht : tracks b x y) by by left. split; [by apply (tl_sizes _ _ _ Hb)|]. intros Hy.
  destruct (tl_values _ _ _ Hb x y Ht Hy) as [Hm|?]; [left|by right]. apply Hnew. split; [done|].
  destruct Hc as (_ & _ & _ & Hn & _). by rewrite elem_of_flat.
Qed.

(** ** The callbacks of a notifier *)

Lemma mapM_vec_each {X Y} (R : X -> Y -> Prop) f l : (forall x, x ∈ l -> exists y, f x = Some y /\ R x y) ->
  exists l', mapM_vec f l = Some l' /\ Forall2 R l l'.
Proof.
  induction l as [|x l IH]; intros Hf; [by exists []|]. cbn [mapM_vec]. destruct (Hf x) as (y & -> & Hy); [by left|]. mrun.
  destruct IH as (l' & -> & Hl'); [intros; apply Hf; by right|]. mrun. exists (y :: l'). split; [done|by constructor].
Qed.

(** The callbacks saw the versions [ws] last; their changes lead to [xs]. *)
Definition accumulated_at (n : notifier) (ws : list (list A)) (xs : list A) : Prop :=
  Forall2 (λ c w, skip_next c = false /\ tells (accumulated_changes c) w xs) (m_callbacks n) ws.

Definition same_callback (c c' : Callback) : Prop :=
  c' = set_to_deliver (changes_to_deliver c') (set_accumulated (accumulated_changes c') c).

Lemma add_changes_tells n ws b (xs ys : list A) : accumulated_at n ws xs -> tells b xs ys ->
  Forall (λ c, mergeable (accumulated_changes c) b) (m_callbacks n) ->
  exists cs, add_changes b n = Some (set_callbacks cs n) /\ accumulated_at (set_callbacks cs n) ws ys
    /\ Forall2 (λ c c', same_callback c c' /\ changes_to_deliver c' = changes_to_deliver c) (m_callbacks n) cs.
Proof.
  intros Hat Hb Hm. unfold add_changes, accumulated_at in *. cbn [m_callbacks set_callbacks].
  assert (Hrun : exists cs, mapM_vec (add_change b) (m_callbacks n) = Some cs
    /\ Forall2 (λ c w, skip_next c = false /\ tells (accumulated_changes c) w ys) cs ws
    /\ Forall2 (λ c c', same_callback c c' /\ changes_to_deliver c' = changes_to_deliver c) (m_callbacks n) cs).
  { induction Hat as [|c w l ws [Hs Ht] _ IH]; [by exists []|]. apply Forall_cons in Hm as [Hmc Hm]. cbn [mapM_vec].
    destruct (merge_tells _ b w xs ys Hmc Ht Hb) as (a & Ha & Hta). assert (add_change b c = Some (set_accumulated a c)) as -> by (unfold add_change; by rewrite Hs, Ha). mrun.
    destruct (IH Hm) as (cs & -> & H1 & H2). mrun. eexists. split; [done|]. split; by constructor. }
  destruct Hrun as (cs & -> & H1 & H2). mrun. exists cs. by split_and!.
Qed.

Lemma package_tells n ws (ys : list A) : accumulated_at n ws ys -> Forall (λ c, finalizable (accumulated_changes c)) (m_callbacks n) ->
  exists cs, package_for_delivery true n = Some (set_count (Z.of_nat (length cs)) (set_callbacks cs n), true)
    /\ Forall2 (λ c w, changes_tell (changes_to_deliver c) w ys) cs ws
    /\ Forall2 (λ c c', same_callback c c' /\ accumulated_changes c' = empty_builder) (m_callbacks n) cs.
Proof.
  intros Hat Hf. unfold package_for_delivery. cbn [negb].
  assert (Hrun : exists cs, mapM_vec package_callback (m_callbacks n) = Some cs
    /\ Forall2 (λ c w, changes_tell (changes_to_deliver c) w ys) cs ws
    /\ Forall2 (λ c c', same_callback c c' /\ accumulated_changes c' = empty_builder) (m_callbacks n) cs).
  { unfold accumulated_at in Hat. induction Hat as [|c w l ws [Hs Ht] _ IH]; [by exists []|]. apply Forall_cons in Hf as [Hfc Hf]. cbn [mapM_vec].
    destruct (finalize_tells _ w ys Ht Hfc) as (d & Hd & Htell & _).
    assert (package_callback c = Some (set_to_deliver d (set_accumulated empty_builder c))) as -> by (unfold package_callback; by rewrite Hd). mrun.
    destruct (IH Hf) as (cs & -> & H1 & H2). mrun. eexists. split; [done|]. split; by constructor. }
  destruct Hrun as (cs & -> & H1 & H2). mrun. exists cs. by split_and!.
Qed.

(** Delivered, the callbacks have seen the current version. *)
Lemma packaged_at n cs (ys : list A) : Forall (λ c, skip_next c = false) (m_callbacks n) ->
  Forall2 (λ c c', same_callback c c' /\ accumulated_changes c' = empty_builder) (m_callbacks n) cs ->
  accumulated_at (set_callbacks cs n) (replicate (length cs) ys) ys.
Proof.
  intros Hs Hf. unfold accumulated_at. cbn. induction Hf as [|c c' l cs [Hc Ha] _ IH]; [constructor|].
  apply Forall_cons in Hs as [Hs Hs']. cbn. constructor; [|by apply IH]. rewrite Ha. split; [by rewrite Hc|].
  apply explains_tells, explains_empty.
Qed.
End tells.

(** ** What a package delivers

    [package_and_wait] packages the changes of the notifiers that have run, once,
    and keeps the notifiers that have something to deliver. *)

Lemma store_here (s : store) a n : <[a := n]> s !! a = Some n.
Proof. apply lookup_insert_eq. Qed.

Lemma store_other (s : store) a b n : b <> a -> <[a := n]> s !! b = s !! b.
Proof. intros Hne. by apply lookup_insert_ne. Qed.

Section package.
Context `{HB : Build}.
Variables (prepare_to_deliver : nat -> store -> bool) (wait_for_notifiers : (store -> bool) -> store -> store).

(** Whether a notifier delivers is its own affair. *)
Hypothesis prepare_own : forall a s s', s !! a = s' !! a -> prepare_to_deliver a s = prepare_to_deliver a s'.

(** The changes of the notifier can be packaged. *)
Definition packageable (n : notifier) : Prop :=
  Forall (λ c, wf_builder (accumulated_changes c) /\ finalizable (accumulated_changes c)) (m_callbacks n).

Definition delivers (s : store) (a : nat) : bool :=
  match s !! a with Some n => m_has_run n && prepare_to_deliver a s | None => false end.

Lemma package_callbacks n : packageable n -> exists n', package_for_delivery true n = Some (n', true)
  /\ m_sg_version n' = m_sg_version n /\ length (m_callbacks n') = length (m_callbacks n)
  /\ m_callback_count n' = Z.of_nat (length (m_callbacks n')).
Proof using Type.
  intros Hp. unfold package_for_delivery. cbn [negb].
  assert (Hcs : exists cs, mapM_vec package_callback (m_callbacks n) = Some cs /\ length cs = length (m_callbacks n)).
  { unfold packageable in Hp. induction Hp as [|c l [Hwf Hf] _ (cs & IH & Hl)]; [by exists []|]. cbn [mapM_vec].
    destruct (finalize_spec _ Hwf Hf) as (d & Hd & _).
    assert (package_callback c = Some (set_to_deliver d (set_accumulated empty_builder c))) as -> by (unfold package_callback; by rewrite Hd).
    mrun. rewrite IH. mrun. eexists. split; [done|]. cbn. by rewrite Hl. }
  destruct Hcs as (cs & -> & Hl). mrun. eexists. by split_and!.
Qed.

(** One notifier after the other: those done are packaged, those to come are as
    they were. *)
Lemma package_all s0 ns : NoDup ns -> (forall a, a ∈ ns -> exists n, s0 !! a = Some n /\ packageable n) ->
  forall kept version s, (forall a, a ∈ ns -> s !! a = s0 !! a) -> exists version' s',
    foldM (package_one prepare_to_deliver) ns (kept, version, s) = Some (kept ++ filter (delivers s0) ns, version', s')
    /\ (forall a, a ∉ ns -> s' !! a = s !! a)
    /\ (forall a, a ∈ ns -> delivers s0 a -> exists n n', s0 !! a = Some n /\ package_for_delivery true n = Some (n', true) /\ s' !! a = Some n')
    /\ ((filter (delivers s0) ns = [] /\ version' = version)
        \/ exists a n, a ∈ filter (delivers s0) ns /\ s0 !! a = Some n /\ version' = Some (m_sg_version n)).
Proof using prepare_own.
  induction ns as [|a ns IH]; intros Hnd Hs0 kept version s Hs; cbn [foldM].
  { exists version, s. rewrite app_nil_r. split_and!; [done|done| |by left]. by intros a Ha%elem_of_nil. }
  apply NoDup_cons in Hnd as [Ha Hnd]. destruct (Hs0 a) as (n & Hn & Hpk); [by left|].
  pose proof (Hs a (list_elem_of_here _ _)) as Hsa. rewrite Hn in Hsa.
  assert (Hstep : package_one prepare_to_deliver a (kept, version, s)
    = if delivers s0 a then '(n', _) ← package_for_delivery true n; Some (kept ++ [a], Some (m_sg_version n'), <[a := n']> s)
      else Some (kept, version, if m_has_run n then <[a := n]> s else s)).
  { unfold package_one, delivers. rewrite Hsa, Hn. mrun. destruct (m_has_run n); cbn [andb]; [|done].
    rewrite (prepare_own a s s0) by by rewrite Hn. destruct (prepare_to_deliver a s0); [|done].
    destruct (package_callbacks n Hpk) as (n' & -> & _). done. }
  rewrite Hstep. destruct (delivers s0 a) eqn:Hd.
  - destruct (package_callbacks n Hpk) as (n' & Hpack & Hv & _). rewrite Hpack. mrun.
    destruct (IH Hnd (λ b Hb, Hs0 b (list_elem_of_further _ _ _ Hb)) (kept ++ [a]) (Some (m_sg_version n')) (<[a := n']> s))
      as (version' & s' & -> & Hout & Hin & Hver).
    { intros b Hb. rewrite store_other by (intros ->; done). apply Hs. by right. }
    exists version', s'. rewrite filter_cons_True by (by rewrite Hd). split_and!.
    + by rewrite <- app_assoc.
    + intros b Hb. apply not_elem_of_cons in Hb as [Hne Hb]. rewrite Hout by done. by apply store_other.
    + intros b [->|Hb]%elem_of_cons Hdb; [|by apply Hin]. exists n, n'. split_and!; [done|done|].
      rewrite Hout by done. apply store_here.
    + right. destruct Hver as [[_ ->]|(b & m & Hb & Hm & ->)].
      * exists a, n. split_and!; [by left|done|by rewrite Hv].
      * exists b, m. split_and!; [by right|done..].
  - set (s1 := if m_has_run n then <[a := n]> s else s). mrun.
    assert (Hs1 : forall b, s1 !! b = s !! b).
    { intros b. unfold s1. destruct (m_has_run n); [|done]. destruct (decide (b = a)) as [->|Hne];
        [by rewrite store_here, Hsa|by apply store_other]. }
    destruct (IH Hnd (λ b Hb, Hs0 b (list_elem_of_further _ _ _ Hb)) kept version s1) as (version' & s' & -> & Hout & Hin & Hver).
    { intros b Hb. rewrite Hs1. apply Hs. by right. }
    exists version', s'. rewrite filter_cons_False by (rewrite Hd; by intros []). split_and!; [done| | |done].
    + intros b Hb. apply not_elem_of_cons in Hb as [_ Hb]. by rewrite Hout.
    + intros b [->|Hb]%elem_of_cons Hdb; [by rewrite Hd in Hdb|by apply Hin].
Qed.

(** The notifiers a delivery waits for. *)
Definition waited (target : option Z) (p : NotifierPackage) (s : store) : store :=
  wait_for_notifiers (ready target (m_notifiers p)) s.

Lemma ready_version v ns s a n : ready (Some v) ns s = true -> a ∈ ns -> s !! a = Some n -> m_have_callbacks n = true ->
  m_has_run n = true /\ (v <= m_sg_version n)%Z.
Proof using Type.
  intros Hr Ha Hn Hc. unfold ready in Hr. rewrite forallb_forall in Hr. specialize (Hr a (proj1 (list_elem_of_In _ _) Ha)). rewrite Hn, Hc in Hr. cbn in Hr.
  apply andb_true_iff in Hr as [? ?%bool_decide_eq_true]. done.
Qed.

Lemma package_and_wait_spec target p s : has_coordinator p = true -> m_package_error p = None -> m_version p = None ->
  NoDup (m_notifiers p) -> let s0 := waited target p s in
  (forall a, a ∈ m_notifiers p -> exists n, s0 !! a = Some n /\ packageable n) ->
  exists p' s', package_and_wait prepare_to_deliver wait_for_notifiers target p s = Some (p', s')
    /\ (m_notifiers p' = filter (delivers s0) (m_notifiers p) \/ m_notifiers p' = [])
    /\ (m_version p' = None -> m_notifiers p' = [])
    /\ (forall v t, m_version p' = Some v -> target = Some t -> (t <= v)%Z)
    /\ (forall a, a ∈ m_notifiers p' -> exists n n', s0 !! a = Some n /\ package_for_delivery true n = Some (n', true) /\ s' !! a = Some n')
    /\ (m_notifiers p <> [] -> forall target' s'', package_and_wait prepare_to_deliver wait_for_notifiers target' p' s'' = Some (p', s'')).
Proof using prepare_own.
  intros Hco He Hv Hnd s0 Hs0. unfold package_and_wait at 1. rewrite Hco, He. cbn [negb orb].
  rewrite (bool_decide_false (None ≠ None)) by (by intros []). cbn [orb].
  destruct (decide (m_notifiers p = [])) as [Hnil|Hnil].
  { rewrite bool_decide_true by done. exists p, s. split_and!; [done|by right|done|intros; congruence| |done].
    rewrite Hnil. by intros a Ha%elem_of_nil. }
  rewrite bool_decide_false by done. fold s0. fold (waited target p s). fold s0. rewrite Hv.
  destruct (package_all s0 (m_notifiers p) Hnd Hs0 [] None s0 (λ a _, eq_refl)) as (version & s' & -> & _ & Hin & Hver). mrun.
  cbn [app]. set (kept := filter (delivers s0) (m_notifiers p)) in *.
  assert (Hkept : forall a, a ∈ kept -> exists n n', s0 !! a = Some n /\ package_for_delivery true n = Some (n', true) /\ s' !! a = Some n').
  { intros a [Ha1 Ha2]%list_elem_of_filter. by apply Hin. }
  assert (Hagain : forall v ns target' s'', package_and_wait prepare_to_deliver wait_for_notifiers target' (mkPackage v ns false None) s''
    = Some (mkPackage v ns false None, s'')) by done.
  assert (Hcases : exists v k, (match version, target with Some v, Some t => if bool_decide (v < t)%Z then ([], None) else (kept, version) | _, _ => (kept, version) end) = (k, v)
    /\ (k = kept \/ k = []) /\ (v = None -> k = []) /\ (forall x t, v = Some x -> target = Some t -> (t <= x)%Z)).
  { destruct version as [v|].
    - destruct target as [t|]; [case_bool_decide|]; eexists _, _; (split; [done|]); split_and!; try done; try (by left); try (by right).
      intros x t' [= <-] [= <-]. lia.
    - eexists _, _. split; [done|]. split_and!; [by left|intros _|done]. by destruct Hver as [[? _]|(? & ? & _ & _ & ?)]. }
  destruct Hcases as (v & k & -> & Hk & Hvk & Hle). mrun. rewrite REALM_ASSERT_true.
  2: { destruct v; [done|]. rewrite (Hvk eq_refl). done. }
  mrun. eexists _, _. split; [done|]. cbn [m_notifiers m_version]. split_and!; [done|done|done| |done].
  intros a Ha. destruct Hk as [-> | ->]; [by apply Hkept|by apply elem_of_nil in Ha].
Qed.
End package.

(** ** What every use of a notifier keeps

    The operations of a notifier, deliveries with user code included, in any
    order: the callbacks have different tokens, and whether there are any is
    known without looking. *)

Section reach.
Context `{HB : Build, HO : StdOrders}.
Variable realm_state : RealmState.

(** ** Operations of user code *)

Lemma remove_callback_keeps t n n' : notifier_ok n -> remove_callback t n = Some n' ->
  notifier_ok n' /\ m_next_token n' = m_next_token n.
Proof using Type.
  intros Hok. unfold remove_callback, find_callback.
  do 2 (destruct (REALM_ASSERT _)); mrun; try done.
  destruct (find_index_cases (λ c, bool_decide (token c = t)) (m_callbacks n)) as [[_ ->]|(l1 & c & l2 & Hl & _ & _ & ->)]; intros [= <-]; [done|].
  split; [apply (erase_ok n (length l1) c Hok); by rewrite Hl, list_lookup_middle|]. cbn. by destruct (_ && _).
Qed.

Lemma alter_tokens f idx n : (forall c, token (f c) = token c) -> tokens (alter f idx (m_callbacks n)) = tokens (m_callbacks n).
Proof using Type.
  intros Hf. apply list_eq. intros i. rewrite !list_lookup_fmap. destruct (decide (i = idx)) as [->|Hne].
  - rewrite list_lookup_alter_eq. destruct (m_callbacks n !! idx); [cbn; by rewrite Hf|done].
  - by rewrite list_lookup_alter_ne.
Qed.

Lemma on_callback_ok f idx n : (forall c, token (f c) = token c) -> notifier_ok n -> notifier_ok (on_callback f idx n).
Proof using Type. intros Hf Hok. apply with_callbacks_ok; [by apply alter_tokens|done]. Qed.

Lemma run_op_keeps o n n' : notifier_ok n -> (m_next_token n + 1 < 2 ^ 64)%Z -> run_op realm_state o n = Some n' ->
  notifier_ok n' /\ (m_next_token n' <= m_next_token n + 1)%Z.
Proof using Type.
  intros Hok Hsm. destruct o as [f|t|t]; cbn [run_op].
  - destruct (m_realm n) eqn:Hr; [|unfold add_callback; by rewrite Hr].
    destruct (add_callback_ok realm_state f n Hok Hr Hsm) as (n1 & res & Hrun & Hok' & _). rewrite Hrun. mrun. intros [= <-].
    split; [done|]. unfold add_callback in Hrun. rewrite Hr in Hrun. cbn [REALM_ASSERT_RELEASE mbind option_bind] in Hrun.
    pose proof (no_sizes _ Hok). destruct (verify_thread realm_state); injection Hrun as <- _; [lia|].
    destruct (bool_decide _); cbn; rewrite u64_small; lia.
  - intros Hrun. destruct (remove_callback_keeps t n n' Hok Hrun) as [? ->]. split; [done|lia].
  - unfold suppress_next_notification. destruct (REALM_ASSERT _); [mrun|done]. destruct (REALM_ASSERT_RELEASE _); [mrun|done].
    destruct (verify_thread realm_state), (verify_in_write realm_state); mrun; try (intros [= <-]; split; [done|lia]).
    unfold find_callback. do 2 (destruct (REALM_ASSERT _)); mrun; try done.
    destruct (find_index _ _); mrun; intros [= <-]; (split; [|cbn; lia]); [by apply on_callback_ok|done].
Qed.

Lemma run_ops_keep os : forall n n', notifier_ok n -> (m_next_token n + Z.of_nat (length os) < 2 ^ 64)%Z ->
  foldM (run_op realm_state) os n = Some n' ->
  notifier_ok n' /\ (m_next_token n' <= m_next_token n + Z.of_nat (length os))%Z.
Proof using Type.
  induction os as [|o os IH]; intros n n' Hok Hsm; cbn [foldM length] in *.
  - intros [= <-]. split; [done|lia].
  - destruct (run_op realm_state o n) as [n1|] eqn:Ho; [|done]. mrun.
    destruct (run_op_keeps o n n1 Hok) as [Hok1 Hn1]; [lia|done|]. intros Hos.
    destruct (IH n1 n' Hok1) as [? ?]; [lia|done|]. split; [done|lia].
Qed.

(** ** Deliveries *)

Section script.
Variable script : list call -> list op.
(** User code does at most [k] operations a call. *)
Variable k : nat.
Hypothesis few : forall l, length (script l) <= k.

Lemma invoke_keeps c n n' : notifier_ok n -> (m_next_token n + Z.of_nat k < 2 ^ 64)%Z -> invoke realm_state script c n = Some n' ->
  notifier_ok n' /\ (m_next_token n' <= m_next_token n + Z.of_nat k)%Z.
Proof using few.
  intros Hok Hsm Hrun. pose proof (few (calls n ++ [c])) as Hk. unfold invoke in Hrun.
  destruct (run_ops_keep (script (calls (log_call c n))) (log_call c n) n') as [? Hle]; [by destruct Hok| |done|].
  - cbn. lia.
  - cbn in Hle. split; [done|lia].
Qed.

(** Between two callbacks the index may be beyond the vector. *)
Definition at_rest (n : notifier) : Prop := notifier_ok (set_index npos n).

Lemma at_rest_visit n : at_rest n -> (0 <= m_callback_index n < Z.of_nat (length (m_callbacks n)))%Z -> notifier_ok n.
Proof using Type. intros [Hnd Hold Hh _ Hs] Hi. split; try done. by right. Qed.

Lemma ok_at_rest x n : notifier_ok n -> at_rest (set_index x n).
Proof using Type. intros [Hnd Hold Hh Hi Hs]. split; try done. by left. Qed.

Lemma for_each_keeps body n n' :
  (forall idx n n', notifier_ok n -> (m_next_token n + Z.of_nat k < 2 ^ 64)%Z -> body idx n = Some n' ->
     notifier_ok n' /\ (m_next_token n' <= m_next_token n + Z.of_nat k)%Z) ->
  (forall idx n n', body idx n = Some n' -> idx < length (m_callbacks n)) ->
  notifier_ok n -> (m_next_token n + Z.of_nat (S (length (m_callbacks n)) * k) < 2 ^ 64)%Z ->
  for_each_callback body n = Some n' ->
  notifier_ok n' /\ m_callback_index n' = npos.
Proof using Type.
  intros Hbody Hin Hok Hsm. unfold for_each_callback. destruct (REALM_ASSERT_DEBUG _); [mrun|done].
  assert (Hloop : forall fuel n n', at_rest n -> (0 <= m_callback_index n)%Z -> (m_next_token n + Z.of_nat (fuel * k) < 2 ^ 64)%Z ->
    while fuel (λ n, Some (bool_decide (m_callback_index n < m_callback_count n)%Z))
      (λ n, n ← body (Z.to_nat (m_callback_index n)) n; Some (set_index (m_callback_index n +! 1) n)) n = Some n' -> at_rest n').
  { clear n n' Hok Hsm. induction fuel as [|fuel IH]; intros n n' Hr H0 Hsm; [done|]. rewrite while_S.
    case_bool_decide; mrun; [|by intros [= <-]]. destruct (body _ n) as [n1|] eqn:Hb; [|done]. mrun.
    pose proof (Hin _ _ _ Hb) as Hlt. destruct (Hbody _ _ _ (at_rest_visit n Hr ltac:(lia)) ltac:(lia) Hb) as [Hok1 Hn1].
    apply IH; [by apply ok_at_rest|cbn; apply u64_range|cbn; lia]. }
  destruct (while _ _ _ _) as [n1|] eqn:Hw; [|done]. mrun. intros [= <-]. split; [|done].
  apply (Hloop _ _ _) in Hw; [done|by apply ok_at_rest|cbn; apply u64_range|cbn; done].
Qed.

Lemma before_callback_keeps idx n n' : notifier_ok n -> (m_next_token n + Z.of_nat k < 2 ^ 64)%Z ->
  before_callback realm_state script idx n = Some n' -> notifier_ok n' /\ (m_next_token n' <= m_next_token n + Z.of_nat k)%Z.
Proof using few.
  intros Hok Hsm. unfold before_callback. destruct (m_callbacks n !! idx) as [c|]; [|done]. mrun.
  destruct (changeset_empty _); [intros [= <-]; split; [done|lia]|]. destruct (fn c); [|done]. mrun. by apply invoke_keeps.
Qed.

Lemma after_callback_keeps idx n n' : notifier_ok n -> (m_next_token n + Z.of_nat k < 2 ^ 64)%Z ->
  after_callback realm_state script idx n = Some n' -> notifier_ok n' /\ (m_next_token n' <= m_next_token n + Z.of_nat k)%Z.
Proof using few.
  intros Hok Hsm. unfold after_callback. destruct (m_callbacks n !! idx) as [c|]; [|done]. mrun.
  destruct (_ && _); [intros [= <-]; split; [done|lia]|]. destruct (fn c); [|done]. mrun. intros Hrun.
  apply invoke_keeps in Hrun; [done|by apply on_callback_ok|done].
Qed.

Lemma error_callback_keeps e idx n n' : notifier_ok n -> (m_next_token n + Z.of_nat k < 2 ^ 64)%Z ->
  error_callback realm_state script e idx n = Some n' -> notifier_ok n' /\ (m_next_token n' <= m_next_token n + Z.of_nat k)%Z.
Proof using few.
  intros Hok Hsm. unfold error_callback. destruct (m_callbacks n !! idx) as [c|]; [|done]. mrun. destruct (fn c); [|done]. mrun.
  destruct (invoke _ _ _ _) as [n1|] eqn:Hi; [|done]. mrun. apply invoke_keeps in Hi as [Hok1 Hn1]; [|by apply on_callback_ok|done].
  intros Hr. apply remove_callback_keeps in Hr as [? ->]; [|done]. by split.
Qed.

Lemma visits_present idx :
  (forall n n', before_callback realm_state script idx n = Some n' -> idx < length (m_callbacks n))
  /\ (forall n n', after_callback realm_state script idx n = Some n' -> idx < length (m_callbacks n))
  /\ (forall e n n', error_callback realm_state script e idx n = Some n' -> idx < length (m_callbacks n)).
Proof using Type.
  unfold before_callback, after_callback, error_callback.
  split_and!; intros; (destruct (m_callbacks n !! idx) eqn:Hc; [by eapply lookup_lt_Some|done]).
Qed.

Lemma before_advance_keeps n n' : notifier_ok n -> (m_next_token n + Z.of_nat (S (length (m_callbacks n)) * k) < 2 ^ 64)%Z ->
  before_advance realm_state script n = Some n' -> notifier_ok n' /\ m_callback_index n' = npos.
Proof using few. apply for_each_keeps; [apply before_callback_keeps|intros idx; apply visits_present]. Qed.

Lemma after_advance_keeps n n' : notifier_ok n -> (m_next_token n + Z.of_nat (S (length (m_callbacks n)) * k) < 2 ^ 64)%Z ->
  after_advance realm_state script n = Some n' -> notifier_ok n' /\ m_callback_index n' = npos.
Proof using few. apply for_each_keeps; [apply after_callback_keeps|intros idx; apply visits_present]. Qed.

Lemma deliver_error_keeps e n n' : notifier_ok n -> (m_next_token n + Z.of_nat (S (length (m_callbacks n)) * k) < 2 ^ 64)%Z ->
  deliver_error realm_state script e n = Some n' -> notifier_ok n' /\ m_callback_index n' = npos.
Proof using few.
  intros Hok Hsm. apply (for_each_keeps (error_callback realm_state script e)); [apply error_callback_keeps|intros idx; apply visits_present| |done].
  by destruct Hok.
Qed.
End script.

(** ** All histories *)

(** One thing that is done to a notifier between two deliveries, or a delivery.
    The tokens do not run out. *)
Inductive notifier_step : notifier -> notifier -> Prop :=
  | step_op o n n' : (m_next_token n + 1 < 2 ^ 64)%Z -> run_op realm_state o n = Some n' -> notifier_step n n'
  | step_unregister n : notifier_step n (unregister n)
  | step_attach n n' : attach_to n = Some n' -> notifier_step n n'
  | step_detach n n' : detach n = Some n' -> notifier_step n n'
  | step_handover version b n n' : prepare_handover version (add_changes b) n = Some n' -> notifier_step n n'
  | step_package prepared n n' delivers : package_for_delivery prepared n = Some (n', delivers) -> notifier_step n n'
  | step_before script k n n' : (forall l, length (script l) <= k) ->
      (m_next_token n + Z.of_nat (S (length (m_callbacks n)) * k) < 2 ^ 64)%Z ->
      before_advance realm_state script n = Some n' -> notifier_step n n'
  | step_after script k n n' : (forall l, length (script l) <= k) ->
      (m_next_token n + Z.of_nat (S (length (m_callbacks n)) * k) < 2 ^ 64)%Z ->
      after_advance realm_state script n = Some n' -> notifier_step n n'
  | step_error e script k n n' : (forall l, length (script l) <= k) ->
      (m_next_token n + Z.of_nat (S (length (m_callbacks n)) * k) < 2 ^ 64)%Z ->
      deliver_error realm_state script e n = Some n' -> notifier_step n n'.

Lemma mapM_tokens (f : Callback -> option Callback) l l' : (forall c c', f c = Some c' -> token c' = token c) ->
  mapM_vec f l = Some l' -> tokens l' = tokens l.
Proof using Type.
  intros Hf. revert l'. induction l as [|c l IH]; intros l'; cbn [mapM_vec]; [by intros [= <-]|].
  destruct (f c) as [c'|] eqn:Hc; mrun; [|done]. destruct (mapM_vec f l) as [r|]; mrun; [|done]. intros [= <-].
  rewrite !fmap_cons. by rewrite (Hf c c' Hc), (IH r).
Qed.

Lemma add_changes_keeps b n n' : notifier_ok n -> add_changes b n = Some n' -> notifier_ok n' /\ m_callback_index n' = m_callback_index n.
Proof using Type.
  intros Hok. unfold add_changes. destruct (mapM_vec _ _) as [cs|] eqn:Hcs; mrun; [|done]. intros [= <-]. split; [|done].
  apply with_callbacks_ok; [|done]. revert Hcs. apply mapM_tokens. intros c c'. unfold add_change.
  destruct (skip_next c); [destruct (REALM_ASSERT_DEBUG _)|destruct (merge _ _)]; mrun; try done; by intros [= <-].
Qed.

Lemma run_op_index o n n' : m_callback_index n = npos -> run_op realm_state o n = Some n' -> m_callback_index n' = npos.
Proof using Type.
  intros Hi. destruct o as [f|t|t]; cbn [run_op]; unfold add_callback, remove_callback, suppress_next_notification.
  - destruct (REALM_ASSERT_RELEASE _); [mrun|done]. destruct (verify_thread realm_state); mrun; [by intros [= <-]|].
    cbn [m_callback_index set_callbacks set_next_token]. rewrite Hi, bool_decide_true by done. by intros [= <-].
  - unfold find_callback. do 2 (destruct (REALM_ASSERT _)); mrun; try done.
    destruct (find_index _ _); mrun; [|by intros [= <-]].
    rewrite (bool_decide_false (m_callback_index n ≠ npos)) by (by intros []). by intros [= <-].
  - destruct (REALM_ASSERT _); [mrun|done]. destruct (REALM_ASSERT_RELEASE _); [mrun|done].
    destruct (verify_thread realm_state), (verify_in_write realm_state); mrun; try by intros [= <-].
    unfold find_callback. do 2 (destruct (REALM_ASSERT _)); mrun; try done. by destruct (find_index _ _); mrun; intros [= <-].
Qed.

Lemma notifier_step_keeps n n' : notifier_step n n' -> notifier_ok n /\ m_callback_index n = npos ->
  notifier_ok n' /\ m_callback_index n' = npos.
Proof using Type.
  intros Hs [Hok Hi]. destruct Hs as [o n n' Hsm Hrun|n|n n' Hrun|n n' Hrun|v b n n' Hrun|p n n' d Hrun|? ? ? ? ? ? Hrun|? ? ? ? ? ? Hrun|? ? ? ? ? ? ? Hrun].
  - split; [by eapply run_op_keeps|by eapply run_op_index].
  - split; [by destruct Hok|done].
  - unfold attach_to in Hrun. destruct (REALM_ASSERT _); [|done]. injection Hrun as <-. split; [by destruct Hok|done].
  - unfold detach in Hrun. destruct (REALM_ASSERT _); [|done]. injection Hrun as <-. split; [by destruct Hok|done].
  - unfold prepare_handover in Hrun. destruct (REALM_ASSERT _); [|done]. revert Hrun. mrun.
    destruct (add_changes b (set_version v n)) as [n1|] eqn:Ha; mrun; [|done].
    apply add_changes_keeps in Ha as [Hok1 Hi1]; [|by destruct Hok]. destruct (if realm_debug then _ else _); mrun; [|done].
    intros [= <-]. split; [by destruct Hok1|]. cbn. by rewrite Hi1.
  - unfold package_for_delivery in Hrun. destruct p; cbn [negb] in Hrun; [|by injection Hrun as <- <-].
    revert Hrun. destruct (mapM_vec _ _) as [cs|] eqn:Hcs; mrun; [|done]. intros [= <- <-]. split; [|done].
    assert (Hok1 : notifier_ok (set_callbacks cs n)).
    { apply with_callbacks_ok; [|done]. revert Hcs. apply mapM_tokens. intros c c'. unfold package_callback.
      destruct (finalize _); mrun; [by intros [= <-]|done]. }
    by destruct Hok1.
  - by eapply before_advance_keeps.
  - by eapply after_advance_keeps.
  - by eapply deliver_error_keeps.
Qed.

Lemma notifier_steps_keep n n' : rtc notifier_step n n' -> notifier_ok n /\ m_callback_index n = npos ->
  notifier_ok n' /\ m_callback_index n' = npos.
Proof using Type. induction 1 as [n|n n1 n' Hs _ IH]; [done|]. intros Hok. by apply IH, (notifier_step_keeps n). Qed.
End reach.

(** ** Deliveries during which callbacks are only added

    The specification of the loops evaluated: every callback that was there when
    the changes were packaged is told, in order and once, and those added
    meanwhile are not. *)

Definition only_adds (script : list call -> list op) (k : nat) : Prop := forall l,
  length (script l) <= k /\ Forall (λ o, match o with op_add _ => True | _ => False end) (script l).

(** A callback that was added with a token that had not been used. *)
Definition fresh (t : Z) (c : Callback) : Prop :=
  (t <= token c)%Z /\ initial_delivered c = false /\ accumulated_changes c = empty_builder /\ changes_to_deliver c = empty_changeset.

Section spec.
Variables (realm_state : RealmState) (script : list call -> list op) (k : nat) (error : bool).
Hypothesis adds : only_adds script k.

Lemma adds_spec os : Forall (λ o, match o with op_add _ => True | _ => False end) os -> forall v,
  (next_token v + Z.of_nat (length os) < 2 ^ 64)%Z -> exists new next,
  foldM (spec_op realm_state error) os v = Some (mkTurn (visited v) (todo v) (added v ++ new) next (log v))
  /\ (next_token v <= next <= next_token v + Z.of_nat (length os))%Z /\ Forall (fresh (next_token v)) new.
Proof using Type.
  induction 1 as [|o os Ho _ IH]; intros v Hsm; cbn [foldM].
  - exists [], (next_token v). rewrite app_nil_r. split_and!; [by destruct v|lia..|constructor].
  - destruct o as [f| |]; [|done..]. cbn [length] in *. cbn [spec_op]. destruct (negb _) eqn:Hth.
    + mrun. destruct (IH v) as (new & next & -> & Hn & Hf); [lia|]. exists new, next. split_and!; [done|lia..|done].
    + rewrite bool_decide_true by lia. mrun. destruct (IH (mkTurn (visited v) (todo v)
        (added v ++ [mkCallback (Some f) empty_builder empty_changeset (next_token v) false false]) (next_token v + 1) (log v)))
        as (new & next & -> & Hn & Hf); [cbn; lia|]. cbn [visited todo added next_token log] in *.
      eexists (_ :: new), next. split; [by rewrite <- app_assoc|]. split; [lia|]. constructor; [done|].
      eapply Forall_impl; [exact Hf|]. intros c [? ?]. split; [lia|done].
Qed.

Lemma spec_invoke_adds c v : (next_token v + Z.of_nat k < 2 ^ 64)%Z -> exists new next,
  spec_invoke realm_state script error c v = Some (mkTurn (visited v) (todo v) (added v ++ new) next (log v ++ [c]))
  /\ (next_token v <= next <= next_token v + Z.of_nat k)%Z /\ Forall (fresh (next_token v)) new.
Proof using adds.
  intros Hsm. unfold spec_invoke. cbn [log]. destruct (adds (log v ++ [c])) as [Hk Hadd].
  destruct (adds_spec _ Hadd (mkTurn (visited v) (todo v) (added v) (next_token v) (log v ++ [c]))) as (new & next & -> & Hn & Hf).
  - cbn. lia.
  - cbn in *. exists new, next. split_and!; [done|lia..|done].
Qed.

Lemma fresh_mono t t' l : (t <= t')%Z -> Forall (fresh t') l -> Forall (fresh t) l.
Proof using Type. intros Ht Hf. eapply Forall_impl; [exact Hf|]. intros c [? ?]. split; [lia|done]. Qed.

(** The loops over the callbacks: [told c] is the call that is made for [c]. *)
Lemma visit_all_adds update visit (told : Callback -> option call) :
  (forall c v, fn c <> None -> visit c v = match told c with None => Some v | Some x => spec_invoke realm_state script error x v end) ->
  forall cs v, todo v = cs -> Forall (λ c, fn c <> None) cs -> (next_token v + Z.of_nat (length cs * k) < 2 ^ 64)%Z ->
  exists new next,
  visit_all update visit (length cs) v = Some (mkTurn (visited v ++ (update <$> cs)) [] (added v ++ new) next (log v ++ omap told cs))
  /\ (next_token v <= next <= next_token v + Z.of_nat (length cs * k))%Z /\ Forall (fresh (next_token v)) new.
Proof using adds.
  intros Hvisit. induction cs as [|c cs IH]; intros v Ht Hfn Hsm; cbn [visit_all length]; rewrite Ht.
  - exists [], (next_token v). rewrite !app_nil_r. split_and!; [destruct v; cbn in *; by subst|lia..|constructor].
  - apply Forall_cons in Hfn as [Hfc Hfn]. cbn [length] in Hsm.
    set (v1 := mkTurn (visited v ++ [update c]) cs (added v) (next_token v) (log v)).
    assert (Hc : exists new next, visit c v1 = Some (mkTurn (visited v ++ [update c]) cs (added v ++ new) next (log v ++ option_list (told c)))
      /\ (next_token v <= next <= next_token v + Z.of_nat k)%Z /\ Forall (fresh (next_token v)) new).
    { rewrite Hvisit by done. destruct (told c) as [x|]; [apply (spec_invoke_adds x v1); cbn; lia|].
      exists [], (next_token v). rewrite !app_nil_r. split_and!; [done|lia..|constructor]. }
    destruct Hc as (new & next & -> & Hn & Hf). mrun.
    destruct (IH (mkTurn (visited v ++ [update c]) cs (added v ++ new) next (log v ++ option_list (told c)))) as (new' & next' & -> & Hn' & Hf').
    { done. } { done. } { cbn. lia. }
    cbn [visited todo added next_token log] in *. exists (new ++ new'), next'. rewrite <- !app_assoc. split_and!; [|lia..|].
    + rewrite fmap_cons. f_equal. f_equal. f_equal. cbn. by destruct (told c).
    + apply Forall_app. split; [done|]. eapply fresh_mono; [|exact Hf']. lia.
Qed.

(** After an error a callback is removed when it has been told. *)
Lemma visit_all_errors e cs : forall v, visited v = [] -> todo v = cs -> NoDup (tokens cs) -> Forall (λ c, fn c <> None) cs ->
  error = true -> (next_token v + Z.of_nat (length cs * k) < 2 ^ 64)%Z ->
  exists new next,
  visit_all (set_fn None) (visit_error realm_state script error e) (length cs) v
    = Some (mkTurn [] [] (added v ++ new) next (log v ++ omap (λ c, (λ f, call_error f e) <$> fn c) cs))
  /\ (next_token v <= next <= next_token v + Z.of_nat (length cs * k))%Z /\ Forall (fresh (next_token v)) new.
Proof using adds.
  induction cs as [|c cs IH]; intros v Hv Ht Hnd Hfn He Hsm; cbn [visit_all length]; rewrite Ht.
  - exists [], (next_token v). rewrite !app_nil_r. split_and!; [destruct v; cbn in *; by subst|lia..|constructor].
  - apply Forall_cons in Hfn as [Hfc Hfn]. cbn [length] in Hsm. rewrite fmap_cons, NoDup_cons in Hnd. destruct Hnd as [Hc Hnd].
    rewrite Hv. cbn [app]. set (v1 := mkTurn [set_fn None c] cs (added v) (next_token v) (log v)).
    destruct (fn c) as [f|] eqn:Hf; [|done].
    destruct (spec_invoke_adds (call_error f e) v1) as (new & next & Hcall & Hn & Hfr); [cbn; lia|].
    assert (visit_error realm_state script error e c v1 = Some (mkTurn [] cs (added v ++ new) next (log v ++ [call_error f e]))) as ->.
    { unfold visit_error. rewrite Hf. mrun. rewrite Hcall. mrun. cbn [spec_op visited todo added next_token log v1].
      rewrite bool_decide_true by (cbn; by left). cbn [orb].
      assert (Hw : without (token c) [set_fn None c] = []) by (unfold without; by rewrite filter_cons_False by (by intros [])).
      by rewrite Hw, without_absent by done. }
    mrun.
    destruct (IH (mkTurn [] cs (added v ++ new) next (log v ++ [call_error f e]))) as (new' & next' & -> & Hn' & Hf').
    { done. } { done. } { done. } { done. } { done. } { cbn in *. lia. }
    cbn [visited todo added next_token log v1] in *. exists (new ++ new'), next'. rewrite <- !app_assoc. split_and!; [|lia..|].
    + f_equal. f_equal. cbn. by rewrite Hf.
    + apply Forall_app. split; [done|]. eapply fresh_mono; [|exact Hf']. lia.
Qed.
End spec.

(** ** The loops of a notifier *)

(** The changes are packaged for all callbacks. *)
Definition packaged (n : notifier) : Prop := m_callback_count n = Z.of_nat (length (m_callbacks n)).

Lemma at_turn_packaged `{Build} n : notifier_ok n -> m_callback_index n = npos -> packaged n -> m_realm n = true ->
  at_turn (m_error n) (mkTurn [] (m_callbacks n) [] (m_next_token n) (calls n)) n.
Proof. intros Hok Hi Hp Hr. split; cbn; [done|by rewrite app_nil_r|by rewrite Hi|done..]. Qed.

Section facts.
Context `{HB : Build}.
Variables (realm_state : RealmState) (script : list call -> list op) (k : nat).
Hypothesis adds : only_adds script k.

Definition told_before (c : Callback) : option call :=
  if changeset_empty (changes_to_deliver c) then None else (λ f, call_before f (changes_to_deliver c)) <$> fn c.
Definition told_after (c : Callback) : option call :=
  if has_delivered c then None else (λ f, call_after f (changes_to_deliver c)) <$> fn c.

(** The notifier can deliver: its callbacks have functions, and there is room
    for the tokens of new ones. *)
Record deliverable (n : notifier) : Prop := {
  dl_ok : notifier_ok n;
  dl_index : m_callback_index n = npos;
  dl_realm : m_realm n = true;
  dl_fns : Forall (λ c, fn c <> None) (m_callbacks n);
  dl_room : (m_next_token n + Z.of_nat (length (m_callbacks n) * k) < 2 ^ 64)%Z;
}.

Lemma before_advance_adds n : deliverable n -> packaged n -> exists n' new, before_advance realm_state script n = Some n'
  /\ m_callbacks n' = m_callbacks n ++ new /\ Forall (fresh (m_next_token n)) new
  /\ calls n' = calls n ++ omap told_before (m_callbacks n) /\ notifier_ok n' /\ packaged (set_callbacks (m_callbacks n) n').
Proof using adds.
  intros [Hok Hi Hr Hfn Hsm] Hp. pose proof (at_turn_packaged n Hok Hi Hp Hr) as Hat.
  destruct (visit_all_adds realm_state script k (m_error n) adds id (visit_before realm_state script (m_error n)) told_before)
    with (cs := m_callbacks n) (v := mkTurn [] (m_callbacks n) [] (m_next_token n) (calls n)) as (new & next & Hv & _ & Hf); [|done..|].
  { intros c v Hc. unfold visit_before, told_before. destruct (changeset_empty _); [done|]. by destruct (fn c). }
  cbn [visited todo added next_token log app] in *. rewrite list_fmap_id in Hv.
  destruct (before_advance_refines realm_state script (m_error n) _ n _ _ Hat eq_refl Hv) as (n' & Hrun & Hat'). exists n', new.
  pose proof (at_callbacks _ _ _ Hat') as Hcb. pose proof (at_count _ _ _ Hat') as Hct. cbn in Hcb, Hct.
  split_and!; [done|done|done|apply Hat'|apply Hat'|done].
Qed.

(** Only the first callbacks were packaged. *)
Lemma after_advance_prefix n cs rest : deliverable n -> m_callbacks n = cs ++ rest -> m_callback_count n = Z.of_nat (length cs) ->
  exists n' new, after_advance realm_state script n = Some n'
  /\ m_callbacks n' = (update_after <$> cs) ++ rest ++ new /\ Forall (fresh (m_next_token n)) new
  /\ calls n' = calls n ++ omap told_after cs /\ notifier_ok n'.
Proof using adds.
  intros [Hok Hi Hr Hfn Hsm] Hcs Hct.
  assert (Hat : at_turn (m_error n) (mkTurn [] cs rest (m_next_token n) (calls n)) n) by (split; cbn; [done|done|by rewrite Hi|done..]).
  rewrite Hcs in Hfn, Hsm. apply Forall_app in Hfn as [Hfn _].
  destruct (visit_all_adds realm_state script k (m_error n) adds update_after (visit_after realm_state script (m_error n)) told_after)
    with (cs := cs) (v := mkTurn [] cs rest (m_next_token n) (calls n)) as (new & next & Hv & _ & Hf); [|done|done| |].
  { intros c v Hc. unfold visit_after, told_after. destruct (has_delivered _); [done|]. by destruct (fn c). }
  { rewrite length_app in Hsm. cbn. lia. }
  cbn [visited todo added next_token log app] in *.
  destruct (after_advance_refines realm_state script (m_error n) _ n _ _ Hat eq_refl Hv) as (n' & Hrun & Hat'). exists n', new.
  split_and!; [done|apply (at_callbacks _ _ _ Hat')|done|apply Hat'|apply Hat'].
Qed.

Lemma after_advance_adds n : deliverable n -> packaged n -> exists n' new, after_advance realm_state script n = Some n'
  /\ m_callbacks n' = (update_after <$> m_callbacks n) ++ new /\ Forall (fresh (m_next_token n)) new
  /\ calls n' = calls n ++ omap told_after (m_callbacks n) /\ notifier_ok n'.
Proof using adds. intros Hd Hp. apply (after_advance_prefix n (m_callbacks n) []); [done|by rewrite app_nil_r|done]. Qed.

Lemma deliver_error_adds e n : deliverable n -> exists n', deliver_error realm_state script e n = Some n'
  /\ calls n' = calls n ++ omap (λ c, (λ f, call_error f e) <$> fn c) (m_callbacks n)
  /\ Forall (fresh (m_next_token n)) (m_callbacks n') /\ notifier_ok n' /\ m_error n' = true.
Proof using adds.
  intros [Hok Hi Hr Hfn Hsm].
  set (n1 := set_count (Z.of_nat (length (m_callbacks n))) (set_error n)).
  assert (Hat : at_turn true (mkTurn [] (m_callbacks n) [] (m_next_token n) (calls n)) n1).
  { apply (at_turn_packaged n1); [by destruct Hok|done..]. }
  destruct (visit_all_errors realm_state script k true adds e (m_callbacks n) (mkTurn [] (m_callbacks n) [] (m_next_token n) (calls n)))
    as (new & next & Hv & _ & Hf); [done|done|apply Hok|done..|].
  cbn [visited todo added next_token log app] in *.
  destruct (deliver_error_refines realm_state script true e _ n1 _ _ Hat eq_refl eq_refl eq_refl Hv) as (n' & Hrun & Hat'). exists n'.
  pose proof (at_callbacks _ _ _ Hat') as Hcb. cbn in Hcb. rewrite Hcb.
  split_and!; [exact Hrun|apply Hat'|done|apply Hat'|apply Hat'].
Qed.
End facts.

(** ** A callback that was added and removed since the packaging *)

Lemma add_remove `{HB : Build} r f n : notifier_ok n -> m_callback_index n = npos -> m_realm n = true -> on_its_thread r = true ->
  (m_next_token n + 1 < 2 ^ 64)%Z -> exists n1 n2, add_callback r f n = Some (n1, inr (m_next_token n))
  /\ remove_callback (m_next_token n) n1 = Some n2 /\ notifier_ok n2 /\ m_callbacks n2 = m_callbacks n
  /\ m_callback_count n2 = m_callback_count n -! 1 /\ m_callback_index n2 = npos /\ m_realm n2 = true
  /\ m_next_token n2 = (m_next_token n + 1)%Z /\ calls n2 = calls n /\ m_error n2 = m_error n.
Proof.
  intros Hok Hi Hr Hth Hsm. destruct (add_callback_ok r f n Hok Hr Hsm) as (n1 & res & Hrun & Hok1 & Hres).
  destruct (Hres Hth) as [-> Hcb]. exists n1.
  assert (Hin : m_next_token n ∈ tokens (m_callbacks n1)) by (rewrite Hcb, fmap_app, elem_of_app; right; by left).
  destruct (remove_callback_ok (m_next_token n) n1 Hok1 (or_intror Hin)) as (n2 & Hrm & Hok2 & Hcb2). exists n2.
  assert (H1 : m_callback_count n1 = m_callback_count n /\ m_callback_index n1 = npos /\ m_realm n1 = true
    /\ m_next_token n1 = (m_next_token n + 1)%Z /\ calls n1 = calls n /\ m_error n1 = m_error n).
  { unfold add_callback, verify_thread in Hrun. rewrite Hr, Hth in Hrun. cbn [REALM_ASSERT_RELEASE] in Hrun. revert Hrun. mrun.
    cbn [m_callback_index set_callbacks set_next_token]. rewrite Hi, bool_decide_true by done. intros [= <-]. cbn.
    pose proof (no_sizes _ Hok). rewrite u64_small by lia. by split_and!. }
  destruct H1 as (Hc1 & Hi1 & Hr1 & Hn1 & Hl1 & He1).
  destruct (remove_callback_counters _ _ _ Hok1 Hrm) as [[? _]|(idx & c & _ & _ & Hi2 & Hc2 & Hn2 & Hl2 & Hr2 & He2)]; [done|].
  split_and!; try done; try congruence.
  - rewrite Hcb2, Hcb, filter_app. rewrite filter_cons_False by (by intros []). rewrite app_nil_r.
    apply without_absent. intros (c' & Ht & Hc')%list_elem_of_fmap. pose proof (no_tokens_old _ Hok) as Hold.
    rewrite Forall_forall in Hold. specialize (Hold c' Hc'). lia.
  - rewrite Hi2, Hi1, bool_decide_false by (by intros []). done.
Qed.

(** No callbacks, but a count that says there are. *)
Lemma for_each_empty `{HB : Build} (body : nat -> notifier -> option notifier) n : (forall n, m_callbacks n = [] -> body 0 n = None) ->
  m_callbacks n = [] -> m_callback_index n = npos -> m_callback_count n = npos -> for_each_callback body n = None.
Proof.
  intros Hb Hcs Hi Hct. unfold for_each_callback. rewrite Hcs, Hct. unfold REALM_ASSERT_DEBUG.
  destruct realm_debug; [done|]. mrun. cbn [m_callbacks set_index]. rewrite Hcs. cbn [length]. rewrite while_S.
  cbn [m_callback_index m_callback_count set_index]. rewrite Hi, Hct. change (npos +! 1) with 0%Z. rewrite bool_decide_true by done. mrun.
  by rewrite Hb by done.
Qed.

Lemma package_deliverable k n cs : deliverable k n ->
  Forall2 (λ c c', same_callback c c' /\ accumulated_changes c' = empty_builder) (m_callbacks n) cs ->
  deliverable k (set_count (Z.of_nat (length cs)) (set_callbacks cs n)).
Proof.
  intros [Hok Hi Hr Hfn Hroom] Hf.
  assert (Ht : tokens cs = tokens (m_callbacks n))
    by (clear -Hf; induction Hf as [|c c' l cs [-> _] _ IH]; [done|]; rewrite !fmap_cons, IH; done).
  pose proof (with_callbacks_ok n cs Ht Hok) as Hok'. assert (Hlen : length cs = length (m_callbacks n)) by (symmetry; by eapply Forall2_length).
  split; [by destruct Hok'|done|done| |cbn; by rewrite Hlen]. cbn. clear -Hf Hfn.
  induction Hf as [|c c' l cs [-> _] _ IH]; [constructor|]. apply Forall_cons in Hfn as [? ?]. constructor; [done|by apply IH].
Qed.
