(* ===== verification/CoordinatorRun.v ===== *)
(** * Runs of the worker, and what the infos tell

    No live notifier is lost in a run; the clean-up finds what it asserts; the
    infos of an advance in several steps are combined into the changes from each
    step to the last version. *)

From S2P Require Import Prelude ChunkedRangeVector IndexSet ChangeBuilder ChangeCompose TransactInfo TransactLog.
From S2P Require Import DeepChecker CollectionNotifier DeliveryFacts Coordinator CoordinatorFacts CoordinatorInvariant.

(** ** Live notifiers *)
Section life.
Context `{HB : Build, HO : StdOrders, HG : SharedGroups} {N : Type} `{HA : AsyncNotifier N, HAL : !AsyncNotifierLaws N}.
Context `{HGL : !SharedGroupsLaws}.
Variable log_between : Z -> Z -> list TransactLog.log_call.

Abbreviation world := (@world HG N).
Abbreviation notifiers := (gmap nat N).

Definition lives (s : notifiers) (a : nat) : Prop := exists n, s !! a = Some n /\ is_alive (base n) = true.

(** Nobody dies. *)
Definition alive_kept (s s' : notifiers) : Prop := forall a, lives s a -> lives s' a.

Lemma alive_trans s1 s2 s3 : alive_kept s1 s2 -> alive_kept s2 s3 -> alive_kept s1 s3.
Proof using Type. intros H12 H23 a Ha. auto. Qed.

Lemma alive_of_kept s s' : kept s s' -> alive_kept s s'.
Proof using Type. intros Hk a (n & Hn & Hl). destruct (Hk a n Hn) as (n' & ? & Hb). exists n'. by rewrite Hb. Qed.

Lemma alive_stepped (R : N -> N -> Prop) l s s' : (forall n n', R n n' -> m_realm (base n') = m_realm (base n)) ->
  stepped R l s s' -> alive_kept s s'.
Proof using Type.
  intros HR [Ho Hi] a (n & Hn & Hl). destruct (decide (a ∈ l)) as [Ha|Ha].
  - destruct (Hi a Ha) as (m & n' & Hm & Hn' & HRm). rewrite Hn in Hm. injection Hm as <-. exists n'. split; [done|].
    unfold is_alive in *. by rewrite (HR _ _ HRm).
  - exists n. by rewrite Ho.
Qed.

Lemma alive_passed l s s' : stepped passed l s s' -> alive_kept s s'.
Proof using Type. apply alive_stepped. intros n n' Hp. by rewrite Hp. Qed.

Lemma alive_put_on l s s' : stepped put_on l s s' -> alive_kept s s'.
Proof using Type. apply alive_stepped. intros n n' Hp. by rewrite Hp. Qed.

Lemma alive_handover v l s s' : NoDup l -> foldM (on_store (n_prepare_handover v)) l s = Some s' -> alive_kept s s'.
Proof using HAL.
  intros Hnd Hf. eapply (alive_stepped (λ n n', m_realm (base n') = m_realm (base n))); [done|]. eapply fold_store_stepped; [|done|exact Hf].
  intros a t t' _ (n & n' & Hn & Hh & ->)%on_store_spec. exists n, n'. by apply base_prepare_handover in Hh as (_ & _ & _ & ? & _).
Qed.

(** Only the dead are removed. *)
Lemma swap_remove_lives fuel : forall i l s did l' s' did', NoDup l -> swap_remove fuel i l s did = Some (l', s', did') ->
  forall a, a ∈ l -> lives s a -> a ∈ l'.
Proof using HAL.
  induction fuel as [|fuel IH]; intros i l s did l' s' did' Hnd; cbn [swap_remove].
  - destruct (l !! i); [done|]. by intros [= <- <- <-].
  - destruct (l !! i) as [a|] eqn:Hi; [|by intros [= <- <- <-]].
    destruct (s !! a) as [n|] eqn:Hn; [|done]. mrun. destruct (is_alive (base n)) eqn:Hal; [by apply IH|].
    intros Hr b Hb Hlb. pose proof (swap_out l i a Hi) as Hp. set (l1 := removelast _) in *. rewrite Hp in Hnd.
    apply NoDup_cons in Hnd as [Ha Hnd1]. assert (b ≠ a) as Hne.
    { intros ->. destruct Hlb as (m & Hm & Hlm). rewrite Hn in Hm. injection Hm as <-. by rewrite Hal in Hlm. }
    eapply IH; [exact Hnd1|exact Hr| |].
    + rewrite Hp in Hb. by apply elem_of_cons in Hb as [|].
    + destruct Hlb as (m & Hm & Hlm). exists m. by rewrite lookup_insert_ne.
Qed.

(** The fuel is enough. *)
Lemma swap_remove_total fuel : forall i l s did, length l - i <= fuel -> all_at (λ _, True) l s ->
  exists r, swap_remove fuel i l s did = Some r.
Proof using Type.
  induction fuel as [|fuel IH]; intros i l s did Hf Hall; cbn [swap_remove].
  - rewrite lookup_ge_None_2 by lia. eauto.
  - destruct (l !! i) as [a|] eqn:Hi; [|eauto]. destruct (Hall a) as (n & Hn & _); [by eapply list_elem_of_lookup_2|].
    rewrite Hn. mrun. pose proof (lookup_lt_Some _ _ _ Hi) as Hlt. destruct (is_alive (base n)); [apply IH; [lia|done]|].
    pose proof (swap_out l i a Hi) as Hp. set (l1 := removelast _) in *. pose proof (Permutation_length Hp) as Hlen. cbn in Hlen.
    apply IH; [lia|]. intros b Hb. destruct (decide (b = a)) as [->|Hne]; [eexists; by rewrite lookup_insert_eq|].
    rewrite lookup_insert_ne by done. apply Hall. rewrite Hp. by right.
Qed.

Lemma swap_remove_true fuel i l s l' s' : swap_remove fuel i l s false = Some (l', s', true) -> l <> [].
Proof using Type. intros Hr ->. by destruct fuel. Qed.

Lemma clean_up_lives (w w' : world) : NoDup (registered w) -> clean_up_dead_notifiers w = Some w' ->
  alive_kept (store_of w) (store_of w')
  /\ (forall a, a ∈ m_new_notifiers (co w) -> lives (store_of w) a -> a ∈ m_new_notifiers (co w'))
  /\ (forall a, a ∈ m_old_notifiers (co w) -> lives (store_of w) a -> a ∈ m_old_notifiers (co w')).
Proof using HAL.
  intros (Hnew & _ & Hold)%NoDup_app. unfold clean_up_dead_notifiers.
  destruct (swap_remove _ 0 (m_old_notifiers _) _ _) as [[[old s1] r1]|] eqn:H1; mrun; [|done].
  set (c1 := match m_notifier_sg (set_old old (co w)) with Some _ => _ | None => _ end).
  destruct c1 as [c|] eqn:Hc1; mrun; [|done]. unfold c1 in Hc1. clear c1.
  assert (m_new_notifiers c = m_new_notifiers (co w) /\ m_old_notifiers c = old) as [Hcn Hco].
  { revert Hc1. cbn. destruct (m_notifier_sg (co w)); [|by intros [= <-]]. destruct (r1 && _); [|by intros [= <-]].
    destruct (REALM_ASSERT _); mrun; [|done]. by intros [= <-]. }
  clear Hc1. rewrite Hcn. destruct (swap_remove _ 0 (m_new_notifiers _) _ _) as [[[new s2] r2]|] eqn:H2; mrun; [|done].
  set (c2 := match m_advancer_sg (set_new new c) with Some _ => _ | None => _ end).
  destruct c2 as [c'|] eqn:Hc2; mrun; [|done]. unfold c2 in Hc2. clear c2.
  intros [= <-]. cbn [co store_of].
  assert (m_new_notifiers c' = new /\ m_old_notifiers c' = old) as [Hdn Hdo].
  { revert Hc2. cbn. destruct (m_advancer_sg c); [|by intros [= <-]]. destruct r2; [|by intros [= <-]].
    destruct (REALM_ASSERT _); mrun; [|done]. by case_bool_decide; intros [= <-]. }
  rewrite Hdn, Hdo. pose proof (swap_remove_spec _ _ _ _ _ _ _ _ Hold H1) as (_ & _ & Hk1 & _).
  pose proof (swap_remove_spec _ _ _ _ _ _ _ _ Hnew H2) as (_ & _ & Hk2 & _). split_and!.
  - eapply alive_trans; [by apply alive_of_kept|by apply alive_of_kept].
  - intros a Ha Hl. eapply swap_remove_lives; [exact Hnew|exact H2|done|]. by apply (alive_of_kept _ _ Hk1).
  - intros a Ha Hl. by eapply swap_remove_lives.
Qed.
(** ** The assertions of the clean-up *)

Lemma reads_reading v sg : reads_at v sg -> reading sg = true.
Proof using Type. intros [Hs _]. by apply bool_decide_eq_true. Qed.

Lemma idle_stored (w : world) : idle_ok w -> all_at (λ _, True) (m_old_notifiers (co w)) (store_of w).
Proof using Type.
  unfold idle_ok. assert (Hnil : m_old_notifiers (co w) = [] -> all_at (λ _, True) (m_old_notifiers (co w)) (store_of w)).
  { intros ->. by intros a Ha%elem_of_nil. }
  destruct (m_notifier_sg (co w)); [|intros [? _]; auto]. case_bool_decide; [auto|].
  intros (v & _ & _ & Ha & _). by eapply all_at_impl; [|exact Ha].
Qed.

Lemma advancer_stored (w : world) : advancer_ok w -> all_at (λ _, True) (m_new_notifiers (co w)) (store_of w).
Proof using Type.
  unfold advancer_ok. assert (Hnil : m_new_notifiers (co w) = [] -> all_at (λ _, True) (m_new_notifiers (co w)) (store_of w)).
  { intros ->. by intros a Ha%elem_of_nil. }
  destruct (m_advancer_sg (co w)); [|intros [? _]; auto]. case_bool_decide; [auto|].
  intros (v & _ & Ha). by eapply all_at_impl; [|exact Ha].
Qed.

Lemma idle_reads (w : world) sg : idle_ok w -> m_notifier_sg (co w) = Some sg -> m_old_notifiers (co w) <> [] -> reading sg = true.
Proof using Type.
  unfold idle_ok. intros Hok Hs Hn. rewrite Hs, bool_decide_eq_false_2 in Hok by done. destruct Hok as (v & Hv & _). by eapply reads_reading.
Qed.

Lemma clean_up_total (w : world) : co_inv (w, idle) -> m_async_error (co w) = None -> exists w', clean_up_dead_notifiers w = Some w'.
Proof using HAL.
  intros [Hnd Hinv] He. rewrite He in Hinv. destruct Hinv as [Hadv Hidle]. pose proof Hnd as (_ & _ & Hold)%NoDup_app.
  unfold clean_up_dead_notifiers.
  destruct (swap_remove_total (length (m_old_notifiers (co w))) 0 (m_old_notifiers (co w)) (store_of w) false) as [[[old s1] r1] H1];
    [lia|by apply idle_stored|]. rewrite H1. mrun.
  assert (exists c, match m_notifier_sg (set_old old (co w)) with
    | Some sg => if r1 && bool_decide (old = []) then
                   _ ← REALM_ASSERT (reading sg); Some (set_skip_version 0 (set_notifier_sg (Some (end_read sg)) (set_old old (co w))))
                 else Some (set_old old (co w))
    | None => Some (set_old old (co w)) end = Some c
    /\ m_new_notifiers c = m_new_notifiers (co w) /\ m_advancer_sg c = m_advancer_sg (co w)) as (c & -> & Hcn & Hca).
  { cbn. destruct (m_notifier_sg (co w)) as [sg|] eqn:Hsg; [|by eexists]. destruct (r1 && _) eqn:Hr; [|by eexists].
    apply andb_true_iff in Hr as [-> _]. rewrite REALM_ASSERT_true; [mrun; by eexists|].
    eapply idle_reads; [done|done|]. by eapply swap_remove_true. }
  mrun. rewrite Hcn. pose proof (swap_remove_spec _ _ _ _ _ _ _ _ Hold H1) as (_ & _ & Hk1 & _).
  destruct (swap_remove_total (length (m_new_notifiers (co w))) 0 (m_new_notifiers (co w)) s1 false) as [[[new s2] r2] H2];
    [lia|eapply kept_all_at; [|exact Hk1|by apply advancer_stored]; done|]. rewrite H2. mrun. cbn [m_advancer_sg set_new]. rewrite Hca.
  destruct (m_advancer_sg (co w)) as [sg|] eqn:Hsg; mrun; [|by eexists]. destruct r2; mrun; [|by eexists].
  destruct (advancer_reads w sg) as [u Hu]; [done|done|by eapply swap_remove_true|].
  rewrite REALM_ASSERT_true by by eapply reads_reading. mrun. by eexists.
Qed.

(** ** A whole run *)

Lemma advance_new_lives latest l s sg sg' c s' ps : NoDup l -> advance_new log_between latest l s sg = Some (sg', c, s', ps) -> alive_kept s s'.
Proof using HAL HGL. intros Hnd (_ & _ & Hst)%advance_new_spec; [by eapply alive_passed|done..]. Qed.

(** What a part of a run does to the notifiers and to the coordinator. *)
Definition serves (w w' : world) : Prop :=
  alive_kept (store_of w) (store_of w') /\ latest w' = latest w /\ m_async_error (co w') = m_async_error (co w)
  /\ m_old_notifiers (co w') = m_old_notifiers (co w) /\ m_new_notifiers (co w') = m_new_notifiers (co w).

Lemma serves_refl w : serves w w.
Proof using Type. split_and!; try done. by intros a. Qed.

Lemma registered_cleaned (w w' : world) a : NoDup (registered w) -> clean_up_dead_notifiers w = Some w' ->
  a ∈ registered w -> lives (store_of w) a -> a ∈ registered w' /\ lives (store_of w') a.
Proof using HAL.
  intros Hnd Hc Ha Hl. destruct (clean_up_lives w w' Hnd Hc) as (Hk & Hn & Ho). split; [|by apply Hk].
  unfold registered in *. apply elem_of_app in Ha as [Ha|Ha]; apply elem_of_app; auto.
Qed.

Lemma begin_serves opened (w w' : world) l : co_inv (w, idle) -> async_begin log_between opened w = Some (w', l) ->
  (forall a, a ∈ registered w -> lives (store_of w) a -> a ∈ m_old_notifiers (co w') /\ lives (store_of w') a)
  /\ latest w' = latest w /\ (m_async_error (co w') = None -> m_new_notifiers (co w') = [])
  /\ match l with
     | Some l => l_version l = latest w
     | None => m_async_error (co w') = None -> m_old_notifiers (co w') = []
     end.
Proof using HAL HGL.
  unfold async_begin. destruct (clean_up_dead_notifiers w) as [w1|] eqn:Hc; mrun; [|done]. intros Hr Hi.
  pose proof (clean_inv _ _ Hc Hr) as Hi1. destruct Hr as [Hnd _]. pose proof (clean_up_spec _ _ Hnd Hc) as ((<- & _) & _).
  assert (Hreg : forall a, a ∈ registered w -> lives (store_of w) a -> a ∈ registered w1 /\ lives (store_of w1) a)
    by (intros a; by apply registered_cleaned).
  clear Hc Hnd. revert Hi. destruct (_ && _) eqn:Hb.
  { intros [= <- <-]. apply andb_true_iff in Hb as [Ho%bool_decide_eq_true Hn%bool_decide_eq_true]. split_and!; try done.
    intros a Ha Hl. destruct (Hreg a Ha Hl) as [Hin _]. unfold registered in Hin. rewrite Ho, Hn in Hin. by apply not_elem_of_nil in Hin. }
  assert (Hfail : forall c w2 l2, m_new_notifiers c = m_new_notifiers (co w1) -> m_old_notifiers c = m_old_notifiers (co w1) ->
    m_async_error c <> None ->
    Some (set_co (set_new [] (set_old (m_old_notifiers c ++ m_new_notifiers c) c)) w1, None) = Some (w2, l2) ->
    (forall a, a ∈ registered w -> lives (store_of w) a -> a ∈ m_old_notifiers (co w2) /\ lives (store_of w2) a)
    /\ latest w2 = latest w1 /\ (m_async_error (co w2) = None -> m_new_notifiers (co w2) = [])
    /\ match l2 with Some l => l_version l = latest w1 | None => m_async_error (co w2) = None -> m_old_notifiers (co w2) = [] end).
  { intros c w2 l2 Hn Ho He [= <- <-]. cbn. split_and!; try done. intros a Ha Hl. destruct (Hreg a Ha Hl) as [Hin Hl1]. split; [|done].
    rewrite Hn, Ho. unfold registered in Hin. rewrite elem_of_app in *. tauto. }
  pose proof Hi1 as [Hnd Hok]. destruct (m_async_error (co w1)) as [e|] eqn:He; mrun.
  { rewrite He. apply Hfail; [done..|]. by rewrite He. }
  destruct Hok as [Hadv Hidle]. destruct (open_helper_shared_group _ _ _) as [c|] eqn:Ho; mrun; [|done].
  eapply open_helper_spec in Ho as (Hcn & Hco & Hca & Hck & Hcv); [|done..].
  destruct (m_async_error c) as [e|] eqn:Hce.
  { apply Hfail; [done..|]. by rewrite Hce. }
  destruct (m_advancer_sg c) as [sg|] eqn:Hsg; mrun; [|done]. rewrite Hcn.
  set (r := if bool_decide _ then _ else _). destruct r as [[[[sg' infos] s] ps]|] eqn:Hnew; unfold r in Hnew; clear r; mrun; [|done].
  pose proof Hnd as (Hndn & _)%NoDup_app. apply new_ones_spec in Hnew as ([_ Hrd] & Hps & Hst); [|done..].
  destruct (REALM_ASSERT _); mrun; [|done]. intros [= <- <-]. cbn. split_and!; try done.
  intros a Ha Hl. destruct (Hreg a Ha Hl) as [Hin Hl1]. split; [|by eapply alive_passed].
  rewrite Hco, Hps. unfold registered in Hin. rewrite elem_of_app in *. tauto.
Qed.

Lemma skip_serves l (w : world) l' w' : co_inv (w, skipping l) -> async_skip log_between l w = Some (l', w') ->
  serves w w' /\ l_version l' = l_version l.
Proof using HAL HGL.
  unfold async_skip. intros [Hnd Hi]. cbn in Hi. destruct (m_async_error (co w)) eqn:He; [done|].
  destruct Hi as [_ (v & Hok & _)]. case_bool_decide as Hz; [intros [= <- <-]; split; [apply serves_refl|done]|].
  do 2 (destruct (REALM_ASSERT _)); mrun; try done. destruct (m_notifier_sg (co w)) as [sg|]; mrun; [|done].
  destruct (advance_old _ _ _ _ _ _) as [[[[ns sg'] c] s]|] eqn:Ha; mrun; [|done]. destruct (run_old _ _ _) as [s'|] eqn:Hrun; mrun; [|done].
  intros [= <- <-]. destruct (run_parts _ _ _ Hnd Hok) as (Hndl & _). apply advance_old_spec in Ha as (Hns & Hu & Hk); [|done..].
  apply run_old_kept in Hrun; [|by rewrite Hns]. cbn. split; [|done]. unfold serves. cbn. split_and!; try done. by eapply alive_of_kept, kept_trans.
Qed.

Lemma hand_serves l (w w' : world) : co_inv (w, handing l) -> async_skip_handover l w = Some w' -> serves w w'.
Proof using HAL HGL.
  unfold async_skip_handover. intros [Hnd Hi]. cbn in Hi. destruct (m_async_error (co w)) eqn:He; [done|].
  destruct Hi as [_ (v & Hok & _)]. case_bool_decide as Hz; [intros [= <-]; apply serves_refl|].
  destruct (m_notifier_sg (co w)) as [sg|]; mrun; [|done]. destruct (foldM _ _ _) as [s|] eqn:Hf; mrun; [|done]. intros [= <-].
  destruct (run_parts _ _ _ Hnd Hok) as (Hndl & _). unfold serves. cbn. split_and!; try done. by eapply alive_handover.
Qed.

Lemma run_serves l (w : world) l' w' : co_inv (w, running l) -> async_run log_between l w = Some (l', w') ->
  serves w w' /\ l_version l' = l_version l.
Proof using HAL HGL.
  unfold async_run. intros [Hnd Hi]. cbn in Hi. destruct (m_async_error (co w)) eqn:He; [done|].
  destruct Hi as [_ (v & Hok & _)]. destruct (m_notifier_sg (co w)) as [sg|]; mrun; [|done].
  destruct (advance_old _ _ _ _ _ _) as [[[[ns sg'] c] s]|] eqn:Ha; mrun; [|done].
  destruct (foldM _ (l_new_notifiers l) s) as [s1|] eqn:Hf; mrun; [|done]. destruct (run_old _ _ _) as [s'|] eqn:Hrun; mrun; [|done].
  intros [= <- <-]. destruct (run_parts _ _ _ Hnd Hok) as (Hndl & Hndn & _).
  apply advance_old_spec in Ha as (Hns & Hu & Hk); [|done..]. apply run_old_kept in Hrun; [|by rewrite Hns].
  apply attach_run_stepped in Hf; [|done]. cbn. split; [|done]. unfold serves. cbn. split_and!; try done.
  eapply alive_trans; [by apply alive_of_kept|]. eapply alive_trans; [by eapply alive_put_on|by apply alive_of_kept].
Qed.

(** The handover ends with the clean-up. *)
Lemma finish_serves l (w w' : world) : co_inv (w, finishing l) -> async_finish l w = Some w' ->
  latest w' = latest w /\ m_async_error (co w') = m_async_error (co w)
  /\ (forall a, a ∈ m_old_notifiers (co w) -> lives (store_of w) a -> a ∈ m_old_notifiers (co w'))
  /\ (m_new_notifiers (co w) = [] -> m_new_notifiers (co w') = [])
  /\ (m_old_notifiers (co w') <> [] -> exists sg, m_notifier_sg (co w') = Some sg /\ reads_at (l_version l) sg).
Proof using HAL HGL.
  unfold async_finish. intros [Hnd Hi]. cbn in Hi. destruct (m_async_error (co w)) eqn:He; [done|].
  destruct Hi as [Hadv [Hok _]]. pose proof Hok as ((sg & Hsg & Hrd) & _). rewrite Hsg. mrun.
  destruct (foldM _ (fst <$> _) _) as [s1|] eqn:H1; mrun; [|done]. destruct (foldM _ (l_notifiers l) _) as [s2|] eqn:H2; mrun; [|done].
  intros Hc. destruct (run_parts _ _ _ Hnd Hok) as (Hndl & Hndn & _).
  destruct (clean_up_spec (set_store s2 w) w' Hnd Hc) as ((Hl & Hce & _) & (Hin & _) & (_ & _ & Hen & _)).
  destruct (clean_up_lives (set_store s2 w) w' Hnd Hc) as (_ & _ & Ho). cbn in *. split_and!; [done|congruence| | |].
  - intros a Ha Hla. apply Ho; [done|]. eapply alive_handover; [exact Hndl|exact H2|]. by eapply alive_handover.
  - intros Hn. by eapply incl_nil.
  - intros Hne. destruct Hen as [[-> _]|(g & _ & Hnil & _)]; [by exists sg|done].
Qed.

(** A run with nobody else getting the lock. *)
Lemma run_serves_live opened (w w' : world) : co_inv (w, idle) -> run_async_notifiers log_between opened w = Some w' ->
  co_inv (w', idle) /\ latest w' = latest w
  /\ (forall a, a ∈ registered w -> lives (store_of w) a -> a ∈ m_old_notifiers (co w'))
  /\ (m_async_error (co w') = None -> m_new_notifiers (co w') = []
      /\ all_at (settled (latest w)) (m_old_notifiers (co w')) (store_of w')).
Proof using HAL HGL.
  unfold run_async_notifiers. intros Hi0. destruct (async_begin _ _ _) as [[w1 l]|] eqn:H0; mrun; [|done].
  pose proof (begin_inv _ _ _ _ _ H0 Hi0) as Hi1. apply begin_serves in H0 as (Hreg & Hlat & Hnew & Hl); [|done].
  destruct l as [l|].
  2: { intros [= <-]. split_and!; try done; [by apply Hreg|]. intros He. split; [auto|]. rewrite Hl by done. by intros a Ha%elem_of_nil. }
  destruct (async_skip _ l w1) as [[l2 w2]|] eqn:H1; mrun; [|done]. pose proof (skip_inv _ _ _ _ _ H1 Hi1) as Hi2.
  apply skip_serves in H1 as ((Hk1 & Hl1 & He1 & Ho1 & Hn1) & Hv1); [|done].
  destruct (async_skip_handover l2 w2) as [w3|] eqn:H2; mrun; [|done]. pose proof (hand_inv _ _ _ H2 Hi2) as Hi3.
  apply hand_serves in H2 as (Hk2 & Hl2 & He2 & Ho2 & Hn2); [|done].
  destruct (async_run _ l2 w3) as [[l4 w4]|] eqn:H3; mrun; [|done]. pose proof (run_inv _ _ _ _ _ H3 Hi3) as Hi4.
  apply run_serves in H3 as ((Hk3 & Hl3 & He3 & Ho3 & Hn3) & Hv3); [|done].
  intros H4. pose proof (finish_inv _ _ _ H4 Hi4) as Hi5. apply finish_serves in H4 as (Hl4 & He4 & Ho4 & Hn4 & Hrd); [|done].
  assert (He : m_async_error (co w1) = None) by (destruct Hi1 as [_ Hi1]; by destruct (m_async_error (co w1))).
  split_and!; [done|congruence| |].
  - intros a Ha Hla. destruct (Hreg a Ha Hla) as [Hin Hl0]. apply Ho4; [by rewrite Ho3, Ho2, Ho1|auto].
  - intros _. split; [apply Hn4; rewrite Hn3, Hn2, Hn1; auto|]. destruct (decide (m_old_notifiers (co w') = [])) as [->|Hne].
    { by intros a Ha%elem_of_nil. }
    destruct (Hrd Hne) as (sg & Hsg & [_ Hv]). destruct Hi5 as [_ Hi5]. rewrite He4, He3, He2, He1, He in Hi5. destruct Hi5 as [_ Hi5].
    cbn in Hi5. unfold idle_ok in Hi5. rewrite Hsg, bool_decide_eq_false_2 in Hi5 by done. destruct Hi5 as (v & [_ Hv'] & _ & Hall & _).
    assert (v = latest w) as -> by congruence. done.
Qed.
End life.

(** ** Infos of an advance in several steps *)
Section combine.
Context `{HB : Build, HO : StdOrders} {A : Type}.

(** The contents of the tables. A table that has no builder did not change. *)
Definition contents := nat -> list A.

Definition tables_tell (ts : list CollectionChangeBuilder) (r r' : contents) : Prop :=
  forall j, match ts !! j with Some b => tells b (r j) (r' j) | None => r j = r' j end.

(** Each info tells of one step. *)
Inductive logged : list TransactionChangeInfo -> list contents -> Prop :=
| logged_nil r : logged [] [r]
| logged_cons info infos r r' rs : tables_tell (tables info) r r' -> logged infos (r' :: rs) -> logged (info :: infos) (r :: r' :: rs).

(** What [merge] needs, wherever [advance_to_final] calls it. *)
Fixpoint joinable (infos : list TransactionChangeInfo) : Prop :=
  match infos with
  | [] => True
  | prev :: rest =>
      joinable rest
      /\ forall cur rest', combine_all rest = Some (cur :: rest') ->
           forall j b c, tables prev !! j = Some b -> tables cur !! j = Some c -> mergeable b c
  end.

Lemma tables_tell_ext_r ts (r r1 r2 : contents) : (forall j, r1 j = r2 j) -> tables_tell ts r r1 -> tables_tell ts r r2.
Proof using Type. intros He Ht j. specialize (Ht j). destruct (ts !! j); by rewrite <- He. Qed.

Lemma tables_tell_ext_l ts (r r1 r2 : contents) : (forall j, r j = r1 j) -> tables_tell ts r1 r2 -> tables_tell ts r r2.
Proof using Type. intros He Ht j. specialize (Ht j). destruct (ts !! j); by rewrite He. Qed.

Lemma tables_tell_nil (r r' : contents) : tables_tell [] r r' -> forall j, r j = r' j.
Proof using Type. intros Ht j. apply (Ht j). Qed.

Lemma merge_tables_tell prev : forall cur (r r1 r2 : contents),
  (forall j b c, prev !! j = Some b -> cur !! j = Some c -> mergeable b c) ->
  tables_tell prev r r1 -> tables_tell cur r1 r2 -> exists ts, merge_tables prev cur = Some ts /\ tables_tell ts r r2.
Proof using Type.
  induction prev as [|p prev IH]; intros cur r r1 r2 Hm Hp Hc.
  { exists cur. split; [by destruct cur|]. eapply tables_tell_ext_l; [|exact Hc]. by apply tables_tell_nil. }
  destruct cur as [|c cur].
  { exists (p :: prev). split; [done|]. eapply tables_tell_ext_r; [|exact Hp]. by apply tables_tell_nil. }
  destruct (merge_tells p c (r 0) (r1 0) (r2 0)) as (m & Hrun & Ht); [by apply (Hm 0)|apply (Hp 0)|apply (Hc 0)|].
  destruct (IH cur (r ∘ S) (r1 ∘ S) (r2 ∘ S)) as (ts & Hts & Htell).
  - intros j. apply (Hm (S j)).
  - intros j. apply (Hp (S j)).
  - intros j. apply (Hc (S j)).
  - exists (m :: ts). cbn. rewrite Hrun. mrun. rewrite Hts. mrun. split; [done|]. intros [|j]; [done|apply Htell].
Qed.

Lemma combine_infos_tell prev cur (r r1 r2 : contents) :
  (forall j b c, tables prev !! j = Some b -> tables cur !! j = Some c -> mergeable b c) ->
  tables_tell (tables prev) r r1 -> tables_tell (tables cur) r1 r2 ->
  exists info, combine_infos prev cur = Some info /\ tables_tell (tables info) r r2.
Proof using Type.
  intros Hm Hp Hc. unfold combine_infos. destruct (decide (tables cur = [])) as [Hn|Hn].
  - rewrite bool_decide_eq_true_2 by done. exists prev. split; [done|]. eapply tables_tell_ext_r; [|exact Hp].
    apply tables_tell_nil. by rewrite <- Hn.
  - rewrite bool_decide_eq_false_2 by done. destruct (decide (tables prev = [])) as [Hn'|Hn'].
    + rewrite bool_decide_eq_true_2 by done. eexists. split; [done|]. eapply tables_tell_ext_l; [|exact Hc].
      apply tables_tell_nil. by rewrite <- Hn'.
    + rewrite bool_decide_eq_false_2 by done. destruct (merge_tables_tell _ _ r r1 r2 Hm Hp Hc) as (ts & -> & Ht). mrun. eauto.
Qed.

(** Combining keeps the steps, and each info tells the changes up to the end. *)
Lemma combine_all_tell infos rs : logged infos rs -> joinable infos ->
  exists infos', combine_all infos = Some infos' /\ length infos' = length infos
    /\ forall final, last rs = Some final ->
         forall k info r, infos' !! k = Some info -> rs !! k = Some r -> tables_tell (tables info) r final.
Proof using Type.
  induction 1 as [r|info infos r r' rs Ht Hl IH]; intros Hj.
  - exists []. split_and!; [done|done|]. intros final _ k i q Hk. by rewrite lookup_nil in Hk.
  - destruct Hj as [Hj Hm]. destruct (IH Hj) as (infos' & Hrun & Hlen & Htell). cbn [combine_all]. rewrite Hrun. mrun.
    destruct infos' as [|cur rest].
    + exists [info]. split_and!; [done|cbn in *; lia|]. inversion Hl; subst; [|done].
      intros final [= <-] [|k] i q Hk Hq; [|discriminate Hk]. injection Hk as <-. by injection Hq as <-.
    + destruct (last (r' :: rs)) as [final|] eqn:Hlast; [|by apply last_None in Hlast].
      specialize (Htell final eq_refl). pose proof (Htell 0 cur r' eq_refl eq_refl) as Hcur.
      destruct (combine_infos_tell info cur r r' final) as (info' & Hc & Hi); [by apply (Hm cur rest)|done|done|].
      rewrite Hc. mrun. exists (info' :: cur :: rest). split_and!; [done|cbn in *; lia|].
      intros final' Hf. rewrite last_cons_cons, Hlast in Hf. injection Hf as <-.
      intros [|k] i q Hk Hq; [injection Hk as <-; by injection Hq as <-|]. by apply (Htell k).
Qed.
End combine.
