(* ===== verification/Samples.v ===== *)
(** * Sample index sets and change sets

    Concrete values of the model and decision procedures for the invariants on
    them; the witnesses of the properties are evaluated on these values, in a
    debug build (chunks of four ranges). *)

From S2P Require Import Prelude ChunkedRangeVector ChunkedFacts IndexSet IndexSetFacts IndexSetWalk CorrFacts.
From S2P Require Import ChangeBuilder ChangeFacts ChangeMove ChangeMergeMoves ChangeTable.

#[local] Existing Instance debug_build.

(** ** Deciding the representation invariant *)

#[export] Instance Chunk_eq_dec : EqDecision Chunk.
Proof. solve_decision. Defined.

Fixpoint ok_from_b (lo : Z) (L : list range) : bool :=
  match L with
  | [] => true
  | r :: L => bool_decide (lo <= r.1)%Z && bool_decide (r.1 < r.2)%Z && ok_from_b (r.2 + 1) L
  end.

Lemma ok_from_of_b L : forall lo, ok_from_b lo L = true -> ok_from lo L.
Proof.
  induction L as [|r L IH]; intros lo; [done|]. cbn [ok_from_b ok_from].
  rewrite !andb_true_iff, !bool_decide_eq_true. naive_solver.
Qed.

Definition chunk_b (c : Chunk) : bool :=
  negb (bool_decide (chunk_data c = [])) && bool_decide (length (chunk_data c) <= max_size)
  && bool_decide (c = mk_chunk (chunk_data c)).

Definition bounded_b (hi : Z) (L : list range) : bool := forallb (λ r, bool_decide (r.2 <= hi)%Z) L.

Lemma bounded_of_b hi L : bounded_b hi L = true -> bounded hi L.
Proof.
  unfold bounded_b, bounded. rewrite forallb_forall, Forall_forall. intros Hb r Hr.
  by apply (bool_decide_eq_true _), Hb, list_elem_of_In.
Qed.

Definition wf_b (d : IndexSet) : bool :=
  forallb chunk_b d && ok_from_b 0 (flat d) && bounded_b npos (flat d).

Lemma wf_of_b d : wf_b d = true -> wf d.
Proof.
  unfold wf_b. rewrite !andb_true_iff, forallb_forall. intros [[Hc Ho] Hb]. split.
  - apply Forall_forall. intros c Hin%list_elem_of_In%Hc. unfold chunk_b in Hin.
    rewrite !andb_true_iff, negb_true_iff, bool_decide_eq_false, !bool_decide_eq_true in Hin.
    destruct Hin as [[? ?] ?]. by split.
  - split; [by apply ok_from_of_b|by apply bounded_of_b].
Qed.

Definition wf_builder_b (b : CollectionChangeBuilder) : bool :=
  wf_b (deletions b) && wf_b (insertions b) && wf_b (modifications b) && forallb wf_b (columns b).

Lemma wf_builder_of_b b : wf_builder_b b = true -> wf_builder b.
Proof.
  unfold wf_builder_b. rewrite !andb_true_iff, forallb_forall. intros [[[? ?] ?] Hc].
  split; try by apply wf_of_b. apply Forall_forall. intros c Hin%list_elem_of_In%Hc. by apply wf_of_b.
Qed.

Definition wf_moves_b (b : CollectionChangeBuilder) : bool :=
  forallb (λ m, bool_decide (mem (move_from m) (flat (deletions b)))
             && bool_decide (mem (move_to m) (flat (insertions b)))) (moves b)
  && bool_decide (NoDup (move_from <$> moves b)) && bool_decide (NoDup (move_to <$> moves b)).

Lemma wf_moves_of_b b : wf_moves_b b = true -> wf_moves b.
Proof.
  unfold wf_moves_b. rewrite !andb_true_iff, forallb_forall, !bool_decide_eq_true. intros [[Hm ?] ?].
  split; [|done..]. apply Forall_forall. intros m Hin%list_elem_of_In%Hm.
  by rewrite andb_true_iff, !bool_decide_eq_true in Hin.
Qed.

Ltac decide_wf :=
  first [ apply wf_of_b | apply wf_builder_of_b | apply wf_moves_of_b | apply bounded_of_b ]; vm_compute; reflexivity.

(** ** Sample sets *)

(** The set with the ranges [L], in one chunk. *)
Definition one_chunk (L : list range) : IndexSet :=
  match L with [] => [] | _ => [mk_chunk L] end.

(** {2,3,4,7,8} *)
Definition five_values : IndexSet := one_chunk [(2, 5); (7, 9)]%Z.
(** {3,8,9} *)
Definition three_values : IndexSet := one_chunk [(3, 4); (8, 10)]%Z.
(** {1,3,5,7} and {9..28}: the second chunk of a debug build. *)
Definition two_chunks : IndexSet :=
  [mk_chunk [(1, 2); (3, 4); (5, 6); (7, 8)]%Z; mk_chunk [(9, 29)]%Z].

(** {20,21,22} *)
Definition last_run : IndexSet := one_chunk [(20, 23)]%Z.
(** {1,3,5,7} *)
Definition four_values : IndexSet := one_chunk [(1, 2); (3, 4); (5, 6); (7, 8)]%Z.

Example two_chunks_built : (d ← of_list [1; 3; 5; 7]%Z; insert_at d 9 20) = Some two_chunks.
Proof. vm_compute. reflexivity. Qed.

(** ** Sample change sets *)

Definition sample_builder (dels ins mods : list range) (ms : list Move) : CollectionChangeBuilder :=
  mkChangeBuilder (one_chunk dels) (one_chunk ins) (one_chunk mods) [] ms [] ∅ true.
