(* ===== verification/NotifierSamples.v ===== *)
(** * Sample tables and notifiers

    A group with links from table 0 to table 1 and from there to table 2, and
    changes of these tables; the witnesses of the notifiers' properties are
    evaluated on them. *)

From S2P Require Import Core Prelude ChunkedRangeVector ChunkedFacts IndexSet IndexSetFacts CorrFacts.
From S2P Require Import ChangeBuilder ChangeFacts ChangeMove ChangeCalculation Samples TransactInfo.
From S2P Require Import DeepChecker DeepCheckerFacts CollectionNotifier DeliverySpec.
From S2P Require Import DeliveryFacts ListRefinement Notifiers ResultsFacts.

(** ** Links *)

(** Table 0 has a link to table 1, table 1 a list of rows of table 2; table 3 a
    link to itself. *)
#[export] Instance sample_links : LinkTables := {
  group_size := 4;
  get_column_count := λ t, if bool_decide (t = 2)%Z then 0 else 1;
  get_column_type := λ t c, if bool_decide (t = 1)%Z then type_LinkList else type_Link;
  get_link_target := λ t c, if bool_decide (t = 0)%Z then 1%Z else if bool_decide (t = 3)%Z then 3%Z else 2%Z;
  get_link := λ t c r, if bool_decide (t = 0)%Z && bool_decide (r = 0)%Z then Some 1%Z
                       else if bool_decide (t = 3)%Z && bool_decide (r = 0)%Z then Some 1%Z else None;
  get_linklist := λ t c r, if bool_decide (t = 1)%Z && bool_decide (r = 1)%Z then [5%Z; 6%Z] else [];
}.

#[export] Instance sample_links_laws : LinkTablesLaws.
Proof.
  split.
  - intros t c _. cbn. repeat case_bool_decide; lia.
  - done.
  - intros t c r dst. cbn. intros Hd. destruct (_ && _); [injection Hd as <-; done|].
    destruct (_ && _); [injection Hd as <-; done|done].
  - intros t c r dst. cbn. destruct (_ && _); [|intros Hd; by apply not_elem_of_nil in Hd].
    intros [->|[->|Hd]%elem_of_cons]%elem_of_cons; [done|done|by apply not_elem_of_nil in Hd].
Qed.

Lemma no_self_link_0 : no_self_link 0.
Proof. intros c _ _. vm_compute. discriminate. Qed.

Lemma no_self_link_1 : no_self_link 1.
Proof. intros c _ _. vm_compute. discriminate. Qed.

(** ** Changes *)

#[local] Existing Instance debug_build.

(** Row 1 of a table of four rows was deleted, row 3 moved over it. *)
Definition moved_over_1 : CollectionChangeBuilder :=
  sample_builder [(1, 2); (3, 4)]%Z [(1, 2)]%Z [] [mkMove 3 1].

(** Rows 0 and 4 and rows 1 and 3 were exchanged. *)
Definition swapped_rows : CollectionChangeBuilder :=
  sample_builder [(0, 2); (3, 5)]%Z [(0, 2); (3, 5)]%Z [] [mkMove 0 4; mkMove 1 3; mkMove 3 1; mkMove 4 0].

(** Rows 5 and 9 were modified. *)
Definition modified_5 : CollectionChangeBuilder := sample_builder [] [] [(5, 6); (9, 10)]%Z [].

Definition sample_info : TransactionChangeInfo :=
  mkInfo [] [] [] [moved_over_1; empty_builder; modified_5; sample_builder [] [] [(1, 2)]%Z []] [] [] false false ∅ 0.

Lemma sample_info_wf : Forall (λ b, wf (modifications b)) (tables sample_info).
Proof. do 4 (apply Forall_cons; split; [decide_wf|]). constructor. Qed.

Lemma tracks_moved_over_1 x z : tracks moved_over_1 x z ->
  x = (if decide (z = 1) then 3 else if decide (3 <= z) then z + 1 else z)%Z.
Proof.
  intros [(Hx & Hz & HD & HI & Hr)|Hm].
  - unfold moved_over_1, sample_builder in *. cbn [flat deletions insertions mbind list_bind one_chunk mk_chunk chunk_data app] in *.
    rewrite !mem_cons, !mem_nil in HD. rewrite !mem_cons, !mem_nil in HI. unfold rank, below, below_range in Hr. cbn in *.
    repeat case_decide; lia.
  - apply list_elem_of_singleton in Hm. injection Hm as -> ->. done.
Qed.

Lemma moved_over_1_in_front : forall m x z, m ∈ moves moved_over_1 -> same_element moved_over_1 x z ->
  (move_from m < x)%Z -> (move_to m < z)%Z.
Proof.
  intros m x z Hm%list_elem_of_singleton Hs Hlt. subst m. cbn in *.
  pose proof (tracks_moved_over_1 x z (or_introl Hs)) as Hx. repeat case_decide; lia.
Qed.

(** The row of the old version that a row of the new one was. *)
Definition old_row (z : Z) : Z := (if decide (z = 1) then 3 else if decide (3 <= z) then z + 1 else z)%Z.

(** ** Notifiers *)

Definition sample_callback (f t : Z) (c : CollectionChangeSet) : Callback :=
  mkCallback (Some f) empty_builder c t true false.

Definition one_insertion : CollectionChangeSet := mkChangeSet [] (one_chunk [(0, 1)]%Z) [] [] [] [].

(** Two callbacks, with changes packaged for them. *)
Definition two_callbacks : notifier :=
  mkNotifier true 1 true true false [sample_callback 10 0 one_insertion; sample_callback 11 1 one_insertion] true npos 2 2 0 [].

Definition on_thread : RealmState := mkRealmState true false.

(** The query finds the rows 0, 1 and 2; it had found 0, 2 and 3. *)
Definition sample_query : QueryState :=
  mkQueryState true 0 (mkContainer true 0 0 0 [] [] 0) 8 [0; 1; 2]%Z false.

Definition sample_related : list RelatedTable :=
  [mkRelatedTable 0 [mkOutgoingLink 0 false]; mkRelatedTable 1 [mkOutgoingLink 0 true]; mkRelatedTable 2 []].

Definition sample_results : results_notifier :=
  mkResultsNotifier two_callbacks sample_related 0 true false true None None None 7 [0; 2; 3]%Z empty_builder None.

(** A list with the rows 0 and 1 of table 1. *)
Definition sample_list : Container := mkContainer true 7 5 0 [(type_LinkList, 7)] [0; 1]%Z 1.

Definition sample_list_notifier : list_notifier :=
  mkListNotifier two_callbacks [mkRelatedTable 1 [mkOutgoingLink 0 true]; mkRelatedTable 2 []] (Some sample_list) None 1
    (sample_builder [] [(1, 2)]%Z [] []).

Lemma sample_results_ready : ready_to_run sample_query false sample_info sample_results.
Proof.
  split; try done; try apply sample_info_wf; try apply no_self_link_0.
  - by right.
  - split_and!; [decide_wf|decide_wf|repeat constructor].
  - repeat constructor; vm_compute; done.
  - apply (bool_decide_unpack (NoDup _)). by vm_compute.
  - repeat constructor; vm_compute; done.
  - apply (bool_decide_unpack (NoDup _)). by vm_compute.
  - intros _ _. split_and!; [repeat constructor; lia..|exact moved_over_1_in_front].
Qed.

Lemma sample_list_ready : list_ready sample_list sample_info sample_list_notifier.
Proof.
  split; try done; try apply sample_info_wf; try apply no_self_link_1; [by right|]. repeat constructor; vm_compute; done.
Qed.

Lemma sample_list_explains : explains (m_change sample_list_notifier) [7]%Z [7; 8]%Z.
Proof.
  destruct (insert_explains empty_builder [7]%Z [7]%Z 1 8%Z) as (b & Hb & He); [apply explains_empty|cbn; lia|cbn; lia|].
  vm_compute in Hb. by injection Hb as <-.
Qed.

Lemma two_callbacks_ok : notifier_ok two_callbacks.
Proof. split; [by apply (bool_decide_unpack (NoDup _)); vm_compute|by repeat constructor|done|by left|done]. Qed.

(** No callbacks, and nothing packaged. *)
Definition no_callbacks : notifier := mkNotifier true 1 true true false [] false npos 0 2 0 [].

Lemma no_callbacks_ok : notifier_ok no_callbacks.
Proof. split; [constructor|constructor|done|by left|done]. Qed.

(** Two callbacks with changes since they were called last. *)
Definition accumulated : notifier :=
  mkNotifier true 1 true true false
    [mkCallback (Some 10%Z) (sample_builder [] [(1, 2)]%Z [] []) empty_changeset 0 true false;
     mkCallback (Some 11%Z) empty_builder empty_changeset 1 true false] true npos 2 2 0 [].

(** User code registers a callback when it is called for the first time. *)
Definition registers_once (l : list call) : list op := if bool_decide (length l = 1) then [op_add 12] else [].

(** The callback 10 is removed when it is called. *)
Definition removes_itself (l : list call) : list op :=
  match last l with Some (call_before 10 _) => [op_remove 0] | _ => [] end.

Lemma registers_once_adds : only_adds registers_once 1.
Proof. intros l. unfold registers_once. by case_bool_decide; (split; [cbn; lia|repeat constructor]). Qed.

Lemma two_callbacks_deliverable : deliverable 1 two_callbacks.
Proof. split; [apply two_callbacks_ok|done|done|by repeat constructor|done]. Qed.

Lemma accumulated_deliverable : deliverable 1 accumulated.
Proof.
  split; [|done|done|by repeat constructor|done].
  split; [by apply (bool_decide_unpack (NoDup _)); vm_compute|by repeat constructor|done|by left|done].
Qed.

(** Two callbacks were registered and told, then the second was removed; the
    first had registered another one. *)
Definition one_registered : notifier :=
  match (n ← run_op on_thread (op_add 10) (new_notifier 1); n ← run_op on_thread (op_add 11) n;
         '(n, _) ← package_for_delivery true n; n ← after_advance on_thread registers_once n; run_op on_thread (op_remove 1) n) with
  | Some n => n
  | None => new_notifier 1
  end.

(** Two notifiers that are to be delivered. *)
Definition sample_store : store := {[0 := accumulated; 1 := two_callbacks]}.
Definition two_notifiers : NotifierPackage := mkPackage None [0; 1] true None.
