(* ===== verification/SyncConfig.v ===== *)
(** * The configuration of a sync session and its errors

    [SyncError] and [SyncConfig] (include/sync/sync_config.hpp, sync_config.cpp)
    and the codes of realm-sync that the sessions tell apart. *)

From stdpp Require Import strings.
From S2P Require Import Prelude.

#[local] Open Scope string_scope.

(** ** Errors *)

(** The category of a [std::error_code]; [other_category] is any other one. *)
Inductive error_category := protocol_error_category | client_error_category | other_category (name : string).

#[export] Instance error_category_eq_dec : EqDecision error_category.
Proof. solve_decision. Defined.

Record error_code := mkErrorCode { category : error_category; value : Z }.

#[export] Instance error_code_eq_dec : EqDecision error_code.
Proof. solve_decision. Defined.

(** [std::error_code{}] and [util::error::operation_aborted]. *)
Definition success : error_code := mkErrorCode (other_category "system") 0.
Definition operation_aborted : error_code := mkErrorCode (other_category "basic_system") 1.

Definition ProtocolError_connection_closed : Z := 100.
Definition ProtocolError_other_error : Z := 101.
Definition ProtocolError_session_closed : Z := 200.
Definition ProtocolError_other_session_error : Z := 201.
Definition ProtocolError_token_expired : Z := 202.
Definition ProtocolError_bad_authentication : Z := 203.
Definition ProtocolError_permission_denied : Z := 206.
Definition ProtocolError_bad_server_file_ident : Z := 207.
Definition ProtocolError_bad_client_file_ident : Z := 208.
Definition ProtocolError_bad_server_version : Z := 209.
Definition ProtocolError_diverging_histories : Z := 211.
Definition ProtocolError_disabled_session : Z := 213.
Definition ProtocolError_bad_origin_file_ident : Z := 216.
Definition ProtocolError_bad_client_file : Z := 217.
Definition ProtocolError_server_file_deleted : Z := 218.
Definition ProtocolError_client_file_blacklisted : Z := 219.
Definition ProtocolError_user_blacklisted : Z := 220.

Definition ClientError_connection_closed : Z := 100.
Definition ClientError_pong_timeout : Z := 118.

Record SyncError := mkSyncError {
  e_error_code : error_code;
  e_message : string;
  is_fatal : bool;
  user_info : gmap string string;
  is_unrecognized_by_client : bool;
}.

(** The constructor of [SyncError]. *)
Definition sync_error (code : error_code) (message : string) (fatal : bool) : SyncError :=
  mkSyncError code message fatal ∅ false.

Definition c_original_file_path_key : string := "ORIGINAL_FILE_PATH".
Definition c_recovery_file_path_key : string := "RECOVERY_FILE_PATH".

Definition with_user_info (key v : string) (e : SyncError) : SyncError :=
  mkSyncError (e_error_code e) (e_message e) (is_fatal e) (<[key := v]> (user_info e)) (is_unrecognized_by_client e).

Definition unrecognized (e : SyncError) : SyncError :=
  mkSyncError (e_error_code e) (e_message e) (is_fatal e) (user_info e) true.

Definition is_client_reset_requested (e : SyncError) : bool :=
  if bool_decide (category (e_error_code e) = protocol_error_category) then
    bool_decide (value (e_error_code e) = ProtocolError_bad_server_file_ident)
    || bool_decide (value (e_error_code e) = ProtocolError_bad_client_file_ident)
    || bool_decide (value (e_error_code e) = ProtocolError_bad_server_version)
    || bool_decide (value (e_error_code e) = ProtocolError_diverging_histories)
  else false.

(** ** Configuration *)

Inductive SyncSessionStopPolicy := Immediately | LiveIndefinitely | AfterChangesUploaded.
Inductive ClientResyncMode := Recover | DiscardLocal | Manual.

#[export] Instance stop_policy_eq_dec : EqDecision SyncSessionStopPolicy.
Proof. solve_decision. Defined.
#[export] Instance resync_mode_eq_dec : EqDecision ClientResyncMode.
Proof. solve_decision. Defined.

(** Pointers and functions of the application are numbers. [user] is a shared
    pointer. *)
Record SyncConfig := mkSyncConfig {
  user : option nat;
  reference_realm_url : string;
  stop_policy : SyncSessionStopPolicy;
  bind_session_handler : nat;
  error_handler : option nat;
  transformer : option nat;
  realm_encryption_key : option (list Z);
  client_validate_ssl : bool;
  ssl_trust_certificate_path : option string;
  ssl_verify_callback : option nat;
  proxy_config : option nat;
  is_partial : bool;
  custom_partial_sync_identifier : option string;
  validate_sync_history : bool;
  authorization_header_name : option string;
  custom_http_headers : list (string * string);
  url_prefix : option string;
  recovery_directory : option string;
  client_resync_mode : ClientResyncMode;
}.

Definition with_url_prefix (prefix : string) (c : SyncConfig) : SyncConfig :=
  mkSyncConfig (user c) (reference_realm_url c) (stop_policy c) (bind_session_handler c) (error_handler c)
    (transformer c) (realm_encryption_key c) (client_validate_ssl c) (ssl_trust_certificate_path c)
    (ssl_verify_callback c) (proxy_config c) (is_partial c) (custom_partial_sync_identifier c)
    (validate_sync_history c) (authorization_header_name c) (custom_http_headers c) (Some prefix) (recovery_directory c)
    (client_resync_mode c).

(** What the session asks of the rest of the program: users, files and the
    hash behind [partial_sync_identifier]. *)
Class Surroundings := {
  user_identity : nat -> string;
  partial_sync_identifier : nat -> string;
  recovery_file_path : option string -> string;
  has_metadata_manager : bool;
}.

Section config.
Context `{Build, Surroundings}.

(** [std::string::pop_back] for a string that ends in [/]. *)
Definition ends_with_slash (s : string) : bool :=
  bool_decide (String.substring (String.length s - 1) 1 s = "/").
Definition without_slash (s : string) : string :=
  if ends_with_slash s then String.substring 0 (String.length s - 1) s else s.

Definition realm_url (c : SyncConfig) : option string :=
  _ ← REALM_ASSERT (bool_decide (0 < String.length (reference_realm_url c)));
  _ ← REALM_ASSERT (bool_decide (is_Some (user c)));
  if negb (is_partial c) then Some (reference_realm_url c) else
  _ ← (if bool_decide (reference_realm_url c = "") then None else Some ());
  let base_url := without_slash (reference_realm_url c) in
  match custom_partial_sync_identifier c with
  | Some identifier => Some (base_url +:+ "/__partial/" +:+ identifier)
  | None => u ← user c; Some (base_url +:+ "/__partial/" +:+ user_identity u +:+ "/" +:+ partial_sync_identifier u)
  end.
End config.

(** ** The configuration of a session of the library *)

Record ClientReset := mkClientReset {
  metadata_dir : string;
  recover_local_changes : bool;
}.

Record SessionConfig := mkSessionConfig {
  s_changeset_cooker : option nat;
  s_encryption_key : option (list Z);
  s_verify_servers_ssl_certificate : bool;
  s_ssl_trust_certificate_path : option string;
  s_ssl_verify_callback : option nat;
  s_proxy_config : option nat;
  s_multiplex_ident : string;
  s_authorization_header_name : string;
  s_custom_http_headers : list (string * string);
  s_url_prefix : string;
  client_reset_config : option ClientReset;
}.

(** The configuration that [create_sync_session] builds. *)
Definition session_config (c : SyncConfig) (realm_path multiplex_identity : string)
    (force_client_resync : bool) : SessionConfig :=
  mkSessionConfig (transformer c) (realm_encryption_key c) (client_validate_ssl c)
    (ssl_trust_certificate_path c) (ssl_verify_callback c) (proxy_config c) multiplex_identity
    (default "Authorization" (authorization_header_name c)) (custom_http_headers c)
    (default "/realm-sync" (url_prefix c))
    (if force_client_resync then
       Some (mkClientReset (realm_path +:+ ".resync") (bool_decide (client_resync_mode c = Recover)))
     else None).
