(* ===== verification/SyncNotifiers.v ===== *)
(** * The notifiers of a sync session

    [SyncProgressNotifier] and [ConnectionChangeNotifier]
    (include/sync/sync_session.hpp, sync_session.cpp). A callback of the
    application is a number; what the source calls after the release of the
    lock of a notifier is a result of the operation. *)

From S2P Require Import Prelude.

(** ** Progress *)

Inductive NotifierType := upload | download.

#[export] Instance NotifierType_eq_dec : EqDecision NotifierType.
Proof. solve_decision. Defined.

Record Progress := mkProgress {
  uploadable : Z;
  downloadable : Z;
  uploaded : Z;
  downloaded : Z;
  snapshot_version : Z;
}.

Record NotifierPackage := mkNotifierPackage {
  notifier : nat;
  captured_transferrable : option Z;
  package_version : Z;
  is_streaming : bool;
  is_download : bool;
}.

Definition capture (transferrable : Z) (p : NotifierPackage) : NotifierPackage :=
  mkNotifierPackage (notifier p) (Some transferrable) (package_version p) (is_streaming p) (is_download p).

Record SyncProgressNotifier := mkSyncProgressNotifier {
  m_progress_notifier_token : Z;
  m_local_transaction_version : Z;
  m_current_progress : option Progress;
  m_packages : gmap Z NotifierPackage;
}.

Definition initial_progress_notifier : SyncProgressNotifier := mkSyncProgressNotifier 1 0 None ∅.

(** The order in which an unordered map is visited is not specified. *)
Class PackageOrder := {
  package_order : gmap Z NotifierPackage -> list (Z * NotifierPackage);
  package_order_perm : forall m, package_order m ≡ₚ map_to_list m;
}.

(** The function that [create_invocation] returns: [[]{}] or a call of the
    notifier. *)
Inductive invocation :=
  | no_call
  | call_notifier (n : nat) (transferred transferrable : Z).

(** What a notifier counts to. *)
Definition current_total (p : NotifierPackage) (current_progress : Progress) : Z :=
  if is_download p then downloadable current_progress else uploadable current_progress.

Definition invoke_with (p : NotifierPackage) (current_progress : Progress) (transferrable : Z) :
    NotifierPackage * invocation * bool :=
  let transferred := if is_download p then downloaded current_progress else uploaded current_progress in
  (p, call_notifier (notifier p) transferred transferrable,
   negb (is_streaming p) && bool_decide (transferrable <= transferred)%Z).

(** The package, the function, and [is_expired]. *)
Definition create_invocation (p : NotifierPackage) (current_progress : Progress) :
    NotifierPackage * invocation * bool :=
  if is_streaming p then invoke_with p current_progress (current_total p current_progress)
  else match captured_transferrable p with
  | Some transferrable => invoke_with p current_progress transferrable
  | None =>
      if negb (is_download p) && bool_decide (snapshot_version current_progress < package_version p)%Z
      then (p, no_call, false)
      else
        let total := current_total p current_progress in
        invoke_with (capture total p) current_progress total
  end.

(** [std::unordered_map::emplace] *)
Definition emplace (token : Z) (p : NotifierPackage) (m : gmap Z NotifierPackage) : gmap Z NotifierPackage :=
  match m !! token with Some _ => m | None => <[token := p]> m end.

Definition with_packages (m : gmap Z NotifierPackage) (s : SyncProgressNotifier) : SyncProgressNotifier :=
  mkSyncProgressNotifier (m_progress_notifier_token s) (m_local_transaction_version s) (m_current_progress s) m.

Definition next_progress_token (s : SyncProgressNotifier) : SyncProgressNotifier :=
  mkSyncProgressNotifier (m_progress_notifier_token s +! 1) (m_local_transaction_version s)
    (m_current_progress s) (m_packages s).

(** [register_callback] yields the token and what is invoked before it
    returns. *)
Definition register_callback (n : nat) (direction : NotifierType) (streaming : bool) (s : SyncProgressNotifier) :
    SyncProgressNotifier * Z * invocation :=
  let token_value := m_progress_notifier_token s in
  let s := next_progress_token s in
  let package := mkNotifierPackage n None (m_local_transaction_version s) streaming
                   (bool_decide (direction = download)) in
  match m_current_progress s with
  | None => (with_packages (emplace token_value package (m_packages s)) s, token_value, no_call)
  | Some current_progress =>
      let '(package, inv, skip_registration) := create_invocation package current_progress in
      if skip_registration : bool then (s, 0%Z, inv)
      else (with_packages (emplace token_value package (m_packages s)) s, token_value, inv)
  end.

Definition unregister_callback (token : Z) (s : SyncProgressNotifier) : SyncProgressNotifier :=
  with_packages (delete token (m_packages s)) s.

(** One iteration of the loop of [update]. *)
Definition update_package (current_progress : Progress) (entry : Z * NotifierPackage)
    (acc : gmap Z NotifierPackage * list invocation) : gmap Z NotifierPackage * list invocation :=
  let '(package, inv, should_delete) := create_invocation entry.2 current_progress in
  (if should_delete : bool then delete entry.1 acc.1 else <[entry.1 := package]> acc.1, acc.2 ++ [inv]).

Definition update_packages `{PackageOrder} (current_progress : Progress) (m : gmap Z NotifierPackage) :
    gmap Z NotifierPackage * list invocation :=
  foldl (λ acc entry, update_package current_progress entry acc) (m, []) (package_order m).

Definition update `{PackageOrder} (downloaded downloadable uploaded uploadable download_version snapshot_version : Z)
    (s : SyncProgressNotifier) : SyncProgressNotifier * list invocation :=
  if bool_decide (download_version = 0)%Z then (s, []) else
  let current_progress := mkProgress uploadable downloadable uploaded downloaded snapshot_version in
  let '(packages, invocations) := update_packages current_progress (m_packages s) in
  (mkSyncProgressNotifier (m_progress_notifier_token s) (m_local_transaction_version s)
     (Some current_progress) packages, invocations).

Definition set_local_version (version : Z) (s : SyncProgressNotifier) : SyncProgressNotifier :=
  mkSyncProgressNotifier (m_progress_notifier_token s) version (m_current_progress s) (m_packages s).

(** ** Changes of the connection *)

Record Callback := mkCallback { fn : nat; token : Z }.

#[export] Instance Callback_eq_dec : EqDecision Callback.
Proof. solve_decision. Defined.

Record ConnectionChangeNotifier := mkConnectionChangeNotifier {
  m_callbacks : list Callback;
  m_callback_index : Z;
  m_callback_count : Z;
  m_next_token : Z;
}.

Definition initial_connection_notifier : ConnectionChangeNotifier := mkConnectionChangeNotifier [] npos npos 0.

Definition add_callback (callback : nat) (s : ConnectionChangeNotifier) : ConnectionChangeNotifier * Z :=
  let token := m_next_token s in
  (mkConnectionChangeNotifier (m_callbacks s ++ [mkCallback callback token]) (m_callback_index s)
     (m_callback_count s) (token +! 1), token).

Definition remove_callback (t : Z) (s : ConnectionChangeNotifier) : ConnectionChangeNotifier :=
  match find_index (λ c, bool_decide (token c = t)) (m_callbacks s) with
  | None => s
  | Some idx =>
      mkConnectionChangeNotifier (vec_erase idx (m_callbacks s))
        (if bool_decide (m_callback_index s ≠ npos) && bool_decide (Z.of_nat idx <= m_callback_index s)%Z
         then m_callback_index s -! 1 else m_callback_index s)
        (m_callback_count s -! 1) (m_next_token s)
  end.

Definition with_index (i : Z) (s : ConnectionChangeNotifier) : ConnectionChangeNotifier :=
  mkConnectionChangeNotifier (m_callbacks s) i (m_callback_count s) (m_next_token s).

(** [++m_callback_index] and the test of the loop of [invoke_callbacks]: the
    callback to call, if the loop goes on. *)
Definition next_callback (s : ConnectionChangeNotifier) : option (ConnectionChangeNotifier * option nat) :=
  let s := with_index (m_callback_index s +! 1) s in
  if bool_decide (m_callback_index s < m_callback_count s)%Z then
    cb ← m_callbacks s !! Z.to_nat (m_callback_index s); Some (s, Some (fn cb))
  else Some (with_index npos s, None).

(** The start of [invoke_callbacks]. *)
Definition first_callback (s : ConnectionChangeNotifier) : option (ConnectionChangeNotifier * option nat) :=
  next_callback (mkConnectionChangeNotifier (m_callbacks s) (m_callback_index s)
                   (Z.of_nat (length (m_callbacks s))) (m_next_token s)).
