(* ===== verification/SyncSession.v ===== *)
(** * The sync session

    [SyncSession] (include/sync/sync_session.hpp, sync_session.cpp): its state,
    the states it moves through, and what it does in each of them.

    A method is a sequence of tasks. A task runs while the lock of the session
    (or of one of its notifiers) is held, or is a call that is made while no lock
    is held: a callback of the application, of the user or of the manager. Between
    two tasks of a method other threads, and the callback itself, may do anything
    that the session offers. The type of what follows the release of the lock is
    [lock]: a method of a state that still holds the lock when it returns yields
    [Held]. *)

From stdpp Require Import strings.
From S2P Require Import Prelude SyncConfig SyncNotifiers.

#[local] Open Scope string_scope.
#[local] Open Scope list_scope.

(** ** Data *)

(** The four instances of [SyncSession::State]. *)
Inductive State := WaitingForAccessToken | Active | Dying | Inactive.

#[export] Instance State_eq_dec : EqDecision State.
Proof. solve_decision. Defined.

Inductive ConnectionState := Disconnected | Connecting | Connected.

#[export] Instance ConnectionState_eq_dec : EqDecision ConnectionState.
Proof. solve_decision. Defined.

Record ServerOverride := mkServerOverride { address : string; port : Z }.

(** [m_session] is the identity of the session of the library, completion
    handlers are numbers, [m_external_reference] is the identity of the object
    the weak pointer was last set to. *)
Record SyncSession := mkSyncSession {
  m_state : State;
  m_connection_state : ConnectionState;
  m_death_count : Z;
  m_config : SyncConfig;
  m_force_client_resync : bool;
  m_realm_path : string;
  m_download_completion_callbacks : list nat;
  m_upload_completion_callbacks : list nat;
  m_client_resync_counter : Z;
  m_server_override : option ServerOverride;
  m_session : option nat;
  m_session_has_been_bound : bool;
  m_deferred_commit_notification : option Z;
  m_deferred_close : bool;
  m_server_url : option string;
  m_multiplex_identity : string;
  m_sync_transact_callback : option nat;
  m_progress_notifier : SyncProgressNotifier;
  m_connection_change_notifier : ConnectionChangeNotifier;
  m_external_reference : option nat;
}.

(** Assignments to the members. *)
Definition set_state (v : State) (s : SyncSession) : SyncSession :=
  mkSyncSession v (m_connection_state s) (m_death_count s) (m_config s) (m_force_client_resync s)
    (m_realm_path s) (m_download_completion_callbacks s) (m_upload_completion_callbacks s)
    (m_client_resync_counter s) (m_server_override s) (m_session s) (m_session_has_been_bound s)
    (m_deferred_commit_notification s) (m_deferred_close s) (m_server_url s) (m_multiplex_identity s)
    (m_sync_transact_callback s) (m_progress_notifier s) (m_connection_change_notifier s)
    (m_external_reference s).
Definition set_connection_state (v : ConnectionState) (s : SyncSession) : SyncSession :=
  mkSyncSession (m_state s) v (m_death_count s) (m_config s) (m_force_client_resync s) (m_realm_path s)
    (m_download_completion_callbacks s) (m_upload_completion_callbacks s) (m_client_resync_counter s)
    (m_server_override s) (m_session s) (m_session_has_been_bound s) (m_deferred_commit_notification s)
    (m_deferred_close s) (m_server_url s) (m_multiplex_identity s) (m_sync_transact_callback s)
    (m_progress_notifier s) (m_connection_change_notifier s) (m_external_reference s).
Definition set_death_count (v : Z) (s : SyncSession) : SyncSession :=
  mkSyncSession (m_state s) (m_connection_state s) v (m_config s) (m_force_client_resync s) (m_realm_path s)
    (m_download_completion_callbacks s) (m_upload_completion_callbacks s) (m_client_resync_counter s)
    (m_server_override s) (m_session s) (m_session_has_been_bound s) (m_deferred_commit_notification s)
    (m_deferred_close s) (m_server_url s) (m_multiplex_identity s) (m_sync_transact_callback s)
    (m_progress_notifier s) (m_connection_change_notifier s) (m_external_reference s).
Definition set_config (v : SyncConfig) (s : SyncSession) : SyncSession :=
  mkSyncSession (m_state s) (m_connection_state s) (m_death_count s) v (m_force_client_resync s)
    (m_realm_path s) (m_download_completion_callbacks s) (m_upload_completion_callbacks s)
    (m_client_resync_counter s) (m_server_override s) (m_session s) (m_session_has_been_bound s)
    (m_deferred_commit_notification s) (m_deferred_close s) (m_server_url s) (m_multiplex_identity s)
    (m_sync_transact_callback s) (m_progress_notifier s) (m_connection_change_notifier s)
    (m_external_reference s).
Definition set_force_client_resync (v : bool) (s : SyncSession) : SyncSession :=
  mkSyncSession (m_state s) (m_connection_state s) (m_death_count s) (m_config s) v (m_realm_path s)
    (m_download_completion_callbacks s) (m_upload_completion_callbacks s) (m_client_resync_counter s)
    (m_server_override s) (m_session s) (m_session_has_been_bound s) (m_deferred_commit_notification s)
    (m_deferred_close s) (m_server_url s) (m_multiplex_identity s) (m_sync_transact_callback s)
    (m_progress_notifier s) (m_connection_change_notifier s) (m_external_reference s).
Definition set_download_completion_callbacks (v : list nat) (s : SyncSession) : SyncSession :=
  mkSyncSession (m_state s) (m_connection_state s) (m_death_count s) (m_config s) (m_force_client_resync s)
    (m_realm_path s) v (m_upload_completion_callbacks s) (m_client_resync_counter s) (m_server_override s)
    (m_session s) (m_session_has_been_bound s) (m_deferred_commit_notification s) (m_deferred_close s)
    (m_server_url s) (m_multiplex_identity s) (m_sync_transact_callback s) (m_progress_notifier s)
    (m_connection_change_notifier s) (m_external_reference s).
Definition set_upload_completion_callbacks (v : list nat) (s : SyncSession) : SyncSession :=
  mkSyncSession (m_state s) (m_connection_state s) (m_death_count s) (m_config s) (m_force_client_resync s)
    (m_realm_path s) (m_download_completion_callbacks s) v (m_client_resync_counter s) (m_server_override s)
    (m_session s) (m_session_has_been_bound s) (m_deferred_commit_notification s) (m_deferred_close s)
    (m_server_url s) (m_multiplex_identity s) (m_sync_transact_callback s) (m_progress_notifier s)
    (m_connection_change_notifier s) (m_external_reference s).
Definition set_client_resync_counter (v : Z) (s : SyncSession) : SyncSession :=
  mkSyncSession (m_state s) (m_connection_state s) (m_death_count s) (m_config s) (m_force_client_resync s)
    (m_realm_path s) (m_download_completion_callbacks s) (m_upload_completion_callbacks s) v
    (m_server_override s) (m_session s) (m_session_has_been_bound s) (m_deferred_commit_notification s)
    (m_deferred_close s) (m_server_url s) (m_multiplex_identity s) (m_sync_transact_callback s)
    (m_progress_notifier s) (m_connection_change_notifier s) (m_external_reference s).
Definition set_server_override (v : option ServerOverride) (s : SyncSession) : SyncSession :=
  mkSyncSession (m_state s) (m_connection_state s) (m_death_count s) (m_config s) (m_force_client_resync s)
    (m_realm_path s) (m_download_completion_callbacks s) (m_upload_completion_callbacks s)
    (m_client_resync_counter s) v (m_session s) (m_session_has_been_bound s) (m_deferred_commit_notification s)
    (m_deferred_close s) (m_server_url s) (m_multiplex_identity s) (m_sync_transact_callback s)
    (m_progress_notifier s) (m_connection_change_notifier s) (m_external_reference s).
Definition set_session (v : option nat) (s : SyncSession) : SyncSession :=
  mkSyncSession (m_state s) (m_connection_state s) (m_death_count s) (m_config s) (m_force_client_resync s)
    (m_realm_path s) (m_download_completion_callbacks s) (m_upload_completion_callbacks s)
    (m_client_resync_counter s) (m_server_override s) v (m_session_has_been_bound s)
    (m_deferred_commit_notification s) (m_deferred_close s) (m_server_url s) (m_multiplex_identity s)
    (m_sync_transact_callback s) (m_progress_notifier s) (m_connection_change_notifier s)
    (m_external_reference s).
Definition set_session_has_been_bound (v : bool) (s : SyncSession) : SyncSession :=
  mkSyncSession (m_state s) (m_connection_state s) (m_death_count s) (m_config s) (m_force_client_resync s)
    (m_realm_path s) (m_download_completion_callbacks s) (m_upload_completion_callbacks s)
    (m_client_resync_counter s) (m_server_override s) (m_session s) v (m_deferred_commit_notification s)
    (m_deferred_close s) (m_server_url s) (m_multiplex_identity s) (m_sync_transact_callback s)
    (m_progress_notifier s) (m_connection_change_notifier s) (m_external_reference s).
Definition set_deferred_commit_notification (v : option Z) (s : SyncSession) : SyncSession :=
  mkSyncSession (m_state s) (m_connection_state s) (m_death_count s) (m_config s) (m_force_client_resync s)
    (m_realm_path s) (m_download_completion_callbacks s) (m_upload_completion_callbacks s)
    (m_client_resync_counter s) (m_server_override s) (m_session s) (m_session_has_been_bound s) v
    (m_deferred_close s) (m_server_url s) (m_multiplex_identity s) (m_sync_transact_callback s)
    (m_progress_notifier s) (m_connection_change_notifier s) (m_external_reference s).
Definition set_deferred_close (v : bool) (s : SyncSession) : SyncSession :=
  mkSyncSession (m_state s) (m_connection_state s) (m_death_count s) (m_config s) (m_force_client_resync s)
    (m_realm_path s) (m_download_completion_callbacks s) (m_upload_completion_callbacks s)
    (m_client_resync_counter s) (m_server_override s) (m_session s) (m_session_has_been_bound s)
    (m_deferred_commit_notification s) v (m_server_url s) (m_multiplex_identity s) (m_sync_transact_callback s)
    (m_progress_notifier s) (m_connection_change_notifier s) (m_external_reference s).
Definition set_server_url (v : option string) (s : SyncSession) : SyncSession :=
  mkSyncSession (m_state s) (m_connection_state s) (m_death_count s) (m_config s) (m_force_client_resync s)
    (m_realm_path s) (m_download_completion_callbacks s) (m_upload_completion_callbacks s)
    (m_client_resync_counter s) (m_server_override s) (m_session s) (m_session_has_been_bound s)
    (m_deferred_commit_notification s) (m_deferred_close s) v (m_multiplex_identity s)
    (m_sync_transact_callback s) (m_progress_notifier s) (m_connection_change_notifier s)
    (m_external_reference s).
Definition set_multiplex_identity (v : string) (s : SyncSession) : SyncSession :=
  mkSyncSession (m_state s) (m_connection_state s) (m_death_count s) (m_config s) (m_force_client_resync s)
    (m_realm_path s) (m_download_completion_callbacks s) (m_upload_completion_callbacks s)
    (m_client_resync_counter s) (m_server_override s) (m_session s) (m_session_has_been_bound s)
    (m_deferred_commit_notification s) (m_deferred_close s) (m_server_url s) v (m_sync_transact_callback s)
    (m_progress_notifier s) (m_connection_change_notifier s) (m_external_reference s).
Definition set_sync_transact_callback (v : option nat) (s : SyncSession) : SyncSession :=
  mkSyncSession (m_state s) (m_connection_state s) (m_death_count s) (m_config s) (m_force_client_resync s)
    (m_realm_path s) (m_download_completion_callbacks s) (m_upload_completion_callbacks s)
    (m_client_resync_counter s) (m_server_override s) (m_session s) (m_session_has_been_bound s)
    (m_deferred_commit_notification s) (m_deferred_close s) (m_server_url s) (m_multiplex_identity s) v
    (m_progress_notifier s) (m_connection_change_notifier s) (m_external_reference s).
Definition set_progress_notifier (v : SyncProgressNotifier) (s : SyncSession) : SyncSession :=
  mkSyncSession (m_state s) (m_connection_state s) (m_death_count s) (m_config s) (m_force_client_resync s)
    (m_realm_path s) (m_download_completion_callbacks s) (m_upload_completion_callbacks s)
    (m_client_resync_counter s) (m_server_override s) (m_session s) (m_session_has_been_bound s)
    (m_deferred_commit_notification s) (m_deferred_close s) (m_server_url s) (m_multiplex_identity s)
    (m_sync_transact_callback s) v (m_connection_change_notifier s) (m_external_reference s).
Definition set_connection_change_notifier (v : ConnectionChangeNotifier) (s : SyncSession) : SyncSession :=
  mkSyncSession (m_state s) (m_connection_state s) (m_death_count s) (m_config s) (m_force_client_resync s)
    (m_realm_path s) (m_download_completion_callbacks s) (m_upload_completion_callbacks s)
    (m_client_resync_counter s) (m_server_override s) (m_session s) (m_session_has_been_bound s)
    (m_deferred_commit_notification s) (m_deferred_close s) (m_server_url s) (m_multiplex_identity s)
    (m_sync_transact_callback s) (m_progress_notifier s) v (m_external_reference s).
Definition set_external_reference (v : option nat) (s : SyncSession) : SyncSession :=
  mkSyncSession (m_state s) (m_connection_state s) (m_death_count s) (m_config s) (m_force_client_resync s)
    (m_realm_path s) (m_download_completion_callbacks s) (m_upload_completion_callbacks s)
    (m_client_resync_counter s) (m_server_override s) (m_session s) (m_session_has_been_bound s)
    (m_deferred_commit_notification s) (m_deferred_close s) (m_server_url s) (m_multiplex_identity s)
    (m_sync_transact_callback s) (m_progress_notifier s) (m_connection_change_notifier s) v.

(** What the library calls when a wait ends: the function that
    [Dying::enter_state] or the one that [add_completion_callback] passes. *)
Inductive handler :=
  | death_handler (current_death_count : Z)
  | completion_handler (resync_counter : Z) (direction : NotifierType).

#[export] Instance handler_eq_dec : EqDecision handler.
Proof. solve_decision. Defined.

(** A wait that a session of the library has not ended yet. *)
Record Wait := mkWait { w_session : nat; w_direction : NotifierType; w_handler : handler }.

Inductive ShouldBackup := backup_yes | backup_no.
Inductive NextStateAfterError := next_none | next_inactive | next_error.

(** What the session does that others see: the changes of its state, the calls
    of the library, of the application and of the rest of the program. *)
Inductive event :=
  | ev_state (old new : State)
  | ev_make_session (id : nat) (config : SessionConfig)
  | ev_destroy_session (id : nat)
  | ev_bind (id : nat) (server_url access_token : string)
  | ev_refresh (id : nat) (access_token : string)
  | ev_cancel_reconnect_delay (id : nat)
  | ev_override_server (id : nat) (server : ServerOverride)
  | ev_nonsync_transact_notify (id : nat) (version : Z)
  | ev_bind_session_handler (handler : nat) (config : SyncConfig)
  | ev_waiting (direction : NotifierType) (callback : nat)
  | ev_completed (callback : nat) (ec : error_code)
  | ev_discarded (callback : nat)
  | ev_connection_change (callback : nat) (old new : ConnectionState)
  | ev_progress (n : nat) (transferred transferrable : Z)
  | ev_sync_transact (callback : nat) (old new : Z)
  | ev_error (handler : nat) (error : SyncError)
  | ev_invalidate_user (u : nat)
  | ev_file_action (original_path url identity : string) (backup : ShouldBackup) (recovery_path : string)
  | ev_returned (result : Z).

(** What a thread that executes a method still has to do. *)
Inductive task :=
  (* the methods of the session *)
  | Wait_for_completion (direction : NotifierType) (callback : nat)
  | Register_progress_notifier (n : nat) (direction : NotifierType) (streaming : bool)
  | Unregister_progress_notifier (t : Z)
  | Register_connection_change_callback (callback : nat)
  | Unregister_connection_change_callback (t : Z)
  | Revive_if_needed
  | Handle_reconnect
  | Refresh_access_token (access_token : string) (server_url : option string)
  | Set_multiplex_identifier (identity : string)
  | Set_url_prefix (prefix : string)
  | Close
  | Log_out
  | Override_server (server : ServerOverride)
  | Update_configuration (new_config : SyncConfig)
  | External_reference
  | Did_drop_external_reference
  | Set_sync_transact_callback (callback : option nat)
  | Nonsync_transact_notify (version : Z)
  (* the functions passed to the library *)
  | Wait_ended (h : handler) (ec : error_code)
  | Connection_state_changed (state : ConnectionState) (error : option SyncError)
  | Progress_changed (downloaded downloadable uploaded uploadable progress_version snapshot_version : Z)
  | Sync_transacted (old new : Z)
  (* the rest of a method after a release of the lock *)
  | Nonsync_transact_notify_locked (version : Z)
  | Notify_disconnected (old : ConnectionState)
  | Invoke_callbacks (old new : ConnectionState)
  | Continue_callbacks (old new : ConnectionState)
  | Handle_error (error : SyncError)
  | Handle_unclaimed_error (error : SyncError)
  | Start_resync
  | Restore_callbacks (download_handlers upload_handlers : list nat)
  | Access_token_expired
  | Reject_authentication (error : SyncError)
  | Mark_file (error : SyncError) (should_backup : ShouldBackup)
  | Finish_error (next_state : NextStateAfterError) (error : SyncError)
  (* the calls *)
  | Call_bind_session_handler
  | Call_completion (callback : nat) (ec : error_code)
  | Call_connection_callback (callback : nat) (old new : ConnectionState)
  | Call_progress (i : invocation)
  | Call_error_handler (error : SyncError)
  | Invalidate_user (u : nat)
  | Unregister_session.

Inductive lock := Held | Released (rest : list task).

(** The session; whether the manager has it in [m_sessions]; the external
    references that exist; the waits of the library; what has happened. *)
Record World := mkWorld {
  session : SyncSession;
  m_sessions : bool;
  references : list nat;
  next_reference : nat;
  waits : list Wait;
  next_session : nat;
  trace : list event;
}.

(** A section of code on the world, [None] if it asserts or dereferences a null
    pointer. *)
Definition M (A : Type) : Type := World -> option (World * A).

#[export] Instance M_ret : MRet M := λ A a w, Some (w, a).
#[export] Instance M_bind : MBind M := λ A B f m w,
  match m w with Some (w, a) => f a w | None => None end.

Definition lift {A} (o : option A) : M A := λ w, match o with Some a => Some (w, a) | None => None end.
Definition get {A} (f : SyncSession -> A) : M A := λ w, Some (w, f (session w)).

Definition modify (f : SyncSession -> SyncSession) : M unit := λ w,
  Some (mkWorld (f (session w)) (m_sessions w) (references w) (next_reference w) (waits w) (next_session w) (trace w), tt).
Definition emit_all (l : list event) : M unit := λ w,
  Some (mkWorld (session w) (m_sessions w) (references w) (next_reference w) (waits w) (next_session w) (trace w ++ l), tt).
Definition emit (e : event) : M unit := emit_all [e].
Definition add_wait (x : Wait) : M unit := λ w,
  Some (mkWorld (session w) (m_sessions w) (references w) (next_reference w) (waits w ++ [x]) (next_session w) (trace w), tt).
Definition new_session : M nat := λ w,
  Some (mkWorld (session w) (m_sessions w) (references w) (next_reference w) (waits w) (S (next_session w)) (trace w),
        next_session w).
Definition new_reference : M nat := λ w,
  Some (mkWorld (session w) (m_sessions w) (next_reference w :: references w) (S (next_reference w)) (waits w)
          (next_session w) (trace w), next_reference w).
Definition set_sessions (b : bool) : M unit := λ w,
  Some (mkWorld (session w) b (references w) (next_reference w) (waits w) (next_session w) (trace w), tt).

(** What follows the section: the rest of it if the lock has been released, then
    [k]. *)
Definition after (l : lock) (k : list task) : list task :=
  match l with Held => k | Released rest => rest ++ k end.

(** The section goes on with the lock. *)
Definition while_held {A} (l : lock) (k : M A) : M A :=
  match l with Held => k | Released _ => λ _, None end.

Section session.
Context `{Build, Surroundings, PackageOrder}.

Definition assert (b : bool) : M unit := lift (REALM_ASSERT b).

(** [m_session->], [*m_session] *)
Definition the_session : M nat := s ← get m_session; lift s.

(** ** The library *)

Definition async_wait_for_completion (direction : NotifierType) (h : handler) : M unit :=
  s ← the_session; add_wait (mkWait s direction h).

Definition create_sync_session : M unit :=
  s ← get m_session;
  match s with
  | Some _ => mret tt
  | None =>
      config ← get m_config;
      path ← get m_realm_path;
      ident ← get m_multiplex_identity;
      force ← get m_force_client_resync;
      id ← new_session;
      _ ← emit (ev_make_session id (session_config config path ident force));
      _ ← modify (set_session (Some id));
      modify (set_session_has_been_bound false)
  end.

(** [m_session = nullptr] *)
Definition destroy_session : M unit :=
  s ← get m_session;
  _ ← modify (set_session None);
  match s with Some id => emit (ev_destroy_session id) | None => mret tt end.

Definition add_completion_callback (direction : NotifierType) : M unit :=
  resync_counter ← get m_client_resync_counter;
  async_wait_for_completion direction (completion_handler resync_counter direction).

(** ** Changes of state *)

(** [advance_state] into a state with the given [enter_state]. That the lock is
    owned is what makes the section run. *)
Definition advance_into (state : State) (enter_state : M lock) : M lock :=
  old ← get m_state;
  _ ← assert (bool_decide (state ≠ old));
  _ ← modify (set_state state);
  _ ← emit (ev_state old state);
  enter_state.

Definition unregister : M lock :=
  state ← get m_state;
  _ ← assert (bool_decide (state = Inactive));
  mret (Released [Unregister_session]).

Definition abort (callbacks : list nat) : list task := (λ c, Call_completion c operation_aborted) <$> callbacks.

Definition Inactive_enter_state : M lock :=
  old_state ← get m_connection_state;
  _ ← modify (set_connection_state Disconnected);
  download_waits ← get m_download_completion_callbacks;
  upload_waits ← get m_upload_completion_callbacks;
  _ ← modify (set_download_completion_callbacks []);
  _ ← modify (set_upload_completion_callbacks []);
  _ ← destroy_session;
  l ← unregister;
  mret (Released (after l ((if bool_decide (old_state ≠ Disconnected) then [Notify_disconnected old_state] else [])
                           ++ abort download_waits ++ abort upload_waits))).

Definition WaitingForAccessToken_enter_state : M lock :=
  _ ← modify (set_deferred_close false); mret Held.

Definition Active_enter_state : M lock :=
  upload_waits ← get m_upload_completion_callbacks;
  _ ← (if bool_decide (upload_waits ≠ []) then add_completion_callback upload else mret tt);
  download_waits ← get m_download_completion_callbacks;
  _ ← (if bool_decide (download_waits ≠ []) then add_completion_callback download else mret tt);
  mret Held.

Definition Dying_enter_state : M lock :=
  s ← get m_session;
  match s with
  | None => advance_into Inactive Inactive_enter_state
  | Some _ =>
      count ← get m_death_count;
      let current_death_count := count +! 1 in
      _ ← modify (set_death_count current_death_count);
      _ ← async_wait_for_completion upload (death_handler current_death_count);
      mret Held
  end.

Definition enter_state (state : State) : M lock :=
  match state with
  | WaitingForAccessToken => WaitingForAccessToken_enter_state
  | Active => Active_enter_state
  | Dying => Dying_enter_state
  | Inactive => Inactive_enter_state
  end.

Definition advance_state (state : State) : M lock := advance_into state (enter_state state).

(** ** What a state does with the calls of a session

    A method of [State] that a state does not override does nothing. *)

Definition WaitingForAccessToken_close : M lock :=
  policy ← get (λ s, stop_policy (m_config s));
  match policy with
  | Immediately => advance_state Inactive
  | LiveIndefinitely | AfterChangesUploaded => _ ← modify (set_deferred_close true); mret Held
  end.

Definition Active_close : M lock :=
  policy ← get (λ s, stop_policy (m_config s));
  match policy with
  | Immediately => advance_state Inactive
  | LiveIndefinitely => mret Held
  | AfterChangesUploaded => advance_state Dying
  end.

Definition Inactive_close : M lock := unregister.

Definition State_close (state : State) : M lock :=
  match state with
  | WaitingForAccessToken => WaitingForAccessToken_close
  | Active => Active_close
  | Dying => mret Held
  | Inactive => Inactive_close
  end.

Definition close_now : M lock := state ← get m_state; State_close state.

(** [WaitingForAccessToken::refresh_access_token]: the session is created and
    bound, or its token refreshed; *)
Definition bind_session (access_token : string) (server_url : option string) : M nat :=
  _ ← create_sync_session;
  url ← get m_server_url;
  _ ← modify (set_server_url (match url with None => server_url | Some _ => url end));
  bound ← get m_session_has_been_bound;
  s ← the_session;
  _ ← (if bound : bool then
         _ ← emit (ev_refresh s access_token);
         emit (ev_cancel_reconnect_delay s)
       else
         url ← get m_server_url;
         url ← lift url;
         _ ← emit (ev_bind s url access_token);
         modify (set_session_has_been_bound true));
  mret s.

(** it is told what has been deferred; *)
Definition announce_deferred (s : nat) : M unit :=
  server ← get m_server_override;
  _ ← (match server with Some server => emit (ev_override_server s server) | None => mret tt end);
  version ← get m_deferred_commit_notification;
  match version with
  | Some version =>
      _ ← emit (ev_nonsync_transact_notify s version);
      modify (set_deferred_commit_notification None)
  | None => mret tt
  end.

(** then the state changes. *)
Definition WaitingForAccessToken_refresh_access_token (access_token : string) (server_url : option string) : M lock :=
  s ← bind_session access_token server_url;
  _ ← announce_deferred s;
  l ← advance_state Active;
  while_held l (
    deferred_close ← get m_deferred_close;
    if deferred_close : bool then close_now else mret Held).

Definition Active_refresh_access_token (access_token : string) : M lock :=
  s ← the_session;
  _ ← emit (ev_refresh s access_token);
  _ ← emit (ev_cancel_reconnect_delay s);
  mret Held.

Definition State_refresh_access_token (state : State) (access_token : string) (server_url : option string) : M lock :=
  match state with
  | WaitingForAccessToken => WaitingForAccessToken_refresh_access_token access_token server_url
  | Active => Active_refresh_access_token access_token
  | Dying | Inactive => mret Held
  end.

Definition Active_access_token_expired : M lock :=
  l ← advance_state WaitingForAccessToken;
  while_held l (mret (Released [Call_bind_session_handler])).

Definition State_access_token_expired (state : State) : M lock :=
  match state with
  | Active => Active_access_token_expired
  | _ => mret Held
  end.

Definition WaitingForAccessToken_log_out : M lock := advance_state Inactive.
Definition Active_log_out : M lock := advance_state Inactive.
Definition Dying_log_out : M lock := advance_state Inactive.

Definition State_log_out (state : State) : M lock :=
  match state with
  | WaitingForAccessToken => WaitingForAccessToken_log_out
  | Active => Active_log_out
  | Dying => Dying_log_out
  | Inactive => mret Held
  end.

(** The results say whether to ask for a token. *)
Definition WaitingForAccessToken_revive_if_needed : M (lock * bool) :=
  _ ← modify (set_deferred_close false); mret (Held, false).
Definition Dying_revive_if_needed : M (lock * bool) := l ← advance_state Active; mret (l, false).
Definition Inactive_revive_if_needed : M (lock * bool) := l ← advance_state WaitingForAccessToken; mret (l, true).

Definition State_revive_if_needed (state : State) : M (lock * bool) :=
  match state with
  | WaitingForAccessToken => WaitingForAccessToken_revive_if_needed
  | Active => mret (Held, false)
  | Dying => Dying_revive_if_needed
  | Inactive => Inactive_revive_if_needed
  end.

Definition WaitingForAccessToken_handle_reconnect : M lock := mret (Released [Call_bind_session_handler]).
Definition Active_handle_reconnect : M lock :=
  s ← the_session; _ ← emit (ev_cancel_reconnect_delay s); mret Held.

Definition State_handle_reconnect (state : State) : M lock :=
  match state with
  | WaitingForAccessToken => WaitingForAccessToken_handle_reconnect
  | Active => Active_handle_reconnect
  | Dying | Inactive => mret Held
  end.

Definition WaitingForAccessToken_nonsync_transact_notify (version : Z) : M unit :=
  modify (set_deferred_commit_notification (Some version)).
Definition Active_nonsync_transact_notify (version : Z) : M unit :=
  s ← the_session; emit (ev_nonsync_transact_notify s version).

Definition State_nonsync_transact_notify (state : State) (version : Z) : M unit :=
  match state with
  | WaitingForAccessToken => WaitingForAccessToken_nonsync_transact_notify version
  | Active => Active_nonsync_transact_notify version
  | Dying | Inactive => mret tt
  end.

Definition Active_wait_for_completion (direction : NotifierType) : M unit :=
  s ← get m_session;
  _ ← assert (bool_decide (is_Some s));
  add_completion_callback direction.
Definition Dying_wait_for_completion (direction : NotifierType) : M unit :=
  s ← get m_session;
  _ ← assert (bool_decide (is_Some s));
  add_completion_callback direction.

Definition State_wait_for_completion (state : State) (direction : NotifierType) : M unit :=
  match state with
  | Active => Active_wait_for_completion direction
  | Dying => Dying_wait_for_completion direction
  | WaitingForAccessToken | Inactive => mret tt
  end.

Definition WaitingForAccessToken_override_server (server : ServerOverride) : M unit :=
  modify (set_server_override (Some server)).
Definition Active_override_server (server : ServerOverride) : M unit :=
  _ ← modify (set_server_override (Some server));
  s ← the_session;
  emit (ev_override_server s server).
Definition Dying_override_server (server : ServerOverride) : M unit :=
  _ ← modify (set_server_override (Some server));
  s ← the_session;
  emit (ev_override_server s server).
Definition Inactive_override_server (server : ServerOverride) : M unit :=
  modify (set_server_override (Some server)).

Definition State_override_server (state : State) (server : ServerOverride) : M unit :=
  match state with
  | WaitingForAccessToken => WaitingForAccessToken_override_server server
  | Active => Active_override_server server
  | Dying => Dying_override_server server
  | Inactive => Inactive_override_server server
  end.

(** The result says whether the state takes care of the error. *)
Definition Dying_handle_error (error : SyncError) : M (lock * bool) :=
  if is_fatal error then l ← advance_state Inactive; mret (l, true)
  else mret (Held, true).

Definition State_handle_error (state : State) (error : SyncError) : M (lock * bool) :=
  match state with
  | Dying => Dying_handle_error error
  | _ => mret (Held, false)
  end.

(** ** Completion handlers *)

Definition callbacks (direction : NotifierType) (s : SyncSession) : list nat :=
  match direction with
  | upload => m_upload_completion_callbacks s
  | download => m_download_completion_callbacks s
  end.
Definition set_callbacks (direction : NotifierType) (l : list nat) : SyncSession -> SyncSession :=
  match direction with
  | upload => set_upload_completion_callbacks l
  | download => set_download_completion_callbacks l
  end.

(** [wait_for_upload_completion] and [wait_for_download_completion] *)
Definition wait_for_completion (direction : NotifierType) (callback : nat) : M (list task) :=
  queued ← get (callbacks direction);
  state ← get m_state;
  _ ← (if bool_decide (queued = []) then State_wait_for_completion state direction else mret tt);
  _ ← emit (ev_waiting direction callback);
  _ ← modify (set_callbacks direction (queued ++ [callback]));
  mret [].

(** The function that [add_completion_callback] passes to the library. *)
Definition completion_ended (resync_counter : Z) (direction : NotifierType) (ec : error_code) : M (list task) :=
  counter ← get m_client_resync_counter;
  if bool_decide (resync_counter ≠ counter) then mret [] else
  queued ← get (callbacks direction);
  _ ← modify (set_callbacks direction []);
  mret ((λ c, Call_completion c ec) <$> queued).

(** The function that [Dying::enter_state] passes to the library. *)
Definition death_ended (current_death_count : Z) : M (list task) :=
  state ← get m_state;
  count ← get m_death_count;
  if bool_decide (state = Dying) && bool_decide (count = current_death_count) then
    l ← advance_state Inactive; mret (after l [])
  else mret [].

Definition cancel_pending_waits : M (list task) :=
  download_waits ← get m_download_completion_callbacks;
  upload_waits ← get m_upload_completion_callbacks;
  _ ← modify (set_download_completion_callbacks []);
  _ ← modify (set_upload_completion_callbacks []);
  mret (abort download_waits ++ abort upload_waits).

(** ** Errors *)

Definition update_error_and_mark_file_for_deletion (error : SyncError) (should_backup : ShouldBackup) : M SyncError :=
  original_path ← get m_realm_path;
  config ← get m_config;
  let error := with_user_info c_original_file_path_key original_path error in
  let recovery_path := match should_backup with backup_yes => recovery_file_path (recovery_directory config) | backup_no => "" end in
  let error := match should_backup with
               | backup_yes => with_user_info c_recovery_file_path_key recovery_path error
               | backup_no => error
               end in
  _ ← (if has_metadata_manager then
         url ← lift (realm_url config);
         u ← lift (user config);
         emit (ev_file_action original_path url (user_identity u) should_backup recovery_path)
       else mret tt);
  mret error.

(** The rest of [handle_error] when the state does not take care of the error, up
    to what is done about it. *)
Definition handle_unclaimed_error (error : SyncError) : M (list task) :=
  config ← get m_config;
  let next_state := if is_fatal error then next_error else next_none in
  let code := value (e_error_code error) in
  if is_client_reset_requested error && bool_decide (client_resync_mode config ≠ Manual) then mret [Start_resync]
  else match category (e_error_code error) with
  | protocol_error_category =>
      if bool_decide (code ∈ [ProtocolError_connection_closed; ProtocolError_other_error;
                              ProtocolError_session_closed; ProtocolError_other_session_error;
                              ProtocolError_disabled_session]) then mret []
      else if bool_decide (code = ProtocolError_token_expired) then mret [Access_token_expired]
      else if bool_decide (code = ProtocolError_bad_authentication) then mret [Reject_authentication error]
      else if bool_decide (code = ProtocolError_permission_denied) then mret [Mark_file error backup_no]
      else if bool_decide (code ∈ [ProtocolError_bad_client_file; ProtocolError_bad_client_file_ident;
                                   ProtocolError_bad_origin_file_ident; ProtocolError_bad_server_file_ident;
                                   ProtocolError_bad_server_version; ProtocolError_client_file_blacklisted;
                                   ProtocolError_diverging_histories; ProtocolError_server_file_deleted;
                                   ProtocolError_user_blacklisted]) then mret [Mark_file error backup_yes]
      else mret [Finish_error next_state error]
  | client_error_category =>
      if bool_decide (code ∈ [ClientError_connection_closed; ClientError_pong_timeout]) then mret []
      else mret [Finish_error next_state error]
  | other_category _ => mret [Finish_error next_state (unrecognized error)]
  end.

(** [++m_client_resync_counter] on an [int] that must not overflow. *)
Definition next_resync_counter (counter : Z) : option Z :=
  if bool_decide (counter < 2 ^ 31 - 1)%Z then Some (counter + 1)%Z else None.

Definition start_resync : M (list task) :=
  _ ← modify (set_force_client_resync true);
  counter ← get m_client_resync_counter;
  counter ← lift (next_resync_counter counter);
  _ ← modify (set_client_resync_counter counter);
  download_handlers ← get m_download_completion_callbacks;
  upload_handlers ← get m_upload_completion_callbacks;
  _ ← modify (set_download_completion_callbacks []);
  _ ← modify (set_upload_completion_callbacks []);
  l ← advance_state Inactive;
  mret (after l [Restore_callbacks download_handlers upload_handlers; Revive_if_needed]).

(** The assignment to a vector destroys its elements. *)
Definition restore_callbacks (download_handlers upload_handlers : list nat) : M (list task) :=
  download_waits ← get m_download_completion_callbacks;
  upload_waits ← get m_upload_completion_callbacks;
  _ ← emit_all (ev_discarded <$> download_waits ++ upload_waits);
  _ ← modify (set_download_completion_callbacks download_handlers);
  _ ← modify (set_upload_completion_callbacks upload_handlers);
  mret [].

Definition reject_authentication (error : SyncError) : M (list task) :=
  user_to_invalidate ← get (λ s, user (m_config s));
  rest ← cancel_pending_waits;
  mret (rest ++ match user_to_invalidate with Some u => [Invalidate_user u] | None => [] end
             ++ [Finish_error next_none error]).

Definition finish_error (next_state : NextStateAfterError) (error : SyncError) : M (list task) :=
  match next_state with
  | next_none => mret [Call_error_handler error]
  | next_inactive => l ← advance_state Inactive; mret (after l [Call_error_handler error])
  | next_error => rest ← cancel_pending_waits; mret (rest ++ [Call_error_handler error])
  end.

(** ** Notifiers *)

Definition callbacks_loop (old new : ConnectionState) (r : option (ConnectionChangeNotifier * option nat)) : M (list task) :=
  r ← lift r;
  _ ← modify (set_connection_change_notifier r.1);
  mret (match r.2 with
        | Some cb => [Call_connection_callback cb old new; Continue_callbacks old new]
        | None => []
        end).

Definition invoke_callbacks (old new : ConnectionState) : M (list task) :=
  n ← get m_connection_change_notifier; callbacks_loop old new (first_callback n).
Definition continue_callbacks (old new : ConnectionState) : M (list task) :=
  n ← get m_connection_change_notifier; callbacks_loop old new (next_callback n).

(** The connection state listener that [create_sync_session] passes. *)
Definition connection_state_changed (state : ConnectionState) (error : option SyncError) : M (list task) :=
  old_state ← get m_connection_state;
  _ ← modify (set_connection_state state);
  mret (Invoke_callbacks old_state state :: match error with Some e => [Handle_error e] | None => [] end).

Definition register_progress_notifier (n : nat) (direction : NotifierType) (streaming : bool) : M (list task) :=
  p ← get m_progress_notifier;
  let '(p, token_value, inv) := register_callback n direction streaming p in
  _ ← modify (set_progress_notifier p);
  _ ← emit (ev_returned token_value);
  mret [Call_progress inv].

Definition handle_progress_update (downloaded downloadable uploaded uploadable progress_version snapshot_version : Z) :
    M (list task) :=
  p ← get m_progress_notifier;
  let '(p, invocations) := update downloaded downloadable uploaded uploadable progress_version snapshot_version p in
  _ ← modify (set_progress_notifier p);
  mret (Call_progress <$> invocations).

(** ** External references and the manager *)

(** [m_external_reference.lock()], [!m_external_reference.expired()] *)
Definition referenced (w : World) : bool :=
  match m_external_reference (session w) with Some r => bool_decide (r ∈ references w) | None => false end.

Definition external_reference : M (list task) :=
  alive ← (λ w, Some (w, referenced w));
  if alive : bool then mret [] else
  r ← new_reference;
  _ ← modify (set_external_reference (Some r));
  mret [].

Definition did_drop_external_reference : M (list task) :=
  alive ← (λ w, Some (w, referenced w));
  if alive : bool then mret [] else l ← close_now; mret (after l []).

(** [SyncManager::unregister_session] of the path of the session
    (sync_manager.cpp). *)
Definition unregister_session : M (list task) :=
  found ← (λ w, Some (w, m_sessions w));
  _ ← assert found;
  if found : bool then
    alive ← (λ w, Some (w, referenced w));
    if alive : bool then mret [] else _ ← set_sessions false; mret []
  else λ _, None.

(** ** Configuration *)

Definition update_configuration (new_config : SyncConfig) : M (list task) :=
  state ← get m_state;
  if bool_decide (state ≠ Inactive) then
    l ← advance_state Inactive; mret (after l [Update_configuration new_config])
  else
    s ← get m_session;
    config ← get m_config;
    _ ← assert (bool_decide (s = None));
    _ ← assert (bool_decide (user config = user new_config));
    _ ← assert (bool_decide (reference_realm_url config = reference_realm_url new_config));
    _ ← assert (bool_decide (is_partial config = is_partial new_config));
    _ ← modify (set_config new_config);
    mret [Revive_if_needed].

Definition refresh_access_token (access_token : string) (server_url : option string) : M (list task) :=
  url ← get m_server_url;
  if bool_decide (url = None) && bool_decide (server_url = None) then mret [] else
  state ← get m_state;
  l ← State_refresh_access_token state access_token server_url;
  mret (after l []).

Definition revive_if_needed : M (list task) :=
  state ← get m_state;
  r ← State_revive_if_needed state;
  mret (after r.1 (if r.2 : bool then [Call_bind_session_handler] else [])).

Definition handle_error (error : SyncError) : M (list task) :=
  state ← get m_state;
  r ← State_handle_error state error;
  mret (after r.1 (if r.2 : bool then [] else [Handle_unclaimed_error error])).

(** The methods of [SyncSession] that only call the one of the state. *)
Definition in_state (f : State -> M lock) : M (list task) :=
  state ← get m_state; l ← f state; mret (after l []).

(** ** The next step of a thread *)

Definition run (t : task) : M (list task) :=
  match t with
  | Wait_for_completion direction callback => wait_for_completion direction callback
  | Register_progress_notifier n direction streaming => register_progress_notifier n direction streaming
  | Unregister_progress_notifier t =>
      p ← get m_progress_notifier; _ ← modify (set_progress_notifier (unregister_callback t p)); mret []
  | Register_connection_change_callback callback =>
      n ← get m_connection_change_notifier;
      let '(n, t) := add_callback callback n in
      _ ← modify (set_connection_change_notifier n); _ ← emit (ev_returned t); mret []
  | Unregister_connection_change_callback t =>
      n ← get m_connection_change_notifier;
      _ ← modify (set_connection_change_notifier (remove_callback t n)); mret []
  | Revive_if_needed => revive_if_needed
  | Handle_reconnect => in_state State_handle_reconnect
  | Refresh_access_token access_token server_url => refresh_access_token access_token server_url
  | Set_multiplex_identifier identity => _ ← modify (set_multiplex_identity identity); mret []
  | Set_url_prefix prefix => c ← get m_config; _ ← modify (set_config (with_url_prefix prefix c)); mret []
  | Close => in_state State_close
  | Log_out => in_state State_log_out
  | Override_server server => state ← get m_state; _ ← State_override_server state server; mret []
  | Update_configuration new_config => update_configuration new_config
  | External_reference => external_reference
  | Did_drop_external_reference => did_drop_external_reference
  | Set_sync_transact_callback callback => _ ← modify (set_sync_transact_callback callback); mret []
  | Nonsync_transact_notify version =>
      p ← get m_progress_notifier;
      _ ← modify (set_progress_notifier (set_local_version version p));
      mret [Nonsync_transact_notify_locked version]
  | Wait_ended (death_handler count) _ => death_ended count
  | Wait_ended (completion_handler counter direction) ec => completion_ended counter direction ec
  | Connection_state_changed state error => connection_state_changed state error
  | Progress_changed d1 d2 u1 u2 v1 v2 => handle_progress_update d1 d2 u1 u2 v1 v2
  | Sync_transacted old new =>
      cb ← get m_sync_transact_callback;
      _ ← match cb with Some cb => emit (ev_sync_transact cb old new) | None => mret tt end; mret []
  | Nonsync_transact_notify_locked version =>
      state ← get m_state; _ ← State_nonsync_transact_notify state version; mret []
  | Notify_disconnected old => new ← get m_connection_state; mret [Invoke_callbacks old new]
  | Invoke_callbacks old new => invoke_callbacks old new
  | Continue_callbacks old new => continue_callbacks old new
  | Handle_error error => handle_error error
  | Handle_unclaimed_error error => handle_unclaimed_error error
  | Start_resync => start_resync
  | Restore_callbacks download_handlers upload_handlers => restore_callbacks download_handlers upload_handlers
  | Access_token_expired => in_state State_access_token_expired
  | Reject_authentication error => reject_authentication error
  | Mark_file error should_backup =>
      error ← update_error_and_mark_file_for_deletion error should_backup; mret [Finish_error next_inactive error]
  | Finish_error next_state error => finish_error next_state error
  | Call_bind_session_handler => c ← get m_config; _ ← emit (ev_bind_session_handler (bind_session_handler c) c); mret []
  | Call_completion callback ec => _ ← emit (ev_completed callback ec); mret []
  | Call_connection_callback callback old new => _ ← emit (ev_connection_change callback old new); mret []
  | Call_progress i =>
      _ ← match i with call_notifier n t1 t2 => emit (ev_progress n t1 t2) | no_call => mret tt end; mret []
  | Call_error_handler error =>
      c ← get m_config;
      _ ← match error_handler c with Some h => emit (ev_error h error) | None => mret tt end; mret []
  | Invalidate_user u => _ ← emit (ev_invalidate_user u); mret []
  | Unregister_session => unregister_session
  end.

(** The constructor (the validation of the history of an existing file apart).
    [m_session_has_been_bound] has no initial value; it is not read before it is
    set. *)
Definition new_sync_session (realm_path : string) (config : SyncConfig) (force_client_resync bound : bool) : SyncSession :=
  mkSyncSession Inactive Disconnected 0 config force_client_resync realm_path [] [] 0 None None bound None false
    None "" None initial_progress_notifier initial_connection_notifier None.

(** [get_public_state], for a pointer that may be null. *)
Definition get_public_state (state : option State) : State := default Inactive state.

(** ** Threads

    What the application, the manager and the library may do at any time: call a
    method, drop an external reference, end a wait (with [operation_aborted] if
    its session has been destroyed), report the state of the connection, errors,
    progress and transactions. *)

Definition is_call (t : task) : bool :=
  match t with
  | Wait_for_completion _ _ | Register_progress_notifier _ _ _ | Unregister_progress_notifier _
  | Register_connection_change_callback _ | Unregister_connection_change_callback _ | Revive_if_needed
  | Handle_reconnect | Refresh_access_token _ _ | Set_multiplex_identifier _ | Set_url_prefix _ | Close | Log_out
  | Override_server _ | Update_configuration _ | External_reference | Set_sync_transact_callback _
  | Nonsync_transact_notify _ => true
  | _ => false
  end.

Definition is_report (t : task) : bool :=
  match t with
  | Connection_state_changed _ _ | Progress_changed _ _ _ _ _ _ | Sync_transacted _ _ => true
  | _ => false
  end.

Definition without_wait (l : list Wait) (w : World) : World :=
  mkWorld (session w) (m_sessions w) (references w) (next_reference w) l (next_session w) (trace w).
Definition without_reference (l : list nat) (w : World) : World :=
  mkWorld (session w) (m_sessions w) l (next_reference w) (waits w) (next_session w) (trace w).

(** The session and the threads, each with the tasks it still has to run. *)
Record System := mkSystem { world : World; threads : list (list task) }.

Inductive step : System -> System -> Prop :=
  | step_run w ths i t rest w' new : ths !! i = Some (t :: rest) -> run t w = Some (w', new) ->
      step (mkSystem w ths) (mkSystem w' (<[i := new ++ rest]> ths))
  | step_call w ths t : is_call t = true -> step (mkSystem w ths) (mkSystem w (ths ++ [[t]]))
  | step_report w ths t : is_report t = true -> 0 < next_session w ->
      step (mkSystem w ths) (mkSystem w (ths ++ [[t]]))
  | step_drop w ths l1 r l2 : references w = l1 ++ r :: l2 ->
      step (mkSystem w ths) (mkSystem (without_reference (l1 ++ l2) w) (ths ++ [[Did_drop_external_reference]]))
  | step_wait w ths l1 x l2 ec : waits w = l1 ++ x :: l2 ->
      (m_session (session w) ≠ Some (w_session x) -> ec = operation_aborted) ->
      step (mkSystem w ths) (mkSystem (without_wait (l1 ++ l2) w) (ths ++ [[Wait_ended (w_handler x) ec]])).

(** A session the manager has just created. *)
Definition initial_world (realm_path : string) (config : SyncConfig) (force_client_resync bound : bool) : World :=
  mkWorld (new_sync_session realm_path config force_client_resync bound) true [] 0 [] 0 [].

Definition initial (x : System) : Prop :=
  exists realm_path config force_client_resync bound,
    x = mkSystem (initial_world realm_path config force_client_resync bound) [].

Inductive reachable : System -> Prop :=
  | reachable_initial x : initial x -> reachable x
  | reachable_step x y : reachable x -> step x y -> reachable y.

(** A thread that runs without interference. *)
Fixpoint run_all (fuel : nat) (l : list task) (w : World) : option World :=
  match l with
  | [] => Some w
  | t :: l =>
      match fuel with
      | O => None
      | S fuel => match run t w with Some (w, new) => run_all fuel (new ++ l) w | None => None end
      end
  end.
End session.

(** What the states override, unfolded in one step. *)
Create HintDb state_methods.
#[export] Hint Unfold WaitingForAccessToken_close Active_close Inactive_close Active_refresh_access_token
  Active_access_token_expired WaitingForAccessToken_log_out Active_log_out Dying_log_out
  WaitingForAccessToken_revive_if_needed Dying_revive_if_needed Inactive_revive_if_needed
  WaitingForAccessToken_handle_reconnect Active_handle_reconnect
  WaitingForAccessToken_nonsync_transact_notify Active_nonsync_transact_notify
  Active_wait_for_completion Dying_wait_for_completion WaitingForAccessToken_override_server
  Active_override_server Dying_override_server Inactive_override_server Dying_handle_error : state_methods.

Ltac open_state H := try autounfold with state_methods in H.
