(* ===== verification/SyncSpec.v ===== *)
(** * What a sync session promises

    A specification of [SyncSession] that keeps only its state, the session of
    the library, the queued completion handlers and the waits, and the moves that
    the session may make. SyncRefinement.v shows that the tasks of SyncSession.v
    are sequences of these moves. *)

From stdpp Require Import strings.
From S2P Require Import Prelude SyncConfig SyncNotifiers SyncSession.

(** ** Observations *)

(** The events the specification talks about. *)
Definition logged (e : event) : bool :=
  match e with
  | ev_state _ _ | ev_waiting _ _ | ev_completed _ _ | ev_discarded _ => true
  | _ => false
  end.

(** The handlers that were given to the session, called, and destroyed without
    being called. *)
Definition registered (l : list event) : list nat :=
  l ≫= λ e, match e with ev_waiting _ c => [c] | _ => [] end.
Definition called (l : list event) : list nat :=
  l ≫= λ e, match e with ev_completed c _ => [c] | _ => [] end.
Definition discarded (l : list event) : list nat :=
  l ≫= λ e, match e with ev_discarded c => [c] | _ => [] end.

(** The changes of state that the comment on [SyncSession::State] documents. *)
Definition documented (old new : State) : bool :=
  match old, new with
  | Inactive, WaitingForAccessToken
  | WaitingForAccessToken, Active | WaitingForAccessToken, Inactive
  | Active, WaitingForAccessToken | Active, Inactive | Active, Dying
  | Dying, Inactive | Dying, Active => true
  | _, _ => false
  end.

(** A list of events in which every change of state starts where the last one
    ended and is documented. *)
Inductive state_path : State -> list event -> State -> Prop :=
  | path_nil s : state_path s [] s
  | path_state s s' s'' l : documented s s' = true -> state_path s' l s'' -> state_path s (ev_state s s' :: l) s''
  | path_other s e l s' : (forall old new, e <> ev_state old new) -> state_path s l s' -> state_path s (e :: l) s'.

(** ** Moves *)

Record Core := mkCore {
  c_state : State;
  c_session : option nat;
  c_bound : bool;
  c_url : bool;
  c_download : list nat;
  c_upload : list nat;
  c_counter : Z;
  c_deaths : Z;
  c_waits : list Wait;
}.

Definition core (w : World) : Core :=
  let s := session w in
  mkCore (m_state s) (m_session s) (m_session_has_been_bound s) (bool_decide (is_Some (m_server_url s)))
    (m_download_completion_callbacks s) (m_upload_completion_callbacks s)
    (m_client_resync_counter s) (m_death_count s) (waits w).

Definition c_callbacks (d : NotifierType) (c : Core) : list nat :=
  match d with download => c_download c | upload => c_upload c end.
Definition queued (c : Core) : list nat := c_download c ++ c_upload c.

(** The wait that covers the handlers of a direction. *)
Definition wait_for (d : NotifierType) (s : nat) (counter : Z) : Wait := mkWait s d (completion_handler counter d).
Definition wait_if (d : NotifierType) (s : nat) (counter : Z) (l : list nat) : list Wait :=
  if bool_decide (l ≠ []) then [wait_for d s counter] else [].

(** [move c l given taken c']: the session goes from [c] to [c'] with the events
    [l]; it is [given] handlers by the task that runs, and the tasks that follow
    have the handlers that are [taken]. *)
Inductive move : Core -> list event -> list nat -> list nat -> Core -> Prop :=
  | move_queue_upload st s b u dl ul k n ws c : ul <> [] \/ st = WaitingForAccessToken \/ st = Inactive ->
      move (mkCore st s b u dl ul k n ws) [ev_waiting upload c] [] [] (mkCore st s b u dl (ul ++ [c]) k n ws)
  | move_queue_download st s b u dl ul k n ws c : dl <> [] \/ st = WaitingForAccessToken \/ st = Inactive ->
      move (mkCore st s b u dl ul k n ws) [ev_waiting download c] [] [] (mkCore st s b u (dl ++ [c]) ul k n ws)
  | move_wait_upload st s b u dl k n ws c : st = Active \/ st = Dying ->
      move (mkCore st (Some s) b u dl [] k n ws) [ev_waiting upload c] [] []
        (mkCore st (Some s) b u dl [c] k n (ws ++ [wait_for upload s k]))
  | move_wait_download st s b u ul k n ws c : st = Active \/ st = Dying ->
      move (mkCore st (Some s) b u [] ul k n ws) [ev_waiting download c] [] []
        (mkCore st (Some s) b u [c] ul k n (ws ++ [wait_for download s k]))
  | move_end_upload st s b u dl ul k n ws :
      move (mkCore st s b u dl ul k n ws) [] [] ul (mkCore st s b u dl [] k n ws)
  | move_end_download st s b u dl ul k n ws :
      move (mkCore st s b u dl ul k n ws) [] [] dl (mkCore st s b u [] ul k n ws)
  | move_cancel st s b u dl ul k n ws :
      move (mkCore st s b u dl ul k n ws) [] [] (dl ++ ul) (mkCore st s b u [] [] k n ws)
  | move_resync st s b u dl ul k n ws : (k < 2 ^ 31 - 1)%Z ->
      move (mkCore st s b u dl ul k n ws) [] [] (dl ++ ul) (mkCore st s b u [] [] (k + 1) n ws)
  | move_restore st s b u dl ul k n ws dl' ul' : (0 < k)%Z ->
      move (mkCore st s b u dl ul k n ws) (ev_discarded <$> dl ++ ul) (dl' ++ ul') [] (mkCore st s b u dl' ul' k n ws)
  | move_call c callback ec : move c [ev_completed callback ec] [callback] [] c
  | move_bind s s' b u dl ul k n ws : s = None \/ s = Some s' ->
      move (mkCore WaitingForAccessToken s b u dl ul k n ws) [] [] []
        (mkCore WaitingForAccessToken (Some s') true true dl ul k n ws)
  | move_revive s b u dl ul k n ws :
      move (mkCore Inactive s b u dl ul k n ws) [ev_state Inactive WaitingForAccessToken] [] []
        (mkCore WaitingForAccessToken s b u dl ul k n ws)
  | move_activate st s b u dl ul k n ws : st = WaitingForAccessToken \/ st = Dying ->
      move (mkCore st (Some s) b u dl ul k n ws) [ev_state st Active] [] []
        (mkCore Active (Some s) b u dl ul k n (ws ++ wait_if upload s k ul ++ wait_if download s k dl))
  | move_die s b u dl ul k n ws :
      move (mkCore Active (Some s) b u dl ul k n ws) [ev_state Active Dying] [] []
        (mkCore Dying (Some s) b u dl ul k (n +! 1) (ws ++ [mkWait s upload (death_handler (n +! 1))]))
  | move_expire s b u dl ul k n ws :
      move (mkCore Active s b u dl ul k n ws) [ev_state Active WaitingForAccessToken] [] []
        (mkCore WaitingForAccessToken s b u dl ul k n ws)
  | move_stop st s b u dl ul k n ws : st <> Inactive ->
      move (mkCore st s b u dl ul k n ws) [ev_state st Inactive] [] (dl ++ ul) (mkCore Inactive None b u [] [] k n ws).

Inductive moves : Core -> list event -> list nat -> list nat -> Core -> Prop :=
  | moves_nil c : moves c [] [] [] c
  | moves_cons c1 l1 g1 t1 c2 l2 g2 t2 c3 : move c1 l1 g1 t1 c2 -> moves c2 l2 g2 t2 c3 ->
      moves c1 (l1 ++ l2) (g1 ++ g2) (t1 ++ t2) c3.

Lemma moves_one c l g t c' : move c l g t c' -> moves c l g t c'.
Proof.
  intros Hm. rewrite <- (app_nil_r l), <- (app_nil_r g), <- (app_nil_r t). by eapply moves_cons; [|constructor].
Qed.

Lemma moves_trans c1 l1 g1 t1 c2 l2 g2 t2 c3 : moves c1 l1 g1 t1 c2 -> moves c2 l2 g2 t2 c3 ->
  moves c1 (l1 ++ l2) (g1 ++ g2) (t1 ++ t2) c3.
Proof.
  induction 1 as [|c1 l1 g1 t1 c l1' g1' t1' c2 Hm _ IH]; intros H2; [done|].
  rewrite <- !app_assoc. eapply moves_cons; [done|by apply IH].
Qed.

(** ** Invariants *)

(** What is bound in which state. *)
Record core_ok (c : Core) : Prop := {
  inactive_has_none : c_state c = Inactive -> c_session c = None;
  active_has_one : c_state c = Active \/ c_state c = Dying -> is_Some (c_session c);
  session_is_bound : is_Some (c_session c) -> c_bound c = true /\ c_url c = true;
  counter_counts : (0 <= c_counter c)%Z;
}.

Lemma move_ok c l g t c' : move c l g t c' -> core_ok c -> core_ok c'.
Proof.
  destruct 1; intros [Hi Ha Hb Hk]; cbn in *; split; cbn; intros; destruct_or?; simplify_eq; eauto; lia.
Qed.

Lemma moves_ok c l g t c' : moves c l g t c' -> core_ok c -> core_ok c'.
Proof. induction 1; eauto using move_ok. Qed.

(** The states follow the documented graph. *)
Lemma state_path_app s l s' l' s'' : state_path s l s' -> state_path s' l' s'' -> state_path s (l ++ l') s''.
Proof. induction 1; [done|..]; intros; simpl; [eapply path_state|eapply path_other]; eauto. Qed.

Lemma path_discarded s l : state_path s (ev_discarded <$> l) s.
Proof. induction l; simpl; [constructor|by apply path_other]. Qed.

Lemma move_path c l g t c' : move c l g t c' -> state_path (c_state c) l (c_state c').
Proof.
  destruct 1; cbn; try apply path_discarded; destruct_or?; subst;
    repeat first [apply path_nil|apply path_state; [reflexivity|]|apply path_other; [done|]].
  destruct st; try done; apply path_state; try done; constructor.
Qed.

Lemma moves_path c l g t c' : moves c l g t c' -> state_path (c_state c) l (c_state c').
Proof. induction 1; [constructor|]. eapply state_path_app; [by eapply move_path|done]. Qed.

(** Every handler is somewhere. *)
Lemma registered_app l l' : registered (l ++ l') = registered l ++ registered l'.
Proof. apply bind_app. Qed.
Lemma called_app l l' : called (l ++ l') = called l ++ called l'.
Proof. apply bind_app. Qed.
Lemma discarded_app l l' : discarded (l ++ l') = discarded l ++ discarded l'.
Proof. apply bind_app. Qed.
Lemma registered_discarded l : registered (ev_discarded <$> l) = [] /\ called (ev_discarded <$> l) = []
  /\ discarded (ev_discarded <$> l) = l.
Proof. induction l as [|c l (IH1 & IH2 & IH3)]; [done|]. cbn. unfold registered, called, discarded in *. by rewrite IH1, IH2, IH3. Qed.

Lemma move_accounts c l g t c' : move c l g t c' ->
  queued c ++ registered l ++ g ≡ₚ queued c' ++ called l ++ discarded l ++ t.
Proof.
  destruct 1; unfold queued; cbn; rewrite ?app_nil_r; try solve_Permutation.
  destruct (registered_discarded (dl ++ ul)) as (-> & -> & ->). solve_Permutation.
Qed.

Lemma moves_accounts c l g t c' : moves c l g t c' ->
  queued c ++ registered l ++ g ≡ₚ queued c' ++ called l ++ discarded l ++ t.
Proof.
  induction 1 as [c|c1 l1 g1 t1 c2 l2 g2 t2 c3 Hm _ IH]; [by cbn; rewrite !app_nil_r|].
  apply move_accounts in Hm. rewrite registered_app, called_app, discarded_app.
  transitivity ((queued c1 ++ registered l1 ++ g1) ++ registered l2 ++ g2); [solve_Permutation|].
  rewrite Hm. transitivity ((queued c2 ++ registered l2 ++ g2) ++ called l1 ++ discarded l1 ++ t1); [solve_Permutation|].
  rewrite IH. solve_Permutation.
Qed.

(** ** Waits *)

(** The library, or a thread that is about to end it, has a wait for the handlers
    that are queued; [ending] are the functions of those threads. *)
Definition has_wait (ending : list handler) (c : Core) (h : handler) : Prop :=
  (exists x, x ∈ c_waits c /\ Some (w_session x) = c_session c /\ w_handler x = h) \/ h ∈ ending.

Definition covered (ending : list handler) (c : Core) : Prop :=
  forall d, c_state c = Active \/ c_state c = Dying -> c_callbacks d c <> [] ->
    has_wait ending c (completion_handler (c_counter c) d).

Lemma has_wait_weaken ending st s b u dl ul k n ws st' b' u' dl' ul' k' n' ws' h :
  has_wait ending (mkCore st s b u dl ul k n ws) h -> has_wait ending (mkCore st' s b' u' dl' ul' k' n' (ws ++ ws')) h.
Proof. intros [(x & Hx & ?)|?]; [left; exists x; cbn in *; rewrite elem_of_app; auto|by right]. Qed.

Lemma has_wait_new ending st s b u dl ul k n ws d h : mkWait s d h ∈ ws ->
  has_wait ending (mkCore st (Some s) b u dl ul k n ws) h.
Proof. intros ?. left. by exists (mkWait s d h). Qed.

Lemma wait_if_in d s k l : l <> [] -> mkWait s d (completion_handler k d) ∈ wait_if d s k l.
Proof. intros. unfold wait_if. rewrite bool_decide_true by done. by apply list_elem_of_here. Qed.

Lemma move_covered ending c l g t c' : move c l g t c' -> (0 <= c_counter c)%Z -> c_counter c' = 0%Z ->
  covered ending c -> covered ending c'.
Proof.
  destruct 1; cbn; intros Hk0 Hk Hc d Hst Hd; cbn in *; destruct_or?; simplify_eq; try lia;
    try (destruct d; cbn in *; (done || by apply (Hc _ ltac:(auto)))).
  all: destruct d; first
    [apply has_wait_new with upload; cbn in Hd; set_solver by eauto using wait_if_in
    |apply has_wait_new with download; cbn in Hd; set_solver by eauto using wait_if_in
    |eapply has_wait_weaken; apply Hc; cbn; solve [done|auto]].
Qed.

Lemma moves_counter c l g t c' : moves c l g t c' -> (c_counter c <= c_counter c')%Z.
Proof. induction 1 as [|c1 l1 g1 t1 c2 l2 g2 t2 c3 Hm _ IH]; [done|]. destruct Hm; cbn in *; lia. Qed.

Lemma moves_covered ending c l g t c' : moves c l g t c' -> core_ok c -> c_counter c' = 0%Z ->
  covered ending c -> covered ending c'.
Proof.
  induction 1 as [|c1 l1 g1 t1 c2 l2 g2 t2 c3 Hm Hms IH]; intros Hok Hk Hc; [done|].
  pose proof (move_ok _ _ _ _ _ Hm Hok) as Hok2. apply IH; [done..|]. destruct Hok, Hok2.
  eapply move_covered; [done..| |done]. apply moves_counter in Hms. lia.
Qed.

(** How often the session has entered [Dying]. *)
Definition dyings (l : list event) : nat :=
  length (l ≫= λ e, match e with ev_state _ Dying => [tt] | _ => [] end).

Lemma dyings_app l l' : dyings (l ++ l') = dyings l + dyings l'.
Proof. unfold dyings. by rewrite bind_app, length_app. Qed.
Lemma dyings_discarded l : dyings (ev_discarded <$> l) = 0.
Proof. by induction l. Qed.

Definition death_counts (l : list handler) : list Z :=
  l ≫= λ h, match h with death_handler n => [n] | completion_handler _ _ => [] end.

Lemma death_counts_app l l' : death_counts (l ++ l') = death_counts l ++ death_counts l'.
Proof. apply bind_app. Qed.

(** The waits of earlier times in [Dying] are told apart by their number. *)
Record deaths_ok (ending : list handler) (c : Core) : Prop := {
  deaths_bound : Forall (λ n, n <= c_deaths c)%Z (death_counts ((w_handler <$> c_waits c) ++ ending));
  deaths_distinct : NoDup (death_counts ((w_handler <$> c_waits c) ++ ending));
  dying_has_wait : c_state c = Dying -> has_wait ending c (death_handler (c_deaths c));
}.

Lemma deaths_ok_waits ending st st' s s' b b' u u' dl dl' ul ul' k k' n ws ws' :
  death_counts (w_handler <$> ws') = [] -> (st' = Dying -> st = Dying /\ s' = s) ->
  deaths_ok ending (mkCore st s b u dl ul k n ws) -> deaths_ok ending (mkCore st' s' b' u' dl' ul' k' n (ws ++ ws')).
Proof.
  intros Hn Hst [Hb Hd Hw]. cbn in *. split; cbn.
  - by rewrite fmap_app, !death_counts_app, Hn, app_nil_r, <- death_counts_app.
  - by rewrite fmap_app, !death_counts_app, Hn, app_nil_r, <- death_counts_app.
  - intros [-> ->]%Hst. by eapply has_wait_weaken, Hw.
Qed.

Lemma deaths_ok_die ending st s b u dl ul k n ws : (n + 1 < 2 ^ 64)%Z -> (0 <= n)%Z ->
  deaths_ok ending (mkCore st (Some s) b u dl ul k n ws) ->
  deaths_ok ending (mkCore Dying (Some s) b u dl ul k (n +! 1) (ws ++ [mkWait s upload (death_handler (n +! 1))])).
Proof.
  intros Hn Hn0 [Hb Hd Hw]. rewrite u64_small by lia. cbn in *.
  assert (Hp : death_counts ((w_handler <$> ws ++ [mkWait s upload (death_handler (n + 1))]) ++ ending)
    ≡ₚ (n + 1)%Z :: death_counts ((w_handler <$> ws) ++ ending)).
  { rewrite fmap_app, !death_counts_app. cbn. solve_Permutation. }
  split; cbn.
  - rewrite Hp. constructor; [lia|]. eapply Forall_impl; [done|]. cbn. lia.
  - rewrite Hp. constructor; [|done]. intros Hin. rewrite Forall_forall in Hb. apply Hb in Hin. lia.
  - intros _. apply has_wait_new with upload. set_solver.
Qed.

Lemma move_deaths ending c l g t c' : move c l g t c' -> (0 <= c_deaths c)%Z ->
  (c_deaths c + Z.of_nat (dyings l) < 2 ^ 64)%Z -> deaths_ok ending c ->
  deaths_ok ending c' /\ c_deaths c' = (c_deaths c + Z.of_nat (dyings l))%Z.
Proof.
  destruct 1; intros Hn0 Hn Hd; cbn in *; (split; [|rewrite ?dyings_discarded; cbn; rewrite ?u64_small by (cbn in Hn; lia); try lia]);
    try done; try (eapply deaths_ok_die; [lia|done..]).
  all: try (rewrite <- (app_nil_r ws); eapply deaths_ok_waits; [| |exact Hd]; cbn; solve [done|naive_solver]).
  all: try (eapply deaths_ok_waits; [| |exact Hd]; unfold wait_if; repeat case_bool_decide; cbn; solve [done|naive_solver]).
Qed.

Lemma moves_deaths ending c l g t c' : moves c l g t c' -> (0 <= c_deaths c)%Z ->
  (c_deaths c + Z.of_nat (dyings l) < 2 ^ 64)%Z -> deaths_ok ending c ->
  deaths_ok ending c' /\ c_deaths c' = (c_deaths c + Z.of_nat (dyings l))%Z.
Proof.
  induction 1 as [c|c1 l1 g1 t1 c2 l2 g2 t2 c3 Hm _ IH]; intros Hn0 Hn Hd; [cbn; split; [done|lia]|].
  rewrite dyings_app in *. apply (move_deaths ending) in Hm as [Hd2 He]; [|done..|lia|done].
  destruct IH as [? ->]; [lia..|done|]. split; [done|lia].
Qed.
