(* ===== verification/SyncRefinement.v ===== *)
(** * The sync session implements its specification

    Every task of SyncSession.v is a sequence of the moves of SyncSpec.v. *)

From stdpp Require Import strings.
From S2P Require Import Prelude SyncConfig SyncNotifiers SyncSession SyncSpec.

(** The handlers that a task has. *)
Definition in_flight (t : task) : list nat :=
  match t with
  | Call_completion c _ => [c]
  | Restore_callbacks download_handlers upload_handlers => download_handlers ++ upload_handlers
  | _ => []
  end.
Definition flight (l : list task) : list nat := l ≫= in_flight.

(** From [w] to [w'] by moves that are visible in the trace; the order of the
    handlers taken by several moves is left open. *)
Definition performs (w : World) (given taken : list nat) (w' : World) : Prop :=
  exists l taken', trace w' = trace w ++ l /\ taken' ≡ₚ taken
    /\ moves (core w) (List.filter logged l) given taken' (core w').

Lemma flight_app l l' : flight (l ++ l') = flight l ++ flight l'.
Proof. apply bind_app. Qed.

Lemma flight_calls ec l : flight ((λ c, Call_completion c ec) <$> l) = l.
Proof. induction l as [|c l IH]; [done|]. cbn. unfold flight in IH. by rewrite IH. Qed.

Lemma flight_abort l : flight (abort l) = l.
Proof. apply flight_calls. Qed.

(** What follows when the session stops. *)
Lemma flight_stop (b : bool) old dl ul :
  flight (after (Released (after (Released [Unregister_session])
    ((if b then [Notify_disconnected old] else []) ++ abort dl ++ abort ul))) []) = dl ++ ul.
Proof. cbn [after]. rewrite app_nil_r, !flight_app, !flight_abort. by destruct b. Qed.

Lemma performs_trans w1 g1 t1 w2 g2 t2 w3 : performs w1 g1 t1 w2 -> performs w2 g2 t2 w3 ->
  performs w1 (g1 ++ g2) (t1 ++ t2) w3.
Proof.
  intros (l1 & t1' & H1 & Ht1 & Hm1) (l2 & t2' & H2 & Ht2 & Hm2). exists (l1 ++ l2), (t1' ++ t2').
  rewrite H2, H1. split_and!; [by rewrite app_assoc|by rewrite Ht1, Ht2|]. rewrite List.filter_app. by eapply moves_trans.
Qed.

(** Tasks that the specification does not see. *)
Definition silent (w w' : World) : Prop :=
  core w' = core w /\ exists l, trace w' = trace w ++ l /\ List.filter logged l = [].

Lemma silent_performs w w' : silent w w' -> performs w [] [] w'.
Proof. intros [Hc (l & Ht & Hl)]. exists l, []. split_and!; [done..|]. rewrite Hl, Hc. constructor. Qed.

Lemma performs_move w w' l g t : trace w' = trace w ++ l ->
  move (core w) (List.filter logged l) g t (core w') -> performs w g t w'.
Proof. intros Ht Hm. exists l, t. split_and!; [done..|by apply moves_one]. Qed.

Lemma performs_perm w g t t' w' : performs w g t w' -> t ≡ₚ t' -> performs w g t' w'.
Proof. intros (l & t1 & Hl & Ht & Hm) Hp. exists l, t1. split_and!; [done|by transitivity t|done]. Qed.

Lemma performs_ok w g t w' : performs w g t w' -> core_ok (core w) -> core_ok (core w').
Proof. intros (l & t1 & _ & _ & Hm). by eapply moves_ok. Qed.

Section refinement.
Context `{HB : Build, HS : Surroundings, HP : PackageOrder}.

Lemma bind_inv {A B} (m : M A) (f : A -> M B) w r :
  mbind f m w = Some r -> exists w' a, m w = Some (w', a) /\ f a w' = Some r.
Proof. unfold mbind, M_bind. destruct (m w) as [[w' a]|]; [by eauto|done]. Qed.

Lemma assert_inv b w w' u : assert b w = Some (w', u) -> w' = w /\ (REALM_ASSERTIONS_ENABLED = true -> b = true).
Proof. unfold assert, lift, REALM_ASSERT, REALM_ASSERT_RELEASE. repeat case_match; intros; simplify_eq; done. Qed.

End refinement.

(** Reads and assigns members. *)
Ltac members_in Hm :=
  cbn [
    session m_sessions references next_reference waits next_session trace callbacks set_callbacks fst snd m_state
    m_connection_state m_death_count m_config m_force_client_resync m_realm_path m_download_completion_callbacks
    m_upload_completion_callbacks m_client_resync_counter m_server_override m_session m_session_has_been_bound
    m_deferred_commit_notification m_deferred_close m_server_url m_multiplex_identity m_sync_transact_callback
    m_progress_notifier m_connection_change_notifier m_external_reference set_state set_connection_state
    set_death_count set_config set_force_client_resync set_download_completion_callbacks
    set_upload_completion_callbacks set_client_resync_counter set_server_override set_session
    set_session_has_been_bound set_deferred_commit_notification set_deferred_close set_server_url
    set_multiplex_identity set_sync_transact_callback set_progress_notifier set_connection_change_notifier
    set_external_reference] in Hm.

(** Takes a computation that succeeded apart. *)
Ltac mstep Hm :=
  lazymatch type of Hm with
  | mbind _ _ _ = Some _ =>
      let w := fresh "w" in let a := fresh "a" in let Ha := fresh "Ha" in
      apply bind_inv in Hm as (w & a & Ha & Hm); cbv beta in Hm; mstep Ha; try (members_in Hm; mstep Hm)
  | assert _ _ = Some _ => let Ha := fresh "Hassert" in apply assert_inv in Hm as [? Ha]; simplify_eq
  | lift ?o _ = Some _ => unfold lift in Hm; destruct o eqn:?; simplify_eq
  | (if ?b then _ else _) _ = Some _ => destruct b eqn:?; mstep Hm
  | (match ?x with _ => _ end) _ = Some _ => destruct x eqn:?; mstep Hm
  | _ => unfold get, mret, M_ret, modify, emit, emit_all, add_wait, new_session, new_reference, set_sessions in Hm;
      members_in Hm; simplify_eq
  end.
Ltac minv Hm := members_in Hm; mstep Hm.

Ltac world_cases w :=
  destruct w as [[st conn dc cfg force path dl ul ctr ovr se bound dcn dcl url mi stc pn ccn er] ms refs nr ws ns tr].

Section moves.
Context `{HB : Build, HS : Surroundings, HP : PackageOrder}.

Lemma advance_inv new enter w w' l : advance_into new enter w = Some (w', l) ->
  (REALM_ASSERTIONS_ENABLED = true -> new <> m_state (session w))
  /\ enter (mkWorld (set_state new (session w)) (m_sessions w) (references w) (next_reference w) (waits w)
              (next_session w) (trace w ++ [ev_state (m_state (session w)) new])) = Some (w', l).
Proof.
  intros Hr. unfold advance_into in Hr. world_cases w. minv Hr. split; [|done].
  intros He. by apply (bool_decide_eq_true _), Hassert.
Qed.

Lemma move_eq c l g t c1 c2 : move c l g t c1 -> c1 = c2 -> move c l g t c2.
Proof. by intros ? <-. Qed.

Lemma filter_discarded l : List.filter logged (ev_discarded <$> l) = ev_discarded <$> l.
Proof. induction l as [|c l IH]; [done|]. cbn. by rewrite IH. Qed.

(** The trace of the new world extends the one of the old world. *)
Ltac trace_grows :=
  cbn [trace]; first [rewrite <- ?app_assoc; reflexivity|symmetry; apply app_nil_r].
Ltac is_silent := split; [reflexivity|eexists; split; [trace_grows|reflexivity]].
Ltac is_move := eapply performs_move; [trace_grows|cbn].

Lemma advance_stop w w' l : REALM_ASSERTIONS_ENABLED = true -> advance_state Inactive w = Some (w', l) ->
  performs w [] (flight (after l [])) w' /\ exists rest, l = Released rest.
Proof.
  intros He [Hst Hr]%advance_inv. unfold enter_state, Inactive_enter_state, destroy_session, unregister in Hr.
  world_cases w. specialize (Hst He). minv Hr; (split; [|by eauto]).
  all: rewrite flight_stop.
  all: is_move; apply move_stop; cbn in *; congruence.
Qed.

Lemma advance_revive w w' l : m_state (session w) = Inactive -> advance_state WaitingForAccessToken w = Some (w', l) ->
  performs w [] [] w' /\ l = Held.
Proof.
  intros Hst [_ Hr]%advance_inv. unfold enter_state, WaitingForAccessToken_enter_state in Hr.
  world_cases w. cbn in Hst. subst st. minv Hr. split; [|done]. is_move. apply move_revive.
Qed.

Lemma advance_expire w w' l : m_state (session w) = Active -> advance_state WaitingForAccessToken w = Some (w', l) ->
  performs w [] [] w' /\ l = Held.
Proof.
  intros Hst [_ Hr]%advance_inv. unfold enter_state, WaitingForAccessToken_enter_state in Hr.
  world_cases w. cbn in Hst. subst st. minv Hr. split; [|done]. is_move. apply move_expire.
Qed.

Lemma advance_activate w w' l : m_state (session w) = WaitingForAccessToken \/ m_state (session w) = Dying ->
  is_Some (m_session (session w)) -> advance_state Active w = Some (w', l) ->
  performs w [] [] w' /\ l = Held /\ m_state (session w') = Active.
Proof.
  intros Hst [s Hs] [_ Hr]%advance_inv.
  unfold enter_state, Active_enter_state, add_completion_callback, async_wait_for_completion, the_session in Hr.
  world_cases w. cbn in Hst, Hs. subst se. minv Hr; (split_and!; [|done..]).
  all: is_move; eapply move_eq; [by apply move_activate|]; unfold core, wait_if, wait_for; cbn;
    rewrite Heqb, Heqb0; by rewrite ?app_nil_r, <- ?app_assoc.
Qed.

Lemma advance_die w w' l : m_state (session w) = Active -> is_Some (m_session (session w)) ->
  advance_state Dying w = Some (w', l) -> performs w [] [] w' /\ l = Held.
Proof.
  intros Hst [s Hs] [_ Hr]%advance_inv. unfold enter_state, Dying_enter_state, async_wait_for_completion, the_session in Hr.
  world_cases w. cbn in Hst, Hs. subst st se. minv Hr. split; [|done]. is_move. apply move_die.
Qed.

(** ** Methods of the states *)

(** Every state looks at the stop policy, or might. *)
Lemma close_by_policy state : State_close state =
  (policy ← get (λ s, stop_policy (m_config s));
   match state with
   | WaitingForAccessToken =>
       match policy with
       | Immediately => advance_state Inactive
       | LiveIndefinitely | AfterChangesUploaded => _ ← modify (set_deferred_close true); mret Held
       end
   | Active =>
       match policy with
       | Immediately => advance_state Inactive
       | LiveIndefinitely => mret Held
       | AfterChangesUploaded => advance_state Dying
       end
   | Dying => mret Held
   | Inactive => unregister
   end).
Proof. by destruct state. Qed.

Lemma close_performs w w' l : REALM_ASSERTIONS_ENABLED = true -> core_ok (core w) ->
  close_now w = Some (w', l) -> performs w [] (flight (after l [])) w'.
Proof.
  intros He [_ Ha _ _] Hr. unfold close_now in Hr. mstep Hr. rewrite close_by_policy in Hr.
  apply bind_inv in Hr as (w1 & policy & Hp & Hr). mstep Hp. destruct (m_state (session w1)) eqn:Hst.
  - destruct (stop_policy _); [by apply advance_stop in Hr as [? _]|..];
      world_cases w1; minv Hr; apply silent_performs; is_silent.
  - destruct (stop_policy _); [by apply advance_stop in Hr as [? _]|..].
    + mstep Hr. apply silent_performs; world_cases w'; is_silent.
    + apply advance_die in Hr as [? ->]; [done..|]. apply Ha. by left.
  - mstep Hr. apply silent_performs; world_cases w'; is_silent.
  - unfold unregister in Hr. world_cases w1. minv Hr. apply silent_performs; is_silent.
Qed.

Lemma log_out_performs w w' l : REALM_ASSERTIONS_ENABLED = true ->
  State_log_out (m_state (session w)) w = Some (w', l) -> performs w [] (flight (after l [])) w'.
Proof.
  intros He Hr. unfold State_log_out in Hr; open_state Hr. destruct (m_state (session w)) eqn:Hst;
    try by apply advance_stop in Hr as [? _].
  mstep Hr. apply silent_performs; world_cases w'; is_silent.
Qed.

Lemma bind_session_performs tok server w w' s : m_state (session w) = WaitingForAccessToken ->
  m_server_url (session w) <> None \/ server <> None ->
  bind_session tok server w = Some (w', s) ->
  performs w [] [] w' /\ m_state (session w') = WaitingForAccessToken /\ is_Some (m_session (session w')).
Proof.
  intros Hst Hu Hr. world_cases w. cbn in Hst, Hu. subst st.
  unfold bind_session, create_sync_session, the_session in Hr.
  destruct se as [id|], bound; minv Hr; (split_and!; [|done..]).
  all: is_move; eapply move_eq; [apply move_bind; by auto|]; unfold core; cbn; f_equal.
  all: symmetry; apply bool_decide_eq_true; repeat case_match; first [by eexists|by destruct server; [eexists|destruct Hu]].
Qed.

Lemma announce_deferred_silent s w w' u : announce_deferred s w = Some (w', u) -> silent w w'.
Proof.
  intros Hr. unfold announce_deferred in Hr. world_cases w. destruct ovr, dcn; minv Hr; is_silent.
Qed.

Lemma silent_state w w' : silent w w' ->
  m_state (session w') = m_state (session w) /\ m_session (session w') = m_session (session w).
Proof. intros [Hc _]. by injection Hc. Qed.

Lemma refresh_performs tok server w w' l : REALM_ASSERTIONS_ENABLED = true -> core_ok (core w) ->
  m_server_url (session w) <> None \/ server <> None ->
  State_refresh_access_token (m_state (session w)) tok server w = Some (w', l) ->
  performs w [] (flight (after l [])) w'.
Proof.
  intros He Hok Hu Hr. destruct (m_state (session w)) eqn:Hst; cbn [State_refresh_access_token] in Hr; open_state Hr;
    [|world_cases w; unfold the_session in Hr; minv Hr; apply silent_performs; is_silent..].
  unfold WaitingForAccessToken_refresh_access_token in Hr.
  apply bind_inv in Hr as (w1 & s & (H1 & Hst1 & Hs1)%bind_session_performs & Hr); [|done..].
  apply bind_inv in Hr as (w2 & u & H2%announce_deferred_silent & Hr).
  pose proof (silent_state _ _ H2) as [Hst2 Hs2].
  apply bind_inv in Hr as (w3 & l3 & (H3 & -> & Hst3)%advance_activate & Hr);
    [|rewrite Hst2; by left|by rewrite Hs2].
  cbn [while_held] in Hr. apply bind_inv in Hr as (w4 & d & Hd & Hr). mstep Hd.
  pose proof (performs_trans _ _ _ _ _ _ _ H1 (performs_trans _ _ _ _ _ _ _ (silent_performs _ _ H2) H3)) as Hp.
  destruct (m_deferred_close (session w4)).
  - eapply (performs_trans _ _ _ _ _ _ _ Hp), close_performs; [done|by eapply performs_ok|done].
  - mstep Hr. done.
Qed.

Lemma wait_performs d c w w' new : core_ok (core w) -> wait_for_completion d c w = Some (w', new) ->
  performs w [] (flight new) w'.
Proof.
  intros [_ Ha _ _] Hr. world_cases w. cbn in Ha.
  unfold wait_for_completion, State_wait_for_completion in Hr. open_state Hr.
  unfold add_completion_callback, async_wait_for_completion, the_session in Hr.
  destruct d; minv Hr; is_move; first [apply bool_decide_eq_true in Heqb; simplify_eq|apply bool_decide_eq_false in Heqb].
  all: first [apply move_wait_upload; by auto|apply move_wait_download; by auto
             |apply move_queue_upload; by auto|apply move_queue_download; by auto].
Qed.

Lemma completion_performs counter d ec w w' new : completion_ended counter d ec w = Some (w', new) ->
  performs w [] (flight new) w'.
Proof.
  intros Hr. unfold completion_ended in Hr. world_cases w. destruct d; minv Hr; rewrite ?flight_calls;
    first [by apply silent_performs; is_silent|is_move; constructor].
Qed.

Lemma cancel_performs w w' new : cancel_pending_waits w = Some (w', new) -> performs w [] (flight new) w'.
Proof.
  intros Hr. unfold cancel_pending_waits in Hr. world_cases w. minv Hr. rewrite flight_app, !flight_abort.
  is_move. constructor.
Qed.

Lemma death_performs count w w' new : REALM_ASSERTIONS_ENABLED = true ->
  death_ended count w = Some (w', new) -> performs w [] (flight new) w'.
Proof.
  intros He Hr. unfold death_ended in Hr. mstep Hr; [by apply advance_stop in Ha as [? _]|].
  apply silent_performs. world_cases w'. is_silent.
Qed.

Lemma expire_performs w w' l : State_access_token_expired (m_state (session w)) w = Some (w', l) ->
  performs w [] (flight (after l [])) w'.
Proof.
  intros Hr. unfold State_access_token_expired in Hr; open_state Hr. destruct (m_state (session w)) eqn:Hst.
  2: { apply bind_inv in Hr as (w1 & l1 & (H1 & ->)%advance_expire & Hr); [|done]. cbn [while_held] in Hr. by mstep Hr. }
  all: mstep Hr; apply silent_performs; world_cases w'; is_silent.
Qed.

Lemma revive_performs w w' new : core_ok (core w) -> revive_if_needed w = Some (w', new) ->
  performs w [] (flight new) w'.
Proof.
  intros [_ Ha _ _] Hr. unfold revive_if_needed in Hr.
  apply bind_inv in Hr as (w1 & st & Hs & Hr). mstep Hs. apply bind_inv in Hr as (w2 & [l b] & Hs & Hr).
  unfold State_revive_if_needed in Hs; open_state Hs. destruct (m_state (session w1)) eqn:Hst.
  - world_cases w1. minv Hs. mstep Hr. apply silent_performs. is_silent.
  - mstep Hs. mstep Hr. apply silent_performs. world_cases w'. is_silent.
  - apply bind_inv in Hs as (w3 & l3 & (H3 & -> & _)%advance_activate & Hs); [|by right|by apply Ha; right].
    mstep Hs. by mstep Hr.
  - apply bind_inv in Hs as (w3 & l3 & (H3 & ->)%advance_revive & Hs); [|done].
    mstep Hs. by mstep Hr.
Qed.

Lemma handle_error_performs e w w' new : REALM_ASSERTIONS_ENABLED = true ->
  handle_error e w = Some (w', new) -> performs w [] (flight new) w'.
Proof.
  intros He Hr. unfold handle_error in Hr.
  apply bind_inv in Hr as (w1 & st & Hs & Hr). mstep Hs. apply bind_inv in Hr as (w2 & [l b] & Hs & Hr).
  unfold State_handle_error in Hs; open_state Hs. destruct (m_state (session w1)) eqn:Hst;
    try (mstep Hs; mstep Hr; apply silent_performs; world_cases w'; is_silent).
  destruct (is_fatal e); [|mstep Hs; mstep Hr; apply silent_performs; world_cases w'; is_silent].
  apply bind_inv in Hs as (w3 & l3 & [H3 _]%advance_stop & Hs); [|done].
  mstep Hs. by mstep Hr.
Qed.

Lemma resync_performs w w' new : REALM_ASSERTIONS_ENABLED = true ->
  start_resync w = Some (w', new) -> performs w [] (flight new) w'.
Proof.
  intros He Hr. unfold start_resync in Hr. world_cases w. minv Hr. apply advance_stop in Ha as [H2 [rest ->]]; [|done].
  refine (performs_perm _ _ _ _ _ (performs_trans _ [] (a1 ++ a2) _ [] _ _ _ H2) _).
  - unfold next_resync_counter in Heqo. case_bool_decide; [|done]. is_move. simplify_eq. by apply move_resync.
  - cbn [after]. rewrite app_nil_r, flight_app. cbn. rewrite app_nil_r. apply Permutation_app_comm.
Qed.

Lemma restore_performs dl' ul' w w' new : (0 < m_client_resync_counter (session w))%Z ->
  restore_callbacks dl' ul' w = Some (w', new) -> performs w (dl' ++ ul') (flight new) w'.
Proof.
  intros Hk Hr. unfold restore_callbacks in Hr. world_cases w. cbn in Hk. minv Hr.
  eapply performs_move; [trace_grows|]. rewrite filter_discarded. by apply move_restore.
Qed.

Lemma reject_performs e w w' new : reject_authentication e w = Some (w', new) -> performs w [] (flight new) w'.
Proof.
  intros Hr. unfold reject_authentication in Hr.
  apply bind_inv in Hr as (w1 & u & Hu & Hr). mstep Hu. apply bind_inv in Hr as (w2 & rest & Hc%cancel_performs & Hr).
  mstep Hr. rewrite flight_app. by destruct (user _); rewrite app_nil_r.
Qed.

Lemma finish_performs next e w w' new : REALM_ASSERTIONS_ENABLED = true ->
  finish_error next e w = Some (w', new) -> performs w [] (flight new) w'.
Proof.
  intros He Hr. unfold finish_error in Hr. destruct next.
  - mstep Hr. apply silent_performs. world_cases w'. is_silent.
  - apply bind_inv in Hr as (w1 & l & [H1 [rest ->]]%advance_stop & Hr); [|done]. mstep Hr. cbn [after] in *.
    rewrite app_nil_r in H1. by rewrite flight_app, app_nil_r.
  - apply bind_inv in Hr as (w1 & rest & Hc%cancel_performs & Hr). mstep Hr. by rewrite flight_app, app_nil_r.
Qed.

Lemma update_performs c w w' new : REALM_ASSERTIONS_ENABLED = true ->
  update_configuration c w = Some (w', new) -> performs w [] (flight new) w'.
Proof.
  intros He Hr. unfold update_configuration in Hr. apply bind_inv in Hr as (w1 & st & Hs & Hr). mstep Hs.
  destruct (bool_decide _).
  - apply bind_inv in Hr as (w2 & l & [H1 [rest ->]]%advance_stop & Hr); [|done]. mstep Hr. cbn [after] in *.
    rewrite app_nil_r in H1. by rewrite flight_app, app_nil_r.
  - world_cases w1. minv Hr. apply silent_performs. is_silent.
Qed.

(** ** The other tasks *)

(** A task that leaves nothing with handlers behind. *)
Definition quiet (w : World) (r : option (World * list task)) : Prop :=
  forall w' new, r = Some (w', new) -> silent w w' /\ flight new = [].

Lemma quiet_performs w r w' new : quiet w r -> r = Some (w', new) -> performs w [] (flight new) w'.
Proof. intros Hq [Hs ->]%Hq. by apply silent_performs. Qed.

Lemma callbacks_loop_quiet old new r w : quiet w (callbacks_loop old new r w).
Proof.
  intros w' l Hr. unfold callbacks_loop in Hr. world_cases w. minv Hr; (split; [is_silent|]).
  by destruct (_.2).
Qed.

Lemma unclaimed_quiet e w : quiet w (handle_unclaimed_error e w).
Proof.
  intros w' new Hr. unfold handle_unclaimed_error in Hr. mstep Hr; (split; [by world_cases w'; is_silent|done]).
Qed.

Lemma mark_quiet e b w : quiet w (run (Mark_file e b) w).
Proof.
  intros w' new Hr. cbn [run] in Hr. unfold update_error_and_mark_file_for_deletion in Hr. world_cases w.
  minv Hr; (split; [is_silent|done]).
Qed.

Lemma unregister_quiet w : quiet w (unregister_session w).
Proof.
  intros w' new Hr. unfold unregister_session in Hr. mstep Hr.
  - split; [world_cases w'; is_silent|done].
  - split; [world_cases w; is_silent|done].
Qed.

Lemma external_reference_quiet w : quiet w (external_reference w).
Proof.
  intros w' new Hr. unfold external_reference in Hr. world_cases w. minv Hr; (split; [is_silent|done]).
Qed.

(** Tasks that only read and assign members the specification does not have. *)
Definition is_plain (t : task) : bool :=
  match t with
  | Register_progress_notifier _ _ _ | Unregister_progress_notifier _ | Register_connection_change_callback _
  | Unregister_connection_change_callback _ | Set_multiplex_identifier _ | Set_url_prefix _ | Override_server _
  | Set_sync_transact_callback _ | Nonsync_transact_notify _ | Connection_state_changed _ _
  | Sync_transacted _ _ | Nonsync_transact_notify_locked _ | Notify_disconnected _
  | Handle_reconnect | Call_bind_session_handler | Call_connection_callback _ _ _ | Call_progress _
  | Call_error_handler _ | Invalidate_user _ => true
  | _ => false
  end.

Lemma plain_quiet t w : is_plain t = true -> quiet w (run t w).
Proof.
  intros Ht w' new Hr. world_cases w.
  destruct t; try discriminate Ht; cbn [run] in Hr;
    unfold register_progress_notifier, in_state, State_handle_reconnect, State_override_server,
      State_nonsync_transact_notify, connection_state_changed in Hr; open_state Hr; unfold the_session in Hr;
    minv Hr; (split; [is_silent|first [done|by destruct error]]).
Qed.

Lemma flight_progress l : flight (Call_progress <$> l) = [].
Proof. induction l as [|i l IH]; [done|]. exact IH. Qed.

Lemma progress_quiet d1 d2 u1 u2 v1 v2 w : quiet w (handle_progress_update d1 d2 u1 u2 v1 v2 w).
Proof.
  intros w' new Hr. unfold handle_progress_update in Hr. world_cases w. minv Hr.
  split; [is_silent|apply flight_progress].
Qed.

Lemma drop_performs w w' new : REALM_ASSERTIONS_ENABLED = true -> core_ok (core w) ->
  did_drop_external_reference w = Some (w', new) -> performs w [] (flight new) w'.
Proof.
  intros He Hok Hr. unfold did_drop_external_reference in Hr. apply bind_inv in Hr as (w1 & alive & Ha & Hr).
  simplify_eq. destruct (referenced w1).
  - mstep Hr. apply silent_performs. world_cases w'. is_silent.
  - apply bind_inv in Hr as (w2 & l & Hc%close_performs & Hr); [|done..]. by mstep Hr.
Qed.

Lemma in_state_performs f w w' new : in_state f w = Some (w', new) ->
  (forall l, f (m_state (session w)) w = Some (w', l) -> performs w [] (flight (after l [])) w') ->
  performs w [] (flight new) w'.
Proof.
  intros Hr Hf. unfold in_state in Hr. apply bind_inv in Hr as (w1 & st & Hs & Hr). mstep Hs.
  apply bind_inv in Hr as (w2 & l & Hl & Hr). mstep Hr. by apply Hf.
Qed.

(** Every task is a sequence of moves. *)
Lemma run_performs t w w' new : REALM_ASSERTIONS_ENABLED = true -> core_ok (core w) ->
  (forall d u, t = Restore_callbacks d u -> 0 < m_client_resync_counter (session w))%Z ->
  run t w = Some (w', new) -> performs w (in_flight t) (flight new) w'.
Proof.
  intros He Hok Hk Hr. destruct (is_plain t) eqn:Ht.
  { replace (in_flight t) with (@nil nat) by by destruct t. by eapply quiet_performs; [apply plain_quiet|]. }
  destruct t; try discriminate Ht; cbn [run in_flight] in *.
  - by eapply wait_performs.
  - by eapply revive_performs.
  - unfold refresh_access_token in Hr. apply bind_inv in Hr as (w1 & url & Hu & Hr). mstep Hu.
    destruct (bool_decide (_ = None) && _) eqn:Hb.
    + mstep Hr. apply silent_performs. world_cases w'. is_silent.
    + apply bind_inv in Hr as (w2 & st & Hs & Hr). mstep Hs. apply bind_inv in Hr as (w3 & l & Hl & Hr). mstep Hr.
      eapply refresh_performs; [done..| |done].
      apply andb_false_iff in Hb as [Hb|Hb]; apply bool_decide_eq_false in Hb; auto.
  - eapply in_state_performs; [done|]. intros l Hl. eapply close_performs; done.
  - eapply in_state_performs; [done|]. intros l Hl. by eapply log_out_performs.
  - by eapply update_performs.
  - by eapply quiet_performs; [apply external_reference_quiet|].
  - by eapply drop_performs.
  - destruct h; [by eapply death_performs|by eapply completion_performs].
  - by eapply quiet_performs; [apply progress_quiet|].
  - by eapply quiet_performs; [apply callbacks_loop_quiet|unfold invoke_callbacks in Hr; minv Hr].
  - by eapply quiet_performs; [apply callbacks_loop_quiet|unfold continue_callbacks in Hr; minv Hr].
  - by eapply handle_error_performs.
  - by eapply quiet_performs; [apply unclaimed_quiet|].
  - by eapply resync_performs.
  - eapply restore_performs; [by eapply Hk|done].
  - eapply in_state_performs; [done|]. intros l Hl. by eapply expire_performs.
  - by eapply reject_performs.
  - by eapply quiet_performs; [apply mark_quiet|].
  - by eapply finish_performs.
  - world_cases w. minv Hr. is_move. apply move_call.
  - by eapply quiet_performs; [apply unregister_quiet|].
Qed.
End moves.
