(* ===== verification/SyncReach.v ===== *)
(** * Reachable sync sessions, and stuck ones

    The invariants of SyncSpec.v for every interleaving of the threads of a session,
    and the tasks that fail an assertion. *)

From stdpp Require Import strings.
From S2P Require Import Prelude SyncConfig SyncNotifiers SyncSession SyncSpec SyncRefinement.

(** ** Reachable sync sessions

    The invariants of SyncSpec.v for every interleaving of the threads of a
    session. *)

(** The functions of the waits that threads are about to end. *)
Definition ending (l : list task) : list handler :=
  l ≫= λ t, match t with Wait_ended h _ => [h] | _ => [] end.

(** Neither the end of a wait nor the return of handlers set aside. *)
Definition follows (t : task) : bool :=
  match t with Wait_ended _ _ | Restore_callbacks _ _ => false | _ => true end.

Lemma ending_app l l' : ending (l ++ l') = ending l ++ ending l'.
Proof. apply bind_app. Qed.

Lemma ending_follows l : Forall (λ t, follows t = true) l -> ending l = [].
Proof. induction 1 as [|t l Ht _ IH]; [done|]. cbn. unfold ending in IH. rewrite IH. by destruct t. Qed.

Ltac all_follow :=
  cbn [after]; repeat match goal with
  | |- Forall _ [] => constructor
  | |- Forall _ (_ :: _) => constructor
  | |- Forall _ (_ ++ _) => apply Forall_app; split
  | |- Forall _ (_ <$> _) => apply Forall_fmap, Forall_true
  | |- Forall _ (abort _) => apply Forall_fmap, Forall_true
  | |- Forall _ (match ?x with _ => _ end) => destruct x
  | |- follows _ = true => reflexivity
  | |- forall _, _ => intros
  | |- _ => reflexivity
  end; try done.

Section follows.
Context `{HB : Build, HS : Surroundings, HP : PackageOrder}.

Abbreviation followed new := (Forall (λ t, follows t = true) new).

Lemma stop_follows w w' l : Inactive_enter_state w = Some (w', l) -> followed (after l []).
Proof. intros Hr. unfold Inactive_enter_state, destroy_session, unregister in Hr. mstep Hr; all_follow. Qed.

Lemma advance_follows st w w' l : advance_state st w = Some (w', l) -> followed (after l []).
Proof.
  intros [_ Hr]%advance_inv. destruct st; cbn [enter_state] in Hr; [..|by eapply stop_follows].
  - unfold WaitingForAccessToken_enter_state in Hr. mstep Hr. all_follow.
  - unfold Active_enter_state in Hr. mstep Hr; all_follow.
  - unfold Dying_enter_state, async_wait_for_completion, the_session in Hr.
    apply bind_inv in Hr as (w1 & s & Hs & Hr). destruct s; [mstep Hr; all_follow|].
    apply advance_inv in Hr as [_ Hr]. by eapply stop_follows.
Qed.

Lemma after_follows l k : followed (after l []) -> followed k -> followed (after l k).
Proof. destruct l; cbn [after]; [done|]. rewrite app_nil_r. intros. by apply Forall_app. Qed.

Lemma close_follows st w w' l : State_close st w = Some (w', l) -> followed (after l []).
Proof.
  intros Hr. rewrite close_by_policy in Hr. unfold unregister in Hr. apply bind_inv in Hr as (w1 & policy & Hp & Hr).
  destruct st, policy; try (by eapply advance_follows); mstep Hr; all_follow.
Qed.

Lemma refresh_follows st tok server w w' l :
  State_refresh_access_token st tok server w = Some (w', l) -> followed (after l []).
Proof.
  intros Hr. destruct st; cbn [State_refresh_access_token] in Hr; open_state Hr; [|mstep Hr; all_follow..].
  unfold WaitingForAccessToken_refresh_access_token in Hr.
  apply bind_inv in Hr as (w1 & s & _ & Hr). apply bind_inv in Hr as (w2 & u & _ & Hr).
  apply bind_inv in Hr as (w3 & l3 & _ & Hr). destruct l3; [|done]. cbn [while_held] in Hr.
  apply bind_inv in Hr as (w4 & d & _ & Hr). destruct d; [|mstep Hr; all_follow].
  unfold close_now in Hr. apply bind_inv in Hr as (w5 & st & _ & Hr). by eapply close_follows.
Qed.

Lemma log_out_follows st w w' l : State_log_out st w = Some (w', l) -> followed (after l []).
Proof. intros Hr. destruct st; cbn in Hr; try (by eapply advance_follows). mstep Hr. all_follow. Qed.

Lemma expired_follows st w w' l : State_access_token_expired st w = Some (w', l) -> followed (after l []).
Proof.
  intros Hr. destruct st; cbn [State_access_token_expired] in Hr; open_state Hr; try (mstep Hr; all_follow; done).
  apply bind_inv in Hr as (w1 & l1 & _ & Hr). destruct l1; [|done]. cbn [while_held] in Hr. mstep Hr. all_follow.
Qed.

Lemma reconnect_follows st w w' l : State_handle_reconnect st w = Some (w', l) -> followed (after l []).
Proof. intros Hr. unfold State_handle_reconnect in Hr; open_state Hr. destruct st; mstep Hr; all_follow. Qed.

Lemma revive_follows st w w' r : State_revive_if_needed st w = Some (w', r) -> followed (after r.1 []).
Proof.
  intros Hr. destruct st; cbn [State_revive_if_needed] in Hr; open_state Hr; try (mstep Hr; all_follow; done).
  all: apply bind_inv in Hr as (w1 & l1 & Ha%advance_follows & Hr); by mstep Hr.
Qed.

Lemma error_follows st e w w' r : State_handle_error st e w = Some (w', r) -> followed (after r.1 []).
Proof.
  intros Hr. unfold State_handle_error in Hr; open_state Hr. destruct st; try (mstep Hr; all_follow; done).
  destruct (is_fatal e); [|mstep Hr; all_follow].
  apply bind_inv in Hr as (w1 & l1 & Ha%advance_follows & Hr). by mstep Hr.
Qed.

Lemma cancel_follows w w' new : cancel_pending_waits w = Some (w', new) -> followed new.
Proof. intros Hr. unfold cancel_pending_waits in Hr. mstep Hr. all_follow. Qed.

Lemma loop_follows old new r w w' l : callbacks_loop old new r w = Some (w', l) -> followed l.
Proof. intros Hr. unfold callbacks_loop in Hr. mstep Hr; all_follow. Qed.

Lemma in_state_follows f w w' new : in_state f w = Some (w', new) ->
  (forall st w w' l, f st w = Some (w', l) -> followed (after l [])) -> followed new.
Proof.
  intros Hr Hf. unfold in_state in Hr. apply bind_inv in Hr as (w1 & st & _ & Hr).
  apply bind_inv in Hr as (w2 & l & Hl%Hf & Hr). by mstep Hr.
Qed.

Ltac known_follows :=
  match goal with
  | Hm : advance_state _ _ = Some _ |- _ => apply advance_follows in Hm
  | Hm : State_close _ _ = Some _ |- _ => apply close_follows in Hm
  | Hm : State_refresh_access_token _ _ _ _ = Some _ |- _ => apply refresh_follows in Hm
  | Hm : State_revive_if_needed _ _ = Some _ |- _ => apply revive_follows in Hm
  | Hm : State_handle_error _ _ _ = Some _ |- _ => apply error_follows in Hm
  | Hm : cancel_pending_waits _ = Some _ |- _ => apply cancel_follows in Hm
  | Hm : callbacks_loop _ _ _ _ = Some _ |- _ => apply loop_follows in Hm
  end.

(** What follows a task. *)
Lemma run_follows t w w' new : run t w = Some (w', new) -> t <> Start_resync -> followed new.
Proof.
  intros Hr Ht. destruct t; cbn [run] in Hr; try done;
    try (by eapply in_state_follows; eauto using reconnect_follows, close_follows, log_out_follows, expired_follows).
  all: unfold wait_for_completion, register_progress_notifier, revive_if_needed, refresh_access_token, update_configuration,
    external_reference, did_drop_external_reference, close_now, connection_state_changed, handle_progress_update,
    invoke_callbacks, continue_callbacks, handle_error, handle_unclaimed_error, restore_callbacks, reject_authentication,
    finish_error, unregister_session, update_error_and_mark_file_for_deletion in Hr.
  all: try destruct h; unfold death_ended, completion_ended in *.
  all: mstep Hr; repeat known_follows; try (by apply after_follows; [done|all_follow]); all_follow.
Qed.

Lemma resync_new w w' new : REALM_ASSERTIONS_ENABLED = true -> (0 <= m_client_resync_counter (session w))%Z ->
  start_resync w = Some (w', new) -> ending new = [] /\ (0 < m_client_resync_counter (session w'))%Z.
Proof.
  intros He Hk Hr. unfold start_resync in Hr. world_cases w. cbn in Hk. minv Hr.
  pose proof (advance_follows _ _ _ _ Ha) as Hf. apply advance_stop in Ha as [(l' & t' & _ & _ & Hm) [rest ->]]; [|done].
  cbn [after] in *. rewrite app_nil_r in Hf. split.
  - by rewrite ending_app, (ending_follows _ Hf).
  - apply moves_counter in Hm. cbn in Hm. unfold next_resync_counter in *. case_bool_decide; simplify_eq. lia.
Qed.

Lemma completion_empties counter d ec w w' new : completion_ended counter d ec w = Some (w', new) ->
  counter = m_client_resync_counter (session w) -> c_callbacks d (core w') = [].
Proof.
  intros Hr ->. unfold completion_ended in Hr. world_cases w. cbn in *.
  destruct d; minv Hr; try done; by apply bool_decide_eq_true in Heqb.
Qed.

Lemma death_stops n w w' new : death_ended n w = Some (w', new) -> m_state (session w') = Dying ->
  n <> m_death_count (session w').
Proof.
  intros Hr Hst. unfold death_ended in Hr. mstep Hr.
  - apply advance_inv in Ha as [_ Ha]. cbn [enter_state] in Ha.
    unfold Inactive_enter_state, destroy_session, unregister in Ha. world_cases w. minv Ha; discriminate Hst.
  - intros ->. rewrite Hst in *. by rewrite !bool_decide_true in *.
Qed.
End follows.

(** ** What the trace says *)

Lemma path_filter s l s' : state_path s (List.filter logged l) s' -> state_path s l s'.
Proof.
  revert s. induction l as [|e l IH]; intros s Hp; [done|]. cbn in Hp. destruct (logged e) eqn:Hl.
  - inversion Hp; subst; [apply path_state|apply path_other]; auto.
  - apply path_other; [|by apply IH]. by destruct e.
Qed.

Lemma registered_filter l : registered (List.filter logged l) = registered l.
Proof. induction l as [|e l IH]; [done|]. cbn. destruct e; cbn; unfold registered in *; by rewrite ?IH. Qed.
Lemma called_filter l : called (List.filter logged l) = called l.
Proof. induction l as [|e l IH]; [done|]. cbn. destruct e; cbn; unfold called in *; by rewrite ?IH. Qed.
Lemma discarded_from_filter l : discarded (List.filter logged l) = discarded l.
Proof. induction l as [|e l IH]; [done|]. cbn. destruct e; cbn; unfold discarded in *; by rewrite ?IH. Qed.
Lemma dyings_filter l : dyings (List.filter logged l) = dyings l.
Proof. induction l as [|e l IH]; [done|]. cbn. unfold dyings in *. destruct e; cbn; try (by rewrite IH). by destruct new; cbn; rewrite IH. Qed.

(** The tasks of the threads before and after a thread goes on. *)
Lemma threads_run (ths : list (list task)) i t rest : ths !! i = Some (t :: rest) ->
  exists others, concat ths ≡ₚ t :: others /\ forall new, concat (<[i := new ++ rest]> ths) ≡ₚ new ++ others.
Proof.
  intros Hi. pose proof (lookup_lt_Some _ _ _ Hi) as Hlt. exists (rest ++ concat (take i ths) ++ concat (drop (S i) ths)). split.
  - rewrite <- (take_drop_middle _ _ _ Hi) at 1. rewrite concat_app. cbn. solve_Permutation.
  - intros new. rewrite insert_take_drop by done. rewrite concat_app. cbn. solve_Permutation.
Qed.

(** ** The invariant *)

Definition tasks (x : System) : list task := concat (threads x).

Record sys_ok (x : System) : Prop := {
  ok_core : core_ok (core (world x));
  ok_path : state_path Inactive (trace (world x)) (m_state (session (world x)));
  ok_handlers : registered (trace (world x)) ≡ₚ
    called (trace (world x)) ++ discarded (trace (world x)) ++ queued (core (world x)) ++ flight (tasks x);
  ok_restore : forall d u, Restore_callbacks d u ∈ tasks x -> (0 < m_client_resync_counter (session (world x)))%Z;
  ok_covered : m_client_resync_counter (session (world x)) = 0%Z -> covered (ending (tasks x)) (core (world x));
  ok_deaths : (Z.of_nat (dyings (trace (world x))) < 2 ^ 64)%Z ->
    m_death_count (session (world x)) = Z.of_nat (dyings (trace (world x)))
    /\ deaths_ok (ending (tasks x)) (core (world x));
}.

(** The threads in another order, or with tasks that have neither handlers nor
    waits. *)
Lemma has_wait_perm E E' c h : E ≡ₚ E' -> has_wait E c h -> has_wait E' c h.
Proof. intros Hp [?|?]; [by left|right; by rewrite <- Hp]. Qed.

Lemma deaths_ok_perm E E' c : E ≡ₚ E' -> deaths_ok E c -> deaths_ok E' c.
Proof.
  intros Hp [Hb Hd Hw]. assert (Hq : death_counts ((w_handler <$> c_waits c) ++ E) ≡ₚ death_counts ((w_handler <$> c_waits c) ++ E')).
  { apply bind_Permutation. by rewrite Hp. }
  split; [by rewrite <- Hq..|]. intros ?. eapply has_wait_perm; [done|by apply Hw].
Qed.

(** A wait that has been ended. *)
Lemma has_wait_ended h E c h' : has_wait (h :: E) c h' -> h <> h' -> has_wait E c h'.
Proof. intros [?|[->|?]%elem_of_cons]; [by left|done|by right]. Qed.

Lemma deaths_ok_ended h E c : deaths_ok (h :: E) c -> (c_state c = Dying -> h <> death_handler (c_deaths c)) ->
  deaths_ok E c.
Proof.
  intros [Hb Hd Hw] Hn.
  assert (Hp : death_counts ((w_handler <$> c_waits c) ++ h :: E) ≡ₚ
    death_counts [h] ++ death_counts ((w_handler <$> c_waits c) ++ E)).
  { rewrite <- death_counts_app. apply bind_Permutation. solve_Permutation. }
  rewrite Hp in Hb, Hd. apply Forall_app in Hb as [_ Hb]. apply NoDup_app in Hd as (_ & _ & Hd).
  split; [done..|]. intros Hst. eapply has_wait_ended; [by apply Hw|by apply Hn].
Qed.

(** The library hands a wait over to a thread. *)
Lemma has_wait_handed l1 x l2 E st s b u dl ul k n h :
  has_wait E (mkCore st s b u dl ul k n (l1 ++ x :: l2)) h ->
  has_wait (E ++ [w_handler x]) (mkCore st s b u dl ul k n (l1 ++ l2)) h.
Proof.
  intros [(y & Hy & Hs & <-)|?]; [|by right; apply elem_of_app; left]. cbn in *.
  apply elem_of_app in Hy as [Hy|[->|Hy]%elem_of_cons];
    [left; exists y|right; apply elem_of_app; right; by apply list_elem_of_singleton|left; exists y];
    (split; [apply elem_of_app; auto|done]).
Qed.

Lemma deaths_ok_handed l1 x l2 E st s b u dl ul k n :
  deaths_ok E (mkCore st s b u dl ul k n (l1 ++ x :: l2)) ->
  deaths_ok (E ++ [w_handler x]) (mkCore st s b u dl ul k n (l1 ++ l2)).
Proof.
  intros [Hb Hd Hw]. cbn in *.
  assert (Hp : death_counts ((w_handler <$> l1 ++ x :: l2) ++ E) ≡ₚ
    death_counts ((w_handler <$> l1 ++ l2) ++ E ++ [w_handler x])).
  { apply bind_Permutation. rewrite !fmap_app. cbn. solve_Permutation. }
  split; cbn; [by rewrite <- Hp..|]. intros Hst. by apply has_wait_handed, Hw.
Qed.

Section steps.
Context `{HB : Build, HS : Surroundings, HP : PackageOrder}.
Hypothesis assertions : REALM_ASSERTIONS_ENABLED = true.

(** What a task does to the waits that are being ended. *)
Lemma run_ending t w w' new others : core_ok (core w) ->
  (forall d u, t = Restore_callbacks d u -> 0 < m_client_resync_counter (session w))%Z ->
  run t w = Some (w', new) ->
  ending (new ++ others) = ending others
  /\ (m_client_resync_counter (session w') = 0%Z -> forall d u, Restore_callbacks d u ∉ new)
  /\ (m_client_resync_counter (session w) <= m_client_resync_counter (session w'))%Z.
Proof.
  intros Hok Hk Hr. pose proof (run_performs _ _ _ _ assertions Hok Hk Hr) as (l & t' & _ & _ & Hm).
  apply moves_counter in Hm. rewrite ending_app. assert (t = Start_resync \/ t <> Start_resync) as [->|Ht] by (destruct t; by auto).
  - destruct (resync_new w w' new assertions) as [-> Hc]; [apply Hok|done|]. split_and!; [done| |done]. lia.
  - apply run_follows in Hr; [|done]. rewrite (ending_follows _ Hr). split_and!; [done| |done].
    intros _ d u Hin. rewrite Forall_forall in Hr. by apply Hr in Hin.
Qed.

Lemma covered_run t others w w' new : core_ok (core w) ->
  (forall d u, t = Restore_callbacks d u -> 0 < m_client_resync_counter (session w))%Z ->
  run t w = Some (w', new) -> m_client_resync_counter (session w') = 0%Z ->
  covered (ending (t :: others)) (core w) -> covered (ending others) (core w').
Proof.
  intros Hok Hk Hr H0 Hc. pose proof (run_performs _ _ _ _ assertions Hok Hk Hr) as (l & t' & _ & _ & Hm).
  pose proof (moves_counter _ _ _ _ _ Hm) as Hcc. pose proof (counter_counts _ Hok) as Hc0. cbn in Hcc, Hc0.
  apply (moves_covered (ending (t :: others))) in Hm; [|done..].
  intros d Hst Hd. specialize (Hm d Hst Hd). destruct t; try exact Hm.
  eapply has_wait_ended; [exact Hm|]. intros ->. apply Hd. cbn in Hr. eapply completion_empties; [done|].
  cbn in *. lia.
Qed.

Lemma deaths_run t others w w' new l t' : run t w = Some (w', new) ->
  moves (core w) l (in_flight t) t' (core w') -> (0 <= c_deaths (core w))%Z ->
  (c_deaths (core w) + Z.of_nat (dyings l) < 2 ^ 64)%Z -> deaths_ok (ending (t :: others)) (core w) ->
  deaths_ok (ending others) (core w') /\ c_deaths (core w') = (c_deaths (core w) + Z.of_nat (dyings l))%Z.
Proof.
  intros Hr Hm Hn0 Hn Hd. apply (moves_deaths (ending (t :: others))) in Hm as [Hd' ->]; [|done..].
  split; [|done]. destruct t; try exact Hd'. eapply deaths_ok_ended; [exact Hd'|].
  intros Hst ->. cbn in Hr. by eapply death_stops.
Qed.

Lemma step_run_ok w ths i t rest w' new : sys_ok (mkSystem w ths) -> ths !! i = Some (t :: rest) ->
  run t w = Some (w', new) -> sys_ok (mkSystem w' (<[i := new ++ rest]> ths)).
Proof.
  intros [Hok Hp Hh Hre Hc Hd] Hi Hr. unfold tasks in *. cbn [world threads] in *.
  destruct (threads_run _ _ _ _ Hi) as (others & Ht & Hnew). specialize (Hnew new).
  assert (Hk : forall d u, t = Restore_callbacks d u -> (0 < m_client_resync_counter (session w))%Z).
  { intros d u ->. apply (Hre d u). rewrite Ht. by left. }
  pose proof (run_performs _ _ _ _ assertions Hok Hk Hr) as (l & t' & Htr & Htk & Hm).
  pose proof (run_ending _ _ _ _ others Hok Hk Hr) as (He & Hnr & Hle).
  assert (Hends : ending (concat (<[i:=new ++ rest]> ths)) ≡ₚ ending others).
  { rewrite <- He. by apply bind_Permutation. }
  assert (Hend : ending (concat ths) ≡ₚ ending (t :: others)) by by apply bind_Permutation.
  split; cbn [world threads]; unfold tasks; cbn [world threads].
  - by eapply moves_ok.
  - rewrite Htr. eapply state_path_app; [done|]. apply path_filter. by apply moves_path in Hm.
  - apply moves_accounts in Hm. rewrite registered_filter, called_filter, discarded_from_filter in Hm.
    assert (Hf : flight (concat (<[i:=new ++ rest]> ths)) ≡ₚ flight new ++ flight others).
    { rewrite <- flight_app. by apply bind_Permutation. }
    assert (Hf0 : flight (concat ths) ≡ₚ in_flight t ++ flight others) by (etransitivity; [by apply bind_Permutation|done]).
    rewrite Htr, registered_app, called_app, discarded_app, Hf, Hh, Hf0, <- Htk.
    transitivity (called (trace w) ++ discarded (trace w) ++ (queued (core w) ++ registered l ++ in_flight t) ++ flight others);
      [solve_Permutation|]. rewrite Hm. solve_Permutation.
  - intros d u. rewrite Hnew, elem_of_app. intros Hin.
    destruct (decide (m_client_resync_counter (session w') = 0%Z)) as [H0|H0];
      [|pose proof (counter_counts _ Hok) as Hc0; cbn in Hc0; lia].
    destruct Hin as [Hin|Hin]; [by apply Hnr in Hin|].
    enough (0 < m_client_resync_counter (session w))%Z by lia. apply (Hre d u). rewrite Ht. by right.
  - intros H0 d Hst Hdq. eapply has_wait_perm; [symmetry; exact Hends|]. eapply (covered_run t others); try done.
    intros d' Hst' Hd'. eapply has_wait_perm; [exact Hend|]. apply Hc; [|done..].
    pose proof (counter_counts _ Hok) as Hc0. cbn in Hc0. lia.
  - rewrite Htr, dyings_app. intros Hlt. destruct Hd as [Hn Hd]; [lia|].
    rewrite <- (dyings_filter l) in *. eapply (deaths_run t others) in Hm as [Hd' Hn'];
      [|done|cbn; lia|cbn; lia|by eapply deaths_ok_perm].
    split; [cbn in Hn'; lia|]. eapply deaths_ok_perm; [symmetry; exact Hends|done].
Qed.

(** A thread that starts with a task without handlers. *)
Lemma step_start_ok w ths t : sys_ok (mkSystem w ths) -> in_flight t = [] -> follows t = true ->
  sys_ok (mkSystem w (ths ++ [[t]])).
Proof.
  intros [Hok Hp Hh Hre Hc Hd] Hf Ht. unfold tasks in *. cbn [world threads] in *.
  assert (He : ending (concat (ths ++ [[t]])) = ending (concat ths)).
  { rewrite concat_app, ending_app, (ending_follows (concat [[t]])); [by rewrite app_nil_r|cbn; by constructor]. }
  split; unfold tasks; cbn [world threads]; try done; try (by rewrite He).
  - rewrite concat_app, flight_app. cbn. by rewrite Hf, !app_nil_r.
  - intros d u. rewrite concat_app, elem_of_app. intros [Hin|[<-|[]%elem_of_nil]%elem_of_cons]; [by eapply Hre|done].
Qed.

Lemma step_ok x y : sys_ok x -> step x y -> sys_ok y.
Proof.
  intros Hx Hs. revert Hx.
  destruct Hs as [w ths i t rest w' new Hi Hr|w ths t Ht|w ths t Ht _|w ths l1 r l2 _|w ths l1 x' l2 ec Hw _]; intros Hx.
  - by eapply step_run_ok.
  - apply step_start_ok; [done|by destruct t..].
  - apply step_start_ok; [done|by destruct t..].
  - apply step_start_ok; [by destruct Hx; split|done..].
  - destruct Hx as [Hok Hp Hh Hre Hc Hd]. unfold tasks in *. cbn [world threads] in *.
    assert (He : ending (concat (ths ++ [[Wait_ended (w_handler x') ec]])) = ending (concat ths) ++ [w_handler x']).
    { by rewrite concat_app, ending_app. }
    world_cases w. cbn in Hw. subst ws. split; unfold tasks; cbn [world threads without_wait]; rewrite ?He.
    + by destruct Hok.
    + done.
    + rewrite concat_app, flight_app. cbn [concat app]. rewrite app_nil_r. exact Hh.
    + intros d u. rewrite concat_app, elem_of_app. intros [Hin|[?|[]%elem_of_nil]%elem_of_cons]; [by eapply Hre|done].
    + intros H0 d Hst Hq. apply has_wait_handed. by apply (Hc H0 d).
    + intros Hlt. destruct (Hd Hlt) as [Hn Hd']. split; [done|by apply deaths_ok_handed].
Qed.

Lemma initial_ok x : initial x -> sys_ok x.
Proof.
  intros (path & config & force & bound & ->). split; unfold tasks; cbn [world threads initial_world].
  - split; cbn; try done; intros [|]; done.
  - constructor.
  - done.
  - intros d u []%elem_of_nil.
  - intros _ d [|]; done.
  - intros _. split; [done|]. split; [constructor..|done].
Qed.

Lemma reachable_ok x : reachable x -> sys_ok x.
Proof. induction 1; [by apply initial_ok|by eapply step_ok]. Qed.
End steps.

(** ** Schedules

    A step that is determined by a label, so that runs can be computed. *)

Inductive label :=
  | l_run (i : nat)
  | l_start (t : task)
  | l_drop (i : nat)
  | l_wait (i : nat) (ec : error_code).

Section schedules.
Context `{HB : Build, HS : Surroundings, HP : PackageOrder}.

Definition follow (a : label) (x : System) : option System :=
  match a with
  | l_run i =>
      match threads x !! i with
      | Some (t :: rest) =>
          match run t (world x) with
          | Some (w', new) => Some (mkSystem w' (<[i := new ++ rest]> (threads x)))
          | None => None
          end
      | _ => None
      end
  | l_start t =>
      if is_call t || is_report t && bool_decide (0 < next_session (world x))
      then Some (mkSystem (world x) (threads x ++ [[t]])) else None
  | l_drop i =>
      match references (world x) !! i with
      | Some _ => Some (mkSystem (without_reference (vec_erase i (references (world x))) (world x))
                          (threads x ++ [[Did_drop_external_reference]]))
      | None => None
      end
  | l_wait i ec =>
      match waits (world x) !! i with
      | Some y =>
          if bool_decide (m_session (session (world x)) = Some (w_session y)) || bool_decide (ec = operation_aborted)
          then Some (mkSystem (without_wait (vec_erase i (waits (world x))) (world x))
                       (threads x ++ [[Wait_ended (w_handler y) ec]]))
          else None
      | None => None
      end
  end.

Fixpoint schedule (l : list label) (x : System) : option System :=
  match l with [] => Some x | a :: l => y ← follow a x; schedule l y end.

Lemma follow_step a x y : follow a x = Some y -> step x y.
Proof.
  destruct x as [w ths], a as [i|t|i|i ec]; cbn; intros Hf.
  - repeat case_match; simplify_eq. by eapply step_run.
  - destruct (is_call t) eqn:?; cbn in Hf; [simplify_eq; by apply step_call|].
    destruct (is_report t) eqn:?; cbn in Hf; [|done]. case_bool_decide; simplify_eq. by apply step_report.
  - case_match eqn:Hl; simplify_eq. eapply step_drop. symmetry. by apply take_drop_middle.
  - case_match eqn:Hl; [|done]. destruct (_ || _) eqn:Hb; simplify_eq.
    eapply step_wait; [symmetry; by apply take_drop_middle|]. intros Hn.
    apply orb_true_iff in Hb as [Hb|Hb]; by apply bool_decide_eq_true in Hb.
Qed.

Lemma schedule_reachable l x y : reachable x -> schedule l x = Some y -> reachable y.
Proof.
  revert x. induction l as [|a l IH]; intros x Hx Hs; cbn in Hs; [by simplify_eq|].
  destruct (follow a x) as [z|] eqn:Hf; [|done]. eapply IH; [|done]. eapply reachable_step; [done|by eapply follow_step].
Qed.
End schedules.

(** ** When a sync session asserts

    The tasks that fail an assertion or reach undefined behaviour, and in which
    worlds. *)

(** Where a task cannot go on. *)
Definition stuck `{Build, Surroundings} (w : World) (t : task) : Prop :=
  let s := session w in
  match t with
  | Unregister_session => m_sessions w = false
  | Start_resync => m_state s = Inactive \/ (2 ^ 31 - 1 <= m_client_resync_counter s)%Z
  | Finish_error next_inactive _ => m_state s = Inactive
  | Update_configuration c =>
      m_state s = Inactive /\ ~ (user (m_config s) = user c
        /\ reference_realm_url (m_config s) = reference_realm_url c /\ is_partial (m_config s) = is_partial c)
  | Mark_file _ _ => has_metadata_manager = true /\ (realm_url (m_config s) = None \/ user (m_config s) = None)
  | Continue_callbacks _ _ => next_callback (m_connection_change_notifier s) = None
  | _ => False
  end.

Section stuck.
Context `{HB : Build, HS : Surroundings, HP : PackageOrder}.
Hypothesis assertions : REALM_ASSERTIONS_ENABLED = true.

Lemma bind_none {A B} (m : M A) (f : A -> M B) w : mbind f m w = None ->
  m w = None \/ exists w' a, m w = Some (w', a) /\ f a w' = None.
Proof. unfold mbind, M_bind. destruct (m w) as [[w' a]|]; [by right; eauto|by left]. Qed.

Lemma assert_none b w : assert b w = None -> b = false.
Proof. unfold assert, lift, REALM_ASSERT, REALM_ASSERT_RELEASE. rewrite assertions. by destruct b. Qed.

Lemma assert_true w : assert true w = Some (w, tt).
Proof. unfold assert, lift. by rewrite REALM_ASSERT_true. Qed.

Lemma assert_fails b w : b = false -> assert b w = None.
Proof. intros ->. unfold assert, lift, REALM_ASSERT, REALM_ASSERT_RELEASE. by rewrite assertions. Qed.
End stuck.

(** Takes a computation that failed apart: one goal per place where it may
    fail. *)
Ltac mfail Hm :=
  lazymatch type of Hm with
  | mbind _ _ _ = None =>
      let w := fresh "w" in let a := fresh "a" in let Ha := fresh "Ha" in
      apply bind_none in Hm as [Hm|(w & a & Ha & Hm)];
      [mfail Hm|cbv beta in Hm; mstep Ha; try (members_in Hm; mfail Hm)]
  | assert _ _ = None => apply assert_none in Hm; [|assumption]
  | lift ?o _ = None => unfold lift in Hm; destruct o eqn:?; [discriminate Hm|]
  | (if ?b then _ else _) _ = None => destruct b eqn:?; mfail Hm
  | (match ?x with _ => _ end) _ = None => destruct x eqn:?; mfail Hm
  | _ => unfold get, mret, M_ret, modify, emit, emit_all, add_wait, new_session, new_reference, set_sessions in Hm;
      try discriminate Hm
  end.

Section total.
Context `{HB : Build, HS : Surroundings, HP : PackageOrder}.
Hypothesis assertions : REALM_ASSERTIONS_ENABLED = true.

(** [mfail], with the assumption on the build. *)
Lemma stop_total w : m_state (session w) = Inactive -> Inactive_enter_state w <> None.
Proof.
  intros Hst Hr. unfold Inactive_enter_state, destroy_session, unregister in Hr. world_cases w. cbn in Hst. subst st.
  members_in Hr. destruct se; mfail Hr; by apply bool_decide_eq_false in Hr.
Qed.

Lemma advance_none new w : advance_state new w = None ->
  (new = Active -> is_Some (m_session (session w))) -> new = m_state (session w).
Proof.
  intros Hr Hs. unfold advance_state, advance_into in Hr. world_cases w. cbn in Hs.
  members_in Hr. mfail Hr; [apply bool_decide_eq_false in Hr; cbn; by destruct (decide (new = a))|].
  exfalso. destruct new; cbn [enter_state] in Hr; [..|by eapply stop_total, Hr].
  - unfold WaitingForAccessToken_enter_state in Hr. mfail Hr.
  - unfold Active_enter_state, add_completion_callback, async_wait_for_completion, the_session in Hr.
    destruct Hs as [s ->]; [done|]. mfail Hr; done.
  - unfold Dying_enter_state, async_wait_for_completion, the_session, advance_into in Hr. destruct se; mfail Hr; try done.
    by eapply stop_total, Hr.
Qed.

Lemma close_total w : core_ok (core w) -> close_now w <> None.
Proof.
  intros [Hi Ha _ _] Hr. unfold close_now in Hr. cbn in Hi, Ha. apply bind_none in Hr as [Hr|(w1 & st & Hs & Hr)]; [done|].
  mstep Hs. rewrite close_by_policy in Hr. apply bind_none in Hr as [Hr|(w2 & policy & Hp & Hr)]; [done|].
  destruct policy; mstep Hp; destruct (m_state (session w2)) eqn:Hst;
    try (mfail Hr; done); try (apply advance_none in Hr; [by rewrite Hst in Hr|done]).
  all: unfold unregister in Hr; mfail Hr; rewrite Hst in Hr; by apply bool_decide_eq_false in Hr.
Qed.

Lemma refresh_total tok server w : core_ok (core w) -> m_server_url (session w) <> None \/ server <> None ->
  State_refresh_access_token (m_state (session w)) tok server w <> None.
Proof.
  intros Hok Hu Hr. destruct (m_state (session w)) eqn:Hst; cbn [State_refresh_access_token] in Hr; open_state Hr.
  2: { destruct Hok as [_ Ha _ _]. cbn in Ha. destruct Ha as [s Hs]; [by left|]. unfold the_session in Hr.
       mfail Hr; by simplify_eq. }
  2-3: mfail Hr.
  unfold WaitingForAccessToken_refresh_access_token in Hr.
  apply bind_none in Hr as [Hr|(w1 & s & Hb & Hr)].
  { unfold bind_session, create_sync_session, the_session in Hr. world_cases w.
    destruct se as [id|], bound; mfail Hr; simplify_eq; repeat case_match; simplify_eq; try done; by destruct Hu. }
  pose proof (bind_session_performs _ _ _ _ _ Hst Hu Hb) as (H1 & Hst1 & Hs1).
  apply bind_none in Hr as [Hr|(w2 & u & H2%announce_deferred_silent & Hr)].
  { unfold announce_deferred in Hr. world_cases w1. destruct ovr, dcn; mfail Hr. }
  pose proof (silent_state _ _ H2) as [Hst2 Hs2].
  apply bind_none in Hr as [Hr|(w3 & l3 & H3 & Hr)].
  { apply advance_none in Hr; [|by rewrite Hs2]. by rewrite Hst2, Hst1 in Hr. }
  apply advance_activate in H3 as (H3 & -> & _); [|rewrite Hst2; by left|by rewrite Hs2].
  cbn [while_held] in Hr. apply bind_none in Hr as [Hr|(w4 & d & Hd & Hr)]; [done|]. mstep Hd.
  destruct (m_deferred_close (session w4)); [|done]. eapply close_total, Hr.
  by eapply performs_ok, performs_ok, performs_ok; [exact H3|apply silent_performs, H2|exact H1|].
Qed.

Lemma in_state_total f w : f (m_state (session w)) w <> None -> in_state f w <> None.
Proof.
  intros Hf Hr. unfold in_state in Hr. apply bind_none in Hr as [Hr|(w1 & st & Hs & Hr)]; [done|]. mstep Hs.
  by apply bind_none in Hr as [Hr|(w2 & l & _ & Hr)].
Qed.

Lemma log_out_total w : State_log_out (m_state (session w)) w <> None.
Proof.
  intros Hr. destruct (m_state (session w)) eqn:Hst; cbn [State_log_out] in Hr; open_state Hr; try done;
    by apply advance_none in Hr; [rewrite Hst in Hr|].
Qed.

Lemma reconnect_total w : core_ok (core w) -> State_handle_reconnect (m_state (session w)) w <> None.
Proof.
  intros [_ Ha _ _] Hr. cbn in Ha. destruct (m_state (session w)) eqn:Hst; cbn [State_handle_reconnect] in Hr; open_state Hr; try done.
  destruct Ha as [s Hs]; [by left|]. unfold the_session in Hr. mfail Hr. by simplify_eq.
Qed.

Lemma expired_total w : State_access_token_expired (m_state (session w)) w <> None.
Proof.
  intros Hr. destruct (m_state (session w)) eqn:Hst; cbn [State_access_token_expired] in Hr; open_state Hr; try done.
  apply bind_none in Hr as [Hr|(w1 & l & (_ & ->)%advance_expire & Hr)]; [|done|done].
  apply advance_none in Hr; [by rewrite Hst in Hr|done].
Qed.

Lemma revive_total w : core_ok (core w) -> revive_if_needed w <> None.
Proof.
  intros [_ Ha _ _] Hr. unfold revive_if_needed in Hr. cbn in Ha.
  apply bind_none in Hr as [Hr|(w1 & st & Hs & Hr)]; [done|]. mstep Hs.
  apply bind_none in Hr as [Hr|(w2 & l & _ & Hr)]; [|done].
  destruct (m_state (session w1)) eqn:Hst; cbn [State_revive_if_needed] in Hr; open_state Hr; try done.
  - apply bind_none in Hr as [Hr|(w2 & l & _ & Hr)]; [|done].
    apply advance_none in Hr; [by rewrite Hst in Hr|by auto].
  - apply bind_none in Hr as [Hr|(w2 & l & _ & Hr)]; [|done]. apply advance_none in Hr; [by rewrite Hst in Hr|done].
Qed.

Lemma handle_error_total e w : handle_error e w <> None.
Proof.
  intros Hr. unfold handle_error in Hr. apply bind_none in Hr as [Hr|(w1 & st & Hs & Hr)]; [done|]. mstep Hs.
  apply bind_none in Hr as [Hr|(w2 & l & _ & Hr)]; [|done].
  destruct (m_state (session w1)) eqn:Hst; cbn [State_handle_error] in Hr; open_state Hr; try done.
  destruct (is_fatal e); [|done].
  apply bind_none in Hr as [Hr|(w2 & l & _ & Hr)]; [|done]. apply advance_none in Hr; [by rewrite Hst in Hr|done].
Qed.

Lemma wait_total d c w : core_ok (core w) -> wait_for_completion d c w <> None.
Proof.
  intros [_ Ha _ _] Hr. world_cases w. cbn in Ha.
  unfold wait_for_completion, State_wait_for_completion in Hr. open_state Hr.
  unfold add_completion_callback, async_wait_for_completion, the_session in Hr.
  destruct d, st; mfail Hr; destruct Ha; auto; simplify_eq; by apply bool_decide_eq_false in Hr.
Qed.

Lemma death_total n w : death_ended n w <> None.
Proof.
  intros Hr. unfold death_ended in Hr. apply bind_none in Hr as [Hr|(w1 & st & Hs & Hr)]; [done|]. mstep Hs.
  apply bind_none in Hr as [Hr|(w2 & k & Hs & Hr)]; [done|]. mstep Hs.
  destruct (bool_decide (_ = Dying)) eqn:Hd; [|done]. apply bool_decide_eq_true in Hd. cbn [andb] in Hr.
  case_bool_decide; [|done]. apply bind_none in Hr as [Hr|(w3 & l & _ & Hr)]; [|done].
  apply advance_none in Hr; [by rewrite Hd in Hr|done].
Qed.

Lemma plain_total t w : core_ok (core w) -> is_plain t = true -> run t w <> None.
Proof.
  intros Hok Ht Hr. destruct t; try discriminate Ht; cbn [run] in Hr;
    try (by eapply in_state_total; [by apply reconnect_total|exact Hr]); destruct Hok as [_ Ha _ _]; cbn in Ha;
    world_cases w; unfold register_progress_notifier, connection_state_changed,
      State_override_server, State_nonsync_transact_notify in Hr; open_state Hr; unfold the_session in Hr; mfail Hr; try done;
    destruct Ha; auto; simplify_eq.
Qed.

Lemma first_callback_total n : first_callback n <> None.
Proof.
  unfold first_callback, next_callback. cbn. case_bool_decide as Hlt; [|done].
  pose proof (u64_range (m_callback_index n + 1)) as Hr.
  destruct (m_callbacks n !! _) eqn:Hl; [done|]. apply lookup_ge_None in Hl. lia.
Qed.

Lemma loop_none old new r w : callbacks_loop old new r w = None <-> r = None.
Proof. unfold callbacks_loop, mbind, M_bind, lift. destruct r as [[]|]; cbn; [|done]. by destruct o. Qed.

(** The tasks that may get stuck. *)
Lemma mark_none e b w : run (Mark_file e b) w = None <-> stuck w (Mark_file e b).
Proof.
  cbn [run stuck]. unfold update_error_and_mark_file_for_deletion, mbind, M_bind, get, lift.
  destruct has_metadata_manager; cbn; [|by split; [|intros []]].
  destruct (realm_url _), (user _); cbn; (split; [intros Hr; by auto|by intros [_ []]]).
Qed.

Lemma update_none c w : core_ok (core w) -> run (Update_configuration c) w = None <-> stuck w (Update_configuration c).
Proof.
  intros [Hi _ _ _]. cbn [run stuck]. cbn in Hi. unfold update_configuration. split.
  - intros Hr. apply bind_none in Hr as [Hr|(w1 & st & Hs & Hr)]; [done|]. mstep Hs. case_bool_decide as Hst.
    + exfalso. apply bind_none in Hr as [Hr|(w2 & l & _ & Hr)]; [|done]. by apply advance_none in Hr; [rewrite Hr in Hst|].
    + split; [done|]. intros (Hu & Hrl & Hp). world_cases w1. cbn in *.
      mfail Hr; apply bool_decide_eq_false in Hr; (by destruct Hr; auto).
  - intros [Hst Hn]. match goal with |- ?m w = None => destruct (m w) as [[w' new]|] eqn:Hr; [exfalso|done] end.
    world_cases w. cbn in Hst, Hn. subst st.
    minv Hr; try by apply bool_decide_eq_true in Heqb. apply Hn. split_and!; apply (bool_decide_eq_true _); auto.
Qed.

Lemma resync_none w : start_resync w = None <-> stuck w Start_resync.
Proof.
  cbn [stuck]. unfold start_resync. split.
  - intros Hr. world_cases w. members_in Hr. mfail Hr; cbn [session m_state m_client_resync_counter].
    + right. unfold next_resync_counter in *. case_bool_decide; [done|lia].
    + left. by apply advance_none in Hr.
  - intros Hs. match goal with |- ?m w = None => destruct (m w) as [[w' new]|] eqn:Hr; [exfalso|done] end.
    world_cases w. cbn in Hs. minv Hr. apply advance_inv in Ha as [Hst _]. cbn in Hst.
    destruct Hs as [->|Hs]; [by apply Hst|]. unfold next_resync_counter in *. case_bool_decide; [lia|done].
Qed.

Lemma finish_none next e w : finish_error next e w = None <-> stuck w (Finish_error next e).
Proof.
  unfold finish_error. cbn [stuck]. destruct next; [done| |done]. split.
  - intros Hr. apply bind_none in Hr as [Hr|(w1 & l & _ & Hr)]; [|done]. by apply advance_none in Hr.
  - intros Hs. match goal with |- ?m w = None => destruct (m w) as [[w' new]|] eqn:Hr; [exfalso|done] end.
    apply bind_inv in Hr as (w1 & l & [Hst _]%advance_inv & _). by apply Hst.
Qed.

Lemma unregister_none w : unregister_session w = None <-> stuck w Unregister_session.
Proof.
  unfold unregister_session, mbind, M_bind. cbn [stuck]. destruct (m_sessions w) eqn:Hm.
  - rewrite assert_true. by destruct (referenced w).
  - by rewrite (assert_fails assertions).
Qed.

Lemma update_total c w : core_ok (core w) -> update_configuration c w = None <-> stuck w (Update_configuration c).
Proof. apply (update_none c w). Qed.

(** The exact set of failures. *)
Lemma run_stuck t w : core_ok (core w) -> run t w = None <-> stuck w t.
Proof.
  intros Hok. assert (Hno : run t w <> None -> stuck w t = False -> run t w = None <-> stuck w t).
  { intros Hn ->. by split. }
  destruct (is_plain t) eqn:Ht; [apply Hno; [by apply plain_total|by destruct t]|].
  destruct t; try discriminate Ht; cbn [run stuck].
  all: try (apply Hno; [|reflexivity]; cbn [run]).
  - by apply wait_total.
  - by apply revive_total.
  - intros Hr. unfold refresh_access_token in Hr. apply bind_none in Hr as [Hr|(w1 & url & Hu & Hr)]; [done|]. mstep Hu.
    destruct (bool_decide (_ = None) && _) eqn:Hb; [done|].
    apply bind_none in Hr as [Hr|(w2 & st & Hs & Hr)]; [done|]. mstep Hs.
    apply bind_none in Hr as [Hr|(w3 & l & _ & Hr)]; [|done]. eapply refresh_total; [done| |exact Hr].
    apply andb_false_iff in Hb as [Hb|Hb]; apply bool_decide_eq_false in Hb; auto.
  - apply in_state_total. intros Hr. apply (close_total w Hok). unfold close_now, mbind, M_bind, get. exact Hr.
  - apply in_state_total, log_out_total.
  - by apply update_total.
  - intros Hr. unfold external_reference, mbind, M_bind in Hr. by destruct (referenced w).
  - intros Hr. unfold did_drop_external_reference in Hr.
    apply bind_none in Hr as [Hr|(w1 & alive & Ha & Hr)]; [done|]. simplify_eq. destruct (referenced w1); [done|].
    apply bind_none in Hr as [Hr|(w2 & l & _ & Hr)]; [by eapply close_total|done].
  - destruct h; [apply death_total|]. intros Hr. unfold completion_ended in Hr. mfail Hr.
  - intros Hr. unfold handle_progress_update in Hr. mfail Hr.
  - intros Hr. unfold invoke_callbacks in Hr. apply bind_none in Hr as [Hr|(w1 & n & Hn & Hr)]; [done|].
    by apply loop_none, first_callback_total in Hr.
  - unfold continue_callbacks, mbind, M_bind, get. apply loop_none.
  - by apply handle_error_total.
  - intros Hr. unfold handle_unclaimed_error in Hr. mfail Hr.
  - apply resync_none.
  - intros Hr. unfold restore_callbacks in Hr. mfail Hr.
  - apply in_state_total, expired_total.
  - intros Hr. unfold reject_authentication, cancel_pending_waits in Hr. mfail Hr.
  - apply mark_none.
  - apply finish_none.
  - done.
  - apply unregister_none.
Qed.
End total.
