(* ===== verification/SyncRuns.v ===== *)
(** * Methods of a sync session that run without interference, and its notifiers

    What an invocation of the connection callbacks visits, what an update does to
    the registered progress notifiers, and what [update_configuration] and a client
    resync do when no other thread runs in between and the callbacks do not use the
    session. *)

From stdpp Require Import strings.
From S2P Require Import Prelude SyncConfig SyncNotifiers SyncSession SyncSpec SyncRefinement.

(** ** Connection callbacks *)

(** The callbacks that an invocation has not reached. *)
Definition remaining (s : ConnectionChangeNotifier) : list Callback :=
  drop (Z.to_nat (m_callback_index s +! 1)) (take (Z.to_nat (m_callback_count s)) (m_callbacks s)).

(** An invocation is between two callbacks. *)
Record in_loop (s : ConnectionChangeNotifier) : Prop := {
  loop_size : (Z.of_nat (length (m_callbacks s)) < 2 ^ 63)%Z;
  loop_count : (0 <= m_callback_count s <= Z.of_nat (length (m_callbacks s)))%Z;
  loop_index : m_callback_index s = npos \/ (0 <= m_callback_index s < m_callback_count s)%Z;
  loop_tokens : NoDup (token <$> m_callbacks s);
}.

(** No invocation is under way. *)
Record idle (s : ConnectionChangeNotifier) : Prop := {
  idle_size : (Z.of_nat (length (m_callbacks s)) < 2 ^ 63)%Z;
  idle_index : m_callback_index s = npos;
  idle_tokens : NoDup (token <$> m_callbacks s);
}.

Lemma next_index s : in_loop s ->
  (0 <= m_callback_index s +! 1 <= m_callback_count s)%Z
  /\ (m_callback_index s = npos /\ m_callback_index s +! 1 = 0
      \/ 0 <= m_callback_index s /\ m_callback_index s +! 1 = m_callback_index s + 1)%Z.
Proof.
  intros [Hs Hc [->|Hi] _].
  - assert (Hz : npos +! 1 = 0%Z) by reflexivity. rewrite Hz. split; [lia|by left].
  - rewrite u64_small by lia. split; [lia|right; lia].
Qed.

Lemma next_callback_end s : in_loop s -> remaining s = [] -> next_callback s = Some (with_index npos s, None).
Proof.
  intros Hl Hr. pose proof (next_index s Hl) as [Hi _]. destruct Hl as [Hs Hc _ _]. unfold next_callback, remaining in *.
  cbn. rewrite bool_decide_false; [done|]. intros Hlt.
  apply (f_equal length) in Hr. rewrite length_drop, length_take in Hr. cbn in Hr. lia.
Qed.

Lemma next_callback_visits s c l : in_loop s -> remaining s = c :: l ->
  exists s', next_callback s = Some (s', Some (fn c)) /\ in_loop s' /\ remaining s' = l
    /\ m_callbacks s' = m_callbacks s /\ m_callback_count s' = m_callback_count s.
Proof.
  intros Hl Hr. pose proof (next_index s Hl) as [Hi _]. destruct Hl as [Hs Hc Hx Ht]. unfold next_callback, remaining in *.
  set (i := m_callback_index s +! 1) in *.
  assert (Hlen : Z.to_nat i < Z.to_nat (m_callback_count s)).
  { destruct (decide (Z.to_nat i < Z.to_nat (m_callback_count s))) as [|Hge]; [done|].
    rewrite drop_ge in Hr by (rewrite length_take; lia). done. }
  exists (with_index i s). cbn. rewrite bool_decide_true by lia. split_and!; [|split; cbn; auto; right; lia| |done..].
  - assert (Hc0 : m_callbacks s !! Z.to_nat i = Some c).
    { rewrite <- (lookup_take_lt _ (Z.to_nat (m_callback_count s))) by lia.
      rewrite <- (Nat.add_0_r (Z.to_nat i)), <- lookup_drop, Hr. done. }
    by rewrite Hc0.
  - rewrite u64_small by lia. rewrite Z2Nat.inj_add by lia. rewrite Nat.add_comm. cbn.
    change (S (Z.to_nat i)) with (1 + Z.to_nat i). rewrite Nat.add_comm, <- drop_drop, Hr. by destruct l.
Qed.

Lemma first_callback_loop s : idle s -> exists s0,
  first_callback s = next_callback s0 /\ in_loop s0 /\ remaining s0 = m_callbacks s
  /\ m_callbacks s0 = m_callbacks s /\ m_callback_count s0 = Z.of_nat (length (m_callbacks s0)).
Proof.
  intros [Hs Hi Ht]. eexists. split; [reflexivity|]. split_and!; [split; cbn; auto; lia| |done..].
  unfold remaining. cbn. rewrite Hi. rewrite Nat2Z.id, take_ge by lia. done.
Qed.

(** ** Removal during an invocation *)

Lemma filter_tokens (t : Z) (l : list Callback) : t ∉ token <$> l -> filter (λ c, token c <> t) l = l.
Proof.
  induction l as [|c l IH]; intros Hn; [done|]. cbn in Hn. apply not_elem_of_cons in Hn as [Hc Hl].
  rewrite filter_cons_True by auto. by rewrite IH.
Qed.

Lemma found_token t l i : find_index (λ c, bool_decide (token c = t)) l = Some i ->
  exists l1 c l2, l = l1 ++ c :: l2 /\ i = length l1 /\ token c = t.
Proof.
  intros Hf. destruct (find_index_cases (λ c, bool_decide (token c = t)) l) as [[_ Hn]|(l1 & x & l2 & -> & _ & Hx & Hs)];
    rewrite Hf in *; [done|]. simplify_eq. exists l1, x, l2. by apply bool_decide_eq_true in Hx.
Qed.

Lemma not_found_token t l : find_index (λ c, bool_decide (token c = t)) l = None -> t ∉ token <$> l.
Proof.
  intros Hf. destruct (find_index_cases (λ c, bool_decide (token c = t)) l) as [[Hn _]|(l1 & x & l2 & -> & _ & Hx & Hs)];
    [|by rewrite Hf in Hs]. rewrite list_elem_of_fmap. intros (c & -> & Hc). rewrite Forall_forall in Hn.
  specialize (Hn c Hc). by apply bool_decide_eq_false in Hn.
Qed.

(** What is left to visit when the callback between [l1] and [l2] goes. *)
Lemma drop_without (t : Z) l1 c l2 i : t ∉ token <$> l1 -> token c = t -> t ∉ token <$> l2 ->
  drop (if decide (length l1 < i) then i - 1 else i) (l1 ++ l2) = filter (λ c, token c <> t) (drop i (l1 ++ c :: l2)).
Proof.
  intros H1 Hc H2. case_decide as Hi.
  - rewrite !drop_app_ge by lia. replace (i - length l1) with (S (i - 1 - length l1)) by lia. cbn.
    symmetry. apply filter_tokens. intros Hin. apply H2. apply list_elem_of_fmap in Hin as (d & -> & Hd).
    apply list_elem_of_fmap_2. by apply subseteq_drop in Hd.
  - rewrite !drop_app_le by lia. rewrite filter_app, filter_cons_False by auto.
    rewrite (filter_tokens t l2 H2), filter_tokens; [done|]. intros Hin. apply H1.
    apply list_elem_of_fmap in Hin as (d & -> & Hd). apply list_elem_of_fmap_2. by apply subseteq_drop in Hd.
Qed.

(** The index after the removal of the callback at [n]. *)
Lemma removed_index n index count : (index = npos \/ 0 <= index < count)%Z -> (count < 2 ^ 63)%Z -> (Z.of_nat n < count)%Z ->
  let index' := if bool_decide (index <> npos) && bool_decide (Z.of_nat n <= index)%Z then index -! 1 else index in
  (index' = npos \/ 0 <= index' < count - 1)%Z
  /\ Z.to_nat (index' +! 1) = if decide (n < Z.to_nat (index +! 1)) then Z.to_nat (index +! 1) - 1 else Z.to_nat (index +! 1).
Proof.
  intros [->|Hi] Hc Hn; cbn zeta.
  - assert (Hz : npos +! 1 = 0%Z) by reflexivity. rewrite bool_decide_false by auto. cbn [andb]. rewrite Hz.
    split; [by left|]. by rewrite decide_False by lia.
  - rewrite bool_decide_true by (unfold npos; lia). cbn [andb]. rewrite (u64_small (index + 1)) by lia.
    case_bool_decide as Hni.
    + rewrite decide_True by lia. destruct (decide (index = 0%Z)) as [->|Hz].
      * split; [by left|reflexivity].
      * rewrite (u64_small (index - 1)) by lia. rewrite u64_small by lia. split; [right; lia|lia].
    + rewrite decide_False by lia. rewrite u64_small by lia. split; [right; lia|done].
Qed.

Lemma remove_callback_remaining t s : in_loop s -> t ∉ token <$> drop (Z.to_nat (m_callback_count s)) (m_callbacks s) ->
  in_loop (remove_callback t s) /\ remaining (remove_callback t s) = filter (λ c, token c <> t) (remaining s).
Proof.
  intros Hl Hin. pose proof (next_index s Hl) as [Hi Hix]. unfold remove_callback.
  destruct (find_index _ _) as [idx|] eqn:Hf.
  2: { split; [done|]. symmetry. apply filter_tokens. apply not_found_token in Hf. intros Hr. apply Hf.
       apply list_elem_of_fmap in Hr as (c & -> & Hc). apply list_elem_of_fmap. exists c. split; [done|].
       unfold remaining in Hc. by apply subseteq_drop, subseteq_take in Hc. }
  apply found_token in Hf as (l1 & c & l2 & Hcs & -> & Ht).
  destruct Hl as [Hs Hc Hx Hnd]. unfold remaining. rewrite Hcs in *. clear Hcs.
  rewrite length_app in *. cbn [length] in *.
  (* the removed callback is among those that are counted *)
  assert (Hlt : length l1 < Z.to_nat (m_callback_count s)).
  { destruct (decide (length l1 < Z.to_nat (m_callback_count s))) as [|Hge]; [done|]. destruct Hin.
    rewrite drop_app_le by lia. rewrite fmap_app. cbn. rewrite Ht. apply elem_of_app. right. by left. }
  rewrite fmap_app, fmap_cons, Ht, NoDup_app, NoDup_cons in Hnd. destruct Hnd as (Hnd1 & Hd & Hn2 & Hnd2).
  assert (Hn1 : t ∉ token <$> l1) by (intros H1; apply (Hd t H1); by left).
  set (i := m_callback_index s +! 1) in *. set (k := Z.to_nat (m_callback_count s) - length l1 - 1).
  assert (Htake : take (Z.to_nat (m_callback_count s)) (l1 ++ c :: l2) = l1 ++ c :: take k l2).
  { rewrite take_app_ge by lia. f_equal. replace (_ - _) with (S k) by lia. done. }
  assert (Htake' : take (Z.to_nat (m_callback_count s -! 1)) (l1 ++ l2) = l1 ++ take k l2).
  { rewrite u64_small by lia. rewrite take_app_ge by lia. do 2 f_equal. lia. }
  assert (Hnk : t ∉ token <$> take k l2).
  { intros Hk. apply Hn2. apply list_elem_of_fmap in Hk as (d & -> & Hdk). apply list_elem_of_fmap_2.
    by apply subseteq_take in Hdk. }
  destruct (removed_index (length l1) (m_callback_index s) (m_callback_count s)) as [Hx' Hi']; [done|lia..|].
  rewrite Htake, <- (drop_without t l1 c (take k l2) _ Hn1 Ht Hnk). cbn [m_callbacks m_callback_index m_callback_count].
  rewrite vec_erase_app, Htake', Hi'. split; [|done].
  split; cbn [m_callbacks m_callback_index m_callback_count];
    [rewrite length_app; lia|rewrite length_app, u64_small by lia; lia
    |rewrite (u64_small (m_callback_count s - 1)) by lia; exact Hx'|].
  rewrite fmap_app. apply NoDup_app. split_and!; [done| |done].
  intros x H1 H2. apply (Hd x H1). by right.
Qed.

(** The loop of [invoke_callbacks] when each callback [cb] removes the callbacks
    with the tokens [act cb]: the callbacks that are called. *)
Fixpoint invoke_loop (fuel : nat) (act : nat -> list Z) (s : ConnectionChangeNotifier) :
    option (ConnectionChangeNotifier * list nat) :=
  match fuel with
  | O => None
  | S fuel =>
      r ← next_callback s;
      match r.2 with
      | None => Some (r.1, [])
      | Some cb =>
          r ← invoke_loop fuel act (foldr remove_callback r.1 (act cb));
          Some (r.1, cb :: r.2)
      end
  end.

Definition invoke_removing (fuel : nat) (act : nat -> list Z) (s : ConnectionChangeNotifier) :
    option (ConnectionChangeNotifier * list nat) :=
  r ← first_callback s;
  match r.2 with
  | None => Some (r.1, [])
  | Some cb => r ← invoke_loop fuel act (foldr remove_callback r.1 (act cb)); Some (r.1, cb :: r.2)
  end.

(** The callbacks in their order, without those an earlier one has removed. *)
Fixpoint visit (act : nat -> list Z) (gone : list Z) (l : list Callback) : list nat :=
  match l with
  | [] => []
  | c :: l => if decide (token c ∈ gone) then visit act gone l else fn c :: visit act (gone ++ act (fn c)) l
  end.

Lemma visit_equiv act gone gone' l : (forall t, t ∈ gone <-> t ∈ gone') -> visit act gone l = visit act gone' l.
Proof.
  revert gone gone'. induction l as [|c l IH]; intros gone gone' Hg; [done|]. cbn.
  destruct (decide (token c ∈ gone)) as [Hc|Hc], (decide (token c ∈ gone')) as [Hc'|Hc'];
    [by apply IH|by rewrite Hg in Hc|by rewrite Hg in Hc|].
  f_equal. apply IH. intros t. by rewrite !elem_of_app, Hg.
Qed.

Lemma visit_filter act t gone l : visit act (t :: gone) l = visit act gone (filter (λ c, token c <> t) l).
Proof.
  revert gone. induction l as [|c l IH]; intros gone; [done|]. cbn [visit].
  destruct (decide (token c = t)) as [Hc|Hc].
  - rewrite filter_cons_False by auto. rewrite decide_True by (rewrite Hc; by left). apply IH.
  - rewrite filter_cons_True by done. cbn [visit]. destruct (decide (token c ∈ gone)) as [Hg|Hg].
    + rewrite decide_True by by right. apply IH.
    + rewrite decide_False by (rewrite not_elem_of_cons; auto). f_equal.
      change ((t :: gone) ++ act (fn c)) with (t :: (gone ++ act (fn c))). apply IH.
Qed.

(** Every callback is counted. *)
Definition all_counted (s : ConnectionChangeNotifier) : Prop :=
  m_callback_count s = Z.of_nat (length (m_callbacks s)).

Lemma remove_callback_one t s : in_loop s -> all_counted s ->
  in_loop (remove_callback t s) /\ all_counted (remove_callback t s)
  /\ remaining (remove_callback t s) = filter (λ c, token c <> t) (remaining s).
Proof.
  intros Hl Hc. destruct (remove_callback_remaining t s Hl) as [Hl' Hr].
  { rewrite Hc, Nat2Z.id, drop_ge by lia. apply not_elem_of_nil. }
  split_and!; [done| |done]. clear Hl' Hr. unfold all_counted, remove_callback in *.
  destruct (find_index _ _) as [i|] eqn:Hf; [|done]. apply found_token in Hf as (l1 & c & l2 & Hcs & -> & _).
  destruct Hl as [Hs _ _ _]. cbn. rewrite Hc, Hcs in *. rewrite vec_erase_app, !length_app in *. cbn in *.
  rewrite u64_small; lia.
Qed.

Lemma remove_many act ts s : in_loop s -> all_counted s ->
  let s' := foldr remove_callback s ts in
  in_loop s' /\ all_counted s' /\ (forall gone, visit act gone (remaining s') = visit act (gone ++ ts) (remaining s))
  /\ length (remaining s') <= length (remaining s).
Proof.
  intros Hl Hc. induction ts as [|t ts IH]; cbn; [split_and!; try done; intros gone; by rewrite app_nil_r|].
  destruct IH as (Hl' & Hc' & Hv & Hn). destruct (remove_callback_one t _ Hl' Hc') as (Hl2 & Hc2 & ->). split_and!; [done..| |].
  - intros gone. rewrite <- visit_filter, Hv. apply visit_equiv. intros x. cbn. rewrite elem_of_cons, !elem_of_app, elem_of_cons. tauto.
  - etransitivity; [apply length_filter|done].
Qed.

Lemma invoke_loop_visits act fuel s : in_loop s -> all_counted s -> length (remaining s) < fuel ->
  exists s', invoke_loop fuel act s = Some (s', visit act [] (remaining s)) /\ m_callback_index s' = npos.
Proof.
  revert s. induction fuel as [|fuel IH]; intros s Hl Hc Hf; [lia|]. cbn [invoke_loop].
  destruct (remaining s) as [|c l] eqn:Hr.
  - rewrite (next_callback_end s Hl Hr). cbn. by eexists.
  - destruct (next_callback_visits s c l Hl Hr) as (s1 & -> & Hl1 & <- & Hcs & Hcc). cbn [mbind option_bind fst snd].
    assert (Hc1 : all_counted s1) by (unfold all_counted in *; congruence).
    destruct (remove_many act (act (fn c)) s1 Hl1 Hc1) as (Hl2 & Hc2 & Hv & Hn).
    destruct (IH _ Hl2 Hc2) as (s' & Hs' & Hi'); [cbn in Hf; lia|]. exists s'. split; [|done].
    rewrite Hs'. cbn. by rewrite decide_False, Hv by apply not_elem_of_nil.
Qed.

Lemma invoke_removing_visits act s : idle s ->
  exists s', invoke_removing (S (length (m_callbacks s))) act s = Some (s', visit act [] (m_callbacks s))
    /\ m_callback_index s' = npos.
Proof.
  intros Hi. destruct (first_callback_loop s Hi) as (s0 & Hf & Hl & Hr & _ & Hc).
  destruct (invoke_loop_visits act (S (S (length (m_callbacks s)))) s0 Hl Hc) as (s' & Hs & Hi'); [rewrite Hr; lia|].
  exists s'. split; [|done]. rewrite Hr in Hs. unfold invoke_removing. rewrite Hf. exact Hs.
Qed.

(** ** Progress *)

(** What an update makes of a package: nothing if the notifier has expired. *)
Definition updated_package (cur : Progress) (p : NotifierPackage) : option NotifierPackage :=
  let '(p', _, expired) := create_invocation p cur in if expired : bool then None else Some p'.

Definition package_invocation (cur : Progress) (p : NotifierPackage) : invocation := (create_invocation p cur).1.2.

Lemma update_fold cur l m acc : NoDup (fst <$> l) ->
  let r := foldl (λ acc entry, update_package cur entry acc) (m, acc) l in
  (forall t, r.1 !! t = match (list_to_map l : gmap Z NotifierPackage) !! t with
                        | Some p => updated_package cur p
                        | None => m !! t
                        end)
  /\ r.2 = acc ++ (package_invocation cur <$> (snd <$> l)).
Proof.
  revert m acc. induction l as [|[t p] l IH]; intros m acc Hnd r.
  - split; [done|cbn; by rewrite app_nil_r].
  - cbn in Hnd. apply NoDup_cons in Hnd as [Ht Hnd].
    destruct (create_invocation p cur) as [[p' inv] expired] eqn:Hp.
    assert (Hr : r = foldl (λ acc entry, update_package cur entry acc)
      (if expired then delete t m else <[t:=p']> m, acc ++ [inv]) l).
    { unfold r. cbn [foldl]. f_equal. unfold update_package. cbn [fst snd]. by rewrite Hp. }
    clearbody r. subst r. cbn [list_to_map foldr uncurry fst snd].
    destruct (IH (if expired then delete t m else <[t:=p']> m) (acc ++ [inv]) Hnd) as [Hm Ha]. split.
    + intros x. rewrite Hm. destruct (decide (x = t)) as [->|Hx].
      * rewrite lookup_insert_eq. rewrite (not_elem_of_list_to_map_1 _ _ Ht). unfold updated_package. rewrite Hp.
        destruct expired; [apply lookup_delete_eq|apply lookup_insert_eq].
      * rewrite lookup_insert_ne by done. destruct ((list_to_map l : gmap Z NotifierPackage) !! x); [done|].
        destruct expired; [by apply lookup_delete_ne|by apply lookup_insert_ne].
    + rewrite Ha, <- app_assoc. cbn. unfold package_invocation. by rewrite Hp.
Qed.

Lemma update_packages_spec `{PackageOrder} cur m :
  (forall t, (update_packages cur m).1 !! t = m !! t ≫= updated_package cur)
  /\ (update_packages cur m).2 ≡ₚ package_invocation cur <$> (snd <$> map_to_list m).
Proof.
  pose proof (package_order_perm m) as Hp.
  assert (Hnd : NoDup (fst <$> package_order m)) by (rewrite Hp; apply NoDup_fst_map_to_list).
  destruct (update_fold cur (package_order m) m [] Hnd) as [Hm Ha]. unfold update_packages. split.
  - intros t. rewrite Hm. assert (Hl : (list_to_map (package_order m) : gmap Z NotifierPackage) = m).
    { rewrite (list_to_map_proper _ _ Hnd Hp). apply list_to_map_to_list. }
    rewrite Hl. by destruct (m !! t).
  - rewrite Ha. cbn. by rewrite Hp.
Qed.

Section runs.
Context `{HB : Build, HS : Surroundings, HP : PackageOrder}.

(** A thread that ends. *)
Definition completes (l : list task) (w w' : World) : Prop := exists fuel, run_all fuel l w = Some w'.

Lemma completes_nil w : completes [] w w.
Proof. by exists 0. Qed.

Lemma completes_cons t l w w1 new w' : run t w = Some (w1, new) -> completes (new ++ l) w1 w' -> completes (t :: l) w w'.
Proof. intros Hr [fuel Hf]. exists (S fuel). cbn [run_all]. by rewrite Hr. Qed.

Lemma completes_app l1 l2 w w1 w2 : completes l1 w w1 -> completes l2 w1 w2 -> completes (l1 ++ l2) w w2.
Proof.
  intros [fuel Hf] H2. revert l1 w Hf. induction fuel as [|fuel IH]; intros [|t l1] w Hf; cbn [run_all] in Hf;
    simplify_eq; try done.
  destruct (run t w) as [[w3 new]|] eqn:Hr; [|done]. cbn. eapply completes_cons; [done|]. rewrite app_assoc. by apply IH.
Qed.

(** Nothing but calls: what a thread may change with them. *)
Record only_calls (w w' : World) (calls : list nat) : Prop := {
  calls_session : exists n, m_callback_index n = npos /\ m_callbacks n = m_callbacks (m_connection_change_notifier (session w))
    /\ session w' = set_connection_change_notifier n (session w);
  calls_references : references w' = references w;
  calls_waits : waits w' = waits w;
  calls_next : next_session w' = next_session w;
  calls_trace : exists l, trace w' = trace w ++ l /\ called l = calls;
}.

Lemma set_notifier_twice n n' s : set_connection_change_notifier n (set_connection_change_notifier n' s) =
  set_connection_change_notifier n s.
Proof. done. Qed.

Lemma only_calls_trans w1 w2 w3 l1 l2 : only_calls w1 w2 l1 -> only_calls w2 w3 l2 -> only_calls w1 w3 (l1 ++ l2).
Proof.
  intros [(n1 & Hi1 & Hc1 & Hs1) H1 H2 H3 (t1 & Ht1 & Hl1)] [(n2 & Hi2 & Hc2 & Hs2) H1' H2' H3' (t2 & Ht2 & Hl2)].
  split; try congruence.
  - exists n2. rewrite Hs1 in Hs2, Hc2. cbn in Hc2. split_and!; [done|congruence|]. by rewrite Hs2, set_notifier_twice.
  - exists (t1 ++ t2). rewrite called_app. split; [by rewrite Ht2, Ht1, app_assoc|congruence].
Qed.

Lemma only_calls_idle w w' l : only_calls w w' l -> idle (m_connection_change_notifier (session w)) ->
  idle (m_connection_change_notifier (session w')).
Proof. intros [(n & Hi & Hc & ->) _ _ _ _] [Hs _ Ht]. split; cbn; by rewrite ?Hc. Qed.

Lemma only_calls_abort l w : m_callback_index (m_connection_change_notifier (session w)) = npos ->
  exists w', completes (abort l) w w' /\ only_calls w w' l /\ m_sessions w' = m_sessions w.
Proof.
  revert w. induction l as [|c l IH]; intros w Hi.
  - exists w. split_and!; [apply completes_nil| |done]. split; [|done..|exists []; by rewrite app_nil_r].
    exists (m_connection_change_notifier (session w)). split_and!; [done..|]. by destruct (session w).
  - destruct (IH (mkWorld (session w) (m_sessions w) (references w) (next_reference w) (waits w) (next_session w)
      (trace w ++ [ev_completed c operation_aborted]))) as (w' & Hc & Ho & Hm); [done|].
    exists w'. split_and!; [by eapply completes_cons| |done].
    destruct Ho as [Hs H1 H2 H3 (t & Ht & Hl)]. split; [done..|]. exists (ev_completed c operation_aborted :: t).
    split; [by rewrite Ht; cbn; rewrite <- app_assoc|]. cbn. unfold called in Hl. by rewrite Hl.
Qed.

(** An invocation of the connection callbacks. *)
Lemma only_calls_loop old new k : forall w n0 l, in_loop n0 -> remaining n0 = l -> length l <= k ->
  m_callbacks n0 = m_callbacks (m_connection_change_notifier (session w)) ->
  exists w', (forall t, run t w = callbacks_loop old new (next_callback n0) w -> completes [t] w w')
    /\ only_calls w w' [] /\ m_sessions w' = m_sessions w.
Proof.
  induction k as [|k IH]; intros w n0 l Hl Hr Hk Hcs; (destruct l as [|c l]; [|try (cbn in Hk; lia)]).
  1-2: exists (mkWorld (set_connection_change_notifier (with_index npos n0) (session w)) (m_sessions w) (references w)
      (next_reference w) (waits w) (next_session w) (trace w)); split_and!; [| |done].
  1,3: intros t Ht; exists 1; cbn [run_all]; rewrite Ht, (next_callback_end n0 Hl Hr); reflexivity.
  1-2: split; [by exists (with_index npos n0)|done..|exists []; split; [by rewrite app_nil_r|done]].
  destruct (next_callback_visits n0 c l Hl Hr) as (n1 & Hn & Hl1 & Hr1 & Hc1 & _).
  set (w1 := mkWorld (set_connection_change_notifier n1 (session w)) (m_sessions w) (references w) (next_reference w)
    (waits w) (next_session w) (trace w ++ [ev_connection_change (fn c) old new])).
  destruct (IH w1 n1 l Hl1 Hr1 ltac:(cbn in Hk; lia) eq_refl) as (w' & Hc & Ho & Hm). exists w'. split_and!; [| |done].
  - intros t Ht. eapply completes_cons; [rewrite Ht, Hn; reflexivity|]. eapply completes_cons; [reflexivity|].
    apply Hc. reflexivity.
  - destruct Ho as [(n2 & Hi2 & Hc2 & Hs2) H1 H2 H3 (t & Ht & Hlt)]. split; [|done..|].
    + exists n2. split_and!; [done|cbn in Hc2; congruence|exact Hs2].
    + eexists. split; [rewrite Ht; cbn; by rewrite <- app_assoc|done].
Qed.

Lemma only_calls_invoke old new w : idle (m_connection_change_notifier (session w)) ->
  exists w', completes [Invoke_callbacks old new] w w' /\ only_calls w w' [] /\ m_sessions w' = m_sessions w.
Proof.
  intros Hi. destruct (first_callback_loop _ Hi) as (n0 & Hf & Hl & Hr & Hcs & _).
  destruct (only_calls_loop old new _ w n0 _ Hl Hr (le_n _) Hcs) as (w' & Hc & Ho & Hm).
  exists w'. split_and!; [|done..]. apply Hc. cbn [run]. unfold invoke_callbacks, mbind, M_bind, get. by rewrite Hf.
Qed.

(** ** Stopping *)

(** The session after [advance_state(lock, State::inactive)]. *)
Definition stopped (w : World) : World :=
  mkWorld (set_session None (set_upload_completion_callbacks [] (set_download_completion_callbacks []
      (set_connection_state Disconnected (set_state Inactive (session w))))))
    (m_sessions w) (references w) (next_reference w) (waits w) (next_session w)
    (trace w ++ ev_state (m_state (session w)) Inactive
       :: match m_session (session w) with Some s => [ev_destroy_session s] | None => [] end).

Definition stop_tasks (s : SyncSession) : list task :=
  Unregister_session :: (if bool_decide (m_connection_state s <> Disconnected) then [Notify_disconnected (m_connection_state s)] else [])
    ++ abort (m_download_completion_callbacks s) ++ abort (m_upload_completion_callbacks s).

Lemma advance_stops w : m_state (session w) <> Inactive ->
  advance_state Inactive w = Some (stopped w, Released (stop_tasks (session w))).
Proof.
  intros Hst. unfold advance_state, advance_into. world_cases w. cbn in Hst.
  unfold enter_state, Inactive_enter_state, destroy_session, unregister, stopped, stop_tasks, mbind, M_bind, get, assert, lift.
  cbn [session m_state]. rewrite REALM_ASSERT_decide by auto.
  unfold REALM_ASSERT. destruct REALM_ASSERTIONS_ENABLED, se; cbn; rewrite <- ?app_assoc, ?app_nil_r; try done.
Qed.

(** What follows when nothing interferes. *)
Lemma stop_tasks_run w : m_state (session w) <> Inactive -> m_sessions w = true ->
  idle (m_connection_change_notifier (session w)) ->
  exists w', completes (stop_tasks (session w)) (stopped w) w' /\ only_calls (stopped w) w' (queued (core w)).
Proof.
  intros Hst Hm Hi. set (w0 := stopped w). assert (Hi0 : idle (m_connection_change_notifier (session w0))) by done.
  (* the manager *)
  assert (exists w1, completes [Unregister_session] w0 w1 /\ only_calls w0 w1 []) as (w1 & Hc1 & Ho1).
  { exists (if referenced w0 then w0 else mkWorld (session w0) false (references w0) (next_reference w0) (waits w0)
      (next_session w0) (trace w0)). split.
    - exists 1. cbn [run_all run]. unfold unregister_session, mbind, M_bind, assert, lift.
      replace (m_sessions w0) with true by done. rewrite REALM_ASSERT_true by done. by destruct (referenced w0).
    - destruct (referenced w0); (split; [|done..|exists []; by rewrite app_nil_r]);
        exists (m_connection_change_notifier (session w0)); (split_and!; [apply Hi0|done|by destruct (session w)]). }
  (* the connection *)
  assert (exists w2, completes (if bool_decide (m_connection_state (session w) <> Disconnected)
      then [Notify_disconnected (m_connection_state (session w))] else []) w1 w2 /\ only_calls w0 w2 []) as (w2 & Hc2 & Ho2).
  { case_bool_decide; [|by exists w1; split; [apply completes_nil|]].
    destruct (only_calls_invoke (m_connection_state (session w)) (m_connection_state (session w1)) w1) as (w2 & Hc & Ho & _);
      [by eapply only_calls_idle|]. exists w2. split; [|by eapply (only_calls_trans _ _ _ [] [])].
    eapply completes_cons; [reflexivity|exact Hc]. }
  (* the handlers *)
  destruct (only_calls_abort (m_download_completion_callbacks (session w)) w2) as (w3 & Hc3 & Ho3 & _);
    [by eapply only_calls_idle|].
  pose proof (only_calls_trans _ _ _ _ _ Ho2 Ho3) as Ho23.
  destruct (only_calls_abort (m_upload_completion_callbacks (session w)) w3) as (w4 & Hc4 & Ho4 & _);
    [by eapply only_calls_idle|].
  exists w4. split; [|by apply (only_calls_trans _ _ _ _ _ Ho23 Ho4)].
  unfold stop_tasks. eapply (completes_app [_]); [exact Hc1|]. eapply completes_app; [exact Hc2|].
  by eapply completes_app.
Qed.

(** ** Reviving *)

(** The session asks for a token. *)
Definition revived (w : World) : World :=
  let s := set_deferred_close false (set_state WaitingForAccessToken (session w)) in
  mkWorld s (m_sessions w) (references w) (next_reference w) (waits w) (next_session w)
    (trace w ++ [ev_state Inactive WaitingForAccessToken; ev_bind_session_handler (bind_session_handler (m_config s)) (m_config s)]).

Lemma revive_completes w : m_state (session w) = Inactive -> completes [Revive_if_needed] w (revived w).
Proof.
  intros Hst. world_cases w. cbn in Hst. subst st. eapply completes_cons.
  - cbn [run]. unfold revive_if_needed, State_revive_if_needed, Inactive_revive_if_needed, advance_state, advance_into, enter_state,
      WaitingForAccessToken_enter_state, mbind, M_bind, get, mret, M_ret, assert, lift, modify, emit, emit_all.
    cbn [session m_state]. rewrite REALM_ASSERT_decide by done. reflexivity.
  - exists 1. cbn. unfold mbind, M_bind, get, emit, emit_all, mret, M_ret, revived. cbn. by rewrite <- app_assoc.
Qed.

Lemma only_calls_core_ok w w' l : only_calls w w' l -> core_ok (core w) -> core_ok (core w').
Proof. intros [(n & _ & _ & Hs) _ _ _ _] [Hi Ha Hb Hc]. split; cbn; rewrite Hs; done. Qed.

Lemma stopped_core_ok w : core_ok (core w) -> core_ok (core (stopped w)).
Proof. intros [_ _ _ Hc]. split; cbn; try done; by intros []. Qed.

(** ** A new configuration *)

Lemma update_when_inactive c w : core_ok (core w) -> m_state (session w) = Inactive ->
  user (m_config (session w)) = user c -> reference_realm_url (m_config (session w)) = reference_realm_url c ->
  is_partial (m_config (session w)) = is_partial c ->
  completes [Update_configuration c] w
    (revived (mkWorld (set_config c (session w)) (m_sessions w) (references w) (next_reference w) (waits w)
                (next_session w) (trace w))).
Proof.
  intros [Hi _ _ _] Hst Hu Hr Hp. eapply (completes_cons _ _ _ _ [Revive_if_needed]); [|apply revive_completes; exact Hst].
  cbn [run]. world_cases w. cbn in Hst, Hi, Hu, Hr, Hp. subst st. rewrite (Hi eq_refl).
  unfold update_configuration, mbind, M_bind, get, assert, lift. cbn [session m_state m_session m_config].
  rewrite bool_decide_false by auto. rewrite !bool_decide_true by done. unfold REALM_ASSERT.
  by destruct REALM_ASSERTIONS_ENABLED.
Qed.

Lemma update_completes c w : core_ok (core w) -> m_sessions w = true -> idle (m_connection_change_notifier (session w)) ->
  user (m_config (session w)) = user c -> reference_realm_url (m_config (session w)) = reference_realm_url c ->
  is_partial (m_config (session w)) = is_partial c ->
  exists w', completes [Update_configuration c] w w'
    /\ m_config (session w') = c /\ m_state (session w') = WaitingForAccessToken /\ m_session (session w') = None
    /\ last (trace w') = Some (ev_bind_session_handler (bind_session_handler c) c)
    /\ (m_state (session w) <> Inactive ->
         queued (core w') = [] /\ called (trace w') = called (trace w) ++ queued (core w)).
Proof.
  intros Hok Hm Hi Hu Hr Hp. destruct (decide (m_state (session w) = Inactive)) as [Hst|Hst].
  - eexists. split; [by apply update_when_inactive|]. split_and!; [done..| | |done].
    + cbn. apply (inactive_has_none _ Hok Hst).
    + cbn [trace revived]. by rewrite last_app.
  - destruct (stop_tasks_run w Hst Hm Hi) as (w1 & Hc & Ho).
    pose proof Ho as [(n & _ & _ & Hs) _ _ _ (l & Ht & Hl)]. eexists. split.
    + eapply completes_cons.
      * cbn [run]. unfold update_configuration, mbind, M_bind, get. cbn. rewrite bool_decide_true by done.
        rewrite (advance_stops w Hst). reflexivity.
      * rewrite app_nil_r. cbn [after]. eapply completes_app; [exact Hc|]. apply update_when_inactive; rewrite ?Hs; try done.
        eapply only_calls_core_ok; [exact Ho|by apply stopped_core_ok].
    + split_and!; [done..| | |intros _; split].
      * cbn. by rewrite Hs.
      * cbn [trace revived]. by rewrite last_app.
      * unfold queued. cbn. by rewrite Hs.
      * cbn [trace revived]. rewrite Ht. unfold stopped. cbn [trace]. rewrite !called_app, Hl.
        destruct (m_session (session w)); cbn; by rewrite !app_nil_r.
Qed.

(** ** A client resync *)

(** The session with the handlers moved aside. *)
Definition set_aside (w : World) : World :=
  mkWorld (set_upload_completion_callbacks [] (set_download_completion_callbacks []
      (set_client_resync_counter (m_client_resync_counter (session w) + 1) (set_force_client_resync true (session w)))))
    (m_sessions w) (references w) (next_reference w) (waits w) (next_session w) (trace w).

Lemma start_resync_run w : m_state (session w) <> Inactive -> (m_client_resync_counter (session w) < 2 ^ 31 - 1)%Z ->
  start_resync w = Some (stopped (set_aside w), stop_tasks (session (set_aside w))
    ++ [Restore_callbacks (m_download_completion_callbacks (session w)) (m_upload_completion_callbacks (session w));
        Revive_if_needed]).
Proof.
  intros Hst Hk. unfold start_resync, next_resync_counter, mbind at 1, mbind at 1, mbind at 1. unfold M_bind, modify, get, lift.
  cbn. rewrite bool_decide_true by done. unfold mbind, M_bind. cbn.
  change (mkWorld _ _ _ _ _ _ _) with (set_aside w). rewrite advance_stops by done. reflexivity.
Qed.

Lemma restore_run dl ul w : m_download_completion_callbacks (session w) = [] -> m_upload_completion_callbacks (session w) = [] ->
  run (Restore_callbacks dl ul) w = Some
    (mkWorld (set_upload_completion_callbacks ul (set_download_completion_callbacks dl (session w))) (m_sessions w)
       (references w) (next_reference w) (waits w) (next_session w) (trace w), []).
Proof.
  intros Hd Hu. cbn [run]. unfold restore_callbacks, mbind, M_bind, get, emit_all, modify, mret, M_ret.
  cbn. rewrite Hd, Hu. cbn. by rewrite app_nil_r.
Qed.

Lemma resync_completes e w : core_ok (core w) -> m_state (session w) = WaitingForAccessToken \/ m_state (session w) = Active ->
  is_client_reset_requested e = true -> client_resync_mode (m_config (session w)) <> Manual ->
  (m_client_resync_counter (session w) < 2 ^ 31 - 1)%Z ->
  m_sessions w = true -> idle (m_connection_change_notifier (session w)) ->
  exists w', completes [Handle_error e] w w'
    /\ m_state (session w') = WaitingForAccessToken /\ m_session (session w') = None
    /\ m_download_completion_callbacks (session w') = m_download_completion_callbacks (session w)
    /\ m_upload_completion_callbacks (session w') = m_upload_completion_callbacks (session w)
    /\ called (trace w') = called (trace w)
    /\ m_force_client_resync (session w') = true /\ m_config (session w') = m_config (session w)
    /\ m_client_resync_counter (session w') = (m_client_resync_counter (session w) + 1)%Z.
Proof.
  intros Hok Hst He Hmode Hk Hm Hi. assert (Hst0 : m_state (session w) <> Inactive) by (by destruct Hst as [->| ->]).
  destruct (stop_tasks_run (set_aside w)) as (w1 & Hc & Ho); [done..|].
  pose proof Ho as [(n & _ & _ & Hs) _ _ _ (l & Ht & Hl)].
  eexists. split.
  - (* the error is left to the session, which starts the resync *)
    eapply (completes_cons _ _ _ w [Handle_unclaimed_error e]).
    { cbn [run]. unfold handle_error, mbind, M_bind, get. by destruct Hst as [->| ->]. }
    eapply (completes_cons _ _ _ w [Start_resync]).
    { cbn [run]. unfold handle_unclaimed_error, mbind, M_bind, get. cbn [session]. rewrite He, bool_decide_true by done.
      reflexivity. }
    eapply completes_cons; [by apply start_resync_run|]. rewrite !app_nil_r.
    eapply completes_app; [exact Hc|].
    eapply (completes_cons _ _ _ _ []); [apply restore_run; by rewrite Hs|]. apply revive_completes. by rewrite Hs.
  - split_and!; cbn [session revived]; rewrite ?Hs; try done.
    cbn [trace revived]. rewrite Ht. unfold stopped. cbn [trace]. rewrite !called_app, Hl.
    unfold queued. cbn. rewrite !app_nil_r. destruct (m_session (session w)); cbn; by rewrite ?app_nil_r.
Qed.
End runs.
