(* ===== verification/SyncUsers.v ===== *)
(** * Sync users and their manager

    [SyncUser] (sync/sync_user.cpp), the registries of users and sessions of
    [SyncManager] (sync/sync_manager.cpp), and what both keep of the users in the
    metadata Realm (sync/impl/sync_metadata.cpp). *)

From stdpp Require Import strings.
From S2P Require Import Prelude.

#[local] Open Scope string_scope.
#[local] Open Scope list_scope.

(** ** Metadata of users

    The rows of the table, in its order. *)
Record UserRow := mkUserRow {
  idx_identity : string;
  idx_auth_server_url : string;
  idx_local_uuid : string;
  idx_user_token : option string;
  idx_user_is_admin : bool;
  idx_marked_for_removal : bool;
}.

Definition set_user_token (token : string) (r : UserRow) : UserRow :=
  mkUserRow (idx_identity r) (idx_auth_server_url r) (idx_local_uuid r) (Some token) (idx_user_is_admin r) (idx_marked_for_removal r).
Definition set_is_admin_row (is_admin : bool) (r : UserRow) : UserRow :=
  mkUserRow (idx_identity r) (idx_auth_server_url r) (idx_local_uuid r) (idx_user_token r) is_admin (idx_marked_for_removal r).
Definition set_marked (marked : bool) (r : UserRow) : UserRow :=
  mkUserRow (idx_identity r) (idx_auth_server_url r) (idx_local_uuid r) (idx_user_token r) (idx_user_is_admin r) marked.

Definition SyncUserIdentifier : Type := string * string.

Definition row_key (r : UserRow) : SyncUserIdentifier := (idx_identity r, idx_auth_server_url r).

(** The first result of the query. *)
Definition find_user (k : SyncUserIdentifier) (rows : list UserRow) : option nat :=
  find_index (λ r, bool_decide (row_key r = k)) rows.

Definition get_users (marked : bool) (rows : list UserRow) : list UserRow :=
  filter (λ r, idx_marked_for_removal r = marked) rows.

Section metadata.
(** What other processes commit before a write transaction begins. *)
Variable others : list UserRow -> list UserRow.

(** [uuid] is what [uuid_string] yields. The result is the position of the row. Left
    out: that the results are asserted to be fewer than two in debug builds
    ([results_below_two] shows it when the rows have different keys), and what others
    commit before the transaction that revives a row which is there: the row is an
    accessor and follows them. *)
Definition get_or_make_user_metadata (k : SyncUserIdentifier) (make_if_absent : bool) (uuid : string) (rows : list UserRow)
  : list UserRow * option nat :=
  match find_user k rows with
  | None =>
      if negb make_if_absent then (rows, None)
      else
        let rows := others rows in
        match find_user k rows with
        | None => (rows ++ [mkUserRow k.1 k.2 uuid None false false], Some (length rows))
        | Some i => (alter (set_marked false) i rows, Some i)
        end
  | Some i =>
      if default false (idx_marked_for_removal <$> rows !! i) then
        if make_if_absent then (alter (set_marked false) i rows, Some i) else (rows, None)
      else (rows, Some i)
  end.

(** [table->move_last_over] *)
Definition remove_row (i : nat) (rows : list UserRow) : list UserRow :=
  match last rows with
  | Some r => removelast (if bool_decide (S i < length rows) then <[i := r]> rows else rows)
  | None => rows
  end.

(** A row that is made if it is not there is changed by [f]. *)
Definition update_metadata (k : SyncUserIdentifier) (uuid : string) (f : UserRow -> UserRow) (rows : list UserRow) : list UserRow :=
  let '(rows, i) := get_or_make_user_metadata k true uuid rows in
  match i with Some i => alter f i rows | None => rows end.

Definition mark_for_removal (k : SyncUserIdentifier) (rows : list UserRow) : list UserRow :=
  let '(rows, i) := get_or_make_user_metadata k false "" rows in
  match i with Some i => alter (set_marked true) i rows | None => rows end.
End metadata.

(** ** Users

    Of a session the user has the address. [m_sessions] and [m_waiting_sessions]
    point to sessions weakly, the other two to external references. [m_is_admin] is
    [None] until it is written. *)
Inductive TokenType := Normal | Admin.
Inductive UserState := LoggedOut | Active | Error.

#[export] Instance TokenType_eq_dec : EqDecision TokenType.
Proof. solve_decision. Defined.
#[export] Instance UserState_eq_dec : EqDecision UserState.
Proof. solve_decision. Defined.

Record SyncUser := mkSyncUser {
  m_state : UserState;
  m_local_identity : string;
  m_management_session : option nat;
  m_permission_session : option nat;
  m_server_url : string;
  m_token_type : TokenType;
  m_is_admin : option bool;
  m_refresh_token : string;
  m_identity : string;
  m_sessions : gmap string nat;
  m_waiting_sessions : gmap string nat;
}.

Definition user_key (u : SyncUser) : SyncUserIdentifier := (m_identity u, m_server_url u).

Definition set_state (x : UserState) (u : SyncUser) : SyncUser :=
  mkSyncUser x (m_local_identity u) (m_management_session u) (m_permission_session u) (m_server_url u) (m_token_type u)
    (m_is_admin u) (m_refresh_token u) (m_identity u) (m_sessions u) (m_waiting_sessions u).
Definition set_local_identity (x : string) (u : SyncUser) : SyncUser :=
  mkSyncUser (m_state u) x (m_management_session u) (m_permission_session u) (m_server_url u) (m_token_type u)
    (m_is_admin u) (m_refresh_token u) (m_identity u) (m_sessions u) (m_waiting_sessions u).
Definition set_management_session (x : option nat) (u : SyncUser) : SyncUser :=
  mkSyncUser (m_state u) (m_local_identity u) x (m_permission_session u) (m_server_url u) (m_token_type u)
    (m_is_admin u) (m_refresh_token u) (m_identity u) (m_sessions u) (m_waiting_sessions u).
Definition set_permission_session (x : option nat) (u : SyncUser) : SyncUser :=
  mkSyncUser (m_state u) (m_local_identity u) (m_management_session u) x (m_server_url u) (m_token_type u)
    (m_is_admin u) (m_refresh_token u) (m_identity u) (m_sessions u) (m_waiting_sessions u).
Definition set_admin (x : option bool) (u : SyncUser) : SyncUser :=
  mkSyncUser (m_state u) (m_local_identity u) (m_management_session u) (m_permission_session u) (m_server_url u) (m_token_type u)
    x (m_refresh_token u) (m_identity u) (m_sessions u) (m_waiting_sessions u).
Definition set_refresh_token (x : string) (u : SyncUser) : SyncUser :=
  mkSyncUser (m_state u) (m_local_identity u) (m_management_session u) (m_permission_session u) (m_server_url u) (m_token_type u)
    (m_is_admin u) x (m_identity u) (m_sessions u) (m_waiting_sessions u).
Definition set_sessions (x y : gmap string nat) (u : SyncUser) : SyncUser :=
  mkSyncUser (m_state u) (m_local_identity u) (m_management_session u) (m_permission_session u) (m_server_url u) (m_token_type u)
    (m_is_admin u) (m_refresh_token u) (m_identity u) x y.

(** [None]: the field was not written before it is read. *)
Definition is_admin (u : SyncUser) : option bool :=
  match m_token_type u with Admin => Some true | Normal => m_is_admin u end.

(** ** The manager

    Sessions and users by address. Of a session the registry sees its path and
    whether it is inactive. [references] has the external reference of a session,
    if the application holds one; each new one has a number of its own. [calls] are
    the calls to sessions. *)
Record Session := mkSession { path : string; inactive : bool }.

Inductive session_call := called_revive_if_needed (s : nat) | called_log_out (s : nat).

Record SyncManager := mkManager {
  m_users : gmap SyncUserIdentifier nat;
  m_admin_token_users : gmap string nat;
  all_users : gmap nat SyncUser;
  m_metadata_manager : option (list UserRow);
  m_registry : gmap string nat;
  all_sessions_made : gmap nat Session;
  references : gmap nat nat;
  next_reference : nat;
  calls : list session_call;
}.

Definition set_users (x : gmap SyncUserIdentifier nat) (m : SyncManager) : SyncManager :=
  mkManager x (m_admin_token_users m) (all_users m) (m_metadata_manager m) (m_registry m) (all_sessions_made m) (references m) (next_reference m) (calls m).
Definition set_admin_users (x : gmap string nat) (m : SyncManager) : SyncManager :=
  mkManager (m_users m) x (all_users m) (m_metadata_manager m) (m_registry m) (all_sessions_made m) (references m) (next_reference m) (calls m).
Definition set_all_users (x : gmap nat SyncUser) (m : SyncManager) : SyncManager :=
  mkManager (m_users m) (m_admin_token_users m) x (m_metadata_manager m) (m_registry m) (all_sessions_made m) (references m) (next_reference m) (calls m).
Definition set_metadata (x : option (list UserRow)) (m : SyncManager) : SyncManager :=
  mkManager (m_users m) (m_admin_token_users m) (all_users m) x (m_registry m) (all_sessions_made m) (references m) (next_reference m) (calls m).
Definition set_registry (x : gmap string nat) (m : SyncManager) : SyncManager :=
  mkManager (m_users m) (m_admin_token_users m) (all_users m) (m_metadata_manager m) x (all_sessions_made m) (references m) (next_reference m) (calls m).
Definition set_made (x : gmap nat Session) (m : SyncManager) : SyncManager :=
  mkManager (m_users m) (m_admin_token_users m) (all_users m) (m_metadata_manager m) (m_registry m) x (references m) (next_reference m) (calls m).
Definition set_references (x : gmap nat nat) (n : nat) (m : SyncManager) : SyncManager :=
  mkManager (m_users m) (m_admin_token_users m) (all_users m) (m_metadata_manager m) (m_registry m) (all_sessions_made m) x n (calls m).
Definition add_call (x : session_call) (m : SyncManager) : SyncManager :=
  mkManager (m_users m) (m_admin_token_users m) (all_users m) (m_metadata_manager m) (m_registry m) (all_sessions_made m) (references m) (next_reference m) (calls m ++ [x]).

Definition on_user (f : SyncUser -> SyncUser) (a : nat) (m : SyncManager) : SyncManager := set_all_users (alter f a (all_users m)) m.
Definition on_session (f : Session -> Session) (s : nat) (m : SyncManager) : SyncManager := set_made (alter f s (all_sessions_made m)) m.

(** The order in which an unordered map is visited. *)
Class HashOrders := {
  hash_order {K} `{Countable K} {A} : gmap K A -> list (K * A);
  hash_order_perm {K} `{Countable K} {A} (m : gmap K A) : hash_order m ≡ₚ map_to_list m;
}.

Definition perform_metadata_update (f : list UserRow -> list UserRow) (m : SyncManager) : SyncManager * bool :=
  match m_metadata_manager m with
  | None => (m, false)
  | Some rows => (set_metadata (Some (f rows)) m, true)
  end.

(** ** Sessions, as far as the registry sees them *)
Section registry.
Context `{Build}.

(** A session lives as long as it is registered. *)
Definition is_registered (m : SyncManager) (s : nat) : bool :=
  match all_sessions_made m !! s with
  | Some session => bool_decide (m_registry m !! path session = Some s)
  | None => false
  end.

(** [lock] of a weak pointer to a session, or to an external reference. *)
Definition lock (m : SyncManager) (s : nat) : option nat := if is_registered m s then Some s else None.
Definition lock_reference (m : SyncManager) (r : option nat) : option nat :=
  r ← r; '(s, _) ← head (filter (λ p, p.2 = r) (map_to_list (references m))); Some s.

Definition unregister_session (p : string) (m : SyncManager) : option SyncManager :=
  _ ← REALM_ASSERT (bool_decide (is_Some (m_registry m !! p)));
  s ← m_registry m !! p;
  if bool_decide (is_Some (references m !! s)) then Some m
  else Some (set_registry (delete p (m_registry m)) m).

(** A session that becomes inactive unregisters itself, and so does one that is
    closed when it is. *)
Definition stop_session (s : nat) (m : SyncManager) : option SyncManager :=
  session ← all_sessions_made m !! s;
  unregister_session (path session) (on_session (λ x, mkSession (path x) true) s m).

Definition session_revive_if_needed (s : nat) (m : SyncManager) : SyncManager :=
  on_session (λ x, mkSession (path x) false) s (add_call (called_revive_if_needed s) m).

Definition session_log_out (s : nat) (m : SyncManager) : option SyncManager :=
  session ← all_sessions_made m !! s;
  let m := add_call (called_log_out s) m in
  if inactive session then Some m else stop_session s m.

Definition external_reference (s : nat) (m : SyncManager) : SyncManager :=
  match references m !! s with
  | Some _ => m
  | None => set_references (<[s := next_reference m]> (references m)) (S (next_reference m)) m
  end.

(** The application drops its reference; [stops]: the session becomes inactive at
    once. *)
Definition drop_reference (stops : bool) (s : nat) (m : SyncManager) : option SyncManager :=
  session ← all_sessions_made m !! s;
  let m := set_references (delete s (references m)) (next_reference m) m in
  if inactive session || stops then stop_session s m else Some m.
End registry.

(** ** Operations of a user *)
Section users.
Context `{Build, HashOrders}.
Variable others : list UserRow -> list UserRow.

Abbreviation make_user_metadata := (get_or_make_user_metadata others).

(** The constructor. The binding context is left out. *)
Definition new_SyncUser (refresh_token identity : string) (server_url local_identity : option string) (token_type : TokenType)
    (uuid : string) (m : SyncManager) : option (SyncUser * SyncManager) :=
  let u := mkSyncUser Active "" None None (default "" server_url) token_type None refresh_token identity ∅ ∅ in
  match token_type with
  | Normal =>
      _ ← REALM_ASSERT (bool_decide (m_server_url u <> ""));
      match m_metadata_manager m with
      | Some rows =>
          '(rows, i) ← Some (make_user_metadata (user_key u) true uuid rows);
          i ← i;
          let rows := alter (set_user_token refresh_token) i rows in
          row ← rows !! i;
          Some (set_local_identity (idx_local_uuid row) (set_admin (Some (idx_user_is_admin row)) u), set_metadata (Some rows) m)
      | None => Some (set_local_identity identity u, m)
      end
  | Admin =>
      _ ← REALM_ASSERT (bool_decide (is_Some local_identity));
      l ← local_identity;
      Some (set_local_identity l u, m)
  end.

(** Weak pointers that are expired are removed. *)
Definition live_sessions (m : SyncManager) (ss : gmap string nat) : gmap string nat :=
  filter (λ p, is_registered m p.2 = true) ss.

Definition all_sessions (a : nat) (m : SyncManager) : option (SyncManager * list nat) :=
  u ← all_users m !! a;
  if bool_decide (m_state u = Error) then Some (m, [])
  else Some (on_user (set_sessions (live_sessions m (m_sessions u)) (m_waiting_sessions u)) a m,
             omap (λ p, lock m p.2) (hash_order (m_sessions u))).

Definition session_for_on_disk_path (p : string) (a : nat) (m : SyncManager) : option (SyncManager * option nat) :=
  u ← all_users m !! a;
  if bool_decide (m_state u = Error) then Some (m, None)
  else
    match m_sessions u !! p with
    | None => Some (m, None)
    | Some s =>
        match lock m s with
        | Some s => Some (m, Some s)
        | None => Some (on_user (set_sessions (delete p (m_sessions u)) (m_waiting_sessions u)) a m, None)
        end
    end.

Definition revive_all (ss : list nat) (m : SyncManager) : SyncManager := foldl (λ m s, session_revive_if_needed s m) m ss.

(** The entries of the waiting sessions that are alive, in the order of the map. *)
Definition waiting_live (m : SyncManager) (u : SyncUser) : list (string * nat) :=
  filter (λ p, is_registered m p.2 = true) (hash_order (m_waiting_sessions u)).

Definition update_refresh_token (a : nat) (token uuid : string) (m : SyncManager) : option SyncManager :=
  u ← all_users m !! a;
  let special := option_list (lock_reference m (m_management_session u)) ++ option_list (lock_reference m (m_permission_session u)) in
  let update u := (if bool_decide (m_token_type u <> Admin) then
                     fst (perform_metadata_update (update_metadata others (user_key u) uuid (set_user_token token)) m)
                   else m) in
  match m_state u with
  | Error => Some m
  | Active => Some (revive_all special (on_user (λ _, set_refresh_token token u) a (update u)))
  | LoggedOut =>
      let waiting := waiting_live m u in
      let u := set_state Active (set_refresh_token token (set_sessions (list_to_map waiting ∪ m_sessions u) ∅ u)) in
      Some (revive_all (special ++ (snd <$> waiting)) (on_user (λ _, u) a (update u)))
  end.

(** One entry of the loop over the sessions. *)
Definition log_out_session (a : nat) (p : string * nat) (m : SyncManager) : option SyncManager :=
  if is_registered m p.2 then
    m ← session_log_out p.2 m;
    Some (on_user (λ u, set_sessions (m_sessions u) (<[p.1 := p.2]> (m_waiting_sessions u)) u) a m)
  else Some m.

Definition log_out_reference (r : option nat) (m : SyncManager) : option SyncManager :=
  match lock_reference m r with Some s => session_log_out s m | None => Some m end.

Definition log_out (a : nat) (m : SyncManager) : option SyncManager :=
  u ← all_users m !! a;
  if bool_decide (m_token_type u = Admin) then Some m
  else if bool_decide (m_state u = LoggedOut) then Some m
  else
    m ← foldM (log_out_session a) (hash_order (m_sessions u)) (on_user (set_state LoggedOut) a m);
    let m := on_user (λ u, set_sessions ∅ (m_waiting_sessions u) u) a m in
    m ← log_out_reference (m_management_session u) m;
    m ← log_out_reference (m_permission_session u) m;
    Some (fst (perform_metadata_update (mark_for_removal others (user_key u)) m)).

Definition set_is_admin (a : nat) (is_admin : bool) (uuid : string) (m : SyncManager) : option SyncManager :=
  u ← all_users m !! a;
  if bool_decide (m_token_type u = Admin) then Some m
  else
    let m := on_user (set_admin (Some is_admin)) a m in
    Some (fst (perform_metadata_update (update_metadata others (user_key u) uuid (set_is_admin_row is_admin)) m)).

Definition invalidate (a : nat) (m : SyncManager) : SyncManager := on_user (set_state Error) a m.

Definition register_session (a s : nat) (m : SyncManager) : option SyncManager :=
  u ← all_users m !! a;
  session ← all_sessions_made m !! s;
  match m_state u with
  | Active => Some (session_revive_if_needed s (on_user (set_sessions (<[path session := s]> (m_sessions u)) (m_waiting_sessions u)) a m))
  | LoggedOut => Some (on_user (set_sessions (m_sessions u) (<[path session := s]> (m_waiting_sessions u))) a m)
  | Error => Some m
  end.

(** ** Operations of the manager: sessions *)

(** The session, whose external reference the application then holds. *)
Definition get_existing_session (p : string) (m : SyncManager) : SyncManager * option nat :=
  match m_registry m !! p with
  | Some s => (external_reference s m, Some s)
  | None => (m, None)
  end.

Definition get_existing_active_session (p : string) (m : SyncManager) : option nat :=
  s ← m_registry m !! p; if bool_decide (is_Some (references m !! s)) then Some s else None.

Definition has_existing_sessions (m : SyncManager) : bool :=
  existsb (λ p, bool_decide (is_Some (references m !! p.2))) (hash_order (m_registry m)).

(** [a] is the user of the configuration, [s] where a new session is put. *)
Definition get_session (p : string) (a s : nat) (m : SyncManager) : option (SyncManager * nat) :=
  match m_registry m !! p with
  | Some s => m ← register_session a s m; Some (external_reference s m, s)
  | None =>
      let m := set_made (<[s := mkSession p true]> (all_sessions_made m)) m in
      let m := external_reference s (set_registry (<[p := s]> (m_registry m)) m) in
      m ← register_session a s m;
      Some (m, s)
  end.

(** The reference to the session is dropped when the weak pointer to it has been
    stored, so the pointer is expired unless the application holds another. *)
Definition register_special (get : SyncUser -> option nat) (set : option nat -> SyncUser -> SyncUser) (stops : bool)
    (p : string) (a : nat) (m : SyncManager) : option SyncManager :=
  u ← all_users m !! a;
  if bool_decide (is_Some (lock_reference m (get u))) || bool_decide (m_state u = Error) then Some m
  else
    let held := get_existing_active_session p m in
    let '(m, s) := get_existing_session p m in
    let m := on_user (set (s ← s; references m !! s)) a m in
    match s, held with
    | Some s, None => drop_reference stops s m
    | _, _ => Some m
    end.

Definition register_management_session := register_special m_management_session set_management_session.
Definition register_permission_session := register_special m_permission_session set_permission_session.

(** ** Operations of the manager: users

    [a] is where a new user is put. *)
Definition get_user (k : SyncUserIdentifier) (token uuid : string) (a : nat) (m : SyncManager) : option (SyncManager * option nat) :=
  match m_users m !! k with
  | None =>
      '(u, m) ← new_SyncUser token k.1 (Some k.2) None Normal uuid m;
      Some (set_users (<[k := a]> (m_users m)) (set_all_users (<[a := u]> (all_users m)) m), Some a)
  | Some a =>
      u ← all_users m !! a;
      if bool_decide (m_state u = Error) then Some (m, None)
      else m ← update_refresh_token a token uuid m; Some (m, Some a)
  end.

Definition c_admin_identity : string := "__auth".

(** The renaming of the user's directory is left out. *)
Definition get_admin_token_user (server_url token uuid : string) (a : nat) (m : SyncManager) : option (SyncManager * nat) :=
  match m_admin_token_users m !! server_url with
  | Some a => Some (m, a)
  | None =>
      '(u, m) ← new_SyncUser token c_admin_identity (Some server_url) (Some (c_admin_identity +:+ server_url)) Admin uuid m;
      Some (set_admin_users (<[server_url := a]> (m_admin_token_users m)) (set_all_users (<[a := u]> (all_users m)) m), a)
  end.

Definition get_admin_token_user_from_identity (identity : string) (server_url : option string) (token uuid : string) (a : nat)
    (m : SyncManager) : option (SyncManager * nat) :=
  match server_url with
  | Some url => get_admin_token_user url token uuid a m
  | None =>
      match m_admin_token_users m !! identity with
      | Some a => Some (m, a)
      | None =>
          '(u, m) ← new_SyncUser token c_admin_identity None (Some identity) Admin uuid m;
          Some (set_admin_users (<[identity := a]> (m_admin_token_users m)) (set_all_users (<[a := u]> (all_users m)) m), a)
      end
  end.

Definition is_active (m : SyncManager) (a : nat) : bool :=
  match all_users m !! a with Some u => bool_decide (m_state u = Active) | None => false end.

Definition all_logged_in_users (m : SyncManager) : list nat :=
  filter (λ a, is_active m a = true) (snd <$> hash_order (m_users m)) ++ (snd <$> hash_order (m_admin_token_users m)).

(** [inl]: the exception that there are several. *)
Definition get_current_user (m : SyncManager) : unit + option nat :=
  let us := snd <$> hash_order (m_users m) in
  match find_index (is_active m) us with
  | None => inr None
  | Some i => match find_index (is_active m) (drop (S i) us) with Some _ => inl tt | None => inr (us !! i) end
  end.

Definition get_existing_logged_in_user (k : SyncUserIdentifier) (m : SyncManager) : option nat :=
  a ← m_users m !! k; if is_active m a then Some a else None.

(** ** Starting: what [configure] does with the users

    The users that are not marked are made again, if they have a token; the others
    are removed, with their directories if [remove_user_directory] succeeds. [a] is
    the first address that is free. *)
Definition load_user (r : UserRow) (st : SyncManager * nat) : option (SyncManager * nat) :=
  let '(m, a) := st in
  match idx_user_token r with
  | None => Some (m, a)
  | Some token =>
      '(u, m) ← new_SyncUser token (idx_identity r) (Some (idx_auth_server_url r)) None Normal "" m;
      m ← set_is_admin a (idx_user_is_admin r) "" (set_all_users (<[a := u]> (all_users m)) m);
      Some (set_users (match m_users m !! row_key r with Some _ => m_users m | None => <[row_key r := a]> (m_users m) end) m, S a)
  end.

Definition remove_dead (remove_user_directory : string -> bool) (rows : list UserRow) : list UserRow :=
  foldl (λ rows r, if remove_user_directory (idx_local_uuid r)
                   then match find_user (row_key r) rows with Some i => remove_row i rows | None => rows end else rows)
    rows (get_users true rows).

Definition configure (remove_user_directory : string -> bool) (rows : list UserRow) (a : nat) (m : SyncManager) : option SyncManager :=
  let users := get_users false rows in
  let m := set_metadata (Some (remove_dead remove_user_directory rows)) m in
  '(m, _) ← foldM load_user users (m, a);
  Some m.
End users.
