(* ===== verification/SyncUserFacts.v ===== *)
(** * Histories of users and sessions

    Any sequence of operations keeps users, sessions and metadata together. *)

From stdpp Require Import strings.
From S2P Require Import Prelude SyncUsers.

(** ** Operations *)

(** What the application and the sessions do. [does_stop]: a session becomes
    inactive by itself. *)
Inductive op :=
| does_get_user (k : SyncUserIdentifier) (token uuid : string) (a : nat)
| does_get_admin_token_user (url token uuid : string) (a : nat)
| does_log_out (a : nat)
| does_set_is_admin (a : nat) (b : bool) (uuid : string)
| does_invalidate (a : nat)
| does_get_session (p : string) (a s : nat)
| does_drop_reference (stops : bool) (s : nat)
| does_stop (s : nat)
| does_all_sessions (a : nat)
| does_session_for_path (p : string) (a : nat)
| does_register_management (stops : bool) (p : string) (a : nat)
| does_register_permission (stops : bool) (p : string) (a : nat).

Section histories.
Context `{HB : Build, HO : HashOrders}.
Variable others : list UserRow -> list UserRow.

(** New users and sessions are put where there is none; a session stops when it is
    registered and not inactive. *)
Definition allowed (x : op) (m : SyncManager) : bool :=
  match x with
  | does_get_user _ _ _ a | does_get_admin_token_user _ _ _ a => bool_decide (all_users m !! a = None)
  | does_get_session _ _ s => bool_decide (all_sessions_made m !! s = None)
  | does_stop s => is_registered m s && negb (default true (inactive <$> all_sessions_made m !! s))
  | does_drop_reference _ s => bool_decide (is_Some (references m !! s))
  | _ => true
  end.

Definition apply (x : op) (m : SyncManager) : option SyncManager :=
  if negb (allowed x m) then None
  else
    match x with
    | does_get_user k token uuid a => fst <$> get_user others k token uuid a m
    | does_get_admin_token_user url token uuid a => fst <$> get_admin_token_user others url token uuid a m
    | does_log_out a => log_out others a m
    | does_set_is_admin a b uuid => set_is_admin others a b uuid m
    | does_invalidate a => Some (invalidate a m)
    | does_get_session p a s => fst <$> get_session p a s m
    | does_drop_reference stops s => drop_reference stops s m
    | does_stop s => stop_session s m
    | does_all_sessions a => fst <$> all_sessions a m
    | does_session_for_path p a => fst <$> session_for_on_disk_path p a m
    | does_register_management stops p a => register_management_session stops p a m
    | does_register_permission stops p a => register_permission_session stops p a m
    end.

Definition history (ops : list op) (m m' : SyncManager) : Prop := foldM apply ops m = Some m'.

(** ** The registries *)

(** A user that is logged in has no waiting sessions, one that is logged out no
    others; the entries are at their path. *)
Record user_ok (made : gmap nat Session) (u : SyncUser) : Prop := {
  uo_active : m_state u = Active -> m_waiting_sessions u = ∅;
  uo_logged_out : m_state u = LoggedOut -> m_sessions u = ∅;
  uo_sessions : forall p s, m_sessions u !! p = Some s -> path <$> made !! s = Some p;
  uo_waiting : forall p s, m_waiting_sessions u !! p = Some s -> path <$> made !! s = Some p;
}.

Record registry_ok (m : SyncManager) : Prop := {
  ro_users : forall a u, all_users m !! a = Some u -> user_ok (all_sessions_made m) u;
  ro_keys : forall k a, m_users m !! k = Some a -> exists u, all_users m !! a = Some u /\ user_key u = k /\ m_token_type u = Normal;
  ro_admins : forall k a, m_admin_token_users m !! k = Some a -> exists u, all_users m !! a = Some u /\ m_token_type u = Admin;
  ro_paths : forall p s, m_registry m !! p = Some s -> path <$> all_sessions_made m !! s = Some p;
  ro_references : forall s r, references m !! s = Some r -> is_registered m s = true;
}.

(** What a step on sessions does to the users and the paths. *)
Definition paths_kept (made made' : gmap nat Session) : Prop :=
  forall s p, path <$> made !! s = Some p -> path <$> made' !! s = Some p.

Lemma user_ok_paths made made' u : paths_kept made made' -> user_ok made u -> user_ok made' u.
Proof using Type. intros Hk [? ? Hs Hw]. split; eauto. Qed.

Lemma is_registered_spec m s : is_registered m s = true <-> exists p, path <$> all_sessions_made m !! s = Some p /\ m_registry m !! p = Some s.
Proof using Type.
  unfold is_registered. destruct (all_sessions_made m !! s) as [x|]; cbn.
  - rewrite bool_decide_eq_true. split; [intros Hr; by eexists|]. by intros (p & [= <-] & Hr).
  - split; [done|]. by intros (p & [=] & _).
Qed.

(** Steps that change only the sessions. *)
Record session_step (m m' : SyncManager) : Prop := {
  ss_users : m_users m' = m_users m;
  ss_admins : m_admin_token_users m' = m_admin_token_users m;
  ss_all : all_users m' = all_users m;
  ss_meta : m_metadata_manager m' = m_metadata_manager m;
  ss_paths : paths_kept (all_sessions_made m) (all_sessions_made m');
  ss_registry : forall p s, m_registry m' !! p = Some s -> m_registry m !! p = Some s;
  ss_referenced : forall s r, references m' !! s = Some r -> references m !! s = Some r;
  ss_kept : forall s, is_registered m s = true -> is_Some (references m' !! s) -> is_registered m' s = true;
}.

Lemma session_step_ok m m' : session_step m m' -> registry_ok m -> registry_ok m'.
Proof using Type.
  intros [Hu Ha Hall _ Hp Hr Href Hk] [R1 R2 R3 R4 R5]. split.
  - intros a u. rewrite Hall. intros Hau. eapply user_ok_paths; eauto.
  - rewrite Hu, Hall. done.
  - rewrite Ha, Hall. done.
  - intros p s Hs. apply Hp. auto.
  - intros s r Hs. apply Hk; [|by eexists]. eapply R5. eauto.
Qed.

Lemma session_step_refl m : session_step m m.
Proof using Type. split; unfold paths_kept; auto. Qed.

Lemma session_step_trans m1 m2 m3 : session_step m1 m2 -> session_step m2 m3 -> session_step m1 m3.
Proof using Type.
  intros [? ? ? ? ? ? H1 ?] [? ? ? ? ? ? H2 ?]. split; try congruence; unfold paths_kept in *; eauto.
  intros s Hs [r Hr]. eauto.
Qed.

(** ** Steps of sessions *)

Lemma on_session_step f s m : (forall x, path (f x) = path x) -> session_step m (on_session f s m).
Proof using Type.
  intros Hf. assert (Hp : forall t, path <$> alter f s (all_sessions_made m) !! t = path <$> all_sessions_made m !! t).
  { intros t. destruct (decide (t = s)) as [->|Hne].
    - rewrite lookup_alter_eq. destruct (_ !! _); [|done]. cbn. by rewrite Hf.
    - by rewrite lookup_alter_ne. }
  split; try done.
  - intros t p. cbn. by rewrite Hp.
  - intros t. rewrite !is_registered_spec. cbn. setoid_rewrite Hp. done.
Qed.

Lemma add_call_step c m : session_step m (add_call c m).
Proof using Type. split; unfold paths_kept; auto. Qed.

Lemma unregister_step p m m' : unregister_session p m = Some m' -> session_step m m'.
Proof using Type.
  unfold unregister_session. destruct (REALM_ASSERT _); mrun; [|done]. destruct (m_registry m !! p) as [s0|] eqn:Hs0; mrun; [|done].
  case_bool_decide as Href; intros [= <-]; [apply session_step_refl|]. split; try done.
  - by intros s q.
  - intros q s. cbn. by intros [_ ?]%lookup_delete_Some.
  - intros s. rewrite !is_registered_spec. cbn. intros (q & Hq & Hr) Hs. exists q. split; [done|].
    rewrite lookup_delete_ne; [done|]. intros <-. rewrite Hs0 in Hr. injection Hr as <-. done.
Qed.

Lemma stop_step s m m' : stop_session s m = Some m' -> session_step m m'.
Proof using Type.
  unfold stop_session. destruct (_ !! s) as [x|]; mrun; [|done]. intros Hu%unregister_step.
  eapply session_step_trans; [|exact Hu]. by apply on_session_step.
Qed.

Lemma revive_step s m : session_step m (session_revive_if_needed s m).
Proof using Type. eapply session_step_trans; [apply (add_call_step (called_revive_if_needed s))|by apply on_session_step]. Qed.

Lemma revive_all_step ss m : session_step m (revive_all ss m).
Proof using Type.
  revert m. induction ss as [|s ss IH]; intros m; [apply session_step_refl|].
  eapply session_step_trans; [apply revive_step|apply IH].
Qed.

Lemma session_log_out_step s m m' : session_log_out s m = Some m' -> session_step m m'.
Proof using Type.
  unfold session_log_out. destruct (_ !! s) as [x|]; mrun; [|done]. destruct (inactive x).
  - intros [= <-]. apply add_call_step.
  - intros Hs%stop_step. eapply session_step_trans; [apply add_call_step|exact Hs].
Qed.

Lemma drop_reference_step stops s m m' : drop_reference stops s m = Some m' -> session_step m m'.
Proof using Type.
  unfold drop_reference. destruct (_ !! s) as [x|]; mrun; [|done].
  assert (H0 : session_step m (set_references (delete s (references m)) (next_reference m) m)).
  { split; try (unfold paths_kept; by auto). intros t r. cbn. by intros [_ ?]%lookup_delete_Some. }
  destruct (inactive x || stops).
  - intros Hs%stop_step. by eapply session_step_trans.
  - by intros [= <-].
Qed.

Lemma reference_ok s m : is_registered m s = true -> registry_ok m -> registry_ok (external_reference s m).
Proof using Type.
  intros Hs [R1 R2 R3 R4 R5]. unfold external_reference. destruct (references m !! s) eqn:He; [done|]. split; try done.
  intros t r. cbn. destruct (decide (t = s)) as [->|Hne]; [done|]. rewrite lookup_insert_ne by done. apply R5.
Qed.

(** The assertion of [unregister_session] holds for registered sessions. *)
Lemma unregister_total p m : is_Some (m_registry m !! p) -> exists m', unregister_session p m = Some m'.
Proof using Type.
  intros [s Hs]. unfold unregister_session. rewrite Hs. rewrite REALM_ASSERT_decide by by eexists. mrun.
  case_bool_decide; by eexists.
Qed.

Lemma stop_session_total s m : is_registered m s = true -> exists m', stop_session s m = Some m'.
Proof using Type.
  intros (p & Hp & Hr)%is_registered_spec. unfold stop_session. destruct (all_sessions_made m !! s) as [x|] eqn:Hx; [|done]. mrun.
  injection Hp as Hp. rewrite Hp. apply unregister_total. by eexists.
Qed.

Lemma session_log_out_total s m : is_registered m s = true -> exists m', session_log_out s m = Some m'.
Proof using Type.
  intros Hr. pose proof Hr as (p & Hp & _)%is_registered_spec. unfold session_log_out.
  destruct (all_sessions_made m !! s) as [x|]; [|done]. mrun. destruct (inactive x); [by eexists|]. by apply stop_session_total.
Qed.

(** ** Steps of users *)

Lemma on_user_ok f a m : (forall u, all_users m !! a = Some u -> user_ok (all_sessions_made m) u ->
    user_ok (all_sessions_made m) (f u) /\ user_key (f u) = user_key u /\ m_token_type (f u) = m_token_type u) ->
  registry_ok m -> registry_ok (on_user f a m).
Proof using Type.
  intros Hf [R1 R2 R3 R4 R5]. split; try done; cbn.
  - intros b u. destruct (decide (b = a)) as [->|Hne]; [|rewrite lookup_alter_ne by done; apply R1].
    rewrite lookup_alter_eq. intros (u0 & Hu0 & ->)%fmap_Some. apply (Hf u0 Hu0), (R1 a u0 Hu0).
  - intros k b Hk. destruct (R2 k b Hk) as (u & Hu & Hkey & Ht). destruct (decide (b = a)) as [->|Hne].
    + rewrite lookup_alter_eq, Hu. cbn. destruct (Hf u Hu (R1 a u Hu)) as (_ & He & Hte). eexists. split; [done|]. by rewrite He, Hte.
    + rewrite lookup_alter_ne by done. by exists u.
  - intros k b Hk. destruct (R3 k b Hk) as (u & Hu & Ht). destruct (decide (b = a)) as [->|Hne].
    + rewrite lookup_alter_eq, Hu. cbn. destruct (Hf u Hu (R1 a u Hu)) as (_ & _ & Hte). eexists. split; [done|]. by rewrite Hte.
    + rewrite lookup_alter_ne by done. by exists u.
Qed.

Lemma metadata_ok f m : registry_ok m -> registry_ok (fst (perform_metadata_update f m)).
Proof using Type. unfold perform_metadata_update. destruct (m_metadata_manager m); [|done]. intros [R1 R2 R3 R4 R5]. by split. Qed.

Lemma perform_fields f m : let m' := fst (perform_metadata_update f m) in
  all_users m' = all_users m /\ all_sessions_made m' = all_sessions_made m /\ m_registry m' = m_registry m /\ references m' = references m
  /\ m_users m' = m_users m /\ calls m' = calls m /\ m_admin_token_users m' = m_admin_token_users m
  /\ m_metadata_manager m' = f <$> m_metadata_manager m.
Proof using Type. unfold perform_metadata_update. destruct (m_metadata_manager m) eqn:He; cbn; rewrite ?He; by split_and!. Qed.

(** The users do not matter to the sessions. *)
Lemma step_users x m m' : session_step m m' -> session_step (set_all_users x m) (set_all_users x m').
Proof using Type. intros [? ? ? ? ? ? ? ?]. by split. Qed.

(** Of the other sessions a logout leaves those that are registered. *)
Lemma session_log_out_more s m m' : session_log_out s m = Some m' ->
  references m' = references m /\ calls m' = calls m ++ [called_log_out s]
  /\ (is_registered m s = true -> forall t, t <> s -> is_registered m t = true -> is_registered m' t = true).
Proof using Type.
  unfold session_log_out. destruct (_ !! s) as [x|] eqn:Hx; mrun; [|done].
  destruct (inactive x); [by intros [= <-]|]. unfold stop_session, unregister_session. cbn [add_call all_sessions_made]. rewrite Hx. mrun.
  destruct (REALM_ASSERT _); mrun; [|done]. cbn [m_registry on_session set_made add_call references].
  destruct (m_registry m !! path x) as [s0|] eqn:Hs0; mrun; [|done]. set (m1 := on_session _ _ _).
  assert (Hk : forall t, is_registered m t = true -> is_registered m1 t = true).
  { intros t. rewrite !is_registered_spec. intros (p & Hp & Hr). exists p. split; [|done]. by apply (ss_paths _ _ (on_session_step (λ x, mkSession (path x) true) s m (λ _, eq_refl))). }
  case_bool_decide; intros [= <-]; split_and!; try done; intros (q & Hq & Hrq)%is_registered_spec t Hts; [apply Hk|]. rewrite Hx in Hq. injection Hq as <-.
  intros Ht. pose proof (Hk t Ht) as (p & Hp & Hr)%is_registered_spec.
  apply is_registered_spec. exists p. split; [done|]. cbn. rewrite lookup_delete_ne; [done|]. intros <-. cbn in Hr. congruence.
Qed.

Definition paths_ok (m : SyncManager) : Prop := forall p s, m_registry m !! p = Some s -> path <$> all_sessions_made m !! s = Some p.

Lemma step_paths_ok m m' : session_step m m' -> paths_ok m -> paths_ok m'.
Proof using Type. intros Hst Hp p s Hr. by apply (ss_paths _ _ Hst), Hp, (ss_registry _ _ Hst). Qed.

Lemma step_registered_back m m' t : paths_ok m -> session_step m m' -> is_registered m' t = true -> is_registered m t = true.
Proof using Type.
  intros Hok Hst (p & Hp & Hr)%is_registered_spec. pose proof (ss_registry _ _ Hst _ _ Hr) as Hr'. apply is_registered_spec. exists p.
  split; [by apply Hok|done].
Qed.

Definition at_paths (m : SyncManager) (l : list (string * nat)) : Prop :=
  paths_ok m /\ NoDup (fst <$> l) /\ forall p s, (p, s) ∈ l -> path <$> all_sessions_made m !! s = Some p.

Lemma at_paths_tail p s l m : at_paths m ((p, s) :: l) -> at_paths m l /\ forall q t, (q, t) ∈ l -> q <> p /\ t <> s.
Proof using Type.
  intros (Hok & Hnd & Hp). cbn in Hnd. apply NoDup_cons in Hnd as [Hn Hnd]. split.
  - split_and!; try done. intros q t Hq. apply Hp. by right.
  - intros q t Hq. assert (Hqp : q <> p) by (intros ->; by apply Hn, (list_elem_of_fmap_2 fst _ (p, t))). split; [done|].
    intros ->. pose proof (Hp q s ltac:(by right)) as H1. pose proof (Hp p s ltac:(by left)) as H2. rewrite H1 in H2. by injection H2.
Qed.

(** Where the sessions are at their paths each entry is handled by itself. *)
Lemma log_out_loop a l : forall m m', foldM (log_out_session a) l m = Some m' ->
  session_step m (set_all_users (all_users m) m')
  /\ exists W : gmap string nat, all_users m' = alter (λ u, set_sessions (m_sessions u) (W ∪ m_waiting_sessions u) u) a (all_users m)
      /\ (forall p s, W !! p = Some s -> (p, s) ∈ l)
      /\ (at_paths m l -> references m' = references m /\ (forall c, c ∈ calls m -> c ∈ calls m') /\ forall p s, (p, s) ∈ l ->
            (W !! p = Some s <-> is_registered m s = true) /\ (is_registered m s = true -> called_log_out s ∈ calls m')).
Proof using Type.
  induction l as [|[p s] l IH]; intros m m'; cbn [foldM].
  - intros [= <-]. split; [by destruct m; apply session_step_refl|]. exists ∅. split_and!.
    + symmetry. apply alter_id. intros u Hu. rewrite (left_id_L ∅ (∪)). by destruct u.
    + intros p s. by rewrite lookup_empty.
    + intros _. split_and!; try done. by intros p s ?%elem_of_nil.
  - destruct (log_out_session a (p, s) m) as [m1|] eqn:H1; mrun; [|done]. intros Hr. apply IH in Hr as (Hst & W & HW & Hin & Hex). clear IH.
    unfold log_out_session in H1. cbn in H1. destruct (is_registered m s) eqn:Hs.
    + destruct (session_log_out s m) as [m0|] eqn:H0; mrun; [|done]. injection H1 as <-. pose proof (session_log_out_step _ _ _ H0) as Hst0.
      pose proof (ss_all _ _ Hst0) as Hall. split.
      * eapply session_step_trans; [exact Hst0|]. apply (step_users (all_users m)) in Hst. cbn in Hst. by rewrite <- Hall in Hst |- *; destruct m0.
      * exists (W ∪ {[p := s]}). split_and!.
        -- rewrite HW. cbn. rewrite Hall, alter_alter_eq. apply alter_ext. intros u _. unfold set_sessions. cbn. f_equal.
           by rewrite insert_union_singleton_l, (assoc_L (∪)).
        -- intros q t [Hq|[_ [<- <-]%lookup_singleton_Some]]%lookup_union_Some_raw; [right; auto|left].
        -- intros Hat. pose proof (at_paths_tail p s l m Hat) as [Hat' Hne]. destruct (session_log_out_more s m m0 H0) as (Href & Hc & Hothers).
           assert (Hat0 : at_paths (on_user (λ u, set_sessions (m_sessions u) (<[p:=s]> (m_waiting_sessions u)) u) a m0) l).
           { destruct Hat' as (Hok & Hnd & Hp). split_and!; [by apply (step_paths_ok m m0)|done|]. intros q t Hq. apply (ss_paths _ _ Hst0). auto. }
           destruct (Hex Hat0) as (Href' & Hcalls & Hex'). cbn in Href', Hcalls. rewrite Hc in Hcalls. split_and!.
           ++ by rewrite Href', Href.
           ++ intros c Hc0. apply Hcalls. apply elem_of_app. by left.
           ++ intros q t [[= -> ->]|Hq]%elem_of_cons.
              ** split; [|intros _; apply Hcalls, elem_of_app; right; by apply list_elem_of_singleton]. split; [done|]. intros _.
                 apply lookup_union_Some_raw. destruct (W !! p) as [t|] eqn:Ht; [|right; by rewrite lookup_singleton_eq]. exfalso.
                 apply Hin in Ht. by destruct (Hne p t Ht).
              ** destruct (Hne q t Hq) as [Hqp Hts]. destruct (Hex' q t Hq) as [Hiff Hcall].
                 assert (Hreg : is_registered m t = true <-> is_registered m0 t = true).
                 { split; [by apply (Hothers Hs)|]. apply step_registered_back; [apply Hat|done]. }
                 change (is_registered (on_user _ a m0) t) with (is_registered m0 t) in *.
                 rewrite lookup_union_l by (by rewrite lookup_singleton_ne). rewrite Hreg. by split.
    + injection H1 as <-. split; [done|]. exists W. split_and!; [done|intros q t Hq; right; auto|]. intros Hat.
      destruct (at_paths_tail p s l m Hat) as [Hat' Hne]. destruct (Hex Hat') as (Href & Hcalls & Hex'). split_and!; [done..|].
      intros q t [[= -> ->]|Hq]%elem_of_cons; [|auto]. rewrite Hs. split; [|done]. split; [|done]. intros Ht%Hin. by destruct (Hne p s Ht).
Qed.

Lemma hash_order_lookup {A} (M : gmap string A) p x : (p, x) ∈ hash_order M <-> M !! p = Some x.
Proof using Type. by rewrite hash_order_perm, elem_of_map_to_list. Qed.

(** The user after a logout, [W] being its sessions that were alive. *)
Definition logged_out (W : gmap string nat) (u : SyncUser) : SyncUser :=
  set_sessions ∅ (W ∪ m_waiting_sessions u) (set_state LoggedOut u).

Lemma log_out_reference_step r m m' : log_out_reference r m = Some m' -> session_step m m'.
Proof using Type.
  unfold log_out_reference. destruct (lock_reference m r); [apply session_log_out_step|]. intros [= <-]. apply session_step_refl.
Qed.

Lemma log_out_reference_more r m m' : log_out_reference r m = Some m' ->
  references m' = references m /\ forall c, c ∈ calls m -> c ∈ calls m'.
Proof using Type.
  unfold log_out_reference. destruct (lock_reference m r); [|by intros [= <-]]. intros (R & C & _)%session_log_out_more. split; [done|].
  intros c Hc. rewrite C. apply elem_of_app. by left.
Qed.

Lemma log_out_spec a m m' u : all_users m !! a = Some u -> m_token_type u = Normal -> m_state u <> LoggedOut -> log_out others a m = Some m' ->
  exists W m1, (forall p s, W !! p = Some s -> m_sessions u !! p = Some s)
    /\ session_step (on_user (logged_out W) a m) m1
    /\ m' = fst (perform_metadata_update (mark_for_removal others (user_key u)) m1)
    /\ (registry_ok m -> references m1 = references m /\ forall p s, m_sessions u !! p = Some s ->
         (W !! p = Some s <-> is_registered m s = true) /\ (is_registered m s = true -> called_log_out s ∈ calls m1)).
Proof using Type.
  intros Hu Ht Hs. unfold log_out. rewrite Hu. mrun. case_bool_decide as Ht'; [by rewrite Ht in Ht'|]. case_bool_decide; [done|].
  destruct (foldM _ _ _) as [m1|] eqn:Hf; mrun; [|done]. apply log_out_loop in Hf as (Hst & W & HW & Hin & Hex).
  destruct (log_out_reference (m_management_session u) _) as [m2|] eqn:H2; mrun; [|done].
  destruct (log_out_reference (m_permission_session u) _) as [m3|] eqn:H3; mrun; [|done]. intros [= <-].
  exists W, m3. split_and!; [intros p s Hp; by apply hash_order_lookup, Hin| |done|]; cycle 1.
  { intros Hok. destruct (log_out_reference_more _ _ _ H2) as [R2 C2]. destruct (log_out_reference_more _ _ _ H3) as [R3 C3].
    destruct Hex as (R1 & _ & Hex).
    - split_and!; [exact (ro_paths _ Hok)| |].
      + rewrite hash_order_perm. apply NoDup_fst_map_to_list.
      + intros p s Hp%hash_order_lookup. by apply (uo_sessions _ _ (ro_users _ Hok a u Hu)).
    - split; [by rewrite R3, R2|]. intros p s Hp%hash_order_lookup. destruct (Hex p s Hp) as [Hiff Hcall]. split; [done|].
      intros Hs0. apply C3, C2. by apply Hcall. }
  eapply session_step_trans; [|by eapply log_out_reference_step]. eapply session_step_trans; [|by eapply log_out_reference_step].
  apply (step_users (alter (logged_out W) a (all_users m))) in Hst. unfold on_user. rewrite HW. cbn in *.
  rewrite !alter_alter_eq. set (M := alter _ a (all_users m)). assert (M = alter (logged_out W) a (all_users m)) as -> by (by apply alter_ext).
  exact Hst.
Qed.

Lemma logged_out_ok W u made : (forall p s, W !! p = Some s -> m_sessions u !! p = Some s) -> user_ok made u -> user_ok made (logged_out W u).
Proof using Type.
  intros HW [? ? Hs Hw]. split; cbn; try done. intros p s [Hp|[_ Hp]]%lookup_union_Some_raw; auto.
Qed.

Lemma log_out_ok a m m' : log_out others a m = Some m' -> registry_ok m -> registry_ok m'.
Proof using Type.
  destruct (all_users m !! a) as [u|] eqn:Hu; [|unfold log_out; by rewrite Hu]. intros Hl Hok.
  destruct (decide (m_token_type u = Admin)) as [Ht|Ht].
  { unfold log_out in Hl. rewrite Hu in Hl. revert Hl. mrun. case_bool_decide; [|done]. by intros [= <-]. }
  destruct (decide (m_state u = LoggedOut)) as [Hs|Hs].
  { unfold log_out in Hl. rewrite Hu in Hl. revert Hl. mrun. case_bool_decide; [done|]. case_bool_decide; [|done]. by intros [= <-]. }
  apply (log_out_spec a m m' u Hu) in Hl as (W & m1 & HW & Hst & -> & _); [|by destruct (m_token_type u)|done].
  apply metadata_ok. eapply session_step_ok; [exact Hst|]. apply on_user_ok; [|done]. intros u' Hu' Hok'.
  rewrite Hu in Hu'. injection Hu' as <-. split; [by apply logged_out_ok|done].
Qed.

(** The user after a login. *)
Definition logged_in (token : string) (m : SyncManager) (u : SyncUser) : SyncUser :=
  match m_state u with
  | LoggedOut => set_state Active (set_refresh_token token (set_sessions (list_to_map (waiting_live m u) ∪ m_sessions u) ∅ u))
  | _ => set_refresh_token token u
  end.

Lemma update_spec a token uuid m m' u : all_users m !! a = Some u -> m_state u <> Error -> update_refresh_token others a token uuid m = Some m' ->
  exists m1, m1 = (if bool_decide (m_token_type u <> Admin)
                   then fst (perform_metadata_update (update_metadata others (user_key u) uuid (set_user_token token)) m) else m)
    /\ session_step (on_user (λ _, logged_in token m u) a m1) m'.
Proof using Type.
  intros Hu Hs. unfold update_refresh_token. rewrite Hu. mrun. unfold logged_in. destruct (m_state u) eqn:He; [| |done]; intros [= <-].
  all: eexists; split; [reflexivity|]; apply revive_all_step.
Qed.

Lemma logged_in_ok token m u made : user_ok made u -> user_ok made (logged_in token m u).
Proof using Type.
  intros [Ha Hl Hs Hw]. unfold logged_in. destruct (m_state u) eqn:He; split; cbn; try done; try (by rewrite He).
  intros p s [Hp|[_ Hp]]%lookup_union_Some_raw; [|auto]. apply elem_of_list_to_map_2 in Hp. apply list_elem_of_filter in Hp as [_ Hp].
  apply Hw. by apply hash_order_lookup.
Qed.

Lemma update_ok a token uuid m m' : update_refresh_token others a token uuid m = Some m' -> registry_ok m -> registry_ok m'.
Proof using Type.
  destruct (all_users m !! a) as [u|] eqn:Hu; [|unfold update_refresh_token; by rewrite Hu]. intros Hr Hok.
  destruct (decide (m_state u = Error)) as [He|He].
  { unfold update_refresh_token in Hr. rewrite Hu in Hr. revert Hr. mrun. rewrite He. by intros [= <-]. }
  apply (update_spec a token uuid m m' u Hu He) in Hr as (m1 & -> & Hst). eapply session_step_ok; [exact Hst|].
  set (m1 := if bool_decide _ then _ else m). assert (Hm1 : registry_ok m1) by (unfold m1; case_bool_decide; [by apply metadata_ok|done]).
  assert (Hf : all_users m1 = all_users m /\ all_sessions_made m1 = all_sessions_made m).
  { unfold m1. case_bool_decide; [|done]. by destruct (perform_fields (update_metadata others (user_key u) uuid (set_user_token token)) m) as (? & ? & _). }
  destruct Hf as [Hf1 Hf2]. apply on_user_ok; [|done]. intros u' Hu' Hok'. rewrite Hf1, Hu in Hu'. injection Hu' as <-.
  split; [by apply logged_in_ok|]. unfold logged_in. by destruct (m_state u).
Qed.

Lemma register_session_ok a s m m' : register_session a s m = Some m' -> registry_ok m -> registry_ok m'.
Proof using Type.
  unfold register_session. destruct (all_users m !! a) as [u|] eqn:Hu; mrun; [|done]. destruct (all_sessions_made m !! s) as [x|] eqn:Hx; mrun; [|done].
  intros Hr Hok. destruct (m_state u) eqn:Hs; injection Hr as <-; [| |done].
  - apply on_user_ok; [|done]. intros u' Hu' [Ha Hl Hse Hw]. rewrite Hu in Hu'. injection Hu' as <-. split; [|done].
    split; cbn; try (by rewrite Hs); auto. intros p t [[<- <-]|[_ Hp]]%lookup_insert_Some; [by rewrite Hx|auto].
  - eapply session_step_ok; [apply revive_step|]. apply on_user_ok; [|done]. intros u' Hu' [Ha Hl Hse Hw]. rewrite Hu in Hu'. injection Hu' as <-.
    split; [|done]. split; cbn; try (by rewrite Hs); auto. intros p t [[<- <-]|[_ Hp]]%lookup_insert_Some; [by rewrite Hx|auto].
Qed.

Lemma new_user_fields token identity url local type uuid m u m' : new_SyncUser others token identity url local type uuid m = Some (u, m') ->
  m_state u = Active /\ m_sessions u = ∅ /\ m_waiting_sessions u = ∅ /\ m_identity u = identity /\ m_server_url u = default "" url
  /\ m_token_type u = type /\ m_refresh_token u = token /\ exists x, m' = set_metadata x m.
Proof using Type.
  unfold new_SyncUser. destruct type; cbn.
  - destruct (REALM_ASSERT _); mrun; [|done]. destruct (m_metadata_manager m) as [rows|] eqn:Hm.
    + destruct (get_or_make_user_metadata _ _ _ _ _) as [rows' [i|]]; mrun; [|done]. destruct (_ !! i); mrun; [|done].
      intros [= <- <-]. cbn. split_and!; try done. by eexists.
    + intros [= <- <-]. cbn. split_and!; try done. exists None. by destruct m; cbn in *; subst.
  - destruct (REALM_ASSERT _); mrun; [|done]. destruct local; mrun; [|done]. intros [= <- <-]. cbn. split_and!; try done.
    exists (m_metadata_manager m). by destruct m.
Qed.

Lemma new_user_ok made u : m_state u = Active -> m_sessions u = ∅ -> m_waiting_sessions u = ∅ -> user_ok made u.
Proof using Type. intros Hs Hse Hw. split; rewrite ?Hs, ?Hse, ?Hw; try done; intros p s; by rewrite lookup_empty. Qed.

Lemma set_metadata_ok x m : registry_ok m -> registry_ok (set_metadata x m).
Proof using Type. intros [R1 R2 R3 R4 R5]. by split. Qed.

(** A new user at an address that was free. *)
Lemma add_user_ok a u m : all_users m !! a = None -> user_ok (all_sessions_made m) u -> registry_ok m ->
  registry_ok (set_all_users (<[a := u]> (all_users m)) m).
Proof using Type.
  intros Ha Hu [R1 R2 R3 R4 R5]. split; try done; cbn.
  - intros b v [[<- <-]|[_ Hv]]%lookup_insert_Some; [done|eauto].
  - intros k b Hk. destruct (R2 k b Hk) as (v & Hv & ?). exists v. rewrite lookup_insert_ne; [done|]. intros ->. by rewrite Ha in Hv.
  - intros k b Hk. destruct (R3 k b Hk) as (v & Hv & ?). exists v. rewrite lookup_insert_ne; [done|]. intros ->. by rewrite Ha in Hv.
Qed.

Lemma get_user_ok k token uuid a m m' r : all_users m !! a = None -> get_user others k token uuid a m = Some (m', r) -> registry_ok m -> registry_ok m'.
Proof using Type.
  unfold get_user. intros Ha. destruct (m_users m !! k) as [b|] eqn:Hb.
  - destruct (all_users m !! b) as [u|]; mrun; [|done]. case_bool_decide; [by intros [= <- _]|].
    destruct (update_refresh_token _ _ _ _ _) as [m1|] eqn:Hup; mrun; [|done]. intros [= <- _]. by eapply update_ok.
  - destruct (new_SyncUser _ _ _ _ _ _ _ _) as [[u m1]|] eqn:Hn; mrun; [|done]. intros [= <- _] Hok.
    apply new_user_fields in Hn as (Hs & Hse & Hw & Hi & Hurl & Ht & _ & x & ->).
    pose proof (add_user_ok a u (set_metadata x m)) as Hadd. cbn in Hadd.
    destruct Hadd as [R1 R2 R3 R4 R5]; [done|by apply new_user_ok|by apply set_metadata_ok|]. split; try done. cbn in *.
    intros k' b [[<- <-]|[_ Hk]]%lookup_insert_Some; [|eauto]. exists u. rewrite lookup_insert_eq. split_and!; [done| |done].
    unfold user_key. rewrite Hi, Hurl. by destruct k.
Qed.

Lemma get_admin_ok url token uuid a m m' r : all_users m !! a = None -> get_admin_token_user others url token uuid a m = Some (m', r) ->
  registry_ok m -> registry_ok m'.
Proof using Type.
  unfold get_admin_token_user. intros Ha. destruct (m_admin_token_users m !! url) as [b|] eqn:Hb; [by intros [= <- _]|].
  destruct (new_SyncUser _ _ _ _ _ _ _ _) as [[u m1]|] eqn:Hn; mrun; [|done]. intros [= <- _] Hok.
  apply new_user_fields in Hn as (Hs & Hse & Hw & _ & _ & Ht & _ & x & ->).
  pose proof (add_user_ok a u (set_metadata x m)) as Hadd. cbn in Hadd.
  destruct Hadd as [R1 R2 R3 R4 R5]; [done|by apply new_user_ok|by apply set_metadata_ok|]. split; try done. cbn in *.
  intros k' b [[<- <-]|[_ Hk]]%lookup_insert_Some; [|eauto]. exists u. by rewrite lookup_insert_eq.
Qed.

Lemma registered_revive s t m : is_registered m t = true -> is_registered (session_revive_if_needed s m) t = true.
Proof using Type.
  rewrite !is_registered_spec. intros (p & Hp & Hr). exists p. split; [|done]. by apply (ss_paths _ _ (revive_step s m)).
Qed.

Lemma registered_register a s t m m' : register_session a s m = Some m' -> is_registered m t = true -> is_registered m' t = true.
Proof using Type.
  unfold register_session. destruct (all_users m !! a) as [u|]; mrun; [|done]. destruct (all_sessions_made m !! s) as [x|]; mrun; [|done].
  intros Hr Ht. destruct (m_state u); injection Hr as <-; [done| |done]. by apply registered_revive.
Qed.

(** A new session at an address that was free. *)
Lemma new_session_ok p s m : all_sessions_made m !! s = None -> m_registry m !! p = None -> registry_ok m ->
  registry_ok (external_reference s (set_registry (<[p := s]> (m_registry m)) (set_made (<[s := mkSession p true]> (all_sessions_made m)) m))).
Proof using Type.
  intros Hs Hp [R1 R2 R3 R4 R5]. assert (Hk : paths_kept (all_sessions_made m) (<[s := mkSession p true]> (all_sessions_made m))).
  { intros t q Hq. rewrite lookup_insert_ne; [done|]. intros ->. by rewrite Hs in Hq. }
  assert (Hreg : forall t, is_registered m t = true ->
    is_registered (set_registry (<[p := s]> (m_registry m)) (set_made (<[s := mkSession p true]> (all_sessions_made m)) m)) t = true).
  { intros t (q & Hq & Hr)%is_registered_spec. apply is_registered_spec. exists q. split; [by apply Hk|]. cbn.
    rewrite lookup_insert_ne; [done|]. intros ->. by rewrite Hp in Hr. }
  apply reference_ok.
  { apply is_registered_spec. exists p. cbn. by rewrite !lookup_insert_eq. }
  split; try done; cbn.
  - intros a u Hu. eapply user_ok_paths; eauto.
  - intros q t [[<- <-]|[_ Ht]]%lookup_insert_Some; [by rewrite lookup_insert_eq|]. apply Hk. auto.
  - intros t r Ht. eapply Hreg, R5, Ht.
Qed.

Lemma get_session_ok p a s m m' r : all_sessions_made m !! s = None -> get_session p a s m = Some (m', r) -> registry_ok m -> registry_ok m'.
Proof using Type.
  unfold get_session. intros Hs. destruct (m_registry m !! p) as [t|] eqn:Hp.
  - destruct (register_session a t m) as [m1|] eqn:Hr; mrun; [|done]. intros [= <- <-] Hok. apply reference_ok; [|by eapply register_session_ok].
    eapply registered_register; [exact Hr|]. apply is_registered_spec. exists p. split; [by apply (ro_paths _ Hok)|done].
  - destruct (register_session a s _) as [m1|] eqn:Hr; mrun; [|done]. intros [= <- <-] Hok. eapply register_session_ok; [exact Hr|].
    exact (new_session_ok p s m Hs Hp Hok).
Qed.

Lemma register_special_ok get set stops p a m m' :
  (forall r u, user_ok (all_sessions_made m) u -> user_ok (all_sessions_made m) (set r u) /\ user_key (set r u) = user_key u
     /\ m_token_type (set r u) = m_token_type u) ->
  register_special get set stops p a m = Some m' -> registry_ok m -> registry_ok m'.
Proof using Type.
  unfold register_special. intros Hset. destruct (all_users m !! a) as [u|] eqn:Hu; mrun; [|done].
  destruct (_ || _); [by intros [= <-]|]. unfold get_existing_session. destruct (m_registry m !! p) as [s|] eqn:Hp.
  - intros Hr Hok. assert (Hok1 : registry_ok (external_reference s m)).
    { apply reference_ok; [|done]. apply is_registered_spec. exists p. split; [by apply (ro_paths _ Hok)|done]. }
    assert (Hsame : all_sessions_made (external_reference s m) = all_sessions_made m) by (unfold external_reference; by destruct (references m !! s)).
    match type of Hr with context [on_user ?f a ?x] => assert (Hok2 : registry_ok (on_user f a x)) end.
    { apply on_user_ok; [|done]. rewrite Hsame. intros v _. apply Hset. }
    destruct (get_existing_active_session p m); [by injection Hr as <-|]. eapply session_step_ok; [by eapply drop_reference_step|done].
  - intros [= <-] Hok. apply on_user_ok; [|done]. intros v _. apply Hset.
Qed.

Lemma set_is_admin_ok a b uuid m m' : set_is_admin others a b uuid m = Some m' -> registry_ok m -> registry_ok m'.
Proof using Type.
  unfold set_is_admin. destruct (all_users m !! a) as [u|]; mrun; [|done]. case_bool_decide; intros [= <-] Hok; [done|].
  apply metadata_ok, on_user_ok; [|done]. intros v _ [? ? ? ?]. by split; [split|].
Qed.

Lemma drop_sessions_ok made u ss : (forall p s, ss !! p = Some s -> m_sessions u !! p = Some s) -> user_ok made u ->
  user_ok made (set_sessions ss (m_waiting_sessions u) u).
Proof using Type.
  intros Hss [? Hl ? ?]. split; cbn; auto. intros He. apply map_empty. intros p. destruct (ss !! p) eqn:Hp; [|done].
  apply Hss in Hp. by rewrite Hl in Hp.
Qed.

Lemma all_sessions_ok a m m' l : all_sessions a m = Some (m', l) -> registry_ok m -> registry_ok m'.
Proof using Type.
  unfold all_sessions. destruct (all_users m !! a) as [u|] eqn:Hu; mrun; [|done]. case_bool_decide; intros [= <- _] Hok; [done|].
  apply on_user_ok; [|done]. intros v Hv Hvok. rewrite Hu in Hv. injection Hv as <-. split; [|done].
  apply drop_sessions_ok; [|done]. by intros p s [? _]%map_lookup_filter_Some.
Qed.

Lemma session_for_path_ok p a m m' l : session_for_on_disk_path p a m = Some (m', l) -> registry_ok m -> registry_ok m'.
Proof using Type.
  unfold session_for_on_disk_path. destruct (all_users m !! a) as [u|] eqn:Hu; mrun; [|done]. case_bool_decide; [by intros [= <- _]|].
  destruct (m_sessions u !! p) as [s|]; [|by intros [= <- _]]. destruct (lock m s); intros [= <- _] Hok; [done|].
  apply on_user_ok; [|done]. intros v Hv Hvok. rewrite Hu in Hv. injection Hv as <-. split; [|done].
  apply drop_sessions_ok; [|done]. by intros q t [_ ?]%lookup_delete_Some.
Qed.

Lemma invalidate_ok a m : registry_ok m -> registry_ok (invalidate a m).
Proof using Type. apply on_user_ok. intros v _ [? ? ? ?]. by split; [split|]. Qed.

Lemma apply_ok x m m' : apply x m = Some m' -> registry_ok m -> registry_ok m'.
Proof using Type.
  unfold apply. destruct (allowed x m) eqn:Ha; [|done]. cbn [negb]. destruct x; cbn [allowed] in Ha.
  all: try apply bool_decide_eq_true in Ha.
  - intros ([m1 r] & Hr & ->)%fmap_Some. by eapply get_user_ok.
  - intros ([m1 r] & Hr & ->)%fmap_Some. by eapply get_admin_ok.
  - apply log_out_ok.
  - apply set_is_admin_ok.
  - intros [= <-]. apply invalidate_ok.
  - intros ([m1 r] & Hr & ->)%fmap_Some. by eapply get_session_ok.
  - intros Hs. eapply session_step_ok. by eapply drop_reference_step.
  - intros Hs. eapply session_step_ok. by eapply stop_step.
  - intros ([m1 r] & Hr & ->)%fmap_Some. by eapply all_sessions_ok.
  - intros ([m1 r] & Hr & ->)%fmap_Some. by eapply session_for_path_ok.
  - apply register_special_ok. intros r u [? ? ? ?]. by split; [split|].
  - apply register_special_ok. intros r u [? ? ? ?]. by split; [split|].
Qed.

Lemma history_ok ops : forall m m', history ops m m' -> registry_ok m -> registry_ok m'.
Proof using Type.
  unfold history. induction ops as [|x ops IH]; intros m m'; cbn [foldM]; [by intros [= <-]|].
  destruct (apply x m) as [m1|] eqn:Hx; mrun; [|done]. intros Hr Hok. eapply IH; [exact Hr|]. by eapply apply_ok.
Qed.

Definition new_manager (metadata : option (list UserRow)) : SyncManager := mkManager ∅ ∅ ∅ metadata ∅ ∅ ∅ 0 [].

Lemma new_manager_ok x : registry_ok (new_manager x).
Proof using Type. split; intros ? ?; by rewrite ?lookup_empty. Qed.
End histories.

(** ** Logging out and in again *)
Section sessions.
Context `{HB : Build, HO : HashOrders}.
Variable others : list UserRow -> list UserRow.

Definition references_ok (m : SyncManager) : Prop := forall s r, references m !! s = Some r -> is_registered m s = true.

Lemma step_references_ok m m' : session_step m m' -> references_ok m -> references_ok m'.
Proof using Type. intros Hst Hr s r Hs. apply (ss_kept _ _ Hst); [|by eexists]. eapply Hr. by eapply (ss_referenced _ _ Hst). Qed.

Lemma log_out_loop_total a l : forall m, exists m', foldM (log_out_session a) l m = Some m'.
Proof using Type.
  induction l as [|[p s] l IH]; intros m; cbn [foldM]; [by eexists|].
  assert (exists m1, log_out_session a (p, s) m = Some m1) as [m1 ->]; [|mrun; apply IH]. unfold log_out_session. cbn [snd fst].
  destruct (is_registered m s) eqn:Hs; [|by eexists]. destruct (session_log_out_total s m Hs) as [m0 ->]. by eexists.
Qed.

Lemma lock_reference_Some m r s : lock_reference m r = Some s -> is_Some (references m !! s).
Proof using Type.
  unfold lock_reference. destruct r as [r|]; mrun; [|done]. destruct (head _) as [[s' r']|] eqn:Hh; mrun; [|done]. intros [= <-].
  destruct (filter _ _) as [|x l] eqn:Hf; [done|]. injection Hh as ->. assert (Hin : (s', r') ∈ filter (λ p : nat * nat, p.2 = r) (map_to_list (references m))) by (rewrite Hf; left).
  apply list_elem_of_filter in Hin as [_ Hin%elem_of_map_to_list]. by eexists.
Qed.

Lemma log_out_reference_total r m : references_ok m -> exists m', log_out_reference r m = Some m'.
Proof using Type.
  intros Hok. unfold log_out_reference. destruct (lock_reference m r) as [s|] eqn:Hl; [|by eexists].
  apply lock_reference_Some in Hl as [x Hx]. apply session_log_out_total. by eapply Hok.
Qed.

(** No assertion of a logout fails. *)
Lemma user_log_out_total a u m : registry_ok m -> all_users m !! a = Some u -> exists m', log_out others a m = Some m'.
Proof using Type.
  intros Hok Hu. unfold log_out. rewrite Hu. mrun. case_bool_decide; [by eexists|]. case_bool_decide; [by eexists|].
  destruct (log_out_loop_total a (hash_order (m_sessions u)) (on_user (set_state LoggedOut) a m)) as [m1 Hm1]. rewrite Hm1. mrun.
  assert (R1 : references_ok m1).
  { apply log_out_loop in Hm1 as [Hst _]. apply (step_references_ok _ _ Hst). exact (ro_references _ Hok). }
  destruct (log_out_reference_total (m_management_session u) (on_user (λ u, set_sessions ∅ (m_waiting_sessions u) u) a m1)) as [m2 Hm2]; [done|].
  rewrite Hm2. mrun. apply log_out_reference_step in Hm2.
  destruct (log_out_reference_total (m_permission_session u) m2) as [m3 ->]; [by apply (step_references_ok _ _ Hm2)|]. by eexists.
Qed.

Lemma update_token_total a u token uuid m : all_users m !! a = Some u -> exists m', update_refresh_token others a token uuid m = Some m'.
Proof using Type. intros Hu. unfold update_refresh_token. rewrite Hu. mrun. destruct (m_state u); by eexists. Qed.

Lemma revive_all_calls ss m : (forall c, c ∈ calls m -> c ∈ calls (revive_all ss m)) /\ forall s, s ∈ ss -> called_revive_if_needed s ∈ calls (revive_all ss m).
Proof using Type.
  revert m. induction ss as [|x ss IH]; intros m; [by split; [|intros s ?%elem_of_nil]|]. destruct (IH (session_revive_if_needed x m)) as [Hc Hs].
  change (revive_all (x :: ss) m) with (revive_all ss (session_revive_if_needed x m)). split.
  - intros c Hin. apply Hc. cbn. apply elem_of_app. by left.
  - intros s [->|Hin]%elem_of_cons; [|auto]. apply Hc. cbn. apply elem_of_app. right. by left.
Qed.

Lemma revive_all_active ss m s : is_Some (all_sessions_made m !! s) -> s ∈ ss \/ inactive <$> all_sessions_made m !! s = Some false ->
  inactive <$> all_sessions_made (revive_all ss m) !! s = Some false.
Proof using Type.
  revert m. induction ss as [|x ss IH]; intros m Hm Hs; [by destruct Hs as [?%elem_of_nil|]|].
  apply (IH (session_revive_if_needed x m)); cbn.
  - destruct (decide (s = x)) as [->|Hne]; [rewrite lookup_alter_eq; by apply fmap_is_Some|by rewrite lookup_alter_ne].
  - destruct (decide (s = x)) as [->|Hne]; [right; rewrite lookup_alter_eq; by destruct Hm as [? ->]|]. rewrite lookup_alter_ne by done.
    destruct Hs as [Hs|Hs]; [|by right]. left. by apply elem_of_cons in Hs as [?|?].
Qed.

Lemma update_calls a token uuid m m' u : all_users m !! a = Some u -> m_state u = LoggedOut -> update_refresh_token others a token uuid m = Some m' ->
  forall s, s ∈ (waiting_live m u).*2 -> is_Some (all_sessions_made m !! s) ->
    called_revive_if_needed s ∈ calls m' /\ inactive <$> all_sessions_made m' !! s = Some false.
Proof using Type.
  intros Hu He Hup s Hs Hmade. unfold update_refresh_token in Hup. rewrite Hu in Hup. revert Hup. mrun. rewrite He. intros [= <-]. split.
  - apply revive_all_calls, elem_of_app. by right.
  - apply revive_all_active; [|left; apply elem_of_app; by right]. cbn. case_bool_decide; [|done].
    unfold perform_metadata_update. by destruct (m_metadata_manager m).
Qed.

(** The sessions that are revived are those that waited and are still registered. *)
Lemma waiting_live_spec m u p s : list_to_map (M := gmap string nat) (waiting_live m u) !! p = Some s
  <-> m_waiting_sessions u !! p = Some s /\ is_registered m s = true.
Proof using Type.
  unfold waiting_live. rewrite <- elem_of_list_to_map.
  - rewrite list_elem_of_filter, hash_order_lookup. cbn. tauto.
  - assert (Hnd : NoDup (hash_order (m_waiting_sessions u)).*1) by (rewrite hash_order_perm; apply NoDup_fst_map_to_list). revert Hnd.
    generalize (hash_order (m_waiting_sessions u)) as l. induction l as [|[q t] l IH]; [done|]. cbn [fmap list_fmap fst]. rewrite NoDup_cons, filter_cons.
    intros [Hn Hnd]. case_decide; [|auto]. cbn. apply NoDup_cons. split; [|auto]. rewrite list_elem_of_fmap. intros ([q' t'] & -> & [_ Hin]%list_elem_of_filter).
    by apply Hn, (list_elem_of_fmap_2 fst _ (q', t')).
Qed.
End sessions.
