(* ===== verification/SyncPersistence.v ===== *)
(** * What is kept of the users

    The rows of the metadata agree with the users. Starting again yields the users
    that are logged in, and those that are logged out whose administrator's flag
    has been written since. *)

From stdpp Require Import strings.
From S2P Require Import Prelude SyncUsers SyncUserFacts.

(** ** Rows *)
Section rows.
Implicit Types (rows : list UserRow) (k : SyncUserIdentifier) (others : list UserRow -> list UserRow).

Lemma find_user_cases k rows :
  (find_user k rows = None /\ k ∉ row_key <$> rows) \/ (exists i r, find_user k rows = Some i /\ rows !! i = Some r /\ row_key r = k).
Proof.
  unfold find_user. destruct (find_index_cases (λ r, bool_decide (row_key r = k)) rows) as [[Hf Hn]|(l1 & x & l2 & -> & _ & Hx & Hi)].
  - left. split; [done|]. intros (r & -> & Hr)%list_elem_of_fmap. rewrite Forall_forall in Hf. specialize (Hf r Hr).
    by apply bool_decide_eq_false in Hf.
  - right. exists (length l1), x. split_and!; [done|by rewrite list_lookup_middle|]. by apply bool_decide_eq_true in Hx.
Qed.

Lemma alter_row_ext (f g : UserRow -> UserRow) i rows : (forall r, rows !! i = Some r -> f r = g r) -> alter f i rows = alter g i rows.
Proof.
  intros Hfg. apply list_eq. intros j. destruct (decide (j = i)) as [->|Hne].
  - rewrite !list_lookup_alter_eq. destruct (rows !! i); [|done]. cbn. by rewrite Hfg.
  - by rewrite !list_lookup_alter_ne.
Qed.

Lemma row_keys_alter f i rows : (forall r, row_key (f r) = row_key r) -> row_key <$> alter f i rows = row_key <$> rows.
Proof.
  intros Hf. apply list_eq. intros j. rewrite !list_lookup_fmap. destruct (decide (j = i)) as [->|Hne].
  - rewrite list_lookup_alter_eq. destruct (rows !! i); [|done]. cbn. by rewrite Hf.
  - by rewrite list_lookup_alter_ne.
Qed.

Lemma row_unique rows i j r s : NoDup (row_key <$> rows) -> rows !! i = Some r -> rows !! j = Some s -> row_key r = row_key s -> i = j.
Proof.
  intros Hnd Hi Hj Hk. eapply NoDup_lookup; [exact Hnd|rewrite list_lookup_fmap, Hi; done|]. rewrite list_lookup_fmap, Hj. cbn. by rewrite Hk.
Qed.

(** The results of the query are at most one. *)
Lemma results_below_two k rows : NoDup (row_key <$> rows) -> length (filter (λ r, row_key r = k) rows) < 2.
Proof.
  induction rows as [|r rows IH]; intros Hnd; [cbn; lia|]. cbn [fmap list_fmap] in Hnd. apply NoDup_cons in Hnd as [Hr Hnd].
  rewrite filter_cons. case_decide as Hk; [|auto]. destruct (filter (λ r, row_key r = k) rows) as [|s l] eqn:Hf; [cbn; lia|]. destruct Hr.
  assert (Hs : s ∈ filter (λ r, row_key r = k) rows) by (rewrite Hf; left). apply list_elem_of_filter in Hs as [<- Hs]. rewrite Hk.
  by apply list_elem_of_fmap_2.
Qed.

Variable others : list UserRow -> list UserRow.

Lemma update_metadata_found k uuid f rows i : find_user k rows = Some i ->
  update_metadata others k uuid f rows = alter (λ r, f (set_marked false r)) i rows.
Proof.
  intros Hf. destruct (find_user_cases k rows) as [[? _]|(j & r & Hj & Hr & _)]; [congruence|]. rewrite Hf in Hj. injection Hj as <-.
  unfold update_metadata, get_or_make_user_metadata. rewrite Hf, Hr. cbn. destruct (idx_marked_for_removal r) eqn:Hm.
  - by rewrite list_alter_alter_eq.
  - apply alter_row_ext. intros r' Hr'. rewrite Hr in Hr'. injection Hr' as <-. f_equal. destruct r. cbn in *. by subst.
Qed.

Lemma update_metadata_new k uuid f rows : find_user k rows = None -> others rows = rows ->
  update_metadata others k uuid f rows = rows ++ [f (mkUserRow k.1 k.2 uuid None false false)].
Proof.
  intros Hf Ho. unfold update_metadata, get_or_make_user_metadata. rewrite Hf. cbn [negb]. rewrite Ho, Hf. cbv beta iota zeta.
  rewrite <- (Nat.add_0_r (length rows)). by rewrite alter_app_r.
Qed.

Lemma mark_found k rows i : find_user k rows = Some i -> mark_for_removal others k rows = alter (set_marked true) i rows.
Proof.
  intros Hf. destruct (find_user_cases k rows) as [[? _]|(j & r & Hj & Hr & _)]; [congruence|]. rewrite Hf in Hj. injection Hj as <-.
  unfold mark_for_removal, get_or_make_user_metadata. rewrite Hf, Hr. cbn. destruct (idx_marked_for_removal r) eqn:Hm; [|done].
  apply list_eq. intros j. destruct (decide (j = i)) as [->|Hne]; [|by rewrite list_lookup_alter_ne].
  rewrite list_lookup_alter_eq, Hr. cbn. f_equal. destruct r. cbn in *. by subst.
Qed.
End rows.

(** ** Users and their rows *)

(** [w]: the administrator's flag has been written since the user is logged out. The
    row of such a user is no longer marked; of any other user that is logged out
    it is, and of one that is logged in it is not. Of one in error nothing is
    known. *)
Record agrees (w : bool) (r : UserRow) (u : SyncUser) : Prop := {
  ag_token : idx_user_token r = Some (m_refresh_token u);
  ag_admin : m_is_admin u = Some (idx_user_is_admin r);
  ag_local : m_local_identity u = idx_local_uuid r;
  ag_logged_out : m_state u = LoggedOut -> idx_marked_for_removal r = negb w;
  ag_active : m_state u = Active -> idx_marked_for_removal r = false;
}.

(** A row without a user is marked. [W]: where the users are that are logged out and
    whose flag has been written since. *)
Definition row_ok `{Build} (W : gset nat) (us : gmap SyncUserIdentifier nat) (all : gmap nat SyncUser) (r : UserRow) : Prop :=
  REALM_ASSERT (bool_decide (idx_auth_server_url r <> "")) = Some tt
  /\ match us !! row_key r with
     | None => idx_marked_for_removal r = true
     | Some a => exists u, all !! a = Some u /\ agrees (bool_decide (a ∈ W)) r u
     end.

Record persisted `{Build} (W : gset nat) (us : gmap SyncUserIdentifier nat) (all : gmap nat SyncUser) (rows : list UserRow) : Prop := {
  ps_keys : NoDup (row_key <$> rows);
  ps_rows : forall r, r ∈ rows -> row_ok W us all r;
  ps_users : forall k a, us !! k = Some a ->
    k ∈ row_key <$> rows /\ exists u, all !! a = Some u /\ user_key u = k /\ m_token_type u = Normal;
  ps_normal : forall a u, all !! a = Some u -> m_token_type u = Normal -> us !! user_key u = Some a;
}.

Definition kept `{Build} (W : gset nat) (m : SyncManager) : Prop := exists rows, m_metadata_manager m = Some rows /\ persisted W (m_users m) (all_users m) rows.

Section persistence.
Context `{HB : Build, HO : HashOrders}.
Implicit Types (W : gset nat) (us : gmap SyncUserIdentifier nat) (all : gmap nat SyncUser) (rows : list UserRow) (k : SyncUserIdentifier) (others : list UserRow -> list UserRow).

Lemma persisted_row {W} us all rows a u : persisted W us all rows -> all !! a = Some u -> m_token_type u = Normal ->
  exists i r, find_user (user_key u) rows = Some i /\ rows !! i = Some r /\ row_key r = user_key u /\ agrees (bool_decide (a ∈ W)) r u.
Proof using Type.
  intros [_ Hr Hus Hn] Hu Ht. pose proof (Hn a u Hu Ht) as Hk. destruct (Hus _ _ Hk) as [Hin _].
  destruct (find_user_cases (user_key u) rows) as [[_ ?]|(i & r & Hi & Hri & Hkey)]; [done|]. exists i, r. split_and!; try done.
  destruct (Hr r) as [_ Hag]; [by eapply list_elem_of_lookup_2|]. rewrite Hkey, Hk in Hag. destruct Hag as (u' & Hu' & Ha).
  rewrite Hu in Hu'. by injection Hu' as <-.
Qed.

(** A user that has a row changes together with it. *)
Lemma persisted_change {W W'} us all rows a u f g i r : persisted W us all rows -> (forall b, b <> a -> b ∈ W <-> b ∈ W') -> all !! a = Some u -> m_token_type u = Normal ->
  rows !! i = Some r -> row_key r = user_key u -> (agrees (bool_decide (a ∈ W)) r u -> agrees (bool_decide (a ∈ W')) (g r) (f u)) ->
  (forall r, row_key (g r) = row_key r) -> user_key (f u) = user_key u -> m_token_type (f u) = m_token_type u ->
  persisted W' us (alter f a all) (alter g i rows).
Proof using Type.
  intros Hp HW Hu Ht Hi Hkr Hag Hgk Hfk Hft. pose proof Hp as [Hk Hr Hus Hn]. pose proof (Hn a u Hu Ht) as Hka. split.
  - by rewrite row_keys_alter.
  - intros r' (j & Hj)%list_elem_of_lookup_1. destruct (decide (j = i)) as [->|Hne].
    + rewrite list_lookup_alter_eq, Hi in Hj. apply (inj Some) in Hj as <-. destruct (Hr r) as [Hurl Hm]; [by eapply list_elem_of_lookup_2|].
      split; [by rewrite (f_equal snd (Hgk r) : idx_auth_server_url (g r) = idx_auth_server_url r)|].
      rewrite Hgk, Hkr, Hka in *. destruct Hm as (u' & Hu' & Ha). rewrite Hu in Hu'. injection Hu' as <-. exists (f u).
      split; [by rewrite lookup_alter_eq, Hu|auto].
    + rewrite list_lookup_alter_ne in Hj by done. destruct (Hr r') as [Hurl Hm]; [by eapply list_elem_of_lookup_2|]. split; [done|].
      destruct (us !! row_key r') as [b|] eqn:Hb; [|done]. destruct (decide (b = a)) as [->|Hba]; [|by rewrite lookup_alter_ne, <- (bool_decide_ext _ _ (HW b Hba))].
      destruct (Hus _ _ Hb) as (_ & u' & Hu' & Hk' & _). rewrite Hu in Hu'. injection Hu' as <-. destruct Hne.
      eapply row_unique; [exact Hk|exact Hj|exact Hi|congruence].
  - intros k b Hb. rewrite row_keys_alter by done. destruct (Hus _ _ Hb) as (Hin & v & Hv & ? & ?). split; [done|].
    destruct (decide (b = a)) as [->|Hba]; [|exists v; by rewrite lookup_alter_ne]. rewrite Hu in Hv. injection Hv as <-.
    exists (f u). rewrite lookup_alter_eq, Hu. split_and!; [done|congruence..].
  - intros b v. destruct (decide (b = a)) as [->|Hba]; [|rewrite lookup_alter_ne by done; apply Hn].
    rewrite lookup_alter_eq, Hu. intros [= <-] _. congruence.
Qed.

Lemma alter_id_row i rows : alter (λ r : UserRow, r) i rows = rows.
Proof using Type. by rewrite list_alter_id. Qed.

(** What the row does not see may change, and a user may fall into error. *)
Lemma persisted_user {W} us all rows a f : persisted W us all rows ->
  (forall u, user_key (f u) = user_key u /\ m_token_type (f u) = m_token_type u /\ m_refresh_token (f u) = m_refresh_token u
     /\ m_is_admin (f u) = m_is_admin u /\ m_local_identity (f u) = m_local_identity u /\ (m_state (f u) = m_state u \/ m_state (f u) = Error)) ->
  persisted W us (alter f a all) rows.
Proof using Type.
  intros Hp Hf. destruct (all !! a) as [u|] eqn:Hu; [|by rewrite alter_id by (intros v Hv; congruence)].
  destruct (Hf u) as (Hk & Ht & Hto & Had & Hlo & Hs). destruct (m_token_type u) eqn:Hty.
  - destruct (persisted_row us all rows a u Hp Hu Hty) as (i & r & _ & Hi & Hkr & _).
    rewrite <- (alter_id_row i rows). eapply (persisted_change us all rows a u f _ i r); [done..| |done|done|congruence].
    intros [? ? ? ? ?]. destruct Hs as [Hs|Hs]; split; rewrite ?Hto, ?Had, ?Hlo, ?Hs; done.
  - destruct Hp as [P1 P2 P3 P4].
    assert (Hna : forall k b v, us !! k = Some b -> all !! b = Some v -> m_token_type v = Normal -> b <> a) by (intros k b v _ Hv Hn ->; congruence).
    split; [done| | |].
    + intros r Hr. destruct (P2 r Hr) as [Hurl Hm]. split; [done|]. destruct (us !! row_key r) as [b|] eqn:Hb; [|done].
      destruct Hm as (v & Hv & Ha). destruct (P3 _ _ Hb) as (_ & v' & Hv' & _ & Hn). exists v. rewrite lookup_alter_ne; [done|].
      intros ->. eapply Hna; eauto.
    + intros k b Hb. destruct (P3 _ _ Hb) as (? & v & Hv & ? & Hn). split; [done|]. exists v. rewrite lookup_alter_ne; [done|].
      intros ->. eapply Hna; eauto.
    + intros b v. destruct (decide (b = a)) as [->|Hba]; [|rewrite lookup_alter_ne by done; apply P4].
      rewrite lookup_alter_eq, Hu. intros [= <-]. congruence.
Qed.

(** A row is made for a new user, or the one that it has had is taken up again. *)
Lemma new_row others k uuid f rows : (forall x, others x = x) -> (forall r, row_key (f r) = row_key r) -> NoDup (row_key <$> rows) ->
  exists i r, update_metadata others k uuid f rows !! i = Some (f r) /\ row_key r = k /\ idx_marked_for_removal r = false
    /\ NoDup (row_key <$> update_metadata others k uuid f rows)
    /\ (forall s, s ∈ update_metadata others k uuid f rows -> s = f r \/ (s ∈ rows /\ row_key s <> k))
    /\ (forall k', k' ∈ row_key <$> update_metadata others k uuid f rows <-> k' = k \/ k' ∈ row_key <$> rows).
Proof using Type.
  intros Ho Hf Hnd. destruct (find_user_cases k rows) as [[Hn Hk]|(i & r & Hi & Hr & Hk)].
  - rewrite (update_metadata_new others k uuid f rows Hn (Ho rows)). set (r := mkUserRow k.1 k.2 uuid None false false).
    assert (Hrk : row_key r = k) by by destruct k. exists (length rows), r. split_and!; try done.
    + by rewrite list_lookup_middle.
    + rewrite fmap_app. apply NoDup_app. split_and!; [done| |apply NoDup_singleton]. intros x Hx ->%list_elem_of_singleton.
      cbn in Hx. by rewrite Hf, Hrk in Hx.
    + intros s [Hs| ->%list_elem_of_singleton]%elem_of_app; [|by left]. right. split; [done|]. intros <-. by apply Hk, list_elem_of_fmap_2.
    + intros k'. rewrite fmap_app, elem_of_app. cbn. rewrite list_elem_of_singleton, Hf, Hrk. tauto.
  - rewrite (update_metadata_found others k uuid f rows i Hi). set (g := λ r, f (set_marked false r)).
    assert (Hg : forall r, row_key (g r) = row_key r) by (intros x; unfold g; by rewrite Hf).
    exists i, (set_marked false r). split_and!; try done.
    + by rewrite list_lookup_alter_eq, Hr.
    + by rewrite row_keys_alter.
    + intros s (j & Hj)%list_elem_of_lookup_1. destruct (decide (j = i)) as [->|Hne].
      * rewrite list_lookup_alter_eq, Hr in Hj. injection Hj as <-. by left.
      * rewrite list_lookup_alter_ne in Hj by done. right. split; [by eapply list_elem_of_lookup_2|]. intros Hs. apply Hne.
        eapply row_unique; [exact Hnd|exact Hj|exact Hr|congruence].
    + intros k'. rewrite row_keys_alter by done. split; [by right|]. intros [->|Hk']; [|done]. rewrite <- Hk.
      apply list_elem_of_fmap_2. by eapply list_elem_of_lookup_2.
Qed.

Lemma persisted_new {W} others us all rows k uuid f a u : (forall x, others x = x) -> (forall r, row_key (f r) = row_key r) ->
  REALM_ASSERT (bool_decide (k.2 <> "")) = Some tt -> us !! k = None -> all !! a = None -> user_key u = k -> m_token_type u = Normal ->
  (forall r, idx_marked_for_removal r = false -> row_key r = k -> f r ∈ update_metadata others k uuid f rows -> agrees (bool_decide (a ∈ W)) (f r) u) ->
  persisted W us all rows -> persisted W (<[k := a]> us) (<[a := u]> all) (update_metadata others k uuid f rows).
Proof using Type.
  intros Ho Hf Hurl Hus Ha Hku Ht Hag [P1 P2 P3 P4].
  destruct (new_row others k uuid f rows Ho Hf P1) as (i & r & Hi & Hrk & Hm & Hnd & Hrows & Hkeys). split.
  - done.
  - intros s [->|[Hs Hne]]%Hrows.
    + split; [by rewrite <- Hrk, <- (Hf r) in Hurl|]. rewrite Hf, Hrk, lookup_insert_eq. exists u. rewrite lookup_insert_eq. split; [done|].
      apply Hag; [done..|by eapply list_elem_of_lookup_2].
    + destruct (P2 s Hs) as [Hsu Hsm]. split; [done|]. rewrite lookup_insert_ne by done. destruct (us !! row_key s) as [b|] eqn:Hb; [|done].
      destruct Hsm as (v & Hv & ?). exists v. rewrite lookup_insert_ne; [done|]. intros ->. by rewrite Ha in Hv.
  - intros k' b [[<- <-]|[Hne Hb]]%lookup_insert_Some.
    + split; [apply Hkeys; by left|]. exists u. by rewrite lookup_insert_eq.
    + destruct (P3 _ _ Hb) as (? & v & Hv & ?). split; [apply Hkeys; by right|]. exists v. rewrite lookup_insert_ne; [done|].
      intros ->. by rewrite Ha in Hv.
  - intros b v [[<- <-]|[Hne Hv]]%lookup_insert_Some Hnv; [by rewrite Hku, lookup_insert_eq|].
    rewrite lookup_insert_ne; [by apply P4|]. intros ->. pose proof (P4 _ _ Hv Hnv). congruence.
Qed.

(** The constructor with a metadata manager. *)
Lemma new_user_spec others token k uuid m u m' rows : new_SyncUser others token k.1 (Some k.2) None Normal uuid m = Some (u, m') ->
  m_metadata_manager m = Some rows ->
  REALM_ASSERT (bool_decide (k.2 <> "")) = Some tt /\ m' = set_metadata (Some (update_metadata others k uuid (set_user_token token) rows)) m
  /\ exists i r, update_metadata others k uuid (set_user_token token) rows !! i = Some r /\ row_key r = k /\ idx_user_token r = Some token
     /\ u = mkSyncUser Active (idx_local_uuid r) None None k.2 Normal (Some (idx_user_is_admin r)) token k.1 ∅ ∅.
Proof using Type.
  unfold new_SyncUser, update_metadata. intros Hn Hm. cbn in Hn. rewrite Hm in Hn. destruct (REALM_ASSERT _) as [[]|]; [|done]. revert Hn. mrun.
  change (user_key _) with (k.1, k.2). rewrite <- (surjective_pairing k).
  destruct (get_or_make_user_metadata others k true uuid rows) as [rows' [i|]] eqn:Hg; mrun; [|done].
  destruct (alter (set_user_token token) i rows' !! i) as [r|] eqn:Hr; mrun; [|done]. intros [= <- <-]. split_and!; [done..|].
  exists i, r. split; [done|]. rewrite list_lookup_alter_eq in Hr. apply fmap_Some in Hr as (r0 & Hr0 & ->). cbn. split_and!; try done.
  unfold row_key. cbn. change (row_key r0 = k). clear Hm. revert Hg Hr0. unfold get_or_make_user_metadata. clear. intros Hg Hr0.
  assert (Hcase : forall x i r0, find_user k x = Some i -> (x !! i = Some r0 \/ alter (set_marked false) i x !! i = Some r0) -> row_key r0 = k).
  { clear. intros x i r0 Hi. destruct (find_user_cases k x) as [[? _]|(j & r & Hj & Hr & Hk)]; [congruence|].
    rewrite Hi in Hj. injection Hj as <-. rewrite list_lookup_alter_eq, Hr. intros [Hx|Hx]; by apply (inj Some) in Hx as <-. }
  destruct (find_user k rows) as [j|] eqn:Hf.
  - destruct (default false _) in Hg; injection Hg as <- <-; eauto.
  - cbn [negb] in Hg. destruct (find_user k (others rows)) as [j|] eqn:Hf2; injection Hg as <- <-; [eauto|].
    rewrite list_lookup_middle in Hr0 by done. injection Hr0 as <-. by destruct k.
Qed.

(** ** Operations *)

Lemma kept_same {W} m m' : m_users m' = m_users m -> all_users m' = all_users m -> m_metadata_manager m' = m_metadata_manager m -> kept W m -> kept W m'.
Proof using Type. intros Hu Ha Hm (rows & Hr & Hp). exists rows. by rewrite Hm, Hu, Ha. Qed.

Lemma kept_step {W} m m' : session_step m m' -> kept W m -> kept W m'.
Proof using Type. intros Hs. apply kept_same; by apply Hs. Qed.

(** Only of users that are logged out it matters whether their flag has been written. *)
Lemma kept_flagged {W W'} m : (forall a u, all_users m !! a = Some u -> m_token_type u = Normal -> m_state u = LoggedOut -> a ∈ W <-> a ∈ W') ->
  kept W m -> kept W' m.
Proof using Type.
  intros HW (rows & Hr & [P1 P2 P3 P4]). exists rows. split; [done|]. split; [done| |done..].
  intros r Hin. destruct (P2 r Hin) as [Hurl Hm]. split; [done|]. destruct (m_users m !! row_key r) as [a|] eqn:Ha; [|done].
  destruct Hm as (u & Hu & [A1 A2 A3 A4 A5]). destruct (P3 _ _ Ha) as (_ & u' & Hu' & _ & Hn). rewrite Hu in Hu'. injection Hu' as <-.
  exists u. split; [done|]. split; try done. intros Hs. rewrite (A4 Hs). f_equal. apply bool_decide_ext, (HW a u Hu Hn Hs).
Qed.

Lemma kept_user {W} f a m : (forall u, user_key (f u) = user_key u /\ m_token_type (f u) = m_token_type u /\ m_refresh_token (f u) = m_refresh_token u
     /\ m_is_admin (f u) = m_is_admin u /\ m_local_identity (f u) = m_local_identity u /\ (m_state (f u) = m_state u \/ m_state (f u) = Error)) ->
  kept W m -> kept W (on_user f a m).
Proof using Type. intros Hf (rows & Hr & Hp). exists rows. split; [done|]. by apply persisted_user. Qed.

Lemma kept_sessions {W} f g a m : kept W m -> kept W (on_user (λ u, set_sessions (f u) (g u) u) a m).
Proof using Type. apply kept_user. intros u. cbn. split_and!; try done. by left. Qed.

(** A registered user and its row. *)
Lemma kept_change {W W'} others f h a u m m' : (forall x, others x = x) -> all_users m !! a = Some u -> m_token_type u = Normal ->
  (forall b, b <> a -> b ∈ W <-> b ∈ W') ->
  (forall r, agrees (bool_decide (a ∈ W)) r u -> agrees (bool_decide (a ∈ W')) (h r) (f u)) -> (forall r, row_key (h r) = row_key r) ->
  user_key (f u) = user_key u -> m_token_type (f u) = m_token_type u ->
  m_users m' = m_users m -> all_users m' = alter f a (all_users m) ->
  (forall rows i, m_metadata_manager m = Some rows -> find_user (user_key u) rows = Some i -> m_metadata_manager m' = Some (alter h i rows)) ->
  kept W m -> kept W' m'.
Proof using Type.
  intros Ho Hu Ht HW Hag Hh Hk Hft Hus Hall Hmeta (rows & Hr & Hp). destruct (persisted_row _ _ _ _ _ Hp Hu Ht) as (i & r & Hi & Hri & Hrk & _).
  exists (alter h i rows). split; [eauto|]. rewrite Hus, Hall. eapply (persisted_change _ _ _ a u f h i r); eauto.
Qed.

Lemma update_kept {W} others a u token uuid m m' : (forall x, others x = x) -> all_users m !! a = Some u -> m_token_type u = Normal -> m_state u <> Error ->
  update_refresh_token others a token uuid m = Some m' -> kept W m -> kept W m'.
Proof using Type.
  intros Ho Hu Ht He Hup Hk. apply (update_spec others a token uuid m m' u Hu He) in Hup as (m1 & -> & Hst).
  rewrite bool_decide_eq_true_2 in Hst by by rewrite Ht. eapply kept_step; [exact Hst|]. clear Hst m'.
  destruct (perform_fields (update_metadata others (user_key u) uuid (set_user_token token)) m) as (F1 & _ & _ & _ & F5 & _ & _ & F8).
  assert (Hsame : user_key (logged_in token m u) = user_key u /\ m_token_type (logged_in token m u) = m_token_type u
      /\ m_refresh_token (logged_in token m u) = token /\ m_is_admin (logged_in token m u) = m_is_admin u
      /\ m_local_identity (logged_in token m u) = m_local_identity u /\ m_state (logged_in token m u) = Active).
  { unfold logged_in. destruct (m_state u) eqn:Hs; [by split_and!|split_and!; by cbn|done]. }
  destruct Hsame as (S1 & S2 & S3 & S4 & S5 & S6).
  eapply (kept_change others (λ _, logged_in token m u) (λ r, set_user_token token (set_marked false r))); try done.
  - intros r [? ? ? ? ?]. split; cbn; rewrite ?S3, ?S4, ?S5, ?S6; try done.
  - unfold on_user. cbn. by rewrite F1.
  - intros rows i Hr Hi. cbn. rewrite F8, Hr. cbn. by rewrite (update_metadata_found others _ _ _ _ i).
Qed.

Lemma log_out_kept {W} others a m m' : (forall x, others x = x) -> (a ∈ W -> m_state <$> all_users m !! a = Some LoggedOut) -> log_out others a m = Some m' -> kept W m -> kept W m'.
Proof using Type.
  intros Ho HW Hl. destruct (all_users m !! a) as [u|] eqn:Hu; [|unfold log_out in Hl; by rewrite Hu in Hl].
  destruct (decide (m_token_type u = Admin)) as [Ht|Ht].
  { unfold log_out in Hl. rewrite Hu in Hl. revert Hl. mrun. case_bool_decide; [|done]. by intros [= <-]. }
  destruct (decide (m_state u = LoggedOut)) as [Hs|Hs].
  { unfold log_out in Hl. rewrite Hu in Hl. revert Hl. mrun. case_bool_decide; [done|]. case_bool_decide; [|done]. by intros [= <-]. }
  assert (HtN : m_token_type u = Normal) by by destruct (m_token_type u).
  destruct (log_out_spec others a m m' u Hu HtN Hs Hl) as (ws & m1 & _ & Hst & -> & _).
  destruct (perform_fields (mark_for_removal others (user_key u)) m1) as (F1 & _ & _ & _ & F5 & _ & _ & F8).
  eapply (kept_change others (logged_out ws) (set_marked true)); try done.
  - intros r [? ? ? ? ?]. split; try done. intros _. rewrite bool_decide_eq_false_2; [done|]. intros Hin%HW. by injection Hin.
  - rewrite F5. apply Hst.
  - rewrite F1. apply Hst.
  - intros rows i Hr Hi. rewrite F8, (ss_meta _ _ Hst). cbn. rewrite Hr. cbn. by rewrite (mark_found others _ _ i).
Qed.

Lemma set_is_admin_kept {W} others a b uuid m m' : (forall x, others x = x) ->
  set_is_admin others a b uuid m = Some m' -> kept W m -> kept ({[a]} ∪ W) m'.
Proof using Type.
  intros Ho. unfold set_is_admin. destruct (all_users m !! a) as [u|] eqn:Hu; mrun; [|done].
  case_bool_decide as Ht; intros [= <-].
  { apply kept_flagged. intros b' v Hv Hn _. rewrite elem_of_union, elem_of_singleton. split; [by right|]. intros [->|?]; [congruence|done]. }
  set (m1 := on_user _ a m).
  destruct (perform_fields (update_metadata others (user_key u) uuid (set_is_admin_row b)) m1) as (F1 & _ & _ & _ & F5 & _ & _ & F8).
  eapply (kept_change others (set_admin (Some b)) (λ r, set_is_admin_row b (set_marked false r))); try done.
  - by destruct (m_token_type u).
  - intros c Hc. rewrite elem_of_union, elem_of_singleton. tauto.
  - intros r [? ? ? ? ?]. split; cbn; try done. intros _. rewrite bool_decide_eq_true_2; [done|]. set_solver.
  - intros rows i Hr Hi. rewrite F8. cbn. rewrite Hr. cbn. by rewrite (update_metadata_found others _ _ _ _ i).
Qed.

Lemma get_user_kept {W} others k token uuid a m m' r : (forall x, others x = x) -> all_users m !! a = None ->
  get_user others k token uuid a m = Some (m', r) -> kept W m -> kept W m'.
Proof using Type.
  intros Ho Ha. unfold get_user. destruct (m_users m !! k) as [b|] eqn:Hb.
  - destruct (all_users m !! b) as [u|] eqn:Hu; mrun; [|done]. case_bool_decide as He; [by intros [= <- _]|].
    destruct (update_refresh_token _ _ _ _ _) as [m1|] eqn:Hup; mrun; [|done]. intros [= <- _] Hk. pose proof Hk as (rows & _ & Hp).
    destruct (ps_users _ _ _ _ Hp _ _ Hb) as (_ & u' & Hu' & _ & Ht). rewrite Hu in Hu'. injection Hu' as <-. by eapply update_kept.
  - destruct (new_SyncUser _ _ _ _ _ _ _ _) as [[u m1]|] eqn:Hn; mrun; [|done]. intros [= <- _] (rows & Hm & Hp).
    destruct (new_user_spec others token k uuid m u m1 rows Hn Hm) as (Hurl & -> & i & r0 & Hi & Hk & Htok & ->).
    eexists. split; [reflexivity|]. cbn. apply persisted_new; try done; [by destruct k|].
    intros r1 Hm1 Hk1 Hin. assert (Hr01 : set_user_token token r1 = r0).
    { apply list_elem_of_lookup_1 in Hin as (j & Hj).
      destruct (new_row others k uuid (set_user_token token) rows Ho) as (_ & _ & _ & _ & _ & Hnd & _); [done|apply Hp|].
      assert (j = i) as -> by (eapply row_unique; [exact Hnd|exact Hj|exact Hi|by rewrite Hk]). congruence. }
    rewrite Hr01. split; try done. intros _. by rewrite <- Hr01.
Qed.

Lemma persisted_admin {W} us all rows a u : all !! a = None -> m_token_type u = Admin -> persisted W us all rows -> persisted W us (<[a := u]> all) rows.
Proof using Type.
  intros Ha Ht [P1 P2 P3 P4]. assert (Hne : forall b v, all !! b = Some v -> a <> b) by (intros b v Hv ->; congruence). split; [done| | |].
  - intros r Hr. destruct (P2 r Hr) as [? Hm]. split; [done|]. destruct (us !! row_key r) as [b|]; [|done].
    destruct Hm as (v & Hv & ?). exists v. rewrite lookup_insert_ne; [done|eauto].
  - intros k b Hb. destruct (P3 k b Hb) as (? & v & Hv & ?). split; [done|]. exists v. rewrite lookup_insert_ne; [done|eauto].
  - intros b v [[<- <-]|[_ Hv]]%lookup_insert_Some Hnv; [by rewrite Ht in Hnv|auto].
Qed.

Lemma get_admin_kept {W} others url token uuid a m m' r : all_users m !! a = None ->
  get_admin_token_user others url token uuid a m = Some (m', r) -> kept W m -> kept W m'.
Proof using Type.
  intros Ha. unfold get_admin_token_user, new_SyncUser. destruct (m_admin_token_users m !! url); [by intros [= <- _]|].
  rewrite bool_decide_eq_true_2 by by eexists. destruct (REALM_ASSERT true); mrun; [|done]. intros [= <- _] (rows & Hm & Hp).
  exists rows. split; [done|]. by apply persisted_admin.
Qed.

Lemma reference_kept {W} s m : kept W m -> kept W (external_reference s m).
Proof using Type. apply kept_same; unfold external_reference; by destruct (references m !! s). Qed.

Lemma register_session_kept {W} a s m m' : register_session a s m = Some m' -> kept W m -> kept W m'.
Proof using Type.
  unfold register_session. destruct (all_users m !! a) as [u|] eqn:Hu; mrun; [|done]. destruct (all_sessions_made m !! s) as [x|]; mrun; [|done].
  assert (Hk : forall f g, kept W m -> kept W (on_user (set_sessions f g) a m)) by (intros f g; apply (kept_sessions (λ _, f) (λ _, g))).
  destruct (m_state u); intros [= <-] Hm; [auto| |done]. eapply kept_step; [apply revive_step|auto].
Qed.

Lemma get_session_kept {W} p a s m m' r : get_session p a s m = Some (m', r) -> kept W m -> kept W m'.
Proof using Type.
  unfold get_session. destruct (m_registry m !! p) as [t|]; destruct (register_session _ _ _) as [m1|] eqn:Hr; mrun; try done; intros [= <- _] Hk.
  - apply reference_kept. by eapply register_session_kept.
  - eapply register_session_kept; [exact Hr|]. by apply reference_kept, (kept_same m).
Qed.

Lemma register_special_kept {W} get set stops p a m m' :
  (forall r u, user_key (set r u) = user_key u /\ m_token_type (set r u) = m_token_type u /\ m_refresh_token (set r u) = m_refresh_token u
     /\ m_is_admin (set r u) = m_is_admin u /\ m_local_identity (set r u) = m_local_identity u /\ m_state (set r u) = m_state u) ->
  register_special get set stops p a m = Some m' -> kept W m -> kept W m'.
Proof using Type.
  intros Hset. assert (Hk : forall r m, kept W m -> kept W (on_user (set r) a m)).
  { intros r m0. apply kept_user. intros u. destruct (Hset r u) as (? & ? & ? & ? & ? & ?). split_and!; try done. by left. }
  unfold register_special. destruct (all_users m !! a) as [u|]; mrun; [|done]. destruct (_ || _); [by intros [= <-]|].
  unfold get_existing_session. destruct (m_registry m !! p) as [s|]; [|intros [= <-]; apply Hk].
  destruct (get_existing_active_session p m); [intros [= <-] Hm; by apply Hk, reference_kept|]. intros Hd Hm.
  eapply kept_step; [by eapply drop_reference_step|]. by apply Hk, reference_kept.
Qed.

(** Whose flag has been written since, after [x] has led to [m']: to write it puts the
    user there, and only those that are logged out stay. *)
Definition written (x : op) (m' : SyncManager) (W : gset nat) : gset nat :=
  filter (λ a, m_state <$> all_users m' !! a = Some LoggedOut) (match x with does_set_is_admin a _ _ => {[a]} | _ => ∅ end ∪ W).

Definition all_logged_out (W : gset nat) (m : SyncManager) : Prop := forall a, a ∈ W -> m_state <$> all_users m !! a = Some LoggedOut.

Lemma written_logged_out x m' W : all_logged_out (written x m' W) m'.
Proof using Type. by intros a [? _]%elem_of_filter. Qed.

Lemma apply_touched others x m m' W : (forall y, others y = y) -> all_logged_out W m -> apply others x m = Some m' -> kept W m ->
  kept (match x with does_set_is_admin a _ _ => {[a]} | _ => ∅ end ∪ W) m'.
Proof using Type.
  intros Ho HW. unfold apply. destruct (allowed x m) eqn:Ha; [|done]. cbn [negb]. destruct x; rewrite ?(left_id_L ∅ (∪)); cbn [allowed] in *.
  - apply bool_decide_eq_true in Ha. intros ([m1 r] & Hr & ->)%fmap_Some. by eapply get_user_kept.
  - apply bool_decide_eq_true in Ha. intros ([m1 r] & Hr & ->)%fmap_Some. by eapply get_admin_kept.
  - by apply log_out_kept, HW.
  - by apply set_is_admin_kept.
  - intros [= <-]. apply kept_user. intros u. cbn. split_and!; try done. by right.
  - intros ([m1 r] & Hr & ->)%fmap_Some. by eapply get_session_kept.
  - intros Hs. eapply kept_step. by eapply drop_reference_step.
  - intros Hs. eapply kept_step. by eapply stop_step.
  - unfold all_sessions. destruct (all_users m !! a) as [u|]; cbn; [|done]. case_bool_decide; intros [= <-]; [done|].
    apply (kept_sessions (λ _, live_sessions m (m_sessions u)) (λ _, m_waiting_sessions u)).
  - unfold session_for_on_disk_path. destruct (all_users m !! a) as [u|]; cbn; [|done]. case_bool_decide; [by intros [= <-]|].
    destruct (m_sessions u !! p) as [s|]; [|by intros [= <-]]. destruct (lock m s); intros [= <-]; [done|].
    apply (kept_sessions (λ _, delete p (m_sessions u)) (λ _, m_waiting_sessions u)).
  - apply register_special_kept. intros r u. by split_and!.
  - apply register_special_kept. intros r u. by split_and!.
Qed.

Lemma apply_kept others x m m' W : (forall y, others y = y) -> all_logged_out W m -> apply others x m = Some m' -> kept W m -> kept (written x m' W) m'.
Proof using Type.
  intros Ho HW Hx Hk. pose proof (apply_touched others x m m' W Ho HW Hx Hk) as Ht. revert Ht. apply kept_flagged. intros a u Hu _ Hs.
  unfold written. rewrite elem_of_filter, Hu. cbn. rewrite Hs. tauto.
Qed.

(** ** Starting again *)

Lemma remove_row_perm i rows : is_Some (rows !! i) -> remove_row i rows ≡ₚ delete i rows.
Proof using Type.
  intros Hi. unfold remove_row. destruct rows as [|x l _] using rev_ind; [by destruct Hi|]. rewrite last_snoc.
  case_bool_decide as Hlt; rewrite length_app in Hlt; cbn in Hlt.
  - destruct (lookup_lt_is_Some_2 l i) as [y Hy]; [lia|]. apply list_elem_of_split_length in Hy as (l1 & l2 & -> & ->).
    rewrite <- (app_assoc l1), <- app_comm_cons, delete_middle. rewrite insert_app_r_alt, Nat.sub_diag by lia. cbn [insert list_insert].
    rewrite app_comm_cons, (app_assoc l1), removelast_last. rewrite (Permutation_app_comm l2 [x]). cbn. done.
  - assert (i = length l) as ->.
    { apply lookup_lt_is_Some in Hi. rewrite length_app in Hi. cbn in Hi. lia. }
    rewrite removelast_last, delete_middle. by rewrite app_nil_r.
Qed.

Lemma row_keys_filter (P : UserRow -> Prop) `{forall r, Decision (P r)} rows : NoDup (row_key <$> rows) -> NoDup (row_key <$> filter P rows).
Proof using Type.
  induction rows as [|r rows IH]; [done|]. cbn [fmap list_fmap]. rewrite NoDup_cons, filter_cons. intros [Hr Hnd]. case_decide; [|auto].
  cbn. apply NoDup_cons. split; [|auto]. rewrite list_elem_of_fmap. intros (s & Hs & [_ Hin]%list_elem_of_filter). apply Hr.
  rewrite Hs. by apply list_elem_of_fmap_2.
Qed.

(** Only rows that are marked go. *)
Lemma remove_dead_spec rm rows : NoDup (row_key <$> rows) ->
  NoDup (row_key <$> remove_dead rm rows) /\ (forall r, r ∈ remove_dead rm rows -> r ∈ rows)
  /\ (forall r, r ∈ rows -> idx_marked_for_removal r = false -> r ∈ remove_dead rm rows).
Proof using Type.
  intros Hnd. unfold remove_dead.
  assert (Hdead : forall d, d ∈ get_users true rows -> d ∈ rows /\ idx_marked_for_removal d = true) by (intros d [? ?]%list_elem_of_filter; done).
  revert Hdead. generalize (get_users true rows) as dead. intros dead.
  cut (forall rows0, NoDup (row_key <$> rows0) -> (forall r, r ∈ rows0 -> r ∈ rows) ->
         (forall r, r ∈ rows -> idx_marked_for_removal r = false -> r ∈ rows0) -> (forall d, d ∈ dead -> d ∈ rows /\ idx_marked_for_removal d = true) ->
         let rows1 := foldl (λ rows r, if rm (idx_local_uuid r) then match find_user (row_key r) rows with Some i => remove_row i rows | None => rows end else rows) rows0 dead in
         NoDup (row_key <$> rows1) /\ (forall r, r ∈ rows1 -> r ∈ rows) /\ (forall r, r ∈ rows -> idx_marked_for_removal r = false -> r ∈ rows1)).
  { intros Hc Hd. by apply Hc. }
  induction dead as [|d dead IH]; intros rows0 Hn0 Hsub Hkeep Hd; cbn [foldl]; [done|].
  assert (Hd' : forall d, d ∈ dead -> d ∈ rows /\ idx_marked_for_removal d = true) by (intros; apply Hd; by right).
  destruct (rm _); [|by apply IH]. destruct (find_user_cases (row_key d) rows0) as [[-> _]|(i & r & -> & Hr & Hkr)]; [by apply IH|].
  pose proof (remove_row_perm i rows0 ltac:(by eexists)) as Hperm. pose proof (delete_Permutation rows0 i r Hr) as Hsplit.
  destruct (Hd d) as [Hdin Hdm]; [by left|].
  assert (r = d) as ->.
  { apply list_elem_of_lookup_1 in Hdin as (j & Hj). assert (Hrin : r ∈ rows) by (apply Hsub; by eapply list_elem_of_lookup_2).
    apply list_elem_of_lookup_1 in Hrin as (j' & Hj'). assert (j = j') as -> by (eapply row_unique; [exact Hnd|exact Hj|exact Hj'|done]). congruence. }
  apply IH; try done.
  - rewrite Hsplit in Hn0. cbn in Hn0. apply NoDup_cons in Hn0 as [_ Hn0]. by rewrite Hperm.
  - intros s. rewrite Hperm. intros Hs. apply Hsub. rewrite Hsplit. by right.
  - intros s Hs Hsm. specialize (Hkeep s Hs Hsm). rewrite Hsplit in Hkeep. rewrite Hperm. apply elem_of_cons in Hkeep as [->|?]; [congruence|done].
Qed.

(** The user that is made of a row. *)
Definition loaded (r : UserRow) : SyncUser :=
  mkSyncUser Active (idx_local_uuid r) None None (idx_auth_server_url r) Normal (Some (idx_user_is_admin r)) (default "" (idx_user_token r))
    (idx_identity r) ∅ ∅.

Definition loadable rows (r : UserRow) : Prop :=
  r ∈ rows /\ idx_marked_for_removal r = false /\ is_Some (idx_user_token r) /\ REALM_ASSERT (bool_decide (idx_auth_server_url r <> "")) = Some tt.

Lemma update_same others k uuid f rows i r : find_user k rows = Some i -> rows !! i = Some r -> f (set_marked false r) = r ->
  update_metadata others k uuid f rows = rows.
Proof using Type.
  intros Hi Hr Hf. rewrite (update_metadata_found others k uuid f rows i Hi). apply list_eq. intros j.
  destruct (decide (j = i)) as [->|Hne]; [|by rewrite list_lookup_alter_ne]. rewrite list_lookup_alter_eq, Hr. cbn. by rewrite Hf.
Qed.

Lemma load_user_spec others rows r m a : m_metadata_manager m = Some rows -> NoDup (row_key <$> rows) -> loadable rows r -> m_users m !! row_key r = None ->
  load_user others r (m, a) = Some (set_users (<[row_key r := a]> (m_users m)) (set_all_users (<[a := loaded r]> (all_users m)) m), S a).
Proof using Type.
  intros Hm Hnd (Hr & Hmark & [t Ht] & Hurl) Hnone. unfold load_user. rewrite Ht. unfold new_SyncUser. cbv iota zeta; cbn [m_server_url default]; unfold id.
  rewrite Hurl. mrun. rewrite Hm.
  apply list_elem_of_lookup_1 in Hr as (i & Hi).
  assert (Hf : find_user (row_key r) rows = Some i).
  { destruct (find_user_cases (row_key r) rows) as [[_ Hn]|(j & r' & Hj & Hr' & Hk)].
    - destruct Hn. apply list_elem_of_fmap_2. by eapply list_elem_of_lookup_2.
    - rewrite Hj. f_equal. by eapply row_unique. }
  change (user_key _) with (row_key r). unfold get_or_make_user_metadata. rewrite Hf, Hi. cbn [fmap option_fmap option_map default]. rewrite Hmark. unfold id. mrun.
  assert (Hsame : alter (set_user_token t) i rows = rows).
  { apply list_eq. intros j. destruct (decide (j = i)) as [->|Hne]; [|by rewrite list_lookup_alter_ne]. rewrite list_lookup_alter_eq, Hi. cbn.
    f_equal. destruct r. cbn in *. by subst. }
  rewrite Hsame, Hi. mrun. unfold set_is_admin. cbn [all_users set_all_users]. rewrite lookup_insert_eq. mrun. cbn [m_token_type set_admin set_local_identity].
  rewrite bool_decide_eq_false_2 by done. unfold perform_metadata_update. cbn [on_user set_all_users m_metadata_manager set_metadata fst all_users m_users].
  mrun. change (user_key (set_local_identity _ _)) with (row_key r).
  rewrite (update_same others (row_key r) "" (set_is_admin_row (idx_user_is_admin r)) rows i r Hf Hi) by (destruct r; cbn in *; by subst).
  cbn [m_users set_metadata on_user set_all_users]. rewrite Hnone. unfold on_user. cbn [all_users set_all_users]. rewrite alter_insert_eq.
  f_equal. f_equal. destruct m, r. cbn in *. by subst.
Qed.

Lemma load_all others rows l : NoDup (row_key <$> rows) -> NoDup (row_key <$> l) -> (forall r, r ∈ l -> loadable rows r) -> forall m a,
  m_metadata_manager m = Some rows -> (forall r, r ∈ l -> m_users m !! row_key r = None) -> (forall b, a <= b -> all_users m !! b = None) ->
  exists m' a', foldM (load_user others) l (m, a) = Some (m', a') /\ m_metadata_manager m' = Some rows
    /\ (forall r, r ∈ l -> exists b, m_users m' !! row_key r = Some b /\ all_users m' !! b = Some (loaded r))
    /\ (forall k, k ∉ row_key <$> l -> m_users m' !! k = m_users m !! k)
    /\ (forall b u, all_users m !! b = Some u -> all_users m' !! b = Some u)
    /\ (forall b u, all_users m' !! b = Some u -> all_users m !! b = Some u \/ exists r, r ∈ l /\ u = loaded r /\ m_users m' !! row_key r = Some b).
Proof using Type.
  intros Hnd. induction l as [|r l IH]; intros Hl Hload m a Hm Hnone Hfree; cbn [foldM].
  - exists m, a. split_and!; try done; [by intros r ?%elem_of_nil|by left].
  - cbn in Hl. apply NoDup_cons in Hl as [Hrl Hl]. rewrite (load_user_spec others rows r m a) by (try done; apply Hload || apply Hnone; by left). mrun.
    set (m1 := set_users _ _). destruct (IH Hl) with (m := m1) (a := S a) as (m' & a' & Hfold & Hm' & Hin & Hout & Hold & Hnew).
    + intros s Hs. apply Hload. by right.
    + done.
    + intros s Hs. cbn. rewrite lookup_insert_ne; [apply Hnone; by right|]. intros He. apply Hrl. rewrite He. by apply list_elem_of_fmap_2.
    + intros b Hb. cbn. rewrite lookup_insert_ne by lia. apply Hfree. lia.
    + exists m', a'. split_and!; try done.
      * intros s [->|Hs]%elem_of_cons; [|auto]. exists a. rewrite Hout by done. split; [cbn; by rewrite lookup_insert_eq|].
        apply Hold. cbn. by rewrite lookup_insert_eq.
      * intros k. cbn. rewrite not_elem_of_cons. intros [Hkr Hk]. rewrite Hout by done. cbn. by rewrite lookup_insert_ne.
      * intros b u Hu. apply Hold. cbn. rewrite lookup_insert_ne; [done|]. intros <-. by rewrite Hfree in Hu.
      * intros b u Hu. destruct (Hnew b u Hu) as [Hb|(s & Hs & -> & Hk)].
        -- cbn in Hb. apply lookup_insert_Some in Hb as [[<- <-]|[_ Hb]]; [|by left]. right. exists r. split_and!; [by left|done|].
           rewrite Hout by done. cbn. by rewrite lookup_insert_eq.
        -- right. exists s. split_and!; [by right|done|done].
Qed.

(** Starting yields a user for each row that is not marked, and no other. *)
Lemma configure_spec {W} others rm us all rows : persisted W us all rows -> exists m',
  configure others rm rows 0 (new_manager None) = Some m' /\ kept ∅ m'
  /\ (forall r, r ∈ rows -> idx_marked_for_removal r = false -> exists b, m_users m' !! row_key r = Some b /\ all_users m' !! b = Some (loaded r))
  /\ (forall k b, m_users m' !! k = Some b -> exists r, r ∈ rows /\ idx_marked_for_removal r = false /\ row_key r = k).
Proof using Type.
  intros [P1 P2 P3 P4]. unfold configure. destruct (remove_dead_spec rm rows P1) as (Hnd & Hsub & Hkeep). set (rows' := remove_dead rm rows) in *.
  assert (Hget : forall r, r ∈ get_users false rows <-> r ∈ rows /\ idx_marked_for_removal r = false).
  { intros r. unfold get_users. rewrite list_elem_of_filter. tauto. }
  destruct (load_all others rows' (get_users false rows) Hnd) with (m := set_metadata (Some rows') (new_manager None)) (a := 0)
    as (m' & a' & Hf & Hm' & Hin & Hout & _ & Hnew); try done.
  - by apply row_keys_filter.
  - intros r [Hr Hmark]%Hget. destruct (P2 r Hr) as [Hurl Hm]. split_and!; [by apply Hkeep|done| |done].
    destruct (us !! row_key r); [|congruence]. destruct Hm as (u & _ & Ha). eexists. apply Ha.
  - exists m'. rewrite Hf. mrun.
    assert (Hkeys : forall k b, m_users m' !! k = Some b -> exists r, r ∈ rows /\ idx_marked_for_removal r = false /\ row_key r = k).
    { intros k b Hk. destruct (decide (k ∈ row_key <$> get_users false rows)) as [(r & -> & [? ?]%Hget)%list_elem_of_fmap|Hn]; [by exists r|].
      rewrite Hout in Hk by done. cbn in Hk. by rewrite lookup_empty in Hk. }
    split_and!; try done.
    + exists rows'. split; [done|]. split; [done| | |].
      * intros r Hr. split; [by apply P2, Hsub|]. destruct (idx_marked_for_removal r) eqn:Hmark.
        -- destruct (m_users m' !! row_key r) as [b|] eqn:Hb; [|done]. destruct (Hkeys _ _ Hb) as (s & Hs & Hsm & Hk).
           apply Hsub, list_elem_of_lookup_1 in Hr as (i & Hi). apply list_elem_of_lookup_1 in Hs as (j & Hj).
           assert (i = j) as -> by (by apply (row_unique rows i j r s)). congruence.
        -- destruct (Hin r) as (b & Hb & Hu); [apply Hget; auto|]. rewrite Hb. exists (loaded r). split; [done|].
           destruct (P2 r) as [_ Hm]; [auto|]. destruct (us !! row_key r); [|congruence]. destruct Hm as (u & _ & [Ht _ _ _ _]). split; try done.
           cbn. by rewrite Ht.
      * intros k b Hk. destruct (Hkeys k b Hk) as (r & Hr & Hmark & <-). split; [by apply list_elem_of_fmap_2, Hkeep|].
        destruct (Hin r) as (b' & Hb' & Hu); [by apply Hget|]. assert (b' = b) as -> by congruence. exists (loaded r). by split_and!.
      * intros b u Hb _. destruct (Hnew b u Hb) as [He|(r & _ & -> & Hk)]; [cbn in He; by rewrite lookup_empty in He|done].
    + intros r Hr Hmark. apply Hin, Hget. auto.
Qed.
End persistence.
