(* ===== verification/SyncFile.v ===== *)
(** * Names and files of synchronised Realms

    Percent-encoding, paths and [SyncFileManager] (sync/impl/sync_file.cpp), the
    file actions of the metadata Realm (sync/impl/sync_metadata.cpp) and those
    operations of [SyncManager] (sync/sync_manager.cpp) that run them. *)

From Stdlib Require Import Ascii String.
From stdpp Require Import strings.
From S2P Require Import Prelude.

#[local] Open Scope char_scope.
#[local] Open Scope nat_scope.
#[local] Open Scope list_scope.

(** A [std::string] is the list of its bytes. Its length is far from the end of
    [size_t]. *)
Abbreviation bytes := (list ascii).
Abbreviation b s := (list_ascii_of_string s%string).

(** ** Exceptions *)
Inductive exn := invalid_argument (what : string) | NotFound | AccessError | system_error (what : string).

(** ** Percent-encoding *)

Definition code (c : ascii) : nat := nat_of_ascii c.

Definition in_range (first last c : ascii) : bool := (code first <=? code c) && (code c <=? code last).

Definition value_of_hex_digit (hex_digit : ascii) : exn + nat :=
  if in_range "0" "9" hex_digit then inr (code hex_digit - code "0")
  else if in_range "A" "F" hex_digit then inr (10 + code hex_digit - code "A")
  else if in_range "a" "f" hex_digit then inr (10 + code hex_digit - code "a")
  else inl (invalid_argument "Cannot get the value of a character that isn't a hex digit.").

Definition filename_is_reserved (filename : bytes) : bool := bool_decide (filename = b "." \/ filename = b "..").

Definition character_is_unreserved (c : ascii) : bool :=
  in_range "A" "Z" c || in_range "a" "z" c || in_range "0" "9" c || (bool_decide (c = "-") || bool_decide (c = "_") || bool_decide (c = ".")).

(** [%2X] pads with a space. *)
Definition upper_hex_digit (n : nat) : ascii := ascii_of_nat (if n <? 10 then code "0" + n else code "A" + (n - 10)).

Definition sprintf_2X (c : ascii) : bytes :=
  if code c <? 16 then [" "; upper_hex_digit (code c)] else [upper_hex_digit (code c / 16); upper_hex_digit (code c mod 16)].

Definition percent_encode_character (c : ascii) : bytes := if character_is_unreserved c then [c] else "%" :: sprintf_2X c.

Definition make_percent_encoded_string (raw_string : bytes) : bytes :=
  foldl (λ buffer c, buffer ++ percent_encode_character c) [] raw_string.

Section decoding.
Context `{Build}.

Definition decoded_char_for (percent_encoding : bytes) (index : nat) : option (exn + ascii) :=
  if length percent_encoding <=? index + 2 then
    Some (inl (invalid_argument "Malformed string: not enough characters after '%' before end of string."))
  else
    c ← percent_encoding !! index;
    _ ← REALM_ASSERT (bool_decide (c = "%"));
    h ← percent_encoding !! (index + 1);
    l ← percent_encoding !! (index + 2);
    match value_of_hex_digit h, value_of_hex_digit l with
    | inr x, inr y => Some (inr (ascii_of_nat ((16 * x + y) mod 256)))
    | inl e, _ | _, inl e => Some (inl e)
    end.

(** Each round goes on by a character at least. *)
Fixpoint make_raw_loop (fuel : nat) (percent_encoded_string : bytes) (idx : nat) (buffer : bytes) : option (exn + bytes) :=
  match percent_encoded_string !! idx with
  | None => Some (inr buffer)
  | Some current =>
      match fuel with
      | O => None
      | S fuel =>
          if bool_decide (current = "%") then
            c ← decoded_char_for percent_encoded_string idx;
            match c with
            | inl e => Some (inl e)
            | inr c => make_raw_loop fuel percent_encoded_string (idx + 3) (buffer ++ [c])
            end
          else if negb (character_is_unreserved current) then
            Some (inl (invalid_argument "Input string is invalid: contains reserved characters."))
          else make_raw_loop fuel percent_encoded_string (idx + 1) (buffer ++ [current])
      end
  end.

Definition make_raw_string (percent_encoded_string : bytes) : option (exn + bytes) :=
  make_raw_loop (length percent_encoded_string) percent_encoded_string 0 [].
End decoding.

(** ** Paths

    The byte behind the last one of a string is the null character; the one before
    the first is undefined. *)
Inductive FilePathType := File | Directory.

Definition first_char (s : bytes) : ascii := default "000" (head s).

Definition file_path_by_appending_component (path component : bytes) (path_type : FilePathType) : option bytes :=
  terminal ← match path_type with
             | File => Some []
             | Directory => c ← last component; Some (if bool_decide (c <> "/") then ["/"] else [])
             end;
  path_last ← last path;
  let component_first := first_char component in
  if bool_decide (path_last = "/") && bool_decide (component_first = "/") then Some (path ++ drop 1 component ++ terminal)
  else if bool_decide (path_last = "/") || bool_decide (component_first = "/") then Some (path ++ component ++ terminal)
  else Some (path ++ ["/"] ++ component ++ terminal).

Definition file_path_by_appending_extension (path extension : bytes) : option bytes :=
  path_last ← last path;
  let extension_first := first_char extension in
  if bool_decide (path_last = ".") && bool_decide (extension_first = ".") then Some (path ++ drop 1 extension)
  else if bool_decide (path_last = ".") || bool_decide (extension_first = ".") then Some (path ++ extension)
  else Some (path ++ ["."] ++ extension).

(** ** The file system *)

(** What realm-core does with files; each may throw. *)
Class FileSystem := {
  FS : Type;
  try_make_dir : bytes -> FS -> FS * (exn + bool);
  try_remove_dir_recursive : bytes -> FS -> FS * (exn + bool);
  file_move : bytes -> bytes -> FS -> FS * (exn + unit);
  file_try_remove : bytes -> FS -> FS * (exn + bool);
  file_exists : bytes -> FS -> bool;
  file_copy : bytes -> bytes -> FS -> FS * (exn + unit);
}.

(** A computation on files may end the process, throw or return. *)
Definition fileM `{FileSystem} (A : Type) : Type := FS -> option (FS * (exn + A)).

Section monad.
Context `{FileSystem}.
Definition ret {A} (x : A) : fileM A := λ fs, Some (fs, inr x).
Definition throw {A} (e : exn) : fileM A := λ fs, Some (fs, inl e).
Definition bind {A B} (m : fileM A) (k : A -> fileM B) : fileM B :=
  λ fs, match m fs with Some (fs, inr x) => k x fs | Some (fs, inl e) => Some (fs, inl e) | None => None end.
Definition try_catch {A} (m : fileM A) (handler : exn -> fileM A) : fileM A :=
  λ fs, match m fs with Some (fs, inl e) => handler e fs | r => r end.
Definition lift {A} (x : option A) : fileM A := λ fs, x ← x; Some (fs, inr x).
Definition call {A} (f : FS -> FS * (exn + A)) : fileM A := λ fs, Some (f fs).
Definition reads {A} (f : FS -> A) : fileM A := λ fs, Some (fs, inr (f fs)).
End monad.

Notation "x <~ m ; k" := (bind m (λ x, k)) (at level 20, m at level 100, k at level 200, right associativity).

(** ** [SyncFileManager] *)
Section manager.
Context `{Build, FileSystem}.
Variable m_base_path : bytes.

Definition c_sync_directory : bytes := b "realm-object-server".
Definition c_utility_directory : bytes := b "io.realm.object-server-utility".
Definition c_recovery_directory : bytes := b "io.realm.object-server-recovered-realms".
Definition c_metadata_directory : bytes := b "metadata".
Definition c_metadata_realm : bytes := b "sync_metadata.realm".

Definition made_dir (path : option bytes) : fileM bytes :=
  path <~ lift path; _ <~ call (try_make_dir path); ret path.

Definition get_base_sync_directory : fileM bytes := made_dir (file_path_by_appending_component m_base_path c_sync_directory Directory).

Definition get_special_directory (directory_name : bytes) : fileM bytes :=
  base <~ get_base_sync_directory; made_dir (file_path_by_appending_component base directory_name Directory).

Definition get_utility_directory : fileM bytes := get_special_directory c_utility_directory.
Definition recovery_directory_path (directory : option bytes) : fileM bytes := get_special_directory (default c_recovery_directory directory).

Definition not_empty (s : bytes) : option unit := REALM_ASSERT (bool_decide (0 < length s)).

Definition user_path (local_identity : bytes) : fileM bytes :=
  _ <~ lift (not_empty local_identity);
  let escaped := make_percent_encoded_string local_identity in
  if filename_is_reserved escaped then throw (invalid_argument "A user can't have an identifier reserved by the filesystem.")
  else base <~ get_base_sync_directory; lift (file_path_by_appending_component base escaped Directory).

Definition user_directory (local_identity : bytes) : fileM bytes :=
  user_path <~ user_path local_identity; made_dir (Some user_path).

Definition remove_user_directory (local_identity : bytes) : fileM unit :=
  user_path <~ user_path local_identity; _ <~ call (try_remove_dir_recursive user_path); ret tt.

Definition try_rename_user_directory (old_name new_name : bytes) : fileM bool :=
  _ <~ lift (REALM_ASSERT_DEBUG (bool_decide (0 < length old_name) && bool_decide (0 < length new_name)));
  let old_name_escaped := make_percent_encoded_string old_name in
  let new_name_escaped := make_percent_encoded_string new_name in
  base <~ get_base_sync_directory;
  if filename_is_reserved old_name_escaped || filename_is_reserved new_name_escaped then
    throw (invalid_argument "A user directory can't be renamed using a reserved identifier.")
  else
    old_path <~ lift (file_path_by_appending_component base old_name_escaped Directory);
    new_path <~ lift (file_path_by_appending_component base new_name_escaped Directory);
    try_catch (_ <~ call (file_move old_path new_path); ret true) (λ e, match e with NotFound => ret false | _ => throw e end).

Definition is_AccessError (e : exn) : bool := match e with AccessError | NotFound => true | _ => false end.

(** The Realm file, its lock file and its management directory. *)
Definition remove_realm_at (absolute_path : bytes) : fileM bool :=
  _ <~ lift (not_empty absolute_path);
  success <~ call (file_try_remove absolute_path);
  lock_path <~ lift (file_path_by_appending_extension absolute_path (b "lock"));
  success <~ call (file_try_remove lock_path);
  management_path <~ lift (file_path_by_appending_extension absolute_path (b "management"));
  try_catch (_ <~ call (try_remove_dir_recursive management_path); ret success)
    (λ e, if is_AccessError e then ret false else throw e).

Definition copy_realm_file (old_path new_path : bytes) : fileM bool :=
  _ <~ lift (not_empty old_path);
  there <~ reads (file_exists new_path);
  if there : bool then ret false
  else try_catch (_ <~ call (file_copy old_path new_path); ret true) (λ e, if is_AccessError e then ret false else throw e).

Definition realm_path (local_identity raw_realm_path : bytes) : fileM bytes :=
  _ <~ lift (not_empty local_identity);
  _ <~ lift (not_empty raw_realm_path);
  if filename_is_reserved local_identity || filename_is_reserved raw_realm_path then
    throw (invalid_argument "A user or Realm can't have an identifier reserved by the filesystem.")
  else
    let escaped := make_percent_encoded_string raw_realm_path in
    dir <~ user_directory local_identity; lift (file_path_by_appending_component dir escaped File).

Definition remove_realm (local_identity raw_realm_path : bytes) : fileM bool :=
  path <~ realm_path local_identity raw_realm_path; remove_realm_at path.

Definition metadata_directory : fileM bytes :=
  base <~ get_utility_directory; lift (file_path_by_appending_component base c_metadata_directory Directory).

Definition metadata_path : fileM bytes :=
  path <~ metadata_directory; dir_path <~ made_dir (Some path); lift (file_path_by_appending_component dir_path c_metadata_realm File).

Definition remove_metadata_realm : fileM bool :=
  dir_path <~ metadata_directory;
  try_catch (_ <~ call (try_remove_dir_recursive dir_path); ret true) (λ e, if is_AccessError e then ret false else throw e).
End manager.

(** ** File actions

    The rows of the table of file actions. *)
Inductive Action := DeleteRealm | BackUpThenDeleteRealm.

Record FileAction := mkFileAction {
  original_name : bytes;
  new_name : option bytes;
  action : Action;
  url : bytes;
  user_local_uuid : bytes;
}.

Definition find_action (name : bytes) (rows : list FileAction) : option nat := find_index (λ r, bool_decide (original_name r = name)) rows.

Definition make_file_action_metadata (name url local_uuid : bytes) (a : Action) (new_name : option bytes) (rows : list FileAction) : list FileAction :=
  let row := mkFileAction name new_name a url local_uuid in
  match find_action name rows with
  | None => rows ++ [row]
  | Some row_idx => <[row_idx := row]> rows
  end.

Definition get_file_action_metadata (name : bytes) (rows : list FileAction) : option FileAction :=
  row_idx ← find_action name rows; rows !! row_idx.

(** [table->move_last_over] on the row of the action. *)
Definition remove_action (name : bytes) (rows : list FileAction) : list FileAction :=
  match find_action name rows, last rows with
  | Some i, Some r => removelast (if bool_decide (S i < length rows) then <[i := r]> rows else rows)
  | _, _ => rows
  end.

Section actions.
Context `{Build, FileSystem}.

Definition run_file_action (md : FileAction) : fileM bool :=
  match action md with
  | DeleteRealm => _ <~ remove_realm_at (original_name md); ret true
  | BackUpThenDeleteRealm =>
      there <~ reads (file_exists (original_name md));
      if negb there then ret true
      else
        match new_name md with
        | None => ret false
        | Some new_name =>
            taken <~ reads (file_exists new_name);
            copied <~ (if taken then ret false else copy_realm_file (original_name md) new_name);
            if copied : bool then _ <~ remove_realm_at (original_name md); ret true else ret false
        end
  end.

(** With a metadata manager, whose rows these are. *)
Definition immediately_run_file_actions (path : bytes) (rows : list FileAction) : fileM (list FileAction * bool) :=
  match get_file_action_metadata path rows with
  | None => ret (rows, false)
  | Some metadata =>
      done <~ run_file_action metadata;
      ret (if done : bool then (remove_action path rows, true) else (rows, false))
  end.

(** What [configure] does with the pending actions: those that were completed are
    removed when all have been run. *)
Fixpoint completed_actions (file_actions : list FileAction) : fileM (list FileAction) :=
  match file_actions with
  | [] => ret []
  | file_action :: file_actions =>
      done <~ run_file_action file_action;
      rest <~ completed_actions file_actions;
      ret (if done : bool then file_action :: rest else rest)
  end.

Definition run_pending_actions (rows : list FileAction) : fileM (list FileAction) :=
  completed <~ completed_actions rows; ret (foldl (λ rows r, remove_action (original_name r) rows) rows completed).
End actions.

(** ** Facts about names *)

Definition hex_error : exn := invalid_argument "Cannot get the value of a character that isn't a hex digit.".

(** What is printed for a character can be told from what is printed for others. *)
Definition printed_code (h l : ascii) : nat :=
  (if bool_decide (h = " ") then 0 else match value_of_hex_digit h with inr x => 16 * x | inl _ => 0 end)
  + match value_of_hex_digit l with inr y => y | inl _ => 0 end.

Lemma unreserved_facts c : character_is_unreserved c = true -> c <> "%" /\ c <> "/".
Proof. destruct c as [[] [] [] [] [] [] [] []]; by vm_compute. Qed.

Definition prints_well (c : ascii) : bool :=
  match sprintf_2X c with
  | [h; l] =>
      bool_decide (h <> "/") && bool_decide (l <> "/") && (printed_code h l =? code c)
      && match value_of_hex_digit h, value_of_hex_digit l with
         | inr x, inr y => negb (code c <? 16) && bool_decide (ascii_of_nat ((16 * x + y) mod 256) = c)
         | inl _, inr _ => code c <? 16
         | _, inl _ => false
         end
  | _ => false
  end.

Lemma value_error h e : value_of_hex_digit h = inl e -> e = hex_error.
Proof. unfold value_of_hex_digit. do 3 (destruct (in_range _ _ _); [done|]). by intros [= <-]. Qed.

Lemma sprintf_facts c : exists h l, sprintf_2X c = [h; l] /\ h <> "/" /\ l <> "/" /\ printed_code h l = code c
  /\ (if code c <? 16 then value_of_hex_digit h = inl hex_error
      else exists x y, value_of_hex_digit h = inr x /\ value_of_hex_digit l = inr y /\ ascii_of_nat ((16 * x + y) mod 256) = c).
Proof.
  assert (Hc : prints_well c = true) by (destruct c as [[] [] [] [] [] [] [] []]; by vm_compute). unfold prints_well in Hc.
  destruct (sprintf_2X c) as [|h [|l []]]; try done. exists h, l. split; [done|].
  apply andb_true_iff in Hc as [[[Hh%bool_decide_eq_true Hl%bool_decide_eq_true]%andb_true_iff Hp%Nat.eqb_eq]%andb_true_iff Hv]. split_and!; try done.
  destruct (value_of_hex_digit h) as [e|x] eqn:Eh, (value_of_hex_digit l) as [e'|y]; try done.
  - rewrite Hv. by rewrite (value_error h e Eh).
  - apply andb_true_iff in Hv as [->%negb_true_iff Hv%bool_decide_eq_true]. by exists x, y.
Qed.

Lemma code_inj c d : code c = code d -> c = d.
Proof. unfold code. intros Hc. by rewrite <- (ascii_nat_embedding c), Hc, ascii_nat_embedding. Qed.

Lemma encoded_spec s : make_percent_encoded_string s = s ≫= percent_encode_character.
Proof.
  unfold make_percent_encoded_string. enough (forall buffer, foldl (λ buffer c, buffer ++ percent_encode_character c) buffer s = buffer ++ (s ≫= percent_encode_character)) by done.
  induction s as [|c s IH]; intros buffer; cbn [foldl]; [by rewrite app_nil_r|]. by rewrite IH, <- app_assoc, bind_cons.
Qed.

(** An encoded name has no separator, and names that differ are encoded differently. *)
Lemma encoded_no_slash s : "/" ∉ make_percent_encoded_string s.
Proof.
  rewrite encoded_spec. intros (c & Hc & _)%list_elem_of_bind. revert Hc. unfold percent_encode_character.
  destruct (character_is_unreserved c) eqn:Hu.
  - intros <-%list_elem_of_singleton. by apply unreserved_facts in Hu as [_ ?].
  - destruct (sprintf_facts c) as (h & l & -> & Hh & Hl & _). rewrite !elem_of_cons. intros [?|[?|[?|?%elem_of_nil]]]; congruence.
Qed.

Lemma encoded_inj s t : make_percent_encoded_string s = make_percent_encoded_string t -> s = t.
Proof.
  rewrite !encoded_spec. revert t. induction s as [|c s IH]; intros [|d t]; rewrite ?bind_cons; unfold percent_encode_character.
  - done.
  - destruct (character_is_unreserved d); done.
  - destruct (character_is_unreserved c); done.
  - destruct (character_is_unreserved c) eqn:Hc, (character_is_unreserved d) eqn:Hd; cbn.
    + intros [= -> ?]. f_equal. auto.
    + intros [= -> _]. by apply unreserved_facts in Hc as [? _].
    + intros [= <- _]. by apply unreserved_facts in Hd as [? _].
    + destruct (sprintf_facts c) as (h & l & -> & _ & _ & Hpc & _), (sprintf_facts d) as (h' & l' & -> & _ & _ & Hpd & _).
      intros [= -> -> Hst]. assert (c = d) as -> by (apply code_inj; congruence). f_equal. auto.
Qed.

Section names.
Context `{HB : Build}.

Lemma decoded_char_spec pre h l post : decoded_char_for (pre ++ "%" :: h :: l :: post) (length pre) =
  match value_of_hex_digit h, value_of_hex_digit l with
  | inr x, inr y => Some (inr (ascii_of_nat ((16 * x + y) mod 256)))
  | inl e, _ | _, inl e => Some (inl e)
  end.
Proof using Type.
  unfold decoded_char_for. rewrite (proj2 (Nat.leb_gt _ _)) by (rewrite length_app; cbn; lia).
  assert (Hat : forall k, (pre ++ "%" :: h :: l :: post) !! (length pre + k) = ("%" :: h :: l :: post) !! k).
  { intros k. rewrite lookup_app_r by lia. by replace (length pre + k - length pre) with k by lia. }
  rewrite (list_lookup_middle pre (h :: l :: post) "%" (length pre)) by done. mrun. rewrite REALM_ASSERT_decide by done. mrun.
  rewrite (Hat 1). mrun. rewrite (Hat 2). by mrun.
Qed.

(** A name is decoded to itself if it has no character below 16, else the decoding
    fails. *)
Definition printable (c : ascii) : bool := negb (code c <? 16).

Lemma reserved_low c : (code c <? 16) = true -> character_is_unreserved c = false.
Proof using Type. clear HB. destruct c as [[] [] [] [] [] [] [] []]; by vm_compute. Qed.

Lemma decode_encoded t : forall fuel pre buffer, length t <= fuel ->
  make_raw_loop fuel (pre ++ (t ≫= percent_encode_character)) (length pre) buffer =
  Some (if forallb printable t then inr (buffer ++ t) else inl hex_error).
Proof using Type.
  induction t as [|c t IH]; intros fuel pre buffer Hf.
  - cbn [mbind list_bind]. rewrite app_nil_r. destruct fuel; cbn [make_raw_loop]; by rewrite lookup_ge_None_2, app_nil_r.
  - cbn in Hf. destruct fuel as [|fuel]; [lia|]. rewrite bind_cons. cbn [make_raw_loop forallb]. unfold printable at 1.
    destruct (character_is_unreserved c) eqn:Hu.
    + assert (percent_encode_character c = [c]) as -> by (unfold percent_encode_character; by rewrite Hu).
      cbn [app]. rewrite list_lookup_middle by done. destruct (unreserved_facts c Hu) as [Hp _]. rewrite bool_decide_eq_false_2 by done.
      rewrite Hu. cbn [negb]. destruct (code c <? 16) eqn:Hlow; [by rewrite reserved_low in Hu|]. cbn [negb andb].
      replace (length pre + 1) with (length (pre ++ [c])) by (rewrite length_app; cbn; lia).
      change (c :: (t ≫= percent_encode_character)) with ([c] ++ (t ≫= percent_encode_character)).
      rewrite app_assoc, IH by lia. by rewrite <- app_assoc.
    + destruct (sprintf_facts c) as (h & l & Hs & _ & _ & _ & Hd).
      assert (percent_encode_character c = ["%"; h; l]) as -> by (unfold percent_encode_character; by rewrite Hu, Hs).
      cbn [app]. rewrite list_lookup_middle by done. rewrite bool_decide_eq_true_2 by done. rewrite decoded_char_spec. destruct (code c <? 16).
      * rewrite Hd. by destruct (value_of_hex_digit l).
      * destruct Hd as (x & y & -> & -> & ->). mrun. cbn [negb andb].
        replace (length pre + 3) with (length (pre ++ ["%"; h; l])) by (rewrite length_app; cbn; lia).
        change ("%" :: h :: l :: (t ≫= percent_encode_character)) with (["%"; h; l] ++ (t ≫= percent_encode_character)).
        rewrite app_assoc, IH by lia. by rewrite <- app_assoc.
Qed.

Lemma encoded_length s : length s <= length (make_percent_encoded_string s).
Proof using Type.
  clear HB. rewrite encoded_spec. induction s as [|c s IH]; [done|]. rewrite bind_cons, length_app. cbn.
  assert (1 <= length (percent_encode_character c)) by (unfold percent_encode_character; destruct (character_is_unreserved c); cbn; lia). lia.
Qed.

Lemma make_raw_loop_total s fuel : forall idx buffer, length s <= idx + fuel -> exists r, make_raw_loop fuel s idx buffer = Some r.
Proof using Type.
  induction fuel as [|fuel IH]; intros idx buffer Hf; cbn [make_raw_loop].
  - rewrite lookup_ge_None_2 by lia. by eexists.
  - destruct (s !! idx) as [c|] eqn:Hc; [|by eexists]. case_bool_decide as Hp.
    + assert (exists r, decoded_char_for s idx = Some r) as [[e|d] ->].
      { unfold decoded_char_for. destruct (length s <=? idx + 2) eqn:Hl; [by eexists|]. apply Nat.leb_gt in Hl. rewrite Hc. mrun.
        rewrite REALM_ASSERT_decide by done. mrun. destruct (lookup_lt_is_Some_2 s (idx + 1)) as [h ->]; [lia|].
        destruct (lookup_lt_is_Some_2 s (idx + 2)) as [l ->]; [lia|]. mrun.
        destruct (value_of_hex_digit h), (value_of_hex_digit l); by eexists. }
      * by eexists.
      * mrun. apply IH. lia.
    + destruct (negb _); [by eexists|]. apply IH. lia.
Qed.
End names.

(** ** Facts about paths *)
Section path_facts.
Context `{HB : Build, HF : FileSystem}.

Lemma bind_returns {A B} (m : fileM A) (k : A -> fileM B) fs fs' y : bind m k fs = Some (fs', inr y) ->
  exists fs1 x, m fs = Some (fs1, inr x) /\ k x fs1 = Some (fs', inr y).
Proof using Type. unfold bind. destruct (m fs) as [[fs1 [e|x]]|]; [done| |done]. intros Hk. by exists fs1, x. Qed.

Lemma lift_returns {A} (x : option A) fs fs' y : lift x fs = Some (fs', inr y) -> x = Some y /\ fs' = fs.
Proof using Type. unfold lift. destruct x; cbn; [|done]. by intros [= <- <-]. Qed.

Lemma made_dir_returns path fs fs' p : made_dir path fs = Some (fs', inr p) -> path = Some p.
Proof using Type.
  unfold made_dir. intros (fs1 & q & (Hp & _)%lift_returns & Hk)%bind_returns. apply bind_returns in Hk as (fs2 & x & _ & Hr). by injection Hr as _ <-.
Qed.

(** Behind a directory a name without separators is appended as it is. *)
Lemma append_name path c t : last path = Some "/" -> "/" ∉ c -> c <> [] \/ t = File ->
  file_path_by_appending_component path c t = Some (path ++ c ++ match t with File => [] | Directory => ["/"] end).
Proof using Type.
  clear HB HF. intros Hp Hc Ht. unfold file_path_by_appending_component. rewrite Hp. assert (Hf : first_char c <> "/").
  { unfold first_char. destruct c as [|x c]; [done|]. cbn. intros ->. apply Hc. left. }
  destruct t.
  - mrun. rewrite (bool_decide_eq_true_2 ("/" = "/")), (bool_decide_eq_false_2 _ Hf) by done. done.
  - destruct Ht as [Ht|]; [|done]. destruct c as [|x c _] using rev_ind; [done|]. rewrite last_snoc. mrun.
    assert (x <> "/") by (intros ->; apply Hc, elem_of_app; right; left).
    rewrite (bool_decide_eq_true_2 (x <> "/")), (bool_decide_eq_true_2 ("/" = "/")), (bool_decide_eq_false_2 _ Hf) by done. done.
Qed.

Lemma sync_directory_slash base dir : file_path_by_appending_component base c_sync_directory Directory = Some dir -> last dir = Some "/".
Proof using Type.
  unfold file_path_by_appending_component. change (last c_sync_directory) with (Some "r"). mrun. destruct (last base) as [l|]; mrun; [|done].
  rewrite (bool_decide_eq_true_2 ("r" <> "/")) by done. change (first_char c_sync_directory) with "r". rewrite (bool_decide_eq_false_2 ("r" = "/")) by done.
  rewrite andb_false_r, orb_false_r. destruct (bool_decide (l = "/")); intros [= <-]; by rewrite last_app_cons.
Qed.

Lemma encoded_nil s : make_percent_encoded_string s = [] -> s = [].
Proof using Type. clear HB HF. intros Hs. pose proof (encoded_length s) as Hl. rewrite Hs in Hl. destruct s; [done|]. cbn in Hl. lia. Qed.

Lemma user_directory_path base l fs fs' p : user_directory base l fs = Some (fs', inr p) ->
  exists dir, file_path_by_appending_component base c_sync_directory Directory = Some dir
    /\ p = dir ++ make_percent_encoded_string l ++ ["/"] /\ filename_is_reserved (make_percent_encoded_string l) = false /\ l <> [].
Proof using Type.
  unfold user_directory, user_path. intros (fs1 & q & Hq & [= ->]%made_dir_returns)%bind_returns.
  apply bind_returns in Hq as (fs2 & [] & _ & Hq). destruct (filename_is_reserved _) eqn:Hr; [done|].
  apply bind_returns in Hq as (fs3 & dir & Hd%made_dir_returns & (Hp & _)%lift_returns). exists dir. pose proof (sync_directory_slash _ _ Hd) as Hs.
  destruct (decide (l = [])) as [->|Hl]; [by rewrite encoded_spec in Hp|]. split_and!; try done.
  rewrite append_name in Hp; [by injection Hp as <-|done|apply encoded_no_slash|left; by intros ?%encoded_nil].
Qed.

Lemma realm_path_shape base l r fs fs' p : realm_path base l r fs = Some (fs', inr p) ->
  exists dir, file_path_by_appending_component base c_sync_directory Directory = Some dir
    /\ p = dir ++ make_percent_encoded_string l ++ ["/"] ++ make_percent_encoded_string r
    /\ filename_is_reserved (make_percent_encoded_string l) = false /\ filename_is_reserved r = false /\ l <> [].
Proof using Type.
  unfold realm_path. intros (fs1 & [] & _ & (fs2 & [] & _ & Hp)%bind_returns)%bind_returns.
  destruct (filename_is_reserved l || filename_is_reserved r) eqn:Hres; [done|]. apply orb_false_iff in Hres as [_ Hres].
  apply bind_returns in Hp as (fs3 & q & (dir & Hd & -> & Hrl & Hl)%user_directory_path & (Hp & _)%lift_returns). exists dir.
  rewrite append_name in Hp; [|by rewrite app_assoc, last_snoc|apply encoded_no_slash|by right]. injection Hp as <-. split_and!; try done.
  by rewrite app_nil_r, <- !app_assoc.
Qed.

(** A name encodes to a reserved one only if it is reserved. *)
Lemma reserved_encoded s : filename_is_reserved (make_percent_encoded_string s) = filename_is_reserved s.
Proof using Type.
  clear HB HF. unfold filename_is_reserved. apply bool_decide_ext. change (b ".") with (make_percent_encoded_string (b ".")) at 1.
  change (b "..") with (make_percent_encoded_string (b "..")) at 1. split; intros [Hs|Hs]; [left|right|left|right]; by (apply encoded_inj in Hs || rewrite Hs).
Qed.

Lemma split_at_slash l l' r r' : "/" ∉ l -> "/" ∉ l' -> l ++ ["/"] ++ r = l' ++ ["/"] ++ r' -> l = l' /\ r = r'.
Proof using Type.
  clear HB HF. revert l'. induction l as [|x l IH]; intros [|x' l'] Hl Hl'; cbn.
  - by intros [= <-].
  - intros [= <- _]. destruct Hl'. left.
  - intros [= -> _]. destruct Hl. left.
  - intros [= <- Hr]. destruct (IH l') as [-> ->]; try done; intros Hin; [apply Hl|apply Hl']; by right.
Qed.
End path_facts.

(** ** Facts about file actions *)
Section action_facts.
Context `{HB : Build, HF : FileSystem}.
Implicit Types rows l : list FileAction.

Lemma find_action_cases name rows :
  (find_action name rows = None /\ name ∉ original_name <$> rows)
  \/ (exists l1 r l2, rows = l1 ++ r :: l2 /\ original_name r = name /\ find_action name rows = Some (length l1)).
Proof using Type.
  clear HB HF. unfold find_action. destruct (find_index_cases (λ r, bool_decide (original_name r = name)) rows) as [[Hf Hn]|(l1 & x & l2 & -> & _ & Hx & Hi)].
  - left. split; [done|]. intros (r & -> & Hr)%list_elem_of_fmap. rewrite Forall_forall in Hf. specialize (Hf r Hr). by apply bool_decide_eq_false in Hf.
  - right. exists l1, x, l2. apply bool_decide_eq_true in Hx. by split_and!.
Qed.

Lemma remove_action_perm r rows : NoDup (original_name <$> rows) -> r ∈ rows -> r :: remove_action (original_name r) rows ≡ₚ rows.
Proof using Type.
  clear HB HF. intros Hnd Hr. unfold remove_action. destruct (find_action_cases (original_name r) rows) as [[_ Hn]|(l1 & r' & l2 & -> & Hname & ->)].
  { destruct Hn. by apply list_elem_of_fmap_2. }
  assert (r' = r) as ->.
  { apply list_elem_of_lookup_1 in Hr as (j & Hj). assert (Hl : (l1 ++ r' :: l2) !! length l1 = Some r') by by rewrite list_lookup_middle.
    assert (j = length l1) as ->; [|congruence]. eapply (NoDup_lookup _ _ _ (original_name r)); [exact Hnd|by rewrite list_lookup_fmap, Hj|].
    rewrite list_lookup_fmap, Hl. cbn. by rewrite Hname. }
  destruct l2 as [|x l2 _] using rev_ind.
  - rewrite last_snoc, length_app, bool_decide_eq_false_2 by (cbn; lia). rewrite removelast_last. by rewrite (Permutation_app_comm l1 [r]).
  - rewrite app_comm_cons, app_assoc, last_snoc, bool_decide_eq_true_2 by (rewrite !length_app; cbn; lia).
    rewrite <- app_assoc, <- app_comm_cons, insert_app_r_alt, Nat.sub_diag by lia. cbn [insert list_insert].
    rewrite app_comm_cons, app_assoc, removelast_last. rewrite <- (Permutation_middle l1 l2 x), <- (Permutation_middle l1 (l2 ++ [x]) r).
    by rewrite (app_assoc l1), (Permutation_app_comm (l1 ++ l2) [x]).
Qed.

(** The actions are run one after the other. *)
Inductive outcomes : list FileAction -> FS -> list bool -> FS -> Prop :=
| outcomes_nil fs : outcomes [] fs [] fs
| outcomes_cons a l fs fs1 fs2 d ds : run_file_action a fs = Some (fs1, inr d) -> outcomes l fs1 ds fs2 -> outcomes (a :: l) fs (d :: ds) fs2.

Definition with_outcome (d : bool) (l : list FileAction) (ds : list bool) : list FileAction := (filter (λ p, p.2 = d) (zip l ds)).*1.

Lemma with_outcome_cons d a l d' ds : with_outcome d (a :: l) (d' :: ds) = if bool_decide (d' = d) then a :: with_outcome d l ds else with_outcome d l ds.
Proof using Type. unfold with_outcome. cbn [zip zip_with]. rewrite filter_cons. cbn. repeat case_decide; case_bool_decide; done. Qed.

Lemma completed_outcomes l : forall fs fs' done, completed_actions l fs = Some (fs', inr done) ->
  exists ds, outcomes l fs ds fs' /\ done = with_outcome true l ds.
Proof using Type.
  induction l as [|a l IH]; intros fs fs' comp; cbn [completed_actions].
  - intros [= <- <-]. exists []. split; [constructor|done].
  - intros (fs1 & d & Hd & (fs2 & rest & (ds & Ho & ->)%IH & [= <- <-])%bind_returns)%bind_returns. exists (d :: ds). split; [by econstructor|].
    rewrite with_outcome_cons. by destruct d.
Qed.

Lemma with_outcome_split l fs ds fs' : outcomes l fs ds fs' -> l ≡ₚ with_outcome true l ds ++ with_outcome false l ds.
Proof using Type.
  induction 1 as [|a l fs fs1 fs2 d ds _ _ IH]; [done|]. rewrite !with_outcome_cons. destruct d.
  - rewrite bool_decide_eq_true_2, bool_decide_eq_false_2 by done. cbn. by constructor.
  - rewrite bool_decide_eq_false_2, bool_decide_eq_true_2 by done. rewrite <- Permutation_middle. by constructor.
Qed.

Lemma remove_all_perm completed : forall rows rest, NoDup (original_name <$> rows) -> rows ≡ₚ completed ++ rest ->
  foldl (λ rows r, remove_action (original_name r) rows) rows completed ≡ₚ rest.
Proof using Type.
  clear HB HF. induction completed as [|r completed IH]; intros rows rest Hnd Hp; cbn [foldl]; [done|].
  assert (Hr : r ∈ rows) by (rewrite Hp; left). pose proof (remove_action_perm r rows Hnd Hr) as Hrem. apply IH.
  - rewrite <- Hrem in Hnd. cbn in Hnd. by apply NoDup_cons in Hnd as [_ ?].
  - rewrite <- Hrem in Hp. cbn in Hp. by apply Permutation_cons_inv in Hp.
Qed.

Lemma make_action_names name url uuid a new rows : NoDup (original_name <$> rows) ->
  NoDup (original_name <$> make_file_action_metadata name url uuid a new rows).
Proof using Type.
  clear HB HF. intros Hnd. unfold make_file_action_metadata. destruct (find_action_cases name rows) as [[-> Hn]|(l1 & r & l2 & -> & Hr & ->)].
  - rewrite fmap_app. apply NoDup_app. split_and!; [done| |apply NoDup_singleton]. intros x Hx ->%list_elem_of_singleton. done.
  - rewrite insert_app_r_alt, Nat.sub_diag by lia. cbn [insert list_insert]. rewrite fmap_app in *. cbn in *. by rewrite Hr in Hnd.
Qed.

Lemma get_action_cons name r rows :
  get_file_action_metadata name (r :: rows) = if bool_decide (original_name r = name) then Some r else get_file_action_metadata name rows.
Proof using Type.
  clear HB HF. unfold get_file_action_metadata, find_action. cbn [find_index]. destruct (bool_decide _); [done|]. by destruct (find_index _ rows).
Qed.

Lemma make_action_cons name url uuid a new r rows : make_file_action_metadata name url uuid a new (r :: rows) =
  if bool_decide (original_name r = name) then mkFileAction name new a url uuid :: rows
  else r :: make_file_action_metadata name url uuid a new rows.
Proof using Type.
  clear HB HF. unfold make_file_action_metadata, find_action. cbn [find_index]. destruct (bool_decide _); [done|]. by destruct (find_index _ rows).
Qed.

Lemma get_made_action name url uuid a new rows name' :
  get_file_action_metadata name' (make_file_action_metadata name url uuid a new rows) =
  if bool_decide (name' = name) then Some (mkFileAction name new a url uuid) else get_file_action_metadata name' rows.
Proof using Type.
  clear HB HF. induction rows as [|r rows IH].
  - change (make_file_action_metadata name url uuid a new []) with [mkFileAction name new a url uuid]. rewrite get_action_cons. cbn. repeat case_bool_decide; naive_solver.
  - rewrite make_action_cons, get_action_cons. destruct (bool_decide (original_name r = name)) eqn:Hr; rewrite get_action_cons.
    + apply bool_decide_eq_true in Hr. cbn. repeat case_bool_decide; congruence.
    + apply bool_decide_eq_false in Hr. rewrite IH. repeat case_bool_decide; congruence.
Qed.
End action_facts.
