(* ===== verification/IndexSetTheorems.v ===== *)
(** * The properties of index sets

    What every operation of [IndexSet] does to the set of its members, and that
    it preserves the representation invariant [wf]: sorted, non-touching ranges
    cut into chunks with exact caches. *)

From S2P Require Import Prelude ChunkedRangeVector ChunkedFacts IndexSet LoopFacts IndexSetFacts.
From S2P Require Import IndexSetEdits IndexSetWalk IndexSetMerge CorrFacts AddShiftedFacts ChangeBuilder.
From S2P Require Import ChangeFacts Samples.

Section theorems.
Context `{Build}.

(** [add] succeeds and inserts exactly the new index. *)
Theorem add_inserts (d : IndexSet) (index : Z) : wf d -> (0 <= index < npos)%Z ->
  exists d', add d index = Some d' /\ wf d' /\ forall x, x ∈ d' <-> x ∈ d \/ x = index.
Proof. apply add_spec. Qed.

(** [add_shifted] adds, and returns, the position outside the set that has
    [index] positions outside the set before it. *)
Theorem add_shifted_skips_members (d : IndexSet) (index : Z) : wf d -> (0 <= index)%Z ->
  (index + total (flat d) < npos)%Z ->
  exists d' y, add_shifted d index = Some (d', y) /\ wf d'
    /\ (y ∉ d) /\ rank (flat d) y = index /\ forall x, x ∈ d' <-> x ∈ d \/ x = y.
Proof.
  intros Hwf Hi Hsum. destruct (add_shifted_spec d index Hwf Hi Hsum) as (d' & y & -> & ? & ? & ? & ?).
  exists d', y. split_and!; [done..| |done]. unfold rank. lia.
Qed.

(** C38: [add_shifted_by] adds, for every value outside [shifted_by], the
    position outside the receiver of the same rank. The members are right in
    every case; the cached counts of the result are exact as long as no chunk
    has to be allocated for it. *)
Theorem add_shifted_by_composes (d shifted_by values : IndexSet) : wf d -> wf shifted_by -> wf values ->
  bounded (npos - total (flat d)) (flat values) -> (total (flat d) + total (flat values) < 2 ^ 64)%Z ->
  exists d', add_shifted_by d shifted_by values = Some d' /\ wf_flat (flat d')
    /\ (fits d values -> wf d')
    /\ forall y, y ∈ d' <-> y ∈ d \/ exists v, v ∈ values /\ (v ∉ shifted_by)
         /\ (0 <= y)%Z /\ (y ∉ d) /\ rank (flat d) y = rank (flat shifted_by) v.
Proof. apply add_shifted_by_spec. Qed.

(** [erase_or_unshift] erases a position, moving the later members down,
    and returns where the position was before the indices of the set were
    inserted: [npos] for a member, its rank otherwise. *)
Theorem erase_or_unshift_erases (d : IndexSet) (index : Z) : wf d -> (0 <= index < npos)%Z ->
  exists d', erase_or_unshift d index
      = Some (d', if decide (index ∈ d) then npos else rank (flat d) index)
    /\ wf d' /\ forall x, x ∈ d' <-> ((x < index)%Z /\ x ∈ d) \/ ((index <= x)%Z /\ (x + 1)%Z ∈ d).
Proof. apply erase_or_unshift_spec. Qed.

(** [insert_at] makes the [cnt] positions from [index] on members and moves
    the later members up. *)
Theorem insert_at_inserts (d : IndexSet) (index cnt : Z) : wf d -> (0 <= index)%Z -> (0 < cnt)%Z ->
  (index + cnt <= npos)%Z -> bounded (npos - cnt) (flat d) ->
  exists d', insert_at d index cnt = Some d' /\ wf d'
    /\ forall x, x ∈ d' <-> ((x < index)%Z /\ x ∈ d) \/ (index <= x < index + cnt)%Z
         \/ ((index + cnt <= x)%Z /\ (x - cnt)%Z ∈ d).
Proof. apply insert_at_spec. Qed.

(** [erase_at] of a whole set: the members outside the erased positions,
    each at its rank among the positions that stay. *)
Theorem erase_at_all_renumbers (d positions : IndexSet) : wf d -> wf positions ->
  exists d', erase_at_all d positions = Some d' /\ wf d'
    /\ forall y, y ∈ d' <-> exists x, x ∈ d /\ (x ∉ positions) /\ y = rank (flat positions) x.
Proof. apply erase_at_all_spec. Qed.

(** [insert_at] of a whole set: the inserted positions, and every old
    member at the free position of its rank. *)
Theorem insert_at_all_renumbers (d positions : IndexSet) : wf d -> wf positions ->
  bounded (npos - total (flat positions)) (flat d) ->
  exists d', insert_at_all d positions = Some d' /\ wf d'
    /\ forall y, y ∈ d' <-> y ∈ positions \/ ((y ∉ positions) /\ rank (flat positions) y ∈ d).
Proof. apply insert_at_all_spec. Qed.

(** [remove] of a whole set is set difference. *)
Theorem remove_all_difference (d values : IndexSet) : wf d -> wf values ->
  exists d', remove_all d values = Some d' /\ wf d' /\ forall x, x ∈ d' <-> x ∈ d /\ x ∉ values.
Proof. apply remove_all_spec. Qed.

(** [as_indexes] visits every member exactly once, in increasing order. *)
Theorem as_indexes_enumerates (d : IndexSet) : wf d ->
  exists l, as_indexes d = Some l /\ StronglySorted Z.lt l /\ (forall x, x ∈ l <-> x ∈ d)
    /\ Z.of_nat (length l) = total (flat d).
Proof.
  intros Hwf. exists (elems (flat d)). rewrite as_indexes_spec by done. pose proof Hwf as [_ [Hok _]].
  split_and!; [done|by eapply elems_sorted| |by apply length_elems_flat].
  intros x. apply elem_of_elems.
Qed.

(** C39: [count] from the start: the number of members below a bound, although
    the chunks inside the bound are counted by their caches. *)
Theorem count_prefix (d : IndexSet) (x : Z) : wf d -> (0 <= x <= npos)%Z ->
  exists l, as_indexes d = Some l
    /\ count d 0 x = Some (Z.of_nat (length (filter (λ y, y < x)%Z l))).
Proof.
  intros Hwf Hx. exists (elems (flat d)). split; [by apply as_indexes_spec|].
  rewrite count_zero by done. f_equal. rewrite <-cnt_filter, cnt_elems by apply Hwf. done.
Qed.

(** The correspondence between the positions outside the deletions and the
    positions outside the insertions is the only order isomorphism between
    them. *)
Theorem same_element_unique (b : CollectionChangeBuilder) (R : Z -> Z -> Prop) : wf_builder b ->
  (forall x z, R x z <-> same_element b x z) <->
  (forall x z, R x z -> (0 <= x)%Z /\ (0 <= z)%Z /\ (x ∉ deletions b) /\ (z ∉ insertions b))
  /\ (forall x, (0 <= x)%Z -> x ∉ deletions b -> exists z, R x z)
  /\ (forall z, (0 <= z)%Z -> z ∉ insertions b -> exists x, R x z)
  /\ (forall x x' z z', R x z -> R x' z' -> (x < x')%Z <-> (z < z')%Z).
Proof.
  intros [[_ [HD _]] [_ [HI _]] _ _]. split.
  - intros HR. setoid_rewrite HR. split_and!.
    + intros x z (? & ? & ? & ? & _). by split_and!.
    + by apply corr_total.
    + by apply corr_surj.
    + by apply corr_mono.
  - intros (H1 & H2 & H3 & H4). by apply corr_unique.
Qed.
End theorems.

#[local] Existing Instance debug_build.

(** [count] of a range that starts inside a chunk and ends in a later one
    drops the part in the later chunk: [{1,3,5,7} ∪ {9..28}] has seven members
    in [7 .. 14], and [count] finds one. *)
Theorem count_drops_later_chunk :
  wf two_chunks /\ as_indexes two_chunks = Some ([1; 3; 5; 7] ++ seqZ 9 20)%Z
  /\ length (filter (λ x, 7 <= x < 15)%Z ([1; 3; 5; 7] ++ seqZ 9 20)%Z) = 7
  /\ count two_chunks 7 15 = Some 1%Z.
Proof. split; [decide_wf|]. vm_compute. done. Qed.

(** [add_shifted_by] caches a wrong count when a range of several indices
    starts a new chunk: the result has the right seven members, is not well
    formed, and its [count] is five. *)
Theorem add_shifted_by_miscounts :
  wf last_run /\ wf four_values /\ exists d, add_shifted_by last_run [] four_values = Some d
    /\ as_indexes d = Some [1; 3; 5; 7; 20; 21; 22]%Z /\ ~ wf d /\ count d 0 npos = Some 5%Z.
Proof.
  split_and!; [decide_wf..|]. exists (four_values ++ [mkChunk [(20, 23)%Z] 20 23 1]).
  split_and!; [vm_compute; reflexivity..| |vm_compute; reflexivity].
  intros [Hs _]. apply Forall_app in Hs as [_ [[_ _ Hc] _]%Forall_cons]. discriminate Hc.
Qed.

(** ** Witnesses *)

Lemma add_inserts_witness : exists d', add five_values 6 = Some d' /\ wf d'
  /\ forall x, x ∈ d' <-> x ∈ five_values \/ x = 6%Z.
Proof. apply (add_inserts five_values 6); [decide_wf|done]. Defined.

Lemma add_shifted_skips_members_witness : exists d' y, add_shifted five_values 2 = Some (d', y) /\ wf d'
  /\ (y ∉ five_values) /\ rank (flat five_values) y = 2%Z /\ forall x, x ∈ d' <-> x ∈ five_values \/ x = y.
Proof. apply (add_shifted_skips_members five_values 2); [decide_wf|done..]. Defined.

Lemma add_shifted_by_composes_witness : exists d', add_shifted_by five_values three_values four_values = Some d'
  /\ wf_flat (flat d') /\ (fits five_values four_values -> wf d')
  /\ forall y, y ∈ d' <-> y ∈ five_values \/ exists v, v ∈ four_values /\ (v ∉ three_values)
       /\ (0 <= y)%Z /\ (y ∉ five_values) /\ rank (flat five_values) y = rank (flat three_values) v.
Proof. apply (add_shifted_by_composes five_values three_values four_values); [decide_wf..|done]. Defined.

Lemma erase_or_unshift_erases_witness : exists d', erase_or_unshift five_values 6
    = Some (d', if decide (6 ∈ five_values)%Z then npos else rank (flat five_values) 6)
  /\ wf d' /\ forall x, x ∈ d' <-> ((x < 6)%Z /\ x ∈ five_values) \/ ((6 <= x)%Z /\ (x + 1)%Z ∈ five_values).
Proof. apply (erase_or_unshift_erases five_values 6); [decide_wf|done]. Defined.

Lemma insert_at_inserts_witness : exists d', insert_at five_values 3 2 = Some d' /\ wf d'
  /\ forall x, x ∈ d' <-> ((x < 3)%Z /\ x ∈ five_values) \/ (3 <= x < 3 + 2)%Z
       \/ ((3 + 2 <= x)%Z /\ (x - 2)%Z ∈ five_values).
Proof. apply (insert_at_inserts five_values 3 2); [decide_wf|done|done|done|decide_wf]. Defined.

Lemma erase_at_all_renumbers_witness : exists d', erase_at_all five_values three_values = Some d' /\ wf d'
  /\ forall y, y ∈ d' <-> exists x, x ∈ five_values /\ (x ∉ three_values) /\ y = rank (flat three_values) x.
Proof. apply (erase_at_all_renumbers five_values three_values); decide_wf. Defined.

Lemma insert_at_all_renumbers_witness : exists d', insert_at_all five_values three_values = Some d' /\ wf d'
  /\ forall y, y ∈ d' <-> y ∈ three_values \/ ((y ∉ three_values) /\ rank (flat three_values) y ∈ five_values).
Proof. apply (insert_at_all_renumbers five_values three_values); decide_wf. Defined.

Lemma remove_all_difference_witness : exists d', remove_all five_values three_values = Some d' /\ wf d'
  /\ forall x, x ∈ d' <-> x ∈ five_values /\ x ∉ three_values.
Proof. apply (remove_all_difference five_values three_values); decide_wf. Defined.

Lemma as_indexes_enumerates_witness : exists l, as_indexes two_chunks = Some l /\ StronglySorted Z.lt l
  /\ (forall x, x ∈ l <-> x ∈ two_chunks) /\ Z.of_nat (length l) = total (flat two_chunks).
Proof. apply (as_indexes_enumerates two_chunks). decide_wf. Defined.

Lemma count_prefix_witness : exists l, as_indexes two_chunks = Some l
  /\ count two_chunks 0 15 = Some (Z.of_nat (length (filter (λ y, y < 15)%Z l))).
Proof. apply (count_prefix two_chunks 15); [decide_wf|done]. Defined.

(** Row 1 deleted, rows inserted at 3 and 4. *)
Definition shifted_rows : CollectionChangeBuilder := sample_builder [(1, 2)]%Z [(3, 5)]%Z [] [].

Lemma same_element_unique_witness :
  (forall x z, same_element shifted_rows x z -> same_element shifted_rows x z)
  /\ (forall x x' z z', same_element shifted_rows x z -> same_element shifted_rows x' z' ->
        (x < x')%Z <-> (z < z')%Z).
Proof.
  split; [done|]. destruct (same_element_unique shifted_rows (same_element shifted_rows)) as [Hiso _];
    [decide_wf|]. by apply Hiso.
Defined.
