(* ===== verification/ChangeTheorems.v ===== *)
(** * The properties of change sets

    What each operation of [CollectionChangeBuilder] does to the rows it tracks
    and to the marks, and that [merge] composes change sets. *)

From S2P Require Import Prelude ChunkedRangeVector ChunkedFacts IndexSet LoopFacts IndexSetFacts.
From S2P Require Import IndexSetEdits IndexSetWalk IndexSetMerge CorrFacts AddShiftedFacts ChangeBuilder.
From S2P Require Import ChangeFacts ChangeMove ChangeMerge ChangeMergeMoves ChangeCompose.
From S2P Require Import ChangeTable ChangeComplete TransactInfo TransactLog ListRefinement Samples.

Section theorems.
Context `{Build}.

(** C1: [merge] composes: old row [x] is row [z] after both change sets exactly
    when it is some row [y] after the first one which is row [z] after the
    second one. The result is well formed. *)
Theorem merge_composes (b c : CollectionChangeBuilder) : mergeable b c ->
  exists b', merge b c = Some b' /\ wf_builder b' /\ wf_moves b'
    /\ forall x z, tracks b' x z <-> exists y, tracks b x y /\ tracks c y z.
Proof.
  intros Hm. destruct (merge_spec b c Hm) as (b' & -> & ? & ? & ? & _). by exists b'.
Qed.

(** [merge] carries the marks, of the modifications and of every tracked
    column: what the second change set marks is marked, and a row that both
    change sets keep is marked exactly when one of them marks it. *)
Theorem merge_carries_marks (b c : CollectionChangeBuilder) v : mergeable b c ->
  view (m_track_columns b) v ->
  exists b', merge b c = Some b' /\ (forall z, z ∈ v c -> z ∈ v b')
    /\ forall x y z, tracks b x y -> tracks c y z -> z ∈ v b' <-> z ∈ v c \/ y ∈ v b.
Proof.
  intros Hm Hv. destruct (merge_spec b c Hm) as (b' & -> & Hb'). exists b'. split_and!; [done| |].
  - intros z Hz. destruct Hb' as (_ & _ & _ & Hmarks). apply (Hmarks v Hv z). by left.
  - intros x y z. by apply merged_survivor.
Qed.

(** [move_over] deletes row [row] and puts row [last] in its place: the rows
    below the new end are the surviving ones, and the marks and the rows of the
    move mapping follow. *)
Theorem move_over_moves_last (b : CollectionChangeBuilder) row last : wf_builder b -> wf_mapping b ->
  moves b = [] -> (0 <= row <= last)%Z -> bounded (last + 1) (flat (insertions b)) ->
  bounded (last + 1) (flat (modifications b)) -> (last + total (flat (deletions b)) < npos)%Z ->
  exists b', move_over row last true b = Some b' /\ wf_builder b' /\ wf_mapping b' /\ moves b' = []
    /\ bounded last (flat (insertions b'))
    /\ (forall x z, (z < last)%Z -> mapped b' x z <->
         exists y, (y <= last)%Z /\ mapped b x y /\ y <> row /\ z = if decide (y = last) then row else y)
    /\ (forall z, z ∈ modifications b' <->
         exists y, y ∈ modifications b /\ y <> row /\ z = if decide (y = last) then row else y)
    /\ columns_related (image (over_map row last)) b (columns b').
Proof.
  intros Hwf Hmp Hmv Hr HbI HbM Hsum. rewrite <-Hmv.
  destruct (decide (row = last)) as [<-|Hne]; [apply move_over_last|apply move_over_below]; (done || lia).
Qed.

(** [swap] exchanges two rows, their marks and their entries in the move
    mapping. *)
Theorem swap_exchanges (b : CollectionChangeBuilder) ndx_1 ndx_2 : wf_builder b -> wf_mapping b ->
  ndx_1 <> ndx_2 -> (0 <= ndx_1)%Z -> (0 <= ndx_2)%Z ->
  (Z.max ndx_1 ndx_2 + total (flat (deletions b)) < npos)%Z ->
  exists b', swap ndx_1 ndx_2 true b = Some b' /\ wf_builder b' /\ wf_mapping b' /\ moves b' = moves b
    /\ (forall x z, mapped b' x z <-> exists y, mapped b x y /\ z = swapped ndx_1 ndx_2 y)
    /\ image (swap_map ndx_1 ndx_2) (modifications b) (modifications b')
    /\ columns_related (image (swap_map ndx_1 ndx_2)) b (columns b').
Proof. apply swap_spec. Qed.

(** C27: [parse_complete] turns the move mapping into moves: the rows tracked by
    the result are those that the builder and its mapping knew, the moves are
    sorted by source and none is the identity. *)
Theorem parse_complete_tracks_mapping `{StdOrders} (b : CollectionChangeBuilder) : wf_builder b ->
  wf_mapping b -> moves b = [] ->
  (forall y, m_move_mapping b !! y = Some y -> rank (flat (deletions b)) y = rank (flat (insertions b)) y) ->
  exists b', ChangeBuilder.parse_complete b = Some b' /\ wf_builder b' /\ wf_moves b' /\ m_move_mapping b' = ∅
    /\ (forall x z, tracks b' x z <-> mapped b x z)
    /\ by_source (moves b') /\ Forall (λ m, move_from m <> move_to m) (moves b')
    /\ modifications b' = modifications b /\ columns b' = columns b.
Proof. apply parse_complete_spec. Qed.

(** [move] takes row [from] to position [to]: every tracked row and every
    mark follows, and earlier moves are extended. *)
Theorem move_tracks (b : CollectionChangeBuilder) from to : wf_builder b -> wf_moves b ->
  room 1 (insertions b) -> room 1 (modifications b) -> Forall (room 1) (columns b) -> from <> to ->
  (0 <= from < npos)%Z -> (0 <= to < npos)%Z -> (from + total (flat (deletions b)) < npos)%Z ->
  exists b', move from to b = Some b' /\ wf_builder b' /\ wf_moves b'
    /\ (forall x z, tracks b' x z <-> exists y, tracks b x y /\ z = moved from to y)
    /\ (forall z, z ∈ modifications b' <-> exists y, y ∈ modifications b /\ z = moved from to y)
    /\ columns_related (image (moved_map from to)) b (columns b').
Proof.
  intros. destruct (move_spec b from to) as (b' & -> & ? & ? & ? & ? & ? & _); [done..|].
  exists b'. by split_and!.
Qed.

(** [erase] deletes one row: it is no longer tracked, moved or marked, and
    every later row moves down by one. *)
Theorem erase_tracks (b : CollectionChangeBuilder) index : wf_builder b -> wf_moves b -> (0 <= index)%Z ->
  (index + total (flat (deletions b)) < npos)%Z ->
  exists b', erase index b = Some b' /\ wf_builder b' /\ wf_moves b'
    /\ (forall x z, tracks b' x z <-> exists y, tracks b x y /\ y <> index /\ z = down index y)
    /\ (forall z, z ∈ modifications b' <-> exists y, y ∈ modifications b /\ y <> index /\ z = down index y)
    /\ columns_related (image (erase_map index)) b (columns b').
Proof.
  intros Hwf Hmv Hi Hsum. destruct (erase_spec b index Hwf Hi Hsum) as (b' & -> & ? & Hs & ? & ? & Hm & _).
  destruct (Hm Hmv) as [? Hm']. exists b'. split_and!; [done..| |done|done].
  intros x z. rewrite (retarget_tracks (erase_target index) b b' Hm').
  - apply exist_proper. intros y. unfold erase_target, down. repeat case_decide; naive_solver.
  - intros x' z'. rewrite Hs. apply exist_proper. intros y. unfold erase_map, erase_target, down.
    repeat case_decide; naive_solver.
Qed.

(** [insert] of [cnt] rows with move tracking: the new rows are insertions,
    later rows, marks and moves go up by [cnt], and nothing is deleted. *)
Theorem insert_tracks `{StdOrders} (b : CollectionChangeBuilder) index cnt : wf_builder b -> wf_moves b ->
  (0 <= index)%Z -> (0 < cnt)%Z -> (index + cnt <= npos)%Z -> room cnt (insertions b) ->
  room cnt (modifications b) -> Forall (room cnt) (columns b) ->
  exists b', insert index cnt true b = Some b' /\ wf_builder b' /\ wf_moves b'
    /\ deletions b' = deletions b
    /\ (forall z, z ∈ insertions b' <-> (index <= z < index + cnt)%Z \/ exists y, y ∈ insertions b /\ z = up index cnt y)
    /\ (forall x z, tracks b' x z <-> exists y, tracks b x y /\ z = up index cnt y)
    /\ (forall z, z ∈ modifications b' <-> exists y, y ∈ modifications b /\ z = up index cnt y)
    /\ columns_related (image (insert_map index cnt)) b (columns b').
Proof.
  intros Hwf Hmv Hi Hc Hn [_ HI] [_ HM] HC.
  destruct (insert_spec b index cnt true) as (b' & -> & ? & ? & [Hins Hs] & ? & ? & Hm); [done..| |].
  { eapply Forall_impl; [exact HC|]. by intros ? []. }
  destruct (Hm Hmv) as [? Hm']. exists b'. split_and!; [done..| | |done|done].
  - intros z. rewrite elem_of_flat, (Hins z). setoid_rewrite elem_of_flat. unfold up. split.
    + intros [[? ?]|[?|[? ?]]]; [right; exists z|by left|right; exists (z - cnt)%Z];
        (split; [done|]); case_decide; lia.
    + intros [?|(y & Hy & ->)]; [by right; left|]. case_decide; [by left|right; right].
      split; [lia|]. by replace (y + cnt - cnt)%Z with y by lia.
  - intros x z. rewrite (retarget_tracks (insert_target index cnt) b b' Hm').
    + apply exist_proper. intros y. unfold insert_target. naive_solver.
    + intros x' z'. rewrite Hs. apply exist_proper. intros y. unfold insert_target. naive_solver.
Qed.

(** [insert] renumbers the move mapping, whatever the order in which the
    map is visited: the entries from [index] on go up by [cnt], and no entry is
    lost or overwritten. *)
Theorem insert_shifts_mapping `{StdOrders} (b b' : CollectionChangeBuilder) index cnt : (0 <= index)%Z ->
  (0 < cnt)%Z -> (forall k v, m_move_mapping b !! k = Some v -> 0 <= k /\ k + cnt < 2 ^ 64)%Z ->
  insert index cnt true b = Some b' ->
  forall k v, m_move_mapping b' !! k = Some v <->
    ((k < index)%Z /\ m_move_mapping b !! k = Some v)
    \/ ((index + cnt <= k)%Z /\ m_move_mapping b !! (k - cnt)%Z = Some v).
Proof.
  intros Hi Hc Hk Hrun k v. rewrite <-shift_mapping_lookup by done. unfold insert, for_each_col in Hrun.
  destruct (REALM_ASSERT _); [|done]. cbn [mbind option_bind] in Hrun.
  destruct (shift_for_insert_at (modifications b) index cnt); [|done]. cbn [mbind option_bind] in Hrun.
  destruct (m_track_columns b); [destruct (mapM_vec _ _); [|done]|]; cbn [mbind option_bind negb] in Hrun;
    destruct (insert_at _ index cnt); try done; cbn [mbind option_bind] in Hrun; by injection Hrun as <-.
Qed.

(** [clear] deletes all the rows of the collection before the changes,
    whose number it recomputes from its size now, and forgets everything
    else. *)
Theorem clear_deletes_all (b : CollectionChangeBuilder) size n : wf_builder b -> (0 <= size <= npos)%Z ->
  n = (if decide (size = npos) then npos
       else size + total (flat (deletions b)) - total (flat (insertions b)))%Z -> (0 <= n <= npos)%Z ->
  exists b', clear size b = Some b' /\ wf_builder b' /\ wf_moves b'
    /\ (forall x, x ∈ deletions b' <-> 0 <= x < n)%Z
    /\ insertions b' = [] /\ modifications b' = [] /\ moves b' = [] /\ columns b' = []
    /\ m_move_mapping b' = ∅ /\ m_track_columns b' = m_track_columns b.
Proof. apply clear_spec. Qed.

(** [finalize] reports the modifications at their positions before the
    changes, where there is one, and at their positions after, without the
    insertions. *)
Theorem finalize_reports_both_sides (b : CollectionChangeBuilder) : wf_builder b ->
  bounded (npos - total (flat (deletions b))) (flat (modifications b)) ->
  exists c, finalize b = Some c
    /\ cs_deletions c = deletions b /\ cs_insertions c = insertions b /\ cs_moves c = moves b
    /\ cs_columns c = columns b /\ wf (cs_modifications c) /\ wf (cs_modifications_new c)
    /\ (forall x, x ∈ cs_modifications c <-> exists y, y ∈ modifications b /\ same_element b x y)
    /\ (forall y, y ∈ cs_modifications_new c <-> y ∈ modifications b /\ y ∉ insertions b).
Proof. apply finalize_spec. Qed.

(** [clean_up_stale_moves] tracks the same rows before and after: a move is
    dropped, with its deletion and insertion, only when the row is where the
    other deletions and insertions put it. *)
Theorem clean_up_keeps_tracks (b : CollectionChangeBuilder) : wf_builder b -> wf_moves b ->
  exists b', clean_up_stale_moves b = Some b' /\ wf_builder b' /\ wf_moves b'
    /\ (forall x z, tracks b' x z <-> tracks b x z)
    /\ modifications b' = modifications b /\ columns b' = columns b.
Proof.
  intros Hwf Hmv. destruct (clean_up_stale_moves_spec (tracks b) b) as (b' & -> & (? & ? & Ht) & ? & ? & _).
  { split_and!; by destruct b. }
  exists b'. split; [done|]. destruct b'. by split_and!.
Qed.
End theorems.

Section lists.
Context `{Build} {A : Type}.

(** C2: the change set of a watched list explains its contents. When the
    observer has parsed the instructions that take the contents [xs] to [ys],
    every element of [ys] is an insertion, or stems from an element of [xs] that
    the change set tracks and is marked or unchanged; and every element of [xs]
    is deleted or kept, marked or unchanged. *)
Theorem list_changes_explain (calls : list log_call) (a : nat) (xs ys : list A) (o : observer) :
  list_edits calls xs ys -> m_active_list o = list_ptr a ->
  list_builders (m_info o) !! a = Some empty_builder -> (Z.of_nat (length xs) < 2 ^ 31)%Z ->
  exists o' b, observe_log calls o = Some (Done o') /\ list_builders (m_info o') !! a = Some b
    /\ (forall y, (0 <= y < Z.of_nat (length ys))%Z -> y ∈ insertions b \/
         exists x, (0 <= x < Z.of_nat (length xs))%Z /\ tracks b x y
           /\ (y ∈ modifications b \/ ys !! Z.to_nat y = xs !! Z.to_nat x))
    /\ (forall x, (0 <= x < Z.of_nat (length xs))%Z -> x ∈ deletions b \/
         exists y, (0 <= y < Z.of_nat (length ys))%Z /\ same_element b x y
           /\ (y ∈ modifications b \/ ys !! Z.to_nat y = xs !! Z.to_nat x)).
Proof.
  intros He Ha Hb Hx. destruct (observe_list calls a empty_builder xs xs ys o) as (o' & b & -> & ? & Hex);
    [done..|by apply explains_empty|done|done|].
  exists o', b. split_and!; [done..| |]; intros z Hz; [by apply explains_new|by apply explains_old].
Qed.
End lists.

(** ** Witnesses *)

#[local] Existing Instance debug_build.

(** The row at 1 has moved to 3 and is modified. *)
Definition first_changes : CollectionChangeBuilder :=
  sample_builder [(1, 2)]%Z [(3, 4)]%Z [(3, 4)]%Z [mkMove 1 3].
(** The row at 3 has moved to 0, and two rows were inserted at 5. *)
Definition second_changes : CollectionChangeBuilder :=
  sample_builder [(3, 4)]%Z [(0, 1); (5, 7)]%Z [(2, 3)]%Z [mkMove 3 0].

Lemma samples_mergeable : mergeable first_changes second_changes.
Proof. split; try decide_wf; [by intros i z ?%elem_of_flat%mem_nil..|]. vm_compute. lia. Defined.

Lemma merge_composes_witness : exists b', merge first_changes second_changes = Some b' /\ wf_builder b'
  /\ wf_moves b' /\ forall x z, tracks b' x z <-> exists y, tracks first_changes x y /\ tracks second_changes y z.
Proof. exact (merge_composes first_changes second_changes samples_mergeable). Defined.

Lemma merge_carries_marks_witness : exists b', merge first_changes second_changes = Some b'
  /\ (forall z, z ∈ modifications second_changes -> z ∈ modifications b')
  /\ forall x y z, tracks first_changes x y -> tracks second_changes y z ->
       z ∈ modifications b' <-> z ∈ modifications second_changes \/ y ∈ modifications first_changes.
Proof.
  apply (merge_carries_marks first_changes second_changes modifications samples_mergeable). by left.
Defined.

(** Three modifications in a table whose row 0 has been deleted: the former row 3
    is in its place. *)
Definition table_changes : CollectionChangeBuilder :=
  mkChangeBuilder (one_chunk [(0, 1); (3, 4)]%Z) (one_chunk [(0, 1)]%Z) (one_chunk [(0, 2)]%Z) []
    [] [one_chunk [(0, 1)]%Z; []] {[0%Z := 3%Z]} true.

Lemma table_mapping y x : m_move_mapping table_changes !! y = Some x -> y = 0%Z /\ x = 3%Z.
Proof.
  change (m_move_mapping table_changes) with ({[0%Z := 3%Z]} : gmap Z Z). intros Hy.
  by apply lookup_singleton_Some in Hy as [<- <-].
Qed.

Lemma table_mapping_wf : wf_mapping table_changes.
Proof.
  split.
  - intros y x [-> ->]%table_mapping.
    split; apply (bool_decide_unpack (mem _ _)); vm_compute; exact I.
  - by intros y y' x [-> _]%table_mapping [-> _]%table_mapping.
Defined.

Lemma move_over_moves_last_witness : exists b', move_over 1 2 true table_changes = Some b'
  /\ wf_builder b' /\ wf_mapping b' /\ moves b' = [] /\ bounded 2 (flat (insertions b'))
  /\ (forall x z, (z < 2)%Z -> mapped b' x z <->
       exists y, (y <= 2)%Z /\ mapped table_changes x y /\ y <> 1%Z /\ z = if decide (y = 2%Z) then 1%Z else y)
  /\ (forall z, z ∈ modifications b' <->
       exists y, y ∈ modifications table_changes /\ y <> 1%Z /\ z = if decide (y = 2%Z) then 1%Z else y)
  /\ columns_related (image (over_map 1 2)) table_changes (columns b').
Proof.
  apply (move_over_moves_last table_changes 1 2); [decide_wf|exact table_mapping_wf|done..|decide_wf|decide_wf|done].
Defined.

Lemma swap_exchanges_witness : exists b', swap 0 2 true table_changes = Some b' /\ wf_builder b'
  /\ wf_mapping b' /\ moves b' = moves table_changes
  /\ (forall x z, mapped b' x z <-> exists y, mapped table_changes x y /\ z = swapped 0 2 y)
  /\ image (swap_map 0 2) (modifications table_changes) (modifications b')
  /\ columns_related (image (swap_map 0 2)) table_changes (columns b').
Proof. apply (swap_exchanges table_changes 0 2); [decide_wf|exact table_mapping_wf|done..]. Defined.

Lemma parse_complete_tracks_mapping_witness : exists b', ChangeBuilder.parse_complete table_changes = Some b'
  /\ wf_builder b' /\ wf_moves b' /\ m_move_mapping b' = ∅
  /\ (forall x z, tracks b' x z <-> mapped table_changes x z)
  /\ by_source (moves b') /\ Forall (λ m, move_from m <> move_to m) (moves b')
  /\ modifications b' = modifications table_changes /\ columns b' = columns table_changes.
Proof.
  apply (parse_complete_tracks_mapping table_changes); [decide_wf|exact table_mapping_wf|done|].
  intros y [-> Hy]%table_mapping. discriminate Hy.
Defined.

Lemma move_tracks_witness : exists b', move 3 0 first_changes = Some b' /\ wf_builder b' /\ wf_moves b'
  /\ (forall x z, tracks b' x z <-> exists y, tracks first_changes x y /\ z = moved 3 0 y)
  /\ (forall z, z ∈ modifications b' <-> exists y, y ∈ modifications first_changes /\ z = moved 3 0 y)
  /\ columns_related (image (moved_map 3 0)) first_changes (columns b').
Proof.
  apply (move_tracks first_changes 3 0); [decide_wf|decide_wf|split; decide_wf|split; decide_wf|constructor|done..].
Defined.

Lemma erase_tracks_witness : exists b', erase 3 first_changes = Some b' /\ wf_builder b' /\ wf_moves b'
  /\ (forall x z, tracks b' x z <-> exists y, tracks first_changes x y /\ y <> 3%Z /\ z = down 3 y)
  /\ (forall z, z ∈ modifications b' <-> exists y, y ∈ modifications first_changes /\ y <> 3%Z /\ z = down 3 y)
  /\ columns_related (image (erase_map 3)) first_changes (columns b').
Proof. apply (erase_tracks first_changes 3); [decide_wf|decide_wf|done..]. Defined.

Lemma insert_tracks_witness : exists b', insert 2 2 true first_changes = Some b' /\ wf_builder b' /\ wf_moves b'
  /\ deletions b' = deletions first_changes
  /\ (forall z, z ∈ insertions b' <-> (2 <= z < 2 + 2)%Z \/ exists y, y ∈ insertions first_changes /\ z = up 2 2 y)
  /\ (forall x z, tracks b' x z <-> exists y, tracks first_changes x y /\ z = up 2 2 y)
  /\ (forall z, z ∈ modifications b' <-> exists y, y ∈ modifications first_changes /\ z = up 2 2 y)
  /\ columns_related (image (insert_map 2 2)) first_changes (columns b').
Proof.
  apply (insert_tracks first_changes 2 2);
    [decide_wf|decide_wf|done|done|done|split; decide_wf|split; decide_wf|constructor].
Defined.

Lemma insert_shifts_mapping_witness : exists b', insert 0 2 true table_changes = Some b'
  /\ forall k v, m_move_mapping b' !! k = Some v <->
       ((k < 0)%Z /\ m_move_mapping table_changes !! k = Some v)
       \/ ((0 + 2 <= k)%Z /\ m_move_mapping table_changes !! (k - 2)%Z = Some v).
Proof.
  destruct (insert 0 2 true table_changes) as [b'|] eqn:Hrun; [|vm_compute in Hrun; discriminate Hrun].
  exists b'. split; [reflexivity|]. apply (insert_shifts_mapping table_changes b' 0 2); [done|done| |exact Hrun].
  intros k v [-> _]%table_mapping. done.
Defined.

Lemma clear_deletes_all_witness : exists b', clear 6 second_changes = Some b' /\ wf_builder b' /\ wf_moves b'
  /\ (forall x, x ∈ deletions b' <-> 0 <= x < 4)%Z
  /\ insertions b' = [] /\ modifications b' = [] /\ moves b' = [] /\ columns b' = []
  /\ m_move_mapping b' = ∅ /\ m_track_columns b' = m_track_columns second_changes.
Proof. apply (clear_deletes_all second_changes 6 4); [decide_wf|done..]. Defined.

Lemma finalize_reports_both_sides_witness : exists c, finalize first_changes = Some c
  /\ cs_deletions c = deletions first_changes /\ cs_insertions c = insertions first_changes
  /\ cs_moves c = moves first_changes /\ cs_columns c = columns first_changes
  /\ wf (cs_modifications c) /\ wf (cs_modifications_new c)
  /\ (forall x, x ∈ cs_modifications c <-> exists y, y ∈ modifications first_changes /\ same_element first_changes x y)
  /\ (forall y, y ∈ cs_modifications_new c <-> y ∈ modifications first_changes /\ y ∉ insertions first_changes).
Proof. apply (finalize_reports_both_sides first_changes); decide_wf. Defined.

(** A move of row 2 to itself, next to a deletion and an insertion before it. *)
Definition stale_changes : CollectionChangeBuilder :=
  sample_builder [(0, 1); (2, 3)]%Z [(1, 3)]%Z [] [mkMove 2 2].

Lemma clean_up_keeps_tracks_witness : exists b', clean_up_stale_moves stale_changes = Some b'
  /\ wf_builder b' /\ wf_moves b' /\ (forall x z, tracks b' x z <-> tracks stale_changes x z)
  /\ modifications b' = modifications stale_changes /\ columns b' = columns stale_changes.
Proof. apply (clean_up_keeps_tracks stale_changes); decide_wf. Defined.

(** An observer of one list, whose builder is at address 0. *)
Definition list_observer : observer :=
  with_active_list (list_ptr 0)
    (make_observer (mkInfo [] [] [mkListChangeInfo 0 0 0 0] [] [] [] false false {[0 := empty_builder]} 0)).

Lemma list_changes_explain_witness : exists o' b,
  observe_log [link_list_insert 1; link_list_move 0 2; link_list_set 1; link_list_erase 0] list_observer = Some (Done o')
  /\ list_builders (m_info o') !! 0 = Some b
  /\ (forall y, (0 <= y < Z.of_nat (length [26; 10]%Z))%Z -> y ∈ insertions b \/
       exists x, (0 <= x < Z.of_nat (length [10; 20]%Z))%Z /\ tracks b x y
         /\ (y ∈ modifications b \/ [26; 10]%Z !! Z.to_nat y = [10; 20]%Z !! Z.to_nat x))
  /\ (forall x, (0 <= x < Z.of_nat (length [10; 20]%Z))%Z -> x ∈ deletions b \/
       exists y, (0 <= y < Z.of_nat (length [26; 10]%Z))%Z /\ same_element b x y
         /\ (y ∈ modifications b \/ [26; 10]%Z !! Z.to_nat y = [10; 20]%Z !! Z.to_nat x)).
Proof.
  apply (list_changes_explain _ 0 [10; 20]%Z [26; 10]%Z list_observer); [|done..].
  eapply edits_cons; [exact (edit_insert 1 25%Z [10; 20]%Z ltac:(simpl; lia))|done|].
  eapply edits_cons; [exact (edit_move 0 2 10%Z [10; 25; 20]%Z ltac:(done) ltac:(simpl; lia) eq_refl)|done|].
  eapply edits_cons; [exact (edit_set 1 26%Z [25; 20; 10]%Z ltac:(simpl; lia))|done|].
  eapply edits_cons; [exact (edit_erase 0 [25; 26; 10]%Z ltac:(simpl; lia))|done|].
  constructor.
Defined.
