(* ===== verification/ObserverTheorems.v ===== *)
(** * The properties of the transaction log observers

    Where observed rows, columns and lists go while a transaction log is parsed,
    which logs are refused, and the order of the notifications. *)

From S2P Require Import Prelude ChunkedRangeVector ChunkedFacts IndexSet IndexSetFacts CorrFacts TransactInfo.
From S2P Require Import TransactLog ChangeBuilder ChangeFacts ChangeMove ChangeComplete KVO TransactFacts.
From S2P Require Import Samples.

Section theorems.
Context `{Build}.

(** C36: [new_row_ndx] finds the row where an observed row is now, moves
    included, and reports it as deleted exactly when no row of the new version
    stems from it. *)
Theorem new_row_ndx_tracks (b : CollectionChangeBuilder) idx : wf_builder b -> wf_moves b ->
  by_source (moves b) -> (0 <= idx)%Z -> (idx + total (flat (insertions b)) < npos)%Z ->
  exists r, new_row_ndx b idx = Some r
    /\ match r with inl z => tracks b idx z | inr _ => forall z, ~ tracks b idx z end.
Proof. apply new_row_ndx_spec. Qed.

(** [insert_column_index] keeps the map from columns to their initial
    index when a column is inserted: the new column had none, the later columns
    move up. *)
Theorem insert_column_index_maps (cols : list Z) ndx : cols_small cols -> (0 <= ndx < 2 ^ 31)%Z ->
  forall i, (0 <= i < 2 ^ 39)%Z -> initial_column [insert_column_index ndx cols] 0 i =
    if decide (i < ndx)%Z then initial_column [cols] 0 i
    else if decide (i = ndx) then npos else initial_column [cols] 0 (i - 1).
Proof. apply insert_column_index_spec. Qed.

(** [move_column_index] keeps the map when a column moves: the column now
    at the place where [i] has gone has the initial index of [i]. *)
Theorem move_column_index_maps (cols : list Z) from to : cols_small cols -> from <> to ->
  (0 <= from < 2 ^ 30)%Z -> (0 <= to < 2 ^ 30)%Z ->
  exists cols', move_column_index from to cols = Some cols' /\
    forall i, (0 <= i < 2 ^ 39)%Z ->
      initial_column [cols'] 0 (moved from to i) = initial_column [cols] 0 i.
Proof. apply move_column_index_spec. Qed.

(** [rotate] and [adjust_for_move] agree: the element of index [i] of a
    container is found, after the rotation, at the index that
    [adjust_for_move] computes. *)
Theorem rotate_agrees_with_adjust {A} (d : A) (l : list A) from to : from <> to ->
  (Z.of_nat (length l) < npos)%Z ->
  (0 <= from < Z.of_nat (length l))%Z -> (0 <= to < Z.of_nat (length l))%Z ->
  exists l', rotate d l from to = Some l' /\ length l' = length l /\
    forall i, (0 <= i < Z.of_nat (length l))%Z ->
      l' !! Z.to_nat (adjust_for_move i from to) = l !! Z.to_nat i.
Proof.
  intros Hne Hl Hf Ht. rewrite rotate_in_range by done. eexists. split; [done|].
  destruct (rotate_within_spec from to l Hne Hf Ht) as [Hlen Hi]. split; [done|].
  intros i Hr. rewrite adjust_for_move_moved by lia. by apply Hi.
Qed.

(** The observer refuses exactly the logs that the validator refuses,
    those with an incompatible schema change. *)
Theorem observer_refuses_as_validator `{StdOrders} (calls : list log_call) t o r :
  observe_log calls o = Some r ->
  ((exists o', r = Done o') <-> exists t', validate_log calls t = Done t')
  /\ (validate_log calls t = UnsupportedSchemaChange <-> exists call, call ∈ calls /\ schema_error call = true).
Proof.
  intros Hr. apply observe_log_spec in Hr. destruct (validate_log_spec calls t) as [[Ha [t' ->]]|[Hn ->]].
  - split; [split; [by eauto|intros _; by destruct Hr as [[_ ?]|[? _]]]|].
    split; [done|]. intros (call & Hin & Herr). unfold accepted in Ha. rewrite Forall_forall in Ha.
    specialize (Ha call Hin). congruence.
  - split; [split; [|by intros [? ?]]; intros [o' ->]; by destruct Hr as [[? _]|[_ ?]]|].
    split; [intros _|done]. unfold accepted in Hn. apply not_Forall_Exists in Hn; [|solve_decision].
    apply Exists_exists in Hn as (call & Hin & Herr). exists call. split; [done|].
    by apply not_false_iff_true in Herr.
Qed.

(** the loop of [erase_rows] over the watched lists does not look at the
    entry it moves into the place of a removed one: two watched lists of the
    erased row 0 become one, which is still watched; with the second list in the
    last row, which takes the place of the erased one, the list is not
    renumbered. *)
Theorem erase_row_skips_moved_list :
  erase_row_lists 0 0 5 [mkListChangeInfo 0 0 0 0; mkListChangeInfo 0 0 1 1] = Some [mkListChangeInfo 0 0 1 1]
  /\ erase_row_lists 0 0 5 [mkListChangeInfo 0 0 0 0; mkListChangeInfo 0 5 1 1] = Some [mkListChangeInfo 0 5 1 1].
Proof. by vm_compute. Qed.
End theorems.

(** Decides the order of a concrete list of events. *)
Ltac absent_event :=
  match goal with Hin : _ ∈ _ |- _ => apply (bool_decide_pack _) in Hin; vm_compute in Hin; by destruct Hin end.
Ltac decide_order :=
  split_and!; [reflexivity
    |intros Hin; first [absent_event|left; apply precedes_dec; reflexivity|right; apply precedes_dec; reflexivity]
    |apply precedes_dec; reflexivity|apply precedes_dec; reflexivity
    |intros; first [done|absent_event]|intros; first [done|absent_event]].

(** [advance_with_notifications] advances exactly once, and in order: the
    advance precedes the delivery of the notifications, [will_send] and the
    delivery precede [did_send], the delivery precedes [after_advance], and
    nothing follows a [did_change] or [will_send] callback that closes the
    Realm in the branch that tests for it. *)
Theorem notifications_ordered (s : surroundings) :
  let l := advance_with_notifications s in
  length (filter (λ e, e = ev_advance_validated \/ e = ev_advance_observed) l) = 1
  /\ (ev_deliver ∈ l -> precedes ev_advance_validated ev_deliver l \/ precedes ev_advance_observed ev_deliver l)
  /\ precedes ev_will_send_notifications ev_did_send_notifications l
  /\ precedes ev_after_advance ev_did_send_notifications l
  /\ (ev_advance_validated ∈ l -> did_change_closes s = true -> ev_did_change ∈ l ->
        last l = Some ev_did_change)
  /\ (ev_advance_validated ∈ l -> will_send_closes s = true -> ev_will_send_notifications ∈ l ->
        last l = Some ev_will_send_notifications).
Proof.
  unfold advance_with_notifications. destruct s as [ctx obs no nov ov nv vac dcc wsc dc].
  cbn [context observed notifiers notifiers_version old_version new_version version_after_callbacks
    did_change_closes will_send_closes deliver_closes].
  destruct (bool_decide (length _ = 0) && _), ctx, (bool_decide (ov ≠ nv)), dcc, wsc,
    (bool_decide (nv = vac)), dc; decide_order.
Qed.

(** ** Witnesses *)

#[local] Existing Instance debug_build.

(** Row 0 has been deleted, row 1 has moved to 3, a row was inserted at 0. *)
Definition observed_changes : CollectionChangeBuilder :=
  sample_builder [(0, 2)]%Z [(0, 1); (3, 4)]%Z [] [mkMove 1 3].

Lemma new_row_ndx_tracks_witness :
  (exists r, new_row_ndx observed_changes 1 = Some r
    /\ match r with inl z => tracks observed_changes 1 z | inr _ => forall z, ~ tracks observed_changes 1 z end)
  /\ new_row_ndx observed_changes 1 = Some (inl 3%Z) /\ new_row_ndx observed_changes 0 = Some (inr tt)
  /\ new_row_ndx observed_changes 2 = Some (inl 1%Z).
Proof.
  split; [|by vm_compute]. apply (new_row_ndx_tracks observed_changes 1); [decide_wf|decide_wf| |done|done].
  repeat constructor.
Defined.

Lemma three_columns_small : cols_small [0; npos; 1]%Z.
Proof. split; [simpl; lia|]. intros l [= <-]. lia. Defined.

Lemma insert_column_index_maps_witness : insert_column_index 1 [0; npos; 1]%Z = [0; npos; npos; 1]%Z
  /\ forall i, (0 <= i < 2 ^ 39)%Z -> initial_column [insert_column_index 4 [0; npos; 1]%Z] 0 i =
    if decide (i < 4)%Z then initial_column [[0; npos; 1]%Z] 0 i
    else if decide (i = 4)%Z then npos else initial_column [[0; npos; 1]%Z] 0 (i - 1).
Proof.
  split; [reflexivity|]. apply (insert_column_index_maps [0; npos; 1]%Z 4 three_columns_small). done.
Defined.

Lemma move_column_index_maps_witness : exists cols', move_column_index 3 1 [0; npos; 1]%Z = Some cols' /\
  forall i, (0 <= i < 2 ^ 39)%Z -> initial_column [cols'] 0 (moved 3 1 i) = initial_column [[0; npos; 1]%Z] 0 i.
Proof. apply (move_column_index_maps [0; npos; 1]%Z 3 1 three_columns_small); done. Defined.

Lemma rotate_agrees_with_adjust_witness : exists l', rotate 0 [10; 11; 12; 13] 3 1 = Some l'
  /\ length l' = length [10; 11; 12; 13] /\
  forall i, (0 <= i < Z.of_nat (length [10; 11; 12; 13]))%Z ->
    l' !! Z.to_nat (adjust_for_move i 3 1) = [10; 11; 12; 13] !! Z.to_nat i.
Proof. apply (rotate_agrees_with_adjust 0 [10; 11; 12; 13] 3 1); done. Defined.

Definition empty_info : TransactionChangeInfo := mkInfo [] [] [] [] [] [] true false ∅ 0.

Definition refused_log : list log_call := [insert_group_level_table 0; erase_column].

Lemma observer_refuses_as_validator_witness :
  exists r, observe_log refused_log (make_observer empty_info) = Some r
  /\ ((exists o', r = Done o') <-> exists t', validate_log refused_log 0 = Done t')
  /\ (validate_log refused_log 0 = UnsupportedSchemaChange
      <-> exists call, call ∈ refused_log /\ schema_error call = true).
Proof.
  destruct (observe_log refused_log (make_observer empty_info)) as [r|] eqn:Hr;
    [|vm_compute in Hr; discriminate Hr].
  exists r. split; [reflexivity|]. exact (observer_refuses_as_validator refused_log 0 _ r Hr).
Defined.
