(* ===== verification/SchemaTheorems.v ===== *)
(** * The properties of schemas

    What validation guarantees, what [Schema::compare] reports and in which
    order, and which changes each check of the object store accepts. *)

From Stdlib Require Import Ascii.
From S2P Require Import Prelude Property ChangeBuilder ObjectSchema SchemaChanges SchemaFacts CompareFacts.

(** The Apple platforms, and others for the x86 processors. *)
Definition signed_char : Platform := {| char_is_signed := true |}.

Section theorems.
Context `{Platform, StdOrders, StdPartition}.

(** C37: a schema in which [validate] finds no error has one object type per
    name, and in each of them: distinct property names and aliases, no alias
    that is a name, at most one primary key, of an integer or string type,
    indexes on indexable types only, links to existing types, and linking
    objects whose origin is a link back. *)
Theorem validate_sound (types : list ObjectSchema) : validate (make_schema types) = Some [] ->
  NoDup (os_name <$> make_schema types)
  /\ Forall (λ o, NoDup (name <$> object_properties o)
       /\ NoDup (filter (λ n, n ≠ ""%string) (public_name <$> object_properties o))
       /\ (forall n, n <> ""%string -> n ∈ (public_name <$> object_properties o) ->
             n ∉ (name <$> object_properties o))
       /\ Forall (valid_property (make_schema types) o) (object_properties o)
       /\ at_most_one is_primary (object_properties o)) (make_schema types).
Proof.
  intros Hv. destruct (validate_spec _ (make_schema_sorted types) Hv) as [Hnd Hall].
  split; [done|]. eapply Forall_impl; [exact Hall|]. by intros o [].
Qed.

(** [compare] reports exactly the differences: the types to add or, when
    asked, to remove, and for the types of both schemas the changes of their
    properties. *)
Theorem compare_reports_differences existing target incl : strict_schema existing -> strict_schema target ->
  forall c, c ∈ compare existing target incl <-> reported existing target incl c.
Proof. apply compare_spec. Qed.

(** In the changes [compare] reports, nothing that depends on the columns
    follows the removal of a property, save removals of columns with a lower
    index: the column of every change is still right when it is applied. *)
Theorem compare_keeps_columns_valid existing target incl l1 l2 removed :
  compare existing target incl = l1 ++ removed :: l2 -> is_not_remove_property removed = false ->
  Forall (λ c, (exists o, c = AddInitialProperties o)
    \/ is_not_remove_property c = false /\ (get_removed_column c <= get_removed_column removed)%Z) l2.
Proof.
  intros Hc Hr. eapply Forall_impl; [by eapply (compare_valid existing target incl)|].
  intros c Hd. destruct c; cbn in Hd; by eauto.
Qed.

(** A schema does not differ from itself. *)
Theorem compare_reflexive (s : Schema) incl : strict_schema s -> Forall plain_object s ->
  compare s s incl = [].
Proof. apply compare_self. Qed.

(** [find], a binary search, finds a type of a schema by its name exactly
    when there is one, where the names have no byte that a signed [char] makes
    negative. *)
Theorem find_type_finds (types : list ObjectSchema) n :
  Forall (λ o, plain_name (os_name o)) types -> plain_name n ->
  match find_type n (make_schema types) with
  | Some o => o ∈ types /\ os_name o = n
  | None => forall o, o ∈ types -> os_name o <> n
  end.
Proof.
  intros Hall Hn. assert (make_schema types ≡ₚ types) as Hp by apply std_sort_perm.
  destruct (find_type n (make_schema types)) as [o|] eqn:Hf.
  - rewrite <-Hp. by apply find_type_sound.
  - intros o Ho. eapply (find_type_complete (make_schema types) n); [apply make_schema_sorted|done| |done|by rewrite Hp].
    by rewrite Hp.
Qed.

(** The migration checks agree: [needs_migration] is false exactly when the
    automatic check accepts the changes; what no change at all is required for
    needs no migration, and a check that refuses never does so without a
    reason. *)
Theorem migration_checks_agree changes :
  (needs_migration changes = false <-> verify_no_migration_required changes = Returns tt)
  /\ (verify_no_changes_required changes = Returns tt -> needs_migration changes = false)
  /\ (forall t es, verify_no_migration_required changes = Throws t es -> es <> []).
Proof.
  rewrite no_migration_accepts, needs_migration_spec, no_changes_accepts. split_and!; [done| |].
  - intros Hall. eapply Forall_impl; [exact Hall|]. by intros [].
  - intros t es He. by apply verify_no_errors_throws in He as (_ & ? & _).
Qed.
End theorems.

(** where [char] is signed [find] can miss a type of the schema: it searches
    in the order of [StringData], while the schema is sorted in that of
    [std::string]. Two types, one named with a byte above 127, are enough. *)
Theorem find_type_misses `{StdOrders} (a e : ObjectSchema) :
  os_name a = "A"%string -> os_name e = String (ascii_of_nat 195) "" ->
  a ∈ make_schema [a; e] /\ find_type (H := signed_char) "A" (make_schema [a; e]) = None.
Proof.
  intros Ha He. set (s := make_schema [a; e]).
  assert (s ≡ₚ [a; e]) as Hp by apply std_sort_perm. split; [rewrite Hp; left|].
  assert (s = [a; e]) as ->.
  { pose proof (make_schema_sorted [a; e]) as Hs. fold s in Hs.
    pose proof (Permutation_length Hp) as Hlen. destruct s as [|x [|y [|]]]; try discriminate Hlen.
    apply Permutation_length_2_inv in Hp as [Hp|Hp]; injection Hp as -> ->; [done|].
    exfalso. apply StronglySorted_inv in Hs as [_ Hs]. apply Forall_inv in Hs. by rewrite Ha, He in Hs. }
  assert (string_data_lt (H := signed_char) (os_name e) "A" = true) as He' by (rewrite He; reflexivity).
  unfold find_type, lower_bound. cbn [length lower_bound_from Nat.add Nat.div Nat.divmod fst lookup list_lookup].
  rewrite He'. reflexivity.
Qed.

(** ** Witnesses *)

#[local] Open Scope string_scope.
#[local] Open Scope list_scope.
#[local] Existing Instance signed_char.

Definition dog : ObjectSchema :=
  mkObjectSchema "Dog" [make_property "name" String_ true true ""; make_link_property "owner" (Z.lor Object Nullable) "Person" "" ""]
    [] "name".
Definition person : ObjectSchema :=
  mkObjectSchema "Person" [make_property "age" Int false false ""]
    [make_link_property "dogs" (Z.lor LinkingObjects Array) "Dog" "owner" ""] "".
(** The same type before it had dogs, with an age that could be null. *)
Definition old_person : ObjectSchema :=
  mkObjectSchema "Person" [make_property "age" (Z.lor Int Nullable) false false ""; make_property "height" Float false false ""]
    [] "".

Lemma validate_sound_witness :
  NoDup (os_name <$> make_schema [person; dog])
  /\ Forall (λ o, NoDup (name <$> object_properties o)
       /\ NoDup (filter (λ n, n ≠ "") (public_name <$> object_properties o))
       /\ (forall n, n <> "" -> n ∈ (public_name <$> object_properties o) -> n ∉ (name <$> object_properties o))
       /\ Forall (valid_property (make_schema [person; dog]) o) (object_properties o)
       /\ at_most_one is_primary (object_properties o)) (make_schema [person; dog]).
Proof. apply (validate_sound [person; dog]). vm_compute. reflexivity. Defined.

Lemma find_type_finds_witness :
  match find_type "Dog" (make_schema [person; dog]) with
  | Some o => o ∈ [person; dog] /\ os_name o = "Dog"
  | None => forall o, o ∈ [person; dog] -> os_name o <> "Dog"
  end.
Proof.
  apply (find_type_finds [person; dog] "Dog").
  - repeat constructor; intros _; apply (bool_decide_unpack _); vm_compute; exact I.
  - repeat constructor; intros _; apply (bool_decide_unpack _); vm_compute; exact I.
Defined.

Lemma find_type_misses_witness :
  mkObjectSchema "A" [] [] "" ∈ make_schema [mkObjectSchema "A" [] [] ""; mkObjectSchema (String (ascii_of_nat 195) "") [] [] ""]
  /\ find_type "A" (make_schema [mkObjectSchema "A" [] [] ""; mkObjectSchema (String (ascii_of_nat 195) "") [] [] ""]) = None.
Proof. apply find_type_misses; reflexivity. Defined.

Lemma old_schema_strict : strict_schema [old_person].
Proof. repeat constructor. Defined.
Lemma new_schema_strict : strict_schema [dog; person].
Proof. repeat constructor. Defined.

Lemma compare_reports_differences_witness :
  (forall c, c ∈ compare [old_person] [dog; person] true <-> reported [old_person] [dog; person] true c)
  /\ compare [old_person] [dog; person] true
     = [AddTable dog; AddInitialProperties dog;
        MakePropertyRequired old_person (make_property "age" (Z.lor Int Nullable) false false "");
        RemoveProperty old_person (make_property "height" Float false false "")].
Proof.
  split; [|vm_compute; reflexivity].
  apply (compare_reports_differences [old_person] [dog; person] true old_schema_strict new_schema_strict).
Defined.

Lemma compare_keeps_columns_valid_witness :
  Forall (λ c, (exists o, c = AddInitialProperties o) \/ is_not_remove_property c = false
    /\ (get_removed_column c <= get_removed_column (RemoveProperty old_person (make_property "height" Float false false "")))%Z) [].
Proof.
  apply (compare_keeps_columns_valid [old_person] [dog; person] true
    [AddTable dog; AddInitialProperties dog;
     MakePropertyRequired old_person (make_property "age" (Z.lor Int Nullable) false false "")] []
    (RemoveProperty old_person (make_property "height" Float false false ""))); [vm_compute|]; reflexivity.
Defined.

Lemma compare_reflexive_witness : compare [old_person] [old_person] true = [].
Proof.
  apply (compare_reflexive [old_person] true old_schema_strict). constructor; [|constructor]. split.
  - apply (bool_decide_unpack _). vm_compute. exact I.
  - intros p [->|[->|[]%elem_of_nil]%elem_of_cons]%elem_of_cons Hp; discriminate Hp.
Defined.
