(* ===== verification/StoreTheorems.v ===== *)
(** * The properties of the object store

    Versions, primary keys, columns, the first schema of a file, edits of
    existing tables and renamed properties, over any library that satisfies the
    laws of Core.v. *)

From S2P Require Import Prelude Property ChangeBuilder ObjectSchema SchemaChanges SchemaFacts CompareFacts.
From S2P Require Import Core ReferenceCore ObjectStore SchemaUpdate StoreFacts SchemaCreation.
From S2P Require Import StoreEdits SchemaTheorems.

#[local] Open Scope string_scope.
#[local] Open Scope list_scope.

Section theorems.
Context `{Build, Core, Features, !CoreLaws, Platform, StdOrders, StdPartition}.

(** C34: a new file gets the schema it is asked for, in every mode: for a target
    schema that validates, [apply_schema_changes] ends; the version is set, the
    columns of the target are those of its properties, and the schema read
    back from the file needs no change to be the target. *)
Theorem initial_schema_roundtrip (g : group) m types v mode : enable_sync = false -> store_file g m ->
  (forall t, t ∈ table_names g -> object_type_for_table_name t = "") ->
  validate (make_schema types) = Some [] -> Forall storable types -> is_u64 v ->
  ends (apply_schema_changes NotVersioned (make_schema types) v mode (compare [] (make_schema types) false) None None g)
    (λ r, r.1 = numbered_object <$> make_schema types /\ get_schema_version r.2 = Done v
      /\ ends (schema_from_group r.2) (λ existing,
           os_name <$> existing = os_name <$> make_schema types /\ compare existing (make_schema types) false = [])).
Proof.
  intros Hsync Hfile Hold Hval Hst Hv. set (s := make_schema types) in *.
  destruct (validate_spec s (make_schema_sorted types) Hval) as [Hnd Hvalid].
  assert (strict_schema s) as Hs by (apply strict_sorted; split; [apply make_schema_sorted|done]).
  assert (Forall (creatable s) s) as Hall.
  { rewrite Forall_forall in *. intros o Ho. apply storable_creatable; [by apply Hvalid|]. apply Hst.
    unfold s, make_schema in Ho. by rewrite std_sort_perm in Ho. }
  eapply ends_weaken; [by eapply (apply_initial_schema Hsync g m s v mode)|].
  intros r (Hcols & Hschema & Hver). split_and!; [done|done|]. exists (stored_object <$> s). split_and!; [done| |].
  - rewrite <-list_fmap_compose. apply list_fmap_ext. intros i o _. by apply stored_object_name.
  - by apply compare_stored.
Qed.

(** The version of a file is what was last set, and setting it changes
    nothing but the tables of metadata. *)
Theorem schema_version_roundtrip (g : group) m v : store_file g m -> is_u64 v ->
  ends (set_schema_version g v) (λ g', get_schema_version g' = Done v
    /\ same_but [c_primaryKeyTableName; c_metadataTableName] g g').
Proof.
  intros Hfile Hv. unfold set_schema_version. eapply ends_bind; [by apply create_metadata_tables_spec|].
  intros g1 ([(tbl & Ht & Hmade) _] & Hsame & _).
  eapply ends_weaken; [by eapply (set_version_spec g1 tbl v)|].
  intros g2 [Hver (tbl' & Hu)]. split; [by apply get_schema_version_spec|].
  eapply same_but_trans; [exact Hsame|]. eapply same_but_mono; [by eapply updated_same_but|set_solver].
Qed.

(** C35: the table of primary keys implements a finite map from object types to
    properties: reading looks a key up, setting inserts it, and an empty key
    deletes it. *)
Theorem primary_keys_refine_map (g : group) m object_type key : enable_sync && has_object_ids g = false ->
  pk_represents g m ->
  (forall n, get_primary_key_for_object g n = Done (default "" (m !! n)))
  /\ ends (set_primary_key_for_object g object_type key) (λ g',
       pk_represents g' (if bool_decide (key = "") then delete object_type m else <[object_type := key]> m)
       /\ same_but [c_primaryKeyTableName] g g').
Proof.
  intros Hsync Hm. split; [intros n; by apply get_primary_key_spec|].
  eapply ends_weaken; [by apply set_primary_key_spec|]. intros g' [Hm' (tbl & Hu)].
  split; [done|]. by eapply updated_same_but.
Qed.

(** A column that is inserted for a property is read back as that property:
    the name, the type with its flags, the target of links, and the index. *)
Theorem insert_column_roundtrip (g : group) t tbl p i : persistable p -> link_exists g p -> table g t = Some tbl ->
  i <= length (columns tbl) -> enable_sync && bool_decide (name p = object_id_column_name) = false ->
  ends (insert_column t p i g) (λ g', exists tbl' c, updated g t tbl' g' /\ columns tbl' !! i = Some c
    /\ columns tbl' = vec_insert i c (columns tbl)
    /\ exists p', property_for_column_index c i = Done (Some p') /\ name p' = name p /\ type p' = type p
         /\ Property.object_type p' = Property.object_type p /\ is_indexed p' = requires_index p
         /\ table_column p' = Z.of_nat i).
Proof.
  intros Hp Hlink Ht Hi Hoid. eapply ends_weaken; [by apply insert_column_spec|].
  intros g' Hu. eexists _, (column_of p). split_and!; [exact Hu|by apply lookup_added|done|].
  exists (read_property p i). split_and!; try done; [by apply read_column_of|].
  cbn. destruct Hp as [_ _ _ _ _ Hidx]. destruct (requires_index p); [|by case_match].
  destruct (Hidx eq_refl) as [-> Hi']. unfold type_is_indexable in Hi'.
  destruct (type_eq (type p) Object) eqn:Ho; [|done]. revert Ho Hi'. unfold type_eq.
  intros ->%bool_decide_eq_true. done.
Qed.

(** Making a property optional replaces its column by a nullable one and
    leaves every cell of the table as it was. *)
Theorem make_property_optional_keeps_values (g : group) t tbl p i c ty : table g t = Some tbl ->
  table_column p = Z.of_nat i -> (Z.of_nat i < 2 ^ 64 - 1)%Z -> columns tbl !! i = Some c ->
  persistable (with_type (type_or (type p) Nullable) p) ->
  to_core_type (type_or (type p) Nullable) = Some ty -> is_array (type_or (type p) Nullable) = false ->
  is_nullable (type_or (type p) Nullable) = true -> column_type c = ty -> column_filled ty i tbl ->
  ends (make_property_optional t p g) (λ g',
    updated g t (mkTable (<[i := column_of (with_type (type_or (type p) Nullable) p)]> (columns tbl)) (rows tbl)) g').
Proof. intros. by eapply make_property_optional_spec. Qed.

(** making a list of values optional asserts as soon as the table has a row:
    the values are read from the column of lists with the getter of their own
    type. *)
Theorem make_list_optional_asserts (g : group) t tbl p i c ty : table g t = Some tbl ->
  table_column p = Z.of_nat i -> (Z.of_nat i < 2 ^ 64 - 1)%Z -> columns tbl !! i = Some c ->
  persistable (with_type (type_or (type p) Nullable) p) ->
  to_core_type (type_or (type p) Nullable) = Some ty -> is_array (type_or (type p) Nullable) = true ->
  column_type c = type_Table -> rows tbl <> [] -> make_property_optional t p g = Stuck.
Proof. intros. by eapply make_list_optional_stuck. Qed.

(** The check of a primary key throws exactly when two rows share a key. *)
Theorem primary_key_check_exact (g : group) o p tbl i c : table g (table_name_for_object_type o) = Some tbl ->
  find_index (λ c, bool_decide (column_name c = p)) (columns tbl) = Some i -> columns tbl !! i = Some c ->
  column_type c = type_Int \/ column_type c = type_String ->
  (validate_primary_column o p g = Done tt <-> NoDup (column_cells tbl i))
  /\ (validate_primary_column o p g = Raised (DuplicatePrimaryKeyValue o p) <-> ~ NoDup (column_cells tbl i)).
Proof.
  intros Ht Hi Hc Hty. destruct (validate_primary_column_spec g o p tbl i c Ht Hi Hc Hty) as [Hyes Hno].
  destruct (decide (NoDup (column_cells tbl i))) as [Hd|Hd];
    [rewrite (Hyes Hd)|rewrite (Hno Hd)]; split; split; try done; intros Hn; by destruct Hn.
Qed.

(** Deleting the data of an object type removes its table and its primary
    key and keeps every other table. *)
Theorem delete_data_removes (g : group) m o : enable_sync && has_object_ids g = false -> pk_represents g m ->
  (forall t tbl, t <> table_name_for_object_type o -> table g t = Some tbl ->
     Forall (λ c, link_target c <> table_name_for_object_type o) (columns tbl)) ->
  is_Some (table g (table_name_for_object_type o)) ->
  ends (delete_data_for_object o g) (λ g', table g' (table_name_for_object_type o) = None
    /\ get_primary_key_for_object g' o = Done ""
    /\ forall t, t <> table_name_for_object_type o -> t <> c_primaryKeyTableName -> table g' t = table g t).
Proof.
  intros Hsync Hm Hlinks Ht. eapply ends_weaken; [by apply (delete_data_spec g m o)|].
  intros g' (Hnone & Hm' & Hrest). split_and!; [done| |done].
  by rewrite (get_primary_key_spec g' _ o Hm'), lookup_delete_eq.
Qed.

(** a rename onto another property removes the column of that property and
    gives its name to the renamed column, which is then at its old position or,
    when the removed column came before it, one below. The target schema is
    told the old position in both cases. *)
Theorem rename_property_columns (g : group) s o target j k old new rs p : enable_sync = false ->
  rename_ready g s o target j k old new rs -> j <> k -> p ∈ persisted_properties target ->
  table_column p = Z.of_nat k ->
  ends (rename_property (os_name o) (name old) (name new) (s, g)) (λ r,
    (exists tbl, table r.2 (table_name o) = Some tbl
       /\ columns tbl !! (if bool_decide (k < j) then j - 1 else j) = Some (with_name (name new) (column_of old))
       /\ length (columns tbl) = length (persisted_properties o) - 1)
    /\ exists target', target' ∈ r.1 /\ os_name target' = os_name target
         /\ with_table_column (Z.of_nat j) p ∈ persisted_properties target').
Proof.
  intros Hsync Hready Hne Hp Hpc. pose proof Hready as [Ht _ _ _ Hold Hnew _ Htarget _ _].
  eapply ends_weaken; [by eapply rename_property_spec|]. intros r [Hs Hu]. split.
  - eexists. split_and!; [by eapply updated_table| |].
    + cbn [drop_column_at with_column columns]. unfold vec_erase.
      assert (j < length (persisted_properties o) /\ k < length (persisted_properties o)) as [Hj Hk]
        by (split; by eapply lookup_lt_Some).
      case_bool_decide as Hlt.
      * rewrite lookup_app_r; rewrite length_take, length_alter, length_fmap; [|lia].
        rewrite lookup_drop. replace (S k + (j - 1 - k `min` _)) with j by lia.
        by rewrite list_lookup_alter, decide_True, list_lookup_fmap, Hold.
      * rewrite lookup_app_l; [|rewrite length_take, length_alter, length_fmap; lia].
        rewrite lookup_take_lt by lia. by rewrite list_lookup_alter, decide_True, list_lookup_fmap, Hold.
    + cbn [drop_column_at with_column columns]. unfold vec_erase.
      rewrite length_app, length_take, length_drop, length_alter, length_fmap.
      apply lookup_lt_Some in Hnew. lia.
  - destruct (update_type_spec _ (shift_columns (Z.of_nat k) (Z.of_nat j)) s target Htarget) as (i & Hi & Hupd).
    exists (shift_columns (Z.of_nat k) (Z.of_nat j) target). split_and!; [|done|].
    + rewrite Hs, Hupd. eapply list_elem_of_lookup_2, list_lookup_insert_eq. by eapply lookup_lt_Some.
    + cbn [shift_columns persisted_properties]. apply list_elem_of_fmap. exists p. by rewrite bool_decide_true.
Qed.
End theorems.

(** ** Concrete groups *)

#[local] Existing Instance debug_build.
#[local] Existing Instance signed_char.

(** The store makes the tables itself. *)
Definition without_sync : Features := {| enable_sync := false |}.
#[local] Existing Instance without_sync.

Definition int_column (n : string) (nullable : bool) : Column := mkColumn n type_Int nullable false "" [].
Definition string_column (n : string) (indexed : bool) : Column := mkColumn n type_String false indexed "" [].

(** A table of items with a nullable [b], a required [a] and a required [c]; the
    table of primary keys says that people are known by their name. *)
Definition item_table : Table :=
  mkTable [int_column "b" true; int_column "a" false; int_column "c" false]
    [[VNull; VInt 1; VInt 10]; [VInt 5; VInt 2; VInt 20]].
Definition pk_table : Table :=
  mkTable [string_column "pk_table" true; string_column "pk_property" false] [[VString "Person"; VString "name"]].
Definition person_table : Table :=
  mkTable [string_column "name" true; mkColumn "scores" type_Table false false "" [("!ARRAY_VALUE", type_Int, false)]]
    [[VString "Ann"; VRef 1]; [VString "Bob"; VRef 2]].
Definition sample_group : group :=
  <["class_Item" := item_table]> (<["class_Person" := person_table]> {["pk" := pk_table]}).

(** The items without [a], as they are wanted. *)
Definition wanted_items : Schema :=
  make_schema [mkObjectSchema "Item" [make_property "b" (Z.lor Int Nullable) false false "";
                                      make_property "c" Int false false ""] [] ""].

(** renaming [a] onto the optional [b] that precedes it loses the property
    [c]: the old position of [a], now that of [c], is where the column is made
    optional, so the values of [c] are copied and its column is removed. *)
Theorem rename_loses_property :
  exists s' g' tbl, validate wanted_items = Some []
    /\ rename_property "Item" "a" "b" (set_schema_columns sample_group wanted_items, sample_group) = Done (s', g')
    /\ table g' "class_Item" = Some tbl
    /\ column_name <$> columns tbl = ["b"; "b"] /\ rows tbl = [[VInt 1; VInt 10]; [VInt 2; VInt 20]].
Proof. vm_compute. do 3 eexists. split_and!; reflexivity. Qed.

(** ** Witnesses *)

Lemma sample_primary_keys : pk_represents sample_group {["Person" := "name"]}.
Proof.
  exists pk_table, [("Person", "name")]. split_and!; [vm_compute; reflexivity| |reflexivity].
  split_and!; [by do 2 eexists|reflexivity|apply NoDup_singleton].
Defined.

Lemma empty_file : store_file (∅ : group) ∅.
Proof. split; [intros tbl Ht; discriminate Ht|reflexivity]. Defined.

Lemma sample_file : store_file sample_group {["Person" := "name"]}.
Proof.
  split; [intros tbl Ht; vm_compute in Ht; discriminate Ht|]. change (table sample_group c_primaryKeyTableName)
    with (Some pk_table). right. exists [("Person", "name")]. split; [|reflexivity].
  split_and!; [by do 2 eexists|reflexivity|apply NoDup_singleton].
Defined.

(** Storable, checked on every property. *)
Definition storable_b (o : ObjectSchema) : bool :=
  bool_decide (os_name o ≠ "") && bool_decide (String.length (table_name o) <= max_name_length)
  && forallb (λ p, bool_decide (String.length (name p) <= max_name_length)
       && bool_decide (0 <= type p)%Z && bool_decide (type p < 256)%Z
       && (type_eq (type p) Object || bool_decide (is_Some (to_core_type (type p))))
       && (negb (requires_index p) || negb (is_array (type p)))
       && (negb (bool_decide (name p = primary_key o)) || is_primary p)) (persisted_properties o).

Lemma storable_of_b o : storable_b o = true -> storable o.
Proof.
  unfold storable_b. rewrite !andb_true_iff, !bool_decide_eq_true, forallb_forall. intros [[Hn Hf] Hp].
  split; [done|done| |]; intros p Hin; apply list_elem_of_In, Hp in Hin;
    rewrite !andb_true_iff, !orb_true_iff, !negb_true_iff, !bool_decide_eq_true, ?bool_decide_eq_false in Hin.
  - destruct Hin as [[[[[Hl Hlow] Hhigh] Hk] Hi] _]. split_and!; try done. intros Hr.
    destruct Hi as [Hi|Hi]; [congruence|done].
  - destruct Hin as [_ Hk]. intros Heq. by destruct Hk as [Hk|Hk].
Defined.

Definition persistable_b (p : Property) : bool :=
  bool_decide (String.length (name p) <= max_name_length) && bool_decide (0 <= type p)%Z && bool_decide (type p < 256)%Z
  && (type_eq (type p) Object && eqb (is_nullable (type p)) (negb (is_array (type p)))
      || negb (type_eq (type p) Object) && bool_decide (is_Some (to_core_type (type p))) && bool_decide (object_type p = ""))
  && (negb (requires_index p) || negb (is_array (type p)) && type_is_indexable p).

Lemma persistable_of_b p : persistable_b p = true -> persistable p.
Proof.
  unfold persistable_b. rewrite !andb_true_iff, !bool_decide_eq_true, !orb_true_iff, !andb_true_iff, !negb_true_iff,
    !bool_decide_eq_true, eqb_true_iff. intros [[[[Hn Hl] Hh] Hk] Hi]. split; try done; naive_solver congruence.
Defined.

Lemma initial_schema_roundtrip_witness :
  ends (apply_schema_changes NotVersioned (make_schema [person; dog]) 3 Automatic
          (compare [] (make_schema [person; dog]) false) None None (∅ : group))
    (λ r, r.1 = numbered_object <$> make_schema [person; dog] /\ get_schema_version r.2 = Done 3%Z
      /\ ends (schema_from_group r.2) (λ existing,
           os_name <$> existing = os_name <$> make_schema [person; dog]
           /\ compare existing (make_schema [person; dog]) false = [])).
Proof.
  apply (initial_schema_roundtrip ∅ ∅ [person; dog] 3 Automatic).
  - reflexivity.
  - exact empty_file.
  - intros t Ht. apply elem_of_nil in Ht. destruct Ht.
  - vm_compute. reflexivity.
  - constructor; [|constructor; [|constructor]]; apply storable_of_b; vm_compute; reflexivity.
  - unfold is_u64. lia.
Defined.

Lemma schema_version_roundtrip_witness :
  ends (set_schema_version sample_group 7) (λ g', get_schema_version g' = Done 7%Z
    /\ same_but [c_primaryKeyTableName; c_metadataTableName] sample_group g').
Proof. apply (schema_version_roundtrip sample_group {["Person" := "name"]} 7 sample_file). unfold is_u64. lia. Defined.

Lemma primary_keys_refine_map_witness :
  (forall n, get_primary_key_for_object sample_group n = Done (default "" (({["Person" := "name"]} : gmap string string) !! n)))
  /\ ends (set_primary_key_for_object sample_group "Dog" "chip") (λ g',
       pk_represents g' (if bool_decide ("chip" = "") then delete "Dog" {["Person" := "name"]}
                         else <["Dog" := "chip"]> {["Person" := "name"]})
       /\ same_but [c_primaryKeyTableName] sample_group g').
Proof. apply (primary_keys_refine_map sample_group {["Person" := "name"]} "Dog" "chip"); [reflexivity|exact sample_primary_keys]. Defined.

Definition born : Property := make_property "born" (Z.lor Date Nullable) false true "".

Lemma insert_column_roundtrip_witness :
  ends (insert_column "class_Item" born 1 sample_group) (λ g', exists tbl' c,
    updated sample_group "class_Item" tbl' g' /\ columns tbl' !! 1 = Some c
    /\ columns tbl' = vec_insert 1 c (columns item_table)
    /\ exists p', property_for_column_index c 1 = Done (Some p') /\ name p' = name born /\ type p' = type born
         /\ Property.object_type p' = Property.object_type born /\ is_indexed p' = requires_index born
         /\ table_column p' = Z.of_nat 1).
Proof.
  apply (insert_column_roundtrip sample_group "class_Item" item_table born 1).
  - apply persistable_of_b. vm_compute. reflexivity.
  - intros Ho. discriminate Ho.
  - vm_compute. reflexivity.
  - vm_compute. lia.
  - reflexivity.
Defined.

(** The required property [c] of the items. *)
Definition item_c : Property := with_table_column 2 (make_property "c" Int false false "").

Lemma make_property_optional_keeps_values_witness :
  ends (make_property_optional "class_Item" item_c sample_group) (λ g',
    updated sample_group "class_Item" (mkTable (<[2 := column_of (with_type (type_or (type item_c) Nullable) item_c)]>
      (columns item_table)) (rows item_table)) g').
Proof.
  apply (make_property_optional_keeps_values sample_group "class_Item" item_table item_c 2 (int_column "c" false) type_Int);
    [vm_compute; reflexivity|reflexivity|lia|reflexivity|apply persistable_of_b; vm_compute; reflexivity
    |reflexivity|reflexivity|reflexivity|reflexivity|].
  constructor; [|constructor; [|constructor]]; eexists; split; reflexivity.
Defined.

(** The list of scores of a person. *)
Definition person_scores : Property := with_table_column 1 (make_property "scores" (Z.lor Int Array) false false "").

Lemma make_list_optional_asserts_witness : make_property_optional "class_Person" person_scores sample_group = Stuck.
Proof.
  apply (make_list_optional_asserts sample_group "class_Person" person_table person_scores 1
    (mkColumn "scores" type_Table false false "" [("!ARRAY_VALUE", type_Int, false)]) type_Int);
    [vm_compute; reflexivity|reflexivity|lia|reflexivity|apply persistable_of_b; vm_compute; reflexivity
    |reflexivity|reflexivity|reflexivity|discriminate].
Defined.

Lemma primary_key_check_exact_witness :
  (validate_primary_column "Person" "name" sample_group = Done tt <-> NoDup (column_cells person_table 0))
  /\ (validate_primary_column "Person" "name" sample_group = Raised (DuplicatePrimaryKeyValue "Person" "name")
      <-> ~ NoDup (column_cells person_table 0)).
Proof.
  apply (primary_key_check_exact sample_group "Person" "name" person_table 0 (string_column "name" true));
    [vm_compute; reflexivity|reflexivity|reflexivity|right; reflexivity].
Defined.

Lemma delete_data_removes_witness :
  ends (delete_data_for_object "Person" sample_group) (λ g',
    table g' (table_name_for_object_type "Person") = None
    /\ get_primary_key_for_object g' "Person" = Done ""
    /\ forall t, t <> table_name_for_object_type "Person" -> t <> c_primaryKeyTableName ->
         table g' t = table sample_group t).
Proof.
  apply (delete_data_removes sample_group {["Person" := "name"]} "Person"); [reflexivity|exact sample_primary_keys| |].
  - intros t tbl Hne Ht. apply fmap_Some in Ht as (tbl' & Ht & ->). unfold sample_group in Ht.
    apply (lookup_insert_Some (M := gmap string)) in Ht as [[<- <-]|[_ Ht]]; [repeat constructor; discriminate|].
    apply (lookup_insert_Some (M := gmap string)) in Ht as [[<- <-]|[_ Ht]]; [repeat constructor; discriminate|].
    apply (lookup_singleton_Some (M := gmap string)) in Ht as [<- <-]. repeat constructor; discriminate.
  - vm_compute. eauto.
Defined.

(** The items as they are, and without [c], which is renamed to [a]. *)
Definition items : ObjectSchema :=
  mkObjectSchema "Item" [make_property "b" (Z.lor Int Nullable) false false ""; make_property "a" Int false false "";
                         make_property "c" Int false false ""] [] "".
Definition target_items : ObjectSchema :=
  mkObjectSchema "Item" [with_table_column 0 (make_property "b" (Z.lor Int Nullable) false false "");
                         with_table_column 1 (make_property "a" Int false false "")] [] "".

Lemma rename_property_columns_witness :
  ends (rename_property "Item" "c" "a" ([target_items], sample_group)) (λ r,
    (exists tbl, table r.2 "class_Item" = Some tbl
       /\ columns tbl !! (if bool_decide (1 < 2) then 2 - 1 else 2)
          = Some (with_name "a" (column_of (make_property "c" Int false false "")))
       /\ length (columns tbl) = length (persisted_properties items) - 1)
    /\ exists target', target' ∈ r.1 /\ os_name target' = os_name target_items
         /\ with_table_column (Z.of_nat 2) (with_table_column 1 (make_property "a" Int false false ""))
            ∈ persisted_properties target').
Proof.
  apply (rename_property_columns sample_group [target_items] items target_items 2 1
    (make_property "c" Int false false "") (make_property "a" Int false false "") (rows item_table)
    (with_table_column 1 (make_property "a" Int false false ""))).
  - reflexivity.
  - split.
    + vm_compute. reflexivity.
    + exists {["Person" := "name"]}. split; [exact sample_primary_keys|vm_compute; reflexivity].
    + apply (bool_decide_unpack _). vm_compute. exact I.
    + constructor; [|constructor; [|constructor; [|constructor]]]; apply persistable_of_b; vm_compute; reflexivity.
    + reflexivity.
    + reflexivity.
    + split; reflexivity.
    + vm_compute. reflexivity.
    + vm_compute. reflexivity.
    + vm_compute. reflexivity.
  - discriminate.
  - right. left.
  - reflexivity.
Defined.
