(* ===== verification/RealmTheorems.v ===== *)
(** * The properties of a Realm

    Updates of the schema are atomic, read-only Realms never write, a new file is
    opened again without a write, and the cached schema has the tables and columns
    of the versions it is kept for, as long as the Realms of the process do not
    change the schema; what happens otherwise is shown as well. *)

From S2P Require Import Prelude Property ChangeBuilder ObjectSchema SchemaChanges SchemaFacts CompareFacts.
From S2P Require Import Core ReferenceCore ObjectStore SchemaUpdate StoreFacts SchemaCreation SharedRealm RealmFacts RealmCache.
From S2P Require Import SchemaTheorems StoreTheorems.

#[local] Open Scope string_scope.
#[local] Open Scope list_scope.

(** ** A new file *)
Section new_file.
Context `{Build, HC : Core, Features, !CoreLaws, Platform, StdOrders, StdPartition, HF : !Files}.
Hypothesis without_sync : enable_sync = false.

(** *** Columns as they are numbered *)

Lemma stored_numbered o : stored_object (numbered_object o) = stored_object o.
Proof using Type.
  unfold stored_object, numbered_object. cbn. f_equal. f_equal. apply list_eq. intros i. rewrite !list_lookup_imap.
  by destruct (persisted_properties o !! i).
Qed.

Lemma numbered_names (s : Schema) : os_name <$> (numbered_object <$> s) = os_name <$> s.
Proof using Type. rewrite <-list_fmap_compose. by apply list_fmap_ext. Qed.

Lemma numbered_creatable s o : creatable s o -> creatable (numbered_object <$> s) (numbered_object o).
Proof using Type.
  intros [Hn Hf Hu Hp Hl Hk]. rewrite Forall_forall in Hp, Hl. split; try done.
  - assert (name <$> object_properties (numbered_object o) = name <$> object_properties o) as ->; [|done].
    unfold object_properties, numbered_object. cbn. rewrite !fmap_app. f_equal. apply list_eq. intros i.
    rewrite !list_lookup_fmap, list_lookup_imap. by destruct (persisted_properties o !! i).
  - apply Forall_forall. intros p (i & q & -> & Hq%list_elem_of_lookup_2)%elem_of_lookup_imap_1. destruct (Hp q Hq). by split.
  - apply Forall_forall. intros p (i & q & -> & Hq%list_elem_of_lookup_2)%elem_of_lookup_imap_1 Ho.
    destruct (Hl q Hq Ho) as (target & Ht & Hto). exists (numbered_object target). split; [by apply list_elem_of_fmap_2|done].
  - intros p (i & q & -> & Hq%list_elem_of_lookup_2)%elem_of_lookup_imap_1. exact (Hk q Hq).
Qed.

Lemma compare_stored_numbered s incl : strict_schema s -> Forall (creatable s) s ->
  compare (stored_object <$> s) (numbered_object <$> s) incl = [].
Proof using All.
  intros Hs Hall. replace (stored_object <$> s) with (stored_object <$> (numbered_object <$> s)).
  - apply compare_stored; try done.
    + apply strict_sorted in Hs as [Hsorted Hnd]. apply strict_sorted. unfold sorted_schema in *. by rewrite numbered_names.
    + apply Forall_fmap. eapply Forall_impl; [exact Hall|]. intros o Ho. by apply numbered_creatable.
  - rewrite <-list_fmap_compose. apply list_fmap_ext. intros i o _. apply stored_numbered.
Qed.

(** *** Opening *)

(** A Realm that was just opened. *)
Record fresh (mode : SchemaMode) (w : World) (s : Schema) (v : Z) (r : Realm) : Prop := {
  fr_mode : schema_mode r = mode;
  fr_coordinator : has_coordinator r = true;
  fr_schema : m_schema r = s;
  fr_version : m_schema_version r = v;
  fr_new : m_new_schema r = None;
  fr_dynamic : m_dynamic_schema r = true;
  fr_stage : if read_only mode then exists g, transaction r = ReadOnlyGroup g
    else transaction r = Ready /\ m_schema_transaction_version r = Z.of_nat (latest w);
}.

Lemma opens_uncached mode w g s v : m_cached_schema (schema_cache w) = None -> snapshots w !! latest w = Some g ->
  schema_from_group g = Done s -> get_schema_version g = Done v -> u64 (-1) <> Z.of_nat (latest w) ->
  exists r c, new_Realm mode true w = Some (r, with_cache w c, inr tt) /\ fresh mode w s v r
    /\ (s = [] -> m_cached_schema c = None)
    /\ (read_only mode = false -> c = cache_schema s v (Z.of_nat (latest w)) (schema_cache w)).
Proof using Type.
  intros Hc Hg Hs Hv Hbound. unfold new_Realm. destruct (read_only mode) eqn:Hmode.
  { rewrite Hg. cbn [mbind option_bind]. rewrite Hs, Hv. eexists _, (schema_cache w). split; [by destruct w|].
    split; [|done]. split; try done. rewrite Hmode. by exists g. }
  unfold get_cached_schema. rewrite Hc. cbn [mbind option_bind]. set (r0 := mkRealm mode false Ready [] 0 (u64 (-1)) None true).
  destruct (constructor_reads r0 w g s v) as (r1 & Hread & Ht1 & Hm1 & Hv1 & Hn1 & Hd1 & [[Hbad _]|[Hs1 Hver1]]); try done.
  set (c := cache_schema s v (Z.of_nat (latest w)) (schema_cache w)).
  exists (set_coordinator true (set_transaction Ready r1)), c. split; [|split; [|split; [|done]]].
  - unfold mbind at 1, realm_bind. rewrite Hread. unfold get_realm, on_cache, on_world, on_realm, mbind, realm_bind, option_bind.
    cbn [fst snd]. unfold get_realm. cbn [fst snd]. by rewrite Hs1, Hver1, Hv1.
  - split; try done. by rewrite Hmode.
  - unfold c, cache_schema. intros ->. by case_bool_decide.
Qed.

(** A Realm that knows the schema of the latest version does not read it again. *)
Lemma read_group_knows r w g : transaction r = Ready -> m_schema_transaction_version r = Z.of_nat (latest w) -> snapshots w !! latest w = Some g ->
  read_group (r, w) = Some (set_transaction (Reading (latest w)) r, w, inr g).
Proof using Type.
  intros Ht Htv Hg. set (r1 := set_transaction (Reading (latest w)) r).
  assert (current_group (r1, w) = Some (r1, w, inr g)) as Hcur by (unfold current_group, m_group; cbn; by rewrite Hg).
  assert (begin_read (r, w) = Some (r1, w, inr tt)) as Hbegin.
  { unfold begin_read. rewrite (run_step _ _ _ (r, w) w) by done. rewrite (run_step _ _ _ (r1, w) tt) by done.
    unfold read_schema_from_group_if_needed. rewrite (run_step _ _ _ _ _ Hcur), (run_step _ _ _ (r1, w) r1) by done.
    by rewrite bool_decide_true. }
  assert (verify_open (r, w) = Some (r, w, inr tt)) as Hopen
    by (unfold verify_open; rewrite (run_step _ _ _ (r, w) r) by done; by rewrite Ht).
  unfold read_group. rewrite (run_step _ _ _ _ _ Hopen), (run_step _ _ _ (r, w) r) by done. rewrite Ht.
  by rewrite (run_step _ _ _ _ _ Hbegin).
Qed.

Lemma full_schema_fresh mode w s v r : fresh mode w s v r -> is_Some (snapshots w !! latest w) ->
  exists r', get_full_schema (r, w) = Some (r', w, inr s)
    /\ (read_only mode = false -> r' = set_transaction (Reading (latest w)) r)
    /\ (read_only mode = true -> r' = r).
Proof using Type.
  intros [Hm Hc Hs Hv Hn Hd Hst] [g Hg]. unfold get_full_schema. destruct (read_only mode) eqn:Hmode.
  - destruct Hst as [g0 Ht]. exists r. split; [|done]. unfold get_realm, mbind, realm_bind. cbn [fst]. rewrite Ht.
    unfold mret, realm_ret, get_realm. cbn [fst]. by rewrite Hd, <-Hs.
  - destruct Hst as [Ht Htv]. set (r1 := set_transaction (Reading (latest w)) r). exists r1. split; [|done].
    pose proof (read_group_knows r w g Ht Htv Hg) as Hread. fold r1 in Hread.
    assert (refresh (r, w) = Some (r1, w, inr true)) as Hrefresh.
    { unfold refresh, check_read_write, get_realm, mbind, realm_bind. cbn [fst snd]. rewrite Hm, Hmode. unfold mret, realm_ret.
      cbn [fst snd]. unfold is_in_transaction. rewrite Ht. by rewrite Hread. }
    unfold get_realm, mbind, realm_bind. cbn [fst snd]. rewrite Ht, Hrefresh. unfold get_realm. cbn [fst snd].
    change (m_dynamic_schema r1) with (m_dynamic_schema r). rewrite Hd. unfold mret, realm_ret. by rewrite <-Hs.
Qed.

Lemma update_unneeded mode w s target v r migration_function initialization_function between : fresh mode w s v r ->
  is_Some (snapshots w !! latest w) -> validate target = Some [] -> compare s target false = [] ->
  exists r', update_schema target v migration_function initialization_function false between (r, w) = Some (r', w, inr tt)
    /\ m_schema r' = copy_table_columns_from target s /\ m_dynamic_schema r' = false.
Proof using Type.
  intros Hr Hw Hval Hcmp. destruct (full_schema_fresh _ _ _ _ _ Hr Hw) as (r1 & Hfull & Hyes & Hno).
  assert (m_schema_version r1 = v) as Hv1.
  { destruct (read_only mode); [rewrite Hno by done|rewrite Hyes by done]; apply (fr_version _ _ _ _ _ Hr). }
  exists (set_m_schema (copy_table_columns_from target s) (set_dynamic false r1)). split; [|done].
  unfold update_schema, mbind, realm_bind. cbn [fst snd]. rewrite Hval. cbn [mbind option_bind]. rewrite bool_decide_true by done.
  unfold mret, realm_ret. rewrite Hfull, Hcmp. unfold schema_change_needs_write_transaction, mbind, realm_bind, get_realm.
  cbn [fst snd]. rewrite Hv1, !bool_decide_true by done. done.
Qed.

(** *** The first update *)

Lemma cache_new_schema_uncached r w : has_coordinator r = true -> connected r = true -> m_new_schema r = None ->
  m_cached_schema (schema_cache w) = None ->
  cache_new_schema (r, w) = Some (set_new_schema None (set_schema_transaction_version (version_of_transaction r) r), w, inr tt).
Proof using Type.
  intros Hc Hcon Hn Hcache.
  enough (yields cache_new_schema (r, w) (λ s' x, s' = (set_new_schema None (set_schema_transaction_version (version_of_transaction r) r), w)
    /\ x = inr tt)) as (s' & x & E & -> & ->) by done.
  unfold cache_new_schema. apply yields_realm. cbn [fst]. unfold connected in Hcon.
  destruct (transaction r); try done; (apply yields_bind; unfold with_coordinator; apply yields_realm; cbn [fst]; rewrite Hc;
    eapply yields_on_cache; [cbn [fst snd]; rewrite Hn; unfold advance_schema_cache; by rewrite Hcache|]; apply yields_on_realm; by destruct w).
Qed.

(** The modes in which a Realm writes its schema. *)
Definition writes_schema (mode : SchemaMode) : bool := negb (read_only mode || read_only_alternative mode).

Lemma first_change_needed mode w r target v : fresh mode w [] NotVersioned r -> writes_schema mode = true -> v <> NotVersioned ->
  forall r1 w1, schema_mode r1 = mode -> m_schema_version r1 = NotVersioned ->
  schema_change_needs_write_transaction target (compare [] target false) v (r1, w1)
  = Some (r1, w1, inr (true, compare [] target false)).
Proof using Type.
  intros _ Hmode Hv r1 w1 Hm Hver. unfold schema_change_needs_write_transaction. rewrite (run_step _ _ _ (r1, w1) r1) by done.
  rewrite Hm, Hver, (bool_decide_false (v = NotVersioned)), (bool_decide_true (NotVersioned = NotVersioned)),
    (bool_decide_false (NotVersioned <> NotVersioned)) by (done || (intros Hne; by apply Hne)).
  rewrite !andb_false_r. cbn [andb]. destruct mode; try done.
  destruct (additive_accepts (compare [] target false) (bool_decide (v > NotVersioned)%Z)) as [_ Hacc].
  destruct Hacc as [applies ->].
  - rewrite compare_empty. apply Forall_app. split; apply Forall_fmap, Forall_forall; done.
  - cbn. by destruct applies.
Qed.

Definition begun (r : Realm) (v : nat) (g : group) : Realm :=
  set_new_schema None (set_schema_transaction_version (Z.of_nat v) (set_transaction (Writing v g) r)).

Lemma begin_uncached r w g target v changes : transaction r = Reading (latest w) -> snapshots w !! latest w = Some g ->
  has_coordinator r = true -> m_new_schema r = None -> m_cached_schema (schema_cache w) = None ->
  update_schema_begin target v changes [] (r, w) = Some (begun r (latest w) g, w, inr (Some changes)).
Proof using Type.
  intros Ht Hg Hc Hn Hcache. unfold update_schema_begin. rewrite (run_step _ _ _ (r, w) tt); cycle 1.
  { unfold on_world. rewrite app_nil_r. by destruct w. }
  set (r1 := set_transaction (Writing (latest w) g) r).
  assert (promote_to_write (r, w) = Some (r1, w, inr tt)) as Hpromote.
  { unfold promote_to_write. rewrite (run_step _ _ _ (r, w) r), (run_step _ _ _ (r, w) w) by done. rewrite Ht, Hg.
    rewrite (run_step _ _ _ (r1, w) tt) by done. unfold schema_changed_between, over_versions. by rewrite Nat.sub_diag. }
  rewrite (run_step _ _ _ _ _ Hpromote), (run_step _ _ _ (r1, w) r1) by done. change (m_new_schema r1) with (m_new_schema r).
  rewrite Hn. assert (cache_new_schema (r1, w) = Some (begun r (latest w) g, w, inr tt)) as Hcached
    by (by apply (cache_new_schema_uncached r1 w)).
  by rewrite (run_step _ _ _ _ _ Hcached).
Qed.

(** The whole write: what [apply_schema_changes] makes of the group becomes a snapshot. *)
Lemma write_uncached r w v g version target changes target' g' : transaction r = Writing v g -> writable r -> has_coordinator r = true ->
  m_new_schema r = None -> m_cached_schema (schema_cache w) = None ->
  apply_schema_changes (m_schema_version r) target version (schema_mode r) changes None None g = Done (target', g') ->
  (exists existing, schema_from_group g' = Done existing /\ compare existing target' false = []) ->
  yields (update_schema_write target version changes None None false) (r, w) (λ s' x, x = inr target'
    /\ s'.2 = mkWorld (snapshots w ++ [g']) (schema_cache w) /\ transaction s'.1 = Reading (latest s'.2)).
Proof using Type.
  intros Ht Hw Hc Hn Hcache Happly (existing & Hex & Hcmp). set (r1 := set_transaction (Writing v g') r).
  set (w1 := mkWorld (snapshots w ++ [g']) (schema_cache w)). set (r2 := set_transaction (Reading (latest w1)) r1).
  unfold update_schema_write. apply yields_finally. apply yields_realm. cbn [fst].
  eapply yields_step; [apply read_group_open; [congruence..|unfold m_group; by rewrite Ht]|].
  unfold is_in_transaction. rewrite Ht. eapply yields_step; [done|].
  assert ((if bool_decide (schema_mode r = Additive) then None else None : option migration) = None) as -> by (by case_match).
  rewrite Happly. eapply yields_step; [done|]. eapply yields_step with (s' := (r1, w)) (a := tt).
  { unfold set_group, on_realm. cbn [fst snd]. by rewrite Ht. }
  apply yields_bind, yields_weaken with (P := λ s' x, s' = (r1, w) /\ x = inr tt).
  { destruct (_ || _); [by apply yields_ret|]. apply yields_bind. eapply yields_store; [exact Hex|]. cbn [next].
    rewrite REALM_ASSERT_DEBUG_true by (by apply bool_decide_eq_true). by apply yields_asserts. }
  intros s1 x [-> ->]. cbn [next]. eapply yields_step; [done|].
  assert (commit_transaction (r1, w) = Some (set_new_schema None (set_schema_transaction_version (Z.of_nat (latest w1)) r2), w1, inr tt)) as Hcommit.
  { unfold commit_transaction. rewrite (run_step _ _ _ _ _ (check_write_done r1 w Hw)), (run_step _ _ _ (r1, w) r1) by done.
    cbn [is_in_transaction transaction set_transaction negb r1].
    assert (commit_and_continue_as_read (r1, w) = Some (r2, w1, inr tt)) as Hgo by done.
    rewrite (run_step _ _ _ _ _ Hgo). by apply (cache_new_schema_uncached r2 w1). }
  eapply yields_step; [exact Hcommit|]. apply yields_ret. by eapply yields_is.
Qed.

Lemma update_new_file mode w g0 m types v r : store_file g0 m -> (forall t, t ∈ table_names g0 -> object_type_for_table_name t = "") ->
  validate (make_schema types) = Some [] -> Forall storable types -> is_u64 v -> v <> NotVersioned -> writes_schema mode = true ->
  snapshots w = [g0] -> m_cached_schema (schema_cache w) = None -> fresh mode w [] NotVersioned r ->
  exists g1 r' w', update_schema (make_schema types) v None None false [] (r, w) = Some (r', w', inr tt)
    /\ snapshots w' = [g0; g1] /\ m_schema r' = numbered_object <$> make_schema types /\ m_schema_version r' = v
    /\ schema_from_group g1 = Done (stored_object <$> make_schema types) /\ get_schema_version g1 = Done v
    /\ m_cached_schema (schema_cache w') = None.
Proof using All.
  intros Hfile Hold Hval Hst Hv Hnv Hmode Hw Hcache Hr. set (s := make_schema types) in *.
  destruct (validate_spec s (make_schema_sorted types) Hval) as [Hnd Hvalid].
  assert (strict_schema s) as Hs by (apply strict_sorted; split; [apply make_schema_sorted|done]).
  assert (Forall (creatable s) s) as Hall.
  { rewrite Forall_forall in *. intros o Ho. apply storable_creatable; [by apply Hvalid|]. apply Hst.
    unfold s, make_schema in Ho. by rewrite std_sort_perm in Ho. }
  destruct (apply_initial_schema without_sync g0 m s v mode Hfile Hs Hall Hold Hv) as ([s' g1] & Happly & Hcols & Hschema & Hver).
  cbn [fst snd] in *. subst s'. exists g1.
  enough (yields (update_schema s v None None false []) (r, w) (λ s' x, x = inr tt /\ snapshots s'.2 = [g0; g1]
    /\ m_schema s'.1 = numbered_object <$> s /\ m_schema_version s'.1 = v /\ m_cached_schema (schema_cache s'.2) = None)) as ([r' w'] & x & E & -> & ?)
    by (exists r', w'; tauto).
  assert (latest w = 0) as Hl by (unfold latest; by rewrite Hw).
  assert (snapshots w !! latest w = Some g0) as Hg0 by (by rewrite Hl, Hw).
  destruct (full_schema_fresh _ _ _ _ _ Hr) as (r1 & Hfull & Hr1 & _); [by eexists|].
  assert (read_only mode = false) as Hro by (by destruct mode). rewrite Hr1 in Hfull by done. clear r1 Hr1.
  pose proof Hr as [Hm Hc Hsch Hrv Hn Hd Hstage]. rewrite Hro in Hstage. destruct Hstage as [Ht Htv].
  unfold update_schema. eapply yields_step; [by rewrite Hval|]. rewrite bool_decide_true by done. eapply yields_step; [done|].
  eapply yields_step; [exact Hfull|]. set (r1 := set_transaction (Reading (latest w)) r).
  eapply yields_step; [by eapply first_change_needed|]. cbn [negb].
  eapply yields_step; [by apply begin_uncached|]. set (r2 := begun r1 (latest w) g0). apply yields_bind.
  eapply yields_weaken; [apply (write_uncached r2 w (latest w) g0 v s (compare [] s false) (numbered_object <$> s) g1); try done|].
  - unfold writable. change (schema_mode r2) with (schema_mode r). rewrite Hm. by apply negb_true_iff in Hmode.
  - change (schema_mode r2) with (schema_mode r). change (m_schema_version r2) with (m_schema_version r). by rewrite Hm, Hrv.
  - exists (stored_object <$> s). split; [done|by apply compare_stored_numbered].
  - intros [r3 w3] x (-> & Hw3 & Ht3). cbn [next fst snd] in *. subst w3. rewrite Hw in *. cbn [app] in *.
    unfold update_schema_finish. eapply yields_step; [apply (read_group_open r3 _ g1);
      [congruence..|unfold m_group; by rewrite Ht3]|].
    rewrite Hver. eapply yields_step; [done|]. eapply yields_step; [done|]. by eapply yields_on_cache.
Qed.

Lemma schema_from_new_file g : (forall t, t ∈ table_names g -> object_type_for_table_name t = "") -> schema_from_group g = Done [].
Proof using Type.
  intros Hold. unfold schema_from_group.
  enough (forall l (s : Schema), (forall t, t ∈ l -> object_type_for_table_name t = "") ->
    for_each (λ t schema, let object_type := object_type_for_table_name t in
      if bool_decide (object_type = "") then Done schema
      else tbl ← run (table g t); o ← object_schema_of_table g object_type tbl; Done (schema ++ [o])) l s = Done s) as ->.
  - cbn. f_equal. apply Permutation_nil. symmetry. apply std_sort_perm.
  - by apply Hold.
  - induction l as [|t l IH]; intros s Ht; [done|]. cbn [for_each]. rewrite (bool_decide_true (_ = "")) by (apply Ht; by left).
    cbn. apply IH. intros t' Hin. apply Ht. by right.
Qed.

(** C30: a new file gets the schema of the first Realm in one snapshot, and is
    opened again without another: whatever the mode of the next Realm, in this
    process or another, its [update_schema] with the same schema and version
    succeeds, and writes nothing. *)
Theorem new_file_reopens_unchanged (g0 : group) m types v mode : store_file g0 m ->
  (forall t, t ∈ table_names g0 -> object_type_for_table_name t = "") -> get_schema_version g0 = Done NotVersioned ->
  validate (make_schema types) = Some [] -> Forall storable types -> is_u64 v -> v <> NotVersioned -> writes_schema mode = true ->
  exists g1 r1 w1 r2 w2,
    new_Realm mode true (mkWorld [g0] new_cache) = Some (r1, w1, inr tt)
    /\ update_schema (make_schema types) v None None false [] (r1, w1) = Some (r2, w2, inr tt)
    /\ snapshots w2 = [g0; g1] /\ get_schema_version g1 = Done v
    /\ m_schema r2 = numbered_object <$> make_schema types /\ m_cached_schema (schema_cache w2) = None
    /\ forall mode' c, m_cached_schema c = None -> exists r3 w3 r4,
         new_Realm mode' true (mkWorld [g0; g1] c) = Some (r3, w3, inr tt)
         /\ update_schema (make_schema types) v None None false [] (r3, w3) = Some (r4, w3, inr tt)
         /\ snapshots w3 = [g0; g1]
         /\ m_schema r4 = copy_table_columns_from (make_schema types) (stored_object <$> make_schema types).
Proof using All.
  intros Hfile Hold Hv0 Hval Hst Hv Hnv Hmode.
  destruct (opens_uncached mode (mkWorld [g0] new_cache) g0 [] NotVersioned) as (r1 & c1 & Hopen & Hr1 & Hc1 & _);
    [done|done|by apply schema_from_new_file|done|done|].
  destruct (update_new_file mode (with_cache (mkWorld [g0] new_cache) c1) g0 m types v r1)
    as (g1 & r2 & w2 & Hupdate & Hw2 & Hs2 & Hv2 & Hschema & Hver & Hcache); [done..|by apply Hc1|by destruct Hr1|].
  exists g1, r1, (with_cache (mkWorld [g0] new_cache) c1), r2, w2. split; [exact Hopen|]. split_and!; [done..|]. intros mode' c Hc.
  destruct (opens_uncached mode' (mkWorld [g0; g1] c) g1 (stored_object <$> make_schema types) v) as (r3 & c3 & Hopen3 & Hr3 & _); [done..|].
  set (w3 := with_cache (mkWorld [g0; g1] c) c3) in *.
  destruct (update_unneeded mode' w3 (stored_object <$> make_schema types) (make_schema types) v r3 None None [])
    as (r4 & Hup & Hs4 & _); [by destruct Hr3|by eexists|done| |by exists r3, w3, r4].
  destruct (validate_spec _ (make_schema_sorted types) Hval) as [Hnd Hvalid].
  apply compare_stored; [done|apply strict_sorted; split; [apply make_schema_sorted|done]|].
  rewrite Forall_forall in *. intros o Ho. apply storable_creatable; [by apply Hvalid|]. apply Hst.
  unfold make_schema in Ho. by rewrite std_sort_perm in Ho.
Qed.
End new_file.

(** ** Transactions and the cache *)
Section theorems.
Context `{Build, HC : Core, Features, Platform, StdOrders, StdPartition, HF : !Files}.


(** Changes that a Realm that cannot write accepts: new tables, removals of what it
    does not use, and changes of indexes. *)
Definition tolerable (c : SchemaChange) : bool := is_new_table c || is_table_removal c || is_property_removal c || is_index_change c.

(** The file is as before, no transaction is open, and a Realm whose schema was set
    differs tolerably from the file. *)
Definition only_reads (r : Realm) (w : World) (schema : Schema) (s' : Realm * World) (x : realm_exception + unit) : Prop :=
  snapshots s'.2 = snapshots w /\ is_in_transaction s'.1 = false /\ (x = inr tt -> exists actual s1,
    get_full_schema (r, w) = Some (s1, inr actual) /\ Forall (λ c, tolerable c = true) (compare actual schema false)
    /\ m_schema s'.1 = copy_table_columns_from schema actual).

Lemma read_only_decision schema version actual s : read_only (schema_mode s.1) || read_only_alternative (schema_mode s.1) = true ->
  post (schema_change_needs_write_transaction schema (compare actual schema false) version) s (λ s2 x,
    s2 = s /\ forall b cs, x = inr (b, cs) -> b = false /\ Forall (λ c, tolerable c = true) (compare actual schema false)).
Proof using Type.
  intros Hmode. unfold schema_change_needs_write_transaction. apply post_realm. destruct (_ && _) eqn:Hsame.
  { apply andb_true_iff in Hsame as [_ ->%bool_decide_eq_true]. apply post_ret. split; [done|]. intros b cs [= <- _]. by split. }
  assert (post (_ ← check (verify_compatible_for_immutable_and_readonly (compare actual schema false)); mret (false, compare actual schema false)) s
    (λ s2 x, s2 = s /\ forall b cs, x = inr (b, cs) -> b = false /\ Forall (λ c, tolerable c = true) (compare actual schema false))) as Hchk.
  { apply post_bind, post_check; [|done]. intros [] Hok%readonly_accepts. apply post_ret. split; [done|]. intros b cs [= <- _]. by split. }
  destruct (schema_mode s.1); try done. destruct (bool_decide (version ≠ m_schema_version s.1)); [by apply post_raise|done].
Qed.

Lemma read_only_update schema version migration_function initialization_function between r w :
  read_only (schema_mode r) || read_only_alternative (schema_mode r) = true -> is_in_transaction r = false ->
  post (update_schema schema version migration_function initialization_function false between) (r, w) (only_reads r w schema).
Proof using Type.
  intros Hmode Hin. assert (forall s' e, calm (r, w) s' -> only_reads r w schema s' (inl e)) as Hthrown.
  { intros s' e (Hs & _ & Ht). split_and!; [done|by apply Ht|done]. }
  unfold update_schema. apply post_bind. intros s1 errors He.
  assert (s1 = (r, w)) as -> by (revert He; by destruct (validate schema); [intros [= <- _]|]).
  destruct errors as [e|errors]; [by apply Hthrown|]. cbn [next]. apply post_bind.
  destruct (bool_decide (errors = [])); [|by apply post_raise, Hthrown]. apply post_ret. cbn [next]. apply post_bind.
  intros s1 [e|actual] E; pose proof (calm_get_full_schema _ _ _ E) as Hcalm; cbn [next]; [by apply Hthrown|].
  pose proof Hcalm as (Hs1 & Hm1 & Hin1). cbn [fst snd] in *. apply post_bind.
  eapply post_weaken; [apply read_only_decision; by rewrite Hm1|].
  intros s2 [e|[b cs]] [-> Hb]; cbn [next]; [by apply Hthrown|]. destruct (Hb b cs eq_refl) as [-> Hok]. cbn [negb].
  intros s3 y Hy. destruct (calm_set_schema _ _ _ _ _ Hy) as (Hs3 & _ & Hin3). split_and!; [congruence|by apply Hin3, Hin1|].
  intros _. exists actual, s1. split_and!; [done..|]. by injection Hy as <- _.
Qed.

(** C31: a Realm that cannot write leaves the file as it is, whatever is asked of
    it; and an update of its schema succeeds only for a schema that differs from
    that of the file by new tables, by tables and properties that it does not use,
    and by indexes. *)
Theorem read_only_never_writes (r : Realm) (w : World) :
  read_only (schema_mode r) || read_only_alternative (schema_mode r) = true -> is_in_transaction r = false ->
  (forall o s' x, perform o (r, w) = Some (s', x) -> snapshots s'.2 = snapshots w /\ is_in_transaction s'.1 = false)
  /\ (forall schema version migration_function initialization_function between s' x,
        update_schema schema version migration_function initialization_function false between (r, w) = Some (s', x) ->
        only_reads r w schema s' x).
Proof.
  intros Hmode Hin. split; [|intros schema version mf f between s' x E; by apply (read_only_update _ _ _ _ _ _ _ Hmode Hin _ _ E)].
  intros o s' x E. destruct (perform_frame o _ _ _ E) as (Hs & Hkeep & _). split; [by apply Hs|].
  destruct (decide (o = op_begin_transaction)) as [->|Ho]; [|by apply Hkeep]. revert s' x E Hs Hkeep. cbn [perform].
  assert (post begin_transaction (r, w) (λ s' _, s' = (r, w))) as Hbegin.
  { unfold begin_transaction, check_write. apply post_bind, post_realm. cbn [fst]. rewrite Hmode. by apply post_raise. }
  intros s' x E _ _. by rewrite (Hbegin _ _ E).
Qed.

(** The first look asks for a write, and the second one throws [e]. *)
Definition refused_update (schema : Schema) (version : Z) (between : list group) (r : Realm) (w : World) (e : realm_exception) : Prop :=
  validate schema = Some [] /\ exists s actual changes, get_full_schema (r, w) = Some (s, inr actual)
    /\ schema_change_needs_write_transaction schema (compare actual schema false) version s = Some (s, inr (true, changes))
    /\ refused schema version s (mkWorld (snapshots w ++ between) (schema_cache s.2)) e.

(** C33: an update leaves its write transaction open exactly if others have changed
    the schema before the lock was obtained and the decision on the new schema
    throws, although a transaction that is not committed is meant to be cancelled.
    The application cannot write then. *)
Theorem outdated_update_leaves_transaction (r : Realm) (w : World) schema version migration_function initialization_function between s' x :
  is_in_transaction r = false -> m_new_schema r = None -> well_staged r -> schema_mode r <> ResetFile ->
  Forall readable (snapshots w ++ between) ->
  update_schema schema version migration_function initialization_function false between (r, w) = Some (s', x) ->
  (is_in_transaction s'.1 = true <-> exists e, x = inl e /\ refused_update schema version between r w e)
  /\ (is_in_transaction s'.1 = true ->
       begin_transaction s' = Some (s', inl (InvalidTransaction "The Realm is already in a write transaction"))).
Proof using Type.
  intros Hin Hnew Hstaged Hreset Hall E. revert s' x E.
  change (post (update_schema schema version migration_function initialization_function false between) (r, w) (λ s' x,
    (is_in_transaction s'.1 = true <-> exists e, x = inl e /\ refused_update schema version between r w e)
    /\ (is_in_transaction s'.1 = true ->
       begin_transaction s' = Some (s', inl (InvalidTransaction "The Realm is already in a write transaction"))))).
  set (Q := λ (s' : Realm * World) (x : realm_exception + unit), _).
  assert (forall s' x, is_in_transaction s'.1 = false -> (forall e, ~ refused_update schema version between r w e) -> Q s' x) as Hout.
  { intros s' x Ho Hno. unfold Q. rewrite Ho. split; [|done]. split; [done|]. intros (e & _ & He). by destruct (Hno e). }
  unfold update_schema. apply post_bind. intros s0 errors Hv.
  destruct (validate schema) as [es|] eqn:Hval; cbn [mbind option_bind] in Hv; [|done]. injection Hv as <- <-. cbn [next]. apply post_bind.
  case_bool_decide as Hes; [|apply post_raise, Hout; [done|]; intros e (Hval' & _); congruence].
  subst es. apply post_ret. cbn [next]. apply post_bind. intros s1 y Hfull.
  pose proof (calm_get_full_schema _ _ _ Hfull) as (Hs1 & Hm1 & Hin1). cbn [fst snd] in *. specialize (Hin1 Hin).
  destruct y as [e|actual]; cbn [next]; [apply Hout; [done|]; intros e' (_ & s2 & a & cs & Hf & _); congruence|].
  apply post_bind. intros s2 y Hneeds.
  destruct (needs_post _ _ _ s1 ltac:(congruence) _ _ Hneeds) as [-> Hwr].
  destruct y as [e|[[] changes]]; cbn [next negb].
  - apply Hout; [done|]. intros e' (_ & s3 & a & cs & Hf & Hn & _). rewrite Hfull in Hf. injection Hf as <- <-. congruence.
  - assert (forall g, transaction r <> ReadOnlyGroup g) as Hshared.
    { intros g Hg%Hstaged. unfold writable in Hwr. by rewrite Hm1, Hg in Hwr. }
    pose proof (get_full_schema_post (r, w) Hin Hnew Hshared _ _ Hfull actual eq_refl) as [Ht1 Hn1]. destruct s1 as [r1 w1]. cbn [fst snd] in *.
    assert (forall e, refused schema version (r1, w1) (mkWorld (snapshots w1 ++ between) (schema_cache w1)) e <-> refused_update schema version between r w e) as Href.
    { intros e. rewrite Hs1. split; [intros Hr; split; [done|]; by exists (r1, w1), actual, changes|].
      intros (_ & s3 & a & cs & Hf & _ & Hr). rewrite Hfull in Hf. by injection Hf as <- <-. }
    apply post_bind. eapply post_weaken; [apply post_and; [apply update_schema_begin_post; [done|congruence]|
      apply begin_refuses; [done|congruence|done|done|by rewrite Hs1]]|].
    intros s2 [e|[changes'|]] [(Hm2 & Hs2 & Hx2) Href2]; cbn [next].
    + destruct Href2 as [Hin2 Hr%Href]. unfold Q. rewrite Hin2. split; [split; [|done]; intros _; by exists e|]. intros _. unfold begin_transaction.
      destruct s2 as [r2 w2]. cbn [fst snd] in *. rewrite (run_step _ _ _ _ _ (check_write_done r2 w2 ltac:(unfold writable; by rewrite Hm2))).
      rewrite (run_step _ _ _ (r2, w2) r2) by done. by rewrite Hin2.
    + assert (forall e, ~ refused_update schema version between r w e) as Hno by (intros e; rewrite <- Href; apply Href2). apply post_bind.
      eapply post_weaken; [apply (update_schema_write_post _ _ _ _ _ s2.1 s2.2 s2); [by split_and!|unfold writable; by rewrite Hm2]|].
      intros s3 [e|schema'] (Hm3 & Hin3 & Hs3); cbn [next]; [by apply Hout|]. destruct Hs3 as [_ Ht3].
      eapply post_weaken; [by apply update_schema_finish_post|]. intros s4 y (-> & _ & Ht4). apply Hout; [|done].
      unfold is_in_transaction. by rewrite Ht4, Ht3.
    + apply post_ret, Hout; [done|]. intros e. rewrite <- Href. apply Href2.
  - intros s3 y Hy. destruct (calm_set_schema _ _ _ _ _ Hy) as (_ & _ & Hin3). apply Hout; [by apply Hin3|].
    intros e' (_ & s4 & a & cs & Hf & Hn & _). rewrite Hfull in Hf. injection Hf as <- <-. congruence.
Qed.
(** *** A schema that is no longer true *)

(** A Realm that is opened takes [s] for the schema of the latest version, and does
    not look there. *)
Definition opens_with (s : Schema) (w : World) : Prop := forall mode, read_only mode = false ->
  exists r, new_Realm mode true w = Some (r, w, inr tt) /\ m_schema r = s /\ m_schema_transaction_version r = Z.of_nat (latest w)
    /\ exists r' g, read_group (r, w) = Some (r', w, inr g) /\ snapshots w !! latest w = Some g /\ m_schema r' = s.

Lemma cached_opens w s n lo : schema_cache w = mkCache (Some s) n lo (Z.of_nat (latest w)) -> is_Some (snapshots w !! latest w) -> opens_with s w.
Proof using Type.
  intros Hc [g Hg] mode Hmode. unfold new_Realm. rewrite Hmode. unfold get_cached_schema. rewrite Hc. cbn [m_cached_schema mbind option_bind].
  eexists. split; [reflexivity|]. split_and!; [done..|]. eexists _, g. split; [apply read_group_knows; done|done].
Qed.

(** The Realm [r] writes from the latest version, whose schema is [s] of version [n]. *)
Record begun_on (w : World) (s : Schema) (n : Z) (g0 : group) (r : Realm) (g : group) : Prop := {
  bo_stage : transaction r = Writing (latest w) g;
  bo_coordinator : has_coordinator r = true;
  bo_writable : writable r;
  bo_reset : schema_mode r <> ResetFile;
  bo_new : m_new_schema r = None;
  bo_version : m_schema_transaction_version r = Z.of_nat (latest w);
  bo_group : snapshots w !! latest w = Some g0;
  bo_schema : schema_from_group g0 = Done s;
  bo_schema_version : get_schema_version g0 = Done n;
  bo_something : s <> [] /\ n <> NotVersioned;
  bo_bound : Z.of_nat (latest w) <> u64 (-1);
  bo_cache : (m_schema_transaction_version_max (schema_cache w) <= Z.of_nat (latest w))%Z;
}.

(** The commit of a Realm that has changed the schema since it began, when another one
    has told the cache meanwhile. *)
Lemma commit_tells r w g s n : transaction r = Writing (latest w) g -> has_coordinator r = true -> writable r -> m_new_schema r = None ->
  m_schema_transaction_version r = Z.of_nat (latest w) -> snapshots w <> [] ->
  schema_cache w = mkCache (Some s) n (Z.of_nat (latest w)) (Z.of_nat (latest w)) ->
  exists r2 w2, commit_transaction (r, w) = Some (r2, w2, inr tt) /\ snapshots w2 = snapshots w ++ [g]
    /\ schema_cache w2 = mkCache (Some s) n (Z.of_nat (latest w)) (Z.of_nat (latest w2)).
Proof using Type.
  intros Ht Hc Hw Hn Hv Hne Hcache. set (w1 := mkWorld (snapshots w ++ [g]) (schema_cache w)). set (r1 := set_transaction (Reading (latest w1)) r).
  assert (latest w1 = S (latest w)) as Hl by (by apply latest_snoc).
  unfold commit_transaction. rewrite (run_step _ _ _ _ _ (check_write_done r w Hw)), (run_step _ _ _ (r, w) r) by done.
  unfold is_in_transaction. rewrite Ht. cbn [negb].
  assert (commit_and_continue_as_read (r, w) = Some (r1, w1, inr tt)) as Hcommit.
  { unfold commit_and_continue_as_read. rewrite (run_step _ _ _ (r, w) r) by done. by rewrite Ht. }
  rewrite (run_step _ _ _ _ _ Hcommit). set (c := mkCache (Some s) n (Z.of_nat (latest w)) (Z.of_nat (latest w1))).
  eexists _, (mkWorld (snapshots w ++ [g]) c). split; [|split; [done|done]].
  unfold cache_new_schema. rewrite (run_step _ _ _ (r1, w1) r1) by done. cbn [transaction r1 set_transaction].
  assert (with_coordinator (on_cache (λ c, match m_new_schema r1 with
      | Some new_schema => Some (cache_schema new_schema (m_schema_version r1) (version_of_transaction r1) c)
      | None => advance_schema_cache (m_schema_transaction_version r1) (version_of_transaction r1) c end)) (r1, w1)
    = Some (r1, mkWorld (snapshots w1) c, inr tt)) as Htell.
  { unfold with_coordinator. rewrite (run_step _ _ _ (r1, w1) r1) by done. change (has_coordinator r1) with (has_coordinator r). rewrite Hc.
    unfold on_cache, on_world. cbn [fst snd]. change (m_new_schema r1) with (m_new_schema r). rewrite Hn.
    change (m_schema_transaction_version r1) with (m_schema_transaction_version r). rewrite Hv.
    change (version_of_transaction r1) with (Z.of_nat (latest w1)). unfold advance_schema_cache. cbn [schema_cache w1]. rewrite Hcache.
    cbn [m_cached_schema m_schema_transaction_version_max m_schema_transaction_version_min c_schema_version].
    rewrite REALM_ASSERT_decide by lia. cbn [mbind option_bind]. rewrite bool_decide_false by lia. cbn [mbind option_bind].
    unfold c. repeat f_equal; lia. }
  by rewrite (run_step _ _ _ _ _ Htell).
Qed.

Lemma early_clear r w g0 g s n schema version migration_function initialization_function r' w' : begun_on w s n g0 r g ->
  update_schema schema version migration_function initialization_function true [] (r, w) = Some (r', w', inr tt) -> m_cached_schema (schema_cache w') = None ->
  exists g', transaction r' = Writing (latest w) g' /\ forall mode, read_only mode = false -> exists b w1 r2 w2,
    new_Realm mode true w' = Some (b, w1, inr tt) /\ commit_transaction (r', w1) = Some (r2, w2, inr tt)
    /\ snapshots w2 = snapshots w ++ [g'] /\ opens_with s w2.
Proof using Type.
  intros [Ht Hc Hw Hreset Hn Hv Hg0 Hs Hver [Hs0 Hn0] Hb Hmax] E Hclear.
  assert (is_in_transaction r = true) as Hin by (unfold is_in_transaction; by rewrite Ht).
  destruct (update_stays schema version migration_function initialization_function (r, w) Hin Hreset _ _ E) as (Hsn & Hmx & Hm & Hco & Hnw & Hvt & Htr). cbn [fst snd] in *.
  destruct (Htr _ _ Ht) as [g' Ht']. exists g'. split; [done|]. intros mode Hmode.
  assert (latest w' = latest w) as Hl by (unfold latest; by rewrite Hsn).
  destruct (opens_uncached mode w' g0 s n) as (b & c & Hopen & _ & _ & Hcache); [done|by rewrite Hsn, Hl|done|done|by rewrite Hl|].
  specialize (Hcache Hmode). rewrite Hl in Hcache.
  assert (c = mkCache (Some s) n (Z.of_nat (latest w)) (Z.of_nat (latest w))) as Hceq.
  { rewrite Hcache. unfold cache_schema. rewrite Hmx. rewrite !bool_decide_false by (done || lia). done. }
  set (w1 := with_cache w' c) in *. assert (latest w1 = latest w) as Hl1 by done.
  assert (snapshots w <> []) as Hne by (intros He; by rewrite He in Hg0).
  destruct (commit_tells r' w1 g' s n) as (r2 & w2 & Hcommit & Hsn2 & Hcache2); rewrite ?Hl1; try congruence.
  - cbn. congruence.
  - exact Hceq.
  - exists b, w1, r2, w2. split_and!; [done|done|cbn in Hsn2; by rewrite Hsn2, Hsn|].
    eapply cached_opens; [exact Hcache2|]. rewrite lookup_lt_is_Some. unfold latest. rewrite Hsn2, length_app. cbn. lia.
Qed.


(** A refresh that reads the schema, and one that finds nothing to do but to tell the
    cache of the schema that was noted. *)
Lemma refresh_reads r w g s n : transaction r = Ready -> read_only (schema_mode r) = false -> snapshots w !! latest w = Some g ->
  schema_from_group g = Done s -> get_schema_version g = Done n -> m_schema_transaction_version r <> Z.of_nat (latest w) -> has_coordinator r = true ->
  post refresh (r, w) (λ s' x, s'.2 = mkWorld (snapshots w) (cache_schema s n (Z.of_nat (latest w)) (schema_cache w))
    /\ transaction s'.1 = Reading (latest w) /\ m_schema_version s'.1 = n /\ m_new_schema s'.1 = m_new_schema r
    /\ has_coordinator s'.1 = true /\ schema_mode s'.1 = schema_mode r).
Proof using Type.
  intros Ht Hro Hg Hs Hn Hv Hc. unfold refresh. apply post_bind. unfold check_read_write. apply post_realm. cbn [fst]. rewrite Hro. apply post_ret. cbn [next].
  apply post_realm. unfold is_in_transaction. cbn [fst]. rewrite Ht. apply post_bind. unfold read_group, verify_open. apply post_bind, post_realm. cbn [fst]. rewrite Ht.
  apply post_ret. cbn [next]. apply post_realm. cbn [fst]. rewrite Ht. apply post_bind. eapply post_weaken; [by apply (begin_read_reads r w g s n)|].
  intros s1 [e|[]] Hs1; cbn [next]; [done|]. intros s2 x. unfold current_group. destruct (m_group s1.1 s1.2); [|done]. intros [= <- <-]. cbn [next]. by apply post_ret.
Qed.

Lemma refresh_tells r w s c : transaction r = Reading (latest w) -> read_only (schema_mode r) = false -> m_new_schema r = Some s -> has_coordinator r = true ->
  cache_schema s (m_schema_version r) (Z.of_nat (latest w)) (schema_cache w) = c ->
  exists r', refresh (r, w) = Some (r', mkWorld (snapshots w) c, inr false).
Proof using Type.
  intros Ht Hro Hn Hc <-. unfold refresh, check_read_write, get_realm, mbind, realm_bind. cbn [fst snd]. rewrite Hro. unfold mret, realm_ret. cbn [fst snd].
  unfold is_in_transaction. rewrite Ht. unfold translating. set (r1 := set_transaction (Reading (latest w)) r).
  assert (advance_read (r, w) = Some (r1, w, inr false)) as Hadvance.
  { unfold advance_read. rewrite (run_step _ _ _ (r, w) r), (run_step _ _ _ (r, w) w) by done. rewrite Ht.
    unfold supported_between, schema_changed_between, over_versions. rewrite Nat.sub_diag. cbn [seq fmap list_fmap forallb existsb negb handle_change].
    rewrite (run_step _ _ _ (r1, w) tt), (run_step _ _ _ (r1, w) tt) by done. by rewrite bool_decide_true. }
  rewrite Hadvance. unfold cache_new_schema, get_realm, mbind, realm_bind, with_coordinator, on_cache, on_world, get_realm. cbn [fst snd transaction r1 set_transaction].
  unfold mbind, realm_bind, get_realm. cbn [fst snd]. change (has_coordinator r1) with (has_coordinator r). rewrite Hc.
  change (m_new_schema r1) with (m_new_schema r). rewrite Hn. by eexists.
Qed.

(** The schema that a rollback has noted is told to the cache for a later version. *)
Lemma late_rollback r w g0 g s n gs g1 s1 n1 : begun_on w s n g0 r g -> schema_changed g g0 = true ->
  let w2 := mkWorld (snapshots w ++ gs) (schema_cache w) in
  gs <> [] -> snapshots w2 !! latest w2 = Some g1 -> schema_from_group g1 = Done s1 -> get_schema_version g1 = Done n1 -> n1 <> NotVersioned ->
  exists r1 r2, cancel_transaction (r, w) = Some (r1, w, inr tt) /\ invalidate (r1, w) = Some (r2, w, inr tt)
    /\ forall r3 w3 b, refresh (r2, w2) = Some (r3, w3, inr b) -> exists r4 w4, refresh (r3, w3) = Some (r4, w4, inr false)
         /\ snapshots w4 = snapshots w ++ gs /\ opens_with s w4.
Proof using Type.
  intros [Ht Hc Hw Hreset Hn Hv Hg0 Hs Hver [Hs0 Hn0] Hb Hmax] Hch w2 Hgs Hg1 Hs1 Hn1 Hn1'.
  pose proof (writable_read_write r Hw) as Hrw. set (ra := set_transaction (Reading (latest w)) r).
  destruct (handler_reads ra w g0 s n) as (r1 & Hhandle & Hm1 & Ht1 & _ & Hnew1 & Hc1 & Hv1); [done..|].
  exists r1, (set_transaction Ready r1). split_and!.
  - unfold cancel_transaction. rewrite (run_step _ _ _ _ _ (check_write_done r w Hw)), (run_step _ _ _ (r, w) r) by done.
    unfold is_in_transaction. rewrite Ht. cbn [negb]. unfold rollback_and_continue_as_read.
    rewrite (run_step _ _ _ (r, w) r), (run_step _ _ _ (r, w) w) by done. rewrite Ht, Hg0, (run_step _ _ _ (ra, w) tt) by done. by rewrite Hch.
  - unfold invalidate, verify_open, check_read_write, get_realm, mbind, realm_bind, is_in_transaction. cbn [fst snd]. rewrite Ht1. cbn [transaction ra set_transaction].
    unfold mret, realm_ret. cbn [fst snd]. rewrite Hm1. change (schema_mode ra) with (schema_mode r). rewrite Hrw. cbn [fst snd]. by rewrite ?Ht1.
  - intros r3 w3 b Hrefresh. assert (latest w < latest w2) as Hl.
    { unfold latest, w2. cbn. rewrite length_app. apply lookup_lt_Some in Hg0. unfold latest in Hg0. destruct gs; [done|cbn; lia]. }
    destruct (refresh_reads (set_transaction Ready r1) w2 g1 s1 n1) with (s' := (r3, w3)) (x := inr b : realm_exception + bool)
      as (Hw3 & Ht3 & Hver3 & Hnew3 & Hc3 & Hm3); cbn [fst snd] in *; try done.
    + cbn. by rewrite Hm1.
    + change (m_schema_transaction_version r1 <> Z.of_nat (latest w2)). rewrite Hv1. change (m_schema_transaction_version ra) with (m_schema_transaction_version r). rewrite Hv. lia.
    + cbn. by rewrite Hc1.
    + assert (latest w3 = latest w2) as Hl3 by (by subst w3).
      assert (forall s0 n0 c, s0 <> [] -> n0 <> NotVersioned -> (m_schema_transaction_version_max c <= Z.of_nat (latest w2))%Z ->
        cache_schema s0 n0 (Z.of_nat (latest w2)) c = mkCache (Some s0) n0 (Z.of_nat (latest w2)) (Z.of_nat (latest w2))) as Hcs.
      { intros s0 n0 c ? ? ?. unfold cache_schema. by rewrite !bool_decide_false by (done || lia). }
      destruct (refresh_tells r3 w3 s (mkCache (Some s) n1 (Z.of_nat (latest w2)) (Z.of_nat (latest w2)))) as [r4 Hr4]; try done.
      * by rewrite Hl3.
      * by rewrite Hm3; cbn; rewrite Hm1.
      * by rewrite Hnew3; cbn; rewrite Hnew1.
      * rewrite Hl3, Hver3. apply Hcs; [done..|]. subst w3. cbn [schema_cache]. unfold cache_schema.
        case_bool_decide; [|destruct (_ || _)]; cbn [m_schema_transaction_version_max schema_cache w2]; lia.
      * eexists r4, _. split; [exact Hr4|]. cbn [snapshots]. split; [by rewrite Hw3|].
        eapply (cached_opens _ s n1 (Z.of_nat (latest w2))); [cbn [schema_cache]; unfold latest at 3; cbn [snapshots]; by rewrite Hw3|].
        unfold latest. cbn [snapshots]. rewrite Hw3. cbn [snapshots w2]. by exists g1.
Qed.

(** C32: the cache can tell a Realm the schema of an older version. Let a Realm have
    begun to write from a version whose schema is [s]. When it changes the schema in
    this transaction the cache is cleared before the commit: another Realm that is
    opened in between fills it again, and after the commit Realms are opened with
    [s] for the new version, whatever it has. When it cancels the change instead,
    the schema of the rollback is noted; after [invalidate], commits of others and
    two refreshes Realms are opened with [s] for the version of the others. *)
Theorem stale_schema_is_cached r w g0 g s n : begun_on w s n g0 r g ->
  (forall schema version migration_function initialization_function r' w',
     update_schema schema version migration_function initialization_function true [] (r, w) = Some (r', w', inr tt) ->
     m_cached_schema (schema_cache w') = None ->
     exists g', transaction r' = Writing (latest w) g' /\ forall mode, read_only mode = false -> exists b w1 r2 w2,
       new_Realm mode true w' = Some (b, w1, inr tt) /\ commit_transaction (r', w1) = Some (r2, w2, inr tt)
       /\ snapshots w2 = snapshots w ++ [g'] /\ opens_with s w2)
  /\ (schema_changed g g0 = true -> forall gs g1 s1 n1,
     let w2 := mkWorld (snapshots w ++ gs) (schema_cache w) in
     gs <> [] -> snapshots w2 !! latest w2 = Some g1 -> schema_from_group g1 = Done s1 -> get_schema_version g1 = Done n1 -> n1 <> NotVersioned ->
     exists r1 r2, cancel_transaction (r, w) = Some (r1, w, inr tt) /\ invalidate (r1, w) = Some (r2, w, inr tt)
       /\ forall r3 w3 b, refresh (r2, w2) = Some (r3, w3, inr b) -> exists r4 w4, refresh (r3, w3) = Some (r4, w4, inr false)
            /\ snapshots w4 = snapshots w ++ gs /\ opens_with s w4).
Proof.
  intros Hb. split; [intros *; by eapply early_clear|]. intros Hch gs g1 s1 n1 w2 Hgs Hg1 Hs1 Hn1 Hn. by eapply late_rollback.
Qed.
End theorems.

Section shared_cache.
Context `{Build, HC : Core, HCL : !CoreLaws, Features, Platform, StdOrders, StdPartition, HF : !Files, HL : !FilesLaws}.

(** C29: as long as the Realms of a process do not change the schema themselves,
    what they share about it is true, whatever other processes commit and in which
    order they open, begin, commit, cancel, advance and close: at every version in
    the range of the cached schema the file has the tables and the columns, at the
    places and of the types, that it says (which properties are primary keys or have
    an index may change without a notification), a Realm that reads knows the
    version it reads, none of the operations fails an assertion, and a Realm can be
    opened. *)
Theorem cached_schema_is_true gs st : history gs -> rtc step ([], mkWorld gs new_cache) st ->
  (forall s v, m_cached_schema (schema_cache st.2) = Some s ->
     (m_schema_transaction_version_min (schema_cache st.2) <= Z.of_nat v)%Z -> (Z.of_nat v <= m_schema_transaction_version_max (schema_cache st.2))%Z ->
     schema_at st.2 v s)
  /\ (forall i r, st.1 !! i = Some r -> connected r = true -> coherent st.2 r)
  /\ (forall i r o, st.1 !! i = Some r -> is_Some (perform o (r, st.2)))
  /\ (forall mode, exists r w', new_Realm mode true st.2 = Some (r, w', inr tt)).
Proof.
  intros Hh Hst. assert (sound st) as [Hh' Ht Hr Hw].
  { pose proof (sound_initial gs Hh) as Hs. revert Hs. induction Hst as [|st1 st2 st3 Hstep _ IH]; [done|].
    intros Hs. by apply IH, (sound_step st1). }
  split_and!.
  - intros s v Hs Hmin Hmax. destruct (Ht s Hs) as (top & g & Htop & _ & _ & _ & _ & Hall). apply Hall; [done|].
    unfold cache_max in Htop. lia.
  - intros i r Hi Hcon. by apply (g_realm _ (Hr i r Hi)).
  - intros i r o Hi. destruct (perform_safe o _ (Hr i r Hi)) as (s' & x & E & _). by exists (s', x).
  - intros mode. destruct (new_Realm_good mode st.2 Hh' Ht) as (r & w' & E & _). by exists r, w'.
Qed.
End shared_cache.

(** ** Concrete files *)

#[local] Existing Instance debug_build.
#[local] Existing Instance signed_char.
#[local] Existing Instance without_sync.

#[local] Instance exception_eq_dec : EqDecision ObjectSchemaValidationException.
Proof. solve_decision. Defined.
#[local] Instance store_exception_eq_dec : EqDecision store_exception.
Proof. solve_decision. Defined.
#[local] Instance outcome_eq_dec `{EqDecision A} : EqDecision (outcome A).
Proof. solve_decision. Defined.

#[local] Instance column_eq_dec : EqDecision Column.
Proof. solve_decision. Defined.

(** The columns of the tables, but for their indexes. *)
Definition columns_of (g : tables) : gmap string (list Column) := (λ t, with_search_index false <$> columns t) <$> g.

(** A library that tells of a change exactly when tables or columns differ. *)
#[local] Instance sample_files : Files := {|
  SharedRealm.empty_file := (∅ : group);
  schema_changed g g' := negb (bool_decide (columns_of g = columns_of g'));
  supported _ _ := true;
|}.

#[local] Instance sample_files_laws : FilesLaws.
Proof.
  split.
  - intros g. cbn. by rewrite bool_decide_true.
  - intros g g'. cbn. rewrite negb_false_iff. intros Heq%bool_decide_eq_true t.
    assert (columns_of g !! t = columns_of g' !! t) as Ht by (by rewrite Heq). unfold columns_of in Ht. rewrite !lookup_fmap in Ht.
    change (table g t) with (rectangle <$> (g : tables) !! t). change (table g' t) with (rectangle <$> (g' : tables) !! t).
    destruct ((g : tables) !! t) as [x|], ((g' : tables) !! t) as [y|]; try done. apply (inj Some) in Ht.
    apply list_eq_Forall2, (Forall2_fmap_1 (with_search_index false) (with_search_index false)) in Ht. exact Ht.
Defined.

(** A call that returns. *)
Definition returns {A} (m : realmM A) (s : Realm * World) : option (Realm * World) :=
  match m s with Some (s', inr _) => Some s' | _ => None end.
Definition opens (w : World) : option (Realm * World) :=
  match new_Realm Automatic true w with Some (s', inr _) => Some s' | _ => None end.

Definition people : Schema := make_schema [person; dog].
Definition cats : Schema := make_schema [mkObjectSchema "Cat" [make_property "age" Int false false ""] [] ""].

(** Another process brings the new file to version 2. *)
Definition newer_file : group :=
  default ∅ ('(a, w) ← opens (mkWorld [∅] new_cache);
             '(_, w) ← returns (update_schema people 2 None None false []) (a, w);
             snapshots w !! 1).

(** A Realm makes the file and begins to write; it then changes the schema. *)
Definition no_realm : Realm * World := (mkRealm Automatic true Closed [] 0 0 None true, mkWorld [] new_cache).
Definition writer : Realm * World :=
  default no_realm ('(a, w) ← opens (mkWorld [∅] new_cache);
                    '(a, w) ← returns (update_schema cats 1 None None false []) (a, w);
                    returns begin_transaction (a, w)).
Definition changer : Realm * World := default no_realm (returns (update_schema people 2 None None true []) writer).

Definition group_of (r : Realm) : group := match transaction r with Writing _ g => g | _ => ∅ end.
Definition latest_group (w : World) : group := default ∅ (snapshots w !! latest w).
Definition schema_of (g : group) : Schema := match schema_from_group g with Done s => s | _ => [] end.
Definition version_of (g : group) : Z := match get_schema_version g with Done n => n | _ => NotVersioned end.

Definition readable_b (g : group) : bool := match schema_from_group g, get_schema_version g with Done _, Done _ => true | _, _ => false end.
Definition begun_on_b (s : Realm * World) : bool :=
  let '(r, w) := s in
  match transaction r with Writing v _ => bool_decide (v = latest w) | _ => false end
  && has_coordinator r && negb (read_only (schema_mode r) || read_only_alternative (schema_mode r)) && negb (bool_decide (schema_mode r = ResetFile))
  && negb (bool_decide (is_Some (m_new_schema r))) && bool_decide (m_schema_transaction_version r = Z.of_nat (latest w))
  && bool_decide (latest w < length (snapshots w)) && readable_b (latest_group w)
  && negb (bool_decide (schema_of (latest_group w) = [])) && negb (bool_decide (version_of (latest_group w) = NotVersioned))
  && negb (bool_decide (Z.of_nat (latest w) = u64 (-1)))
  && bool_decide (m_schema_transaction_version_max (schema_cache w) <= Z.of_nat (latest w))%Z.

Lemma readable_of_b g : readable_b g = true -> schema_from_group g = Done (schema_of g) /\ get_schema_version g = Done (version_of g).
Proof. unfold readable_b, schema_of, version_of. by destruct (schema_from_group g), (get_schema_version g). Qed.

Lemma begun_on_of_b s : begun_on_b s = true ->
  begun_on s.2 (schema_of (latest_group s.2)) (version_of (latest_group s.2)) (latest_group s.2) s.1 (group_of s.1).
Proof.
  destruct s as [r w]. unfold begun_on_b. rewrite !andb_true_iff, !negb_true_iff, !bool_decide_eq_true, !bool_decide_eq_false. cbn [fst snd].
  intros [[[[[[[[[[[Ht Hc] Hw] Hreset] Hn] Hv] Hl] [Hs Hver]%readable_of_b] Hs0] Hn0] Hb] Hmax]. split; try done.
  - unfold group_of. destruct (transaction r) as [| | |v g|]; try done. apply bool_decide_eq_true in Ht as ->. done.
  - apply eq_None_not_Some, Hn.
  - unfold latest_group. by destruct (lookup_lt_is_Some_2 (snapshots w) (latest w) Hl) as [g ->].
Qed.

(** ** Witnesses *)

Lemma new_file_reopens_unchanged_witness : exists g1 r1 w1 r2 w2,
  new_Realm Automatic true (mkWorld [∅ : group] new_cache) = Some (r1, w1, inr tt)
  /\ update_schema people 3 None None false [] (r1, w1) = Some (r2, w2, inr tt)
  /\ snapshots w2 = [∅; g1] /\ get_schema_version g1 = Done 3%Z
  /\ m_schema r2 = numbered_object <$> people /\ m_cached_schema (schema_cache w2) = None
  /\ forall mode' c, m_cached_schema c = None -> exists r3 w3 r4,
       new_Realm mode' true (mkWorld [∅; g1] c) = Some (r3, w3, inr tt)
       /\ update_schema people 3 None None false [] (r3, w3) = Some (r4, w3, inr tt)
       /\ snapshots w3 = [∅; g1] /\ m_schema r4 = copy_table_columns_from people (stored_object <$> people).
Proof.
  apply (new_file_reopens_unchanged (eq_refl : enable_sync (Features := without_sync) = false) ∅ ∅ [person; dog] 3 Automatic).
  - exact StoreTheorems.empty_file.
  - intros t Ht. apply elem_of_nil in Ht. destruct Ht.
  - reflexivity.
  - vm_compute. reflexivity.
  - constructor; [|constructor; [|constructor]]; apply storable_of_b; vm_compute; reflexivity.
  - unfold is_u64. lia.
  - discriminate.
  - reflexivity.
Defined.

(** A Realm that was just opened on a new file. *)
Definition new_realm (mode : SchemaMode) : Realm := mkRealm mode true Ready [] NotVersioned 0 None true.
Definition new_world : World := mkWorld [∅ : group] new_cache.

(** How an update of it ends, and the snapshots of the file then. *)
Definition summary (mode : SchemaMode) : option ((realm_exception + unit) * nat) :=
  '(_, w, x) ← update_schema people 3 None None false [] (new_realm mode, new_world); Some (x, length (snapshots w)).

Lemma summary_ends mode x n : summary mode = Some (x, n) -> exists s',
  update_schema people 3 None None false [] (new_realm mode, new_world) = Some (s', x) /\ length (snapshots s'.2) = n.
Proof.
  unfold summary. destruct (update_schema people 3 None None false [] (new_realm mode, new_world)) as [[[r w] y]|]; cbn; [|done].
  intros [= -> <-]. by exists (r, w).
Qed.


Lemma read_only_never_writes_witness :
  (forall o s' x, perform o (new_realm ReadOnlyAlternative, new_world) = Some (s', x) -> snapshots s'.2 = [∅] /\ is_in_transaction s'.1 = false)
  /\ exists s', update_schema people 3 None None false [] (new_realm ReadOnlyAlternative, new_world) = Some (s', inr tt)
     /\ only_reads (new_realm ReadOnlyAlternative) new_world people s' (inr tt).
Proof.
  destruct (read_only_never_writes (new_realm ReadOnlyAlternative) new_world eq_refl eq_refl) as [Hop Hup]. split; [exact Hop|].
  destruct (summary_ends ReadOnlyAlternative (inr tt) 1) as (s' & E & _); [vm_compute; reflexivity|].
  exists s'. split; [exact E|]. exact (Hup _ _ _ _ _ _ _ E).
Defined.

Lemma new_history : history [∅ : group].
Proof.
  split; [discriminate| |].
  - constructor; [|constructor]. exists [], NotVersioned. split; vm_compute; reflexivity.
  - intros i j g g' _ Hi%list_lookup_singleton_Some Hj%list_lookup_singleton_Some Hv. destruct Hi as [_ <-], Hj as [_ <-]. exact Hv.
Defined.

(** Two Realms are opened, and the first one begins to write. *)
Lemma cached_schema_is_true_witness : exists st, rtc step ([], mkWorld [∅ : group] new_cache) st /\ length st.1 = 2
  /\ (forall s v, m_cached_schema (schema_cache st.2) = Some s ->
        (m_schema_transaction_version_min (schema_cache st.2) <= Z.of_nat v)%Z ->
        (Z.of_nat v <= m_schema_transaction_version_max (schema_cache st.2))%Z -> schema_at st.2 v s)
  /\ (forall i r, st.1 !! i = Some r -> connected r = true -> coherent st.2 r)
  /\ (forall i r o, st.1 !! i = Some r -> is_Some (perform o (r, st.2)))
  /\ (forall mode, exists r w', new_Realm mode true st.2 = Some (r, w', inr tt)).
Proof.
  destruct (new_Realm_good Automatic (mkWorld [∅ : group] new_cache) new_history) as (r1 & w1 & E1 & Hg1 & _ & _ & Hin1); [discriminate|].
  destruct (new_Realm_good Additive w1 (g_history _ Hg1) (g_cache _ Hg1)) as (r2 & w2 & E2 & Hg2 & Hgr2 & Hs2 & Hin2).
  assert (good (r1, w2)) as Hg12 by (apply (good_grown r1 w1); [exact Hg1|exact Hgr2|apply Hg2|apply Hg2|congruence]).
  destruct (perform_safe op_begin_transaction (r1, w2) Hg12) as ([r3 w3] & x & E3 & _ & _).
  exists ([r3; r2], w3).
  assert (rtc step ([], mkWorld [∅ : group] new_cache) ([r3; r2], w3)) as Hrun.
  { eapply rtc_l; [exact (step_open [] _ Automatic r1 w1 E1)|]. eapply rtc_l; [exact (step_open [r1] w1 Additive r2 w2 E2)|].
    eapply rtc_l; [|apply rtc_refl]. apply (step_perform [r1; r2] w2 0 r1 op_begin_transaction r3 w3 x eq_refl); [|exact E3].
    intros _ j r Hne Hj. destruct j as [|[|j]]; [done| |discriminate]. injection Hj as <-. exact Hin2. }
  split; [exact Hrun|]. split; [reflexivity|]. exact (cached_schema_is_true [∅ : group] ([r3; r2], w3) new_history Hrun).
Defined.

(** The first Realm asks for version 1 of a file that is at version 2 by then. *)
Lemma outdated_update_leaves_transaction_witness : exists s' x, update_schema cats 1 None None false [newer_file] (new_realm Automatic, new_world) = Some (s', x)
  /\ is_in_transaction s'.1 = true /\ exists e, x = inl e /\ refused_update cats 1 [newer_file] (new_realm Automatic) new_world e.
Proof.
  assert (match update_schema cats 1 None None false [newer_file] (new_realm Automatic, new_world) with Some (s', _) => is_in_transaction s'.1 | None => false end = true)
    as Hopen by (vm_compute; reflexivity).
  destruct (update_schema cats 1 None None false [newer_file] (new_realm Automatic, new_world)) as [[s' x]|] eqn:E; [|discriminate Hopen].
  exists s', x. split; [reflexivity|]. split; [exact Hopen|].
  destruct (outdated_update_leaves_transaction (new_realm Automatic) new_world cats 1 None None [newer_file] s' x) as [[Hthrown _] _];
    [reflexivity|reflexivity|discriminate|discriminate| |exact E|exact (Hthrown Hopen)].
  constructor; [|constructor; [|constructor]].
  - exists [], NotVersioned. split; vm_compute; reflexivity.
  - exists (schema_of newer_file), (version_of newer_file). apply readable_of_b. vm_compute. reflexivity.
Defined.

Definition names_of (g : group) : list string := os_name <$> schema_of g.

(** The Realm commits its change, or cancels it and others bring the file to version 2. *)
Lemma stale_schema_is_cached_witness :
  (exists s w2 g, opens_with s w2 /\ last (snapshots w2) = Some g /\ os_name <$> s = ["Cat"] /\ names_of g = ["Cat"; "Dog"; "Person"])
  /\ (exists s w4, opens_with s w4 /\ last (snapshots w4) = Some newer_file /\ os_name <$> s = ["Cat"] /\ names_of newer_file = ["Dog"; "Person"]).
Proof.
  assert (begun_on_b writer = true) as Hwriter by (vm_compute; reflexivity).
  assert (begun_on_b changer = true) as Hchanger by (vm_compute; reflexivity).
  split.
  - destruct (stale_schema_is_cached _ _ _ _ _ _ (begun_on_of_b writer Hwriter)) as [Hcommit _].
    assert (match returns (update_schema people 2 None None true []) writer with Some (_, w) => m_cached_schema (schema_cache w) | None => Some [] end = None)
      as Hclear by (vm_compute; reflexivity).
    assert (match returns (update_schema people 2 None None true []) writer with Some (r, _) => names_of (group_of r) | None => [] end = ["Cat"; "Dog"; "Person"])
      as Hnames by (vm_compute; reflexivity).
    unfold returns in Hclear, Hnames. destruct (update_schema people 2 None None true [] writer) as [[[r' w'] [e|[]]]|] eqn:E; [discriminate Hnames| |discriminate Hnames].
    destruct (Hcommit people 2%Z None None r' w') as (g' & Ht & Hmodes); [rewrite <- (surjective_pairing writer); exact E|exact Hclear|].
    destruct (Hmodes Automatic eq_refl) as (b & w1 & r2 & w2 & _ & _ & Hs & Hopens).
    exists (schema_of (latest_group writer.2)), w2, g'. split; [exact Hopens|]. split; [rewrite Hs; apply last_snoc|].
    split; [vm_compute; reflexivity|]. unfold group_of in Hnames. rewrite Ht in Hnames. exact Hnames.
  - destruct (stale_schema_is_cached _ _ _ _ _ _ (begun_on_of_b changer Hchanger)) as [_ Hcancel].
    destruct (readable_of_b newer_file) as [Hs1 Hn1]; [vm_compute; reflexivity|].
    destruct (Hcancel ltac:(vm_compute; reflexivity) [newer_file] newer_file (schema_of newer_file) (version_of newer_file)) as (r1 & r2 & E1 & E2 & Hrefresh);
      [discriminate| |exact Hs1|exact Hn1|vm_compute; discriminate|].
    { unfold latest. cbn [snapshots]. rewrite length_app. cbn [length]. apply list_lookup_middle. lia. }
    assert (match '(a, w) ← returns cancel_transaction changer; '(a, w) ← returns invalidate (a, w);
        returns refresh (a, mkWorld (snapshots w ++ [newer_file]) (schema_cache w)) with Some _ => true | None => false end = true) as Hrun by (vm_compute; reflexivity).
    rewrite (surjective_pairing changer) in Hrun. unfold returns in Hrun. rewrite E1 in Hrun. cbn [mbind option_bind] in Hrun. rewrite E2 in Hrun. cbn [mbind option_bind] in Hrun.
    destruct (refresh (r2, mkWorld (snapshots changer.2 ++ [newer_file]) (schema_cache changer.2))) as [[[r3 w3] [e|b]]|] eqn:E3; [discriminate Hrun| |discriminate Hrun].
    destruct (Hrefresh r3 w3 b eq_refl) as (r4 & w4 & _ & Hs & Hopens). exists (schema_of (latest_group changer.2)), w4. split; [exact Hopens|].
    split; [rewrite Hs; apply last_snoc|]. split; vm_compute; reflexivity.
Defined.
