(* ===== verification/SyncTheorems.v ===== *)
(** * The properties of the sync sessions

    What holds of a session whatever the interleaving of its threads, what its
    methods do when nothing interferes, what its notifiers visit, and five
    schedules on which it goes wrong. *)

From stdpp Require Import strings.
From S2P Require Import Prelude SyncConfig SyncNotifiers SyncSession SyncSpec SyncRefinement SyncReach.
From S2P Require Import SyncReach SyncRuns.

Section theorems.
Context `{HB : Build, HS : Surroundings, HP : PackageOrder}.

(** C15: in every reachable system, the next task of a thread is a sequence of
    moves of the specification: it changes the state, the session of the
    library, the queues and the waits only as they allow, its events are theirs,
    and the handlers it was given and leaves behind are the ones they account
    for. *)
Theorem session_refines_spec x i t rest w' new : REALM_ASSERTIONS_ENABLED = true ->
  reachable x -> threads x !! i = Some (t :: rest) -> run t (world x) = Some (w', new) ->
  performs (world x) (in_flight t) (flight new) w'.
Proof.
  intros He Hx%reachable_ok Hi Hr; [|done]. destruct (threads_run _ _ _ _ Hi) as (others & Ht & _).
  apply run_performs; [done|apply Hx| |done].
  intros d u ->. apply (ok_restore _ Hx d u). unfold tasks. rewrite Ht. by left.
Qed.

(** C17: whatever the threads do, the state changes only along the transitions
    that the comment on [SyncSession::State] documents, from [Inactive] to where
    it is. *)
Theorem only_documented_transitions x : REALM_ASSERTIONS_ENABLED = true -> reachable x ->
  state_path Inactive (trace (world x)) (m_state (session (world x))).
Proof. intros He Hx%reachable_ok; [|done]. apply Hx. Qed.

(** C16: every completion handler given to a session is in exactly one place: it
    has been called, or it has been destroyed, or it is queued, or a thread is
    about to call it or to put it back. None is called twice. *)
Theorem completion_handlers_accounted x : REALM_ASSERTIONS_ENABLED = true -> reachable x ->
  registered (trace (world x)) ≡ₚ
    called (trace (world x)) ++ discarded (trace (world x))
    ++ m_download_completion_callbacks (session (world x)) ++ m_upload_completion_callbacks (session (world x))
    ++ flight (concat (threads x)).
Proof.
  intros He Hx%reachable_ok; [|done]. pose proof (ok_handlers _ Hx) as Hh. unfold queued in Hh.
  by rewrite <- app_assoc in Hh.
Qed.

(** C18: in [Active] and [Dying] the library owes the session the end of a wait
    for every direction in which handlers are queued, a wait on the current
    session whose end calls them, or a thread is about to end one. (As long as
    there has been no client resync.) *)
Theorem queued_handlers_have_wait x d : REALM_ASSERTIONS_ENABLED = true -> reachable x ->
  m_client_resync_counter (session (world x)) = 0%Z ->
  m_state (session (world x)) = Active \/ m_state (session (world x)) = Dying ->
  callbacks d (session (world x)) <> [] ->
  (exists y, y ∈ waits (world x) /\ Some (w_session y) = m_session (session (world x))
     /\ w_handler y = completion_handler 0 d)
  \/ (exists ec, Wait_ended (completion_handler 0 d) ec ∈ concat (threads x)).
Proof.
  intros He Hx%reachable_ok H0 Hst Hq; [|done]. pose proof (ok_covered _ Hx H0) as Hc. unfold covered, has_wait in Hc.
  specialize (Hc d Hst). cbn in Hc. rewrite H0 in Hc. destruct Hc as [Hc|Hc]; [by destruct d|by left|right].
  apply list_elem_of_bind in Hc as (t & Hh & Ht). destruct t; try by apply elem_of_nil in Hh.
  apply list_elem_of_singleton in Hh as <-. by eexists.
Qed.

(** A session that is [Dying] waits for the end of an upload on its current
    session; that end makes it [Inactive], and the end of a wait of an earlier
    time in [Dying] does nothing, the waits being told apart by their numbers. *)
Theorem dying_ends_by_its_own_wait x : REALM_ASSERTIONS_ENABLED = true -> reachable x ->
  (Z.of_nat (dyings (trace (world x))) < 2 ^ 64)%Z -> m_state (session (world x)) = Dying ->
  let count := m_death_count (session (world x)) in
  NoDup (death_counts ((w_handler <$> waits (world x)) ++ ending (concat (threads x))))
  /\ has_wait (ending (concat (threads x))) (core (world x)) (death_handler count)
  /\ (forall ec, exists w' new, run (Wait_ended (death_handler count) ec) (world x) = Some (w', new)
        /\ m_state (session w') = Inactive)
  /\ (forall n ec, n <> count -> run (Wait_ended (death_handler n) ec) (world x) = Some (world x, [])).
Proof.
  intros He Hx%reachable_ok Hn Hst count; [|done]. destruct (ok_deaths _ Hx Hn) as [_ [_ Hd Hw]].
  split_and!; [done|by apply Hw| |]; cbn [run]; unfold death_ended, mbind, M_bind, get.
  - intros _. rewrite Hst, !bool_decide_true by done. cbn [andb]. rewrite advance_stops by by rewrite Hst. by do 2 eexists.
  - intros n _ Hne. rewrite (bool_decide_false (m_death_count _ = n)) by auto. by rewrite andb_false_r.
Qed.

(** C19: in every reachable system a task fails, by an assertion or undefined
    behaviour, exactly in these cases: the manager does not have the session any
    more; a resync starts or an error ends in a session that is already
    inactive, or the count of resyncs overflows; a new configuration is for
    another Realm; the file of a session without a user or URL is to be marked;
    an invocation of the connection callbacks has lost count of them. *)
Theorem session_fails_exactly x t : REALM_ASSERTIONS_ENABLED = true -> reachable x ->
  run t (world x) = None <-> stuck (world x) t.
Proof. intros He Hx%reachable_ok; [|done]. by apply run_stuck, Hx. Qed.

(** [update_configuration] ends: the session has the new configuration, waits
    for a token and has asked for it, and the handlers that were queued in the
    session that was active have been called, the downloads first. *)
Theorem update_configuration_ends c w : core_ok (core w) -> m_sessions w = true ->
  idle (m_connection_change_notifier (session w)) ->
  user (m_config (session w)) = user c -> reference_realm_url (m_config (session w)) = reference_realm_url c ->
  is_partial (m_config (session w)) = is_partial c ->
  exists fuel w', run_all fuel [Update_configuration c] w = Some w'
    /\ m_config (session w') = c /\ m_state (session w') = WaitingForAccessToken /\ m_session (session w') = None
    /\ last (trace w') = Some (ev_bind_session_handler (bind_session_handler c) c)
    /\ (m_state (session w) <> Inactive ->
         called (trace w') = called (trace w) ++ m_download_completion_callbacks (session w)
           ++ m_upload_completion_callbacks (session w)).
Proof.
  intros Hok Hm Hi Hu Hr Hp. destruct (update_completes c w Hok Hm Hi Hu Hr Hp) as (w' & [fuel Hf] & H1 & H2 & H3 & H4 & H5).
  exists fuel, w'. split_and!; [done..|]. intros Hst. by apply H5.
Qed.

(** An error that requests a client reset, in a mode other than [Manual],
    ends with a session that waits for a token and will be created with a forced
    reset; the handlers are queued as before and none has been called, and the
    waits of the old session end without effect. *)
Theorem resync_keeps_handlers e w : core_ok (core w) ->
  m_state (session w) = WaitingForAccessToken \/ m_state (session w) = Active ->
  is_client_reset_requested e = true -> client_resync_mode (m_config (session w)) <> Manual ->
  (m_client_resync_counter (session w) < 2 ^ 31 - 1)%Z ->
  m_sessions w = true -> idle (m_connection_change_notifier (session w)) ->
  exists fuel w', run_all fuel [Handle_error e] w = Some w'
    /\ m_state (session w') = WaitingForAccessToken /\ m_session (session w') = None
    /\ m_force_client_resync (session w') = true
    /\ m_download_completion_callbacks (session w') = m_download_completion_callbacks (session w)
    /\ m_upload_completion_callbacks (session w') = m_upload_completion_callbacks (session w)
    /\ called (trace w') = called (trace w)
    /\ (forall d ec, run (Wait_ended (completion_handler (m_client_resync_counter (session w)) d) ec) w' = Some (w', [])).
Proof.
  intros Hok Hst He Hmode Hk Hm Hi.
  destruct (resync_completes e w Hok Hst He Hmode Hk Hm Hi) as (w' & [fuel Hf] & H1 & H2 & H3 & H4 & H5 & H6 & _ & H8).
  exists fuel, w'. split_and!; [done..|]. intros d ec. cbn [run]. unfold completion_ended, mbind, M_bind, get.
  rewrite H8, bool_decide_true by lia. reflexivity.
Qed.

(** An invocation of the connection callbacks calls them in the order of
    their registration, each once, except those that one called before has
    removed. *)
Theorem invocation_survives_removal act s : idle s ->
  exists s', invoke_removing (S (length (m_callbacks s))) act s = Some (s', visit act [] (m_callbacks s))
    /\ m_callback_index s' = npos.
Proof. apply invoke_removing_visits. Qed.

(** an update of the progress calls every registered notifier once,
    whatever the order in which the map is visited, and keeps exactly those that
    have not expired; one that has been registered for a single transfer expires
    when as many bytes have been transferred as were expected. *)
Theorem update_visits_notifiers downloaded downloadable uploaded uploadable dv sv s s' invs : dv <> 0%Z ->
  update downloaded downloadable uploaded uploadable dv sv s = (s', invs) ->
  let cur := mkProgress uploadable downloadable uploaded downloaded sv in
  (forall t, m_packages s' !! t = m_packages s !! t ≫= updated_package cur)
  /\ invs ≡ₚ package_invocation cur <$> (snd <$> map_to_list (m_packages s))
  /\ (forall p total, captured_transferrable p = Some total ->
       updated_package cur p = if is_streaming p then Some p
         else if bool_decide (total <= if is_download p then downloaded else uploaded)%Z then None else Some p).
Proof.
  intros Hdv Hu cur. unfold update in Hu. rewrite bool_decide_false in Hu by done. fold cur in Hu.
  destruct (update_packages cur (m_packages s)) as [ps invs0] eqn:Hp. simplify_eq. cbn [m_packages].
  pose proof (update_packages_spec cur (m_packages s)) as [Hm Hi]. rewrite Hp in Hm, Hi. split_and!; [done..|].
  intros p total Ht. unfold updated_package, create_invocation, invoke_with. rewrite Ht.
  by destruct (is_streaming p), (is_download p).
Qed.
End theorems.

(** ** Concrete schedules *)

#[local] Existing Instance debug_build.

#[local] Instance some_surroundings : Surroundings :=
  {| user_identity := λ _, "alice"; partial_sync_identifier := λ _, "0"; recovery_file_path := λ _, "recovered";
     has_metadata_manager := true |}.

#[local] Instance some_order : PackageOrder :=
  {| package_order := map_to_list; package_order_perm := λ m, reflexivity (map_to_list m) |}.

Definition sample_config : SyncConfig :=
  mkSyncConfig (Some 0) "realm://host/r" AfterChangesUploaded 0 (Some 1) None None true None None None false None true None []
    None None Recover.

Definition sample_start : System := mkSystem (initial_world "/r" sample_config false false) [].

Lemma sample_reachable l x : schedule l sample_start = Some x -> reachable x.
Proof. apply schedule_reachable, reachable_initial. by exists "/r", sample_config, false, false. Qed.

(** A call that runs at once, as the thread [i], in [n] steps. *)
Definition at_once (i : nat) (n : nat) (t : task) : list label := l_start t :: repeat (l_run i) n.

(** The session is referenced, revived and given a token: it is [Active]. *)
Definition activate : list label :=
  at_once 0 1 External_reference ++ at_once 1 2 Revive_if_needed
  ++ at_once 2 1 (Refresh_access_token "token" (Some "realm://host/r")).

Definition protocol_error (code : Z) : SyncError := sync_error (mkErrorCode protocol_error_category code) "" true.

(** What the connection callbacks have been told. *)
Definition connection_changes (l : list event) : list (nat * ConnectionState * ConnectionState) :=
  l ≫= λ e, match e with ev_connection_change c old new => [(c, old, new)] | _ => [] end.

(** A callback that logs the session out when it hears of the connection. *)
Definition nested_schedule : list label :=
  activate ++ at_once 3 1 (Register_connection_change_callback 7)
  ++ at_once 4 3 (Connection_state_changed Connected None)
  ++ at_once 5 4 Log_out
  ++ repeat (l_run 4) 3.

(** a connection callback that makes the connection change is not told of
    that change, and after it is called a second time with the old one: the last
    it hears is that the session is connected, which it is not. *)
Theorem nested_change_repeats : exists x, reachable x
  /\ concat (threads x) = [] /\ m_connection_state (session (world x)) = Disconnected
  /\ connection_changes (trace (world x)) = [(7, Disconnected, Connected); (7, Disconnected, Connected)].
Proof.
  destruct (schedule nested_schedule sample_start) as [x|] eqn:Hx; [|by vm_compute in Hx].
  exists x. split; [by eapply sample_reachable|]. vm_compute in Hx. simplify_eq. by vm_compute.
Qed.

(** A handler queued after a logout and a login. *)
Definition stale_wait_schedule : list label :=
  activate ++ at_once 3 1 (Wait_for_completion upload 1)
  ++ at_once 4 3 Log_out
  ++ at_once 5 2 Revive_if_needed ++ at_once 6 1 (Refresh_access_token "token" None)
  ++ at_once 7 1 (Wait_for_completion upload 2)
  ++ [l_wait 0 operation_aborted; l_run 8; l_run 8].

(** after a logout and a new login, the end of a wait of the old session,
    which the library cancels, aborts a handler that was queued for the new
    session; the session is active and its own wait has not ended. *)
Theorem stale_wait_aborts_handler : exists x, reachable x
  /\ m_state (session (world x)) = Active /\ m_session (session (world x)) = Some 1
  /\ waits (world x) = [mkWait 1 upload (completion_handler 0 upload)]
  /\ ev_completed 2 operation_aborted ∈ trace (world x).
Proof.
  destruct (schedule stale_wait_schedule sample_start) as [x|] eqn:Hx; [|by vm_compute in Hx].
  exists x. split; [by eapply sample_reachable|]. vm_compute in Hx. simplify_eq. cbn. split_and!; [done..|].
  repeat first [apply list_elem_of_here|apply list_elem_of_further].
Qed.

(** An error that is reported after the session has been logged out. *)
Definition late_error_schedule : list label :=
  activate ++ at_once 3 2 Log_out
  ++ at_once 4 5 (Connection_state_changed Disconnected (Some (protocol_error ProtocolError_permission_denied))).

(** an error that arrives after a logout, for which the session is to become
    inactive, fails an assertion, since it is inactive already. *)
Theorem late_error_asserts : exists x i t rest, reachable x
  /\ threads x !! i = Some (t :: rest) /\ m_state (session (world x)) = Inactive /\ run t (world x) = None.
Proof.
  destruct (schedule late_error_schedule sample_start) as [x|] eqn:Hx; [|by vm_compute in Hx].
  assert (Hr : reachable x) by by eapply sample_reachable.
  vm_compute in Hx. simplify_eq. eexists _, 4, _, _. split; [exact Hr|]. by split_and!.
Qed.

(** A handler that is queued while a resync is under way, as by a callback of
    the connection. *)
Definition resync_schedule : list label :=
  activate ++ at_once 3 5 (Connection_state_changed Disconnected (Some (protocol_error ProtocolError_bad_client_file_ident)))
  ++ at_once 4 1 (Wait_for_completion download 5)
  ++ repeat (l_run 3) 3.
(** the handlers that are queued between the end of the old session and the
    return of the handlers a resync has set aside are destroyed: they are never
    called. *)
Theorem resync_discards_handler : exists x, reachable x
  /\ m_state (session (world x)) = WaitingForAccessToken /\ queued (core (world x)) = []
  /\ flight (concat (threads x)) = []
  /\ registered (trace (world x)) = [5] /\ called (trace (world x)) = [].
Proof.
  destruct (schedule resync_schedule sample_start) as [x|] eqn:Hx; [|by vm_compute in Hx].
  exists x. split; [by eapply sample_reachable|]. vm_compute in Hx. simplify_eq. by vm_compute.
Qed.

(** A callback that unregisters itself and registers and unregisters another
    one. *)
Definition self_removing_schedule : list label :=
  activate ++ at_once 3 1 (Register_connection_change_callback 7)
  ++ at_once 4 3 (Connection_state_changed Connected None)
  ++ at_once 5 1 (Unregister_connection_change_callback 0)
  ++ at_once 6 1 (Register_connection_change_callback 8)
  ++ at_once 7 1 (Unregister_connection_change_callback 1).
(** when a callback unregisters itself, registers another one and
    unregisters that, the count of callbacks wraps around and the invocation goes
    on beyond the end of the vector. *)
Theorem unregistering_overruns : exists x i rest, reachable x
  /\ threads x !! i = Some (Continue_callbacks Disconnected Connected :: rest)
  /\ m_callbacks (m_connection_change_notifier (session (world x))) = []
  /\ run (Continue_callbacks Disconnected Connected) (world x) = None.
Proof.
  destruct (schedule self_removing_schedule sample_start) as [x|] eqn:Hx; [|by vm_compute in Hx].
  assert (Hr : reachable x) by by eapply sample_reachable.
  vm_compute in Hx. simplify_eq. eexists _, 4, _. split; [exact Hr|]. by split_and!.
Qed.

(** ** Witnesses *)

Definition run_schedule (l : list label) : System := default sample_start (schedule l sample_start).

Lemma run_schedule_reachable l : reachable (run_schedule l).
Proof.
  unfold run_schedule. destruct (schedule l sample_start) as [x|] eqn:Hx; [by eapply sample_reachable|].
  by apply (sample_reachable []).
Qed.

(** A handler is about to be queued, and has been queued; the session is dying;
    it has been dropped. *)
Definition waiting_system : System := run_schedule (activate ++ [l_start (Wait_for_completion upload 1)]).
Definition queued_system : System := run_schedule (activate ++ at_once 3 1 (Wait_for_completion upload 1)).
Definition dying_system : System := run_schedule (activate ++ [l_drop 0; l_run 3]).
Definition dropped_system : System := run_schedule (activate ++ [l_drop 0; l_run 3; l_wait 0 success; l_run 4; l_run 4]).


Lemma session_refines_spec_witness : exists w' new,
  run (Wait_for_completion upload 1) (world waiting_system) = Some (w', new)
  /\ m_upload_completion_callbacks (session w') = [1]
  /\ performs (world waiting_system) [] (flight new) w'.
Proof.
  destruct (run (Wait_for_completion upload 1) (world waiting_system)) as [[w' new]|] eqn:Hr; [|by vm_compute in Hr].
  exists w', new. split_and!; [done|by vm_compute in Hr; simplify_eq|].
  apply (session_refines_spec waiting_system 3 (Wait_for_completion upload 1) []); [reflexivity|apply run_schedule_reachable| |exact Hr].
  by vm_compute.
Defined.

Lemma only_documented_transitions_witness :
  reachable queued_system /\ state_path Inactive (trace (world queued_system)) Active.
Proof. split; [apply run_schedule_reachable|]. apply (only_documented_transitions queued_system); [reflexivity|apply run_schedule_reachable]. Defined.

Lemma completion_handlers_accounted_witness : reachable queued_system /\ registered (trace (world queued_system)) ≡ₚ [1].
Proof. split; [apply run_schedule_reachable|]. apply (completion_handlers_accounted queued_system); [reflexivity|apply run_schedule_reachable]. Defined.

Lemma queued_handlers_have_wait_witness :
  m_state (session (world queued_system)) = Active /\ callbacks upload (session (world queued_system)) = [1]
  /\ ((exists y, y ∈ waits (world queued_system) /\ Some (w_session y) = m_session (session (world queued_system))
        /\ w_handler y = completion_handler 0 upload)
      \/ exists ec, Wait_ended (completion_handler 0 upload) ec ∈ concat (threads queued_system)).
Proof.
  split_and!; [by vm_compute..|].
  apply (queued_handlers_have_wait queued_system upload); [reflexivity|apply run_schedule_reachable|by vm_compute|left; by vm_compute|by vm_compute].
Defined.

Lemma dying_ends_by_its_own_wait_witness : m_state (session (world dying_system)) = Dying
  /\ exists w' new, run (Wait_ended (death_handler 1) success) (world dying_system) = Some (w', new)
       /\ m_state (session w') = Inactive.
Proof.
  split; [by vm_compute|].
  apply (dying_ends_by_its_own_wait dying_system); [reflexivity|apply run_schedule_reachable|by vm_compute|by vm_compute].
Defined.

(** The manager has forgotten the session: closing it once more fails. *)
Lemma session_fails_exactly_witness : m_sessions (world dropped_system) = false
  /\ run Unregister_session (world dropped_system) = None.
Proof.
  split; [by vm_compute|].
  apply (session_fails_exactly dropped_system Unregister_session); [reflexivity|apply run_schedule_reachable|by vm_compute].
Defined.

Lemma update_configuration_ends_witness : m_state (session (world queued_system)) = Active
  /\ exists fuel w', run_all fuel [Update_configuration sample_config] (world queued_system) = Some w'
      /\ called (trace w') = [1].
Proof.
  split; [by vm_compute|].
  destruct (update_configuration_ends sample_config (world queued_system)) as (fuel & w' & Hr & _ & _ & _ & _ & Hc).
  - apply ok_core, reachable_ok; [reflexivity|apply run_schedule_reachable].
  - by vm_compute.
  - split; [by vm_compute|by vm_compute|constructor].
  - by vm_compute.
  - by vm_compute.
  - by vm_compute.
  - exists fuel, w'. split; [exact Hr|]. by apply Hc; vm_compute.
Defined.

Lemma resync_keeps_handlers_witness : m_upload_completion_callbacks (session (world queued_system)) = [1]
  /\ exists fuel w', run_all fuel [Handle_error (protocol_error ProtocolError_bad_client_file_ident)] (world queued_system) = Some w'
      /\ m_upload_completion_callbacks (session w') = [1].
Proof.
  split; [by vm_compute|].
  destruct (resync_keeps_handlers (protocol_error ProtocolError_bad_client_file_ident) (world queued_system))
    as (fuel & w' & Hr & _ & _ & _ & _ & Hc & _).
  - apply ok_core, reachable_ok; [reflexivity|apply run_schedule_reachable].
  - right. by vm_compute.
  - by vm_compute.
  - by vm_compute.
  - by vm_compute.
  - by vm_compute.
  - split; [by vm_compute|by vm_compute|constructor].
  - exists fuel, w'. split; [exact Hr|]. rewrite Hc. by vm_compute.
Defined.

(** Three callbacks, of which the first removes itself and the second. *)
Definition three_callbacks : ConnectionChangeNotifier :=
  mkConnectionChangeNotifier [mkCallback 10 0; mkCallback 11 1; mkCallback 12 2] npos npos 3.

Lemma invocation_survives_removal_witness : exists s',
  invoke_removing 4 (λ cb, if decide (cb = 10) then [0; 1]%Z else []) three_callbacks = Some (s', [10; 12]).
Proof.
  destruct (invocation_survives_removal (λ cb, if decide (cb = 10) then [0; 1]%Z else []) three_callbacks) as (s' & Hs & _).
  - split; [by vm_compute|by vm_compute|]. apply (bool_decide_unpack _). by vm_compute.
  - by exists s'.
Defined.

Definition one_notifier : SyncProgressNotifier :=
  mkSyncProgressNotifier 2 0 None {[ 1%Z := mkNotifierPackage 5 (Some 10%Z) 0 false true ]}.

Lemma update_visits_notifiers_witness : m_packages (update 10 20 0 0 1 1 one_notifier).1 !! 1%Z = None.
Proof.
  destruct (update 10 20 0 0 1 1 one_notifier) as [s' invs] eqn:Hu.
  destruct (update_visits_notifiers 10 20 0 0 1 1 one_notifier s' invs) as (Hm & _ & _); [done|exact Hu|].
  cbn [fst]. rewrite Hm. by vm_compute.
Defined.
