(* ===== verification/NotifierTheorems.v ===== *)
(** * The properties of the notifiers

    Which rows count as modified, what the diff of two versions of a collection
    contains, what each notifier reports, and who is told. *)

From S2P Require Import Core Prelude ChunkedRangeVector ChunkedFacts IndexSet IndexSetFacts IndexSetWalk.
From S2P Require Import CorrFacts ChangeBuilder ChangeFacts ChangeMove ChangeMergeMoves ChangeCompose.
From S2P Require Import ChangeComplete ChangeCalculation TransactInfo TransactLog ListRefinement Samples.
From S2P Require Import MatchedRows CalculateFacts DeepChecker DeepCheckerFacts.
From S2P Require Import CollectionNotifier DeliverySpec DeliveryFacts Notifiers ResultsFacts.
From S2P Require Import NotifierSamples.

Section theorems.
Context `{HB : Build, HO : StdOrders}.

(** C5: [calculate] without move candidates succeeds in every build, whatever
    the old and the new rows are; its deletions and insertions turn the old
    version into the new one, its modifications are the rows of both versions
    that changed, and it reports no moves. *)
Theorem calculate_diffs {St} (prev next : list Z) (row_did_change : Z -> St -> option (St * bool)) (st : St)
    (Inv : St -> Prop) (changed : Z -> bool) :
  (Z.of_nat (length prev) < npos)%Z -> (Z.of_nat (length next) < npos)%Z -> Inv st ->
  (forall r st, r ∈ next -> Inv st -> exists st', row_did_change r st = Some (st', changed r) /\ Inv st') ->
  exists b, calculate prev next row_did_change st None = Some b
    /\ moves b = [] /\ diff_of prev next changed b /\ explains b prev next.
Proof.
  intros Hp Hn Hst Hch. destruct (calculate_sorted_spec prev next row_did_change st Inv changed Hp Hn Hst Hch) as (b & Hb & Hd & Hm).
  exists b. split_and!; [done..|]. by eapply diff_explains.
Qed.

(** C6: [calculate] with move candidates, for a collection in table order:
    when a row that is no candidate never falls behind a row that was behind it,
    the result is a diff as well, and of rows without duplicates it inserts and
    deletes only those that are not in the other version and those it reports
    as moved. *)
Theorem calculate_finds_moves {St} (prev next : list Z) (row_did_change : Z -> St -> option (St * bool)) (st : St)
    (Inv : St -> Prop) (changed : Z -> bool) (candidates : IndexSet) :
  (Z.of_nat (length prev) < npos)%Z -> (Z.of_nat (length next) < npos)%Z -> Inv st ->
  (forall r st, r ∈ next -> Inv st -> exists st', row_did_change r st = Some (st', changed r) /\ Inv st') ->
  wf candidates -> Sorted Z.le next ->
  (forall r r' (i i' j j' : nat), prev !! i = Some r -> prev !! i' = Some r' -> next !! j = Some r -> next !! j' = Some r' ->
    r ∉ candidates -> i' < i -> j' < j) ->
  exists b, calculate prev next row_did_change st (Some candidates) = Some b /\ diff_of prev next changed b
    /\ explains b prev next
    /\ (NoDup next -> distinct_rows prev -> forall x, x ∈ insertions b ->
          (exists r, next !! Z.to_nat x = Some r /\ (r ∈ prev -> r = npos)) \/ x ∈ move_to <$> moves b)
    /\ (NoDup next -> distinct_rows prev -> forall x, x ∈ deletions b ->
          (exists r, prev !! Z.to_nat x = Some r /\ (r ∈ next -> r = npos)) \/ x ∈ move_from <$> moves b).
Proof.
  intros Hp Hn Hst Hch Hc Hs Hplace.
  destruct (calculate_unsorted_spec prev next row_did_change st Inv changed Hp Hn Hst Hch candidates Hc Hs Hplace) as (b & Hb & Hd & Hi & Hdel).
  exists b. split_and!; [done..|by eapply diff_explains|done|done].
Qed.
End theorems.

(** After two swaps of rows the candidates do not suffice: the rows 0, 1
    and 2 of a table in which rows 0 and 4 and rows 1 and 3 are exchanged are now
    4, 3 and 2, and [calculate] in table order fails the check of the debug build;
    in a release build it reports changes that turn the old rows into others. *)
Theorem swaps_break_table_order :
  (b ← ChangeBuilder.swap (H := release_build) 0 4 true empty_builder; b ← ChangeBuilder.swap (H := release_build) 1 3 true b;
   ChangeBuilder.parse_complete (H := release_build) b) = Some swapped_rows
  /\ mapM_vec (update_row (H := release_build) swapped_rows) [0; 1; 2]%Z = Some [4; 3; 2]%Z
  /\ calculate (H := debug_build) [4; 3; 2]%Z [2; 3; 4]%Z (λ _ st, Some (st, false)) tt (Some (insertions swapped_rows)) = None
  /\ exists b, calculate (H := release_build) [4; 3; 2]%Z [2; 3; 4]%Z (λ _ st, Some (st, false)) tt (Some (insertions swapped_rows)) = Some b
       /\ apply_changes [4; 3; 2]%Z [2; 3; 4]%Z (deletions b) (insertions b) = Some [3; 2; 4]%Z.
Proof.
  split_and!; [by vm_compute..|]. eexists. split; [vm_compute; reflexivity|by vm_compute].
Qed.

(** ** Which rows changed *)

Section checkers.
Context `{HB : Build, HO : StdOrders, HT : LinkTables, HL : !LinkTablesLaws}.

(** C14: [set_table] ends for every table of the group, and the related tables
    are the table and those that links lead to, each once and with all its links. *)
Theorem related_tables_found root : table_in_group root -> exists related, DeepChecker.set_table root = Some related
  /\ NoDup (related_ndx <$> related)
  /\ (forall t, t ∈ (related_ndx <$> related) <-> rtc table_link root t)
  /\ Forall (λ tbl, links tbl = all_links (related_ndx tbl)) related.
Proof.
  intros Hr. destruct (set_table_spec root Hr) as (related & Hset & Hcl). exists related. split_and!; [done|apply Hcl| |].
  - intros t. split; [by apply set_table_reach|by apply closed_reachable].
  - eapply Forall_impl; [apply (closed_complete _ _ Hcl)|]. by intros tbl [? _].
Qed.

(** C7: The function of [get_modification_checker] answers, for any sequence of
    rows and whatever it remembers of the earlier ones, whether the row or one
    that it leads to in at most three links was modified; in every build, when no
    link of the table leads to the table itself. *)
Theorem checker_finds_deep_changes info root related : Forall (λ b, wf (modifications b)) (tables info) ->
  table_in_group root -> schema_changed info = true \/ DeepChecker.set_table root = Some related -> no_self_link root ->
  exists related' f, get_modification_checker info root related = Some (related', f)
    /\ DeepChecker.set_table root = Some related'
    /\ forall rows, Forall (λ r, 0 <= r < npos)%Z rows -> exists st answers,
         foldM (λ r '(st, l), '(st, b) ← row_did_change info related' f r st; Some (st, l ++ [b])) rows (initial_checker, [])
           = Some (st, answers)
         /\ Forall2 (λ r b, b = true <-> deep_changed info (root, r)) rows answers.
Proof.
  intros Hm Hr Hrel Hns.
  destruct (get_modification_checker_spec info root related Hm Hr Hrel Hns) as (related' & f & Hget & Hset & Hf).
  exists related', f. split_and!; [done..|]. intros rows Hrows.
  apply (answers_spec (row_did_change info related' f) (λ r, 0 <= r < npos)%Z _ (checker_ok info related'));
    [exact Hf|done|apply initial_checker_ok].
Qed.

(** A table whose links all lead to itself has one related table; then only
    the rows themselves are looked at, so a row that leads to a modified row does
    not count as changed. *)
Theorem self_links_not_followed info root tbl x y st : Forall (λ b, wf (modifications b)) (tables info) ->
  table_in_group root -> schema_changed info = true \/ DeepChecker.set_table root = Some [tbl] ->
  DeepChecker.set_table root = Some [tbl] ->
  linked (root, x) y -> modified info y -> ~ modified info (root, x) ->
  deep_changed info (root, x)
  /\ exists f, get_modification_checker info root [tbl] = Some ([tbl], f)
       /\ row_did_change info [tbl] f x st = Some (st, false).
Proof.
  intros Hm Hr Hrel Hset Hl Hy Hx. split.
  { exists 1, y. split_and!; [lia|by econstructor; [|constructor]|done]. }
  destruct (set_table_spec root Hr) as (related & Hset' & Hcl). rewrite Hset in Hset'. injection Hset' as <-.
  pose proof (closed_root _ _ Hcl) as Ht%list_elem_of_singleton.
  assert (Hyr : y.1 ∈ (related_ndx <$> [tbl])) by (apply (linked_closed _ root (root, x) y Hcl); [by apply Hcl|done]).
  pose proof (modified_table _ _ _ Hyr Hy) as Hex. cbn in Hyr. apply list_elem_of_singleton in Hyr.
  destruct Hy as (d & Hd & Hyd). rewrite Hyr in Hd. unfold get_modification_checker.
  replace (if schema_changed info then _ else _) with (Some [tbl]) by (by destruct (schema_changed info)). mrun.
  rewrite Hex. cbn [negb]. rewrite Hd. mrun. exists (in_modifications d). split; [done|]. cbn [row_did_change].
  rewrite contains_spec by by eapply modifications_wf. mrun. rewrite bool_decide_false; [done|].
  intros Hin. apply Hx. exists d. cbn [fst snd]. by rewrite Ht.
Qed.

(** ** What the notifiers report *)

(** C3: [ResultsNotifier::run] after an earlier run: it hands over the rows of
    the query and a change set that explains how the objects of the previous
    rows became those of the new ones, however the rows moved in the table; rows
    are reported as modified only when they changed deeply, and all are that were
    in the previous version. *)
Theorem results_run_explains {A} (obj0 obj1 : Z -> A) q wants info r : ready_to_run q wants info r ->
  (forall x z, tracks (table_changes q info) x z -> obj1 z = obj0 x) ->
  exists r', results_run q wants info r = Some r'
    /\ m_tv r' = Some (q_rows q) /\ m_previous_rows r' = q_rows q /\ m_last_seen_version r' = q_version q /\ r_base r' = r_base r
    /\ explains (m_changes r') (obj0 <$> m_previous_rows r) (obj1 <$> q_rows q)
    /\ (forall y, y ∈ modifications (m_changes r') -> exists row,
          q_rows q !! Z.to_nat y = Some row /\ deep_changed info (q_table q, row))
    /\ (forall (y : nat) row x, q_rows q !! y = Some row -> x ∈ m_previous_rows r -> tracks (table_changes q info) x row ->
          deep_changed info (q_table q, row) -> Z.of_nat y ∈ modifications (m_changes r')).
Proof. apply results_run_spec. Qed.

(** [ListNotifier::run] of an attached list keeps what the log recorded of
    the list, and adds to the modifications exactly the rows, moved ones
    included, that changed deeply. *)
Theorem list_run_marks {A} c info l (xs ys : list A) : list_ready c info l ->
  explains (m_change l) xs ys -> length ys = length (c_rows c) ->
  exists l', list_run info l = Some l' /\ m_prev_size l' = c_size c /\ explains (m_change l') xs ys
    /\ l_base l' = l_base l
    /\ (forall x y, tracks (m_change l') x y <-> tracks (m_change l) x y)
    /\ forall x, x ∈ modifications (m_change l') <-> x ∈ modifications (m_change l)
         \/ ((0 <= x < c_size c)%Z /\ row_changed info c x).
Proof. apply list_run_spec. Qed.

(** A list that is gone: all its rows are reported as deleted, but the
    insertions of the same transaction stay in the change, which then does not
    explain how any list of the old length became empty. *)
Theorem deleted_list_keeps_insertions {A} info l (xs : list A) : attached l = None ->
  (0 < m_prev_size l <= npos)%Z -> insertions (m_change l) <> [] -> wf (insertions (m_change l)) ->
  exists l', list_run info l = Some l' /\ m_prev_size l' = 0%Z
    /\ (forall x, x ∈ deletions (m_change l') <-> (0 <= x < m_prev_size l)%Z)
    /\ insertions (m_change l') = insertions (m_change l)
    /\ ~ explains (m_change l') xs [].
Proof.
  intros Ha Hp Hne Hi. unfold list_run. rewrite Ha. destruct (run_detached_spec l) as (l' & Hrun & Hs & Hch); [lia|].
  rewrite decide_False in Hch by lia. destruct Hch as (_ & Hd & Hins & _). exists l'. split_and!; [done..|].
  intros [Hw _]. destruct (wf_has_element _ Hi Hne) as [x Hx]. rewrite <- Hins in Hx.
  pose proof (in_new _ _ _ Hw _ Hx). pose proof (elem_of_bounds _ _ (wf_insertions _ (in_wf _ _ _ Hw)) Hx). cbn in *. lia.
Qed.
End checkers.

(** ** Who is told *)

Section delivery.
Context `{HB : Build, HO : StdOrders}.
Variable realm_state : RealmState.

(** C8: After any history of a notifier (callbacks registered, removed and
    suppressed, changes added and packaged, deliveries during which user code does
    the same) the callbacks have different tokens, all handed out before,
    [m_have_callbacks] says whether there are any, and no delivery is going on. *)
Theorem notifier_invariant version n : rtc (notifier_step realm_state) (new_notifier version) n ->
  NoDup (token <$> m_callbacks n) /\ Forall (λ c, 0 <= token c < m_next_token n)%Z (m_callbacks n)
  /\ m_have_callbacks n = negb (bool_decide (m_callbacks n = [])) /\ m_callback_index n = npos.
Proof.
  intros Hs. destruct (notifier_steps_keep realm_state _ _ Hs) as [[? ? ? _ _] ?]; [split; [apply new_notifier_ok|done]|].
  by split_and!.
Qed.

(** C13: [before_advance] and [after_advance] implement the delivery without
    indices: whatever user code adds, suppresses or removes, as long as it
    removes no callback that was added during the delivery, the packaged
    callbacks are visited in order. *)
Theorem delivery_refines script error n v1 v2 k1 k2 :
  notifier_ok n -> m_callback_index n = npos -> packaged n -> m_realm n = true -> m_error n = error ->
  visit_all id (visit_before realm_state script error) k1 (mkTurn [] (m_callbacks n) [] (m_next_token n) (calls n)) = Some v1 ->
  visit_all update_after (visit_after realm_state script error) k2
    (mkTurn [] (visited v1) (added v1) (next_token v1) (log v1)) = Some v2 ->
  exists n1 n2, before_advance realm_state script n = Some n1 /\ after_advance realm_state script n1 = Some n2
    /\ m_callbacks n2 = visited v2 ++ added v2 /\ calls n2 = log v2 /\ notifier_ok n2.
Proof.
  intros Hok Hi Hp Hr <- Hv1 Hv2. pose proof (at_turn_packaged n Hok Hi Hp Hr) as Hat.
  destruct (before_advance_refines _ _ _ _ n v1 k1 Hat eq_refl Hv1) as (n1 & Hr1 & Hat1).
  destruct (after_advance_refines _ _ _ _ n1 v2 k2 Hat1 eq_refl Hv2) as (n2 & Hr2 & Hat2).
  exists n1, n2. split_and!; [done|done|by rewrite (at_callbacks _ _ _ Hat2)|apply Hat2|apply Hat2].
Qed.

(** [deliver_error] when user code only registers callbacks: each callback
    is told about the error once, in order, and is gone afterwards; those
    registered meanwhile are not told and stay. *)
Theorem errors_delivered_once script k e n : only_adds script k -> deliverable k n ->
  exists n', deliver_error realm_state script e n = Some n'
    /\ calls n' = calls n ++ omap (λ c, (λ f, call_error f e) <$> fn c) (m_callbacks n)
    /\ Forall (fresh (m_next_token n)) (m_callbacks n') /\ notifier_ok n' /\ m_error n' = true.
Proof. intros Hadds. by apply deliver_error_adds. Qed.

(** Registering a callback and removing it again before the delivery leaves
    the callbacks as they were, but the last one that changes were packaged for
    is no longer told. *)
Theorem unpackaged_removal_skips script k r f n cs c : only_adds script k -> on_its_thread r = true ->
  deliverable k n -> (m_next_token n + 1 + Z.of_nat (length (m_callbacks n) * k) < 2 ^ 64)%Z ->
  packaged n -> m_callbacks n = cs ++ [c] ->
  exists n1 n2 n3 new, add_callback r f n = Some (n1, inr (m_next_token n)) /\ remove_callback (m_next_token n) n1 = Some n2
    /\ m_callbacks n2 = m_callbacks n
    /\ after_advance realm_state script n2 = Some n3
    /\ calls n3 = calls n ++ omap told_after cs /\ m_callbacks n3 = (update_after <$> cs) ++ c :: new.
Proof.
  intros Hadds Hth [Hok Hi Hr Hfn Hroom] Hroom' Hp Hcs.
  destruct (add_remove r f n Hok Hi Hr Hth) as (n1 & n2 & Hrun1 & Hrun2 & Hok2 & Hcb & Hct & Hi2 & Hr2 & Hnx & Hlg & _); [lia|].
  destruct (after_advance_prefix realm_state script k Hadds n2 cs [c]) as (n3 & new & Hrun3 & Hcb3 & _ & Hlg3 & _).
  - split; [done|done|done|by rewrite Hcb|by rewrite Hcb, Hnx].
  - by rewrite Hcb.
  - rewrite Hct, Hp, Hcs, length_app. cbn [length]. pose proof (no_sizes _ Hok) as Hs. rewrite Hcs, length_app in Hs. cbn in Hs.
    rewrite u64_small by lia. lia.
  - exists n1, n2, n3, new. split_and!; [done..| |done]. by rewrite Hlg3, Hlg.
Qed.

(** When there was no callback to package changes for, removing one that was
    registered since makes the count of callbacks wrap around, and the delivery
    reads beyond the vector, in every build (a debug build stops at the
    assertion before). *)
Theorem count_wraps_around script r f n : on_its_thread r = true -> notifier_ok n -> m_callback_index n = npos ->
  m_realm n = true -> (m_next_token n + 1 < 2 ^ 64)%Z -> packaged n -> m_callbacks n = [] ->
  exists n1 n2, add_callback r f n = Some (n1, inr (m_next_token n)) /\ remove_callback (m_next_token n) n1 = Some n2
    /\ m_callbacks n2 = [] /\ m_callback_count n2 = npos
    /\ before_advance realm_state script n2 = None /\ after_advance realm_state script n2 = None.
Proof.
  intros Hth Hok Hi Hr Hsm Hp Hcs.
  destruct (add_remove r f n Hok Hi Hr Hth Hsm) as (n1 & n2 & Hrun1 & Hrun2 & _ & Hcb & Hct & Hi2 & _).
  rewrite Hp, Hcs in Hct. exists n1, n2. rewrite Hcb, Hcs. split_and!; [done..| |];
    (apply for_each_empty; [|by rewrite Hcb|done|done]).
  - intros m Hm. unfold before_callback. by rewrite Hm.
  - intros m Hm. unfold after_callback. by rewrite Hm.
Qed.

(** C4: What accumulated since a callback was told last is what it is told: when
    the runs of the notifier lead from the version it knows to the current one,
    packaging and delivering call every callback, once and in order, with a change
    set that tells how to get there (a callback that has been told before only if
    the change set is not empty), and nothing is left to deliver. (As long as the
    functions that are called only add callbacks.) *)
Theorem callbacks_told_everything {A} script k (ws : list (list A)) (ys : list A) n : only_adds script k -> deliverable k n ->
  accumulated_at n ws ys -> Forall (λ c, finalizable (accumulated_changes c)) (m_callbacks n) ->
  exists n1 n2 new, package_for_delivery true n = Some (n1, true) /\ after_advance realm_state script n1 = Some n2
    /\ Forall2 (λ c w, changes_tell (changes_to_deliver c) w ys) (m_callbacks n1) ws
    /\ calls n2 = calls n ++ omap told_after (m_callbacks n1)
    /\ m_callbacks n2 = (update_after <$> m_callbacks n1) ++ new /\ Forall (fresh (m_next_token n)) new
    /\ Forall2 (λ c c', token c' = token c /\ fn c' = fn c /\ accumulated_changes c' = empty_builder) (m_callbacks n) (m_callbacks n1).
Proof.
  intros Hadds Hd Hat Hf. destruct (package_tells n ws ys Hat Hf) as (cs & Hpack & Htell & Hsame).
  assert (Hd' : deliverable k (set_count (Z.of_nat (length cs)) (set_callbacks cs n))) by by eapply package_deliverable.
  destruct (after_advance_adds realm_state script k Hadds _ Hd') as (n2 & new & Hrun & Hcb & Hnew & Hcalls & _); [done|].
  eexists _, n2, new. split_and!; [exact Hpack|done|done|done|done|done|].
  eapply Forall2_impl; [exact Hsame|]. intros c c' [-> ?]. by split_and!.
Qed.
(** [package_and_wait], when the wait ends with its condition true: it
    packages, once, the changes of the notifiers that have run and deliver; those
    it keeps, if any, are these, and all of them that have callbacks have reached
    the target version; calling it again does nothing. *)
Theorem package_keeps_ready (prepare_to_deliver : nat -> store -> bool) (wait_for_notifiers : (store -> bool) -> store -> store) target p s :
  (forall a s s', s !! a = s' !! a -> prepare_to_deliver a s = prepare_to_deliver a s') ->
  has_coordinator p = true -> m_package_error p = None -> m_version p = None -> NoDup (m_notifiers p) -> m_notifiers p <> [] ->
  let s0 := waited wait_for_notifiers target p s in ready target (m_notifiers p) s0 = true ->
  (forall a, a ∈ m_notifiers p -> exists n, s0 !! a = Some n /\ packageable n) ->
  exists p' s', package_and_wait prepare_to_deliver wait_for_notifiers target p s = Some (p', s')
    /\ (m_notifiers p' = filter (delivers prepare_to_deliver s0) (m_notifiers p) \/ m_notifiers p' = [])
    /\ (forall v t, m_version p' = Some v -> target = Some t -> (t <= v)%Z)
    /\ (forall a, a ∈ m_notifiers p' -> exists n n', s0 !! a = Some n /\ m_has_run n = true
          /\ package_for_delivery true n = Some (n', true) /\ s' !! a = Some n'
          /\ forall t, target = Some t -> m_have_callbacks n = true -> (t <= m_sg_version n)%Z)
    /\ forall target' s'', package_and_wait prepare_to_deliver wait_for_notifiers target' p' s'' = Some (p', s'').
Proof.
  intros Hown Hco He Hv Hnd Hne s0 Hready Hs0.
  destruct (package_and_wait_spec prepare_to_deliver wait_for_notifiers Hown target p s Hco He Hv Hnd Hs0)
    as (p' & s' & Hrun & Hk & _ & Hle & Hin & Hagain).
  exists p', s'. split_and!; [done|done|done| |by apply Hagain]. intros a Ha. destruct (Hin a Ha) as (n & n' & Hn & Hpack & Hs').
  fold s0 in Hn, Hk. destruct Hk as [Hk|Hk]; rewrite Hk in Ha; [|by apply elem_of_nil in Ha].
  apply list_elem_of_filter in Ha as [Hdel Hain]. unfold delivers in Hdel. rewrite Hn in Hdel.
  apply Is_true_true, andb_true_iff in Hdel as [Hran _]. exists n, n'. split_and!; [done..|]. intros t -> Hcb.
  by eapply ready_version.
Qed.
End delivery.

(** ** Witnesses *)

#[local] Existing Instance debug_build.

Lemma calculate_diffs_witness : exists b, calculate [7; npos; 3; 5]%Z [3; 9; 7]%Z (λ r st, Some (st, bool_decide (r = 7)%Z)) tt None = Some b
  /\ moves b = [] /\ diff_of [7; npos; 3; 5]%Z [3; 9; 7]%Z (λ r, bool_decide (r = 7)%Z) b /\ explains b [7; npos; 3; 5]%Z [3; 9; 7]%Z.
Proof.
  apply (calculate_diffs [7; npos; 3; 5]%Z [3; 9; 7]%Z (λ r st, Some (st, bool_decide (r = 7)%Z)) tt (λ _, True)); [done..|].
  intros r [] _ _. by exists tt.
Defined.

Lemma calculate_finds_moves_witness : exists b,
  calculate [0; npos; 2; 1]%Z [0; 1; 2]%Z (λ _ st, Some (st, false)) tt (Some (one_chunk [(1, 2)]%Z)) = Some b
  /\ diff_of [0; npos; 2; 1]%Z [0; 1; 2]%Z (λ _, false) b /\ explains b [0; npos; 2; 1]%Z [0; 1; 2]%Z
  /\ (NoDup [0; 1; 2]%Z -> distinct_rows [0; npos; 2; 1]%Z -> forall x, x ∈ insertions b ->
        (exists r, [0; 1; 2]%Z !! Z.to_nat x = Some r /\ (r ∈ [0; npos; 2; 1]%Z -> r = npos)) \/ x ∈ move_to <$> moves b)
  /\ (NoDup [0; 1; 2]%Z -> distinct_rows [0; npos; 2; 1]%Z -> forall x, x ∈ deletions b ->
        (exists r, [0; npos; 2; 1]%Z !! Z.to_nat x = Some r /\ (r ∈ [0; 1; 2]%Z -> r = npos)) \/ x ∈ move_from <$> moves b).
Proof.
  apply (calculate_finds_moves [0; npos; 2; 1]%Z [0; 1; 2]%Z (λ _ st, Some (st, false)) tt (λ _, True)); [done..| |decide_wf| |].
  - intros r [] _ _. by exists tt.
  - repeat constructor; lia.
  - intros r r' i i' j j' Hi Hi' Hj Hj' Hc Hlt. rewrite elem_of_flat in Hc. cbn in Hc. rewrite mem_cons, mem_nil in Hc. cbn in Hc.
    assert (Hn : forall (k : nat) x, [0; 1; 2]%Z !! k = Some x -> x = Z.of_nat k /\ (x < 3)%Z)
      by (intros [|[|[|k]]] x; cbn; intros [= <-]; lia).
    apply Hn in Hj as [-> ?], Hj' as [-> ?].
    destruct i as [|[|[|[|i]]]]; cbn in Hi; try done; injection Hi as Hi; unfold npos in *; try lia.
    destruct i' as [|[|i']]; cbn in Hi'; try lia; injection Hi' as Hi'; lia.
Defined.

Lemma checker_finds_deep_changes_witness : exists related' f, get_modification_checker sample_info 0 sample_related = Some (related', f)
  /\ DeepChecker.set_table 0 = Some related'
  /\ forall rows, Forall (λ r, 0 <= r < npos)%Z rows -> exists st answers,
       foldM (λ r '(st, l), '(st, b) ← row_did_change sample_info related' f r st; Some (st, l ++ [b])) rows (initial_checker, [])
         = Some (st, answers)
       /\ Forall2 (λ r b, b = true <-> deep_changed sample_info (0%Z, r)) rows answers.
Proof.
  apply checker_finds_deep_changes; [apply sample_info_wf|split; cbn; lia|by right|apply no_self_link_0].
Defined.

Lemma self_links_not_followed_witness : deep_changed sample_info (3, 0)%Z
  /\ exists f, get_modification_checker sample_info 3 [mkRelatedTable 3 [mkOutgoingLink 0 false]]
         = Some ([mkRelatedTable 3 [mkOutgoingLink 0 false]], f)
       /\ row_did_change sample_info [mkRelatedTable 3 [mkOutgoingLink 0 false]] f 0 initial_checker = Some (initial_checker, false).
Proof.
  apply (self_links_not_followed sample_info 3 (mkRelatedTable 3 [mkOutgoingLink 0 false]) 0 (3, 1)%Z initial_checker).
  - apply sample_info_wf.
  - split; cbn; lia.
  - by right.
  - done.
  - exists 0. split_and!; [change (0 < 1); lia|done|by right].
  - exists (one_chunk [(1, 2)]%Z). split; [done|]. apply (bool_decide_unpack (mem _ _)). vm_compute. exact I.
  - intros (d & [= <-] & Hd). apply (bool_decide_pack (mem _ _)) in Hd. by vm_compute in Hd.
Defined.

Lemma results_run_explains_witness : exists r', results_run sample_query false sample_info sample_results = Some r'
  /\ m_tv r' = Some [0; 1; 2]%Z /\ m_previous_rows r' = [0; 1; 2]%Z /\ m_last_seen_version r' = 8%Z /\ r_base r' = two_callbacks
  /\ explains (m_changes r') [0; 2; 3]%Z (old_row <$> [0; 1; 2]%Z)
  /\ (forall y, y ∈ modifications (m_changes r') -> exists row,
        [0; 1; 2]%Z !! Z.to_nat y = Some row /\ deep_changed sample_info (0%Z, row))
  /\ (forall (y : nat) row x, [0; 1; 2]%Z !! y = Some row -> x ∈ [0; 2; 3]%Z -> tracks moved_over_1 x row ->
        deep_changed sample_info (0%Z, row) -> Z.of_nat y ∈ modifications (m_changes r')).
Proof.
  apply (results_run_explains id old_row sample_query false sample_info sample_results sample_results_ready).
  intros x z Ht. unfold id, old_row. by apply tracks_moved_over_1 in Ht.
Defined.

Lemma list_run_marks_witness : exists l', list_run sample_info sample_list_notifier = Some l' /\ m_prev_size l' = 2%Z
  /\ explains (m_change l') [7]%Z [7; 8]%Z /\ l_base l' = two_callbacks
  /\ (forall x y, tracks (m_change l') x y <-> tracks (m_change sample_list_notifier) x y)
  /\ forall x, x ∈ modifications (m_change l') <-> x ∈ modifications (m_change sample_list_notifier)
       \/ ((0 <= x < 2)%Z /\ row_changed sample_info sample_list x).
Proof. exact (list_run_marks sample_list sample_info sample_list_notifier [7]%Z [7; 8]%Z sample_list_ready sample_list_explains eq_refl). Defined.

Lemma deleted_list_keeps_insertions_witness : let l := set_container None None sample_list_notifier in
  exists l', list_run sample_info l = Some l' /\ m_prev_size l' = 0%Z
  /\ (forall x, x ∈ deletions (m_change l') <-> (0 <= x < 1)%Z)
  /\ insertions (m_change l') = one_chunk [(1, 2)]%Z
  /\ ~ explains (m_change l') [7]%Z [].
Proof.
  apply (deleted_list_keeps_insertions sample_info (set_container None None sample_list_notifier) [7]%Z);
    [done|cbn; unfold npos; lia|done|decide_wf].
Defined.

Lemma notifier_invariant_witness : NoDup (token <$> m_callbacks one_registered)
  /\ Forall (λ c, 0 <= token c < m_next_token one_registered)%Z (m_callbacks one_registered)
  /\ m_have_callbacks one_registered = negb (bool_decide (m_callbacks one_registered = [])) /\ m_callback_index one_registered = npos.
Proof.
  apply (notifier_invariant on_thread 1). eapply rtc_l; [by eapply (step_op _ (op_add 10))|].
  eapply rtc_l; [by eapply (step_op _ (op_add 11))|]. eapply rtc_l; [by eapply (step_package _ true)|].
  eapply rtc_l; [eapply (step_after _ registers_once 1); [apply registers_once_adds|done|by vm_compute]|].
  eapply rtc_once. by eapply (step_op _ (op_remove 1)).
Defined.

Lemma delivery_refines_witness : exists n1 n2, before_advance on_thread removes_itself two_callbacks = Some n1
  /\ after_advance on_thread removes_itself n1 = Some n2
  /\ m_callbacks n2 = [update_after (sample_callback 11 1 one_insertion)]
  /\ calls n2 = [call_before 10 one_insertion; call_before 11 one_insertion; call_after 11 one_insertion]
  /\ notifier_ok n2.
Proof.
  apply (delivery_refines on_thread removes_itself false two_callbacks
    (mkTurn [sample_callback 11 1 one_insertion] [] [] 2 [call_before 10 one_insertion; call_before 11 one_insertion])
    (mkTurn [update_after (sample_callback 11 1 one_insertion)] [] [] 2
      [call_before 10 one_insertion; call_before 11 one_insertion; call_after 11 one_insertion]) 2 1);
    [apply two_callbacks_ok|done|done|done|done|vm_compute; reflexivity|vm_compute; reflexivity].
Defined.

Lemma errors_delivered_once_witness : exists n', deliver_error on_thread registers_once 5 two_callbacks = Some n'
  /\ calls n' = [call_error 10 5; call_error 11 5]
  /\ Forall (fresh 2) (m_callbacks n') /\ notifier_ok n' /\ m_error n' = true.
Proof. exact (errors_delivered_once on_thread registers_once 1 5 two_callbacks registers_once_adds two_callbacks_deliverable). Defined.

Lemma unpackaged_removal_skips_witness : exists n1 n2 n3 new, add_callback on_thread 12 two_callbacks = Some (n1, inr 2%Z)
  /\ remove_callback 2 n1 = Some n2 /\ m_callbacks n2 = m_callbacks two_callbacks
  /\ after_advance on_thread registers_once n2 = Some n3
  /\ calls n3 = [call_after 10 one_insertion]
  /\ m_callbacks n3 = update_after (sample_callback 10 0 one_insertion) :: sample_callback 11 1 one_insertion :: new.
Proof.
  exact (unpackaged_removal_skips on_thread registers_once 1 on_thread 12 two_callbacks [sample_callback 10 0 one_insertion]
    (sample_callback 11 1 one_insertion) registers_once_adds eq_refl two_callbacks_deliverable eq_refl eq_refl eq_refl).
Defined.

Lemma count_wraps_around_witness : exists n1 n2, add_callback on_thread 12 no_callbacks = Some (n1, inr 2%Z)
  /\ remove_callback 2 n1 = Some n2 /\ m_callbacks n2 = [] /\ m_callback_count n2 = npos
  /\ before_advance on_thread registers_once n2 = None /\ after_advance on_thread registers_once n2 = None.
Proof. exact (count_wraps_around on_thread registers_once on_thread 12 no_callbacks eq_refl no_callbacks_ok eq_refl eq_refl eq_refl eq_refl eq_refl). Defined.

Lemma callbacks_told_everything_witness : exists n1 n2 new, package_for_delivery true accumulated = Some (n1, true)
  /\ after_advance on_thread registers_once n1 = Some n2
  /\ Forall2 (λ c w, changes_tell (changes_to_deliver c) w [7; 8]%Z) (m_callbacks n1) [[7]; [7; 8]]%Z
  /\ calls n2 = omap told_after (m_callbacks n1)
  /\ m_callbacks n2 = (update_after <$> m_callbacks n1) ++ new /\ Forall (fresh 2) new
  /\ Forall2 (λ c c', token c' = token c /\ fn c' = fn c /\ accumulated_changes c' = empty_builder) (m_callbacks accumulated) (m_callbacks n1).
Proof.
  apply (callbacks_told_everything on_thread registers_once 1 [[7]; [7; 8]]%Z [7; 8]%Z accumulated registers_once_adds accumulated_deliverable).
  - constructor; [split; [done|]|constructor; [split; [done|]|constructor]]; apply explains_tells;
      [apply sample_list_explains|apply explains_empty].
  - repeat constructor; decide_wf.
Defined.

Lemma related_tables_found_witness : exists related, DeepChecker.set_table 0 = Some related
  /\ NoDup (related_ndx <$> related)
  /\ (forall t, t ∈ (related_ndx <$> related) <-> rtc table_link 0%Z t)
  /\ Forall (λ tbl, links tbl = all_links (related_ndx tbl)) related.
Proof. apply related_tables_found. split; cbn; lia. Defined.

Lemma package_keeps_ready_witness : let s0 := waited (λ _ s, s) (Some 1%Z) two_notifiers sample_store in
  exists p' s', package_and_wait (λ _ _, true) (λ _ s, s) (Some 1%Z) two_notifiers sample_store = Some (p', s')
    /\ (m_notifiers p' = filter (delivers (λ _ _, true) s0) [0; 1] \/ m_notifiers p' = [])
    /\ (forall v t, m_version p' = Some v -> Some 1%Z = Some t -> (t <= v)%Z)
    /\ (forall a, a ∈ m_notifiers p' -> exists n n', s0 !! a = Some n /\ m_has_run n = true
          /\ package_for_delivery true n = Some (n', true) /\ s' !! a = Some n'
          /\ forall t, Some 1%Z = Some t -> m_have_callbacks n = true -> (t <= m_sg_version n)%Z)
    /\ forall target' s'', package_and_wait (λ _ _, true) (λ _ s, s) target' p' s'' = Some (p', s'').
Proof.
  apply (package_keeps_ready (λ _ _, true) (λ _ s, s) (Some 1%Z) two_notifiers sample_store); [done..| | | |].
  - apply (bool_decide_unpack (NoDup _)). by vm_compute.
  - done.
  - by vm_compute.
  - intros a [-> | ->%list_elem_of_singleton]%elem_of_cons; eexists; (split; [done|]);
      do 2 (apply Forall_cons; split; [split; decide_wf|]); by apply Forall_nil.
Defined.
