(* ===== verification/CoordinatorTheorems.v ===== *)
(** * The coordinator: what is shown *)

From S2P Require Import Core Prelude ChunkedRangeVector ChunkedFacts IndexSet IndexSetFacts CorrFacts.
From S2P Require Import ChangeBuilder ChangeFacts ChangeMove ChangeCompose Samples TransactInfo TransactLog.
From S2P Require Import ListRefinement DeepChecker CollectionNotifier Notifiers NotifierSamples DeliveryFacts.
From S2P Require Import Coordinator CoordinatorFacts CoordinatorInvariant CoordinatorRun AsyncNotifiers.

(** ** Properties *)
Section theorems.
Context `{HB : Build, HO : StdOrders, HG : SharedGroups} {N : Type} `{HA : AsyncNotifier N}.
Context `{HAL : !AsyncNotifierLaws N, HGL : !SharedGroupsLaws}.
Variable log_between : Z -> Z -> list TransactLog.log_call.

Abbreviation world := (@world HG N).

(** C9: registrations, writes, what other threads do to the notifiers, and the
    parts of the worker's runs, in any order, keep the helper groups and the
    notifiers together: while there are new notifiers the advancer reads at or
    before the version of each, the notifiers that have run are all at the version
    that the other group reads at, a group without notifiers holds no version,
    and a version to skip to lies between the notifiers' and the latest. *)
Theorem coordinator_invariant v st : co_reach (N := N) log_between (new_world v, idle) st -> co_inv st.
Proof using HAL HGL. intros Hr. apply (reach_inv _ _ _ Hr), new_world_inv. Qed.

(** C12: between two runs, and as long as no error occurred, the clean-up of dead
    notifiers finds what it asserts, a group that reads, and ends. *)
Theorem clean_up_finds_reading v (w : world) : co_reach log_between (new_world v, idle) (w, idle) ->
  m_async_error (co w) = None -> exists w', clean_up_dead_notifiers w = Some w'.
Proof using HAL HGL. intros Hr. apply clean_up_total. apply (reach_inv _ _ _ Hr), new_world_inv. Qed.

(** C10: a run serves every live notifier: afterwards it is among those that have
    run, and unless the file could not be opened these are all at the latest
    version, with none left to be brought forward. *)
Theorem run_serves_every_notifier v opened (w w' : world) : co_reach log_between (new_world v, idle) (w, idle) ->
  run_async_notifiers log_between opened w = Some w' ->
  (forall a, a ∈ registered w -> lives (store_of w) a -> a ∈ m_old_notifiers (co w'))
  /\ (m_async_error (co w') = None -> m_new_notifiers (co w') = []
      /\ all_at (settled (latest w)) (m_old_notifiers (co w')) (store_of w')).
Proof using HAL HGL.
  intros Hr Hrun. apply run_serves_live in Hrun as (_ & _ & Ha & Hv); [done|].
  apply (reach_inv _ _ _ Hr), new_world_inv.
Qed.

(** *** After an error *)









End theorems.

(** C11: when the commits were read in several steps, the infos are combined so that
    each, and with it every notifier that joined at that step, tells all changes
    of the tables from there to the last version. *)
Theorem infos_tell_to_the_end `{Build, StdOrders} {A : Type} (infos : list TransactionChangeInfo) (rs : list (nat -> list A)) :
  logged infos rs -> joinable infos ->
  exists infos', combine_all infos = Some infos' /\ length infos' = length infos
    /\ forall final, last rs = Some final ->
         forall k info r, infos' !! k = Some info -> rs !! k = Some r -> tables_tell (tables info) r final.
Proof. apply combine_all_tell. Qed.

(** ** A sample file

    A shared group is its stage and version; the commits are empty. *)
#[local] Existing Instance debug_build.

Record sample_group := mkGroup { g_stage : TransactStage; g_version : Z }.

Definition go_to (latest : Z) (v : option Z) (from : Z) : option sample_group :=
  if bool_decide (from <= default latest v)%Z && bool_decide (default latest v <= latest)%Z
  then Some (mkGroup transact_Reading (default latest v)) else None.

#[export] Instance sample_groups : SharedGroups := {
  SharedGroup := sample_group;
  get_transact_stage := g_stage;
  get_version_of_current_transaction := g_version;
  begin_read latest v sg := if decide (g_stage sg = transact_Ready) then go_to latest v (default latest v) else None;
  end_read sg := if decide (g_stage sg = transact_Writing) then sg else mkGroup transact_Ready 0;
  advance_read latest v sg := if decide (g_stage sg = transact_Reading) then go_to latest v (g_version sg) else None;
}.

Lemma go_to_spec latest v from sg : go_to latest v from = Some sg ->
  g_stage sg = transact_Reading /\ g_version sg = default latest v.
Proof. unfold go_to. destruct (_ && _); [by intros [= <-]|done]. Qed.

#[export] Instance sample_groups_laws : SharedGroupsLaws.
Proof.
  split; cbn.
  - intros latest v sg sg'. case_decide; [apply go_to_spec|done].
  - intros latest sg ->. rewrite decide_True by done. unfold go_to. cbn. rewrite !bool_decide_eq_true_2 by lia. by eexists.
  - intros sg Hs. by rewrite decide_False.
  - intros latest v sg sg'. case_decide; [apply go_to_spec|done].
  - intros latest v sg -> Hv. rewrite decide_True by done. unfold go_to. rewrite !bool_decide_eq_true_2 by lia. by eexists.
Qed.

(** Notifiers of lists and of objects; the containers and rows stay where they
    are. *)
Abbreviation sample_notifier := (list_notifier + object_notifier)%type.

#[export] Instance sample_async : AsyncNotifier sample_notifier :=
  sum_async (HM := list_async (λ _ c, c) false) (HN := object_async (λ _ r, r)).

#[export] Instance sample_async_laws : AsyncNotifierLaws sample_notifier.
Proof. unshelve eapply sum_async_laws; [apply list_async_laws|apply object_async_laws]. Qed.

Definition no_log (_ _ : Z) : list TransactLog.log_call := [].
Definition ready_group : sample_group := mkGroup transact_Ready 0.

(** Observers of a list and of an object, at some version. *)
Definition list_observer (v : Z) : sample_notifier :=
  inl (mkListNotifier (new_notifier v) [] None (Some sample_list) 2 empty_builder).
Definition object_observer (v : Z) : sample_notifier :=
  inr (mkObjectNotifier (new_notifier v) [] None (Some (mkObjectRow true 2 5)) empty_builder).

(** Registering, the death of a notifier, a commit and the next part of the
    worker's run, when they are possible. *)
Inductive action :=
| does_register (opened : Z + sample_group) (a : nat) (n : sample_notifier)
| does_die (a : nat)
| does_write
| does_work (opened : Z + sample_group).

Abbreviation sample_state := (@world sample_groups sample_notifier * worker)%type.

Definition act (x : action) (st : sample_state) : option sample_state :=
  let '(w, p) := st in
  match x with
  | does_register opened a n =>
      if bool_decide (a ∈ registered w) || m_sg (base n) || bool_decide (latest w < m_sg_version (base n))%Z then None
      else w' ← register_notifier opened a n w; Some (w', p)
  | does_die a => n ← store_of w !! a; Some (set_store (<[a := with_base (unregister (base n)) n]> (store_of w)) w, p)
  | does_write => Some (commit_write (λ _, true) w, p)
  | does_work opened =>
      match p with
      | idle => '(w', l) ← async_begin no_log opened w; Some (w', match l with Some l => skipping l | None => idle end)
      | skipping l => '(l', w') ← async_skip no_log l w; Some (w', handing l')
      | handing l => w' ← async_skip_handover l w; Some (w', running l)
      | running l => '(l', w') ← async_run no_log l w; Some (w', finishing l')
      | finishing l => w' ← async_finish l w; Some (w', idle)
      end
  end.

Lemma act_step x st st' : act x st = Some st' -> co_step no_log st st'.
Proof.
  destruct st as [w p], x as [opened a n|a| |opened]; unfold act.
  - destruct (_ || _) eqn:Hb; [done|]. apply orb_false_iff in Hb as [[Ha%bool_decide_eq_false Hs]%orb_false_iff Hv%bool_decide_eq_false].
    destruct (register_notifier _ _ _ _) as [w'|] eqn:Hr; mrun; [|done]. intros Heq. apply (inj Some) in Heq as <-.
    eapply co_register; [exact Ha|exact Hs|lia|exact Hr].
  - destruct (store_of w !! a) as [n|] eqn:Hn; mrun; [|done]. intros Heq. apply (inj Some) in Heq as <-.
    by apply (co_change no_log a n (unregister (base n)) w p Hn).
  - intros Heq. apply (inj Some) in Heq as <-. apply co_write.
  - destruct p as [|l|l|l|l].
    + destruct (async_begin _ _ _) as [[w' [l|]]|] eqn:Hr; mrun; intros [= <-]; [by eapply co_begin|by eapply co_nothing].
    + destruct (async_skip _ _ _) as [[l' w']|] eqn:Hr; mrun; [|done]. intros [= <-]. by apply co_skip.
    + destruct (async_skip_handover _ _) as [w'|] eqn:Hr; mrun; [|done]. intros [= <-]. by apply co_hand.
    + destruct (async_run _ _ _) as [[l' w']|] eqn:Hr; mrun; [|done]. intros [= <-]. by apply co_run.
    + destruct (async_finish _ _) as [w'|] eqn:Hr; mrun; [|done]. intros [= <-]. by apply co_finish.
Qed.

Definition drive (l : list action) (st : sample_state) : option sample_state := foldM act l st.

Lemma drive_reach l : forall st st', drive l st = Some st' -> co_reach no_log st st'.
Proof.
  induction l as [|x l IH]; intros st st'; cbn [drive foldM].
  - intros [= <-]. apply rtc_refl.
  - destruct (act x st) as [st1|] eqn:Hx; [|done]. intros Hr. eapply rtc_l; [by eapply act_step|by apply IH].
Qed.

(** Two observers of different versions, the latest is a third. *)
Definition two_observers : list action :=
  [does_register (inr ready_group) 0 (list_observer 2); does_register (inr ready_group) 1 (object_observer 1)].

(** They run, two commits are made, of which the second is to be reported on its
    own, and another observer joins between two parts of the next run. *)
Definition busy : list action :=
  two_observers ++ replicate 5 (does_work (inr ready_group)) ++ [does_write; does_write; does_work (inr ready_group);
    does_register (inr ready_group) 2 (object_observer 4)] ++ replicate 3 (does_work (inr ready_group)).


(** ** Witnesses *)
Lemma coordinator_invariant_witness : exists st, co_reach no_log (new_world 3, idle) st /\ co_inv st.
Proof.
  eexists. assert (Hr : co_reach no_log (new_world 3, idle) _) by (apply (drive_reach busy); vm_compute; reflexivity).
  split; [exact Hr|]. exact (coordinator_invariant no_log 3 _ Hr).
Defined.

Lemma clean_up_finds_reading_witness : exists w w', co_reach no_log (new_world 3, idle) (w, idle)
  /\ clean_up_dead_notifiers w = Some w'.
Proof.
  eexists. assert (Hr : co_reach no_log (new_world 3, idle) (_, idle))
    by (apply (drive_reach (two_observers ++ [does_die 0; does_die 1])); vm_compute; reflexivity).
  destruct (clean_up_finds_reading no_log 3 _ Hr eq_refl) as [w' Hw]. exists w'. split; [exact Hr|exact Hw].
Defined.

Lemma run_serves_every_notifier_witness : exists w w', co_reach no_log (new_world 3, idle) (w, idle)
  /\ run_async_notifiers no_log (inr ready_group) w = Some w' /\ registered w = [0; 1]
  /\ m_new_notifiers (co w') = [] /\ all_at (settled 3) (m_old_notifiers (co w')) (store_of w').
Proof.
  pose (st := default (new_world 3, idle) (drive two_observers (new_world 3, idle))).
  pose (w' := default (new_world 3) (run_async_notifiers no_log (inr ready_group) st.1)).
  assert (Hr : co_reach no_log (new_world 3, idle) (st.1, idle)) by (apply (drive_reach two_observers); vm_compute; reflexivity).
  assert (Hrun : run_async_notifiers no_log (inr ready_group) st.1 = Some w') by (vm_compute; reflexivity).
  exists st.1, w'. split; [exact Hr|]. split; [exact Hrun|]. split; [vm_compute; reflexivity|].
  exact (proj2 (run_serves_every_notifier no_log 3 _ _ _ Hr Hrun) ltac:(vm_compute; reflexivity)).
Defined.


(** Row 1 of table 0 was inserted at the first step, row 2 at the second. *)
Definition inserted_at (i : Z) : CollectionChangeBuilder := sample_builder [] [(i, i + 1)]%Z [] [].
Definition step_info (i : Z) : TransactionChangeInfo := move_tables [inserted_at i] new_info.
Definition table_0 (rows : list Z) : nat -> list Z := λ j, match j with 0 => rows | _ => [] end.

Lemma inserted_tell_1 : tells (inserted_at 1) [7]%Z [7; 8]%Z.
Proof. apply explains_tells, sample_list_explains. Qed.

Lemma inserted_tell_2 : tells (inserted_at 2) [7; 8]%Z [7; 8; 9]%Z.
Proof.
  apply explains_tells.
  destruct (insert_explains empty_builder [7; 8]%Z [7; 8]%Z 2 9%Z) as (b & Hb & He); [apply explains_empty|cbn; lia|cbn; lia|].
  vm_compute in Hb. by injection Hb as <-.
Qed.

Lemma inserted_mergeable : mergeable (inserted_at 1) (inserted_at 2).
Proof. split; try decide_wf; [by intros i z ?%elem_of_flat%mem_nil..|]. unfold AddShiftedFacts.fits. vm_compute. lia. Qed.

Lemma steps_logged : logged [step_info 1; step_info 2] [table_0 [7]; table_0 [7; 8]; table_0 [7; 8; 9]]%Z.
Proof.
  apply logged_cons; [intros [|j]; [apply inserted_tell_1|done]|].
  apply logged_cons; [intros [|j]; [apply inserted_tell_2|done]|]. apply logged_nil.
Qed.

Lemma steps_joinable : joinable [step_info 1; step_info 2].
Proof.
  split; [split; [done|]|].
  - intros cur rest [= ].
  - intros cur rest Hc. vm_compute in Hc. injection Hc as <- <-. intros [|j] b c [= <-]; [intros [= <-]; apply inserted_mergeable].
Qed.

Lemma infos_tell_to_the_end_witness : exists infos', combine_all [step_info 1; step_info 2] = Some infos' /\ length infos' = 2
  /\ forall final, last [table_0 [7]; table_0 [7; 8]; table_0 [7; 8; 9]]%Z = Some final ->
       forall k info r, infos' !! k = Some info -> [table_0 [7]; table_0 [7; 8]; table_0 [7; 8; 9]]%Z !! k = Some r ->
         tables_tell (tables info) r final.
Proof. exact (infos_tell_to_the_end [step_info 1; step_info 2] _ steps_logged steps_joinable). Defined.
