(* ===== verification/SyncUserTheorems.v ===== *)
(** * Sync users: what is shown *)

From Stdlib Require Import Ascii String.
From stdpp Require Import strings.
From S2P Require Import Prelude SyncUsers SyncUserFacts SyncPersistence SyncFile.

#[local] Open Scope string_scope.
#[local] Open Scope list_scope.

(** ** Runs with restarts *)
Section runs.
Context `{HB : Build, HO : HashOrders}.
Variable others : list UserRow -> list UserRow.
Hypothesis others_rest : forall rows, others rows = rows.
Variable remove_user_directory : string -> bool.

(** The manager starts without users and with an empty metadata Realm; any operation
    may follow, and it may be started again at any time. The set says which users
    are logged out with their administrator's flag written since: no part of the
    code keeps it. *)
Inductive runs : gset nat -> SyncManager -> Prop :=
| runs_new : runs ∅ (new_manager (Some []))
| runs_op W x m m' : runs W m -> apply others x m = Some m' -> runs (written x m' W) m'
| runs_restart W m m' rows : runs W m -> m_metadata_manager m = Some rows ->
    configure others remove_user_directory rows 0 (new_manager None) = Some m' -> runs ∅ m'.

Definition free_from (a : nat) (m : SyncManager) : Prop := forall b, a <= b -> all_users m !! b = None.

Lemma load_user_ok r m a m' a' : load_user others r (m, a) = Some (m', a') -> registry_ok m -> free_from a m -> registry_ok m' /\ free_from a' m'.
Proof using Type.
  unfold load_user. destruct (idx_user_token r) as [t|]; [|by intros [= <- <-]].
  destruct (new_SyncUser _ _ _ _ _ _ _ _) as [[u m1]|] eqn:Hn; mrun; [|done]. apply new_user_fields in Hn as (Hs & Hse & Hw & Hi & Hurl & Ht & _ & x & ->).
  destruct (set_is_admin _ _ _ _ _) as [m2|] eqn:H2; mrun; [|done]. intros [= <- <-] Hok Hfree.
  set (m1 := set_all_users _ _) in H2. assert (Hok1 : registry_ok m1) by (apply add_user_ok; [by apply Hfree|by apply new_user_ok|by apply set_metadata_ok]).
  pose proof (set_is_admin_ok others _ _ _ _ _ H2 Hok1) as Hok2.
  assert (Hall : all_users m2 = alter (set_admin (Some (idx_user_is_admin r))) a (all_users m1)).
  { revert H2. unfold set_is_admin, m1. cbn [all_users set_all_users]. rewrite lookup_insert_eq. mrun. rewrite bool_decide_eq_false_2 by by rewrite Ht.
    intros [= <-]. unfold perform_metadata_update. by destruct (m_metadata_manager _). }
  split.
  - destruct Hok2 as [R1 R2 R3 R4 R5]. split; try done. cbn. destruct (m_users m2 !! row_key r) eqn:Hr; [done|].
    intros k b [[<- <-]|[_ Hk]]%lookup_insert_Some; [|by apply R2]. exists (set_admin (Some (idx_user_is_admin r)) u).
    rewrite Hall. unfold m1. cbn. rewrite lookup_alter_eq, lookup_insert_eq. split_and!; [done| |done]. unfold user_key. cbn. by rewrite Hi, Hurl.
  - intros b Hb. cbn. rewrite Hall. unfold m1. cbn. rewrite lookup_alter_ne, lookup_insert_ne by lia. apply Hfree. lia.
Qed.

Lemma configure_ok rows m' : configure others remove_user_directory rows 0 (new_manager None) = Some m' -> registry_ok m'.
Proof using Type.
  unfold configure. destruct (foldM _ _ _) as [[m1 a1]|] eqn:Hf; mrun; [|done]. intros [= <-].
  assert (H0 : registry_ok (set_metadata (Some (remove_dead remove_user_directory rows)) (new_manager None))) by apply set_metadata_ok, new_manager_ok.
  assert (F0 : free_from 0 (set_metadata (Some (remove_dead remove_user_directory rows)) (new_manager None))) by (intros b _; apply lookup_empty).
  revert Hf H0 F0. generalize (set_metadata (Some (remove_dead remove_user_directory rows)) (new_manager None)) as m, 0 as a.
  induction (get_users false rows) as [|r l IH]; intros m a; cbn [foldM]; [by intros [= <- <-]|].
  destruct (load_user others r (m, a)) as [[m2 a2]|] eqn:Hl; mrun; [|done]. intros Hf Hok Hfree.
  destruct (load_user_ok _ _ _ _ _ Hl Hok Hfree). by eapply IH.
Qed.

Lemma users_rows W m : runs W m -> registry_ok m /\ kept W m /\ all_logged_out W m.
Proof using others_rest.
  induction 1 as [|W x m m' _ (Hok & Hk & HW) Hx|W m m' rows _ (_ & (rows' & Hm & Hp) & _) Hrows Hc].
  - split_and!; [apply new_manager_ok| |by intros a ?%elem_of_empty]. exists []. split; [done|].
    split; [apply NoDup_nil_2|by intros r ?%elem_of_nil| |]; intros k a; cbn; by rewrite lookup_empty.
  - split_and!; [by eapply apply_ok|by eapply apply_kept|apply written_logged_out].
  - split_and!; [by eapply configure_ok| |by intros a ?%elem_of_empty]. rewrite Hrows in Hm. injection Hm as ->.
    destruct (configure_spec others remove_user_directory _ _ _ Hp) as (m1 & Hc1 & Hk & _). rewrite Hc1 in Hc. by injection Hc as ->.
Qed.

(** C22: whatever the application and the sessions do, and however often the manager
    is started again: the sessions of a user that is logged in do not wait and
    those of one that is logged out all do, each at its path; the users are
    registered under their identity and server; a session that the application
    holds is registered; and the rows of the metadata have the token, the
    administrator's flag and the local identity of the users, one that is logged in
    not being marked for removal, and one that is logged out being marked exactly
    if its administrator's flag has not been written since. (No other process writes
    the metadata.) *)
Theorem users_and_metadata_agree W m : runs W m -> registry_ok m /\ kept W m /\ all_logged_out W m.
Proof using others_rest. apply users_rows. Qed.

(** C20: starting again succeeds, after any run. The users that were logged in are
    there again, with their identities, token and administrator's flag, and so are
    those that were logged out and whose flag has been written since; the others
    that were logged out are not, nor are users that there were not. (No other
    process writes the metadata.) *)
Theorem restart_keeps_users W m rows : runs W m -> m_metadata_manager m = Some rows ->
  exists m', configure others remove_user_directory rows 0 (new_manager None) = Some m'
    /\ (forall k a u, m_users m !! k = Some a -> all_users m !! a = Some u -> m_state u = Active \/ a ∈ W ->
         exists b, m_users m' !! k = Some b /\ all_users m' !! b =
           Some (mkSyncUser Active (m_local_identity u) None None (m_server_url u) Normal (m_is_admin u) (m_refresh_token u) (m_identity u) ∅ ∅))
    /\ (forall k a u, m_users m !! k = Some a -> all_users m !! a = Some u -> m_state u = LoggedOut -> a ∉ W -> m_users m' !! k = None)
    /\ (forall k, m_users m !! k = None -> m_users m' !! k = None).
Proof using others_rest.
  intros Hruns Hrows. destruct (users_rows W m Hruns) as (Hok & (rows' & Hm & Hp) & HW). rewrite Hrows in Hm. injection Hm as <-.
  destruct (configure_spec others remove_user_directory _ _ _ Hp) as (m' & Hc & _ & Hin & Hout). exists m'. split; [done|].
  assert (Hrow : forall k a u, m_users m !! k = Some a -> all_users m !! a = Some u ->
    exists r, r ∈ rows /\ row_key r = k /\ user_key u = k /\ agrees (bool_decide (a ∈ W)) r u).
  { intros k a u Hk Hu. destruct (ro_keys _ Hok _ _ Hk) as (u' & Hu' & Hkey & Ht). rewrite Hu in Hu'. injection Hu' as <-.
    destruct (persisted_row _ _ _ _ _ Hp Hu Ht) as (i & r & _ & Hi & Hrk & Ha). exists r. split_and!; [by eapply list_elem_of_lookup_2|congruence|done|done]. }
  split_and!.
  - intros k a u Hk Hu Hs. destruct (Hrow k a u Hk Hu) as (r & Hr & Hrk & Huk & [Atok Aad Aloc Alo Aact]).
    destruct (Hin r Hr) as (b & Hb & Hl).
    { destruct Hs as [Hs|Hs]; [by apply Aact|]. rewrite Alo by (apply HW in Hs; rewrite Hu in Hs; by injection Hs). by rewrite bool_decide_eq_true_2. }
    exists b. rewrite <- Hrk. split; [done|]. rewrite Hl. unfold loaded. rewrite Atok, Aad, Aloc. cbn.
    unfold row_key in Hrk. rewrite <- Huk in Hrk. injection Hrk as -> ->. done.
  - intros k a u Hk Hu Hs Ha. destruct (m_users m' !! k) as [b|] eqn:Hb; [|done]. destruct (Hout k b Hb) as (s & Hs' & Hsm & Hsk).
    destruct (Hrow k a u Hk Hu) as (r & Hr & Hrk & _ & [_ _ _ Alo _]). apply list_elem_of_lookup_1 in Hr as (i & Hi), Hs' as (j & Hj).
    assert (i = j) as -> by (eapply (row_unique rows); [apply Hp|done|done|congruence]). rewrite Hi in Hj. injection Hj as <-.
    rewrite (Alo Hs) in Hsm. by rewrite bool_decide_eq_false_2 in Hsm.
  - intros k Hk. destruct (m_users m' !! k) as [b|] eqn:Hb; [|done]. destruct (Hout k b Hb) as (s & Hs' & Hsm & Hsk).
    destruct (ps_rows _ _ _ _ Hp s Hs') as [_ Hms]. rewrite Hsk, Hk in Hms. congruence.
Qed.

(** C26: the administrator's flag of a user that is logged out: writing it keeps the
    user logged out, but its row is no longer marked for removal, and when the
    manager is started again the user is logged in, with its old token. *)
Theorem admin_flag_logs_in W m a u flag uuid : runs W m -> all_users m !! a = Some u -> m_token_type u = Normal -> m_state u = LoggedOut ->
  exists m1 rows m2 c v, set_is_admin others a flag uuid m = Some m1
    /\ m_state <$> all_users m1 !! a = Some LoggedOut /\ m_metadata_manager m1 = Some rows
    /\ configure others remove_user_directory rows 0 (new_manager None) = Some m2
    /\ m_users m2 !! user_key u = Some c /\ all_users m2 !! c = Some v
    /\ m_state v = Active /\ m_refresh_token v = m_refresh_token u /\ m_is_admin v = Some flag.
Proof using others_rest.
  intros Hruns Hu Ht Hs. destruct (users_rows W m Hruns) as (_ & (rows & Hm & Hp) & _).
  destruct (persisted_row _ _ _ _ _ Hp Hu Ht) as (i & r & Hi & Hri & Hrk & Ha).
  set (g := λ r, set_is_admin_row flag (set_marked false r)). set (rows1 := alter g i rows).
  set (f := λ u, set_state Active (set_admin (Some flag) u)).
  assert (Hp1 : persisted W (m_users m) (alter f a (all_users m)) rows1).
  { eapply (persisted_change _ _ _ a u f g i r); try done. intros [? ? ? ? ?]. by split. }
  destruct (configure_spec others remove_user_directory _ _ _ Hp1) as (m2 & Hc & _ & Hin & _).
  assert (Hr1 : rows1 !! i = Some (g r)) by (unfold rows1; by rewrite list_lookup_alter_eq, Hri).
  destruct (Hin (g r)) as (c & Hc1 & Hv); [by eapply list_elem_of_lookup_2|done|].
  exists (set_metadata (Some rows1) (on_user (set_admin (Some flag)) a m)), rows1, m2, c, (loaded (g r)). split_and!; try done.
  - unfold set_is_admin. rewrite Hu. mrun. rewrite bool_decide_eq_false_2 by by rewrite Ht. unfold perform_metadata_update.
    cbn [on_user set_all_users m_metadata_manager]. rewrite Hm. cbn [fst]. by rewrite (update_metadata_found others _ _ _ _ i Hi).
  - cbn. rewrite lookup_alter_eq, Hu. cbn. by rewrite Hs.
  - rewrite <- Hrk. exact Hc1.
  - destruct Ha as [Htok _ _ _ _]. unfold loaded, g. cbn. by rewrite Htok.
Qed.
End runs.

Section users.
Context `{HB : Build, HO : HashOrders}.
Variable others : list UserRow -> list UserRow.

(** C21: a user that is logged out and logs in again has its sessions back. After
    any history both operations succeed. The logout closes each session that is
    alive, and those that the application holds stay registered; the login gives
    the user the new token, and exactly the sessions that are still registered,
    each of which is revived and then active. *)
Theorem login_revives_sessions ops x m a u token uuid : history others ops (new_manager x) m ->
  all_users m !! a = Some u -> m_token_type u = Normal -> m_state u = Active ->
  exists m1 m2 v, log_out others a m = Some m1 /\ update_refresh_token others a token uuid m1 = Some m2 /\ all_users m2 !! a = Some v
    /\ m_state v = Active /\ m_refresh_token v = token /\ m_waiting_sessions v = ∅
    /\ (forall p s, m_sessions u !! p = Some s -> is_registered m s = true -> called_log_out s ∈ calls m1)
    /\ (forall s, is_Some (references m !! s) -> is_registered m1 s = true)
    /\ (forall p s, m_sessions v !! p = Some s <-> m_sessions u !! p = Some s /\ is_registered m1 s = true)
    /\ (forall p s, m_sessions v !! p = Some s -> called_revive_if_needed s ∈ calls m2 /\ inactive <$> all_sessions_made m2 !! s = Some false).
Proof using Type.
  intros Hh Hu Ht Hs. pose proof (history_ok others ops _ _ Hh (new_manager_ok x)) as Hok. clear Hh x.
  destruct (user_log_out_total others a u m Hok Hu) as [m1 H1]. pose proof (log_out_ok others _ _ _ H1 Hok) as Hok1.
  destruct (log_out_spec others a m m1 u Hu Ht ltac:(by rewrite Hs) H1) as (W & m0 & HW & Hst & Hm1 & Hex).
  destruct (Hex Hok) as [Href Hsess]. clear Hex.
  destruct (perform_fields (mark_for_removal others (user_key u)) m0) as (F1 & F2 & F3 & F4 & _ & F6 & _ & _). rewrite <- Hm1 in F1, F2, F3, F4, F6.
  assert (Hu1 : all_users m1 !! a = Some (logged_out W u)) by (rewrite F1, (ss_all _ _ Hst); cbn; by rewrite lookup_alter_eq, Hu).
  destruct (update_token_total others a _ token uuid m1 Hu1) as [m2 H2].
  destruct (update_spec others a token uuid m1 m2 _ Hu1 ltac:(done) H2) as (m3 & Hm3 & Hst2).
  assert (Hu3 : all_users m3 = all_users m1) by (rewrite Hm3; case_bool_decide; [|done]; apply perform_fields).
  assert (Hwait : W ∪ m_waiting_sessions u = W) by (rewrite (uo_active _ _ (ro_users _ Hok a u Hu) Hs); apply (right_id_L ∅ (∪))).
  assert (Hregs : forall s, is_registered m1 s = is_registered m0 s) by (intros s; unfold is_registered; by rewrite F2, F3).
  assert (Hback : forall s, is_registered m1 s = true -> is_registered m s = true).
  { intros s. rewrite Hregs. apply (step_registered_back (on_user (logged_out W) a m)); [exact (ro_paths _ Hok)|done]. }
  set (v := logged_in token m1 (logged_out W u)). exists m1, m2, v.
  assert (Hv : forall p s, m_sessions v !! p = Some s <-> W !! p = Some s /\ is_registered m1 s = true).
  { intros p s. unfold v, logged_in. cbn [m_state logged_out set_sessions set_state m_sessions m_refresh_token set_refresh_token].
    rewrite (right_id_L ∅ (∪)), waiting_live_spec. cbn [logged_out m_waiting_sessions set_sessions set_state]. by rewrite Hwait. }
  split_and!; try done.
  - rewrite (ss_all _ _ Hst2). cbn. by rewrite Hu3, lookup_alter_eq, Hu1.
  - intros p s Hp Hr. rewrite F6. by apply (Hsess p s Hp).
  - intros s [r Hr]. rewrite Hregs. apply (ss_kept _ _ Hst); [exact (ro_references _ Hok s r Hr)|]. rewrite Href. by eexists.
  - intros p s. rewrite Hv. split.
    + intros [Hp Hr]. auto.
    + intros [Hp Hr]. split; [|done]. apply (Hsess p s Hp). auto.
  - intros p s [Hp Hr]%Hv. pose proof Hr as (q & Hq & _)%is_registered_spec.
    eapply (update_calls others a token uuid m1 m2 _ Hu1 ltac:(done) H2 s); [|destruct (all_sessions_made m1 !! s); [by eexists|done]].
    assert (Hin : list_to_map (M := gmap string nat) (waiting_live m1 (logged_out W u)) !! p = Some s).
    { apply waiting_live_spec. cbn [logged_out m_waiting_sessions set_sessions set_state]. by rewrite Hwait. }
    apply elem_of_list_to_map_2 in Hin. by apply (list_elem_of_fmap_2 snd _ (p, s)).
Qed.

Lemma find_index_active (P : nat -> bool) (l : list (SyncUserIdentifier * nat)) :
  match find_index P (snd <$> l) with
  | None => forall k a, (k, a) ∈ l -> P a = false
  | Some i => exists l1 k a l2, l = l1 ++ (k, a) :: l2 /\ length l1 = i /\ P a = true /\ forall k' a', (k', a') ∈ l1 -> P a' = false
  end.
Proof using Type.
  destruct (find_index_cases P (snd <$> l)) as [[Hf ->]|(l1 & a & l2 & Hl & Hf & Ha & ->)]; rewrite Forall_forall in Hf.
  - intros k a Hin. apply Hf. by apply (list_elem_of_fmap_2 snd _ (k, a)).
  - apply fmap_app_inv in Hl as (l1' & l2' & -> & Hl2 & ->). symmetry in Hl2. apply fmap_cons_inv in Hl2 as ([k a'] & l2'' & -> & -> & ->).
    exists l1', k, a', l2''. split_and!; [done|by rewrite length_fmap|done|]. intros k' b Hin. apply Hf. by apply (list_elem_of_fmap_2 snd _ (k', b)).
Qed.

(** In whatever order the map of the users is visited, the current user is the
    only one that is active, there is none if no user is active, and the exception
    is thrown exactly if several are. *)
Theorem current_user_exact m :
  match get_current_user m with
  | inr None => forall k a, m_users m !! k = Some a -> is_active m a = false
  | inr (Some a) => exists k, m_users m !! k = Some a /\ is_active m a = true
      /\ forall k' a', m_users m !! k' = Some a' -> is_active m a' = true -> k' = k
  | inl _ => exists k k' a a', k <> k' /\ m_users m !! k = Some a /\ m_users m !! k' = Some a' /\ is_active m a = true /\ is_active m a' = true
  end.
Proof using Type.
  unfold get_current_user. assert (Hl : forall k a, (k, a) ∈ hash_order (m_users m) <-> m_users m !! k = Some a) by (intros k a; by rewrite hash_order_perm, elem_of_map_to_list).
  assert (Hnd : NoDup (hash_order (m_users m)).*1) by (rewrite hash_order_perm; apply NoDup_fst_map_to_list). revert Hl Hnd.
  generalize (hash_order (m_users m)) as l. intros l Hl Hnd.
  pose proof (find_index_active (is_active m) l) as Hi. destruct (find_index _ _) as [i|]; [|intros k a Hk; by apply (Hi k), Hl].
  destruct Hi as (l1 & k & a & l2 & -> & <- & Ha & Hl1).
  assert (Hdrop : drop (S (length l1)) (snd <$> l1 ++ (k, a) :: l2) = snd <$> l2).
  { rewrite fmap_app, drop_app_ge by (rewrite length_fmap; lia). rewrite length_fmap. by replace (S (length l1) - length l1) with 1 by lia. }
  rewrite Hdrop. pose proof (find_index_active (is_active m) l2) as Hj. assert (Hk : m_users m !! k = Some a) by (apply Hl, elem_of_app; right; left).
  destruct (find_index _ _) as [j|].
  - destruct Hj as (l3 & k' & a' & l4 & -> & _ & Ha' & _). exists k, k', a, a'. split_and!; [|done| |done|done].
    + intros ->. rewrite fmap_app in Hnd. cbn in Hnd. apply NoDup_app in Hnd as (_ & _ & Hnd). apply NoDup_cons in Hnd as [Hn _]. apply Hn.
      rewrite fmap_app. apply elem_of_app. right. left.
    + apply Hl, elem_of_app. right. right. apply elem_of_app. right. left.
  - rewrite fmap_app. cbn. rewrite list_lookup_middle by by rewrite length_fmap. exists k. split_and!; [done..|].
    intros k' a' [Hin|[[= -> ->]|Hin]%elem_of_cons]%Hl%elem_of_app Hact; [|done|]; exfalso.
    + by rewrite (Hl1 k' a' Hin) in Hact.
    + by rewrite (Hj k' a' Hin) in Hact.
Qed.
End users.

(** ** Names and paths *)

(** C24: a name that is percent-encoded is decoded to itself exactly if none of its
    characters is below 16, whatever the build; such a character is printed with a
    space, and the decoding throws. *)
Theorem percent_encoding_round_trip `{Build} s :
  make_raw_string (make_percent_encoded_string s) =
  Some (if forallb (λ c, negb (code c <? 16)%nat) s then inr s else inl hex_error).
Proof.
  unfold make_raw_string. pose proof (decode_encoded s (length (make_percent_encoded_string s)) [] [] (encoded_length s)) as Hd.
  cbn [app] in Hd. rewrite <- encoded_spec in Hd. exact Hd.
Qed.

(** C23: a synchronised Realm has a path of its own. When paths are returned, for any
    states of the file system, different users or different Realms have different
    ones; each consists of the directory for synchronised Realms and two names, of
    the user and of the Realm, that have no separator and are not reserved. *)
Theorem realm_paths_are_apart `{Build, FileSystem} base l r l' r' fs fs1 fs' fs1' p p' :
  realm_path base l r fs = Some (fs1, inr p) -> realm_path base l' r' fs' = Some (fs1', inr p') ->
  (p = p' -> l = l' /\ r = r')
  /\ exists dir user name, file_path_by_appending_component base c_sync_directory Directory = Some dir
       /\ p = dir ++ user ++ ["/"%char] ++ name /\ user <> [] /\ "/"%char ∉ user /\ "/"%char ∉ name
       /\ filename_is_reserved user = false /\ filename_is_reserved name = false.
Proof.
  intros (dir & Hd & -> & Hul & Hr & Hl)%realm_path_shape (dir' & Hd' & -> & _ & _ & _)%realm_path_shape. rewrite Hd in Hd'. injection Hd' as <-. split.
  - intros [Hu Hn]%(inj (dir ++.))%split_at_slash; [|apply encoded_no_slash..]. by split; apply encoded_inj.
  - exists dir, (make_percent_encoded_string l), (make_percent_encoded_string r). split_and!; try done.
    + by intros ?%encoded_nil.
    + apply encoded_no_slash.
    + apply encoded_no_slash.
    + by rewrite reserved_encoded.
Qed.

(** C25: the table of file actions has one row for each original name: a new action
    replaces the one for the same Realm and no other. When the pending actions are
    run, exactly those that could not be completed are left. *)
Theorem pending_actions_are_left `{Build, FileSystem} rows name url uuid a new : NoDup (original_name <$> rows) ->
  let rows1 := make_file_action_metadata name url uuid a new rows in
  NoDup (original_name <$> rows1)
  /\ (forall name', get_file_action_metadata name' rows1 =
        if bool_decide (name' = name) then Some (mkFileAction name new a url uuid) else get_file_action_metadata name' rows)
  /\ forall fs fs' rows2, run_pending_actions rows1 fs = Some (fs', inr rows2) ->
       exists ds, outcomes rows1 fs ds fs' /\ rows2 ≡ₚ with_outcome false rows1 ds.
Proof.
  intros Hnd rows1. assert (Hnd1 : NoDup (original_name <$> rows1)) by by apply make_action_names. split_and!; [done|by apply get_made_action|].
  intros fs fs' rows2. unfold run_pending_actions. intros (fs1 & l & (ds & Ho & ->)%completed_outcomes & [= -> <-])%bind_returns.
  exists ds. split; [done|]. apply remove_all_perm; [done|]. by eapply with_outcome_split.
Qed.

(** ** Samples

    Two users of which one logs out, with a Realm that the application holds. *)
#[local] Existing Instance debug_build.

#[local] Instance listed : HashOrders.
Proof. refine {| hash_order := λ K _ _ A m, map_to_list m |}. done. Defined.

Definition rest (rows : list UserRow) : list UserRow := rows.
Definition removes (local_uuid : string) : bool := true.

Definition alice : SyncUserIdentifier := ("alice", "https://example.com").
Definition bob : SyncUserIdentifier := ("bob", "https://example.com").

Definition sample_ops : list op :=
  [does_get_user alice "token a" "uuid a" 0; does_get_session "/realm" 0 0;
   does_get_user bob "token b" "uuid b" 1; does_set_is_admin 0 true ""; does_log_out 1].

Definition sample_manager : SyncManager := default (new_manager None) (foldM (apply rest) sample_ops (new_manager (Some []))).

Definition run_op `{Build, HashOrders} (others : list UserRow -> list UserRow) (x : op) (s : gset nat * SyncManager) : option (gset nat * SyncManager) :=
  (λ m', (written x m' s.1, m')) <$> apply others x s.2.

Lemma runs_ops `{Build, HashOrders} others rm ops : forall W m W' m', runs others rm W m ->
  foldM (run_op others) ops (W, m) = Some (W', m') -> runs others rm W' m'.
Proof.
  induction ops as [|x ops IH]; intros W m W' m' Hm; cbn [foldM]; [by intros [= <- <-]|].
  destruct (run_op others x (W, m)) as [[W1 m1]|] eqn:Hx; mrun; [|done]. apply IH. apply fmap_Some in Hx as (m2 & Hx & [= -> ->]).
  by eapply runs_op.
Qed.

(** The user that has logged out, and the flag that is then written. *)
Definition flagged_ops : list op := sample_ops ++ [does_set_is_admin 1 true ""].
Definition run_sample (ops : list op) : gset nat * SyncManager := default (∅, new_manager None) (foldM (run_op rest) ops (∅, new_manager (Some []))).

Lemma run_sample_runs ops : foldM (run_op rest) ops (∅, new_manager (Some [])) <> None -> runs rest removes (run_sample ops).1 (run_sample ops).2.
Proof.
  unfold run_sample. intros Hs. destruct (foldM (run_op rest) ops _) as [[W m]|] eqn:Hf; [|done]. eapply runs_ops; [apply runs_new|exact Hf].
Qed.

Lemma sample_runs : runs rest removes (run_sample sample_ops).1 (run_sample sample_ops).2.
Proof. apply run_sample_runs. by vm_compute. Qed.

Lemma flagged_runs : runs rest removes (run_sample flagged_ops).1 (run_sample flagged_ops).2.
Proof. apply run_sample_runs. by vm_compute. Qed.

Lemma sample_history : history rest sample_ops (new_manager (Some [])) sample_manager.
Proof. by vm_compute. Qed.

Lemma users_and_metadata_agree_witness : exists W m, runs rest removes W m /\ 1 ∈ W /\ kept W m.
Proof.
  exists (run_sample flagged_ops).1, (run_sample flagged_ops).2. split; [exact flagged_runs|]. split; [by vm_compute|].
  destruct (users_and_metadata_agree rest (λ _, eq_refl) removes _ _ flagged_runs) as (_ & Hk & _). exact Hk.
Defined.

Definition no_user : SyncUser := mkSyncUser Error "" None None "" Normal None "" "" ∅ ∅.
Definition nth_user (m : SyncManager) (a : nat) : SyncUser := default no_user (all_users m !! a).

(** Without the flag the user that logged out is gone, with it it is there again. *)
Lemma restart_keeps_users_witness :
  (exists m', configure rest removes (default [] (m_metadata_manager (run_sample sample_ops).2)) 0 (new_manager None) = Some m'
     /\ (exists c, m_users m' !! alice = Some c) /\ m_users m' !! bob = None)
  /\ (exists m', configure rest removes (default [] (m_metadata_manager (run_sample flagged_ops).2)) 0 (new_manager None) = Some m'
     /\ exists c, m_users m' !! bob = Some c).
Proof.
  split.
  - destruct (restart_keeps_users rest (λ _, eq_refl) removes _ _ (default [] (m_metadata_manager (run_sample sample_ops).2)) sample_runs ltac:(by vm_compute))
      as (m' & Hc & Hin & Hout & _). exists m'. split; [exact Hc|]. split.
    + destruct (Hin alice 0 (nth_user (run_sample sample_ops).2 0) ltac:(by vm_compute) ltac:(by vm_compute) ltac:(left; by vm_compute)) as (c & Hk & _).
      exists c. exact Hk.
    + apply (Hout bob 1 (nth_user (run_sample sample_ops).2 1)); [by vm_compute..|]. by apply (bool_decide_unpack _).
  - destruct (restart_keeps_users rest (λ _, eq_refl) removes _ _ (default [] (m_metadata_manager (run_sample flagged_ops).2)) flagged_runs ltac:(by vm_compute))
      as (m' & Hc & Hin & _). exists m'. split; [exact Hc|].
    destruct (Hin bob 1 (nth_user (run_sample flagged_ops).2 1) ltac:(by vm_compute) ltac:(by vm_compute) ltac:(right; by vm_compute)) as (c & Hk & _).
    exists c. exact Hk.
Defined.

Lemma login_revives_sessions_witness : exists m1 m2 v, log_out rest 0 sample_manager = Some m1
  /\ update_refresh_token rest 0 "token c" "" m1 = Some m2 /\ all_users m2 !! 0 = Some v
  /\ m_refresh_token v = "token c" /\ m_sessions v !! "/realm" = Some 0.
Proof.
  pose (u := default (mkSyncUser Error "" None None "" Normal None "" "" ∅ ∅) (all_users sample_manager !! 0)).
  destruct (login_revives_sessions rest sample_ops (Some []) sample_manager 0 u "token c" "" sample_history ltac:(by vm_compute) ltac:(by vm_compute) ltac:(by vm_compute))
    as (m1 & m2 & v & H1 & H2 & Hv & _ & Htok & _ & _ & Hkeep & Hs & _).
  exists m1, m2, v. split; [exact H1|]. split; [exact H2|]. split; [exact Hv|]. split; [exact Htok|]. apply Hs. split; [by vm_compute|].
  apply Hkeep. exists 0. by vm_compute.
Defined.

Lemma admin_flag_logs_in_witness : exists m1 rows m2 c v, set_is_admin rest 1 true "" (run_sample sample_ops).2 = Some m1
  /\ m_metadata_manager m1 = Some rows /\ configure rest removes rows 0 (new_manager None) = Some m2
  /\ m_users m2 !! bob = Some c /\ all_users m2 !! c = Some v /\ m_state v = Active.
Proof.
  pose (u := nth_user (run_sample sample_ops).2 1).
  destruct (admin_flag_logs_in rest (λ _, eq_refl) removes _ _ 1 u true "" sample_runs ltac:(by vm_compute) ltac:(by vm_compute) ltac:(by vm_compute))
    as (m1 & rows & m2 & c & v & H1 & _ & Hr & Hc & Hk & Hv & Ha & _).
  assert (Hb : user_key u = bob) by by vm_compute. rewrite Hb in Hk. exists m1, rows, m2, c, v. by split_and!.
Defined.

(** Files that are never there. *)
#[local] Instance no_files : FileSystem := {|
  FS := unit;
  try_make_dir _ fs := (fs, inr true);
  try_remove_dir_recursive _ fs := (fs, inr false);
  file_move _ _ fs := (fs, inl NotFound);
  file_try_remove _ fs := (fs, inr false);
  file_exists _ _ := false;
  file_copy _ _ fs := (fs, inl NotFound);
|}.

Abbreviation chars s := (list_ascii_of_string s).

Lemma realm_paths_are_apart_witness : exists p, realm_path (chars "/data") (chars "alice") (chars "/a b") tt = Some (tt, inr p)
  /\ exists dir user name, p = dir ++ user ++ ["/"%char] ++ name /\ "/"%char ∉ name.
Proof.
  pose (p := match realm_path (chars "/data") (chars "alice") (chars "/a b") tt with Some (_, inr p) => p | _ => [] end).
  assert (Hp : realm_path (chars "/data") (chars "alice") (chars "/a b") tt = Some (tt, inr p)) by by vm_compute.
  destruct (realm_paths_are_apart _ _ _ _ _ _ _ _ _ _ _ Hp Hp) as (_ & dir & user & name & _ & Hn & _ & _ & Hs & _).
  exists p. split; [exact Hp|]. exists dir, user, name. split; [exact Hn|exact Hs].
Defined.

Lemma pending_actions_are_left_witness : exists rows2,
  run_pending_actions (make_file_action_metadata (chars "/a") (chars "u") [] BackUpThenDeleteRealm None []) tt = Some (tt, inr rows2)
  /\ exists ds, rows2 ≡ₚ with_outcome false (make_file_action_metadata (chars "/a") (chars "u") [] BackUpThenDeleteRealm None []) ds.
Proof.
  destruct (pending_actions_are_left [] (chars "/a") (chars "u") [] BackUpThenDeleteRealm None (NoDup_nil_2)) as (_ & _ & Hrun).
  exists []. assert (Hr : run_pending_actions (make_file_action_metadata (chars "/a") (chars "u") [] BackUpThenDeleteRealm None []) tt = Some (tt, inr [])) by by vm_compute.
  split; [exact Hr|]. destruct (Hrun _ _ _ Hr) as (ds & _ & Hp). exists ds. exact Hp.
Defined.
